(* ===== verification/_CoqProject ===== *)
-Q . S2P
Prelude.v
Text.v
Utf8.v
Regroup.v
Hex.v
Event.v
Replacement.v
Deletion.v
Filter.v
Expanded.v
Agent.v
Block.v
Bech32.v
Wire.v
Transaction.v
Cost.v
Script.v
Taproot.v
Tapscript.v
Invoice.v
Scalar.v
CurveOrder.v
Musig2.v
Musig2Correct.v
RateLimit.v
Outbound.v
Hub.v
HubCorrect.v
HubDelivery.v
Handover.v
Recent.v
Store.v
StoreCorrect.v
StoreHistory.v
StoreConverge.v
Query.v
QueryCorrect.v
QueryHistory.v
Json.v
Custody.v
ProviderDb.v
Ledger.v
Reserve.v
MapSum.v
LedgerInv.v
LedgerChecks.v
LedgerCorrect.v
LedgerClaims.v
Watch.v
WatchJobs.v
WatchCorrect.v
Effects.v
Bitcoind.v
Health.v
Watchtower.v
WatchtowerCorrect.v
Pricing.v
PricingCorrect.v
RpcClient.v
Wallet.v
WalletCorrect.v
Funding.v
FundingCorrect.v
Liquidity.v
LiquidityCorrect.v
Settlement.v
SettlementCorrect.v
Ark.v
ArkGraph.v
ArkCorrect.v
Liquid.v
LiquidCorrect.v
