(* ===== verification/Prelude.v ===== *)
(** * Verification of the Immortal swap-network programs

    Immortal is a Nostr relay and the tools of an open market for Bitcoin
    swaps.  This library models, as executable Rocq functions, the parts of it
    that decide what is stored, shown, signed and paid, and proves what they
    promise.

    ** The program and the files that model it

    - _Shared vocabulary_: [Prelude] (results, checked integers, lists),
      [Text] and [Utf8] (Rust strings, decimals, splitting), [Regroup] (the
      bit-regrouping loops behind bech32 and base64).
    - _Events_ ([immortal-core/src/domain]): [Hex], [Event], [Replacement],
      [Deletion], [Filter] are [hex.rs], [event.rs] and [timestamp.rs],
      [replacement.rs], [deletion.rs] and [filter.rs]; [Expanded], [Agent] and
      [Block] are the checks of the extension kinds in [expanded.rs],
      [agent.rs] and [block.rs]; [Bech32] is [nip19.rs].
    - _Swap verification_ ([immortal-core/src/mkt_swp_verify.rs]): [Wire] and
      [Transaction] (the transaction codec), [Cost] (fees and dust), [Script]
      (leaf scripts and timelocks), [Taproot] and [Tapscript] (commitments,
      signature messages, witnesses and what they mean to BIP-342), [Invoice]
      (SegWit addresses and BOLT11), [Scalar] and [CurveOrder] (arithmetic
      modulo the group order), [Musig2] and [Musig2Correct] (the signing
      protocol).
    - _Ark_ ([immortal-core/src/ark.rs]): [Ark] (identifiers, canonical JSON,
      operators, the verification of a graph of virtual outputs), [ArkGraph]
      (its walks for cycles, depth and connection) and [ArkCorrect].
    - _Liquid_ ([immortal-core/src/liquid.rs]): [Liquid] (networks, assets,
      Elements transactions, the output of a swap, Taproot commitments and the
      signature hash, with the wallet's signature for it) and [LiquidCorrect].
    - _Relay gateway_ ([immortal-relay/src/gateway]): [RateLimit] is [rate.rs];
      [Outbound] and [Hub] are the queues and the actor of [subscription.rs],
      with their theorems in [HubCorrect], [HubDelivery] and [Recent];
      [Handover] is the notification task of [server.rs] with [catch_up] of
      [db.rs].
    - _Relay store_ ([immortal-relay/src/store]): [Store] is the admission
      transaction of [mod.rs] over the statements of [statements.rs] and the
      tables of [migrations/], with its theorems in [StoreCorrect],
      [StoreHistory] and [StoreConverge]; [Query] is the reading side, with
      [query_history] of [db.rs], and its theorems are in [QueryCorrect] and
      [QueryHistory].
    - _Provider ledger_ ([immortal-provider/src/store.rs] over the tables of
      [migrations/provider]): [Json] and [Custody] (the values a record may
      hold and the two filters that keep secrets out of them), [ProviderDb]
      (the tables with their CHECK constraints), [Ledger] and [Reserve]
      (capacity buckets, reservations, outputs, Ark units, effects, alerts),
      [Watch] and [WatchJobs] (watch jobs and their leases).  [MapSum],
      [LedgerInv], [LedgerChecks], [LedgerCorrect], [LedgerClaims] and
      [WatchCorrect] hold the invariant and the theorems.
    - _Watchtower_ ([watchtower.rs], [bitcoind.rs], [health.rs] of the same
      crate): [Effects] (a state and error monad with its reasoning rules),
      [Bitcoind] and [RpcClient] (the node client), [Health] (what operators
      see), [Watchtower] (payloads, the poll and the loop) and
      [WatchtowerCorrect].
    - _Quotes_ ([pricing.rs]): [Pricing] and [PricingCorrect].
    - _Wallet_ ([wallet.rs], [funding.rs], [liquidity.rs] and
      [settlement.rs]): [Wallet] (seed, derivation, addresses, signatures),
      [Funding] (the transaction that funds a swap), [Liquidity] (scanning the
      node for outputs of the wallet), [Settlement] (claims, refunds and
      cooperative rounds), with their theorems in [WalletCorrect],
      [FundingCorrect], [LiquidityCorrect] and [SettlementCorrect].

    An event comes in through the checks of the extension files, is admitted
    by [Store], announced to [Handover], fanned out by [Hub] to the queues of
    [Outbound], and read back by [Query].  A swap's transactions, scripts and
    signatures are checked by the verification files, and the graph behind an
    Ark leg by [Ark], with the same transactions, scripts and commitments.  A
    provider prices a request with [Pricing], finds its outputs with
    [Liquidity], takes capacity and outputs for the swap in the ledger, funds
    it with [Funding], settles it with [Settlement], and leaves the
    transactions it may have to publish as watch jobs, which the tower sends
    through the node client.

    ** How the code is rendered

    Pure functions are functions; [Result] is [result], [?] is its bind;
    integers are [Z] kept in the range of their type by the checked, saturating
    and wrapping operations the source uses; byte strings are [list Z]; maps
    and sets are [gmap] and [gset]; an actor or a database is a record and each
    operation a function from the old record to the new one, an error leaving
    the database as it was.  Statements run at READ COMMITTED: where a
    transaction reads before its locks are granted, the model reads another,
    older database.

    Packages outside the repository are parameters: a class holds their
    operations ([EventCrypto], [Secp256k1], [SerdeJson], [Unicode],
    [EventReader], [FullText], [JsonReader], [JsonText] and others), a second
    class their documented behaviour where a theorem needs it, and each theorem
    over such a class is applied to a concrete instance (the [toy_] and [ark_]
    definitions) in its witness.

    ** What is proved

    - _Codecs_: hexadecimal, bech32, base64, decimals, conditions, transactions
      and scripts are read back as they were written, and nothing else is
      accepted than what the writer writes, with the exceptions stated.
    - _Signatures_: MuSig2 sessions complete with a valid BIP-340 signature,
      aggregation blames the first bad share, a nonce signs once; signature
      messages commit to the spend; the accepted claim and refund witnesses
      spend under the Tapscript rules.
    - _Relay_: the tables of the hub and of the database agree after any
      history of operations; fan-out through the index is a scan of all
      subscriptions; every event still stored when it is announced reaches a
      subscription once and in order; history answers the best of what each
      filter selects, by the rules of live delivery with the differences
      stated; the stored set does not depend on the order of arrival, exactly
      when no coordinate has its last version deleted and an earlier one not;
      rates, connections, queues and the window of ephemeral ids are bounded.
    - _Ledger_: after any history allocated capacity is the sum of what live
      reservations hold, an output or unit has one holder, an active
      reservation can be released and its release gives back what it took, a
      repeated request changes nothing; leases exclude each other and attempts
      are bounded.
    - _Watchtower_: whatever the node answers, every transaction sent is the one
      its job is bound to; readiness is reported exactly when nothing is
      unresolved; an outage ends the loop after a bounded time; responses are
      read the same however the network cuts them.
    - _Quotes_: a quote exists exactly for the quotable requests and its numbers
      satisfy the published equation; the searches end; the miner budget pays
      for every transaction the swap may need; a price feed changes only the
      spread.
    - _Wallet_: the wallet can spend every address it derives; a scan reads
      amounts exactly, never disturbs the ledger and offers only outputs the
      node reported at the wallet's own scripts; a funding transaction over
      them pays what was asked, is signed correctly, and is refused only for
      lack of money.
    - _Settlement_: a claim or refund the provider returns spends the swap's
      output under the Tapscript rules within the fee limits, and is returned
      whenever the leaf is the wallet's; in a cooperative round nothing leaves
      out of turn, what it returns is signed for the output, and two honest
      signers finish it.
    - _Ark_: the transactions of an accepted graph can be published in order
      from the observed outputs under the Taproot rules exactly when none
      creates value, and leave the selected output to its owner; the
      verification always returns, and its walks are exact about cycles, depth
      and connection; identifiers are read as they are written.
    - _Liquid_: Elements transactions are read exactly as they are written; a
      signature hash commits to the spend, and the provider signs exactly the
      spends whose output commits to the leaf.
    - _Authority_: deletions reach only their author's events, an owner
      attestation and an HTTP authorization are accepted exactly for what they
      sign.
    - _Faults_: two visibility rules that disagree, a kind that neither hides,
      an import that stores rows whose reading stops the relay, an output lost
      to a released reservation, an unresolved effect that a reservation
      completes, a last attempt that is never made, a rejected broadcast that
      starves the jobs behind it, an Ark exit in seconds that is accepted and
      then refused, an Ark graph that creates value, and deletions after which
      the stored events depend on the order of arrival, each as a theorem about
      the code as it is.

    ** Fuel

    The loops of the source run over their input and are structural here.
    Fuel appears where they do not: [decimal_go] (one unit per digit, from the
    binary logarithm of the number) and [drain] (one unit per pending bit); the
    lemmas [decimal_go_spec] and [regroup_spec] show that it is enough.  The two
    searches of [Pricing] have fuel 66, above the 64 steps after which the code
    gives up, and [search_threshold] shows that neither bound is reached.
    [run] of [Watchtower] counts polls; [outage_ends] needs nine.  The walks
    [visit] and [depth_go] of [Ark] have one unit more than there are
    transactions, and [connect_loop] two more than there are edges either way;
    [cycles_exact], [depth_exact] and [connected_exact] show that they end.

    ** Not modelled

    Network, process and file input and output; HTTP and web-socket framing
    other than the reader of the node client; the message handlers of the
    gateway; groups, management, media, identity archive and swap coordination
    in the relay store; the JSON grammars of the market profiles in [mkt.rs];
    session records, invoice bindings and migrations of the provider store; the
    provider's sessions and other node clients; the Boltz routes of the core;
    the client libraries; the lab.  NIP-44 and NIP-59 are thin layers over
    ciphers that the repository does not contain. *)

From Stdlib Require Export ZArith Lia List Bool Ascii String.
From stdpp Require Export base tactics option list strings numbers gmap sorting.
From Stdlib Require Export ZifyBool ZifyNat.

#[global] Open Scope Z_scope.
#[global] Set Default Goal Selector "!".

Declare Scope rust_scope.
Delimit Scope rust_scope with rust.

(** ** Results: Rust's [Result<A, E>] *)

Inductive result (E A : Type) : Type :=
| Ok (a : A)
| Err (e : E).
Arguments Ok {E A} a.
Arguments Err {E A} e.

#[export] Instance result_ret {E} : MRet (result E) := fun A a => Ok a.
#[export] Instance result_bind {E} : MBind (result E) :=
  fun A B f m => match m with Ok a => f a | Err e => Err e end.
#[export] Instance result_fmap {E} : FMap (result E) :=
  fun A B f m => match m with Ok a => Ok (f a) | Err e => Err e end.

#[export] Instance result_eq_dec {E A} `{EqDecision E, EqDecision A} :
  EqDecision (result E A).
Proof. solve_decision. Defined.

(** [Option::ok_or] and [Result::map_err]. *)
Definition ok_or {E A} (e : E) (o : option A) : result E A :=
  match o with Some a => Ok a | None => Err e end.

Definition map_err {E F A} (f : E -> F) (m : result E A) : result F A :=
  match m with Ok a => Ok a | Err e => Err (f e) end.

Definition is_ok {E A} (m : result E A) : bool :=
  match m with Ok _ => true | Err _ => false end.

(** [Iterator::try_fold], which is also a [for] loop with [?] in its body. *)
Fixpoint try_fold {E A B} (f : B -> A -> result E B) (acc : B) (l : list A) : result E B :=
  match l with
  | [] => Ok acc
  | x :: l' => acc' ← f acc x; try_fold f acc' l'
  end.

(** [iter().map(f).collect::<Result<Vec<_>, _>>()]. *)
Fixpoint try_map {E A B} (f : A -> result E B) (l : list A) : result E (list B) :=
  match l with
  | [] => Ok []
  | x :: l' => y ← f x; ys ← try_map f l'; Ok (y :: ys)
  end.

(** [slice.len()]. *)
Definition len {A} (l : list A) : Z := Z.of_nat (length l).

Lemma len_app {A} (l k : list A) : len (l ++ k) = len l + len k.
Proof. unfold len. rewrite length_app. lia. Qed.

Lemma len_nonneg {A} (l : list A) : 0 <= len l.
Proof. unfold len. lia. Qed.

Section result_lemmas.
Implicit Types E A B : Type.

Lemma bind_Ok {E A B} (m : result E A) (f : A -> result E B) b :
  m ≫= f = Ok b <-> exists a, m = Ok a /\ f a = Ok b.
Proof.
  destruct m; cbn; split; try naive_solver.
Qed.

Lemma bind_Err {E A B} (m : result E A) (f : A -> result E B) e :
  m ≫= f = Err e <-> m = Err e \/ exists a, m = Ok a /\ f a = Err e.
Proof. destruct m; cbn; split; naive_solver. Qed.

Lemma Ok_inj {E A} (a b : A) : @Ok E A a = Ok b -> a = b.
Proof. congruence. Qed.

Lemma ok_or_Ok {E A} (o : option A) (e : E) a : ok_or e o = Ok a <-> o = Some a.
Proof. destruct o; cbn; naive_solver. Qed.

Lemma map_err_Ok {E F A} (f : E -> F) (m : result E A) a :
  map_err f m = Ok a <-> m = Ok a.
Proof. destruct m; cbn; naive_solver. Qed.

Lemma is_ok_spec {E A} (m : result E A) : is_ok m = true <-> exists a, m = Ok a.
Proof. destruct m; cbn; naive_solver. Qed.

Lemma try_fold_app {E A B} (f : B -> A -> result E B) acc l1 l2 :
  try_fold f acc (l1 ++ l2) = (acc' ← try_fold f acc l1; try_fold f acc' l2).
Proof.
  revert acc. induction l1 as [|x l1 IH]; intros acc; cbn; [done|].
  destruct (f acc x); cbn; [apply IH|done].
Qed.

Lemma try_map_Ok_Forall2 {E A B} (f : A -> result E B) l ys :
  try_map f l = Ok ys <-> Forall2 (fun x y => f x = Ok y) l ys.
Proof.
  revert ys. induction l as [|x l IH]; intros ys; cbn.
  - split; [intros [= <-]; constructor | inversion 1; done].
  - rewrite bind_Ok. setoid_rewrite bind_Ok. split.
    + intros (y & Hy & ys' & Hys & [= <-]). constructor; [done|]. by apply IH.
    + inversion 1; subst. eexists; split; [done|]. eexists. by rewrite IH.
Qed.

Lemma try_map_units {E A} (f : A -> result E unit) l :
  (forall i x, l !! i = Some x -> f x = Ok tt) -> try_map f l = Ok (replicate (length l) tt).
Proof.
  induction l as [|x l IH]; intros Hl; cbn [try_map length replicate]; [done|].
  rewrite (Hl 0%nat x), IH by (done || intros i; apply (Hl (S i))). done.
Qed.

(** A loop stops at the first error. *)
Lemma try_map_Err {E A B} (f : A -> result E B) l i x e :
  l !! i = Some x -> f x = Err e ->
  (forall j y, (j < i)%nat -> l !! j = Some y -> exists z, f y = Ok z) -> try_map f l = Err e.
Proof.
  revert i. induction l as [|a l IH]; intros [|i] Hx He Hok; cbn [try_map]; try done.
  - injection Hx as ->. by rewrite He.
  - destruct (Hok 0%nat a) as [z ->]; [lia|done|]. cbn [mbind result_bind].
    rewrite (IH i); [done|done|done|]. intros j y Hj Hy. apply (Hok (S j)); [lia|done].
Qed.

(** A choice for every position of a list. *)
Lemma list_choice {A B} (l : list A) (R : nat -> A -> B -> Prop) :
  (forall i x, l !! i = Some x -> exists y, R i x y) ->
  exists ys, length ys = length l /\ forall i x y, l !! i = Some x -> ys !! i = Some y -> R i x y.
Proof.
  revert R. induction l as [|a l IH]; intros R Hl; [by exists []|].
  destruct (Hl 0%nat a eq_refl) as [y Hy].
  destruct (IH (fun i => R (S i)) (fun i => Hl (S i))) as (ys & Hlen & Hys).
  exists (y :: ys). split; [by cbn; rewrite Hlen|]. intros [|i] x z; cbn; [congruence|apply Hys].
Qed.

Lemma try_map_app {E A B} (f : A -> result E B) l1 l2 :
  try_map f (l1 ++ l2) =
    (ys1 ← try_map f l1; ys2 ← try_map f l2; Ok (ys1 ++ ys2)).
Proof.
  induction l1 as [|x l1 IH]; cbn.
  - by destruct (try_map f l2).
  - destruct (f x); cbn; [|done]. rewrite IH.
    destruct (try_map f l1); cbn; [|done]. by destruct (try_map f l2).
Qed.
End result_lemmas.

(** Decompose a successful run: every [?] succeeded and every guard passed. *)
Ltac run_inv :=
  repeat match goal with
  | H : Ok _ = Ok _ |- _ => injection H as H
  | H : Err _ = Ok _ |- _ => discriminate H
  | H : Some _ = None |- _ => discriminate H
  | H : None = Some _ |- _ => discriminate H
  | H : Some _ = Some _ |- _ => injection H as H
  | H : mbind _ _ = Ok _ |- _ => apply bind_Ok in H as (? & ? & H)
  | H : ok_or _ _ = Ok _ |- _ => apply ok_or_Ok in H
  | H : map_err _ _ = Ok _ |- _ => apply map_err_Ok in H
  | H : (if ?b then Err _ else _) = Ok _ |- _ => destruct b eqn:?; [discriminate H|]
  | H : (if ?b then _ else Err _) = Ok _ |- _ => destruct b eqn:?; [|discriminate H]
  | H : (if ?b then None else _) = Some _ |- _ => destruct b eqn:?; [discriminate H|]
  | H : (if ?b then _ else None) = Some _ |- _ => destruct b eqn:?; [|discriminate H]
  end.

(** The value of a check that only succeeds or fails. *)
Ltac unit_results := repeat match goal with u : unit |- _ => destruct u end.

(** Turn boolean tests of the code into arithmetic facts. *)
Ltac bool_to_prop :=
  repeat match goal with
  | H : _ && _ = true |- _ => apply andb_true_iff in H as [? ?]
  | H : _ || _ = false |- _ => apply orb_false_iff in H as [? ?]
  | H : negb _ = true |- _ => apply negb_true_iff in H
  | H : negb _ = false |- _ => apply negb_false_iff in H
  | H : (_ <? _) = true |- _ => apply Z.ltb_lt in H
  | H : (_ <? _) = false |- _ => apply Z.ltb_ge in H
  | H : (_ <=? _) = true |- _ => apply Z.leb_le in H
  | H : (_ <=? _) = false |- _ => apply Z.leb_gt in H
  | H : (_ =? _) = true |- _ => apply Z.eqb_eq in H
  | H : (_ =? _) = false |- _ => apply Z.eqb_neq in H
  | H : (_ >? _) = true |- _ => rewrite Z.gtb_lt in H
  | H : (_ >? _) = false |- _ => rewrite Z.gtb_ltb in H
  | H : (_ >=? _) = true |- _ => rewrite Z.geb_leb in H
  | H : (_ >=? _) = false |- _ => rewrite Z.geb_leb in H
  | H : bool_decide _ = true |- _ => apply bool_decide_eq_true in H
  | H : bool_decide _ = false |- _ => apply bool_decide_eq_false in H
  end.

(** Decide the boolean test under an [if] of the goal by arithmetic. *)
Ltac decide_if :=
  repeat match goal with
  | |- context [if ?b then _ else _] =>
      (let H := fresh in assert (b = true) as H by lia; rewrite H; clear H) ||
      (let H := fresh in assert (b = false) as H by lia; rewrite H; clear H)
  end.

(** ** Fixed-width unsigned integers *)

Definition U8_MAX : Z := 255.
Definition U16_MAX : Z := 65535.
Definition U32_MAX : Z := 4294967295.
Definition U64_MAX : Z := 18446744073709551615.
Definition U128_MAX : Z := 340282366920938463463374607431768211455.

Definition in_u (max x : Z) : Prop := 0 <= x <= max.

#[export] Instance in_u_dec max x : Decision (in_u max x).
Proof. unfold in_u. apply _. Defined.

(** [checked_add], [checked_sub], [checked_mul], [saturating_add] and
    [saturating_sub] at the width whose largest value is [max]. *)
Definition checked_add (max a b : Z) : option Z :=
  if a + b <=? max then Some (a + b) else None.
Definition checked_sub (a b : Z) : option Z :=
  if b <=? a then Some (a - b) else None.
Definition checked_mul (max a b : Z) : option Z :=
  if a * b <=? max then Some (a * b) else None.
Definition saturating_add (max a b : Z) : Z := Z.min max (a + b).
Definition saturating_sub (a b : Z) : Z := Z.max 0 (a - b).

(** [uN::try_from] of a value of a wider unsigned type. *)
Definition try_from_u (max a : Z) : option Z := if a <=? max then Some a else None.

(** [u64::div_ceil] and its like at the other widths. *)
Definition div_ceil (a b : Z) : Z := a / b + (if a mod b =? 0 then 0 else 1).

(** [u32::wrapping_add] and the shift [<<] of a [u32], which drops the bits
    shifted past the top. *)
Definition wrap32 (a : Z) : Z := a mod 2 ^ 32.
Definition shl32 (a k : Z) : Z := wrap32 (Z.shiftl a k).

Section integer_lemmas.
Implicit Types a b c max : Z.

Lemma checked_add_Some max a b c :
  checked_add max a b = Some c <-> c = a + b /\ a + b <= max.
Proof. unfold checked_add. destruct (Z.leb_spec (a + b) max); naive_solver lia. Qed.

Lemma checked_sub_Some a b c : checked_sub a b = Some c <-> c = a - b /\ b <= a.
Proof. unfold checked_sub. destruct (Z.leb_spec b a); naive_solver lia. Qed.

Lemma checked_mul_Some max a b c :
  checked_mul max a b = Some c <-> c = a * b /\ a * b <= max.
Proof. unfold checked_mul. destruct (Z.leb_spec (a * b) max); naive_solver lia. Qed.

Lemma try_from_u_Some max a c : try_from_u max a = Some c <-> c = a /\ a <= max.
Proof. unfold try_from_u. destruct (Z.leb_spec a max); naive_solver lia. Qed.

Lemma checked_add_eq max a b : a + b <= max -> checked_add max a b = Some (a + b).
Proof. intros. by apply checked_add_Some. Qed.
Lemma checked_sub_eq a b : b <= a -> checked_sub a b = Some (a - b).
Proof. intros. by apply checked_sub_Some. Qed.
Lemma checked_mul_eq max a b : a * b <= max -> checked_mul max a b = Some (a * b).
Proof. intros. by apply checked_mul_Some. Qed.
Lemma try_from_u_eq max a : a <= max -> try_from_u max a = Some a.
Proof. intros. by apply try_from_u_Some. Qed.

Lemma div_ceil_spec a b : 0 < b -> (div_ceil a b - 1) * b < a <= div_ceil a b * b.
Proof.
  intros Hb. unfold div_ceil.
  pose proof (Z.div_mod a b ltac:(lia)). pose proof (Z.mod_pos_bound a b Hb).
  destruct (Z.eqb_spec (a mod b) 0); nia.
Qed.

Lemma div_ceil_unique a b q : 0 < b -> (q - 1) * b < a <= q * b -> div_ceil a b = q.
Proof. intros Hb H. pose proof (div_ceil_spec a b Hb). nia. Qed.
End integer_lemmas.

(** ** Bit operations as arithmetic *)

Section bit_lemmas.
Implicit Types a b k : Z.

Lemma land_shiftl_low a b k : 0 <= k -> 0 <= b < 2 ^ k -> Z.land (Z.shiftl a k) b = 0.
Proof.
  intros Hk Hb. rewrite <- (Z.mod_small b (2 ^ k)), <- Z.land_ones by lia.
  apply Z.bits_inj'. intros n Hn. rewrite !Z.land_spec, Z.bits_0.
  destruct (Z.lt_ge_cases n k).
  - by rewrite Z.shiftl_spec_low.
  - by rewrite Z.ones_spec_high, !andb_false_r by lia.
Qed.

(** A shifted value or-ed with one that fits below it is their sum. *)
Lemma lor_shiftl a b k : 0 <= k -> 0 <= b < 2 ^ k -> Z.lor (Z.shiftl a k) b = a * 2 ^ k + b.
Proof.
  intros Hk Hb. pose proof (land_shiftl_low a b k Hk Hb) as H0.
  rewrite <- Z.lxor_lor, <- Z.add_nocarry_lxor by done.
  by rewrite Z.shiftl_mul_pow2.
Qed.

Lemma land_mask a k : 0 <= k -> Z.land a (2 ^ k - 1) = a mod 2 ^ k.
Proof. intros Hk. rewrite <- Z.land_ones, Z.ones_equiv by done. done. Qed.
End bit_lemmas.

(** ** [Iterator::filter] *)

Section filter_lemmas.
Context {A : Type}.
Implicit Types (f : A -> bool) (l : list A).

Lemma elem_of_bfilter f l x : x ∈ List.filter f l <-> x ∈ l /\ f x = true.
Proof. by rewrite !list_elem_of_In, filter_In. Qed.

Lemma bfilter_none f l : (forall x, x ∈ l -> f x = false) -> List.filter f l = [].
Proof.
  intros Hf. induction l as [|x l IH]; [done|]. cbn. rewrite Hf by apply list_elem_of_here.
  apply IH. intros y Hy. apply Hf. by apply list_elem_of_further.
Qed.

Lemma bfilter_ext f g l : (forall x, x ∈ l -> f x = g x) -> List.filter f l = List.filter g l.
Proof. intros Hfg. apply filter_ext_in. intros x Hx. apply Hfg. by apply list_elem_of_In. Qed.

Lemma bfilter_all f l : (forall x, x ∈ l -> f x = true) -> List.filter f l = l.
Proof.
  intros Hf. induction l as [|x l IH]; [done|]. cbn. rewrite Hf by apply list_elem_of_here.
  f_equal. apply IH. intros y Hy. apply Hf. by apply list_elem_of_further.
Qed.

Lemma bfilter_bfilter f g l : List.filter f (List.filter g l) = List.filter (fun x => g x && f x) l.
Proof. induction l as [|x l IH]; [done|]. cbn. destruct (g x); cbn; [destruct (f x)|]; congruence. Qed.

Lemma StronglySorted_bfilter (R : relation A) f l : StronglySorted R l -> StronglySorted R (List.filter f l).
Proof.
  induction 1 as [|x l Hl IH Hx]; [constructor|]. cbn. destruct (f x); [|done]. constructor; [done|].
  rewrite Forall_forall in *. intros y Hy. apply elem_of_bfilter in Hy as [Hy _]. by apply Hx.
Qed.
Lemma bfilter_sublist (f : A -> bool) l : List.filter f l `sublist_of` l.
Proof. induction l as [|x l IH]; [done|]. cbn. destruct (f x); [by apply sublist_skip|by apply sublist_cons]. Qed.
End filter_lemmas.
