(* ===== verification/Text.v ===== *)
(** * Text: the parts of Rust's [str], [u8] and integer formatting in use

    A [str] is a [string] whose characters are its UTF-8 bytes, and [&[u8]]
    is a [list Z] of values below 256.  The definitions follow the standard
    library: [str::parse] of an unsigned integer takes one leading [+] and
    any number of leading zeros, [to_string] prints no sign and no leading
    zero. *)

From S2P Require Import Prelude.

(** ** Bytes *)

Definition is_byte (b : Z) : Prop := 0 <= b < 256.

#[export] Instance is_byte_dec b : Decision (is_byte b).
Proof. unfold is_byte. apply _. Defined.

(** A test that holds of the 256 byte values holds of every byte. *)
Definition all_bytes : list Z := Z.of_nat <$> seq 0 256.

Lemma byte_forall (P : Z -> bool) :
  forallb P all_bytes = true -> forall b, is_byte b -> P b = true.
Proof.
  intros H b [Hb1 Hb2]. rewrite forallb_forall in H. apply H.
  unfold all_bytes. apply list_elem_of_In, list_elem_of_fmap.
  exists (Z.to_nat b). rewrite elem_of_seq. lia.
Qed.

(** Concrete byte strings are checked by evaluation. *)
Lemma bytes_check l : forallb (fun b => (0 <=? b) && (b <? 256)) l = true -> Forall is_byte l.
Proof.
  rewrite forallb_forall. intros Hl. apply Forall_forall. intros b Hb%list_elem_of_In%Hl.
  unfold is_byte. lia.
Qed.

Definition byte_of_ascii (c : ascii) : Z := Z.of_N (N_of_ascii c).
Definition ascii_of_byte (b : Z) : ascii := ascii_of_N (Z.to_N b).

(** [str::as_bytes] and the inverse, [char::from] of each byte collected. *)
Definition as_bytes (s : string) : list Z := byte_of_ascii <$> list_ascii_of_string s.
Definition of_bytes (l : list Z) : string := string_of_list_ascii (ascii_of_byte <$> l).

Definition str_len (s : string) : Z := Z.of_nat (length (as_bytes s)).

Lemma byte_of_ascii_range c : is_byte (byte_of_ascii c).
Proof. unfold is_byte, byte_of_ascii. pose proof (N_ascii_bounded c). lia. Qed.

Lemma ascii_of_byte_of_ascii c : ascii_of_byte (byte_of_ascii c) = c.
Proof. unfold ascii_of_byte, byte_of_ascii. by rewrite N2Z.id, ascii_N_embedding. Qed.

Lemma byte_of_ascii_of_byte b : is_byte b -> byte_of_ascii (ascii_of_byte b) = b.
Proof.
  unfold is_byte, ascii_of_byte, byte_of_ascii. intros Hb.
  rewrite N_ascii_embedding; lia.
Qed.

Lemma as_bytes_range s : Forall is_byte (as_bytes s).
Proof. unfold as_bytes. apply Forall_fmap, Forall_true. intros; apply byte_of_ascii_range. Qed.

Lemma of_bytes_as_bytes s : of_bytes (as_bytes s) = s.
Proof.
  unfold of_bytes, as_bytes. rewrite <- (string_of_list_ascii_of_string s) at 2.
  f_equal. induction (list_ascii_of_string s) as [|c l IH]; cbn; [done|].
  by rewrite ascii_of_byte_of_ascii, IH.
Qed.

Lemma as_bytes_of_bytes l : Forall is_byte l -> as_bytes (of_bytes l) = l.
Proof.
  intros H. unfold of_bytes, as_bytes. rewrite list_ascii_of_string_of_list_ascii.
  induction H as [|b l Hb _ IH]; cbn; [done|].
  by rewrite byte_of_ascii_of_byte, IH.
Qed.

Lemma as_bytes_length s : length (as_bytes s) = String.length s.
Proof. unfold as_bytes. rewrite length_fmap. by induction s as [|c s IH]; cbn; [|rewrite IH]. Qed.

Lemma of_bytes_length l : String.length (of_bytes l) = length l.
Proof. unfold of_bytes. by induction l as [|b l IH]; cbn; [|rewrite IH]. Qed.

Lemma as_bytes_inj s t : as_bytes s = as_bytes t -> s = t.
Proof. intros H. by rewrite <- (of_bytes_as_bytes s), H, of_bytes_as_bytes. Qed.

Lemma as_bytes_app s t : as_bytes (s +:+ t) = as_bytes s ++ as_bytes t.
Proof.
  unfold as_bytes. induction s as [|c s IH]; [done|].
  change (String c s +:+ t) with (String c (s +:+ t)). cbn. by rewrite IH.
Qed.

Lemma as_bytes_String c s : as_bytes (String c s) = byte_of_ascii c :: as_bytes s.
Proof. done. Qed.

Lemma of_bytes_app l k : of_bytes (l ++ k) = of_bytes l +:+ of_bytes k.
Proof.
  unfold of_bytes. induction l as [|b l IH]; [done|]. cbn. by rewrite IH.
Qed.

(** ** Character classes of [u8] *)

Definition is_ascii_digit (b : Z) : bool := (48 <=? b) && (b <=? 57).
Definition is_ascii_lowercase (b : Z) : bool := (97 <=? b) && (b <=? 122).
Definition is_ascii_uppercase (b : Z) : bool := (65 <=? b) && (b <=? 90).
Definition is_ascii_alphabetic (b : Z) : bool := is_ascii_lowercase b || is_ascii_uppercase b.
Definition is_ascii_alphanumeric (b : Z) : bool := is_ascii_alphabetic b || is_ascii_digit b.
Definition is_ascii_hexdigit (b : Z) : bool :=
  is_ascii_digit b || ((97 <=? b) && (b <=? 102)) || ((65 <=? b) && (b <=? 70)).
Definition is_ascii_control (b : Z) : bool := (b <? 32) || (b =? 127).
Definition is_ascii_whitespace (b : Z) : bool :=
  (b =? 32) || (b =? 9) || (b =? 10) || (b =? 12) || (b =? 13).

(** [str::is_ascii]. *)
Definition is_ascii (s : string) : bool := forallb (fun b => b <? 128) (as_bytes s).

Definition to_ascii_lowercase_byte (b : Z) : Z := if is_ascii_uppercase b then b + 32 else b.
Definition to_ascii_lowercase (s : string) : string :=
  of_bytes (to_ascii_lowercase_byte <$> as_bytes s).

Lemma to_ascii_lowercase_byte_range b : is_byte b -> is_byte (to_ascii_lowercase_byte b).
Proof.
  unfold is_byte, to_ascii_lowercase_byte, is_ascii_uppercase. intros.
  destruct (_ && _) eqn:?; bool_to_prop; lia.
Qed.

Lemma as_bytes_lowercase s :
  as_bytes (to_ascii_lowercase s) = to_ascii_lowercase_byte <$> as_bytes s.
Proof.
  unfold to_ascii_lowercase. apply as_bytes_of_bytes, Forall_fmap.
  eapply Forall_impl; [apply as_bytes_range|]. apply to_ascii_lowercase_byte_range.
Qed.

(** Ranges of bytes, for the side conditions of the codecs. *)
Create HintDb bytes discriminated.
#[export] Hint Resolve as_bytes_range byte_of_ascii_range to_ascii_lowercase_byte_range : bytes.
#[export] Hint Constructors Forall : bytes.

(** ** Decimal integers *)

Definition digit (d : Z) : Z := 48 + d.

(** [to_string] of an unsigned integer: the digits of [n / 10], then the
    last one.  One unit of fuel is spent per digit. *)
Fixpoint decimal_go (fuel : nat) (n : Z) : list Z :=
  match fuel with
  | O => []
  | S fuel => if n <? 10 then [digit n] else decimal_go fuel (n / 10) ++ [digit (n mod 10)]
  end.

Definition decimal_fuel (n : Z) : nat := S (Z.to_nat (Z.log2 n)).
Definition decimal_bytes (n : Z) : list Z := decimal_go (decimal_fuel n) n.
Definition to_string (n : Z) : string := of_bytes (decimal_bytes n).

(** The value of a string of decimal digits. *)
Definition digits_value (l : list Z) : Z := fold_left (fun acc b => 10 * acc + (b - 48)) l 0.

(** [str::parse::<uN>] where [max] is the largest value of the type. *)
Definition parse_digits (max : Z) (l : list Z) : option Z :=
  if match l with [] => true | _ => false end || negb (forallb is_ascii_digit l) then None
  else let v := digits_value l in if v <=? max then Some v else None.

Definition parse_bytes (max : Z) (l : list Z) : option Z :=
  match l with
  | 43 :: l' => parse_digits max l'
  | _ => parse_digits max l
  end.

Definition parse_u (max : Z) (s : string) : option Z := parse_bytes max (as_bytes s).

Lemma digits_value_snoc l b : digits_value (l ++ [b]) = 10 * digits_value l + (b - 48).
Proof. unfold digits_value. by rewrite fold_left_app. Qed.

Lemma decimal_go_spec fuel n :
  0 <= n -> n < 10 ^ Z.of_nat fuel ->
  forallb is_ascii_digit (decimal_go fuel n) = true
  /\ digits_value (decimal_go fuel n) = n
  /\ (0 < Z.of_nat fuel -> decimal_go fuel n <> []).
Proof.
  revert n. induction fuel as [|fuel IH]; intros n Hn Hlt.
  { cbn in Hlt. assert (n = 0) as -> by lia. by repeat split. }
  cbn [decimal_go]. rewrite Nat2Z.inj_succ, Z.pow_succ_r in Hlt by lia.
  destruct (Z.ltb_spec n 10) as [Hlt10|Hge].
  - cbn. unfold is_ascii_digit, digit. repeat split; try done; try lia.
  - destruct (IH (n / 10)) as (Hd & Hv & _);
      [apply Z.div_pos; lia | apply Z.div_lt_upper_bound; lia |].
    pose proof (Z.mod_pos_bound n 10 ltac:(lia)). repeat split.
    + rewrite forallb_app, Hd. cbn. unfold is_ascii_digit, digit. lia.
    + rewrite digits_value_snoc, Hv. unfold digit. pose proof (Z.div_mod n 10 ltac:(lia)). lia.
    + intros _ Hnil. by apply app_eq_nil in Hnil as [_ ?].
Qed.

Lemma decimal_fuel_enough n : 0 <= n -> n < 10 ^ Z.of_nat (decimal_fuel n).
Proof.
  intros Hn. unfold decimal_fuel. rewrite Nat2Z.inj_succ, Z2Nat.id by apply Z.log2_nonneg.
  destruct (Z.eq_dec n 0) as [->|Hne]; [cbn; lia|].
  pose proof (Z.log2_spec n ltac:(lia)) as [_ Hlt].
  eapply Z.lt_le_trans; [exact Hlt|].
  apply Z.pow_le_mono_l. pose proof (Z.log2_nonneg n). lia.
Qed.

Lemma decimal_bytes_digits n : 0 <= n -> forallb is_ascii_digit (decimal_bytes n) = true.
Proof. intros. apply decimal_go_spec; [lia|by apply decimal_fuel_enough]. Qed.

Lemma decimal_bytes_value n : 0 <= n -> digits_value (decimal_bytes n) = n.
Proof. intros. apply decimal_go_spec; [lia|by apply decimal_fuel_enough]. Qed.

Lemma decimal_bytes_nonempty n : 0 <= n -> decimal_bytes n <> [].
Proof. intros. apply decimal_go_spec; [lia|by apply decimal_fuel_enough|unfold decimal_fuel; lia]. Qed.

Lemma digit_bytes_range l : forallb is_ascii_digit l = true -> Forall is_byte l.
Proof.
  intros H. apply Forall_forall. intros b Hb.
  rewrite forallb_forall in H. apply list_elem_of_In, H in Hb.
  unfold is_ascii_digit in Hb. unfold is_byte. bool_to_prop. lia.
Qed.

Lemma as_bytes_to_string n : 0 <= n -> as_bytes (to_string n) = decimal_bytes n.
Proof.
  intros. unfold to_string. apply as_bytes_of_bytes, digit_bytes_range.
  by apply decimal_bytes_digits.
Qed.

Lemma parse_bytes_digits max l :
  forallb is_ascii_digit l = true -> parse_bytes max l = parse_digits max l.
Proof.
  intros H. unfold parse_bytes. destruct l as [|b l]; [done|].
  destruct (Z.eq_dec b 43) as [->|]; [cbn in H; done|].
  repeat case_match; try done; lia.
Qed.

Lemma parse_digits_decimal max n :
  0 <= n <= max -> parse_digits max (decimal_bytes n) = Some n.
Proof.
  intros Hn. unfold parse_digits.
  rewrite decimal_bytes_digits, decimal_bytes_value by lia.
  pose proof (decimal_bytes_nonempty n ltac:(lia)).
  destruct (decimal_bytes n); [done|]. cbn. by decide_if.
Qed.

(** Parsing what was printed gives the number back. *)
Lemma parse_u_to_string max n : 0 <= n <= max -> parse_u max (to_string n) = Some n.
Proof.
  intros Hn. unfold parse_u. rewrite as_bytes_to_string by lia.
  rewrite parse_bytes_digits by (apply decimal_bytes_digits; lia).
  by apply parse_digits_decimal.
Qed.

Lemma to_string_inj m n : 0 <= m -> 0 <= n -> to_string m = to_string n -> m = n.
Proof.
  intros Hm Hn H. apply (f_equal as_bytes) in H.
  rewrite !as_bytes_to_string in H by lia.
  by rewrite <- (decimal_bytes_value m), H, decimal_bytes_value.
Qed.

Lemma digits_value_nonneg l : forallb is_ascii_digit l = true -> 0 <= digits_value l.
Proof.
  induction l as [|b l IH] using rev_ind; [cbn; lia|].
  rewrite forallb_app, digits_value_snoc. intros H. bool_to_prop. cbn in *.
  unfold is_ascii_digit in *. bool_to_prop. specialize (IH ltac:(done)). lia.
Qed.

Lemma parse_u_range max s v : parse_u max s = Some v -> 0 <= v <= max.
Proof.
  assert (forall l, parse_digits max l = Some v -> 0 <= v <= max) as Hd.
  { intros l. unfold parse_digits. intros H. run_inv. bool_to_prop. subst.
    split; [by apply digits_value_nonneg | done]. }
  unfold parse_u, parse_bytes. intros H. repeat case_match; by eapply Hd.
Qed.

(** *** Canonical decimals *)

(** No sign, no leading zero: [!is_empty && all digits && !(len > 1 && starts_with('0'))]. *)
Definition is_canonical_decimal (s : string) : bool :=
  match as_bytes s with
  | [] => false
  | b :: l => forallb is_ascii_digit (b :: l) && negb ((1 <? Z.of_nat (length (b :: l))) && (b =? 48))
  end.

Lemma digits_value_lower b l :
  forallb is_ascii_digit (b :: l) = true -> b <> 48 ->
  10 ^ Z.of_nat (length l) <= digits_value (b :: l).
Proof.
  induction l as [|c l IH] using rev_ind; intros Hd Hb.
  { cbn in *. unfold is_ascii_digit in Hd. bool_to_prop. lia. }
  rewrite app_comm_cons, forallb_app in Hd. apply andb_true_iff in Hd as [Hd Hc]. cbn in Hc.
  rewrite app_comm_cons, digits_value_snoc, length_app.
  replace (Z.of_nat (length l + length [c])) with (Z.succ (Z.of_nat (length l))) by (cbn; lia).
  rewrite Z.pow_succ_r by lia. unfold is_ascii_digit in Hc. bool_to_prop.
  specialize (IH Hd Hb). lia.
Qed.

Lemma decimal_go_digits b l fuel :
  forallb is_ascii_digit (b :: l) = true -> (l <> [] -> b <> 48) -> (length l < fuel)%nat ->
  decimal_go fuel (digits_value (b :: l)) = b :: l.
Proof.
  revert fuel. induction l as [|c l IH] using rev_ind; intros fuel Hd Hb Hf; (destruct fuel as [|fuel]; [lia|]).
  { cbn in *. unfold is_ascii_digit, digit in *. bool_to_prop. decide_if. f_equal. lia. }
  rewrite length_app in Hf. cbn in Hf.
  rewrite app_comm_cons, forallb_app in Hd. apply andb_true_iff in Hd as [Hd Hc]. cbn in Hc.
  rewrite app_comm_cons.
  assert (b <> 48) as Hb0 by (apply Hb; by destruct l).
  pose proof (digits_value_lower b l Hd Hb0) as Hlow. pose proof (Z.pow_pos_nonneg 10 (Z.of_nat (length l))).
  unfold is_ascii_digit in Hc. bool_to_prop. rewrite digits_value_snoc. cbn [decimal_go]. decide_if.
  rewrite (Z.mul_comm 10), Z.div_add_l, (Z.div_small (c - 48)), Z.add_0_r by lia.
  rewrite IH by (done || lia). f_equal. rewrite Z.add_comm, Z.mod_add, Z.mod_small by lia.
  unfold digit. f_equal. lia.
Qed.

Lemma decimal_bytes_unique b l :
  forallb is_ascii_digit (b :: l) = true -> (l <> [] -> b <> 48) ->
  decimal_bytes (digits_value (b :: l)) = b :: l.
Proof.
  intros Hd Hb. apply decimal_go_digits; [done..|]. unfold decimal_fuel. destruct l as [|c l]; [cbn; lia|].
  pose proof (digits_value_lower b (c :: l) Hd (Hb ltac:(done))) as Hlow.
  assert (2 ^ Z.of_nat (length (c :: l)) <= digits_value (b :: c :: l)) as H2.
  { etransitivity; [|exact Hlow]. apply Z.pow_le_mono_l. lia. }
  apply Z.log2_le_mono in H2. rewrite Z.log2_pow2 in H2 by lia. lia.
Qed.

Lemma decimal_bytes_canonical n :
  0 <= n -> exists b l, decimal_bytes n = b :: l /\ (l <> [] -> b <> 48).
Proof.
  intros Hn. pose proof (decimal_bytes_nonempty n Hn) as Hne. pose proof (decimal_bytes_digits n Hn) as Hd.
  assert (forall fuel m, 0 <= m -> m < 10 ^ Z.of_nat fuel -> forall b l,
    decimal_go fuel m = b :: l -> (l <> [] -> b <> 48) /\ (0 < m -> b <> 48)) as Hgo.
  { intros fuel. induction fuel as [|fuel IH]; intros m Hm Hlt b l; cbn [decimal_go]; [done|].
    rewrite Nat2Z.inj_succ, Z.pow_succ_r in Hlt by lia.
    destruct (Z.ltb_spec m 10); intros Heq.
    - injection Heq as <- <-. unfold digit. split; [done|lia].
    - assert (0 < m / 10) by (apply Z.div_str_pos; lia).
      destruct (decimal_go fuel (m / 10)) as [|b' l'] eqn:Hr; cbn in Heq; injection Heq as <- <-.
      + exfalso. destruct fuel as [|fuel]; [cbn in Hlt; lia|].
        apply (decimal_go_spec (S fuel) (m / 10)); [lia|apply Z.div_lt_upper_bound; lia|lia|done].
      + destruct (IH (m / 10) ltac:(lia) ltac:(apply Z.div_lt_upper_bound; lia) b' l' Hr). split; auto. }
  destruct (decimal_bytes n) as [|b l] eqn:Hb; [done|]. exists b, l. split; [done|].
  by apply (Hgo _ n Hn (decimal_fuel_enough n Hn) b l).
Qed.

(** A canonical decimal at most [max] is exactly the printed form of a number
    at most [max]. *)
Lemma canonical_decimal_iff bound max s v :
  max <= bound ->
  (is_canonical_decimal s = true /\ parse_u bound s = Some v /\ v <= max)
  <-> (s = to_string v /\ 0 <= v <= max).
Proof.
  intros Hmax. unfold is_canonical_decimal. split.
  - intros (Hc & Hp & Hv). pose proof (parse_u_range _ _ _ Hp). split; [|lia].
    apply as_bytes_inj. rewrite as_bytes_to_string by lia.
    destruct (as_bytes s) as [|b l] eqn:Hs; [done|]. apply andb_true_iff in Hc as [Hd Hz].
    unfold parse_u in Hp. rewrite Hs, parse_bytes_digits in Hp by done.
    unfold parse_digits in Hp. rewrite Hd in Hp. cbn [orb negb] in Hp. run_inv. subst v.
    symmetry. apply decimal_bytes_unique; [done|]. intros Hl ->. destruct l; [done|].
    cbn -[Z.of_nat] in Hz. lia.
  - intros [-> Hv]. rewrite as_bytes_to_string by lia. split; [|split; [apply parse_u_to_string|]; lia].
    pose proof (decimal_bytes_digits v ltac:(lia)) as Hd.
    destruct (decimal_bytes_canonical v ltac:(lia)) as (b & l & Heq & Hb). rewrite Heq in *. rewrite Hd. cbn [andb].
    destruct l as [|c l]; [done|]. assert (b <> 48) by (by apply Hb). lia.
Qed.

(** ** Splitting *)

(** Split at the first byte equal to [sep]: [str::split_once]. *)
Fixpoint split_once_bytes (sep : Z) (l : list Z) : option (list Z * list Z) :=
  match l with
  | [] => None
  | b :: l' =>
      if b =? sep then Some ([], l')
      else match split_once_bytes sep l' with
           | Some (x, y) => Some (b :: x, y)
           | None => None
           end
  end.

Definition split_once (sep : Z) (s : string) : option (string * string) :=
  match split_once_bytes sep (as_bytes s) with
  | Some (x, y) => Some (of_bytes x, of_bytes y)
  | None => None
  end.

Lemma split_once_bytes_Some sep l x y :
  split_once_bytes sep l = Some (x, y) <-> l = x ++ sep :: y /\ sep ∉ x.
Proof.
  revert x y. induction l as [|b l IH]; intros x y; cbn.
  { split; [done|]. intros [H _]. by destruct x. }
  destruct (Z.eqb_spec b sep) as [->|Hne].
  - split.
    + intros [= <- <-]. split; [done|]. apply not_elem_of_nil.
    + intros [H Hx]. destruct x as [|b' x]; cbn in H; [by simplify_eq|].
      exfalso. apply Hx. simplify_eq. constructor.
  - destruct (split_once_bytes sep l) as [[x' y']|] eqn:E.
    + destruct (proj1 (IH _ _) eq_refl) as [-> Hx']. split.
      * intros [= <- <-]. split; [done|]. rewrite not_elem_of_cons. done.
      * intros [H Hx]. destruct x as [|b' x]; cbn in H; simplify_eq.
        rewrite not_elem_of_cons in Hx. destruct Hx as [_ Hx].
        assert (Some (x', y') = Some (x, y)) as [= -> ->]; [|done].
        apply IH. done.
    + split; [done|]. intros [H Hx]. destruct x as [|b' x]; cbn in H; simplify_eq.
      rewrite not_elem_of_cons in Hx. destruct Hx as [_ Hx].
      discriminate (proj2 (IH x y) (conj eq_refl Hx)).
Qed.

(** [str::split] on one byte: always at least one piece. *)
Fixpoint split_bytes (sep : Z) (l : list Z) : list (list Z) :=
  match l with
  | [] => [[]]
  | b :: l' =>
      if b =? sep then [] :: split_bytes sep l'
      else match split_bytes sep l' with
           | p :: ps => (b :: p) :: ps
           | [] => [[b]]
           end
  end.

Definition split_str (sep : Z) (s : string) : list string :=
  of_bytes <$> split_bytes sep (as_bytes s).

(** Joining with a separator, the inverse of [split]. *)
Fixpoint join_bytes (sep : Z) (ps : list (list Z)) : list Z :=
  match ps with
  | [] => []
  | [p] => p
  | p :: ps' => p ++ sep :: join_bytes sep ps'
  end.

Lemma split_bytes_nonempty sep l : split_bytes sep l <> [].
Proof. destruct l as [|b l]; cbn; [done|]. destruct (b =? sep); [done|]. by destruct (split_bytes sep l). Qed.

Lemma join_split_bytes sep l : join_bytes sep (split_bytes sep l) = l.
Proof.
  induction l as [|b l IH]; [done|]. cbn [split_bytes].
  pose proof (split_bytes_nonempty sep l). destruct (Z.eqb_spec b sep) as [->|Hne].
  - destruct (split_bytes sep l) as [|p ps] eqn:E; [done|]. cbn [join_bytes app] in *. by rewrite IH.
  - destruct (split_bytes sep l) as [|p [|q ps]] eqn:E; [done|..]; cbn in *; by rewrite IH.
Qed.

Lemma split_bytes_free sep l : Forall (fun p => sep ∉ p) (split_bytes sep l).
Proof.
  induction l as [|b l IH]; cbn [split_bytes]; [repeat constructor; apply not_elem_of_nil|].
  destruct (Z.eqb_spec b sep) as [->|Hne]; [constructor; [apply not_elem_of_nil|done]|].
  destruct (split_bytes sep l) as [|p ps].
  - repeat constructor. rewrite not_elem_of_cons. split; [by intros ->|apply not_elem_of_nil].
  - inversion_clear IH. constructor; [|done]. rewrite not_elem_of_cons. by split; [intros ->|].
Qed.

Lemma split_bytes_one sep p : sep ∉ p -> split_bytes sep p = [p].
Proof.
  induction p as [|b p IH]; intros Hs; [done|]. rewrite not_elem_of_cons in Hs. cbn [split_bytes].
  rewrite IH by tauto. destruct (Z.eqb_spec b sep); [|done]. destruct Hs; congruence.
Qed.

Lemma split_bytes_cons sep p l : sep ∉ p -> split_bytes sep (p ++ sep :: l) = p :: split_bytes sep l.
Proof.
  induction p as [|b p IH]; intros Hs; cbn [split_bytes app]; [by rewrite Z.eqb_refl|].
  rewrite not_elem_of_cons in Hs. rewrite IH by tauto. destruct (Z.eqb_spec b sep); [|done].
  destruct Hs; congruence.
Qed.

Lemma split_join_bytes sep ps :
  ps <> [] -> Forall (fun p => sep ∉ p) ps -> split_bytes sep (join_bytes sep ps) = ps.
Proof.
  induction ps as [|p [|q ps] IH]; intros Hne Hf; [done|..]; inversion_clear Hf.
  - by apply split_bytes_one.
  - change (join_bytes sep (p :: q :: ps)) with (p ++ sep :: join_bytes sep (q :: ps)).
    rewrite split_bytes_cons by done. by rewrite IH.
Qed.

Lemma join_bytes_range sep ps : is_byte sep -> Forall (Forall is_byte) ps -> Forall is_byte (join_bytes sep ps).
Proof.
  intros Hs. induction ps as [|p [|q ps] IH]; intros Hf; [constructor|..]; inversion_clear Hf; [done|].
  change (join_bytes sep (p :: q :: ps)) with (p ++ sep :: join_bytes sep (q :: ps)).
  apply Forall_app. split; [done|]. constructor; [done|auto].
Qed.

(** Strings. *)
Definition join_str (sep : Z) (ss : list string) : string := of_bytes (join_bytes sep (as_bytes <$> ss)).

Lemma split_str_iff sep s ss :
  is_byte sep -> ss <> [] -> Forall (fun p => sep ∉ as_bytes p) ss ->
  split_str sep s = ss <-> s = join_str sep ss.
Proof.
  intros Hsep Hne Hf. unfold split_str, join_str. split.
  - intros <-. apply as_bytes_inj. rewrite <- list_fmap_compose.
    assert (Forall (Forall is_byte) (split_bytes sep (as_bytes s))) as Hr.
    { pose proof (as_bytes_range s) as Hb. rewrite <- (join_split_bytes sep (as_bytes s)) in Hb.
      clear -Hb. induction (split_bytes sep (as_bytes s)) as [|p [|q ps] IH]; [constructor|by repeat constructor|].
      change (join_bytes sep (p :: q :: ps)) with (p ++ sep :: join_bytes sep (q :: ps)) in Hb.
      apply Forall_app in Hb as [? Hb]. inversion_clear Hb. constructor; auto. }
    rewrite (list_fmap_ext _ id) by (intros i p Hi; apply as_bytes_of_bytes; by eapply Forall_lookup_1 in Hr).
    rewrite list_fmap_id, join_split_bytes. symmetry. apply as_bytes_of_bytes, as_bytes_range.
  - intros ->. rewrite as_bytes_of_bytes.
    + rewrite split_join_bytes; [|by destruct ss|by apply Forall_fmap].
      rewrite <- list_fmap_compose. rewrite (list_fmap_ext _ id) by (intros; apply of_bytes_as_bytes).
      apply list_fmap_id.
    + apply join_bytes_range; [done|]. apply Forall_fmap, Forall_true. intros. apply as_bytes_range.
Qed.

(** [str::starts_with], [strip_prefix] on byte lists. *)
Fixpoint strip_prefix_bytes (p l : list Z) : option (list Z) :=
  match p, l with
  | [], _ => Some l
  | b :: p', c :: l' => if b =? c then strip_prefix_bytes p' l' else None
  | _ :: _, [] => None
  end.

Definition strip_prefix (p s : string) : option string :=
  of_bytes <$> strip_prefix_bytes (as_bytes p) (as_bytes s).

Definition starts_with (p s : string) : bool :=
  match strip_prefix_bytes (as_bytes p) (as_bytes s) with Some _ => true | None => false end.

Lemma strip_prefix_bytes_Some p l r : strip_prefix_bytes p l = Some r <-> l = p ++ r.
Proof.
  revert l. induction p as [|b p IH]; intros l; cbn; [naive_solver|].
  destruct l as [|c l]; [naive_solver|].
  destruct (Z.eqb_spec b c) as [->|]; [rewrite IH; naive_solver|naive_solver].
Qed.

Lemma strip_prefix_Some p s r : strip_prefix p s = Some r <-> s = p +:+ r.
Proof.
  unfold strip_prefix. split.
  - intros H. apply fmap_Some in H as (l & Hl & ->). apply strip_prefix_bytes_Some in Hl.
    apply as_bytes_inj. rewrite Hl, as_bytes_app, as_bytes_of_bytes; [done|].
    pose proof (as_bytes_range s) as Hr. rewrite Hl in Hr. by apply Forall_app in Hr as [].
  - intros ->. rewrite as_bytes_app, (proj2 (strip_prefix_bytes_Some _ _ _) eq_refl). cbn.
    by rewrite of_bytes_as_bytes.
Qed.

(** Position of the last byte equal to [c]: [str::rfind]. *)
Fixpoint rfind_bytes (c : Z) (l : list Z) : option nat :=
  match l with
  | [] => None
  | b :: l' =>
      match rfind_bytes c l' with
      | Some i => Some (S i)
      | None => if b =? c then Some O else None
      end
  end.

Lemma rfind_bytes_None c l : rfind_bytes c l = None <-> c ∉ l.
Proof.
  induction l as [|b l IH]; cbn; [split; [intros _; apply not_elem_of_nil|done]|].
  rewrite not_elem_of_cons. destruct (rfind_bytes c l); [naive_solver|].
  destruct (Z.eqb_spec b c); naive_solver.
Qed.

Lemma rfind_bytes_Some c l i :
  rfind_bytes c l = Some i <->
  exists x y, l = x ++ c :: y /\ length x = i /\ c ∉ y.
Proof.
  revert i. induction l as [|b l IH]; intros i; cbn.
  { split; [done|]. intros (x & y & H & _). by destruct x. }
  destruct (rfind_bytes c l) as [j|] eqn:E.
  - destruct (proj1 (IH j) eq_refl) as (x & y & -> & Hx & Hy). split.
    + intros [= <-]. exists (b :: x), y. cbn. by rewrite Hx.
    + intros (x' & y' & H & Hx' & Hy'). destruct x' as [|b' x']; cbn in H; simplify_eq.
      { exfalso. apply Hy'. set_solver. }
      cbn. f_equal. f_equal.
      assert (Some (length x) = Some (length x')) as [= ->]; [|done].
      apply IH. eauto.
  - apply rfind_bytes_None in E. destruct (Z.eqb_spec b c) as [->|Hne]; split.
    + intros [= <-]. by exists [], l.
    + intros (x & y & H & Hx & Hy). destruct x as [|b' x]; cbn in *; simplify_eq; [done|].
      exfalso. apply E. set_solver.
    + done.
    + intros (x & y & H & Hx & Hy). destruct x as [|b' x]; cbn in *; simplify_eq.
      exfalso. apply E. set_solver.
Qed.
