(* ===== verification/Utf8.v ===== *)
(** * Utf8: what the source uses of Rust's [str] beyond bytes

    [String::from_utf8] (validity), [str::chars] (code points),
    [str::split_whitespace] (the Unicode [White_Space] property, a fixed list
    of 25 code points) and [str::contains]. *)

From S2P Require Import Prelude Text.

Definition is_cont (b : Z) : bool := (128 <=? b) && (b <=? 191).
Definition in_range (lo hi b : Z) : bool := (lo <=? b) && (b <=? hi).

(** The second byte allowed after a three- or four-byte lead: no overlong
    form, no surrogate, nothing above U+10FFFF. *)
Definition second3_ok (b0 b1 : Z) : bool :=
  if b0 =? 224 then in_range 160 191 b1
  else if b0 =? 237 then in_range 128 159 b1 else is_cont b1.
Definition second4_ok (b0 b1 : Z) : bool :=
  if b0 =? 240 then in_range 144 191 b1
  else if b0 =? 244 then in_range 128 143 b1 else is_cont b1.

(** The code points of a byte string, or [None] where it is not UTF-8. *)
Fixpoint utf8_chars (l : list Z) : option (list Z) :=
  match l with
  | [] => Some []
  | b0 :: l1 =>
      if b0 <? 128 then cs ← utf8_chars l1; Some (b0 :: cs)
      else match l1 with
      | [] => None
      | b1 :: l2 =>
          if in_range 194 223 b0 then
            if is_cont b1 then
              cs ← utf8_chars l2; Some ((b0 - 192) * 64 + (b1 - 128) :: cs)
            else None
          else match l2 with
          | [] => None
          | b2 :: l3 =>
              if in_range 224 239 b0 then
                if second3_ok b0 b1 && is_cont b2 then
                  cs ← utf8_chars l3;
                  Some ((b0 - 224) * 4096 + (b1 - 128) * 64 + (b2 - 128) :: cs)
                else None
              else match l3 with
              | [] => None
              | b3 :: l4 =>
                  if in_range 240 244 b0 && second4_ok b0 b1 && is_cont b2 && is_cont b3 then
                    cs ← utf8_chars l4;
                    Some ((b0 - 240) * 262144 + (b1 - 128) * 4096 + (b2 - 128) * 64
                            + (b3 - 128) :: cs)
                  else None
              end
          end
      end
  end.

Definition is_utf8 (l : list Z) : bool := bool_decide (is_Some (utf8_chars l)).

Definition utf8_char (c : Z) : list Z :=
  if c <? 128 then [c]
  else if c <? 2048 then [192 + c / 64; 128 + c mod 64]
  else if c <? 65536 then [224 + c / 4096; 128 + c / 64 mod 64; 128 + c mod 64]
  else [240 + c / 262144; 128 + c / 4096 mod 64; 128 + c / 64 mod 64; 128 + c mod 64].

Definition utf8_encode (cs : list Z) : list Z := flat_map utf8_char cs.

(** [str::chars]; the strings of the source are valid UTF-8. *)
Definition chars (s : string) : list Z := default [] (utf8_chars (as_bytes s)).

Definition is_whitespace (c : Z) : bool :=
  in_range 9 13 c || (c =? 32) || (c =? 133) || (c =? 160) || (c =? 5760)
  || in_range 8192 8202 c || (c =? 8232) || (c =? 8233) || (c =? 8239)
  || (c =? 8287) || (c =? 12288).

(** Maximal runs of characters that are not white space. *)
Fixpoint words (cs : list Z) : list (list Z) :=
  match cs with
  | [] => []
  | c :: cs' =>
      if is_whitespace c then words cs'
      else match cs' with
           | [] => [[c]]
           | d :: _ =>
               if is_whitespace d then [c] :: words cs'
               else match words cs' with w :: ws => (c :: w) :: ws | [] => [[c]] end
           end
  end.

Definition split_whitespace (s : string) : list string :=
  (fun w => of_bytes (utf8_encode w)) <$> words (chars s).

(** [str::contains] with a string pattern. *)
Fixpoint contains_bytes (l p : list Z) : bool :=
  match strip_prefix_bytes p l with
  | Some _ => true
  | None => match l with [] => false | _ :: l' => contains_bytes l' p end
  end.

Definition str_contains (s p : string) : bool := contains_bytes (as_bytes s) (as_bytes p).

(** ** Lemmas *)

(** One step of the decoder over what [utf8_char] writes. *)
Definition scalar_value (c : Z) : Prop := 0 <= c < 55296 \/ 57344 <= c < 1114112.

Ltac utf8_bytes := unfold second3_ok, second4_ok, is_cont, in_range in *.

Lemma utf8_chars_char c l :
  scalar_value c -> utf8_chars (utf8_char c ++ l) = (cs ← utf8_chars l; Some (c :: cs)).
Proof.
  intros Hc. unfold utf8_char, scalar_value in *.
  pose proof (Z.div_mod c 64 ltac:(lia)). pose proof (Z.mod_pos_bound c 64 ltac:(lia)).
  pose proof (Z.div_mod (c / 64) 64 ltac:(lia)). pose proof (Z.mod_pos_bound (c / 64) 64 ltac:(lia)).
  pose proof (Z.div_mod (c / 4096) 64 ltac:(lia)). pose proof (Z.mod_pos_bound (c / 4096) 64 ltac:(lia)).
  assert (c / 64 / 64 = c / 4096) as E1 by (rewrite Z.div_div; [done|lia..]).
  assert (c / 4096 / 64 = c / 262144) as E2 by (rewrite Z.div_div; [done|lia..]).
  rewrite E1, E2 in *.
  destruct (c <? 128) eqn:?; [cbn; by rewrite Heqb|].
  destruct (c <? 2048) eqn:?.
  { cbn [app utf8_chars]. utf8_bytes. decide_if. destruct (utf8_chars l); cbn; [|done]. do 2 f_equal. lia. }
  destruct (c <? 65536) eqn:?; cbn [app utf8_chars]; utf8_bytes; decide_if.
  - destruct (Z.eqb_spec (224 + c / 4096) 224); [|destruct (Z.eqb_spec (224 + c / 4096) 237)].
    all: decide_if; destruct (utf8_chars l); cbn; [|done]; do 2 f_equal; lia.
  - destruct (Z.eqb_spec (240 + c / 262144) 240); [|destruct (Z.eqb_spec (240 + c / 262144) 244)].
    all: decide_if; destruct (utf8_chars l); cbn; [|done]; do 2 f_equal; lia.
Qed.

Lemma utf8_chars_encode cs : Forall scalar_value cs -> utf8_chars (utf8_encode cs) = Some cs.
Proof.
  induction 1 as [|c cs Hc _ IH]; [done|]. cbn [utf8_encode flat_map].
  rewrite utf8_chars_char by done. unfold utf8_encode in IH. by rewrite IH.
Qed.

Lemma is_utf8_ascii l : Forall (fun b => b < 128) l -> is_utf8 l = true.
Proof.
  intros Hl. apply bool_decide_eq_true. exists l.
  induction Hl as [|b l Hb _ IH]; [done|]. cbn [utf8_chars]. decide_if. by rewrite IH.
Qed.

Lemma contains_bytes_spec l p : contains_bytes l p = true <-> exists a b, l = a ++ p ++ b.
Proof.
  induction l as [|x l IH]; cbn [contains_bytes];
    destruct (strip_prefix_bytes p _) as [r|] eqn:Hp.
  1, 3: apply strip_prefix_bytes_Some in Hp; split; [intros _; by exists [], r|done].
  - split; [done|]. intros (a & b & Heq). symmetry in Heq.
    apply app_eq_nil in Heq as [-> Heq]. rewrite <- Heq in Hp. cbn in Hp.
    assert (strip_prefix_bytes p (p ++ b) = Some b) by by apply strip_prefix_bytes_Some.
    congruence.
  - rewrite IH. split.
    + intros (a & b & ->). by exists (x :: a), b.
    + intros ([|y a] & b & Heq); cbn in Heq.
      * assert (strip_prefix_bytes p (x :: l) = Some b); [|congruence].
        by apply strip_prefix_bytes_Some.
      * simplify_eq. eauto.
Qed.
