(* ===== verification/Regroup.v ===== *)
(** * Regroup: positional values and the bit-regrouping loop

    [to_words] and [from_words] of [nip19.rs] and [convert_bits] of
    [mkt_swp_verify.rs] run the same loop: shift a group into a [u32]
    accumulator, then emit whole groups of the other width.  The loop is
    defined here once and proved to keep the number the groups spell. *)

From S2P Require Import Prelude.

(** ** Digits, most significant first *)

Definition value (w : Z) (l : list Z) : Z := fold_left (fun v x => v * 2 ^ w + x) l 0.
Definition digits (w : Z) (l : list Z) : Prop := Forall (fun x => 0 <= x < 2 ^ w) l.

Section value.
Implicit Types l k : list Z.

Lemma value_acc w l a :
  0 <= w -> fold_left (fun v x => v * 2 ^ w + x) l a = a * 2 ^ (w * Z.of_nat (length l)) + value w l.
Proof.
  intros Hw. unfold value. revert a. induction l as [|x l IH]; intros a; cbn [fold_left length].
  { rewrite Z.mul_0_r. lia. }
  rewrite (IH (a * 2 ^ w + x)), (IH (0 * 2 ^ w + x)), Nat2Z.inj_succ, Z.mul_succ_r, Z.pow_add_r by lia.
  ring.
Qed.

Lemma value_app w l k :
  0 <= w -> value w (l ++ k) = value w l * 2 ^ (w * Z.of_nat (length k)) + value w k.
Proof. intros Hw. unfold value at 1. rewrite fold_left_app. by rewrite value_acc. Qed.

Lemma value_snoc w l x : value w (l ++ [x]) = value w l * 2 ^ w + x.
Proof. unfold value. by rewrite fold_left_app. Qed.

Lemma value_bound w l : 0 <= w -> digits w l -> 0 <= value w l < 2 ^ (w * Z.of_nat (length l)).
Proof.
  intros Hw. induction l as [|x l IH] using rev_ind; intros Hd; [cbn; rewrite Z.mul_0_r; lia|].
  apply Forall_app in Hd as [Hd [Hx _]%Forall_cons]. specialize (IH Hd).
  rewrite value_snoc, length_app, Nat2Z.inj_add, Z.mul_add_distr_l, Z.pow_add_r by lia. cbn.
  rewrite Z.mul_1_r. nia.
Qed.

Lemma digit_split q r q' r' b : 0 <= r < b -> 0 <= r' < b -> q * b + r = q' * b + r' -> q = q' /\ r = r'.
Proof. intros Hr Hr' He. assert (q = q') by nia. nia. Qed.

Lemma value_inj w l k :
  0 <= w -> digits w l -> digits w k -> length l = length k -> value w l = value w k -> l = k.
Proof.
  intros Hw. revert k. induction l as [|x l IH] using rev_ind; intros k Hl Hk Hlen Hv.
  { by destruct k. }
  destruct k as [|y k _] using rev_ind; [rewrite length_app in Hlen; cbn in Hlen; lia|].
  apply Forall_app in Hl as [Hl [Hx _]%Forall_cons], Hk as [Hk [Hy _]%Forall_cons].
  rewrite !length_app in Hlen. cbn in Hlen. rewrite !value_snoc in Hv.
  apply digit_split in Hv as [Hv ->]; [|done..]. f_equal. apply IH; [done..|lia|done].
Qed.
End value.

(** ** The loop *)

(** [while bits >= to { bits -= to; out.push((acc >> bits) & mask) }]. *)
Fixpoint drain (fuel : nat) (to acc bits : Z) (out : list Z) : Z * list Z :=
  match fuel with
  | O => (bits, out)
  | S fuel' =>
      if to <=? bits then
        drain fuel' to acc (bits - to) (out ++ [Z.land (Z.shiftr acc (bits - to)) (2 ^ to - 1)])
      else (bits, out)
  end.

(** One input group: accumulator, pending bits and output after it. *)
Definition regroup_step (from to : Z) (st : Z * Z * list Z) (v : Z) : Z * Z * list Z :=
  let '(accumulator, bits, out) := st in
  let accumulator := Z.lor (shl32 accumulator from) v in
  let bits := bits + from in
  let '(bits, out) := drain (Z.to_nat bits) to accumulator bits out in
  (accumulator, bits, out).

Definition regroup (from to : Z) (input : list Z) : Z * Z * list Z :=
  fold_left (regroup_step from to) input (0, 0, []).

Section regroup.
Context (from to : Z) (Hfrom : 1 <= from <= 8) (Hto : 1 <= to <= 8).

(** The groups read spell the same number as the groups written followed by
    the pending low bits of the accumulator. *)
Definition pending (input : list Z) (st : Z * Z * list Z) : Prop :=
  let '(acc, bits, out) := st in
  0 <= acc < 2 ^ 32
  /\ from * Z.of_nat (length input) = to * Z.of_nat (length out) + bits
  /\ 0 <= bits /\ digits to out
  /\ value from input = value to out * 2 ^ bits + acc mod 2 ^ bits.

Lemma mod_pow_split a n k :
  0 <= n -> 0 <= k -> a mod 2 ^ (n + k) = (a / 2 ^ k) mod 2 ^ n * 2 ^ k + a mod 2 ^ k.
Proof.
  intros Hn Hk. rewrite Z.add_comm, Z.pow_add_r by lia.
  rewrite Z.rem_mul_r by lia. ring.
Qed.

Lemma drain_spec fuel input acc bits out :
  pending input (acc, bits, out) -> bits <= Z.of_nat fuel ->
  let '(bits', out') := drain fuel to acc bits out in
  pending input (acc, bits', out') /\ bits' < to.
Proof.
  revert bits out. induction fuel as [|fuel IH]; intros bits out Hp Hfuel; cbn [drain].
  { split; [done|]. destruct Hp as (_ & _ & ? & _). lia. }
  destruct (Z.leb_spec to bits) as [Hle|]; [|done].
  apply IH; [|lia]. destruct Hp as (Hacc & Hlen & Hb & Hd & Hv).
  rewrite land_mask, Z.shiftr_div_pow2 by lia.
  split; [done|]. split; [rewrite length_app; cbn; lia|]. split; [lia|]. split.
  - apply Forall_app. split; [done|]. apply Forall_singleton, Z.mod_pos_bound. lia.
  - rewrite Hv, value_snoc. replace bits with (to + (bits - to)) at 1 2 by lia.
    rewrite mod_pow_split, Z.pow_add_r by lia. ring.
Qed.

(** Shifting a group into the accumulator makes it pending, whatever mask
    keeps the pending bits. *)
Lemma accumulate_spec input acc bits out v k :
  pending input (acc, bits, out) -> bits < to -> 0 <= v < 2 ^ from -> bits + from <= k <= 32 ->
  pending (input ++ [v]) (Z.lor (shl32 acc from) v mod 2 ^ k, bits + from, out).
Proof.
  intros (Hacc & Hlen & Hb & Hd & Hv) Hbits Hr Hk. set (acc' := Z.lor (shl32 acc from) v).
  assert (acc' mod 2 ^ (bits + from) = acc mod 2 ^ bits * 2 ^ from + v) as Hm.
  { assert (exists q, shl32 acc from = q * 2 ^ from /\ q mod 2 ^ bits = acc mod 2 ^ bits) as (q & Hq & Hqm).
    { exists (acc mod 2 ^ (32 - from)). unfold shl32, wrap32. rewrite Z.shiftl_mul_pow2 by lia.
      replace (2 ^ 32) with (2 ^ (32 - from) * 2 ^ from) by (rewrite <- Z.pow_add_r; [f_equal|..]; lia).
      rewrite Z.mul_mod_distr_r by lia. split; [done|].
      replace (32 - from) with (bits + (32 - from - bits)) by lia.
      rewrite Z.pow_add_r, Z.rem_mul_r by lia.
      rewrite Z.mul_comm, Z.mod_add by lia. by rewrite Z.mod_mod by lia. }
    unfold acc'. rewrite Hq, <- Z.shiftl_mul_pow2, lor_shiftl by lia.
    rewrite mod_pow_split by lia. rewrite (Z.add_comm (q * _)), Z.div_add, (Z.div_small v), Z.mod_add,
      (Z.mod_small v), Z.add_0_l, Hqm by lia. done. }
  assert (2 ^ k <= 2 ^ 32) by (apply Z.pow_le_mono_r; lia).
  split; [pose proof (Z.mod_pos_bound acc' (2 ^ k) ltac:(lia)); lia|].
  split; [rewrite length_app; cbn; lia|]. split; [lia|]. split; [done|].
  rewrite value_snoc, Hv, <- (Znumtheory.Zmod_div_mod (2 ^ (bits + from)) (2 ^ k) acc'), Hm, Z.pow_add_r; try lia.
  exists (2 ^ (k - (bits + from))). rewrite <- Z.pow_add_r by lia. f_equal. lia.
Qed.

Lemma regroup_step_spec input st v :
  pending input st -> st.1.2 < to -> 0 <= v < 2 ^ from ->
  pending (input ++ [v]) (regroup_step from to st v) /\ (regroup_step from to st v).1.2 < to.
Proof.
  destruct st as [[acc bits] out]. cbn [fst snd]. intros Hp Hbits Hr. unfold regroup_step.
  pose proof (accumulate_spec input acc bits out v 32 Hp Hbits Hr ltac:(lia)) as Ha.
  destruct Hp as (Hacc & _ & Hb & _). set (acc' := Z.lor (shl32 acc from) v) in *.
  assert (0 <= acc' < 2 ^ 32) as Hr'.
  { unfold acc', shl32, wrap32. rewrite Z.shiftl_mul_pow2 by lia.
    replace (2 ^ 32) with (2 ^ (32 - from) * 2 ^ from) by (rewrite <- Z.pow_add_r; [f_equal|..]; lia).
    rewrite Z.mul_mod_distr_r, <- Z.shiftl_mul_pow2, lor_shiftl by lia.
    pose proof (Z.mod_pos_bound acc (2 ^ (32 - from)) ltac:(lia)). nia. }
  rewrite Z.mod_small in Ha by done.
  pose proof (drain_spec (Z.to_nat (bits + from)) (input ++ [v]) acc' (bits + from) out) as Hdrain.
  destruct (drain _ _ _ _ _) as [bits' out']. apply Hdrain; [done|lia].
Qed.

Lemma regroup_spec input :
  digits from input ->
  let '(acc, bits, out) := regroup from to input in
  pending input (acc, bits, out) /\ bits < to.
Proof.
  assert (forall l st, digits from l -> forall input, pending input st -> st.1.2 < to ->
    pending (input ++ l) (fold_left (regroup_step from to) l st)
    /\ (fold_left (regroup_step from to) l st).1.2 < to) as Hgen.
  { induction l as [|v l IH]; intros st Hl inp Hp Hb; cbn [fold_left]; [by rewrite app_nil_r|].
    apply Forall_cons in Hl as [Hv Hl].
    destruct (regroup_step_spec inp st v Hp Hb Hv) as [Hp' Hb'].
    change (v :: l) with ([v] ++ l). rewrite app_assoc. by apply IH. }
  intros Hd. destruct (Hgen input (0, 0, []) Hd []) as [Hp Hb].
  - repeat split; cbn; try lia. constructor.
  - cbn. lia.
  - unfold regroup. cbn [app] in Hp. by destruct (fold_left _ input _) as [[acc bits] out].
Qed.
End regroup.

(** ** Closing the loop: zero padding or strictness *)

(** [if bits > 0 { out.push((acc << (to - bits)) & mask) }]. *)
Definition regroup_pad (from to : Z) (input : list Z) : list Z :=
  let '(accumulator, bits, out) := regroup from to input in
  if 0 <? bits then out ++ [Z.land (shl32 accumulator (to - bits)) (2 ^ to - 1)] else out.

(** Leftover bits that are a whole input group or not all zero are refused. *)
Definition regroup_strict (from to : Z) (input : list Z) : option (list Z) :=
  let '(accumulator, bits, out) := regroup from to input in
  if (from <=? bits) || negb (Z.land accumulator (2 ^ bits - 1) =? 0) then None else Some out.

Section closing.
Context (from to : Z) (Hfrom : 1 <= from <= 8) (Hto : 1 <= to <= 8).

(** Shifting the pending bits to the top of an output group. *)
Lemma pad_word acc bits :
  0 <= acc < 2 ^ 32 -> 0 <= bits <= to ->
  Z.land (shl32 acc (to - bits)) (2 ^ to - 1) = acc mod 2 ^ bits * 2 ^ (to - bits).
Proof.
  intros Hacc Hb. rewrite land_mask by lia. unfold shl32, wrap32. rewrite Z.shiftl_mul_pow2 by lia.
  replace (2 ^ 32) with (2 ^ to * 2 ^ (32 - to)) by (rewrite <- Z.pow_add_r; [f_equal|..]; lia).
  rewrite Z.rem_mul_r, (Z.mul_comm (2 ^ to) ((_ / _) mod _)), Z.mod_add, Z.mod_mod by lia.
  replace (2 ^ to) with (2 ^ bits * 2 ^ (to - bits)) by (rewrite <- Z.pow_add_r; [f_equal|..]; lia).
  by rewrite Z.mul_mod_distr_r by lia.
Qed.

Lemma regroup_pad_spec input :
  digits from input ->
  exists p, 0 <= p < to
    /\ to * Z.of_nat (length (regroup_pad from to input)) = from * Z.of_nat (length input) + p
    /\ digits to (regroup_pad from to input)
    /\ value to (regroup_pad from to input) = value from input * 2 ^ p.
Proof.
  intros Hd. pose proof (regroup_spec from to Hfrom Hto input Hd) as Hr. unfold regroup_pad.
  destruct (regroup from to input) as [[acc bits] out].
  destruct Hr as [(Hacc & Hlen & Hb & Hout & Hv) Hlt].
  destruct (Z.ltb_spec 0 bits).
  - exists (to - bits). rewrite pad_word by lia. split; [lia|].
    split; [rewrite length_app; cbn; lia|].
    pose proof (Z.mod_pos_bound acc (2 ^ bits) ltac:(lia)).
    assert (2 ^ to = 2 ^ bits * 2 ^ (to - bits)) as E by (rewrite <- Z.pow_add_r; [f_equal|..]; lia).
    split.
    + apply Forall_app. split; [done|]. apply Forall_singleton. nia.
    + rewrite value_snoc, Hv, E. ring.
  - exists 0. assert (bits = 0) as -> by lia. rewrite Z.mod_1_r in Hv. repeat split; [lia..|done|lia].
Qed.

Lemma regroup_strict_spec input out :
  digits from input -> regroup_strict from to input = Some out ->
  exists p, 0 <= p < from /\ p < to
    /\ from * Z.of_nat (length input) = to * Z.of_nat (length out) + p
    /\ digits to out
    /\ value from input = value to out * 2 ^ p.
Proof.
  intros Hd. pose proof (regroup_spec from to Hfrom Hto input Hd) as Hr. unfold regroup_strict.
  destruct (regroup from to input) as [[acc bits] out'].
  destruct Hr as [(Hacc & Hlen & Hb & Hout & Hv) Hlt].
  rewrite land_mask by lia. intros He. run_inv. bool_to_prop. subst out'.
  exists bits. repeat split; [lia..|done|lia].
Qed.
End closing.

Section inverse.
Context (a b : Z) (Ha : 1 <= a <= 8) (Hb : 1 <= b <= a).

(** Narrowing with padding and widening strictly are inverse. *)
Lemma regroup_strict_pad input :
  digits a input -> regroup_strict b a (regroup_pad a b input) = Some input.
Proof.
  intros Hd. destruct (regroup_pad_spec a b Ha ltac:(lia) input Hd) as (p & Hp & Hlen & Hw & Hv).
  set (w := regroup_pad a b input) in *.
  pose proof (regroup_spec b a ltac:(lia) Ha w Hw) as Hr. unfold regroup_strict.
  destruct (regroup b a w) as [[acc bits] out].
  destruct Hr as [(Hacc & Hlen' & Hb0 & Hout & Hv') Hlt].
  assert (Z.of_nat (length out) = Z.of_nat (length input) /\ bits = p) as [Hl ->]
    by (apply (digit_split _ _ _ _ a); lia).
  pose proof (Z.mod_pos_bound acc (2 ^ p) ltac:(lia)).
  rewrite land_mask by lia.
  destruct (digit_split (value a out) (acc mod 2 ^ p) (value a input) 0 (2 ^ p)) as [Hvo Hm]; [lia..|].
  rewrite Hm. decide_if. f_equal. apply (value_inj a); [lia|done..|lia|done].
Qed.

(** The padded narrowing is the only word that spells the input. *)
Lemma regroup_pad_unique w input p :
  digits b w -> digits a input -> 0 <= p < b ->
  b * Z.of_nat (length w) = a * Z.of_nat (length input) + p ->
  value b w = value a input * 2 ^ p ->
  regroup_pad a b input = w.
Proof.
  intros Hd Hin Hp Hlen Hv.
  destruct (regroup_pad_spec a b Ha ltac:(lia) input Hin) as (q & Hq & Hlen' & Hw & Hv').
  assert (Z.of_nat (length (regroup_pad a b input)) = Z.of_nat (length w) /\ q = p) as [Hl ->].
  { destruct (digit_split (Z.of_nat (length (regroup_pad a b input))) (b - 1 - q) (Z.of_nat (length w)) (b - 1 - p) b);
      lia. }
  apply (value_inj b); [lia|done..|lia|lia].
Qed.

Lemma regroup_pad_strict w input :
  digits b w -> regroup_strict b a w = Some input -> regroup_pad a b input = w.
Proof.
  intros Hd He.
  destruct (regroup_strict_spec b a ltac:(lia) Ha w input Hd He) as (p & Hp & Hpa & Hlen & Hin & Hv).
  by apply (regroup_pad_unique w input p).
Qed.
End inverse.
