(* ===== verification/Hex.v ===== *)
(** * Hex: lowercase hexadecimal ([immortal-core/src/domain/hex.rs]) and the
    domain error type ([domain/error.rs]). *)

From S2P Require Import Prelude Text.

Inductive DomainError : Type :=
| EmptyTag
| InvalidHex (field : string) (expected_bytes : Z)
| InvalidPublicKey
| EventIdMismatch (expected actual : string)
| InvalidSignature
| ExpiredEvent (expiration now : Z)
| FutureTimestamp (created_at latest_allowed : Z)
| InvalidEvent (reason : string)
| InvalidFilter (reason : string)
| InvalidReplacementAddress (value : string)
| ReplacementAddressMismatch
| NotReplaceable
| NotDeletionRequest
| Serialization (reason : string).

#[export] Instance DomainError_eq_dec : EqDecision DomainError.
Proof. solve_decision. Defined.

Definition hex_nibble (byte : Z) : option Z :=
  if (48 <=? byte) && (byte <=? 57) then Some (byte - 48)
  else if (97 <=? byte) && (byte <=? 102) then Some (byte - 97 + 10)
  else None.

(** The loop over [chunks_exact(2)]. *)
Fixpoint decode_pairs {E} (invalid : E) (l : list Z) : result E (list Z) :=
  match l with
  | c0 :: c1 :: l' =>
      high ← ok_or invalid (hex_nibble c0);
      low ← ok_or invalid (hex_nibble c1);
      rest ← decode_pairs invalid l';
      Ok (Z.lor (Z.shiftl high 4) low :: rest)
  | _ => Ok []
  end.

Definition decode_lower_hex (N : nat) (input field : string) : result DomainError (list Z) :=
  let invalid := InvalidHex field (Z.of_nat N) in
  if negb (str_len input =? Z.of_nat N * 2) || negb (is_ascii input) then Err invalid
  else decode_pairs invalid (as_bytes input).

Definition HEX : list Z := as_bytes "0123456789abcdef".

(** [HEX[i]] for an index below 16. *)
Definition hex_digit (i : Z) : Z := nth (Z.to_nat i) HEX 0.

Arguments hex_digit : simpl never.

Fixpoint encode_hex_bytes (bytes : list Z) : list Z :=
  match bytes with
  | [] => []
  | b :: l => hex_digit (Z.shiftr b 4) :: hex_digit (Z.land b 15) :: encode_hex_bytes l
  end.

Definition encode_lower_hex (bytes : list Z) : string := of_bytes (encode_hex_bytes bytes).

(** ** One byte *)

Lemma hex_nibble_digits b :
  is_byte b ->
  hex_nibble (hex_digit (Z.shiftr b 4)) = Some (Z.shiftr b 4)
  /\ hex_nibble (hex_digit (Z.land b 15)) = Some (Z.land b 15)
  /\ Z.lor (Z.shiftl (Z.shiftr b 4) 4) (Z.land b 15) = b
  /\ hex_digit (Z.shiftr b 4) < 128 /\ hex_digit (Z.land b 15) < 128
  /\ 0 <= hex_digit (Z.shiftr b 4) /\ 0 <= hex_digit (Z.land b 15).
Proof.
  intros Hb.
  assert (forall b, is_byte b ->
    bool_decide (hex_nibble (hex_digit (Z.shiftr b 4)) = Some (Z.shiftr b 4)
    /\ hex_nibble (hex_digit (Z.land b 15)) = Some (Z.land b 15)
    /\ Z.lor (Z.shiftl (Z.shiftr b 4) 4) (Z.land b 15) = b
    /\ hex_digit (Z.shiftr b 4) < 128 /\ hex_digit (Z.land b 15) < 128
    /\ 0 <= hex_digit (Z.shiftr b 4) /\ 0 <= hex_digit (Z.land b 15)) = true) as H.
  { apply byte_forall. vm_compute. done. }
  by apply H, bool_decide_eq_true in Hb.
Qed.

Definition nibble_ok (c : Z) : bool :=
  match hex_nibble c with
  | Some v => (0 <=? v) && (v <? 16) && (hex_digit v =? c)
  | None => true
  end.

Lemma hex_nibble_Some c v :
  is_byte c -> hex_nibble c = Some v -> 0 <= v < 16 /\ hex_digit v = c.
Proof.
  intros Hc Hv. assert (nibble_ok c = true) as H.
  { by apply byte_forall. }
  unfold nibble_ok in H. rewrite Hv in H. bool_to_prop. lia.
Qed.

Lemma nibbles_join h l :
  0 <= h < 16 -> 0 <= l < 16 ->
  is_byte (Z.lor (Z.shiftl h 4) l)
  /\ Z.shiftr (Z.lor (Z.shiftl h 4) l) 4 = h /\ Z.land (Z.lor (Z.shiftl h 4) l) 15 = l.
Proof.
  intros Hh Hl. rewrite lor_shiftl by lia.
  unfold is_byte. rewrite Z.shiftr_div_pow2 by lia.
  rewrite (land_mask _ 4) by lia.
  change (2 ^ 4) with 16. repeat split; try lia.
Qed.

(** ** Byte strings *)

Lemma encode_hex_bytes_length l : length (encode_hex_bytes l) = (2 * length l)%nat.
Proof. induction l; cbn; lia. Qed.

Lemma encode_hex_bytes_ascii l :
  Forall is_byte l -> Forall (fun c => 0 <= c < 128) (encode_hex_bytes l).
Proof.
  induction 1 as [|b l Hb _ IH]; cbn; [constructor|].
  destruct (hex_nibble_digits b Hb) as (_ & _ & _ & ? & ? & ? & ?).
  repeat constructor; try lia; done.
Qed.

Lemma encode_hex_bytes_range l : Forall is_byte l -> Forall is_byte (encode_hex_bytes l).
Proof.
  intros H. eapply Forall_impl; [by apply encode_hex_bytes_ascii|].
  unfold is_byte. cbn. lia.
Qed.

Lemma as_bytes_encode l : Forall is_byte l -> as_bytes (encode_lower_hex l) = encode_hex_bytes l.
Proof. intros. by apply as_bytes_of_bytes, encode_hex_bytes_range. Qed.

Lemma decode_pairs_encode {E} (e : E) l :
  Forall is_byte l -> decode_pairs e (encode_hex_bytes l) = Ok l.
Proof.
  induction 1 as [|b l Hb _ IH]; cbn; [done|].
  destruct (hex_nibble_digits b Hb) as (-> & -> & Hj & _). cbn.
  by rewrite IH, Hj.
Qed.

Lemma decode_pairs_Ok {E} (e : E) n l bs :
  length l = (2 * n)%nat -> Forall is_byte l -> decode_pairs e l = Ok bs ->
  encode_hex_bytes bs = l /\ length bs = n /\ Forall is_byte bs.
Proof.
  revert l bs. induction n as [|n IH]; intros l bs Hlen Hl H.
  { destruct l; [|done]. cbn in H. simplify_eq. repeat split; constructor. }
  destruct l as [|c0 [|c1 l]]; cbn in Hlen; try lia.
  cbn in H. run_inv. apply Forall_cons in Hl as [Hc0 [Hc1 Hl]%Forall_cons].
  destruct (IH l x1) as (<- & <- & Hx1); [lia|done|done|].
  eapply hex_nibble_Some in H0 as [? <-]; [|done].
  eapply hex_nibble_Some in H1 as [? <-]; [|done].
  destruct (nibbles_join x x0) as (? & Hh & Hlo); [done..|]. subst bs. cbn.
  rewrite Hh, Hlo. repeat split; by constructor.
Qed.

Lemma is_ascii_spec s : is_ascii s = true <-> Forall (fun c => c < 128) (as_bytes s).
Proof.
  unfold is_ascii. rewrite forallb_forall, Forall_forall.
  setoid_rewrite list_elem_of_In. setoid_rewrite Z.ltb_lt. done.
Qed.

(** Hexadecimal text and byte arrays are in bijection: a string decodes to
    exactly the array whose encoding it is. *)
Lemma decode_lower_hex_iff N s field bs :
  decode_lower_hex N s field = Ok bs <->
  s = encode_lower_hex bs /\ length bs = N /\ Forall is_byte bs.
Proof.
  unfold decode_lower_hex. split.
  - intros H. run_inv. bool_to_prop. unfold str_len in *.
    destruct (decode_pairs_Ok (InvalidHex field (Z.of_nat N)) N (as_bytes s) bs)
      as (Henc & Hlen & Hbs); [lia|apply as_bytes_range|done|].
    repeat split; [|done|done].
    unfold encode_lower_hex. by rewrite Henc, of_bytes_as_bytes.
  - intros (-> & Hlen & Hbs). unfold str_len. rewrite as_bytes_encode by done.
    rewrite encode_hex_bytes_length, Hlen.
    assert (is_ascii (encode_lower_hex bs) = true) as ->.
    { apply is_ascii_spec. rewrite as_bytes_encode by done.
      eapply Forall_impl; [by apply encode_hex_bytes_ascii|]. cbn. lia. }
    replace (Z.of_nat (2 * N) =? Z.of_nat N * 2) with true by lia.
    by apply decode_pairs_encode.
Qed.

(** The error of a failed decoding names the field and the expected width. *)
Lemma decode_lower_hex_Err N s field e :
  decode_lower_hex N s field = Err e -> e = InvalidHex field (Z.of_nat N).
Proof.
  unfold decode_lower_hex. case_match; [by intros [= <-]|].
  generalize (as_bytes s). clear. intros l.
  remember (InvalidHex field (Z.of_nat N)) as inv.
  assert (forall n l, (length l <= n)%nat -> decode_pairs inv l = Err e -> e = inv) as Hgo.
  { clear l. induction n as [|n IH]; intros [|c0 [|c1 l]]; cbn; try done; try lia.
    intros Hlen. destruct (hex_nibble c0); cbn; [|by intros [= <-]].
    destruct (hex_nibble c1); cbn; [|by intros [= <-]].
    destruct (decode_pairs inv l) eqn:E; cbn; [done|].
    intros [= <-]. eapply IH; [|done]. lia. }
  intros. by eapply Hgo.
Qed.

Definition is_hex (N : nat) (s : string) : bool := is_ok (decode_lower_hex N s "").

Lemma is_hex_field N s field : is_ok (decode_lower_hex N s field) = is_hex N s.
Proof.
  unfold is_hex. apply eq_true_iff_eq. rewrite !is_ok_spec.
  setoid_rewrite decode_lower_hex_iff. done.
Qed.

(** The lowercase hexadecimal codec is a bijection between [N]-byte
    arrays and the strings it accepts: [decode_lower_hex::<N>] succeeds with
    [bs] exactly when the input is [encode_lower_hex(bs)] for an [N]-byte
    array [bs]; in particular no second spelling of an identifier (upper
    case, odd length, wrong width) is ever accepted. *)
Theorem hex_bijection N s field bs :
  decode_lower_hex N s field = Ok bs <->
  s = encode_lower_hex bs /\ length bs = N /\ Forall is_byte bs.
Proof. apply decode_lower_hex_iff. Qed.
