(* ===== verification/Event.v ===== *)
(** * Event: the Nostr event and its own operations

    [immortal-core/src/domain/event.rs], [timestamp.rs] and the storage class
    of [replacement.rs].  Canonical serialization (serde_json), SHA-256 and
    secp256k1 are other packages: they are the operations of the class
    [EventCrypto], over which the cryptographic checks are defined. *)

From S2P Require Import Prelude Text Hex.

(** ** Tags *)

(** [Tag(Vec<String>)]: a transparent wrapper of a list of strings. *)
Notation Tag := (list string).

Definition tag_name (t : Tag) : option string := t !! 0%nat.
Definition tag_value (t : Tag) : option string := t !! 1%nat.

Definition EXTENDED_INDEXED_TAG_NAMES : list string := ["work"%string].

Definition is_indexed_tag_name (name : string) : bool :=
  match as_bytes name with
  | [b] => is_ascii_alphabetic b
  | _ => false
  end || bool_decide (name ∈ EXTENDED_INDEXED_TAG_NAMES).

Definition indexed_pair (t : Tag) : option (string * string) :=
  name ← tag_name t;
  if is_indexed_tag_name name then value ← tag_value t; Some (name, value) else None.

(** ** Storage class *)

Inductive EventClass : Type := Regular | Replaceable | Ephemeral | Addressable.

#[export] Instance EventClass_eq_dec : EqDecision EventClass.
Proof. solve_decision. Defined.

Definition from_kind (kind : Z) : EventClass :=
  if (kind =? 0) || (kind =? 3) || ((10000 <=? kind) && (kind <=? 19999)) then Replaceable
  else if (20000 <=? kind) && (kind <=? 29999) then Ephemeral
  else if (30000 <=? kind) && (kind <=? 39999) then Addressable
  else Regular.

(** ** Events *)

Record Event : Type := mkEvent {
  ev_id : string;
  ev_pubkey : string;
  ev_created_at : Z;
  ev_kind : Z;
  ev_tags : list Tag;
  ev_content : string;
  ev_sig : string;
}.

#[export] Instance Event_eq_dec : EqDecision Event.
Proof. solve_decision. Defined.

Definition class (e : Event) : EventClass := from_kind (ev_kind e).

(** [iter().find(|tag| tag.name() == Some(name))]. *)
Definition find_tag (name : string) (tags : list Tag) : option Tag :=
  find (fun t => bool_decide (tag_name t = Some name)) tags.

Definition distinct_parameter (e : Event) : option string :=
  if bool_decide (class e <> Addressable) then None
  else Some (default ""%string (t ← find_tag "d" (ev_tags e); tag_value t)).

Definition indexed_tags (e : Event) : list (string * string) := omap indexed_pair (ev_tags e).

Definition tag_values (e : Event) (name : string) : list string :=
  omap tag_value (filter (fun t => tag_name t = Some name) (ev_tags e)).

Definition expiration (e : Event) : option Z :=
  t ← find_tag "expiration" (ev_tags e);
  v ← tag_value t;
  parse_u U64_MAX v.

Definition is_expired (e : Event) (now : Z) : bool :=
  match expiration e with Some x => x <=? now | None => false end.

Definition has_exact_tag (e : Event) (name : string) : bool :=
  existsb (fun t => (length t =? 1)%nat && bool_decide (tag_name t = Some name)) (ev_tags e).

Definition is_protected (e : Event) : bool := has_exact_tag e "-".

Definition gift_wrap_recipient (e : Event) : option string :=
  if ev_kind e =? 1059 then head (tag_values e "p") else None.

Definition group_id (e : Event) : option string := head (tag_values e "h").

(** ** Timestamp policy *)

Definition timestamp_validate (max_future_seconds created_at now : Z) : result DomainError unit :=
  let latest_allowed := saturating_add U64_MAX now max_future_seconds in
  if latest_allowed <? created_at then Err (FutureTimestamp created_at latest_allowed) else Ok tt.

(** ** Structure and signature checks *)

Definition validate_nip01_structure (e : Event) : result DomainError unit :=
  _ ← decode_lower_hex 32 (ev_id e) "id";
  _ ← decode_lower_hex 32 (ev_pubkey e) "pubkey";
  _ ← decode_lower_hex 64 (ev_sig e) "sig";
  if existsb (fun t => match t with [] => true | _ => false end) (ev_tags e)
  then Err EmptyTag else Ok tt.

(** What the checks use of serde_json, sha2 and secp256k1. *)
Class EventCrypto : Type := {
  (** [serde_json::to_vec(&(0, pubkey, created_at, kind, tags, content))] *)
  canonical_json : string -> Z -> Z -> list Tag -> string -> result string (list Z);
  (** [Sha256::digest] *)
  sha256 : list Z -> list Z;
  (** [XOnlyPublicKey::from_byte_array(..).is_ok()] *)
  xonly_public_key : list Z -> bool;
  (** [verify_schnorr(signature, message, public_key).is_ok()] *)
  verify_schnorr : list Z -> list Z -> list Z -> bool;
}.

(** Documented: a SHA-256 digest is 32 bytes. *)
Class Sha256Digest `{EventCrypto} : Prop := {
  sha256_length m : length (sha256 m) = 32%nat;
  sha256_bytes m : Forall is_byte (sha256 m);
}.

Section crypto.
Context `{EventCrypto}.

Definition canonical_bytes (e : Event) : result DomainError (list Z) :=
  map_err Serialization
    (canonical_json (ev_pubkey e) (ev_created_at e) (ev_kind e) (ev_tags e) (ev_content e)).

Definition computed_id_bytes (e : Event) : result DomainError (list Z) :=
  b ← canonical_bytes e; Ok (sha256 b).

Definition computed_id (e : Event) : result DomainError string :=
  b ← computed_id_bytes e; Ok (encode_lower_hex b).

Definition validate_id (e : Event) : result DomainError unit :=
  expected ← computed_id e;
  if String.eqb expected (ev_id e) then Ok tt
  else Err (EventIdMismatch expected (ev_id e)).

Definition validate_crypto (e : Event) : result DomainError unit :=
  _ ← validate_id e;
  key ← decode_lower_hex 32 (ev_pubkey e) "pubkey";
  if negb (xonly_public_key key) then Err InvalidPublicKey else
  signature ← decode_lower_hex 64 (ev_sig e) "sig";
  message ← decode_lower_hex 32 (ev_id e) "id";
  if verify_schnorr signature message key then Ok tt else Err InvalidSignature.

End crypto.

(** ** Lemmas *)

Lemma from_kind_cases k :
  (from_kind k = Replaceable <-> k = 0 \/ k = 3 \/ 10000 <= k <= 19999)
  /\ (from_kind k = Ephemeral <-> 20000 <= k <= 29999)
  /\ (from_kind k = Addressable <-> 30000 <= k <= 39999).
Proof.
  unfold from_kind.
  repeat case_match; bool_to_prop; repeat split; intros; try done; try lia.
Qed.

Lemma tag_values_spec e name v :
  v ∈ tag_values e name <-> exists rest, (name :: v :: rest) ∈ ev_tags e.
Proof.
  unfold tag_values. rewrite list_elem_of_omap. split.
  - intros (t & Ht & Hv). apply list_elem_of_filter in Ht as [Hn Ht].
    unfold tag_name, tag_value in *. destruct t as [|n [|w rest]]; cbn in *; try done.
    simplify_eq. by exists rest.
  - intros (rest & Ht). exists (name :: v :: rest). split; [|done].
    by apply list_elem_of_filter.
Qed.

Lemma indexed_tags_spec e name v :
  (name, v) ∈ indexed_tags e <->
  is_indexed_tag_name name = true /\ exists rest, (name :: v :: rest) ∈ ev_tags e.
Proof.
  unfold indexed_tags. rewrite list_elem_of_omap. split.
  - intros (t & Ht & Hv). unfold indexed_pair, tag_name, tag_value in Hv.
    destruct t as [|n [|w rest]]; cbn in Hv; try done; repeat case_match; simplify_eq.
    eauto.
  - intros (Hn & rest & Ht). eexists; split; [done|].
    unfold indexed_pair. cbn. by rewrite Hn.
Qed.

Lemma validate_nip01_structure_Ok e :
  validate_nip01_structure e = Ok tt <->
  is_hex 32 (ev_id e) = true /\ is_hex 32 (ev_pubkey e) = true /\ is_hex 64 (ev_sig e) = true
  /\ Forall (fun t => t <> []) (ev_tags e).
Proof.
  unfold validate_nip01_structure. split.
  - intros Hv. run_inv. repeat split.
    1-3: unfold is_hex; apply is_ok_spec; setoid_rewrite decode_lower_hex_iff;
      rewrite decode_lower_hex_iff in *; eauto.
    apply Forall_forall. intros t Ht ->.
    match goal with Hb : existsb _ _ = false |- _ => rename Hb into Hex end.
    assert (existsb (fun t : Tag => match t with [] => true | _ => false end) (ev_tags e) = true); [|congruence].
    apply existsb_exists. exists []. split; [by apply list_elem_of_In|done].
  - intros (Hi & Hp & Hs & Ht).
    rewrite <- (is_hex_field _ _ "id") in Hi. rewrite <- (is_hex_field _ _ "pubkey") in Hp.
    rewrite <- (is_hex_field _ _ "sig") in Hs.
    apply is_ok_spec in Hi as [? ->], Hp as [? ->], Hs as [? ->]. cbn.
    destruct (existsb _ _) eqn:E; [|done]. exfalso.
    apply existsb_exists in E as (t & Hin & Hnil). rewrite Forall_forall in Ht.
    apply list_elem_of_In, Ht in Hin. by destruct t.
Qed.

Section crypto_lemmas.
Context `{EventCrypto}.

Lemma validate_id_Ok e :
  validate_id e = Ok tt <->
  exists preimage, canonical_bytes e = Ok preimage
    /\ ev_id e = encode_lower_hex (sha256 preimage).
Proof.
  unfold validate_id, computed_id, computed_id_bytes. split.
  - intros Hv. run_inv. subst. eexists. split; [done|].
    match goal with Hb : String.eqb _ _ = true |- _ => by apply String.eqb_eq in Hb end.
  - intros (p & -> & ->). cbn. by rewrite String.eqb_refl.
Qed.

(** An event passes [validate_crypto] exactly when its [id] is the
    lowercase hexadecimal SHA-256 digest of its own canonical bytes, its
    [pubkey] and [sig] are lowercase hexadecimal of 32 and 64 bytes, the key
    is an x-only point, and the Schnorr signature verifies over that digest
    under that key: the signed message is the event's content, never the
    claimed [id]. *)
Theorem validate_crypto_exact `{!Sha256Digest} e :
  validate_crypto e = Ok tt <->
  exists preimage key signature,
    canonical_bytes e = Ok preimage
    /\ ev_id e = encode_lower_hex (sha256 preimage)
    /\ ev_pubkey e = encode_lower_hex key /\ length key = 32%nat /\ Forall is_byte key
    /\ ev_sig e = encode_lower_hex signature /\ length signature = 64%nat
    /\ Forall is_byte signature
    /\ xonly_public_key key = true
    /\ verify_schnorr signature (sha256 preimage) key = true.
Proof.
  assert (forall p field, ev_id e = encode_lower_hex (sha256 p) ->
    decode_lower_hex 32 (ev_id e) field = Ok (sha256 p)) as Hid.
  { intros p field Hp. apply decode_lower_hex_iff.
    auto using sha256_length, sha256_bytes. }
  unfold validate_crypto. split.
  - destruct (validate_id e) as [[]|] eqn:Hi; cbn; [|done].
    apply validate_id_Ok in Hi as (p & Hp & He).
    destruct (decode_lower_hex 32 (ev_pubkey e) "pubkey") as [key|] eqn:Hk; cbn; [|done].
    destruct (xonly_public_key key) eqn:Hx; cbn; [|done].
    destruct (decode_lower_hex 64 (ev_sig e) "sig") as [signature|] eqn:Hs; cbn; [|done].
    rewrite (Hid p "id"%string He). cbn.
    destruct (verify_schnorr _ _ _) eqn:Hv; [|done]. intros _.
    apply decode_lower_hex_iff in Hk as (? & ? & ?), Hs as (? & ? & ?).
    by exists p, key, signature.
  - intros (p & key & signature & Hp & He & Hk & Hkl & Hkb & Hs & Hsl & Hsb & Hx & Hv).
    rewrite (proj2 (validate_id_Ok e)) by eauto. cbn.
    rewrite (proj2 (decode_lower_hex_iff 32 (ev_pubkey e) "pubkey" key)) by done. cbn.
    rewrite Hx. cbn.
    rewrite (proj2 (decode_lower_hex_iff 64 (ev_sig e) "sig" signature)) by done. cbn.
    rewrite (Hid p) by done. cbn. by rewrite Hv.
Qed.

End crypto_lemmas.

(** A stand-in for the external packages, to evaluate the checks on. *)
Definition toy_crypto : EventCrypto := {|
  canonical_json := fun _ _ _ _ content => Ok (as_bytes content);
  sha256 := fun m => replicate 32 (Z.of_nat (length m) mod 256);
  xonly_public_key := fun key => bool_decide (key <> replicate 32 0);
  verify_schnorr := fun signature message key => bool_decide (take 32 signature = message);
|}.

Lemma toy_crypto_digest : @Sha256Digest toy_crypto.
Proof.
  split; intros m; [done|].
  apply Forall_replicate. unfold is_byte. pose proof (Z.mod_pos_bound (Z.of_nat (length m)) 256). lia.
Qed.

Definition toy_event : Event :=
  mkEvent (encode_lower_hex (replicate 32 5)) (encode_lower_hex (replicate 32 7)) 1700000000 1
    [] "hello" (encode_lower_hex (replicate 64 5)).

Lemma validate_crypto_exact_witness :
  @validate_crypto toy_crypto toy_event = Ok tt
  /\ exists preimage, @canonical_bytes toy_crypto toy_event = Ok preimage
       /\ ev_id toy_event = encode_lower_hex (@sha256 toy_crypto preimage).
Proof.
  assert (@validate_crypto toy_crypto toy_event = Ok tt) as Hv by (vm_compute; reflexivity).
  split; [exact Hv|].
  destruct (proj1 (@validate_crypto_exact toy_crypto toy_crypto_digest toy_event) Hv)
    as (p & _ & _ & Hp & Hi & _).
  exists p. split; [exact Hp | exact Hi].
Defined.
