(* ===== verification/Replacement.v ===== *)
(** * Replacement: which version of a replaceable event is current

    [immortal-core/src/domain/replacement.rs]: the coordinate on which
    versions compete, its text form, and the newest-then-lowest-id rule; and
    the use the relay store makes of the rule when a version arrives
    ([immortal-relay/src/store/mod.rs], [admit_inner]). *)

From S2P Require Import Prelude Text Hex Event.

Record ReplacementAddress : Type := mkAddress {
  addr_kind : Z;
  addr_pubkey : string;
  addr_identifier : string;
}.

#[export] Instance ReplacementAddress_eq_dec : EqDecision ReplacementAddress.
Proof. solve_decision. Defined.

#[export] Instance ReplacementAddress_countable : Countable ReplacementAddress.
Proof.
  refine (inj_countable' (fun a => (addr_kind a, addr_pubkey a, addr_identifier a))
            (fun '(k, p, i) => mkAddress k p i) _).
  by intros [].
Defined.

(** [ReplacementAddress::from_event]. *)
Definition replacement_address (e : Event) : option ReplacementAddress :=
  match class e with
  | Replaceable => Some (mkAddress (ev_kind e) (ev_pubkey e) "")
  | Addressable =>
      Some (mkAddress (ev_kind e) (ev_pubkey e) (default ""%string (distinct_parameter e)))
  | Regular | Ephemeral => None
  end.

(** [Display]: kind, pubkey and identifier joined with colons. *)
Definition address_to_string (a : ReplacementAddress) : string :=
  to_string (addr_kind a) +:+ ":" +:+ addr_pubkey a +:+ ":" +:+ addr_identifier a.

(** [FromStr]: [splitn(3, ':')], so the identifier keeps its own colons. *)
Definition address_from_str (value : string) : result DomainError ReplacementAddress :=
  let invalid := InvalidReplacementAddress value in
  match split_once 58 value with
  | None =>
      (* only one part: the kind parses or not, then the pubkey is missing *)
      Err invalid
  | Some (kind_text, rest) =>
      kind ← ok_or invalid (parse_u U16_MAX kind_text);
      match split_once 58 rest with
      | None => Err invalid
      | Some (pubkey, identifier) =>
          _ ← map_err (fun _ => invalid) (decode_lower_hex 32 pubkey "replacement pubkey");
          match from_kind kind with
          | Replaceable =>
              if String.eqb identifier "" then Ok (mkAddress kind pubkey identifier)
              else Err invalid
          | Addressable => Ok (mkAddress kind pubkey identifier)
          | _ => Err invalid
          end
      end
  end.

Inductive ReplacementDecision : Type := KeepCurrent | ReplaceCurrent | Duplicate.

#[export] Instance ReplacementDecision_eq_dec : EqDecision ReplacementDecision.
Proof. solve_decision. Defined.

Definition compare_replacement_order
    (current_created_at : Z) (current_id : string)
    (candidate_created_at : Z) (candidate_id : string) : ReplacementDecision :=
  if String.eqb current_id candidate_id then Duplicate
  else match Z.compare candidate_created_at current_created_at with
       | Gt => ReplaceCurrent
       | Lt => KeepCurrent
       | Eq => if String.ltb candidate_id current_id then ReplaceCurrent else KeepCurrent
       end.

Definition compare_replacement (current candidate : Event)
    : result DomainError ReplacementDecision :=
  current_address ← ok_or NotReplaceable (replacement_address current);
  candidate_address ← ok_or NotReplaceable (replacement_address candidate);
  if bool_decide (current_address <> candidate_address) then Err ReplacementAddressMismatch
  else Ok (compare_replacement_order (ev_created_at current) (ev_id current)
             (ev_created_at candidate) (ev_id candidate)).

(** The replaceable head kept by the store: its [created_at] and [id]
    columns. *)
Notation Head := (Z * string)%type.

(** What the admission transaction does to the head of an address when a
    version arrives: no head yet, or the decision says replace, and the
    version becomes the head; otherwise the head stays. *)
Definition head_after (head : option Head) (candidate : Head) : option Head :=
  match head with
  | None => Some candidate
  | Some (current_created_at, current_id) =>
      match compare_replacement_order current_created_at current_id candidate.1 candidate.2 with
      | KeepCurrent => head
      | Duplicate => head
      | ReplaceCurrent => Some candidate
      end
  end.

(** ** The order *)

Lemma String_compare_refl s : String.compare s s = Eq.
Proof.
  induction s as [|c s IH]; [done|]. cbn.
  unfold Ascii.compare. by rewrite N.compare_refl.
Qed.

Lemma String_compare_trans_lt s t u :
  String.compare s t = Lt -> String.compare t u = Lt -> String.compare s u = Lt.
Proof.
  revert t u. induction s as [|a s IH]; intros [|b t] [|c u]; cbn; try done.
  unfold Ascii.compare.
  destruct (N.compare_spec (N_of_ascii a) (N_of_ascii b)) as [E1|L1|G1]; try done;
  destruct (N.compare_spec (N_of_ascii b) (N_of_ascii c)) as [E2|L2|G2]; try done; intros H1 H2.
  - rewrite E1, E2, N.compare_refl. by eapply IH.
  - rewrite E1. by rewrite (proj2 (N.compare_lt_iff _ _) L2).
  - rewrite <- E2. by rewrite (proj2 (N.compare_lt_iff _ _) L1).
  - by rewrite (proj2 (N.compare_lt_iff _ _) (N.lt_trans _ _ _ L1 L2)).
Qed.

Lemma String_ltb_lt s t : String.ltb s t = true <-> String.compare s t = Lt.
Proof. unfold String.ltb. destruct (String.compare s t); split; done. Qed.

(** [supersedes b a]: version [b] is newer, or as new with a lower id. *)
Definition supersedes (b a : Head) : Prop :=
  a.1 < b.1 \/ (a.1 = b.1 /\ String.compare b.2 a.2 = Lt).

Lemma supersedes_irrefl a : ~ supersedes a a.
Proof. unfold supersedes. rewrite String_compare_refl. intros [|[_ ?]]; [lia|done]. Qed.

Lemma supersedes_trans a b c : supersedes c b -> supersedes b a -> supersedes c a.
Proof.
  unfold supersedes. intros [|[? Hcb]] [|[? Hba]]; try (left; lia).
  right. split; [lia|]. by eapply String_compare_trans_lt.
Qed.

Lemma supersedes_total a b : a = b \/ supersedes a b \/ supersedes b a.
Proof.
  destruct a as [ta ia], b as [tb ib]. unfold supersedes. cbn.
  destruct (Z.lt_trichotomy ta tb) as [|[->|]]; [right; right; by left| |right; left; by left].
  destruct (String.compare ia ib) eqn:E.
  - apply String.compare_eq_iff in E as ->. by left.
  - right; left; right. done.
  - right; right; right. rewrite String.compare_antisym, E. done.
Qed.

Lemma compare_replacement_order_spec a b :
  match compare_replacement_order a.1 a.2 b.1 b.2 with
  | Duplicate => a.2 = b.2
  | ReplaceCurrent => a.2 <> b.2 /\ supersedes b a
  | KeepCurrent => a.2 <> b.2 /\ supersedes a b
  end.
Proof.
  unfold compare_replacement_order. destruct (String.eqb_spec a.2 b.2) as [|Hne]; [done|].
  destruct (Z.compare_spec b.1 a.1) as [Heq|Hlt|Hgt].
  - destruct (String.ltb b.2 a.2) eqn:E.
    + split; [done|]. right. by apply String_ltb_lt in E.
    + split; [done|]. destruct (supersedes_total a b) as [->|[?|[?|[_ Hc]]]]; [done|done|lia|].
      apply String_ltb_lt in Hc. congruence.
  - split; [done|]. by left.
  - split; [done|]. by left.
Qed.

(** ** Convergence *)

(** Ids name versions: a version's id is the digest of its content, so two
    arrivals with the same id are the same version. *)
Definition ids_name_versions (l : list Head) : Prop :=
  forall a b, a ∈ l -> b ∈ l -> a.2 = b.2 -> a = b.

(** The version that no other arrival supersedes. *)
Definition winner (l : list Head) (m : Head) : Prop :=
  m ∈ l /\ forall a, a ∈ l -> a = m \/ supersedes m a.

Lemma winner_unique l m m' : winner l m -> winner l m' -> m = m'.
Proof.
  intros [Hm Hw] [Hm' Hw']. destruct (Hw' m Hm) as [|Hs']; [done|].
  destruct (Hw m' Hm') as [|Hs]; [done|].
  destruct (supersedes_irrefl m). by eapply supersedes_trans.
Qed.

Lemma head_after_winner l m c :
  ids_name_versions (l ++ [c]) -> winner l m ->
  exists m', head_after (Some m) c = Some m' /\ winner (l ++ [c]) m'.
Proof.
  intros Hids [Hm Hw]. destruct m as [tm im]. unfold head_after.
  pose proof (compare_replacement_order_spec (tm, im) c) as Hspec. cbn in Hspec.
  assert (forall a, a ∈ l -> a ∈ l ++ [c]) as Hin by set_solver.
  destruct (compare_replacement_order tm im c.1 c.2).
  - destruct Hspec as [_ Hs]. eexists; split; [done|]. split; [by apply Hin|].
    intros a [Ha|Ha%list_elem_of_singleton]%elem_of_app; [by apply Hw|].
    subst. by right.
  - destruct Hspec as [_ Hs]. eexists; split; [done|]. split; [set_solver|].
    intros a [Ha|Ha%list_elem_of_singleton]%elem_of_app; [|by left].
    right. destruct (Hw a Ha) as [->|]; [done|]. by eapply supersedes_trans.
  - eexists; split; [done|]. split; [by apply Hin|].
    intros a [Ha|Ha%list_elem_of_singleton]%elem_of_app; [by apply Hw|].
    left. subst a. symmetry. apply Hids; [by apply Hin|set_solver|done].
Qed.

Lemma fold_head_winner l c :
  ids_name_versions (c :: l) ->
  exists m, fold_left head_after (c :: l) None = Some m /\ winner (c :: l) m.
Proof.
  induction l as [|x l IH] using rev_ind; intros Hids.
  - exists c. split; [done|]. split; [set_solver|].
    intros a ->%list_elem_of_singleton. by left.
  - destruct IH as (m & Hf & Hw). { intros a b Ha Hb. apply Hids; set_solver. }
    rewrite app_comm_cons, fold_left_app, Hf in *. cbn [fold_left].
    by apply head_after_winner.
Qed.

(** Whatever the order in which the versions of one replaceable
    coordinate reach the store, and however often each is delivered, the head
    ends as the one version that supersedes all others: the newest, and among
    equally new ones the one with the lexically lowest id.  Two relays that
    saw the same versions therefore agree on the current one. *)
Theorem replacement_converges l l' :
  ids_name_versions l -> (forall a, a ∈ l <-> a ∈ l') ->
  fold_left head_after l None = fold_left head_after l' None
  /\ (l <> [] -> exists m, fold_left head_after l None = Some m /\ winner l m).
Proof.
  intros Hids Heq. destruct l as [|c l].
  { destruct l' as [|c' l']; [done|]. exfalso. apply (not_elem_of_nil c'), Heq. constructor. }
  destruct l' as [|c' l']. { exfalso. apply (not_elem_of_nil c), Heq. constructor. }
  destruct (fold_head_winner l c Hids) as (m & Hf & Hw).
  destruct (fold_head_winner l' c') as (m' & Hf' & Hw').
  { intros a b Ha Hb. apply Hids; by apply Heq. }
  split; [|eauto]. rewrite Hf, Hf'. f_equal. eapply winner_unique; [done|].
  destruct Hw' as [Hm' Hw']. split; [by apply Heq|]. intros a Ha. by apply Hw', Heq.
Qed.

Lemma replacement_converges_witness :
  let l := [(10, "bb"); (12, "cc"); (12, "aa"); (9, "00")]%string in
  let l' := [(12, "aa"); (9, "00"); (12, "cc"); (12, "aa"); (10, "bb")]%string in
  fold_left head_after l None = fold_left head_after l' None
  /\ fold_left head_after l None = Some (12, "aa"%string).
Proof.
  intros l l'. split; [|vm_compute; reflexivity].
  refine (proj1 (replacement_converges l l' _ _)).
  - intros a b Ha Hb. unfold l in *. set_solver.
  - unfold l, l'. set_solver.
Defined.

(** ** The text form of an address *)

Definition address_valid (a : ReplacementAddress) : Prop :=
  0 <= addr_kind a <= U16_MAX /\ is_hex 32 (addr_pubkey a) = true
  /\ match from_kind (addr_kind a) with
     | Replaceable => addr_identifier a = ""%string
     | Addressable => True
     | _ => False
     end.

Lemma split_once_colon a b :
  58 ∉ as_bytes a -> split_once 58 (a +:+ ":" +:+ b) = Some (a, b).
Proof.
  intros Ha. unfold split_once.
  assert (split_once_bytes 58 (as_bytes (a +:+ ":" +:+ b)) = Some (as_bytes a, as_bytes b)) as ->.
  { apply split_once_bytes_Some. by rewrite !as_bytes_app. }
  by rewrite !of_bytes_as_bytes.
Qed.

Lemma digits_no_colon l : forallb is_ascii_digit l = true -> 58 ∉ l.
Proof.
  intros Hl Hin. rewrite forallb_forall in Hl. apply list_elem_of_In, Hl in Hin. done.
Qed.

Lemma hex_no_colon N s : is_hex N s = true -> 58 ∉ as_bytes s.
Proof.
  unfold is_hex. intros [bs Hbs]%is_ok_spec Hin.
  apply decode_lower_hex_iff in Hbs as (-> & _ & Hb). rewrite as_bytes_encode in Hin by done.
  induction Hb as [|b bs Hb _ IH]; [by apply elem_of_nil in Hin|].
  cbn [encode_hex_bytes] in Hin. destruct (hex_nibble_digits b Hb) as (Hh & Hl & _).
  rewrite !elem_of_cons in Hin. destruct Hin as [Heq|[Heq|Hin]]; [| |by apply IH].
  - by rewrite <- Heq in Hh.
  - by rewrite <- Heq in Hl.
Qed.

(** An address that names a replaceable or addressable coordinate
    survives printing and parsing, colons inside the identifier included;
    and whatever [from_str] accepts is such a coordinate with a 32-byte
    lowercase pubkey. *)
Theorem address_roundtrip :
  (forall a, address_valid a -> address_from_str (address_to_string a) = Ok a)
  /\ (forall s a, address_from_str s = Ok a -> address_valid a).
Proof.
  split.
  - intros [k p i] (Hk & Hp & Hc). cbn in *. unfold address_from_str, address_to_string. cbn.
    rewrite (split_once_colon (to_string k)).
    2: { rewrite as_bytes_to_string by lia. apply digits_no_colon, decimal_bytes_digits. lia. }
    rewrite parse_u_to_string by lia. cbn.
    rewrite (split_once_colon p) by eauto using hex_no_colon.
    rewrite <- (is_hex_field _ _ "replacement pubkey") in Hp. apply is_ok_spec in Hp as [? ->].
    cbn. destruct (from_kind k); try done. by rewrite Hc.
  - intros s a. unfold address_from_str.
    destruct (split_once 58 s) as [[kt rest]|]; [|done].
    destruct (parse_u U16_MAX kt) as [k|] eqn:Hk; cbn; [|done].
    destruct (split_once 58 rest) as [[p i]|]; [|done].
    destruct (decode_lower_hex 32 p _) eqn:Hp; cbn; [|done].
    apply parse_u_range in Hk. unfold address_valid.
    assert (is_hex 32 p = true) as Hhex.
    { rewrite <- (is_hex_field _ _ "replacement pubkey"), Hp. done. }
    destruct (from_kind k) eqn:Hc; try done.
    + destruct (String.eqb_spec i "") as [->|]; [|done]. intros [= <-]. cbn. by rewrite Hc.
    + intros [= <-]. cbn. by rewrite Hc.
Qed.
