(* ===== verification/Deletion.v ===== *)
(** * Deletion: NIP-09 deletion requests and their tombstones

    [immortal-core/src/domain/deletion.rs].  [BTreeSet] is [gset]; the order
    in which the tombstones are listed is not observable, [deletes] asks
    whether any of them applies. *)

From S2P Require Import Prelude Text Hex Event Replacement.

Record DeletionRequest : Type := mkDeletion {
  del_request_id : string;
  del_author : string;
  del_created_at : Z;
  del_event_ids : gset string;
  del_addresses : gset ReplacementAddress;
}.

Inductive DeletionTombstone : Type :=
| TombEvent (event_id author request_id : string)
| TombAddress (address : ReplacementAddress) (through : Z) (request_id : string).

(** The body of the loop over the tags: both sets, after one tag. *)
Definition collect_reference (pubkey : string)
    (acc : gset string * gset ReplacementAddress) (t : Tag)
    : gset string * gset ReplacementAddress :=
  let '(event_ids, addresses) := acc in
  match tag_name t, tag_value t with
  | Some name, Some value =>
      if String.eqb name "e" && is_ok (decode_lower_hex 32 value "deleted event id")
      then ({[value]} ∪ event_ids, addresses)
      else if String.eqb name "a" then
        match address_from_str value with
        | Ok address =>
            if String.eqb (addr_pubkey address) pubkey
            then (event_ids, {[address]} ∪ addresses) else acc
        | Err _ => acc
        end
      else acc
  | _, _ => acc
  end.

(** [DeletionRequest::from_event]. *)
Definition deletion_from_event (e : Event) : result DomainError DeletionRequest :=
  if negb (ev_kind e =? 5) then Err NotDeletionRequest else
  let '(event_ids, addresses) :=
    fold_left (collect_reference (ev_pubkey e)) (ev_tags e) (∅, ∅) in
  Ok (mkDeletion (ev_id e) (ev_pubkey e) (ev_created_at e) event_ids addresses).

Definition tombstones (d : DeletionRequest) : list DeletionTombstone :=
  ((fun id => TombEvent id (del_author d) (del_request_id d)) <$> elements (del_event_ids d))
  ++ ((fun a => TombAddress a (del_created_at d) (del_request_id d))
        <$> elements (del_addresses d)).

(** [DeletionTombstone::deletes]. *)
Definition tombstone_deletes (t : DeletionTombstone) (e : Event) : bool :=
  if ev_kind e =? 5 then false
  else match t with
       | TombEvent event_id author _ =>
           String.eqb (ev_id e) event_id && String.eqb (ev_pubkey e) author
       | TombAddress address through _ =>
           (ev_created_at e <=? through) && bool_decide (replacement_address e = Some address)
       end.

(** [DeletionRequest::deletes]. *)
Definition request_deletes (d : DeletionRequest) (e : Event) : bool :=
  existsb (fun t => tombstone_deletes t e) (tombstones d).

(** ** What the loop collects *)

Lemma collect_reference_spec pubkey ids addrs t ids' addrs' :
  collect_reference pubkey (ids, addrs) t = (ids', addrs') ->
  (forall id, id ∈ ids' <->
     id ∈ ids \/ (is_hex 32 id = true /\ exists rest, t = "e"%string :: id :: rest))
  /\ (forall a, a ∈ addrs' <->
     a ∈ addrs \/ (addr_pubkey a = pubkey
       /\ exists text rest, t = "a"%string :: text :: rest /\ address_from_str text = Ok a)).
Proof.
  unfold collect_reference. destruct t as [|n [|v rest]]; cbn.
  1, 2: intros [= <- <-]; naive_solver.
  rewrite is_hex_field.
  destruct (String.eqb_spec n "e") as [->|Hne]; cbn.
  - destruct (is_hex 32 v) eqn:Hv; cbn; intros [= <- <-].
    + split; [|naive_solver]. intros id. rewrite elem_of_union, elem_of_singleton. naive_solver.
    + split; [|naive_solver]. intros id. split; [by left|]. intros [|(Hid & r & [= <- <-])]; congruence.
  - destruct (String.eqb_spec n "a") as [->|]; [|intros [= <- <-]; naive_solver].
    destruct (address_from_str v) as [a|] eqn:Ha; [|intros [= <- <-]; naive_solver congruence].
    destruct (String.eqb_spec (addr_pubkey a) pubkey); intros [= <- <-].
    + split; [naive_solver|]. intros b. rewrite elem_of_union, elem_of_singleton. naive_solver congruence.
    + split; [naive_solver|]. intros b. split; [by left|].
      intros [|(Hb & tx & r & [= <- <-] & Htx)]; congruence.
Qed.

Lemma collect_references_spec pubkey tags ids addrs ids' addrs' :
  fold_left (collect_reference pubkey) tags (ids, addrs) = (ids', addrs') ->
  (forall id, id ∈ ids' <->
     id ∈ ids \/ (is_hex 32 id = true /\ exists rest, ("e"%string :: id :: rest) ∈ tags))
  /\ (forall a, a ∈ addrs' <->
     a ∈ addrs \/ (addr_pubkey a = pubkey
       /\ exists text rest, ("a"%string :: text :: rest) ∈ tags /\ address_from_str text = Ok a)).
Proof.
  revert ids addrs. induction tags as [|t tags IH]; intros ids addrs; cbn [fold_left].
  { intros [= <- <-]. split; intros; (split; [by left|]); intros [|(_ & Hin)]; [done| |done|].
    - destruct Hin as [? []%elem_of_nil].
    - destruct Hin as (? & ? & []%elem_of_nil & _). }
  destruct (collect_reference pubkey (ids, addrs) t) as [ids1 addrs1] eqn:Hstep.
  intros [IHi IHa]%IH. apply collect_reference_spec in Hstep as [Hsi Hsa].
  setoid_rewrite elem_of_cons. split.
  - intros id. rewrite IHi, Hsi. naive_solver.
  - intros a. rewrite IHa, Hsa. clear. split.
    + intros [[?|(? & tx & r & -> & ?)]|(? & tx & r & ? & ?)]; [by left|right..];
        (split; [done|]); exists tx, r; auto.
    + intros [?|(? & tx & r & [<-|?] & ?)]; [by left; left|left; right|right];
        (split; [done|]); eauto.
Qed.

Lemma request_deletes_spec d e :
  request_deletes d e = true <->
  ev_kind e <> 5
  /\ ((ev_id e ∈ del_event_ids d /\ ev_pubkey e = del_author d)
      \/ exists a, a ∈ del_addresses d /\ ev_created_at e <= del_created_at d
           /\ replacement_address e = Some a).
Proof.
  unfold request_deletes, tombstones. rewrite existsb_app, orb_true_iff, !existsb_exists.
  setoid_rewrite <- list_elem_of_In. setoid_rewrite list_elem_of_fmap.
  unfold tombstone_deletes. destruct (Z.eqb_spec (ev_kind e) 5) as [|Hk]; [naive_solver|].
  split.
  - intros [(t & (id & -> & Hid%elem_of_elements) & Hd)|(t & (a & -> & Ha%elem_of_elements) & Hd)];
      (split; [done|]); apply andb_true_iff in Hd as [Hd1 Hd2].
    + apply String.eqb_eq in Hd1, Hd2. subst. by left.
    + bool_to_prop. right. eauto.
  - intros [_ [[Hi Hp]|(a & Ha & Ht & Hr)]].
    + left. eexists. split; [eexists; split; [done|by apply elem_of_elements]|].
      by rewrite Hp, !String.eqb_refl.
    + right. eexists. split; [eexists; split; [done|by apply elem_of_elements]|].
      rewrite Hr, bool_decide_eq_true_2 by done. by rewrite andb_true_r, Z.leb_le.
Qed.

Lemma replacement_address_pubkey e a :
  replacement_address e = Some a -> addr_pubkey a = ev_pubkey e.
Proof. unfold replacement_address. intros Ha. repeat case_match; by simplify_eq. Qed.

(** A deletion request deletes an event exactly when the event is not
    itself a deletion request, has the request's author, and is either named
    by an [e] tag with a well-formed id, or is a version, no newer than the
    request, of a coordinate an [a] tag names.  Malformed references and
    references to another author's events never delete anything. *)
Theorem deletion_authority d r e :
  deletion_from_event d = Ok r ->
  (request_deletes r e = true <->
   ev_kind e <> 5 /\ ev_pubkey e = ev_pubkey d
   /\ ((is_hex 32 (ev_id e) = true /\ exists rest, ("e"%string :: ev_id e :: rest) ∈ ev_tags d)
       \/ (ev_created_at e <= ev_created_at d
           /\ exists a text rest, ("a"%string :: text :: rest) ∈ ev_tags d
                /\ address_from_str text = Ok a /\ replacement_address e = Some a))).
Proof.
  unfold deletion_from_event. destruct (ev_kind d =? 5); cbn; [|done].
  destruct (fold_left _ _ _) as [ids addrs] eqn:Hf. intros [= <-].
  apply collect_references_spec in Hf as [Hi Ha].
  rewrite request_deletes_spec. cbn. rewrite Hi. setoid_rewrite Ha. split.
  - intros (Hk & [([[]%elem_of_empty|Hid] & Hp)|(a & [[]%elem_of_empty|Haddr] & Ht & Hr)]).
    + naive_solver.
    + pose proof (replacement_address_pubkey _ _ Hr). naive_solver congruence.
  - intros (Hk & Hp & [Hid|(Ht & a & text & rest & Htag & Hparse & Hr)]).
    + naive_solver.
    + split; [done|]. right. exists a. split; [right|naive_solver].
      split; [|eauto]. by rewrite (replacement_address_pubkey _ _ Hr).
Qed.

Definition example_target (created_at : Z) : Event :=
  mkEvent (encode_lower_hex (replicate 32 1)) (encode_lower_hex (replicate 32 2)) created_at 30023
    [["d"; "x"]]%string "" "".

Definition example_deletion : Event :=
  mkEvent (encode_lower_hex (replicate 32 9)) (encode_lower_hex (replicate 32 2)) 100 5
    [["a"; "30023:" +:+ encode_lower_hex (replicate 32 2) +:+ ":x"]]%string "" "".

Lemma deletion_from_event_Ok d : ev_kind d = 5 -> exists r, deletion_from_event d = Ok r.
Proof.
  intros Hk. unfold deletion_from_event. rewrite Hk. cbn.
  destruct (fold_left _ _ _). eauto.
Qed.

(** At a request of time 100, the version of time 90 of the named coordinate
    is deleted and the one of time 101 is not. *)
Lemma deletion_authority_witness :
  exists r, deletion_from_event example_deletion = Ok r
  /\ request_deletes r (example_target 90) = true
  /\ request_deletes r (example_target 101) <> true.
Proof.
  destruct (deletion_from_event_Ok example_deletion eq_refl) as [r Hr].
  exists r. split; [done|]. split.
  - apply (deletion_authority _ _ _ Hr). split; [done|]. split; [reflexivity|]. right.
    split; [cbn; lia|].
    eexists (mkAddress 30023 (encode_lower_hex (replicate 32 2)) "x"), _, [].
    split; [by left|]. split; vm_compute; reflexivity.
  - intros (_ & _ & [(_ & rest & Hin)|(Ht & _)])%(deletion_authority _ _ _ Hr).
    + cbn [ev_tags example_deletion] in Hin. apply list_elem_of_singleton in Hin. discriminate Hin.
    + cbn in Ht. lia.
Defined.
