(* ===== verification/Filter.v ===== *)
(** * Filter: NIP-01 filters with the NIP-50 search field

    [immortal-core/src/domain/filter.rs]: validation, matching and the JSON
    form.  The Unicode lower-case table behind [str::to_lowercase] is data of
    the Unicode consortium and not of this program: it is the operation of
    the class [Unicode].  JSON text itself is serde_json's; [Value] is the
    tree serde_json hands over. *)

From S2P Require Import Prelude Text Utf8 Hex Event.

(** [str::to_lowercase]. *)
Class Unicode : Type := { to_lowercase : string -> string }.

Record Filter : Type := mkFilter {
  f_ids : option (list string);
  f_authors : option (list string);
  f_kinds : option (list Z);
  f_tags : gmap string (list string);
  f_since : option Z;
  f_until : option Z;
  f_limit : option Z;
  f_search : option string;
}.

(** [Option::is_none_or]. *)
Definition is_none_or {A} (f : A -> bool) (o : option A) : bool :=
  match o with None => true | Some a => f a end.

(** [iter().any(|v| v == x)] and [contains]. *)
Definition mem {A} `{EqDecision A} (x : A) (l : list A) : bool := bool_decide (x ∈ l).

(** [BTreeMap::iter().all(..)]. *)
Definition map_all {A} (f : string -> A -> bool) (m : gmap string A) : bool :=
  forallb (fun kv => f kv.1 kv.2) (map_to_list m).

Definition list_matches (values : option (list string)) (actual : string) : bool :=
  is_none_or (mem actual) values.

Section matching.
Context `{Unicode}.

Definition search_terms (search : string) : list string :=
  to_lowercase <$> List.filter (fun term => negb (str_contains term ":")) (split_whitespace search).

(** One loop over the selectors of a list, with its early return. *)
Definition validate_selectors (field message : string) (values : option (list string))
    : result DomainError unit :=
  match values with
  | None => Ok tt
  | Some l =>
      try_fold (fun _ v =>
        _ ← map_err (fun _ => InvalidFilter message) (decode_lower_hex 32 v field); Ok tt) tt l
  end.

(** [Filter::validate]. *)
Definition filter_validate (f : Filter) : result DomainError unit :=
  _ ← validate_selectors "filter id"
        "every id must be exactly 64 lowercase hexadecimal characters" (f_ids f);
  _ ← validate_selectors "filter author"
        "every author must be exactly 64 lowercase hexadecimal characters" (f_authors f);
  if negb (map_all (fun key _ => is_indexed_tag_name key) (f_tags f)) then
    Err (InvalidFilter "tag selectors must be one ASCII letter or an indexed extension name")
  else
  match f_search f with
  | None => Ok tt
  | Some search =>
      if 256 <? Z.of_nat (length (chars search)) then
        Err (InvalidFilter "search must contain at most 256 characters")
      else if bool_decide (search_terms search = []) then
        Err (InvalidFilter "search must contain at least one non-extension term")
      else Ok tt
  end.

(** [Filter::matches]. *)
Definition filter_matches (f : Filter) (e : Event) : bool :=
  list_matches (f_ids f) (ev_id e)
  && list_matches (f_authors f) (ev_pubkey e)
  && is_none_or (mem (ev_kind e)) (f_kinds f)
  && is_none_or (fun since => since <=? ev_created_at e) (f_since f)
  && is_none_or (fun until => ev_created_at e <=? until) (f_until f)
  && map_all (fun key values =>
       existsb (fun kv => String.eqb kv.1 key && mem kv.2 values) (indexed_tags e)) (f_tags f)
  && is_none_or (fun search =>
       let content := to_lowercase (ev_content e) in
       let terms := search_terms search in
       negb (bool_decide (terms = [])) && forallb (str_contains content) terms) (f_search f).

Definition matches_any (filters : list Filter) (e : Event) : bool :=
  existsb (fun f => filter_matches f e) filters.

End matching.

(** ** The JSON form *)

Inductive Value : Type :=
| VNull
| VBool (b : bool)
| VInt (n : Z)
| VFloat (text : string)
| VString (s : string)
| VArray (l : list Value)
| VObject (l : list (string * Value)).

Inductive DeError : Type :=
| InvalidType
| DuplicateField (name : string)
| UnsupportedField (name : string).

(** serde's implementations for [uN], [String], [Vec<T>] and [Option<T>]. *)
Definition de_u (max : Z) (v : Value) : result DeError Z :=
  match v with
  | VInt n => if (0 <=? n) && (n <=? max) then Ok n else Err InvalidType
  | _ => Err InvalidType
  end.
Definition de_string (v : Value) : result DeError string :=
  match v with VString s => Ok s | _ => Err InvalidType end.
Definition de_vec {A} (de : Value -> result DeError A) (v : Value) : result DeError (list A) :=
  match v with VArray l => try_map de l | _ => Err InvalidType end.
Definition de_option {A} (de : Value -> result DeError A) (v : Value)
    : result DeError (option A) :=
  match v with VNull => Ok None | _ => a ← de v; Ok (Some a) end.

(** [#[serde(default)] name: Option<T>]: at most one entry with the name. *)
Definition de_field {A} (de : Value -> result DeError A) (name : string)
    (entries : list (string * Value)) : result DeError (option A) :=
  match List.filter (fun kv => String.eqb kv.1 name) entries with
  | [] => Ok None
  | [kv] => de_option de kv.2
  | _ => Err (DuplicateField name)
  end.

Definition FIELDS : list string :=
  ["ids"; "authors"; "kinds"; "since"; "until"; "limit"; "search";
   "top_level"; "include_summaries"; "include_aux"; "before_id"]%string.

(** The loop over [raw.extra]: every other field is a tag selector. *)
Definition de_tag_entry (tags : gmap string (list string)) (kv : string * Value)
    : result DeError (gmap string (list string)) :=
  match strip_prefix "#" kv.1 with
  | Some name =>
      if is_indexed_tag_name name then
        values ← de_vec de_string kv.2; Ok (<[name := values]> tags)
      else Err (UnsupportedField kv.1)
  | None => Err (UnsupportedField kv.1)
  end.

(** [impl Deserialize for Filter].  The four channel-window fields are
    accepted with any value and discarded. *)
Definition filter_deserialize (entries : list (string * Value)) : result DeError Filter :=
  ids ← de_field (de_vec de_string) "ids" entries;
  authors ← de_field (de_vec de_string) "authors" entries;
  kinds ← de_field (de_vec (de_u U16_MAX)) "kinds" entries;
  since ← de_field (de_u U64_MAX) "since" entries;
  until ← de_field (de_u U64_MAX) "until" entries;
  limit ← de_field (de_u U64_MAX) "limit" entries;
  search ← de_field de_string "search" entries;
  _ ← de_field (fun v => Ok v) "top_level" entries;
  _ ← de_field (fun v => Ok v) "include_summaries" entries;
  _ ← de_field (fun v => Ok v) "include_aux" entries;
  _ ← de_field (fun v => Ok v) "before_id" entries;
  tags ← try_fold de_tag_entry ∅ (List.filter (fun kv => negb (mem kv.1 FIELDS)) entries);
  Ok (mkFilter ids authors kinds tags since until limit search).

Definition ser_field {A} (name : string) (ser : A -> Value) (o : option A)
    : list (string * Value) :=
  match o with None => [] | Some a => [(name, ser a)] end.
Definition ser_strings (l : list string) : Value := VArray (VString <$> l).

(** [impl Serialize for Filter]; [None] is the serializer's error.  The tag
    entries are listed in the map's own order. *)
Definition filter_serialize (f : Filter) : option (list (string * Value)) :=
  if map_all (fun key _ => is_indexed_tag_name key) (f_tags f) then
    Some (ser_field "ids" ser_strings (f_ids f)
          ++ ser_field "authors" ser_strings (f_authors f)
          ++ ser_field "kinds" (fun l => VArray (VInt <$> l)) (f_kinds f)
          ++ ((fun kv => ("#" +:+ kv.1, ser_strings kv.2)) <$> map_to_list (f_tags f))
          ++ ser_field "since" VInt (f_since f)
          ++ ser_field "until" VInt (f_until f)
          ++ ser_field "limit" VInt (f_limit f)
          ++ ser_field "search" VString (f_search f))
  else None.

(** ** Matching *)

Lemma is_none_or_spec {A} (f : A -> bool) o :
  is_none_or f o = true <-> forall a, o = Some a -> f a = true.
Proof. destruct o; cbn; naive_solver. Qed.

Lemma mem_spec {A} `{EqDecision A} (x : A) l : mem x l = true <-> x ∈ l.
Proof. apply bool_decide_eq_true. Qed.

Lemma map_all_spec {A} (f : string -> A -> bool) (m : gmap string A) :
  map_all f m = true <-> forall k a, m !! k = Some a -> f k a = true.
Proof.
  unfold map_all. rewrite forallb_forall. setoid_rewrite <- list_elem_of_In. split.
  - intros Hf k a Hka. apply (Hf (k, a)). by apply elem_of_map_to_list.
  - intros Hf [k a] Hin%elem_of_map_to_list. by apply Hf.
Qed.

Lemma tag_selector_spec e key values :
  existsb (fun kv => String.eqb kv.1 key && mem kv.2 values) (indexed_tags e) = true <->
  exists v, v ∈ values /\ (key, v) ∈ indexed_tags e.
Proof.
  rewrite existsb_exists. setoid_rewrite <- list_elem_of_In. split.
  - intros ([k v] & Hin & Hkv). apply andb_true_iff in Hkv as [Hk Hv]. cbn in *.
    apply String.eqb_eq in Hk as ->. apply mem_spec in Hv. eauto.
  - intros (v & Hv & Hin). exists (key, v). split; [done|]. cbn.
    by rewrite String.eqb_refl, (proj2 (mem_spec _ _) Hv).
Qed.

(** An event matches a filter exactly when it satisfies every populated
    field: listed id, author and kind; time within the inclusive bounds; for
    every tag selector a tag of that indexed name whose value is listed; and
    for a search at least one non-extension term, each occurring in the
    lower-cased content.  Filters are a conjunction of disjunctions. *)
Theorem filter_matches_exact `{Unicode} f e :
  filter_matches f e = true <->
  (forall l, f_ids f = Some l -> ev_id e ∈ l)
  /\ (forall l, f_authors f = Some l -> ev_pubkey e ∈ l)
  /\ (forall l, f_kinds f = Some l -> ev_kind e ∈ l)
  /\ (forall t, f_since f = Some t -> t <= ev_created_at e)
  /\ (forall t, f_until f = Some t -> ev_created_at e <= t)
  /\ (forall k vs, f_tags f !! k = Some vs ->
        is_indexed_tag_name k = true
        /\ exists v rest, v ∈ vs /\ (k :: v :: rest) ∈ ev_tags e)
  /\ (forall s, f_search f = Some s -> search_terms s <> []
        /\ forall t, t ∈ search_terms s ->
             exists a b, as_bytes (to_lowercase (ev_content e)) = a ++ as_bytes t ++ b).
Proof.
  unfold filter_matches, list_matches. rewrite !andb_true_iff, map_all_spec, !is_none_or_spec.
  setoid_rewrite mem_spec. setoid_rewrite Z.leb_le. setoid_rewrite tag_selector_spec.
  setoid_rewrite indexed_tags_spec. setoid_rewrite andb_true_iff.
  setoid_rewrite negb_true_iff. setoid_rewrite bool_decide_eq_false.
  setoid_rewrite forallb_forall. setoid_rewrite <- list_elem_of_In.
  unfold str_contains. setoid_rewrite contains_bytes_spec.
  assert (forall k (vs : list string),
    (exists v, v ∈ vs /\ is_indexed_tag_name k = true
       /\ exists rest, (k :: v :: rest) ∈ ev_tags e) <->
    is_indexed_tag_name k = true /\ exists v rest, v ∈ vs /\ (k :: v :: rest) ∈ ev_tags e)
    as Htag by naive_solver.
  setoid_rewrite Htag. tauto.
Qed.

(** ** Validation *)

Lemma validate_selectors_Ok field message values :
  validate_selectors field message values = Ok tt <->
  forall l, values = Some l -> Forall (fun v => is_hex 32 v = true) l.
Proof.
  destruct values as [l|]; cbn; [|naive_solver].
  assert (try_fold (fun (_ : unit) v => _ ← map_err (fun _ : DomainError => InvalidFilter message)
            (decode_lower_hex 32 v field); Ok tt) tt l = Ok tt
          <-> Forall (fun v => is_hex 32 v = true) l) as ->; [|naive_solver].
  induction l as [|v l IH]; cbn; [done|].
  rewrite Forall_cons, <- IH, <- (is_hex_field _ _ field).
  destruct (decode_lower_hex 32 v field); cbn; naive_solver.
Qed.

Section validation.
Context `{Unicode}.

Lemma filter_validate_Ok f :
  filter_validate f = Ok tt <->
  (forall l, f_ids f = Some l -> Forall (fun v => is_hex 32 v = true) l)
  /\ (forall l, f_authors f = Some l -> Forall (fun v => is_hex 32 v = true) l)
  /\ (forall k vs, f_tags f !! k = Some vs -> is_indexed_tag_name k = true)
  /\ (forall s, f_search f = Some s ->
        Z.of_nat (length (chars s)) <= 256 /\ search_terms s <> []).
Proof.
  unfold filter_validate.
  rewrite <- (validate_selectors_Ok "filter id"
    "every id must be exactly 64 lowercase hexadecimal characters" (f_ids f)),
    <- (validate_selectors_Ok "filter author"
    "every author must be exactly 64 lowercase hexadecimal characters" (f_authors f)),
    <- (map_all_spec (fun k _ => is_indexed_tag_name k)).
  destruct (validate_selectors _ _ (f_ids f)) as [[]|]; cbn; [|naive_solver].
  destruct (validate_selectors _ _ (f_authors f)) as [[]|]; cbn; [|naive_solver].
  destruct (map_all _ _); cbn; [|naive_solver].
  destruct (f_search f) as [s|]; [|naive_solver].
  destruct (Z.ltb_spec 256 (Z.of_nat (length (chars s)))).
  { split; [done|]. intros (_ & _ & _ & Hs). destruct (Hs s eq_refl). lia. }
  case_bool_decide; [naive_solver|]. split; [|done]. intros _. naive_solver.
Qed.
End validation.

(** ** The JSON round trip *)

Lemma strip_prefix_app p s : strip_prefix p (p +:+ s) = Some s.
Proof.
  unfold strip_prefix. rewrite as_bytes_app.
  rewrite (proj2 (strip_prefix_bytes_Some (as_bytes p) _ (as_bytes s))) by done.
  cbn. by rewrite of_bytes_as_bytes.
Qed.

Lemma filter_ser_field {A} name name' (ser : A -> Value) o :
  List.filter (fun kv => String.eqb kv.1 name) (ser_field name' ser o)
  = if String.eqb name' name then ser_field name' ser o else [].
Proof. destruct o; cbn; [|by case_match]. by destruct (String.eqb name' name). Qed.

Lemma filter_tag_entries name (l : list (string * list string)) :
  starts_with "#" name = false ->
  List.filter (fun kv => String.eqb kv.1 name)
    ((fun kv => ("#" +:+ kv.1, ser_strings kv.2)) <$> l) = [].
Proof.
  intros Hn. induction l as [|[k v] l IH]; cbn; [done|].
  destruct (String.eqb_spec ("#" +:+ k) name) as [<-|]; [|done].
  revert Hn. unfold starts_with. rewrite as_bytes_app. done.
Qed.

Lemma de_field_ser {A} (de : Value -> result DeError A) (ser : A -> Value) name o :
  (forall a, o = Some a -> de (ser a) = Ok a /\ ser a <> VNull) ->
  match ser_field name ser o with
  | [] => Ok None
  | [kv] => de_option de kv.2
  | _ => Err (DuplicateField name)
  end = Ok o.
Proof.
  intros Ha. destruct o as [a|]; cbn; [|done]. destruct (Ha a eq_refl) as [Hde Hnull].
  unfold de_option. rewrite Hde. by destruct (ser a).
Qed.

Lemma de_strings_ser l : de_vec de_string (ser_strings l) = Ok l.
Proof.
  cbn. apply try_map_Ok_Forall2. induction l; cbn; constructor; done.
Qed.

Lemma de_ints_ser max l :
  Forall (in_u max) l -> de_vec (de_u max) (VArray (VInt <$> l)) = Ok l.
Proof.
  intros Hl. cbn. apply try_map_Ok_Forall2. induction Hl as [|n l Hn _ IH]; cbn; constructor; [|done].
  unfold in_u in Hn. cbn. by decide_if.
Qed.

Lemma de_tags_ser (l : list (string * list string)) acc :
  NoDup l.*1 -> Forall (fun kv => is_indexed_tag_name kv.1 = true) l ->
  try_fold de_tag_entry acc ((fun kv => ("#" +:+ kv.1, ser_strings kv.2)) <$> l)
  = Ok (list_to_map l ∪ acc).
Proof.
  revert acc. induction l as [|[k v] l IH]; intros acc Hnd Hall.
  { cbn. by rewrite (left_id_L ∅ (∪)). }
  apply NoDup_cons in Hnd as [Hk Hnd]. apply Forall_cons in Hall as [Hi Hall].
  rewrite fmap_cons. cbn [try_fold fst snd].
  assert (de_tag_entry acc ("#" +:+ k, ser_strings v) = Ok (<[k:=v]> acc)) as ->.
  { unfold de_tag_entry. cbn [fst snd]. cbn in Hi.
    by rewrite (strip_prefix_app "#" k), Hi, de_strings_ser. }
  cbn -[try_fold list_to_map].
  rewrite IH by done. f_equal. cbn [list_to_map foldr curry fst snd uncurry].
  rewrite <- insert_union_r by (by apply not_elem_of_list_to_map).
  by rewrite insert_union_l.
Qed.

Lemma fields_not_tags name : name ∈ FIELDS -> starts_with "#" name = false.
Proof. intros Hin. unfold FIELDS in Hin. set_solver. Qed.

Lemma filter_extra_ser {A} name (ser : A -> Value) o :
  name ∈ FIELDS ->
  List.filter (fun kv => negb (mem kv.1 FIELDS)) (ser_field name ser o) = [].
Proof.
  intros Hin. destruct o; cbn; [|done]. by rewrite (proj2 (mem_spec name FIELDS)).
Qed.

Lemma filter_extra_tags (l : list (string * list string)) :
  let es := (fun kv => ("#" +:+ kv.1, ser_strings kv.2)) <$> l in
  List.filter (fun kv => negb (mem kv.1 FIELDS)) es = es.
Proof.
  induction l as [|[k v] l IH]; cbn; [done|].
  destruct (mem ("#" +:+ k) FIELDS) eqn:Hm; cbn; [|by rewrite IH].
  apply mem_spec, fields_not_tags in Hm. revert Hm.
  unfold starts_with. rewrite as_bytes_app. done.
Qed.

Definition filter_in_range (f : Filter) : Prop :=
  (forall l, f_kinds f = Some l -> Forall (in_u U16_MAX) l)
  /\ (forall t, f_since f = Some t -> in_u U64_MAX t)
  /\ (forall t, f_until f = Some t -> in_u U64_MAX t)
  /\ (forall t, f_limit f = Some t -> in_u U64_MAX t).

Lemma de_u_ser max o :
  (forall t, o = Some t -> in_u max t) ->
  forall t, o = Some t -> de_u max (VInt t) = Ok t /\ VInt t <> VNull.
Proof.
  intros Ho t Ht. destruct (Ho t Ht) as [H0 Hm]. split; [|done]. cbn.
  by rewrite (proj2 (Z.leb_le _ _) H0), (proj2 (Z.leb_le _ _) Hm).
Qed.

(** A filter whose integers fit their types is written as JSON exactly
    when all its tag selectors are indexed names, and the JSON reads back as
    the same filter. *)
Theorem filter_json_roundtrip f :
  filter_in_range f ->
  match filter_serialize f with
  | Some entries => filter_deserialize entries = Ok f
  | None => exists k vs, f_tags f !! k = Some vs /\ is_indexed_tag_name k = false
  end.
Proof.
  intros (Hkinds & Hsince & Huntil & Hlimit). unfold filter_serialize.
  destruct (map_all _ (f_tags f)) eqn:Htags.
  2: { unfold map_all in Htags. apply not_true_iff_false in Htags.
       rewrite forallb_forall in Htags. setoid_rewrite <- list_elem_of_In in Htags.
       destruct (decide (Exists (fun kv => is_indexed_tag_name kv.1 = false) (map_to_list (f_tags f))))
         as [He|Hn].
       - apply Exists_exists in He as ([k vs] & Hin%elem_of_map_to_list & Hk). eauto.
       - destruct Htags. intros kv Hin. apply not_Exists_Forall in Hn; [|apply _].
         rewrite Forall_forall in Hn. by apply Hn, not_false_iff_true in Hin. }
  rewrite map_all_spec in Htags.
  unfold filter_deserialize, de_field.
  rewrite !List.filter_app, !filter_ser_field, !filter_tag_entries by reflexivity.
  rewrite filter_extra_tags, !filter_extra_ser by (unfold FIELDS; set_solver).
  cbn -[ser_field try_fold fmap]. rewrite ?app_nil_r.
  rewrite (de_field_ser (de_vec de_string) ser_strings "ids") by (split; [apply de_strings_ser|done]).
  rewrite (de_field_ser (de_vec de_string) ser_strings "authors") by (split; [apply de_strings_ser|done]).
  cbn -[ser_field try_fold fmap].
  rewrite (de_field_ser (de_vec (de_u U16_MAX)) (fun l => VArray (VInt <$> l)) "kinds")
    by (split; [apply de_ints_ser; eauto|done]).
  cbn -[ser_field try_fold fmap].
  rewrite !(de_field_ser (de_u U64_MAX) VInt) by by apply de_u_ser.
  cbn -[ser_field try_fold fmap]. rewrite (de_field_ser de_string VString "search") by done.
  cbn -[try_fold fmap]. rewrite de_tags_ser.
  - cbn. rewrite list_to_map_to_list, (right_id_L ∅ (∪)). by destruct f.
  - apply NoDup_fst_map_to_list.
  - apply Forall_forall. intros [k vs] Hin%elem_of_map_to_list. by eapply Htags.
Qed.

Definition example_filter : Filter :=
  mkFilter (Some [encode_lower_hex (replicate 32 7)]) None (Some [1; 30023])
    {[ "t" := ["nostr"; "swap"]; "work" := ["a"] ]}%string (Some 10) None (Some 500)
    (Some "hello world"%string).

Lemma filter_json_roundtrip_witness :
  match filter_serialize example_filter with
  | Some entries => length entries = 7%nat /\ filter_deserialize entries = Ok example_filter
  | None => False
  end.
Proof.
  assert (filter_in_range example_filter) as Hr.
  { split; [|split; [|split]]; intros x Hx; cbn in Hx; simplify_eq; [|unfold in_u, U64_MAX; lia..].
    repeat constructor; unfold U16_MAX; lia. }
  pose proof (filter_json_roundtrip example_filter Hr) as Hrt.
  destruct (filter_serialize example_filter) as [es|] eqn:He; [|by vm_compute in He].
  split; [|exact Hrt].
  assert (length <$> filter_serialize example_filter = Some 7%nat) as Hlen by (vm_compute; reflexivity).
  rewrite He in Hlen. by injection Hlen.
Defined.
