(* ===== verification/Expanded.v ===== *)
(** * Expanded: shapes of the adopted extension kinds

    [immortal-core/src/domain/expanded.rs]: NIP-29 group actions, the checks
    [Event::validate_structure] adds to NIP-01, the base64 reader and NIP-98
    HTTP authorization.  The JSON reader that turns the decoded header into an
    event is serde_json's: it is the operation of the class [EventReader]. *)

From S2P Require Import Prelude Text Utf8 Regroup Hex Event Filter.

Definition HTTP_AUTH_KIND : Z := 27235.
Definition HTTP_AUTH_WINDOW_SECONDS : Z := 60.
Definition MAX_GROUP_ID_BYTES : Z := 128.

(** [Unicode Cc]: [char::is_control]. *)
Definition is_control (c : Z) : bool := (c <? 32) || in_range 127 159 c.

(** [u64::abs_diff]. *)
Definition abs_diff (a b : Z) : Z := Z.abs (a - b).

(** [tags.iter().filter(|tag| tag.name() == Some(name)).collect()]. *)
Definition tags_named (name : string) (e : Event) : list Tag :=
  filter (fun t => tag_name t = Some name) (ev_tags e).

Definition value_or_empty (t : Tag) : string := default ""%string (tag_value t).

(** The block extension kinds that are never group traffic. *)
Definition READ_STATE_KIND : Z := 30078.
Definition AGENT_ENGRAM_KIND : Z := 30174.
Definition AGENT_PERSONA_KIND : Z := 30175.
Definition TEAM_CATALOG_KIND : Z := 30178.
Definition EVENT_REMINDER_KIND : Z := 30300.
Definition PUSH_LEASE_KIND : Z := 30350.
Definition PROJECT_KIND : Z := 30621.
Definition BLOCK_GLOBAL_ONLY_KINDS : list Z :=
  [READ_STATE_KIND; AGENT_ENGRAM_KIND; AGENT_PERSONA_KIND; TEAM_CATALOG_KIND; EVENT_REMINDER_KIND;
   PUSH_LEASE_KIND; PROJECT_KIND].

Definition exactly_one (e : Event) (name : string) : result DomainError Tag :=
  match tags_named name e with
  | [t] => if match tag_value t with Some v => negb (String.eqb v "") | None => false end then Ok t
           else Err (InvalidEvent ("event requires exactly one " +:+ name +:+ " tag"))
  | _ => Err (InvalidEvent ("event requires exactly one " +:+ name +:+ " tag"))
  end.

(** ** Groups *)

Record GroupMetadata : Type := mkGroupMetadata {
  gm_name : string;
  gm_about : string;
  gm_picture : string;
  gm_closed : bool;
  gm_supported_kinds : option (list Z);
}.

Inductive GroupAction : Type :=
| PutUser (pubkey : string) (roles : list string)
| RemoveUser (pubkey : string)
| EditMetadata (metadata : GroupMetadata)
| DeleteEvent (event_id : string)
| CreateGroup
| DeleteGroup
| CreateInvite (code : string)
| UpdatePins (tags : list Tag)
| Join (code : option string)
| Leave.

(** [GroupMetadata::from_tags]. *)
Definition metadata_from_tags (tags : list Tag) : result DomainError GroupMetadata :=
  let scalar name := default ""%string (t ← find_tag name tags; tag_value t) in
  supported ← match find_tag "supported_kinds" tags with
              | None => Ok None
              | Some t =>
                  kinds ← try_map (fun v => ok_or (InvalidEvent "invalid supported group kind") (parse_u U16_MAX v))
                            (drop 1 t);
                  Ok (Some kinds)
              end;
  Ok (mkGroupMetadata (scalar "name"%string) (scalar "about"%string) (scalar "picture"%string)
        (existsb (fun t => bool_decide (t = ["closed"%string])) tags) supported).

(** [GroupAction::from_event]. *)
Definition group_action (e : Event) : result DomainError (option GroupAction) :=
  let k := ev_kind e in
  if k =? 9000 then
    tag ← exactly_one e "p";
    let pubkey := value_or_empty tag in
    _ ← decode_lower_hex 32 pubkey "group member pubkey";
    Ok (Some (PutUser pubkey (drop 2 tag)))
  else if k =? 9001 then
    tag ← exactly_one e "p";
    let pubkey := value_or_empty tag in
    _ ← decode_lower_hex 32 pubkey "group member pubkey";
    Ok (Some (RemoveUser pubkey))
  else if k =? 9002 then
    metadata ← metadata_from_tags (ev_tags e); Ok (Some (EditMetadata metadata))
  else if k =? 9005 then
    tag ← exactly_one e "e";
    let event_id := value_or_empty tag in
    _ ← decode_lower_hex 32 event_id "group event id";
    Ok (Some (DeleteEvent event_id))
  else if k =? 9007 then Ok (Some CreateGroup)
  else if k =? 9008 then Ok (Some DeleteGroup)
  else if k =? 9009 then
    tag ← exactly_one e "code"; Ok (Some (CreateInvite (value_or_empty tag)))
  else if k =? 9010 then
    Ok (Some (UpdatePins (filter (fun t => tag_name t = Some "e"%string \/ tag_name t = Some "a"%string) (ev_tags e))))
  else if k =? 9021 then Ok (Some (Join (head (tag_values e "code"))))
  else if k =? 9022 then Ok (Some Leave)
  else if in_range 9003 9004 k || (k =? 9006) || in_range 9011 9020 k then
    Err (InvalidEvent "unsupported NIP-29 moderation kind")
  else Ok None.

(** ** Shapes *)

(** The text before the first of the given bytes: [split([..]).next()]. *)
Fixpoint before_any (stops : list Z) (l : list Z) : list Z :=
  match l with
  | [] => []
  | b :: l' => if mem b stops then [] else b :: before_any stops l'
  end.

Definition has_whitespace (s : string) : bool := existsb is_whitespace (chars s).

Definition valid_http_url (value : string) : bool :=
  match (match strip_prefix "http://" value with
         | Some rest => Some rest
         | None => strip_prefix "https://" value
         end) with
  | None => false
  | Some rest =>
      let authority := before_any [47; 63; 35] (as_bytes rest) in
      negb (bool_decide (authority = [])) && (str_len value <=? 2048) && negb (has_whitespace value)
  end.

Definition media_type_byte (byte : Z) : bool :=
  is_ascii_alphanumeric byte || mem byte (as_bytes "!#$&^_.+-").

Definition valid_media_type (value : string) : bool :=
  negb (String.eqb value "") && (str_len value <=? 127) && String.eqb value (to_ascii_lowercase value)
  && match split_once 47 value with
     | Some (top, subtype) =>
         negb (String.eqb top "") && negb (String.eqb subtype "")
         && forallb media_type_byte (as_bytes top) && forallb media_type_byte (as_bytes subtype)
     | None => false
     end.

(** [ws://] or [wss://]. *)
Definition valid_relay_url (relay : string) : bool :=
  (starts_with "ws://" relay || starts_with "wss://" relay) && (str_len relay <=? 2048)
  && negb (has_whitespace relay).

Definition previous_prefix_ok (prefix : string) : bool :=
  (str_len prefix =? 8) && forallb (fun b => is_ascii_digit b || in_range 97 102 b) (as_bytes prefix).

Definition relay_list_tag_ok (t : Tag) : bool :=
  match t with
  | [_; url] => valid_relay_url url
  | [_; url; marker] => valid_relay_url url && mem marker ["read"; "write"]%string
  | _ => false
  end.

Definition require (b : bool) (message : string) : result DomainError unit :=
  if b then Ok tt else Err (InvalidEvent message).

(** The [h] tags that make an event group traffic. *)
Definition group_tags (e : Event) : list Tag :=
  filter (fun t => ev_kind e ∉ BLOCK_GLOBAL_ONLY_KINDS /\ tag_name t = Some "h"%string) (ev_tags e).

Definition validate_group_tags (e : Event) : result DomainError unit :=
  let tags := group_tags e in
  _ ← match tags with
      | [] => Ok tt
      | [t] => let group := value_or_empty t in
               require (negb (String.eqb group "") && (str_len group <=? MAX_GROUP_ID_BYTES))
                 "group id must contain 1 to 128 bytes"
      | _ => Err (InvalidEvent "NIP-29 events require exactly one h tag")
      end;
  _ ← require (negb (in_range 9000 9022 (ev_kind e) && bool_decide (tags = [])))
        "NIP-29 management events require an h tag";
  require (bool_decide (tags = [])
           || forallb (fun t => (2 <=? len t) && forallb previous_prefix_ok (drop 1 t)) (tags_named "previous" e))
    "NIP-29 previous references must be 8 lowercase hexadecimal characters".

Definition validate_file_metadata (e : Event) : result DomainError unit :=
  url ← exactly_one e "url";
  _ ← require (valid_http_url (value_or_empty url)) "kind 1063 requires one valid HTTP url tag";
  media_type ← exactly_one e "m";
  _ ← require (valid_media_type (value_or_empty media_type)) "kind 1063 requires one lowercase MIME type tag";
  hash ← exactly_one e "x";
  _ ← decode_lower_hex 32 (value_or_empty hash) "file metadata hash";
  require match tag_values e "size" with
          | [] => true
          | [size] => bool_decide (is_Some (parse_u U64_MAX size))
          | _ => false
          end "kind 1063 size tag must be one unsigned integer".

(** [validate_expanded_event]. *)
Definition validate_expanded_event (e : Event) : result DomainError unit :=
  let k := ev_kind e in
  _ ← validate_group_tags e;
  action ← group_action e;
  _ ← match action with
      | Some (CreateInvite code) =>
          require (str_len code <=? 256) "group invite code must contain at most 256 bytes"
      | _ => Ok tt
      end;
  _ ← (if k =? 1059 then
         match tag_values e "p" with
         | [recipient] => _ ← decode_lower_hex 32 recipient "gift wrap recipient"; Ok tt
         | _ => Err (InvalidEvent "gift wraps require exactly one p-tagged recipient")
         end
       else Ok tt);
  _ ← (if k =? 10050 then
         require (negb (bool_decide (tag_values e "relay" = [])) && forallb valid_relay_url (tag_values e "relay"))
           "kind 10050 requires valid ws:// or wss:// relay tags"
       else Ok tt);
  _ ← (if k =? 10002 then
         require (negb (bool_decide (tags_named "r" e = [])) && forallb relay_list_tag_ok (tags_named "r" e))
           "kind 10002 requires valid r relay tags and read/write markers"
       else Ok tt);
  _ ← (if k =? 10063 then
         require (negb (bool_decide (tag_values e "server" = [])) && forallb valid_http_url (tag_values e "server"))
           "kind 10063 requires valid http:// or https:// server tags"
       else Ok tt);
  if k =? 1063 then validate_file_metadata e else Ok tt.

(** [Event::validate_structure]. *)
Definition validate_structure (e : Event) : result DomainError unit :=
  _ ← validate_nip01_structure e; validate_expanded_event e.

(** [Event::validate_at]. *)
Definition validate_at `{EventCrypto} (e : Event) (now max_future_seconds : Z) : result DomainError unit :=
  _ ← validate_structure e;
  _ ← timestamp_validate max_future_seconds (ev_created_at e) now;
  _ ← match expiration e with
      | Some expiration => if expiration <=? now then Err (ExpiredEvent expiration now) else Ok tt
      | None => Ok tt
      end;
  validate_crypto e.

(** ** Base64 *)

(** [trim_end_matches('=')]. *)
Fixpoint trim_end (c : Z) (l : list Z) : list Z :=
  match l with
  | [] => []
  | b :: l' => match trim_end c l' with
               | [] => if b =? c then [] else [b]
               | t => b :: t
               end
  end.

(** The digit of a byte of either base64 alphabet. *)
Definition base64_digit (byte : Z) : option Z :=
  if in_range 65 90 byte then Some (byte - 65)
  else if in_range 97 122 byte then Some (byte - 97 + 26)
  else if in_range 48 57 byte then Some (byte - 48 + 52)
  else if (byte =? 43) || (byte =? 45) then Some 62
  else if (byte =? 47) || (byte =? 95) then Some 63
  else None.

Definition base64_step (st : Z * Z * list Z) (byte : Z) : result DomainError (Z * Z * list Z) :=
  let '(accumulator, bits, output) := st in
  digit ← ok_or (InvalidEvent "HTTP authorization is not valid base64") (base64_digit byte);
  let accumulator := Z.lor (shl32 accumulator 6) digit in
  let bits := bits + 6 in
  if 8 <=? bits then
    let bits := bits - 8 in
    Ok (Z.land accumulator (saturating_sub (shl32 1 bits) 1), bits,
        output ++ [Z.land (Z.shiftr accumulator bits) 255])
  else Ok (accumulator, bits, output).

Definition decode_base64 (value : string) : result DomainError (list Z) :=
  st ← try_fold base64_step (0, 0, []) (trim_end 61 (as_bytes value));
  let '(accumulator, bits, output) := st in
  if (6 <=? bits) || negb (accumulator =? 0)
  then Err (InvalidEvent "HTTP authorization has invalid base64 padding")
  else Ok output.

(** ** NIP-98 *)

(** [serde_json::from_slice::<Event>]. *)
Class EventReader : Type := { event_of_json : list Z -> option Event }.

Definition require_single_tag (e : Event) (name expected : string) : result DomainError unit :=
  require (bool_decide (tag_values e name = [expected]))
    ("HTTP authorization " +:+ name +:+ " tag does not match").

Section http_auth.
Context `{EventCrypto, !EventReader}.

Definition parse_http_authorization_hash (header method absolute_url : string)
    (payload_hash : option string) (now : Z) : result DomainError (string * string) :=
  encoded ← ok_or (InvalidEvent "HTTP authorization scheme must be Nostr") (strip_prefix "Nostr " header);
  decoded ← decode_base64 encoded;
  e ← ok_or (InvalidEvent "HTTP authorization is not an event") (event_of_json decoded);
  _ ← validate_structure e;
  _ ← validate_crypto e;
  _ ← require (ev_kind e =? HTTP_AUTH_KIND) "HTTP authorization event must have kind 27235";
  _ ← require (abs_diff (ev_created_at e) now <=? HTTP_AUTH_WINDOW_SECONDS)
        "HTTP authorization timestamp is outside 60 seconds";
  _ ← require_single_tag e "u" absolute_url;
  _ ← require_single_tag e "method" method;
  _ ← match payload_hash with
      | Some payload_hash => require_single_tag e "payload" payload_hash
      | None => require (bool_decide (tag_values e "payload" = []))
                  "HTTP authorization payload tag is not allowed without a payload"
      end;
  Ok (ev_id e, ev_pubkey e).

Definition parse_http_authorization (header method absolute_url : string) (payload : list Z) (now : Z)
    : result DomainError (string * string) :=
  let payload_hash := encode_lower_hex (sha256 payload) in
  parse_http_authorization_hash header method absolute_url (Some payload_hash) now.

End http_auth.

(** ** Lemmas *)

Lemma require_Ok b message u : require b message = Ok u <-> b = true.
Proof. unfold require. destruct b, u; split; congruence. Qed.

Lemma validate_structure_nip01 e : validate_structure e = Ok tt -> validate_nip01_structure e = Ok tt.
Proof. unfold validate_structure. intros Hv. run_inv. by destruct x. Qed.

(** A gift wrap names exactly one recipient. *)
Lemma gift_wrap_single e :
  validate_structure e = Ok tt -> ev_kind e = 1059 ->
  exists recipient, tag_values e "p" = [recipient] /\ is_hex 32 recipient = true.
Proof.
  unfold validate_structure, validate_expanded_event. intros Hv Hk. rewrite Hk in Hv.
  rewrite !Z.eqb_refl in Hv. run_inv.
  destruct (tag_values e "p") as [|r [|]] eqn:Hp; try discriminate.
  run_inv. exists r. split; [done|]. rewrite <- (is_hex_field 32 r "gift wrap recipient").
  match goal with Hd : decode_lower_hex 32 r _ = Ok _ |- _ => by rewrite Hd end.
Qed.

(** *** Base64 *)

(** The digits read spell the bytes written followed by the pending bits. *)
Definition base64_inv (ds : list Z) (st : Z * Z * list Z) : Prop :=
  let '(acc, bits, out) := st in
  6 * Z.of_nat (length ds) = 8 * Z.of_nat (length out) + bits
  /\ 0 <= bits < 8 /\ 0 <= acc < 2 ^ bits /\ digits 8 out
  /\ value 6 ds = value 8 out * 2 ^ bits + acc.

Lemma base64_digit_range byte d : base64_digit byte = Some d -> 0 <= d < 2 ^ 6.
Proof. unfold base64_digit, in_range. intros H. repeat (case_match; simplify_eq); bool_to_prop; lia. Qed.

Lemma base64_step_inv ds st byte st' :
  base64_inv ds st -> base64_step st byte = Ok st' ->
  exists d, base64_digit byte = Some d /\ base64_inv (ds ++ [d]) st'.
Proof.
  destruct st as [[acc bits] out]. intros (Hlen & Hb & Hacc & Hout & Hv) Hs. unfold base64_step in Hs.
  apply bind_Ok in Hs as (d & Hd & Hs). apply ok_or_Ok in Hd. exists d. split; [done|].
  pose proof (base64_digit_range _ _ Hd) as Hr.
  assert (acc < 2 ^ 8) by (pose proof (Z.pow_lt_mono_r 2 bits 8); lia).
  assert (Z.lor (shl32 acc 6) d = acc * 2 ^ 6 + d) as Hacc'.
  { unfold shl32, wrap32. rewrite Z.mod_small by (rewrite Z.shiftl_mul_pow2; lia). by apply lor_shiftl. }
  rewrite Hacc' in Hs. assert (2 ^ (bits + 6) = 2 ^ bits * 2 ^ 6) as Hpow by (rewrite Z.pow_add_r; lia).
  destruct (Z.leb_spec 8 (bits + 6)) as [Hge|Hlt]; simplify_eq/=.
  - assert (2 ^ (bits + 6) = 2 ^ (bits + 6 - 8) * 2 ^ 8) as Hpow8 by (rewrite <- Z.pow_add_r; [f_equal|..]; lia).
    assert (0 < 2 ^ (bits + 6 - 8)) by lia.
    assert (2 ^ (bits + 6 - 8) < 2 ^ 32) by (apply Z.pow_lt_mono_r; lia).
    unfold shl32, wrap32, saturating_sub. rewrite Z.shiftl_1_l, Z.mod_small, Z.max_r by lia.
    rewrite land_mask by lia. change 255 with (2 ^ 8 - 1). rewrite land_mask, Z.shiftr_div_pow2 by lia.
    set (m := 2 ^ (bits + 6 - 8)) in *. set (a := acc * 2 ^ 6 + d) in *.
    assert (0 <= a / m < 2 ^ 8).
    { split; [apply Z.div_pos; lia|]. apply Z.div_lt_upper_bound; [done|]. lia. }
    rewrite (Z.mod_small (a / m)) by lia. split_and!.
    + rewrite !length_app. cbn. lia.
    + lia.
    + lia.
    + apply Z.mod_pos_bound. lia.
    + apply Z.mod_pos_bound. lia.
    + apply Forall_app. split; [done|]. by apply Forall_singleton.
    + rewrite !value_snoc, Hv. pose proof (Z.div_mod a m ltac:(lia)). nia.
  - split_and!; [rewrite length_app; cbn; lia|lia..|done|]. rewrite value_snoc, Hv, Hpow. ring.
Qed.

Lemma base64_step_ok ds st byte d :
  base64_inv ds st -> base64_digit byte = Some d -> exists st', base64_step st byte = Ok st'.
Proof.
  destruct st as [[acc bits] out]. intros _ Hd. unfold base64_step. rewrite Hd. cbn. case_match; eauto.
Qed.

Lemma base64_fold_inv l ds st st' :
  base64_inv ds st -> try_fold base64_step st l = Ok st' ->
  exists ks, base64_digit <$> l = Some <$> ks /\ base64_inv (ds ++ ks) st'.
Proof.
  revert ds st. induction l as [|b l IH]; intros ds st Hi Hf; cbn in Hf.
  - exists []. rewrite app_nil_r. by simplify_eq.
  - apply bind_Ok in Hf as (st1 & Hs & Hf).
    destruct (base64_step_inv ds st b st1 Hi Hs) as (d & Hd & Hi1).
    destruct (IH _ _ Hi1 Hf) as (ks & Hk & Hi'). exists (d :: ks). cbn. rewrite Hd, Hk.
    split; [done|]. by rewrite <- app_assoc in Hi'.
Qed.

Lemma base64_fold_ok l ks ds st :
  base64_inv ds st -> base64_digit <$> l = Some <$> ks -> exists st', try_fold base64_step st l = Ok st'.
Proof.
  revert ks ds st. induction l as [|b l IH]; intros [|k ks] ds st Hi Hl; simplify_eq/=; [by eauto|].
  destruct (base64_step_ok ds st b k Hi) as [st1 Hs]; [done|]. rewrite Hs. cbn.
  destruct (base64_step_inv ds st b st1 Hi Hs) as (d & Hd & Hi1). by apply (IH ks _ _ Hi1).
Qed.

(** The reader accepts exactly the base64 spelling of a byte string, in either
    alphabet, with any amount of padding. *)
Lemma decode_base64_spec s bs :
  decode_base64 s = Ok bs <->
  digits 8 bs /\ base64_digit <$> trim_end 61 (as_bytes s) = Some <$> regroup_pad 8 6 bs.
Proof.
  unfold decode_base64. generalize (trim_end 61 (as_bytes s)). intros l.
  assert (base64_inv [] (0, 0, [])) as H0 by (split_and!; done || lia || constructor).
  split.
  - intros Hd. apply bind_Ok in Hd as ([[acc bits] out] & Hf & Hd).
    destruct (base64_fold_inv _ _ _ _ H0 Hf) as (ks & Hk & Hlen & Hb & Hacc & Hout & Hv).
    cbn [app] in *. run_inv. bool_to_prop. subst. split; [done|]. rewrite Hk. do 2 f_equal. symmetry.
    apply (regroup_pad_unique 8 6 ltac:(lia) ltac:(lia) ks bs bits); [|done|lia..].
    clear -Hk. revert l Hk. induction ks as [|k ks IH]; intros [|b l] Hk; simplify_eq/=; [constructor..|].
    constructor; [by eapply base64_digit_range|by eapply IH].
  - intros [Hbs Hl]. destruct (base64_fold_ok _ _ _ _ H0 Hl) as ([[acc bits] out] & Hf). rewrite Hf. cbn.
    destruct (base64_fold_inv _ _ _ _ H0 Hf) as (ks & Hk & Hlen & Hb & Hacc & Hout & Hv). cbn [app] in *.
    rewrite Hk in Hl. apply list_fmap_eq_inj in Hl; [|by intros ?? [=]]. subst ks.
    destruct (regroup_pad_spec 8 6 ltac:(lia) ltac:(lia) bs Hbs) as (p & Hp & Hlen' & _ & Hv').
    destruct (digit_split (Z.of_nat (length out)) bits (Z.of_nat (length bs)) p 8) as [Hlo ->]; [lia..|].
    destruct (digit_split (value 8 out) acc (value 8 bs) 0 (2 ^ p)) as [Hvo ->]; [lia..|].
    decide_if. f_equal. apply (value_inj 8); [lia|done..|lia|done].
Qed.

(** *** NIP-98 *)

Section http_auth_spec.
Context `{EventCrypto, !EventReader}.

(** C35: an HTTP authorization header is accepted exactly when it is the Nostr
    scheme followed by the base64 spelling of the JSON of a validly signed
    event of kind 27235, dated within a minute of the clock, whose only [u]
    and [method] tags are those of the request, and whose [payload] tags are
    the hash of the payload, or none where the request has no payload; the
    identity granted is the signer of that event. *)
Theorem http_auth_exact header method absolute_url payload_hash now id pubkey :
  parse_http_authorization_hash header method absolute_url payload_hash now = Ok (id, pubkey) <->
  exists e json encoded,
    header = "Nostr " +:+ encoded
    /\ digits 8 json /\ base64_digit <$> trim_end 61 (as_bytes encoded) = Some <$> regroup_pad 8 6 json
    /\ event_of_json json = Some e
    /\ id = ev_id e /\ pubkey = ev_pubkey e
    /\ validate_structure e = Ok tt /\ validate_crypto e = Ok tt
    /\ ev_kind e = 27235 /\ Z.abs (ev_created_at e - now) <= 60
    /\ tag_values e "u" = [absolute_url] /\ tag_values e "method" = [method]
    /\ tag_values e "payload" = option_list payload_hash.
Proof.
  unfold parse_http_authorization_hash, require_single_tag. split.
  - intros Hp. run_inv. rewrite strip_prefix_Some in *. rewrite !require_Ok in *.
    rewrite decode_base64_spec in *. destruct_and!. bool_to_prop. unit_results.
    eexists _, _, _. split_and!; try done || lia.
    destruct payload_hash; rewrite require_Ok in *; by case_bool_decide.
  - intros (e & json & encoded & -> & Hj & Hd & He & -> & -> & Hs & Hc & Hk & Ht & Hu & Hm & Hp).
    rewrite (proj2 (strip_prefix_Some _ _ _) eq_refl). cbn.
    rewrite (proj2 (decode_base64_spec _ _) (conj Hj Hd)). cbn. rewrite He. cbn. rewrite Hs. cbn. rewrite Hc. cbn.
    rewrite Hk, Hu, Hm, Hp. unfold abs_diff, require, HTTP_AUTH_WINDOW_SECONDS.
    destruct payload_hash; rewrite !bool_decide_true by done; by decide_if.
Qed.

End http_auth_spec.
