(* ===== verification/Agent.v ===== *)
(** * Agent: agent envelopes and owner attestations

    [immortal-core/src/domain/agent.rs]: NIP-OA owner attestations with their
    condition language, NIP-AO observer routes, NIP-AM turn metrics and the
    NIP-44 envelope check. *)

From S2P Require Import Prelude Text Utf8 Hex Event Filter Expanded.

Definition AGENT_OBSERVER_KIND : Z := 24200.
Definition AGENT_TURN_METRIC_KIND : Z := 44200.
Definition OWNER_ATTESTATION_DOMAIN : string := "nostr:agent-auth:".
Definition NIP44_MIN_CONTENT_LEN : Z := 132.
Definition NIP44_MAX_CONTENT_LEN : Z := 87472.

(** The error texts; [InEvent context error] is [format!("{context}: {error}")]. *)
Inductive AgentError : Type :=
| Reason (text : string)
| InEvent (context : string) (error : DomainError).

Record OwnerAttestation : Type := mkAttestation {
  owner_pubkey : string;
  attested_conditions : string;
}.

Inductive AgentObserverDirection : Type := Telemetry | Control.

Record AgentObserverRoute : Type := mkRoute {
  route_agent : string;
  route_owner : string;
  route_direction : AgentObserverDirection;
}.

Inductive Condition : Type :=
| CondKind (kind : Z)
| CreatedBefore (bound : Z)
| CreatedAfter (bound : Z).

(** ** The condition language *)

Definition parse_canonical_decimal (input : string) (maximum : Z) (name : string) : result AgentError Z :=
  if negb (is_canonical_decimal input)
  then Err (Reason ("owner attestation " +:+ name +:+ " must be a canonical decimal")) else
  value ← ok_or (Reason ("owner attestation " +:+ name +:+ " is out of range")) (parse_u U64_MAX input);
  if maximum <? value then Err (Reason ("owner attestation " +:+ name +:+ " is out of range"))
  else Ok value.

(** The closure over the clauses. *)
Definition parse_clause (clause : string) : result AgentError Condition :=
  if String.eqb clause "" then Err (Reason "owner attestation conditions contain an empty clause") else
  match strip_prefix "kind=" clause with
  | Some value =>
      value ← parse_canonical_decimal value U16_MAX "kind";
      ok_or (Reason "owner attestation kind is out of range") (CondKind <$> try_from_u U16_MAX value)
  | None =>
  match strip_prefix "created_at<" clause with
  | Some value => bound ← parse_canonical_decimal value U32_MAX "created_at<"; Ok (CreatedBefore bound)
  | None =>
  match strip_prefix "created_at>" clause with
  | Some value => bound ← parse_canonical_decimal value U32_MAX "created_at>"; Ok (CreatedAfter bound)
  | None => Err (Reason "owner attestation contains an unsupported condition")
  end end end.

Definition parse_conditions (input : string) : result AgentError (list Condition) :=
  if String.eqb input "" then Ok [] else
  if negb (is_ascii input) || existsb is_ascii_whitespace (as_bytes input)
  then Err (Reason "owner attestation conditions must be ASCII without whitespace") else
  try_map parse_clause (split_str 38 input).

Definition condition_satisfied (evaluate_kind : bool) (e : Event) (c : Condition) : bool :=
  match c with
  | CondKind kind => negb evaluate_kind || (ev_kind e =? kind)
  | CreatedBefore bound => ev_created_at e <? bound
  | CreatedAfter bound => bound <? ev_created_at e
  end.

(** ** Attestations *)

Section attestation.
Context `{EventCrypto}.

Definition verify_attestation (e : Event) (evaluate_kind : bool) : result AgentError (option OwnerAttestation) :=
  match tags_named "auth" e with
  | [] => Ok None
  | _ :: _ :: _ => Err (Reason "owner attestation must contain exactly one auth tag")
  | [tag] =>
      match tag with
      | [_; owner; conditions; signature] =>
          owner_bytes ← map_err (fun _ => Reason "owner attestation pubkey must be 64 lowercase hex characters")
                          (decode_lower_hex 32 owner "owner pubkey");
          if negb (xonly_public_key owner_bytes)
          then Err (Reason "owner attestation pubkey is not a valid BIP-340 key") else
          if String.eqb owner (ev_pubkey e) then Err (Reason "owner attestation must not be self-signed") else
          signature ← map_err (fun _ => Reason "owner attestation signature must be 128 lowercase hex characters")
                        (decode_lower_hex 64 signature "owner signature");
          parsed_conditions ← parse_conditions conditions;
          let digest := sha256 (as_bytes (OWNER_ATTESTATION_DOMAIN +:+ ev_pubkey e +:+ ":" +:+ conditions)) in
          if negb (verify_schnorr signature digest owner_bytes)
          then Err (Reason "owner attestation signature verification failed") else
          if negb (forallb (condition_satisfied evaluate_kind e) parsed_conditions)
          then Err (Reason "owner attestation conditions do not authorize this event") else
          Ok (Some (mkAttestation owner conditions))
      | _ => Err (Reason "owner attestation auth tag must contain exactly four elements")
      end
  end.

Definition verify_owner_attestation (e : Event) : result AgentError (option OwnerAttestation) :=
  _ ← map_err (InEvent "invalid event carrying owner attestation") (validate_structure e);
  _ ← map_err (InEvent "invalid event carrying owner attestation") (validate_crypto e);
  verify_attestation e true.

Definition verify_agent_auth_attestation (e : Event) : result AgentError (option OwnerAttestation) :=
  _ ← map_err (InEvent "invalid authentication event") (validate_structure e);
  _ ← map_err (InEvent "invalid authentication event") (validate_crypto e);
  verify_attestation e false.

Definition verify_owner_binding (e : Event) (agent_pubkey : string) : result AgentError (option OwnerAttestation) :=
  _ ← map_err (InEvent "invalid owner request") (validate_structure e);
  _ ← map_err (InEvent "invalid owner request") (validate_crypto e);
  match tags_named "auth" e with
  | [] => Ok None
  | [[_; owner; conditions; signature]] =>
      if negb (String.eqb owner (ev_pubkey e))
      then Err (Reason "owner request auth pubkey must equal the request author") else
      owner_bytes ← map_err (fun _ => Reason "owner request pubkey must be 64 lowercase hex characters")
                      (decode_lower_hex 32 owner "owner pubkey");
      if negb (xonly_public_key owner_bytes)
      then Err (Reason "owner request pubkey is not a valid BIP-340 key") else
      _ ← map_err (fun _ => Reason "owner request target must be a lowercase hex pubkey")
            (decode_lower_hex 32 agent_pubkey "agent pubkey");
      signature ← map_err (fun _ => Reason "owner request signature must be 128 lowercase hex characters")
                    (decode_lower_hex 64 signature "owner signature");
      parsed_conditions ← parse_conditions conditions;
      let digest := sha256 (as_bytes (OWNER_ATTESTATION_DOMAIN +:+ agent_pubkey +:+ ":" +:+ conditions)) in
      if negb (verify_schnorr signature digest owner_bytes)
      then Err (Reason "owner request attestation signature verification failed") else
      if negb (forallb (condition_satisfied false e) parsed_conditions)
      then Err (Reason "owner request attestation time conditions are not satisfied") else
      Ok (Some (mkAttestation owner conditions))
  | _ => Err (Reason "owner request must contain exactly one four-element auth tag")
  end.

End attestation.

(** ** NIP-44 envelopes *)

Definition base64_value (byte : Z) : option Z :=
  if in_range 65 90 byte then Some (byte - 65)
  else if in_range 97 122 byte then Some (byte - 97 + 26)
  else if in_range 48 57 byte then Some (byte - 48 + 52)
  else if byte =? 43 then Some 62
  else if byte =? 47 then Some 63
  else None.

(** The loop over the bytes: the amount of padding, or [None] where a byte is
    refused.  [n] is the length of the whole content. *)
Fixpoint padding_loop (n index padding : Z) (l : list Z) : option Z :=
  match l with
  | [] => Some padding
  | byte :: l' =>
      if (is_ascii_alphanumeric byte || (byte =? 43) || (byte =? 47)) && (padding =? 0)
      then padding_loop n (index + 1) padding l'
      else if (byte =? 61) && (saturating_sub n 2 <=? index) && (padding <? 2)
      then padding_loop n (index + 1) (padding + 1) l'
      else None
  end.

Definition validate_nip44_v2_content (content subject : string) : result AgentError unit :=
  let bytes := as_bytes content in
  let n := len bytes in
  if negb ((NIP44_MIN_CONTENT_LEN <=? n) && (n <=? NIP44_MAX_CONTENT_LEN)) || negb (n mod 4 =? 0)
  then Err (Reason (subject +:+ " content is not a bounded NIP-44 v2 ciphertext")) else
  padding ← ok_or (Reason (subject +:+ " content is not canonical base64")) (padding_loop n 0 0 bytes);
  let decoded_len := n / 4 * 3 - padding in
  if decoded_len <? 99 then Err (Reason (subject +:+ " content is too short for NIP-44 v2")) else
  let first := high ← bytes !! 0%nat ≫= base64_value; low ← bytes !! 1%nat ≫= base64_value;
               Some (Z.lor (Z.land (Z.shiftl high 2) 255) (Z.shiftr low 4)) in
  if bool_decide (first = Some 2) then Ok tt
  else Err (Reason (subject +:+ " content does not carry NIP-44 version 2")).

(** ** Observer frames and turn metrics *)

Definition agent_single_tag_value (e : Event) (name subject : string) : result AgentError string :=
  match tags_named name e with
  | [t] => ok_or (Reason (subject +:+ " " +:+ name +:+ " tag is missing its value")) (tag_value t)
  | _ => Err (Reason (subject +:+ " must contain exactly one " +:+ name +:+ " tag"))
  end.

Section agents.
Context `{EventCrypto}.

Definition single_pubkey_tag (e : Event) (name subject : string) : result AgentError string :=
  value ← agent_single_tag_value e name subject;
  bytes ← map_err (fun _ => Reason (subject +:+ " " +:+ name +:+ " tag must be a lowercase hex pubkey"))
            (decode_lower_hex 32 value "agent pubkey");
  if xonly_public_key bytes then Ok value
  else Err (Reason (subject +:+ " " +:+ name +:+ " tag is not a valid BIP-340 pubkey")).

Definition agent_observer_route (e : Event) : result AgentError (option AgentObserverRoute) :=
  if negb (ev_kind e =? AGENT_OBSERVER_KIND)
  then Err (Reason "agent observer event must have kind 24200") else
  _ ← validate_nip44_v2_content (ev_content e) "agent observer";
  recipient ← single_pubkey_tag e "p" "agent observer";
  agent ← single_pubkey_tag e "agent" "agent observer";
  frame ← agent_single_tag_value e "frame" "agent observer";
  '(owner, direction, expected_frame) ←
    (if String.eqb (ev_pubkey e) agent && negb (String.eqb recipient agent)
     then Ok (recipient, Telemetry, "telemetry"%string)
     else if String.eqb recipient agent && negb (String.eqb (ev_pubkey e) agent)
     then Ok (ev_pubkey e, Control, "control"%string)
     else Err (Reason "agent observer frame must be agent-to-owner telemetry or owner-to-agent control"));
  if negb (String.eqb frame expected_frame) then Ok None
  else Ok (Some (mkRoute agent owner direction)).

Definition agent_turn_metric_owner (e : Event) : result AgentError string :=
  if negb (ev_kind e =? AGENT_TURN_METRIC_KIND) then Err (Reason "agent turn metric must have kind 44200") else
  if negb (bool_decide (tags_named "h" e = [])) then Err (Reason "agent turn metric must not have an h tag") else
  owner ← single_pubkey_tag e "p" "agent turn metric";
  agent ← single_pubkey_tag e "agent" "agent turn metric";
  if negb (String.eqb agent (ev_pubkey e))
  then Err (Reason "agent turn metric agent tag must equal event pubkey") else
  _ ← validate_nip44_v2_content (ev_content e) "agent turn metric";
  Ok owner.

End agents.

(** ** The meaning of conditions *)

Definition print_condition (c : Condition) : string :=
  match c with
  | CondKind kind => "kind=" +:+ to_string kind
  | CreatedBefore bound => "created_at<" +:+ to_string bound
  | CreatedAfter bound => "created_at>" +:+ to_string bound
  end.

Definition print_conditions (cs : list Condition) : string := join_str 38 (print_condition <$> cs).

Definition condition_range (c : Condition) : Prop :=
  match c with
  | CondKind kind => 0 <= kind <= U16_MAX
  | CreatedBefore bound | CreatedAfter bound => 0 <= bound <= U32_MAX
  end.

Definition condition_holds (evaluate_kind : bool) (e : Event) (c : Condition) : Prop :=
  match c with
  | CondKind kind => evaluate_kind = true -> ev_kind e = kind
  | CreatedBefore bound => ev_created_at e < bound
  | CreatedAfter bound => bound < ev_created_at e
  end.

Lemma condition_satisfied_holds k e c : condition_satisfied k e c = true <-> condition_holds k e c.
Proof.
  destruct c; cbn; [|apply Z.ltb_lt|apply Z.ltb_lt].
  destruct k; cbn; [rewrite Z.eqb_eq; naive_solver|naive_solver].
Qed.

Lemma parse_canonical_decimal_iff input maximum name v :
  maximum <= U64_MAX ->
  parse_canonical_decimal input maximum name = Ok v <-> input = to_string v /\ 0 <= v <= maximum.
Proof.
  intros Hm. rewrite <- (canonical_decimal_iff U64_MAX maximum input v Hm). unfold parse_canonical_decimal. split.
  - intros Hp. run_inv. bool_to_prop. subst. auto.
  - intros (-> & -> & Hv). cbn. by decide_if.
Qed.

(** A prefix that differs within the text known so far is not found. *)
Lemma strip_prefix_differs p q s :
  (forall r, strip_prefix_bytes (as_bytes p) (as_bytes q ++ r) = None) -> strip_prefix p (q +:+ s) = None.
Proof. intros Hn. unfold strip_prefix. by rewrite as_bytes_app, Hn. Qed.

Lemma parse_clause_iff clause c :
  parse_clause clause = Ok c <-> clause = print_condition c /\ condition_range c.
Proof.
  split.
  - unfold parse_clause. intros Hp. run_inv.
    destruct (strip_prefix "kind=" clause) eqn:H1;
      [|destruct (strip_prefix "created_at<" clause) eqn:H2;
        [|destruct (strip_prefix "created_at>" clause) eqn:H3; [|done]]]; run_inv.
    + rewrite strip_prefix_Some in H1. rewrite parse_canonical_decimal_iff in * by done. destruct_and!. subst.
      unfold try_from_u in *. case_match; simplify_eq/=. done.
    + rewrite strip_prefix_Some in H2. rewrite parse_canonical_decimal_iff in * by done. destruct_and!. by subst.
    + rewrite strip_prefix_Some in H3. rewrite parse_canonical_decimal_iff in * by done. destruct_and!. by subst.
  - intros [-> Hr]. unfold parse_clause. destruct c; cbn [print_condition condition_range] in *.
    + rewrite strip_prefix_app. rewrite (proj2 (parse_canonical_decimal_iff _ U16_MAX _ kind ltac:(done))) by done.
      cbn. rewrite try_from_u_eq by lia. done.
    + rewrite (strip_prefix_differs "kind=") by done. rewrite strip_prefix_app.
      by rewrite (proj2 (parse_canonical_decimal_iff _ U32_MAX _ bound ltac:(done))) by done.
    + rewrite (strip_prefix_differs "kind=") by done. rewrite (strip_prefix_differs "created_at<") by done.
      rewrite strip_prefix_app. by rewrite (proj2 (parse_canonical_decimal_iff _ U32_MAX _ bound ltac:(done))) by done.
Qed.

(** Printed clauses are printable ASCII without separator or white space. *)
Definition clause_byte (b : Z) : bool := (b <? 128) && negb (is_ascii_whitespace b) && negb (b =? 38).

Lemma print_condition_bytes c : condition_range c -> forallb clause_byte (as_bytes (print_condition c)) = true.
Proof.
  intros Hr. assert (forall n, 0 <= n -> forallb clause_byte (as_bytes (to_string n)) = true) as Hn.
  { intros n Hn. rewrite as_bytes_to_string by done. pose proof (decimal_bytes_digits n Hn) as Hd.
    rewrite forallb_forall in *. intros b Hb. specialize (Hd b Hb).
    unfold clause_byte, is_ascii_whitespace, is_ascii_digit in *. lia. }
  destruct c; cbn [print_condition condition_range] in *; rewrite as_bytes_app, forallb_app, Hn by lia; done.
Qed.

Lemma print_condition_free c : condition_range c -> 38 ∉ as_bytes (print_condition c).
Proof.
  intros Hr Hin. pose proof (print_condition_bytes c Hr) as Hb. rewrite forallb_forall in Hb.
  apply list_elem_of_In, Hb in Hin. done.
Qed.

Lemma print_conditions_ok cs :
  Forall condition_range cs ->
  is_ascii (print_conditions cs) = true /\ existsb is_ascii_whitespace (as_bytes (print_conditions cs)) = false.
Proof.
  intros Hcs. unfold is_ascii, print_conditions, join_str.
  assert (forallb (fun b => (b <? 128) && negb (is_ascii_whitespace b))
            (join_bytes 38 (as_bytes <$> (print_condition <$> cs))) = true) as Hb.
  { induction Hcs as [|c cs Hc Hcs IH]; [done|].
    assert (forallb (fun b => (b <? 128) && negb (is_ascii_whitespace b)) (as_bytes (print_condition c)) = true) as Hp.
    { pose proof (print_condition_bytes c Hc) as Hp. rewrite forallb_forall in *. intros b Hb. specialize (Hp b Hb).
      unfold clause_byte in Hp. by apply andb_true_iff in Hp as [-> _]. }
    destruct cs as [|d cs]; [done|]. cbn [fmap list_fmap] in *.
    change (join_bytes 38 (?p :: ?q :: ?ps)) with (p ++ 38 :: join_bytes 38 (q :: ps)).
    rewrite forallb_app, Hp. cbn [forallb andb]. by rewrite IH. }
  rewrite as_bytes_of_bytes.
  - rewrite forallb_forall in Hb. split.
    + apply forallb_forall. intros b Hin. specialize (Hb b Hin). by apply andb_true_iff in Hb as [? _].
    + apply not_true_iff_false. intros He. apply existsb_exists in He as (b & Hin & Hw). specialize (Hb b Hin).
      rewrite Hw in Hb. by rewrite andb_false_r in Hb.
  - apply join_bytes_range; [unfold is_byte; lia|]. apply Forall_fmap, Forall_true. intros. apply as_bytes_range.
Qed.

Lemma print_conditions_split cs :
  cs <> [] -> Forall condition_range cs -> split_str 38 (print_conditions cs) = print_condition <$> cs.
Proof.
  intros Hne Hcs. apply split_str_iff; [unfold is_byte; lia|by destruct cs| |done]. apply Forall_fmap.
  eapply Forall_impl; [done|]. intros. by apply print_condition_free.
Qed.

Lemma print_conditions_empty cs : Forall condition_range cs -> print_conditions cs = ""%string <-> cs = [].
Proof.
  intros Hcs. split; [|by intros ->]. intros He. destruct cs as [|c cs]; [done|exfalso].
  pose proof (print_conditions_split (c :: cs) ltac:(done) ltac:(done)) as Hs. rewrite He in Hs. destruct cs, c; discriminate Hs.
Qed.

(** The condition language: exactly the printed conjunctions are accepted, each
    as the conjunction it prints. *)
Lemma parse_conditions_iff input cs :
  parse_conditions input = Ok cs <-> input = print_conditions cs /\ Forall condition_range cs.
Proof.
  unfold parse_conditions. split.
  - destruct (String.eqb_spec input "") as [->|Hne]; intros Hp; [by simplify_eq|]. run_inv. bool_to_prop.
    apply try_map_Ok_Forall2 in Hp.
    assert (split_str 38 input = print_condition <$> cs /\ Forall condition_range cs) as [Hs Hr].
    { clear -Hp. induction Hp as [|x c l k Hx Hp [IH1 IH2]]; [done|]. apply parse_clause_iff in Hx as [-> Hc].
      split; [cbn; by f_equal|by constructor]. }
    split; [|done]. apply (split_str_iff 38 input) in Hs as ->; [done|unfold is_byte; lia| |].
    + destruct cs; [|done]. unfold split_str in Hs. cbn in Hs. apply fmap_nil_inv in Hs.
      by apply split_bytes_nonempty in Hs.
    + apply Forall_fmap. eapply Forall_impl; [done|]. intros. by apply print_condition_free.
  - intros [-> Hcs]. pose proof (print_conditions_ok cs Hcs) as [-> ->]. cbn [negb orb].
    destruct (String.eqb_spec (print_conditions cs) "") as [He|Hne]; [by apply print_conditions_empty in He as ->|].
    assert (cs <> []) by (by intros ->).
    rewrite print_conditions_split by done.
    clear Hne H. induction Hcs as [|c cs Hc Hcs IH]; [done|]. cbn.
    rewrite (proj2 (parse_clause_iff _ c)) by done. cbn. by rewrite IH.
Qed.

Section attestation_spec.
Context `{EventCrypto}.

Lemma verify_attestation_iff e evaluate_kind a :
  verify_attestation e evaluate_kind = Ok (Some a) <->
  exists key signature cs,
    tags_named "auth" e
      = [["auth"%string; encode_lower_hex key; print_conditions cs; encode_lower_hex signature]]
    /\ length key = 32%nat /\ Forall is_byte key /\ xonly_public_key key = true
    /\ length signature = 64%nat /\ Forall is_byte signature
    /\ encode_lower_hex key <> ev_pubkey e
    /\ Forall condition_range cs
    /\ verify_schnorr signature
         (sha256 (as_bytes ("nostr:agent-auth:" +:+ ev_pubkey e +:+ ":" +:+ print_conditions cs))) key = true
    /\ Forall (condition_holds evaluate_kind e) cs
    /\ a = mkAttestation (encode_lower_hex key) (print_conditions cs).
Proof.
  unfold verify_attestation. split.
  - destruct (tags_named "auth" e) as [|tag [|]] eqn:Ht; try done.
    assert (tag_name tag = Some "auth"%string) as Hn.
    { assert (tag ∈ tags_named "auth" e) as Hin by (rewrite Ht; constructor).
      by apply list_elem_of_filter in Hin as [? _]. }
    destruct tag as [|name [|owner [|conditions [|signature [|]]]]]; try done. injection Hn as ->.
    intros Hv. run_inv. rewrite decode_lower_hex_iff in *. destruct_and!. bool_to_prop. subst.
    rewrite parse_conditions_iff in *. destruct_and!. subst.
    match goal with Hf : forallb _ _ = true |- _ => rename Hf into Hc end.
    do 3 eexists. split_and!; try done; [by apply String.eqb_neq|].
    apply Forall_forall. intros c Hc'. apply condition_satisfied_holds. rewrite forallb_forall in Hc.
    by apply Hc, list_elem_of_In.
  - intros (key & signature & cs & Ht & Hk & Hkb & Hx & Hs & Hsb & Hne & Hr & Hv & Hc & ->). rewrite Ht.
    rewrite (proj2 (decode_lower_hex_iff 32 _ _ key)) by done. cbn [mbind result_bind map_err]. rewrite Hx. cbn [negb].
    rewrite (proj2 (String.eqb_neq _ _) Hne).
    rewrite (proj2 (decode_lower_hex_iff 64 _ _ signature)) by done. cbn [mbind result_bind map_err].
    rewrite (proj2 (parse_conditions_iff _ cs)) by done. cbn [mbind result_bind].
    unfold OWNER_ATTESTATION_DOMAIN. rewrite Hv. cbn [negb].
    rewrite (proj2 (forallb_forall _ _)); [done|]. intros c Hin. apply condition_satisfied_holds.
    rewrite Forall_forall in Hc. by apply Hc, list_elem_of_In.
Qed.

(** An event is attributed to an owner exactly when it is itself valid, its
    only [auth] tag carries the x-only key of somebody else, a signature by
    that key over the agent's key and the condition text, the text is a
    canonical conjunction of clauses, and the event satisfies every clause. *)
Theorem owner_attestation_exact e a :
  verify_owner_attestation e = Ok (Some a) <->
  validate_structure e = Ok tt /\ validate_crypto e = Ok tt
  /\ exists key signature cs,
    tags_named "auth" e
      = [["auth"%string; encode_lower_hex key; print_conditions cs; encode_lower_hex signature]]
    /\ length key = 32%nat /\ Forall is_byte key /\ xonly_public_key key = true
    /\ length signature = 64%nat /\ Forall is_byte signature
    /\ encode_lower_hex key <> ev_pubkey e
    /\ Forall condition_range cs
    /\ verify_schnorr signature
         (sha256 (as_bytes ("nostr:agent-auth:" +:+ ev_pubkey e +:+ ":" +:+ print_conditions cs))) key = true
    /\ Forall (condition_holds true e) cs
    /\ a = mkAttestation (encode_lower_hex key) (print_conditions cs).
Proof.
  rewrite <- verify_attestation_iff. unfold verify_owner_attestation. split.
  - intros Hv. run_inv. by unit_results.
  - by intros (-> & -> & ?).
Qed.

End attestation_spec.

(** ** Envelopes name one reader *)

Section envelope_lemmas.
Context `{EventCrypto}.

Lemma agent_single_tag_value_Ok e name subject v :
  agent_single_tag_value e name subject = Ok v -> tag_values e name = [v].
Proof.
  unfold agent_single_tag_value, tag_values, tags_named. intros Hv.
  destruct (filter _ _) as [|t [|]]; try done. run_inv. cbn. by rewrite Hv.
Qed.

Lemma single_pubkey_tag_Ok e name subject v : single_pubkey_tag e name subject = Ok v -> tag_values e name = [v].
Proof. unfold single_pubkey_tag. intros Hv. run_inv. subst. by eapply agent_single_tag_value_Ok. Qed.

Lemma agent_observer_recipient e r :
  agent_observer_route e = Ok r -> exists recipient, tag_values e "p" = [recipient].
Proof.
  unfold agent_observer_route. intros Hv. run_inv.
  match goal with Hp : single_pubkey_tag e "p" _ = Ok _ |- _ => apply single_pubkey_tag_Ok in Hp; eauto end.
Qed.

Lemma agent_turn_metric_recipient e owner :
  agent_turn_metric_owner e = Ok owner -> tag_values e "p" = [owner].
Proof.
  unfold agent_turn_metric_owner. intros Hv. run_inv. subst.
  match goal with Hp : single_pubkey_tag e "p" _ = Ok _ |- _ => by apply single_pubkey_tag_Ok in Hp end.
Qed.

End envelope_lemmas.
