(* ===== verification/Block.v ===== *)
(** * Block: shapes of the Block extension kinds

    [immortal-core/src/domain/block.rs]: engrams, personas, team catalogs,
    reminders, projects, push leases, identity archive requests, workspace
    icons and DM visibility commands.  All errors are texts. *)

From S2P Require Import Prelude Text Utf8 Hex Event Filter Expanded Agent.

Definition DM_VISIBILITY_KIND : Z := 30622.
Definition THREAD_SUMMARY_KIND : Z := 39005.
Definition WINDOW_BOUNDS_KIND : Z := 39006.
Definition IDENTITY_ARCHIVE_REQUEST_KIND : Z := 9035.
Definition IDENTITY_UNARCHIVE_REQUEST_KIND : Z := 9036.
Definition IDENTITY_ARCHIVED_KIND : Z := 8002.
Definition IDENTITY_UNARCHIVED_KIND : Z := 8003.
Definition IDENTITY_ARCHIVE_LIST_KIND : Z := 13535.
Definition WORKSPACE_PROFILE_KIND : Z := 9033.
Definition DM_OPEN_KIND : Z := 41010.
Definition DM_HIDE_KIND : Z := 41012.
Definition MAX_REMINDER_HORIZON_SECONDS : Z := 31536000.

Definition RELAY_ONLY_BLOCK_KINDS : list Z :=
  [DM_VISIBILITY_KIND; THREAD_SUMMARY_KIND; WINDOW_BOUNDS_KIND; IDENTITY_ARCHIVED_KIND;
   IDENTITY_UNARCHIVED_KIND; IDENTITY_ARCHIVE_LIST_KIND].

Record IdentityArchiveRequest : Type := mkArchiveRequest {
  ar_archive : bool;
  ar_target : string;
  ar_reason : option string;
  ar_replaced_by : option string;
}.

Definition check (b : bool) (message : string) : result AgentError unit :=
  if b then Ok tt else Err (Reason message).

(** The text between double quotes. *)
Definition quoted (s : string) : string := of_bytes [34] +:+ s +:+ of_bytes [34].

(** ** Shared readers *)

Definition single_tag_value (e : Event) (name subject : string) : result AgentError string :=
  match tags_named name e with
  | [t] => if len t <? 2
           then Err (Reason (subject +:+ " must contain exactly one " +:+ name +:+ " tag with a value"))
           else Ok (value_or_empty t)
  | _ => Err (Reason (subject +:+ " must contain exactly one " +:+ name +:+ " tag with a value"))
  end.

Definition optional_single_value (e : Event) (name subject : string) : result AgentError (option string) :=
  match tags_named name e with
  | [] => Ok None
  | [t] => if len t <? 2
           then Err (Reason (subject +:+ " has a malformed or duplicate " +:+ name +:+ " tag"))
           else Ok (tag_value t)
  | _ => Err (Reason (subject +:+ " has a malformed or duplicate " +:+ name +:+ " tag"))
  end.

(** Only called with 32 bytes. *)
Definition lower_hex (value subject : string) : result AgentError unit :=
  check (is_ok (decode_lower_hex 32 value "Block NIP hexadecimal value"))
    (subject +:+ " must be " +:+ to_string 64 +:+ " lowercase hexadecimal characters").

Definition canonical_decimal (value : string) (maximum : Z) (subject : string) : result AgentError Z :=
  if negb (is_canonical_decimal value) then Err (Reason (subject +:+ " must be a canonical decimal")) else
  parsed ← ok_or (Reason (subject +:+ " is out of range")) (parse_u U64_MAX value);
  if parsed <=? maximum then Ok parsed else Err (Reason (subject +:+ " is out of range")).

Definition validate_shared (e : Event) (subject : string) : result AgentError unit :=
  check match tags_named "shared" e with
        | [] => true
        | [t] => bool_decide (t = ["shared"; "true"]%string)
        | _ => false
        end (subject +:+ " shared tag must be exactly [" +:+ quoted "shared" +:+ "," +:+ quoted "true" +:+ "] and unique").

(** ** Ingest checks *)

Definition validate_engram (e : Event) : result AgentError unit :=
  d ← single_tag_value e "d" "agent engram";
  _ ← lower_hex d "agent engram d tag";
  owner ← single_tag_value e "p" "agent engram";
  _ ← lower_hex owner "agent engram owner";
  validate_nip44_v2_content (ev_content e) "agent engram".

Definition persona_d_ok (bytes : list Z) : bool :=
  match bytes with
  | [] => false
  | b :: rest =>
      (len bytes <=? 64) && (is_ascii_lowercase b || is_ascii_digit b)
      && forallb (fun byte => is_ascii_lowercase byte || is_ascii_digit byte || (byte =? 95) || (byte =? 45)) rest
  end.

Definition validate_persona (e : Event) : result AgentError unit :=
  _ ← validate_shared e "persona";
  d ← single_tag_value e "d" "persona";
  check (persona_d_ok (as_bytes d)) "persona d tag must match ^[a-z0-9][a-z0-9_-]{0,63}$".

Definition validate_team_catalog (e : Event) : result AgentError unit :=
  _ ← validate_shared e "team catalog";
  d ← single_tag_value e "d" "team catalog";
  check (negb (String.eqb d "") && (len (chars d) <=? 64)
         && negb (existsb (fun c => is_control c || is_whitespace c) (chars d)))
    "team catalog d tag must be 1-64 non-whitespace characters".

Definition validate_reminder (e : Event) (now : Z) : result AgentError unit :=
  d ← single_tag_value e "d" "event reminder";
  _ ← check (negb (String.eqb d "")) "event reminder d tag must not be empty";
  _ ← validate_nip44_v2_content (ev_content e) "event reminder";
  match tags_named "not_before" e with
  | [] => Ok tt
  | [t] =>
      not_before ← canonical_decimal (value_or_empty t) 9007199254740991 "not_before";
      if saturating_add U64_MAX now MAX_REMINDER_HORIZON_SECONDS <? not_before
      then Err (Reason "not_before too far in future") else
      match tags_named "expiration" e with
      | [] => Ok tt
      | [t] =>
          expiration ← canonical_decimal (value_or_empty t) U64_MAX "expiration";
          if expiration <=? not_before then Err (Reason "expiration before not_before") else Ok tt
      | _ => Err (Reason "event reminder has duplicate expiration tags")
      end
  | _ => Err (Reason "malformed not_before")
  end.

(** [splitn(3, ':')] with its three parts. *)
Definition member_parts (coordinate : string) : option (string * string * string) :=
  '(kind, rest) ← split_once 58 coordinate;
  '(owner, repo_d) ← split_once 58 rest;
  Some (kind, owner, repo_d).

(** The loop over the members, with the set of coordinates seen. *)
Definition project_member (seen : gset string) (tag : Tag) : result AgentError (gset string) :=
  if negb ((2 <=? len tag) && (len tag <=? 3))
  then Err (Reason "[member-tag-arity] project a tags require two or three elements") else
  let coordinate := value_or_empty tag in
  match member_parts coordinate with
  | None => Err (Reason "[member-coordinate-malformed] malformed project member")
  | Some (kind, owner, repo_d) =>
      if negb (String.eqb kind "30617") || String.eqb repo_d "" || negb (is_ok (lower_hex owner "project owner"))
      then Err (Reason "[member-coordinate-malformed] malformed project member") else
      if bool_decide (coordinate ∈ seen) then Err (Reason "[member-duplicate] duplicate project member")
      else Ok ({[coordinate]} ∪ seen)
  end.

Definition project_metadata (e : Event) (nm : string * Z) : result AgentError unit :=
  let '(name, maximum) := nm in
  match tags_named name e with
  | [] => Ok tt
  | [t] => if match tag_value t with Some value => maximum <? str_len value | None => false end
           then Err (Reason ("[metadata-length] project " +:+ name +:+ " tag is too long")) else Ok tt
  | _ => Err (Reason ("[metadata-cardinality] duplicate project " +:+ name +:+ " tag"))
  end.

Definition validate_project (e : Event) : result AgentError unit :=
  d ← single_tag_value e "d" "project";
  _ ← check (negb (String.eqb d "")) "[d-empty] project d tag must not be empty";
  let members := tags_named "a" e in
  _ ← check (len members <=? 64) "[member-cap] project must have at most 64 member a tags";
  _ ← try_fold project_member ∅ members;
  try_fold (fun _ nm => project_metadata e nm) tt
    [("name", 256); ("description", 2048); ("buzz-channel", 256); ("buzz-visibility", 256)]%string.

(** The loop over the public tags of a push lease, with the names seen. *)
Definition lease_tag (names : gset string) (tag : Tag) : result AgentError (gset string) :=
  name ← ok_or (Reason "push lease contains an empty tag") (tag_name tag);
  if negb (mem name ["d"; "expiration"; "exec"; "alt"]%string)
  then Err (Reason ("push lease contains unexpected public tag " +:+ name)) else
  if negb (len tag =? 2) || bool_decide (name ∈ names)
  then Err (Reason ("push lease " +:+ name +:+ " tag must occur once with one value"))
  else Ok ({[name]} ∪ names).

Definition validate_push_lease_envelope (e : Event) (now : Z) : result AgentError unit :=
  _ ← check (str_len (ev_content e) <=? 65536) "push lease content exceeds 65536 bytes";
  _ ← try_fold lease_tag ∅ (ev_tags e);
  d ← single_tag_value e "d" "push lease";
  _ ← check (negb (String.eqb d "") && (str_len d <=? 64)) "push lease d tag must contain 1-64 bytes";
  text ← single_tag_value e "expiration" "push lease";
  expiration ← canonical_decimal text U64_MAX "push lease expiration";
  _ ← check (saturating_sub now 900 <? expiration) "push lease already expired";
  _ ← check (expiration <=? saturating_add U64_MAX now 2592000) "push lease ttl too long";
  exec ← single_tag_value e "exec" "push lease";
  _ ← check (negb (String.eqb exec "")) "push lease exec tag must not be empty";
  validate_nip44_v2_content (ev_content e) "push lease".

Definition validate_block_ingest (e : Event) (now : Z) : result AgentError unit :=
  let k := ev_kind e in
  if k =? AGENT_ENGRAM_KIND then validate_engram e
  else if k =? AGENT_PERSONA_KIND then validate_persona e
  else if k =? TEAM_CATALOG_KIND then validate_team_catalog e
  else if k =? EVENT_REMINDER_KIND then validate_reminder e now
  else if k =? PROJECT_KIND then validate_project e
  else if k =? PUSH_LEASE_KIND then validate_push_lease_envelope e now
  else Ok tt.

(** ** Commands *)

Definition parse_identity_archive_request (e : Event) (now : Z) : result AgentError IdentityArchiveRequest :=
  _ ← check (mem (ev_kind e) [IDENTITY_ARCHIVE_REQUEST_KIND; IDENTITY_UNARCHIVE_REQUEST_KIND])
        "identity archive request has the wrong kind";
  _ ← check (abs_diff (ev_created_at e) now <=? 120)
        "identity archive request is outside the 120-second freshness window";
  _ ← check (len (filter (fun t => t = ["-"%string]) (ev_tags e)) =? 1)
        "identity archive request requires exactly one protected tag";
  target ← single_tag_value e "p" "identity archive request";
  _ ← lower_hex target "identity archive target";
  reason ← optional_single_value e "reason" "identity archive request";
  replaced_by ← optional_single_value e "replaced-by" "identity archive request";
  _ ← check (negb ((ev_kind e =? IDENTITY_UNARCHIVE_REQUEST_KIND) && bool_decide (is_Some replaced_by)))
        "unarchive request must not contain replaced-by";
  _ ← match replaced_by with
      | Some replacement =>
          _ ← lower_hex replacement "replacement pubkey";
          check (negb (String.eqb replacement target)) "replacement pubkey must differ from the archive target"
      | None => Ok tt
      end;
  Ok (mkArchiveRequest (ev_kind e =? IDENTITY_ARCHIVE_REQUEST_KIND) target reason replaced_by).

Definition workspace_icon (e : Event) : result AgentError string :=
  _ ← check ((ev_kind e =? WORKSPACE_PROFILE_KIND) && String.eqb (ev_content e) "")
        "workspace profile command must be kind 9033 with empty content";
  let tags := tags_named "icon" e in
  _ ← check (len tags <=? 1) "workspace profile command has duplicate icon tags";
  let icon := default ""%string (head tags ≫= tag_value) in
  _ ← check (negb (existsb (fun c => is_control c || is_whitespace c) (chars icon)))
        "workspace icon contains whitespace or control characters";
  if String.eqb icon "" then Ok ""%string else
  _ ← (if starts_with "data:image/" icon
       then check (str_len icon <=? 98304) "workspace icon data URL exceeds 98304 bytes"
       else if starts_with "https://" icon || starts_with "http://" icon
       then check (str_len icon <=? 2048) "workspace icon URL exceeds 2048 bytes"
       else Err (Reason "workspace icon must be http(s), data:image/*, or empty"));
  Ok icon.

Definition dm_visibility_channel (e : Event) : result AgentError string :=
  _ ← check (mem (ev_kind e) [DM_HIDE_KIND; DM_OPEN_KIND]) "DM visibility command has the wrong kind";
  channel ← single_tag_value e "h" "DM visibility command";
  _ ← check (negb (String.eqb channel "") && (str_len channel <=? 128) && negb (existsb is_control (chars channel)))
        "DM visibility channel id must contain 1-128 safe characters";
  Ok channel.
