(* ===== verification/Bech32.v ===== *)
(** * Bech32: NIP-19 encoding of bare keys

    [immortal-core/src/nip19.rs].  The curve checks of the secp256k1 package
    are the operations of the class [Curve]. *)

From Stdlib Require Import Btauto.
From S2P Require Import Prelude Text Hex Regroup.

Definition NPUB : string := "npub".
Definition NSEC : string := "nsec".
Definition CHARSET : list Z := as_bytes "qpzry9x8gf2tvdw0s3jn54khce6mua7l".
Definition GENERATOR : list Z := [0x3b6a57b2; 0x26508e6d; 0x1ea119fa; 0x3d4233dd; 0x2a1462b3].
Definition MAX_ENCODED_CHARS : Z := 90.
Definition CHECKSUM_CHARS : Z := 6.

Inductive Nip19Error : Type :=
| InvalidLength
| MixedCase
| MissingSeparator
| InvalidCharacter
| InvalidChecksum
| InvalidPadding
| WrongPrefix (expected actual : string)
| InvalidKey.

Definition to_words (data : list Z) : list Z := regroup_pad 8 5 data.

Definition from_words (words : list Z) : result Nip19Error (list Z) :=
  ok_or InvalidPadding (regroup_strict 5 8 words).

Definition expand_prefix (prefix : string) : list Z :=
  ((fun byte => Z.shiftr byte 5) <$> as_bytes prefix) ++ [0]
  ++ ((fun byte => Z.land byte 31) <$> as_bytes prefix).

(** The inner loop over the generators: xor in those that [top] selects. *)
Fixpoint mix (top : Z) (bit : Z) (generators : list Z) (checksum : Z) : Z :=
  match generators with
  | [] => checksum
  | g :: gs =>
      mix top (bit + 1) gs
        (if Z.land (Z.shiftr top bit) 1 =? 1 then Z.lxor checksum g else checksum)
  end.

Definition polymod_step (checksum value : Z) : Z :=
  let top := Z.shiftr checksum 25 in
  mix top 0 GENERATOR (Z.lxor (shl32 (Z.land checksum 0x1ffffff) 5) value).

Definition polymod (expanded_prefix words : list Z) : Z :=
  fold_left polymod_step (expanded_prefix ++ words) 1.

(** [checksum[index] = (polymod >> (5 * (5 - index))) & 31]. *)
Definition checksum (prefix : string) (words : list Z) : list Z :=
  let padded := words ++ [0; 0; 0; 0; 0; 0] in
  let polymod := Z.lxor (polymod (expand_prefix prefix) padded) 1 in
  (fun index => Z.land (Z.shiftr polymod (5 * (5 - index))) 31) <$> [0; 1; 2; 3; 4; 5].

Definition prefix_byte_ok (byte : Z) : bool := (33 <=? byte) && (byte <=? 126).

Definition charset_at (word : Z) : Z := nth (Z.to_nat word) CHARSET 0.

(** [iter().position(|candidate| *candidate == byte)]. *)
Fixpoint position (byte : Z) (l : list Z) : option Z :=
  match l with
  | [] => None
  | c :: l' => if c =? byte then Some 0 else p ← position byte l'; Some (p + 1)
  end.

Definition encode (prefix : string) (data : list Z) : result Nip19Error string :=
  if bool_decide (as_bytes prefix = []) || negb (forallb prefix_byte_ok (as_bytes prefix)) then
    Err MissingSeparator
  else
  let prefix := to_ascii_lowercase prefix in
  let words := to_words data in
  let words := words ++ checksum prefix words in
  let encoded := prefix +:+ "1" +:+ of_bytes (charset_at <$> words) in
  if MAX_ENCODED_CHARS <? str_len encoded then Err InvalidLength else Ok encoded.

Definition decode (text : string) : result Nip19Error (string * list Z) :=
  if (MAX_ENCODED_CHARS <? str_len text) || negb (is_ascii text) then Err InvalidLength else
  let has_lower := existsb is_ascii_lowercase (as_bytes text) in
  let has_upper := existsb is_ascii_uppercase (as_bytes text) in
  if has_lower && has_upper then Err MixedCase else
  let lowered := as_bytes (to_ascii_lowercase text) in
  separator ← ok_or MissingSeparator (rfind_bytes 49 lowered);
  if (separator =? 0)%nat then Err MissingSeparator else
  let prefix := take separator lowered in
  let data := drop (S separator) lowered in
  if (Z.of_nat (length data) <? CHECKSUM_CHARS) || negb (forallb prefix_byte_ok prefix)
  then Err InvalidLength else
  words ← try_map (fun byte => ok_or InvalidCharacter (position byte CHARSET)) data;
  if negb (polymod (expand_prefix (of_bytes prefix)) words =? 1) then Err InvalidChecksum else
  let payload := take (length words - 6)%nat words in
  bytes ← from_words payload;
  Ok (of_bytes prefix, bytes).

Definition decode_key (text expected : string) : result Nip19Error (list Z) :=
  '(prefix, bytes) ← decode text;
  if negb (String.eqb prefix expected) then Err (WrongPrefix expected prefix)
  else if (length bytes =? 32)%nat then Ok bytes else Err InvalidLength.

(** [XOnlyPublicKey::from_byte_array(..).is_ok()] and
    [SecretKey::from_byte_array(..).is_ok()]. *)
Class Curve : Type := {
  xonly_public_key_ok : list Z -> bool;
  secret_key_ok : list Z -> bool;
}.

Section keys.
Context `{Curve}.

(** [expect] of an error is a panic: [None]. *)
Definition encode_npub (pubkey : list Z) : option string :=
  match encode NPUB pubkey with Ok text => Some text | Err _ => None end.

Definition decode_npub (text : string) : result Nip19Error (list Z) :=
  bytes ← decode_key text NPUB;
  if xonly_public_key_ok bytes then Ok bytes else Err InvalidKey.

Definition encode_nsec (secret : list Z) : option string :=
  match encode NSEC secret with Ok text => Some text | Err _ => None end.

Definition decode_nsec (text : string) : result Nip19Error (list Z) :=
  bytes ← decode_key text NSEC;
  if secret_key_ok bytes then Ok bytes else Err InvalidKey.

End keys.

(** ** The checksum is linear *)

Ltac xor_ring := apply Z.bits_inj'; intros ? ?; rewrite ?Z.lxor_spec, ?Z.bits_0; btauto.

(** What [mix] adds does not depend on what it is added to. *)
Fixpoint mixed (top bit : Z) (generators : list Z) : Z :=
  match generators with
  | [] => 0
  | g :: gs => Z.lxor (if Z.testbit top bit then g else 0) (mixed top (bit + 1) gs)
  end.

Lemma land_one_testbit a : (Z.land a 1 =? 1) = Z.testbit a 0.
Proof.
  assert (Z.land a 1 = a mod 2) as -> by (apply (land_mask a 1); lia).
  rewrite Z.bit0_odd, Zmod_odd. by destruct (Z.odd a).
Qed.

Lemma mix_mixed top bit gs c : 0 <= bit -> mix top bit gs c = Z.lxor c (mixed top bit gs).
Proof.
  revert bit c. induction gs as [|g gs IH]; intros bit c Hb; cbn [mix mixed].
  { by rewrite Z.lxor_0_r. }
  rewrite IH, land_one_testbit, Z.shiftr_spec, Z.add_0_l by lia.
  destruct (Z.testbit top bit); xor_ring.
Qed.

Lemma mixed_lxor a b bit gs : mixed (Z.lxor a b) bit gs = Z.lxor (mixed a bit gs) (mixed b bit gs).
Proof.
  revert bit. induction gs as [|g gs IH]; intros bit; cbn [mixed]; [done|].
  rewrite IH, Z.lxor_spec. destruct (Z.testbit a bit), (Z.testbit b bit); cbn [xorb]; xor_ring.
Qed.

Lemma mixed_zero bit gs : 0 <= bit -> mixed 0 bit gs = 0.
Proof.
  revert bit. induction gs as [|g gs IH]; intros bit Hb; cbn [mixed]; [done|].
  rewrite Z.bits_0, IH by lia. done.
Qed.

Lemma polymod_step_eq c v :
  0 <= c -> polymod_step c v
  = Z.lxor (Z.lxor (Z.shiftl (Z.land c 0x1ffffff) 5) v) (mixed (Z.shiftr c 25) 0 GENERATOR).
Proof.
  intros Hc. unfold polymod_step. rewrite mix_mixed by lia. do 2 f_equal.
  unfold shl32, wrap32. apply Z.mod_small. rewrite Z.shiftl_mul_pow2 by lia.
  assert (Z.land c 0x1ffffff = c mod 2 ^ 25) as -> by (apply (land_mask c 25); lia).
  pose proof (Z.mod_pos_bound c (2 ^ 25)). lia.
Qed.

Lemma polymod_step_lxor c c' v v' :
  0 <= c -> 0 <= c' ->
  polymod_step (Z.lxor c c') (Z.lxor v v') = Z.lxor (polymod_step c v) (polymod_step c' v').
Proof.
  intros Hc Hc'. rewrite !polymod_step_eq by (try apply Z.lxor_nonneg; lia).
  rewrite Z.shiftr_lxor, mixed_lxor.
  assert (Z.land (Z.lxor c c') 0x1ffffff = Z.lxor (Z.land c 0x1ffffff) (Z.land c' 0x1ffffff)) as ->.
  { apply Z.bits_inj'. intros n Hn. rewrite !Z.land_spec, !Z.lxor_spec, !Z.land_spec. btauto. }
  rewrite Z.shiftl_lxor. xor_ring.
Qed.

Lemma lxor_bound n a b : 0 <= n -> 0 <= a < 2 ^ n -> 0 <= b < 2 ^ n -> 0 <= Z.lxor a b < 2 ^ n.
Proof.
  intros Hn [Ha Ha'] [Hb Hb']. assert (0 <= Z.lxor a b) as H0 by (apply Z.lxor_nonneg; lia).
  split; [done|]. apply Z.bounded_iff_bits_nonneg; [done..|]. intros l Hl.
  rewrite Z.lxor_spec.
  by rewrite (proj1 (Z.bounded_iff_bits_nonneg n a Hn Ha) Ha' l Hl),
    (proj1 (Z.bounded_iff_bits_nonneg n b Hn Hb) Hb' l Hl).
Qed.

Lemma mixed_bound top bit gs :
  Forall (fun g => 0 <= g < 2 ^ 30) gs -> 0 <= mixed top bit gs < 2 ^ 30.
Proof.
  intros Hgs. revert bit. induction Hgs as [|g gs Hg _ IH]; intros bit; cbn [mixed]; [lia|].
  apply lxor_bound; [lia| |apply IH]. destruct (Z.testbit top bit); lia.
Qed.

Lemma polymod_step_bound c v : 0 <= c < 2 ^ 30 -> 0 <= v < 2 ^ 5 -> 0 <= polymod_step c v < 2 ^ 30.
Proof.
  intros Hc Hv. rewrite polymod_step_eq by lia.
  assert (Z.land c 0x1ffffff = c mod 2 ^ 25) as -> by (apply (land_mask c 25); lia).
  apply lxor_bound; [lia| |apply mixed_bound; repeat constructor; lia].
  apply lxor_bound; [lia| |lia]. rewrite Z.shiftl_mul_pow2 by lia.
  pose proof (Z.mod_pos_bound c (2 ^ 25)). lia.
Qed.

Lemma polymod_bound c l : 0 <= c < 2 ^ 30 -> digits 5 l -> 0 <= fold_left polymod_step l c < 2 ^ 30.
Proof.
  intros Hc Hl. revert c Hc. induction Hl as [|v l Hv _ IH]; intros c Hc; cbn [fold_left]; [done|].
  by apply IH, polymod_step_bound.
Qed.

(** A state below [2^25] only shifts: no generator is selected. *)
Lemma polymod_step_small a v : 0 <= a < 2 ^ 25 -> 0 <= v < 2 ^ 5 -> polymod_step a v = a * 2 ^ 5 + v.
Proof.
  intros Ha Hv. rewrite polymod_step_eq by lia.
  assert (Z.land a 0x1ffffff = a mod 2 ^ 25) as -> by (apply (land_mask a 25); lia).
  rewrite Z.mod_small, Z.shiftr_div_pow2, Z.div_small, mixed_zero, Z.lxor_0_r by lia.
  rewrite Z.lxor_lor by (apply land_shiftl_low; lia). by apply lor_shiftl.
Qed.

(** The last six words enter the checksum as the number they spell. *)
Lemma polymod_tail c a l :
  0 <= c < 2 ^ 30 -> digits 5 l -> 0 <= a -> (length l <= 6)%nat ->
  a < 2 ^ (30 - 5 * Z.of_nat (length l)) ->
  fold_left polymod_step l (Z.lxor c a)
  = Z.lxor (fold_left polymod_step (replicate (length l) 0) c)
      (fold_left (fun v x => v * 2 ^ 5 + x) l a).
Proof.
  intros Hc Hl. revert c a Hc. induction Hl as [|v l Hv _ IH]; intros c a Hc Ha Hlen Hb; [done|].
  cbn [length replicate fold_left] in *.
  assert (2 ^ (30 - 5 * Z.of_nat (length l)) = 2 ^ (30 - 5 * Z.of_nat (S (length l))) * 2 ^ 5) as E
    by (rewrite <- Z.pow_add_r; [f_equal|..]; lia).
  assert (a < 2 ^ 25).
  { eapply Z.lt_le_trans; [exact Hb|]. apply Z.pow_le_mono_r; lia. }
  rewrite <- (Z.lxor_0_l v) at 1. rewrite polymod_step_lxor by lia.
  rewrite (polymod_step_small a v) by lia. apply IH; [|lia..].
  apply polymod_step_bound; lia.
Qed.

Lemma polymod_six expanded words tail :
  digits 5 expanded -> digits 5 words -> digits 5 tail -> length tail = 6%nat ->
  polymod expanded (words ++ tail)
  = Z.lxor (polymod expanded (words ++ [0; 0; 0; 0; 0; 0])) (value 5 tail).
Proof.
  intros He Hw Ht Hlen. unfold polymod, value. rewrite !app_assoc, !(fold_left_app _ (_ ++ _)).
  set (c := fold_left polymod_step (expanded ++ words) 1).
  rewrite <- (Z.lxor_0_r c) at 1. rewrite polymod_tail; [by rewrite Hlen| |done|lia..| ].
  - apply polymod_bound; [lia|]. by apply Forall_app.
  - rewrite Hlen. cbn. lia.
Qed.

Lemma six_digits P :
  0 <= P < 2 ^ 30 ->
  let ds := (fun index => Z.land (Z.shiftr P (5 * (5 - index))) 31) <$> [0; 1; 2; 3; 4; 5] in
  digits 5 ds /\ length ds = 6%nat /\ value 5 ds = P.
Proof.
  intros HP. cbn [fmap list_fmap]. repeat change (?a - 0) with a.
  assert (forall k, Z.land (Z.shiftr P k) 31 = Z.shiftr P k mod 32) as Hm
    by (intros k; apply (land_mask _ 5); lia).
  rewrite !Hm. rewrite !Z.shiftr_div_pow2 by lia.
  split; [|split; [done|]].
  - repeat constructor; apply Z.mod_pos_bound; lia.
  - cbn [value fold_left]. cbn. Z.to_euclidean_division_equations. lia.
Qed.

Lemma expand_prefix_digits p : digits 5 (expand_prefix p).
Proof.
  unfold expand_prefix, digits. pose proof (as_bytes_range p) as Hp.
  rewrite !Forall_app, !Forall_fmap. split; [|split; [apply Forall_singleton; lia|]].
  all: eapply Forall_impl; [exact Hp|]; intros b Hb; unfold is_byte in Hb; cbn.
  - rewrite Z.shiftr_div_pow2 by lia. Z.to_euclidean_division_equations. lia.
  - assert (Z.land b 31 = b mod 32) as -> by (apply (land_mask b 5); lia).
    apply Z.mod_pos_bound. lia.
Qed.

Lemma checksum_digits p words : digits 5 words ->
  digits 5 (checksum p words) /\ length (checksum p words) = 6%nat
  /\ value 5 (checksum p words)
     = Z.lxor (polymod (expand_prefix p) (words ++ [0; 0; 0; 0; 0; 0])) 1.
Proof.
  intros Hw. apply six_digits. apply lxor_bound; [lia| |lia]. apply polymod_bound; [lia|].
  apply Forall_app. split; [apply expand_prefix_digits|].
  apply Forall_app. split; [done|]. repeat constructor; lia.
Qed.

(** Exactly one six-word tail makes the checksum verify. *)
Lemma checksum_unique p words tail :
  digits 5 words -> digits 5 tail -> length tail = 6%nat ->
  polymod (expand_prefix p) (words ++ tail) = 1 <-> tail = checksum p words.
Proof.
  intros Hw Ht Hlen. rewrite polymod_six by eauto using expand_prefix_digits.
  destruct (checksum_digits p words Hw) as (Hd & Hl & Hv). split.
  - intros Heq. apply (value_inj 5); [lia|done..|lia|]. rewrite Hv, <- Heq. xor_ring.
  - intros ->. rewrite Hv. xor_ring.
Qed.

(** ** The alphabet *)

Definition charset_ok (w : Z) : bool :=
  (32 <=? w) || (bool_decide (position (charset_at w) CHARSET = Some w)
    && negb (charset_at w =? 49) && negb (is_ascii_uppercase (charset_at w))
    && (0 <=? charset_at w) && (charset_at w <? 128)).

Lemma charset_spec w :
  0 <= w < 2 ^ 5 ->
  position (charset_at w) CHARSET = Some w /\ charset_at w <> 49
  /\ is_ascii_uppercase (charset_at w) = false /\ 0 <= charset_at w < 128.
Proof.
  intros Hw. assert (charset_ok w = true) as Hok.
  { revert w Hw. assert (forall w, is_byte w -> charset_ok w = true) as Hall
      by (apply byte_forall; vm_compute; done).
    intros w Hw. apply Hall. unfold is_byte. lia. }
  unfold charset_ok in Hok. destruct (Z.leb_spec 32 w); [lia|]. cbn [orb] in Hok.
  bool_to_prop. done.
Qed.

Lemma position_Some c l w :
  position c l = Some w -> 0 <= w < Z.of_nat (length l) /\ nth (Z.to_nat w) l 0 = c.
Proof.
  revert w. induction l as [|x l IH]; intros w; cbn; [done|].
  destruct (Z.eqb_spec x c) as [->|]; [intros [= <-]; split; [lia|done]|].
  destruct (position c l) as [p|]; cbn; [|done]. intros [= <-].
  destruct (IH p eq_refl) as [Hp Hn]. split; [lia|].
  by replace (Z.to_nat (p + 1)) with (S (Z.to_nat p)) by lia.
Qed.

Lemma words_of_chars words :
  digits 5 words ->
  try_map (fun byte => ok_or InvalidCharacter (position byte CHARSET)) (charset_at <$> words) = Ok words.
Proof.
  intros Hw. apply try_map_Ok_Forall2.
  induction Hw as [|w words Hw _ IH]; [constructor|]. rewrite fmap_cons. constructor; [|done].
  by destruct (charset_spec w Hw) as [-> _].
Qed.

Lemma chars_of_words chars words :
  try_map (fun byte => ok_or InvalidCharacter (position byte CHARSET)) chars = Ok words ->
  chars = charset_at <$> words /\ digits 5 words.
Proof.
  rewrite try_map_Ok_Forall2. induction 1 as [|c w chars words Hc _ [-> IHd]]; [by split; [|constructor]|].
  apply ok_or_Ok, position_Some in Hc as [Hr Hn]. change (charset_at w = c) in Hn.
  rewrite fmap_cons, Hn. split; [done|]. constructor; [exact Hr|done].
Qed.

(** ** Case *)

Definition no_upper (l : list Z) : Prop := Forall (fun b => is_ascii_uppercase b = false) l.

Lemma lower_byte_no_upper b : is_ascii_uppercase (to_ascii_lowercase_byte b) = false.
Proof.
  unfold to_ascii_lowercase_byte. destruct (is_ascii_uppercase b) eqn:Hb; [|done].
  unfold is_ascii_uppercase in *. lia.
Qed.

Lemma lower_no_upper l : no_upper (to_ascii_lowercase_byte <$> l).
Proof.
  unfold no_upper. rewrite Forall_fmap. apply Forall_forall. intros b _. apply lower_byte_no_upper.
Qed.

Lemma lower_id l : no_upper l -> to_ascii_lowercase_byte <$> l = l.
Proof.
  induction 1 as [|b l Hb _ IH]; cbn; [done|]. rewrite IH. f_equal.
  unfold to_ascii_lowercase_byte. by rewrite Hb.
Qed.

Lemma no_upper_existsb l : no_upper l -> existsb is_ascii_uppercase l = false.
Proof. induction 1 as [|b l Hb _ IH]; cbn; [done|]. by rewrite Hb. Qed.

Lemma lower_prefix_ok l :
  forallb prefix_byte_ok l = true -> forallb prefix_byte_ok (to_ascii_lowercase_byte <$> l) = true.
Proof.
  induction l as [|b l IH]; cbn; [done|]. intros [Hb Hl]%andb_true_iff. rewrite IH by done.
  unfold to_ascii_lowercase_byte, prefix_byte_ok, is_ascii_uppercase in *.
  destruct ((65 <=? b) && (b <=? 90)) eqn:?; lia.
Qed.

Lemma prefix_ok_ascii l : forallb prefix_byte_ok l = true -> Forall (fun b => 0 <= b < 128) l.
Proof.
  rewrite forallb_forall. intros Hl. apply Forall_forall. intros b Hb%list_elem_of_In%Hl.
  unfold prefix_byte_ok in Hb. lia.
Qed.

(** ** The codec *)

Lemma to_words_digits data : Forall is_byte data -> digits 5 (to_words data).
Proof. intros Hd. by destruct (regroup_pad_spec 8 5 ltac:(lia) ltac:(lia) data Hd) as (? & _ & _ & ? & _). Qed.

Lemma from_to_words data : Forall is_byte data -> from_words (to_words data) = Ok data.
Proof. intros Hd. unfold from_words, to_words. by rewrite regroup_strict_pad by (lia || done). Qed.

Lemma to_from_words words data :
  digits 5 words -> from_words words = Ok data -> to_words data = words /\ Forall is_byte data.
Proof.
  intros Hw He. unfold from_words in He. apply ok_or_Ok in He. split.
  - apply (regroup_pad_strict 8 5); [lia..|done|done].
  - by destruct (regroup_strict_spec 5 8 ltac:(lia) ltac:(lia) words data Hw He) as (? & _ & _ & _ & ? & _).
Qed.

(** The text of a prefix and a word list, as bytes. *)
Definition text_bytes (p words : list Z) : list Z := p ++ 49 :: (charset_at <$> words).

Lemma charset_bytes_ok words :
  digits 5 words ->
  no_upper (charset_at <$> words) /\ 49 ∉ charset_at <$> words
  /\ Forall (fun b => 0 <= b < 128) (charset_at <$> words).
Proof.
  intros Hw. split; [|split].
  - unfold no_upper. rewrite Forall_fmap. eapply Forall_impl; [exact Hw|].
    intros w Hr. cbn. by destruct (charset_spec w Hr) as (_ & _ & ? & _).
  - intros Hin. apply list_elem_of_fmap in Hin as (w & Heq & Hw').
    unfold digits in Hw. rewrite Forall_forall in Hw. by destruct (charset_spec w (Hw _ Hw')) as (_ & ? & _).
  - rewrite Forall_fmap. eapply Forall_impl; [exact Hw|].
    intros w Hr. cbn. by destruct (charset_spec w Hr) as (_ & _ & _ & ?).
Qed.

Lemma text_bytes_ok p words :
  digits 5 words -> no_upper p -> Forall (fun b => 0 <= b < 128) p ->
  no_upper (text_bytes p words) /\ Forall (fun b => 0 <= b < 128) (text_bytes p words)
  /\ rfind_bytes 49 (text_bytes p words) = Some (length p).
Proof.
  intros Hw Hu Hp. destruct (charset_bytes_ok words Hw) as (Hu' & H49 & Ha). unfold text_bytes.
  split; [by apply Forall_app; split; [|constructor]|].
  split; [by apply Forall_app; split; [|constructor; [lia|]]|].
  apply rfind_bytes_Some. eauto.
Qed.

Lemma ascii_bytes l : Forall (fun b => 0 <= b < 128) l -> Forall is_byte l.
Proof. intros Hl. eapply Forall_impl; [exact Hl|]. unfold is_byte. intros; lia. Qed.

(** What [encode] returns, when it returns. *)
Lemma encode_Ok prefix data text :
  Forall is_byte data ->
  (encode prefix data = Ok text <->
   let p := to_ascii_lowercase_byte <$> as_bytes prefix in
   let words := to_words data in
   as_bytes prefix <> [] /\ forallb prefix_byte_ok (as_bytes prefix) = true
   /\ as_bytes text = text_bytes p (words ++ checksum (to_ascii_lowercase prefix) words)
   /\ str_len text <= MAX_ENCODED_CHARS).
Proof.
  intros Hd. cbn zeta. unfold encode.
  set (words := to_words data ++ checksum (to_ascii_lowercase prefix) (to_words data)).
  set (t := to_ascii_lowercase prefix +:+ "1" +:+ of_bytes (charset_at <$> words)).
  assert (as_bytes t = text_bytes (to_ascii_lowercase_byte <$> as_bytes prefix) words) as Ht.
  { unfold t, text_bytes. rewrite !as_bytes_app, as_bytes_lowercase, as_bytes_of_bytes; [done|].
    apply ascii_bytes, charset_bytes_ok. pose proof (to_words_digits data Hd).
    apply Forall_app. split; [done|]. by apply checksum_digits. }
  case_bool_decide as Hnil; cbn [orb]; [naive_solver|].
  destruct (forallb prefix_byte_ok (as_bytes prefix)); cbn [negb]; [|naive_solver].
  destruct (Z.ltb_spec MAX_ENCODED_CHARS (str_len t)).
  - split; [done|]. intros (_ & _ & Heq & Hlen). rewrite <- Ht in Heq. apply as_bytes_inj in Heq as ->. lia.
  - split; [intros [= <-]; done|]. intros (_ & _ & Heq & _). f_equal. apply as_bytes_inj. congruence.
Qed.

Definition mixed_case (text : string) : bool :=
  existsb is_ascii_lowercase (as_bytes text) && existsb is_ascii_uppercase (as_bytes text).

(** What [decode] accepts: one case, ASCII, at most 90 characters, and
    lower-cased the text of a prefix, a payload and that payload's checksum. *)
Definition decodes (text prefix : string) (data : list Z) : Prop :=
  str_len text <= MAX_ENCODED_CHARS /\ is_ascii text = true /\ mixed_case text = false
  /\ as_bytes prefix <> [] /\ forallb prefix_byte_ok (as_bytes prefix) = true
  /\ no_upper (as_bytes prefix)
  /\ exists payload, digits 5 payload /\ from_words payload = Ok data
       /\ as_bytes (to_ascii_lowercase text)
          = text_bytes (as_bytes prefix) (payload ++ checksum prefix payload).

Lemma decodes_decode text prefix data :
  decodes text prefix data -> decode text = Ok (prefix, data).
Proof.
  intros (Hlen & Hasc & Hmix & Hne & Hpok & Hup & payload & Hd & Hfrom & Htext).
  unfold decode. rewrite Hasc. unfold mixed_case in Hmix. rewrite Hmix.
  destruct (Z.ltb_spec MAX_ENCODED_CHARS (str_len text)); [lia|]. cbn [orb negb].
  rewrite Htext. destruct (checksum_digits prefix payload Hd) as (Hcd & Hcl & _).
  assert (digits 5 (payload ++ checksum prefix payload)) as Hw by by apply Forall_app.
  destruct (text_bytes_ok (as_bytes prefix) _ Hw Hup (prefix_ok_ascii _ Hpok)) as (_ & _ & Hr).
  rewrite Hr. cbn [ok_or mbind result_bind].
  destruct (Nat.eqb_spec (length (as_bytes prefix)) 0) as [Hz|_].
  { by destruct (as_bytes prefix). }
  unfold text_bytes. rewrite take_app_length.
  change (49 :: ?l) with ([49] ++ l). rewrite app_assoc, drop_app_length' by (rewrite length_app; cbn; lia).
  rewrite Hpok, length_fmap, length_app, Hcl.
  destruct (Z.ltb_spec (Z.of_nat (length payload + 6)) CHECKSUM_CHARS); [unfold CHECKSUM_CHARS in *; lia|].
  cbn [orb negb]. rewrite words_of_chars by done. cbn [mbind result_bind].
  rewrite of_bytes_as_bytes, (proj2 (checksum_unique prefix payload _ Hd Hcd Hcl)) by done.
  cbn [Z.eqb Pos.eqb negb]. rewrite length_app, Hcl, Nat.add_sub, take_app_length, Hfrom. done.
Qed.

Lemma decode_decodes text prefix data :
  decode text = Ok (prefix, data) -> decodes text prefix data.
Proof.
  unfold decode. fold (mixed_case text). intros H.
  destruct (mixed_case text) eqn:Hmix; run_inv; bool_to_prop.
  match goal with Hr : rfind_bytes _ _ = Some _ |- _ =>
    apply rfind_bytes_Some in Hr as (p & chars & Hl & <- & Hnot) end.
  rewrite Hl in *. rewrite take_app_length in *.
  change (49 :: chars) with ([49] ++ chars) in *.
  rewrite app_assoc, drop_app_length' in * by (rewrite length_app; cbn; lia).
  match goal with Hm : try_map _ _ = Ok _ |- _ => apply chars_of_words in Hm as [-> Hwd] end.
  match goal with Hd : digits 5 ?w |- _ => rename w into words end.
  subst prefix data.
  assert (no_upper p) as Hup.
  { assert (no_upper (as_bytes (to_ascii_lowercase text))) as Hn
      by (rewrite as_bytes_lowercase; apply lower_no_upper).
    rewrite Hl in Hn. apply Forall_app in Hn as [Hn _]. by apply Forall_app in Hn as [? _]. }
  assert (forallb prefix_byte_ok p = true) as Hpok by done.
  assert (as_bytes (of_bytes p) = p) as Hp by (by apply as_bytes_of_bytes, ascii_bytes, prefix_ok_ascii).
  rewrite length_fmap in *. unfold CHECKSUM_CHARS in *.
  set (payload := take (length words - 6) words) in *.
  assert (words = payload ++ drop (length words - 6) words) as Hsplit by (unfold payload; by rewrite take_drop).
  set (tail := drop (length words - 6) words) in *.
  assert (length tail = 6%nat) as Htl by (unfold tail; rewrite length_drop; lia).
  rewrite Hsplit in Hwd. apply Forall_app in Hwd as [Hpd Htd].
  assert (tail = checksum (of_bytes p) payload) as Htail.
  { apply checksum_unique; [done..|]. rewrite <- Hsplit. done. }
  unfold decodes. rewrite Hp. repeat split; try done.
  - intros ->. done.
  - exists payload. split; [done|]. split; [done|]. rewrite Hl, Hsplit, Htail, <- app_assoc. done.
Qed.

Lemma decode_encode prefix data text :
  Forall is_byte data -> encode prefix data = Ok text ->
  decode text = Ok (to_ascii_lowercase prefix, data).
Proof.
  intros Hd He. apply encode_Ok in He as (Hne & Hok & Ht & Hlen); [|done].
  set (p := to_ascii_lowercase_byte <$> as_bytes prefix) in *.
  pose proof (to_words_digits data Hd) as Hw.
  destruct (checksum_digits (to_ascii_lowercase prefix) _ Hw) as (Hcd & Hcl & _).
  destruct (text_bytes_ok p (to_words data ++ checksum (to_ascii_lowercase prefix) (to_words data)))
    as (Hup & Hasc & _).
  { by apply Forall_app. } { apply lower_no_upper. } { by apply prefix_ok_ascii, lower_prefix_ok. }
  rewrite <- Ht in Hup, Hasc.
  apply decodes_decode. unfold decodes. rewrite !as_bytes_lowercase. fold p.
  split; [done|]. split; [apply is_ascii_spec; eapply Forall_impl; [exact Hasc|]; intros; cbn in *; lia|].
  split; [unfold mixed_case; by rewrite (no_upper_existsb _ Hup), andb_false_r|].
  split; [unfold p; by destruct (as_bytes prefix)|].
  split; [by apply lower_prefix_ok|]. split; [apply lower_no_upper|].
  exists (to_words data). split; [done|]. split; [by apply from_to_words|].
  by rewrite (lower_id _ Hup).
Qed.

Lemma encode_decode text prefix data :
  decode text = Ok (prefix, data) ->
  Forall is_byte data /\ encode prefix data = Ok (to_ascii_lowercase text).
Proof.
  intros He. apply decode_decodes in He.
  destruct He as (Hlen & Hasc & _ & Hne & Hok & Hup & payload & Hd & Hfrom & Ht).
  destruct (to_from_words payload data Hd Hfrom) as [Hto Hb]. split; [done|].
  apply encode_Ok; [done|]. rewrite Hto, (lower_id _ Hup).
  assert (to_ascii_lowercase prefix = prefix) as ->
    by (apply as_bytes_inj; by rewrite as_bytes_lowercase, lower_id).
  split; [done|]. split; [done|]. split; [done|].
  revert Hlen. unfold str_len. by rewrite as_bytes_lowercase, length_fmap.
Qed.

(** C10: the bech32 codec is a bijection between (lower-case prefix, payload)
    pairs and texts up to case: what [encode] writes decodes to the prefix in
    lower case and the same bytes; and whatever [decode] accepts is, lower
    cased, exactly what [encode] writes for its result.  A wrong checksum,
    non-zero padding or a second spelling is never accepted. *)
Theorem bech32_bijection :
  (forall prefix data text, Forall is_byte data -> encode prefix data = Ok text ->
     decode text = Ok (to_ascii_lowercase prefix, data))
  /\ (forall text prefix data, decode text = Ok (prefix, data) ->
     Forall is_byte data /\ encode prefix data = Ok (to_ascii_lowercase text)).
Proof. split; [exact decode_encode|exact encode_decode]. Qed.

Lemma bech32_bijection_witness :
  exists text, encode "Test" [0; 255; 16] = Ok text
  /\ decode text = Ok ("test"%string, [0; 255; 16]).
Proof.
  eexists. split; [vm_compute; reflexivity|].
  apply (proj1 bech32_bijection "Test"%string); [repeat split; by repeat constructor|].
  vm_compute. reflexivity.
Defined.

(** ** Keys *)

Lemma encode_key prefix data :
  as_bytes prefix <> [] -> forallb prefix_byte_ok (as_bytes prefix) = true -> str_len prefix <= 30 ->
  Forall is_byte data -> length data = 32%nat ->
  exists text, encode prefix data = Ok text.
Proof.
  intros Hne Hok Hpl Hd Hlen.
  set (words := to_words data ++ checksum (to_ascii_lowercase prefix) (to_words data)).
  set (p := to_ascii_lowercase_byte <$> as_bytes prefix).
  pose proof (to_words_digits data Hd) as Hw.
  destruct (checksum_digits (to_ascii_lowercase prefix) _ Hw) as (Hcd & Hcl & _).
  destruct (text_bytes_ok p words) as (_ & Hasc & _).
  { by apply Forall_app. } { apply lower_no_upper. } { by apply prefix_ok_ascii, lower_prefix_ok. }
  exists (of_bytes (text_bytes p words)). apply encode_Ok; [done|]. cbn zeta.
  assert (as_bytes (of_bytes (text_bytes p words)) = text_bytes p words) as Ht
    by (by apply as_bytes_of_bytes, ascii_bytes).
  split; [done|]. split; [done|]. split; [done|].
  destruct (regroup_pad_spec 8 5 ltac:(lia) ltac:(lia) data Hd) as (q & Hq & Hwl & _).
  fold (to_words data) in Hwl.
  unfold str_len in *. rewrite Ht. unfold text_bytes, words, p, MAX_ENCODED_CHARS.
  rewrite length_app. cbn [length]. rewrite !length_fmap, length_app. lia.
Qed.

(** Every 32-byte string encodes, without a panic, as an [npub] text and
    as an [nsec] text; each decodes back to the same bytes exactly when the
    curve accepts them, and is refused with [WrongPrefix] by the decoder of
    the other kind, so a secret key is never taken for a public one. *)
Theorem key_text_roundtrip `{Curve} key :
  Forall is_byte key -> length key = 32%nat ->
  (exists npub, encode_npub key = Some npub
     /\ decode_npub npub = (if xonly_public_key_ok key then Ok key else Err InvalidKey)
     /\ decode_nsec npub = Err (WrongPrefix NSEC NPUB))
  /\ (exists nsec, encode_nsec key = Some nsec
     /\ decode_nsec nsec = (if secret_key_ok key then Ok key else Err InvalidKey)
     /\ decode_npub nsec = Err (WrongPrefix NPUB NSEC)).
Proof.
  intros Hd Hlen.
  destruct (encode_key NPUB key) as [npub Hp]; [done..|].
  destruct (encode_key NSEC key) as [nsec Hs]; [done..|].
  pose proof (decode_encode _ _ _ Hd Hp) as Hp'. pose proof (decode_encode _ _ _ Hd Hs) as Hs'.
  unfold encode_npub, encode_nsec, decode_npub, decode_nsec, decode_key. rewrite Hp, Hs.
  split; eexists; (split; [reflexivity|]); rewrite ?Hp', ?Hs'; cbn -[Nat.eqb]; by rewrite Hlen.
Qed.

#[local] Instance toy_curve : Curve :=
  {| xonly_public_key_ok k := bool_decide (k <> replicate 32 0);
     secret_key_ok k := bool_decide (k <> replicate 32 0) |}.
