(* ===== verification/Wire.v ===== *)
(** * Wire: Bitcoin's byte-level encodings

    The reader and writers of [immortal-core/src/mkt_swp_verify.rs]: fixed
    little-endian integers, compact sizes and length-prefixed bytes, then the
    transaction codec built from them.  A [Reader] value of the code is a
    byte slice with a position; here it is the bytes not yet read.  The
    position never passes the slice's end and slices are at most 10^6 bytes,
    so the offset overflow checks of the code cannot fire. *)

From S2P Require Import Prelude Text Event.

Inductive VerificationError : Type :=
| Bounds (message : string)
| Encoding (message : string)
| Invalid (message : string)
| Unsupported (message : string)
| Crypto (message : string).

#[export] Instance VerificationError_eq_dec : EqDecision VerificationError.
Proof. solve_decision. Defined.

Definition MAX_TRANSACTION_BYTES : Z := 1000000.
Definition MAX_INPUTS : Z := 4096.
Definition MAX_OUTPUTS : Z := 4096.
Definition MAX_SCRIPT_BYTES : Z := 10000.
Definition MAX_WITNESS_ITEMS : Z := 1024.
Definition MAX_WITNESS_ITEM_BYTES : Z := 80000.

(** ** Little-endian integers *)

(** [to_le_bytes] of an [n]-byte unsigned integer and [from_le_bytes]. *)
Fixpoint le_bytes (n : nat) (v : Z) : list Z :=
  match n with
  | O => []
  | S n' => v mod 256 :: le_bytes n' (v / 256)
  end.
Fixpoint le_value (l : list Z) : Z :=
  match l with
  | [] => 0
  | b :: l' => b + 256 * le_value l'
  end.

(** The two's complement view of an [i32]. *)
Definition i32_to_u32 (v : Z) : Z := v mod 2 ^ 32.
Definition u32_to_i32 (v : Z) : Z := if v <? 2 ^ 31 then v else v - 2 ^ 32.

(** ** The reader *)

Definition Reader (A : Type) : Type := list Z -> result VerificationError (A * list Z).

#[export] Instance reader_ret : MRet Reader := fun A a bytes => Ok (a, bytes).
#[export] Instance reader_bind : MBind Reader :=
  fun A B f r bytes => match r bytes with Ok (a, rest) => f a rest | Err e => Err e end.

Definition reader_error {A} (e : VerificationError) : Reader A := fun _ => Err e.

Definition read_u8 : Reader Z := fun bytes =>
  match bytes with
  | [] => Err (Encoding "truncated transaction")
  | b :: rest => Ok (b, rest)
  end.

Definition read_array (n : nat) : Reader (list Z) := fun bytes =>
  if (n <=? length bytes)%nat then Ok (take n bytes, drop n bytes)
  else Err (Encoding "truncated transaction").

Definition read_u16 : Reader Z := bytes ← read_array 2; mret (le_value bytes).
Definition read_u32 : Reader Z := bytes ← read_array 4; mret (le_value bytes).
Definition read_u64 : Reader Z := bytes ← read_array 8; mret (le_value bytes).
Definition read_i32 : Reader Z := bytes ← read_array 4; mret (u32_to_i32 (le_value bytes)).

Definition read_compact_size (maximum : Z) : Reader Z :=
  marker ← read_u8;
  value ←
    (if marker <=? 0xfc then mret marker
     else if marker =? 0xfd then
       value ← read_u16;
       if value <? 0xfd then reader_error (Encoding "noncanonical compact size") else mret value
     else if marker =? 0xfe then
       value ← read_u32;
       if value <=? U16_MAX then reader_error (Encoding "noncanonical compact size") else mret value
     else
       value ← read_u64;
       if value <=? U32_MAX then reader_error (Encoding "noncanonical compact size") else mret value);
  if maximum <? value then reader_error (Bounds "compact size configured limit") else mret value.

(** [bytes.get(position..position + length)]. *)
Definition read_slice (length : Z) : Reader (list Z) := fun bytes =>
  if length <=? len bytes then Ok (take (Z.to_nat length) bytes, drop (Z.to_nat length) bytes)
  else Err (Encoding "truncated transaction bytes").

Definition read_var_bytes (maximum : Z) : Reader (list Z) :=
  length ← read_compact_size maximum;
  read_slice length.

(** [for _ in 0..count { items.push(read()?) }]. *)
Fixpoint read_n {A} (count : nat) (r : Reader A) : Reader (list A) :=
  match count with
  | O => mret []
  | S count' => x ← r; xs ← read_n count' r; mret (x :: xs)
  end.

(** ** The writers *)

Definition write_compact_size (value : Z) : list Z :=
  if value <? 0xfd then [value]
  else if value <=? U16_MAX then 0xfd :: le_bytes 2 value
  else if value <=? U32_MAX then 0xfe :: le_bytes 4 value
  else 0xff :: le_bytes 8 value.

Definition write_var_bytes (bytes : list Z) : list Z := write_compact_size (len bytes) ++ bytes.

Definition compact_size_length (value : Z) : Z :=
  if value <? 0xfd then 1
  else if value <=? U16_MAX then 3
  else if value <=? U32_MAX then 5
  else 9.

(** ** Codecs *)

(** [read] undoes [write] on the domain, leaving what follows, and accepts
    nothing but what [write] writes: the encoding is canonical. *)
Class Codec {A} (domain : A -> Prop) (write : A -> list Z) (read : Reader A) : Prop := {
  codec_read x rest : domain x -> read (write x ++ rest) = Ok (x, rest);
  codec_canonical bytes x rest :
    Forall is_byte bytes -> read bytes = Ok (x, rest) -> domain x /\ bytes = write x ++ rest;
}.

Lemma le_bytes_length n v : length (le_bytes n v) = n.
Proof. revert v. induction n; intros v; cbn; auto. Qed.

Lemma le_bytes_range n v : Forall is_byte (le_bytes n v).
Proof.
  revert v. induction n; intros v; cbn; constructor; [|done]. apply Z.mod_pos_bound. lia.
Qed.

Lemma le_value_bytes n v : 0 <= v < 256 ^ Z.of_nat n -> le_value (le_bytes n v) = v.
Proof.
  revert v. induction n as [|n IH]; intros v Hv; cbn [le_bytes le_value]; [cbn in Hv; lia|].
  rewrite Nat2Z.inj_succ, Z.pow_succ_r in Hv by lia.
  rewrite IH; [|split; [apply Z.div_pos; lia|apply Z.div_lt_upper_bound; lia]].
  pose proof (Z.div_mod v 256). lia.
Qed.

Lemma le_value_range l : Forall is_byte l -> 0 <= le_value l < 256 ^ Z.of_nat (length l).
Proof.
  induction 1 as [|b l Hb _ IH]; cbn [le_value length]; [cbn; lia|].
  rewrite Nat2Z.inj_succ, Z.pow_succ_r by lia. unfold is_byte in Hb. lia.
Qed.

Lemma le_bytes_value l : Forall is_byte l -> le_bytes (length l) (le_value l) = l.
Proof.
  induction 1 as [|b l Hb _ IH]; cbn [le_value length le_bytes]; [done|]. unfold is_byte in Hb.
  assert ((b + 256 * le_value l) mod 256 = b /\ (b + 256 * le_value l) / 256 = le_value l) as [-> ->]
    by (Z.to_euclidean_division_equations; lia).
  by rewrite IH.
Qed.

Lemma read_array_app n l rest : length l = n -> read_array n (l ++ rest) = Ok (l, rest).
Proof.
  intros <-. unfold read_array. rewrite length_app, (proj2 (Nat.leb_le _ _)) by lia.
  by rewrite take_app_length, drop_app_length.
Qed.

Lemma read_array_Ok n bytes l rest :
  read_array n bytes = Ok (l, rest) <-> bytes = l ++ rest /\ length l = n.
Proof.
  split; [|intros [-> Hl]; by apply read_array_app].
  unfold read_array. destruct (Nat.leb_spec n (length bytes)); [|done].
  intros [= <- <-]. by rewrite take_drop, length_take, Nat.min_l.
Qed.

Lemma reader_bind_Ok {A B} (r : Reader A) (f : A -> Reader B) bytes b rest :
  (r ≫= f) bytes = Ok (b, rest) <-> exists a mid, r bytes = Ok (a, mid) /\ f a mid = Ok (b, rest).
Proof.
  unfold mbind, reader_bind. destruct (r bytes) as [[a mid]|]; naive_solver.
Qed.

Lemma reader_bind_eq {A B} (r : Reader A) (f : A -> Reader B) bytes a rest :
  r bytes = Ok (a, rest) -> (r ≫= f) bytes = f a rest.
Proof. unfold mbind, reader_bind. by intros ->. Qed.

Lemma le_codec n :
  Codec (fun v => 0 <= v < 256 ^ Z.of_nat n) (le_bytes n)
    (bytes ← read_array n; mret (le_value bytes)).
Proof.
  split.
  - intros v rest Hv. rewrite (reader_bind_eq _ _ _ _ _ (read_array_app n _ rest (le_bytes_length n v))).
    cbn. by rewrite le_value_bytes.
  - intros bytes v rest Hb (l & mid & Hr & He)%reader_bind_Ok. injection He as <- <-.
    apply read_array_Ok in Hr as [-> Hl]. apply Forall_app in Hb as [Hb _]. subst n.
    by rewrite le_bytes_value; [split; [apply le_value_range|]|].
Qed.

#[export] Instance u16_codec : Codec (in_u U16_MAX) (le_bytes 2) read_u16.
Proof.
  destruct (le_codec 2) as [Hr Hc]. split.
  - intros v rest Hv. apply Hr. unfold in_u, U16_MAX in Hv. cbn. lia.
  - intros bytes v rest Hb Hv. destruct (Hc bytes v rest Hb Hv) as [Hd ?].
    split; [|done]. unfold in_u, U16_MAX. cbn in Hd. lia.
Qed.

#[export] Instance u32_codec : Codec (in_u U32_MAX) (le_bytes 4) read_u32.
Proof.
  destruct (le_codec 4) as [Hr Hc]. split.
  - intros v rest Hv. apply Hr. unfold in_u, U32_MAX in Hv. cbn. lia.
  - intros bytes v rest Hb Hv. destruct (Hc bytes v rest Hb Hv) as [Hd ?].
    split; [|done]. unfold in_u, U32_MAX. cbn in Hd. lia.
Qed.

#[export] Instance u64_codec : Codec (in_u U64_MAX) (le_bytes 8) read_u64.
Proof.
  destruct (le_codec 8) as [Hr Hc]. split.
  - intros v rest Hv. apply Hr. unfold in_u, U64_MAX in Hv. cbn. lia.
  - intros bytes v rest Hb Hv. destruct (Hc bytes v rest Hb Hv) as [Hd ?].
    split; [|done]. unfold in_u, U64_MAX. cbn in Hd. lia.
Qed.

#[export] Instance i32_codec :
  Codec (fun v => - 2 ^ 31 <= v < 2 ^ 31) (fun v => le_bytes 4 (i32_to_u32 v)) read_i32.
Proof.
  destruct (le_codec 4) as [Hr Hc]. unfold read_i32. split.
  - intros v rest Hv. unfold i32_to_u32.
    rewrite (reader_bind_eq _ _ _ _ _ (read_array_app 4 _ rest (le_bytes_length 4 _))).
    rewrite le_value_bytes by (apply Z.mod_pos_bound; lia). unfold mret, reader_ret. do 2 f_equal.
    unfold u32_to_i32. destruct (Z.ltb_spec (v mod 2 ^ 32) (2 ^ 31)); Z.to_euclidean_division_equations; lia.
  - intros bytes v rest Hb (l & mid & Hl & He)%reader_bind_Ok. injection He as <- <-.
    apply read_array_Ok in Hl as [-> Hl]. apply Forall_app in Hb as [Hb _].
    pose proof (le_value_range l Hb) as Hv. rewrite Hl in Hv.
    assert (i32_to_u32 (u32_to_i32 (le_value l)) = le_value l) as ->.
    { unfold i32_to_u32, u32_to_i32.
      destruct (Z.ltb_spec (le_value l) (2 ^ 31)); Z.to_euclidean_division_equations; lia. }
    pose proof (le_bytes_value l Hb) as Hbv. rewrite Hl in Hbv. rewrite Hbv.
    split; [|done]. unfold u32_to_i32.
    destruct (Z.ltb_spec (le_value l) (2 ^ 31)); lia.
Qed.

Lemma array_codec n :
  Codec (fun l => length l = n /\ Forall is_byte l) (fun l => l) (read_array n).
Proof.
  split.
  - intros l rest [Hl _]. by apply read_array_app.
  - intros bytes l rest Hb Hr. apply read_array_Ok in Hr as [-> Hl].
    apply Forall_app in Hb as [Hb _]. done.
Qed.

#[export] Instance compact_size_codec maximum :
  maximum <= U64_MAX -> Codec (in_u maximum) write_compact_size (read_compact_size maximum).
Proof.
  intros Hmax. split.
  - intros v rest [Hv Hvm]. unfold write_compact_size, read_compact_size.
    destruct (Z.ltb_spec v 0xfd); [|destruct (Z.leb_spec v U16_MAX); [|destruct (Z.leb_spec v U32_MAX)]];
      cbn [app]; (erewrite reader_bind_eq; [|reflexivity]); cbn [Z.leb Z.eqb Z.compare Pos.compare Pos.compare_cont Pos.eqb].
    + decide_if. erewrite reader_bind_eq; [|reflexivity]. by decide_if.
    + erewrite reader_bind_eq; [|erewrite reader_bind_eq; [|apply codec_read; unfold in_u; lia]; by decide_if].
      by decide_if.
    + erewrite reader_bind_eq; [|erewrite reader_bind_eq; [|apply codec_read; unfold in_u; lia]; by decide_if].
      by decide_if.
    + erewrite reader_bind_eq; [|erewrite reader_bind_eq; [|apply codec_read; unfold in_u; lia]; by decide_if].
      by decide_if.
  - intros bytes v rest Hb (marker & mid & Hm & Hv)%reader_bind_Ok.
    destruct bytes as [|b bytes]; [done|]. injection Hm as <- <-. apply Forall_cons in Hb as [Hb Hbs].
    apply reader_bind_Ok in Hv as (w & mid & Hw & Hv).
    destruct (Z.ltb_spec maximum w); [done|]. injection Hv as <- <-. unfold is_byte in Hb.
    unfold write_compact_size, in_u.
    destruct (Z.leb_spec b 0xfc); [|destruct (Z.eqb_spec b 0xfd); [|destruct (Z.eqb_spec b 0xfe)]].
    + injection Hw as <- <-. split; [lia|]. by decide_if.
    + apply reader_bind_Ok in Hw as (x & m & Hx & Hw). destruct (Z.ltb_spec x 0xfd); [done|].
      injection Hw as <- <-. apply codec_canonical in Hx as [[? ?] ->]; [|done].
      split; [lia|]. decide_if. by subst.
    + apply reader_bind_Ok in Hw as (x & m & Hx & Hw). destruct (Z.leb_spec x U16_MAX); [done|].
      injection Hw as <- <-. apply codec_canonical in Hx as [[? ?] ->]; [|done].
      unfold U16_MAX in *. split; [lia|]. decide_if. by subst.
    + apply reader_bind_Ok in Hw as (x & m & Hx & Hw). destruct (Z.leb_spec x U32_MAX); [done|].
      injection Hw as <- <-. apply codec_canonical in Hx as [[? ?] ->]; [|done].
      unfold U16_MAX, U32_MAX in *. split; [lia|]. decide_if. assert (b = 0xff) by lia. by subst.
Qed.

Lemma read_slice_Ok n bytes l rest :
  0 <= n -> read_slice n bytes = Ok (l, rest) <-> bytes = l ++ rest /\ len l = n.
Proof.
  intros Hn. unfold read_slice, len. destruct (Z.leb_spec n (Z.of_nat (length bytes))).
  - split.
    + intros [= <- <-]. rewrite take_drop, length_take. split; [done|lia].
    + intros [-> Hl]. replace (Z.to_nat n) with (length l) by lia.
      by rewrite take_app_length, drop_app_length.
  - split; [done|]. intros [-> Hl]. rewrite length_app in *. lia.
Qed.

#[export] Instance var_bytes_codec maximum :
  maximum <= U64_MAX ->
  Codec (fun l => len l <= maximum /\ Forall is_byte l) write_var_bytes (read_var_bytes maximum).
Proof.
  intros Hmax. pose proof (compact_size_codec maximum Hmax) as Hcs. split.
  - intros l rest [Hl Hb]. unfold write_var_bytes, read_var_bytes. rewrite <- app_assoc.
    erewrite reader_bind_eq; [|apply codec_read; unfold in_u, len in *; lia].
    apply read_slice_Ok; [unfold len; lia|done].
  - intros bytes l rest Hb (n & mid & Hn & Hs)%reader_bind_Ok.
    apply codec_canonical in Hn as [[Hn0 Hnm] ->]; [|done].
    apply Forall_app in Hb as [_ Hb]. apply read_slice_Ok in Hs as [-> <-]; [|done].
    apply Forall_app in Hb as [Hb _]. split; [done|]. unfold write_var_bytes. by rewrite app_assoc.
Qed.

(** A counted sequence of items. *)
Lemma read_n_codec {A} (P : A -> Prop) (write : A -> list Z) (read : Reader A) n :
  Codec P write read ->
  Codec (fun xs => length xs = n /\ Forall P xs) (fun xs => concat (write <$> xs)) (read_n n read).
Proof.
  intros HC. split.
  - intros xs rest [Hlen Hxs]. revert n Hlen.
    induction Hxs as [|x xs Hx _ IH]; intros n Hlen; cbn in Hlen; subst n; [done|].
    cbn [fmap list_fmap concat read_n]. rewrite <- app_assoc.
    erewrite reader_bind_eq; [|by apply codec_read].
    by erewrite reader_bind_eq; [|by apply IH].
  - induction n as [|n IH]; intros bytes xs rest Hb; cbn [read_n].
    { intros [= <- <-]. by split; [split; [|constructor]|]. }
    intros (x & mid & Hx & (xs' & mid' & Hxs & He)%reader_bind_Ok)%reader_bind_Ok.
    injection He as <- <-. apply codec_canonical in Hx as [Hx ->]; [|done].
    apply Forall_app in Hb as [_ Hb]. apply IH in Hxs as [[Hl Hxs] ->]; [|done].
    cbn. split; [split; [by rewrite Hl|by constructor]|]. by rewrite app_assoc.
Qed.

Lemma write_compact_size_length v : len (write_compact_size v) = compact_size_length v.
Proof.
  unfold write_compact_size, compact_size_length, len.
  repeat case_match; cbn [length]; rewrite ?le_bytes_length; lia.
Qed.

(** Compact sizes and length-prefixed byte strings have one encoding
    each: reading what was written gives the value and leaves what follows,
    every accepted encoding is the one the writer produces, and the length
    function agrees with the bytes written. *)
Theorem compact_encodings maximum :
  maximum <= U64_MAX ->
  (forall v rest, 0 <= v <= maximum ->
     read_compact_size maximum (write_compact_size v ++ rest) = Ok (v, rest)
     /\ len (write_compact_size v) = compact_size_length v)
  /\ (forall bytes v rest, Forall is_byte bytes -> read_compact_size maximum bytes = Ok (v, rest) ->
     0 <= v <= maximum /\ bytes = write_compact_size v ++ rest)
  /\ (forall l rest, len l <= maximum -> Forall is_byte l ->
     read_var_bytes maximum (write_var_bytes l ++ rest) = Ok (l, rest))
  /\ (forall bytes l rest, Forall is_byte bytes -> read_var_bytes maximum bytes = Ok (l, rest) ->
     len l <= maximum /\ bytes = write_var_bytes l ++ rest).
Proof.
  intros Hmax. pose proof (compact_size_codec maximum Hmax). pose proof (var_bytes_codec maximum Hmax).
  split; [|split; [|split]].
  - intros v rest Hv. split; [by apply codec_read|apply write_compact_size_length].
  - intros bytes v rest Hb Hr. by apply codec_canonical in Hr as [[? ?] ?].
  - intros l rest Hl Hb. by apply codec_read.
  - intros bytes l rest Hb Hr. by apply codec_canonical in Hr as [[? ?] ?].
Qed.

