(* ===== verification/Transaction.v ===== *)
(** * Transaction: the Bitcoin transaction codec, its sizes and its costs

    [Transaction], [TransactionInput], [TransactionOutput], the size and cost
    functions of [immortal-core/src/mkt_swp_verify.rs].  SHA-256 is the
    operation of [EventCrypto]. *)

From S2P Require Import Prelude Text Event Wire.

Record TransactionInput : Type := mkInput {
  previous_txid : list Z;
  previous_output : Z;
  script_sig : list Z;
  sequence : Z;
  witness : list (list Z);
}.

Record TransactionOutput : Type := mkOutput {
  value_sat : Z;
  script_pubkey : list Z;
}.

Record Transaction : Type := mkTransaction {
  tx_version : Z;
  tx_inputs : list TransactionInput;
  tx_outputs : list TransactionOutput;
  tx_lock_time : Z;
  tx_has_witness : bool;
}.

Definition is_empty {A} (l : list A) : bool := match l with [] => true | _ => false end.

Definition set_witness (i : TransactionInput) (w : list (list Z)) : TransactionInput :=
  mkInput (previous_txid i) (previous_output i) (script_sig i) (sequence i) w.

Definition any_witness (inputs : list TransactionInput) : bool :=
  existsb (fun i => negb (is_empty (witness i))) inputs.

(** [Transaction::new]. *)
Definition transaction_new (version : Z) (inputs : list TransactionInput)
    (outputs : list TransactionOutput) (lock_time : Z) : Transaction :=
  mkTransaction version inputs outputs lock_time (any_witness inputs).

Definition validate_witness_items (w : list (list Z)) : result VerificationError unit :=
  if MAX_WITNESS_ITEMS <? len w then Err (Bounds "witness item count")
  else if existsb (fun item => MAX_WITNESS_ITEM_BYTES <? len item) w
  then Err (Bounds "witness item byte length") else Ok tt.

Definition set_input_witness (tx : Transaction) (input_index : nat) (w : list (list Z))
    : result VerificationError Transaction :=
  _ ← validate_witness_items w;
  input ← ok_or (Bounds "witness input index") (tx_inputs tx !! input_index);
  let inputs := <[input_index := set_witness input w]> (tx_inputs tx) in
  Ok (mkTransaction (tx_version tx) inputs (tx_outputs tx) (tx_lock_time tx) (any_witness inputs)).

(** ** Parsing *)

Definition read_input : Reader TransactionInput :=
  previous_txid ← read_array 32;
  previous_output ← read_u32;
  script_sig ← read_var_bytes MAX_SCRIPT_BYTES;
  sequence ← read_u32;
  mret (mkInput previous_txid previous_output script_sig sequence []).

Definition read_output : Reader TransactionOutput :=
  value_sat ← read_u64;
  script_pubkey ← read_var_bytes MAX_SCRIPT_BYTES;
  mret (mkOutput value_sat script_pubkey).

Definition read_witness : Reader (list (list Z)) :=
  item_count ← read_compact_size MAX_WITNESS_ITEMS;
  read_n (Z.to_nat item_count) (read_var_bytes MAX_WITNESS_ITEM_BYTES).

(** [for input in &mut inputs]. *)
Fixpoint read_witnesses (inputs : list TransactionInput) : Reader (list TransactionInput) :=
  match inputs with
  | [] => mret []
  | i :: inputs' =>
      w ← read_witness;
      rest ← read_witnesses inputs';
      mret (set_witness i w :: rest)
  end.

(** [remaining() >= 2 && peek()? == 0 && peek_at(1)? != 0]. *)
Definition peek_marker : Reader bool := fun bytes =>
  match bytes with
  | marker :: flag :: _ => Ok ((marker =? 0) && negb (flag =? 0), bytes)
  | _ => Ok (false, bytes)
  end.

Definition read_marker (has_witness : bool) : Reader unit :=
  if has_witness then
    _ ← read_u8;
    flag ← read_u8;
    if negb (flag =? 1) then reader_error (Unsupported "transaction witness flag") else mret tt
  else mret tt.

Definition read_transaction : Reader Transaction :=
  version ← read_i32;
  has_witness ← peek_marker;
  _ ← read_marker has_witness;
  input_count ← read_compact_size MAX_INPUTS;
  if input_count =? 0 then reader_error (Invalid "transaction has no inputs") else
  inputs ← read_n (Z.to_nat input_count) read_input;
  output_count ← read_compact_size MAX_OUTPUTS;
  if output_count =? 0 then reader_error (Invalid "transaction has no outputs") else
  outputs ← read_n (Z.to_nat output_count) read_output;
  inputs ← (if has_witness then read_witnesses inputs else mret inputs);
  lock_time ← read_u32;
  mret (mkTransaction version inputs outputs lock_time has_witness).

(** [Transaction::parse]. *)
Definition transaction_parse (bytes : list Z) : result VerificationError Transaction :=
  if is_empty bytes || (MAX_TRANSACTION_BYTES <? len bytes)
  then Err (Bounds "transaction byte length") else
  '(tx, rest) ← read_transaction bytes;
  if is_empty rest then Ok tx else Err (Encoding "transaction trailing bytes").

(** ** Serialization *)

(** [TransactionInput::serialize_without_witness], also the body of the loop
    of [Transaction::serialize]. *)
Definition input_serialize_without_witness (i : TransactionInput)
    : result VerificationError (list Z) :=
  if MAX_SCRIPT_BYTES <? len (script_sig i) then Err (Bounds "scriptSig byte length") else
  Ok (previous_txid i ++ le_bytes 4 (previous_output i) ++ write_var_bytes (script_sig i)
      ++ le_bytes 4 (sequence i)).

(** [TransactionOutput::serialize]. *)
Definition output_serialize (o : TransactionOutput) : result VerificationError (list Z) :=
  if MAX_SCRIPT_BYTES <? len (script_pubkey o) then Err (Bounds "scriptPubKey byte length") else
  Ok (le_bytes 8 (value_sat o) ++ write_var_bytes (script_pubkey o)).

Definition witness_item_serialize (item : list Z) : result VerificationError (list Z) :=
  if MAX_WITNESS_ITEM_BYTES <? len item then Err (Bounds "witness item byte length")
  else Ok (write_var_bytes item).

Definition witness_serialize (w : list (list Z)) : result VerificationError (list Z) :=
  if MAX_WITNESS_ITEMS <? len w then Err (Bounds "witness item count") else
  items ← try_map witness_item_serialize w;
  Ok (write_compact_size (len w) ++ concat items).

(** [Transaction::serialize]. *)
Definition transaction_serialize (tx : Transaction) (include_witness : bool)
    : result VerificationError (list Z) :=
  if is_empty (tx_inputs tx) || (MAX_INPUTS <? len (tx_inputs tx))
  then Err (Bounds "transaction input count") else
  if is_empty (tx_outputs tx) || (MAX_OUTPUTS <? len (tx_outputs tx))
  then Err (Bounds "transaction output count") else
  let include_witness := include_witness && tx_has_witness tx && any_witness (tx_inputs tx) in
  inputs ← try_map input_serialize_without_witness (tx_inputs tx);
  outputs ← try_map output_serialize (tx_outputs tx);
  witnesses ← (if include_witness
               then try_map (fun i => witness_serialize (witness i)) (tx_inputs tx) else Ok []);
  let output :=
    le_bytes 4 (i32_to_u32 (tx_version tx))
    ++ (if include_witness then [0; 1] else [])
    ++ write_compact_size (len (tx_inputs tx)) ++ concat inputs
    ++ write_compact_size (len (tx_outputs tx)) ++ concat outputs
    ++ concat witnesses
    ++ le_bytes 4 (tx_lock_time tx) in
  if MAX_TRANSACTION_BYTES <? len output then Err (Bounds "serialized transaction byte length")
  else Ok output.

Definition weight (tx : Transaction) : result VerificationError Z :=
  stripped ← transaction_serialize tx false;
  total ← transaction_serialize tx true;
  ok_or (Bounds "transaction weight")
    (w ← checked_mul U64_MAX (len stripped) 3; checked_add U64_MAX w (len total)).

Definition virtual_size (tx : Transaction) : result VerificationError Z :=
  w ← weight tx;
  ok_or (Bounds "transaction virtual size") (v ← checked_add U64_MAX w 3; Some (v / 4)).

Section ids.
Context `{EventCrypto}.

Definition double_sha256 (bytes : list Z) : list Z := sha256 (sha256 bytes).
Definition display_hash (bytes : list Z) : list Z := reverse bytes.

Definition txid (tx : Transaction) : result VerificationError (list Z) :=
  bytes ← transaction_serialize tx false; Ok (display_hash (double_sha256 bytes)).
Definition wtxid (tx : Transaction) : result VerificationError (list Z) :=
  bytes ← transaction_serialize tx true; Ok (display_hash (double_sha256 bytes)).
End ids.

(** ** The codecs of the parts *)

Definition input_bytes (i : TransactionInput) : list Z :=
  previous_txid i ++ le_bytes 4 (previous_output i) ++ write_var_bytes (script_sig i)
  ++ le_bytes 4 (sequence i).
Definition output_bytes (o : TransactionOutput) : list Z :=
  le_bytes 8 (value_sat o) ++ write_var_bytes (script_pubkey o).
Definition witness_bytes (w : list (list Z)) : list Z :=
  write_compact_size (len w) ++ concat (write_var_bytes <$> w).

Definition input_typed (i : TransactionInput) : Prop :=
  (length (previous_txid i) = 32%nat /\ Forall is_byte (previous_txid i))
  /\ in_u U32_MAX (previous_output i)
  /\ (len (script_sig i) <= MAX_SCRIPT_BYTES /\ Forall is_byte (script_sig i))
  /\ in_u U32_MAX (sequence i).
Definition output_typed (o : TransactionOutput) : Prop :=
  in_u U64_MAX (value_sat o)
  /\ (len (script_pubkey o) <= MAX_SCRIPT_BYTES /\ Forall is_byte (script_pubkey o)).
Definition witness_typed (w : list (list Z)) : Prop :=
  len w <= MAX_WITNESS_ITEMS
  /\ Forall (fun item => len item <= MAX_WITNESS_ITEM_BYTES /\ Forall is_byte item) w.

(** The values the code's types and limits allow. *)
Definition transaction_typed (tx : Transaction) : Prop :=
  - 2 ^ 31 <= tx_version tx < 2 ^ 31
  /\ (0 < len (tx_inputs tx) <= MAX_INPUTS /\ Forall input_typed (tx_inputs tx))
  /\ (0 < len (tx_outputs tx) <= MAX_OUTPUTS /\ Forall output_typed (tx_outputs tx))
  /\ Forall (fun i => witness_typed (witness i)) (tx_inputs tx)
  /\ in_u U32_MAX (tx_lock_time tx).

(** Apply the codec of the next field to a reader on written bytes, and
    recover the written field from a successful read. *)
Ltac read_field :=
  erewrite reader_bind_eq;
  [|first [apply codec_read | apply (codec_read (Codec := array_codec _))];
    try done; unfold in_u, len, MAX_INPUTS, MAX_OUTPUTS in *; lia].
Ltac unread_field H :=
  let x := fresh "x" in let mid := fresh "mid" in let Hx := fresh "Hx" in
  apply reader_bind_Ok in H as (x & mid & Hx & H);
  match goal with Hb : Forall is_byte _ |- _ =>
    apply codec_canonical in Hx as [Hx ->]; [|exact Hb]; apply Forall_app in Hb as [_ Hb] end.

#[export] Existing Instance array_codec.
#[export] Instance script_codec :
  Codec (fun l => len l <= MAX_SCRIPT_BYTES /\ Forall is_byte l) write_var_bytes
    (read_var_bytes MAX_SCRIPT_BYTES).
Proof. by apply var_bytes_codec. Qed.
#[export] Instance item_codec :
  Codec (fun l => len l <= MAX_WITNESS_ITEM_BYTES /\ Forall is_byte l) write_var_bytes
    (read_var_bytes MAX_WITNESS_ITEM_BYTES).
Proof. by apply var_bytes_codec. Qed.

#[export] Instance input_codec :
  Codec (fun i => input_typed i /\ witness i = []) input_bytes read_input.
Proof.
  split.
  - intros i rest ((Ht & Hp & Hs & Hq) & Hw). unfold input_bytes, read_input. rewrite <- !app_assoc.
    read_field. read_field. read_field. read_field. destruct i; cbn in *. by subst.
  - intros bytes i rest Hb H. unfold read_input in H.
    unread_field H. unread_field H. unread_field H. unread_field H. injection H as <- <-.
    split; [done|]. unfold input_bytes. cbn [previous_txid previous_output script_sig sequence].
    by rewrite <- !app_assoc.
Qed.

#[export] Instance output_codec : Codec output_typed output_bytes read_output.
Proof.
  split.
  - intros o rest (Hv & Hs). unfold output_bytes, read_output. rewrite <- !app_assoc.
    read_field. read_field. by destruct o.
  - intros bytes o rest Hb H. unfold read_output in H. unread_field H. unread_field H.
    injection H as <- <-. split; [done|]. unfold output_bytes. cbn [value_sat script_pubkey].
    by rewrite <- !app_assoc.
Qed.

#[export] Instance witness_codec : Codec witness_typed witness_bytes read_witness.
Proof.
  pose proof (compact_size_codec MAX_WITNESS_ITEMS ltac:(done)) as Hcs.
  unfold witness_bytes, read_witness. split.
  - intros w rest (Hl & Hi). rewrite <- app_assoc. read_field.
    apply (codec_read (Codec := read_n_codec _ _ _ _ item_codec)). unfold len. split; [lia|done].
  - intros bytes w rest Hb H. unread_field H. unfold in_u in Hx.
    apply (codec_canonical (Codec := read_n_codec _ _ _ _ item_codec)) in H as [[Hl Hi] ->]; [|done].
    assert (len w = x) as <- by (unfold len; lia).
    split; [by split; [lia|]|]. by rewrite app_assoc.
Qed.

Lemma read_witnesses_codec inputs rest :
  Forall (fun i => witness_typed (witness i)) inputs ->
  read_witnesses ((fun i => set_witness i []) <$> inputs)
    (concat ((fun i => witness_bytes (witness i)) <$> inputs) ++ rest) = Ok (inputs, rest).
Proof.
  induction 1 as [|i inputs Hi _ IH]; [done|]. cbn [fmap list_fmap concat read_witnesses].
  rewrite <- app_assoc. read_field. erewrite reader_bind_eq; [|exact IH].
  by destruct i.
Qed.

Lemma read_witnesses_canonical inputs bytes outputs rest :
  Forall is_byte bytes -> read_witnesses inputs bytes = Ok (outputs, rest) ->
  Forall (fun i => witness_typed (witness i)) outputs
  /\ bytes = concat ((fun i => witness_bytes (witness i)) <$> outputs) ++ rest
  /\ (fun i => set_witness i []) <$> outputs = (fun i => set_witness i []) <$> inputs.
Proof.
  revert bytes outputs. induction inputs as [|i inputs IH]; intros bytes outputs Hb H; cbn [read_witnesses] in H.
  { injection H as <- <-. done. }
  unread_field H. apply reader_bind_Ok in H as (tl & mid' & Htl & H). injection H as <- <-.
  apply IH in Htl as (Hw & -> & Hs); [|done].
  cbn. split; [by constructor|]. split; [by rewrite app_assoc|]. rewrite Hs. by destruct i.
Qed.

(** ** Serialization as concatenation *)

Lemma try_map_guard {A} (P : A -> Prop) (f : A -> result VerificationError (list Z)) (w : A -> list Z) l bs :
  (forall x b, f x = Ok b <-> P x /\ b = w x) ->
  try_map f l = Ok bs <-> Forall P l /\ bs = w <$> l.
Proof.
  intros Hf. rewrite try_map_Ok_Forall2. revert bs. induction l as [|x l IH]; intros bs.
  - split; [inversion 1; by split; [constructor|]|intros [_ ->]; constructor].
  - split.
    + intros H. apply Forall2_cons_inv_l in H as (b & bs' & [Hx ->]%Hf & [Hl ->]%IH & ->).
      by split; [constructor|].
    + intros [[Hx Hl]%Forall_cons ->]. rewrite fmap_cons. constructor; [by apply Hf|by apply IH].
Qed.

Lemma input_serialize_Ok i b :
  input_serialize_without_witness i = Ok b <-> len (script_sig i) <= MAX_SCRIPT_BYTES /\ b = input_bytes i.
Proof.
  unfold input_serialize_without_witness, input_bytes.
  destruct (Z.ltb_spec MAX_SCRIPT_BYTES (len (script_sig i))); naive_solver lia.
Qed.

Lemma output_serialize_Ok o b :
  output_serialize o = Ok b <-> len (script_pubkey o) <= MAX_SCRIPT_BYTES /\ b = output_bytes o.
Proof.
  unfold output_serialize, output_bytes.
  destruct (Z.ltb_spec MAX_SCRIPT_BYTES (len (script_pubkey o))); naive_solver lia.
Qed.

Lemma witness_serialize_Ok w b :
  witness_serialize w = Ok b <->
  (len w <= MAX_WITNESS_ITEMS /\ Forall (fun item => len item <= MAX_WITNESS_ITEM_BYTES) w)
  /\ b = witness_bytes w.
Proof.
  unfold witness_serialize, witness_bytes.
  destruct (Z.ltb_spec MAX_WITNESS_ITEMS (len w)); [naive_solver lia|].
  rewrite bind_Ok. setoid_rewrite (try_map_guard (fun item => len item <= MAX_WITNESS_ITEM_BYTES) _ write_var_bytes).
  - naive_solver.
  - intros item b'. unfold witness_item_serialize.
    destruct (Z.ltb_spec MAX_WITNESS_ITEM_BYTES (len item)); naive_solver lia.
Qed.

Definition transaction_bytes (tx : Transaction) (include : bool) : list Z :=
  le_bytes 4 (i32_to_u32 (tx_version tx))
  ++ (if include then [0; 1] else [])
  ++ write_compact_size (len (tx_inputs tx)) ++ concat (input_bytes <$> tx_inputs tx)
  ++ write_compact_size (len (tx_outputs tx)) ++ concat (output_bytes <$> tx_outputs tx)
  ++ (if include then concat ((fun i => witness_bytes (witness i)) <$> tx_inputs tx) else [])
  ++ le_bytes 4 (tx_lock_time tx).

Definition witness_limits (w : list (list Z)) : Prop :=
  len w <= MAX_WITNESS_ITEMS /\ Forall (fun item => len item <= MAX_WITNESS_ITEM_BYTES) w.

Definition within_limits (tx : Transaction) (include : bool) : Prop :=
  0 < len (tx_inputs tx) <= MAX_INPUTS /\ 0 < len (tx_outputs tx) <= MAX_OUTPUTS
  /\ Forall (fun i => len (script_sig i) <= MAX_SCRIPT_BYTES) (tx_inputs tx)
  /\ Forall (fun o => len (script_pubkey o) <= MAX_SCRIPT_BYTES) (tx_outputs tx)
  /\ (include = true -> Forall (fun i => witness_limits (witness i)) (tx_inputs tx)).

Lemma count_guard {A} (l : list A) max :
  is_empty l || (max <? len l) = false <-> 0 < len l <= max.
Proof.
  unfold len. destruct l; cbn [is_empty orb length]; [split; [done|cbn; lia]|].
  destruct (Z.ltb_spec max (Z.of_nat (S (length l)))); lia.
Qed.

Lemma transaction_serialize_Ok tx include b :
  let inc := include && tx_has_witness tx && any_witness (tx_inputs tx) in
  transaction_serialize tx include = Ok b <->
  within_limits tx inc /\ b = transaction_bytes tx inc /\ len b <= MAX_TRANSACTION_BYTES.
Proof.
  cbn zeta. unfold transaction_serialize, within_limits, transaction_bytes.
  set (inc := include && tx_has_witness tx && any_witness (tx_inputs tx)). clearbody inc.
  destruct (is_empty (tx_inputs tx) || _) eqn:Hi.
  { split; [done|]. intros ((Hi' & _) & _). apply count_guard in Hi'. congruence. }
  destruct (is_empty (tx_outputs tx) || _) eqn:Ho.
  { split; [done|]. intros ((_ & Ho' & _) & _). apply count_guard in Ho'. congruence. }
  apply count_guard in Hi, Ho.
  pose proof (fun bs => try_map_guard _ _ _ (tx_inputs tx) bs input_serialize_Ok) as HI.
  pose proof (fun bs => try_map_guard _ _ _ (tx_outputs tx) bs output_serialize_Ok) as HO.
  pose proof (fun bs => try_map_guard _ _ _ (tx_inputs tx) bs (fun i => witness_serialize_Ok (witness i))) as HW.
  rewrite bind_Ok. setoid_rewrite HI. setoid_rewrite bind_Ok. setoid_rewrite HO. setoid_rewrite bind_Ok.
  destruct inc.
  - setoid_rewrite HW. split.
    + intros (? & (? & ->) & ? & (? & ->) & ? & (? & ->) & Hrun). run_inv. bool_to_prop. naive_solver.
    + intros ((? & ? & ? & ? & Hw) & -> & Hl). do 3 (eexists; split; [naive_solver|]).
      rewrite (proj2 (Z.ltb_ge _ _)); [done|exact Hl].
  - split.
    + intros (? & (? & ->) & ? & (? & ->) & ? & [= <-] & Hrun). run_inv. bool_to_prop. naive_solver.
    + intros ((? & ? & ? & ? & Hw) & -> & Hl). do 3 (eexists; split; [naive_solver|]).
      rewrite (proj2 (Z.ltb_ge _ _)); [done|exact Hl].
Qed.

(** ** Parsing what was serialized *)

Lemma compact_size_head v rest :
  0 < v <= U64_MAX -> exists b tl, write_compact_size v ++ rest = b :: tl /\ b <> 0.
Proof.
  intros Hv. unfold write_compact_size. repeat case_match; cbn; eexists _, _; (split; [done|]); lia.
Qed.

Lemma peek_marker_codec (has_witness : bool) v rest :
  0 < v <= U64_MAX ->
  peek_marker ((if has_witness then [0; 1] else []) ++ write_compact_size v ++ rest)
  = Ok (has_witness, (if has_witness then [0; 1] else []) ++ write_compact_size v ++ rest).
Proof.
  intros Hv. destruct has_witness; [done|]. cbn [app].
  destruct (compact_size_head v rest Hv) as (b & tl & -> & Hb). unfold peek_marker.
  destruct tl; [done|]. by rewrite (proj2 (Z.eqb_neq b 0)).
Qed.

Lemma read_marker_codec (has_witness : bool) rest :
  read_marker has_witness ((if has_witness then [0; 1] else []) ++ rest) = Ok (tt, rest).
Proof. by destruct has_witness. Qed.

Lemma strip_no_witness inputs :
  any_witness inputs = false -> (fun i => set_witness i []) <$> inputs = inputs.
Proof.
  induction inputs as [|i inputs IH]; cbn; [done|]. intros [Hi Hr]%orb_false_iff. rewrite IH by done.
  f_equal. destruct i as [t p s q w]. cbn in *. by destruct w.
Qed.

Lemma input_bytes_strip (inputs : list TransactionInput) :
  input_bytes <$> ((fun i => set_witness i []) <$> inputs) = input_bytes <$> inputs.
Proof. rewrite <- list_fmap_compose. by apply list_fmap_ext. Qed.

Lemma read_transaction_bytes tx :
  transaction_typed tx -> tx_has_witness tx = any_witness (tx_inputs tx) ->
  read_transaction (transaction_bytes tx (tx_has_witness tx)) = Ok (tx, []).
Proof.
  intros (Hv & (Hic & Hi) & (Hoc & Ho) & Hw & Hlt) Hhas.
  pose proof (compact_size_codec MAX_INPUTS ltac:(done)) as HcsI.
  pose proof (compact_size_codec MAX_OUTPUTS ltac:(done)) as HcsO.
  unfold read_transaction, transaction_bytes.
  erewrite reader_bind_eq; [|by apply (codec_read (Codec := i32_codec))].
  erewrite reader_bind_eq; [|apply peek_marker_codec; unfold MAX_INPUTS, U64_MAX in *; lia].
  erewrite reader_bind_eq; [|apply read_marker_codec].
  read_field. destruct (Z.eqb_spec (len (tx_inputs tx)) 0); [lia|].
  rewrite <- input_bytes_strip.
  erewrite reader_bind_eq.
  2: { apply (codec_read (Codec := read_n_codec _ _ _ _ input_codec)).
       rewrite length_fmap. unfold len. split; [lia|]. rewrite Forall_fmap.
       eapply Forall_impl; [exact Hi|]. intros i Hi'. by destruct i. }
  read_field. destruct (Z.eqb_spec (len (tx_outputs tx)) 0); [lia|].
  erewrite reader_bind_eq.
  2: { apply (codec_read (Codec := read_n_codec _ _ _ _ output_codec)). unfold len. split; [lia|done]. }
  erewrite (reader_bind_eq _ _ _ (tx_inputs tx)).
  2: { rewrite Hhas. destruct (any_witness (tx_inputs tx)) eqn:Ha.
       - by apply read_witnesses_codec.
       - by rewrite strip_no_witness. }
  rewrite <- (app_nil_r (le_bytes 4 (tx_lock_time tx))).
  read_field. by destruct tx.
Qed.

(** The marker bytes a parse consumed. *)
Lemma read_marker_Ok has_witness bytes rest :
  peek_marker bytes = Ok (has_witness, bytes) -> read_marker has_witness bytes = Ok (tt, rest) ->
  bytes = (if has_witness then [0; 1] else []) ++ rest.
Proof.
  intros Hp. destruct has_witness; [|by intros [= ->]].
  destruct bytes as [|m [|f bytes]]; [done..|]. cbn in Hp. injection Hp as Hp. bool_to_prop.
  intros (x & mid & Hx & Hr)%reader_bind_Ok. injection Hx as <- <-.
  apply reader_bind_Ok in Hr as (y & mid & Hy & Hr). injection Hy as <- <-.
  destruct (Z.eqb_spec f 1); cbn in Hr; [|done]. injection Hr as <-. by subst.
Qed.

Lemma peek_marker_same bytes w rest : peek_marker bytes = Ok (w, rest) -> rest = bytes.
Proof. unfold peek_marker. intros H. repeat case_match; by simplify_eq. Qed.

Lemma input_typed_strip i : input_typed (set_witness i []) <-> input_typed i.
Proof. by destruct i. Qed.

Lemma strip_typed inputs stripped :
  (fun i => set_witness i []) <$> inputs = (fun i => set_witness i []) <$> stripped ->
  Forall input_typed stripped ->
  Forall input_typed inputs /\ len inputs = len stripped
  /\ input_bytes <$> inputs = input_bytes <$> stripped.
Proof.
  intros Hs Ht. split; [|split].
  - assert (Forall input_typed ((fun i => set_witness i []) <$> inputs)) as H.
    { rewrite Hs, Forall_fmap. eapply Forall_impl; [exact Ht|]. intros i. apply input_typed_strip. }
    rewrite Forall_fmap in H. eapply Forall_impl; [exact H|]. intros i. apply input_typed_strip.
  - unfold len. f_equal. by rewrite <- (length_fmap (fun i => set_witness i [])), Hs, length_fmap.
  - by rewrite <- (input_bytes_strip inputs), Hs, input_bytes_strip.
Qed.

Lemma no_witness_empty inputs : Forall (fun i => witness i = []) inputs -> any_witness inputs = false.
Proof. induction 1 as [|i l Hi _ IH]; [done|]. cbn. by rewrite Hi. Qed.

Lemma read_transaction_canonical bytes tx rest :
  Forall is_byte bytes -> read_transaction bytes = Ok (tx, rest) ->
  transaction_typed tx /\ bytes = transaction_bytes tx (tx_has_witness tx) ++ rest
  /\ (tx_has_witness tx = false -> any_witness (tx_inputs tx) = false).
Proof.
  pose proof (compact_size_codec MAX_INPUTS ltac:(done)) as HcsI.
  pose proof (compact_size_codec MAX_OUTPUTS ltac:(done)) as HcsO.
  intros Hb H. unfold read_transaction in H.
  apply reader_bind_Ok in H as (version & b0 & Hv & H).
  apply (codec_canonical (Codec := i32_codec)) in Hv as [Hv ->]; [|done].
  apply Forall_app in Hb as [_ Hb].
  apply reader_bind_Ok in H as (has & b1 & Hpeek & H).
  pose proof (peek_marker_same _ _ _ Hpeek) as ->.
  apply reader_bind_Ok in H as ([] & b1 & Hm & H).
  apply (read_marker_Ok _ _ _ Hpeek) in Hm as ->. apply Forall_app in Hb as [_ Hb].
  apply reader_bind_Ok in H as (ic & b2 & Hic & H).
  apply (codec_canonical (Codec := HcsI)) in Hic as [[Hic0 Hic] ->]; [|done]. apply Forall_app in Hb as [_ Hb].
  destruct (Z.eqb_spec ic 0); [done|].
  apply reader_bind_Ok in H as (stripped & b3 & Hin & H).
  apply (codec_canonical (Codec := read_n_codec _ _ _ _ input_codec)) in Hin as [[Hil Hin] ->]; [|done].
  apply Forall_app in Hb as [_ Hb].
  apply reader_bind_Ok in H as (oc & b4 & Hoc & H).
  apply (codec_canonical (Codec := HcsO)) in Hoc as [[Hoc0 Hoc] ->]; [|done]. apply Forall_app in Hb as [_ Hb].
  destruct (Z.eqb_spec oc 0); [done|].
  apply reader_bind_Ok in H as (outputs & b5 & Hout & H).
  apply (codec_canonical (Codec := read_n_codec _ _ _ _ output_codec)) in Hout as [[Hol Hout] ->]; [|done].
  apply Forall_app in Hb as [_ Hb].
  apply reader_bind_Ok in H as (inputs & b6 & Hw & H).
  assert (Forall (fun i => witness_typed (witness i)) inputs
    /\ b5 = (if has then concat ((fun i => witness_bytes (witness i)) <$> inputs) else []) ++ b6
    /\ (fun i => set_witness i []) <$> inputs = (fun i => set_witness i []) <$> stripped
    /\ (has = false -> any_witness inputs = false)) as (Hwt & -> & Hstrip & Hno).
  { destruct has; [by apply read_witnesses_canonical in Hw as (? & ? & ?)|].
    injection Hw as <- <-. assert (Forall (fun i => witness i = []) stripped) as Hnil
      by (eapply Forall_impl; [exact Hin|]; by intros ? []).
    split; [|split; [done|split; [done|intros _; by apply no_witness_empty]]].
    eapply Forall_impl; [exact Hnil|]. intros i ->. by split; [|constructor]. }
  apply Forall_app in Hb as [_ Hb].
  apply reader_bind_Ok in H as (lt & b7 & Hlt & H). apply codec_canonical in Hlt as [Hlt ->]; [|done].
  injection H as <- <-.
  assert (Forall input_typed stripped) as Hst by (eapply Forall_impl; [exact Hin|]; by intros ? []).
  destruct (strip_typed inputs stripped Hstrip Hst) as (Hit & Hlen & Hbytes).
  unfold transaction_typed, transaction_bytes.
  cbn [tx_version tx_inputs tx_outputs tx_lock_time tx_has_witness].
  assert (len stripped = ic) as Hls by (unfold len; lia).
  assert (len outputs = oc) as Hlo by (unfold len; lia).
  rewrite Hlen, Hls, Hlo, Hbytes. split; [|split; [by rewrite <- !app_assoc|done]].
  split; [done|]. split; [split; [lia|done]|]. split; [split; [lia|done]|]. done.
Qed.

(** ** Claims *)

(** [parse] accepts exactly the canonical bytes of a typed transaction. *)
Lemma transaction_parse_Ok bytes tx :
  Forall is_byte bytes -> transaction_parse bytes = Ok tx ->
  transaction_typed tx /\ bytes = transaction_bytes tx (tx_has_witness tx)
  /\ len bytes <= MAX_TRANSACTION_BYTES
  /\ (tx_has_witness tx = false -> any_witness (tx_inputs tx) = false).
Proof.
  intros Hb H. unfold transaction_parse in H.
  destruct (is_empty bytes || _) eqn:Hg; [done|]. apply count_guard in Hg.
  destruct (read_transaction bytes) as [[tx' rest]|] eqn:Hr; [|done]. cbn in H.
  destruct rest; [|done]. injection H as ->.
  apply read_transaction_canonical in Hr as (Ht & -> & Hno); [|done].
  rewrite app_nil_r in *. split; [done|]. split; [done|]. split; [lia|done].
Qed.

Lemma typed_within_limits tx include : transaction_typed tx -> within_limits tx include.
Proof.
  intros (_ & (Hic & Hi) & (Hoc & Ho) & Hw & _). split; [done|]. split; [done|].
  split; [eapply Forall_impl; [exact Hi|]; by intros i (_ & _ & [? _] & _)|].
  split; [eapply Forall_impl; [exact Ho|]; by intros o (_ & [? _])|].
  intros _. eapply Forall_impl; [exact Hw|]. intros i [Hl Hs]. split; [done|].
  eapply Forall_impl; [exact Hs|]. by intros item [? _].
Qed.

Lemma transaction_bytes_nonempty tx include : 0 < len (transaction_bytes tx include).
Proof.
  unfold transaction_bytes, len. rewrite length_app, le_bytes_length. lia.
Qed.

(** Serializing a transaction and parsing the bytes gives the transaction
    back, witnesses included, for every transaction built by the code's own
    constructors ([new] and [set_input_witness] keep [has_witness] true to
    the witnesses). *)
Theorem parse_serialize tx bytes :
  transaction_typed tx -> tx_has_witness tx = any_witness (tx_inputs tx) ->
  transaction_serialize tx true = Ok bytes -> transaction_parse bytes = Ok tx.
Proof.
  intros Ht Hhas (_ & -> & Hlen)%transaction_serialize_Ok.
  rewrite <- Hhas in *. replace (true && tx_has_witness tx && tx_has_witness tx) with (tx_has_witness tx) in *
    by (by destruct (tx_has_witness tx)).
  unfold transaction_parse. rewrite (proj2 (count_guard _ MAX_TRANSACTION_BYTES)).
  - rewrite read_transaction_bytes by done. done.
  - pose proof (transaction_bytes_nonempty tx (tx_has_witness tx)). lia.
Qed.

(** C9: parsing is canonical: whatever bytes [parse] accepts are exactly what
    [serialize] writes for the parsed transaction, so no two byte strings
    parse to the same transaction, except that a marked transaction whose
    witnesses are all empty is accepted and written without the marker. *)
Theorem serialize_parse bytes tx :
  Forall is_byte bytes -> transaction_parse bytes = Ok tx ->
  transaction_typed tx
  /\ (tx_has_witness tx = any_witness (tx_inputs tx) -> transaction_serialize tx true = Ok bytes)
  /\ (tx_has_witness tx <> any_witness (tx_inputs tx) ->
      tx_has_witness tx = true /\ any_witness (tx_inputs tx) = false
      /\ bytes = transaction_bytes tx true
      /\ (forall out, transaction_serialize tx true = Ok out -> out = transaction_bytes tx false)).
Proof.
  intros Hb (Ht & -> & Hlen & Hno)%transaction_parse_Ok; [|done]. split; [done|]. split.
  - intros Hhas. apply transaction_serialize_Ok. rewrite <- Hhas.
    replace (true && tx_has_witness tx && tx_has_witness tx) with (tx_has_witness tx)
      by (by destruct (tx_has_witness tx)).
    split; [by apply typed_within_limits|done].
  - destruct (tx_has_witness tx) eqn:Hhas; [|intros Hne; by rewrite Hno in Hne].
    destruct (any_witness (tx_inputs tx)) eqn:Ha; [done|]. intros _. split; [done|]. split; [done|].
    split; [done|]. intros out (_ & -> & _)%transaction_serialize_Ok. by rewrite Hhas, Ha.
Qed.

Definition example_input : TransactionInput :=
  mkInput (replicate 32 17) 1 [] 4294967293 [[1; 2; 3]; []].
Definition example_transaction : Transaction :=
  transaction_new 2 [example_input] [mkOutput 50000 (0x51 :: 0x20 :: replicate 32 5)] 800000.

Lemma example_transaction_typed : transaction_typed example_transaction.
Proof.
  assert (forall n v, is_byte v -> Forall is_byte (replicate n v)) as Hrep
    by (intros; by apply Forall_replicate).
  unfold transaction_typed, input_typed, output_typed, witness_typed, in_u, len, is_byte.
  cbn -[Z.of_nat length Z.pow replicate].
  repeat (split || constructor); try done; try lia; apply Hrep; unfold is_byte; lia.
Qed.

Lemma parse_serialize_witness :
  exists bytes, transaction_serialize example_transaction true = Ok bytes
  /\ transaction_parse bytes = Ok example_transaction.
Proof.
  eexists. split; [vm_compute; reflexivity|].
  apply (parse_serialize example_transaction);
    [exact example_transaction_typed|reflexivity|vm_compute; reflexivity].
Defined.

(** A marked transaction with one empty witness parses; it is then written
    without the marker, two bytes and one count shorter. *)
Definition superfluous_bytes : list Z :=
  le_bytes 4 2 ++ [0; 1] ++ [1] ++ replicate 32 17 ++ le_bytes 4 0 ++ [0] ++ le_bytes 4 0
  ++ [1] ++ le_bytes 8 50000 ++ [0] ++ [0] ++ le_bytes 4 0.

Lemma serialize_parse_witness :
  match transaction_parse superfluous_bytes with
  | Ok tx => exists out, transaction_serialize tx true = Ok out
               /\ out = transaction_bytes tx false /\ len out = len superfluous_bytes - 3
  | Err _ => False
  end.
Proof.
  destruct (transaction_parse superfluous_bytes) as [tx|] eqn:Hp; [|vm_compute in Hp; discriminate].
  assert (Forall is_byte superfluous_bytes) as Hb.
  { unfold superfluous_bytes. repeat (apply Forall_app; split);
      first [apply le_bytes_range | apply Forall_replicate; split; done | repeat constructor; done]. }
  destruct (serialize_parse superfluous_bytes tx Hb Hp) as (_ & _ & Hempty).
  assert (exists out, transaction_serialize tx true = Ok out /\ len out = len superfluous_bytes - 3)
    as (out & Hs & Hl).
  { vm_compute in Hp. injection Hp as <-. eexists. split; vm_compute; reflexivity. }
  exists out. split; [exact Hs|]. split; [|exact Hl]. apply Hempty; [|exact Hs].
  vm_compute in Hp. injection Hp as <-. vm_compute. discriminate.
Defined.

(** ** Sizes *)

Lemma transaction_bytes_len tx :
  len (transaction_bytes tx true)
  = len (transaction_bytes tx false) + 2
    + len (concat ((fun i => witness_bytes (witness i)) <$> tx_inputs tx)).
Proof. unfold transaction_bytes. rewrite !len_app. change (len [0; 1]) with 2. change (@len Z []) with 0. lia. Qed.

Lemma serialize_stripped tx total :
  transaction_serialize tx true = Ok total ->
  transaction_serialize tx false = Ok (transaction_bytes tx false)
  /\ len (transaction_bytes tx false) <= len total <= MAX_TRANSACTION_BYTES.
Proof.
  intros (Hl & Ht & Hm)%transaction_serialize_Ok.
  assert (len (transaction_bytes tx false) <= len total).
  { rewrite Ht. destruct (true && _ && _); [|lia]. rewrite transaction_bytes_len.
    pose proof (len_nonneg (concat ((fun i => witness_bytes (witness i)) <$> tx_inputs tx))). lia. }
  split; [|lia]. apply transaction_serialize_Ok. cbn [andb].
  split; [|split; [done|lia]]. destruct Hl as (? & ? & ? & ? & _). done.
Qed.

(** A transaction that serializes has a weight and a virtual size:
    weight is three times the stripped size plus the full size, the virtual
    size is a quarter of it rounded up, and witness bytes weigh one instead
    of four. *)
Theorem virtual_size_exact tx total :
  transaction_serialize tx true = Ok total ->
  exists base w v,
    transaction_serialize tx false = Ok base /\ weight tx = Ok w /\ virtual_size tx = Ok v
    /\ w = 3 * len base + len total /\ 4 * (v - 1) < w <= 4 * v
    /\ len total = len base
       + (if tx_has_witness tx && any_witness (tx_inputs tx)
          then 2 + len (concat ((fun i => witness_bytes (witness i)) <$> tx_inputs tx)) else 0).
Proof.
  intros Ht. destruct (serialize_stripped tx total Ht) as (Hs & Hle).
  pose proof (len_nonneg (transaction_bytes tx false)). unfold MAX_TRANSACTION_BYTES in *.
  assert (weight tx = Ok (3 * len (transaction_bytes tx false) + len total)) as Hw.
  { unfold weight. rewrite Hs, Ht. cbn [mbind result_bind].
    rewrite checked_mul_eq by (unfold U64_MAX; lia).
    cbn [mbind option_bind].
    rewrite checked_add_eq by (unfold U64_MAX; lia).
    cbn [ok_or]. f_equal. lia. }
  eexists _, _, _. split; [exact Hs|]. split; [exact Hw|]. split.
  { unfold virtual_size. rewrite Hw. cbn [mbind result_bind].
    rewrite checked_add_eq by (unfold U64_MAX; lia).
    reflexivity. }
  split; [done|]. split; [Z.to_euclidean_division_equations; lia|].
  apply transaction_serialize_Ok in Ht as (_ & -> & _). cbn [andb].
  destruct (tx_has_witness tx && any_witness (tx_inputs tx)); [rewrite transaction_bytes_len|]; lia.
Qed.

