(* ===== verification/Cost.v ===== *)
(** * Cost: transaction fees and dust

    [transaction_cost], [validate_transaction_cost], [dust_threshold],
    [is_dust] and [fee_for_size] of [immortal-core/src/mkt_swp_verify.rs]. *)

From S2P Require Import Prelude Wire Transaction.

Record TransactionCost : Type := mkCost {
  cost_fee_sat : Z;
  cost_weight : Z;
  cost_virtual_size : Z;
}.

(** [try_fold(0, |total, output| total.checked_add(output.value_sat))]. *)
Definition sum_values (message : string) (outputs : list TransactionOutput)
    : result VerificationError Z :=
  try_fold (fun total o => ok_or (Bounds message) (checked_add U64_MAX total (value_sat o))) 0 outputs.

Definition transaction_cost (tx : Transaction) (prevouts : list TransactionOutput)
    : result VerificationError TransactionCost :=
  if negb (length (tx_inputs tx) =? length prevouts)%nat
  then Err (Invalid "transaction prevout count") else
  input_value ← sum_values "transaction input value" prevouts;
  output_value ← sum_values "transaction output value" (tx_outputs tx);
  fee_sat ← ok_or (Invalid "transaction spends more than its prevouts")
              (checked_sub input_value output_value);
  w ← weight tx;
  v ← virtual_size tx;
  Ok (mkCost fee_sat w v).

Definition validate_transaction_cost (tx : Transaction) (prevouts : list TransactionOutput)
    (maximum_fee_sat maximum_fee_rate_sat_per_vbyte : Z)
    : result VerificationError TransactionCost :=
  cost ← transaction_cost tx prevouts;
  maximum_rate_fee ← ok_or (Bounds "maximum transaction fee rate")
    (checked_mul U64_MAX maximum_fee_rate_sat_per_vbyte (cost_virtual_size cost));
  if (maximum_fee_sat <? cost_fee_sat cost) || (maximum_rate_fee <? cost_fee_sat cost)
  then Err (Invalid "transaction fee exceeds policy") else Ok cost.

Definition is_witness_program (script : list Z) : bool :=
  match script with
  | version :: program_length :: program =>
      ((version =? 0) || ((0x51 <=? version) && (version <=? 0x60)))
      && ((2 <=? program_length) && (program_length <=? 40))
      && (len program =? program_length)
  | _ => false
  end.

Definition fee_for_size (rate_sat_per_kilobyte size : Z) : result VerificationError Z :=
  product ← ok_or (Bounds "fee calculation") (checked_mul U64_MAX rate_sat_per_kilobyte size);
  let fee := product / 1000 in
  Ok (if (fee =? 0) && (0 <? rate_sat_per_kilobyte) then 1 else fee).

Definition dust_threshold (script : list Z) (dust_relay_fee_sat_per_kilobyte : Z)
    : result VerificationError Z :=
  if MAX_SCRIPT_BYTES <? len script then Err (Bounds "dust scriptPubKey byte length") else
  if bool_decide (head script = Some 0x6a) then Ok 0 else
  output_size ← ok_or (Bounds "dust output size")
    (size ← checked_add U64_MAX 8 (compact_size_length (len script));
     checked_add U64_MAX size (len script));
  let spend_size := if is_witness_program script then 67 else 148 in
  size ← ok_or (Bounds "dust spend size") (checked_add U64_MAX output_size spend_size);
  fee_for_size dust_relay_fee_sat_per_kilobyte size.

Definition is_dust (o : TransactionOutput) (dust_relay_fee_sat_per_kilobyte : Z)
    : result VerificationError bool :=
  threshold ← dust_threshold (script_pubkey o) dust_relay_fee_sat_per_kilobyte;
  Ok (value_sat o <? threshold).

(** ** Theorems *)

Definition total_value (outputs : list TransactionOutput) : Z :=
  foldr (fun o acc => value_sat o + acc) 0 outputs.

Lemma sum_values_Ok message outputs v :
  Forall (fun o => 0 <= value_sat o) outputs ->
  sum_values message outputs = Ok v <-> v = total_value outputs /\ total_value outputs <= U64_MAX.
Proof.
  intros Hpos. unfold sum_values.
  assert (forall acc, 0 <= acc <= U64_MAX ->
    try_fold (fun total o => ok_or (Bounds message) (checked_add U64_MAX total (value_sat o))) acc outputs = Ok v
    <-> v = acc + total_value outputs /\ acc + total_value outputs <= U64_MAX) as H.
  { assert (forall l, Forall (fun o => 0 <= value_sat o) l -> 0 <= total_value l) as Hnn.
    { unfold total_value. induction 1; cbn [foldr]; lia. }
    induction Hpos as [|o l Ho Hl IH]; intros acc Hacc; cbn [try_fold total_value foldr].
    { unfold total_value. cbn [foldr]. rewrite Z.add_0_r. split; [intros [= <-]; lia|by intros [-> _]]. }
    specialize (Hnn l Hl). fold (total_value l).
    destruct (checked_add U64_MAX acc (value_sat o)) as [s|] eqn:Hs; cbn [ok_or mbind result_bind].
    - apply checked_add_Some in Hs as [-> Hs]. rewrite IH by lia.
      replace (acc + value_sat o + total_value l) with (acc + (value_sat o + total_value l)) by lia. done.
    - unfold checked_add in Hs. destruct (Z.leb_spec (acc + value_sat o) U64_MAX); [done|].
      split; [done|]. lia. }
  rewrite H by (unfold U64_MAX; lia). by rewrite Z.add_0_l.
Qed.

(** Value is conserved and the fee policy binds: when the cost of a
    transaction is accepted, the spent outputs are worth exactly the new
    outputs plus the fee, the fee respects both the absolute limit and the
    rate limit over the transaction's virtual size; and a transaction that
    spends more than its inputs is never accepted. *)
Theorem transaction_cost_conserves tx prevouts max_fee max_rate cost :
  Forall (fun o => 0 <= value_sat o) prevouts -> Forall (fun o => 0 <= value_sat o) (tx_outputs tx) ->
  validate_transaction_cost tx prevouts max_fee max_rate = Ok cost ->
  length prevouts = length (tx_inputs tx)
  /\ total_value prevouts = total_value (tx_outputs tx) + cost_fee_sat cost
  /\ 0 <= cost_fee_sat cost <= max_fee
  /\ virtual_size tx = Ok (cost_virtual_size cost) /\ weight tx = Ok (cost_weight cost)
  /\ cost_fee_sat cost <= max_rate * cost_virtual_size cost.
Proof.
  intros Hp Ho H. unfold validate_transaction_cost, transaction_cost in H.
  run_inv. bool_to_prop. repeat match goal with Hs : sum_values _ _ = Ok _ |- _ =>
    apply sum_values_Ok in Hs as [? ?]; [|done] end.
  repeat match goal with
  | Hs : checked_sub _ _ = Some _ |- _ => apply checked_sub_Some in Hs as [? ?]
  | Hs : checked_mul _ _ _ = Some _ |- _ => apply checked_mul_Some in Hs as [? ?] end.
  subst. cbn in *.
  match goal with Hl : (_ =? _)%nat = true |- _ => apply Nat.eqb_eq in Hl; rewrite Hl end.
  repeat split; auto; lia.
Qed.

Lemma transaction_cost_conserves_witness :
  exists cost, validate_transaction_cost example_transaction [mkOutput 50200 [0x51]] 1000 5 = Ok cost
  /\ 50200 = 50000 + cost_fee_sat cost.
Proof.
  destruct (validate_transaction_cost example_transaction [mkOutput 50200 [0x51]] 1000 5) as [cost|] eqn:H;
    [|vm_compute in H; discriminate].
  exists cost. split; [reflexivity|].
  destruct (transaction_cost_conserves example_transaction [mkOutput 50200 [0x51]] 1000 5 cost)
    as (_ & Hv & _); [repeat constructor; done|repeat constructor; done|exact H|].
  cbn in Hv. lia.
Defined.

(** The dust threshold of an output is the relay fee of the bytes that
    create and spend it, at least one satoshi when the rate is positive, and
    zero for [OP_RETURN]; the size is the serialized output's own length plus
    67 bytes for a witness program and 148 for any other script. *)
Theorem dust_threshold_exact script rate :
  0 <= rate -> rate * 10159 <= U64_MAX -> len script <= MAX_SCRIPT_BYTES -> head script <> Some 0x6a ->
  exists size,
    size = len (output_bytes (mkOutput 0 script)) + (if is_witness_program script then 67 else 148)
    /\ dust_threshold script rate
       = Ok (if (rate * size / 1000 =? 0) && (0 <? rate) then 1 else rate * size / 1000).
Proof.
  intros Hr Hmax Hlen Hhead. unfold MAX_SCRIPT_BYTES in Hlen. pose proof (len_nonneg script).
  assert (len (output_bytes (mkOutput 0 script)) = 8 + compact_size_length (len script) + len script) as Hob.
  { unfold output_bytes, write_var_bytes. rewrite !len_app, write_compact_size_length.
    unfold len at 1. rewrite le_bytes_length. cbn [script_pubkey]. lia. }
  assert (1 <= compact_size_length (len script) <= 3) as Hc.
  { unfold compact_size_length, U16_MAX, U32_MAX. repeat case_match; bool_to_prop; lia. }
  eexists. split; [reflexivity|]. rewrite Hob. unfold dust_threshold, MAX_SCRIPT_BYTES.
  destruct (Z.ltb_spec 10000 (len script)); [lia|].
  rewrite bool_decide_eq_false_2 by done.
  set (spend := if is_witness_program script then 67 else 148).
  assert (67 <= spend <= 148) as Hspend by (unfold spend; case_match; lia). clearbody spend.
  do 3 (rewrite checked_add_eq by (unfold U64_MAX; lia); cbn [mbind option_bind ok_or result_bind]).
  unfold fee_for_size. rewrite checked_mul_eq by nia. done.
Qed.

