(* ===== verification/Script.v ===== *)
(** * Script: swap leaf scripts and timelocks

    The script parser, the script-number codec, the timelock checks of
    [immortal-core/src/mkt_swp_verify.rs] and the leaf constructors of
    [immortal-provider/src/pricing.rs], which must agree. *)

From Stdlib Require Import Sorted.
From S2P Require Import Prelude Text Event Wire Transaction.

Inductive ScriptInstruction : Type :=
| Opcode (op : Z)
| Push (data : list Z).

Inductive SwapLeafCondition : Type :=
| Hashlock (payment_hash : list Z)
| Cltv (required : Z)
| Csv (required : Z).

Record ParsedSwapLeaf : Type := mkLeaf {
  leaf_signing_key : list Z;
  leaf_condition : SwapLeafCondition;
}.

(** [for (index, byte) in bytes.iter().enumerate() { value |= byte << (index * 8) }];
    at most five bytes go into a [u64] and at most four into a [u32], so no
    bit is lost. *)
Fixpoint le_or (index : Z) (value : Z) (bytes : list Z) : Z :=
  match bytes with
  | [] => value
  | byte :: bytes' => le_or (index + 1) (Z.lor value (Z.shiftl byte (index * 8))) bytes'
  end.

(** The position of the code is the start of the bytes not yet read. *)
Definition read_script_length (rest : list Z) (byte_count : nat)
    : result VerificationError (Z * list Z) :=
  if (byte_count <=? length rest)%nat
  then Ok (le_or 0 0 (take byte_count rest), drop byte_count rest)
  else Err (Encoding "truncated script length").

(** The opcodes a swap script may use. *)
Definition allowed_opcode (op : Z) : bool :=
  (op =? 0) || ((0x51 <=? op) && (op <=? 0x60))
  || bool_decide (op ∈ [0x63; 0x64; 0x67; 0x68; 0x69; 0x75; 0x76; 0x82; 0x87; 0x88;
                        0xa8; 0xa9; 0xb1; 0xb2; 0xac; 0xad]).

(** The [match opcode] that finds the length of a push. *)
Definition push_length (opcode : Z) (rest : list Z)
    : result VerificationError (option (Z * list Z)) :=
  if (1 <=? opcode) && (opcode <=? 75) then Ok (Some (opcode, rest))
  else if opcode =? 0x4c then r ← read_script_length rest 1; Ok (Some r)
  else if opcode =? 0x4d then r ← read_script_length rest 2; Ok (Some r)
  else if opcode =? 0x4e then r ← read_script_length rest 4; Ok (Some r)
  else Ok None.

(** One iteration of the loop: the instruction at the front, what follows. *)
Definition parse_instruction (opcode : Z) (rest : list Z)
    : result VerificationError (ScriptInstruction * list Z) :=
  length ← push_length opcode rest;
  match length with
  | Some (length, rest) =>
      if length <=? len rest
      then Ok (Push (take (Z.to_nat length) rest), drop (Z.to_nat length) rest)
      else Err (Encoding "truncated script push")
  | None =>
      if allowed_opcode opcode then Ok (Opcode opcode, rest)
      else Err (Unsupported "swap script opcode")
  end.

(** [while position < script.len()].  Every iteration consumes at least one
    byte, so the script's length is enough fuel; running out is reported as
    an error that [parse_loop_fuel] shows unreachable. *)
Fixpoint parse_loop (fuel : nat) (rest : list Z) (instructions : list ScriptInstruction)
    : result VerificationError (list ScriptInstruction) :=
  match rest with
  | [] => Ok instructions
  | opcode :: rest =>
      match fuel with
      | O => Err (Bounds "fuel")
      | S fuel =>
          '(instruction, rest) ← parse_instruction opcode rest;
          let instructions := instructions ++ [instruction] in
          if 256 <? len instructions then Err (Bounds "swap script instruction count")
          else parse_loop fuel rest instructions
      end
  end.

Definition parse_swap_script (script : list Z) : result VerificationError (list ScriptInstruction) :=
  if is_empty script || (MAX_SCRIPT_BYTES <? len script)
  then Err (Bounds "swap script byte length")
  else parse_loop (length script) script [].

Definition parse_script_number (bytes : list Z) : result VerificationError Z :=
  let last_byte := List.last bytes 0 in
  if is_empty bytes || (5 <? len bytes) || negb (Z.land last_byte 0x80 =? 0)
  then Err (Invalid "swap timelock script number") else
  if (Z.land last_byte 0x7f =? 0)
     && ((len bytes =? 1) || (Z.land (nth (length bytes - 2) bytes 0) 0x80 =? 0))
  then Err (Encoding "noncanonical swap timelock script number") else
  ok_or (Bounds "swap timelock value") (try_from_u U32_MAX (le_or 0 0 bytes)).

(** The [match] on the instruction list; [None] is its last arm. *)
Definition leaf_shape (instructions : list ScriptInstruction)
    : option (result VerificationError (list Z * SwapLeafCondition)) :=
  match instructions with
  | [Opcode a; Push size; Opcode b; Opcode c; Push payment_hash; Opcode d; Push key; Opcode e] =>
      if (a =? 0x82) && (b =? 0x88) && (c =? 0xa8) && (d =? 0x88) && (e =? 0xac)
         && bool_decide (size = [32]) && (len payment_hash =? 32) && (len key =? 32)
      then Some (Ok (key, Hashlock payment_hash)) else None
  | [Push value; Opcode a; Opcode b; Push key; Opcode c] =>
      if (a =? 0xb1) && (b =? 0x75) && (c =? 0xac) && (len key =? 32)
      then Some (required ← parse_script_number value; Ok (key, Cltv required))
      else if (a =? 0xb2) && (b =? 0x75) && (c =? 0xac) && (len key =? 32)
      then Some (required ← parse_script_number value; Ok (key, Csv required))
      else None
  | _ => None
  end.

Section leaf.
Context `{EventCrypto}.

Definition parse_swap_leaf_script (script : list Z) : result VerificationError ParsedSwapLeaf :=
  instructions ← parse_swap_script script;
  match leaf_shape instructions with
  | None => Err (Unsupported "swap leaf is not an exact hashlock, CLTV, or CSV path")
  | Some shape =>
      '(key, condition) ← shape;
      if xonly_public_key key then Ok (mkLeaf key condition)
      else Err (Crypto "swap leaf signing key")
  end.
End leaf.

(** ** The provider's leaf constructors *)

Definition production_claim_leaf_script (payment_hash signing_key : list Z) : list Z :=
  [0x82; 0x01; 0x20; 0x88; 0xa8; 0x20] ++ payment_hash ++ [0x88; 0x20] ++ signing_key ++ [0xac].

(** [while remaining != 0]: a [u32] has four bytes. *)
Fixpoint number_bytes (fuel : nat) (remaining : Z) : list Z :=
  match fuel with
  | O => []
  | S fuel' =>
      if remaining =? 0 then []
      else Z.land remaining 0xff :: number_bytes fuel' (Z.shiftr remaining 8)
  end.

Definition script_number (value : Z) : list Z :=
  let encoded := number_bytes 4 value in
  if negb (is_empty encoded) && negb (Z.land (List.last encoded 0) 0x80 =? 0)
  then encoded ++ [0] else encoded.

Definition refund_leaf_script (refund_height : Z) (signing_key : list Z) : list Z :=
  let lock := script_number refund_height in
  [len lock] ++ lock ++ [0xb1; 0x75; 0x20] ++ signing_key ++ [0xac].

Definition production_refund_leaf_script (refund_height : Z) (signing_key : list Z)
    : option (list Z) :=
  if (refund_height =? 0) || (500000000 <=? refund_height) then None
  else Some (refund_leaf_script refund_height signing_key).

(** ** Timelocks *)

Inductive Timelock : Type := BlockHeight (height : Z) | UnixTime (time : Z).

(** [timelocks.windows(2)]. *)
Fixpoint ladder_pairs (timelocks : list Timelock) : result VerificationError unit :=
  match timelocks with
  | earlier :: ((later :: _) as tail) =>
      _ ← match earlier, later with
          | BlockHeight e, BlockHeight l =>
              if e <? l then Ok tt else Err (Invalid "non-increasing timelock ladder")
          | UnixTime e, UnixTime l =>
              if e <? l then Ok tt else Err (Invalid "non-increasing timelock ladder")
          | _, _ => Err (Invalid "mixed timelock units")
          end;
      ladder_pairs tail
  | _ => Ok tt
  end.

Definition validate_timelock_ladder (timelocks : list Timelock) : result VerificationError unit :=
  if (len timelocks <? 2) || (16 <? len timelocks)
  then Err (Bounds "timelock ladder length") else ladder_pairs timelocks.

Definition check_cltv (lock_time : Timelock) (transaction_lock_time : Z) : bool :=
  match lock_time with
  | BlockHeight required =>
      if transaction_lock_time <? 500000000 then required <=? transaction_lock_time else false
  | UnixTime required =>
      if 500000000 <=? transaction_lock_time then required <=? transaction_lock_time else false
  end.

Definition DISABLE_FLAG : Z := Z.shiftl 1 31.
Definition TYPE_FLAG : Z := Z.shiftl 1 22.
Definition MASK : Z := 0x0000ffff.

Definition check_csv (required sequence : Z) : bool :=
  (Z.land required DISABLE_FLAG =? 0)
  && (Z.land sequence DISABLE_FLAG =? 0)
  && (Z.land required TYPE_FLAG =? Z.land sequence TYPE_FLAG)
  && (Z.land required MASK <=? Z.land sequence MASK).

(** ** Script numbers *)

Lemma le_or_value index value bytes :
  0 <= index -> 0 <= value < 256 ^ index -> Forall is_byte bytes ->
  le_or index value bytes = value + 256 ^ index * le_value bytes.
Proof.
  intros Hi Hv Hb. revert index value Hi Hv.
  induction Hb as [|b bytes Hb _ IH]; intros index value Hi Hv; cbn [le_or le_value]; [lia|].
  unfold is_byte in Hb. assert (256 ^ index = 2 ^ (index * 8)) as Hp.
  { rewrite (Z.mul_comm index), Z.pow_mul_r by lia. done. }
  assert (Z.lor value (Z.shiftl b (index * 8)) = value + 256 ^ index * b) as ->.
  { rewrite Z.lor_comm, lor_shiftl by lia. rewrite Hp. lia. }
  rewrite IH; [rewrite Z.pow_add_r by lia; lia|lia|].
  rewrite Z.pow_add_r by lia. change (256 ^ 1) with 256. nia.
Qed.

Lemma le_or_eq bytes : Forall is_byte bytes -> le_or 0 0 bytes = le_value bytes.
Proof. intros Hb. rewrite le_or_value by (done || lia). lia. Qed.

Lemma le_value_zero l : Forall is_byte l -> le_value l = 0 -> List.last l 0 = 0.
Proof.
  induction 1 as [|b l Hb Hl IH]; [done|]. cbn [le_value]. unfold is_byte in Hb.
  pose proof (le_value_range l Hl). intros Hz. destruct l; [cbn in *; lia|]. apply IH. lia.
Qed.

(** Byte strings without a trailing zero are determined by their value. *)
Lemma le_value_inj l k :
  Forall is_byte l -> Forall is_byte k -> (l = [] \/ List.last l 0 <> 0) -> (k = [] \/ List.last k 0 <> 0) ->
  le_value l = le_value k -> l = k.
Proof.
  intros Hl. revert k. induction Hl as [|b l Hb Hl IH]; intros k Hk Hll Hlk Hv.
  { destruct Hlk as [->|Hn]; [done|]. destruct Hn. by apply le_value_zero. }
  destruct k as [|c k]; [destruct Hll as [|Hn]; [done|]; destruct Hn; apply le_value_zero; [by constructor|done]|].
  apply Forall_cons in Hk as [Hc Hk]. cbn [le_value] in Hv. unfold is_byte in *.
  assert (b = c /\ le_value l = le_value k) as [-> Hv'].
  { pose proof (le_value_range l Hl). pose proof (le_value_range k Hk). lia. }
  f_equal. apply IH; [done| | |done].
  - destruct l; [by left|]. right. destruct Hll as [|Hn]; [done|exact Hn].
  - destruct k; [by left|]. right. destruct Hlk as [|Hn]; [done|exact Hn].
Qed.

Lemma number_bytes_spec fuel v :
  0 <= v < 256 ^ Z.of_nat fuel ->
  Forall is_byte (number_bytes fuel v) /\ le_value (number_bytes fuel v) = v
  /\ (number_bytes fuel v = [] \/ List.last (number_bytes fuel v) 0 <> 0)
  /\ (length (number_bytes fuel v) <= fuel)%nat.
Proof.
  revert v. induction fuel as [|fuel IH]; intros v Hv; cbn [number_bytes].
  { cbn in Hv. repeat split; [constructor|cbn; lia|by left|done]. }
  destruct (Z.eqb_spec v 0) as [->|Hne]; [repeat split; [constructor|by left|cbn; lia]|].
  assert (Z.land v 0xff = v mod 256) as Hm by (apply (land_mask v 8); lia).
  assert (Z.shiftr v 8 = v / 256) as Hs by (rewrite Z.shiftr_div_pow2; [done|lia]).
  rewrite Nat2Z.inj_succ, Z.pow_succ_r in Hv by lia. rewrite Hm, Hs.
  destruct (IH (v / 256)) as (Hb & Hval & Hlast & Hlen).
  { split; [apply Z.div_pos; lia|apply Z.div_lt_upper_bound; lia]. }
  split; [constructor; [apply Z.mod_pos_bound; lia|done]|].
  split; [cbn [le_value]; rewrite Hval; pose proof (Z.div_mod v 256); lia|].
  split; [right|cbn; lia].
  destruct (number_bytes fuel (v / 256)) as [|c l] eqn:E.
  - cbn in *. pose proof (Z.div_mod v 256). lia.
  - destruct Hlast as [|Hlast]; [done|exact Hlast].
Qed.

Lemma land_high b : is_byte b -> (Z.land b 0x80 =? 0) = (b <? 128).
Proof.
  intros Hb. assert (forall b, is_byte b -> Bool.eqb (Z.land b 0x80 =? 0) (b <? 128) = true) as Hall
    by (apply byte_forall; vm_compute; done).
  by apply eqb_prop, Hall.
Qed.

Lemma land_low b : is_byte b -> b < 128 -> (Z.land b 0x7f =? 0) = (b =? 0).
Proof.
  intros Hb Hlt. assert (Z.land b 0x7f = b mod 128) as -> by (apply (land_mask b 7); lia).
  unfold is_byte in Hb. by rewrite Z.mod_small by lia.
Qed.

Lemma last_byte l : Forall is_byte l -> is_byte (List.last l 0).
Proof. induction 1 as [|b l Hb Hl IH]; [done|]. by destruct l. Qed.

Lemma nth_pred_last (l : list Z) d : nth (length l - 1) l d = List.last l d.
Proof.
  induction l as [|b [|c l] IH]; [done..|]. cbn [length] in *. rewrite Nat.sub_succ, Nat.sub_0_r in *.
  exact IH.
Qed.

Lemma le_value_snoc l b : le_value (l ++ [b]) = le_value l + 256 ^ Z.of_nat (length l) * b.
Proof.
  induction l as [|c l IH]; cbn [app le_value length]; [cbn; lia|].
  rewrite IH, Nat2Z.inj_succ, Z.pow_succ_r by lia. lia.
Qed.

Lemma script_number_spec v :
  1 <= v <= U32_MAX ->
  Forall is_byte (script_number v) /\ 1 <= len (script_number v) <= 5
  /\ parse_script_number (script_number v) = Ok v.
Proof.
  unfold U32_MAX. intros Hv. destruct (number_bytes_spec 4 v) as (Hb & Hval & Hlast & Hlen); [cbn; lia|].
  unfold script_number. set (e := number_bytes 4 v) in *. clearbody e.
  assert (e <> []) as Hne by (intros ->; cbn in Hval; lia).
  destruct Hlast as [|Hlast]; [done|]. pose proof (last_byte e Hb) as Hlb.
  assert (1 <= length e)%nat as Hlen1 by (destruct e; [done|cbn; lia]).
  assert (is_empty e = false) as Hem by (by destruct e).
  rewrite Hem, land_high by done. cbn [negb andb]. unfold parse_script_number, len.
  destruct (Z.ltb_spec (List.last e 0) 128) as [Hlow|Hhigh]; cbn [negb].
  - split; [done|]. split; [lia|]. rewrite Hem, land_high, land_low by (done || lia). cbn [orb].
    decide_if. rewrite le_or_eq, Hval by done. by rewrite try_from_u_eq by (unfold U32_MAX; lia).
  - assert (List.last (e ++ [0]) 0 = 0) as Hl0 by apply last_last.
    assert (Forall is_byte (e ++ [0])) as Hb0 by (apply Forall_app; by split; [|repeat constructor]).
    assert (nth (length (e ++ [0]) - 2) (e ++ [0]) 0 = List.last e 0) as Hprev.
    { rewrite length_app. cbn [length]. rewrite app_nth1 by lia.
      replace (length e + 1 - 2)%nat with (length e - 1)%nat by lia. by rewrite nth_pred_last. }
    split; [done|]. rewrite Hl0, Hprev, (land_high (List.last e 0)), length_app by done. cbn [length].
    split; [lia|]. replace (is_empty (e ++ [0])) with false by (by destruct e).
    change (Z.land 0 0x80) with 0. change (Z.land 0 0x7f) with 0. cbn [orb].
    decide_if. rewrite le_or_eq, le_value_snoc, Hval, Z.mul_0_r, Z.add_0_r by done.
    by rewrite try_from_u_eq by (unfold U32_MAX; lia).
Qed.

Lemma last_snoc_cases (l : list Z) : l <> [] -> exists k, l = k ++ [List.last l 0].
Proof. intros Hne. exists (removelast l). by apply app_removelast_last. Qed.

Lemma parse_script_number_canonical bytes v :
  Forall is_byte bytes -> parse_script_number bytes = Ok v ->
  1 <= v <= U32_MAX /\ bytes = script_number v.
Proof.
  intros Hb. unfold parse_script_number, len. pose proof (last_byte bytes Hb) as Hlb.
  destruct (is_empty bytes) eqn:Hem; cbn [orb]; [done|].
  rewrite land_high, le_or_eq by done. intros H. run_inv. bool_to_prop.
  match goal with Ht : try_from_u _ _ = Some _ |- _ => apply try_from_u_Some in Ht as [-> Hmax] end.
  match goal with Hg : _ && _ = false |- _ => rename Hg into Hcanon end.
  rewrite land_low in Hcanon by done. pose proof (le_value_range bytes Hb) as Hr.
  destruct (last_snoc_cases bytes) as [k Hk]; [by destruct bytes|].
  assert (exists e, Forall is_byte e /\ List.last e 0 <> 0 /\ le_value e = le_value bytes
    /\ bytes = if List.last e 0 <? 128 then e else e ++ [0]) as (e & He & Hlast & Hval & ->).
  { destruct (Z.eqb_spec (List.last bytes 0) 0) as [Hz|Hnz].
    - cbn [andb] in Hcanon. apply orb_false_iff in Hcanon as [_ Hprev]. rewrite Hz in Hk. subst bytes. exists k.
      apply Forall_app in Hb as [Hbk _].
      assert (k <> []) as Hkne by (intros ->; done).
      assert (nth (length (k ++ [0]) - 2) (k ++ [0]) 0 = List.last k 0) as Hn.
      { assert (1 <= length k)%nat by (destruct k; [done|cbn; lia]).
        rewrite length_app. cbn [length]. rewrite app_nth1 by lia.
        replace (length k + 1 - 2)%nat with (length k - 1)%nat by lia. by rewrite nth_pred_last. }
      rewrite Hn, land_high in Hprev by by apply last_byte.
      bool_to_prop. split; [done|]. split; [lia|]. split; [by rewrite le_value_snoc, Z.mul_0_r, Z.add_0_r|].
      by rewrite (proj2 (Z.ltb_ge _ _)).
    - exists bytes. split; [done|]. split; [done|]. split; [done|]. by decide_if. }
  rewrite <- Hval in *.
  assert (1 <= le_value e) as Hpos.
  { destruct (Z.eq_dec (le_value e) 0) as [Hz|]; [|pose proof (le_value_range e He); lia].
    by apply le_value_zero in Hz. }
  split; [lia|]. unfold script_number.
  destruct (number_bytes_spec 4 (le_value e)) as (Hb' & Hval' & Hlast' & _); [unfold U32_MAX in *; cbn; lia|].
  assert (number_bytes 4 (le_value e) = e) as ->.
  { apply le_value_inj; [done..| |done]. by right. }
  rewrite land_high by by apply last_byte.
  replace (is_empty e) with false by (by destruct e). cbn [negb andb].
  by destruct (List.last e 0 <? 128).
Qed.

(** ** The parser *)

Lemma parse_instruction_push n data rest :
  1 <= n <= 75 -> len data = n -> parse_instruction n (data ++ rest) = Ok (Push data, rest).
Proof.
  intros Hn Hl. unfold parse_instruction, push_length. decide_if. cbn [mbind result_bind].
  unfold len in *. rewrite length_app. decide_if.
  replace (Z.to_nat n) with (length data) by lia. by rewrite take_app_length, drop_app_length.
Qed.

Lemma parse_instruction_byte b rest : parse_instruction 1 (b :: rest) = Ok (Push [b], rest).
Proof. by apply (parse_instruction_push 1 [b]). Qed.

Lemma push_length_suffix opcode rest n rest' :
  push_length opcode rest = Ok (Some (n, rest')) -> (length rest' <= length rest)%nat.
Proof.
  unfold push_length, read_script_length. intros H.
  repeat case_match; cbn in H; simplify_eq; rewrite ?length_drop; lia.
Qed.

Lemma parse_instruction_suffix opcode rest i rest' :
  parse_instruction opcode rest = Ok (i, rest') -> (length rest' <= length rest)%nat.
Proof.
  unfold parse_instruction. destruct (push_length opcode rest) as [[[n r]|]|] eqn:Hp; cbn; [| |done].
  - apply push_length_suffix in Hp. case_match; [|done]. intros [= <- <-]. rewrite length_drop. lia.
  - case_match; [|done]. by intros [= <- <-].
Qed.

(** The script's length is enough fuel: the result is the same for any more. *)
Lemma parse_loop_fuel fuel fuel' rest acc :
  (length rest <= fuel)%nat -> (length rest <= fuel')%nat ->
  parse_loop fuel rest acc = parse_loop fuel' rest acc.
Proof.
  revert fuel' rest acc. induction fuel as [|fuel IH]; intros fuel' rest acc Hf Hf';
    destruct rest as [|op rest]; try (by destruct fuel'); cbn [length] in *; [lia|].
  destruct fuel' as [|fuel']; [lia|]. cbn [parse_loop].
  destruct (parse_instruction op rest) as [[i rest']|] eqn:Hi; cbn; [|done].
  apply parse_instruction_suffix in Hi. case_match; [done|]. apply IH; lia.
Qed.

Lemma parse_loop_cons fuel op rest i rest' acc :
  (length (op :: rest) <= fuel)%nat -> parse_instruction op rest = Ok (i, rest') -> len acc < 256 ->
  parse_loop fuel (op :: rest) acc = parse_loop (length rest') rest' (acc ++ [i]).
Proof.
  intros Hf Hi Hacc. destruct fuel as [|fuel]; [cbn in Hf; lia|]. cbn [parse_loop length] in *.
  rewrite Hi. cbn. unfold len in *. rewrite length_app. cbn [length].
  decide_if. apply parse_instruction_suffix in Hi. apply parse_loop_fuel; lia.
Qed.

(** Read one instruction of a script whose front is known. *)
Ltac next_instruction :=
  erewrite parse_loop_cons;
  [|cbn [length]; rewrite ?length_app; lia
   |first [reflexivity | apply parse_instruction_byte | apply parse_instruction_push; [lia|unfold len; lia]]
   |unfold len; cbn [length app]; lia].

Lemma parse_claim_leaf payment_hash key :
  length payment_hash = 32%nat -> length key = 32%nat ->
  parse_swap_script (production_claim_leaf_script payment_hash key)
  = Ok [Opcode 0x82; Push [32]; Opcode 0x88; Opcode 0xa8; Push payment_hash; Opcode 0x88;
        Push key; Opcode 0xac].
Proof.
  intros Hp Hk. unfold parse_swap_script.
  rewrite (proj2 (count_guard _ MAX_SCRIPT_BYTES)).
  2: { unfold production_claim_leaf_script, len, MAX_SCRIPT_BYTES. rewrite !length_app. cbn. lia. }
  unfold production_claim_leaf_script. cbn [app]. do 8 next_instruction. done.
Qed.

Lemma parse_refund_leaf height key :
  1 <= height <= U32_MAX -> length key = 32%nat ->
  parse_swap_script (refund_leaf_script height key)
  = Ok [Push (script_number height); Opcode 0xb1; Opcode 0x75; Push key; Opcode 0xac].
Proof.
  intros Hh Hk. destruct (script_number_spec height Hh) as (Hb & Hlen & _). unfold parse_swap_script.
  rewrite (proj2 (count_guard _ MAX_SCRIPT_BYTES)).
  2: { unfold refund_leaf_script. rewrite !len_app. unfold len in *. cbn. unfold MAX_SCRIPT_BYTES. lia. }
  unfold refund_leaf_script. cbn [app]. 
  erewrite parse_loop_cons; [|done|apply parse_instruction_push; [unfold len in *; lia|done]|done].
  do 4 next_instruction. done.
Qed.

(** Block heights below 500,000,000 take at most four bytes. *)
Lemma height_number_length height : 0 <= height < 500000000 -> len (script_number height) <= 4.
Proof.
  intros Hh. unfold script_number.
  destruct (number_bytes_spec 4 height) as (Hb & Hv & _ & Hl); [cbn; lia|].
  destruct (number_bytes 4 height) as [|a [|b [|c [|d [|e l]]]]]; cbn in Hl; try lia.
  all: unfold len; cbn [is_empty negb andb];
    try (case_match eqn:Hhigh); rewrite ?length_app; cbn [length]; try lia.
  cbn [List.last] in Hhigh. rewrite !Forall_cons in Hb. destruct Hb as (Ha & Hb & Hc & Hd & _).
  rewrite land_high in Hhigh by done. unfold is_byte in *. cbn [le_value] in Hv. bool_to_prop. lia.
Qed.

Section claims.
Context `{EventCrypto}.

(** The leaf scripts the provider builds for a funded quote are read by
    the verifier as exactly the condition and key they were built from: the
    claim leaf as the hashlock on the payment hash, the refund leaf as the
    block-height lock; a claim leaf is 73 bytes and a refund leaf at most
    41, the sizes pricing budgets for; and a refund leaf is refused only for
    height zero and for values that are times and not heights. *)
Theorem leaf_scripts_roundtrip payment_hash key height :
  length payment_hash = 32%nat -> length key = 32%nat -> xonly_public_key key = true -> 0 <= height ->
  parse_swap_leaf_script (production_claim_leaf_script payment_hash key)
    = Ok (mkLeaf key (Hashlock payment_hash))
  /\ len (production_claim_leaf_script payment_hash key) = 73
  /\ match production_refund_leaf_script height key with
     | Some script => parse_swap_leaf_script script = Ok (mkLeaf key (Cltv height)) /\ len script <= 41
     | None => height = 0 \/ 500000000 <= height
     end.
Proof.
  intros Hp Hk Hx H0.
  assert ((len payment_hash =? 32) = true) as Hp' by (unfold len; by rewrite Hp).
  assert ((len key =? 32) = true) as Hk' by (unfold len; by rewrite Hk). split; [|split].
  - unfold parse_swap_leaf_script. rewrite parse_claim_leaf by done. cbn [mbind result_bind leaf_shape].
    rewrite Hp', Hk', bool_decide_eq_true_2 by done. cbn. by rewrite Hx.
  - unfold production_claim_leaf_script. rewrite !len_app. unfold len. rewrite Hp, Hk. done.
  - unfold production_refund_leaf_script.
    destruct (Z.eqb_spec height 0); cbn [orb]; [lia|].
    destruct (Z.leb_spec 500000000 height); [lia|].
    assert (1 <= height <= U32_MAX) as Hh by (unfold U32_MAX; lia).
    destruct (script_number_spec height Hh) as (_ & _ & Hn). split.
    + unfold parse_swap_leaf_script. rewrite parse_refund_leaf by done.
      cbn [mbind result_bind leaf_shape]. rewrite Hk', Hn. cbn. by rewrite Hx.
    + unfold refund_leaf_script. rewrite !len_app. pose proof (height_number_length height ltac:(lia)).
      change (len [0xb1; 0x75; 0x20]) with 3. change (len [0xac]) with 1.
      change (len [len (script_number height)]) with 1. unfold len at 2. rewrite Hk. lia.
Qed.
End claims.

Lemma leaf_scripts_roundtrip_witness :
  let _ := toy_crypto in
  exists script, production_refund_leaf_script 800000 (replicate 32 7) = Some script
  /\ parse_swap_leaf_script script = Ok (mkLeaf (replicate 32 7) (Cltv 800000)).
Proof.
  intros ?. eexists. split; [reflexivity|].
  apply (leaf_scripts_roundtrip (replicate 32 1) (replicate 32 7) 800000); [reflexivity..|lia].
Defined.

(** Script numbers are canonical: the provider's [script_number] and the
    verifier's [parse_script_number] are inverse on the positive 32-bit
    values, and no other byte string is accepted. *)
Theorem script_number_bijection bytes v :
  Forall is_byte bytes ->
  (parse_script_number bytes = Ok v <-> 1 <= v <= U32_MAX /\ bytes = script_number v).
Proof.
  intros Hb. split; [by apply parse_script_number_canonical|].
  intros [Hv ->]. by apply script_number_spec.
Qed.


(** ** Ladders *)

Inductive same_unit_lt : Timelock -> Timelock -> Prop :=
| heights_lt e l : e < l -> same_unit_lt (BlockHeight e) (BlockHeight l)
| times_lt e l : e < l -> same_unit_lt (UnixTime e) (UnixTime l).

Lemma same_unit_lt_trans a b c : same_unit_lt a b -> same_unit_lt b c -> same_unit_lt a c.
Proof. intros Hab Hbc. inversion Hab; subst; inversion Hbc; subst; constructor; lia. Qed.

Lemma ladder_pairs_Ok l : ladder_pairs l = Ok tt <-> Sorted same_unit_lt l.
Proof.
  induction l as [|a [|b l] IH]; [by split; [constructor|]|by split; [by repeat constructor|]|].
  cbn [ladder_pairs]. rewrite bind_Ok. split.
  - intros ([] & Hab & Hl). constructor; [by apply IH|]. constructor.
    destruct a, b; try discriminate Hab; run_inv; constructor; lia.
  - inversion 1 as [|? ? Hl Hab]; subst. exists tt. split; [|by apply IH].
    inversion Hab as [|? ? Hlt]; subst. inversion Hlt; subst; by decide_if.
Qed.

(** A ladder is accepted exactly when it has 2 to 16 rungs, all heights
    or all times, strictly increasing; so any two rungs, adjacent or not, are
    in order, and every earlier path expires before every later one. *)
Theorem timelock_ladder_exact timelocks :
  validate_timelock_ladder timelocks = Ok tt <->
  2 <= len timelocks <= 16
  /\ forall i j a b, (i < j)%nat -> timelocks !! i = Some a -> timelocks !! j = Some b ->
       same_unit_lt a b.
Proof.
  unfold validate_timelock_ladder.
  destruct ((len timelocks <? 2) || (16 <? len timelocks)) eqn:Hg.
  { split; [done|]. intros [Hl _]. lia. }
  bool_to_prop. rewrite ladder_pairs_Ok. split.
  - intros Hs. split; [lia|]. clear -Hs. apply Sorted_StronglySorted in Hs; [|exact same_unit_lt_trans].
    induction Hs as [|x l Hs IH Hall]; intros i j a b Hij Ha Hb; [done|].
    destruct j as [|j]; [lia|]. cbn in Hb. destruct i as [|i].
    + injection Ha as <-. rewrite Forall_forall in Hall. by eapply Hall, list_elem_of_lookup_2.
    + apply (IH i j); [lia|done..].
  - intros [_ Hord]. clear -Hord. induction timelocks as [|x l IH]; [constructor|].
    constructor.
    + apply IH. intros i j a b Hij Ha Hb. apply (Hord (S i) (S j)); [lia|done..].
    + destruct l; constructor. apply (Hord 0%nat 1%nat); [lia|done..].
Qed.
