(* ===== verification/Taproot.v ===== *)
(** * Taproot: commitments, signature messages and swap witnesses

    The tagged hashes, the control block check, the BIP-341 signature
    messages and the claim and refund witness functions of
    [immortal-core/src/mkt_swp_verify.rs].  An [XOnlyPublicKey] is its 32-byte
    serialization; tweak addition on the curve is the operation of the class
    [TweakAdd]. *)

From S2P Require Import Prelude Text Regroup Event Wire Transaction Script.

Definition TAPROOT_LEAF_VERSION : Z := 0xc0.
Definition TAPROOT_SIGHASH_DEFAULT : Z := 0.
Definition TAPROOT_KEY_VERSION : Z := 0.
Definition TAPROOT_NO_CODE_SEPARATOR : Z := U32_MAX.

(** [CURVE_ORDER] as a number. *)
Definition CURVE_ORDER : Z :=
  0xfffffffffffffffffffffffffffffffebaaedce6af48a03bbfd25e8cd0364141.

(** The number a big-endian byte string spells. *)
Definition be_value (l : list Z) : Z := value 8 l.

Inductive Parity : Type := Even | Odd.
#[export] Instance Parity_eq_dec : EqDecision Parity.
Proof. solve_decision. Defined.

(** The scalar and tweak operations of the secp256k1 crate: a [Scalar] is its
    number. *)
Class TweakAdd : Type := {
  (** [Scalar::from_be_bytes] *)
  scalar_from_be_bytes : list Z -> option Z;
  (** [XOnlyPublicKey::add_tweak] *)
  add_tweak : list Z -> Z -> option (list Z * Parity);
}.

(** [left <= right] on byte arrays: lexicographic. *)
Fixpoint bytes_le (l r : list Z) : bool :=
  match l, r with
  | [], _ => true
  | _ :: _, [] => false
  | a :: l', b :: r' => (a <? b) || ((a =? b) && bytes_le l' r')
  end.

(** [constant_time_equal]: the accumulated difference. *)
Definition constant_time_equal (left right : list Z) : bool :=
  if negb (length left =? length right)%nat then false
  else fold_left (fun difference p => Z.lor difference (Z.lxor p.1 p.2)) (zip left right) 0 =? 0.

Record ValidatedTaprootWitness : Type := mkValidated {
  vw_signature : list Z;
  vw_signing_key : list Z;
  vw_sighash : list Z;
}.

(** [chunks_exact(32)]; fuel is the number of bytes. *)
Fixpoint chunks32 (fuel : nat) (l : list Z) : list (list Z) :=
  match fuel with
  | O => []
  | S fuel' => if (32 <=? length l)%nat then take 32 l :: chunks32 fuel' (drop 32 l) else []
  end.

Section taproot.
Context `{EventCrypto, TweakAdd}.

Definition verify_preimage (preimage payment_hash : list Z) : bool :=
  constant_time_equal (sha256 preimage) payment_hash.

Definition tagged_hash (tag : string) (message : list Z) : list Z :=
  let tag_hash := sha256 (as_bytes tag) in
  sha256 (tag_hash ++ tag_hash ++ message).

Definition tapleaf_hash (leaf_version : Z) (script : list Z) : result VerificationError (list Z) :=
  if negb (Z.land leaf_version 1 =? 0) || (MAX_SCRIPT_BYTES <? len script)
  then Err (Invalid "tapleaf version or script length") else
  Ok (tagged_hash "TapLeaf" ([leaf_version] ++ write_compact_size (len script) ++ script)).

Definition tapbranch_hash (left right : list Z) : list Z :=
  let '(first, second) := if bytes_le left right then (left, right) else (right, left) in
  tagged_hash "TapBranch" (first ++ second).

Definition taproot_output_key (internal_key : list Z) (merkle_root : option (list Z))
    : result VerificationError (list Z * Parity) :=
  let message := internal_key ++ default [] merkle_root in
  tweak ← ok_or (Crypto "taproot tweak exceeds curve order")
            (scalar_from_be_bytes (tagged_hash "TapTweak" message));
  ok_or (Crypto "taproot output key tweak failed") (add_tweak internal_key tweak).

Definition control_block_length_ok (control_block : list Z) : bool :=
  negb ((len control_block <? 33) || (33 + 32 * 128 <? len control_block)
        || negb ((len control_block - 33) mod 32 =? 0)).

Definition verify_control_block (output_key script control_block : list Z)
    : result VerificationError unit :=
  if negb (control_block_length_ok control_block)
  then Err (Encoding "taproot control block length") else
  let byte0 := nth 0 control_block 0 in
  let leaf_version := Z.land byte0 0xfe in
  if leaf_version =? 0x50 then Err (Invalid "taproot annex leaf version") else
  let internal_key := take 32 (drop 1 control_block) in
  if negb (xonly_public_key internal_key) then Err (Crypto "taproot internal key") else
  root ← tapleaf_hash leaf_version script;
  let siblings := drop 33 control_block in
  let root := fold_left tapbranch_hash (chunks32 (length siblings) siblings) root in
  '(candidate, parity) ← taproot_output_key internal_key (Some root);
  let expected_parity := if Z.land byte0 1 =? 0 then Even else Odd in
  if negb (bool_decide (candidate = output_key)) || negb (bool_decide (parity = expected_parity))
  then Err (Invalid "taproot control block commitment") else Ok tt.

(** ** Spend checks and signature messages *)

Definition taproot_output_key_from_script_pubkey (script : list Z)
    : result VerificationError (list Z) :=
  output_key ← ok_or (Invalid "prevout is not a v1 Taproot output")
                 (strip_prefix_bytes [0x51; 0x20] script);
  if negb (length output_key =? 32)%nat then Err (Encoding "Taproot output key length") else
  if xonly_public_key output_key then Ok output_key else Err (Crypto "Taproot output key").

Definition leaf_version_of (control_block : list Z) : option Z :=
  (fun byte => Z.land byte 0xfe) <$> head control_block.

(** The checks both spend paths share, up to the input itself. *)
Definition validate_prevouts (tx : Transaction) (prevouts : list TransactionOutput)
    (input_index : nat) : result VerificationError TransactionInput :=
  if is_empty (tx_inputs tx) || (MAX_INPUTS <? len (tx_inputs tx))
     || negb (length (tx_inputs tx) =? length prevouts)%nat
  then Err (Invalid "Taproot prevout count") else
  if is_empty (tx_outputs tx) || (MAX_OUTPUTS <? len (tx_outputs tx))
  then Err (Bounds "Taproot transaction output count") else
  input ← ok_or (Bounds "Taproot input index") (tx_inputs tx !! input_index);
  if negb (is_empty (script_sig input)) then Err (Invalid "Taproot scriptSig must be empty")
  else Ok input.

Definition validate_prevout_scripts (prevouts : list TransactionOutput)
    : result VerificationError unit :=
  if existsb (fun o => MAX_SCRIPT_BYTES <? len (script_pubkey o)) prevouts
  then Err (Bounds "Taproot prevout scriptPubKey length") else Ok tt.

Definition prevout_at (prevouts : list TransactionOutput) (input_index : nat) : TransactionOutput :=
  nth input_index prevouts (mkOutput 0 []).

Definition validate_taproot_spend_inputs (tx : Transaction) (prevouts : list TransactionOutput)
    (input_index : nat) (script control_block : list Z) : result VerificationError unit :=
  _ ← validate_prevouts tx prevouts input_index;
  if existsb (fun i => MAX_SCRIPT_BYTES <? len (script_sig i)) (tx_inputs tx)
  then Err (Bounds "Taproot scriptSig byte length") else
  _ ← validate_prevout_scripts prevouts;
  output_key ← taproot_output_key_from_script_pubkey
                 (script_pubkey (prevout_at prevouts input_index));
  if negb (bool_decide (leaf_version_of control_block = Some TAPROOT_LEAF_VERSION))
  then Err (Unsupported "Taproot leaf version") else
  _ ← parse_swap_leaf_script script;
  verify_control_block output_key script control_block.

Definition validate_taproot_key_spend_inputs (tx : Transaction) (prevouts : list TransactionOutput)
    (input_index : nat) : result VerificationError unit :=
  _ ← validate_prevouts tx prevouts input_index;
  if existsb (fun i => negb (is_empty (script_sig i))) (tx_inputs tx)
  then Err (Invalid "Taproot scriptSig must be empty") else
  _ ← validate_prevout_scripts prevouts;
  _ ← taproot_output_key_from_script_pubkey (script_pubkey (prevout_at prevouts input_index));
  Ok tt.

(** What both messages hash: the outpoints, amounts, scripts, sequences and
    outputs of the whole transaction. *)
Definition common_message (tx : Transaction) (prevouts : list TransactionOutput)
    : result VerificationError (list Z) :=
  serialized_outputs ← try_map output_serialize (tx_outputs tx);
  let pairs := zip (tx_inputs tx) prevouts in
  Ok ([0] ++ [TAPROOT_SIGHASH_DEFAULT]
      ++ le_bytes 4 (i32_to_u32 (tx_version tx)) ++ le_bytes 4 (tx_lock_time tx)
      ++ sha256 (concat ((fun p => previous_txid p.1 ++ le_bytes 4 (previous_output p.1)) <$> pairs))
      ++ sha256 (concat ((fun p => le_bytes 8 (value_sat p.2)) <$> pairs))
      ++ sha256 (concat ((fun p => write_var_bytes (script_pubkey p.2)) <$> pairs))
      ++ sha256 (concat ((fun p => le_bytes 4 (sequence p.1)) <$> pairs))
      ++ sha256 (concat serialized_outputs)).

Definition taproot_script_spend_signature_message (tx : Transaction)
    (prevouts : list TransactionOutput) (input_index : nat) (script control_block : list Z)
    : result VerificationError (list Z) :=
  _ ← validate_taproot_spend_inputs tx prevouts input_index script control_block;
  index ← ok_or (Bounds "Taproot input index") (try_from_u U32_MAX (Z.of_nat input_index));
  common ← common_message tx prevouts;
  leaf ← tapleaf_hash TAPROOT_LEAF_VERSION script;
  Ok (common ++ [2] ++ le_bytes 4 index ++ leaf ++ [TAPROOT_KEY_VERSION]
      ++ le_bytes 4 TAPROOT_NO_CODE_SEPARATOR).

Definition taproot_script_spend_sighash (tx : Transaction) (prevouts : list TransactionOutput)
    (input_index : nat) (script control_block : list Z) : result VerificationError (list Z) :=
  message ← taproot_script_spend_signature_message tx prevouts input_index script control_block;
  Ok (tagged_hash "TapSighash" message).

Definition taproot_key_spend_signature_message (tx : Transaction)
    (prevouts : list TransactionOutput) (input_index : nat) : result VerificationError (list Z) :=
  _ ← validate_taproot_key_spend_inputs tx prevouts input_index;
  index ← ok_or (Bounds "Taproot input index") (try_from_u U32_MAX (Z.of_nat input_index));
  common ← common_message tx prevouts;
  Ok (common ++ [0] ++ le_bytes 4 index).

Definition taproot_key_spend_sighash (tx : Transaction) (prevouts : list TransactionOutput)
    (input_index : nat) : result VerificationError (list Z) :=
  message ← taproot_key_spend_signature_message tx prevouts input_index;
  Ok (tagged_hash "TapSighash" message).

(** ** Witnesses *)

Definition validate_control_block_shape (control_block : list Z) : result VerificationError unit :=
  if negb (control_block_length_ok control_block)
     || negb (bool_decide (leaf_version_of control_block = Some TAPROOT_LEAF_VERSION))
  then Err (Encoding "Taproot control block shape") else Ok tt.

Definition exact_default_signature (signature : list Z) : result VerificationError (list Z) :=
  if (length signature =? 64)%nat then Ok signature
  else Err (Invalid "Taproot signature must use implicit SIGHASH_DEFAULT").

Definition assemble_taproot_claim_witness (signature preimage script control_block : list Z)
    : result VerificationError (list (list Z)) :=
  leaf ← parse_swap_leaf_script script;
  match leaf_condition leaf with
  | Hashlock payment_hash =>
      if negb (verify_preimage preimage payment_hash) then Err (Invalid "claim witness preimage") else
      _ ← validate_control_block_shape control_block;
      Ok [signature; preimage; script; control_block]
  | _ => Err (Invalid "claim witness requires hashlock leaf")
  end.

Definition assemble_taproot_refund_witness (signature script control_block : list Z)
    : result VerificationError (list (list Z)) :=
  leaf ← parse_swap_leaf_script script;
  match leaf_condition leaf with
  | Hashlock _ => Err (Invalid "refund witness requires timelock leaf")
  | Cltv _ | Csv _ =>
      _ ← validate_control_block_shape control_block;
      Ok [signature; script; control_block]
  end.

Definition validate_taproot_claim_witness (tx : Transaction) (prevouts : list TransactionOutput)
    (input_index : nat) (expected_script expected_control_block : list Z)
    : result VerificationError ValidatedTaprootWitness :=
  input ← ok_or (Bounds "claim witness input index") (tx_inputs tx !! input_index);
  match witness input with
  | [signature; preimage; script; control_block] =>
      signature ← exact_default_signature signature;
      if negb (length preimage =? 32)%nat then Err (Invalid "claim preimage length") else
      if negb (bool_decide (script = expected_script))
         || negb (bool_decide (control_block = expected_control_block))
      then Err (Invalid "claim witness path mismatch") else
      leaf ← parse_swap_leaf_script script;
      match leaf_condition leaf with
      | Hashlock payment_hash =>
          if negb (verify_preimage preimage payment_hash)
          then Err (Invalid "claim witness preimage") else
          sighash ← taproot_script_spend_sighash tx prevouts input_index script control_block;
          Ok (mkValidated signature (leaf_signing_key leaf) sighash)
      | _ => Err (Invalid "claim witness leaf condition")
      end
  | _ => Err (Invalid "claim witness shape")
  end.

Definition validate_taproot_refund_witness (tx : Transaction) (prevouts : list TransactionOutput)
    (input_index : nat) (expected_script expected_control_block : list Z)
    : result VerificationError ValidatedTaprootWitness :=
  input ← ok_or (Bounds "refund witness input index") (tx_inputs tx !! input_index);
  match witness input with
  | [signature; script; control_block] =>
      signature ← exact_default_signature signature;
      if negb (bool_decide (script = expected_script))
         || negb (bool_decide (control_block = expected_control_block))
      then Err (Invalid "refund witness path mismatch") else
      leaf ← parse_swap_leaf_script script;
      _ ← match leaf_condition leaf with
          | Cltv required =>
              if (sequence input =? U32_MAX)
                 || negb (check_cltv (BlockHeight required) (tx_lock_time tx))
              then Err (Invalid "refund CLTV is not satisfied") else Ok tt
          | Csv required =>
              if (tx_version tx <? 2) || negb (check_csv required (sequence input))
              then Err (Invalid "refund CSV is not satisfied") else Ok tt
          | Hashlock _ => Err (Invalid "refund witness leaf condition")
          end;
      sighash ← taproot_script_spend_sighash tx prevouts input_index script control_block;
      Ok (mkValidated signature (leaf_signing_key leaf) sighash)
  | _ => Err (Invalid "refund witness shape")
  end.

End taproot.

(** ** Lemmas *)

Lemma fold_lor_zero d l :
  0 <= d -> Forall (fun p => is_byte p.1 /\ is_byte p.2) l ->
  fold_left (fun difference p => Z.lor difference (Z.lxor p.1 p.2)) l d = 0
  <-> d = 0 /\ Forall (fun p => p.1 = p.2) l.
Proof.
  intros Hd Hl. revert d Hd. induction Hl as [|[a b] l [Ha Hb] _ IH]; intros d Hd; cbn [fold_left fst snd].
  { split; [intros ->; by split; [|constructor]|by intros [-> _]]. }
  unfold is_byte in *. cbn in *. rewrite IH, Z.lor_eq_0_iff, Z.lxor_eq_0_iff, Forall_cons.
  - cbn. tauto.
  - apply Z.lor_nonneg. split; [done|]. apply Z.lxor_nonneg. lia.
Qed.

Lemma zip_Forall_eq {A} (l k : list A) :
  length l = length k -> Forall (fun p => p.1 = p.2) (zip l k) <-> l = k.
Proof.
  revert k. induction l as [|a l IH]; intros [|b k] Hlen; try done; cbn in Hlen.
  cbn. rewrite Forall_cons, IH by lia. cbn. naive_solver.
Qed.

(** The constant-time comparison is equality. *)
Lemma constant_time_equal_spec l k :
  Forall is_byte l -> Forall is_byte k -> constant_time_equal l k = true <-> l = k.
Proof.
  intros Hl Hk. unfold constant_time_equal.
  destruct (Nat.eqb_spec (length l) (length k)) as [Hlen|Hlen]; cbn [negb].
  - rewrite Z.eqb_eq, fold_lor_zero; [rewrite zip_Forall_eq by done; naive_solver|lia|].
    clear Hlen. revert k Hk. induction Hl as [|a l Ha _ IH]; intros k Hk; [constructor|].
    destruct Hk as [|b k Hb Hk]; cbn; constructor; [done|by apply IH].
  - split; [done|]. by intros ->.
Qed.

Lemma bytes_le_total l r : bytes_le l r = false -> bytes_le r l = true.
Proof.
  revert r. induction l as [|a l IH]; intros [|b r]; cbn [bytes_le]; try done.
  intros Hf. apply orb_false_iff in Hf as [Hlt Hrest]. apply Z.ltb_ge in Hlt.
  apply orb_true_iff. destruct (Z.eqb_spec a b) as [->|]; cbn [andb] in Hrest.
  - right. rewrite Z.eqb_refl. by apply IH.
  - left. lia.
Qed.

Lemma bytes_le_antisym l r : bytes_le l r = true -> bytes_le r l = true -> l = r.
Proof.
  revert r. induction l as [|a l IH]; intros [|b r]; cbn [bytes_le]; try done.
  intros [H1|[H1 H1']%andb_true_iff]%orb_true_iff [H2|[H2 H2']%andb_true_iff]%orb_true_iff; try lia.
  apply Z.eqb_eq in H1. subst. f_equal. by apply IH.
Qed.

Lemma chunks32_concat fuel siblings :
  Forall (fun s => length s = 32%nat) siblings -> (length (concat siblings) <= fuel)%nat ->
  chunks32 fuel (concat siblings) = siblings.
Proof.
  intros Hs. revert fuel. induction Hs as [|s siblings Hl _ IH]; intros fuel Hf; [by destruct fuel|].
  cbn [concat] in *. rewrite length_app, Hl in Hf. destruct fuel as [|fuel]; [lia|].
  cbn [chunks32]. rewrite length_app, Hl, (proj2 (Nat.leb_le _ _)) by lia.
  rewrite take_app_length', drop_app_length' by done. f_equal. apply IH. lia.
Qed.

Lemma chunks32_split fuel l n :
  length l = (32 * n)%nat -> (length l <= fuel)%nat ->
  Forall (fun s => length s = 32%nat) (chunks32 fuel l) /\ concat (chunks32 fuel l) = l
  /\ length (chunks32 fuel l) = n.
Proof.
  revert fuel l. induction n as [|n IH]; intros fuel l Hl Hf.
  { destruct l; [|cbn in Hl; lia]. destruct fuel; by repeat constructor. }
  destruct fuel as [|fuel]; [lia|]. cbn [chunks32]. rewrite (proj2 (Nat.leb_le 32 _)) by lia.
  destruct (IH fuel (drop 32 l)) as (Ha & Hc & Hn); [rewrite length_drop; lia..|].
  split; [constructor; [rewrite length_take; lia|done]|].
  cbn. rewrite Hc, Hn. split; [apply take_drop|done].
Qed.

Definition parity_bit (p : Parity) : Z := match p with Even => 0 | Odd => 1 end.

Definition control_byte_ok (b : Z) : bool :=
  (Z.land b 0xfe + Z.land b 1 =? b) && (Z.land (Z.land b 0xfe) 1 =? 0)
  && (if Z.land b 1 =? 0 then true else Z.land b 1 =? 1)
  && (if Z.land b 1 =? 0 then (Z.land b 0xfe =? b) && (Z.land (b + 1) 0xfe =? b) && (Z.land (b + 1) 1 =? 1)
      else true).

Lemma control_byte b : is_byte b -> control_byte_ok b = true.
Proof. revert b. apply byte_forall. vm_compute. done. Qed.

Lemma control_byte_split b :
  is_byte b ->
  b = Z.land b 0xfe + parity_bit (if Z.land b 1 =? 0 then Even else Odd) /\ Z.land (Z.land b 0xfe) 1 = 0.
Proof.
  intros Hb%control_byte. unfold control_byte_ok in Hb. bool_to_prop. split; [|done].
  destruct (Z.land b 1 =? 0) eqn:E; cbn [parity_bit]; bool_to_prop; lia.
Qed.

Lemma control_byte_join v p :
  is_byte v -> Z.land v 1 = 0 ->
  Z.land (v + parity_bit p) 0xfe = v /\ (if Z.land (v + parity_bit p) 1 =? 0 then Even else Odd) = p.
Proof.
  intros Hb%control_byte Hv. unfold control_byte_ok in Hb. rewrite Hv in Hb. bool_to_prop. cbn in *.
  bool_to_prop. destruct p; cbn [parity_bit].
  - rewrite Z.add_0_r, Hv. done.
  - split; [done|]. by replace (Z.land (v + 1) 1) with 1.
Qed.

Section claims.
Context `{EventCrypto, TweakAdd}.

(** The control block of a leaf: version and parity, internal key, path. *)
Definition control_block_of (version : Z) (parity : Parity) (internal : list Z)
    (siblings : list (list Z)) : list Z :=
  (version + parity_bit parity) :: internal ++ concat siblings.

Lemma control_block_length version parity internal siblings :
  length internal = 32%nat -> Forall (fun s => length s = 32%nat) siblings ->
  len (control_block_of version parity internal siblings) = 33 + 32 * len siblings.
Proof.
  intros Hi Hs. unfold control_block_of, len. cbn [length]. rewrite length_app, Hi.
  assert (length (concat siblings) = (32 * length siblings)%nat); [|lia].
  induction Hs as [|s l Hl _ IH]; cbn; [done|]. rewrite length_app, Hl, IH. lia.
Qed.

Lemma control_block_complete script version parity internal siblings leaf q :
  is_byte version -> Z.land version 1 = 0 -> version <> 0x50 ->
  length internal = 32%nat -> xonly_public_key internal = true ->
  Forall (fun s => length s = 32%nat) siblings -> (length siblings <= 128)%nat ->
  tapleaf_hash version script = Ok leaf ->
  taproot_output_key internal (Some (fold_left tapbranch_hash siblings leaf)) = Ok (q, parity) ->
  verify_control_block q script (control_block_of version parity internal siblings) = Ok tt.
Proof.
  intros Hb Hev H50 Hi Hx Hs Hn Hleaf Hout. unfold verify_control_block, control_block_length_ok.
  rewrite control_block_length by done. unfold len.
  replace (33 + 32 * Z.of_nat (length siblings) - 33) with (Z.of_nat (length siblings) * 32) by lia.
  rewrite Z_mod_mult. decide_if. cbn [negb orb nth control_block_of].
  destruct (control_byte_join version parity Hb Hev) as [Hv Hp]. rewrite Hv, Hp.
  rewrite (proj2 (Z.eqb_neq _ _)) by done.
  unfold control_block_of. cbn [skipn]. rewrite drop_0. rewrite take_app_length' by done. rewrite Hx. cbn [negb]. rewrite Hleaf.
  cbn [mbind result_bind]. cbn [skipn]. rewrite drop_app_length' by done. rewrite chunks32_concat by done.
  rewrite Hout. cbn. by rewrite !bool_decide_eq_true_2.
Qed.

Lemma control_block_sound q script cb :
  Forall is_byte cb -> verify_control_block q script cb = Ok tt ->
  exists version parity internal siblings leaf,
    cb = control_block_of version parity internal siblings
    /\ is_byte version /\ Z.land version 1 = 0 /\ version <> 0x50
    /\ length internal = 32%nat /\ xonly_public_key internal = true
    /\ Forall (fun s => length s = 32%nat) siblings /\ (length siblings <= 128)%nat
    /\ tapleaf_hash version script = Ok leaf
    /\ taproot_output_key internal (Some (fold_left tapbranch_hash siblings leaf)) = Ok (q, parity).
Proof.
  intros Hb Hv. unfold verify_control_block, control_block_length_ok in Hv.
  destruct cb as [|b cb]; [done|]. apply Forall_cons in Hb as [Hb _].
  cbn [nth skipn] in Hv. rewrite drop_0 in Hv. destruct (control_byte_split b Hb) as [Hsplit Hev].
  set (version := Z.land b 0xfe) in *. set (parity := if Z.land b 1 =? 0 then Even else Odd) in *.
  assert (0 <= version) as Hv0 by (apply Z.land_nonneg; right; done). clearbody version parity.
  run_inv. bool_to_prop. unfold len in *. cbn [length] in *.
  match goal with Hm : (Z.of_nat (S (length cb)) - 33) mod 32 = 0 |- _ =>
    apply Z.div_exact in Hm; [|lia]; set (n := (Z.of_nat (S (length cb)) - 33) / 32) in Hm end.
  destruct (chunks32_split (length (drop 32 cb)) (drop 32 cb) (Z.to_nat n)) as (Hs & Hc & Hl);
    [rewrite length_drop; lia|lia|].
  match goal with Ht : (let '(_, _) := ?y in _) = Ok tt |- _ => destruct y as [candidate par] end.
  run_inv. bool_to_prop. subst candidate par.
  exists version, parity, (take 32 cb), (chunks32 (length (drop 32 cb)) (drop 32 cb)), x.
  repeat split; try done.
  - unfold control_block_of. by rewrite Hc, take_drop, <- Hsplit.
  - unfold is_byte in Hb. destruct parity; cbn [parity_bit] in Hsplit; lia.
  - rewrite length_take. lia.
  - lia.
Qed.

Lemma tapbranch_comm l r : tapbranch_hash l r = tapbranch_hash r l.
Proof.
  unfold tapbranch_hash. destruct (bytes_le l r) eqn:Hlr, (bytes_le r l) eqn:Hrl; try done.
  - by rewrite (bytes_le_antisym l r).
  - apply bytes_le_total in Hlr. congruence.
Qed.

(** A control block is accepted for a script and an output key exactly
    when it is an even leaf version with a parity bit, a 32-byte internal
    key on the curve and at most 128 sibling hashes whose Merkle path from
    the script's leaf tweaks that internal key to that output key with that
    parity: no other byte string proves the script's membership. *)
Theorem control_block_exact q script cb :
  Forall is_byte cb ->
  (verify_control_block q script cb = Ok tt <->
   exists version parity internal siblings leaf,
     cb = control_block_of version parity internal siblings
     /\ is_byte version /\ Z.land version 1 = 0 /\ version <> 0x50
     /\ length internal = 32%nat /\ xonly_public_key internal = true
     /\ Forall (fun s => length s = 32%nat) siblings /\ (length siblings <= 128)%nat
     /\ tapleaf_hash version script = Ok leaf
     /\ taproot_output_key internal (Some (fold_left tapbranch_hash siblings leaf))
        = Ok (q, parity)).
Proof.
  intros Hb. split; [by apply control_block_sound|].
  intros (version & parity & internal & siblings & leaf & -> & ? & ? & ? & ? & ? & ? & ? & ? & ?).
  by eapply control_block_complete.
Qed.

(** In the two-leaf tree of a swap one output key commits to both leaves:
    the claim leaf and the refund leaf each have an accepted control block
    whose only path element is the other leaf's hash, in either order of the
    leaves. *)
Theorem swap_tree_commits `{!Sha256Digest} internal claim refund claim_leaf refund_leaf q parity :
  length internal = 32%nat -> xonly_public_key internal = true ->
  tapleaf_hash TAPROOT_LEAF_VERSION claim = Ok claim_leaf ->
  tapleaf_hash TAPROOT_LEAF_VERSION refund = Ok refund_leaf ->
  taproot_output_key internal (Some (tapbranch_hash claim_leaf refund_leaf)) = Ok (q, parity) ->
  verify_control_block q claim (control_block_of TAPROOT_LEAF_VERSION parity internal [refund_leaf]) = Ok tt
  /\ verify_control_block q refund (control_block_of TAPROOT_LEAF_VERSION parity internal [claim_leaf]) = Ok tt.
Proof.
  intros Hi Hx Hc Hr Hq.
  assert (forall s h, tapleaf_hash TAPROOT_LEAF_VERSION s = Ok h -> length h = 32%nat) as Hlen.
  { unfold tapleaf_hash, tagged_hash. intros s h Hh. run_inv. subst. apply sha256_length. }
  split; eapply control_block_complete; try done; try (repeat constructor; by eapply Hlen); try (cbn; lia).
  cbn [fold_left]. by rewrite tapbranch_comm.
Qed.

(** ** Signature messages *)

Lemma common_message_length `{!Sha256Digest} tx prevouts m :
  common_message tx prevouts = Ok m -> length m = 170%nat.
Proof.
  unfold common_message. intros (outs & _ & Hm)%bind_Ok. apply Ok_inj in Hm. subst m.
  rewrite !length_app, !le_bytes_length, !sha256_length. done.
Qed.

(** A script-path message has 212 bytes and a key-path message 175 (the
    capacities the code reserves), so no byte string is a message of both
    paths and a signature for one never stands for the other. *)
Theorem spend_messages_disjoint `{!Sha256Digest} tx prevouts i script cb m tx' prevouts' i' m' :
  taproot_script_spend_signature_message tx prevouts i script cb = Ok m ->
  taproot_key_spend_signature_message tx' prevouts' i' = Ok m' ->
  length m = 212%nat /\ length m' = 175%nat /\ m <> m'.
Proof.
  unfold taproot_script_spend_signature_message, taproot_key_spend_signature_message, tapleaf_hash,
    tagged_hash.
  intros (_ & _ & (n & _ & (c & Hc & (l & Hl & Hm)%bind_Ok)%bind_Ok)%bind_Ok)%bind_Ok
    (_ & _ & (n' & _ & (c' & Hc' & Hm')%bind_Ok)%bind_Ok)%bind_Ok.
  apply Ok_inj in Hm, Hm'. apply common_message_length in Hc, Hc'. subst m m'.
  destruct (_ || _); [done|]. apply Ok_inj in Hl. subst l.
  match goal with |- ?a /\ ?b /\ _ => assert (a /\ b) as [Ha Hb] end.
  { rewrite !length_app, !le_bytes_length, sha256_length, Hc, Hc'. done. }
  split; [done|]. split; [done|]. intros Heq. rewrite Heq in Ha. congruence.
Qed.
End claims.

(** ** Examples *)

#[local] Existing Instance toy_crypto.
#[local] Existing Instance toy_crypto_digest.
Definition toy_tweak : TweakAdd := {|
  scalar_from_be_bytes bytes := if be_value bytes <? CURVE_ORDER then Some (be_value bytes) else None;
  add_tweak k t := Some (k, if Z.even t then Even else Odd);
|}.
#[local] Existing Instance toy_tweak.

Definition example_key : list Z := replicate 32 7.
Definition example_claim : list Z := production_claim_leaf_script (sha256 (replicate 32 3)) example_key.
Definition example_refund : list Z := refund_leaf_script 800000 example_key.
Definition leaf_hash_or_nil (script : list Z) : list Z :=
  match tapleaf_hash TAPROOT_LEAF_VERSION script with Ok h => h | Err _ => [] end.
Definition example_output_key : list Z * Parity :=
  match taproot_output_key example_key
          (Some (tapbranch_hash (leaf_hash_or_nil example_claim) (leaf_hash_or_nil example_refund))) with
  | Ok r => r
  | Err _ => ([], Even)
  end.
Definition example_claim_block : list Z :=
  control_block_of TAPROOT_LEAF_VERSION example_output_key.2 example_key [leaf_hash_or_nil example_refund].
Definition example_refund_block : list Z :=
  control_block_of TAPROOT_LEAF_VERSION example_output_key.2 example_key [leaf_hash_or_nil example_claim].

Lemma swap_tree_commits_witness :
  verify_control_block example_output_key.1 example_claim example_claim_block = Ok tt
  /\ verify_control_block example_output_key.1 example_refund example_refund_block = Ok tt.
Proof.
  apply (swap_tree_commits example_key example_claim example_refund (leaf_hash_or_nil example_claim)
    (leaf_hash_or_nil example_refund) example_output_key.1 example_output_key.2);
    vm_compute; reflexivity.
Defined.

Lemma control_block_exact_witness :
  exists version parity internal siblings,
    example_claim_block = control_block_of version parity internal siblings
    /\ length siblings = 1%nat.
Proof.
  assert (Forall is_byte example_claim_block) as Hb by (apply bytes_check; vm_compute; reflexivity).
  destruct (proj1 (control_block_exact example_output_key.1 example_claim example_claim_block Hb))
    as (version & parity & internal & siblings & leaf & Heq & _ & _ & _ & Hi & _ & Hs & _).
  { vm_compute. reflexivity. }
  exists version, parity, internal, siblings. split; [exact Heq|].
  pose proof (control_block_length version parity internal siblings Hi Hs) as Hl.
  rewrite <- Heq in Hl. unfold len in Hl. change (length example_claim_block) with 65%nat in Hl. lia.
Defined.

Definition example_prevout : TransactionOutput :=
  mkOutput 60000 ([0x51; 0x20] ++ example_output_key.1).
Definition example_spend (w : list (list Z)) : Transaction :=
  transaction_new 2 [mkInput (replicate 32 9) 0 [] 4294967294 w] [mkOutput 59000 [0x51]] 800001.

Lemma spend_messages_disjoint_witness :
  exists m m', taproot_script_spend_signature_message (example_spend []) [example_prevout] 0
                 example_claim example_claim_block = Ok m
  /\ taproot_key_spend_signature_message (example_spend []) [example_prevout] 0 = Ok m'
  /\ m <> m'.
Proof.
  eexists _, _. split; [vm_compute; reflexivity|]. split; [vm_compute; reflexivity|].
  apply (spend_messages_disjoint (example_spend []) [example_prevout] 0 example_claim example_claim_block _
           (example_spend []) [example_prevout] 0); vm_compute; reflexivity.
Defined.
