(* ===== verification/Tapscript.v ===== *)
(** * Tapscript: what a swap leaf means

    A specification of the BIP-342 execution rules for the opcodes of the
    swap leaves, and the theorems that the verifier's reading of a leaf
    agrees with executing it: the parser's condition is what the script
    enforces, and a witness the verifier accepts makes the script succeed
    once its signature verifies. *)

From S2P Require Import Prelude Text Event Wire Transaction Script Taproot.

(** The parts of the spending transaction the opcodes look at, and the
    signature check for its signature message. *)
Record SpendContext : Type := mkContext {
  sc_version : Z;
  sc_lock_time : Z;
  sc_sequence : Z;
  sc_checksig : list Z -> list Z -> bool;
}.

(** BIP-65: same kind of lock, reached, and the input not final. *)
Definition cltv_satisfied (ctx : SpendContext) (n : Z) : bool :=
  Bool.eqb (n <? 500000000) (sc_lock_time ctx <? 500000000)
  && (n <=? sc_lock_time ctx) && negb (sc_sequence ctx =? U32_MAX).

(** BIP-112: a disabled operand is a no-op; otherwise transaction version 2
    (read unsigned), sequence lock enabled, of the same kind and reached. *)
Definition csv_satisfied (ctx : SpendContext) (n : Z) : bool :=
  negb (Z.land n DISABLE_FLAG =? 0)
  || ((2 <=? i32_to_u32 (sc_version ctx))
      && (Z.land (sc_sequence ctx) DISABLE_FLAG =? 0)
      && (Z.land n TYPE_FLAG =? Z.land (sc_sequence ctx) TYPE_FLAG)
      && (Z.land n MASK <=? Z.land (sc_sequence ctx) MASK)).

(** A stack element read as a script number of at most five bytes, sign in
    the top bit. *)
Definition script_num (l : list Z) : option Z :=
  if 5 <? len l then None
  else if List.last l 0 <? 128 then Some (le_value l)
  else Some (- (le_value l - 128 * 256 ^ (len l - 1))).

Section execution.
Context `{EventCrypto} (ctx : SpendContext).

(** One instruction on a stack, top first; [None] fails the script. *)
Definition execute (i : ScriptInstruction) (stack : list (list Z)) : option (list (list Z)) :=
  match i, stack with
  | Push data, _ => Some (data :: stack)
  | Opcode op, _ =>
      if op =? 0x82 then
        match stack with a :: s => Some (script_number (len a) :: a :: s) | _ => None end
      else if op =? 0x88 then
        match stack with a :: b :: s => if bool_decide (a = b) then Some s else None | _ => None end
      else if op =? 0xa8 then
        match stack with a :: s => Some (sha256 a :: s) | _ => None end
      else if op =? 0xac then
        match stack with
        | key :: signature :: s =>
            if is_empty signature then Some ([] :: s)
            else if sc_checksig ctx signature key then Some ([1] :: s) else None
        | _ => None
        end
      else if op =? 0x75 then match stack with _ :: s => Some s | _ => None end
      else if op =? 0xb1 then
        match stack with
        | a :: s => n ← script_num a; if (0 <=? n) && cltv_satisfied ctx n then Some stack else None
        | _ => None
        end
      else if op =? 0xb2 then
        match stack with
        | a :: s => n ← script_num a; if (0 <=? n) && csv_satisfied ctx n then Some stack else None
        | _ => None
        end
      else None
  end.

Fixpoint run (script : list ScriptInstruction) (stack : list (list Z)) : option (list (list Z)) :=
  match script with
  | [] => Some stack
  | i :: script' => s ← execute i stack; run script' s
  end.

(** The script succeeds when exactly one element is left and it is true. *)
Definition accepts (script : list ScriptInstruction) (stack : list (list Z)) : bool :=
  match run script stack with
  | Some [top] => negb (forallb (fun b => b =? 0) top)
  | _ => false
  end.
End execution.

(** ** Shapes *)

Lemma leaf_shape_Hashlock instrs key h :
  leaf_shape instrs = Some (Ok (key, Hashlock h)) ->
  instrs = [Opcode 0x82; Push [32]; Opcode 0x88; Opcode 0xa8; Push h; Opcode 0x88; Push key; Opcode 0xac]
  /\ len h = 32 /\ len key = 32.
Proof.
  unfold leaf_shape. intros Hs.
  repeat (case_match; try discriminate Hs); simplify_eq; bool_to_prop; subst; try done.
  all: run_inv; simplify_eq.
Qed.

Lemma leaf_shape_timelock instrs key cond :
  leaf_shape instrs = Some (Ok (key, cond)) -> (forall h, cond <> Hashlock h) ->
  exists value required op,
    instrs = [Push value; Opcode op; Opcode 0x75; Push key; Opcode 0xac]
    /\ parse_script_number value = Ok required
    /\ (op = 0xb1 /\ cond = Cltv required \/ op = 0xb2 /\ cond = Csv required).
Proof.
  unfold leaf_shape. intros Hs Hn.
  repeat (case_match; try discriminate Hs); simplify_eq; bool_to_prop; subst.
  all: first [ exfalso; by eapply Hn | run_inv; simplify_eq; eauto 10 ].
Qed.

Lemma parse_leaf_shape `{EventCrypto} script leaf :
  parse_swap_leaf_script script = Ok leaf ->
  exists instrs, parse_swap_script script = Ok instrs
    /\ leaf_shape instrs = Some (Ok (leaf_signing_key leaf, leaf_condition leaf)).
Proof.
  unfold parse_swap_leaf_script. intros (instrs & Hi & Hl)%bind_Ok. exists instrs. split; [done|].
  destruct (leaf_shape instrs) as [[[key cond]|e]|]; cbn in Hl; [|done..].
  destruct (xonly_public_key key); [|done]. by injection Hl as <-.
Qed.

Lemma script_number_size n : 0 <= n <= U32_MAX -> script_number n = [32] <-> n = 32.
Proof.
  intros Hn. split; [|by intros ->]. intros Heq.
  destruct (Z.eq_dec n 0) as [->|]; [done|].
  destruct (script_number_spec n ltac:(lia)) as (_ & _ & Hp). rewrite Heq in Hp. vm_compute in Hp. congruence.
Qed.

Lemma script_num_parse value required :
  Forall is_byte value -> parse_script_number value = Ok required ->
  script_num value = Some required /\ 0 <= required.
Proof.
  intros Hb Hp. pose proof (parse_script_number_canonical value required Hb Hp) as [Hr _].
  split; [|lia]. unfold parse_script_number in Hp. rewrite land_high in Hp by by apply last_byte.
  run_inv. bool_to_prop. unfold script_num. rewrite (proj2 (Z.ltb_ge 5 _)) by lia.
  rewrite (proj2 (Z.ltb_lt _ 128)) by lia.
  match goal with Ht : try_from_u _ _ = Some _ |- _ => apply try_from_u_Some in Ht as [-> _] end.
  by rewrite le_or_eq.
Qed.

(** ** Pushed data are bytes of the script *)

Definition push_bytes (i : ScriptInstruction) : Prop :=
  match i with Push d => Forall is_byte d | Opcode _ => True end.

Lemma parse_instruction_bytes op rest i rest' :
  Forall is_byte rest -> parse_instruction op rest = Ok (i, rest') -> push_bytes i /\ Forall is_byte rest'.
Proof.
  intros Hb. unfold parse_instruction.
  destruct (push_length op rest) as [[[n r]|]|] eqn:Hp; cbn [mbind result_bind]; [| |done].
  - assert (Forall is_byte r) as Hr.
    { revert Hp. unfold push_length, read_script_length. intros Hp.
      repeat case_match; cbn in Hp; simplify_eq; eauto using Forall_drop. }
    case_match; [|done]. intros [= <- <-]. split; [by apply Forall_take|by apply Forall_drop].
  - case_match; [|done]. intros [= <- <-]. done.
Qed.

Lemma parse_loop_bytes fuel rest acc instrs :
  Forall is_byte rest -> Forall push_bytes acc -> parse_loop fuel rest acc = Ok instrs ->
  Forall push_bytes instrs.
Proof.
  revert rest acc. induction fuel as [|fuel IH]; intros [|op rest] acc Hb Ha; cbn [parse_loop];
    try (by intros [= <-]).
  apply Forall_cons in Hb as [_ Hb].
  destruct (parse_instruction op rest) as [[i rest']|] eqn:Hi; cbn; [|done].
  apply parse_instruction_bytes in Hi as [Hi Hr]; [|done]. case_match; [done|].
  apply IH; [done|]. apply Forall_app. by split; [|repeat constructor].
Qed.

Lemma parse_swap_script_bytes script instrs :
  Forall is_byte script -> parse_swap_script script = Ok instrs -> Forall push_bytes instrs.
Proof.
  intros Hb. unfold parse_swap_script. case_match; [done|]. apply parse_loop_bytes; [done|constructor].
Qed.

(** ** What the leaves enforce *)

Section meaning.
Context `{EventCrypto}.

Lemma hashlock_accepts ctx h key preimage signature :
  len preimage <= U32_MAX ->
  accepts ctx [Opcode 0x82; Push [32]; Opcode 0x88; Opcode 0xa8; Push h; Opcode 0x88; Push key;
               Opcode 0xac] [preimage; signature] = true <->
  len preimage = 32 /\ sha256 preimage = h /\ signature <> [] /\ sc_checksig ctx signature key = true.
Proof.
  intros Hlen. pose proof (len_nonneg preimage).
  pose proof (script_number_size (len preimage) ltac:(lia)) as Hsize.
  unfold accepts. cbn -[script_number len]. case_bool_decide as H32; cbn -[script_number len].
  2: { split; [done|]. intros (Hl & _). destruct H32. symmetry. by apply Hsize. }
  case_bool_decide as Hh; cbn.
  2: { split; [done|]. intros (_ & Hl & _). by destruct Hh. }
  destruct signature; cbn; [naive_solver|].
  destruct (sc_checksig ctx _ key); cbn; [|naive_solver].
  split; [|done]. intros _. split; [by apply Hsize|]. done.
Qed.

Lemma timelock_accepts ctx value op key signature n :
  script_num value = Some n -> 0 <= n -> op = 0xb1 \/ op = 0xb2 ->
  accepts ctx [Push value; Opcode op; Opcode 0x75; Push key; Opcode 0xac] [signature] = true <->
  (if op =? 0xb1 then cltv_satisfied ctx n else csv_satisfied ctx n) = true
  /\ signature <> [] /\ sc_checksig ctx signature key = true.
Proof.
  intros Hn Hn0 Hop. unfold accepts.
  destruct Hop as [-> | ->]; cbn -[Z.leb script_num cltv_satisfied csv_satisfied]; rewrite Hn;
    cbn -[Z.leb cltv_satisfied csv_satisfied]; rewrite (proj2 (Z.leb_le 0 n)) by lia; cbn [andb].
  all: match goal with |- context [if ?c then Some _ else None] => destruct c end;
    cbn; [|naive_solver].
  all: destruct signature; cbn; [naive_solver|].
  all: destruct (sc_checksig ctx _ key); cbn; naive_solver.
Qed.

(** C36: the condition the parser reads out of a leaf is the condition the
    script enforces.  A hashlock leaf is satisfied exactly by a 32-byte
    preimage of the payment hash with a signature of the leaf's key; a
    timelock leaf exactly when its lock is reached, with such a signature. *)
Theorem leaf_meaning script leaf :
  Forall is_byte script -> parse_swap_leaf_script script = Ok leaf ->
  exists instrs, parse_swap_script script = Ok instrs
  /\ match leaf_condition leaf with
     | Hashlock h => forall ctx preimage signature, len preimage <= U32_MAX ->
         accepts ctx instrs [preimage; signature] = true <->
         len preimage = 32 /\ sha256 preimage = h
         /\ signature <> [] /\ sc_checksig ctx signature (leaf_signing_key leaf) = true
     | Cltv n => forall ctx signature,
         accepts ctx instrs [signature] = true <->
         cltv_satisfied ctx n = true
         /\ signature <> [] /\ sc_checksig ctx signature (leaf_signing_key leaf) = true
     | Csv n => forall ctx signature,
         accepts ctx instrs [signature] = true <->
         csv_satisfied ctx n = true
         /\ signature <> [] /\ sc_checksig ctx signature (leaf_signing_key leaf) = true
     end.
Proof.
  intros Hb (instrs & Hi & Hs)%parse_leaf_shape. exists instrs. split; [done|].
  assert (forall cond, leaf_condition leaf = cond -> (forall h, cond <> Hashlock h) ->
    exists value n op, instrs = [Push value; Opcode op; Opcode 0x75; Push (leaf_signing_key leaf); Opcode 0xac]
    /\ script_num value = Some n /\ 0 <= n
    /\ (op = 0xb1 /\ cond = Cltv n \/ op = 0xb2 /\ cond = Csv n)) as Htime.
  { intros cond <- Hn. destruct (leaf_shape_timelock _ _ _ Hs Hn) as (value & n & op & -> & Hp & Hop).
    apply parse_swap_script_bytes in Hi as [Hv _]%Forall_cons; [|done].
    destruct (script_num_parse value n Hv Hp) as [Hnum H0]. eauto 10. }
  destruct (leaf_condition leaf) as [h|n|n] eqn:Hc.
  - apply leaf_shape_Hashlock in Hs as [-> _]. intros. by apply hashlock_accepts.
  - destruct (Htime _ eq_refl ltac:(done)) as (v & m & op & -> & Hnum & H0 & [[-> ?]|[_ ?]]); simplify_eq.
    intros. by rewrite timelock_accepts by eauto.
  - destruct (Htime _ eq_refl ltac:(done)) as (v & m & op & -> & Hnum & H0 & [[_ ?]|[-> ?]]); simplify_eq.
    intros. by rewrite timelock_accepts by eauto.
Qed.

Context `{TweakAdd}.

Definition context_of (tx : Transaction) (input : TransactionInput)
    (checksig : list Z -> list Z -> bool) : SpendContext :=
  mkContext (tx_version tx) (tx_lock_time tx) (sequence input) checksig.

(** A signature message exists only for a script committed in the output. *)
Lemma sighash_commits tx prevouts i script cb sighash :
  taproot_script_spend_sighash tx prevouts i script cb = Ok sighash ->
  exists q, script_pubkey (prevout_at prevouts i) = [0x51; 0x20] ++ q /\ length q = 32%nat
    /\ verify_control_block q script cb = Ok tt.
Proof.
  unfold taproot_script_spend_sighash, taproot_script_spend_signature_message,
    validate_taproot_spend_inputs, taproot_output_key_from_script_pubkey.
  intros (m & ([] & Hv & _)%bind_Ok & _)%bind_Ok. run_inv. bool_to_prop.
  match goal with Hs : strip_prefix_bytes _ _ = Some ?q |- _ =>
    apply strip_prefix_bytes_Some in Hs; exists q end.
  match goal with Hl : (_ =? 32)%nat = true |- _ => apply Nat.eqb_eq in Hl end.
  by simplify_eq.
Qed.

(** A claim witness the verifier accepts spends the output: it is the
    signature, the 32-byte preimage, the expected script and control block;
    the control block proves the script against the output's key; and once
    the signature checks for the leaf's key, executing the script on the
    witness succeeds. *)
Theorem claim_witness_spends `{!Sha256Digest} tx prevouts i script cb v :
  Forall is_byte script ->
  validate_taproot_claim_witness tx prevouts i script cb = Ok v ->
  exists input preimage instrs q,
    tx_inputs tx !! i = Some input
    /\ witness input = [vw_signature v; preimage; script; cb]
    /\ parse_swap_script script = Ok instrs
    /\ script_pubkey (prevout_at prevouts i) = [0x51; 0x20] ++ q
    /\ verify_control_block q script cb = Ok tt
    /\ forall checksig, checksig (vw_signature v) (vw_signing_key v) = true ->
         accepts (context_of tx input checksig) instrs [preimage; vw_signature v] = true.
Proof.
  intros Hb Hv. unfold validate_taproot_claim_witness, exact_default_signature in Hv.
  apply bind_Ok in Hv as (input & Hin & Hv). apply ok_or_Ok in Hin.
  destruct (witness input) as [|sig [|pre [|scr [|ctl [|]]]]] eqn:Hw; try done.
  apply bind_Ok in Hv as (sig' & Hsig & Hv).
  destruct (Nat.eqb_spec (length sig) 64) as [Hsl|]; [|done]. apply Ok_inj in Hsig as <-.
  destruct (Nat.eqb_spec (length pre) 32) as [Hpl|]; [|done]. cbn [negb] in Hv.
  destruct (_ || _) eqn:Hpath; [done|]. bool_to_prop. subst scr ctl.
  apply bind_Ok in Hv as (leaf & Hleaf & Hv).
  destruct (leaf_condition leaf) as [h| |] eqn:Hc; try done.
  destruct (verify_preimage pre h) eqn:Hpre; [|done]. cbn [negb] in Hv.
  apply bind_Ok in Hv as (sighash & Hsh & Hv). apply Ok_inj in Hv as <-.
  apply parse_leaf_shape in Hleaf as (instrs & Hi & Hs). rewrite Hc in Hs.
  apply leaf_shape_Hashlock in Hs as [-> _]. apply sighash_commits in Hsh as (q & Hq & _ & Hcb).
  eexists input, pre, _, q. do 5 (split; [done|]). intros checksig Hok. cbn in Hok.
  apply hashlock_accepts; [unfold len; rewrite Hpl; unfold U32_MAX; lia|].
  split; [unfold len; by rewrite Hpl|]. split; [|split; [by destruct sig|done]].
  apply constant_time_equal_spec in Hpre; [done|apply sha256_bytes|].
  apply parse_swap_script_bytes in Hi; [|done]. rewrite !Forall_cons in Hi.
  by destruct Hi as (_ & _ & _ & _ & Hh & _).
Qed.

Lemma check_cltv_satisfied tx input checksig n :
  sequence input <> U32_MAX -> check_cltv (BlockHeight n) (tx_lock_time tx) = true ->
  cltv_satisfied (context_of tx input checksig) n = true.
Proof.
  intros Hseq. unfold check_cltv, cltv_satisfied. cbn [context_of sc_lock_time sc_sequence].
  destruct (Z.ltb_spec (tx_lock_time tx) 500000000); [|done]. intros Hn%Z.leb_le.
  rewrite (proj2 (Z.ltb_lt n 500000000)), (proj2 (Z.leb_le n _)), (proj2 (Z.eqb_neq _ _)) by (done || lia).
  done.
Qed.

Lemma check_csv_satisfied tx input checksig n :
  2 <= tx_version tx < 2 ^ 31 -> check_csv n (sequence input) = true ->
  csv_satisfied (context_of tx input checksig) n = true.
Proof.
  intros Hver. unfold check_csv, csv_satisfied, i32_to_u32. cbn [context_of sc_version sc_sequence].
  rewrite Z.mod_small by lia. rewrite (proj2 (Z.leb_le 2 _)) by lia. intros Hc. bool_to_prop.
  repeat match goal with Heq : Z.land _ _ = _ |- _ => rewrite Heq; clear Heq end.
  by rewrite !Z.eqb_refl, (proj2 (Z.leb_le _ _)) by done.
Qed.

(** A refund witness the verifier accepts spends the output: signature,
    expected script and control block, the script proved against the output's
    key, and the script's own lock satisfied by this transaction, so that the
    script succeeds once the signature checks. *)
Theorem refund_witness_spends tx prevouts i script cb v :
  Forall is_byte script -> tx_version tx < 2 ^ 31 ->
  validate_taproot_refund_witness tx prevouts i script cb = Ok v ->
  exists input instrs q,
    tx_inputs tx !! i = Some input
    /\ witness input = [vw_signature v; script; cb]
    /\ parse_swap_script script = Ok instrs
    /\ script_pubkey (prevout_at prevouts i) = [0x51; 0x20] ++ q
    /\ verify_control_block q script cb = Ok tt
    /\ forall checksig, checksig (vw_signature v) (vw_signing_key v) = true ->
         accepts (context_of tx input checksig) instrs [vw_signature v] = true.
Proof.
  intros Hb Hver Hv. unfold validate_taproot_refund_witness, exact_default_signature in Hv.
  apply bind_Ok in Hv as (input & Hin & Hv). apply ok_or_Ok in Hin.
  destruct (witness input) as [|sig [|scr [|ctl [|]]]] eqn:Hw; try done.
  apply bind_Ok in Hv as (sig' & Hsig & Hv).
  destruct (Nat.eqb_spec (length sig) 64) as [Hsl|]; [|done]. apply Ok_inj in Hsig as <-.
  destruct (_ || _) eqn:Hpath in Hv; [done|]. bool_to_prop. subst scr ctl.
  apply bind_Ok in Hv as (leaf & Hleaf & Hv). apply bind_Ok in Hv as ([] & Hlock & Hv).
  apply bind_Ok in Hv as (sighash & Hsh & Hv). apply Ok_inj in Hv as <-.
  apply parse_leaf_shape in Hleaf as (instrs & Hi & Hs).
  assert (forall h, leaf_condition leaf <> Hashlock h) as Hnh by (intros h Hh; by rewrite Hh in Hlock).
  destruct (leaf_shape_timelock _ _ _ Hs Hnh) as (value & n & op & -> & Hp & Hop).
  apply parse_swap_script_bytes in Hi as Hib; [|done]. apply Forall_cons in Hib as [Hvb _].
  destruct (script_num_parse value n Hvb Hp) as [Hnum Hn0].
  apply sighash_commits in Hsh as (q & Hq & _ & Hcb).
  eexists input, _, q. do 5 (split; [done|]). intros checksig Hok. cbn in Hok.
  apply (timelock_accepts _ _ _ _ _ n Hnum Hn0); [naive_solver|].
  split; [|split; [by destruct sig|done]].
  destruct Hop as [[-> Hc]|[-> Hc]]; rewrite Hc in Hlock; destruct (_ || _) eqn:Hl in Hlock; try done;
    bool_to_prop; [by apply check_cltv_satisfied|by apply check_csv_satisfied].
Qed.
End meaning.

(** ** Examples *)

#[local] Existing Instance toy_crypto.
#[local] Existing Instance toy_crypto_digest.
#[local] Existing Instance toy_tweak.

Lemma leaf_meaning_witness :
  exists instrs, parse_swap_script example_refund = Ok instrs
  /\ forall checksig, checksig [1] example_key = true ->
       accepts (mkContext 2 800000 0 checksig) instrs [[1]] = true
       /\ accepts (mkContext 2 799999 0 checksig) instrs [[1]] <> true.
Proof.
  destruct (leaf_meaning example_refund (mkLeaf example_key (Cltv 800000))) as (instrs & Hi & Hm).
  - apply bytes_check. vm_compute. reflexivity.
  - vm_compute. reflexivity.
  - exists instrs. split; [exact Hi|]. intros checksig Hok. cbn in Hm. split.
    + apply Hm. done.
    + intros (Hl & _)%Hm. vm_compute in Hl. discriminate Hl.
Defined.

Definition example_claim_spend : Transaction :=
  example_spend [replicate 64 1; replicate 32 3; example_claim; example_claim_block].

Lemma claim_witness_spends_witness :
  exists v, validate_taproot_claim_witness example_claim_spend [example_prevout] 0
              example_claim example_claim_block = Ok v
  /\ exists input instrs, tx_inputs example_claim_spend !! 0%nat = Some input
       /\ accepts (context_of example_claim_spend input (fun _ _ => true)) instrs
            [replicate 32 3; replicate 64 1] = true.
Proof.
  destruct (validate_taproot_claim_witness example_claim_spend [example_prevout] 0
              example_claim example_claim_block) as [v|] eqn:Hv; [|vm_compute in Hv; discriminate].
  exists v. split; [reflexivity|].
  destruct (claim_witness_spends example_claim_spend [example_prevout] 0 example_claim
              example_claim_block v) as (input & pre & instrs & q & Hin & Hw & _ & _ & _ & Hacc).
  - apply bytes_check. vm_compute. reflexivity.
  - exact Hv.
  - exists input, instrs. split; [exact Hin|]. injection Hin as <-. injection Hw as Hs Hp.
    rewrite <- Hp, <- Hs in Hacc. by apply Hacc.
Defined.

Definition example_refund_spend : Transaction :=
  example_spend [replicate 64 1; example_refund; example_refund_block].

Lemma refund_witness_spends_witness :
  exists v, validate_taproot_refund_witness example_refund_spend [example_prevout] 0
              example_refund example_refund_block = Ok v
  /\ exists input instrs, tx_inputs example_refund_spend !! 0%nat = Some input
       /\ accepts (context_of example_refund_spend input (fun _ _ => true)) instrs [replicate 64 1] = true.
Proof.
  destruct (validate_taproot_refund_witness example_refund_spend [example_prevout] 0
              example_refund example_refund_block) as [v|] eqn:Hv; [|vm_compute in Hv; discriminate].
  exists v. split; [reflexivity|].
  destruct (refund_witness_spends example_refund_spend [example_prevout] 0 example_refund
              example_refund_block v) as (input & instrs & q & Hin & Hw & _ & _ & _ & Hacc).
  - apply bytes_check. vm_compute. reflexivity.
  - cbn. lia.
  - exact Hv.
  - exists input, instrs. split; [exact Hin|]. injection Hin as <-. injection Hw as Hs.
    rewrite <- Hs in Hacc. by apply Hacc.
Defined.
