(* ===== verification/Invoice.v ===== *)
(** * Invoice: SegWit addresses and BOLT11 invoices

    [parse_segwit_address], [parse_bolt11] and their helpers of
    [immortal-core/src/mkt_swp_verify.rs].  ECDSA is the class [Ecdsa]; a
    [PublicKey] is its compressed serialization. *)

From S2P Require Import Prelude Text Utf8 Regroup Bech32 Event Wire Transaction Cost.

Definition MAX_INVOICE_CHARS : Z := 7089.

Inductive BitcoinNetwork : Type := Bitcoin | Testnet | Signet | Regtest.
#[export] Instance BitcoinNetwork_eq_dec : EqDecision BitcoinNetwork.
Proof. solve_decision. Defined.

(** ** Base 32 *)

Definition bech32_words (encoded : list Z) : result VerificationError (list Z) :=
  try_map (fun byte => ok_or (Encoding "BOLT11 bech32 character") (position byte CHARSET)) encoded.

(** The five generators are written out again in [bech32_polymod]; they are
    those of [nip19.rs], and so is the loop. *)
Definition bech32_polymod (hrp : string) (words : list Z) : Z :=
  let values := ((fun byte => Z.shiftr byte 5) <$> as_bytes hrp) ++ [0]
                ++ ((fun byte => Z.land byte 31) <$> as_bytes hrp) ++ words in
  fold_left (fun polymod value =>
    let top := Z.shiftr polymod 25 in
    mix top 0 [0x3b6a57b2; 0x26508e6d; 0x1ea119fa; 0x3d4233dd; 0x2a1462b3]
      (Z.lxor (shl32 (Z.land polymod 0x1ffffff) 5) value)) values 1.

Definition verify_bech32_checksum (hrp : string) (words : list Z) : result VerificationError unit :=
  if negb (bech32_polymod hrp words =? 1) then Err (Encoding "BOLT11 checksum") else Ok tt.

(** [convert_bits]: the shared loop with a range check on every input. *)
Definition convert_bits (input : list Z) (from_bits to_bits : Z) (pad : bool)
    : result VerificationError (list Z) :=
  let maximum := Z.shiftl 1 to_bits - 1 in
  '(accumulator, bits, output) ←
    try_fold (fun st v =>
      if negb (Z.shiftr v from_bits =? 0) then Err (Encoding "base conversion value")
      else Ok (regroup_step from_bits to_bits st v)) (0, 0, []) input;
  if (pad : bool) then
    Ok (if negb (bits =? 0)
        then output ++ [Z.land (shl32 accumulator (to_bits - bits)) maximum] else output)
  else if (from_bits <=? bits) || negb (Z.land (shl32 accumulator (to_bits - bits)) maximum =? 0)
  then Err (Encoding "noncanonical base conversion padding")
  else Ok output.

Definition words_to_u64 (words : list Z) : result VerificationError Z :=
  try_fold (fun value word =>
    ok_or (Bounds "base32 integer")
      (v ← checked_mul U64_MAX value 32; checked_add U64_MAX v word)) 0 words.

Definition minimal_word_integer (words : list Z) (label : string) : result VerificationError Z :=
  if is_empty words || ((1 <? len words) && (nth 0 words 0 =? 0)) || (13 <? len words)
  then Err (Encoding label) else words_to_u64 words.

(** ** SegWit addresses *)

Record SegwitAddress : Type := mkSegwit {
  sa_network : BitcoinNetwork;
  sa_witness_version : Z;
  sa_witness_program : list Z;
  sa_script_pubkey : list Z;
}.

Definition segwit_network (hrp : string) : option BitcoinNetwork :=
  if String.eqb hrp "bc" then Some Bitcoin
  else if String.eqb hrp "tb" then Some Testnet
  else if String.eqb hrp "bcrt" then Some Regtest
  else None.

Definition parse_segwit_address (address : string) : result VerificationError SegwitAddress :=
  if (str_len address <? 8) || (90 <? str_len address) || negb (is_ascii address)
  then Err (Bounds "SegWit address length") else
  if existsb is_ascii_uppercase (as_bytes address)
  then Err (Encoding "SegWit address must be lowercase") else
  separator ← ok_or (Encoding "SegWit address separator") (rfind_bytes 49 (as_bytes address));
  let hrp := of_bytes (take separator (as_bytes address)) in
  network ← ok_or (Unsupported "SegWit address network") (segwit_network hrp);
  let encoded := drop (S separator) (as_bytes address) in
  words ← bech32_words encoded;
  if len words <? 7 then Err (Encoding "SegWit address data length") else
  let witness_version := nth 0 words 0 in
  if 16 <? witness_version then Err (Unsupported "SegWit witness version") else
  let expected_checksum := if witness_version =? 0 then 1 else 0x2bc830a3 in
  if negb (bech32_polymod hrp words =? expected_checksum)
  then Err (Encoding "SegWit address checksum") else
  program ← convert_bits (take (length words - 7)%nat (drop 1 words)) 5 8 false;
  if negb ((2 <=? len program) && (len program <=? 40))
     || ((witness_version =? 0) && negb ((len program =? 20) || (len program =? 32)))
  then Err (Bounds "SegWit witness program") else
  program_length ← ok_or (Bounds "SegWit witness program") (try_from_u U8_MAX (len program));
  Ok (mkSegwit network witness_version program
        ((if witness_version =? 0 then 0 else 0x50 + witness_version) :: program_length :: program)).

(** ** Invoice amounts *)

Definition invoice_network (hrp : string) : option (string * BitcoinNetwork) :=
  if starts_with "lnbcrt" hrp then Some ("lnbcrt"%string, Regtest)
  else if starts_with "lntbs" hrp then Some ("lntbs"%string, Signet)
  else if starts_with "lntb" hrp then Some ("lntb"%string, Testnet)
  else if starts_with "lnbc" hrp then Some ("lnbc"%string, Bitcoin)
  else None.

(** The last character, when it is one of [m], [u], [n], [p]. *)
Definition amount_unit (amount : list Z) : option Z :=
  unit ← last amount;
  if (unit =? 109) || (unit =? 117) || (unit =? 110) || (unit =? 112) then Some unit else None.

Definition millisatoshis (value : Z) (multiplier : option Z) : option Z :=
  match multiplier with
  | None => checked_mul U64_MAX value 100000000000
  | Some unit =>
      if unit =? 109 then checked_mul U64_MAX value 100000000
      else if unit =? 117 then checked_mul U64_MAX value 100000
      else if unit =? 110 then checked_mul U64_MAX value 100
      else if unit =? 112 then if value mod 10 =? 0 then Some (value / 10) else None
      else None
  end.

Definition parse_invoice_hrp (hrp : string)
    : result VerificationError (BitcoinNetwork * option Z) :=
  '(prefix, network) ← ok_or (Unsupported "BOLT11 network") (invoice_network hrp);
  let amount := drop (length (as_bytes prefix)) (as_bytes hrp) in
  if is_empty amount then Ok (network, None) else
  let multiplier := amount_unit amount in
  let digits := match multiplier with
                | Some _ => take (length amount - 1)%nat amount
                | None => amount
                end in
  if is_empty digits || negb (forallb is_ascii_digit digits) then Err (Encoding "BOLT11 amount") else
  value ← ok_or (Bounds "BOLT11 amount") (parse_bytes U64_MAX digits);
  msat ← ok_or (Bounds "BOLT11 millisatoshi amount") (millisatoshis value multiplier);
  Ok (network, Some msat).

(** ** Invoices *)

(** What the parser uses of secp256k1's ECDSA. *)
Class Ecdsa : Type := {
  (** [PublicKey::from_slice], as the compressed serialization *)
  public_key_from_slice : list Z -> option (list Z);
  (** [RecoverableSignature::from_compact(..).is_ok()] *)
  recoverable_ok : list Z -> Z -> bool;
  (** [recover_ecdsa(message, signature)] *)
  recover_ecdsa : list Z -> list Z -> Z -> option (list Z);
  (** [Signature::from_compact(..).is_ok()] *)
  compact_ok : list Z -> bool;
  (** [normalize_s] leaves the signature as it is *)
  is_low_s : list Z -> bool;
  (** [verify_ecdsa(message, signature, key).is_ok()] *)
  verify_ecdsa : list Z -> list Z -> list Z -> bool;
}.

Record Bolt11Invoice : Type := mkInvoice {
  inv_network : BitcoinNetwork;
  inv_amount_msat : option Z;
  inv_timestamp : Z;
  inv_payment_hash : list Z;
  inv_payment_secret : list Z;
  inv_payee : list Z;
  inv_expiry_seconds : Z;
  inv_minimum_final_cltv_delta : Z;
  inv_feature_bits : list Z;
}.

(** The mutable locals of the tagged-field loop. *)
Record FieldState : Type := mkFields {
  fs_payment_hash : option (list Z);
  fs_payment_secret : option (list Z);
  fs_explicit_payee : option (list Z);
  fs_has_description : bool;
  fs_has_description_hash : bool;
  fs_expiry_seconds : Z;
  fs_minimum_final_cltv_delta : Z;
  fs_feature_bits : option (list Z);
}.

Definition initial_fields : FieldState := mkFields None None None false false 3600 18 None.

Definition set_once_32 (destination : option (list Z)) (field : list Z) (label : string)
    : result VerificationError (option (list Z)) :=
  if bool_decide (is_Some destination) || negb (len field =? 52) then Err (Invalid label) else
  bytes ← convert_bits field 5 8 false;
  if (length bytes =? 32)%nat then Ok (Some bytes) else Err (Encoding label).

(** The nested loops over the reversed words and the five bits of each. *)
Definition word_bits (word_offset word : Z) : result VerificationError (list Z) :=
  try_fold (fun bits bit =>
    if negb (Z.land word (Z.shiftl 1 bit) =? 0)
    then b ← ok_or (Bounds "BOLT11 features") (try_from_u U16_MAX (word_offset * 5 + bit));
         Ok (bits ++ [b])
    else Ok bits) [] [0; 1; 2; 3; 4].

Fixpoint features_go (word_offset : Z) (words : list Z) (bits : list Z)
    : result VerificationError (list Z) :=
  match words with
  | [] => Ok bits
  | word :: words' =>
      more ← word_bits word_offset word;
      features_go (word_offset + 1) words' (bits ++ more)
  end.

Definition features (field : list Z) : result VerificationError (list Z) :=
  features_go 0 (reverse field) [].

Section bolt11.
Context `{EventCrypto, Ecdsa}.

(** The [match field_type]. *)
Definition apply_field (st : FieldState) (field_type : Z) (field : list Z)
    : result VerificationError FieldState :=
  let '(mkFields ph ps payee desc dhash expiry cltv feats) := st in
  if field_type =? 1 then
    ph ← set_once_32 ph field "payment hash"; Ok (mkFields ph ps payee desc dhash expiry cltv feats)
  else if field_type =? 16 then
    ps ← set_once_32 ps field "payment secret"; Ok (mkFields ph ps payee desc dhash expiry cltv feats)
  else if field_type =? 13 then
    if (desc : bool) then Err (Invalid "duplicate BOLT11 description") else
    bytes ← convert_bits field 5 8 false;
    if is_utf8 bytes then Ok (mkFields ph ps payee true dhash expiry cltv feats)
    else Err (Encoding "BOLT11 description UTF-8")
  else if field_type =? 23 then
    if dhash || negb (len field =? 52) then Err (Invalid "BOLT11 description hash")
    else Ok (mkFields ph ps payee desc true expiry cltv feats)
  else if field_type =? 19 then
    if bool_decide (is_Some payee) || negb (len field =? 53) then Err (Invalid "BOLT11 payee field") else
    bytes ← convert_bits field 5 8 false;
    key ← ok_or (Crypto "BOLT11 payee key") (public_key_from_slice bytes);
    Ok (mkFields ph ps (Some key) desc dhash expiry cltv feats)
  else if field_type =? 6 then
    expiry ← minimal_word_integer field "BOLT11 expiry";
    Ok (mkFields ph ps payee desc dhash expiry cltv feats)
  else if field_type =? 24 then
    cltv ← minimal_word_integer field "BOLT11 CLTV delta";
    Ok (mkFields ph ps payee desc dhash expiry cltv feats)
  else if field_type =? 5 then
    if bool_decide (is_Some feats) then Err (Invalid "duplicate BOLT11 features") else
    bits ← features field;
    Ok (mkFields ph ps payee desc dhash expiry cltv (Some bits))
  else Ok st.

(** [while position < signed_words.len()], on the words not yet read; every
    field has a three-word header, so the number of words is enough fuel. *)
Fixpoint parse_fields (fuel : nat) (rest : list Z) (st : FieldState)
    : result VerificationError FieldState :=
  match rest with
  | [] => Ok st
  | field_type :: high :: low :: rest' =>
      match fuel with
      | O => Err (Bounds "fuel")
      | S fuel' =>
          let length := high * 32 + low in
          if length <=? len rest' then
            st ← apply_field st field_type (take (Z.to_nat length) rest');
            parse_fields fuel' (drop (Z.to_nat length) rest') st
          else Err (Encoding "BOLT11 truncated field")
      end
  | _ => Err (Encoding "BOLT11 tagged field header")
  end.

(** The signature checks on the digest of the signed data. *)
Definition recover_payee (digest signature : list Z) (recovery_id : Z) (explicit_payee : option (list Z))
    : result VerificationError (list Z) :=
  if negb (recoverable_ok signature recovery_id) then Err (Crypto "BOLT11 signature encoding") else
  recovered ← ok_or (Crypto "BOLT11 signature recovery") (recover_ecdsa digest signature recovery_id);
  match explicit_payee with
  | None => Ok recovered
  | Some payee =>
      if negb (compact_ok signature) then Err (Crypto "BOLT11 signature") else
      if negb (is_low_s signature) || negb (bool_decide (payee = recovered))
      then Err (Crypto "BOLT11 payee signature") else
      if verify_ecdsa digest signature payee then Ok recovered
      else Err (Crypto "BOLT11 signature verification")
  end.

Definition parse_bolt11 (invoice : string) : result VerificationError Bolt11Invoice :=
  let bytes := as_bytes invoice in
  if is_empty bytes || (MAX_INVOICE_CHARS <? len bytes) || negb (is_ascii invoice)
  then Err (Bounds "BOLT11 invoice length") else
  if existsb is_ascii_uppercase bytes then Err (Encoding "BOLT11 must be lowercase") else
  separator ← ok_or (Encoding "BOLT11 separator") (rfind_bytes 49 bytes);
  let human_readable := of_bytes (take separator bytes) in
  words ← bech32_words (drop (S separator) bytes);
  if len words <? 6 + 7 + 104 then Err (Encoding "BOLT11 data length") else
  _ ← verify_bech32_checksum human_readable words;
  let data := take (length words - 6)%nat words in
  if len data <? 7 + 104 then Err (Encoding "BOLT11 signed data length") else
  let signed_end := (length data - 104)%nat in
  let signed_words := take signed_end data in
  signature_bytes ← convert_bits (drop signed_end data) 5 8 false;
  if negb (len signature_bytes =? 65) || (3 <? nth 64 signature_bytes 0)
  then Err (Encoding "BOLT11 recoverable signature") else
  '(network, amount_msat) ← parse_invoice_hrp human_readable;
  timestamp ← words_to_u64 (take 7 signed_words);
  fields ← parse_fields (length signed_words) (drop 7 signed_words) initial_fields;
  if Bool.eqb (fs_has_description fields) (fs_has_description_hash fields)
  then Err (Invalid "BOLT11 description choice") else
  signed_bytes ← convert_bits signed_words 5 8 true;
  let digest := sha256 (as_bytes human_readable ++ signed_bytes) in
  payee ← recover_payee digest (take 64 signature_bytes) (nth 64 signature_bytes 0)
            (fs_explicit_payee fields);
  payment_hash ← ok_or (Invalid "missing BOLT11 payment hash") (fs_payment_hash fields);
  payment_secret ← ok_or (Invalid "missing BOLT11 payment secret") (fs_payment_secret fields);
  Ok (mkInvoice network amount_msat timestamp payment_hash payment_secret payee
        (fs_expiry_seconds fields) (fs_minimum_final_cltv_delta fields)
        (default [] (fs_feature_bits fields))).
End bolt11.

(** ** The two bech32 implementations agree *)

Lemma bech32_polymod_eq hrp words : bech32_polymod hrp words = polymod (expand_prefix hrp) words.
Proof. unfold bech32_polymod, polymod, expand_prefix. by rewrite <- !app_assoc. Qed.

Lemma regroup_checked from to input st :
  0 <= from -> digits from input ->
  try_fold (fun st v =>
    if negb (Z.shiftr v from =? 0) then Err (Encoding "base conversion value")
    else Ok (regroup_step from to st v)) st input
  = Ok (fold_left (regroup_step from to) input st).
Proof.
  intros Hf Hd. revert st. induction Hd as [|v input Hv _ IH]; intros st; cbn [try_fold fold_left]; [done|].
  rewrite Z.shiftr_div_pow2, Z.div_small by lia. cbn [Z.eqb negb mbind result_bind]. apply IH.
Qed.

Lemma convert_bits_strict from to input :
  1 <= from <= 8 -> 1 <= to <= 8 -> digits from input ->
  convert_bits input from to false
  = ok_or (Encoding "noncanonical base conversion padding") (regroup_strict from to input).
Proof.
  intros Hf Ht Hd. unfold convert_bits, regroup_strict. rewrite regroup_checked by (done || lia).
  cbn [mbind result_bind]. pose proof (regroup_spec from to Hf Ht input Hd) as Hr.
  fold (regroup from to input). destruct (regroup from to input) as [[acc bits] out].
  destruct Hr as [(Hacc & _ & Hb & _) Hlt].
  rewrite Z.shiftl_mul_pow2, Z.mul_1_l, pad_word, land_mask by lia.
  assert ((acc mod 2 ^ bits * 2 ^ (to - bits) =? 0) = (acc mod 2 ^ bits =? 0)) as ->.
  { destruct (Z.eqb_spec (acc mod 2 ^ bits) 0) as [->|Hne]; [done|]. apply Z.eqb_neq. nia. }
  by destruct (_ || _).
Qed.

Lemma convert_bits_pad from to input :
  1 <= from <= 8 -> 1 <= to <= 8 -> digits from input ->
  convert_bits input from to true = Ok (regroup_pad from to input).
Proof.
  intros Hf Ht Hd. unfold convert_bits, regroup_pad. rewrite regroup_checked by (done || lia).
  cbn [mbind result_bind]. pose proof (regroup_spec from to Hf Ht input Hd) as Hr.
  fold (regroup from to input). destruct (regroup from to input) as [[acc bits] out].
  destruct Hr as [(_ & _ & Hb & _) _].
  rewrite Z.shiftl_mul_pow2, Z.mul_1_l by lia.
  destruct (Z.eqb_spec bits 0), (Z.ltb_spec 0 bits); try lia; done.
Qed.

Lemma bech32_words_Ok encoded words :
  bech32_words encoded = Ok words <-> encoded = charset_at <$> words /\ digits 5 words.
Proof.
  unfold bech32_words. split.
  - rewrite try_map_Ok_Forall2. intros Hw. apply chars_of_words, try_map_Ok_Forall2.
    eapply Forall2_impl; [exact Hw|]. intros c w Hc. apply ok_or_Ok in Hc. by apply ok_or_Ok.
  - intros [-> Hd]. pose proof (words_of_chars words Hd) as Hw.
    apply try_map_Ok_Forall2 in Hw. apply try_map_Ok_Forall2.
    eapply Forall2_impl; [exact Hw|]. intros c w Hc. apply ok_or_Ok in Hc. by apply ok_or_Ok.
Qed.

(** The second bech32 implementation, written for invoices and addresses,
    agrees with the one for keys: the same checksum polynomial, the same
    strict widening of words, and the same padded narrowing of bytes; and it
    refuses input outside the group width. *)
Theorem bech32_implementations_agree :
  (forall hrp words, bech32_polymod hrp words = polymod (expand_prefix hrp) words)
  /\ (forall words data, digits 5 words -> convert_bits words 5 8 false = Ok data <-> from_words words = Ok data)
  /\ (forall data, Forall is_byte data -> convert_bits data 8 5 true = Ok (to_words data))
  /\ (forall words, Forall (fun w => 0 <= w) words -> ~ digits 5 words ->
        convert_bits words 5 8 false = Err (Encoding "base conversion value")).
Proof.
  split; [exact bech32_polymod_eq|]. split; [|split].
  - intros words data Hd. rewrite convert_bits_strict by (done || lia). unfold from_words.
    by rewrite !ok_or_Ok.
  - intros data Hd. by rewrite convert_bits_pad by (done || lia).
  - intros words Hpos Hnd. unfold convert_bits.
    assert (forall st, try_fold (fun st v =>
      if negb (Z.shiftr v 5 =? 0) then Err (Encoding "base conversion value")
      else Ok (regroup_step 5 8 st v)) st words = Err (Encoding "base conversion value")) as Hf.
    { induction Hpos as [|w words Hw _ IH]; intros st; [by destruct Hnd; constructor|]. cbn [try_fold].
      rewrite Z.shiftr_div_pow2 by lia. destruct (Z.eqb_spec (w / 2 ^ 5) 0) as [Hz|]; [|done].
      cbn [negb mbind result_bind]. apply IH. intros Hd. apply Hnd. constructor; [|done].
      apply Z.div_small_iff in Hz; lia. }
    by rewrite Hf.
Qed.

(** ** SegWit addresses *)

Lemma polymod_tail_inj expanded words t1 t2 :
  digits 5 expanded -> digits 5 words -> digits 5 t1 -> digits 5 t2 ->
  length t1 = 6%nat -> length t2 = 6%nat ->
  polymod expanded (words ++ t1) = polymod expanded (words ++ t2) -> t1 = t2.
Proof.
  intros He Hw H1 H2 L1 L2.
  rewrite (polymod_six _ _ t1), (polymod_six _ _ t2) by done. intros Heq.
  apply (value_inj 5); [lia|done..|lia|].
  apply (f_equal (Z.lxor (polymod expanded (words ++ [0; 0; 0; 0; 0; 0])))) in Heq.
  by rewrite <- !Z.lxor_assoc, !Z.lxor_nilpotent, !Z.lxor_0_l in Heq.
Qed.

Lemma segwit_network_inj h1 h2 n :
  segwit_network h1 = Some n -> segwit_network h2 = Some n -> h1 = h2.
Proof.
  unfold segwit_network. intros H1 H2.
  destruct (String.eqb_spec h1 "bc"), (String.eqb_spec h2 "bc"); try congruence;
  destruct (String.eqb_spec h1 "tb"), (String.eqb_spec h2 "tb"); try congruence;
  destruct (String.eqb_spec h1 "bcrt"), (String.eqb_spec h2 "bcrt"); congruence.
Qed.

(** What an accepted address is made of. *)
Lemma parse_segwit_Ok address r :
  parse_segwit_address address = Ok r ->
  exists hrp tail,
    segwit_network hrp = Some (sa_network r)
    /\ as_bytes address = text_bytes (as_bytes hrp) ((sa_witness_version r :: to_words (sa_witness_program r)) ++ tail)
    /\ digits 5 tail /\ length tail = 6%nat
    /\ 0 <= sa_witness_version r <= 16 /\ Forall is_byte (sa_witness_program r)
    /\ polymod (expand_prefix hrp) ((sa_witness_version r :: to_words (sa_witness_program r)) ++ tail)
       = (if sa_witness_version r =? 0 then 1 else 0x2bc830a3)
    /\ 2 <= len (sa_witness_program r) <= 40
    /\ sa_script_pubkey r = (if sa_witness_version r =? 0 then 0 else 0x50 + sa_witness_version r)
                              :: len (sa_witness_program r) :: sa_witness_program r.
Proof.
  unfold parse_segwit_address. intros H. run_inv. bool_to_prop.
  match goal with Hr : rfind_bytes _ _ = Some _ |- _ => apply rfind_bytes_Some in Hr as (p & chars & Hl & <- & _) end.
  rewrite Hl, take_app_length in *. change (49 :: chars) with ([49] ++ chars) in *.
  rewrite app_assoc, drop_app_length' in * by (rewrite length_app; cbn; lia).
  match goal with Hw : bech32_words _ = Ok ?w |- _ => apply bech32_words_Ok in Hw as [-> Hwd]; rename w into words end.
  match goal with Hn : segwit_network _ = Some _ |- _ => rename Hn into Hnet end.
  rewrite bech32_polymod_eq in *. unfold len in * |-.
  destruct words as [|version words]; [cbn in *; lia|]. cbn [nth drop length skipn] in *. rewrite drop_0 in *.
  apply Forall_cons in Hwd as [Hver Hwd].
  set (payload := take (length words - 6) words) in *.
  assert (take (S (length words) - 7) words = payload) as Hpay by (unfold payload; f_equal; lia).
  rewrite Hpay in *. set (tail := drop (length words - 6) words) in *.
  assert (words = payload ++ tail) as Hsplit by (unfold payload, tail; by rewrite take_drop).
  clearbody payload. assert (length tail = 6%nat) as Htl by (unfold tail; rewrite length_drop; lia). clearbody tail.
  rewrite Hsplit in *. apply Forall_app in Hwd as [Hpd Htd].
  match goal with Hc : convert_bits _ _ _ _ = Ok ?d |- _ => rewrite convert_bits_strict in Hc by (done || lia);
    apply ok_or_Ok in Hc; assert (from_words payload = Ok d) as Hfw by (unfold from_words; by rewrite Hc) end.
  apply to_from_words in Hfw as [Htw Hb]; [|done].
  match goal with Ht : try_from_u _ _ = Some _ |- _ => apply try_from_u_Some in Ht as [-> _] end.
  subst r. cbn [sa_network sa_witness_version sa_witness_program sa_script_pubkey].
  rewrite Htw. exists (of_bytes p), tail.
  assert (as_bytes (of_bytes p) = p) as Hp.
  { apply as_bytes_of_bytes. pose proof (as_bytes_range address) as Hr. rewrite Hl in Hr.
    apply Forall_app in Hr as [Hr _]. by apply Forall_app in Hr as [Hr _]. }
  split; [done|]. split; [rewrite Hp; unfold text_bytes; by rewrite <- app_assoc|].
  do 2 (split; [done|]). split; [lia|]. do 2 (split; [done|]). split; [unfold len; lia|done].
Qed.

(** A SegWit address is unique: two accepted addresses of one network
    with the same script are the same string; and the script an address
    stands for is a witness program of its own version and length. *)
Theorem segwit_address_canonical a b ra rb :
  parse_segwit_address a = Ok ra -> parse_segwit_address b = Ok rb ->
  sa_network ra = sa_network rb -> sa_script_pubkey ra = sa_script_pubkey rb ->
  a = b /\ is_witness_program (sa_script_pubkey ra) = true /\ Forall is_byte (sa_script_pubkey ra).
Proof.
  intros (h1 & t1 & N1 & A1 & D1 & L1 & V1 & B1 & P1 & S1 & K1)%parse_segwit_Ok
         (h2 & t2 & N2 & A2 & D2 & L2 & V2 & B2 & P2 & S2' & K2)%parse_segwit_Ok Hnet Hscript.
  rewrite K1, K2 in Hscript. injection Hscript as Hv _ Hp.
  assert (sa_witness_version ra = sa_witness_version rb) as Hver.
  { destruct (Z.eqb_spec (sa_witness_version ra) 0), (Z.eqb_spec (sa_witness_version rb) 0); lia. }
  rewrite <- Hnet in N2. rewrite <- Hver, <- Hp in *.
  pose proof (segwit_network_inj _ _ _ N1 N2) as <-. split; [|split].
  - assert (t1 = t2) as <-; [|apply as_bytes_inj; congruence].
    apply (polymod_tail_inj (expand_prefix h1) (sa_witness_version ra :: to_words (sa_witness_program ra)));
      [apply expand_prefix_digits| |done..|congruence].
    constructor; [lia|by apply to_words_digits].
  - rewrite K1. unfold is_witness_program.
    rewrite Z.eqb_refl, (proj2 (Z.leb_le 2 _)), (proj2 (Z.leb_le _ 40)) by lia.
    destruct (Z.eqb_spec (sa_witness_version ra) 0); [done|]. cbn [andb].
    rewrite (proj2 (Z.leb_le 0x51 _)), (proj2 (Z.leb_le _ 0x60)), orb_true_r by lia. done.
  - rewrite K1. repeat constructor; [..|done]; unfold is_byte; try lia; case_match; lia.
Qed.

Definition example_address : string := "bc1qw508d6qejxtdg4y5r3zarvary0c5xw7kv8f3t4".

Lemma segwit_address_canonical_witness :
  exists r, parse_segwit_address example_address = Ok r
  /\ is_witness_program (sa_script_pubkey r) = true /\ len (sa_script_pubkey r) = 22.
Proof.
  destruct (parse_segwit_address example_address) as [r|] eqn:Hr; [|vm_compute in Hr; discriminate].
  exists r. split; [reflexivity|].
  destruct (segwit_address_canonical example_address example_address r r Hr Hr eq_refl eq_refl)
    as (_ & Hw & _).
  split; [exact Hw|]. vm_compute in Hr. injection Hr as <-. reflexivity.
Defined.

(** ** Integers and amounts *)

Lemma value_cons_le w (acc : Z) words :
  0 <= w -> 0 <= acc -> digits w words -> acc <= fold_left (fun v x => v * 2 ^ w + x) words acc.
Proof.
  intros Hw Ha Hd. revert acc Ha. induction Hd as [|x l Hx _ IH]; intros acc Ha; cbn [fold_left]; [done|].
  etransitivity; [|apply IH; nia]. nia.
Qed.

Lemma words_to_u64_Ok words v :
  digits 5 words -> words_to_u64 words = Ok v <-> v = value 5 words /\ value 5 words <= U64_MAX.
Proof.
  intros Hd. unfold words_to_u64, value.
  assert (forall acc, 0 <= acc <= U64_MAX ->
    try_fold (fun value word => ok_or (Bounds "base32 integer")
      (v ← checked_mul U64_MAX value 32; checked_add U64_MAX v word)) acc words = Ok v
    <-> v = fold_left (fun v x => v * 2 ^ 5 + x) words acc
        /\ fold_left (fun v x => v * 2 ^ 5 + x) words acc <= U64_MAX) as Hgen.
  { induction Hd as [|x l Hx Hl IH]; intros acc Ha; cbn [try_fold fold_left]; [naive_solver lia|].
    change (2 ^ 5) with 32 in *.
    assert (acc * 32 + x <= fold_left (fun v x => v * 32 + x) l (acc * 32 + x)) as Hmono
      by (apply (value_cons_le 5); [lia..|done]).
    destruct (Z.le_gt_cases (acc * 32 + x) U64_MAX).
    - rewrite checked_mul_eq by lia. cbn [mbind option_bind]. rewrite checked_add_eq by lia.
      cbn [ok_or mbind result_bind]. apply IH. lia.
    - assert (ok_or (Bounds "base32 integer")
        (v ← checked_mul U64_MAX acc 32; checked_add U64_MAX v x) = Err (Bounds "base32 integer")) as ->.
      { unfold checked_mul, checked_add. destruct (Z.leb_spec (acc * 32) U64_MAX); cbn; [|done].
        by destruct (Z.leb_spec (acc * 32 + x) U64_MAX); [lia|]. }
      split; [done|]. lia. }
  apply Hgen. unfold U64_MAX. lia.
Qed.

(** Millisatoshis of one unit, times ten so that pico-bitcoin is whole. *)
Definition tenth_msat (unit : option Z) : Z :=
  match unit with
  | None => 1000000000000
  | Some 109 => 1000000000
  | Some 117 => 1000000
  | Some 110 => 1000
  | _ => 1
  end.

Lemma millisatoshis_exact v unit msat :
  0 <= v -> (unit = None \/ unit = Some 109 \/ unit = Some 117 \/ unit = Some 110 \/ unit = Some 112) ->
  millisatoshis v unit = Some msat -> 10 * msat = v * tenth_msat unit /\ 0 <= msat.
Proof.
  intros Hv Hu. unfold millisatoshis.
  destruct Hu as [-> | [-> | [-> | [-> | ->]]]]; cbn [tenth_msat Z.eqb Pos.eqb] in *;
    rewrite ?checked_mul_Some.
  1-4: lia.
  destruct (Z.eqb_spec (v mod 10) 0) as [Hm|Hm]; [|done]. intros [= <-].
  assert (v = 10 * (v / 10)) by (apply Z.div_exact; lia). lia.
Qed.

Lemma amount_unit_cases amount :
  (amount_unit amount = None
   \/ exists unit, amount_unit amount = Some unit /\ last amount = Some unit
        /\ (unit = 109 \/ unit = 117 \/ unit = 110 \/ unit = 112)).
Proof.
  unfold amount_unit. destruct (last amount) as [u|]; cbn; [|by left].
  case_match eqn:Hu; [right|by left]. exists u. split; [done|]. split; [done|]. lia.
Qed.

Lemma parse_bytes_value max l v :
  l <> [] -> forallb is_ascii_digit l = true -> parse_bytes max l = Some v ->
  v = digits_value l /\ 0 <= v <= max.
Proof.
  intros Hne Hd Hp. rewrite parse_bytes_digits in Hp by done.
  unfold parse_digits in Hp. rewrite Hd in Hp. destruct l; [done|]. cbn [negb orb] in Hp.
  pose proof (digits_value_nonneg _ Hd). run_inv. bool_to_prop. subst. split; [done|lia].
Qed.

(** Invoice amounts are exact: an accepted human-readable part is a known
    network prefix, then nothing, or decimal digits with at most one unit
    letter, and the amount in millisatoshis is the written value times the
    unit with no rounding (a pico amount must be a multiple of ten). *)
Theorem invoice_amount_exact hrp network amount :
  parse_invoice_hrp hrp = Ok (network, amount) ->
  exists prefix rest,
    invoice_network hrp = Some (prefix, network)
    /\ rest = drop (length (as_bytes prefix)) (as_bytes hrp)
    /\ match amount with
       | None => rest = []
       | Some msat => exists digits unit,
           rest = digits ++ match unit with None => [] | Some u => [u] end
           /\ digits <> [] /\ forallb is_ascii_digit digits = true
           /\ (unit = None \/ unit = Some 109 \/ unit = Some 117 \/ unit = Some 110 \/ unit = Some 112)
           /\ 10 * msat = digits_value digits * tenth_msat unit /\ 0 <= msat
       end.
Proof.
  unfold parse_invoice_hrp. intros H. apply bind_Ok in H as ([prefix net] & Hn & H). apply ok_or_Ok in Hn.
  set (rest := drop (length (as_bytes prefix)) (as_bytes hrp)) in *. exists prefix, rest.
  destruct (is_empty rest) eqn:He.
  { injection H as <- <-. split; [done|]. split; [done|]. by destruct rest. }
  destruct (_ || _) eqn:Hg in H; [done|]. apply orb_false_iff in Hg as [Hne Hd].
  apply negb_false_iff in Hd. apply bind_Ok in H as (v & Hv & H). apply ok_or_Ok in Hv.
  apply bind_Ok in H as (msat & Hm & H). apply ok_or_Ok in Hm. injection H as <- <-.
  split; [done|]. split; [done|].
  set (ds := match amount_unit rest with Some _ => _ | None => rest end) in *.
  assert (ds <> []) as Hds by (by destruct ds).
  destruct (parse_bytes_value _ _ _ Hds Hd Hv) as [-> Hr].
  exists ds, (amount_unit rest).
  assert (amount_unit rest = None \/ amount_unit rest = Some 109 \/ amount_unit rest = Some 117
    \/ amount_unit rest = Some 110 \/ amount_unit rest = Some 112) as Hu.
  { destruct (amount_unit_cases rest) as [->|(u & -> & _ & ?)]; [by left|]. right. naive_solver. }
  split; [|split; [done|split; [done|split; [done|]]]].
  - destruct (amount_unit_cases rest) as [Hnone|(u & Hs & Hl & _)].
    + unfold ds. by rewrite Hnone, app_nil_r.
    + unfold ds. rewrite Hs. apply last_Some in Hl as [l ->]. rewrite length_app. cbn [length].
      by rewrite Nat.add_sub, take_app_length.
  - apply millisatoshis_exact; [lia|done|done].
Qed.


(** ** Feature bits *)

Lemma land_bit w b : 0 <= b -> negb (Z.land w (Z.shiftl 1 b) =? 0) = Z.testbit w b.
Proof.
  intros Hb. rewrite Z.shiftl_mul_pow2, Z.mul_1_l by done.
  assert (Z.land w (2 ^ b) = if Z.testbit w b then 2 ^ b else 0) as ->.
  { apply Z.bits_inj'. intros n Hn. rewrite Z.land_spec, Z.pow2_bits_eqb by done.
    destruct (Z.eqb_spec b n) as [->|Hne].
    - rewrite andb_true_r. destruct (Z.testbit w n); [by rewrite Z.pow2_bits_true|by rewrite Z.bits_0].
    - rewrite andb_false_r. destruct (Z.testbit w b); [|by rewrite Z.bits_0].
      symmetry. by apply Z.pow2_bits_false. }
  destruct (Z.testbit w b); [|done]. apply negb_true_iff, Z.eqb_neq. lia.
Qed.

Definition bits_of_word (word_offset word : Z) : list Z :=
  (fun bit => word_offset * 5 + bit) <$> List.filter (Z.testbit word) [0; 1; 2; 3; 4].

Lemma word_bits_eq off w :
  0 <= off -> off * 5 + 4 <= U16_MAX -> word_bits off w = Ok (bits_of_word off w).
Proof.
  intros Ho Hm. unfold word_bits, bits_of_word. cbn [try_fold List.filter].
  repeat (rewrite land_bit by lia; rewrite try_from_u_eq by lia;
    destruct (Z.testbit w _); cbn [ok_or mbind result_bind app fmap list_fmap]).
  all: reflexivity.
Qed.

Lemma features_go_eq off words acc :
  0 <= off -> (off + len words) * 5 <= U16_MAX + 1 ->
  exists bits, features_go off words acc = Ok (acc ++ bits)
  /\ forall n, n ∈ bits <-> off * 5 <= n /\ exists i w, words !! i = Some w
        /\ n ∈ bits_of_word (off + Z.of_nat i) w.
Proof.
  revert off acc. induction words as [|w words IH]; intros off acc Ho Hm; cbn [features_go].
  { exists []. rewrite app_nil_r. split; [done|]. intros n. split; [by intros []%elem_of_nil|].
    intros (_ & i & w & Hi & _). by rewrite lookup_nil in Hi. }
  unfold len in Hm. cbn [length] in Hm. rewrite word_bits_eq by lia. cbn [mbind result_bind].
  destruct (IH (off + 1) (acc ++ bits_of_word off w)) as (bits & Hf & Hin); [lia|unfold len; lia|].
  exists (bits_of_word off w ++ bits). split; [by rewrite Hf, app_assoc|].
  intros n. rewrite elem_of_app, Hin. split.
  - intros [Hb|(Hn & i & w' & Hi & Hb)].
    + split; [|exists 0%nat, w; by rewrite Z.add_0_r].
      unfold bits_of_word in Hb. apply list_elem_of_fmap in Hb as (b & -> & Hb).
      apply list_elem_of_In, filter_In in Hb as [Hb _]. cbn in Hb. lia.
    + split; [lia|]. exists (S i), w'. split; [done|].
      by replace (off + Z.of_nat (S i)) with (off + 1 + Z.of_nat i) by lia.
  - intros (Hn & [|i] & w' & Hi & Hb); [left|right].
    + injection Hi as <-. by rewrite Z.add_0_r in Hb.
    + replace (off + Z.of_nat (S i)) with (off + 1 + Z.of_nat i) in Hb by lia.
      split; [|by exists i, w'].
      unfold bits_of_word in Hb. apply list_elem_of_fmap in Hb as (b & -> & Hb).
      apply list_elem_of_In, filter_In in Hb as [Hb _]. cbn in Hb. lia.
Qed.

(** Bit [5 i + b] of the number the reversed words spell is bit [b] of the
    [i]-th word. *)
Lemma testbit_words words i b :
  digits 5 words -> 0 <= b < 5 ->
  Z.testbit (value 5 (reverse words)) (5 * Z.of_nat i + b)
  = match words !! i with Some w => Z.testbit w b | None => false end.
Proof.
  intros Hd Hb. revert i. induction Hd as [|w words Hw Hd IH]; intros i.
  { by rewrite lookup_nil, Z.bits_0. }
  rewrite reverse_cons, value_snoc, <- Z.shiftl_mul_pow2 by lia.
  assert (Z.shiftl (value 5 (reverse words)) 5 + w = Z.lor (Z.shiftl (value 5 (reverse words)) 5) w) as ->.
  { rewrite lor_shiftl by lia. by rewrite Z.shiftl_mul_pow2 by lia. }
  rewrite Z.lor_spec, Z.shiftl_spec by lia. destruct i as [|i]; cbn [lookup list_lookup].
  - rewrite Z.testbit_neg_r by lia. cbn [orb]. by f_equal.
  - replace (5 * Z.of_nat (S i) + b - 5) with (5 * Z.of_nat i + b) by lia. rewrite IH.
    assert (Z.testbit w (5 * Z.of_nat (S i) + b) = false) as ->.
    { apply (proj1 (Z.bounded_iff_bits_nonneg 5 w ltac:(lia) ltac:(lia))); lia. }
    by rewrite orb_false_r.
Qed.

(** The feature vector of an invoice is read without loss: for a field of
    the encodable length the parser returns exactly the positions of the one
    bits of the number the field spells, bit 0 being the lowest bit of the
    last word. *)
Theorem features_exact field :
  digits 5 field -> len field <= 1023 ->
  exists bits, features field = Ok bits
  /\ forall n, n ∈ bits <-> 0 <= n /\ Z.testbit (value 5 field) n = true.
Proof.
  intros Hd Hl. unfold features.
  destruct (features_go_eq 0 (reverse field) []) as (bits & Hf & Hin);
    [lia|unfold len, U16_MAX in *; rewrite length_reverse; lia|].
  exists bits. split; [exact Hf|]. intros n. rewrite Hin.
  assert (digits 5 (reverse field)) as Hdr by by apply Forall_reverse.
  assert (value 5 field = value 5 (reverse (reverse field))) as -> by by rewrite reverse_involutive.
  split.
  - intros (Hn & i & w & Hi & Hb). split; [lia|].
    unfold bits_of_word in Hb. apply list_elem_of_fmap in Hb as (b & -> & Hb).
    apply list_elem_of_In, filter_In in Hb as [Hb Ht]. cbn in Hb.
    replace ((0 + Z.of_nat i) * 5 + b) with (5 * Z.of_nat i + b) by lia.
    by rewrite testbit_words, Hi by (done || lia).
  - intros (Hn & Ht). split; [lia|].
    replace n with (5 * Z.of_nat (Z.to_nat (n / 5)) + n mod 5) in Ht
      by (rewrite Z2Nat.id by (apply Z.div_pos; lia); symmetry; apply Z.div_mod; lia).
    pose proof (Z.mod_pos_bound n 5). rewrite testbit_words in Ht by (done || lia).
    destruct (reverse field !! Z.to_nat (n / 5)) as [w|] eqn:Hi; [|done].
    exists (Z.to_nat (n / 5)), w. split; [done|]. unfold bits_of_word. apply list_elem_of_fmap.
    exists (n mod 5). split.
    + rewrite Z.add_0_l, Z2Nat.id by (apply Z.div_pos; lia). rewrite Z.mul_comm. apply Z.div_mod. lia.
    + apply list_elem_of_In, filter_In. split; [cbn; lia|done].
Qed.


(** ** Invoices *)

Section bolt11_claims.
Context `{EventCrypto, Ecdsa}.

Definition len32 (o : option (list Z)) : Prop := forall l, o = Some l -> length l = 32%nat.

Lemma set_once_32_len d field label d' : set_once_32 d field label = Ok d' -> len32 d'.
Proof.
  unfold set_once_32. intros Hs l ->. run_inv. subst.
  match goal with Hl : (_ =? 32)%nat = true |- _ => by apply Nat.eqb_eq in Hl end.
Qed.

Lemma apply_field_len st t field st' :
  apply_field st t field = Ok st' -> len32 (fs_payment_hash st) -> len32 (fs_payment_secret st) ->
  len32 (fs_payment_hash st') /\ len32 (fs_payment_secret st').
Proof.
  destruct st as [ph ps payee desc dhash expiry cltv feats]. cbn. intros Hs Hh Hp.
  repeat (case_match; try discriminate Hs); run_inv; subst; cbn; eauto using set_once_32_len.
Qed.

(** The hash and secret a loop collects are 32 bytes. *)
Lemma parse_fields_len fuel rest st st' :
  parse_fields fuel rest st = Ok st' -> len32 (fs_payment_hash st) -> len32 (fs_payment_secret st) ->
  len32 (fs_payment_hash st') /\ len32 (fs_payment_secret st').
Proof.
  revert rest st. induction fuel as [|fuel IH]; intros [|a [|b [|c rest]]] st; cbn [parse_fields];
    try (by intros [= <-]); try done.
  case_match; [|done]. intros (st1 & Ha & Hp)%bind_Ok Hh Hs.
  destruct (apply_field_len _ _ _ _ Ha Hh Hs). by eapply IH.
Qed.

(** More fuel than words changes nothing, so the loop always runs to the end
    of the signed words or to an error of the code. *)
Lemma parse_fields_fuel fuel fuel' rest st :
  (length rest <= fuel)%nat -> (length rest <= fuel')%nat ->
  parse_fields fuel rest st = parse_fields fuel' rest st.
Proof.
  revert fuel' rest st. induction fuel as [|fuel IH]; intros fuel' [|a [|b [|c rest]]] st Hf Hf';
    cbn [length] in *; try lia; try (by destruct fuel').
  destruct fuel' as [|fuel']; [lia|]. cbn [parse_fields]. case_match; [|done].
  destruct (apply_field st a _) as [st1|]; cbn; [|done].
  apply IH; rewrite length_drop; lia.
Qed.

Lemma recover_payee_Ok digest signature id explicit payee :
  recover_payee digest signature id explicit = Ok payee -> recover_ecdsa digest signature id = Some payee.
Proof. unfold recover_payee. intros Hr. run_inv. destruct explicit; run_inv; by subst. Qed.

Lemma take_nth_snoc (l : list Z) n d : length l = S n -> l = take n l ++ [nth n l d].
Proof.
  revert l. induction n as [|n IH]; intros [|a l] Hl; cbn in *; try lia.
  - by destruct l.
  - f_equal. apply IH. lia.
Qed.

(** The cuts of the word list: signed words, signature, checksum. *)
Lemma split_invoice_words (words : list Z) :
  (117 <= length words)%nat ->
  let data := take (length words - 6) words in
  let signed := take (length data - 104) data in
  let sigw := drop (length data - 104) data in
  exists tail, words = (signed ++ sigw) ++ tail /\ length tail = 6%nat /\ (7 <= length signed)%nat.
Proof.
  intros Hl data signed sigw. exists (drop (length words - 6) words). unfold signed, sigw.
  rewrite take_drop. unfold data. rewrite take_drop, length_drop, !length_take. split; [done|lia].
Qed.

Lemma signature_words sigw sigb :
  digits 5 sigw -> convert_bits sigw 5 8 false = Ok sigb ->
  negb (len sigb =? 65) || (3 <? nth 64 sigb 0) = false ->
  sigw = to_words (take 64 sigb ++ [nth 64 sigb 0]) /\ length (take 64 sigb) = 64%nat
  /\ 0 <= nth 64 sigb 0 <= 3.
Proof.
  intros Hd Hc [Hl%negb_false_iff%Z.eqb_eq Hn%Z.ltb_ge]%orb_false_iff. unfold len in Hl.
  rewrite convert_bits_strict in Hc by (done || lia). apply ok_or_Ok in Hc.
  destruct (regroup_strict_spec 5 8 ltac:(lia) ltac:(lia) sigw sigb Hd Hc) as (? & _ & _ & _ & Hb & _).
  assert (sigb = take 64 sigb ++ [nth 64 sigb 0]) as Hs by (apply take_nth_snoc; lia).
  split; [|split; [rewrite length_take; lia|]].
  - rewrite <- Hs. symmetry. apply (regroup_pad_strict 8 5); [lia..|done|done].
  - rewrite Hs in Hb. apply Forall_app in Hb as [_ [Hb _]%Forall_cons]. unfold is_byte in Hb. lia.
Qed.

Lemma timestamp_words signed t :
  digits 5 signed -> (7 <= length signed)%nat -> words_to_u64 (take 7 signed) = Ok t ->
  t = value 5 (take 7 signed) /\ 0 <= t < 2 ^ 35.
Proof.
  intros Hd Hl Ht. assert (digits 5 (take 7 signed)) as Hd7 by by apply Forall_take.
  apply words_to_u64_Ok in Ht as [-> _]; [|done]. split; [done|].
  pose proof (value_bound 5 _ ltac:(lia) Hd7) as Hv. rewrite length_take, Nat.min_l in Hv by done.
  exact Hv.
Qed.

(** C37: an accepted invoice is exactly the text of its human-readable part,
    its signed words, its 65-byte recoverable signature and the one matching
    checksum; the payee it reports is the key recovered from that signature
    over the human-readable part and all signed words; network and amount
    are those of the human-readable part, the timestamp the first seven
    words, and payment hash and secret are 32 bytes.  Nothing the caller
    reads escapes the payee's signature. *)
Theorem bolt11_authenticated invoice inv :
  parse_bolt11 invoice = Ok inv ->
  exists hrp signed signature id,
    let body := signed ++ to_words (signature ++ [id]) in
    as_bytes invoice = text_bytes (as_bytes hrp) (body ++ checksum hrp body)
    /\ digits 5 signed /\ length signature = 64%nat /\ 0 <= id <= 3
    /\ recover_ecdsa (sha256 (as_bytes hrp ++ regroup_pad 5 8 signed)) signature id = Some (inv_payee inv)
    /\ parse_invoice_hrp hrp = Ok (inv_network inv, inv_amount_msat inv)
    /\ inv_timestamp inv = value 5 (take 7 signed) /\ 0 <= inv_timestamp inv < 2 ^ 35
    /\ length (inv_payment_hash inv) = 32%nat /\ length (inv_payment_secret inv) = 32%nat.
Proof.
  unfold parse_bolt11, verify_bech32_checksum. intros Hp.
  destruct (_ || _) in Hp; [done|]. destruct (existsb _ _) in Hp; [done|].
  apply bind_Ok in Hp as (sep & Hsep & Hp). apply ok_or_Ok, rfind_bytes_Some in Hsep as (p & cs & Hl & <- & _).
  assert (as_bytes (of_bytes p) = p) as Hpb.
  { apply as_bytes_of_bytes. pose proof (as_bytes_range invoice) as Hr. rewrite Hl in Hr.
    by apply Forall_app in Hr as [? _]. }
  rewrite Hl, take_app_length in Hp. change (p ++ 49 :: cs) with (p ++ [49] ++ cs) in Hp.
  rewrite app_assoc, drop_app_length' in Hp by (rewrite length_app; cbn; lia).
  apply bind_Ok in Hp as (words & [-> Hwd]%bech32_words_Ok & Hp).
  destruct (Z.ltb_spec (len words) (6 + 7 + 104)) as [|Hwl]; [done|]. unfold len in Hwl.
  apply bind_Ok in Hp as ([] & Hck & Hp). rewrite bech32_polymod_eq in Hck.
  destruct (Z.eqb_spec (polymod (expand_prefix (of_bytes p)) words) 1) as [Hpoly|]; [|done]. clear Hck.
  destruct (split_invoice_words words ltac:(lia)) as (tail & Hwt & Htl & Hsl).
  set (data := take (length words - 6) words) in *. destruct (len data <? 7 + 104); [done|].
  set (signed := take (length data - 104) data) in *. set (sigw := drop (length data - 104) data) in *.
  clearbody signed sigw. rewrite Hwt in Hwd, Hpoly.
  apply Forall_app in Hwd as [Hdd Htd]. pose proof Hdd as Hdd'. apply Forall_app in Hdd' as [Hsd Hgd].
  apply checksum_unique in Hpoly; [|done..].
  apply bind_Ok in Hp as (sigb & Hsb & Hp). destruct (_ || _) eqn:Hg in Hp; [done|].
  destruct (signature_words _ _ Hgd Hsb Hg) as (Hsw & Hs64 & Hid).
  apply bind_Ok in Hp as ([network amount] & Hhrp & Hp). apply bind_Ok in Hp as (ts & Hts & Hp).
  destruct (timestamp_words _ _ Hsd Hsl Hts) as [Hts1 Hts2].
  apply bind_Ok in Hp as (fields & Hf & Hp). apply parse_fields_len in Hf as [Hh32 Hs32]; [|done..].
  destruct (Bool.eqb _ _); [done|]. rewrite convert_bits_pad in Hp by (done || lia). cbn [mbind result_bind] in Hp.
  apply bind_Ok in Hp as (payee & Hrec%recover_payee_Ok & Hp).
  apply bind_Ok in Hp as (h & Hh%ok_or_Ok & Hp). apply bind_Ok in Hp as (s & Hs%ok_or_Ok & Hp).
  apply Ok_inj in Hp. subst inv.
  exists (of_bytes p), signed, (take 64 sigb), (nth 64 sigb 0).
  cbn [inv_payee inv_network inv_amount_msat inv_timestamp inv_payment_hash inv_payment_secret].
  rewrite <- Hsw, <- Hpoly, Hpb in *. rewrite Hl, Hwt. do 9 (split; [done || eauto|]). eauto.
Qed.
End bolt11_claims.

#[local] Existing Instance toy_crypto.
#[local] Instance toy_ecdsa : Ecdsa := {|
  public_key_from_slice l := Some l;
  recoverable_ok _ _ := true;
  recover_ecdsa digest signature id := Some (2 :: take 32 signature);
  compact_ok _ := true;
  is_low_s _ := true;
  verify_ecdsa _ _ _ := true;
|}.

Definition example_signed : list Z :=
  [1; 12; 0; 0; 4; 0; 9] ++ [1; 1; 20] ++ to_words (replicate 32 9)
  ++ [16; 1; 20] ++ to_words (replicate 32 8) ++ [13; 0; 0] ++ [6; 0; 2; 1; 0].
Definition example_body : list Z := example_signed ++ to_words (replicate 64 1 ++ [0]).
Definition example_invoice : string :=
  of_bytes (text_bytes (as_bytes "lnbcrt2500u") (example_body ++ checksum "lnbcrt2500u" example_body)).

Lemma bolt11_authenticated_witness :
  exists inv, parse_bolt11 example_invoice = Ok inv
  /\ inv_amount_msat inv = Some 250000000 /\ inv_expiry_seconds inv = 32
  /\ length (inv_payment_hash inv) = 32%nat.
Proof.
  destruct (parse_bolt11 example_invoice) as [inv|] eqn:Hi; [|vm_compute in Hi; discriminate].
  exists inv. split; [reflexivity|].
  destruct (bolt11_authenticated example_invoice inv Hi) as (hrp & signed & sg & id & _ & _ & _ & _ & _ & _ & _ & _ & Hh & _).
  vm_compute in Hi. injection Hi as <-. split; [reflexivity|]. split; [reflexivity|]. exact Hh.
Defined.
