(* ===== verification/Scalar.v ===== *)
(** * Scalar: byte-array arithmetic modulo the curve order

    [scalar_add_mod], [scalar_multiply_public], [scalar_negate_mod],
    [subtract_be] and the reductions of hashes of
    [immortal-core/src/mkt_swp_verify.rs].  A [[u8; 32]] is a list of 32
    bytes, most significant first. *)

From S2P Require Import Prelude Text Regroup Event Wire Taproot.

(** [CURVE_ORDER], the byte array. *)
Definition CURVE_ORDER_BYTES : list Z :=
  [0xff; 0xff; 0xff; 0xff; 0xff; 0xff; 0xff; 0xff; 0xff; 0xff; 0xff; 0xff; 0xff; 0xff; 0xff; 0xfe;
   0xba; 0xae; 0xdc; 0xe6; 0xaf; 0x48; 0xa0; 0x3b; 0xbf; 0xd2; 0x5e; 0x8c; 0xd0; 0x36; 0x41; 0x41].

(** The loop runs from the last byte to the first: the borrow out of the
    less significant bytes and their difference come first. *)
Fixpoint subtract_loop (left right : list Z) : Z * list Z :=
  match left, right with
  | minuend :: left', r :: right' =>
      let '(borrow, out) := subtract_loop left' right' in
      let subtrahend := r + borrow in
      if subtrahend <=? minuend then (0, (minuend - subtrahend) :: out)
      else (1, (minuend + 256 - subtrahend) :: out)
  | _, _ => (0, [])
  end.
Definition subtract_be (left right : list Z) : list Z := (subtract_loop left right).2.

(** The addition loop: carry and the low bytes of the sums. *)
Fixpoint add_loop (left right : list Z) : Z * list Z :=
  match left, right with
  | l :: left', r :: right' =>
      let '(carry, out) := add_loop left' right' in
      let value := l + r + carry in
      (Z.shiftr value 8, value mod 256 :: out)
  | _, _ => (0, [])
  end.

Definition scalar_add_mod (left right : list Z) : list Z :=
  let '(carry, low) := add_loop left right in
  let sum := carry mod 256 :: low in
  let order := 0 :: CURVE_ORDER_BYTES in
  let sum := if bytes_le order sum then subtract_be sum order else sum in
  tail sum.

Definition scalar_negate_mod (value : list Z) : list Z :=
  if bool_decide (value = replicate 32 0) then value else subtract_be CURVE_ORDER_BYTES value.

(** [for bit in (0..8).rev()]. *)
Definition multiply_bit (byte : Z) (right : list Z) (result : list Z) (bit : Z) : list Z :=
  let result := scalar_add_mod result result in
  if Z.land (Z.shiftr byte bit) 1 =? 1 then scalar_add_mod result right else result.
Definition multiply_byte (right : list Z) (result : list Z) (byte : Z) : list Z :=
  fold_left (multiply_bit byte right) [7; 6; 5; 4; 3; 2; 1; 0] result.

Definition scalar_multiply_public (left right : list Z) : result VerificationError (list Z) :=
  if bytes_le CURVE_ORDER_BYTES left || bytes_le CURVE_ORDER_BYTES right
  then Err (Crypto "MuSig2 scalar multiplication input")
  else Ok (fold_left (multiply_byte right) left (replicate 32 0)).

Definition scalar_bytes_from_hash (hash : list Z) : list Z :=
  if bytes_le CURVE_ORDER_BYTES hash then subtract_be hash CURVE_ORDER_BYTES else hash.

Definition scalar_from_hash `{TweakAdd} (hash : list Z) : result VerificationError Z :=
  ok_or (Crypto "scalar exceeds curve order") (scalar_from_be_bytes (scalar_bytes_from_hash hash)).

(** ** Lemmas *)

(** A scalar in range: 32 bytes spelling a number below the order. *)
Definition bytes32 (l : list Z) : Prop := length l = 32%nat /\ Forall is_byte l.
Definition scalar (l : list Z) : Prop := bytes32 l /\ be_value l < CURVE_ORDER.

(** Documented: [Scalar::from_be_bytes] accepts exactly the values below the
    order. *)
Class ScalarBytes `{TweakAdd} : Prop := {
  scalar_from_be_bytes_eq l :
    bytes32 l ->
    scalar_from_be_bytes l = if be_value l <? CURVE_ORDER then Some (be_value l) else None;
}.

Lemma be_value_cons b l : be_value (b :: l) = b * 256 ^ Z.of_nat (length l) + be_value l.
Proof.
  unfold be_value. change (b :: l) with ([b] ++ l). rewrite value_app by lia.
  rewrite Z.pow_mul_r by lia. change (2 ^ 8) with 256. change (value 8 [b]) with b. done.
Qed.

Lemma be_value_range l : Forall is_byte l -> 0 <= be_value l < 256 ^ Z.of_nat (length l).
Proof.
  intros Hl. pose proof (value_bound 8 l ltac:(lia) Hl) as Hv. by rewrite Z.pow_mul_r in Hv by lia.
Qed.

Lemma order_value : be_value CURVE_ORDER_BYTES = CURVE_ORDER.
Proof. vm_compute. reflexivity. Qed.

Lemma order_bytes : bytes32 CURVE_ORDER_BYTES.
Proof. split; [done|]. apply bytes_check. vm_compute. reflexivity. Qed.

(** Lexicographic comparison of equal-length arrays is numeric. *)
Lemma bytes_le_value l r :
  Forall is_byte l -> Forall is_byte r -> length l = length r ->
  bytes_le l r = (be_value l <=? be_value r).
Proof.
  intros Hl. revert r. induction Hl as [|a l Ha Hl IH]; intros r Hr Hlen.
  { destruct r; [done|]. cbn in Hlen. lia. }
  destruct Hr as [|b r Hb Hr]; [cbn in Hlen; lia|]. cbn in Hlen. cbn [bytes_le].
  rewrite !be_value_cons, (IH r) by (done || lia).
  replace (length r) with (length l) by lia.
  pose proof (be_value_range l Hl). pose proof (be_value_range r Hr).
  replace (length r) with (length l) in * by lia. set (M := 256 ^ Z.of_nat (length l)) in *.
  unfold is_byte in *. destruct (Z.ltb_spec a b); cbn [orb].
  - symmetry. apply Z.leb_le. nia.
  - destruct (Z.eqb_spec a b) as [->|]; cbn [andb].
    + destruct (Z.leb_spec (be_value l) (be_value r)); symmetry; [apply Z.leb_le|apply Z.leb_gt]; lia.
    + symmetry. apply Z.leb_gt. nia.
Qed.

Lemma subtract_loop_spec l r :
  Forall is_byte l -> Forall is_byte r -> length l = length r ->
  let '(borrow, out) := subtract_loop l r in
  (borrow = 0 \/ borrow = 1) /\ Forall is_byte out /\ length out = length l
  /\ be_value out = be_value l - be_value r + borrow * 256 ^ Z.of_nat (length l).
Proof.
  intros Hl. revert r. induction Hl as [|a l Ha Hl IH]; intros r Hr Hlen.
  { destruct r; [|cbn in Hlen; lia]. cbn. repeat split; [by left|constructor]. }
  destruct Hr as [|b r Hb Hr]; [cbn in Hlen; lia|]. cbn in Hlen. cbn [subtract_loop].
  specialize (IH r Hr ltac:(lia)). destruct (subtract_loop l r) as [borrow out].
  destruct IH as (Hbw & Hout & Hol & Hv). unfold is_byte in *.
  destruct (Z.leb_spec (b + borrow) a).
  - split; [by left|]. split; [constructor; [lia|done]|]. split; [cbn; lia|].
    rewrite !be_value_cons, Hv, Hol. replace (length r) with (length l) by lia. nia.
  - split; [by right|]. split; [constructor; [lia|done]|]. split; [cbn; lia|].
    rewrite !be_value_cons, Hv, Hol. replace (length r) with (length l) by lia.
    cbn [length]. rewrite Nat2Z.inj_succ, Z.pow_succ_r by lia. nia.
Qed.

Lemma subtract_be_spec l r :
  Forall is_byte l -> Forall is_byte r -> length l = length r -> be_value r <= be_value l ->
  Forall is_byte (subtract_be l r) /\ length (subtract_be l r) = length l
  /\ be_value (subtract_be l r) = be_value l - be_value r.
Proof.
  intros Hl Hr Hlen Hle. pose proof (subtract_loop_spec l r Hl Hr Hlen) as Hs. unfold subtract_be.
  destruct (subtract_loop l r) as [borrow out]. destruct Hs as (Hb & Ho & Hol & Hv). cbn [snd].
  split; [done|]. split; [done|].
  pose proof (be_value_range out Ho) as Hr1. pose proof (be_value_range l Hl) as Hr2.
  pose proof (be_value_range r Hr) as Hr3. rewrite Hol in Hr1.
  destruct Hb as [->| ->]; lia.
Qed.

Lemma add_loop_spec l r :
  Forall is_byte l -> Forall is_byte r -> length l = length r ->
  let '(carry, out) := add_loop l r in
  (carry = 0 \/ carry = 1) /\ Forall is_byte out /\ length out = length l
  /\ carry * 256 ^ Z.of_nat (length l) + be_value out = be_value l + be_value r.
Proof.
  intros Hl. revert r. induction Hl as [|a l Ha Hl IH]; intros r Hr Hlen.
  { destruct r; [|cbn in Hlen; lia]. cbn. repeat split; [by left|constructor]. }
  destruct Hr as [|b r Hb Hr]; [cbn in Hlen; lia|]. cbn in Hlen. cbn [add_loop].
  specialize (IH r Hr ltac:(lia)). destruct (add_loop l r) as [carry out].
  destruct IH as (Hc & Hout & Hol & Hv). unfold is_byte in *.
  rewrite Z.shiftr_div_pow2 by lia. change (2 ^ 8) with 256.
  pose proof (Z.div_mod (a + b + carry) 256 ltac:(lia)) as Hdm.
  pose proof (Z.mod_pos_bound (a + b + carry) 256 ltac:(lia)) as Hmb.
  assert (0 <= (a + b + carry) / 256 <= 1) by (destruct Hc as [->| ->]; lia).
  split; [lia|]. split; [by constructor|]. split; [cbn; lia|].
  rewrite !be_value_cons, Hol. replace (length r) with (length l) by lia.
  cbn [length]. rewrite Nat2Z.inj_succ, Z.pow_succ_r by lia. nia.
Qed.

Lemma CURVE_ORDER_bounds : 2 ^ 255 < CURVE_ORDER < 2 ^ 256.
Proof. unfold CURVE_ORDER. lia. Qed.

Lemma scalar_range l : scalar l -> 0 <= be_value l < CURVE_ORDER.
Proof. intros [[Hl Hb] Hv]. pose proof (be_value_range l Hb). lia. Qed.

Lemma bytes32_range l : bytes32 l -> 0 <= be_value l < 2 ^ 256.
Proof. intros [Hl Hb]. pose proof (be_value_range l Hb) as Hr. by rewrite Hl in Hr. Qed.

Lemma order_le l : bytes32 l -> bytes_le CURVE_ORDER_BYTES l = (CURVE_ORDER <=? be_value l).
Proof.
  intros [Hl Hb]. rewrite bytes_le_value, order_value; [done|apply order_bytes|done|by rewrite Hl].
Qed.

Lemma order_le_false l : scalar l -> bytes_le CURVE_ORDER_BYTES l = false.
Proof. intros Hs. rewrite order_le by apply Hs. apply Z.leb_gt. apply Hs. Qed.

Lemma scalar_inj l r : scalar l -> scalar r -> be_value l = be_value r -> l = r.
Proof.
  intros [[Hl Hlb] _] [[Hr Hrb] _]. apply value_inj; [lia|done|done|congruence].
Qed.

Lemma be_value_zeros n : be_value (replicate n 0) = 0.
Proof. induction n as [|n IH]; [done|]. cbn [replicate]. rewrite be_value_cons, IH. lia. Qed.

Lemma scalar_zero : scalar (replicate 32 0).
Proof.
  split; [split; [done|by apply Forall_replicate]|]. rewrite be_value_zeros. unfold CURVE_ORDER. lia.
Qed.

Lemma be_value_zero l : scalar l -> be_value l = 0 <-> l = replicate 32 0.
Proof.
  intros Hs. split; [|intros ->; apply be_value_zeros].
  intros Hv. apply scalar_inj; [done|apply scalar_zero|by rewrite be_value_zeros].
Qed.

(** Addition modulo the order. *)
Lemma scalar_add_mod_spec l r :
  scalar l -> scalar r ->
  scalar (scalar_add_mod l r) /\ be_value (scalar_add_mod l r) = (be_value l + be_value r) mod CURVE_ORDER.
Proof.
  intros Hsl Hsr. pose proof (scalar_range l Hsl) as Rl. pose proof (scalar_range r Hsr) as Rr.
  destruct Hsl as [[Hl Hlb] _], Hsr as [[Hr Hrb] _]. unfold scalar_add_mod.
  pose proof (add_loop_spec l r Hlb Hrb ltac:(lia)) as Ha.
  destruct (add_loop l r) as [carry low]. destruct Ha as (Hc & Hlow & Hll & Hv). rewrite Hl in *.
  assert (Hbyte : is_byte (carry mod 256)) by (apply Z.mod_pos_bound; lia).
  assert (Hcm : carry mod 256 = carry) by (destruct Hc as [->| ->]; done).
  set (sum := carry mod 256 :: low).
  assert (Hsum : Forall is_byte sum) by by constructor.
  assert (Hsv : be_value sum = be_value l + be_value r).
  { unfold sum. rewrite be_value_cons, Hll, Hcm. exact Hv. }
  assert (Hob : Forall is_byte (0 :: CURVE_ORDER_BYTES)) by (constructor; [done|apply order_bytes]).
  assert (Hov : be_value (0 :: CURVE_ORDER_BYTES) = CURVE_ORDER)
    by (rewrite be_value_cons, order_value; lia).
  assert (Hlen : length (0 :: CURVE_ORDER_BYTES) = length sum) by (unfold sum; cbn; lia).
  pose proof CURVE_ORDER_bounds as Hn.
  assert (Htail : forall s, Forall is_byte s -> length s = 33%nat -> be_value s < CURVE_ORDER ->
            scalar (tail s) /\ be_value (tail s) = be_value s).
  { intros [|h t] Hb Hlt Hlo; [done|]. apply Forall_cons in Hb as [Hh Ht]. cbn in Hlt. cbn [tail].
    rewrite be_value_cons in *. pose proof (be_value_range t Ht) as Rt.
    assert (Htl : length t = 32%nat) by lia. rewrite Htl in *. unfold is_byte in Hh.
    change (256 ^ Z.of_nat 32) with (2 ^ 256) in *.
    assert (h = 0) as -> by lia. split; [split; [split; [lia|done]|lia]|lia]. }
  rewrite bytes_le_value, Hov, Hsv by done. destruct (Z.leb_spec CURVE_ORDER (be_value l + be_value r)).
  - destruct (subtract_be_spec sum (0 :: CURVE_ORDER_BYTES) Hsum Hob ltac:(done) ltac:(lia)) as (S1 & S2 & S3).
    destruct (Htail _ S1 ltac:(rewrite S2; cbn [length sum]; unfold sum; cbn; lia) ltac:(lia)) as [T1 T2].
    split; [done|]. rewrite T2, S3, Hov, Hsv. apply (Z.mod_unique_pos _ _ 1); lia.
  - destruct (Htail _ Hsum ltac:(unfold sum; cbn; lia) ltac:(lia)) as [T1 T2].
    split; [done|]. rewrite T2, Hsv. symmetry. apply Z.mod_small. lia.
Qed.

(** Negation modulo the order. *)
Lemma scalar_negate_mod_spec l :
  scalar l ->
  scalar (scalar_negate_mod l) /\ be_value (scalar_negate_mod l) = (- be_value l) mod CURVE_ORDER.
Proof.
  intros Hs. pose proof (scalar_range l Hs) as Rl. unfold scalar_negate_mod.
  destruct (decide (l = replicate 32 0)) as [->|Hne].
  { rewrite bool_decide_true by done. rewrite be_value_zeros. split; [apply scalar_zero|done]. }
  rewrite bool_decide_false by done.
  assert (be_value l <> 0) by by rewrite be_value_zero.
  destruct order_bytes as [Ho Hob]. destruct Hs as [[Hl Hlb] Hv].
  destruct (subtract_be_spec CURVE_ORDER_BYTES l Hob Hlb ltac:(congruence)
              ltac:(rewrite order_value; lia)) as (S1 & S2 & S3).
  rewrite order_value in S3. split; [split; [split; [congruence|done]|lia]|].
  rewrite S3. apply (Z.mod_unique_pos _ _ (-1)); lia.
Qed.

(** Reduction of a digest. *)
Lemma scalar_bytes_from_hash_spec l :
  bytes32 l ->
  scalar (scalar_bytes_from_hash l)
  /\ be_value (scalar_bytes_from_hash l) = be_value l mod CURVE_ORDER.
Proof.
  intros Hb. pose proof (bytes32_range l Hb) as Rl. pose proof CURVE_ORDER_bounds as Hn.
  unfold scalar_bytes_from_hash. rewrite order_le by done.
  destruct (Z.leb_spec CURVE_ORDER (be_value l)).
  - destruct order_bytes as [Ho Hob]. destruct Hb as [Hl Hlb].
    destruct (subtract_be_spec l CURVE_ORDER_BYTES Hlb Hob ltac:(congruence)
                ltac:(rewrite order_value; lia)) as (S1 & S2 & S3).
    rewrite order_value in S3. split; [split; [split; [congruence|done]|lia]|].
    rewrite S3. apply (Z.mod_unique_pos _ _ 1); lia.
  - split; [split; [done|lia]|]. symmetry. apply Z.mod_small. lia.
Qed.

Lemma scalar_from_hash_spec `{ScalarBytes} l :
  bytes32 l -> scalar_from_hash l = Ok (be_value l mod CURVE_ORDER).
Proof.
  intros Hl. destruct (scalar_bytes_from_hash_spec l Hl) as [[Hs Hlt] Hv]. unfold scalar_from_hash.
  rewrite scalar_from_be_bytes_eq by done. rewrite <- Hv. by rewrite (proj2 (Z.ltb_lt _ _) Hlt).
Qed.

(** ** The double-and-add loop *)

Definition mul_acc (right acc out : list Z) (weight v : Z) : Prop :=
  scalar out /\ be_value out = (be_value acc * weight + v * be_value right) mod CURVE_ORDER.

Lemma mul_acc_trans right a b c w1 v1 w2 v2 :
  mul_acc right a b w1 v1 -> mul_acc right b c w2 v2 -> mul_acc right a c (w1 * w2) (v1 * w2 + v2).
Proof.
  intros [_ H1] [Hc H2]. split; [done|]. rewrite H2, H1.
  rewrite <- Z.add_mod_idemp_l, Z.mul_mod_idemp_l, Z.add_mod_idemp_l by (unfold CURVE_ORDER; lia).
  f_equal. ring.
Qed.

Lemma multiply_bit_spec byte right acc bit :
  scalar right -> scalar acc ->
  mul_acc right acc (multiply_bit byte right acc bit) 2 (Z.land (Z.shiftr byte bit) 1).
Proof.
  intros Hr Ha. unfold multiply_bit. destruct (scalar_add_mod_spec acc acc Ha Ha) as [D1 D2].
  rewrite (Z.land_ones _ 1) by lia. change (2 ^ 1) with 2.
  pose proof (Z.mod_pos_bound (Z.shiftr byte bit) 2 ltac:(lia)).
  destruct (Z.eqb_spec (Z.shiftr byte bit mod 2) 1) as [->|Hbit];
    [|replace (Z.shiftr byte bit mod 2) with 0 by lia].
  - destruct (scalar_add_mod_spec _ right D1 Hr) as [E1 E2]. split; [done|].
    rewrite E2, D2, Z.add_mod_idemp_l by (unfold CURVE_ORDER; lia). f_equal. lia.
  - split; [done|]. rewrite D2. f_equal. lia.
Qed.

Lemma byte_of_bits byte :
  is_byte byte ->
  fold_left (fun v bit => v * 2 + Z.land (Z.shiftr byte bit) 1) [7; 6; 5; 4; 3; 2; 1; 0] 0 = byte.
Proof.
  intros Hb. apply Z.eqb_eq. revert byte Hb.
  assert (Hall : forallb (fun byte => fold_left (fun v bit => v * 2 + Z.land (Z.shiftr byte bit) 1)
                   [7; 6; 5; 4; 3; 2; 1; 0] 0 =? byte) (seqZ 0 256) = true) by (vm_compute; reflexivity).
  intros byte Hb. rewrite forallb_forall in Hall. apply Hall, list_elem_of_In, elem_of_seqZ.
  unfold is_byte in Hb. lia.
Qed.

Lemma multiply_byte_spec right acc byte :
  scalar right -> scalar acc -> is_byte byte ->
  mul_acc right acc (multiply_byte right acc byte) 256 byte.
Proof.
  intros Hr Ha Hb. unfold multiply_byte.
  assert (Hgen : forall bits out w v, mul_acc right acc out w v ->
    mul_acc right acc (fold_left (multiply_bit byte right) bits out) (w * 2 ^ Z.of_nat (length bits))
      (fold_left (fun v bit => v * 2 + Z.land (Z.shiftr byte bit) 1) bits v)).
  { induction bits as [|bit bits IH]; intros out w v Ho; cbn [fold_left length].
    - by rewrite Z.mul_1_r.
    - rewrite Nat2Z.inj_succ, Z.pow_succ_r, Z.mul_assoc by lia. apply IH.
      eapply mul_acc_trans; [exact Ho|]. apply multiply_bit_spec; [done|apply Ho]. }
  rewrite <- (byte_of_bits byte Hb) at 2. apply (Hgen [7; 6; 5; 4; 3; 2; 1; 0] acc 1 0).
  split; [done|]. rewrite Z.mul_1_r, Z.mul_0_l, Z.add_0_r. symmetry. by apply Z.mod_small, scalar_range.
Qed.

Lemma multiply_loop_spec right bytes acc :
  scalar right -> scalar acc -> Forall is_byte bytes ->
  mul_acc right acc (fold_left (multiply_byte right) bytes acc)
    (256 ^ Z.of_nat (length bytes)) (be_value bytes).
Proof.
  intros Hr Ha Hb. revert acc Ha. induction Hb as [|b bytes Hb1 Hbs IH]; intros acc Ha; cbn [fold_left].
  - split; [done|]. cbn. rewrite Z.mul_1_r, Z.add_0_r. symmetry. by apply Z.mod_small, scalar_range.
  - pose proof (multiply_byte_spec right acc b Hr Ha Hb1) as H1.
    pose proof (mul_acc_trans _ _ _ _ _ _ _ _ H1 (IH _ (proj1 H1))) as H2.
    rewrite be_value_cons. cbn [length]. by rewrite Nat2Z.inj_succ, Z.pow_succ_r by lia.
Qed.

Lemma scalar_multiply_public_spec l r :
  scalar l -> scalar r ->
  exists out, scalar_multiply_public l r = Ok out /\ scalar out
    /\ be_value out = be_value l * be_value r mod CURVE_ORDER.
Proof.
  intros Hl Hr. unfold scalar_multiply_public. rewrite !order_le_false by done. cbn [orb].
  eexists. split; [done|].
  destruct (multiply_loop_spec r l (replicate 32 0) Hr scalar_zero (proj2 (proj1 Hl))) as [H1 H2].
  split; [done|]. rewrite H2, be_value_zeros. f_equal.
Qed.

(** ** The scalar arithmetic is arithmetic modulo the curve order *)

(** The byte-array arithmetic used by the MuSig2 code is exact arithmetic
    modulo the secp256k1 group order.  On 32-byte arrays below the order,
    addition, negation and double-and-add multiplication return a 32-byte
    array below the order that spells the sum, the additive inverse and the
    product modulo the order, multiplication without error; a multiplication
    with an operand at or above the order is refused; and any 32-byte digest
    is reduced to its residue. *)
Theorem scalar_arithmetic_exact `{ScalarBytes} (l r : list Z) :
  bytes32 l -> bytes32 r ->
  (scalar l -> scalar r ->
     scalar (scalar_add_mod l r)
     /\ be_value (scalar_add_mod l r) = (be_value l + be_value r) mod CURVE_ORDER
     /\ exists out, scalar_multiply_public l r = Ok out /\ scalar out
          /\ be_value out = be_value l * be_value r mod CURVE_ORDER)
  /\ (scalar l -> scalar (scalar_negate_mod l)
        /\ be_value (scalar_negate_mod l) = (- be_value l) mod CURVE_ORDER)
  /\ (~ (scalar l /\ scalar r) ->
        scalar_multiply_public l r = Err (Crypto "MuSig2 scalar multiplication input"))
  /\ scalar_from_hash l = Ok (be_value l mod CURVE_ORDER).
Proof.
  intros Hl Hr. split; [|split; [|split]].
  - intros Sl Sr. destruct (scalar_add_mod_spec l r Sl Sr). split; [done|]. split; [done|].
    by apply scalar_multiply_public_spec.
  - apply scalar_negate_mod_spec.
  - intros Hn. unfold scalar_multiply_public. rewrite !order_le by done.
    destruct (Z.leb_spec CURVE_ORDER (be_value l)); [done|].
    destruct (Z.leb_spec CURVE_ORDER (be_value r)); [done|]. by destruct Hn.
  - by apply scalar_from_hash_spec.
Qed.

(** The order itself, and the order less one, squared to one. *)
Definition order_minus_one : list Z := take 31 CURVE_ORDER_BYTES ++ [0x40].

Lemma toy_tweak_scalar : @ScalarBytes toy_tweak.
Proof. by split. Qed.

Lemma scalar_arithmetic_exact_witness :
  scalar order_minus_one
  /\ scalar_multiply_public order_minus_one order_minus_one = Ok (replicate 31 0 ++ [1])
  /\ @scalar_from_hash toy_tweak order_minus_one = Ok (CURVE_ORDER - 1).
Proof.
  assert (H1 : bytes32 order_minus_one) by (split; [done|apply bytes_check; vm_compute; reflexivity]).
  destruct (@scalar_arithmetic_exact toy_tweak toy_tweak_scalar order_minus_one order_minus_one H1 H1) as (Hm & Hneg & _ & Hh).
  assert (Hs : scalar order_minus_one) by (split; [exact H1|vm_compute; reflexivity]).
  split; [exact Hs|]. split.
  - destruct (Hm Hs Hs) as (_ & _ & out & -> & Ho & Hv). f_equal.
    apply scalar_inj; [exact Ho| |].
    + split; [split; [done|apply bytes_check; vm_compute; reflexivity]|vm_compute; reflexivity].
    + rewrite Hv. vm_compute. reflexivity.
  - rewrite Hh. vm_compute. reflexivity.
Defined.
