(* ===== verification/CurveOrder.v ===== *)
(** * CurveOrder: the order of the curve group is prime

    A Pocklington certificate for the constant [CURVE_ORDER] of
    [immortal-core/src/mkt_swp_verify.rs], so that products of nonzero
    residues do not vanish. *)

From Stdlib Require Import Znumtheory Zpow_facts.
From S2P Require Import Prelude Taproot.

(** ** Modular powers *)

Fixpoint powm (a n : Z) (e : positive) : Z :=
  match e with
  | xH => a mod n
  | xO e' => let r := powm a n e' in r * r mod n
  | xI e' => let r := powm a n e' in (r * r mod n) * a mod n
  end.

Lemma powm_eq a n e : 0 < n -> powm a n e = a ^ Zpos e mod n.
Proof.
  intros Hn. induction e as [e IH|e IH|]; cbn [powm].
  - rewrite IH, <- Zmult_mod, Zmult_mod_idemp_l. f_equal.
    rewrite Pos2Z.inj_xI. replace (2 * Zpos e + 1) with (Zpos e + Zpos e + 1) by lia.
    by rewrite !Z.pow_add_r, Z.pow_1_r by lia.
  - rewrite IH, <- Zmult_mod. f_equal. rewrite Pos2Z.inj_xO.
    replace (2 * Zpos e) with (Zpos e + Zpos e) by lia. by rewrite Z.pow_add_r by lia.
  - by rewrite Z.pow_1_r.
Qed.

(** ** Exponents of one modulo a divisor *)

Section exponents.
Context (b d : Z) (Hd : 1 < d).

Definition unit_exp (e : Z) : Prop := (d | b ^ Z.abs e - 1).

Lemma unit_exp_add x y : 0 <= x -> 0 <= y -> unit_exp x -> unit_exp (x + y) <-> unit_exp y.
Proof.
  unfold unit_exp. intros Hx Hy Hu. rewrite !Z.abs_eq in * by lia. rewrite Z.pow_add_r by lia.
  replace (b ^ x * b ^ y - 1) with ((b ^ x - 1) * b ^ y + (b ^ y - 1)) by ring. split; intros Hv.
  - apply Z.divide_add_cancel_r in Hv; [done|]. by apply Z.divide_mul_l.
  - apply Z.divide_add_r; [by apply Z.divide_mul_l|done].
Qed.

Lemma unit_exp_abs x : unit_exp (Z.abs x) <-> unit_exp x.
Proof. unfold unit_exp. by rewrite Z.abs_idemp. Qed.

Lemma unit_exp_sum x y : unit_exp x -> unit_exp y -> unit_exp (x + y).
Proof.
  rewrite <- (unit_exp_abs x), <- (unit_exp_abs y), <- (unit_exp_abs (x + y)). intros Hx Hy.
  assert (Z.abs (x + y) = Z.abs x + Z.abs y \/ Z.abs x = Z.abs y + Z.abs (x + y)
          \/ Z.abs y = Z.abs x + Z.abs (x + y)) as [->|[He|He]] by lia.
  - by apply unit_exp_add; [lia|lia|done|].
  - rewrite He in Hx. by apply unit_exp_add in Hx; [|lia|lia|].
  - rewrite He in Hy. by apply unit_exp_add in Hy; [|lia|lia|].
Qed.

Lemma unit_exp_mul k x : unit_exp x -> unit_exp (k * x).
Proof.
  rewrite <- (unit_exp_abs x), <- (unit_exp_abs (k * x)), Z.abs_mul. intros Hx.
  generalize (Z.abs_nonneg k). generalize (Z.abs k). apply natlike_ind.
  - unfold unit_exp. cbn. by exists 0.
  - intros j Hj IH. rewrite Z.mul_succ_l, Z.add_comm. by apply unit_exp_sum.
Qed.

Lemma unit_exp_gcd x y : unit_exp x -> unit_exp y -> unit_exp (Z.gcd x y).
Proof.
  intros Hx Hy. destruct (Z.gcd_bezout x y (Z.gcd x y) eq_refl) as (u & v & <-).
  apply unit_exp_sum; by apply unit_exp_mul.
Qed.

(** If [F > 0] is the least positive such exponent, the powers below it are
    distinct nonzero residues. *)
Lemma order_below F :
  0 < F -> unit_exp F -> (forall g, 0 < g < F -> ~ unit_exp g) -> F < d.
Proof.
  intros HF Hu Hmin.
  set (powers := (fun i => b ^ i mod d) <$> seqZ 0 F).
  assert (Hcancel : forall i, 0 <= i <= F -> Z.gcd (b ^ i) d = 1).
  { intros i Hi. apply Zgcd_1_rel_prime, bezout_rel_prime.
    unfold unit_exp in Hu. rewrite Z.abs_eq in Hu by lia. destruct Hu as [w Hw].
    apply (Bezout_intro _ _ _ (b ^ (F - i)) (- w)).
    rewrite <- Z.pow_add_r by lia. replace (F - i + i) with F by lia. lia. }
  assert (Hdist : forall i j, 0 <= i -> i < j -> j < F -> b ^ i mod d = b ^ j mod d -> False).
  { intros i j Hi Hij HjF Heq. apply (Hmin (j - i)); [lia|]. unfold unit_exp. rewrite Z.abs_eq by lia.
    apply (Z.gauss d (b ^ i)); [|by rewrite Z.gcd_comm, Hcancel by lia].
    rewrite Z.mul_sub_distr_l, <- Z.pow_add_r by lia. replace (i + (j - i)) with j by lia.
    rewrite Z.mul_1_r. apply Z.mod_divide; [lia|].
    by rewrite Zminus_mod, Heq, Z.sub_diag, Z.mod_0_l by lia. }
  assert (Hnd : NoDup powers).
  { apply NoDup_fmap_2_strong; [|apply NoDup_seqZ]. intros i j Hi%elem_of_seqZ Hj%elem_of_seqZ Heq.
    destruct (Z.lt_trichotomy i j) as [Hlt|[->|Hlt]]; [exfalso|done|exfalso].
    - by apply (Hdist i j); [lia|lia|lia|].
    - by apply (Hdist j i); [lia|lia|lia|]. }
  assert (Hin : forall x, x ∈ powers -> x ∈ seqZ 1 (d - 1)).
  { intros x (i & -> & Hi%elem_of_seqZ)%list_elem_of_fmap. apply elem_of_seqZ.
    pose proof (Z.mod_pos_bound (b ^ i) d ltac:(lia)).
    assert (b ^ i mod d <> 0); [|lia]. intros Hz%Z.mod_divide; [|lia].
    pose proof (Hcancel i ltac:(lia)) as Hg.
    assert ((d | 1)) as Hd1%Z.divide_1_r_nonneg; [|lia|lia]. rewrite <- Hg. by apply Z.gcd_greatest. }
  pose proof (NoDup_submseteq powers (seqZ 1 (d - 1)) Hnd Hin) as Hsub%submseteq_length.
  unfold powers in Hsub. rewrite length_fmap, !length_seqZ in Hsub. lia.
Qed.
End exponents.

(** ** Pocklington's criterion *)

Definition product (l : list Z) : Z := foldr Z.mul 1 l.

Lemma divisor_has_prime ps h :
  Forall prime ps -> 1 < h -> (h | product ps) -> exists p, p ∈ ps /\ (p | h).
Proof.
  intros Hps Hh. induction Hps as [|p ps Hp Hps IH]; cbn [product foldr].
  { intros Hd%Z.divide_1_r_nonneg; lia. }
  intros Hd. destruct (Zdivide_dec p h) as [Hph|Hph]; [exists p; split; [left|done]|].
  destruct IH as (q & Hq & Hqh).
  - apply (Z.gauss h p); [done|]. rewrite Z.gcd_comm. apply Zgcd_1_rel_prime. by apply prime_rel_prime.
  - exists q. split; [by right|done].
Qed.

(** [b] has order [product ps] modulo every divisor of [n]: the powers with
    one prime left out are one modulo none of them. *)
Fixpoint has_order (n b : Z) (ps : list Z) : bool :=
  match ps with
  | [] => b mod n =? 1
  | p :: rest => (Z.gcd (powm b n (Z.to_pos (product rest)) - 1) n =? 1)
                 && has_order n (powm b n (Z.to_pos p)) rest
  end.

Lemma product_pos ps : Forall prime ps -> 0 < product ps.
Proof. induction 1 as [|p ps [Hp _] _ IH]; cbn [product foldr]; [lia|]. fold (product ps). nia. Qed.

Lemma powm_powm b n p k : 1 < n -> 0 < p -> 0 <= k -> powm b n (Z.to_pos p) ^ k mod n = b ^ (p * k) mod n.
Proof. intros Hn Hp Hk. rewrite powm_eq, Z2Pos.id, <- Zpower_mod, Z.pow_mul_r by lia. done. Qed.

Lemma has_order_spec n b ps :
  1 < n -> Forall prime ps -> has_order n b ps = true ->
  b ^ product ps mod n = 1
  /\ forall p, p ∈ ps -> exists k, 0 < k /\ product ps = p * k /\ Z.gcd (b ^ k mod n - 1) n = 1.
Proof.
  intros Hn Hps. revert b. induction Hps as [|p ps Hp Hps IH]; intros b; cbn [has_order product foldr].
  { intros Hb%Z.eqb_eq. split; [by rewrite Z.pow_1_r|]. intros p Hp. by apply not_elem_of_nil in Hp. }
  fold (product ps). pose proof (product_pos ps Hps) as Hpos. destruct Hp as [Hp1 _].
  intros [Hg%Z.eqb_eq Hrest]%andb_true_iff. destruct (IH _ Hrest) as [Hone Hall].
  split; [by rewrite powm_powm in Hone by lia|].
  intros q [->|Hq]%elem_of_cons.
  - exists (product ps). split; [done|]. split; [done|]. by rewrite powm_eq, Z2Pos.id in Hg by lia.
  - destruct (Hall q Hq) as (k & Hk & Hprod & Hgk). exists (p * k). split; [nia|]. split; [nia|].
    by rewrite powm_powm in Hgk by lia.
Qed.

(** The certificate: [n - 1 = F·m] with [F² > n] and [F] the product of known
    primes, the order of a power of [a]. *)
Definition certificate (n a m : Z) (ps : list Z) : bool :=
  (1 <? n) && (n - 1 =? product ps * m) && (n <? product ps * product ps) && (0 <? m)
  && has_order n (powm a n (Z.to_pos m)) ps.

(** A number that is not prime has a divisor at most its square root. *)
Lemma small_divisor n : 1 < n -> ~ prime n -> exists d, 1 < d /\ (d | n) /\ d * d <= n.
Proof.
  intros Hn Hnp. apply not_prime_divide in Hnp as (d & Hd & [e He]); [|done].
  destruct (Z.le_gt_cases (d * d) n); [by exists d; repeat split; [lia|exists e|]|].
  exists e. split; [nia|]. split; [exists d; lia|nia].
Qed.

Lemma divides_mod d n x : (d | n) -> n <> 0 -> (d | x mod n - 1) <-> (d | x - 1).
Proof.
  intros Hdn Hn. rewrite (Z.div_mod x n) at 2 by done.
  replace (n * (x / n) + x mod n - 1) with (n * (x / n) + (x mod n - 1)) by lia.
  split; intros Hx; [apply Z.divide_add_r; [by apply Z.divide_mul_l|done]|].
  apply Z.divide_add_cancel_r in Hx; [done|by apply Z.divide_mul_l].
Qed.

Lemma pocklington n a m ps : Forall prime ps -> certificate n a m ps = true -> prime n.
Proof.
  intros Hps Hc. unfold certificate in Hc. pose proof (product_pos ps Hps) as HF.
  apply andb_true_iff in Hc as [Hc Hord]. repeat (apply andb_true_iff in Hc as [Hc ?]).
  assert (Hn : 1 < n) by lia.
  apply has_order_spec in Hord as [Hone Hall]; [|done..].
  set (b := powm a n (Z.to_pos m)) in *. set (F := product ps) in *.
  destruct (prime_dec n) as [|Hnp]; [done|exfalso].
  destruct (small_divisor n Hn Hnp) as (d & Hd & Hdn & Hdd).
  assert (HuF : unit_exp b d F).
  { unfold unit_exp. rewrite Z.abs_eq by lia. apply (divides_mod d n); [done|lia|].
    rewrite Hone. by exists 0. }
  assert (HFd : F < d); [|nia]. apply (order_below b d Hd F HF HuF). intros g Hg Hug.
  pose proof (unit_exp_gcd _ _ _ _ Hug HuF) as Hgg. set (k := Z.gcd g F) in *.
  assert (Hk : 0 < k) by (pose proof (Z.gcd_nonneg g F); pose proof (Z.gcd_eq_0_r g F); lia).
  assert (Hkg : k <= g) by (apply Z.divide_pos_le; [lia|apply Z.gcd_divide_l]).
  destruct (Z.gcd_divide_r g F) as [h Hh]. fold k in Hh.
  destruct (divisor_has_prime ps h Hps ltac:(nia)) as (p & Hp & [h' Hh']); [exists k; fold F; lia|].
  destruct (Hall p Hp) as (q & Hq & HFq & Hgcd).
  assert (Hpp : 1 < p) by (rewrite Forall_forall in Hps; by apply Hps in Hp as []).
  assert (Hqk : q = h' * k) by nia.
  assert ((d | 1)) as Hd1%Z.divide_1_r_nonneg; [|lia|lia].
  rewrite <- Hgcd. apply Z.gcd_greatest; [|done]. apply divides_mod; [done|lia|].
  pose proof (unit_exp_mul _ _ h' _ Hgg) as Hfin. unfold unit_exp in Hfin.
  by rewrite <- Hqk, Z.abs_eq in Hfin by lia.
Qed.

(** ** Trial division, and the chain of certificates *)

Definition trial (n k : Z) : bool :=
  (1 <? n) && (0 <? k) && (n <? k * k) && forallb (fun d => negb (n mod d =? 0)) (seqZ 2 (k - 2)).

Lemma trial_prime n k : trial n k = true -> prime n.
Proof.
  unfold trial. intros [[[Hn Hk0]%andb_true_iff Hk]%andb_true_iff Hall]%andb_true_iff. rewrite forallb_forall in Hall.
  destruct (prime_dec n) as [|Hnp]; [done|exfalso].
  apply not_prime_divide in Hnp as (d & Hd & [e He]); [|lia].
  assert (Hno : forall x y, n = y * x -> 1 < x -> x < k -> False).
  { intros x y Hxy Hx Hxk. specialize (Hall x). rewrite Hxy, Z.mod_mul in Hall by lia.
    discriminate Hall. apply list_elem_of_In, elem_of_seqZ. lia. }
  destruct (Z.lt_ge_cases d k); [by apply (Hno d e); [lia|lia|]|].
  apply (Hno e d); [lia|nia|nia].
Qed.

Lemma prime_39_bits : prime 297159362677.
Proof.
  apply (pocklington _ 2 182556 [1627771]); [|vm_compute; reflexivity].
  apply Forall_singleton, (trial_prime _ 1276). vm_compute. reflexivity.
Qed.

Lemma prime_95_bits : prime 29047611873442575647497758179.
Proof.
  apply (pocklington _ 2 319580205818 [305873; 297159362677]); [|vm_compute; reflexivity].
  apply Forall_cons. split; [apply (trial_prime _ 554); vm_compute; reflexivity|].
  apply Forall_singleton, prime_39_bits.
Qed.

Lemma prime_109_bits : prime 341948486974166000522343609283189.
Proof.
  apply (pocklington _ 2 11772 [29047611873442575647497758179]); [|vm_compute; reflexivity].
  apply Forall_singleton, prime_95_bits.
Qed.

Lemma CURVE_ORDER_prime : prime CURVE_ORDER.
Proof.
  apply (pocklington _ 7 18758639927001554244874997690913623113
           (341948486974166000522343609283189 :: [2; 2; 2; 2; 2; 2; 3; 149; 631]));
    [|vm_compute; reflexivity].
  apply Forall_cons. split; [apply prime_109_bits|].
  assert (Hsmall : Forall (fun p => prime p.1) [(2, 2); (3, 2); (149, 13); (631, 26)]).
  { apply (Forall_impl (fun p => trial p.1 p.2 = true)); [|intros p; apply trial_prime].
    repeat constructor. }
  rewrite !Forall_cons in Hsmall. destruct Hsmall as (H2 & H3 & H149 & H631 & _).
  repeat (apply Forall_cons; split; [assumption|]). constructor.
Qed.

(** Products of nonzero residues do not vanish. *)
Lemma CURVE_ORDER_mul a b :
  a * b mod CURVE_ORDER = 0 -> a mod CURVE_ORDER = 0 \/ b mod CURVE_ORDER = 0.
Proof.
  pose proof CURVE_ORDER_prime as Hp. revert Hp. generalize CURVE_ORDER as n. intros n Hp.
  assert (n <> 0) by (destruct Hp; lia). rewrite !Z.mod_divide by done. by apply prime_mult.
Qed.
