(* ===== verification/Musig2.v ===== *)
(** * Musig2: nonce generation, partial signatures and aggregation

    The MuSig2 half of [immortal-core/src/mkt_swp_verify.rs]: key aggregation
    with tweaks, single-use secret nonces, session values, partial signing
    and verification, and aggregation into a BIP-340 signature.  The curve is
    the class [Secp256k1] of the operations the code calls; a [SecretKey] and
    a [Scalar] are their numbers. *)

From S2P Require Import Prelude Text Regroup Event Wire Taproot Scalar.

Definition MAX_MUSIG_KEYS : Z := 64.
Definition MAX_MUSIG_MESSAGE_BYTES : Z := 4096.
Definition MAX_MUSIG_EXTRA_INPUT_BYTES : Z := 1024.
Definition MAX_MUSIG_TWEAKS : Z := 8.

(** ** The secp256k1 crate *)

Class Secp256k1 : Type := {
  PublicKey : Type;
  PublicKey_eq_dec :: EqDecision PublicKey;
  (** [PublicKey::from_secret_key] *)
  from_secret_key : Z -> PublicKey;
  (** [PublicKey::combine_keys] *)
  combine_keys : list PublicKey -> option PublicKey;
  (** [PublicKey::mul_tweak], [add_exp_tweak], [negate] *)
  pk_mul_tweak : PublicKey -> Z -> option PublicKey;
  pk_add_exp_tweak : PublicKey -> Z -> option PublicKey;
  pk_negate : PublicKey -> PublicKey;
  (** [PublicKey::serialize], [PublicKey::from_slice] *)
  pk_serialize : PublicKey -> list Z;
  pk_from_slice : list Z -> option PublicKey;
  (** [PublicKey::x_only_public_key], serialized *)
  x_only_public_key : PublicKey -> list Z * Parity;
  (** [SecretKey::from_byte_array], [secret_bytes], [negate], [mul_tweak], [add_tweak] *)
  sk_from_byte_array : list Z -> option Z;
  sk_secret_bytes : Z -> list Z;
  sk_negate : Z -> Z;
  sk_mul_tweak : Z -> Z -> option Z;
  sk_add_tweak : Z -> Z -> option Z;
  (** [Scalar::to_be_bytes] *)
  scalar_to_be_bytes : Z -> list Z;
}.

Record Musig2Tweak : Type := mkTweak { tw_value : list Z; tw_xonly : bool }.

Record Musig2SecretNonce : Type := mkSecretNonce {
  sn_first : list Z;
  sn_second : list Z;
  sn_public_key : list Z;
  sn_public_nonce : list Z;
  sn_consumed : bool;
}.

Record ConsumedMusig2Nonce : Type := mkConsumed {
  cn_first : list Z;
  cn_second : list Z;
  cn_public_key : list Z;
}.

(** [Musig2SecretNonce::consume]. *)
Definition consume (s : Musig2SecretNonce)
    : Musig2SecretNonce * result VerificationError ConsumedMusig2Nonce :=
  if sn_consumed s then (s, Err (Invalid "MuSig2 secret nonce reuse")) else
  (mkSecretNonce (replicate 32 0) (replicate 32 0) (replicate 33 0) (sn_public_nonce s) true,
   Ok (mkConsumed (sn_first s) (sn_second s) (sn_public_key s))).

(** [u64::to_be_bytes], [u32::to_be_bytes]. *)
Fixpoint be_bytes (n : nat) (v : Z) : list Z :=
  match n with O => [] | S n' => (v / 256 ^ Z.of_nat n') mod 256 :: be_bytes n' v end.

Section musig2.
Context `{EventCrypto, TweakAdd, Secp256k1}.

(** ** Points with infinity *)

Inductive AggregatePoint : Type := Infinity | Point (point : PublicKey).

#[export] Instance AggregatePoint_eq_dec : EqDecision AggregatePoint.
Proof. solve_decision. Defined.

Definition point_add (self other : AggregatePoint) : result VerificationError AggregatePoint :=
  match self, other with
  | Infinity, point => Ok point
  | point, Infinity => Ok point
  | Point lhs, Point rhs =>
      match combine_keys [lhs; rhs] with
      | Some point => Ok (Point point)
      | None => Ok Infinity
      end
  end.

Definition multiply (self : AggregatePoint) (scalar : Z) : result VerificationError AggregatePoint :=
  if scalar =? 0 then Ok Infinity else
  match self with
  | Infinity => Ok Infinity
  | Point point =>
      p ← ok_or (Crypto "MuSig2 point multiplication") (pk_mul_tweak point scalar); Ok (Point p)
  end.

Definition negate (self : AggregatePoint) : AggregatePoint :=
  match self with Infinity => Infinity | Point point => Point (pk_negate point) end.

Definition serialize_extended (self : AggregatePoint) : list Z :=
  match self with Infinity => replicate 33 0 | Point point => pk_serialize point end.

Record Musig2KeyContext : Type := mkKeyContext {
  kc_key : PublicKey;
  kc_gacc_negative : bool;
  kc_tacc : list Z;
}.

Record Musig2SessionValues : Type := mkSession {
  ss_key_context : Musig2KeyContext;
  ss_nonce_coefficient : Z;
  ss_final_nonce : PublicKey;
  ss_challenge : Z;
  ss_nonce_odd : bool;
  ss_key_odd : bool;
}.

Definition is_odd (key : PublicKey) : bool := bool_decide ((x_only_public_key key).2 = Odd).

(** ** Key aggregation *)

Definition musig2_key_material (keys : list PublicKey) : list (list Z) * list Z * list Z :=
  let serialized := pk_serialize <$> keys in
  let list_hash := tagged_hash "KeyAgg list" (concat serialized) in
  let second := match list_find (fun key => key <> nth 0 serialized []) serialized with
                | Some (_, key) => key
                | None => replicate 33 0
                end in
  (serialized, list_hash, second).

Definition musig2_key_coefficient (key list_hash second_key : list Z) : result VerificationError Z :=
  if bool_decide (key = second_key) then Ok 1 else
  scalar_from_hash (tagged_hash "KeyAgg coefficient" (list_hash ++ key)).

Definition combine_public_keys (keys : list PublicKey) (label : string)
    : result VerificationError PublicKey :=
  ok_or (Crypto label) (combine_keys keys).

Definition musig2_aggregate_plain_key (keys : list PublicKey) : result VerificationError PublicKey :=
  let '(serialized, list_hash, second) := musig2_key_material keys in
  weighted ← try_map (fun p : PublicKey * list Z =>
      coefficient ← musig2_key_coefficient p.2 list_hash second;
      ok_or (Crypto "MuSig2 key coefficient") (pk_mul_tweak p.1 coefficient))
    (zip keys serialized);
  combine_public_keys weighted "MuSig2 aggregate key".

Definition musig2_aggregate_key (keys : list PublicKey) : result VerificationError (list Z) :=
  if (len keys =? 0) || (MAX_MUSIG_KEYS <? len keys) then Err (Bounds "MuSig2 participant count") else
  aggregate ← musig2_aggregate_plain_key keys;
  Ok (x_only_public_key aggregate).1.

Definition musig2_taproot_tweak (keys : list PublicKey) (merkle_root : list Z)
    : result VerificationError Musig2Tweak :=
  internal_key ← musig2_aggregate_key keys;
  let value := tagged_hash "TapTweak" (internal_key ++ merkle_root) in
  _ ← ok_or (Crypto "taproot tweak exceeds curve order") (scalar_from_be_bytes value);
  Ok (mkTweak value true).

(** The body of the tweak loop. *)
Definition apply_tweak (context : Musig2KeyContext) (tweak : Musig2Tweak)
    : result VerificationError Musig2KeyContext :=
  scalar ← ok_or (Crypto "MuSig2 tweak exceeds curve order") (scalar_from_be_bytes (tw_value tweak));
  let context := if tw_xonly tweak && is_odd (kc_key context)
                 then mkKeyContext (pk_negate (kc_key context)) (negb (kc_gacc_negative context))
                        (scalar_negate_mod (kc_tacc context))
                 else context in
  key ← ok_or (Crypto "MuSig2 aggregate tweak") (pk_add_exp_tweak (kc_key context) scalar);
  Ok (mkKeyContext key (kc_gacc_negative context) (scalar_add_mod (kc_tacc context) (tw_value tweak))).

Definition musig2_key_context (keys : list PublicKey) (tweaks : list Musig2Tweak)
    : result VerificationError Musig2KeyContext :=
  if (len keys =? 0) || (MAX_MUSIG_KEYS <? len keys) || (MAX_MUSIG_TWEAKS <? len tweaks)
  then Err (Bounds "MuSig2 key context") else
  key ← musig2_aggregate_plain_key keys;
  try_fold apply_tweak (mkKeyContext key false (replicate 32 0)) tweaks.

Definition musig2_tweaked_aggregate_key (keys : list PublicKey) (tweaks : list Musig2Tweak)
    : result VerificationError (list Z) :=
  context ← musig2_key_context keys tweaks;
  Ok (x_only_public_key (kc_key context)).1.

(** ** Nonces *)

Definition xor_bytes (secret mask : list Z) : list Z := zip_with Z.lxor secret mask.

Definition musig2_nonce_scalar (input : list Z) (index : Z) : result VerificationError Z :=
  let value := scalar_bytes_from_hash (tagged_hash "MuSig/nonce" (input ++ [index])) in
  ok_or (Crypto "MuSig2 nonce generation produced zero") (sk_from_byte_array value).

Definition musig2_deterministic_nonce_scalar (input : list Z) (index : Z)
    : result VerificationError Z :=
  let value := scalar_bytes_from_hash (tagged_hash "MuSig/deterministic/nonce" (input ++ [index])) in
  ok_or (Crypto "MuSig2 deterministic nonce generation produced zero") (sk_from_byte_array value).

(** The two public halves of a nonce. *)
Definition public_nonce_of (first second : Z) : list Z :=
  pk_serialize (from_secret_key first) ++ pk_serialize (from_secret_key second).

Definition musig2_nonce_gen_internal (secret_key : option Z) (public_key : PublicKey)
    (aggregate_key message extra_input : option (list Z)) (randomness : list Z)
    : result VerificationError Musig2SecretNonce :=
  let message_length := match message with Some m => len m | None => 0 end in
  if MAX_MUSIG_MESSAGE_BYTES <? message_length then Err (Bounds "MuSig2 message byte length") else
  let extra_input_length := match extra_input with Some x => len x | None => 0 end in
  if MAX_MUSIG_EXTRA_INPUT_BYTES <? extra_input_length
  then Err (Bounds "MuSig2 extra input byte length") else
  let public_key := pk_serialize public_key in
  let randomized_secret :=
    match secret_key with
    | Some secret_key => xor_bytes (sk_secret_bytes secret_key) (tagged_hash "MuSig/aux" randomness)
    | None => randomness
    end in
  message_part ← match message with
                 | Some message =>
                     length ← ok_or (Bounds "MuSig2 message byte length")
                                (try_from_u U64_MAX (len message));
                     Ok ([1] ++ be_bytes 8 length ++ message)
                 | None => Ok [0]
                 end;
  let extra_input := default [] extra_input in
  extra_length ← ok_or (Bounds "MuSig2 extra input byte length") (try_from_u U32_MAX (len extra_input));
  let input := randomized_secret ++ [len public_key mod 256] ++ public_key
               ++ match aggregate_key with Some key => [32] ++ key | None => [0] end
               ++ message_part ++ be_bytes 4 extra_length ++ extra_input in
  first ← musig2_nonce_scalar input 0;
  second ← musig2_nonce_scalar input 1;
  Ok (mkSecretNonce (sk_secret_bytes first) (sk_secret_bytes second) public_key
        (public_nonce_of first second) false).

Definition musig2_nonce_gen (secret_key : Z) (aggregate_key message extra_input randomness : list Z)
    : result VerificationError Musig2SecretNonce :=
  musig2_nonce_gen_internal (Some secret_key) (from_secret_key secret_key) (Some aggregate_key)
    (Some message) (Some extra_input) randomness.

(** The body of the aggregation loop. *)
Definition add_nonce (acc : AggregatePoint * AggregatePoint) (nonce : list Z)
    : result VerificationError (AggregatePoint * AggregatePoint) :=
  first_point ← ok_or (Crypto "MuSig2 first public nonce") (pk_from_slice (take 33 nonce));
  second_point ← ok_or (Crypto "MuSig2 second public nonce") (pk_from_slice (drop 33 nonce));
  first ← point_add acc.1 (Point first_point);
  second ← point_add acc.2 (Point second_point);
  Ok (first, second).

Definition musig2_aggregate_nonces (public_nonces : list (list Z))
    : result VerificationError (AggregatePoint * AggregatePoint) :=
  try_fold add_nonce (Infinity, Infinity) public_nonces.

Definition musig2_aggregate_public_nonces (public_nonces : list (list Z))
    : result VerificationError (list Z) :=
  if (len public_nonces =? 0) || (MAX_MUSIG_KEYS <? len public_nonces)
  then Err (Bounds "MuSig2 public nonce count") else
  p ← musig2_aggregate_nonces public_nonces;
  Ok (serialize_extended p.1 ++ serialize_extended p.2).

Definition aggregate_point_from_extended (bytes : list Z) : result VerificationError AggregatePoint :=
  if bool_decide (bytes = replicate 33 0) then Ok Infinity else
  p ← ok_or (Crypto "MuSig2 aggregate public nonce") (pk_from_slice bytes); Ok (Point p).

Definition musig2_effective_signer_nonce (public_nonce : list Z) (nonce_coefficient : Z)
    (aggregate_nonce_odd : bool) : result VerificationError AggregatePoint :=
  first ← ok_or (Crypto "MuSig2 first public nonce") (pk_from_slice (take 33 public_nonce));
  second ← ok_or (Crypto "MuSig2 second public nonce") (pk_from_slice (drop 33 public_nonce));
  scaled ← multiply (Point second) nonce_coefficient;
  nonce ← point_add (Point first) scaled;
  Ok (if aggregate_nonce_odd then negate nonce else nonce).

Definition generator_point : result VerificationError PublicKey :=
  secret ← ok_or (Crypto "generator scalar") (sk_from_byte_array (replicate 31 0 ++ [1]));
  Ok (from_secret_key secret).

Definition point_from_scalar (value : list Z) : result VerificationError AggregatePoint :=
  if bool_decide (value = replicate 32 0) then Ok Infinity else
  scalar ← ok_or (Crypto "MuSig2 scalar point") (sk_from_byte_array value);
  Ok (Point (from_secret_key scalar)).

(** ** Session values *)

Definition validate_musig2_session_bounds (keys : list PublicKey) (public_nonces : list (list Z))
    (tweaks : list Musig2Tweak) (message : list Z) : result VerificationError unit :=
  if (len keys =? 0) || (MAX_MUSIG_KEYS <? len keys) || negb (len keys =? len public_nonces)
  then Err (Bounds "MuSig2 session participants") else
  if MAX_MUSIG_TWEAKS <? len tweaks then Err (Bounds "MuSig2 tweak count") else
  if MAX_MUSIG_MESSAGE_BYTES <? len message then Err (Bounds "MuSig2 message byte length") else
  Ok tt.

Definition musig2_session_values_from_aggregate_nonce (keys : list PublicKey)
    (aggregate_nonce : list Z) (tweaks : list Musig2Tweak) (message : list Z)
    : result VerificationError Musig2SessionValues :=
  if (len keys =? 0) || (MAX_MUSIG_KEYS <? len keys) then Err (Bounds "MuSig2 participant count") else
  if MAX_MUSIG_TWEAKS <? len tweaks then Err (Bounds "MuSig2 tweak count") else
  if MAX_MUSIG_MESSAGE_BYTES <? len message then Err (Bounds "MuSig2 message byte length") else
  key_context ← musig2_key_context keys tweaks;
  aggregate_first ← aggregate_point_from_extended (take 33 aggregate_nonce);
  aggregate_second ← aggregate_point_from_extended (drop 33 aggregate_nonce);
  let key_bytes := (x_only_public_key (kc_key key_context)).1 in
  nonce_coefficient ← scalar_from_hash (tagged_hash "MuSig/noncecoef"
                        (aggregate_nonce ++ key_bytes ++ message));
  scaled ← multiply aggregate_second nonce_coefficient;
  combined_nonce ← point_add aggregate_first scaled;
  final_nonce ← match combined_nonce with Infinity => generator_point | Point point => Ok point end;
  challenge ← scalar_from_hash (tagged_hash "BIP0340/challenge"
                ((x_only_public_key final_nonce).1 ++ key_bytes ++ message));
  Ok (mkSession key_context nonce_coefficient final_nonce challenge
        (is_odd final_nonce) (is_odd (kc_key key_context))).

Definition musig2_session_values (keys : list PublicKey) (public_nonces : list (list Z))
    (tweaks : list Musig2Tweak) (message : list Z) : result VerificationError Musig2SessionValues :=
  _ ← validate_musig2_session_bounds keys public_nonces tweaks message;
  aggregate_nonce ← musig2_aggregate_public_nonces public_nonces;
  musig2_session_values_from_aggregate_nonce keys aggregate_nonce tweaks message.

(** ** Partial signatures *)

Definition multiply_secret_term (secret scalar : Z) : result VerificationError (option Z) :=
  if scalar =? 0 then Ok None else
  product ← ok_or (Crypto "MuSig2 secret scalar multiplication") (sk_mul_tweak secret scalar);
  Ok (Some product).

Definition add_secret_terms (l r : option Z) : result VerificationError (option Z) :=
  match l, r with
  | None, r => Ok r
  | l, None => Ok l
  | Some l, Some r => Ok (sk_add_tweak l r)
  end.

Definition verify_musig2_partial_signature_with_aggregate_nonce (keys : list PublicKey)
    (signer_public_nonce aggregate_nonce : list Z) (tweaks : list Musig2Tweak) (signer_index : nat)
    (message partial_signature : list Z) : result VerificationError unit :=
  match keys !! signer_index with
  | None => Err (Bounds "MuSig2 signer index")
  | Some key =>
      if MAX_MUSIG_KEYS <? len keys then Err (Bounds "MuSig2 signer index") else
      if (MAX_MUSIG_TWEAKS <? len tweaks) || (MAX_MUSIG_MESSAGE_BYTES <? len message)
      then Err (Bounds "MuSig2 session context") else
      if bytes_le CURVE_ORDER_BYTES partial_signature
      then Err (Crypto "MuSig2 partial signature scalar") else
      session ← musig2_session_values_from_aggregate_nonce keys aggregate_nonce tweaks message;
      signer_nonce ← musig2_effective_signer_nonce signer_public_nonce
                       (ss_nonce_coefficient session) (ss_nonce_odd session);
      let '(serialized, list_hash, second_key) := musig2_key_material keys in
      coefficient ← musig2_key_coefficient (nth signer_index serialized []) list_hash second_key;
      signer_key ← multiply (Point key) coefficient;
      signer_key ← multiply signer_key (ss_challenge session);
      let signer_key := if xorb (ss_key_odd session) (kc_gacc_negative (ss_key_context session))
                        then negate signer_key else signer_key in
      expected ← point_add signer_nonce signer_key;
      supplied ← point_from_scalar partial_signature;
      if bool_decide (supplied = expected) then Ok tt
      else Err (Crypto "MuSig2 partial signature verification")
  end.

Definition verify_musig2_partial_signature_with_tweaks (keys : list PublicKey)
    (public_nonces : list (list Z)) (tweaks : list Musig2Tweak) (signer_index : nat)
    (message partial_signature : list Z) : result VerificationError unit :=
  _ ← validate_musig2_session_bounds keys public_nonces tweaks message;
  if (length keys <=? signer_index)%nat then Err (Bounds "MuSig2 signer index") else
  if bytes_le CURVE_ORDER_BYTES partial_signature
  then Err (Crypto "MuSig2 partial signature scalar") else
  aggregate_nonce ← musig2_aggregate_public_nonces public_nonces;
  verify_musig2_partial_signature_with_aggregate_nonce keys (nth signer_index public_nonces [])
    aggregate_nonce tweaks signer_index message partial_signature.

Definition verify_musig2_partial_signature (keys : list PublicKey) (public_nonces : list (list Z))
    (signer_index : nat) (message partial_signature : list Z) : result VerificationError unit :=
  verify_musig2_partial_signature_with_tweaks keys public_nonces [] signer_index message
    partial_signature.

(** The part of signing after the nonce has been consumed. *)
Definition sign_with_consumed (public_nonce : list Z) (consumed_nonce : ConsumedMusig2Nonce)
    (secret_key : Z) (keys : list PublicKey) (signer_index : nat)
    (signer_public_nonce aggregate_nonce : list Z) (tweaks : list Musig2Tweak) (message : list Z)
    : result VerificationError (list Z) :=
  let public_key := from_secret_key secret_key in
  if negb (bool_decide (pk_serialize public_key = cn_public_key consumed_nonce))
  then Err (Invalid "MuSig2 nonce key changed before signing") else
  if negb (bool_decide (keys !! signer_index = Some public_key))
  then Err (Invalid "MuSig2 signer is not a participant") else
  if negb (bool_decide (signer_public_nonce = public_nonce))
  then Err (Invalid "MuSig2 signer public nonce mismatch") else
  session ← musig2_session_values_from_aggregate_nonce keys aggregate_nonce tweaks message;
  first ← ok_or (Crypto "MuSig2 first secret nonce") (sk_from_byte_array (cn_first consumed_nonce));
  second ← ok_or (Crypto "MuSig2 second secret nonce") (sk_from_byte_array (cn_second consumed_nonce));
  let first := if ss_nonce_odd session then sk_negate first else first in
  let second := if ss_nonce_odd session then sk_negate second else second in
  second_term ← multiply_secret_term second (ss_nonce_coefficient session);
  nonce_term ← add_secret_terms (Some first) second_term;
  let '(serialized, list_hash, second_key) := musig2_key_material keys in
  coefficient ← musig2_key_coefficient (nth signer_index serialized []) list_hash second_key;
  let signing_key := if xorb (ss_key_odd session) (kc_gacc_negative (ss_key_context session))
                     then sk_negate secret_key else secret_key in
  coefficient_term ← multiply_secret_term signing_key coefficient;
  key_term ← match coefficient_term with
             | Some term => multiply_secret_term term (ss_challenge session)
             | None => Ok None
             end;
  partial_term ← add_secret_terms nonce_term key_term;
  let partial := match partial_term with Some value => sk_secret_bytes value | None => replicate 32 0 end in
  _ ← verify_musig2_partial_signature_with_aggregate_nonce keys signer_public_nonce aggregate_nonce
        tweaks signer_index message partial;
  Ok partial.

Definition musig2_partial_sign_with_aggregate_nonce (secret_nonce : Musig2SecretNonce)
    (secret_key : Z) (keys : list PublicKey) (signer_index : nat)
    (signer_public_nonce aggregate_nonce : list Z) (tweaks : list Musig2Tweak) (message : list Z)
    : Musig2SecretNonce * result VerificationError (list Z) :=
  let '(secret_nonce, consumed) := consume secret_nonce in
  (secret_nonce,
   consumed_nonce ← consumed;
   sign_with_consumed (sn_public_nonce secret_nonce) consumed_nonce secret_key keys signer_index
     signer_public_nonce aggregate_nonce tweaks message).

Definition position (keys : list PublicKey) (key : PublicKey) : option nat :=
  fst <$> list_find (fun k => k = key) keys.

Definition musig2_partial_sign (secret_nonce : Musig2SecretNonce) (secret_key : Z)
    (keys : list PublicKey) (public_nonces : list (list Z)) (tweaks : list Musig2Tweak)
    (message : list Z) : Musig2SecretNonce * result VerificationError (list Z) :=
  let checked :=
    _ ← validate_musig2_session_bounds keys public_nonces tweaks message;
    signer_index ← ok_or (Invalid "MuSig2 signer is not a participant")
                     (position keys (from_secret_key secret_key));
    if negb (bool_decide (public_nonces !! signer_index = Some (sn_public_nonce secret_nonce)))
    then Err (Invalid "MuSig2 signer public nonce mismatch") else
    aggregate_nonce ← musig2_aggregate_public_nonces public_nonces;
    Ok (signer_index, aggregate_nonce) in
  match checked with
  | Err e => (secret_nonce, Err e)
  | Ok (signer_index, aggregate_nonce) =>
      musig2_partial_sign_with_aggregate_nonce secret_nonce secret_key keys signer_index
        (nth signer_index public_nonces []) aggregate_nonce tweaks message
  end.

Definition musig2_deterministic_sign (secret_key : Z) (aggregate_other_nonce : list Z)
    (keys : list PublicKey) (tweaks : list Musig2Tweak) (message : list Z)
    (randomness : option (list Z)) : result VerificationError (list Z * list Z) :=
  if (len keys =? 0) || (MAX_MUSIG_KEYS <? len keys) then Err (Bounds "MuSig2 participant count") else
  if MAX_MUSIG_TWEAKS <? len tweaks then Err (Bounds "MuSig2 tweak count") else
  if MAX_MUSIG_MESSAGE_BYTES <? len message then Err (Bounds "MuSig2 message byte length") else
  let public_key := from_secret_key secret_key in
  signer_index ← ok_or (Invalid "MuSig2 signer is not a participant") (position keys public_key);
  aggregate_key ← musig2_tweaked_aggregate_key keys tweaks;
  let randomized_secret :=
    match randomness with
    | Some randomness => xor_bytes (sk_secret_bytes secret_key) (tagged_hash "MuSig/aux" randomness)
    | None => sk_secret_bytes secret_key
    end in
  message_length ← ok_or (Bounds "MuSig2 message byte length") (try_from_u U64_MAX (len message));
  let nonce_input := randomized_secret ++ aggregate_other_nonce ++ aggregate_key
                     ++ be_bytes 8 message_length ++ message in
  first ← musig2_deterministic_nonce_scalar nonce_input 0;
  second ← musig2_deterministic_nonce_scalar nonce_input 1;
  let public_nonce := public_nonce_of first second in
  aggregate_nonce ← musig2_aggregate_public_nonces [public_nonce; aggregate_other_nonce];
  let secret_nonce := mkSecretNonce (sk_secret_bytes first) (sk_secret_bytes second)
                        (pk_serialize public_key) public_nonce false in
  partial ← (musig2_partial_sign_with_aggregate_nonce secret_nonce secret_key keys signer_index
               public_nonce aggregate_nonce tweaks message).2;
  Ok (public_nonce, partial).

(** ** Aggregation *)

Definition verify_musig2_signature (aggregate_key message signature : list Z)
    : result VerificationError unit :=
  if verify_schnorr signature message aggregate_key then Ok tt
  else Err (Crypto "MuSig2 aggregate signature").

(** The body of the summation loop. *)
Definition add_partial (scalar partial : list Z) : result VerificationError (list Z) :=
  if bytes_le CURVE_ORDER_BYTES partial then Err (Crypto "MuSig2 partial signature scalar") else
  Ok (scalar_add_mod scalar partial).

Definition musig2_aggregate_partial_signatures (keys : list PublicKey)
    (public_nonces : list (list Z)) (tweaks : list Musig2Tweak) (message : list Z)
    (partial_signatures : list (list Z)) : result VerificationError (list Z) :=
  _ ← validate_musig2_session_bounds keys public_nonces tweaks message;
  if negb (len partial_signatures =? len keys) then Err (Bounds "MuSig2 partial signature count") else
  _ ← try_map (fun p : nat * list Z =>
        verify_musig2_partial_signature_with_tweaks keys public_nonces tweaks p.1 message p.2)
      (imap pair partial_signatures);
  session ← musig2_session_values keys public_nonces tweaks message;
  scalar ← try_fold add_partial (replicate 32 0) partial_signatures;
  tweak_term ← scalar_multiply_public (scalar_to_be_bytes (ss_challenge session))
                 (kc_tacc (ss_key_context session));
  let tweak_term := if ss_key_odd session then scalar_negate_mod tweak_term else tweak_term in
  let scalar := scalar_add_mod scalar tweak_term in
  let signature := (x_only_public_key (ss_final_nonce session)).1 ++ scalar in
  _ ← verify_musig2_signature (x_only_public_key (kc_key (ss_key_context session))).1 message signature;
  Ok signature.

End musig2.
