(* ===== verification/Musig2Correct.v ===== *)
(** * Musig2Correct: the MuSig2 protocol produces BIP-340 signatures

    The documented behaviour of the secp256k1 crate as the class
    [Secp256k1Laws], the discrete logarithms of a session, and the theorems
    on nonces, partial signatures and aggregation of [Musig2.v]. *)

From S2P Require Import Prelude Text Regroup Event Wire Taproot Scalar CurveOrder Musig2.

(** ** What the curve promises *)

Definition secret (k : Z) : Prop := 0 < k < CURVE_ORDER.
Definition flip_parity (p : Parity) : Parity := match p with Even => Odd | Odd => Even end.
Definition zsum (l : list Z) : Z := foldr Z.add 0 l.

(** The multiple [z] of the generator, none when it is the point at infinity;
    the residue of [z], none when it is zero. *)
Definition point_of `{Secp256k1} (z : Z) : option PublicKey :=
  if z mod CURVE_ORDER =? 0 then None else Some (from_secret_key (z mod CURVE_ORDER)).
Definition secret_of (z : Z) : option Z :=
  if z mod CURVE_ORDER =? 0 then None else Some (z mod CURVE_ORDER).

(** Documented behaviour of the crate: the public keys are the nonzero
    multiples of the generator of a cyclic group of order [CURVE_ORDER], the
    operations are the group's, an operation whose result is infinity or zero
    is an error, and Schnorr verification is BIP-340's. *)
Class Secp256k1Laws `{EventCrypto, Secp256k1} : Prop := {
  public_key_scalar P : exists k, secret k /\ from_secret_key k = P;
  from_secret_key_inj a b : secret a -> secret b -> from_secret_key a = from_secret_key b -> a = b;
  combine_keys_eq ks : Forall secret ks -> combine_keys (from_secret_key <$> ks) = point_of (zsum ks);
  pk_mul_tweak_eq k t : secret k -> 0 <= t < CURVE_ORDER ->
    pk_mul_tweak (from_secret_key k) t = point_of (k * t);
  pk_add_exp_tweak_eq k t : secret k -> 0 <= t < CURVE_ORDER ->
    pk_add_exp_tweak (from_secret_key k) t = point_of (k + t);
  pk_negate_eq k : secret k -> pk_negate (from_secret_key k) = from_secret_key (CURVE_ORDER - k);
  pk_serialize_length P : length (pk_serialize P) = 33%nat;
  pk_serialize_nonzero P : pk_serialize P <> replicate 33 0;
  pk_from_slice_serialize P : pk_from_slice (pk_serialize P) = Some P;
  x_only_negate P :
    x_only_public_key (pk_negate P)
    = ((x_only_public_key P).1, flip_parity (x_only_public_key P).2);
  x_only_bytes P : bytes32 (x_only_public_key P).1;
  sk_from_byte_array_eq l : bytes32 l ->
    sk_from_byte_array l = if (0 <? be_value l) && (be_value l <? CURVE_ORDER)
                           then Some (be_value l) else None;
  sk_secret_bytes_eq k : secret k -> scalar (sk_secret_bytes k) /\ be_value (sk_secret_bytes k) = k;
  sk_negate_eq k : secret k -> sk_negate k = CURVE_ORDER - k;
  sk_mul_tweak_eq k t : secret k -> 0 <= t < CURVE_ORDER -> sk_mul_tweak k t = secret_of (k * t);
  sk_add_tweak_eq k t : secret k -> 0 <= t < CURVE_ORDER -> sk_add_tweak k t = secret_of (k + t);
  scalar_to_be_bytes_eq s : 0 <= s < CURVE_ORDER ->
    scalar (scalar_to_be_bytes s) /\ be_value (scalar_to_be_bytes s) = s;
  (** BIP-340: [s·G = R + e·P] for the even lifts [R] and [P] of the two
      coordinates. *)
  verify_schnorr_bip340 p x signature message :
    secret p -> x_only_public_key (from_secret_key p) = (x, Even) -> length signature = 64%nat ->
    Forall is_byte signature ->
    verify_schnorr signature message x = true <->
    be_value (drop 32 signature) < CURVE_ORDER /\
    exists r, secret r /\ x_only_public_key (from_secret_key r) = (take 32 signature, Even)
      /\ be_value (drop 32 signature)
         = (r + be_value (tagged_hash "BIP0340/challenge" (take 32 signature ++ x ++ message)) * p)
           mod CURVE_ORDER;
}.

(** Congruence modulo the group order, with its rewriting. *)
Inductive eqn (a b : Z) : Prop := Eqn : a mod CURVE_ORDER = b mod CURVE_ORDER -> eqn a b.
Notation "a =n= b" := (eqn a b) (at level 70) : Z_scope.

Lemma eqn_mod a b : a =n= b <-> a mod CURVE_ORDER = b mod CURVE_ORDER.
Proof. split; [by intros []|apply Eqn]. Qed.

#[export] Instance eqn_equivalence : Equivalence eqn.
Proof.
  split; [by intros a|by intros a b []|]. intros a b c [H1] [H2]. constructor. congruence.
Qed.
#[export] Instance eqn_add : Proper (eqn ==> eqn ==> eqn) Z.add.
Proof. intros a a' [H1] b b' [H2]. constructor. by apply Zplus_eqm. Qed.
#[export] Instance eqn_mul : Proper (eqn ==> eqn ==> eqn) Z.mul.
Proof. intros a a' [H1] b b' [H2]. constructor. by apply Zmult_eqm. Qed.
#[export] Instance eqn_sub : Proper (eqn ==> eqn ==> eqn) Z.sub.
Proof. intros a a' [H1] b b' [H2]. constructor. by apply Zminus_eqm. Qed.
#[export] Instance eqn_opp : Proper (eqn ==> eqn) Z.opp.
Proof. intros a a' [H1]. constructor. by apply Zopp_eqm. Qed.

Lemma eq_eqn a b : a = b -> a =n= b.
Proof. by intros ->. Qed.

Lemma eqm_mod z : z mod CURVE_ORDER =n= z.
Proof. constructor. apply Z.mod_mod. unfold CURVE_ORDER. lia. Qed.

Lemma order_positive : 0 < CURVE_ORDER.
Proof. unfold CURVE_ORDER. lia. Qed.

Lemma mod_range z : 0 <= z mod CURVE_ORDER < CURVE_ORDER.
Proof. apply Z.mod_pos_bound, order_positive. Qed.

Lemma secret_mod k : secret k -> k mod CURVE_ORDER = k.
Proof. intros Hk. apply Z.mod_small. unfold secret in Hk. lia. Qed.

Lemma eqm_order : CURVE_ORDER =n= 0.
Proof. constructor. by rewrite Z.mod_same by (pose proof order_positive; lia). Qed.

Definition sgn (negative : bool) : Z := if negative then -1 else 1.

Lemma zsum_cons x l : zsum (x :: l) = x + zsum l.
Proof. done. Qed.

Lemma zsum_eqm l k : Forall2 eqn l k -> zsum l =n= zsum k.
Proof. induction 1 as [|a b l k Hab _ IH]; cbn; [reflexivity|]. by rewrite Hab, IH. Qed.

Section group.
Context `{EventCrypto, Secp256k1, !Secp256k1Laws}.

(** The point of a multiple of the generator. *)
Definition agg (z : Z) : AggregatePoint :=
  match point_of z with Some P => Point P | None => Infinity end.

Lemma agg_cases z :
  (z mod CURVE_ORDER = 0 /\ agg z = Infinity)
  \/ (secret (z mod CURVE_ORDER) /\ agg z = Point (from_secret_key (z mod CURVE_ORDER))).
Proof.
  unfold agg, point_of. destruct (Z.eqb_spec (z mod CURVE_ORDER) 0) as [Hz|Hz]; [by left|].
  right. pose proof (mod_range z). unfold secret. split; [lia|done].
Qed.

Lemma agg_secret k : secret k -> agg k = Point (from_secret_key k).
Proof.
  intros Hk. destruct (agg_cases k) as [[Hz _]|[_ ->]]; rewrite ?secret_mod in * by done; [|done].
  unfold secret in Hk. lia.
Qed.

Lemma agg_eqm a b : agg a = agg b <-> a =n= b.
Proof.
  rewrite eqn_mod. split; [|intros Hab; unfold agg, point_of; by rewrite Hab].
  destruct (agg_cases a) as [[Ha ->]|[Ha ->]], (agg_cases b) as [[Hb ->]|[Hb ->]]; [congruence|done..|].
  intros [= Heq]. by apply from_secret_key_inj in Heq.
Qed.

Lemma agg_surj X : exists z, X = agg z.
Proof.
  destruct X as [|P]; [by exists 0|]. destruct (public_key_scalar P) as (k & Hk & <-).
  exists k. by rewrite agg_secret.
Qed.

Lemma agg_point_of P z : point_of z = Some P <-> Point P = agg z.
Proof. unfold agg. destruct (point_of z); split; congruence. Qed.

Lemma agg_none z : agg z = Infinity <-> z =n= 0.
Proof. rewrite <- agg_eqm. done. Qed.

Lemma agg_add a b : point_add (agg a) (agg b) = Ok (agg (a + b)).
Proof.
  unfold point_add.
  destruct (agg_cases a) as [[Ha Ea]|[Ha Ea]]; rewrite Ea.
  - f_equal. apply agg_eqm. apply agg_none in Ea. rewrite Ea. reflexivity.
  - destruct (agg_cases b) as [[Hb Eb]|[Hb Eb]]; rewrite Eb.
    + rewrite <- Ea. f_equal. apply agg_eqm. apply agg_none in Eb. rewrite Eb, Z.add_0_r. reflexivity.
    + pose proof (combine_keys_eq [a mod CURVE_ORDER; b mod CURVE_ORDER]) as Hc.
      cbn [fmap list_fmap] in Hc. rewrite Hc by by rewrite !Forall_cons, Forall_nil.
      assert (agg (zsum [a mod CURVE_ORDER; b mod CURVE_ORDER]) = agg (a + b)) as <-.
      { apply agg_eqm. cbn. rewrite !eqm_mod. apply eq_eqn. lia. }
      unfold agg. by destruct (point_of _).
Qed.

(** Multiplication never fails: the order is prime. *)
Lemma agg_multiply a t : 0 <= t < CURVE_ORDER -> multiply (agg a) t = Ok (agg (a * t)).
Proof.
  intros Ht. unfold multiply. destruct (Z.eqb_spec t 0) as [->|Hne]; [by rewrite Z.mul_0_r|].
  destruct (agg_cases a) as [[Ha Ea]|[Ha Ea]]; rewrite Ea.
  - f_equal. symmetry. apply agg_none. apply agg_none in Ea. by rewrite Ea.
  - rewrite pk_mul_tweak_eq by done.
    assert (Hmul : agg (a mod CURVE_ORDER * t) = agg (a * t)) by (apply agg_eqm; by rewrite eqm_mod).
    rewrite <- Hmul. unfold agg. destruct (point_of _) as [P|] eqn:HP; [done|].
    exfalso. unfold point_of in HP. destruct (Z.eqb_spec ((a mod CURVE_ORDER * t) mod CURVE_ORDER) 0); [|done].
    destruct (CURVE_ORDER_mul (a mod CURVE_ORDER) t) as [Hz|Hz]; [done| |].
    + rewrite Z.mod_mod in Hz by (pose proof order_positive; lia). unfold secret in Ha. lia.
    + rewrite Z.mod_small in Hz; lia.
Qed.

Lemma agg_negate a : negate (agg a) = agg (- a).
Proof.
  unfold negate. destruct (agg_cases a) as [[Ha Ea]|[Ha Ea]]; rewrite Ea.
  - symmetry. apply agg_none. apply agg_none in Ea. rewrite Ea. reflexivity.
  - rewrite pk_negate_eq, <- agg_secret by (done || (unfold secret in *; lia)). apply agg_eqm.
    rewrite eqm_mod, eqm_order. apply eq_eqn. lia.
Qed.

Lemma agg_sgn (b : bool) z : (if b then negate (agg z) else agg z) = agg (sgn b * z).
Proof. destruct b; [rewrite agg_negate|]; apply f_equal; cbn; lia. Qed.

Lemma point_from_scalar_agg l : scalar l -> point_from_scalar l = Ok (agg (be_value l)).
Proof.
  intros Hs. unfold point_from_scalar. pose proof (scalar_range l Hs) as Hr.
  case_bool_decide as Hz; [by rewrite Hz, be_value_zeros|].
  rewrite <- be_value_zero in Hz by done. rewrite sk_from_byte_array_eq by apply Hs.
  rewrite (proj2 (Z.ltb_lt 0 _)), (proj2 (Z.ltb_lt _ CURVE_ORDER)) by lia. cbn.
  by rewrite agg_secret by (unfold secret; lia).
Qed.

Lemma generator_point_agg : generator_point = Ok (from_secret_key 1).
Proof.
  unfold generator_point. rewrite sk_from_byte_array_eq; [done|].
  split; [done|]. apply bytes_check. vm_compute. reflexivity.
Qed.

Lemma extended_agg z rest :
  aggregate_point_from_extended (take 33 (serialize_extended (agg z) ++ rest)) = Ok (agg z)
  /\ drop 33 (serialize_extended (agg z) ++ rest) = rest.
Proof.
  assert (Hl : length (serialize_extended (agg z)) = 33%nat).
  { destruct (agg z); [done|]. apply pk_serialize_length. }
  rewrite take_app_length', drop_app_length' by done. split; [|done].
  unfold aggregate_point_from_extended. destruct (agg z) as [|P]; cbn [serialize_extended].
  - by rewrite bool_decide_true.
  - rewrite bool_decide_false by apply pk_serialize_nonzero. by rewrite pk_from_slice_serialize.
Qed.

End group.

(** ** Discrete logarithms of a session *)

Definition tweak_wf (t : Musig2Tweak) : Prop := bytes32 (tw_value t).

Section session.
Context `{EventCrypto, TweakAdd, Secp256k1}.
Context `{!Sha256Digest, !ScalarBytes, !Secp256k1Laws}.

Lemma tagged_hash_bytes32 tag m : bytes32 (tagged_hash tag m).
Proof. split; [apply sha256_length|apply sha256_bytes]. Qed.

(** The coefficient of a participant's key. *)
Definition coefficient (keys : list PublicKey) (key : PublicKey) : Z :=
  let '(serialized, list_hash, second) := musig2_key_material keys in
  match musig2_key_coefficient (pk_serialize key) list_hash second with Ok c => c | Err _ => 0 end.

Lemma key_coefficient_eq keys key :
  let '(serialized, list_hash, second) := musig2_key_material keys in
  musig2_key_coefficient (pk_serialize key) list_hash second = Ok (coefficient keys key)
  /\ 0 <= coefficient keys key < CURVE_ORDER.
Proof.
  unfold coefficient. destruct (musig2_key_material keys) as [[serialized list_hash] second].
  unfold musig2_key_coefficient. case_bool_decide; [split; [done|unfold CURVE_ORDER; lia]|].
  rewrite scalar_from_hash_spec by apply tagged_hash_bytes32. split; [done|]. apply mod_range.
Qed.

(** The weighted sum of the participants' secrets. *)
Definition weighted_sum (keys : list PublicKey) (ds : list Z) : Z :=
  zsum ((fun d => coefficient keys (from_secret_key d) * d) <$> ds).

Lemma coefficient_range keys key : 0 <= coefficient keys key < CURVE_ORDER.
Proof.
  pose proof (key_coefficient_eq keys key) as Hc. destruct (musig2_key_material keys) as [[? ?] ?]. apply Hc.
Qed.

Lemma weighted_keys keys ds ws :
  Forall secret ds ->
  Forall2 (fun d w => pk_mul_tweak (from_secret_key d) (coefficient keys (from_secret_key d)) = Some w)
    ds ws ->
  exists es, Forall secret es /\ ws = from_secret_key <$> es
    /\ Forall2 eqn es ((fun d => coefficient keys (from_secret_key d) * d) <$> ds).
Proof.
  intros Hds. revert ws. induction Hds as [|d ds Hd Hds IH]; intros ws Hws.
  { inversion Hws. subst. exists []. repeat split; constructor. }
  apply Forall2_cons_inv_l in Hws as (w & ws' & Hw & Hws & ->).
  destruct (IH _ Hws) as (es & Hes & -> & Hee).
  rewrite pk_mul_tweak_eq in Hw by (done || apply coefficient_range).
  apply agg_point_of in Hw.
  destruct (agg_cases (d * coefficient keys (from_secret_key d))) as [[_ Ha]|[Hs Ha]];
    rewrite Ha in Hw; [done|].
  injection Hw as ->. eexists (_ :: es). split; [by apply Forall_cons|]. split; [done|].
  apply Forall2_cons. split; [|done]. rewrite eqm_mod. apply eq_eqn. lia.
Qed.

Lemma zip_serialized (keys : list PublicKey) :
  zip keys (pk_serialize <$> keys) = (fun key => (key, pk_serialize key)) <$> keys.
Proof. induction keys as [|key keys IH]; [done|]. cbn. by f_equal. Qed.

Lemma aggregate_plain_key_agg ds P :
  Forall secret ds ->
  musig2_aggregate_plain_key (from_secret_key <$> ds) = Ok P ->
  Point P = agg (weighted_sum (from_secret_key <$> ds) ds).
Proof.
  intros Hds. unfold weighted_sum, musig2_aggregate_plain_key.
  assert (Hser : (musig2_key_material (from_secret_key <$> ds)).1.1
                 = pk_serialize <$> (from_secret_key <$> ds)) by done.
  pose proof (key_coefficient_eq (from_secret_key <$> ds)) as Hc.
  destruct (musig2_key_material (from_secret_key <$> ds)) as [[serialized list_hash] second].
  cbn [fst] in Hser. subst serialized.
  intros (ws & Hws & HP)%bind_Ok. apply try_map_Ok_Forall2 in Hws.
  rewrite zip_serialized, !Forall2_fmap_l in Hws.
  destruct (weighted_keys (from_secret_key <$> ds) ds ws Hds) as (es & Hes & -> & Hee).
  { eapply Forall2_impl; [exact Hws|]. unfold compose. cbn [fst snd]. intros d w Hw.
    rewrite (proj1 (Hc (from_secret_key d))) in Hw. by apply ok_or_Ok in Hw. }
  unfold combine_public_keys in HP. apply ok_or_Ok in HP. rewrite combine_keys_eq in HP by done.
  apply agg_point_of in HP. rewrite HP. apply agg_eqm. by apply zsum_eqm.
Qed.

(** ** The key context *)

(** The tweaked key is [±x + tacc] times the generator. *)
Definition key_inv (x : Z) (context : Musig2KeyContext) : Prop :=
  scalar (kc_tacc context)
  /\ Point (kc_key context) = agg (sgn (kc_gacc_negative context) * x + be_value (kc_tacc context)).

Lemma apply_tweak_inv x context tweak context' :
  tweak_wf tweak -> key_inv x context -> apply_tweak context tweak = Ok context' -> key_inv x context'.
Proof.
  intros Hwf Hinv. unfold apply_tweak. intros (t & Ht & Hrun)%bind_Ok. apply ok_or_Ok in Ht.
  rewrite scalar_from_be_bytes_eq in Ht by done.
  destruct (Z.ltb_spec (be_value (tw_value tweak)) CURVE_ORDER) as [Hlt|]; [|done].
  injection Ht as <-. assert (Hts : scalar (tw_value tweak)) by by split.
  cbv zeta in Hrun.
  set (context1 := if tw_xonly tweak && is_odd (kc_key context) then _ else context) in Hrun. assert (Hinv1 : key_inv x context1).
  { unfold context1. destruct (tw_xonly tweak && is_odd (kc_key context)); [|done].
    destruct Hinv as [Hs Hk]. destruct (scalar_negate_mod_spec _ Hs) as [Hns Hnv].
    split; cbn [kc_tacc kc_key kc_gacc_negative]; [done|].
    change (Point (pk_negate (kc_key context))) with (negate (Point (kc_key context))).
    rewrite Hk, agg_negate. apply agg_eqm. rewrite Hnv, eqm_mod. apply eq_eqn.
    destruct (kc_gacc_negative context); cbn [sgn negb]; lia. }
  clearbody context1. destruct Hinv1 as [Hs Hk]. apply bind_Ok in Hrun as (key & Hkey & Hrun).
  injection Hrun as <-. apply ok_or_Ok in Hkey.
  destruct (scalar_add_mod_spec _ _ Hs Hts) as [Has Hav].
  split; cbn [kc_tacc kc_key kc_gacc_negative]; [done|].
  destruct (agg_surj (Point (kc_key context1))) as [q Hq].
  destruct (agg_cases q) as [[_ Ha]|[Hqs Ha]]; rewrite Ha in Hq; [done|]. injection Hq as Hq.
  rewrite Hq, pk_add_exp_tweak_eq in Hkey by (done || by apply scalar_range).
  apply agg_point_of in Hkey. rewrite Hkey. apply agg_eqm. rewrite Hav, !eqm_mod.
  rewrite Hq, <- Ha in Hk. apply agg_eqm in Hk. rewrite Hk. apply eq_eqn. lia.
Qed.

Lemma key_context_inv ds tweaks context :
  Forall secret ds -> Forall tweak_wf tweaks ->
  musig2_key_context (from_secret_key <$> ds) tweaks = Ok context ->
  key_inv (weighted_sum (from_secret_key <$> ds) ds) context.
Proof.
  intros Hds Htw. unfold musig2_key_context. destruct (_ || _ || _); [done|].
  intros (key & Hkey & Hrun)%bind_Ok. apply aggregate_plain_key_agg in Hkey; [|done].
  assert (Hinit : key_inv (weighted_sum (from_secret_key <$> ds) ds)
                    (mkKeyContext key false (replicate 32 0))).
  { split; [apply scalar_zero|]. cbn [kc_key kc_gacc_negative kc_tacc].
    rewrite Hkey, be_value_zeros. apply f_equal. cbn [sgn]. lia. }
  revert Hinit Hrun. generalize (mkKeyContext key false (replicate 32 0)).
  induction Htw as [|t tweaks Ht Htw IH]; intros c Hc; cbn [try_fold]; [by intros [= <-]|].
  intros (c1 & Hc1 & Hrun)%bind_Ok. eapply IH; [|exact Hrun]. by eapply apply_tweak_inv.
Qed.
(** ** Nonces and session values *)

(** A public nonce spells the two multiples of the generator. *)
Definition nonce_pair (nonce : list Z) (r : Z * Z) : Prop :=
  secret r.1 /\ secret r.2
  /\ pk_from_slice (take 33 nonce) = Some (from_secret_key r.1)
  /\ pk_from_slice (drop 33 nonce) = Some (from_secret_key r.2).

Lemma add_nonce_spec a b nonce p :
  add_nonce (agg a, agg b) nonce = Ok p ->
  exists r, nonce_pair nonce r /\ p = (agg (a + r.1), agg (b + r.2)).
Proof.
  unfold add_nonce. cbn [fst snd]. intros (P & HP & Hrun)%bind_Ok.
  apply bind_Ok in Hrun as (Q & HQ & Hrun). apply ok_or_Ok in HP, HQ.
  destruct (public_key_scalar P) as (r1 & Hr1 & <-), (public_key_scalar Q) as (r2 & Hr2 & <-).
  rewrite <- !agg_secret in Hrun by done. rewrite !agg_add in Hrun. injection Hrun as <-.
  by exists (r1, r2).
Qed.

Lemma aggregate_nonces_spec nonces a b p :
  try_fold add_nonce (agg a, agg b) nonces = Ok p ->
  exists rs, Forall2 nonce_pair nonces rs
    /\ p = (agg (a + zsum (fst <$> rs)), agg (b + zsum (snd <$> rs))).
Proof.
  revert a b. induction nonces as [|nonce nonces IH]; intros a b; cbn [try_fold].
  { intros [= <-]. exists []. cbn. rewrite !Z.add_0_r. split; [constructor|done]. }
  intros (q & Hq & Hrun)%bind_Ok. apply add_nonce_spec in Hq as (r & Hr & ->).
  destruct (IH _ _ Hrun) as (rs & Hrs & ->). exists (r :: rs). split; [by constructor|].
  cbn. by rewrite !Z.add_assoc.
Qed.

Lemma aggregate_public_nonces_spec nonces bytes :
  musig2_aggregate_public_nonces nonces = Ok bytes ->
  exists rs, Forall2 nonce_pair nonces rs
    /\ bytes = serialize_extended (agg (zsum (fst <$> rs)))
               ++ serialize_extended (agg (zsum (snd <$> rs))).
Proof.
  unfold musig2_aggregate_public_nonces. destruct (_ || _); [done|].
  intros (p & Hp & Hrun)%bind_Ok. apply (aggregate_nonces_spec nonces 0 0) in Hp as (rs & Hrs & ->).
  apply Ok_inj in Hrun. subst bytes. by exists rs.
Qed.

(** What a session computes, for participants with weighted secret [x] and
    aggregate nonces [r1] and [r2]. *)
Definition session_facts (x r1 r2 : Z) (message : list Z) (s : Musig2SessionValues) : Prop :=
  key_inv x (ss_key_context s)
  /\ 0 <= ss_nonce_coefficient s < CURVE_ORDER
  /\ (agg (r1 + r2 * ss_nonce_coefficient s) <> Infinity ->
       Point (ss_final_nonce s) = agg (r1 + r2 * ss_nonce_coefficient s))
  /\ ss_challenge s
     = be_value (tagged_hash "BIP0340/challenge"
         ((x_only_public_key (ss_final_nonce s)).1
          ++ (x_only_public_key (kc_key (ss_key_context s))).1 ++ message)) mod CURVE_ORDER
  /\ ss_nonce_odd s = is_odd (ss_final_nonce s)
  /\ ss_key_odd s = is_odd (kc_key (ss_key_context s)).

Lemma session_values_spec ds r1 r2 tweaks message s :
  Forall secret ds -> Forall tweak_wf tweaks ->
  musig2_session_values_from_aggregate_nonce (from_secret_key <$> ds)
    (serialize_extended (agg r1) ++ serialize_extended (agg r2)) tweaks message = Ok s ->
  session_facts (weighted_sum (from_secret_key <$> ds) ds) r1 r2 message s.
Proof.
  intros Hds Htw. unfold musig2_session_values_from_aggregate_nonce.
  destruct (_ || _); [done|]. do 2 (destruct (_ <? _); [done|]).
  intros (kc & Hkc & Hrun)%bind_Ok. apply key_context_inv in Hkc; [|done..].
  destruct (extended_agg r1 (serialize_extended (agg r2))) as [-> ->] in Hrun.
  destruct (extended_agg r2 []) as [Hr2 _]. rewrite app_nil_r in Hr2.
  rewrite take_ge in Hr2 by (destruct (agg r2); [done|cbn; by rewrite pk_serialize_length]).
  rewrite Hr2 in Hrun. cbn [mbind result_bind] in Hrun.
  rewrite scalar_from_hash_spec in Hrun by apply tagged_hash_bytes32.
  cbn [mbind result_bind] in Hrun. set (b := _ mod CURVE_ORDER) in Hrun.
  assert (Hb : 0 <= b < CURVE_ORDER) by apply mod_range. clearbody b.
  rewrite agg_multiply in Hrun by done. cbn [mbind result_bind] in Hrun.
  rewrite agg_add in Hrun. cbn [mbind result_bind] in Hrun.
  apply bind_Ok in Hrun as (R & HR & Hrun).
  rewrite scalar_from_hash_spec in Hrun by apply tagged_hash_bytes32. apply Ok_inj in Hrun. subst s.
  unfold session_facts. cbn. split; [done|]. split; [done|]. split; [|done].
  destruct (agg _); [done|]. by injection HR as ->.
Qed.
(** ** Partial signatures *)

Lemma sgn_xorb a b : sgn (xorb a b) = sgn a * sgn b.
Proof. by destruct a, b. Qed.

(** What signer [d] with nonce [r] owes the session: [±(r1 + b·r2) ± e·c·d]. *)
Definition owed (c : Z) (s : Musig2SessionValues) (d : Z) (r : Z * Z) : Z :=
  sgn (ss_nonce_odd s) * (r.1 + r.2 * ss_nonce_coefficient s)
  + sgn (ss_key_odd s) * sgn (kc_gacc_negative (ss_key_context s)) * (d * c * ss_challenge s).

Lemma serialized_nth keys (i : nat) key :
  keys !! i = Some key -> nth i (musig2_key_material keys).1.1 [] = pk_serialize key.
Proof.
  intros Hi. apply nth_lookup_Some. cbn [fst musig2_key_material]. by rewrite list_lookup_fmap, Hi.
Qed.

Section partial.
Variables (keys : list PublicKey) (nonce agg_nonce message : list Z) (tweaks : list Musig2Tweak).
Variables (i : nat) (d : Z) (r : Z * Z) (s : Musig2SessionValues).
Hypothesis Hkey : keys !! i = Some (from_secret_key d).
Hypothesis Hd : secret d.
Hypothesis Hr : nonce_pair nonce r.
Hypothesis Hsession :
  musig2_session_values_from_aggregate_nonce keys agg_nonce tweaks message = Ok s.
Hypothesis Hb : 0 <= ss_nonce_coefficient s < CURVE_ORDER.
Hypothesis He : 0 <= ss_challenge s < CURVE_ORDER.

Let c : Z := coefficient keys (from_secret_key d).

Lemma effective_nonce_spec :
  musig2_effective_signer_nonce nonce (ss_nonce_coefficient s) (ss_nonce_odd s)
  = Ok (agg (sgn (ss_nonce_odd s) * (r.1 + r.2 * ss_nonce_coefficient s))).
Proof.
  destruct Hr as (Hr1 & Hr2 & Hs1 & Hs2). unfold musig2_effective_signer_nonce. rewrite Hs1, Hs2.
  cbn [ok_or mbind result_bind]. rewrite <- !agg_secret, agg_multiply by done.
  cbn [mbind result_bind]. rewrite agg_add. cbn [mbind result_bind]. by rewrite agg_sgn.
Qed.

(** The verification accepts exactly the scalar owed. *)
Lemma partial_verified partial :
  len keys <= MAX_MUSIG_KEYS -> len tweaks <= MAX_MUSIG_TWEAKS ->
  len message <= MAX_MUSIG_MESSAGE_BYTES -> bytes32 partial ->
  verify_musig2_partial_signature_with_aggregate_nonce keys nonce agg_nonce tweaks i message partial
    = Ok tt
  <-> scalar partial /\ be_value partial =n= owed c s d r.
Proof.
  intros Hk Ht Hm Hp. unfold verify_musig2_partial_signature_with_aggregate_nonce. rewrite Hkey.
  rewrite (proj2 (Z.ltb_ge _ _) Hk), (proj2 (Z.ltb_ge _ _) Ht), (proj2 (Z.ltb_ge _ _) Hm). cbn [orb].
  rewrite order_le by done.
  destruct (Z.leb_spec CURVE_ORDER (be_value partial)) as [|Hlt]; [split; [done|intros [[_ ?] _]; lia]|].
  assert (Hps : scalar partial) by by split. rewrite Hsession. cbn [mbind result_bind].
  rewrite effective_nonce_spec. cbn [mbind result_bind].
  pose proof (serialized_nth keys i _ Hkey) as Hnth.
  pose proof (key_coefficient_eq keys (from_secret_key d)) as Hc.
  destruct (musig2_key_material keys) as [[serialized list_hash] second]. cbn [fst] in Hnth.
  rewrite Hnth, (proj1 Hc), <- agg_secret by done. cbn [mbind result_bind].
  rewrite agg_multiply by apply coefficient_range. cbn [mbind result_bind].
  rewrite agg_multiply by done. cbn [mbind result_bind].
  rewrite agg_sgn, agg_add, point_from_scalar_agg by done. cbn [mbind result_bind].
  assert (Howed : owed c s d r
    = sgn (ss_nonce_odd s) * (r.1 + r.2 * ss_nonce_coefficient s)
      + sgn (xorb (ss_key_odd s) (kc_gacc_negative (ss_key_context s)))
        * (d * coefficient keys (from_secret_key d) * ss_challenge s))
    by (unfold owed; by rewrite sgn_xorb).
  rewrite <- Howed. case_bool_decide as Heq; rewrite agg_eqm in Heq; split; [done|done|done|].
  by intros [_ Hv].
Qed.

(** ** Signing *)

(** A secret term and its value. *)
Definition term_ok (t : option Z) (v : Z) : Prop :=
  match t with Some k => secret k /\ k =n= v | None => v =n= 0 end.

Lemma secret_of_term z v : z =n= v -> term_ok (secret_of z) v.
Proof.
  intros Hzv. unfold secret_of. destruct (Z.eqb_spec (z mod CURVE_ORDER) 0) as [Hz|Hz]; cbn.
  - rewrite <- Hzv. by apply eqn_mod.
  - split; [|by rewrite eqm_mod]. pose proof (mod_range z). unfold secret. lia.
Qed.

Lemma multiply_secret_term_ok k v t :
  secret k -> k =n= v -> 0 <= t < CURVE_ORDER ->
  exists o, multiply_secret_term k t = Ok o /\ term_ok o (v * t).
Proof.
  intros Hs Hv Ht. unfold multiply_secret_term. destruct (Z.eqb_spec t 0) as [->|Hne].
  { exists None. split; [done|]. cbn. apply eq_eqn. lia. }
  rewrite sk_mul_tweak_eq by done.
  pose proof (secret_of_term (k * t) (v * t) ltac:(by rewrite Hv)) as Hterm.
  destruct (secret_of (k * t)) as [o|] eqn:Ho; [by exists (Some o)|].
  exfalso. unfold secret_of in Ho. destruct (Z.eqb_spec (k * t mod CURVE_ORDER) 0); [|done].
  destruct (CURVE_ORDER_mul k t) as [Hz|Hz]; [done| |].
  - rewrite secret_mod in Hz by done. unfold secret in Hs. lia.
  - rewrite Z.mod_small in Hz; lia.
Qed.

Lemma add_secret_terms_ok l lv t tv :
  term_ok l lv -> term_ok t tv -> exists o, add_secret_terms l t = Ok o /\ term_ok o (lv + tv).
Proof.
  destruct l as [l|], t as [t|]; cbn [term_ok add_secret_terms].
  - intros [Hl Hlv] [Ht Htv]. eexists. split; [done|]. unfold secret in *.
    rewrite sk_add_tweak_eq by (unfold secret; lia). apply secret_of_term. by rewrite Hlv, Htv.
  - intros [Hl Hlv] Htv. exists (Some l). split; [done|]. split; [done|]. by rewrite Hlv, Htv, Z.add_0_r.
  - intros Hlv [Ht Htv]. exists (Some t). split; [done|]. split; [done|]. by rewrite Hlv, Htv.
  - intros Hlv Htv. exists None. split; [done|]. cbn. by rewrite Hlv, Htv.
Qed.

Lemma sk_sgn (b : bool) k :
  secret k -> secret (if b then sk_negate k else k) /\ (if b then sk_negate k else k) =n= sgn b * k.
Proof.
  intros Hk. destruct b; [rewrite sk_negate_eq by done|]; (split; [unfold secret in *; lia|]).
  - rewrite eqm_order. apply eq_eqn. cbn. lia.
  - apply eq_eqn. cbn. lia.
Qed.

Lemma term_bytes o v :
  term_ok o v ->
  let bytes := match o with Some k => sk_secret_bytes k | None => replicate 32 0 end in
  scalar bytes /\ be_value bytes =n= v.
Proof.
  destruct o as [k|]; cbn.
  - intros [Hk Hv]. destruct (sk_secret_bytes_eq k Hk) as [Hs ->]. done.
  - intros Hv. split; [apply scalar_zero|]. change (be_value (replicate 32 0) =n= v).
    by rewrite be_value_zeros, Hv.
Qed.

(** With the secret halves of its nonce, the signer computes what it owes. *)
Lemma sign_owed consumed :
  len keys <= MAX_MUSIG_KEYS -> len tweaks <= MAX_MUSIG_TWEAKS ->
  len message <= MAX_MUSIG_MESSAGE_BYTES ->
  cn_public_key consumed = pk_serialize (from_secret_key d) ->
  sk_from_byte_array (cn_first consumed) = Some r.1 ->
  sk_from_byte_array (cn_second consumed) = Some r.2 ->
  exists partial,
    sign_with_consumed nonce consumed d keys i nonce agg_nonce tweaks message = Ok partial
    /\ scalar partial /\ be_value partial =n= owed c s d r.
Proof.
  intros Hk Ht Hm Hpk Hf Hs2. unfold sign_with_consumed.
  rewrite Hpk, bool_decide_true by done. cbn [negb]. rewrite bool_decide_true by done. cbn [negb].
  rewrite bool_decide_true by done. cbn [negb]. rewrite Hsession, Hf, Hs2. cbn [ok_or mbind result_bind].
  destruct Hr as (Hr1 & Hr2 & _).
  destruct (sk_sgn (ss_nonce_odd s) r.1 Hr1) as [Hs1 Hv1], (sk_sgn (ss_nonce_odd s) r.2 Hr2) as [Hs2' Hv2].
  destruct (multiply_secret_term_ok _ _ _ Hs2' Hv2 Hb) as (t2 & -> & Ht2). cbn [mbind result_bind].
  destruct (add_secret_terms_ok (Some _) _ _ _ (conj Hs1 Hv1) Ht2) as (nt & -> & Hnt).
  cbn [mbind result_bind].
  pose proof (serialized_nth keys i _ Hkey) as Hnth.
  pose proof (key_coefficient_eq keys (from_secret_key d)) as Hc.
  destruct (musig2_key_material keys) as [[serialized list_hash] second]. cbn [fst] in Hnth.
  rewrite Hnth, (proj1 Hc). cbn [mbind result_bind].
  set (neg := xorb _ _). destruct (sk_sgn neg d Hd) as [Hsk Hkv].
  destruct (multiply_secret_term_ok _ _ _ Hsk Hkv (coefficient_range keys (from_secret_key d))) as (ct & -> & Hct).
  cbn [mbind result_bind].
  assert (exists kt, match ct with
                     | Some term => multiply_secret_term term (ss_challenge s)
                     | None => Ok None
                     end = Ok kt /\ term_ok kt (sgn neg * d * c * ss_challenge s)) as (kt & -> & Hkt).
  { destruct ct as [ct|]; [destruct Hct; by apply multiply_secret_term_ok|].
    exists None. split; [done|]. change (sgn neg * d * c =n= 0) in Hct. cbn [term_ok]. by rewrite Hct. }
  cbn [mbind result_bind]. destruct (add_secret_terms_ok _ _ _ _ Hnt Hkt) as (pt & -> & Hpt).
  cbn [mbind result_bind]. apply term_bytes in Hpt as [Hps Hpv]. 
  set (partial := match pt with Some k => sk_secret_bytes k | None => replicate 32 0 end) in *.
  assert (Howed : be_value partial =n= owed c s d r).
  { rewrite Hpv. apply eq_eqn. unfold owed, neg. rewrite sgn_xorb. ring. }
  exists partial. rewrite (proj2 (partial_verified partial Hk Ht Hm (proj1 Hps))) by done. done.
Qed.

End partial.
(** ** Whole sessions *)

Lemma keys_scalars keys : exists ds, Forall secret ds /\ keys = from_secret_key <$> ds.
Proof.
  induction keys as [|key keys (ds & Hds & ->)]; [by exists []|].
  destruct (public_key_scalar key) as (d & Hd & <-). exists (d :: ds). split; [by constructor|done].
Qed.

Record session_open (keys : list PublicKey) (nonces : list (list Z)) (tweaks : list Musig2Tweak)
    (message : list Z) (s : Musig2SessionValues) (ds : list Z) (rs : list (Z * Z))
    (agg_nonce : list Z) : Prop := {
  so_keys : keys = from_secret_key <$> ds;
  so_secrets : Forall secret ds;
  so_nonces : Forall2 nonce_pair nonces rs;
  so_length : length nonces = length keys;
  so_bounds : validate_musig2_session_bounds keys nonces tweaks message = Ok tt;
  so_agg_nonce : musig2_aggregate_public_nonces nonces = Ok agg_nonce;
  so_session : musig2_session_values_from_aggregate_nonce keys agg_nonce tweaks message = Ok s;
  so_facts : session_facts (weighted_sum keys ds) (zsum (fst <$> rs)) (zsum (snd <$> rs)) message s;
}.

Lemma validate_bounds_Ok keys nonces tweaks message u :
  validate_musig2_session_bounds keys nonces tweaks message = Ok u ->
  len keys <= MAX_MUSIG_KEYS /\ len tweaks <= MAX_MUSIG_TWEAKS
  /\ len message <= MAX_MUSIG_MESSAGE_BYTES /\ length nonces = length keys.
Proof.
  unfold validate_musig2_session_bounds.
  destruct ((len keys =? 0) || (MAX_MUSIG_KEYS <? len keys) || negb (len keys =? len nonces)) eqn:Hg;
    [done|]. destruct (MAX_MUSIG_TWEAKS <? len tweaks) eqn:Ht; [done|].
  destruct (MAX_MUSIG_MESSAGE_BYTES <? len message) eqn:Hm; [done|]. intros _.
  apply orb_false_iff in Hg as [Hg Hl]. apply orb_false_iff in Hg as [_ Hk].
  apply negb_false_iff in Hl. unfold len in *. lia.
Qed.

Lemma session_values_open keys nonces tweaks message s :
  Forall tweak_wf tweaks ->
  musig2_session_values keys nonces tweaks message = Ok s ->
  exists ds rs agg_nonce, session_open keys nonces tweaks message s ds rs agg_nonce.
Proof.
  intros Htw. unfold musig2_session_values. intros ([] & Hv & Hrun)%bind_Ok.
  apply bind_Ok in Hrun as (an & Han & Hrun).
  destruct (keys_scalars keys) as (ds & Hds & ->).
  pose proof Han as (rs & Hrs & ->)%aggregate_public_nonces_spec.
  eexists ds, rs, _. split; [done|done|done| |done|done|done|].
  - by apply validate_bounds_Ok in Hv as (_ & _ & _ & Hl).
  - by eapply session_values_spec.
Qed.

Section opened.
Context (keys : list PublicKey) (nonces : list (list Z)) (tweaks : list Musig2Tweak).
Context (message : list Z) (s : Musig2SessionValues) (ds : list Z) (rs : list (Z * Z)).
Context (agg_nonce : list Z) (Hopen : session_open keys nonces tweaks message s ds rs agg_nonce).

Lemma challenge_range : 0 <= ss_challenge s < CURVE_ORDER.
Proof. destruct (so_facts _ _ _ _ _ _ _ _ Hopen) as (_ & _ & _ & -> & _). apply mod_range. Qed.

(** The share of a participant. *)
Definition share (d : Z) (r : Z * Z) : Z := owed (coefficient keys (from_secret_key d)) s d r.

Lemma verify_share i d r partial :
  ds !! i = Some d -> rs !! i = Some r -> bytes32 partial ->
  verify_musig2_partial_signature_with_tweaks keys nonces tweaks i message partial = Ok tt
  <-> scalar partial /\ be_value partial =n= share d r.
Proof.
  intros Hd Hr Hp. destruct Hopen as [Hk Hds Hn Hl Hv Han Hs Hf].
  pose proof (validate_bounds_Ok _ _ _ _ _ Hv) as (Bk & Bt & Bm & _).
  assert (Hkey : keys !! i = Some (from_secret_key d)) by (rewrite Hk, list_lookup_fmap, Hd; done).
  destruct (Forall2_lookup_r _ _ _ _ _ Hn Hr) as (nonce & Hni & Hnp).
  rewrite <- (partial_verified keys nonce agg_nonce message tweaks i d r s Hkey
    (proj1 (Forall_lookup _ _) Hds _ _ Hd) Hnp Hs (proj1 (proj2 Hf)) challenge_range partial Bk Bt Bm Hp).
  unfold verify_musig2_partial_signature_with_tweaks. rewrite Hv, Han. cbn [mbind result_bind].
  apply lookup_lt_Some in Hkey as Hlt. rewrite (proj2 (Nat.leb_gt _ _) Hlt).
  rewrite (nth_lookup_Some _ _ _ _ Hni). destruct (bytes_le CURVE_ORDER_BYTES partial) eqn:Hle; [|done].
  split; [done|]. unfold verify_musig2_partial_signature_with_aggregate_nonce.
  rewrite Hkey, Hle. by repeat (destruct (_ <? _)); cbn [orb].
Qed.

Lemma zsum_zip (ps : list Z) l (k : list (Z * Z)) (f : Z -> Z * Z -> Z) :
  length ps = length l -> length l = length k ->
  (forall i p a b, ps !! i = Some p -> l !! i = Some a -> k !! i = Some b -> p =n= f a b) ->
  zsum ps =n= zsum (zip_with f l k).
Proof.
  revert l k. induction ps as [|p ps IH]; intros [|a l] [|b k]; cbn [length]; try lia; [done|].
  intros Hl1 Hl2 Hall. cbn. rewrite (Hall 0%nat p a b), (IH l k) by (done || lia || intros i; apply (Hall (S i))).
  done.
Qed.

Lemma share_sum l (k : list (Z * Z)) :
  length l = length k ->
  zsum (zip_with share l k)
  = sgn (ss_nonce_odd s) * (zsum (fst <$> k) + zsum (snd <$> k) * ss_nonce_coefficient s)
    + sgn (ss_key_odd s) * sgn (kc_gacc_negative (ss_key_context s))
      * (weighted_sum keys l * ss_challenge s).
Proof.
  revert k. unfold weighted_sum. induction l as [|d l IH]; intros [|r k]; cbn [length]; try lia.
  { intros _. cbn. ring. }
  intros Hl. cbn [zip_with]. rewrite !fmap_cons, !zsum_cons, IH by lia. unfold share, owed. ring.
Qed.

Lemma add_partials_spec partials acc :
  Forall scalar partials -> scalar acc ->
  exists out, try_fold add_partial acc partials = Ok out /\ scalar out
    /\ be_value out =n= be_value acc + zsum (be_value <$> partials).
Proof.
  intros Hps. revert acc. induction Hps as [|p ps Hp Hps IH]; intros acc Ha; cbn [try_fold].
  { exists acc. split; [done|]. split; [done|]. apply eq_eqn. cbn. lia. }
  assert (add_partial acc p = Ok (scalar_add_mod acc p)) as ->
    by (unfold add_partial; by rewrite order_le_false). cbn [mbind result_bind].
  destruct (scalar_add_mod_spec acc p Ha Hp) as [Hs Hv].
  destruct (IH _ Hs) as (out & -> & Ho & Hov). exists out. split; [done|]. split; [done|].
  rewrite Hov, Hv, eqm_mod, fmap_cons, zsum_cons. apply eq_eqn. lia.
Qed.

Lemma even_lift P q :
  Point P = agg q ->
  exists p, secret p /\ p =n= sgn (is_odd P) * q
    /\ x_only_public_key (from_secret_key p) = ((x_only_public_key P).1, Even).
Proof.
  destruct (public_key_scalar P) as (k & Hk & <-). rewrite <- agg_secret, agg_eqm by done. intros Hkq.
  unfold is_odd. destruct (x_only_public_key (from_secret_key k)) as [x parity] eqn:Hx.
  destruct parity; cbn [fst snd]; [rewrite bool_decide_false by done|rewrite bool_decide_true by done].
  - exists k. split; [done|]. split; [|done]. rewrite Hkq. apply eq_eqn. cbn. lia.
  - exists (CURVE_ORDER - k). split; [unfold secret in *; lia|]. split.
    + rewrite eqm_order, Hkq. apply eq_eqn. cbn. lia.
    + by rewrite <- pk_negate_eq, x_only_negate, Hx by done.
Qed.

(** A scalar with the Schnorr equation is accepted. *)
Lemma signature_valid sc r q :
  scalar sc -> Point (ss_final_nonce s) = agg r -> Point (kc_key (ss_key_context s)) = agg q ->
  be_value sc =n= sgn (ss_nonce_odd s) * r + ss_challenge s * (sgn (ss_key_odd s) * q) ->
  verify_musig2_signature (x_only_public_key (kc_key (ss_key_context s))).1 message
    ((x_only_public_key (ss_final_nonce s)).1 ++ sc) = Ok tt.
Proof.
  intros Hsc HR HQ Hv. destruct (so_facts _ _ _ _ _ _ _ _ Hopen) as (_ & _ & _ & Hch & Hno & Hko).
  destruct (even_lift _ _ HR) as (r' & Hr' & Hr'v & Hr'x), (even_lift _ _ HQ) as (q' & Hq' & Hq'v & Hq'x).
  destruct (x_only_bytes (ss_final_nonce s)) as [Hxl Hxb]. destruct Hsc as [[Hsl Hsb] Hslt].
  unfold verify_musig2_signature.
  rewrite (proj2 (verify_schnorr_bip340 q' _ _ message Hq' Hq'x ltac:(by rewrite length_app, Hxl, Hsl)
                    ltac:(by apply Forall_app))); [done|].
  rewrite take_app_length', drop_app_length' by done. split; [done|].
  exists r'. split; [done|]. split; [done|].
  pose proof (be_value_range sc Hsb) as Hrange. rewrite <- (Z.mod_small (be_value sc) CURVE_ORDER) by lia.
  apply (proj1 (eqn_mod _ _)). rewrite Hv, Hr'v, Hq'v, Hno, Hko, Hch, eqm_mod. done.
Qed.

Lemma tweak_term_ok :
  exists t, scalar_multiply_public (scalar_to_be_bytes (ss_challenge s)) (kc_tacc (ss_key_context s)) = Ok t
    /\ let tweak_term := if ss_key_odd s then scalar_negate_mod t else t in
       scalar tweak_term
       /\ be_value tweak_term
          =n= sgn (ss_key_odd s) * (ss_challenge s * be_value (kc_tacc (ss_key_context s))).
Proof.
  destruct (so_facts _ _ _ _ _ _ _ _ Hopen) as ([Htacc _] & _).
  destruct (scalar_to_be_bytes_eq _ challenge_range) as [Hes Hev].
  destruct (scalar_multiply_public_spec _ _ Hes Htacc) as (t & Ht & Hts & Htv). rewrite Hev in Htv.
  exists t. split; [done|]. cbv zeta. destruct (ss_key_odd s).
  - destruct (scalar_negate_mod_spec _ Hts) as [Hns ->]. split; [done|].
    rewrite eqm_mod, Htv, eqm_mod. apply eq_eqn. cbn. lia.
  - split; [done|]. rewrite Htv, eqm_mod. apply eq_eqn. cbn. lia.
Qed.

(** Verified partial signatures are scalars that add up to the shares. *)
Lemma verified_sum partials :
  length partials = length keys -> Forall bytes32 partials ->
  (forall i partial, partials !! i = Some partial ->
     verify_musig2_partial_signature_with_tweaks keys nonces tweaks i message partial = Ok tt) ->
  Forall scalar partials /\ zsum (be_value <$> partials) =n= zsum (zip_with share ds rs).
Proof.
  intros Hlen Hbytes Hall. pose proof Hopen as [Hk Hds Hn Hl Hv Han Hs Hf].
  pose proof (Forall2_length _ _ _ Hn) as Hnl.
  assert (Hdl : length ds = length keys) by (by rewrite Hk, length_fmap).
  assert (Hshares : forall i p d r, partials !! i = Some p -> ds !! i = Some d -> rs !! i = Some r ->
            scalar p /\ be_value p =n= share d r).
  { intros i p d r Hp Hd Hr. apply (verify_share i d r p Hd Hr); [|by apply Hall].
    by eapply Forall_lookup_1. }
  split.
  - apply Forall_lookup. intros i p Hp. apply lookup_lt_Some in Hp as Hlt.
    destruct (lookup_lt_is_Some_2 ds i ltac:(lia)) as [d Hd], (lookup_lt_is_Some_2 rs i ltac:(lia)) as [r Hr].
    by destruct (Hshares i p d r Hp Hd Hr).
  - apply zsum_zip; [by rewrite length_fmap, Hlen|lia|]. intros i v d r Hp Hd Hr.
    rewrite list_lookup_fmap in Hp. apply fmap_Some in Hp as (p & Hp & ->). by apply (Hshares i).
Qed.

(** The aggregate of shares is a BIP-340 signature under the tweaked key. *)
Lemma aggregate_shares partials :
  length partials = length keys -> Forall bytes32 partials ->
  (forall i partial, partials !! i = Some partial ->
     verify_musig2_partial_signature_with_tweaks keys nonces tweaks i message partial = Ok tt) ->
  agg (zsum (fst <$> rs) + zsum (snd <$> rs) * ss_nonce_coefficient s) <> Infinity ->
  exists signature,
    musig2_aggregate_partial_signatures keys nonces tweaks message partials = Ok signature
    /\ verify_musig2_signature (x_only_public_key (kc_key (ss_key_context s))).1 message signature
       = Ok tt.
Proof.
  intros Hlen Hbytes Hall Hfin. destruct (verified_sum partials Hlen Hbytes Hall) as [Hps Hpsum].
  destruct (add_partials_spec partials (replicate 32 0) Hps scalar_zero) as (sum & Hsum & Hss & Hsv).
  destruct tweak_term_ok as (t & Ht & Hts & Htv). cbv zeta in Hts, Htv.
  destruct (scalar_add_mod_spec _ _ Hss Hts) as [Hfs Hfv].
  pose proof Hopen as [Hk Hds Hn Hl Hv Han Hs Hf].
  destruct Hf as ([_ HQ] & _ & HR & _). specialize (HR Hfin).
  pose proof (Forall2_length _ _ _ Hn) as Hnl.
  assert (Hdl : length ds = length rs) by (rewrite <- Hnl, Hl, Hk; by rewrite length_fmap).
  assert (Hvalid : verify_musig2_signature (x_only_public_key (kc_key (ss_key_context s))).1 message
    ((x_only_public_key (ss_final_nonce s)).1
     ++ scalar_add_mod sum (if ss_key_odd s then scalar_negate_mod t else t)) = Ok tt).
  { apply (signature_valid _ _ _ Hfs HR HQ). rewrite Hfv, eqm_mod, Hsv, Htv, be_value_zeros, Hpsum.
    rewrite share_sum by done. apply eq_eqn. ring. }
  eexists. split; [|exact Hvalid].
  unfold musig2_aggregate_partial_signatures. rewrite Hv. cbn [mbind result_bind].
  unfold len. rewrite Hlen, Z.eqb_refl. cbn [negb].
  rewrite try_map_units by (intros i [j p]; rewrite list_lookup_imap, fmap_Some;
                            intros (x & Hx & [= -> ->]); by apply Hall).
  unfold musig2_session_values. rewrite Hv. cbn [mbind result_bind]. rewrite Han. cbn [mbind result_bind].
  rewrite Hs. cbn [mbind result_bind]. rewrite Hsum. cbn [mbind result_bind].
  rewrite Ht. cbn [mbind result_bind]. by rewrite Hvalid.
Qed.
End opened.
(** ** Generated nonces *)

(** A fresh nonce of signer [d] whose public halves are those of its secrets. *)
Definition honest_nonce (d : Z) (sn : Musig2SecretNonce) (r : Z * Z) : Prop :=
  secret r.1 /\ secret r.2
  /\ sn = mkSecretNonce (sk_secret_bytes r.1) (sk_secret_bytes r.2) (pk_serialize (from_secret_key d))
            (public_nonce_of r.1 r.2) false.

Lemma from_byte_array_secret l k : bytes32 l -> sk_from_byte_array l = Some k -> secret k.
Proof.
  intros Hl. rewrite sk_from_byte_array_eq by done.
  destruct ((0 <? be_value l) && (be_value l <? CURVE_ORDER)) eqn:Hr; [|done].
  intros [= <-]. unfold secret. lia.
Qed.

Lemma from_secret_bytes k : secret k -> sk_from_byte_array (sk_secret_bytes k) = Some k.
Proof.
  intros Hk. destruct (sk_secret_bytes_eq k Hk) as [[Hb _] Hv]. rewrite sk_from_byte_array_eq, Hv by done.
  unfold secret in Hk. by rewrite (proj2 (Z.ltb_lt 0 k)), (proj2 (Z.ltb_lt k CURVE_ORDER)) by lia.
Qed.

Lemma nonce_scalar_secret input index k : musig2_nonce_scalar input index = Ok k -> secret k.
Proof.
  unfold musig2_nonce_scalar. intros Hk%ok_or_Ok. eapply from_byte_array_secret; [|done].
  apply scalar_bytes_from_hash_spec, tagged_hash_bytes32.
Qed.

Lemma nonce_gen_honest d agg_key message extra randomness sn :
  musig2_nonce_gen d agg_key message extra randomness = Ok sn -> exists r, honest_nonce d sn r.
Proof.
  unfold musig2_nonce_gen, musig2_nonce_gen_internal. do 2 (destruct (_ <? _); [done|]).
  intros (mp & _ & Hrun)%bind_Ok. apply bind_Ok in Hrun as (xl & _ & Hrun).
  apply bind_Ok in Hrun as (r1 & Hr1 & Hrun). apply bind_Ok in Hrun as (r2 & Hr2 & Hrun).
  apply Ok_inj in Hrun. subst sn. exists (r1, r2).
  split; [by eapply nonce_scalar_secret|]. split; [by eapply nonce_scalar_secret|]. done.
Qed.

Lemma public_nonce_pair r : secret r.1 -> secret r.2 -> nonce_pair (public_nonce_of r.1 r.2) r.
Proof.
  intros H1' H2'. split; [done|]. split; [done|]. unfold public_nonce_of.
  rewrite take_app_length', drop_app_length' by by rewrite pk_serialize_length.
  by rewrite !pk_from_slice_serialize.
Qed.

Lemma nonce_pair_inj nonce r r' : nonce_pair nonce r -> nonce_pair nonce r' -> r = r'.
Proof.
  intros (Ha & Hb & H1' & H2') (Ha' & Hb' & H3' & H4'). destruct r as [r1 r2], r' as [r1' r2']. cbn in *.
  rewrite H1' in H3'. rewrite H2' in H4'. injection H3' as H3'%from_secret_key_inj; [|done..].
  injection H4' as H4'%from_secret_key_inj; [|done..]. by subst.
Qed.

(** The state a nonce is left in once it has been used. *)
Definition spent (sn : Musig2SecretNonce) : Musig2SecretNonce :=
  mkSecretNonce (replicate 32 0) (replicate 32 0) (replicate 33 0) (sn_public_nonce sn) true.

(** In an open session an honest participant's signing call succeeds with its
    share, and spends the nonce. *)
Lemma honest_sign keys nonces tweaks message s ds rs agg_nonce i d sn r :
  session_open keys nonces tweaks message s ds rs agg_nonce ->
  position keys (from_secret_key d) = Some i -> secret d ->
  honest_nonce d sn r -> nonces !! i = Some (sn_public_nonce sn) ->
  exists partial,
    musig2_partial_sign sn d keys nonces tweaks message = (spent sn, Ok partial)
    /\ scalar partial
    /\ verify_musig2_partial_signature_with_tweaks keys nonces tweaks i message partial = Ok tt.
Proof.
  intros Hopen Hpos Hd (Hr1 & Hr2 & ->) Hni. pose proof Hopen as [Hk Hds Hn Hl Hv Han Hs Hf].
  pose proof (validate_bounds_Ok _ _ _ _ _ Hv) as (Bk & Bt & Bm & _).
  pose proof Hpos as Hpos'. unfold position in Hpos'. apply fmap_Some in Hpos' as ([j y] & Hfind & ->).
  apply list_find_Some in Hfind as (Hkey & -> & _). cbn [fst] in *.
  assert (Hdi : ds !! j = Some d).
  { rewrite Hk, list_lookup_fmap in Hkey. apply fmap_Some in Hkey as (d' & Hd' & Heq).
    apply from_secret_key_inj in Heq; [by subst|done|]. by eapply Forall_lookup_1. }
  destruct (Forall2_lookup_l _ _ _ _ _ Hn Hni) as (r' & Hri & Hnp).
  cbn [sn_public_nonce] in *.
  assert (r' = r) as -> by (eapply nonce_pair_inj; [exact Hnp|by apply public_nonce_pair]).
  destruct (sign_owed keys (public_nonce_of r.1 r.2) agg_nonce message tweaks j d r s Hkey Hd Hnp Hs
    (proj1 (proj2 Hf)) (challenge_range _ _ _ _ _ _ _ _ Hopen)
    (mkConsumed (sk_secret_bytes r.1) (sk_secret_bytes r.2) (pk_serialize (from_secret_key d)))
    Bk Bt Bm eq_refl (from_secret_bytes _ Hr1) (from_secret_bytes _ Hr2)) as (partial & Hsign & Hps & Hpv).
  exists partial. split; [|split; [done|]].
  - unfold musig2_partial_sign. rewrite Hv. cbn [mbind result_bind]. rewrite Hpos.
    cbn [ok_or mbind result_bind]. rewrite bool_decide_true by done. cbn [negb]. rewrite Han.
    cbn [mbind result_bind]. rewrite (nth_lookup_Some _ _ _ _ Hni).
    unfold musig2_partial_sign_with_aggregate_nonce, consume. cbn -[replicate]. by rewrite Hsign.
  - apply (verify_share _ _ _ _ _ _ _ _ Hopen j d r); [done|done|apply Hps|done].
Qed.
(** ** Correctness of aggregation and of the protocol *)

(** The nonce point of the session before the generator replaces infinity. *)
Definition combined_nonce (nonces : list (list Z)) (s : Musig2SessionValues)
    : result VerificationError AggregatePoint :=
  p ← musig2_aggregate_nonces nonces;
  scaled ← multiply p.2 (ss_nonce_coefficient s);
  point_add p.1 scaled.

Lemma aggregate_nonces_eq nonces rs a b :
  Forall2 nonce_pair nonces rs ->
  try_fold add_nonce (agg a, agg b) nonces
  = Ok (agg (a + zsum (fst <$> rs)), agg (b + zsum (snd <$> rs))).
Proof.
  intros Hn. revert a b. induction Hn as [|nonce r nonces rs Hr Hn IH]; intros a b; cbn [try_fold].
  { cbn. by rewrite !Z.add_0_r. }
  assert (add_nonce (agg a, agg b) nonce = Ok (agg (a + r.1), agg (b + r.2))) as ->.
  { destruct Hr as (Hr1 & Hr2 & Hs1 & Hs2). unfold add_nonce. cbn [fst snd]. rewrite Hs1, Hs2.
    cbn [ok_or mbind result_bind]. by rewrite <- !agg_secret, !agg_add by done. }
  cbn [mbind result_bind]. rewrite IH. by rewrite !fmap_cons, !zsum_cons, !Z.add_assoc.
Qed.

Lemma combined_nonce_eq keys nonces tweaks message s ds rs agg_nonce :
  session_open keys nonces tweaks message s ds rs agg_nonce ->
  combined_nonce nonces s
  = Ok (agg (zsum (fst <$> rs) + zsum (snd <$> rs) * ss_nonce_coefficient s)).
Proof.
  intros Hopen. unfold combined_nonce, musig2_aggregate_nonces.
  change (Infinity, Infinity) with (agg 0, agg 0).
  rewrite (aggregate_nonces_eq _ _ _ _ (so_nonces _ _ _ _ _ _ _ _ Hopen)). cbn [mbind result_bind fst snd].
  rewrite agg_multiply by apply (so_facts _ _ _ _ _ _ _ _ Hopen). cbn [mbind result_bind].
  apply agg_add.
Qed.

(** The key the session signs under. *)
Definition session_key (s : Musig2SessionValues) : list Z :=
  (x_only_public_key (kc_key (ss_key_context s))).1.

Lemma session_key_tweaked keys nonces tweaks message s ds rs agg_nonce :
  session_open keys nonces tweaks message s ds rs agg_nonce ->
  musig2_tweaked_aggregate_key keys tweaks = Ok (session_key s).
Proof.
  intros [_ _ _ _ _ _ Hs _]. revert Hs. unfold musig2_session_values_from_aggregate_nonce.
  destruct (_ || _); [done|]. do 2 (destruct (_ <? _); [done|]).
  intros (kc & Hkc & Hrun)%bind_Ok. unfold musig2_tweaked_aggregate_key. rewrite Hkc. cbn [mbind result_bind].
  do 7 (apply bind_Ok in Hrun as (? & _ & Hrun)). apply Ok_inj in Hrun. by subst s.
Qed.

(** C27: aggregation is sound and blames correctly.  In a session whose
    combined nonce is not the point at infinity, if every partial signature
    verifies, then aggregation succeeds, and its result is a BIP-340 signature
    of the message under the tweaked aggregate key; and if some partial
    signature does not verify, aggregation fails with the error of the first
    one that does not. *)
Theorem musig2_aggregation_exact keys nonces tweaks message partials s :
  Forall tweak_wf tweaks -> Forall bytes32 partials -> length partials = length keys ->
  musig2_session_values keys nonces tweaks message = Ok s ->
  combined_nonce nonces s <> Ok Infinity ->
  ((forall i partial, partials !! i = Some partial ->
      verify_musig2_partial_signature_with_tweaks keys nonces tweaks i message partial = Ok tt) ->
   exists key signature,
     musig2_tweaked_aggregate_key keys tweaks = Ok key
     /\ musig2_aggregate_partial_signatures keys nonces tweaks message partials = Ok signature
     /\ verify_musig2_signature key message signature = Ok tt)
  /\ (forall i partial e,
        partials !! i = Some partial ->
        (forall j q, (j < i)%nat -> partials !! j = Some q ->
           verify_musig2_partial_signature_with_tweaks keys nonces tweaks j message q = Ok tt) ->
        verify_musig2_partial_signature_with_tweaks keys nonces tweaks i message partial = Err e ->
        musig2_aggregate_partial_signatures keys nonces tweaks message partials = Err e).
Proof.
  intros Htw Hb Hlen Hs Hfin. destruct (session_values_open _ _ _ _ _ Htw Hs) as (ds & rs & an & Hopen).
  split.
  - intros Hall. rewrite (combined_nonce_eq _ _ _ _ _ _ _ _ Hopen) in Hfin.
    destruct (aggregate_shares _ _ _ _ _ _ _ _ Hopen partials Hlen Hb Hall) as (signature & Ha & Hver);
      [congruence|].
    exists (session_key s), signature. by rewrite (session_key_tweaked _ _ _ _ _ _ _ _ Hopen).
  - intros i partial e Hi Hbefore He. unfold musig2_aggregate_partial_signatures.
    rewrite (so_bounds _ _ _ _ _ _ _ _ Hopen). cbn [mbind result_bind]. unfold len.
    rewrite Hlen, Z.eqb_refl. cbn [negb].
    rewrite (try_map_Err _ (imap pair partials) i (i, partial) e); [done| |done|].
    + by rewrite list_lookup_imap, Hi.
    + intros j [j' q] Hj. rewrite list_lookup_imap, fmap_Some. intros (x & Hx & [= -> ->]).
      exists tt. by apply Hbefore.
Qed.

Lemma position_nodup keys i key : NoDup keys -> keys !! i = Some key -> position keys key = Some i.
Proof.
  intros Hnd Hi. unfold position. assert (Hf : list_find (fun k => k = key) keys = Some (i, key)).
  { apply list_find_Some. split; [done|]. split; [done|]. intros j y Hj Hlt ->.
    pose proof (NoDup_lookup _ _ _ _ Hnd Hi Hj). lia. }
  by rewrite Hf.
Qed.

(** C1: the two-round protocol is complete.  When every participant generates
    a nonce with [musig2_nonce_gen] and the session is well-formed with a
    finite combined nonce, every participant's signing call succeeds and
    spends its nonce, and the aggregate of the partial signatures is a valid
    BIP-340 signature under the tweaked aggregate key. *)
Theorem musig2_protocol_complete ds sns tweaks message s :
  let keys := from_secret_key <$> ds in
  let nonces := sn_public_nonce <$> sns in
  Forall secret ds -> NoDup keys -> Forall tweak_wf tweaks ->
  Forall2 (fun d sn => exists agg_key m extra randomness,
             musig2_nonce_gen d agg_key m extra randomness = Ok sn) ds sns ->
  musig2_session_values keys nonces tweaks message = Ok s ->
  combined_nonce nonces s <> Ok Infinity ->
  exists partials key signature,
    length partials = length ds
    /\ (forall i d sn partial, ds !! i = Some d -> sns !! i = Some sn -> partials !! i = Some partial ->
          musig2_partial_sign sn d keys nonces tweaks message = (spent sn, Ok partial))
    /\ musig2_tweaked_aggregate_key keys tweaks = Ok key
    /\ musig2_aggregate_partial_signatures keys nonces tweaks message partials = Ok signature
    /\ verify_musig2_signature key message signature = Ok tt.
Proof.
  intros keys nonces Hds Hnd Htw Hgen Hs Hfin. pose proof (Forall2_length _ _ _ Hgen) as Hgl.
  destruct (session_values_open _ _ _ _ _ Htw Hs) as (ds' & rs & an & Hopen).
  rewrite (combined_nonce_eq _ _ _ _ _ _ _ _ Hopen) in Hfin.
  destruct (list_choice ds (fun i d partial => forall sn, sns !! i = Some sn ->
    musig2_partial_sign sn d keys nonces tweaks message = (spent sn, Ok partial) /\ scalar partial
    /\ verify_musig2_partial_signature_with_tweaks keys nonces tweaks i message partial = Ok tt))
    as (partials & Hlen & Hp).
  { intros i d Hd. destruct (Forall2_lookup_l _ _ _ _ _ Hgen Hd) as (sn & Hsn & (? & ? & ? & ? & Hg)).
    apply nonce_gen_honest in Hg as [r Hr].
    destruct (honest_sign keys nonces tweaks message s ds' rs an i d sn r Hopen) as (partial & Hsig).
    - apply position_nodup; [done|]. unfold keys. by rewrite list_lookup_fmap, Hd.
    - by eapply Forall_lookup_1.
    - done.
    - unfold nonces. by rewrite list_lookup_fmap, Hsn.
    - exists partial. intros sn' Hsn'. rewrite Hsn in Hsn'. by injection Hsn' as <-. }
  assert (Hall : forall i partial, partials !! i = Some partial -> scalar partial
    /\ verify_musig2_partial_signature_with_tweaks keys nonces tweaks i message partial = Ok tt).
  { intros i p Hi. apply lookup_lt_Some in Hi as Hlt.
    destruct (lookup_lt_is_Some_2 ds i ltac:(lia)) as [d Hd], (lookup_lt_is_Some_2 sns i ltac:(lia)) as [sn Hsn].
    by destruct (Hp i d p Hd Hi sn Hsn) as (_ & ? & ?). }
  destruct (aggregate_shares _ _ _ _ _ _ _ _ Hopen partials) as (signature & Ha & Hver).
  - unfold keys. by rewrite length_fmap.
  - apply Forall_lookup. intros i p Hi. by destruct (Hall i p Hi) as [[? _] _].
  - intros i p Hi. by destruct (Hall i p Hi).
  - congruence.
  - exists partials, (session_key s), signature. split; [done|].
    split; [|by rewrite (session_key_tweaked _ _ _ _ _ _ _ _ Hopen)].
    intros i d sn p Hd Hsn Hpi. by destruct (Hp i d p Hd Hpi sn Hsn).
Qed.
End session.

(** ** A secret nonce signs at most once *)

Record SignCall `{Secp256k1} : Type := mkCall {
  call_secret_key : Z;
  call_keys : list PublicKey;
  call_public_nonces : list (list Z);
  call_tweaks : list Musig2Tweak;
  call_message : list Z;
}.

Section single_use.
Context `{EventCrypto, TweakAdd, Secp256k1}.

(** A sequence of signing calls on the same nonce object. *)
Fixpoint sign_all (sn : Musig2SecretNonce) (calls : list SignCall)
    : Musig2SecretNonce * list (result VerificationError (list Z)) :=
  match calls with
  | [] => (sn, [])
  | call :: calls' =>
      let '(sn1, outcome) := musig2_partial_sign sn (call_secret_key call) (call_keys call)
                               (call_public_nonces call) (call_tweaks call) (call_message call) in
      let '(sn2, outcomes) := sign_all sn1 calls' in
      (sn2, outcome :: outcomes)
  end.

Definition released (outcomes : list (result VerificationError (list Z))) : nat :=
  length (filter (fun o => is_ok o = true) outcomes).

Lemma partial_sign_state sn d keys nonces tweaks message :
  let '(sn', outcome) := musig2_partial_sign sn d keys nonces tweaks message in
  (sn' = sn /\ is_ok outcome = false) \/ (sn_consumed sn = false /\ sn' = spent sn).
Proof.
  unfold musig2_partial_sign. cbv zeta. destruct (mbind _ _) as [[i an]|e]; [|by left].
  unfold musig2_partial_sign_with_aggregate_nonce, consume.
  destruct (sn_consumed sn); [by left|by right].
Qed.

(** A secret nonce signs at most once.  Whatever sequence of signing calls
    is made on one nonce object, at most one of them releases a partial
    signature, and none does if the nonce was already consumed; in the end
    the nonce is either untouched with nothing released, or spent, with its
    secret halves and key zeroed. *)
Theorem musig2_nonce_single_use sn calls :
  let '(sn', outcomes) := sign_all sn calls in
  (released outcomes <= (if sn_consumed sn then 0 else 1))%nat
  /\ ((sn' = sn /\ released outcomes = 0%nat) \/ (sn_consumed sn = false /\ sn' = spent sn)).
Proof.
  revert sn. induction calls as [|call calls IH]; intros sn; cbn [sign_all].
  { split; [apply Nat.le_0_l|by left]. }
  pose proof (partial_sign_state sn (call_secret_key call) (call_keys call)
    (call_public_nonces call) (call_tweaks call) (call_message call)) as Hst.
  destruct (musig2_partial_sign _ _ _ _ _ _) as [sn1 outcome]. specialize (IH sn1).
  destruct (sign_all sn1 calls) as [sn2 outcomes]. unfold released in *. rewrite filter_cons.
  destruct Hst as [[-> Ho]|[Hc ->]].
  - rewrite Ho. rewrite decide_False by done. exact IH.
  - rewrite Hc. cbn [sn_consumed spent] in IH. destruct IH as [Hle Hcase].
    split; [case_decide; cbn [length]; lia|]. right. split; [done|].
    by destruct Hcase as [[-> _]|[[=] _]].
Qed.

End single_use.

(** ** The key path of a swap output *)

(** Documented: x-only tweak addition is addition to the even lift. *)
Class TweakAddLaws `{TweakAdd, Secp256k1} : Prop := {
  add_tweak_eq p x t :
    secret p -> x_only_public_key (from_secret_key p) = (x, Even) -> 0 <= t < CURVE_ORDER ->
    add_tweak x t = x_only_public_key <$> point_of (p + t);
}.

Section key_path.
Context `{EventCrypto, TweakAdd, Secp256k1}.
Context `{!Sha256Digest, !ScalarBytes, !Secp256k1Laws, !TweakAddLaws}.

Lemma is_odd_false P : is_odd P = false <-> (x_only_public_key P).2 = Even.
Proof.
  unfold is_odd. destruct (x_only_public_key P) as [x []]; cbn.
  - by rewrite bool_decide_false.
  - by rewrite bool_decide_true.
Qed.

(** Tweaking the aggregate key by the Taproot tweak is tweaking its x-only
    form. *)
Lemma tweak_even P value t :
  bytes32 value -> scalar_from_be_bytes value = Some t ->
  (c ← apply_tweak (mkKeyContext P false (replicate 32 0)) (mkTweak value true);
   Ok (x_only_public_key (kc_key c)).1)
  = (c ← ok_or (Crypto "MuSig2 aggregate tweak") (add_tweak (x_only_public_key P).1 t); Ok c.1).
Proof.
  intros Hv Ht. destruct (public_key_scalar P) as (k & Hk & <-).
  assert (Htr : 0 <= t < CURVE_ORDER).
  { rewrite scalar_from_be_bytes_eq in Ht by done. pose proof (bytes32_range value Hv).
    destruct (Z.ltb_spec (be_value value) CURVE_ORDER); [|done]. injection Ht as <-. lia. }
  unfold apply_tweak. cbn [tw_value tw_xonly kc_key kc_tacc kc_gacc_negative]. rewrite Ht.
  cbn [ok_or mbind result_bind andb]. destruct (is_odd (from_secret_key k)) eqn:Hodd.
  - assert (Hk' : secret (CURVE_ORDER - k)) by (unfold secret in *; lia).
    cbn [kc_key]. rewrite pk_negate_eq, pk_add_exp_tweak_eq by done.
    rewrite (add_tweak_eq (CURVE_ORDER - k) _ t Hk').
    + by destruct (point_of _).
    + rewrite <- pk_negate_eq, x_only_negate by done. f_equal. unfold is_odd in Hodd.
      apply bool_decide_eq_true in Hodd. by rewrite Hodd.
    + done.
  - cbn [kc_key]. rewrite pk_add_exp_tweak_eq by done. apply is_odd_false in Hodd.
    rewrite (add_tweak_eq k _ t Hk).
    + by destruct (point_of _).
    + rewrite <- Hodd. apply surjective_pairing.
    + done.
Qed.

(** Cooperative and unilateral spends agree on the output key.  For the
    aggregate of the participants' keys as internal key, the key MuSig2 signs
    under with the tweak of [musig2_taproot_tweak] is the Taproot output key
    that commits to the same script tree, and one computation succeeds
    exactly when the other does. *)
Theorem musig2_key_path_agrees keys merkle_root internal_key output :
  musig2_aggregate_key keys = Ok internal_key ->
  (exists parity, taproot_output_key internal_key (Some merkle_root) = Ok (output, parity))
  <-> (exists tweak, musig2_taproot_tweak keys merkle_root = Ok tweak
        /\ musig2_tweaked_aggregate_key keys [tweak] = Ok output).
Proof.
  intros Hagg. pose proof Hagg as Hplain. unfold musig2_aggregate_key in Hplain.
  destruct ((len keys =? 0) || (MAX_MUSIG_KEYS <? len keys)) eqn:Hb; [done|].
  apply bind_Ok in Hplain as (P & HP & Hint). apply Ok_inj in Hint.
  unfold musig2_taproot_tweak. rewrite Hagg. cbn [mbind result_bind].
  unfold taproot_output_key. change (default [] (Some merkle_root)) with merkle_root.
  set (value := tagged_hash "TapTweak" (internal_key ++ merkle_root)).
  assert (Hkey : forall tweak t, tweak = mkTweak value true -> scalar_from_be_bytes value = Some t ->
    musig2_tweaked_aggregate_key keys [tweak]
    = (c ← ok_or (Crypto "MuSig2 aggregate tweak") (add_tweak internal_key t); Ok c.1)).
  { intros tweak t -> Ht. rewrite <- Hint, <- (tweak_even P value t) by (done || apply tagged_hash_bytes32).
    unfold musig2_tweaked_aggregate_key, musig2_key_context. rewrite Hb. cbn [orb len length].
    rewrite HP. cbn [mbind result_bind try_fold]. by destruct (apply_tweak _ _). }
  destruct (scalar_from_be_bytes value) as [t|]; cbn [ok_or mbind result_bind].
  - split.
    + intros (parity & Hok). apply ok_or_Ok in Hok. eexists. split; [done|].
      by rewrite (Hkey _ t), Hok by done.
    + intros (tweak & [= <-] & Hrun). rewrite (Hkey _ t) in Hrun by done.
      apply bind_Ok in Hrun as ([x parity] & Hx & [= <-]). apply ok_or_Ok in Hx.
      exists parity. by rewrite Hx.
  - split; [by intros (? & ?)|by intros (? & ? & ?)].
Qed.

End key_path.

(** ** A group with these laws

    The residues modulo the order, with the generator one: a key serializes
    as the smaller of itself and its inverse, with the parity that says
    which. *)

Lemma be_bytes_length m v : length (be_bytes m v) = m.
Proof. induction m as [|m IH]; cbn; [done|]. by rewrite IH. Qed.

Lemma be_bytes_bytes m v : Forall is_byte (be_bytes m v).
Proof. induction m as [|m IH]; cbn; constructor; [|done]. apply Z.mod_pos_bound. lia. Qed.

Lemma be_bytes_value m v : be_value (be_bytes m v) = v mod 256 ^ Z.of_nat m.
Proof.
  induction m as [|m IH]; [by rewrite Z.mod_1_r|]. cbn [be_bytes]. rewrite be_value_cons, be_bytes_length, IH.
  rewrite Nat2Z.inj_succ, Z.pow_succ_r by lia. rewrite (Z.mul_comm 256), Z.rem_mul_r by lia. ring.
Qed.

Lemma be_bytes_scalar k : 0 <= k < CURVE_ORDER -> scalar (be_bytes 32 k) /\ be_value (be_bytes 32 k) = k.
Proof.
  intros Hk. pose proof CURVE_ORDER_bounds. assert (Hv : be_value (be_bytes 32 k) = k).
  { rewrite be_bytes_value. apply Z.mod_small. change (256 ^ Z.of_nat 32) with (2 ^ 256). lia. }
  split; [|done]. split; [split; [apply be_bytes_length|apply be_bytes_bytes]|]. lia.
Qed.

#[local] Instance secret_dec k : Decision (secret k).
Proof. unfold secret. apply _. Defined.

Definition toy_key : Type := dsig secret.
Definition toy_one : toy_key := dexist 1 (conj eq_refl eq_refl).
Definition toy_point (k : Z) : toy_key :=
  match decide (secret k) with left Hk => dexist k Hk | right _ => toy_one end.
Definition toy_of (z : Z) : option toy_key :=
  if z mod CURVE_ORDER =? 0 then None else Some (toy_point (z mod CURVE_ORDER)).
Definition toy_x (P : toy_key) : list Z * Parity :=
  if 2 * `P <? CURVE_ORDER then (be_bytes 32 (`P), Even) else (be_bytes 32 (CURVE_ORDER - `P), Odd).
Definition toy_parse (l : list Z) : option toy_key :=
  match l with
  | b :: x => if bool_decide (b = 2) then Some (toy_point (be_value x))
              else if bool_decide (b = 3) then Some (toy_point (CURVE_ORDER - be_value x)) else None
  | [] => None
  end.

#[local] Instance toy_secp : Secp256k1 := {|
  PublicKey := toy_key;
  from_secret_key := toy_point;
  combine_keys ks := toy_of (zsum (proj1_sig <$> ks));
  pk_mul_tweak P t := toy_of (`P * t);
  pk_add_exp_tweak P t := toy_of (`P + t);
  pk_negate P := toy_point (CURVE_ORDER - `P);
  pk_serialize P := (match (toy_x P).2 with Even => 2 | Odd => 3 end) :: (toy_x P).1;
  pk_from_slice := toy_parse;
  x_only_public_key := toy_x;
  sk_from_byte_array l := if (0 <? be_value l) && (be_value l <? CURVE_ORDER)
                          then Some (be_value l) else None;
  sk_secret_bytes := be_bytes 32;
  sk_negate k := CURVE_ORDER - k;
  sk_mul_tweak k t := secret_of (k * t);
  sk_add_tweak k t := secret_of (k + t);
  scalar_to_be_bytes := be_bytes 32;
|}.

(** BIP-340 verification in this group, over the digest of [toy_crypto]. *)
Definition toy_verify (signature message key : list Z) : bool :=
  let s := be_value (drop 32 signature) in
  let e := be_value (@tagged_hash toy_crypto "BIP0340/challenge" (take 32 signature ++ key ++ message)) in
  let r := (s - e * be_value key) mod CURVE_ORDER in
  (s <? CURVE_ORDER) && (0 <? r) && (2 * r <? CURVE_ORDER)
  && bool_decide (take 32 signature = be_bytes 32 r).

#[local] Instance toy_schnorr : EventCrypto := {|
  canonical_json := @canonical_json toy_crypto;
  sha256 := @sha256 toy_crypto;
  xonly_public_key := @xonly_public_key toy_crypto;
  verify_schnorr := toy_verify;
|}.

#[local] Instance toy_add_tweak : TweakAdd := {|
  scalar_from_be_bytes := @scalar_from_be_bytes toy_tweak;
  add_tweak x t := toy_x <$> toy_of (be_value x + t);
|}.

Lemma toy_point_val k : secret k -> proj1_sig (toy_point k) = k.
Proof. intros Hk. unfold toy_point. by destruct (decide (secret k)). Qed.

Lemma toy_key_secret (P : toy_key) : secret (`P) /\ toy_point (`P) = P.
Proof.
  assert (HP : secret (`P)) by apply (proj2_dsig P). split; [done|].
  apply dsig_eq. by rewrite toy_point_val.
Qed.

Lemma toy_x_spec (P : toy_key) :
  (toy_x P = (be_bytes 32 (`P), Even) /\ 2 * `P < CURVE_ORDER)
  \/ (toy_x P = (be_bytes 32 (CURVE_ORDER - `P), Odd) /\ CURVE_ORDER < 2 * `P).
Proof.
  unfold toy_x. destruct (Z.ltb_spec (2 * `P) CURVE_ORDER) as [Hlt|Hge]; [by left|]. right. split; [done|].
  assert (2 * `P <> CURVE_ORDER); [|lia]. intros Heq. apply (f_equal Z.even) in Heq.
  rewrite Z.even_mul in Heq. by vm_compute in Heq.
Qed.

Lemma toy_x_even p x : secret p -> toy_x (toy_point p) = (x, Even) -> x = be_bytes 32 p /\ 2 * p < CURVE_ORDER.
Proof.
  intros Hp Hx. destruct (toy_x_spec (toy_point p)) as [[He Hlt]|[Ho _]]; [|congruence].
  rewrite toy_point_val in * by done. rewrite He in Hx. by injection Hx as <-.
Qed.

Lemma toy_even_x p : secret p -> 2 * p < CURVE_ORDER -> toy_x (toy_point p) = (be_bytes 32 p, Even).
Proof.
  intros Hp Hlt. destruct (toy_x_spec (toy_point p)) as [[He _]|[_ Hgt]]; rewrite toy_point_val in * by done;
    [done|lia].
Qed.

Lemma toy_schnorr_digest : Sha256Digest.
Proof. split; apply toy_crypto_digest. Qed.

Lemma toy_add_tweak_scalar : ScalarBytes.
Proof. by split. Qed.

Lemma secret_range k : secret k -> 0 <= k < CURVE_ORDER.
Proof. unfold secret. lia. Qed.

Lemma secret_inverse k : secret k -> secret (CURVE_ORDER - k).
Proof. unfold secret. lia. Qed.

Lemma toy_verify_bip340 p x signature message :
  secret p -> toy_x (toy_point p) = (x, Even) -> Forall is_byte signature ->
  toy_verify signature message x = true <->
  be_value (drop 32 signature) < CURVE_ORDER /\
  exists r, secret r /\ toy_x (toy_point r) = (take 32 signature, Even)
    /\ be_value (drop 32 signature)
       = (r + be_value (tagged_hash "BIP0340/challenge" (take 32 signature ++ x ++ message)) * p)
         mod CURVE_ORDER.
Proof.
  intros Hp Hx Hsig. destruct (toy_x_even p x Hp Hx) as [-> _].
  destruct (be_bytes_scalar p (secret_range p Hp)) as [_ Hpv]. unfold toy_verify. rewrite Hpv.
  change (@tagged_hash toy_crypto) with (@tagged_hash toy_schnorr).
  set (s := be_value (drop 32 signature)). set (e := be_value (tagged_hash _ _)).
  rewrite !andb_true_iff, !Z.ltb_lt, bool_decide_eq_true. split.
  - intros (((Hs & Hr0) & Hr2) & Hb). split; [done|]. exists ((s - e * p) mod CURVE_ORDER).
    pose proof (mod_range (s - e * p)). split; [unfold secret; lia|].
    split; [rewrite Hb; apply toy_even_x; [unfold secret; lia|done]|].
    rewrite Z.add_mod_idemp_l by lia. replace (s - e * p + e * p) with s by lia.
    symmetry. apply Z.mod_small. split; [|done]. apply be_value_range. by apply Forall_drop.
  - intros (Hs & r & Hr & Hrx & Hsv). destruct (toy_x_even r _ Hr Hrx) as [Hb H2].
    assert ((s - e * p) mod CURVE_ORDER = r) as ->.
    { rewrite Hsv, Zminus_mod_idemp_l. replace (r + e * p - e * p) with r by lia. by apply secret_mod. }
    unfold secret in Hr. rewrite Hb. repeat split; [done|lia|done].
Qed.

Lemma toy_x_bytes (P : toy_key) : bytes32 (toy_x P).1.
Proof.
  destruct (toy_x_spec P) as [[-> _]|[-> _]]; (split; [apply be_bytes_length|apply be_bytes_bytes]).
Qed.

Lemma toy_parse_serialize (P : toy_key) : pk_from_slice (pk_serialize P) = Some P.
Proof.
  destruct (toy_key_secret P) as [HP Hpt]. 
  pose proof (secret_range _ (secret_inverse _ HP)) as HN.
  pose proof (secret_range _ HP) as HR. cbn [pk_from_slice pk_serialize toy_secp].
  destruct (toy_x_spec P) as [[-> _]|[-> _]]; cbn [fst snd]; unfold toy_parse.
  - rewrite bool_decide_true by done. by rewrite (proj2 (be_bytes_scalar _ HR)), Hpt.
  - rewrite bool_decide_false, bool_decide_true by done. rewrite (proj2 (be_bytes_scalar _ HN)).
    by replace (CURVE_ORDER - (CURVE_ORDER - `P)) with (`P) by lia; rewrite Hpt.
Qed.

Lemma toy_x_negate (P : toy_key) :
  toy_x (toy_point (CURVE_ORDER - `P)) = ((toy_x P).1, flip_parity (toy_x P).2).
Proof.
  destruct (toy_key_secret P) as [HP _].
  pose proof (secret_inverse _ HP) as HN.
  pose proof (toy_point_val _ HN) as Hv.
  destruct (toy_x_spec P) as [[-> HP2]|[-> HP2]],
    (toy_x_spec (toy_point (CURVE_ORDER - `P))) as [[-> HN2]|[-> HN2]]; rewrite Hv in *;
    cbn [fst snd flip_parity]; try lia.
  - by replace (CURVE_ORDER - (CURVE_ORDER - `P)) with (`P) by lia.
  - done.
Qed.

Lemma toy_zsum ks : Forall secret ks -> zsum (proj1_sig <$> (toy_point <$> ks)) = zsum ks.
Proof.
  induction 1 as [|k ks Hk Hks IH]; [done|]. rewrite !fmap_cons, !zsum_cons, IH. by rewrite toy_point_val.
Qed.

Lemma toy_secp_laws : Secp256k1Laws.
Proof.
  split.
  - intros P. exists (`P). apply toy_key_secret.
  - intros a b Ha Hb Heq. apply (f_equal proj1_sig) in Heq. cbn in Heq. by rewrite !toy_point_val in Heq.
  - intros ks Hks. cbn [combine_keys from_secret_key toy_secp]. by rewrite toy_zsum.
  - intros k t Hk _. cbn. by rewrite toy_point_val.
  - intros k t Hk _. cbn. by rewrite toy_point_val.
  - intros k Hk. cbn. by rewrite toy_point_val.
  - intros P. cbn [pk_serialize toy_secp length]. by rewrite (proj1 (toy_x_bytes P)).
  - intros P. cbn [pk_serialize toy_secp]. by destruct (toy_x P).2.
  - apply toy_parse_serialize.
  - apply toy_x_negate.
  - apply toy_x_bytes.
  - done.
  - intros k Hk. by apply be_bytes_scalar, secret_range.
  - done.
  - done.
  - done.
  - intros s Hs. by apply be_bytes_scalar.
  - intros p x signature message Hp Hx _ Hsig. by apply toy_verify_bip340.
Qed.

Lemma toy_tweak_laws : TweakAddLaws.
Proof.
  split. intros p x t Hp Hx Ht. destruct (toy_x_even p x Hp Hx) as [-> _].
  cbn [add_tweak toy_add_tweak]. by rewrite (proj2 (be_bytes_scalar p (secret_range p Hp))).
Qed.

(** Two participants, an x-only tweak, and the nonces they generate. *)
Definition toy_secrets : list Z := [5; CURVE_ORDER - 7].
Definition toy_nonce (d : Z) : Musig2SecretNonce :=
  match musig2_nonce_gen d (be_bytes 32 1) [1; 2; 3] [] (be_bytes 32 d) with
  | Ok sn => sn
  | Err _ => mkSecretNonce [] [] [] [] true
  end.
Definition toy_tweaks : list Musig2Tweak := [mkTweak (be_bytes 32 9) true].
Definition toy_keys : list PublicKey := from_secret_key <$> toy_secrets.
Definition toy_nonces : list (list Z) := sn_public_nonce <$> (toy_nonce <$> toy_secrets).

Lemma musig2_protocol_complete_witness :
  exists partials key signature,
    musig2_aggregate_partial_signatures toy_keys toy_nonces toy_tweaks [1; 2; 3] partials = Ok signature
    /\ verify_musig2_signature key [1; 2; 3] signature = Ok tt.
Proof.
  assert (Hs : match musig2_session_values toy_keys toy_nonces toy_tweaks [1; 2; 3] with
               | Ok s => match combined_nonce toy_nonces s with Ok Infinity => false | _ => true end
               | Err _ => false
               end = true) by (vm_compute; reflexivity).
  destruct (musig2_session_values toy_keys toy_nonces toy_tweaks [1; 2; 3]) as [s|] eqn:Hsession;
    [|discriminate Hs].
  pose proof toy_schnorr_digest as T1. pose proof toy_add_tweak_scalar as T2. pose proof toy_secp_laws as T3.
  destruct (musig2_protocol_complete toy_secrets (toy_nonce <$> toy_secrets) toy_tweaks [1; 2; 3] s)
    as (partials & key & signature & _ & _ & _ & Ha & Hv).
  - repeat constructor.
  - apply (bool_decide_unpack _). vm_compute. reflexivity.
  - apply Forall_singleton. split; [reflexivity|apply be_bytes_bytes].
  - rewrite Forall2_fmap_r. apply Forall_Forall2_diag. apply Forall_cons. split; [|apply Forall_singleton].
    + exists (be_bytes 32 1), [1; 2; 3], [], (be_bytes 32 5). vm_compute. reflexivity.
    + exists (be_bytes 32 1), [1; 2; 3], [], (be_bytes 32 (CURVE_ORDER - 7)). vm_compute. reflexivity.
  - exact Hsession.
  - intros Hc. fold toy_nonces in Hc. rewrite Hc in Hs. discriminate Hs.
  - exists partials, key, signature. exact (conj Ha Hv).
Defined.

(** The outputs of the participants' signing calls. *)
Definition toy_sign (d : Z) : list Z :=
  match (musig2_partial_sign (toy_nonce d) d toy_keys toy_nonces toy_tweaks [1; 2; 3]).2 with
  | Ok partial => partial
  | Err _ => []
  end.
Definition toy_partial_1 : list Z := Eval vm_compute in toy_sign 5.
Definition toy_partial_2 : list Z := Eval vm_compute in toy_sign (CURVE_ORDER - 7).
Definition toy_partials : list (list Z) := [toy_partial_1; toy_partial_2].

(** The two signatures of the participants, and the first of them twice. *)
Lemma musig2_aggregation_exact_witness :
  (exists key signature,
     musig2_tweaked_aggregate_key toy_keys toy_tweaks = Ok key
     /\ musig2_aggregate_partial_signatures toy_keys toy_nonces toy_tweaks [1; 2; 3] toy_partials
        = Ok signature
     /\ verify_musig2_signature key [1; 2; 3] signature = Ok tt)
  /\ musig2_aggregate_partial_signatures toy_keys toy_nonces toy_tweaks [1; 2; 3]
       [toy_partial_1; toy_partial_1] = Err (Crypto "MuSig2 partial signature verification").
Proof.
  assert (Hs : match musig2_session_values toy_keys toy_nonces toy_tweaks [1; 2; 3] with
               | Ok s => match combined_nonce toy_nonces s with Ok Infinity => false | _ => true end
               | Err _ => false
               end = true) by (vm_compute; reflexivity).
  destruct (musig2_session_values toy_keys toy_nonces toy_tweaks [1; 2; 3]) as [s|] eqn:Hsession;
    [|discriminate Hs].
  pose proof toy_schnorr_digest as T1. pose proof toy_add_tweak_scalar as T2. pose proof toy_secp_laws as T3.
  assert (Hfin : combined_nonce toy_nonces s <> Ok Infinity)
    by (intros Hc; rewrite Hc in Hs; discriminate Hs).
  assert (Htw : Forall tweak_wf toy_tweaks)
    by (apply Forall_singleton; split; [reflexivity|apply be_bytes_bytes]).
  assert (Hb : forall l, l ∈ toy_partials -> bytes32 l).
  { apply Forall_forall. apply Forall_cons. split; [|apply Forall_singleton];
      (split; [vm_compute; reflexivity|apply bytes_check; vm_compute; reflexivity]). }
  split.
  - apply (musig2_aggregation_exact toy_keys toy_nonces toy_tweaks [1; 2; 3] toy_partials s Htw);
      [by apply Forall_forall|reflexivity|exact Hsession|exact Hfin|].
    intros [|[|i]] partial [= <-]; vm_compute; reflexivity.
  - apply (proj2 (musig2_aggregation_exact toy_keys toy_nonces toy_tweaks [1; 2; 3]
             [toy_partial_1; toy_partial_1] s Htw
             ltac:(repeat (apply Forall_cons; split; [apply Hb; left|]); constructor)
             eq_refl Hsession Hfin) 1%nat toy_partial_1); [reflexivity| |vm_compute; reflexivity].
    intros [|j] q Hj; [intros [= <-]; vm_compute; reflexivity|lia].
Defined.

Lemma musig2_key_path_agrees_witness :
  exists internal_key output parity,
    musig2_aggregate_key toy_keys = Ok internal_key
    /\ taproot_output_key internal_key (Some (be_bytes 32 77)) = Ok (output, parity)
    /\ exists tweak, musig2_taproot_tweak toy_keys (be_bytes 32 77) = Ok tweak
         /\ musig2_tweaked_aggregate_key toy_keys [tweak] = Ok output.
Proof.
  pose proof toy_schnorr_digest as T1. pose proof toy_add_tweak_scalar as T2. pose proof toy_secp_laws as T3.
  pose proof toy_tweak_laws as T4.
  destruct (musig2_aggregate_key toy_keys) as [internal_key|] eqn:Hkey; [|vm_compute in Hkey; discriminate Hkey].
  assert (Hok : match musig2_aggregate_key toy_keys with
                | Ok k => is_ok (taproot_output_key k (Some (be_bytes 32 77)))
                | Err _ => false
                end = true) by (vm_compute; reflexivity).
  rewrite Hkey in Hok.
  destruct (taproot_output_key internal_key (Some (be_bytes 32 77))) as [[output parity]|] eqn:Hout;
    [|discriminate Hok].
  exists internal_key, output, parity. split; [reflexivity|]. split; [exact Hout|].
  apply (musig2_key_path_agrees toy_keys (be_bytes 32 77) internal_key output Hkey). by exists parity.
Defined.
