(* ===== verification/RateLimit.v ===== *)
(** * RateLimit: the relay's connection and request limits

    [immortal-relay/src/gateway/rate.rs].  The mutex serialises the calls, so
    a call is one step on [State]; the readings of the monotonic clock that a
    call makes are its [Readings], in the order the code takes them.
    [Instant] and [Duration] are nanoseconds.  A poisoned lock, which refuses
    the call, does not arise: the critical sections do not panic. *)

From S2P Require Import Prelude Text.

Definition SECOND : Z := 1000000000.
Definition WINDOW : Z := 60 * SECOND.
Definition OBSERVER_WINDOW : Z := SECOND.
Definition CLEANUP_INTERVAL : Z := 10 * SECOND.
Definition MAX_RATE_KEYS : Z := 100000.

(** [std::net::IpAddr]. *)
Inductive IpAddr : Type := V4 (bits : N) | V6 (bits : N).

#[export] Instance IpAddr_eq_dec : EqDecision IpAddr.
Proof. solve_decision. Defined.
#[export] Instance IpAddr_countable : Countable IpAddr.
Proof.
  apply (inj_countable' (fun a => match a with V4 b => inl b | V6 b => inr b end)
           (fun s => match s with inl b => V4 b | inr b => V6 b end)). by intros [].
Defined.

(** The limits the limiter reads. *)
Record GatewayLimits : Type := mkLimits {
  events_per_minute_ip : Z;
  events_per_minute_pubkey : Z;
  gift_wraps_per_minute_recipient : Z;
  observer_events_per_second_ip : Z;
  observer_events_per_second_agent : Z;
  req_per_minute_ip : Z;
  media_per_minute_ip : Z;
  media_per_minute_pubkey : Z;
  max_connections_per_ip : Z;
}.

Record Counter : Type := mkCounter { started : Z; count : Z }.

Record State : Type := mkState {
  connections : gmap IpAddr Z;
  event_ip : gmap IpAddr Counter;
  event_pubkey : gmap string Counter;
  gift_wrap_recipient : gmap string Counter;
  observer_ip : gmap IpAddr Counter;
  observer_agent : gmap string Counter;
  req_ip : gmap IpAddr Counter;
  media_ip : gmap IpAddr Counter;
  media_pubkey : gmap string Counter;
  last_cleanup : Z;
}.

(** The clock as one call reads it: [last_cleanup.elapsed()], the [now] of the
    cleanup, the start of a new counter, [started.elapsed()], and the start
    of the counter that replaces an expired one. *)
Record Readings : Type := mkReadings {
  at_cleanup : Z; at_now : Z; at_new : Z; at_check : Z; at_reset : Z;
}.

(** [Instant::duration_since], which saturates at zero. *)
Definition duration_since (now earlier : Z) : Z := Z.max 0 (now - earlier).

Definition new_counter (now : Z) : Counter := mkCounter now 0.

Definition allow_counter (counter : Counter) (limit window : Z) (r : Readings) : Counter * bool :=
  let counter := if window <=? duration_since (at_check r) (started counter)
                 then new_counter (at_reset r) else counter in
  if limit <=? count counter then (counter, false)
  else (mkCounter (started counter) (count counter + 1), true).

(** [allow_ip_for] and [allow_string_for], which differ in the key type. *)
Definition allow_for `{Countable K} (map : gmap K Counter) (key : K) (limit window : Z) (r : Readings)
    : gmap K Counter * bool :=
  match map !! key with
  | None => if MAX_RATE_KEYS <=? Z.of_nat (size map) then (map, false)
            else let '(c, allowed) := allow_counter (new_counter (at_new r)) limit window r in
                 (<[key := c]> map, allowed)
  | Some counter => let '(c, allowed) := allow_counter counter limit window r in
                    (<[key := c]> map, allowed)
  end.

(** [HashMap::retain] with the closure of [cleanup]. *)
Definition retain `{Countable K} (map : gmap K Counter) (now window : Z) : gmap K Counter :=
  filter (fun kc => duration_since now (started kc.2) < window) map.

Definition cleanup (st : State) (r : Readings) : State :=
  if duration_since (at_cleanup r) (last_cleanup st) <? CLEANUP_INTERVAL then st else
  let now := at_now r in
  mkState (connections st) (retain (event_ip st) now WINDOW) (retain (event_pubkey st) now WINDOW)
    (retain (gift_wrap_recipient st) now WINDOW) (retain (observer_ip st) now OBSERVER_WINDOW)
    (retain (observer_agent st) now OBSERVER_WINDOW) (retain (req_ip st) now WINDOW)
    (retain (media_ip st) now WINDOW) (retain (media_pubkey st) now WINDOW) now.

(** [RateLimiter::new]. *)
Definition new_state (now : Z) : State := mkState ∅ ∅ ∅ ∅ ∅ ∅ ∅ ∅ ∅ now.

(** ** The calls *)

Section limiter.
Context (limits : GatewayLimits).

(** A permit is the [ip] it was given for. *)
Definition connect (st : State) (ip : IpAddr) : State * option IpAddr :=
  let count := default 0 (connections st !! ip) in
  let with_count (n : Z) :=
    mkState (<[ip := n]> (connections st)) (event_ip st) (event_pubkey st) (gift_wrap_recipient st)
      (observer_ip st) (observer_agent st) (req_ip st) (media_ip st) (media_pubkey st)
      (last_cleanup st) in
  if max_connections_per_ip limits <=? count then (with_count count, None)
  else (with_count (count + 1), Some ip).

(** [Drop for ConnectionPermit]. *)
Definition drop_permit (st : State) (ip : IpAddr) : State :=
  match connections st !! ip with
  | None => st
  | Some count =>
      let count := Z.max 0 (count - 1) in
      let connections := if count =? 0 then delete ip (connections st) else <[ip := count]> (connections st) in
      mkState connections (event_ip st) (event_pubkey st) (gift_wrap_recipient st) (observer_ip st)
        (observer_agent st) (req_ip st) (media_ip st) (media_pubkey st) (last_cleanup st)
  end.

Definition event_from_ip (st : State) (ip : IpAddr) (r : Readings) : State * bool :=
  let st := cleanup st r in
  let '(m, allowed) := allow_for (event_ip st) ip (events_per_minute_ip limits) WINDOW r in
  (mkState (connections st) m (event_pubkey st) (gift_wrap_recipient st) (observer_ip st)
     (observer_agent st) (req_ip st) (media_ip st) (media_pubkey st) (last_cleanup st), allowed).

Definition event_from_pubkey (st : State) (pubkey : string) (r : Readings) : State * bool :=
  let st := cleanup st r in
  let '(m, allowed) := allow_for (event_pubkey st) pubkey (events_per_minute_pubkey limits) WINDOW r in
  (mkState (connections st) (event_ip st) m (gift_wrap_recipient st) (observer_ip st)
     (observer_agent st) (req_ip st) (media_ip st) (media_pubkey st) (last_cleanup st), allowed).

Definition gift_wrap_for_recipient (st : State) (recipient : string) (r : Readings) : State * bool :=
  let st := cleanup st r in
  let '(m, allowed) := allow_for (gift_wrap_recipient st) recipient
                         (gift_wraps_per_minute_recipient limits) WINDOW r in
  (mkState (connections st) (event_ip st) (event_pubkey st) m (observer_ip st)
     (observer_agent st) (req_ip st) (media_ip st) (media_pubkey st) (last_cleanup st), allowed).

Definition req_from_ip (st : State) (ip : IpAddr) (r : Readings) : State * bool :=
  let st := cleanup st r in
  let '(m, allowed) := allow_for (req_ip st) ip (req_per_minute_ip limits) WINDOW r in
  (mkState (connections st) (event_ip st) (event_pubkey st) (gift_wrap_recipient st) (observer_ip st)
     (observer_agent st) m (media_ip st) (media_pubkey st) (last_cleanup st), allowed).

Definition observer_from_ip (st : State) (ip : IpAddr) (r : Readings) : State * bool :=
  let st := cleanup st r in
  let '(m, allowed) := allow_for (observer_ip st) ip (observer_events_per_second_ip limits)
                         OBSERVER_WINDOW r in
  (mkState (connections st) (event_ip st) (event_pubkey st) (gift_wrap_recipient st) m
     (observer_agent st) (req_ip st) (media_ip st) (media_pubkey st) (last_cleanup st), allowed).

Definition observer_from_agent (st : State) (agent_pubkey : string) (r : Readings) : State * bool :=
  let st := cleanup st r in
  let '(m, allowed) := allow_for (observer_agent st) agent_pubkey
                         (observer_events_per_second_agent limits) OBSERVER_WINDOW r in
  (mkState (connections st) (event_ip st) (event_pubkey st) (gift_wrap_recipient st) (observer_ip st)
     m (req_ip st) (media_ip st) (media_pubkey st) (last_cleanup st), allowed).

Definition media_from_ip (st : State) (ip : IpAddr) (r : Readings) : State * bool :=
  let st := cleanup st r in
  let '(m, allowed) := allow_for (media_ip st) ip (media_per_minute_ip limits) WINDOW r in
  (mkState (connections st) (event_ip st) (event_pubkey st) (gift_wrap_recipient st) (observer_ip st)
     (observer_agent st) (req_ip st) m (media_pubkey st) (last_cleanup st), allowed).

Definition media_from_pubkey (st : State) (pubkey : string) (r : Readings) : State * bool :=
  let st := cleanup st r in
  let '(m, allowed) := allow_for (media_pubkey st) pubkey (media_per_minute_pubkey limits) WINDOW r in
  (mkState (connections st) (event_ip st) (event_pubkey st) (gift_wrap_recipient st) (observer_ip st)
     (observer_agent st) (req_ip st) (media_ip st) m (last_cleanup st), allowed).
End limiter.

(** ** Traces of calls *)

(** A limited call is a dimension with its key. *)
Inductive Call : Type :=
| EventIp (ip : IpAddr) | EventPubkey (pubkey : string) | GiftWrap (recipient : string)
| ReqIp (ip : IpAddr) | ObserverIp (ip : IpAddr) | ObserverAgent (agent : string)
| MediaIp (ip : IpAddr) | MediaPubkey (pubkey : string).

#[export] Instance Call_eq_dec : EqDecision Call.
Proof. solve_decision. Defined.

Inductive Op : Type := Limited (c : Call) | Connect (ip : IpAddr) | Release (ip : IpAddr).

#[export] Instance Op_eq_dec : EqDecision Op.
Proof. solve_decision. Defined.

Definition limit_of (limits : GatewayLimits) (c : Call) : Z :=
  match c with
  | EventIp _ => events_per_minute_ip limits
  | EventPubkey _ => events_per_minute_pubkey limits
  | GiftWrap _ => gift_wraps_per_minute_recipient limits
  | ReqIp _ => req_per_minute_ip limits
  | ObserverIp _ => observer_events_per_second_ip limits
  | ObserverAgent _ => observer_events_per_second_agent limits
  | MediaIp _ => media_per_minute_ip limits
  | MediaPubkey _ => media_per_minute_pubkey limits
  end.

Definition window_of (c : Call) : Z :=
  match c with ObserverIp _ | ObserverAgent _ => OBSERVER_WINDOW | _ => WINDOW end.

Definition counter_of (st : State) (c : Call) : option Counter :=
  match c with
  | EventIp k => event_ip st !! k
  | EventPubkey k => event_pubkey st !! k
  | GiftWrap k => gift_wrap_recipient st !! k
  | ReqIp k => req_ip st !! k
  | ObserverIp k => observer_ip st !! k
  | ObserverAgent k => observer_agent st !! k
  | MediaIp k => media_ip st !! k
  | MediaPubkey k => media_pubkey st !! k
  end.

Definition run_call (limits : GatewayLimits) (st : State) (c : Call) (r : Readings) : State * bool :=
  match c with
  | EventIp k => event_from_ip limits st k r
  | EventPubkey k => event_from_pubkey limits st k r
  | GiftWrap k => gift_wrap_for_recipient limits st k r
  | ReqIp k => req_from_ip limits st k r
  | ObserverIp k => observer_from_ip limits st k r
  | ObserverAgent k => observer_from_agent limits st k r
  | MediaIp k => media_from_ip limits st k r
  | MediaPubkey k => media_from_pubkey limits st k r
  end.

Definition run_op (limits : GatewayLimits) (st : State) (op : Op) (r : Readings) : State * bool :=
  match op with
  | Limited c => run_call limits st c r
  | Connect ip => let '(st', permit) := connect limits st ip in
                  (st', match permit with Some _ => true | None => false end)
  | Release ip => (drop_permit st ip, true)
  end.

(** The final state and the times at which the call [c] was allowed, latest
    first. *)
Fixpoint run (limits : GatewayLimits) (c : Call) (st : State) (allowed : list Z)
    (ops : list (Op * Readings)) : State * list Z :=
  match ops with
  | [] => (st, allowed)
  | (op, r) :: ops' =>
      let '(st', ok) := run_op limits st op r in
      let allowed := if ok && bool_decide (op = Limited c) then at_check r :: allowed else allowed in
      run limits c st' allowed ops'
  end.

(** The clock does not run backwards, within a call and from call to call. *)
Definition in_order (r : Readings) : Prop :=
  at_cleanup r <= at_now r <= at_new r /\ at_new r <= at_check r <= at_reset r.

Fixpoint monotonic (since : Z) (ops : list (Op * Readings)) : Prop :=
  match ops with
  | [] => True
  | (_, r) :: ops' => since <= at_cleanup r /\ in_order r /\ monotonic (at_reset r) ops'
  end.

(** ** One counter *)

Lemma retain_lookup `{Countable K} (m : gmap K Counter) now window k :
  retain m now window !! k
  = match m !! k with
    | Some c => if decide (duration_since now (started c) < window) then Some c else None
    | None => None
    end.
Proof.
  unfold retain. rewrite map_lookup_filter. destruct (m !! k) as [c|]; cbn; [|done].
  by repeat case_guard.
Qed.

Lemma allow_for_other `{Countable K} (m : gmap K Counter) k k' limit window r :
  k <> k' -> (allow_for m k limit window r).1 !! k' = m !! k'.
Proof.
  intros Hk. unfold allow_for. destruct (m !! k) as [c|] eqn:Hc.
  - destruct (allow_counter c limit window r). cbn. by rewrite lookup_insert_ne.
  - destruct (_ <=? _); [done|]. destruct (allow_counter _ limit window r). cbn. by rewrite lookup_insert_ne.
Qed.

(** What a limited call does to its own counter [o]. *)
Inductive call_step (limit window : Z) (r : Readings) (o : option Counter)
    : option Counter -> bool -> Prop :=
| call_full : o = None -> call_step limit window r o None false
| call_counted c allowed :
    allow_counter (default (new_counter (at_new r)) o) limit window r = (c, allowed) ->
    call_step limit window r o (Some c) allowed.

Lemma allow_for_same `{Countable K} (m : gmap K Counter) k limit window r :
  call_step limit window r (m !! k)
    ((allow_for m k limit window r).1 !! k) (allow_for m k limit window r).2.
Proof.
  unfold allow_for. destruct (m !! k) as [c|] eqn:Hc.
  - destruct (allow_counter c limit window r) as [c' ok] eqn:Ha. cbn. rewrite lookup_insert_eq.
    by apply call_counted.
  - destruct (_ <=? _); cbn; [rewrite Hc; by apply call_full|].
    destruct (allow_counter _ limit window r) as [c' ok] eqn:Ha. cbn. rewrite lookup_insert_eq.
    by apply call_counted.
Qed.

(** What the periodic cleanup does to a counter: nothing, or removal once its
    window is over. *)
Lemma cleanup_counter st r c :
  counter_of (cleanup st r) c = counter_of st c
  \/ exists k, counter_of st c = Some k /\ counter_of (cleanup st r) c = None
       /\ window_of c <= duration_since (at_now r) (started k).
Proof.
  unfold cleanup. destruct (_ <? _); [by left|].
  destruct c; cbn [counter_of event_ip event_pubkey gift_wrap_recipient req_ip observer_ip
    observer_agent media_ip media_pubkey window_of]; rewrite retain_lookup;
  (destruct (_ !! _) as [k|]; [|by left]); (case_decide; [by left|]);
  right; exists k; (split; [done|]); (split; [done|]); lia.
Qed.

Lemma run_call_other limits st c c' r :
  c <> c' -> counter_of (run_call limits st c r).1 c' = counter_of (cleanup st r) c'.
Proof.
  intros Hne. destruct c, c'; cbn [run_call counter_of];
    unfold event_from_ip, event_from_pubkey, gift_wrap_for_recipient, req_from_ip, observer_from_ip,
      observer_from_agent, media_from_ip, media_from_pubkey;
    match goal with |- context [allow_for ?m ?k ?l ?w ?r] =>
      pose proof (fun k' => allow_for_other m k k' l w r) as Ho; destruct (allow_for m k l w r) end;
    cbn; try done; cbn in Ho; apply Ho; congruence.
Qed.

Lemma run_call_same limits st c r :
  call_step (limit_of limits c) (window_of c) r (counter_of (cleanup st r) c)
    (counter_of (run_call limits st c r).1 c) (run_call limits st c r).2.
Proof.
  destruct c; cbn [run_call counter_of limit_of window_of];
    unfold event_from_ip, event_from_pubkey, gift_wrap_for_recipient, req_from_ip, observer_from_ip,
      observer_from_agent, media_from_ip, media_from_pubkey;
    match goal with |- context [allow_for ?m ?k ?l ?w ?r] =>
      pose proof (allow_for_same m k l w r) as Hs; destruct (allow_for m k l w r) end;
    exact Hs.
Qed.

(** ** Pacing *)

(** How many of the times are in [[a, a + w)], and how many are after
    [opened - w]. *)
Definition inside (a w : Z) (l : list Z) : Z := len (filter (fun t => a <= t < a + w) l).
Definition recent (opened w : Z) (l : list Z) : Z := len (filter (fun t => opened - w < t) l).

Section pacing.
Context (limit w : Z) (Hlimit : 0 <= limit) (Hw : 0 < w).

(** The current window opened at [opened] and has [n] admissions; the earlier
    admissions within [w] of its opening are at most [limit]. *)
Definition window_inv (opened n : Z) (l : list Z) : Prop :=
  exists cur old, l = cur ++ old /\ len cur <= n /\ n <= limit
    /\ Forall (Z.le opened) cur /\ Forall (fun t => t <= opened) old /\ recent opened w old <= limit.

(** At time [now], with counter [o] and admissions [l]. *)
Definition paced (now : Z) (o : option Counter) (l : list Z) : Prop :=
  Forall (fun t => t <= now) l
  /\ (forall a, inside a w l <= 2 * limit)
  /\ match o with
     | Some k => started k <= now /\ exists opened, opened <= started k /\ window_inv opened (count k) l
     | None => forall opened, now <= opened -> recent opened w l <= limit
     end.

Lemma recent_app o l k : recent o w (l ++ k) = recent o w l + recent o w k.
Proof. unfold recent, len. rewrite filter_app, length_app. lia. Qed.

Lemma recent_le o l : recent o w l <= len l.
Proof. unfold recent, len. pose proof (length_filter (fun t => o - w < t) l). lia. Qed.

Lemma recent_none o l : Forall (fun t => t <= o - w) l -> recent o w l = 0.
Proof.
  unfold recent. induction 1 as [|t l Ht Hl IH]; [done|]. rewrite filter_cons. case_decide; [lia|done].
Qed.

(** A window that has run its length leaves at most [limit] recent
    admissions. *)
Lemma window_over opened n l o : window_inv opened n l -> opened + w <= o -> recent o w l <= limit.
Proof.
  intros (cur & old & -> & Hcur & Hn & _ & Hold & _) Ho. rewrite recent_app.
  rewrite (recent_none o old).
  - pose proof (recent_le o cur). lia.
  - eapply Forall_impl; [exact Hold|]. cbn. intros. lia.
Qed.

Lemma window_open opened now l :
  Forall (fun t => t <= now) l -> now <= opened -> recent opened w l <= limit -> window_inv opened 0 l.
Proof.
  intros Hl Hn Hr. exists [], l. split; [done|]. split; [done|]. split; [done|]. split; [constructor|].
  split; [|done]. eapply Forall_impl; [exact Hl|]. cbn. intros. lia.
Qed.

Lemma inside_recent a t l :
  a <= t < a + w -> inside a w l <= recent t w l.
Proof.
  intros Ha. unfold inside, recent, len. induction l as [|x l IH]; [done|].
  rewrite !filter_cons. repeat case_decide; cbn [length]; lia.
Qed.

(** Admitting at [t] into a window with room. *)
Lemma window_admit opened n l t :
  window_inv opened n l -> n < limit -> opened <= t ->
  window_inv opened (n + 1) (t :: l)
  /\ ((forall a, inside a w l <= 2 * limit) -> forall a, inside a w (t :: l) <= 2 * limit).
Proof.
  intros (cur & old & -> & Hcur & Hn & Hc & Hold & Hr) Hlt Ht. split.
  - exists (t :: cur), old. split; [done|]. split; [unfold len in *; cbn; lia|]. split; [lia|].
    split; [by constructor|]. done.
  - intros Hall a. unfold inside. rewrite filter_cons. case_decide as Hin; [|apply Hall].
    unfold len. cbn [length]. pose proof (inside_recent a t (cur ++ old) Hin) as Hle.
    rewrite recent_app in Hle. pose proof (recent_le t cur).
    assert (recent t w old <= recent opened w old).
    { unfold recent, len. clear -Ht. induction old as [|x l IH]; [done|].
      rewrite !filter_cons. repeat case_decide; cbn [length]; lia. }
    unfold inside, len in *. lia.
Qed.

(** A counted call keeps the pace. *)
Lemma window_step opened k l r now c ok :
  window_inv opened (count k) l -> opened <= started k -> opened <= at_check r -> now <= at_check r ->
  started k <= at_reset r -> at_check r <= at_reset r ->
  Forall (fun t => t <= now) l -> (forall a, inside a w l <= 2 * limit) ->
  allow_counter k limit w r = (c, ok) ->
  paced (at_reset r) (Some c) (if ok then at_check r :: l else l).
Proof.
  intros Hinv Hos Hoc Hnc Hsr Hcr Hl Hall Ha. unfold allow_counter in Ha.
  assert (Hk : exists opened', window_inv opened'
      (count (if w <=? duration_since (at_check r) (started k) then new_counter (at_reset r) else k)) l
      /\ opened' <= at_check r
      /\ opened' <= started (if w <=? duration_since (at_check r) (started k) then new_counter (at_reset r) else k)
      /\ started (if w <=? duration_since (at_check r) (started k) then new_counter (at_reset r) else k) <= at_reset r).
  { destruct (Z.leb_spec w (duration_since (at_check r) (started k))) as [He|He].
    - exists (at_check r). cbn. split; [|lia]. apply (window_open _ now); [done|done|].
      eapply window_over; [exact Hinv|]. unfold duration_since in He. lia.
    - exists opened. done. }
  revert Ha Hk. generalize (if w <=? duration_since (at_check r) (started k) then new_counter (at_reset r) else k).
  intros k' Ha (opened' & Hi' & Ho1 & Ho2 & Ho3).
  assert (Hl' : Forall (fun t => t <= at_reset r) l) by (eapply Forall_impl; [exact Hl|]; cbn; intros; lia).
  destruct (Z.leb_spec limit (count k')) as [Hf|Hf]; injection Ha as <- <-.
  - split; [done|]. split; [done|]. split; [done|]. by exists opened'.
  - destruct (window_admit opened' (count k') l (at_check r) Hi' Hf Ho1) as [Hi Hin].
    split; [by constructor|]. split; [by apply Hin|]. split; [done|]. by exists opened'.
Qed.

Lemma call_step_paced now o l r o' ok :
  paced now o l -> now <= at_new r -> in_order r -> call_step limit w r o o' ok ->
  paced (at_reset r) o' (if ok then at_check r :: l else l).
Proof.
  intros (Hl & Hall & Ho) Hnow [Hord1 Hord2] Hstep. destruct Hstep as [->|c ok Ha].
  - split; [eapply Forall_impl; [exact Hl|]; cbn; intros; lia|]. split; [done|].
    intros opened Hop. apply Ho. lia.
  - destruct o as [k|]; cbn [default] in Ha.
    + destruct Ho as (Hs & opened & Hos & Hinv).
      eapply (window_step opened k l r now); [done|done|lia|lia|lia|lia|done|done|done].
    + eapply (window_step (at_new r) (new_counter (at_new r)) l r now);
        [|cbn; lia|lia|lia|cbn; lia|lia|done|done|done].
      apply (window_open _ now); [done|lia|by apply Ho].
Qed.

Lemma paced_later now now' o l : paced now o l -> now <= now' -> paced now' o l.
Proof.
  intros (Hl & Hall & Ho) Hle. split; [eapply Forall_impl; [exact Hl|]; cbn; intros; lia|].
  split; [done|]. destruct o as [k|].
  - destruct Ho as (Hs & Ho). split; [lia|done].
  - intros opened Hop. apply Ho. lia.
Qed.

Lemma paced_removed now now' k l :
  paced now (Some k) l -> now <= now' -> w <= duration_since now' (started k) -> paced now' None l.
Proof.
  intros (Hl & Hall & Hs & opened & Hos & Hinv) Hle He.
  split; [eapply Forall_impl; [exact Hl|]; cbn; intros; lia|]. split; [done|].
  intros o Ho. eapply window_over; [exact Hinv|]. unfold duration_since in He. lia.
Qed.

End pacing.

(** ** Whole traces *)

Lemma cleanup_paced limits c now st l r :
  paced (limit_of limits c) (window_of c) now (counter_of st c) l -> now <= at_now r ->
  paced (limit_of limits c) (window_of c) (at_now r) (counter_of (cleanup st r) c) l.
Proof.
  intros Hp Hn. destruct (cleanup_counter st r c) as [->|(k & Hk & -> & He)].
  - by eapply paced_later.
  - rewrite Hk in Hp. eapply paced_removed; [|exact Hp|done|done]. by destruct c.
Qed.

Lemma run_op_paced limits c now st l op r :
  0 <= limit_of limits c ->
  paced (limit_of limits c) (window_of c) now (counter_of st c) l ->
  now <= at_cleanup r -> in_order r ->
  let '(st', ok) := run_op limits st op r in
  paced (limit_of limits c) (window_of c) (at_reset r) (counter_of st' c)
    (if ok && bool_decide (op = Limited c) then at_check r :: l else l).
Proof.
  intros Hl Hp Hn Hord. pose proof Hord as [Hord1 Hord2].
  assert (Hlater : paced (limit_of limits c) (window_of c) (at_reset r) (counter_of st c) l)
    by (eapply paced_later; [exact Hp|lia]).
  destruct op as [c'|ip|ip]; cbn [run_op].
  - assert (Hc : paced (limit_of limits c) (window_of c) (at_now r) (counter_of (cleanup st r) c) l)
      by (eapply cleanup_paced; [exact Hp|lia]).
    destruct (run_call limits st c' r) as [st' ok] eqn:Hrun.
    destruct (decide (c' = c)) as [->|Hne].
    + pose proof (run_call_same limits st c r) as Hs. rewrite Hrun in Hs. cbn [fst snd] in Hs.
      rewrite bool_decide_true, andb_true_r by done.
      assert (Hw : 0 < window_of c) by by destruct c.
      eapply call_step_paced; [exact Hl|exact Hw|exact Hc|lia|done|exact Hs].
    + rewrite bool_decide_false, andb_false_r by congruence.
      pose proof (run_call_other limits st c' c r Hne) as Ho. rewrite Hrun in Ho. cbn [fst] in Ho.
      rewrite Ho. eapply paced_later; [exact Hc|lia].
  - unfold connect. destruct (_ <=? _); cbn [andb]; rewrite ?bool_decide_false by done; cbn [andb];
      by destruct c.
  - rewrite bool_decide_false by done. cbn [andb]. unfold drop_permit.
    destruct (connections st !! ip); [|done]. by destruct c.
Qed.

(** C28: the limiter is a limiter.  Whatever the mix of calls, connections and
    cleanups, and whatever a monotonic clock reads, the calls allowed for one
    key of one dimension within any interval of one window length are at most
    twice the configured limit (a fixed window can be spent at its end and
    the next one at its start). *)
Theorem rate_bounded limits c start ops a :
  0 <= limit_of limits c -> monotonic start ops ->
  inside a (window_of c) (run limits c (new_state start) [] ops).2 <= 2 * limit_of limits c.
Proof.
  intros Hl Hm. assert (Hp : paced (limit_of limits c) (window_of c) start
                          (counter_of (new_state start) c) []).
  { split; [constructor|]. split; [unfold inside, len; cbn; lia|].
    assert (counter_of (new_state start) c = None) as -> by (destruct c; apply lookup_empty).
    intros opened _. unfold recent, len. cbn. lia. }
  revert Hp Hm. generalize (new_state start) as st, (@nil Z) as l. generalize start as now.
  induction ops as [|[op r] ops IH]; intros now st l Hp Hm; cbn [run]; [apply Hp|].
  destruct Hm as (Hn & Hord & Hm). pose proof (run_op_paced limits c now st l op r Hl Hp Hn Hord) as Hs.
  destruct (run_op limits st op r) as [st' ok]. by apply (IH (at_reset r)).
Qed.

(** Two bursts around a window boundary: the bound is reached. *)
Definition burst_limits : GatewayLimits := mkLimits 2 2 2 2 2 2 2 2 2.
Definition burst : list (Op * Readings) :=
  (fun r => (Limited (ObserverIp (V4 1)), r))
    <$> [mkReadings 0 0 0 5 5; mkReadings 6 6 6 6 6; mkReadings 7 7 7 7 7;
         mkReadings SECOND SECOND SECOND SECOND SECOND;
         mkReadings (SECOND + 1) (SECOND + 1) (SECOND + 1) (SECOND + 1) (SECOND + 1)].

Lemma rate_bounded_witness :
  inside 5 (window_of (ObserverIp (V4 1)))
    (run burst_limits (ObserverIp (V4 1)) (new_state 0) [] burst).2 = 4
  /\ inside 5 SECOND (run burst_limits (ObserverIp (V4 1)) (new_state 0) [] burst).2 <= 4.
Proof.
  split; [vm_compute; reflexivity|].
  apply (rate_bounded burst_limits (ObserverIp (V4 1)) 0 burst 5); [vm_compute; discriminate|].
  cbn. unfold in_order, SECOND. cbn. lia.
Defined.

(** ** Tables *)

Definition tables_bounded (st : State) : Prop :=
  Z.of_nat (size (event_ip st)) <= MAX_RATE_KEYS /\ Z.of_nat (size (event_pubkey st)) <= MAX_RATE_KEYS
  /\ Z.of_nat (size (gift_wrap_recipient st)) <= MAX_RATE_KEYS
  /\ Z.of_nat (size (observer_ip st)) <= MAX_RATE_KEYS
  /\ Z.of_nat (size (observer_agent st)) <= MAX_RATE_KEYS
  /\ Z.of_nat (size (req_ip st)) <= MAX_RATE_KEYS /\ Z.of_nat (size (media_ip st)) <= MAX_RATE_KEYS
  /\ Z.of_nat (size (media_pubkey st)) <= MAX_RATE_KEYS.

Lemma allow_for_size `{Countable K} (m : gmap K Counter) k limit window r :
  Z.of_nat (size m) <= MAX_RATE_KEYS -> Z.of_nat (size (allow_for m k limit window r).1) <= MAX_RATE_KEYS.
Proof.
  intros Hm. unfold allow_for. destruct (m !! k) as [c|] eqn:Hc.
  - destruct (allow_counter c limit window r). cbn. rewrite map_size_insert_Some by done. lia.
  - destruct (Z.leb_spec MAX_RATE_KEYS (Z.of_nat (size m))); [done|].
    destruct (allow_counter _ limit window r). cbn. rewrite map_size_insert_None by done. lia.
Qed.

Lemma retain_size `{Countable K} (m : gmap K Counter) now window :
  Z.of_nat (size m) <= MAX_RATE_KEYS -> Z.of_nat (size (retain m now window)) <= MAX_RATE_KEYS.
Proof.
  intros Hm. assert (size (retain m now window) <= size m)%nat; [|lia].
  apply map_subseteq_size, map_filter_subseteq.
Qed.

Lemma run_op_tables limits st op r : tables_bounded st -> tables_bounded (run_op limits st op r).1.
Proof.
  intros Hst. assert (Hc : tables_bounded (cleanup st r)).
  { unfold cleanup. destruct (_ <? _); [done|]. unfold tables_bounded in *. cbn.
    destruct_and? Hst. split_and!; by apply retain_size. }
  destruct op as [c|ip|ip]; cbn [run_op].
  - destruct c; cbn [run_call];
      unfold event_from_ip, event_from_pubkey, gift_wrap_for_recipient, req_from_ip, observer_from_ip,
        observer_from_agent, media_from_ip, media_from_pubkey;
      match goal with |- context [allow_for ?m ?k ?l ?w ?r] =>
        pose proof (allow_for_size m k l w r) as Hs; destruct (allow_for m k l w r) end;
      unfold tables_bounded in *; cbn in *; destruct_and? Hc; split_and!; auto.
  - unfold connect. by destruct (_ <=? _).
  - unfold drop_permit. by destruct (connections st !! ip).
Qed.

(** ** Connections *)

Fixpoint remove_one (ip : IpAddr) (l : list IpAddr) : list IpAddr :=
  match l with [] => [] | x :: l' => if decide (x = ip) then l' else x :: remove_one ip l' end.
Definition held (ip : IpAddr) (l : list IpAddr) : Z := len (filter (fun x => x = ip) l).

(** The states of a limiter with the permits that are alive: a permit is
    created by a successful [connect] and dropped once. *)
Inductive reachable (limits : GatewayLimits) : State -> list IpAddr -> Prop :=
| reach_new now : reachable limits (new_state now) []
| reach_connected st live ip st' :
    reachable limits st live -> connect limits st ip = (st', Some ip) -> reachable limits st' (ip :: live)
| reach_refused st live ip st' :
    reachable limits st live -> connect limits st ip = (st', None) -> reachable limits st' live
| reach_dropped st live ip :
    reachable limits st live -> ip ∈ live ->
    reachable limits (drop_permit st ip) (remove_one ip live)
| reach_call st live c r : reachable limits st live -> reachable limits (run_call limits st c r).1 live.

Lemma run_call_connections limits st c r : connections (run_call limits st c r).1 = connections st.
Proof.
  assert (Hc : connections (cleanup st r) = connections st) by (unfold cleanup; by destruct (_ <? _)).
  rewrite <- Hc. destruct c; cbn [run_call];
    unfold event_from_ip, event_from_pubkey, gift_wrap_for_recipient, req_from_ip, observer_from_ip,
      observer_from_agent, media_from_ip, media_from_pubkey; by destruct (allow_for _ _ _ _ _).
Qed.

Lemma held_cons ip x l : held ip (x :: l) = (if decide (x = ip) then 1 else 0) + held ip l.
Proof. unfold held, len. rewrite filter_cons. case_decide; cbn [length]; lia. Qed.

Lemma held_remove ip x l : ip ∈ l -> held x (remove_one ip l) = held x l - (if decide (ip = x) then 1 else 0).
Proof.
  induction l as [|y l IH]; [by intros ?%not_elem_of_nil|]. intros Hin. cbn [remove_one]. rewrite held_cons.
  destruct (decide (y = ip)) as [->|Hne]; [lia|].
  rewrite held_cons, IH by (apply elem_of_cons in Hin as [->|?]; done). lia.
Qed.

Lemma held_elem ip l : ip ∈ l -> 1 <= held ip l.
Proof.
  intros Hin. induction Hin as [x l|x y l Hin IH]; rewrite held_cons; [rewrite decide_True by done|];
    unfold held, len in *; [lia|]. case_decide; lia.
Qed.

Lemma reachable_inv limits st live :
  0 <= max_connections_per_ip limits -> reachable limits st live ->
  tables_bounded st /\ forall ip,
    default 0 (connections st !! ip) = held ip live /\ held ip live <= max_connections_per_ip limits.
Proof.
  intros Hmax Hr. induction Hr as [now|st live ip st' Hr [Ht IH] Hc|st live ip st' Hr [Ht IH] Hc|st live ip Hr [Ht IH] Hin
                  |st live c r Hr [Ht IH]].
  - split; [by unfold tables_bounded; cbn; rewrite !map_size_empty|]. intros ip. cbn.
    rewrite lookup_empty. by unfold held, len.
  - split.
    { pose proof (run_op_tables limits st (Connect ip) (mkReadings 0 0 0 0 0) Ht) as Hb.
      cbn [run_op] in Hb. by rewrite Hc in Hb. }
    unfold connect in Hc. destruct (IH ip) as [Hip _].
    destruct (Z.leb_spec (max_connections_per_ip limits) (default 0 (connections st !! ip))) as [|Hlt]; [done|].
    injection Hc as <-. intros x. cbn. rewrite held_cons. destruct (IH x) as [Hx Hxm].
    destruct (decide (ip = x)) as [->|Hne]; [rewrite lookup_insert_eq; cbn; lia|].
    rewrite lookup_insert_ne by done. lia.
  - split.
    { pose proof (run_op_tables limits st (Connect ip) (mkReadings 0 0 0 0 0) Ht) as Hb.
      cbn [run_op] in Hb. by rewrite Hc in Hb. }
    unfold connect in Hc. destruct (_ <=? _); [|done]. injection Hc as <-. intros x. cbn.
    destruct (IH x) as [Hx Hxm]. destruct (decide (ip = x)) as [->|Hne];
      [rewrite lookup_insert_eq|rewrite lookup_insert_ne by done]; done.
  - split; [by apply (run_op_tables limits st (Release ip) (mkReadings 0 0 0 0 0))|].
    intros x. rewrite held_remove by done. pose proof (held_elem ip live Hin) as Hge.
    destruct (IH x) as [Hx Hxm], (IH ip) as [Hip _]. unfold drop_permit.
    destruct (connections st !! ip) as [n|] eqn:Hn; [|cbn in Hip; lia]. cbn in Hip. cbn [connections].
    destruct (decide (ip = x)) as [->|Hne].
    + destruct (Z.eqb_spec (Z.max 0 (n - 1)) 0); [rewrite lookup_delete_eq|rewrite lookup_insert_eq]; cbn; lia.
    + destruct (Z.eqb_spec (Z.max 0 (n - 1)) 0); [rewrite lookup_delete_ne by done|rewrite lookup_insert_ne by done]; lia.
  - split; [apply (run_op_tables limits st (Limited c) r Ht)|]. intros ip. by rewrite run_call_connections.
Qed.

(** Connection permits are counted exactly.  In every reachable state of
    the limiter the number recorded for an address is the number of its live
    permits, never above the limit, so a connection is refused exactly when
    the address holds the limit; and the request tables never exceed their
    capacity. *)
Theorem connection_permits_exact limits st live :
  0 <= max_connections_per_ip limits -> reachable limits st live ->
  (forall ip, default 0 (connections st !! ip) = held ip live
              /\ held ip live <= max_connections_per_ip limits
              /\ ((connect limits st ip).2 = None <-> held ip live = max_connections_per_ip limits))
  /\ tables_bounded st.
Proof.
  intros Hmax Hr. destruct (reachable_inv limits st live Hmax Hr) as [Ht Hinv]. split; [|done]. intros ip. destruct (Hinv ip) as [Hip Hm].
  split; [done|]. split; [done|]. unfold connect. rewrite Hip.
  destruct (Z.leb_spec (max_connections_per_ip limits) (held ip live)); cbn; split; try done; lia.
Qed.

Definition one_each : GatewayLimits := mkLimits 1 1 1 1 1 1 1 1 1.

Lemma connection_permits_exact_witness :
  exists st, reachable one_each st [V4 7] /\ (connect one_each st (V4 7)).2 = None
    /\ (connect one_each st (V4 8)).2 = Some (V4 8).
Proof.
  assert (Hr : reachable one_each (connect one_each (new_state 0) (V4 7)).1 [V4 7])
    by (eapply reach_connected; [apply (reach_new one_each 0)|vm_compute; reflexivity]).
  eexists. split; [exact Hr|]. split; [|vm_compute; reflexivity].
  apply (connection_permits_exact one_each _ [V4 7] ltac:(vm_compute; discriminate) Hr).
  vm_compute. reflexivity.
Defined.
