(* ===== verification/Outbound.v ===== *)
(** * Outbound: a connection's bounded send queue

    [Outbound], [OutboundQueue] and the message text of
    [immortal-relay/src/gateway/subscription.rs] and [wire.rs].  The queue's
    mutex makes each call one step; the hub's [offer]s and the connection
    task's [pop]s interleave freely. *)

From S2P Require Import Prelude Text.

Definition EVENT_MESSAGE_OVERHEAD : Z := 11.

(** A live event is kept as its two serialized halves. *)
Inductive Outbound : Type :=
| OutText (text : string)
| OutEvent (subscription event : string) (ephemeral : bool).

#[export] Instance Outbound_eq_dec : EqDecision Outbound.
Proof. solve_decision. Defined.

Definition is_ephemeral (m : Outbound) : bool :=
  match m with OutEvent _ _ true => true | _ => false end.

(** [str::len]: bytes. *)
Definition str_len (s : string) : Z := Z.of_nat (String.length s).

Definition outbound_len (m : Outbound) : Z :=
  match m with
  | OutText text => str_len text
  | OutEvent subscription event _ => EVENT_MESSAGE_OVERHEAD + str_len subscription + str_len event
  end.

(** [wire::event_message_from_json]: the pieces pushed in order, from the byte
    for the opening bracket on. *)
Definition event_message_from_json (subscription_json event_json : string) : string :=
  of_bytes ([91; 34; 69; 86; 69; 78; 84; 34; 44] ++ as_bytes subscription_json ++ [44]
            ++ as_bytes event_json ++ [93]).

Definition render (m : Outbound) : string :=
  match m with
  | OutText text => text
  | OutEvent subscription event _ => event_message_from_json subscription event
  end.

Inductive Offer : Type := Queued | DroppedEphemeral | Full.

#[export] Instance Offer_eq_dec : EqDecision Offer.
Proof. solve_decision. Defined.

Record OutboundQueue : Type := mkQueue {
  q_items : list Outbound;
  q_ephemeral : Z;
  q_capacity : Z;
}.

(** [OutboundQueue::new]. *)
Definition queue_new (capacity : Z) : OutboundQueue := mkQueue [] 0 (Z.max capacity 1).

(** [iter().position(Outbound::is_ephemeral)] and [VecDeque::remove]. *)
Definition oldest_ephemeral (items : list Outbound) : option nat :=
  fst <$> list_find (fun m => is_ephemeral m = true) items.

Definition offer (q : OutboundQueue) (message : Outbound) : OutboundQueue * Offer :=
  let push (items : list Outbound) (ephemeral : Z) :=
    mkQueue (items ++ [message]) (if is_ephemeral message then ephemeral + 1 else ephemeral)
      (q_capacity q) in
  if q_capacity q <=? len (q_items q) then
    if 0 <? q_ephemeral q then
      match oldest_ephemeral (q_items q) with
      | Some oldest => (push (delete oldest (q_items q)) (q_ephemeral q - 1), DroppedEphemeral)
      | None => (push (q_items q) (q_ephemeral q), DroppedEphemeral)
      end
    else if is_ephemeral message then (q, DroppedEphemeral)
    else (q, Full)
  else (push (q_items q) (q_ephemeral q), Queued).

Definition pop (q : OutboundQueue) : OutboundQueue * option Outbound :=
  match q_items q with
  | [] => (q, None)
  | message :: items =>
      (mkQueue items (if is_ephemeral message then q_ephemeral q - 1 else q_ephemeral q) (q_capacity q),
       Some message)
  end.

Definition holds_only_ephemeral (q : OutboundQueue) : bool :=
  negb (bool_decide (q_items q = [])) && (q_ephemeral q =? len (q_items q)).

(** ** The invariant *)

(** The messages that may not be dropped. *)
Definition stored (l : list Outbound) : list Outbound := List.filter (fun m => negb (is_ephemeral m)) l.
Definition ephemeral_count (l : list Outbound) : Z := len (List.filter is_ephemeral l).

Definition queue_wf (q : OutboundQueue) : Prop :=
  1 <= q_capacity q /\ len (q_items q) <= q_capacity q /\ q_ephemeral q = ephemeral_count (q_items q).

Lemma stored_app l k : stored (l ++ k) = stored l ++ stored k.
Proof. apply List.filter_app. Qed.

Lemma ephemeral_count_app l k : ephemeral_count (l ++ k) = ephemeral_count l + ephemeral_count k.
Proof. unfold ephemeral_count, len. rewrite List.filter_app, length_app. lia. Qed.

Lemma ephemeral_split l : len l = len (stored l) + ephemeral_count l.
Proof.
  unfold stored, ephemeral_count, len. induction l as [|m l IH]; [done|]. cbn.
  destruct (is_ephemeral m); cbn; lia.
Qed.

Lemma stored_none l : ephemeral_count l = 0 -> stored l = l.
Proof.
  unfold stored, ephemeral_count, len. induction l as [|m l IH]; [done|]. cbn.
  destruct (is_ephemeral m); cbn; [lia|]. intros Hl. by rewrite IH.
Qed.

(** The oldest ephemeral message exists when the count says so, and removing
    it keeps the stored ones. *)
Lemma oldest_ephemeral_spec l :
  0 < ephemeral_count l ->
  exists a m b, l = a ++ m :: b /\ is_ephemeral m = true /\ ephemeral_count a = 0
    /\ oldest_ephemeral l = Some (length a) /\ delete (length a) l = a ++ b.
Proof.
  unfold oldest_ephemeral. intros Hc.
  destruct (list_find (fun m => is_ephemeral m = true) l) as [[i m]|] eqn:Hf.
  - apply list_find_Some in Hf as (Hi & Hm & Hbefore).
    exists (take i l), m, (drop (S i) l). apply lookup_lt_Some in Hi as Hlt.
    assert (Hlen : length (take i l) = i) by (rewrite length_take; lia).
    split; [symmetry; by apply take_drop_middle|]. split; [done|].
    split; [|rewrite Hlen; split; [done|apply delete_take_drop]].
    unfold ephemeral_count, len. assert (List.filter is_ephemeral (take i l) = []) as ->; [|done].
    clear -Hbefore Hlt.
    destruct (List.filter is_ephemeral (take i l)) as [|x k] eqn:Hx; [done|].
    assert (Hin : In x (List.filter is_ephemeral (take i l))) by (rewrite Hx; by left).
    apply filter_In in Hin as [Hin He]. apply list_elem_of_In, list_elem_of_lookup in Hin as [j Hj].
    apply lookup_take_Some in Hj as [Hj Hji]. destruct (Hbefore j x Hj Hji He).
  - exfalso. apply list_find_None in Hf. unfold ephemeral_count, len in Hc.
    rewrite Forall_forall in Hf. destruct (List.filter is_ephemeral l) as [|x k] eqn:Hx; [cbn in Hc; lia|].
    assert (Hin : In x (List.filter is_ephemeral l)) by (rewrite Hx; by left).
    apply filter_In in Hin as [Hin He]. apply (Hf x); [by apply list_elem_of_In|done].
Qed.

Lemma ephemeral_count_one m : ephemeral_count [m] = if is_ephemeral m then 1 else 0.
Proof. unfold ephemeral_count. cbn. by destruct (is_ephemeral m). Qed.

Lemma ephemeral_count_nonneg l : 0 <= ephemeral_count l.
Proof. unfold ephemeral_count, len. lia. Qed.

(** One offer. *)
Lemma offer_spec q m :
  queue_wf q ->
  let '(q', outcome) := offer q m in
  queue_wf q' /\ q_capacity q' = q_capacity q /\
  match outcome with
  | Queued => q_items q' = q_items q ++ [m] /\ len (q_items q) < q_capacity q
  | Full => q' = q /\ is_ephemeral m = false /\ len (q_items q) = q_capacity q
            /\ ephemeral_count (q_items q) = 0
  | DroppedEphemeral =>
      len (q_items q) = q_capacity q /\
      ((q' = q /\ is_ephemeral m = true)
       \/ exists a x b, q_items q = a ++ x :: b /\ is_ephemeral x = true /\ ephemeral_count a = 0
            /\ q_items q' = (a ++ b) ++ [m])
  end.
Proof.
  intros (Hcap & Hlen & Heph). unfold offer.
  destruct (Z.leb_spec (q_capacity q) (len (q_items q))) as [Hfull|Hroom].
  - destruct (Z.ltb_spec 0 (q_ephemeral q)) as [Hpos|Hzero].
    + destruct (oldest_ephemeral_spec (q_items q)) as (a & x & b & Hl & Hx & Ha & Ho & Hd); [lia|].
      rewrite Ho, Hd. cbn [q_items q_capacity q_ephemeral].
      assert (Hlen2 : len (q_items q) = len (a ++ b) + 1)
        by (rewrite Hl, !len_app; unfold len; cbn; lia).
      assert (Heph2 : ephemeral_count (q_items q) = ephemeral_count (a ++ b) + 1).
      { rewrite Hl. change (x :: b) with ([x] ++ b). rewrite !ephemeral_count_app, ephemeral_count_one, Hx. lia. }
      split; [split; [done|]; split; cbn [q_items q_capacity q_ephemeral]|].
      * rewrite len_app. change (len [m]) with 1. lia.
      * rewrite ephemeral_count_app, ephemeral_count_one. destruct (is_ephemeral m); lia.
      * split; [done|]. split; [lia|]. right. by exists a, x, b.
    + pose proof (ephemeral_count_nonneg (q_items q)).
      destruct (is_ephemeral m) eqn:Hm; (split; [done|]); (split; [done|]); [split; [lia|by left]|].
      split; [done|]. split; [done|]. lia.
  - split; [split; [done|]; split; cbn [q_items q_capacity q_ephemeral]|done].
    + rewrite len_app. change (len [m]) with 1. lia.
    + rewrite ephemeral_count_app, ephemeral_count_one. destruct (is_ephemeral m); lia.
Qed.

Lemma pop_spec q :
  queue_wf q ->
  let '(q', message) := pop q in
  queue_wf q' /\ q_capacity q' = q_capacity q
  /\ match message with
     | Some m => q_items q = m :: q_items q'
     | None => q_items q = [] /\ q' = q
     end.
Proof.
  intros (Hcap & Hlen & Heph). unfold pop. destruct (q_items q) as [|m l] eqn:Hq.
  - split; [|done]. split; [done|]. by rewrite Hq.
  - cbn [q_items q_capacity q_ephemeral]. split; [|done]. split; [done|].
    change (m :: l) with ([m] ++ l) in *. rewrite ephemeral_count_app, ephemeral_count_one in Heph.
    rewrite len_app in Hlen. cbn [q_items q_capacity q_ephemeral]. unfold len in *. cbn in *.
    destruct (is_ephemeral m); lia.
Qed.

(** ** Interleavings of the hub and the connection's task *)

Inductive QueueOp : Type := OfferOp (m : Outbound) | PopOp.

(** The queue, the messages it took, and the messages it gave, in order. *)
Fixpoint queue_run (q : OutboundQueue) (ops : list QueueOp)
    : OutboundQueue * list Outbound * list Outbound :=
  match ops with
  | [] => (q, [], [])
  | OfferOp m :: ops' =>
      let '(q1, outcome) := offer q m in
      let '(q2, taken, given) := queue_run q1 ops' in
      (q2, if decide (outcome = Full) then taken else m :: taken, given)
  | PopOp :: ops' =>
      let '(q1, message) := pop q in
      let '(q2, taken, given) := queue_run q1 ops' in
      (q2, taken, option_list message ++ given)
  end.

Lemma stored_ephemeral m : is_ephemeral m = true -> stored [m] = [].
Proof. unfold stored. cbn. by intros ->. Qed.

Lemma sublist_delete_middle {A} (a b : list A) x : a ++ b `sublist_of` a ++ x :: b.
Proof. apply sublist_app; [done|]. by apply sublist_cons. Qed.

Lemma queue_run_spec q ops :
  queue_wf q ->
  let '(q', taken, given) := queue_run q ops in
  queue_wf q' /\ q_capacity q' = q_capacity q
  /\ stored given ++ stored (q_items q') = stored (q_items q) ++ stored taken
  /\ given ++ q_items q' `sublist_of` q_items q ++ taken.
Proof.
  revert q. induction ops as [|[m|] ops IH]; intros q Hwf; cbn [queue_run].
  { rewrite !app_nil_r. done. }
  - pose proof (offer_spec q m Hwf) as Ho. destruct (offer q m) as [q1 outcome].
    destruct Ho as (Hwf1 & Hc1 & Ho). specialize (IH q1 Hwf1).
    destruct (queue_run q1 ops) as [[q2 taken] given]. destruct IH as (Hwf2 & Hc2 & Hst & Hsub).
    split; [done|]. split; [congruence|]. destruct outcome; cbn [decide].
    + destruct Ho as [Hi _]. rewrite decide_False by done. rewrite Hi in Hst, Hsub.
      rewrite stored_app in Hst. rewrite <- app_assoc in Hst, Hsub. split; [|done].
      rewrite Hst. by rewrite <- stored_app.
    + rewrite decide_False by done. destruct Ho as [_ [[-> Hm]|(a & x & b & Hi & Hx & _ & Hi')]].
      * change (m :: taken) with ([m] ++ taken). rewrite stored_app, (stored_ephemeral m Hm).
        split; [done|]. etrans; [exact Hsub|]. apply sublist_app; [done|]. by apply sublist_cons.
      * rewrite Hi' in Hst, Hsub. rewrite Hi.
        change (x :: b) with ([x] ++ b). change (m :: taken) with ([m] ++ taken).
        rewrite !stored_app, (stored_ephemeral x Hx) in *. cbn [app]. rewrite <- !app_assoc in *.
        split; [done|]. etrans; [exact Hsub|]. apply sublist_app; [done|].
        by apply sublist_cons.
    + rewrite decide_True by done. destruct Ho as [-> _]. done.
  - pose proof (pop_spec q Hwf) as Hp. destruct (pop q) as [q1 message].
    destruct Hp as (Hwf1 & Hc1 & Hp). specialize (IH q1 Hwf1).
    destruct (queue_run q1 ops) as [[q2 taken] given]. destruct IH as (Hwf2 & Hc2 & Hst & Hsub).
    split; [done|]. split; [congruence|]. destruct message as [m|]; cbn [option_list].
    + rewrite Hp. change (m :: q_items q1) with ([m] ++ q_items q1).
      rewrite !stored_app, <- !app_assoc, Hst. split; [done|]. by apply sublist_skip.
    + by destruct Hp as [_ ->].
Qed.

(** The send queue is a bounded FIFO that only ever drops ephemeral
    events.  For any interleaving of offers and pops the queue holds at most
    its capacity; the stored and control messages given to the connection,
    followed by those still queued, are exactly those taken, in order; all
    messages given and queued appear in the order they were taken; and an
    offer is refused exactly when a message that may not be dropped meets a
    queue filled by such messages alone. *)
Theorem outbound_queue_fifo capacity ops :
  let '(q, taken, given) := queue_run (queue_new capacity) ops in
  len (q_items q) <= Z.max capacity 1
  /\ stored given ++ stored (q_items q) = stored taken
  /\ given ++ q_items q `sublist_of` taken
  /\ forall m, (offer q m).2 = Full
       <-> is_ephemeral m = false /\ len (stored (q_items q)) = Z.max capacity 1.
Proof.
  assert (Hnew : queue_wf (queue_new capacity)).
  { split; [cbn; lia|]. split; [unfold len; cbn; lia|done]. }
  pose proof (queue_run_spec (queue_new capacity) ops Hnew) as Hr.
  destruct (queue_run (queue_new capacity) ops) as [[q taken] given].
  destruct Hr as (Hwf & Hc & Hst & Hsub). cbn [queue_new q_items q_capacity] in *.
  pose proof Hwf as (_ & Hlen & _). split; [lia|]. split; [done|]. split; [done|].
  intros m. pose proof (offer_spec q m Hwf) as Ho. pose proof (ephemeral_split (q_items q)) as Hsplit.
  pose proof (ephemeral_count_nonneg (q_items q)) as Hnn.
  destruct (offer q m) as [q' outcome]. destruct Ho as (_ & _ & Ho). cbn [snd].
  destruct outcome; (split; [try done|]).
  - intros [_ Hf]. lia.
  - intros [Hm Hf]. destruct Ho as [_ [[_ Hm']|(a & x & b & Hi & Hx & _)]]; [congruence|]. exfalso.
    rewrite Hi in *. change (x :: b) with ([x] ++ b) in *.
    rewrite !ephemeral_count_app, ephemeral_count_one, Hx in Hsplit.
    pose proof (ephemeral_count_nonneg a). pose proof (ephemeral_count_nonneg b). lia.
  - intros _. destruct Ho as (_ & Hm & Hl & He). split; [done|lia].
  - done.
Qed.

(** A message is measured before it is joined: the length is the rendered
    one. *)
Lemma render_len m : str_len (render m) = outbound_len m.
Proof.
  destruct m as [text|subscription event ephemeral]; [done|]. cbn [render outbound_len].
  unfold str_len, event_message_from_json, EVENT_MESSAGE_OVERHEAD.
  rewrite of_bytes_length, !length_app, !as_bytes_length. cbn [length]. lia.
Qed.
