(* ===== verification/Hub.v ===== *)
(** * Hub: the relay's live subscriptions

    The [Hub] actor of [immortal-relay/src/gateway/subscription.rs]: one task
    handles the commands in order, so a command is one step on [Hub]; the
    connections' tasks pop from the shared send queues in between.  serde_json
    is the class [SerdeJson]; [Instant]s are nanoseconds read by the caller.
    [h_closed] records the connections whose [close] channel was signalled. *)

From S2P Require Import Prelude Text Event Filter Outbound.

(** What the messages use of serde_json. *)
Class SerdeJson : Type := {
  (** [serde_json::to_string(&str)] *)
  json_str : string -> string;
  (** [serde_json::to_string(&event)] *)
  json_event : Event -> string;
  (** [serde_json::to_string(&json!([..]))] of strings *)
  json_strings : list string -> string;
}.

Definition EPHEMERAL_DEDUP_WINDOW : Z := 60 * 1000000000.
Definition MAX_RECENT_EPHEMERAL_IDS : Z := 4096.

Record PublishedEvent : Type := mkPublished { pe_event : Event; pe_ingest_seq : option Z }.
Record StoredEvent : Type := mkStored { se_event : Event; se_ingest_seq : Z }.
#[export] Instance StoredEvent_eq_dec : EqDecision StoredEvent.
Proof. solve_decision. Defined.

Record SubscriptionKey : Type := mkKey { k_connection_id : Z; k_subscription_id : string }.

#[export] Instance SubscriptionKey_eq_dec : EqDecision SubscriptionKey.
Proof. solve_decision. Defined.
#[export] Instance SubscriptionKey_countable : Countable SubscriptionKey.
Proof.
  apply (inj_countable' (fun k => (k_connection_id k, k_subscription_id k))
           (fun p => mkKey p.1 p.2)). by intros [].
Defined.

Inductive IndexKey : Type :=
| IKId (id : string) | IKAuthor (author : string) | IKKind (kind : Z) | IKTag (name value : string)
| IKBroad.

#[export] Instance IndexKey_eq_dec : EqDecision IndexKey.
Proof. solve_decision. Defined.
#[export] Instance IndexKey_countable : Countable IndexKey.
Proof.
  apply (inj_countable'
    (fun k => match k with
              | IKId s => inl (inl s) | IKAuthor s => inl (inr s)
              | IKKind z => inr (inl z) | IKTag n v => inr (inr (Some (n, v))) | IKBroad => inr (inr None)
              end)
    (fun s => match s with
              | inl (inl s) => IKId s | inl (inr s) => IKAuthor s
              | inr (inl z) => IKKind z | inr (inr (Some (n, v))) => IKTag n v | inr (inr None) => IKBroad
              end)). by intros [].
Defined.

Inductive SubscriptionState : Type :=
| Buffering (events : list PublishedEvent) (ids : gset string)
| Live (high_water : Z).

Record Subscription : Type := mkSubscription {
  s_key : SubscriptionKey;
  s_json : string;
  s_generation : Z;
  s_filters : list Filter;
  s_read_pubkeys : gset string;
  s_index_keys : gset IndexKey;
  s_state : SubscriptionState;
}.

Record ConnectionSink : Type := mkSink { c_outbound : OutboundQueue; c_subscriptions : gset string }.

Record Hub : Type := mkHub {
  h_connections : gmap Z ConnectionSink;
  h_subscriptions : gmap Z Subscription;
  h_slots : gmap SubscriptionKey Z;
  h_next_slot : Z;
  h_index : gmap IndexKey (gset Z);
  h_max_buffered_live : Z;
  h_max_outbound_bytes : Z;
  h_recent_ids : gset string;
  h_recent_order : list (string * Z);
  h_closed : list Z;
}.

(** Field updates; [get_mut] with an assignment is [alter]. *)
Definition set_connections (h : Hub) (x : gmap Z ConnectionSink) : Hub :=
  mkHub x (h_subscriptions h) (h_slots h) (h_next_slot h) (h_index h) (h_max_buffered_live h)
    (h_max_outbound_bytes h) (h_recent_ids h) (h_recent_order h) (h_closed h).
Definition set_subscriptions (h : Hub) (x : gmap Z Subscription) : Hub :=
  mkHub (h_connections h) x (h_slots h) (h_next_slot h) (h_index h) (h_max_buffered_live h)
    (h_max_outbound_bytes h) (h_recent_ids h) (h_recent_order h) (h_closed h).
Definition set_recent (h : Hub) (ids : gset string) (order : list (string * Z)) : Hub :=
  mkHub (h_connections h) (h_subscriptions h) (h_slots h) (h_next_slot h) (h_index h)
    (h_max_buffered_live h) (h_max_outbound_bytes h) ids order (h_closed h).
Definition with_state (s : Subscription) (state : SubscriptionState) : Subscription :=
  mkSubscription (s_key s) (s_json s) (s_generation s) (s_filters s) (s_read_pubkeys s)
    (s_index_keys s) state.

(** [HubHandle::start]. *)
Definition hub_new (max_buffered_live max_outbound_bytes : Z) : Hub :=
  mkHub ∅ ∅ ∅ 0 ∅ (Z.max max_buffered_live 1) (Z.max max_outbound_bytes 1) ∅ [] [].

(** ** Visibility and index keys *)

Definition event_visible_to_reader (e : Event) (readers : gset string) : bool :=
  if (39604 <=? ev_kind e) && (ev_kind e <=? 39613) then false else
  if ev_kind e =? 39620 then false else
  if ev_kind e =? 39650 then false else
  if ev_kind e =? 1059 then
    match tag_values e "p" with [recipient] => bool_decide (recipient ∈ readers) | _ => false end
  else if (ev_kind e =? 24200) || (ev_kind e =? 30622) || (ev_kind e =? 44200) then
    match tag_values e "p" with recipient :: _ => bool_decide (recipient ∈ readers) | [] => false end
  else if (ev_kind e =? 30300) || (ev_kind e =? 30350) then bool_decide (ev_pubkey e ∈ readers)
  else if ev_kind e =? 30174 then
    bool_decide (ev_pubkey e ∈ readers)
    || existsb (fun owner => bool_decide (owner ∈ readers)) (tag_values e "p")
  else if (ev_kind e =? 30175) || (ev_kind e =? 30178) then
    bool_decide (ev_pubkey e ∈ readers)
    || existsb (fun t => bool_decide (t = ["shared"; "true"]%string)) (ev_tags e)
  else true.

(** The keys one filter adds. *)
Definition filter_index_keys (f : Filter) : list IndexKey :=
  let fields :=
    from_option (fmap IKId) [] (f_ids f) ++ from_option (fmap IKAuthor) [] (f_authors f)
    ++ from_option (fmap IKKind) [] (f_kinds f)
    ++ (map_to_list (f_tags f) ≫= fun kv => IKTag kv.1 <$> kv.2) in
  let indexed := bool_decide (is_Some (f_ids f)) || bool_decide (is_Some (f_authors f))
                 || bool_decide (is_Some (f_kinds f)) || negb (bool_decide (f_tags f = ∅)) in
  if indexed then fields else fields ++ [IKBroad].

Definition subscription_index_keys (filters : list Filter) : gset IndexKey :=
  list_to_set (filters ≫= filter_index_keys).

Definition event_index_keys (e : Event) : gset IndexKey :=
  list_to_set ([IKBroad; IKId (ev_id e); IKAuthor (ev_pubkey e); IKKind (ev_kind e)]
               ++ ((fun nv => IKTag nv.1 nv.2) <$> indexed_tags e)).

Definition ephemeral_only (filters : list Filter) : bool :=
  negb (bool_decide (filters = []))
  && forallb (fun f => match f_kinds f with
                       | Some kinds => negb (bool_decide (kinds = []))
                                       && forallb (fun k => bool_decide (from_kind k = Ephemeral)) kinds
                       | None => false
                       end) filters.

(** ** Connections and subscriptions *)

(** Removing a slot from one bucket of the index. *)
Definition unindex (slot : Z) (index : gmap IndexKey (gset Z)) (k : IndexKey) : gmap IndexKey (gset Z) :=
  match index !! k with
  | None => index
  | Some bucket =>
      let bucket := bucket ∖ {[slot]} in
      if bool_decide (bucket = ∅) then delete k index else <[k := bucket]> index
  end.

(** Adding a slot to one bucket. *)
Definition add_index (slot : Z) (index : gmap IndexKey (gset Z)) (k : IndexKey)
    : gmap IndexKey (gset Z) :=
  <[k := {[slot]} ∪ default ∅ (index !! k)]> index.

Definition remove_subscription (h : Hub) (key : SubscriptionKey) : Hub :=
  match h_slots h !! key with
  | None => h
  | Some slot =>
      let slots := delete key (h_slots h) in
      match h_subscriptions h !! slot with
      | None => mkHub (h_connections h) (h_subscriptions h) slots (h_next_slot h) (h_index h)
                  (h_max_buffered_live h) (h_max_outbound_bytes h) (h_recent_ids h) (h_recent_order h)
                  (h_closed h)
      | Some subscription =>
          let connections :=
            alter (fun c => mkSink (c_outbound c) (c_subscriptions c ∖ {[k_subscription_id key]}))
              (k_connection_id key) (h_connections h) in
          mkHub connections (delete slot (h_subscriptions h)) slots (h_next_slot h)
            (fold_left (unindex slot) (elements (s_index_keys subscription)) (h_index h))
            (h_max_buffered_live h) (h_max_outbound_bytes h) (h_recent_ids h) (h_recent_order h)
            (h_closed h)
      end
  end.

Definition close_connection (h : Hub) (cid : Z) : Hub :=
  match h_connections h !! cid with
  | None => h
  | Some c =>
      let h1 := mkHub (delete cid (h_connections h)) (h_subscriptions h) (h_slots h) (h_next_slot h)
                  (h_index h) (h_max_buffered_live h) (h_max_outbound_bytes h) (h_recent_ids h)
                  (h_recent_order h) (h_closed h ++ [cid]) in
      fold_left (fun h sid => remove_subscription h (mkKey cid sid)) (elements (c_subscriptions c)) h1
  end.

Definition shutdown (h : Hub) : Hub :=
  fold_left close_connection (map_to_list (h_connections h)).*1 h.

Definition add_connection (h : Hub) (cid capacity : Z) : Hub :=
  let h := match h_connections h !! cid with Some _ => close_connection h cid | None => h end in
  set_connections h (<[cid := mkSink (queue_new capacity) ∅]> (h_connections h)).

(** Putting a message into a connection's shared queue. *)
Definition enqueue (h : Hub) (cid : Z) (c : ConnectionSink) (m : Outbound) : Hub * Offer :=
  let '(q, outcome) := offer (c_outbound c) m in
  (set_connections h (<[cid := mkSink q (c_subscriptions c)]> (h_connections h)), outcome).

Definition send_one (h : Hub) (cid : Z) (m : Outbound) : Hub * bool :=
  if h_max_outbound_bytes h <? outbound_len m then (close_connection h cid, false) else
  match h_connections h !! cid with
  | None => (close_connection h cid, false)
  | Some c =>
      let '(h', outcome) := enqueue h cid c m in
      if bool_decide (outcome = Full) then (close_connection h' cid, false) else (h', true)
  end.

(** The task of a connection takes the next message. *)
Definition pop_connection (h : Hub) (cid : Z) : Hub * option Outbound :=
  match h_connections h !! cid with
  | None => (h, None)
  | Some c =>
      let '(q, m) := pop (c_outbound c) in
      (set_connections h (<[cid := mkSink q (c_subscriptions c)]> (h_connections h)), m)
  end.

Section hub.
Context `{Unicode, SerdeJson}.

(** [wire::event_message], [eose_message] and [closed_message]. *)
Definition event_message (subscription_id : string) (e : Event) : string :=
  event_message_from_json (json_str subscription_id) (json_event e).
Definition eose_message (subscription_id : string) : string :=
  json_strings ["EOSE"; subscription_id]%string.
Definition closed_message (subscription_id message : string) : string :=
  json_strings ["CLOSED"; subscription_id; message]%string.

(** [Hub::register]. *)
Definition register (h : Hub) (key : SubscriptionKey) (generation : Z) (filters : list Filter)
    (read_pubkeys : gset string) : Hub * bool :=
  match h_connections h !! k_connection_id key with
  | None => (h, false)
  | Some _ =>
      let h := remove_subscription h key in
      let slot := h_next_slot h in
      let index_keys := subscription_index_keys filters in
      let index := fold_left (add_index slot) (elements index_keys) (h_index h) in
      let connections :=
        alter (fun c => mkSink (c_outbound c) ({[k_subscription_id key]} ∪ c_subscriptions c))
          (k_connection_id key) (h_connections h) in
      (mkHub connections
         (<[slot := mkSubscription key (json_str (k_subscription_id key)) generation filters
                      read_pubkeys index_keys (Buffering [] ∅)]> (h_subscriptions h))
         (<[key := slot]> (h_slots h)) ((slot + 1) mod 2 ^ 64) index (h_max_buffered_live h)
         (h_max_outbound_bytes h) (h_recent_ids h) (h_recent_order h) (h_closed h), true)
  end.

(** ** History, and the switch to live delivery *)

(** The buffered events that the history does not cover. *)
Definition live_after (high_water : Z) (historical_ids : gset string) (buffered : list PublishedEvent)
    : list PublishedEvent :=
  List.filter (fun p => negb (bool_decide (ev_id (pe_event p) ∈ historical_ids))
                        && match pe_ingest_seq p with Some seq => high_water <? seq | None => true end)
    buffered.
Definition live_high_water (high_water : Z) (live : list PublishedEvent) : Z :=
  fold_left Z.max (omap pe_ingest_seq live) high_water.

(** A loop that stops at the first failed send. *)
Fixpoint send_while (h : Hub) (cid : Z) (messages : list Outbound) : Hub * bool :=
  match messages with
  | [] => (h, true)
  | m :: messages' =>
      let '(h', sent) := send_one h cid m in
      if sent then send_while h' cid messages' else (h', false)
  end.

Definition history_ready (h : Hub) (key : SubscriptionKey) (generation high_water : Z)
    (events : list StoredEvent) : Hub :=
  match h_slots h !! key ≫= fun slot => (fun s => (slot, s)) <$> h_subscriptions h !! slot with
  | None => h
  | Some (slot, subscription) =>
      if negb (s_generation subscription =? generation) then h else
      match s_state subscription with
      | Live _ => h
      | Buffering buffered _ =>
          let historical_ids := list_to_set ((fun st => ev_id (se_event st)) <$> events) in
          let live := live_after high_water historical_ids buffered in
          let h := set_subscriptions h
                     (<[slot := with_state subscription (Live (live_high_water high_water live))]>
                        (h_subscriptions h)) in
          let cid := k_connection_id key in
          let h := (send_while h cid
                      ((fun st => OutText (event_message (k_subscription_id key) (se_event st))) <$> events)).1 in
          let '(h, sent) := send_one h cid (OutText (eose_message (k_subscription_id key))) in
          if negb sent then h else
          (send_while h cid
             ((fun p => OutEvent (s_json subscription) (json_event (pe_event p))
                          (bool_decide (pe_ingest_seq p = None))) <$> live)).1
      end
  end.

(** ** Publishing *)

(** What one published event does to a subscription that may see it. *)
Inductive Delivery : Type := NotNow | Overflowed | Deliver.

Definition state_publish (max_buffered : Z) (state : SubscriptionState) (p : PublishedEvent)
    : SubscriptionState * Delivery :=
  match state with
  | Buffering events ids =>
      if bool_decide (ev_id (pe_event p) ∈ ids) then (state, NotNow) else
      let ids := {[ev_id (pe_event p)]} ∪ ids in
      if len events <? max_buffered then (Buffering (events ++ [p]) ids, NotNow)
      else (Buffering events ids, if bool_decide (pe_ingest_seq p = None) then NotNow else Overflowed)
  | Live high_water =>
      match pe_ingest_seq p with
      | Some seq => if seq <=? high_water then (state, NotNow) else (Live seq, Deliver)
      | None => (state, Deliver)
      end
  end.

(** [Hub::deliver]. *)
Definition deliver (h : Hub) (cid : Z) (m : Outbound) (overflowed : gset Z) : Hub * gset Z :=
  match h_connections h !! cid with
  | None => (h, overflowed)
  | Some c =>
      if h_max_outbound_bytes h <? outbound_len m then (h, {[cid]} ∪ overflowed) else
      let '(h', outcome) := enqueue h cid c m in
      (h', if bool_decide (outcome = Full) then {[cid]} ∪ overflowed else overflowed)
  end.

(** The body of the loop over the candidates. *)
Definition publish_one (p : PublishedEvent) (acc : Hub * gset Z) (slot : Z) : Hub * gset Z :=
  let '(h, overflowed) := acc in
  match h_subscriptions h !! slot with
  | None => (h, overflowed)
  | Some s =>
      if negb (matches_any (s_filters s) (pe_event p)) then (h, overflowed) else
      if negb (event_visible_to_reader (pe_event p) (s_read_pubkeys s)) then (h, overflowed) else
      let cid := k_connection_id (s_key s) in
      let '(state, delivery) := state_publish (h_max_buffered_live h) (s_state s) p in
      let h := set_subscriptions h (<[slot := with_state s state]> (h_subscriptions h)) in
      match delivery with
      | NotNow => (h, overflowed)
      | Overflowed => (h, {[cid]} ∪ overflowed)
      | Deliver =>
          if bool_decide (cid ∈ overflowed) then (h, overflowed) else
          deliver h cid (OutEvent (s_json s) (json_event (pe_event p))
                           (bool_decide (pe_ingest_seq p = None))) overflowed
      end
  end.

(** The [while] loop that forgets old ephemeral ids. *)
Fixpoint evict (now : Z) (order : list (string * Z)) (ids : gset string)
    : list (string * Z) * gset string :=
  match order with
  | [] => ([], ids)
  | (id, seen) :: order' =>
      if (EPHEMERAL_DEDUP_WINDOW <=? Z.max 0 (now - seen)) || (MAX_RECENT_EPHEMERAL_IDS <=? len order)
      then evict now order' (ids ∖ {[id]}) else (order, ids)
  end.

Definition accept_ephemeral_id (h : Hub) (id : string) (now : Z) : Hub * bool :=
  let '(order, ids) := evict now (h_recent_order h) (h_recent_ids h) in
  if bool_decide (id ∈ ids) then (set_recent h ids order, false)
  else (set_recent h ({[id]} ∪ ids) (order ++ [(id, now)]), true).

(** [sort_unstable] and [dedup] of the slots found in the index. *)
Fixpoint dedup (l : list Z) : list Z :=
  match l with
  | x :: (y :: _) as l' => if x =? y then dedup l' else x :: dedup l'
  | _ => l
  end.
Definition candidates (h : Hub) (e : Event) : list Z :=
  dedup (merge_sort Z.le
    (elements (event_index_keys e) ≫= fun k => from_option elements [] (h_index h !! k))).

(** Delivering to the given slots, then closing what overflowed. *)
Definition fan_out (h : Hub) (p : PublishedEvent) (slots : list Z) : Hub :=
  let '(h, overflowed) := fold_left (publish_one p) slots (h, ∅) in
  fold_left close_connection (elements overflowed) h.

(** [Hub::publish]; [instant] is the clock reading of [accept_ephemeral_id]. *)
Definition publish (h : Hub) (p : PublishedEvent) (now instant : Z) : Hub :=
  if (ev_kind (pe_event p) =? 22242) || is_expired (pe_event p) now then h else
  let '(h, accepted) := match pe_ingest_seq p with
                        | None => accept_ephemeral_id h (ev_id (pe_event p)) instant
                        | Some _ => (h, true)
                        end in
  if negb accepted then h else fan_out h p (candidates h (pe_event p)).

(** ** Commands *)

Inductive HubCommand : Type :=
| AddConnection (cid capacity : Z)
| Register (key : SubscriptionKey) (generation : Z) (filters : list Filter) (read_pubkeys : gset string)
| HistoryReady (key : SubscriptionKey) (generation high_water : Z) (events : list StoredEvent)
| Remove (key : SubscriptionKey)
| CloseSubscription (key : SubscriptionKey) (message : string)
| RemoveConnection (cid : Z)
| Publish (p : PublishedEvent) (now instant : Z).

Definition handle (h : Hub) (command : HubCommand) : Hub :=
  match command with
  | AddConnection cid capacity => add_connection h cid capacity
  | Register key generation filters read_pubkeys => (register h key generation filters read_pubkeys).1
  | HistoryReady key generation high_water events => history_ready h key generation high_water events
  | Remove key => remove_subscription h key
  | CloseSubscription key message =>
      let h := (send_one h (k_connection_id key)
                  (OutText (closed_message (k_subscription_id key) message))).1 in
      remove_subscription h key
  | RemoveConnection cid => close_connection h cid
  | Publish p now instant => publish h p now instant
  end.

End hub.

(** ** An instance *)

(** ASCII text, quoted as it stands. *)
Definition toy_unicode : Unicode := {| to_lowercase := fun s => s |}.
Definition toy_json : SerdeJson := {|
  json_str := fun s => (of_bytes [34] ++ s ++ of_bytes [34])%string;
  json_event := fun e => (of_bytes [34] ++ ev_id e ++ of_bytes [34])%string;
  json_strings := String.concat ",";
|}.

(** A connection that reads notes (kind 1), its history empty. *)
Definition toy_note (id : string) : Event := mkEvent id "author" 100 1 [] "hello" "sig".
Definition toy_filter : Filter := mkFilter None None (Some [1]) ∅ None None None None.
Definition toy_commands : list HubCommand :=
  [AddConnection 1 2; Register (mkKey 1 "sub") 0 [toy_filter] ∅; HistoryReady (mkKey 1 "sub") 0 4 []].
