(* ===== verification/HubCorrect.v ===== *)
(** * HubCorrect: the tables of the hub agree, and fan-out is exact

    The invariant of [Hub.v] that ties the connections, the subscriptions,
    the slots and the index together, kept by every command; the equivalence
    of indexed fan-out with a scan of all subscriptions; and the hand-over
    from history to live delivery. *)

From S2P Require Import Prelude Text Event Filter Outbound Hub.

(** ** The invariant *)

(** [pending] are the keys whose connection has gone and whose removal is
    still to come, while [close_connection] runs; it is empty between
    commands. *)
Record hub_inv (pending : gset SubscriptionKey) (h : Hub) : Prop := {
  inv_slots key slot : h_slots h !! key = Some slot ->
    exists s, h_subscriptions h !! slot = Some s /\ s_key s = key;
  inv_subs slot s : h_subscriptions h !! slot = Some s ->
    h_slots h !! s_key s = Some slot /\ 0 <= slot < h_next_slot h
    /\ s_index_keys s = subscription_index_keys (s_filters s);
  inv_connections key :
    is_Some (h_slots h !! key)
    <-> key ∈ pending
        \/ exists c, h_connections h !! k_connection_id key = Some c
             /\ k_subscription_id key ∈ c_subscriptions c;
  inv_pending key : key ∈ pending -> h_connections h !! k_connection_id key = None;
  inv_index k slot :
    slot ∈ default ∅ (h_index h !! k)
    <-> exists s, h_subscriptions h !! slot = Some s /\ k ∈ s_index_keys s;
  inv_buckets k bucket : h_index h !! k = Some bucket -> bucket <> ∅;
  inv_queues cid c : h_connections h !! cid = Some c ->
    queue_wf (c_outbound c)
    /\ Forall (fun m => outbound_len m <= h_max_outbound_bytes h) (q_items (c_outbound c));
}.

(** What no command but [register] changes. *)
Definition kept (h h' : Hub) : Prop :=
  h_next_slot h' = h_next_slot h /\ h_max_outbound_bytes h' = h_max_outbound_bytes h
  /\ h_max_buffered_live h' = h_max_buffered_live h.

#[export] Instance kept_preorder : PreOrder kept.
Proof. split; [by intros h|]. intros h1 h2 h3 (?&?&?) (?&?&?). repeat split; congruence. Qed.

Lemma hub_new_inv buffered bytes : hub_inv ∅ (hub_new buffered bytes).
Proof.
  split; cbn.
  - intros key slot. by rewrite lookup_empty.
  - intros slot s. by rewrite lookup_empty.
  - intros key. rewrite lookup_empty. split; [by intros []|].
    intros [Hin|(c & Hc & _)]; [by apply elem_of_empty in Hin|by rewrite lookup_empty in Hc].
  - intros key Hin. by apply elem_of_empty in Hin.
  - intros k slot. rewrite lookup_empty. split; [by intros Hin%elem_of_empty|].
    intros (s & Hs & _). by rewrite lookup_empty in Hs.
  - intros k bucket. by rewrite lookup_empty.
  - intros cid c. by rewrite lookup_empty.
Qed.

(** ** Buckets of the index *)

Lemma unindex_lookup slot index k k' :
  default ∅ (unindex slot index k !! k')
  = if decide (k = k') then default ∅ (index !! k') ∖ {[slot]} else default ∅ (index !! k').
Proof.
  unfold unindex. destruct (index !! k) as [b|] eqn:Hk.
  - case_bool_decide as Hb; case_decide as Hkk; subst;
      rewrite ?lookup_delete_eq, ?lookup_delete_ne, ?lookup_insert_eq, ?lookup_insert_ne by done; try done.
    + by rewrite Hk.
    + by rewrite Hk.
  - case_decide; subst; [|done]. rewrite Hk. cbn. set_solver.
Qed.

Lemma unindex_nonempty slot index k :
  (forall k' b, index !! k' = Some b -> b <> ∅) ->
  forall k' b, unindex slot index k !! k' = Some b -> b <> ∅.
Proof.
  intros Hne k' b. unfold unindex. destruct (index !! k) as [bk|] eqn:Hk; [|by apply Hne].
  case_bool_decide as Hb; destruct (decide (k = k')) as [->|Hkk];
    rewrite ?lookup_delete_eq, ?lookup_delete_ne, ?lookup_insert_eq, ?lookup_insert_ne by done; try done.
  - by apply Hne.
  - by intros [= <-].
  - by apply Hne.
Qed.

Lemma unindex_fold slot ks index :
  (forall k x, x ∈ default ∅ (fold_left (unindex slot) ks index !! k)
     <-> x ∈ default ∅ (index !! k) /\ ~ (x = slot /\ k ∈ ks))
  /\ ((forall k b, index !! k = Some b -> b <> ∅) ->
      forall k b, fold_left (unindex slot) ks index !! k = Some b -> b <> ∅).
Proof.
  revert index. induction ks as [|k0 ks IH]; intros index; cbn [fold_left].
  { split; [|done]. intros k x. rewrite elem_of_nil. tauto. }
  destruct (IH (unindex slot index k0)) as [H1 H2]. split.
  - intros k x. rewrite H1, unindex_lookup, elem_of_cons. case_decide as Hk; subst.
    + rewrite elem_of_difference, elem_of_singleton. tauto.
    + split; [|tauto]. intros [Hx Hn]. split; [done|]. intros [-> [->|Hin]]; [done|]. tauto.
  - intros Hne. apply H2. by apply unindex_nonempty.
Qed.

Lemma add_index_fold slot ks index :
  (forall k x, x ∈ default ∅ (fold_left (add_index slot) ks index !! k)
     <-> x ∈ default ∅ (index !! k) \/ (x = slot /\ k ∈ ks))
  /\ ((forall k b, index !! k = Some b -> b <> ∅) ->
      forall k b, fold_left (add_index slot) ks index !! k = Some b -> b <> ∅).
Proof.
  revert index. induction ks as [|k0 ks IH]; intros index; cbn [fold_left].
  { split; [|done]. intros k x. rewrite elem_of_nil. tauto. }
  destruct (IH (add_index slot index k0)) as [H1 H2]. split.
  - intros k x. rewrite H1, elem_of_cons. unfold add_index. destruct (decide (k0 = k)) as [->|Hk].
    + rewrite lookup_insert_eq. cbn [default]. unfold default, from_option, id.
      rewrite elem_of_union, elem_of_singleton. tauto.
    + rewrite lookup_insert_ne by done. split; [tauto|]. intros [?|[-> [->|?]]]; [tauto|done|tauto].
  - intros Hne. apply H2. unfold add_index. intros k b. destruct (decide (k0 = k)) as [->|Hk].
    + rewrite lookup_insert_eq. intros [= <-]. set_solver.
    + rewrite lookup_insert_ne by done. apply Hne.
Qed.

(** ** Removal *)

Lemma remove_subscription_kept h key : kept h (remove_subscription h key).
Proof.
  unfold remove_subscription. destruct (h_slots h !! key); [|done]. by destruct (h_subscriptions h !! _).
Qed.

Lemma remove_subscription_inv pending h key :
  hub_inv pending h -> hub_inv (pending ∖ {[key]}) (remove_subscription h key)
  /\ h_slots (remove_subscription h key) = delete key (h_slots h).
Proof.
  intros Hinv. unfold remove_subscription. destruct (h_slots h !! key) as [slot|] eqn:Hslot.
  2:{ split; [|by rewrite delete_id]. destruct Hinv as [I1 I2 I3 I4 I5 I6 I7].
      split; [done|done| |intros k ?; apply I4; set_solver|done|done|done].
      intros k. rewrite I3. destruct (decide (k = key)) as [->|Hne]; [|set_solver].
      specialize (I3 key). rewrite Hslot in I3. split; [|set_solver].
      intros Hk. apply I3 in Hk. by destruct Hk. }
  destruct Hinv as [I1 I2 I3 I4 I5 I6 I7]. destruct (I1 _ _ Hslot) as (s & Hs & Hkey). rewrite Hs.
  split; [|done]. destruct (unindex_fold slot (elements (s_index_keys s)) (h_index h)) as [U1 U2].
  split; cbn [h_slots h_subscriptions h_connections h_index h_next_slot].
  - intros k x Hk. apply lookup_delete_Some in Hk as [Hne Hk]. destruct (I1 _ _ Hk) as (s' & Hs' & Hk').
    exists s'. split; [|done]. apply lookup_delete_Some. split; [|done]. intros <-. congruence.
  - intros x s' Hx. apply lookup_delete_Some in Hx as [Hne Hx]. destruct (I2 _ _ Hx) as (Hk & Hr & Hi).
    split; [|done]. apply lookup_delete_Some. split; [|done]. intros He. rewrite <- He in Hk. congruence.
  - intros k. destruct (decide (k = key)) as [->|Hne].
    + rewrite lookup_delete_eq, lookup_alter_eq. split; [by intros []|].
      intros [Hp|(c & Hc & Hin)]; [set_solver|].
      destruct (h_connections h !! k_connection_id key); [|done]. injection Hc as <-. cbn in Hin. set_solver.
    + rewrite lookup_delete_ne, I3 by done. destruct (decide (k_connection_id k = k_connection_id key)) as [Hcid|Hcid].
      * rewrite Hcid, lookup_alter_eq.
        assert (Hsid : k_subscription_id k <> k_subscription_id key)
          by (destruct k, key; cbn in *; congruence).
        destruct (h_connections h !! k_connection_id key) as [c|]; cbn.
        -- split; (intros [Hp|(c' & [= <-] & Hin)]; [left; set_solver|right]);
             eexists; (split; [done|]); cbn in *; set_solver.
        -- split; (intros [Hp|(c' & Hc' & _)]; [left; set_solver|done]).
      * rewrite lookup_alter_ne by done. set_solver.
  - intros k Hk. apply elem_of_difference in Hk as [Hk Hne]. specialize (I4 _ Hk).
    by rewrite lookup_alter_None.
  - intros k x. rewrite U1, I5, elem_of_elements. split.
    + intros [(s' & Hs' & Hk) Hn]. exists s'. split; [|done]. apply lookup_delete_Some. split; [|done].
      intros <-. apply Hn. split; [done|]. congruence.
    + intros (s' & Hs' & Hk). apply lookup_delete_Some in Hs' as [Hne Hs']. split; [by exists s'|].
      intros [-> _]. done.
  - by apply U2.
  - intros cid c Hc. rewrite lookup_alter in Hc. case_decide; [|by eapply I7].
    apply fmap_Some in Hc as (c0 & Hc0 & ->). exact (I7 _ _ Hc0).
Qed.

Lemma remove_subscription_connections h key :
  (forall slot, h_slots h !! key = Some slot -> is_Some (h_subscriptions h !! slot)) ->
  h_connections (remove_subscription h key)
  = match h_slots h !! key with
    | Some _ => alter (fun c => mkSink (c_outbound c) (c_subscriptions c ∖ {[k_subscription_id key]}))
                  (k_connection_id key) (h_connections h)
    | None => h_connections h
    end.
Proof.
  intros Hs. unfold remove_subscription. destruct (h_slots h !! key) as [slot|]; [|done].
  by destruct (Hs slot eq_refl) as [s ->].
Qed.

(** ** Closing a connection *)

Lemma remove_all_inv cid sids pending h :
  (forall k, k ∈ pending -> k ∈ mkKey cid <$> sids) -> h_connections h !! cid = None ->
  hub_inv pending h ->
  let h' := fold_left (fun h sid => remove_subscription h (mkKey cid sid)) sids h in
  hub_inv ∅ h' /\ h_connections h' = h_connections h /\ kept h h'.
Proof.
  revert pending h. induction sids as [|sid sids IH]; intros pending h Hp Hc Hinv; cbn [fold_left].
  - assert (pending = ∅) as ->; [|done].
    apply leibniz_equiv, elem_of_equiv_empty. intros k Hk. by apply Hp, elem_of_nil in Hk.
  - destruct (remove_subscription_inv pending h (mkKey cid sid) Hinv) as [Hinv1 _].
    assert (Hconn : h_connections (remove_subscription h (mkKey cid sid)) = h_connections h).
    { rewrite remove_subscription_connections.
      - destruct (h_slots h !! _); [|done]. cbn. apply map_eq. intros i.
        rewrite lookup_alter. case_decide; [subst; by rewrite Hc|done].
      - intros slot Hslot. destruct (inv_slots _ _ Hinv _ _ Hslot) as (s & Hs & _). by exists s. }
    destruct (IH (pending ∖ {[mkKey cid sid]}) (remove_subscription h (mkKey cid sid)))
      as (H1 & H2 & H3); [|congruence|done|].
    + intros k Hk. apply elem_of_difference in Hk as [Hk Hne]. apply Hp in Hk. set_solver.
    + split; [done|]. split; [congruence|]. etrans; [apply remove_subscription_kept|done].
Qed.

(** The connection leaves its table first. *)
Lemma detach_inv h cid c :
  hub_inv ∅ h -> h_connections h !! cid = Some c ->
  hub_inv (list_to_set (mkKey cid <$> elements (c_subscriptions c)))
    (mkHub (delete cid (h_connections h)) (h_subscriptions h) (h_slots h) (h_next_slot h) (h_index h)
       (h_max_buffered_live h) (h_max_outbound_bytes h) (h_recent_ids h) (h_recent_order h)
       (h_closed h ++ [cid])).
Proof.
  intros [I1 I2 I3 I4 I5 I6 I7] Hc.
  split; cbn [h_slots h_subscriptions h_connections h_index h_next_slot]; try done.
  - intros [cid' sid]. rewrite I3, elem_of_list_to_set. cbn [k_connection_id k_subscription_id].
    destruct (decide (cid' = cid)) as [->|Hne].
    + rewrite lookup_delete_eq, Hc. set_solver.
    + rewrite lookup_delete_ne by done. split; [set_solver|]. intros [Hin|?]; [|by right].
      apply list_elem_of_fmap in Hin as (x & [= Hx _] & _). done.
  - intros k. rewrite elem_of_list_to_set. intros (x & -> & _)%list_elem_of_fmap. apply lookup_delete_eq.
  - intros cid' c' Hc'. apply lookup_delete_Some in Hc' as [_ Hc']. by eapply I7.
Qed.

Lemma close_connection_inv h cid :
  hub_inv ∅ h ->
  hub_inv ∅ (close_connection h cid) /\ kept h (close_connection h cid)
  /\ h_connections (close_connection h cid) = delete cid (h_connections h).
Proof.
  intros Hinv. unfold close_connection. destruct (h_connections h !! cid) as [c|] eqn:Hc.
  2:{ by rewrite delete_id. }
  match goal with |- context [fold_left _ _ ?h0] => set (h1 := h0) end.
  destruct (remove_all_inv cid (elements (c_subscriptions c))
              (list_to_set (mkKey cid <$> elements (c_subscriptions c))) h1) as (H1 & H2 & H3).
  - intros k. by rewrite elem_of_list_to_set.
  - cbn. apply lookup_delete_eq.
  - by apply detach_inv.
  - split; [done|]. split; [|done]. etrans; [|exact H3]. done.
Qed.

Lemma close_connections_inv cids h :
  hub_inv ∅ h ->
  hub_inv ∅ (fold_left close_connection cids h) /\ kept h (fold_left close_connection cids h)
  /\ forall cid, h_connections (fold_left close_connection cids h) !! cid
               = if decide (cid ∈ cids) then None else h_connections h !! cid.
Proof.
  revert h. induction cids as [|c cids IH]; intros h Hinv; cbn [fold_left].
  - split; [done|]. split; [done|]. intros cid. by rewrite decide_False by apply not_elem_of_nil.
  - destruct (close_connection_inv h c Hinv) as (H1 & H2 & H3).
    destruct (IH _ H1) as (H4 & H5 & H6). split; [done|]. split; [by etrans|].
    intros cid. rewrite H6, H3. clear -c. destruct (decide (cid = c)) as [->|Hne].
    + rewrite lookup_delete_eq, (decide_True (P := c ∈ c :: cids)) by apply list_elem_of_here. by case_decide.
    + rewrite lookup_delete_ne by done. do 2 case_decide; try done; set_solver.
Qed.

(** ** Queues, states and the recent ids do not touch the tables *)

Definition fits (h : Hub) (q : OutboundQueue) : Prop :=
  queue_wf q /\ Forall (fun m => outbound_len m <= h_max_outbound_bytes h) (q_items q).

Lemma offer_fits h q m :
  fits h q -> outbound_len m <= h_max_outbound_bytes h -> fits h (offer q m).1.
Proof.
  intros [Hwf Hall] Hm. pose proof (offer_spec q m Hwf) as Ho. destruct (offer q m) as [q' outcome].
  destruct Ho as (Hwf' & _ & Ho). split; [done|]. cbn [fst]. destruct outcome.
  - destruct Ho as [-> _]. apply Forall_app. split; [done|]. by constructor.
  - destruct Ho as [_ [[-> _]|(a & x & b & Hi & _ & _ & ->)]]; [done|]. rewrite Hi in Hall.
    apply Forall_app in Hall as [Ha Hb]. apply Forall_cons in Hb as [_ Hb].
    rewrite !Forall_app. split; [done|]. by constructor.
  - by destruct Ho as [-> _].
Qed.

Lemma pop_fits h q : fits h q -> fits h (pop q).1.
Proof.
  intros [Hwf Hall]. pose proof (pop_spec q Hwf) as Hp. destruct (pop q) as [q' m].
  destruct Hp as (Hwf' & _ & Hp). split; [done|]. cbn [fst]. destruct m as [m|].
  - rewrite Hp in Hall. by apply Forall_cons in Hall as [_ Hall].
  - by destruct Hp as [_ ->].
Qed.

Lemma set_queue_inv pending h cid c q :
  hub_inv pending h -> h_connections h !! cid = Some c -> fits h q ->
  hub_inv pending (set_connections h (<[cid := mkSink q (c_subscriptions c)]> (h_connections h))).
Proof.
  intros [I1 I2 I3 I4 I5 I6 I7] Hc Hq. split; cbn; try done.
  - intros k. rewrite I3. destruct (decide (k_connection_id k = cid)) as [<-|Hne].
    + rewrite lookup_insert_eq, Hc. split; (intros [?|(c' & [= <-] & Hin)]; [by left|right]); by eexists.
    + by rewrite lookup_insert_ne.
  - intros k Hk. specialize (I4 _ Hk). rewrite lookup_insert_ne; [done|]. congruence.
  - intros cid' c'. rewrite lookup_insert_Some. intros [[<- <-]|[_ Hc']]; [exact Hq|by eapply I7].
Qed.

Lemma set_state_inv pending h slot s state :
  hub_inv pending h -> h_subscriptions h !! slot = Some s ->
  hub_inv pending (set_subscriptions h (<[slot := with_state s state]> (h_subscriptions h))).
Proof.
  intros [I1 I2 I3 I4 I5 I6 I7] Hs. split; cbn; try done.
  - intros k x Hk. destruct (I1 _ _ Hk) as (s' & Hs' & Hkey).
    destruct (decide (x = slot)) as [->|Hne]; [|exists s'; by rewrite lookup_insert_ne].
    exists (with_state s state). rewrite lookup_insert_eq. split; [done|]. cbn. congruence.
  - intros x s'. rewrite lookup_insert_Some. intros [[<- <-]|[_ Hs']]; [|by apply I2]. cbn. by apply I2.
  - intros k x. rewrite I5. destruct (decide (x = slot)) as [->|Hne]; [|by rewrite lookup_insert_ne].
    rewrite lookup_insert_eq, Hs. split; intros (s' & [= <-] & Hk); by eexists.
Qed.

Lemma set_recent_inv pending h ids order : hub_inv pending h -> hub_inv pending (set_recent h ids order).
Proof. by intros []. Qed.

(** ** The commands *)

Lemma add_connection_inv h cid capacity :
  hub_inv ∅ h -> hub_inv ∅ (add_connection h cid capacity) /\ kept h (add_connection h cid capacity).
Proof.
  intros Hinv. unfold add_connection.
  assert (Hclosed : exists h1, match h_connections h !! cid with
                               | Some _ => close_connection h cid | None => h end = h1
                    /\ hub_inv ∅ h1 /\ kept h h1 /\ h_connections h1 !! cid = None).
  { eexists. split; [done|]. destruct (h_connections h !! cid) eqn:Hc; [|done].
    destruct (close_connection_inv h cid Hinv) as (H1 & H2 & ->). by rewrite lookup_delete_eq. }
  destruct Hclosed as (h1 & -> & [I1 I2 I3 I4 I5 I6 I7] & Hk & Hnone). split; [|done].
  split; cbn; try done.
  - intros k. rewrite I3. destruct (decide (k_connection_id k = cid)) as [<-|Hne].
    + rewrite lookup_insert_eq, Hnone. split; [by intros [?|(c & Hx & _)]; [left|]|].
      intros [?|(c & [= <-] & Hin)]; [by left|]. by apply elem_of_empty in Hin.
    + by rewrite lookup_insert_ne.
  - intros cid' c. rewrite lookup_insert_Some. intros [[<- <-]|[_ Hc]]; [|by eapply I7].
    split; [|by constructor]. split; [cbn; lia|]. split; [unfold len; cbn; lia|done].
Qed.

Lemma send_one_inv h cid m :
  hub_inv ∅ h -> hub_inv ∅ (send_one h cid m).1 /\ kept h (send_one h cid m).1.
Proof.
  intros Hinv. unfold send_one.
  destruct (Z.ltb_spec (h_max_outbound_bytes h) (outbound_len m)) as [Hbig|Hfit].
  { destruct (close_connection_inv h cid Hinv) as (?&?&_). done. }
  destruct (h_connections h !! cid) as [c|] eqn:Hc.
  2:{ destruct (close_connection_inv h cid Hinv) as (?&?&_). done. }
  unfold enqueue.
  pose proof (offer_fits h (c_outbound c) m (inv_queues _ _ Hinv _ _ Hc) Hfit) as Hq.
  destruct (offer (c_outbound c) m) as [q outcome]. cbn [fst] in Hq.
  pose proof (set_queue_inv ∅ h cid c q Hinv Hc Hq) as Hinv'.
  case_bool_decide; [|done]. destruct (close_connection_inv _ cid Hinv') as (?&?&_). done.
Qed.

Lemma send_while_inv h cid ms :
  hub_inv ∅ h -> hub_inv ∅ (send_while h cid ms).1 /\ kept h (send_while h cid ms).1.
Proof.
  revert h. induction ms as [|m ms IH]; intros h Hinv; cbn [send_while]; [done|].
  destruct (send_one_inv h cid m Hinv) as [H1 H2]. destruct (send_one h cid m) as [h1 sent].
  cbn [fst] in *. destruct sent; [|done]. destruct (IH h1 H1) as [H3 H4]. split; [done|]. by etrans.
Qed.

Lemma pop_connection_inv h cid :
  hub_inv ∅ h -> hub_inv ∅ (pop_connection h cid).1 /\ kept h (pop_connection h cid).1.
Proof.
  intros Hinv. unfold pop_connection. destruct (h_connections h !! cid) as [c|] eqn:Hc; [|done].
  pose proof (pop_fits h (c_outbound c) (inv_queues _ _ Hinv _ _ Hc)) as Hq.
  destruct (pop (c_outbound c)) as [q m]. cbn [fst] in *. split; [|done]. by apply set_queue_inv.
Qed.

Corollary remove_subscription_inv_empty h key :
  hub_inv ∅ h -> hub_inv ∅ (remove_subscription h key).
Proof.
  intros Hinv. destruct (remove_subscription_inv ∅ h key Hinv) as [Hinv' _].
  assert ((∅ : gset SubscriptionKey) ∖ {[key]} = ∅) as Hempty by set_solver. by rewrite Hempty in Hinv'.
Qed.

(** A new subscription under a fresh slot. *)
Lemma insert_subscription_inv h s c :
  hub_inv ∅ h -> h_slots h !! s_key s = None ->
  h_connections h !! k_connection_id (s_key s) = Some c ->
  s_index_keys s = subscription_index_keys (s_filters s) -> 0 <= h_next_slot h ->
  hub_inv ∅
    (mkHub (alter (fun c => mkSink (c_outbound c) ({[k_subscription_id (s_key s)]} ∪ c_subscriptions c))
              (k_connection_id (s_key s)) (h_connections h))
       (<[h_next_slot h := s]> (h_subscriptions h)) (<[s_key s := h_next_slot h]> (h_slots h))
       (h_next_slot h + 1) (fold_left (add_index (h_next_slot h)) (elements (s_index_keys s)) (h_index h))
       (h_max_buffered_live h) (h_max_outbound_bytes h) (h_recent_ids h) (h_recent_order h) (h_closed h)).
Proof.
  intros [I1 I2 I3 I4 I5 I6 I7] Hfree Hc Hkeys Hnext. set (slot := h_next_slot h) in *.
  destruct (add_index_fold slot (elements (s_index_keys s)) (h_index h)) as [A1 A2].
  assert (Hnew : h_subscriptions h !! slot = None).
  { destruct (h_subscriptions h !! slot) as [s'|] eqn:Hs; [|done]. apply I2 in Hs. unfold slot in Hs. lia. }
  split; cbn [h_slots h_subscriptions h_connections h_index h_next_slot h_max_outbound_bytes].
  - intros k x. rewrite lookup_insert_Some. intros [[<- <-]|[Hne Hk]].
    + eexists. by rewrite lookup_insert_eq.
    + destruct (I1 _ _ Hk) as (s' & Hs & Hkey). exists s'. rewrite lookup_insert_ne; [done|]. congruence.
  - intros x s'. rewrite lookup_insert_Some. intros [[<- <-]|[Hne Hs]].
    + rewrite lookup_insert_eq. split; [done|]. split; [lia|done].
    + destruct (I2 _ _ Hs) as (Hk & Hr & Hi). rewrite lookup_insert_ne by congruence.
      split; [done|]. split; [unfold slot; lia|done].
  - intros k. destruct (decide (k = s_key s)) as [->|Hne].
    + rewrite lookup_insert_eq, lookup_alter_eq, Hc. split; [intros _; right|done].
      eexists. split; [done|]. cbn. set_solver.
    + rewrite lookup_insert_ne, I3 by done. rewrite lookup_alter. case_decide as Hcid; [|done].
      rewrite <- Hcid, Hc. assert (Hsid : k_subscription_id k <> k_subscription_id (s_key s))
        by (destruct k, (s_key s); cbn in *; congruence).
      clear -Hsid. split; (intros [?|(c' & [= <-] & Hin)]; [by left|right]); eexists; (split; [done|]);
        cbn in *; set_solver.
  - intros k Hk. by apply elem_of_empty in Hk.
  - intros k x. rewrite A1, I5, elem_of_elements. split.
    + intros [(s' & Hs & Hk)|[-> Hk]]; [|eexists; by rewrite lookup_insert_eq].
      exists s'. by rewrite lookup_insert_ne by congruence.
    + intros (s' & Hs & Hk). apply lookup_insert_Some in Hs as [[<- <-]|[_ Hs]]; [by right|left]. by exists s'.
  - by apply A2.
  - intros cid c'. rewrite lookup_alter. case_decide; [|by apply I7].
    intros (c0 & Hc0 & ->)%fmap_Some_1. cbn. by eapply I7.
Qed.

Section commands.
Context `{Unicode, SerdeJson}.

Lemma register_inv h key generation filters read_pubkeys :
  hub_inv ∅ h -> 0 <= h_next_slot h < 2 ^ 64 - 1 ->
  let '(h', registered) := register h key generation filters read_pubkeys in
  hub_inv ∅ h' /\ h_next_slot h' = h_next_slot h + Z.b2z registered
  /\ registered = bool_decide (is_Some (h_connections h !! k_connection_id key)).
Proof.
  intros Hinv Hnext. unfold register.
  destruct (h_connections h !! k_connection_id key) as [c|] eqn:Hc.
  2:{ split; [done|]. split; [cbn; lia|]. by rewrite bool_decide_eq_false_2 by (intros []; done). }
  pose proof (remove_subscription_inv_empty h key Hinv) as Hinv1.
  destruct (remove_subscription_inv ∅ h key Hinv) as [_ Hslots].
  destruct (remove_subscription_kept h key) as (Hn & _ & _).
  assert (Hc1 : exists c1, h_connections (remove_subscription h key) !! k_connection_id key = Some c1).
  { rewrite remove_subscription_connections.
    - destruct (h_slots h !! key); [|by exists c]. rewrite lookup_alter_eq, Hc. by eexists.
    - intros slot Hslot. destruct (inv_slots _ _ Hinv _ _ Hslot) as (s & Hs & _). by exists s. }
  destruct Hc1 as [c1 Hc1]. rewrite Z.mod_small by lia.
  split; [|split; [cbn; lia|by rewrite bool_decide_eq_true_2 by (by eexists)]].
  apply (insert_subscription_inv _ (mkSubscription key _ generation filters read_pubkeys _ (Buffering [] ∅)) c1);
    cbn; try done; [|lia]. rewrite Hslots. apply lookup_delete_eq.
Qed.

Lemma history_ready_inv h key generation high_water events :
  hub_inv ∅ h ->
  hub_inv ∅ (history_ready h key generation high_water events)
  /\ kept h (history_ready h key generation high_water events).
Proof.
  intros Hinv. unfold history_ready. destruct (h_slots h !! key) as [slot|]; [|done]. cbn [mbind option_bind].
  destruct (h_subscriptions h !! slot) as [s|] eqn:Hs; [|done]. cbn [fmap option_fmap option_map].
  destruct (negb _); [done|]. destruct (s_state s) as [buffered ids|]; [|done].
  set (live := live_after _ _ _). set (h1 := set_subscriptions _ _).
  assert (Hinv1 : hub_inv ∅ h1) by by apply set_state_inv.
  assert (Hk1 : kept h h1) by done. clearbody h1. set (history := _ <$> events).
  destruct (send_while_inv h1 (k_connection_id key) history Hinv1) as [Hinv2 Hk2].
  set (h2 := (send_while h1 _ history).1) in *. clearbody h2.
  set (eose := OutText _). destruct (send_one_inv h2 (k_connection_id key) eose Hinv2) as [Hinv3 Hk3].
  destruct (send_one h2 _ eose) as [h3 sent]. cbn [fst] in *.
  assert (Hk : kept h h3) by (etrans; [exact Hk1|]; by etrans). destruct (negb sent); [done|].
  set (live_messages := _ <$> live).
  destruct (send_while_inv h3 (k_connection_id key) live_messages Hinv3) as [Hinv4 Hk4].
  split; [done|]. by etrans.
Qed.

Lemma publish_one_inv p h overflowed slot :
  hub_inv ∅ h ->
  hub_inv ∅ (publish_one p (h, overflowed) slot).1 /\ kept h (publish_one p (h, overflowed) slot).1.
Proof.
  intros Hinv. unfold publish_one. destruct (h_subscriptions h !! slot) as [s|] eqn:Hs; [|done].
  destruct (negb _); [done|]. destruct (negb _); [done|].
  destruct (state_publish _ _ _) as [state delivery].
  pose proof (set_state_inv ∅ h slot s state Hinv Hs) as Hinv1. set (h1 := set_subscriptions _ _) in *.
  assert (Hk1 : kept h h1) by done. clearbody h1.
  destruct delivery; [done|done|]. case_bool_decide; [done|].
  unfold deliver. destruct (h_connections h1 !! _) as [c|] eqn:Hc; [|done].
  destruct (Z.ltb_spec (h_max_outbound_bytes h1) (outbound_len
    (OutEvent (s_json s) (json_event (pe_event p)) (bool_decide (pe_ingest_seq p = None))))) as [|Hfit]; [done|].
  unfold enqueue. pose proof (offer_fits h1 _ _ (inv_queues _ _ Hinv1 _ _ Hc) Hfit) as Hq.
  destruct (offer _ _) as [q outcome]. cbn [fst] in *. split; [by apply set_queue_inv|done].
Qed.

Lemma publish_fold_inv p slots h overflowed :
  hub_inv ∅ h ->
  hub_inv ∅ (fold_left (publish_one p) slots (h, overflowed)).1
  /\ kept h (fold_left (publish_one p) slots (h, overflowed)).1.
Proof.
  revert h overflowed. induction slots as [|slot slots IH]; intros h overflowed Hinv; [done|].
  cbn [fold_left]. destruct (publish_one_inv p h overflowed slot Hinv) as [H1 H2].
  destruct (publish_one p (h, overflowed) slot) as [h1 overflowed1]. cbn [fst] in *.
  destruct (IH h1 overflowed1 H1) as [H3 H4]. split; [done|]. by etrans.
Qed.

Lemma fan_out_inv h p slots : hub_inv ∅ h -> hub_inv ∅ (fan_out h p slots) /\ kept h (fan_out h p slots).
Proof.
  intros Hinv. unfold fan_out. destruct (publish_fold_inv p slots h ∅ Hinv) as [H1 H2].
  destruct (fold_left _ slots _) as [h1 overflowed]. cbn [fst] in *.
  destruct (close_connections_inv (elements overflowed) h1 H1) as (H3 & H4 & _). split; [done|]. by etrans.
Qed.

Lemma publish_inv h p now instant :
  hub_inv ∅ h -> hub_inv ∅ (publish h p now instant) /\ kept h (publish h p now instant).
Proof.
  intros Hinv. unfold publish. destruct (_ || _); [done|].
  assert (Haccept : forall h1 accepted,
    match pe_ingest_seq p with
    | None => accept_ephemeral_id h (ev_id (pe_event p)) instant | Some _ => (h, true) end = (h1, accepted) ->
    hub_inv ∅ h1 /\ kept h h1).
  { intros h1 accepted. destruct (pe_ingest_seq p); [by intros [= <- _]|]. unfold accept_ephemeral_id.
    destruct (evict _ _ _) as [order ids]. case_bool_decide; intros [= <- _]; (split; [|done]);
      by apply set_recent_inv. }
  destruct (match pe_ingest_seq p with Some _ => _ | None => _ end) as [h1 accepted].
  destruct (Haccept h1 accepted eq_refl) as [H1 H2]. destruct (negb accepted); [done|].
  destruct (fan_out_inv h1 p (candidates h1 (pe_event p)) H1) as [H3 H4]. split; [done|]. by etrans.
Qed.

Lemma handle_inv h command :
  hub_inv ∅ h -> 0 <= h_next_slot h < 2 ^ 64 - 1 ->
  hub_inv ∅ (handle h command)
  /\ h_next_slot h <= h_next_slot (handle h command) <= h_next_slot h + 1
  /\ h_max_outbound_bytes (handle h command) = h_max_outbound_bytes h.
Proof.
  intros Hinv Hnext.
  assert (Hlift : forall h', hub_inv ∅ h' /\ kept h h' ->
    hub_inv ∅ h' /\ h_next_slot h <= h_next_slot h' <= h_next_slot h + 1
    /\ h_max_outbound_bytes h' = h_max_outbound_bytes h).
  { intros h' [H1 (-> & -> & _)]. split; [done|]. split; [lia|done]. }
  destruct command; cbn [handle].
  - by apply Hlift, add_connection_inv.
  - pose proof (register_inv h key generation filters read_pubkeys Hinv Hnext) as Hr.
    unfold register in *. destruct (h_connections h !! _); cbn [fst].
    + destruct Hr as (H1 & H2 & _). split; [done|]. cbn in *. split; [lia|].
      apply (remove_subscription_kept h key).
    + apply Hlift. done.
  - by apply Hlift, history_ready_inv.
  - apply Hlift. split; [by apply remove_subscription_inv_empty|apply remove_subscription_kept].
  - apply Hlift. destruct (send_one_inv h (k_connection_id key)
      (OutText (closed_message (k_subscription_id key) message)) Hinv) as [H1 H2].
    split; [by apply remove_subscription_inv_empty|]. etrans; [exact H2|]. apply remove_subscription_kept.
  - apply Hlift. destruct (close_connection_inv h cid Hinv) as (?&?&_). done.
  - by apply Hlift, publish_inv.
Qed.

(** ** Runs of the hub *)

(** The hub's task handles a command, or a connection's task takes a
    message. *)
Inductive HubAction : Type := Command (command : HubCommand) | Pop (cid : Z).

Definition hub_act (h : Hub) (action : HubAction) : Hub :=
  match action with
  | Command command => handle h command
  | Pop cid => (pop_connection h cid).1
  end.
Definition hub_run (h : Hub) (actions : list HubAction) : Hub := fold_left hub_act actions h.

Lemma hub_run_inv actions h :
  hub_inv ∅ h -> 0 <= h_next_slot h -> h_next_slot h + len actions < 2 ^ 64 ->
  hub_inv ∅ (hub_run h actions) /\ h_max_outbound_bytes (hub_run h actions) = h_max_outbound_bytes h.
Proof.
  revert h. induction actions as [|action actions IH]; intros h Hinv Hpos Hlen; [done|].
  unfold hub_run. cbn [fold_left]. fold (hub_run (hub_act h action) actions).
  assert (Hl : len (action :: actions) = 1 + len actions) by (unfold len; cbn [length]; lia).
  assert (Hl0 : 0 <= len actions) by (unfold len; lia).
  assert (Hstep : hub_inv ∅ (hub_act h action)
    /\ h_next_slot h <= h_next_slot (hub_act h action) <= h_next_slot h + 1
    /\ h_max_outbound_bytes (hub_act h action) = h_max_outbound_bytes h).
  { destruct action; cbn [hub_act]; [apply handle_inv; [done|lia]|].
    destruct (pop_connection_inv h cid Hinv) as [H1 (-> & -> & _)]. split; [done|]. split; [lia|done]. }
  destruct Hstep as (H1 & H2 & H3). destruct (IH _ H1) as [H4 H5]; [lia|lia|]. split; [done|congruence].
Qed.

Lemma no_connections_empty h :
  hub_inv ∅ h -> h_connections h = ∅ -> h_slots h = ∅ /\ h_subscriptions h = ∅ /\ h_index h = ∅.
Proof.
  intros [I1 I2 I3 I4 I5 I6 I7] Hc.
  assert (Hslots : h_slots h = ∅).
  { apply map_empty. intros key. apply eq_None_not_Some. rewrite I3, Hc.
    intros [Hp|(c & Hx & _)]; [by apply elem_of_empty in Hp|by rewrite lookup_empty in Hx]. }
  assert (Hsubs : h_subscriptions h = ∅).
  { apply map_empty. intros slot. destruct (h_subscriptions h !! slot) as [s|] eqn:Hs; [|done].
    apply I2 in Hs as [Hs _]. by rewrite Hslots, lookup_empty in Hs. }
  split; [done|]. split; [done|]. apply map_empty. intros k.
  destruct (h_index h !! k) as [bucket|] eqn:Hb; [|done]. destruct (I6 _ _ Hb).
  apply leibniz_equiv, elem_of_equiv_empty. intros slot Hin.
  destruct (proj1 (I5 k slot)) as (s & Hs & _); [by rewrite Hb|]. by rewrite Hsubs, lookup_empty in Hs.
Qed.

Lemma shutdown_empty h : hub_inv ∅ h -> hub_inv ∅ (shutdown h) /\ h_connections (shutdown h) = ∅.
Proof.
  intros Hinv. unfold shutdown.
  destruct (close_connections_inv (map_to_list (h_connections h)).*1 h Hinv) as (H1 & _ & H3).
  split; [done|]. apply map_empty. intros cid. rewrite H3. case_decide as Hin; [done|].
  destruct (h_connections h !! cid) as [c|] eqn:Hc; [|done]. destruct Hin.
  apply list_elem_of_fmap. exists (cid, c). split; [done|]. by apply elem_of_map_to_list.
Qed.

(** C13: the hub's tables always agree and nothing leaks.  After any sequence
    of fewer than 2^64 commands and pops, every slot names the subscription
    with its key and back, a connection lists exactly its live subscriptions,
    the index holds a slot under exactly the keys of its filters and has no
    empty bucket, and every queue is within its capacity; a message the
    connection's task then takes is at most the configured number of bytes on
    the wire; a closed connection leaves no subscription behind; and a
    shutdown empties every table. *)
Theorem hub_tables_agree max_buffered max_bytes actions (Hlen : len actions < 2 ^ 64) :
  let h := hub_run (hub_new max_buffered max_bytes) actions in
  hub_inv ∅ h
  /\ (forall cid m, (pop_connection h cid).2 = Some m -> str_len (render m) <= Z.max max_bytes 1)
  /\ (forall cid slot s, h_subscriptions (close_connection h cid) !! slot = Some s ->
         k_connection_id (s_key s) <> cid)
  /\ (let h' := shutdown h in
      h_connections h' = ∅ /\ h_slots h' = ∅ /\ h_subscriptions h' = ∅ /\ h_index h' = ∅).
Proof.
  intros h. destruct (hub_run_inv actions (hub_new max_buffered max_bytes)) as [Hinv Hmax];
    [apply hub_new_inv|done|done|]. fold h in Hinv, Hmax. cbn [hub_new h_max_outbound_bytes] in Hmax.
  split; [done|]. split; [|split].
  - intros cid m. unfold pop_connection. destruct (h_connections h !! cid) as [c|] eqn:Hc; [|done].
    destruct (inv_queues _ _ Hinv _ _ Hc) as [_ Hall]. rewrite Hmax in Hall. unfold pop.
    destruct (q_items (c_outbound c)) as [|m' items]; [done|]. intros [= <-].
    apply Forall_cons in Hall as [Hm _]. by rewrite render_len.
  - intros cid slot s Hs. destruct (close_connection_inv h cid Hinv) as ([I1 I2 I3 _ _ _ _] & _ & Hc).
    destruct (I2 _ _ Hs) as [Hslot _]. intros <-.
    destruct (proj1 (I3 (s_key s))) as [Hp|(c & Hx & _)]; [by exists slot|by apply elem_of_empty in Hp|].
    by rewrite Hc, lookup_delete_eq in Hx.
  - destruct (shutdown_empty h Hinv) as [H1 H2]. split; [done|]. by apply no_connections_empty.
Qed.

End commands.

Definition toy_actions : list HubAction := Command <$> toy_commands.

Lemma hub_tables_agree_witness :
  let h := @hub_run toy_unicode toy_json (hub_new 8 64) toy_actions in
  len toy_actions < 2 ^ 64 /\ hub_inv ∅ h /\ h_slots h !! mkKey 1 "sub" = Some 0
  /\ h_slots (shutdown h) = ∅.
Proof.
  intros h. assert (Hlen : len toy_actions < 2 ^ 64) by (vm_compute; reflexivity).
  destruct (@hub_tables_agree toy_unicode toy_json 8 64 toy_actions Hlen) as (Hinv & _ & _ & _ & Hslots & _).
  split; [exact Hlen|]. split; [exact Hinv|]. split; [vm_compute; reflexivity|exact Hslots].
Defined.
