(* ===== verification/HubDelivery.v ===== *)
(** * HubDelivery: what publishing an event does

    Fan-out through the index equals a scan of every subscription; a publish
    changes each subscription and each queue exactly as its filters, its
    readers and its state say. *)

From S2P Require Import Prelude Text Event Filter Outbound Hub HubCorrect.

(** ** Sorted slot lists *)

Lemma dedup_elem l x : x ∈ dedup l <-> x ∈ l.
Proof.
  induction l as [|y l IH]; [done|]. cbn [dedup]. destruct l as [|z l]; [done|].
  destruct (Z.eqb_spec y z) as [->|Hne].
  - rewrite IH, !elem_of_cons. tauto.
  - rewrite elem_of_cons, IH, !elem_of_cons. tauto.
Qed.

Lemma dedup_sorted l : StronglySorted Z.le l -> StronglySorted Z.lt (dedup l).
Proof.
  induction l as [|y l IH]; intros Hl; [constructor|]. cbn [dedup].
  apply StronglySorted_inv in Hl as [Hl Hy]. specialize (IH Hl).
  destruct l as [|z l]; [by repeat constructor|]. destruct (Z.eqb_spec y z) as [->|Hne]; [done|].
  constructor; [done|]. apply Forall_forall. intros x Hx. rewrite dedup_elem in Hx.
  apply Forall_cons in Hy as [Hyz Hy]. apply StronglySorted_inv in Hl as [_ Hz].
  apply elem_of_cons in Hx as [->|Hx]; [lia|]. rewrite Forall_forall in Hz. specialize (Hz _ Hx). lia.
Qed.

Lemma lt_sorted_NoDup l : StronglySorted Z.lt l -> NoDup l.
Proof.
  induction 1 as [|x l Hl IH Hx]; [constructor|]. constructor; [|done].
  intros Hin. rewrite Forall_forall in Hx. specialize (Hx _ Hin). lia.
Qed.

Lemma lt_sorted_ext l k :
  StronglySorted Z.lt l -> StronglySorted Z.lt k -> (forall x, x ∈ l <-> x ∈ k) -> l = k.
Proof.
  intros Hl Hk Hlk. apply (StronglySorted_unique_strong Z.lt); [|done|done|].
  - intros x y _ _ ? ?. lia.
  - by apply NoDup_Permutation; [apply lt_sorted_NoDup..|].
Qed.

(** Every slot, in order: the reference for the index. *)
Definition all_slots (h : Hub) : list Z := merge_sort Z.le (elements (dom (h_subscriptions h))).

Lemma all_slots_spec h :
  StronglySorted Z.lt (all_slots h) /\ forall slot, slot ∈ all_slots h <-> is_Some (h_subscriptions h !! slot).
Proof.
  assert (Hel : forall slot, slot ∈ all_slots h <-> is_Some (h_subscriptions h !! slot)).
  { intros slot. unfold all_slots. rewrite merge_sort_Permutation, elem_of_elements. apply elem_of_dom. }
  split; [|done]. assert (Hnd : NoDup (all_slots h))
    by (unfold all_slots; rewrite merge_sort_Permutation; apply NoDup_elements).
  assert (Hs : StronglySorted Z.le (all_slots h)) by (apply (StronglySorted_merge_sort Z.le)).
  clear Hel. revert Hnd Hs. generalize (all_slots h). intros l. induction l as [|x l IH]; [constructor|].
  intros [Hx Hnd]%NoDup_cons [Hs Hle]%StronglySorted_inv. constructor; [by apply IH|].
  rewrite Forall_forall in *. intros y Hy. specialize (Hle _ Hy). assert (x <> y) by congruence. lia.
Qed.

(** ** What closing removes *)

Lemma remove_subscription_lookup pending h key slot s :
  hub_inv pending h ->
  h_subscriptions (remove_subscription h key) !! slot = Some s
  <-> h_subscriptions h !! slot = Some s /\ s_key s <> key.
Proof.
  intros Hinv. unfold remove_subscription. destruct (h_slots h !! key) as [x|] eqn:Hslot.
  - destruct (inv_slots _ _ Hinv _ _ Hslot) as (sx & Hx & Hkey). rewrite Hx. cbn.
    rewrite lookup_delete_Some. split; intros [H1 H2]; split; try done.
    + intros Hk. destruct (inv_subs _ _ Hinv _ _ H2) as [Hs _]. congruence.
    + intros <-. congruence.
  - split; [|tauto]. intros Hs. split; [done|]. intros Hk.
    destruct (inv_subs _ _ Hinv _ _ Hs) as [Hs' _]. congruence.
Qed.

Lemma remove_all_lookup cid sids pending h slot s :
  hub_inv pending h ->
  h_subscriptions (fold_left (fun h sid => remove_subscription h (mkKey cid sid)) sids h) !! slot = Some s
  <-> h_subscriptions h !! slot = Some s /\ s_key s ∉ mkKey cid <$> sids.
Proof.
  revert pending h. induction sids as [|sid sids IH]; intros pending h Hinv; cbn [fold_left].
  - split; [|tauto]. intros Hs. split; [done|]. apply not_elem_of_nil.
  - destruct (remove_subscription_inv pending h (mkKey cid sid) Hinv) as [Hinv' _].
    rewrite (IH _ _ Hinv'), (remove_subscription_lookup _ _ _ _ _ Hinv). rewrite fmap_cons, not_elem_of_cons. tauto.
Qed.

Lemma close_connection_lookup h cid slot s :
  hub_inv ∅ h ->
  h_subscriptions (close_connection h cid) !! slot = Some s
  <-> h_subscriptions h !! slot = Some s /\ k_connection_id (s_key s) <> cid.
Proof.
  intros Hinv. assert (Hlisted : forall c, h_connections h !! cid = Some c ->
    h_subscriptions h !! slot = Some s ->
    k_connection_id (s_key s) = cid <-> s_key s ∈ mkKey cid <$> elements (c_subscriptions c)).
  { intros c Hc Hs. destruct (inv_subs _ _ Hinv _ _ Hs) as [Hslot _]. split.
    - intros <-. destruct (proj1 (inv_connections _ _ Hinv (s_key s))) as [Hp|(c' & Hc' & Hin)];
        [by eexists|by apply elem_of_empty in Hp|]. replace c' with c in Hin by congruence.
      apply list_elem_of_fmap. exists (k_subscription_id (s_key s)).
      split; [by destruct (s_key s)|by apply elem_of_elements].
    - intros (sid & -> & _)%list_elem_of_fmap. done. }
  destruct (h_connections h !! cid) as [c|] eqn:Hc.
  - unfold close_connection. rewrite Hc.
    rewrite (remove_all_lookup cid _ (list_to_set (mkKey cid <$> elements (c_subscriptions c)))).
    + cbn. specialize (Hlisted c eq_refl). naive_solver.
    + by apply detach_inv.
  - unfold close_connection. rewrite Hc. split; [|tauto]. intros Hs. split; [done|]. intros <-.
    destruct (inv_subs _ _ Hinv _ _ Hs) as [Hslot _].
    destruct (proj1 (inv_connections _ _ Hinv (s_key s))) as [Hp|(c' & Hc' & Hin)];
      [by eexists|by apply elem_of_empty in Hp|congruence].
Qed.

Lemma close_connections_lookup cids h slot s :
  hub_inv ∅ h ->
  h_subscriptions (fold_left close_connection cids h) !! slot = Some s
  <-> h_subscriptions h !! slot = Some s /\ k_connection_id (s_key s) ∉ cids.
Proof.
  revert h. induction cids as [|cid cids IH]; intros h Hinv; cbn [fold_left].
  - split; [|tauto]. intros Hs. split; [done|]. apply not_elem_of_nil.
  - rewrite IH by by apply close_connection_inv. rewrite close_connection_lookup, not_elem_of_cons by done. tauto.
Qed.

Section delivery.
Context `{Unicode, SerdeJson}.

(** ** The index finds every match *)

Lemma filter_index_complete f e :
  filter_matches f e = true -> exists k, k ∈ filter_index_keys f /\ k ∈ event_index_keys e.
Proof.
  unfold filter_matches, list_matches. rewrite !andb_true_iff, map_all_spec.
  intros ((((((Hid & Hau) & Hki) & _) & _) & Htag) & _). unfold filter_index_keys, event_index_keys.
  setoid_rewrite elem_of_list_to_set.
  destruct (f_ids f) as [ids|] eqn:Ei; cbn [is_none_or from_option fmap] in *.
  { apply mem_spec in Hid. exists (IKId (ev_id e)). cbn. set_solver. }
  destruct (f_authors f) as [authors|] eqn:Ea; cbn [is_none_or from_option fmap] in *.
  { apply mem_spec in Hau. exists (IKAuthor (ev_pubkey e)). cbn. set_solver. }
  destruct (f_kinds f) as [kinds|] eqn:Ek; cbn [is_none_or from_option fmap] in *.
  { apply mem_spec in Hki. exists (IKKind (ev_kind e)). cbn. set_solver. }
  cbn [app]. destruct (decide (f_tags f = ∅)) as [Ht|Ht].
  - exists IKBroad. rewrite !bool_decide_eq_false_2, bool_decide_eq_true_2 by (done || intros []; done).
    cbn. set_solver.
  - apply map_choose in Ht as (name & values & Hnv).
    destruct (proj1 (tag_selector_spec _ _ _) (Htag name values Hnv)) as (v & Hv & Hin).
    exists (IKTag name v). split.
    + assert (Hmem : IKTag name v ∈ (map_to_list (f_tags f) ≫= fun kv => IKTag kv.1 <$> kv.2)).
      { apply list_elem_of_bind. exists (name, values). split; [cbn; set_solver|by apply elem_of_map_to_list]. }
      destruct (_ || _); [done|]. apply elem_of_app. by left.
    + do 4 apply list_elem_of_further. apply list_elem_of_fmap. by exists (name, v).
Qed.

Lemma subscription_index_complete filters e :
  matches_any filters e = true ->
  exists k, k ∈ subscription_index_keys filters /\ k ∈ event_index_keys e.
Proof.
  unfold matches_any. rewrite existsb_exists. intros (f & Hin & Hf).
  destruct (filter_index_complete f e Hf) as (k & Hk & He). exists k. split; [|done].
  unfold subscription_index_keys. rewrite elem_of_list_to_set, list_elem_of_bind.
  exists f. split; [done|]. by apply list_elem_of_In.
Qed.

Lemma candidates_spec h e :
  StronglySorted Z.lt (candidates h e)
  /\ forall slot, slot ∈ candidates h e
       <-> exists k, k ∈ event_index_keys e /\ slot ∈ default ∅ (h_index h !! k).
Proof.
  unfold candidates. split.
  - apply dedup_sorted, (StronglySorted_merge_sort Z.le).
  - intros slot. rewrite dedup_elem, merge_sort_Permutation, list_elem_of_bind.
    setoid_rewrite elem_of_elements. split; intros (k & H1 & H2); exists k; split; try done.
    + destruct (h_index h !! k); cbn in *; [by apply elem_of_elements|by apply elem_of_nil in H1].
    + destruct (h_index h !! k); cbn in *; [by apply elem_of_elements|by apply elem_of_empty in H2].
Qed.

(** ** One publish *)

(** What a subscription sees of an event, the state it moves to, and whether
    the event is sent to it at once or does not fit its buffer. *)
Definition sees (p : PublishedEvent) (s : Subscription) : bool :=
  matches_any (s_filters s) (pe_event p) && event_visible_to_reader (pe_event p) (s_read_pubkeys s).
Definition outcome (max : Z) (p : PublishedEvent) (s : Subscription) : SubscriptionState * Delivery :=
  if sees p s then state_publish max (s_state s) p else (s_state s, NotNow).
Definition live_message (p : PublishedEvent) (s : Subscription) : Outbound :=
  OutEvent (s_json s) (json_event (pe_event p)) (bool_decide (pe_ingest_seq p = None)).

(** The messages for one connection, in slot order. *)
Definition slot_messages (h : Hub) (p : PublishedEvent) (cid slot : Z) : list Outbound :=
  match h_subscriptions h !! slot with
  | Some s => if bool_decide (k_connection_id (s_key s) = cid) then
                match (outcome (h_max_buffered_live h) p s).2 with Deliver => [live_message p s] | _ => [] end
              else []
  | None => []
  end.
Definition conn_messages (h : Hub) (p : PublishedEvent) (cid : Z) (slots : list Z) : list Outbound :=
  slots ≫= slot_messages h p cid.

(** A stored event that a full buffer cannot take. *)
Definition buffer_overflow (h : Hub) (p : PublishedEvent) (cid : Z) (slots : list Z) : Prop :=
  exists slot s, slot ∈ slots /\ h_subscriptions h !! slot = Some s /\ k_connection_id (s_key s) = cid
    /\ (outcome (h_max_buffered_live h) p s).2 = Overflowed.

(** Offering messages in turn. *)
Definition offers (q : OutboundQueue) (ms : list Outbound) : OutboundQueue :=
  fold_left (fun q m => (offer q m).1) ms q.
Fixpoint accepts (max_bytes : Z) (q : OutboundQueue) (ms : list Outbound) : bool :=
  match ms with
  | [] => true
  | m :: ms' => (outbound_len m <=? max_bytes) && negb (bool_decide ((offer q m).2 = Full))
                && accepts max_bytes (offer q m).1 ms'
  end.

Lemma accepts_app max_bytes q l k :
  accepts max_bytes q (l ++ k) = accepts max_bytes q l && accepts max_bytes (offers q l) k.
Proof.
  revert q. induction l as [|m l IH]; intros q; cbn; [done|]. rewrite IH. by rewrite andb_assoc.
Qed.

Lemma offers_app q l k : offers q (l ++ k) = offers (offers q l) k.
Proof. apply fold_left_app. Qed.

(** The effect of delivering to [slots]: [o] and [o'] are the connections to
    close before and after. *)
Record published (p : PublishedEvent) (slots : list Z) (h : Hub) (o : gset Z) (h' : Hub) (o' : gset Z)
    : Prop := {
  pub_subscriptions slot : h_subscriptions h' !! slot
    = (fun s => if decide (slot ∈ slots)
                then with_state s (outcome (h_max_buffered_live h) p s).1 else s) <$> h_subscriptions h !! slot;
  pub_queues cid : cid ∉ o' -> h_connections h' !! cid
    = (fun c => mkSink (offers (c_outbound c) (conn_messages h p cid slots)) (c_subscriptions c))
        <$> h_connections h !! cid;
  pub_open cid : is_Some (h_connections h' !! cid) <-> is_Some (h_connections h !! cid);
  pub_overflow cid : cid ∈ o'
    <-> cid ∈ o \/ buffer_overflow h p cid slots
        \/ exists c, h_connections h !! cid = Some c
             /\ accepts (h_max_outbound_bytes h) (c_outbound c) (conn_messages h p cid slots) = false;
  pub_kept : kept h h';
}.

Lemma with_state_id s : with_state s (s_state s) = s.
Proof. by destruct s. Qed.

Lemma conn_messages_one h p cid slot : conn_messages h p cid [slot] = slot_messages h p cid slot.
Proof. unfold conn_messages. cbn. apply app_nil_r. Qed.

Lemma publish_one_ignored p h o slot :
  (forall s, h_subscriptions h !! slot = Some s ->
     (outcome (h_max_buffered_live h) p s) = (s_state s, NotNow)) ->
  published p [slot] h o h o.
Proof.
  intros Hs. assert (Hm : forall cid, conn_messages h p cid [slot] = []).
  { intros cid. rewrite conn_messages_one. unfold slot_messages.
    destruct (h_subscriptions h !! slot) as [s|]; [|done]. rewrite (Hs s eq_refl). by case_bool_decide. }
  split; try done.
  - intros x. destruct (h_subscriptions h !! x) as [s|] eqn:Hx; [|done]. cbn. case_decide as Hin; [|done].
    apply list_elem_of_singleton in Hin as ->. by rewrite (Hs s Hx), with_state_id.
  - intros cid _. rewrite Hm. destruct (h_connections h !! cid) as [[]|]; done.
  - intros cid. rewrite Hm. split; [by left|]. intros [?|[(x & s & Hx & Hs' & _ & Ho)|(c & _ & Hc)]]; [done| |done].
    apply list_elem_of_singleton in Hx as ->. by rewrite (Hs s Hs') in Ho.
Qed.

(** The subscriptions of a step that only sets the state of one slot. *)
Lemma set_state_lookup h slot s state (x : Z) :
  h_subscriptions h !! slot = Some s ->
  <[slot := with_state s state]> (h_subscriptions h) !! x
  = (fun s' => if decide (x ∈ [slot]) then with_state s' state else s') <$> h_subscriptions h !! x.
Proof.
  intros Hs. destruct (decide (x = slot)) as [->|Hne].
  - rewrite lookup_insert_eq, Hs. cbn. by rewrite decide_True by by apply list_elem_of_singleton.
  - rewrite lookup_insert_ne by done. destruct (h_subscriptions h !! x); [|done]. cbn.
    by rewrite decide_False by by rewrite list_elem_of_singleton.
Qed.

Lemma slot_subscriptions p h slot s (x : Z) :
  h_subscriptions h !! slot = Some s ->
  <[slot := with_state s (outcome (h_max_buffered_live h) p s).1]> (h_subscriptions h) !! x
  = (fun s' => if decide (x ∈ [slot]) then with_state s' (outcome (h_max_buffered_live h) p s').1 else s')
      <$> h_subscriptions h !! x.
Proof.
  intros Hs. rewrite (set_state_lookup h slot s) by done.
  destruct (h_subscriptions h !! x) as [s'|] eqn:Hx; [|done]. cbn. case_decide as Hin; [|done].
  apply list_elem_of_singleton in Hin as ->. congruence.
Qed.

Lemma sink_id c : mkSink (c_outbound c) (c_subscriptions c) = c.
Proof. by destruct c. Qed.

(** A step that sends nothing: [o'] records the overflow, if any. *)
Lemma publish_one_silent p h o slot s o' :
  h_subscriptions h !! slot = Some s ->
  (forall cid, cid ∈ o' <-> cid ∈ o \/ buffer_overflow h p cid [slot]) ->
  (forall cid c, cid ∉ o' -> h_connections h !! cid = Some c -> slot_messages h p cid slot = []) ->
  (forall cid c, cid ∉ o -> h_connections h !! cid = Some c ->
     accepts (h_max_outbound_bytes h) (c_outbound c) (slot_messages h p cid slot) = true) ->
  published p [slot] h o
    (set_subscriptions h (<[slot := with_state s (outcome (h_max_buffered_live h) p s).1]> (h_subscriptions h))) o'.
Proof.
  intros Hs Ho Hm Ha. split; cbn [set_subscriptions h_subscriptions h_connections]; try done.
  - intros x. by apply slot_subscriptions.
  - intros cid Hcid. rewrite conn_messages_one. destruct (h_connections h !! cid) as [c|] eqn:Hc; [|done].
    rewrite (Hm cid c) by done. cbn. by rewrite sink_id.
  - intros cid. rewrite Ho, conn_messages_one. split; [tauto|].
    intros [?|[?|(c & Hc & Hacc)]]; [tauto|tauto|]. destruct (decide (cid ∈ o)) as [?|Hn]; [tauto|].
    by rewrite (Ha cid c Hn Hc) in Hacc.
Qed.

Lemma buffer_overflow_one h p cid slot s :
  h_subscriptions h !! slot = Some s ->
  buffer_overflow h p cid [slot]
  <-> k_connection_id (s_key s) = cid /\ (outcome (h_max_buffered_live h) p s).2 = Overflowed.
Proof.
  intros Hs. split.
  - intros (x & s' & Hx & Hs' & Hk & Ho). apply list_elem_of_singleton in Hx as ->. naive_solver.
  - intros [Hk Ho]. exists slot, s. by rewrite list_elem_of_singleton.
Qed.

Lemma slot_messages_some h p cid slot s :
  h_subscriptions h !! slot = Some s ->
  slot_messages h p cid slot
  = if bool_decide (k_connection_id (s_key s) = cid) then
      match (outcome (h_max_buffered_live h) p s).2 with Deliver => [live_message p s] | _ => [] end else [].
Proof. unfold slot_messages. by intros ->. Qed.

(** A step that offers the event to its connection's queue. *)
Lemma deliver_published p h o slot s :
  h_subscriptions h !! slot = Some s -> (outcome (h_max_buffered_live h) p s).2 = Deliver ->
  k_connection_id (s_key s) ∉ o ->
  let h1 := set_subscriptions h (<[slot := with_state s (outcome (h_max_buffered_live h) p s).1]> (h_subscriptions h)) in
  let '(h2, o2) := deliver h1 (k_connection_id (s_key s)) (live_message p s) o in
  published p [slot] h o h2 o2.
Proof.
  intros Hs Hd Hno h1. set (cid := k_connection_id (s_key s)) in *. set (m := live_message p s).
  assert (Hover : forall x, ~ buffer_overflow h p x [slot])
    by (intros x; rewrite (buffer_overflow_one _ _ _ _ _ Hs), Hd; naive_solver).
  assert (Hmsg : forall x, slot_messages h p x slot = if bool_decide (cid = x) then [m] else [])
    by (intros x; by rewrite (slot_messages_some _ _ _ _ _ Hs), Hd).
  unfold deliver. change (h_connections h1) with (h_connections h).
  change (h_max_outbound_bytes h1) with (h_max_outbound_bytes h).
  destruct (h_connections h !! cid) as [c|] eqn:Hc.
  2:{ apply publish_one_silent; [done|intros x; specialize (Hover x); tauto| |];
        intros x cx Hx Hcx; rewrite Hmsg; by rewrite bool_decide_eq_false_2 by congruence. }
  destruct (Z.ltb_spec (h_max_outbound_bytes h) (outbound_len m)) as [Hbig|Hfit].
  - split; cbn [h1 set_subscriptions h_subscriptions h_connections]; try done.
    + intros x. by apply slot_subscriptions.
    + intros x Hx. rewrite conn_messages_one, Hmsg, bool_decide_eq_false_2 by set_solver.
      destruct (h_connections h !! x) as [cx|]; [|done]. cbn. by rewrite sink_id.
    + intros x. rewrite elem_of_union, elem_of_singleton, conn_messages_one, Hmsg. split.
      * intros [->|?]; [|by left]. right; right. exists c. split; [done|].
        rewrite bool_decide_eq_true_2 by done. cbn [accepts]. by rewrite (proj2 (Z.leb_gt _ _) Hbig).
      * intros [?|[Hb|(cx & Hcx & Hacc)]]; [by right|by apply Hover in Hb|left].
        case_bool_decide; [done|done].
  - unfold enqueue. destruct (offer (c_outbound c) m) as [q out] eqn:Hoff.
    assert (Hacc : accepts (h_max_outbound_bytes h) (c_outbound c) [m] = negb (bool_decide (out = Full))).
    { cbn [accepts]. rewrite (proj2 (Z.leb_le _ _) Hfit), Hoff. cbn [fst snd andb]. by rewrite andb_true_r. }
    split; cbn [h1 set_connections set_subscriptions h_subscriptions h_connections]; try done.
    + intros x. by apply slot_subscriptions.
    + intros x _. rewrite conn_messages_one, Hmsg. destruct (decide (cid = x)) as [<-|Hne].
      * rewrite lookup_insert_eq, Hc, bool_decide_eq_true_2 by done. unfold offers. cbn. by rewrite Hoff.
      * rewrite lookup_insert_ne, bool_decide_eq_false_2 by done.
        destruct (h_connections h !! x) as [cx|]; [|done]. cbn. by rewrite sink_id.
    + intros x. destruct (decide (cid = x)) as [<-|Hne];
        [rewrite lookup_insert_eq, Hc; split; by eexists|by rewrite lookup_insert_ne].
    + intros x. assert (Hin : x ∈ (if bool_decide (out = Full) then {[cid]} ∪ o else o)
                          <-> x ∈ o \/ (out = Full /\ x = cid)) by (case_bool_decide; set_solver).
      rewrite Hin, conn_messages_one, Hmsg. clear Hin. split.
      * intros [?|[-> ->]]; [by left|]. right; right. exists c. split; [done|].
        by rewrite bool_decide_eq_true_2, Hacc by done.
      * intros [?|[Hb|(cx & Hcx & Hfull)]]; [by left|by apply Hover in Hb|].
        case_bool_decide as Hx; [subst x|done]. replace cx with c in Hfull by congruence.
        rewrite Hacc in Hfull. case_bool_decide; [by right|done].
Qed.

Lemma publish_one_spec p h o slot :
  let '(h', o') := publish_one p (h, o) slot in published p [slot] h o h' o'.
Proof.
  unfold publish_one. destruct (h_subscriptions h !! slot) as [s|] eqn:Hs.
  2:{ apply publish_one_ignored. intros s Hx. congruence. }
  destruct (sees p s) eqn:Hsees.
  2:{ assert (Hign : published p [slot] h o h o).
      { apply publish_one_ignored. intros s' Hx. replace s' with s by congruence. unfold outcome. by rewrite Hsees. }
      unfold sees in Hsees. destruct (matches_any _ _); cbn [negb]; [|done]. by destruct (event_visible_to_reader _ _). }
  pose proof Hsees as Hboth. unfold sees in Hboth. apply andb_true_iff in Hboth as [-> ->]. cbn [negb].
  assert (Hout : outcome (h_max_buffered_live h) p s = state_publish (h_max_buffered_live h) (s_state s) p)
    by (unfold outcome; by rewrite Hsees).
  destruct (state_publish _ _ _) as [state delivery] eqn:Hsp.
  assert (Hst : state = (outcome (h_max_buffered_live h) p s).1) by by rewrite Hout.
  assert (Hde : delivery = (outcome (h_max_buffered_live h) p s).2) by by rewrite Hout.
  clear Hsp Hout. rewrite Hst. clear Hst state.
  assert (Hover : forall x, buffer_overflow h p x [slot] <-> k_connection_id (s_key s) = x /\ delivery = Overflowed)
    by (intros x; by rewrite (buffer_overflow_one _ _ _ _ _ Hs), Hde).
  assert (Hmsg : forall x, delivery <> Deliver \/ k_connection_id (s_key s) <> x -> slot_messages h p x slot = []).
  { intros x Hx. rewrite (slot_messages_some _ _ _ _ _ Hs), <- Hde. case_bool_decide; [|done].
    destruct Hx; [by destruct delivery|done]. }
  destruct delivery.
  - apply publish_one_silent; [done| | |]; intros; rewrite ?Hover, ?Hmsg by (by left); naive_solver.
  - apply publish_one_silent; [done| | |]; intros; rewrite ?Hover, ?Hmsg by (by left); set_solver.
  - case_bool_decide as Hin; [|by apply deliver_published].
    apply publish_one_silent; [done|intros x; rewrite Hover; naive_solver| |];
      intros x c Hx _; by rewrite Hmsg by (right; congruence).
Qed.

(** ** A run over the slots *)

Lemma published_nil p h o : published p [] h o h o.
Proof.
  split; try done.
  - intros x. by destruct (h_subscriptions h !! x).
  - intros cid _. cbn. destruct (h_connections h !! cid) as [[]|]; done.
  - intros cid. split; [by left|]. intros [?|[(x & s & Hx & _)|(c & _ & Hc)]]; [done| |done].
    by apply elem_of_nil in Hx.
Qed.

(** What a slot receives depends only on its subscription. *)
Lemma published_elsewhere p slot slots h o h1 o1 :
  published p [slot] h o h1 o1 -> slot ∉ slots ->
  (forall x, x ∈ slots -> h_subscriptions h1 !! x = h_subscriptions h !! x)
  /\ (forall cid, conn_messages h1 p cid slots = conn_messages h p cid slots)
  /\ (forall cid, buffer_overflow h1 p cid slots <-> buffer_overflow h p cid slots).
Proof.
  intros [Hsub _ _ _ (_ & _ & Hk)] Hnin.
  assert (Hsame : forall x, x ∈ slots -> h_subscriptions h1 !! x = h_subscriptions h !! x).
  { intros x Hx. rewrite Hsub. destruct (h_subscriptions h !! x); [|done]. cbn. rewrite decide_False; [done|].
    rewrite list_elem_of_singleton. congruence. }
  split; [done|]. split.
  - intros cid. clear Hnin. induction slots as [|x slots IH]; [done|]. unfold conn_messages in *.
    change (slot_messages h1 p cid x ++ (slots ≫= slot_messages h1 p cid)
            = slot_messages h p cid x ++ (slots ≫= slot_messages h p cid)).
    rewrite IH by (intros y Hy; apply Hsame; by apply list_elem_of_further).
    unfold slot_messages at 1. rewrite Hsame, Hk by apply list_elem_of_here. done.
  - intros cid. unfold buffer_overflow. rewrite Hk.
    split; intros (x & s & Hx & Hs & Hr); exists x, s; rewrite Hsame in * by done; done.
Qed.

Lemma buffer_overflow_cons h p cid slot slots :
  buffer_overflow h p cid (slot :: slots) <-> buffer_overflow h p cid [slot] \/ buffer_overflow h p cid slots.
Proof.
  unfold buffer_overflow. setoid_rewrite elem_of_cons. setoid_rewrite elem_of_nil. naive_solver.
Qed.

Lemma published_cons p slot slots h o h1 o1 h2 o2 :
  published p [slot] h o h1 o1 -> published p slots h1 o1 h2 o2 -> slot ∉ slots ->
  published p (slot :: slots) h o h2 o2.
Proof.
  intros H1 H2 Hnin. destruct (published_elsewhere _ _ _ _ _ _ _ H1 Hnin) as (_ & Hmsg & Hover).
  destruct H1 as [Hs1 Hq1 Ho1 Hv1 Hk1], H2 as [Hs2 Hq2 Ho2 Hv2 Hk2].
  assert (Hcons : forall cid, conn_messages h p cid (slot :: slots)
            = conn_messages h p cid [slot] ++ conn_messages h p cid slots)
    by (intros cid; rewrite conn_messages_one; done).
  assert (Hsub : forall cid, cid ∉ o2 -> cid ∉ o1) by (intros cid Hc Hc1; apply Hc, Hv2; by left).
  destruct (Hk1) as (_ & Hk1b & Hk1l). split.
  - intros x. rewrite Hs2, Hs1, Hk1l. destruct (h_subscriptions h !! x) as [s|]; [|done]. cbn. f_equal.
    destruct (decide (x = slot)) as [->|Hne].
    + rewrite decide_False by done. by rewrite !decide_True by set_solver.
    + rewrite (decide_False (P := x ∈ [slot])) by set_solver. do 2 case_decide; try done; set_solver.
  - intros cid Hcid. rewrite Hq2, Hq1, Hmsg, Hcons by auto.
    destruct (h_connections h !! cid) as [c|]; [|done].
    cbn [fmap option_fmap option_map c_outbound c_subscriptions]. by rewrite offers_app.
  - intros cid. by rewrite Ho2, Ho1.
  - intros cid. rewrite Hv2, Hmsg, Hover, buffer_overflow_cons, Hcons, Hk1b.
    destruct (decide (cid ∈ o1)) as [Hin|Hout].
    + split; [intros _|by left]. apply Hv1 in Hin as [?|[?|(c & Hc & Ha)]]; [by left|tauto|].
      right; right. exists c. split; [done|]. by rewrite accepts_app, Ha.
    + pose proof (Hq1 cid Hout) as Hq. rewrite Hq. pose proof Hout as Hno. rewrite Hv1 in Hno.
      destruct (h_connections h !! cid) as [c|]; cbn [fmap option_fmap option_map].
      * assert (Hacc : accepts (h_max_outbound_bytes h) (c_outbound c) (conn_messages h p cid [slot]) = true).
        { apply not_false_iff_true. intros Ha. apply Hno. right; right. by exists c. }
        setoid_rewrite accepts_app. split.
        -- intros [?|[?|(c' & [= <-] & Ha)]]; [tauto|tauto|]. right; right. exists c. by rewrite Hacc.
        -- intros [?|[[?|?]|(c' & [= <-] & Ha)]]; [tauto|tauto|tauto|]. right; right. eexists. split; [done|].
           by rewrite Hacc in Ha.
      * split; [intros [?|[?|(c' & Hc' & _)]]; [tauto|tauto|done]|].
        intros [?|[[?|?]|(c' & Hc' & _)]]; [tauto|tauto|tauto|done].
  - by etrans.
Qed.

Lemma publish_fold p slots h o :
  NoDup slots ->
  let '(h', o') := fold_left (publish_one p) slots (h, o) in published p slots h o h' o'.
Proof.
  intros Hnd. revert h o. induction Hnd as [|slot slots Hnin Hnd IH]; intros h o; cbn [fold_left].
  { apply published_nil. }
  pose proof (publish_one_spec p h o slot) as H1. destruct (publish_one p (h, o) slot) as [h1 o1].
  specialize (IH h1 o1). destruct (fold_left _ slots _) as [h2 o2]. by eapply published_cons.
Qed.

(** ** Fan-out through the index is fan-out to every subscription *)

Lemma publish_one_skip p h o slot :
  (forall s, h_subscriptions h !! slot = Some s -> matches_any (s_filters s) (pe_event p) = false) ->
  publish_one p (h, o) slot = (h, o).
Proof.
  intros Hs. unfold publish_one. destruct (h_subscriptions h !! slot) as [s|]; [|done]. by rewrite Hs.
Qed.

Definition relevant (h : Hub) (p : PublishedEvent) (slot : Z) : bool :=
  match h_subscriptions h !! slot with
  | Some s => matches_any (s_filters s) (pe_event p) | None => false end.

Lemma publish_one_relevant p h o slot x :
  relevant (publish_one p (h, o) slot).1 p x = relevant h p x.
Proof.
  pose proof (publish_one_spec p h o slot) as Hs. destruct (publish_one p (h, o) slot) as [h1 o1].
  unfold relevant. cbn [fst]. rewrite (pub_subscriptions _ _ _ _ _ _ Hs).
  destruct (h_subscriptions h !! x); [|done]. cbn. by case_decide.
Qed.

Lemma publish_fold_relevant p slots h o :
  fold_left (publish_one p) slots (h, o) = fold_left (publish_one p) (List.filter (relevant h p) slots) (h, o).
Proof.
  revert h o. induction slots as [|slot slots IH]; intros h o; [done|].
  cbn [fold_left List.filter]. destruct (relevant h p slot) eqn:Hr; cbn [fold_left].
  - pose proof (publish_one_relevant p h o slot) as Hrel.
    destruct (publish_one p (h, o) slot) as [h1 o1]. rewrite IH. f_equal. by apply List.filter_ext.
  - rewrite publish_one_skip; [apply IH|]. intros s Hs. unfold relevant in Hr. by rewrite Hs in Hr.
Qed.

Lemma fan_out_indexed h p :
  hub_inv ∅ h -> fan_out h p (candidates h (pe_event p)) = fan_out h p (all_slots h).
Proof.
  intros Hinv. unfold fan_out. rewrite publish_fold_relevant, (publish_fold_relevant p (all_slots h)).
  destruct (candidates_spec h (pe_event p)) as [Hs1 He1], (all_slots_spec h) as [Hs2 He2].
  rewrite (lt_sorted_ext (List.filter (relevant h p) (candidates h (pe_event p)))
             (List.filter (relevant h p) (all_slots h))); [done|by apply StronglySorted_bfilter..|].
  intros slot. rewrite !elem_of_bfilter, He1, He2. unfold relevant.
  destruct (h_subscriptions h !! slot) as [s|] eqn:Hs; [|naive_solver].
  split; (intros [Hin Hm]; split; [|done]); [by eexists|].
  destruct (subscription_index_complete _ _ Hm) as (k & Hk & He). exists k. split; [done|].
  apply (inv_index _ _ Hinv). exists s. split; [done|]. destruct (inv_subs _ _ Hinv _ _ Hs) as (_ & _ & ->). done.
Qed.

(** ** Publishing *)

(** The event is not passed on: an authentication event, an expired one, or
    a repeated ephemeral id. *)
Definition publish_dropped (h : Hub) (p : PublishedEvent) (now instant : Z) : bool :=
  (ev_kind (pe_event p) =? 22242) || is_expired (pe_event p) now
  || match pe_ingest_seq p with
     | None => negb (accept_ephemeral_id h (ev_id (pe_event p)) instant).2 | Some _ => false end.

Lemma fan_out_spec h p slots :
  hub_inv ∅ h -> NoDup slots ->
  (forall cid c, h_connections h !! cid = Some c ->
     buffer_overflow h p cid slots
       \/ accepts (h_max_outbound_bytes h) (c_outbound c) (conn_messages h p cid slots) = false ->
     h_connections (fan_out h p slots) !! cid = None)
  /\ (forall cid c, h_connections h !! cid = Some c -> ~ buffer_overflow h p cid slots ->
     accepts (h_max_outbound_bytes h) (c_outbound c) (conn_messages h p cid slots) = true ->
     h_connections (fan_out h p slots) !! cid
     = Some (mkSink (offers (c_outbound c) (conn_messages h p cid slots)) (c_subscriptions c)))
  /\ (forall slot s', h_subscriptions (fan_out h p slots) !! slot = Some s'
       <-> exists s, h_subscriptions h !! slot = Some s
             /\ s' = (if decide (slot ∈ slots) then with_state s (outcome (h_max_buffered_live h) p s).1 else s)
             /\ is_Some (h_connections (fan_out h p slots) !! k_connection_id (s_key s))).
Proof.
  intros Hinv Hnd. unfold fan_out. pose proof (publish_fold p slots h ∅ Hnd) as Hp.
  assert (Hinv1 : hub_inv ∅ (fold_left (publish_one p) slots (h, ∅)).1) by by apply publish_fold_inv.
  destruct (fold_left (publish_one p) slots (h, ∅)) as [h1 o]. cbn [fst] in Hinv1.
  destruct Hp as [Hs Hq Ho Hv Hk].
  destruct (close_connections_inv (elements o) h1 Hinv1) as (_ & _ & Hc).
  split; [|split].
  - intros cid c Hcid Hbad. rewrite Hc, decide_True; [done|]. apply elem_of_elements, Hv. naive_solver.
  - intros cid c Hcid Hb Ha. assert (Hn : cid ∉ o).
    { rewrite Hv. intros [Hin|[?|(c' & Hc' & Ha')]]; [by apply elem_of_empty in Hin|done|congruence]. }
    rewrite Hc, decide_False by by rewrite elem_of_elements. by rewrite Hq, Hcid.
  - intros slot s'. rewrite close_connections_lookup, Hs by done. setoid_rewrite Hc. split.
    + intros [(s & Hslot & ->)%fmap_Some_1 Hn]. exists s. split; [done|]. split; [done|].
      assert (Hkey : s_key (if decide (slot ∈ slots) then with_state s (outcome (h_max_buffered_live h) p s).1 else s)
                = s_key s) by by case_decide. rewrite Hkey in Hn. rewrite decide_False, Ho by done.
      destruct (inv_subs _ _ Hinv _ _ Hslot) as [Hslots _].
      destruct (proj1 (inv_connections _ _ Hinv (s_key s))) as [Hin|(c & Hc' & _)];
        [by eexists|by apply elem_of_empty in Hin|by eexists].
    + intros (s & Hslot & -> & Hopen). rewrite Hslot. split; [done|].
      case_decide as Hin; [by destruct Hopen|]. by case_decide.
Qed.

(** C12: what publishing does, exactly.  In every reachable hub, an event that
    is not dropped on entry changes each connection and subscription as a
    scan of all subscriptions says, though only those found in the index are
    visited: a connection is closed when a stored event meets a full history
    buffer of one of its subscriptions, or one of its messages is too long or
    is refused by its queue; any other connection's queue is offered one
    message for each of its subscriptions that is live and sees the event, in
    slot order; and the subscriptions that remain are those of the remaining
    connections, each moved to the state its filters, its readers and its
    high-water mark give. *)
Theorem publish_exact max_buffered max_bytes actions p now instant
    (Hlen : len actions < 2 ^ 64) :
  let h := hub_run (hub_new max_buffered max_bytes) actions in
  let h' := publish h p now instant in
  let slots := all_slots h in
  if publish_dropped h p now instant
  then h_connections h' = h_connections h /\ h_subscriptions h' = h_subscriptions h
  else
    (forall cid c, h_connections h !! cid = Some c ->
       buffer_overflow h p cid slots
         \/ accepts (h_max_outbound_bytes h) (c_outbound c) (conn_messages h p cid slots) = false ->
       h_connections h' !! cid = None)
    /\ (forall cid c, h_connections h !! cid = Some c -> ~ buffer_overflow h p cid slots ->
       accepts (h_max_outbound_bytes h) (c_outbound c) (conn_messages h p cid slots) = true ->
       h_connections h' !! cid
       = Some (mkSink (offers (c_outbound c) (conn_messages h p cid slots)) (c_subscriptions c)))
    /\ (forall slot s', h_subscriptions h' !! slot = Some s'
       <-> exists s, h_subscriptions h !! slot = Some s
             /\ s' = with_state s (outcome (h_max_buffered_live h) p s).1
             /\ is_Some (h_connections h' !! k_connection_id (s_key s))).
Proof.
  intros h h' slots.
  assert (Hinv : hub_inv ∅ h) by (apply hub_run_inv; [apply hub_new_inv|done|done]). clearbody h.
  destruct (all_slots_spec h) as [Hsort Hall]. apply lt_sorted_NoDup in Hsort. fold slots in Hsort, Hall.
  assert (Hcase : publish_dropped h p now instant = true
      /\ h_connections h' = h_connections h /\ h_subscriptions h' = h_subscriptions h
    \/ publish_dropped h p now instant = false /\ exists ids order, h' = fan_out (set_recent h ids order) p slots).
  { unfold h', publish, publish_dropped. destruct (_ || is_expired _ _); cbn [orb]; [by left|].
    destruct (pe_ingest_seq p) as [seq|].
    - right. split; [done|]. cbn [negb]. rewrite fan_out_indexed by done.
      exists (h_recent_ids h), (h_recent_order h). by destruct h.
    - unfold accept_ephemeral_id. destruct (evict _ _ _) as [order ids]. case_bool_decide; cbn [snd negb].
      + left. done.
      + right. split; [done|]. rewrite fan_out_indexed by by apply set_recent_inv. by eexists _, _. }
  destruct Hcase as [(-> & ?)|(-> & ids & order & Hfan)]; [done|].
  destruct (fan_out_spec (set_recent h ids order) p slots (set_recent_inv _ _ ids order Hinv) Hsort)
    as (H1 & H2 & H3). rewrite <- Hfan in H1, H2, H3.
  split; [exact H1|]. split; [exact H2|]. intros slot s'. rewrite H3. cbn [set_recent h_subscriptions h_max_buffered_live].
  split; intros (s & Hs & -> & Hopen); exists s; (split; [done|]); (split; [|done]);
    by rewrite decide_True by (apply Hall; by eexists).
Qed.

End delivery.

#[local] Existing Instance toy_unicode.
#[local] Existing Instance toy_json.

(** The note is sent, and the mark moves to its number. *)
Lemma publish_exact_witness :
  let h := hub_run (hub_new 8 64) toy_actions in
  let p := mkPublished (toy_note "n") (Some 5) in
  publish_dropped h p 100 0 = false
  /\ exists s, h_subscriptions (publish h p 100 0) !! 0 = Some s /\ s_state s = Live 5.
Proof.
  intros h p. assert (Hlen : len toy_actions < 2 ^ 64) by (vm_compute; reflexivity).
  assert (Hd : publish_dropped h p 100 0 = false) by (vm_compute; reflexivity). split; [exact Hd|].
  pose proof (publish_exact 8 64 toy_actions p 100 0 Hlen) as Hp. cbv zeta in Hp. fold h in Hp.
  rewrite Hd in Hp. destruct Hp as (_ & _ & Hsubs).
  destruct (h_subscriptions h !! 0) as [s|] eqn:Hs; [|vm_compute in Hs; discriminate].
  exists (with_state s (Live 5)). split; [|reflexivity]. apply Hsubs. exists s. split; [exact Hs|].
  vm_compute in Hs. injection Hs as <-. split; [vm_compute; reflexivity|].
  vm_compute. eexists. reflexivity.
Defined.
