(* ===== verification/Handover.v ===== *)
(** * Handover: stored events reach a subscription once, in order

    The notification task of [immortal-relay/src/gateway/server.rs], which
    turns the database's notifications into publishes, the two queries of
    [gateway/db.rs] and [store/statements.rs] it runs, and one subscription of
    [Hub.v] from its registration through its history to live delivery.  A
    database snapshot is the list of its rows. *)

From S2P Require Import Prelude Text Event Filter Outbound Hub HubCorrect HubDelivery.

Definition MAX_NOTIFICATION_GAP : Z := 4096.

(** ** The queries *)

(** [LATEST_INGEST_SQL]. *)
Definition latest_ingest_seq (rows : list StoredEvent) : Z :=
  fold_left Z.max (se_ingest_seq <$> rows) 0.

(** [EVENTS_AFTER_SQL]; [expires_at] is the event's expiration. *)
Definition seq_le (a b : StoredEvent) : Prop := se_ingest_seq a <= se_ingest_seq b.
#[export] Instance seq_le_dec a b : Decision (seq_le a b).
Proof. unfold seq_le. apply _. Defined.
#[export] Instance seq_le_trans : Transitive seq_le.
Proof. intros x y z. unfold seq_le. lia. Qed.
#[export] Instance seq_le_total : Total seq_le.
Proof. intros x y. unfold seq_le. lia. Qed.

Definition events_after (rows : list StoredEvent) (after through now limit : Z) : list StoredEvent :=
  take (Z.to_nat limit)
    (merge_sort seq_le
       (List.filter (fun st => (after <? se_ingest_seq st) && (se_ingest_seq st <=? through)
                               && negb (is_expired (se_event st) now)) rows)).

(** [gateway::db::catch_up]: two queries, each on what is committed then. *)
Definition catch_up (latest_rows rows : list StoredEvent) (after through now limit : Z)
    : Z * list StoredEvent :=
  (latest_ingest_seq latest_rows, events_after rows after through now limit).

(** ** The notification task *)

Inductive StoreNotification : Type :=
| NStored (ingest_seq : Z)
| NEphemeral (event : Event).

(** One turn of the loop: the notification, the clock, and the database when
    each query runs.  [None] is [fail_process], which stops the relay. *)
Record Notice : Type := mkNotice {
  n_notification : StoreNotification;
  n_now : Z;
  n_latest_rows : list StoredEvent;
  n_rows : list StoredEvent;
}.

Definition publish_stored (st : StoredEvent) : PublishedEvent :=
  mkPublished (se_event st) (Some (se_ingest_seq st)).

Definition notify (durable_cursor : Z) (n : Notice) : option (Z * list PublishedEvent) :=
  match n_notification n with
  | NStored ingest_seq =>
      if ingest_seq <=? durable_cursor then Some (durable_cursor, []) else
      let gap := ingest_seq - durable_cursor in
      if negb ((0 <=? gap) && (gap <=? 2 ^ 63 - 1)) then None else
      if MAX_NOTIFICATION_GAP <? gap then None else
      if negb (n_now n <=? 2 ^ 63 - 1) then None else
      let '(latest, events) :=
        catch_up (n_latest_rows n) (n_rows n) durable_cursor ingest_seq (n_now n) (MAX_NOTIFICATION_GAP + 1) in
      if (ingest_seq <=? latest) && (len events <=? MAX_NOTIFICATION_GAP)
      then Some (ingest_seq, publish_stored <$> events) else None
  | NEphemeral event => Some (durable_cursor, [mkPublished event None])
  end.

Fixpoint notify_run (durable_cursor : Z) (notices : list Notice) : option (Z * list PublishedEvent) :=
  match notices with
  | [] => Some (durable_cursor, [])
  | n :: notices' =>
      '(cursor, published) ← notify durable_cursor n;
      '(cursor', published') ← notify_run cursor notices';
      Some (cursor', published ++ published')
  end.

(** ** One subscription *)

Section handover.
Context `{Unicode}.

(** The events sent at once, the new state, and whether the buffer refused a
    stored event, for a sequence of publishes. *)
Fixpoint subscription_run (max : Z) (s : Subscription) (ps : list PublishedEvent)
    : Subscription * list PublishedEvent * bool :=
  match ps with
  | [] => (s, [], false)
  | p :: ps' =>
      let '(state, delivery) := outcome max p s in
      let '(s', sent, overflowed) := subscription_run max (with_state s state) ps' in
      (s', match delivery with Deliver => p :: sent | _ => sent end,
       match delivery with Overflowed => true | _ => overflowed end)
  end.

(** ** The notifier on the log of commits *)

Definition stored_of (ps : list PublishedEvent) : list PublishedEvent :=
  List.filter (fun p => bool_decide (is_Some (pe_ingest_seq p))) ps.

Lemma stored_of_app ps qs : stored_of (ps ++ qs) = stored_of ps ++ stored_of qs.
Proof. apply List.filter_app. Qed.

Lemma stored_of_publish l : stored_of (publish_stored <$> l) = publish_stored <$> l.
Proof. induction l as [|st l IH]; [done|]. unfold stored_of in *. cbn. by rewrite IH. Qed.

Definition seq_lt (a b : StoredEvent) : Prop := se_ingest_seq a < se_ingest_seq b.

(** The events ever committed, in the order of their numbers. *)
Definition log_wf (log : list StoredEvent) : Prop := StronglySorted seq_lt log.
Definition ids_of (log : list StoredEvent) : list string := (fun st => ev_id (se_event st)) <$> log.

Definition between (after through : Z) (log : list StoredEvent) : list StoredEvent :=
  List.filter (fun st => (after <? se_ingest_seq st) && (se_ingest_seq st <=? through)) log.

(** What the task may find when a notice arrives: of the log, any rows at all.
    Events are deleted, replaced and removed at their expiration, so a row of
    the log may be gone, and another may expire before the query runs.  An
    ephemeral event is not a stored one. *)
Definition snapshot (log : list StoredEvent) (n : Notice) : Prop :=
  match n_notification n with
  | NStored _ => NoDup (n_rows n) /\ n_rows n ⊆ log
  | NEphemeral e => ev_id e ∉ ids_of log
  end.

(** The notice announces a number not below the event's. *)
Definition announces (st : StoredEvent) (n : Notice) : bool :=
  match n_notification n with
  | NStored seq => se_ingest_seq st <=? seq
  | NEphemeral _ => false
  end.

(** The event is stored and unexpired when it is announced: at the query that
    the first notice with a number not below its own starts. *)
Definition there (notices : list Notice) (st : StoredEvent) : bool :=
  match List.find (announces st) notices with
  | Some n => bool_decide (st ∈ n_rows n) && negb (is_expired (se_event st) (n_now n))
  | None => false
  end.

Lemma there_app_l notices notices' st :
  existsb (announces st) notices = true -> there (notices ++ notices') st = there notices st.
Proof.
  unfold there. induction notices as [|n notices IH]; cbn; [done|].
  destruct (announces st n); [done|]. exact IH.
Qed.

Lemma there_app_r notices notices' st :
  existsb (announces st) notices = false -> there (notices ++ notices') st = there notices' st.
Proof.
  unfold there. induction notices as [|n notices IH]; cbn; [done|].
  destruct (announces st n); [done|]. exact IH.
Qed.

Lemma sorted_seq_inj log x y :
  StronglySorted seq_lt log -> x ∈ log -> y ∈ log -> se_ingest_seq x = se_ingest_seq y -> x = y.
Proof.
  induction 1 as [|z log Hlog IH Hz]; intros Hx Hy Hxy; [by apply elem_of_nil in Hx|].
  rewrite Forall_forall in Hz. unfold seq_lt in Hz.
  apply elem_of_cons in Hx as [->|Hx], Hy as [->|Hy]; [done| | |by apply IH].
  - specialize (Hz _ Hy). lia.
  - specialize (Hz _ Hx). lia.
Qed.

Lemma sorted_NoDup log : StronglySorted seq_lt log -> NoDup log.
Proof.
  induction 1 as [|x l Hl IH Hx]; [constructor|]. constructor; [|done].
  intros Hin. rewrite Forall_forall in Hx. specialize (Hx _ Hin). unfold seq_lt in Hx. lia.
Qed.

Lemma elem_of_between after through log st :
  st ∈ between after through log <-> st ∈ log /\ after < se_ingest_seq st <= through.
Proof.
  unfold between. rewrite elem_of_bfilter, andb_true_iff, Z.ltb_lt, Z.leb_le. tauto.
Qed.

Lemma between_len after through log :
  StronglySorted seq_lt log -> after <= through -> len (between after through log) <= through - after.
Proof.
  intros Hlog Hle. unfold len.
  assert (Hsub : (se_ingest_seq <$> between after through log) ⊆+ seqZ (after + 1) (through - after)).
  { apply NoDup_submseteq.
    - apply NoDup_fmap_2_strong; [|by apply sorted_NoDup, StronglySorted_bfilter].
      intros x y Hx Hy. rewrite elem_of_between in Hx, Hy. apply (sorted_seq_inj log); tauto.
    - intros q (st & -> & Hst)%list_elem_of_fmap. rewrite elem_of_between in Hst. apply elem_of_seqZ. lia. }
  apply submseteq_length in Hsub. rewrite length_fmap, length_seqZ in Hsub. lia.
Qed.

Lemma events_after_snapshot log rows now after through :
  StronglySorted seq_lt log -> NoDup rows -> rows ⊆ log ->
  after <= through <= after + MAX_NOTIFICATION_GAP ->
  events_after rows after through now (MAX_NOTIFICATION_GAP + 1)
  = List.filter (fun st => bool_decide (st ∈ rows) && negb (is_expired (se_event st) now))
      (between after through log).
Proof.
  intros Hlog Hnd Hrows Hgap. unfold events_after.
  set (found := List.filter _ rows). set (kept := List.filter _ (between _ _ _)).
  assert (Hin : forall st, st ∈ found <-> st ∈ kept).
  { intros st. unfold found, kept.
    rewrite !elem_of_bfilter, elem_of_between, !andb_true_iff, bool_decide_eq_true, Z.ltb_lt, Z.leb_le.
    specialize (Hrows st). tauto. }
  assert (Hkept : StronglySorted seq_lt kept) by by apply StronglySorted_bfilter, StronglySorted_bfilter.
  assert (Hlen : (length kept <= length (between after through log))%nat)
    by apply sublist_length, bfilter_sublist.
  assert (Hlog' : forall st, st ∈ kept -> st ∈ log)
    by (intros st (Hst & _)%elem_of_bfilter; by apply elem_of_between in Hst as [Hst _]).
  assert (Hsorted : merge_sort seq_le found = kept).
  { apply (StronglySorted_unique_strong seq_le).
    - intros x y Hx Hy Hxy Hyx. rewrite merge_sort_Permutation, Hin in Hx.
      unfold seq_le in *. apply (sorted_seq_inj log); auto; lia.
    - apply (StronglySorted_merge_sort seq_le).
    - clear -Hkept. induction Hkept as [|x l Hl IH Hx]; constructor; [done|].
      rewrite Forall_forall in *. intros y Hy. specialize (Hx y Hy). unfold seq_lt, seq_le in *. lia.
    - apply NoDup_Permutation; [|by apply sorted_NoDup|].
      + rewrite merge_sort_Permutation. by apply NoDup_ListNoDup, List.NoDup_filter, NoDup_ListNoDup.
      + intros x. by rewrite merge_sort_Permutation. }
  rewrite Hsorted. apply take_ge. pose proof (between_len after through log Hlog) as Hl. unfold len in Hl. lia.
Qed.

Lemma between_split a b c log :
  StronglySorted seq_lt log -> a <= b <= c -> between a c log = between a b log ++ between b c log.
Proof.
  intros Hlog Habc. induction Hlog as [|x log Hlog IH Hx]; [done|].
  unfold between in *. cbn [List.filter]. rewrite Forall_forall in Hx. unfold seq_lt in Hx.
  destruct (Z.ltb_spec a (se_ingest_seq x)), (Z.leb_spec (se_ingest_seq x) c); cbn [andb];
    destruct (Z.leb_spec (se_ingest_seq x) b), (Z.ltb_spec b (se_ingest_seq x)); cbn [andb]; try lia.
  - cbn [app]. by rewrite IH.
  - rewrite IH. assert (List.filter (fun st => (a <? se_ingest_seq st) && (se_ingest_seq st <=? b)) log = [])
      as ->; [|done]. apply bfilter_none. intros st Hst. specialize (Hx st Hst). lia.
  - done.
  - done.
Qed.

Lemma between_none cursor log : between cursor cursor log = [].
Proof. apply bfilter_none. intros st _. lia. Qed.

Lemma notify_snapshot log cursor n cursor' ps :
  log_wf log -> snapshot log n -> notify cursor n = Some (cursor', ps) ->
  cursor <= cursor' /\ (forall st, cursor < se_ingest_seq st -> announces st n = (se_ingest_seq st <=? cursor'))
  /\ stored_of ps = publish_stored <$> List.filter (there [n]) (between cursor cursor' log)
  /\ forall p, p ∈ ps -> pe_ingest_seq p = None -> ev_id (pe_event p) ∉ ids_of log.
Proof.
  intros Hlog Hst. unfold notify, snapshot, there, announces in *. cbn [List.find].
  destruct (n_notification n) as [seq|e].
  - destruct Hst as (Hnd & Hrows). destruct (Z.leb_spec seq cursor) as [Hle|Hgt].
    { intros [= <- <-]. rewrite between_none. split; [lia|]. split; [intros st Hst; lia|]. split; [done|].
      intros p Hp. by apply elem_of_nil in Hp. }
    destruct (negb ((0 <=? _) && _)); [done|]. destruct (Z.ltb_spec MAX_NOTIFICATION_GAP (seq - cursor)) as [|Hgap]; [done|].
    destruct (negb (n_now n <=? _)); [done|]. unfold catch_up.
    rewrite (events_after_snapshot log) by (done || lia).
    destruct (_ && _); [|done]. intros [= <- <-]. split; [lia|]. split; [done|]. split.
    + rewrite stored_of_publish. f_equal. apply bfilter_ext. intros st (_ & Hst)%elem_of_between.
      by replace (se_ingest_seq st <=? seq) with true by lia.
    + intros p (st & -> & _)%list_elem_of_fmap. done.
  - intros [= <- <-]. rewrite between_none. split; [lia|]. split; [intros st Hst'; lia|].
    split; [done|]. intros p ->%list_elem_of_singleton _. exact Hst.
Qed.

(** What two runs of notices find, one after the other. *)
Lemma there_split log ns1 ns2 c1 c2 c3 :
  StronglySorted seq_lt log -> c1 <= c2 <= c3 ->
  (forall st, c1 < se_ingest_seq st -> existsb (announces st) ns1 = (se_ingest_seq st <=? c2)) ->
  List.filter (there (ns1 ++ ns2)) (between c1 c3 log)
  = List.filter (there ns1) (between c1 c2 log) ++ List.filter (there ns2) (between c2 c3 log).
Proof.
  intros Hlog Hc Hann. rewrite (between_split c1 c2 c3), List.filter_app by done.
  f_equal; apply bfilter_ext; intros st (_ & Hst)%elem_of_between; [apply there_app_l|apply there_app_r];
    rewrite Hann; lia.
Qed.

Lemma notify_run_snapshot log notices cursor cursor' ps :
  log_wf log -> Forall (snapshot log) notices -> notify_run cursor notices = Some (cursor', ps) ->
  cursor <= cursor'
  /\ (forall st, cursor < se_ingest_seq st -> existsb (announces st) notices = (se_ingest_seq st <=? cursor'))
  /\ stored_of ps = publish_stored <$> List.filter (there notices) (between cursor cursor' log)
  /\ forall p, p ∈ ps -> pe_ingest_seq p = None -> ev_id (pe_event p) ∉ ids_of log.
Proof.
  intros Hlog Hall. revert cursor ps. induction Hall as [|n notices Hn _ IH]; intros cursor ps Hrun; cbn in Hrun.
  - injection Hrun as <- <-. rewrite between_none. split; [lia|]. split; [cbn; intros st Hst; lia|]. split; [done|].
    intros p Hp; by apply elem_of_nil in Hp.
  - destruct (notify cursor n) as [[c1 ps1]|] eqn:H1; [|done]. cbn in Hrun.
    destruct (notify_run c1 notices) as [[c2 ps2]|] eqn:H2; [|done]. injection Hrun as <- <-.
    destruct (notify_snapshot _ _ _ _ _ Hlog Hn H1) as (Hc1 & Ha1 & Hs1 & He1).
    destruct (IH c1 ps2 H2) as (Hc2 & Ha2 & Hs2 & He2).
    split; [lia|]. split; [|split].
    + intros st Hst. cbn. rewrite Ha1 by done.
      destruct (Z.leb_spec (se_ingest_seq st) c1); [cbn; lia|]. apply Ha2. lia.
    + rewrite stored_of_app, Hs1, Hs2, <- fmap_app. f_equal. symmetry. apply (there_split log [n] notices); [done|lia|].
      intros st Hst. cbn. by rewrite Ha1, orb_false_r.
    + intros p [Hp|Hp]%elem_of_app; eauto.
Qed.

(** When the task fails: the announced number is more than 4,096 ahead of its
    cursor, or above every row left in the database. *)
Lemma notify_total log cursor n :
  log_wf log -> snapshot log n -> n_now n <= 2 ^ 63 - 1 ->
  is_Some (notify cursor n)
  <-> forall seq, n_notification n = NStored seq -> cursor < seq ->
        seq <= cursor + MAX_NOTIFICATION_GAP /\ seq <= latest_ingest_seq (n_latest_rows n).
Proof.
  intros Hlog Hst Hnow. assert (H4096 : MAX_NOTIFICATION_GAP = 4096) by done. unfold notify, snapshot in *.
  destruct (n_notification n) as [seq|e]; [|split; [intros _ seq [=]|done]].
  destruct Hst as (Hnd & Hrows). destruct (Z.leb_spec seq cursor) as [Hle|Hgt].
  { split; [intros _ seq' [= <-]; lia|done]. }
  destruct (Z.ltb_spec MAX_NOTIFICATION_GAP (seq - cursor)) as [Hgap|Hgap].
  { destruct (negb _); (split; [by intros []|]); intros Hseq; destruct (Hseq seq eq_refl Hgt); lia. }
  replace ((0 <=? seq - cursor) && (seq - cursor <=? 2 ^ 63 - 1)) with true by lia. cbn [negb].
  replace (n_now n <=? 2 ^ 63 - 1) with true by lia. cbn [negb].
  unfold catch_up. rewrite (events_after_snapshot log) by (done || lia).
  set (found := List.filter _ _).
  assert (Hlen : (length found <= length (between cursor seq log))%nat) by apply sublist_length, bfilter_sublist.
  pose proof (between_len cursor seq log Hlog ltac:(lia)) as Hb. unfold len in Hb.
  replace (len found <=? MAX_NOTIFICATION_GAP) with true by (unfold len; lia). rewrite andb_true_r.
  destruct (Z.leb_spec seq (latest_ingest_seq (n_latest_rows n))) as [Hl|Hl].
  - split; [intros _ seq' [= <-]; lia|done].
  - split; [by intros []|]. intros Hseq. destruct (Hseq seq eq_refl Hgt). lia.
Qed.

(** ** Buffering, then live *)

Definition pub_id (p : PublishedEvent) : string := ev_id (pe_event p).

Lemma outcome_with_state max p s state :
  outcome max p (with_state s state) = if sees p s then state_publish max state p else (state, NotNow).
Proof. done. Qed.

Lemma buffering_run max s events ids ps s' sent :
  (forall p, p ∈ stored_of ps -> pub_id p ∉ ids) -> NoDup (pub_id <$> stored_of ps) ->
  (forall p, p ∈ ps -> pe_ingest_seq p = None -> pub_id p ∉ pub_id <$> stored_of ps) ->
  subscription_run max (with_state s (Buffering events ids)) ps = (s', sent, false) ->
  sent = [] /\ exists events' ids', s' = with_state s (Buffering events' ids')
    /\ stored_of events' = stored_of events ++ List.filter (fun p => sees p s) (stored_of ps).
Proof.
  revert events ids s' sent. induction ps as [|p ps IH]; intros events ids s' sent Hfresh Hnd Heph Hrun;
    cbn [subscription_run] in Hrun.
  { injection Hrun as <- <-. split; [done|]. exists events, ids. by rewrite app_nil_r. }
  rewrite outcome_with_state in Hrun.
  assert (Hstored : stored_of (p :: ps) = (if pe_ingest_seq p then [p] else []) ++ stored_of ps)
    by (unfold stored_of; cbn; by destruct (pe_ingest_seq p)).
  rewrite Hstored in *.
  assert (Hfresh' : forall q, q ∈ stored_of ps -> pub_id q ∉ ids /\ pub_id q <> pub_id p).
  { intros q Hq. split; [apply Hfresh, elem_of_app; by right|]. intros Hid.
    destruct (pe_ingest_seq p) eqn:Hseq.
    - apply NoDup_cons in Hnd as [Hnin _]. apply Hnin. rewrite <- Hid. by apply list_elem_of_fmap_2.
    - apply (Heph p); [apply list_elem_of_here|done|]. rewrite <- Hid. by apply list_elem_of_fmap_2. }
  assert (Hnd' : NoDup (pub_id <$> stored_of ps)).
  { destruct (pe_ingest_seq p); [by apply NoDup_cons in Hnd as [_ Hnd]|done]. }
  assert (Heph' : forall q, q ∈ ps -> pe_ingest_seq q = None -> pub_id q ∉ pub_id <$> stored_of ps).
  { intros q Hq Hnone Hin. apply (Heph q); [by apply list_elem_of_further|done|].
    rewrite fmap_app. apply elem_of_app. by right. }
  (* the rest of the run, from any buffer whose ids are the old ones or this event's *)
  assert (Hrest : forall events1 ids1 sent1,
    (forall x, x ∈ ids1 -> x ∈ ids \/ x = pub_id p) ->
    subscription_run max (with_state s (Buffering events1 ids1)) ps = (s', sent1, false) ->
    sent1 = [] /\ exists events' ids', s' = with_state s (Buffering events' ids')
      /\ stored_of events' = stored_of events1 ++ List.filter (fun p => sees p s) (stored_of ps)).
  { intros events1 ids1 sent1 Hids Hr. apply (IH events1 ids1); [|done|done|done].
    intros q Hq Hin. apply Hids in Hin. destruct (Hfresh' q Hq). naive_solver. }
  clear IH. destruct (sees p s) eqn:Hsees; cbn [state_publish] in Hrun.
  - rewrite List.filter_app.
    destruct (bool_decide_reflect (ev_id (pe_event p) ∈ ids)) as [Hin|Hnin] in Hrun.
    { destruct (pe_ingest_seq p) eqn:Hseq.
      - destruct (Hfresh p); [apply elem_of_app; left; apply list_elem_of_here|done].
      - destruct (subscription_run _ _ ps) as [[s1 sent1] o1] eqn:Hr. injection Hrun as -> <- ->.
        apply Hrest in Hr; [done|]. naive_solver. }
    destruct (len events <? max).
    + destruct (subscription_run _ _ ps) as [[s1 sent1] o1] eqn:Hr. injection Hrun as -> <- ->.
      apply Hrest in Hr; [|set_solver]. destruct Hr as (-> & events' & ids' & -> & Hev).
      split; [done|]. exists events', ids'. split; [done|]. rewrite Hev, stored_of_app, <- app_assoc.
      unfold stored_of at 2. cbn. by destruct (pe_ingest_seq p); cbn; rewrite ?Hsees.
    + destruct (pe_ingest_seq p) eqn:Hseq; cbn in Hrun.
      { by destruct (subscription_run _ _ ps) as [[s1 sent1] o1]. }
      destruct (subscription_run _ _ ps) as [[s1 sent1] o1] eqn:Hr. injection Hrun as -> <- ->.
      apply Hrest in Hr; [done|set_solver].
  - destruct (subscription_run _ _ ps) as [[s1 sent1] o1] eqn:Hr. injection Hrun as -> <- ->.
    apply Hrest in Hr; [|naive_solver]. rewrite List.filter_app.
    destruct (pe_ingest_seq p); cbn; rewrite ?Hsees; done.
Qed.

(** The published events numbered above a mark. *)
Definition above (mark : Z) (p : PublishedEvent) : bool :=
  match pe_ingest_seq p with Some seq => mark <? seq | None => false end.
Definition increasing (ps : list PublishedEvent) : Prop :=
  StronglySorted (fun p q => forall a b, pe_ingest_seq p = Some a -> pe_ingest_seq q = Some b -> a < b) ps.

Lemma live_run max s mark ps :
  increasing (stored_of ps) ->
  let '(s', sent, overflowed) := subscription_run max (with_state s (Live mark)) ps in
  overflowed = false
  /\ stored_of sent = List.filter (fun p => sees p s && above mark p) (stored_of ps).
Proof.
  revert mark. induction ps as [|p ps IH]; intros mark Hinc; cbn [subscription_run]; [done|].
  rewrite outcome_with_state. unfold stored_of in Hinc |- *. cbn [List.filter] in Hinc |- *.
  fold (stored_of ps) in *. destruct (pe_ingest_seq p) as [seq|] eqn:Hseq.
  - rewrite bool_decide_eq_true_2 in Hinc |- * by done. cbn [List.filter].
    apply StronglySorted_inv in Hinc as [Hinc Hp]. unfold above at 1. rewrite Hseq.
    cbn [state_publish]. rewrite Hseq. destruct (sees p s); cbn [andb].
    2:{ specialize (IH mark Hinc). destruct (subscription_run _ _ ps) as [[s' sent] o]. done. }
    destruct (Z.leb_spec seq mark) as [Hle|Hgt].
    { replace (mark <? seq) with false by lia. specialize (IH mark Hinc).
      destruct (subscription_run _ _ ps) as [[s' sent] o]. done. }
    replace (mark <? seq) with true by lia. specialize (IH seq Hinc).
    destruct (subscription_run _ _ ps) as [[s' sent] o]. destruct IH as [-> IH]. split; [done|].
    cbn [List.filter]. rewrite Hseq, bool_decide_eq_true_2 by done. f_equal. unfold stored_of in IH.
    rewrite IH. apply bfilter_ext. intros q Hq. f_equal. rewrite Forall_forall in Hp. specialize (Hp q Hq).
    unfold above. destruct (pe_ingest_seq q) as [b|]; [|done]. specialize (Hp seq b Hseq eq_refl). lia.
  - rewrite bool_decide_eq_false_2 in Hinc |- * by by intros [].
    cbn [state_publish]. rewrite Hseq. specialize (IH mark Hinc).
    destruct (sees p s); destruct (subscription_run _ _ ps) as [[s' sent] o]; [|done].
    cbn [List.filter]. by rewrite Hseq, bool_decide_eq_false_2 by by intros [].
Qed.

Lemma stored_of_live_after mark historical buffered :
  stored_of (live_after mark historical buffered)
  = List.filter (fun p => negb (bool_decide (pub_id p ∈ historical)) && above mark p) (stored_of buffered).
Proof.
  unfold stored_of, live_after. rewrite !bfilter_bfilter. apply List.filter_ext. intros p. unfold above, pub_id.
  destruct (pe_ingest_seq p); cbn; destruct (bool_decide _); cbn; try done.
  - by destruct (mark <? z).
Qed.

Lemma live_high_water_bounds mark live bound :
  (forall p, p ∈ stored_of live -> forall q, pe_ingest_seq p = Some q -> q <= bound) ->
  mark <= live_high_water mark live /\ (live_high_water mark live <= bound \/ live_high_water mark live = mark).
Proof.
  unfold live_high_water. revert mark. induction live as [|p live IH]; intros mark Hb; cbn; [lia|].
  unfold stored_of in Hb. cbn in Hb. destruct (pe_ingest_seq p) as [q|] eqn:Hq; cbn in *.
  - destruct (IH (Z.max mark q)) as [H1 H2]; [intros x Hx; apply Hb; by apply list_elem_of_further|].
    pose proof (Hb p (list_elem_of_here _ _) q Hq). lia.
  - by apply IH.
Qed.

Lemma increasing_published l : StronglySorted seq_lt l -> increasing (publish_stored <$> l).
Proof.
  intros Hs. unfold increasing.
  eapply StronglySorted_fmap; [|exact Hs]. intros x y Hxy q r [= <-] [= <-]. exact Hxy.
Qed.

Lemma filter_published (f : PublishedEvent -> bool) l :
  List.filter f (publish_stored <$> l) = publish_stored <$> List.filter (fun st => f (publish_stored st)) l.
Proof. induction l as [|st l IH]; [done|]. cbn. destruct (f _); cbn; by rewrite IH. Qed.

(** One subscription from its registration on: the publishes while its
    history is read, the hand-over, and the publishes after. *)
Definition subscription_life (max : Z) (s : Subscription) (before : list PublishedEvent)
    (high_water : Z) (historical_ids : gset string) (after : list PublishedEvent)
    : option (list PublishedEvent) :=
  match subscription_run max (with_state s (Buffering [] ∅)) before with
  | (s1, _, false) =>
      match s_state s1 with
      | Buffering buffered _ =>
          let live := live_after high_water historical_ids buffered in
          let '(_, sent, _) :=
            subscription_run max (with_state s1 (Live (live_high_water high_water live))) after in
          Some (live ++ sent)
      | Live _ => None
      end
  | _ => None
  end.


End handover.

#[local] Existing Instance toy_unicode.

(** Event 5 is announced while the history (up to 4) is read, event 7 twice
    afterwards; the second announcement finds nothing new.  Event 6 has been
    replaced by then. *)
Definition toy_log : list StoredEvent :=
  [mkStored (toy_note "a") 4; mkStored (toy_note "b") 5; mkStored (toy_note "c") 6; mkStored (toy_note "d") 7].
Definition toy_left : list StoredEvent :=
  [mkStored (toy_note "a") 4; mkStored (toy_note "b") 5; mkStored (toy_note "d") 7].
Definition toy_subscription : Subscription :=
  mkSubscription (mkKey 1 "sub") "" 0 [toy_filter] ∅ (subscription_index_keys [toy_filter]) (Buffering [] ∅).
Definition toy_notice (seq : Z) : Notice := mkNotice (NStored seq) 100 toy_left toy_left.

Lemma toy_snapshot n : Forall (snapshot toy_log) (toy_notice <$> n).
Proof.
  apply Forall_fmap, Forall_true. intros seq. cbn. split.
  - refine (bool_decide_unpack _ _); vm_compute; exact I.
  - unfold toy_left, toy_log. set_solver.
Qed.

