(* ===== verification/Recent.v ===== *)
(** * Recent: the relay's window of ephemeral ids

    [Hub::accept_ephemeral_id] keeps the ids it accepted in a queue that it
    trims from the front; its answer is a window over everything ever
    accepted. *)

From S2P Require Import Prelude Text Event Filter Outbound Hub.

(** Calls in clock order. *)
Definition accepts_at (h : Hub) (call : string * Z) : Hub * bool := accept_ephemeral_id h call.1 call.2.

(** The hub after some calls, and the calls it accepted, oldest first. *)
Fixpoint accept_run (h : Hub) (calls : list (string * Z)) : Hub * list (string * Z) :=
  match calls with
  | [] => (h, [])
  | call :: calls' =>
      let '(h1, accepted) := accepts_at h call in
      let '(h2, rest) := accept_run h1 calls' in
      (h2, if accepted then call :: rest else rest)
  end.

Definition young (now : Z) (entry : string * Z) : bool := now - entry.2 <? EPHEMERAL_DEDUP_WINDOW.

(** The last [MAX_RECENT_EPHEMERAL_IDS - 1] entries, and those of them within
    the window. *)
Definition kept_count : nat := 4095.
Definition last_entries (l : list (string * Z)) : list (string * Z) := drop (length l - kept_count) l.
Definition recent (now : Z) (l : list (string * Z)) : list (string * Z) :=
  List.filter (young now) (last_entries l).

Definition in_order (l : list (string * Z)) : Prop := StronglySorted (fun a b => a.2 <= b.2) l.

(** ** Lists in clock order *)

Lemma in_order_app_r l k : in_order (l ++ k) -> in_order k.
Proof. apply StronglySorted_app_1_r. Qed.

Lemma in_order_drop n l : in_order l -> in_order (drop n l).
Proof. intros Hl. rewrite <- (take_drop n l) in Hl. by apply in_order_app_r in Hl. Qed.

Lemma young_le now now' e : now <= now' -> young now' e = true -> young now e = true.
Proof. unfold young. lia. Qed.

(** An old head is all that separates a shorter list from its filter. *)
Lemma in_order_young now e l : in_order (e :: l) -> young now e = true -> List.filter (young now) l = l.
Proof.
  intros [_ He]%StronglySorted_inv Hy. apply bfilter_all. intros x Hx. rewrite Forall_forall in He.
  specialize (He x Hx). unfold young in *. lia.
Qed.

Lemma recent_later now now' l : now <= now' -> List.filter (young now') (recent now l) = recent now' l.
Proof.
  intros Hle. unfold recent. rewrite bfilter_bfilter. apply bfilter_ext. intros x _.
  destruct (young now' x) eqn:Hy; [|apply andb_false_r]. by rewrite (young_le now now') by done.
Qed.

Lemma last_entries_length l : (length (last_entries l) <= kept_count)%nat.
Proof. unfold last_entries. rewrite length_drop. lia. Qed.

Lemma recent_length now l : (length (recent now l) <= kept_count)%nat.
Proof.
  pose proof (filter_length_le (young now) (last_entries l)). pose proof (last_entries_length l).
  unfold recent. lia.
Qed.

Lemma last_entries_short l : (length l <= kept_count)%nat -> last_entries l = l.
Proof. unfold last_entries. intros Hl. replace (length l - kept_count)%nat with 0%nat by lia. done. Qed.

(** ** Eviction *)

Lemma evict_order now order ids :
  in_order order -> Forall (fun e => e.2 <= now) order -> (evict now order ids).1 = recent now order.
Proof.
  revert ids. induction order as [|[id seen] order IH]; intros ids Hord Hnow; [done|].
  cbn [evict]. pose proof Hord as [Hord' _]%StronglySorted_inv. apply Forall_cons in Hnow as [Hseen Hnow].
  cbn in Hseen. replace (Z.max 0 (now - seen)) with (now - seen) by lia.
  assert (Hyoung : young now (id, seen) = negb (EPHEMERAL_DEDUP_WINDOW <=? now - seen))
    by (unfold young; cbn [snd]; lia).
  assert (Hcount : MAX_RECENT_EPHEMERAL_IDS = Z.of_nat kept_count + 1) by done.
  assert (Hlen : len ((id, seen) :: order) = Z.of_nat (length order) + 1) by (unfold len; cbn [length]; lia).
  destruct (Z.leb_spec MAX_RECENT_EPHEMERAL_IDS (len ((id, seen) :: order))) as [Hmany|Hfew].
  - rewrite orb_true_r, IH by done. unfold recent, last_entries. cbn [length].
    replace (S (length order) - kept_count)%nat with (S (length order - kept_count)) by lia. done.
  - rewrite orb_false_r. unfold recent. rewrite last_entries_short by (cbn [length]; lia). cbn [List.filter].
    rewrite Hyoung. destruct (EPHEMERAL_DEDUP_WINDOW <=? now - seen); cbn [negb fst].
    + rewrite IH by done. unfold recent. by rewrite last_entries_short by lia.
    + by rewrite (in_order_young now (id, seen)).
Qed.

Lemma evict_ids now order ids :
  ids = list_to_set order.*1 -> NoDup order.*1 ->
  (evict now order ids).2 = list_to_set (evict now order ids).1.*1 /\ NoDup (evict now order ids).1.*1.
Proof.
  revert ids. induction order as [|[id seen] order IH]; intros ids Hids Hnd; [done|]. cbn [evict].
  destruct (_ || _); [|done]. cbn in Hids, Hnd. apply NoDup_cons in Hnd as [Hnin Hnd]. apply IH; [|done].
  rewrite Hids. assert (id ∉ (list_to_set order.*1 : gset string)) by by rewrite elem_of_list_to_set.
  set_solver.
Qed.

(** ** The window *)

Lemma last_entries_snoc l e :
  last_entries (l ++ [e])
  = (if decide (length l < kept_count)%nat then last_entries l else tail (last_entries l)) ++ [e].
Proof.
  unfold last_entries. rewrite length_app. cbn [length]. case_decide as Hl.
  - replace (length l + 1 - kept_count)%nat with 0%nat by lia.
    by replace (length l - kept_count)%nat with 0%nat by lia.
  - assert (0 < kept_count)%nat by (unfold kept_count; lia).
    rewrite drop_app_le by lia. f_equal. replace (length l + 1 - kept_count)%nat with (S (length l - kept_count)) by lia.
    generalize (length l - kept_count)%nat. clear. intros n. revert n. induction l as [|x l IH]; intros [|n]; try done.
    cbn [drop]. apply IH.
Qed.

(** Trimming at each call loses nothing that a later window could hold. *)
Lemma recent_snoc now now' l e :
  in_order l -> now <= now' -> recent now' (recent now l ++ [e]) = recent now' (l ++ [e]).
Proof.
  intros Hl Hle. unfold recent at 1 3. rewrite !last_entries_snoc, !List.filter_app. f_equal.
  rewrite (last_entries_short (recent now l)) by apply recent_length.
  destruct (decide (length l < kept_count)%nat) as [Hshort|Hlong].
  - rewrite decide_True; [by rewrite recent_later|].
    pose proof (filter_length_le (young now) (last_entries l)). unfold recent.
    rewrite last_entries_short in * by lia. lia.
  - assert (Hfull : length (last_entries l) = kept_count) by (unfold last_entries; rewrite length_drop; lia).
    assert (Hord : in_order (last_entries l)) by by apply in_order_drop.
    unfold recent. destruct (last_entries l) as [|x k]; [by unfold kept_count in Hfull|].
    cbn [List.filter tail]. destruct (young now x) eqn:Hx.
    + rewrite (in_order_young now x) by done. rewrite decide_False by lia. done.
    + assert (Hx' : young now' x = false) by (destruct (young now' x) eqn:Hy; [by rewrite (young_le now now') in Hx|done]).
      rewrite decide_True by (pose proof (filter_length_le (young now) k); cbn in Hfull; lia).
      rewrite bfilter_bfilter. apply bfilter_ext. intros y _.
      destruct (young now' y) eqn:Hy; [|apply andb_false_r]. by rewrite (young_le now now').
Qed.

(** What the hub's queue holds, against everything accepted up to [t]. *)
Record window (t : Z) (h : Hub) (accepted : list (string * Z)) : Prop := {
  w_ids : h_recent_ids h = list_to_set (h_recent_order h).*1;
  w_distinct : NoDup (h_recent_order h).*1;
  w_order : in_order (h_recent_order h);
  w_accepted : in_order accepted;
  w_past : Forall (fun e => e.2 <= t) (h_recent_order h) /\ Forall (fun e => e.2 <= t) accepted;
  w_count : (length (h_recent_order h) <= S kept_count)%nat;
  w_recent now : t <= now -> recent now (h_recent_order h) = recent now accepted;
}.

Lemma in_order_snoc t l e : in_order l -> Forall (fun x => x.2 <= t) l -> t <= e.2 -> in_order (l ++ [e]).
Proof.
  intros Hl Ht He. apply StronglySorted_app. split; [|split; [done|by repeat constructor]].
  intros x y Hx ->%list_elem_of_singleton. rewrite Forall_forall in Ht. specialize (Ht x Hx). cbn in *. lia.
Qed.

Lemma Forall_recent (P : string * Z -> Prop) now l : Forall P l -> Forall P (recent now l).
Proof.
  rewrite !Forall_forall. intros Hl x Hx. apply elem_of_bfilter in Hx as [Hx _]. apply Hl.
  rewrite <- (take_drop (length l - kept_count) l). apply elem_of_app. by right.
Qed.

Lemma accept_window t h accepted id now :
  window t h accepted -> t <= now ->
  let '(h', ok) := accept_ephemeral_id h id now in
  ok = bool_decide (id ∉ (recent now accepted).*1)
  /\ window now h' (if ok then accepted ++ [(id, now)] else accepted).
Proof.
  intros [Hids Hnd Hord Hacc [Hpo Hpa] Hcount Hrec] Ht.
  assert (Hpo' : Forall (fun e => e.2 <= now) (h_recent_order h)) by (eapply Forall_impl; [exact Hpo|cbn; lia]).
  assert (Hpa' : Forall (fun e => e.2 <= now) accepted) by (eapply Forall_impl; [exact Hpa|cbn; lia]).
  unfold accept_ephemeral_id.
  pose proof (evict_order now _ (h_recent_ids h) Hord Hpo') as He. rewrite (Hrec now Ht) in He.
  destruct (evict_ids now _ _ Hids Hnd) as [Hids' Hnd'].
  destruct (evict now (h_recent_order h) (h_recent_ids h)) as [order ids]. cbn [fst snd] in *. subst order.
  assert (Hin : id ∈ ids <-> id ∈ (recent now accepted).*1) by by rewrite Hids', elem_of_list_to_set.
  assert (Hord' : in_order (recent now accepted)) by by apply StronglySorted_bfilter, in_order_drop.
  assert (Hpast : Forall (fun e => e.2 <= now) (recent now accepted)) by by apply Forall_recent.
  case_bool_decide as Hid.
  - rewrite bool_decide_eq_false_2 by tauto. split; [done|]. split; cbn [set_recent h_recent_ids h_recent_order]; try done.
    + pose proof (recent_length now accepted). lia.
    + intros now' Hle. unfold recent at 1. rewrite last_entries_short by apply recent_length. by apply recent_later.
  - rewrite bool_decide_eq_true_2 by tauto. split; [done|]. split; cbn [set_recent h_recent_ids h_recent_order].
    + rewrite fmap_app, list_to_set_app_L, <- Hids'. cbn. set_solver.
    + rewrite fmap_app. apply NoDup_app. split; [done|]. split; [|apply NoDup_singleton].
      intros x Hx ->%list_elem_of_singleton. tauto.
    + by apply (in_order_snoc now).
    + by apply (in_order_snoc now).
    + rewrite !Forall_app, !Forall_singleton. cbn. repeat split; (done || lia).
    + rewrite length_app. cbn [length]. pose proof (recent_length now accepted). lia.
    + intros now' Hle. by apply recent_snoc.
Qed.

Lemma accept_run_window calls t h accepted :
  window t h accepted -> in_order calls -> Forall (fun c => t <= c.2) calls ->
  let '(h', rest) := accept_run h calls in
  forall now, t <= now -> Forall (fun c => c.2 <= now) calls ->
  exists t', t' <= now /\ window t' h' (accepted ++ rest).
Proof.
  revert t h accepted. induction calls as [|[id at_] calls IH]; intros t h accepted Hw Hord Hpast; cbn [accept_run].
  { intros now Ht _. exists t. by rewrite app_nil_r. }
  apply StronglySorted_inv in Hord as [Hord Hle]. apply Forall_cons in Hpast as [Hat Hpast]. cbn in Hat.
  unfold accepts_at. cbn [fst snd]. pose proof (accept_window t h accepted id at_ Hw Hat) as Ha.
  destruct (accept_ephemeral_id h id at_) as [h1 ok]. destruct Ha as [_ Hw1].
  specialize (IH at_ h1 _ Hw1 Hord Hle). destruct (accept_run h1 calls) as [h2 rest].
  intros now Ht [Hnow Hcalls]%Forall_cons. destruct (IH now Hnow Hcalls) as (t' & Ht' & Hw').
  exists t'. split; [done|]. destruct ok; [|done]. by rewrite <- app_assoc in Hw'.
Qed.

(** The relay's guard against repeated ephemeral events is exactly a
    window.  However many calls came before, in clock order, an id is refused
    if and only if it is one of the last 4,095 accepted and was accepted less
    than 60 seconds ago; and the guard never remembers more than 4,096 ids. *)
Theorem ephemeral_window max_buffered max_bytes calls id now
    (Hclock : in_order (calls ++ [(id, now)])) (Hstart : Forall (fun c => 0 <= c.2) (calls ++ [(id, now)])) :
  let '(h, accepted) := accept_run (hub_new max_buffered max_bytes) calls in
  len (h_recent_order h) <= MAX_RECENT_EPHEMERAL_IDS
  /\ Z.of_nat (size (h_recent_ids h)) <= MAX_RECENT_EPHEMERAL_IDS
  /\ ((accept_ephemeral_id h id now).2 = false <-> id ∈ (recent now accepted).*1).
Proof.
  assert (Hw : window 0 (hub_new max_buffered max_bytes) []).
  { split; cbn; try done; [constructor..|lia]. }
  apply StronglySorted_app in Hclock as (Hbefore & Hcalls & _). apply Forall_app in Hstart as [Hstart Hnow].
  rewrite Forall_singleton in Hnow. cbn in Hnow.
  pose proof (accept_run_window calls 0 _ [] Hw Hcalls Hstart) as Hrun.
  destruct (accept_run _ calls) as [h accepted]. cbn [app] in Hrun.
  destruct (Hrun now Hnow) as (t & Ht & Hwin).
  { apply Forall_forall. intros c Hc. apply (Hbefore c (id, now) Hc). by apply list_elem_of_singleton. }
  pose proof (accept_window t h accepted id now Hwin Ht) as Ha. destruct Hwin as [Hids Hnd _ _ _ Hcount _].
  assert (Hmax : MAX_RECENT_EPHEMERAL_IDS = Z.of_nat kept_count + 1) by done.
  split; [unfold len; lia|]. split.
  { rewrite Hids, size_list_to_set, length_fmap by done. lia. }
  destruct (accept_ephemeral_id h id now) as [h' ok]. destruct Ha as [-> _]. cbn [snd].
  rewrite bool_decide_eq_false. split; [|tauto]. intros Hn. by destruct (decide (id ∈ (recent now accepted).*1)).
Qed.

(** An id seen at second 1 is refused at second 2 and welcome at second 61. *)
Lemma ephemeral_window_witness :
  let h := (accept_run (hub_new 8 64) [("e"%string, 1000000000)]).1 in
  (accept_ephemeral_id h "e" 2000000000).2 = false /\ (accept_ephemeral_id h "e" 61000000000).2 <> false.
Proof.
  intros h. split.
  - pose proof (ephemeral_window 8 64 [("e"%string, 1000000000)] "e" 2000000000) as Hw.
    destruct Hw as (_ & _ & Hw); [repeat constructor; cbn; lia|repeat constructor; cbn; lia|].
    apply Hw. vm_compute. apply list_elem_of_here.
  - pose proof (ephemeral_window 8 64 [("e"%string, 1000000000)] "e" 61000000000) as Hw.
    destruct Hw as (_ & _ & Hw); [repeat constructor; cbn; lia|repeat constructor; cbn; lia|].
    intros Hf. apply Hw in Hf. vm_compute in Hf. inversion Hf.
Defined.
