(* ===== verification/Store.v ===== *)
(** * Store: durable admission of events

    The admission transaction of [immortal-relay/src/store/mod.rs] with the
    statements of [store/statements.rs] and the tables of
    [migrations/0001_store.sql] and [0008_mkt_immutable.sql], for events
    outside NIP-29 groups: [admit_event] is [admit_inner] in legacy mode, where
    groups are not consulted, and in public mode for an event without an [h]
    tag whose validators have passed, the group metadata kinds that only the
    relay may publish included.  A table is a finite map on its primary key;
    [ON DELETE CASCADE] is part of deleting a row.

    A transaction reads under READ COMMITTED: what it reads before its advisory
    locks are granted may be stale when it writes.  [admit_event] therefore
    takes two databases, the one it reads first ([before]) and the one its
    locks protect ([db]), which it changes.  An error rolls back. *)

From S2P Require Import Prelude Text Hex Event Replacement Deletion Filter Outbound Hub Handover.

(** ** Private market kinds *)

Definition MKT_RFQ_KIND : Z := 39604.
Definition MKT_QUOTE_KIND : Z := 39605.
Definition MKT_ORDER_KIND : Z := 39606.
Definition MKT_STATUS_KIND : Z := 39607.
Definition MKT_CANCEL_KIND : Z := 39608.
Definition MKT_CLOSE_KIND : Z := 39609.
Definition MKT_SWP_SWAP_CONTRACT_KIND : Z := 39610.
Definition MKT_SWP_INTENT_ACK_KIND : Z := 39611.
Definition MKT_SWP_REDRIVE_KIND : Z := 39612.
Definition MKT_SWP_SETTLEMENT_RECEIPT_KIND : Z := 39613.
Definition MKT_P2P_RESOLUTION_KIND : Z := 39620.
Definition MKT_MINT_ROUTE_CONTRACT_KIND : Z := 39640.
Definition MKT_LSP_SERVICE_CONTRACT_KIND : Z := 39650.

Definition is_mkt_private_kind (kind : Z) : bool :=
  bool_decide (kind ∈
    [MKT_RFQ_KIND; MKT_QUOTE_KIND; MKT_ORDER_KIND; MKT_STATUS_KIND; MKT_CANCEL_KIND; MKT_CLOSE_KIND;
     MKT_SWP_SWAP_CONTRACT_KIND; MKT_SWP_INTENT_ACK_KIND; MKT_SWP_REDRIVE_KIND;
     MKT_SWP_SETTLEMENT_RECEIPT_KIND; MKT_P2P_RESOLUTION_KIND; MKT_MINT_ROUTE_CONTRACT_KIND;
     MKT_LSP_SERVICE_CONTRACT_KIND]).

Inductive MktImmutableDecision : Type := StoreFirst | Replay | Conflict.

Definition decide_mkt_immutable_admission (stored_signed_event : option (string * string))
    (candidate_event_id candidate_signature : string) : MktImmutableDecision :=
  match stored_signed_event with
  | None => StoreFirst
  | Some (stored_event_id, stored_signature) =>
      if String.eqb stored_event_id candidate_event_id && String.eqb stored_signature candidate_signature
      then Replay else Conflict
  end.

(** ** Outcomes *)

(** [CorruptRow(error.to_string())] for an error of the domain is
    [CorruptEvent error]; a database error keeps its text. *)
Inductive StoreError : Type :=
| Database (error : string)
| SDomain (error : DomainError)
| ConnectionClosed
| WorkQueueFull
| MigrationDrift (reason : string)
| InvalidPolicy (reason : string)
| Management (reason : string)
| Media (reason : string)
| QueryCancelled
| EphemeralTooLarge (bytes : Z)
| TimestampOutOfRange (field : string) (value : Z)
| InvalidLimit (value : Z)
| SSerialization (reason : string)
| CorruptRow (reason : string)
| CorruptEvent (error : DomainError)
| LegacyImport (reason : string)
| Coordination (reason : string).

Inductive AdmissionRejection : Type :=
| BlockedPubkey (reason : string)
| BlockedKind (reason : string)
| PubkeyNotAllowed
| KindNotAllowed
| NotMember
| ContentTooLarge (actual_bytes max_bytes : Z)
| TooManyTags (actual max : Z)
| TimestampTooFarInFuture (created_at latest_allowed : Z)
| TimestampTooOld (created_at earliest_allowed : Z)
| AuthEvent
| Deleted
| Superseded
| GroupNotFound
| GroupUnauthorized
| GroupClosed
| GroupAlreadyMember
| GroupUnsupportedKind
| GroupPreviousUnknown
| GroupSigningUnavailable
| MktIdempotencyConflict.

Inductive AdmissionOutcome : Type :=
| Stored (ingest_seq : Z)
| DuplicateEvent
| EphemeralEvent
| Rejected (rejection : AdmissionRejection).

(** ** The tables *)

Record EventRow : Type := mkRow {
  row_event : Event;
  row_identifier : option string;
  row_expires_at : option Z;
  row_seq : Z;
}.

#[export] Instance EventRow_eq_dec : EqDecision EventRow.
Proof. solve_decision. Defined.

Record AdmissionPolicy : Type := mkPolicy {
  closed_membership : bool;
  max_content_bytes : Z;
  max_tags : Z;
  max_future_seconds : Z;
  max_past_seconds : Z;
}.

Record Db : Type := mkDb {
  nostr_event : gmap string EventRow;
  ingest_sequence : Z;
  nostr_indexed_tag : gmap (string * string * string) Z;
  replaceable_head : gmap ReplacementAddress (string * Z);
  event_tombstone : gmap (string * string) string;
  address_tombstone : gmap ReplacementAddress (Z * string);
  mkt_immutable_coordinate : gmap ReplacementAddress (string * string);
  relay_policy : option AdmissionPolicy;
  blocked_pubkey : gmap string string;
  blocked_kind : gmap Z string;
  allowed_pubkey : gset string;
  allowed_kind : gset Z;
  relay_member : gset string;
  agent_owner : gset (string * string);
  notifications : list StoreNotification;
}.

(** The tables an admission changes, in one update. *)
Definition set_tables (db : Db) (events : gmap string EventRow) (tags : gmap (string * string * string) Z)
    (heads : gmap ReplacementAddress (string * Z)) : Db :=
  mkDb events (ingest_sequence db) tags heads (event_tombstone db) (address_tombstone db)
    (mkt_immutable_coordinate db) (relay_policy db) (blocked_pubkey db) (blocked_kind db)
    (allowed_pubkey db) (allowed_kind db) (relay_member db) (agent_owner db) (notifications db).
Definition set_tombstones (db : Db) (events : gmap (string * string) string)
    (addresses : gmap ReplacementAddress (Z * string)) : Db :=
  mkDb (nostr_event db) (ingest_sequence db) (nostr_indexed_tag db) (replaceable_head db) events addresses
    (mkt_immutable_coordinate db) (relay_policy db) (blocked_pubkey db) (blocked_kind db)
    (allowed_pubkey db) (allowed_kind db) (relay_member db) (agent_owner db) (notifications db).
Definition set_coordinates (db : Db) (coordinates : gmap ReplacementAddress (string * string)) : Db :=
  mkDb (nostr_event db) (ingest_sequence db) (nostr_indexed_tag db) (replaceable_head db)
    (event_tombstone db) (address_tombstone db) coordinates (relay_policy db) (blocked_pubkey db)
    (blocked_kind db) (allowed_pubkey db) (allowed_kind db) (relay_member db) (agent_owner db)
    (notifications db).
Definition set_sequence (db : Db) (n : Z) : Db :=
  mkDb (nostr_event db) n (nostr_indexed_tag db) (replaceable_head db) (event_tombstone db)
    (address_tombstone db) (mkt_immutable_coordinate db) (relay_policy db) (blocked_pubkey db)
    (blocked_kind db) (allowed_pubkey db) (allowed_kind db) (relay_member db) (agent_owner db)
    (notifications db).
Definition notify_commit (db : Db) (n : StoreNotification) : Db :=
  mkDb (nostr_event db) (ingest_sequence db) (nostr_indexed_tag db) (replaceable_head db)
    (event_tombstone db) (address_tombstone db) (mkt_immutable_coordinate db) (relay_policy db)
    (blocked_pubkey db) (blocked_kind db) (allowed_pubkey db) (allowed_kind db) (relay_member db)
    (agent_owner db) (notifications db ++ [n]).

(** ** Statements *)

(** [DELETE FROM nostr_event WHERE gone], with the cascades on the tag index
    and on the heads. *)
Definition delete_rows (gone : EventRow -> bool) (db : Db) : Db :=
  let events := filter (fun kv => gone kv.2 = false) (nostr_event db) in
  set_tables db events
    (filter (fun kv => is_Some (events !! kv.1.1.1)) (nostr_indexed_tag db))
    (filter (fun kv => is_Some (events !! kv.2.1)) (replaceable_head db)).

Definition pg_i64 (value : Z) (field : string) : result StoreError Z :=
  if value <=? 2 ^ 63 - 1 then Ok value else Err (TimestampOutOfRange field value).

(** [DELETE_EXPIRED_SQL], run by the expiration sweep. *)
Definition delete_expired (db : Db) (now : Z) : result StoreError Db :=
  now ← pg_i64 now "now";
  Ok (delete_rows (fun row => match row_expires_at row with Some t => t <=? now | None => false end) db).

(** [TOMBSTONE_MATCH_SQL]. *)
Definition tombstone_match (db : Db) (e : Event) (replacement : option ReplacementAddress) : bool :=
  bool_decide (is_Some (event_tombstone db !! (ev_id e, ev_pubkey e)))
  || match replacement ≫= fun a => address_tombstone db !! mkAddress (ev_kind e) (ev_pubkey e) (addr_identifier a) with
     | Some (deleted_through, _) => ev_created_at e <=? deleted_through
     | None => false
     end.

(** [INSERT_EVENT_TOMBSTONE_SQL] and [DELETE_EVENT_TARGET_SQL], or
    [INSERT_ADDRESS_TOMBSTONE_SQL] and [DELETE_ADDRESS_TARGET_SQL]. *)
Definition apply_tombstone (db : Db) (t : DeletionTombstone) : result StoreError Db :=
  match t with
  | TombEvent event_id author request_id =>
      let db := set_tombstones db
                  (match event_tombstone db !! (event_id, author) with
                   | Some _ => event_tombstone db
                   | None => <[(event_id, author) := request_id]> (event_tombstone db)
                   end) (address_tombstone db) in
      Ok (delete_rows (fun row => String.eqb (ev_id (row_event row)) event_id
                                  && String.eqb (ev_pubkey (row_event row)) author
                                  && negb (ev_kind (row_event row) =? 5)) db)
  | TombAddress address through request_id =>
      through ← pg_i64 through "deletion timestamp";
      let kept :=
        match address_tombstone db !! address with
        | Some (old, old_request) =>
            (Z.max old through, if old <? through then request_id else old_request)
        | None => (through, request_id)
        end in
      let db := set_tombstones db (event_tombstone db) (<[address := kept]> (address_tombstone db)) in
      Ok (delete_rows (fun row => (ev_kind (row_event row) =? addr_kind address)
                                  && String.eqb (ev_pubkey (row_event row)) (addr_pubkey address)
                                  && bool_decide (row_identifier row = Some (addr_identifier address))
                                  && (ev_created_at (row_event row) <=? through)) db)
  end.

Definition apply_deletion (db : Db) (request : DeletionRequest) : result StoreError Db :=
  try_fold apply_tombstone db (tombstones request).

(** [INSERT_TAG_SQL] for each indexed tag; [ON CONFLICT DO NOTHING]. *)
Definition insert_tag (e : Event) (tags : gmap (string * string * string) Z) (nv : string * string)
    : gmap (string * string * string) Z :=
  match tags !! (ev_id e, nv.1, nv.2) with
  | Some _ => tags
  | None => <[(ev_id e, nv.1, nv.2) := ev_created_at e]> tags
  end.

(** [INSERT_MKT_IMMUTABLE_COORDINATE_SQL]: both the coordinate and the event
    id are unique; [None] when nothing was inserted. *)
Definition insert_coordinate (db : Db) (address : ReplacementAddress) (e : Event) : option Db :=
  if bool_decide (is_Some (mkt_immutable_coordinate db !! address))
     || existsb (fun kv => String.eqb kv.2.1 (ev_id e)) (map_to_list (mkt_immutable_coordinate db))
  then None
  else Some (set_coordinates db (<[address := (ev_id e, ev_sig e)]> (mkt_immutable_coordinate db))).

(** ** Policy *)

(** The checks against the operator's tables, in order. *)
Definition policy_rejection (db : Db) (policy : AdmissionPolicy) (virtual_owner : option string)
    (e : Event) (now : Z) : option AdmissionRejection :=
  match blocked_pubkey db !! ev_pubkey e with Some reason => Some (BlockedPubkey reason) | None =>
  match blocked_kind db !! ev_kind e with Some reason => Some (BlockedKind reason) | None =>
  if negb (bool_decide (allowed_pubkey db = ∅) || bool_decide (ev_pubkey e ∈ allowed_pubkey db))
  then Some PubkeyNotAllowed else
  if negb (bool_decide (allowed_kind db = ∅) || bool_decide (ev_kind e ∈ allowed_kind db))
  then Some KindNotAllowed else
  let direct_member := bool_decide (ev_pubkey e ∈ relay_member db) in
  let virtual_member :=
    match virtual_owner with
    | Some owner => bool_decide ((ev_pubkey e, owner) ∈ agent_owner db) | None => false end in
  if closed_membership policy && negb direct_member && negb virtual_member then Some NotMember else
  if max_content_bytes policy <? str_len (ev_content e)
  then Some (ContentTooLarge (str_len (ev_content e)) (max_content_bytes policy)) else
  if max_tags policy <? len (ev_tags e) then Some (TooManyTags (len (ev_tags e)) (max_tags policy)) else
  let latest_allowed := saturating_add U64_MAX now (max_future_seconds policy) in
  if latest_allowed <? ev_created_at e
  then Some (TimestampTooFarInFuture (ev_created_at e) latest_allowed) else
  let earliest_allowed := Z.max 0 (now - max_past_seconds policy) in
  if (0 <? max_past_seconds policy) && (ev_created_at e <? earliest_allowed)
  then Some (TimestampTooOld (ev_created_at e) earliest_allowed) else None
  end end.

(** ** The transaction *)

Definition EPHEMERAL_MAX_BYTES : Z := 1048576.

Section admission.
Context `{SerdeJson}.

(** From the ingest lock to the commit: everything that is written. *)
Definition insert_event (db : Db) (e : Event) (expires_at : option Z)
    (replacement : option ReplacementAddress) (immutable : bool) (replaced : option string)
    (deletion : option DeletionRequest) : result StoreError (Db * AdmissionOutcome) :=
  let ingest_seq := ingest_sequence db + 1 in
  let db := set_sequence db ingest_seq in
  match nostr_event db !! ev_id e with
  | Some _ => if immutable
              then Err (CorruptRow "private MKT event exists without an immutable coordinate")
              else Ok (db, DuplicateEvent)
  | None =>
      let events := <[ev_id e := mkRow e (addr_identifier <$> replacement) expires_at ingest_seq]> (nostr_event db) in
      db ← (if immutable then
              address ← ok_or (SDomain (InvalidEvent "private MKT kind must have an addressable event class"))
                          replacement;
              ok_or (CorruptRow "private MKT coordinate changed while its address lock was held")
                (insert_coordinate db address e)
            else Ok db);
      let tags := fold_left (insert_tag e) (indexed_tags e) (nostr_indexed_tag db) in
      let heads := match replacement with
                   | Some address => if immutable then replaceable_head db
                                     else <[address := (ev_id e, ev_created_at e)]> (replaceable_head db)
                   | None => replaceable_head db
                   end in
      let db := set_tables db events tags heads in
      let db := match replaced with
                | Some old_id => if immutable then db
                                 else delete_rows (fun row => String.eqb (ev_id (row_event row)) old_id) db
                | None => db
                end in
      db ← match deletion with Some request => apply_deletion db request | None => Ok db end;
      Ok (notify_commit db (NStored ingest_seq), Stored ingest_seq)
  end.

(** From the advisory locks on. *)
Definition admit_locked (db : Db) (e : Event) (expires_at : option Z)
    (replacement : option ReplacementAddress) (deletion : option DeletionRequest)
    : result StoreError (Db * AdmissionOutcome) :=
  let immutable := is_mkt_private_kind (ev_kind e) in
  binding ← (if immutable then
               address ← ok_or (SDomain (InvalidEvent "private MKT kind must have an addressable event class"))
                           replacement;
               Ok (decide_mkt_immutable_admission (mkt_immutable_coordinate db !! address) (ev_id e) (ev_sig e))
             else Ok StoreFirst);
  match binding with
  | Replay => Ok (db, DuplicateEvent)
  | Conflict => Ok (db, Rejected MktIdempotencyConflict)
  | StoreFirst =>
      if negb immutable && bool_decide (is_Some (nostr_event db !! ev_id e)) then Ok (db, DuplicateEvent) else
      if negb (ev_kind e =? 5) && tombstone_match db e replacement then Ok (db, Rejected Deleted) else
      let head := if immutable then None else replacement ≫= fun a => replaceable_head db !! a in
      replacing ← match head with
                  | None => Ok (inl None)
                  | Some (current_id, current_created_at) =>
                      if current_created_at <? 0
                      then Err (CorruptRow "replaceable head has negative timestamp") else
                      Ok match compare_replacement_order current_created_at current_id
                                 (ev_created_at e) (ev_id e) with
                         | KeepCurrent => inr (Rejected Superseded)
                         | Duplicate => inr DuplicateEvent
                         | ReplaceCurrent => inl (Some current_id)
                         end
                  end;
      match replacing with
      | inr outcome => Ok (db, outcome)
      | inl replaced =>
          if bool_decide (class e = Ephemeral) then
            if EPHEMERAL_MAX_BYTES <? str_len (json_event e)
            then Err (EphemeralTooLarge (str_len (json_event e)))
            else Ok (notify_commit db (NEphemeral e), EphemeralEvent)
          else insert_event db e expires_at replacement immutable replaced deletion
      end
  end.

(** The expiry check, which private kinds pass through later. *)
Definition check_expiration (e : Event) (now : Z) : result StoreError unit :=
  match expiration e with
  | Some x => if x <=? now then Err (SDomain (ExpiredEvent x now)) else Ok tt
  | None => Ok tt
  end.

Inductive AdmissionMode : Type :=
| Public
| Legacy.
#[export] Instance AdmissionMode_eq_dec : EqDecision AdmissionMode.
Proof. solve_decision. Defined.

(** Group metadata by another author than the relay, whose public key
    [relay_signer] is. *)
Definition relay_only (mode : AdmissionMode) (relay_signer : option string) (e : Event) : bool :=
  bool_decide (mode = Public) && ((39000 <=? ev_kind e) && (ev_kind e <=? 39005))
  && is_none_or (fun signer => negb (String.eqb signer (ev_pubkey e))) relay_signer.

(** [admit_inner] after its validators, for an event outside any group. *)
Definition admit_event (mode : AdmissionMode) (relay_signer virtual_owner : option string) (before db : Db) (e : Event) (now : Z)
    : result StoreError (Db * AdmissionOutcome) :=
  if ev_kind e =? 22242 then Ok (db, Rejected AuthEvent) else
  let immutable := is_mkt_private_kind (ev_kind e) in
  _ ← (if immutable then Ok tt else check_expiration e now);
  _ ← pg_i64 (ev_created_at e) "created_at";
  _ ← match expiration e with Some x => pg_i64 x "expiration" | None => Ok 0 end;
  let replacement := replacement_address e in
  deletion ← (if ev_kind e =? 5 then map_err SDomain (Some <$> deletion_from_event e) else Ok None);
  early ← (if immutable then
             address ← ok_or (SDomain (InvalidEvent "private MKT kind must have an addressable event class"))
                         replacement;
             match mkt_immutable_coordinate before !! address with
             | Some binding =>
                 match decide_mkt_immutable_admission (Some binding) (ev_id e) (ev_sig e) with
                 | Replay => Ok (Some DuplicateEvent)
                 | Conflict => Ok (Some (Rejected MktIdempotencyConflict))
                 | StoreFirst => Err (CorruptRow "stored private MKT binding disappeared")
                 end
             | None => Ok None
             end
           else Ok (if bool_decide (is_Some (nostr_event before !! ev_id e)) then Some DuplicateEvent else None));
  match early with
  | Some outcome => Ok (db, outcome)
  | None =>
      _ ← (if immutable then check_expiration e now else Ok tt);
      policy ← ok_or (InvalidPolicy "singleton row is missing") (relay_policy before);
      match policy_rejection before policy virtual_owner e now with
      | Some rejection => Ok (db, Rejected rejection)
      | None =>
          if relay_only mode relay_signer e then Ok (db, Rejected GroupUnauthorized)
          else admit_locked db e (expiration e) replacement deletion
      end
  end.

(** [admit_historical]. *)
Definition admit_historical `{EventCrypto} (before db : Db) (e : Event) (now : Z)
    : result StoreError (Db * AdmissionOutcome) :=
  _ ← map_err SDomain (validate_nip01_structure e);
  _ ← map_err SDomain (validate_crypto e);
  admit_event Legacy None None before db e now.

End admission.
