(* ===== verification/StoreCorrect.v ===== *)
(** * StoreCorrect: the admission transaction keeps the database sound

    The invariant of the tables of [Store.v] and that every admission and
    every sweep keeps it, whatever the transaction read before its locks. *)

From S2P Require Import Prelude Text Hex Event Replacement Deletion Filter Outbound Hub Handover Store.

(** What [u64] and [u16] guarantee of an event. *)
Definition event_typed (e : Event) : Prop := 0 <= ev_created_at e /\ 0 <= ev_kind e <= 65535.

Definition row_ok (id : string) (row : EventRow) : Prop :=
  ev_id (row_event row) = id /\ event_typed (row_event row)
  /\ row_identifier row = addr_identifier <$> replacement_address (row_event row)
  /\ row_expires_at row = expiration (row_event row)
  /\ class (row_event row) <> Ephemeral.

Definition private (e : Event) : bool := is_mkt_private_kind (ev_kind e).

(** All but the tombstones. *)
Record tables_wf (db : Db) : Prop := {
  wf_rows id row : nostr_event db !! id = Some row ->
    row_ok id row /\ 0 < row_seq row <= ingest_sequence db;
  wf_sequence id1 id2 row1 row2 :
    nostr_event db !! id1 = Some row1 -> nostr_event db !! id2 = Some row2 ->
    row_seq row1 = row_seq row2 -> id1 = id2;
  wf_counter : 0 <= ingest_sequence db;
  wf_tags id name value t :
    nostr_indexed_tag db !! (id, name, value) = Some t
    <-> exists row, nostr_event db !! id = Some row
          /\ (name, value) ∈ indexed_tags (row_event row) /\ t = ev_created_at (row_event row);
  wf_heads a id t :
    replaceable_head db !! a = Some (id, t)
    <-> exists row, nostr_event db !! id = Some row
          /\ replacement_address (row_event row) = Some a /\ private (row_event row) = false
          /\ t = ev_created_at (row_event row);
  wf_bound id row : nostr_event db !! id = Some row -> private (row_event row) = true ->
    exists a, replacement_address (row_event row) = Some a
         /\ mkt_immutable_coordinate db !! a = Some (id, ev_sig (row_event row));
  wf_coordinates a b id s s' :
    mkt_immutable_coordinate db !! a = Some (id, s) -> mkt_immutable_coordinate db !! b = Some (id, s') -> a = b;
}.

(** Nothing that a tombstone covers is stored, deletion requests apart. *)
Definition tombstones_wf (db : Db) : Prop :=
  forall id row, nostr_event db !! id = Some row -> ev_kind (row_event row) <> 5 ->
    tombstone_match db (row_event row) (replacement_address (row_event row)) = false.

Definition store_wf (db : Db) : Prop := tables_wf db /\ tombstones_wf db.

(** ** Deleting rows *)

Lemma delete_rows_lookup gone db id row :
  nostr_event (delete_rows gone db) !! id = Some row <-> nostr_event db !! id = Some row /\ gone row = false.
Proof. cbn. by rewrite map_lookup_filter_Some. Qed.

Lemma delete_rows_wf gone db : tables_wf db -> tables_wf (delete_rows gone db).
Proof.
  intros [W1 W2 W3 W4 W5 W6 W7].
  assert (Hin : forall id, is_Some (nostr_event (delete_rows gone db) !! id)
            <-> exists row, nostr_event db !! id = Some row /\ gone row = false).
  { intros id. split; [intros [row Hrow]; exists row; by apply delete_rows_lookup|].
    intros (row & Hrow). exists row. by apply delete_rows_lookup. }
  split; try setoid_rewrite delete_rows_lookup; try done.
  - intros id row [Hrow _]. by apply W1.
  - intros id1 id2 r1 r2 [H1 _] [H2 _]. by eapply W2.
  - intros id name value t. cbn [delete_rows set_tables nostr_indexed_tag]. rewrite map_lookup_filter_Some. cbn [fst snd].
    change (filter _ (nostr_event db)) with (nostr_event (delete_rows gone db)). rewrite Hin, W4.
    split.
    + intros [(row & Hrow & Hr) (row' & Hrow' & Hg)]. exists row. naive_solver.
    + intros (row & [Hrow Hg] & Hr). naive_solver.
  - intros a id t. cbn [delete_rows set_tables replaceable_head]. rewrite map_lookup_filter_Some. cbn [fst snd].
    change (filter _ (nostr_event db)) with (nostr_event (delete_rows gone db)). rewrite Hin, W5.
    split.
    + intros [(row & Hrow & Hr) (row' & Hrow' & Hg)]. exists row. naive_solver.
    + intros (row & [Hrow Hg] & Hr). naive_solver.
  - intros id row [Hrow _]. by apply W6.
Qed.

Lemma delete_rows_tombstones gone db :
  (forall id row, nostr_event db !! id = Some row -> gone row = false -> ev_kind (row_event row) <> 5 ->
     tombstone_match db (row_event row) (replacement_address (row_event row)) = false) ->
  tombstones_wf (delete_rows gone db).
Proof. intros Ht id row [Hrow Hg]%delete_rows_lookup. by eapply Ht. Qed.

Lemma delete_rows_store_wf gone db : store_wf db -> store_wf (delete_rows gone db).
Proof.
  intros [Ht Hw]. split; [by apply delete_rows_wf|]. apply delete_rows_tombstones. intros id row Hrow _. by eapply Hw.
Qed.

Lemma set_tombstones_wf db events addresses : tables_wf db -> tables_wf (set_tombstones db events addresses).
Proof. by intros []. Qed.

(** ** Deletion requests *)

Lemma replacement_address_key e a :
  replacement_address e = Some a -> mkAddress (ev_kind e) (ev_pubkey e) (addr_identifier a) = a.
Proof. unfold replacement_address. intros Ha. repeat case_match; by simplify_eq. Qed.

Lemma replacement_address_fields e a :
  replacement_address e = Some a -> addr_kind a = ev_kind e /\ addr_pubkey a = ev_pubkey e.
Proof. unfold replacement_address. intros Ha. repeat case_match; by simplify_eq. Qed.

(** What is covered, in the terms of the domain: [tombstone_match] is
    [tombstone_deletes] of what the tables hold. *)
Lemma tombstone_match_spec db e :
  tombstone_match db e (replacement_address e) = true
  <-> is_Some (event_tombstone db !! (ev_id e, ev_pubkey e))
      \/ exists a through r, replacement_address e = Some a
           /\ address_tombstone db !! a = Some (through, r) /\ ev_created_at e <= through.
Proof.
  unfold tombstone_match. rewrite orb_true_iff, bool_decide_eq_true. apply or_iff_compat_l.
  destruct (replacement_address e) as [a|] eqn:Ha; cbn [mbind option_bind]; [|naive_solver].
  rewrite (replacement_address_key e a Ha). destruct (address_tombstone db !! a) as [[through r]|] eqn:Hat.
  - rewrite Z.leb_le. naive_solver.
  - split; [done|]. intros (a' & t & r & [= <-] & Hx & _). congruence.
Qed.

Lemma apply_tombstone_wf db t db' : store_wf db -> apply_tombstone db t = Ok db' -> store_wf db'.
Proof.
  intros [Ht Hw]. destruct t as [event_id author request|address through request]; cbn [apply_tombstone].
  - intros [= <-]. split; [by apply delete_rows_wf, set_tombstones_wf|].
    apply delete_rows_tombstones. cbn [set_tombstones nostr_event]. intros id row Hrow Hg Hk.
    specialize (Hw id row Hrow Hk). apply not_true_iff_false. apply not_true_iff_false in Hw. intros Hm. apply Hw.
    rewrite tombstone_match_spec in Hm |- *. cbn [set_tombstones event_tombstone address_tombstone] in Hm.
    destruct Hm as [Hm|Hm]; [|by right]. left. destruct (event_tombstone db !! (event_id, author)) eqn:Hold; [done|].
    destruct (decide ((event_id, author) = (ev_id (row_event row), ev_pubkey (row_event row)))) as [[= -> ->]|Hne].
    + rewrite !String.eqb_refl in Hg. cbn in Hg. by rewrite (proj2 (Z.eqb_neq _ _) Hk) in Hg.
    + by rewrite lookup_insert_ne in Hm.
  - unfold pg_i64. destruct (through <=? 2 ^ 63 - 1); [|done]. cbn [mbind result_bind]. intros [= <-].
    split; [by apply delete_rows_wf, set_tombstones_wf|].
    apply delete_rows_tombstones. cbn [set_tombstones nostr_event]. intros id row Hrow Hg Hk.
    destruct (wf_rows _ Ht _ _ Hrow) as [(_ & _ & Hident & _) _].
    specialize (Hw id row Hrow Hk). apply not_true_iff_false. apply not_true_iff_false in Hw. intros Hm. apply Hw.
    rewrite tombstone_match_spec in Hm |- *. cbn [set_tombstones event_tombstone address_tombstone] in Hm.
    destruct Hm as [Hm|(a & thr & r & Ha & Hl & Hle)]; [by left|]. right.
    destruct (decide (address = a)) as [->|Hne]; [|rewrite lookup_insert_ne in Hl by done; by exists a, thr, r].
    rewrite lookup_insert_eq in Hl. exists a.
    assert (Hnew : through < ev_created_at (row_event row)).
    { rewrite Hident, Ha in Hg. destruct (replacement_address_fields _ _ Ha) as [-> ->] in Hg.
      rewrite Z.eqb_refl, String.eqb_refl, bool_decide_eq_true_2 in Hg by done. cbn in Hg. lia. }
    destruct (address_tombstone db !! a) as [[old old_r]|]; injection Hl as <- <-; [|lia].
    exists old, old_r. split; [done|]. split; [done|]. lia.
Qed.

Lemma apply_deletion_wf db request db' : store_wf db -> apply_deletion db request = Ok db' -> store_wf db'.
Proof.
  unfold apply_deletion. generalize (tombstones request). intros l. revert db.
  induction l as [|t l IH]; intros db Hw; cbn [try_fold]; [by intros [= <-]|].
  rewrite bind_Ok. intros (db1 & H1 & H2). eapply IH; [|exact H2]. by eapply apply_tombstone_wf.
Qed.

(** ** Inserting an event *)

(** The tables after an insertion, by their lookups: the new row, and of the
    others all but the version it replaces. *)
Record inserted (db : Db) (e : Event) (replaced : option string) (db' : Db) : Prop := {
  ins_counter : ingest_sequence db' = ingest_sequence db + 1;
  ins_rows k r : nostr_event db' !! k = Some r
    <-> (k = ev_id e /\ r = mkRow e (addr_identifier <$> replacement_address e) (expiration e) (ingest_sequence db + 1))
        \/ (k <> ev_id e /\ Some k <> replaced /\ nostr_event db !! k = Some r);
  ins_tags k n v t : nostr_indexed_tag db' !! (k, n, v) = Some t
    <-> (k = ev_id e /\ (n, v) ∈ indexed_tags e /\ t = ev_created_at e)
        \/ (k <> ev_id e /\ Some k <> replaced /\ nostr_indexed_tag db !! (k, n, v) = Some t);
  ins_heads a h : replaceable_head db' !! a = Some h
    <-> (private e = false /\ replacement_address e = Some a /\ h = (ev_id e, ev_created_at e))
        \/ (~ (private e = false /\ replacement_address e = Some a)
            /\ Some h.1 <> replaced /\ replaceable_head db !! a = Some h);
  ins_coordinates :
    if private e
    then exists a, replacement_address e = Some a /\ mkt_immutable_coordinate db !! a = None
           /\ (forall b i s, mkt_immutable_coordinate db !! b = Some (i, s) -> i <> ev_id e)
           /\ mkt_immutable_coordinate db' = <[a := (ev_id e, ev_sig e)]> (mkt_immutable_coordinate db)
    else mkt_immutable_coordinate db' = mkt_immutable_coordinate db;
  ins_tombstones : event_tombstone db' = event_tombstone db /\ address_tombstone db' = address_tombstone db;
}.

(** What the checks before the insertion establish. *)
Record insertable (db : Db) (e : Event) (replaced : option string) : Prop := {
  new_typed : event_typed e;
  new_durable : class e <> Ephemeral;
  new_id : nostr_event db !! ev_id e = None;
  new_replaced old : replaced = Some old ->
    private e = false /\ exists a t, replacement_address e = Some a /\ replaceable_head db !! a = Some (old, t);
  new_head a : replaced = None -> private e = false -> replacement_address e = Some a ->
    replaceable_head db !! a = None;
  new_tombstone : ev_kind e <> 5 -> tombstone_match db e (replacement_address e) = false;
}.

Lemma inserted_heads db e replaced db' a id t :
  tables_wf db -> insertable db e replaced -> inserted db e replaced db' ->
  replaceable_head db' !! a = Some (id, t)
  <-> exists row, nostr_event db' !! id = Some row
        /\ replacement_address (row_event row) = Some a /\ private (row_event row) = false
        /\ t = ev_created_at (row_event row).
Proof.
  intros Hwf [_ _ Hid Hrep Hhead _] [_ Hrows _ Hheads _ _]. rewrite Hheads. cbn [fst]. split.
  - intros [(Hp & Ha & [= -> ->])|(Hn & Hr & Hh)].
    + eexists. split; [apply Hrows; by left|]. done.
    + apply (wf_heads _ Hwf) in Hh as (row & Hrow & Hrow'). exists row. split; [|done].
      apply Hrows. right. split; [congruence|done].
  - intros (row & Hrow & Ha & Hp & Ht). apply Hrows in Hrow as [[-> ->]|(Hne & Hr & Hrow)].
    + left. cbn in *. by rewrite Ht.
    + right. assert (Hh : replaceable_head db !! a = Some (id, t)) by (apply (wf_heads _ Hwf); by exists row).
      split; [|done]. intros [Hpe Hae]. destruct replaced as [old|].
      * destruct (Hrep old eq_refl) as (_ & a' & t' & Ha' & Hh'). naive_solver congruence.
      * rewrite (Hhead a) in Hh; done.
Qed.

Lemma inserted_tables db e replaced db' :
  tables_wf db -> insertable db e replaced -> inserted db e replaced db' -> tables_wf db'.
Proof.
  intros Hwf Hnew Hins. pose proof (fun a id t => inserted_heads db e replaced db' a id t Hwf Hnew Hins) as Hheads.
  destruct Hwf as [W1 W2 W3 W4 W5 W6 W7], Hnew as [Hty Hcl Hid _ _ _], Hins as [Hc Hrows Htags _ Hco _].
  split; [| | | |exact Hheads| |].
  - intros k r Hr. rewrite Hc. apply Hrows in Hr as [[-> ->]|(_ & _ & Hr)].
    + split; [|cbn; lia]. done.
    + destruct (W1 _ _ Hr) as [Hok Hs]. split; [done|lia].
  - intros k1 k2 r1 r2 H1 H2 Hs. apply Hrows in H1 as [[-> ->]|(_ & _ & H1)], H2 as [[-> ->]|(_ & _ & H2)];
      [done| | |by eapply W2]; cbn in Hs.
    + destruct (W1 _ _ H2) as [_ Hb]. lia.
    + destruct (W1 _ _ H1) as [_ Hb]. lia.
  - lia.
  - intros k n v t. rewrite Htags, W4. split.
    + intros [(-> & Hin & ->)|(Hne & Hr & row & Hrow & Hx)].
      * eexists. split; [apply Hrows; by left|done].
      * exists row. split; [|done]. apply Hrows. by right.
    + intros (row & Hrow & Hx). apply Hrows in Hrow as [[-> ->]|(Hne & Hr & Hrow)].
      * left. cbn in Hx. naive_solver.
      * right. split; [done|]. split; [done|]. by exists row.
  - intros k r Hr Hp. apply Hrows in Hr as [[-> ->]|(Hne & _ & Hr)].
    + cbn in Hp. rewrite Hp in Hco. destruct Hco as (a & Ha & _ & _ & ->). exists a. cbn. by rewrite lookup_insert_eq.
    + destruct (W6 _ _ Hr Hp) as (a & Ha & Hb). exists a. split; [done|].
      destruct (private e); [|by rewrite Hco]. destruct Hco as (b & _ & Hnone & _ & ->).
      rewrite lookup_insert_ne; [done|]. congruence.
  - intros a b id s s' Ha Hb. destruct (private e); [|rewrite Hco in Ha, Hb; by eapply W7].
    destruct Hco as (c & _ & _ & Hfresh & Hcoord). rewrite Hcoord in Ha, Hb.
    apply lookup_insert_Some in Ha as [[<- [= <- <-]]|[Hca Ha]], Hb as [[<- Hb]|[Hcb Hb]]; [done| | |by eapply W7].
    + by apply Hfresh in Hb.
    + injection Hb as <- <-. by apply Hfresh in Ha.
Qed.

Lemma inserted_wf db e replaced db' :
  store_wf db -> insertable db e replaced -> inserted db e replaced db' -> store_wf db'.
Proof.
  intros [Ht Hw] Hnew Hins. split; [by eapply inserted_tables|].
  intros k r Hr Hk. destruct Hins as [_ Hrows _ _ _ [He Ha]].
  assert (Hsame : forall x a, tombstone_match db' x a = tombstone_match db x a)
    by (intros x a; unfold tombstone_match; by rewrite He, Ha).
  rewrite Hsame. apply Hrows in Hr as [[-> ->]|(_ & _ & Hr)]; [|by eapply Hw].
  by apply (new_tombstone _ _ _ Hnew).
Qed.

Lemma insert_tags_lookup e l tags k n v t :
  (forall n v t, tags !! (ev_id e, n, v) = Some t -> t = ev_created_at e) ->
  fold_left (insert_tag e) l tags !! (k, n, v) = Some t
  <-> (k = ev_id e /\ (n, v) ∈ l /\ t = ev_created_at e) \/ tags !! (k, n, v) = Some t.
Proof.
  revert tags. induction l as [|[n0 v0] l IH]; intros tags Hold; cbn [fold_left].
  { rewrite elem_of_nil. naive_solver. }
  assert (Hstep : forall k n v t, insert_tag e tags (n0, v0) !! (k, n, v) = Some t
            <-> (k = ev_id e /\ (n, v) = (n0, v0) /\ t = ev_created_at e) \/ tags !! (k, n, v) = Some t).
  { intros k' n' v' t'. unfold insert_tag. cbn [fst snd].
    destruct (tags !! (ev_id e, n0, v0)) as [t0|] eqn:H0.
    - split; [by right|]. intros [(-> & [= -> ->] & ->)|?]; [|done]. by rewrite H0, (Hold _ _ _ H0).
    - rewrite lookup_insert_Some. split.
      + intros [[[= <- <- <-] <-]|[Hne Hl]]; [by left|by right].
      + intros [(-> & [= -> ->] & ->)|Hl]; [by left|]. right. split; [|done]. intros [= <- <- <-]. congruence. }
  rewrite IH.
  - rewrite Hstep, elem_of_cons. naive_solver.
  - intros n' v' t' [(_ & _ & ->)|Hx]%Hstep; [done|]. by eapply Hold.
Qed.

(** Before the replaced version goes. *)
Definition with_event (db : Db) (e : Event) (coordinates : gmap ReplacementAddress (string * string)) : Db :=
  set_tables (set_coordinates (set_sequence db (ingest_sequence db + 1)) coordinates)
    (<[ev_id e := mkRow e (addr_identifier <$> replacement_address e) (expiration e) (ingest_sequence db + 1)]>
       (nostr_event db))
    (fold_left (insert_tag e) (indexed_tags e) (nostr_indexed_tag db))
    (match replacement_address e with
     | Some a => if private e then replaceable_head db
                 else <[a := (ev_id e, ev_created_at e)]> (replaceable_head db)
     | None => replaceable_head db
     end).

Definition coordinates_after (db : Db) (e : Event) (coordinates : gmap ReplacementAddress (string * string)) : Prop :=
  if private e
  then exists a, replacement_address e = Some a /\ mkt_immutable_coordinate db !! a = None
         /\ (forall b i s, mkt_immutable_coordinate db !! b = Some (i, s) -> i <> ev_id e)
         /\ coordinates = <[a := (ev_id e, ev_sig e)]> (mkt_immutable_coordinate db)
  else coordinates = mkt_immutable_coordinate db.

Lemma with_event_heads db e a h :
  (match replacement_address e with
   | Some a => if private e then replaceable_head db
               else <[a := (ev_id e, ev_created_at e)]> (replaceable_head db)
   | None => replaceable_head db
   end) !! a = Some h
  <-> (private e = false /\ replacement_address e = Some a /\ h = (ev_id e, ev_created_at e))
      \/ (~ (private e = false /\ replacement_address e = Some a) /\ replaceable_head db !! a = Some h).
Proof.
  destruct (replacement_address e) as [a'|]; [destruct (private e)|]; [naive_solver| |naive_solver].
  rewrite lookup_insert_Some. split; [|naive_solver].
  intros [[-> <-]|[Hne Hh]]; [by left|right]. split; [|done]. naive_solver.
Qed.

Lemma with_event_tags db e :
  tables_wf db -> nostr_event db !! ev_id e = None ->
  forall k n v t, fold_left (insert_tag e) (indexed_tags e) (nostr_indexed_tag db) !! (k, n, v) = Some t
    <-> (k = ev_id e /\ (n, v) ∈ indexed_tags e /\ t = ev_created_at e)
        \/ (k <> ev_id e /\ nostr_indexed_tag db !! (k, n, v) = Some t).
Proof.
  intros Hwf Hid k n v t.
  assert (Hnone : forall n v t, nostr_indexed_tag db !! (ev_id e, n, v) <> Some t).
  { intros n' v' t' Hx. apply (wf_tags _ Hwf) in Hx as (row & Hrow & _). congruence. }
  rewrite insert_tags_lookup by (intros n' v' t' Hx; by destruct (Hnone n' v' t')).
  split; [|naive_solver]. intros [?|Hx]; [by left|right]. split; [|done]. intros ->. by destruct (Hnone n v t).
Qed.

Lemma inserted_fresh db e coordinates :
  tables_wf db -> insertable db e None -> coordinates_after db e coordinates ->
  inserted db e None (with_event db e coordinates).
Proof.
  intros Hwf Hnew Hco. destruct Hnew as [_ _ Hid _ _ _].
  split; cbn [with_event set_tables set_coordinates set_sequence nostr_event ingest_sequence nostr_indexed_tag
              replaceable_head mkt_immutable_coordinate event_tombstone address_tombstone]; try done.
  - intros k r. rewrite lookup_insert_Some. naive_solver.
  - intros k n v t. rewrite with_event_tags by done. naive_solver.
  - intros a h. rewrite with_event_heads. naive_solver.
Qed.

Lemma inserted_replacing db e coordinates old :
  tables_wf db -> insertable db e (Some old) -> coordinates_after db e coordinates ->
  inserted db e (Some old)
    (delete_rows (fun row => String.eqb (ev_id (row_event row)) old) (with_event db e coordinates)).
Proof.
  intros Hwf Hnew Hco. destruct Hnew as [_ _ Hid Hrep _ _].
  destruct (Hrep old eq_refl) as (Hp & a0 & t0 & Ha0 & Hh0).
  destruct (proj1 (wf_heads _ Hwf _ _ _) Hh0) as (row0 & Hrow0 & _).
  assert (Hne : old <> ev_id e) by congruence.
  assert (Hrows : forall k r, nostr_event (delete_rows (fun row => String.eqb (ev_id (row_event row)) old)
      (with_event db e coordinates)) !! k = Some r
    <-> (k = ev_id e /\ r = mkRow e (addr_identifier <$> replacement_address e) (expiration e) (ingest_sequence db + 1))
        \/ (k <> ev_id e /\ Some k <> Some old /\ nostr_event db !! k = Some r)).
  { intros k r. rewrite delete_rows_lookup. cbn [with_event set_tables nostr_event]. rewrite lookup_insert_Some.
    rewrite String.eqb_neq. split.
    - intros [[[<- <-]|[Hk Hr]] Hg]; [by left|right]. destruct (wf_rows _ Hwf _ _ Hr) as [(Hrid & _) _].
      split; [done|]. split; [congruence|done].
    - intros [[-> ->]|(Hk & Ho & Hr)]; [by split; [left|]|]. destruct (wf_rows _ Hwf _ _ Hr) as [(Hrid & _) _].
      split; [by right|]. congruence. }
  assert (Hlive : forall k, is_Some (nostr_event (delete_rows (fun row => String.eqb (ev_id (row_event row)) old)
      (with_event db e coordinates)) !! k)
    <-> k = ev_id e \/ (k <> ev_id e /\ k <> old /\ is_Some (nostr_event db !! k))).
  { intros k. split.
    - intros [r [[-> _]|(H1 & H2 & H3)]%Hrows]; [by left|right]. split; [done|]. split; [congruence|by eexists].
    - intros [->|(H1 & H2 & [r H3])]; [eexists; apply Hrows; by left|]. exists r. apply Hrows. right.
      split; [done|]. split; [congruence|done]. }
  split; try done.
  - intros k n v t. cbn [delete_rows set_tables nostr_indexed_tag]. rewrite map_lookup_filter_Some. cbn [fst snd].
    change (filter _ (nostr_event (with_event db e coordinates))) with
      (nostr_event (delete_rows (fun row => String.eqb (ev_id (row_event row)) old) (with_event db e coordinates))).
    rewrite Hlive. cbn [with_event set_tables nostr_indexed_tag]. rewrite with_event_tags by done. split.
    + naive_solver.
    + intros [?|(Hk & Ho & Hx)]; [naive_solver|]. split; [by right|]. right. split; [done|]. split; [congruence|].
      apply (wf_tags _ Hwf) in Hx as (row & Hrow & _). by eexists.
  - intros a h. cbn [delete_rows set_tables replaceable_head]. rewrite map_lookup_filter_Some. cbn [fst snd].
    change (filter _ (nostr_event (with_event db e coordinates))) with
      (nostr_event (delete_rows (fun row => String.eqb (ev_id (row_event row)) old) (with_event db e coordinates))).
    rewrite Hlive. cbn [with_event set_tables replaceable_head]. rewrite with_event_heads. destruct h as [id t]. split.
    + intros [[?|[Hn Hh]] Hl]; [by left|right]. split; [done|]. split; [|done]. cbn in *.
      apply (wf_heads _ Hwf) in Hh as (row & Hrow & _). naive_solver congruence.
    + intros [(? & ? & [= -> ->])|(Hn & Ho & Hh)]; [naive_solver|]. split; [by right|]. right. cbn in *.
      apply (wf_heads _ Hwf) in Hh as (row & Hrow & _). split; [congruence|]. split; [congruence|by eexists].
Qed.

Section admission_lemmas.
Context `{SerdeJson}.

Lemma insert_event_spec db e replaced deletion db' out :
  tables_wf db -> insertable db e replaced ->
  insert_event db e (expiration e) (replacement_address e) (private e) replaced deletion = Ok (db', out) ->
  out = Stored (ingest_sequence db + 1)
  /\ exists db1 db2, inserted db e replaced db1
       /\ match deletion with Some r => apply_deletion db1 r = Ok db2 | None => db2 = db1 end
       /\ db' = notify_commit db2 (NStored (ingest_sequence db + 1)).
Proof.
  intros Hwf Hnew. unfold insert_event. cbn [set_sequence nostr_event]. rewrite (new_id _ _ _ Hnew).
  rewrite bind_Ok. intros (dbc & Hdbc & Hrest).
  assert (Hco : exists coordinates, dbc = set_coordinates (set_sequence db (ingest_sequence db + 1)) coordinates
            /\ coordinates_after db e coordinates).
  { unfold coordinates_after. destruct (private e).
    - apply bind_Ok in Hdbc as (a & Ha & Hdbc). apply ok_or_Ok in Ha, Hdbc. unfold insert_coordinate in Hdbc.
      cbn [set_sequence mkt_immutable_coordinate] in Hdbc.
      destruct (bool_decide_reflect (is_Some (mkt_immutable_coordinate db !! a))) as [|Hnone]; [done|].
      cbn [orb] in Hdbc. destruct (existsb _ _) eqn:Hex; [done|]. injection Hdbc as <-.
      eexists. split; [done|]. exists a. split; [done|]. split; [by apply eq_None_not_Some|]. split; [|done].
      intros b i s Hb ->. apply not_true_iff_false in Hex. apply Hex, existsb_exists.
      exists (b, (ev_id e, s)). split; [by apply list_elem_of_In, elem_of_map_to_list|]. cbn. apply String.eqb_refl.
    - injection Hdbc as <-. exists (mkt_immutable_coordinate db). by destruct db. }
  destruct Hco as (coordinates & -> & Hco). apply bind_Ok in Hrest as (db2 & Hdel & Hout). injection Hout as <- <-.
  split; [done|].
  match type of Hdel with match _ with Some r => apply_deletion ?d r | None => _ end = _ => exists d, db2 end.
  assert (Hins : forall (d : Db), d = match replaced with
       | Some old_id => if private e then with_event db e coordinates
                        else delete_rows (fun row => String.eqb (ev_id (row_event row)) old_id) (with_event db e coordinates)
       | None => with_event db e coordinates end -> inserted db e replaced d).
  { intros d ->. destruct replaced as [old|]; [|by apply inserted_fresh].
    destruct (new_replaced _ _ _ Hnew old eq_refl) as [Hp _]. rewrite Hp. by apply inserted_replacing. }
  split; [by apply Hins|]. split; [|done]. destruct deletion; [done|]. by injection Hdel as <-.
Qed.

(** The checks of the locked part lead to an insertion, or to nothing. *)
Lemma admit_locked_cases db e deletion db' out :
  tables_wf db -> event_typed e ->
  admit_locked db e (expiration e) (replacement_address e) deletion = Ok (db', out) ->
  (db' = db /\ (out = DuplicateEvent \/ out = Rejected MktIdempotencyConflict \/ out = Rejected Superseded
                \/ (out = Rejected Deleted /\ ev_kind e <> 5
                    /\ tombstone_match db e (replacement_address e) = true)))
  \/ (db' = notify_commit db (NEphemeral e) /\ out = EphemeralEvent /\ class e = Ephemeral)
  \/ (exists replaced, insertable db e replaced
        /\ insert_event db e (expiration e) (replacement_address e) (private e) replaced deletion = Ok (db', out)).
Proof.
  intros Hwf Hty. unfold admit_locked. fold (private e). rewrite bind_Ok. intros (binding & Hb & Hrest).
  destruct binding; [|injection Hrest as <- <-; left; tauto..].
  destruct (negb (private e) && bool_decide (is_Some (nostr_event db !! ev_id e))) eqn:Hdup;
    [injection Hrest as <- <-; left; tauto|].
  destruct (negb (ev_kind e =? 5) && tombstone_match db e (replacement_address e)) eqn:Htomb.
  { injection Hrest as <- <-. left. apply andb_true_iff in Htomb as [Hk Ht]. split; [done|].
    right; right; right. split; [done|]. split; [lia|done]. }
  apply bind_Ok in Hrest as (replacing & Hr & Hrest).
  destruct replacing as [replaced|outcome].
  2:{ injection Hrest as <- <-. left. split; [done|].
      destruct (if private e then None else _) as [[cid cts]|]; [|done].
      destruct (cts <? 0); [done|]. injection Hr. destruct (compare_replacement_order _ _ _ _); naive_solver. }
  destruct (bool_decide_reflect (class e = Ephemeral)) as [Hcl|Hcl].
  { destruct (EPHEMERAL_MAX_BYTES <? _); [done|]. injection Hrest as <- <-. right; left. done. }
  right; right. exists replaced. split; [|done].
  assert (Hnew : nostr_event db !! ev_id e = None).
  { destruct (nostr_event db !! ev_id e) as [row|] eqn:Hrow; [|done]. exfalso.
    destruct (private e) eqn:Hp.
    - unfold insert_event in Hrest. cbn [set_sequence nostr_event] in Hrest. by rewrite Hrow in Hrest.
    - rewrite bool_decide_eq_true_2 in Hdup by (by eexists). done. }
  split; [done|done|done| | |].
  - intros old ->. destruct (private e); [done|]. split; [done|].
    destruct (replacement_address e) as [a|]; cbn [mbind option_bind] in Hr; [|done].
    destruct (replaceable_head db !! a) as [[cid cts]|] eqn:Hh; [|done].
    destruct (cts <? 0); [done|]. exists a, cts. split; [done|]. rewrite Hh.
    destruct (compare_replacement_order _ _ _ _); naive_solver.
  - intros a -> Hp Ha. rewrite Hp, Ha in Hr. cbn [mbind option_bind] in Hr.
    destruct (replaceable_head db !! a) as [[cid cts]|]; [|done]. destruct (cts <? 0); [done|].
    destruct (compare_replacement_order _ _ _ _); done.
  - intros Hk. rewrite (proj2 (Z.eqb_neq _ _) Hk) in Htomb. exact Htomb.
Qed.

Lemma notify_commit_wf db n : store_wf db -> store_wf (notify_commit db n).
Proof. intros [[] Hw]. by split. Qed.

Lemma admit_locked_wf db e deletion db' out :
  store_wf db -> event_typed e ->
  admit_locked db e (expiration e) (replacement_address e) deletion = Ok (db', out) -> store_wf db'.
Proof.
  intros Hwf Hty Ha. apply admit_locked_cases in Ha as [[-> _]|[(-> & _)|(replaced & Hnew & Hins)]]; [done| | |apply Hwf|done].
  - by apply notify_commit_wf.
  - apply insert_event_spec in Hins as (_ & db1 & db2 & Hi & Hd & ->); [|apply Hwf|done].
    apply notify_commit_wf. assert (store_wf db1) by by eapply inserted_wf.
    destruct deletion; [by eapply apply_deletion_wf|by subst].
Qed.

(** ** Later databases *)

(** What no operation takes back. *)
Record later (db db' : Db) : Prop := {
  later_coordinates : mkt_immutable_coordinate db ⊆ mkt_immutable_coordinate db';
  later_events k : is_Some (event_tombstone db !! k) -> is_Some (event_tombstone db' !! k);
  later_addresses a t r : address_tombstone db !! a = Some (t, r) ->
    exists t' r', address_tombstone db' !! a = Some (t', r') /\ t <= t';
  later_sequence : ingest_sequence db <= ingest_sequence db';
}.

Ltac same_addresses :=
  let H := fresh in intros ? ? ? H; eexists _, _; split; [exact H|lia].

#[export] Instance later_preorder : PreOrder later.
Proof.
  split.
  - intros db. split; [done|done|same_addresses|lia].
  - intros x y z [A1 A2 A3 A4] [B1 B2 B3 B4]. split; [by etrans|by auto| |lia].
    intros a t r Ha. destruct (A3 _ _ _ Ha) as (t1 & r1 & Ht1 & Hle). destruct (B3 _ _ _ Ht1) as (t2 & r2 & Ht2 & Hle2).
    exists t2, r2. split; [done|lia].
Qed.

Lemma delete_rows_later gone db : later db (delete_rows gone db).
Proof. split; [done|done|same_addresses|cbn; lia]. Qed.

Lemma apply_tombstone_later db t db' : apply_tombstone db t = Ok db' -> later db db'.
Proof.
  destruct t as [event_id author request|address through request]; cbn [apply_tombstone].
  - intros [= <-]. etrans; [|apply delete_rows_later]. split; cbn; [done| |same_addresses|lia].
    intros k Hk. destruct (event_tombstone db !! (event_id, author)) eqn:Hold; [done|].
    apply lookup_insert_is_Some. destruct (decide ((event_id, author) = k)); [by left|by right].
  - unfold pg_i64. destruct (through <=? 2 ^ 63 - 1); [|done]. cbn [mbind result_bind]. intros [= <-].
    etrans; [|apply delete_rows_later]. split; cbn; [done|done| |lia].
    intros a t r Ha. destruct (decide (address = a)) as [->|Hne]; [|rewrite lookup_insert_ne by done; exists t, r; split; [done|lia]].
    rewrite lookup_insert_eq, Ha. eexists _, _. split; [done|]. lia.
Qed.

Lemma apply_deletion_later db request db' : apply_deletion db request = Ok db' -> later db db'.
Proof.
  unfold apply_deletion. generalize (tombstones request). intros l. revert db.
  induction l as [|t l IH]; intros db; cbn [try_fold]; [by intros [= <-]|].
  rewrite bind_Ok. intros (db1 & H1%apply_tombstone_later & H2%IH). by etrans.
Qed.

Lemma inserted_later db e replaced db' : inserted db e replaced db' -> later db db'.
Proof.
  intros [Hc _ _ _ Hco [He Ha]]. split; [|by rewrite He|rewrite Ha; same_addresses|lia].
  destruct (private e); [|by rewrite Hco]. destruct Hco as (a & _ & Hnone & _ & ->). by apply insert_subseteq.
Qed.

Lemma notify_commit_later db n : later db (notify_commit db n).
Proof. split; [done|done|same_addresses|cbn; lia]. Qed.

Lemma admit_locked_later db e deletion db' out :
  tables_wf db -> event_typed e ->
  admit_locked db e (expiration e) (replacement_address e) deletion = Ok (db', out) -> later db db'.
Proof.
  intros Hwf Hty Ha. apply admit_locked_cases in Ha as [[-> _]|[(-> & _)|(replaced & Hnew & Hins)]]; [done| | |done|done].
  - apply notify_commit_later.
  - apply insert_event_spec in Hins as (_ & db1 & db2 & Hi & Hd & ->); [|done|done].
    etrans; [by eapply inserted_later|]. etrans; [|apply notify_commit_later].
    destruct deletion; [by eapply apply_deletion_later|by subst].
Qed.

(** ** The whole handler *)

(** Up to its locks an admission changes nothing. *)
Lemma admit_event_cases mode relay_signer virtual_owner before db e now db' out :
  admit_event mode relay_signer virtual_owner before db e now = Ok (db', out) ->
  db' = db \/ exists deletion, (ev_kind e = 5 -> deletion_from_event e = Ok deletion)
    /\ admit_locked db e (expiration e) (replacement_address e)
         (if ev_kind e =? 5 then Some deletion else None) = Ok (db', out).
Proof.
  unfold admit_event. destruct (ev_kind e =? 22242); [by intros [= <- _]; left|].
  rewrite !bind_Ok. intros (_ & _ & Hx). apply bind_Ok in Hx as (_ & _ & Hx). apply bind_Ok in Hx as (_ & _ & Hx).
  apply bind_Ok in Hx as (deletion & Hd & Hx). apply bind_Ok in Hx as (early & _ & Hx).
  destruct early as [outcome|]; [injection Hx as <- _; by left|].
  apply bind_Ok in Hx as (_ & _ & Hx). apply bind_Ok in Hx as (policy & _ & Hx).
  destruct (policy_rejection _ _ _ _ _); [injection Hx as <- _; by left|].
  destruct (relay_only _ _ _); [injection Hx as <- _; by left|]. right.
  destruct (Z.eqb_spec (ev_kind e) 5) as [Hk|Hk].
  - destruct (deletion_from_event e) as [d|] eqn:He; cbn in Hd; [|done]. injection Hd as <-. by exists d.
  - injection Hd as <-. exists (mkDeletion "" "" 0 ∅ ∅). split; [done|exact Hx].
Qed.

End admission_lemmas.
