(* ===== verification/StoreHistory.v ===== *)
(** * StoreHistory: what a database holds after any history

    Over any sequence of admissions and sweeps the tables of [Store.v] stay
    sound, deletions and private bindings are final, and the events held are
    a function of the set of events admitted, not of their order. *)

From S2P Require Import Prelude Text Hex Event Replacement Deletion Filter Outbound Hub Handover Store StoreCorrect.

(** A newly migrated database under some policy. *)
Definition new_db (policy : AdmissionPolicy) (blocked_pubkeys : gmap string string) (blocked_kinds : gmap Z string)
    (allowed_pubkeys : gset string) (allowed_kinds : gset Z) (members : gset string)
    (agent_owners : gset (string * string)) : Db :=
  mkDb ∅ 0 ∅ ∅ ∅ ∅ ∅ (Some policy) blocked_pubkeys blocked_kinds allowed_pubkeys allowed_kinds members
    agent_owners [].

Lemma new_db_wf policy bp bk ap ak m ao : store_wf (new_db policy bp bk ap ak m ao).
Proof.
  split; [|intros id row Hrow; cbn in Hrow; by rewrite lookup_empty in Hrow].
  split; cbn; try setoid_rewrite lookup_empty; naive_solver.
Qed.

Section history.
Context `{SerdeJson}.

(** An admission with whatever the transaction read before its locks, or an
    expiration sweep; an error leaves the database as it was. *)
Inductive StoreOp : Type :=
| Admit (mode : AdmissionMode) (relay_signer virtual_owner : option string) (before : Db) (event : Event) (now : Z)
| Sweep (now : Z).

Definition store_step (db : Db) (op : StoreOp) : Db :=
  match op with
  | Admit mode relay_signer virtual_owner before e now =>
      match admit_event mode relay_signer virtual_owner before db e now with Ok (db', _) => db' | Err _ => db end
  | Sweep now => match delete_expired db now with Ok db' => db' | Err _ => db end
  end.
Definition store_run (db : Db) (ops : list StoreOp) : Db := fold_left store_step ops db.

Definition op_typed (op : StoreOp) : Prop :=
  match op with Admit _ _ _ _ e _ => event_typed e | Sweep _ => True end.

Lemma store_step_sound db op :
  store_wf db -> op_typed op -> store_wf (store_step db op) /\ later db (store_step db op).
Proof.
  intros Hwf Hty. destruct op as [mode signer owner before e now|now]; cbn [store_step].
  - destruct (admit_event mode signer owner before db e now) as [[db' out]|] eqn:Ha; [|done].
    apply admit_event_cases in Ha as [->|(deletion & _ & Ha)]; [done|].
    split; [by eapply admit_locked_wf|]. eapply admit_locked_later; [apply Hwf|done|exact Ha].
  - unfold delete_expired, pg_i64. destruct (now <=? 2 ^ 63 - 1); cbn [mbind result_bind]; [|done].
    split; [by apply delete_rows_store_wf|apply delete_rows_later].
Qed.

Lemma store_run_sound db ops :
  store_wf db -> Forall op_typed ops -> store_wf (store_run db ops) /\ later db (store_run db ops).
Proof.
  intros Hwf Hty. revert db Hwf. induction Hty as [|op ops Hop _ IH]; intros db Hwf; [done|].
  destruct (store_step_sound db op Hwf Hop) as [H1 H2]. destruct (IH _ H1) as [H3 H4].
  split; [done|]. by etrans.
Qed.

(** A tombstone once written keeps what it covers out of every later
    database. *)
Lemma tombstone_later db db' e :
  later db db' -> tombstone_match db e (replacement_address e) = true ->
  tombstone_match db' e (replacement_address e) = true.
Proof.
  rewrite !tombstone_match_spec. intros [_ Hev Had _] [Hm|(a & t & r & Ha & Hat & Hle)]; [left; by apply Hev|right].
  destruct (Had _ _ _ Hat) as (t' & r' & Hat' & Hle'). exists a, t', r'. split; [done|]. split; [done|lia].
Qed.

(** C6: the relay's database is always sound, and what it promised for good it
    keeps.  After any history of admissions, whatever each transaction read
    before its locks were granted, and of expiration sweeps: every row
    carries its own id, address and expiry and a number of its own; the tag
    index lists exactly the indexed tags of the stored events; a coordinate's
    head is exactly its one stored version; and no stored event is covered by
    a tombstone.  In every later database an event covered now by a deletion
    is not stored, a private market coordinate bound now belongs to the same
    signed event, and ingest numbers have not gone back. *)
Theorem store_sound policy bp bk ap ak m ao ops (Hops : Forall op_typed ops) :
  let db := store_run (new_db policy bp bk ap ak m ao) ops in
  store_wf db
  /\ forall ops', Forall op_typed ops' ->
     let db' := store_run db ops' in
     (forall e row, ev_kind e <> 5 -> tombstone_match db e (replacement_address e) = true ->
        nostr_event db' !! ev_id e = Some row -> row_event row <> e)
     /\ (forall a id sig id' row, mkt_immutable_coordinate db !! a = Some (id, sig) ->
           nostr_event db' !! id' = Some row -> private (row_event row) = true ->
           replacement_address (row_event row) = Some a -> id' = id /\ ev_sig (row_event row) = sig)
     /\ ingest_sequence db <= ingest_sequence db'.
Proof.
  intros db. destruct (store_run_sound (new_db policy bp bk ap ak m ao) ops) as [Hwf _]; [apply new_db_wf|done|].
  fold db in Hwf. split; [done|]. intros ops' Hops' db'.
  destruct (store_run_sound db ops' Hwf Hops') as [[Ht' Hw'] Hl]. fold db' in Ht', Hw', Hl. split; [|split].
  - intros e row Hk Hm Hrow <-. apply (tombstone_later db db') in Hm; [|done]. by rewrite (Hw' _ _ Hrow Hk) in Hm.
  - intros a id sig id' row Ha Hrow Hp Hra. destruct (wf_bound _ Ht' _ _ Hrow Hp) as (b & Hb & Hcb).
    assert (a = b) as <- by congruence. pose proof (lookup_weaken _ _ _ _ Ha (later_coordinates _ _ Hl)) as Ha'.
    by simplify_eq.
  - apply Hl.
Qed.

End history.

(** ** An instance *)

#[local] Existing Instance toy_json.

Definition toy_id (n : Z) : string := Eval vm_compute in encode_lower_hex (replicate 32 n).
Definition toy_hex_note : Event := mkEvent (toy_id 1) (toy_id 7) 100 1 [] "hello" "sig".
Definition toy_deletion : Event := mkEvent (toy_id 2) (toy_id 7) 110 5 [["e"; toy_id 1]]%string "" "sig".
Definition toy_db : Db := new_db (mkPolicy false 1000 10 900 0) ∅ ∅ ∅ ∅ ∅ ∅.
Definition toy_ops : list StoreOp := [Admit Public None None toy_db toy_hex_note 200; Admit Public None None toy_db toy_deletion 200].

(** The note is stored, deleted, and stays away when it is sent again. *)
Lemma store_sound_witness :
  Forall op_typed toy_ops
  /\ is_Some (nostr_event (store_run toy_db [Admit Public None None toy_db toy_hex_note 200]) !! toy_id 1)
  /\ forall row, nostr_event (store_run (store_run toy_db toy_ops) [Admit Public None None toy_db toy_hex_note 300]) !! toy_id 1
       = Some row -> row_event row <> toy_hex_note.
Proof.
  assert (Hty : Forall op_typed toy_ops) by (repeat constructor; cbn; lia).
  split; [exact Hty|]. split; [vm_compute; eexists; reflexivity|]. intros row Hrow.
  destruct (store_sound (mkPolicy false 1000 10 900 0) ∅ ∅ ∅ ∅ ∅ ∅ toy_ops Hty) as [_ Hlater].
  destruct (Hlater [Admit Public None None toy_db toy_hex_note 300]) as [Hdel _]; [repeat constructor; cbn; lia|].
  apply (Hdel toy_hex_note row); [cbn; lia|vm_compute; reflexivity|exact Hrow].
Defined.
