(* ===== verification/StoreConverge.v ===== *)
(** * StoreConverge: when the stored events are a function of the admitted set

    The locked part of the admission of [Store.v], over any list of public
    durable events from an empty database: what is stored at the end lies
    between two set specifications, which agree, so that order and repetition
    do not matter, exactly when no coordinate has its last version deleted and
    an earlier one not. *)

From S2P Require Import Prelude Text Hex Event Replacement Deletion Filter Outbound Hub Handover Store StoreCorrect.
From S2P Require Import StoreHistory.

(** ** The specification *)

Definition deletion_of (e : Event) : option DeletionRequest :=
  if ev_kind e =? 5 then match deletion_from_event e with Ok d => Some d | Err _ => None end else None.

Definition deletes (d e : Event) : Prop :=
  exists r, deletion_of d = Some r /\ request_deletes r e = true.

(** A version of a coordinate. *)
Definition version (e : Event) : Z * string := (ev_created_at e, ev_id e).

#[export] Instance deletes_dec d e : Decision (deletes d e).
Proof.
  refine (cast_if (decide (match deletion_of d with Some r => request_deletes r e | None => false end = true)));
    unfold deletes; destruct (deletion_of d) as [r|]; naive_solver.
Defined.

(** No deletion request of the set covers [e]. *)
Definition undeleted (es : list Event) (e : Event) : Prop := Forall (fun d => ~ deletes d e) es.

(** [e] is of the set, no deletion of the set covers it, and of the versions
    of its coordinate it is the last. *)
Definition survives (es : list Event) (e : Event) : Prop :=
  e ∈ es /\ undeleted es e
  /\ forall a e', replacement_address e = Some a -> e' ∈ es -> replacement_address e' = Some a ->
       e' = e \/ supersedes (version e) (version e').

(** A coordinate with an undeleted version has its last version undeleted. *)
Definition settled (es : list Event) : Prop :=
  forall e a, e ∈ es -> undeleted es e -> replacement_address e = Some a ->
    exists m, survives es m /\ replacement_address m = Some a.

(** The events of a run: public, durable, of distinct ids, in the range of
    the database's timestamps. *)
Record admissible (es : list Event) : Prop := {
  adm_typed e : e ∈ es -> event_typed e /\ ev_created_at e <= 2 ^ 63 - 1;
  adm_public e : e ∈ es -> private e = false /\ class e <> Ephemeral;
  adm_ids e e' : e ∈ es -> e' ∈ es -> ev_id e = ev_id e' -> e = e';
}.

Lemma admissible_sub es es' : (forall e, e ∈ es' -> e ∈ es) -> admissible es -> admissible es'.
Proof.
  intros Hsub [A1 A2 A3]. split; [intros e He; by apply A1, Hsub|intros e He; by apply A2, Hsub|].
  intros e e' He He'. by apply A3; apply Hsub.
Qed.

Lemma undeleted_spec es e : undeleted es e <-> forall d, d ∈ es -> ~ deletes d e.
Proof. apply Forall_forall. Qed.

Lemma undeleted_same es es' e : (forall x, x ∈ es <-> x ∈ es') -> undeleted es e <-> undeleted es' e.
Proof. intros Hs. rewrite !undeleted_spec. by setoid_rewrite Hs. Qed.

Lemma survives_same es es' e : (forall x, x ∈ es <-> x ∈ es') -> survives es e <-> survives es' e.
Proof. intros Hs. unfold survives. rewrite (undeleted_same es es') by done. by setoid_rewrite Hs. Qed.

Lemma deletion_of_Some d r :
  deletion_of d = Some r -> ev_kind d = 5 /\ del_author r = ev_pubkey d /\ del_created_at r = ev_created_at d.
Proof.
  unfold deletion_of, deletion_from_event. destruct (Z.eqb_spec (ev_kind d) 5) as [Hk|]; [|done]. cbn.
  destruct (fold_left _ _ _). by intros [= <-].
Qed.

Lemma deletes_not_request d e : deletes d e -> ev_kind e <> 5.
Proof. intros (r & _ & Hr). by apply request_deletes_spec in Hr as [Hk _]. Qed.

Lemma addressed_kind e a : replacement_address e = Some a -> ev_kind e <> 5.
Proof. unfold replacement_address, class. intros Ha H5. by rewrite H5 in Ha. Qed.

(** ** The effect of a deletion *)

Lemma apply_tombstone_effect db t db' :
  tables_wf db -> apply_tombstone db t = Ok db' ->
  (forall k row, nostr_event db' !! k = Some row
     <-> nostr_event db !! k = Some row /\ tombstone_deletes t (row_event row) = false)
  /\ (forall k, is_Some (event_tombstone db' !! k)
        <-> is_Some (event_tombstone db !! k) \/ exists id au r, t = TombEvent id au r /\ k = (id, au))
  /\ (forall a x, (exists y r, address_tombstone db' !! a = Some (y, r) /\ x <= y)
        <-> (exists y r, address_tombstone db !! a = Some (y, r) /\ x <= y)
            \/ exists y r, t = TombAddress a y r /\ x <= y).
Proof.
  intros Hwf. destruct t as [event_id author request|address through request]; cbn [apply_tombstone].
  - intros [= <-]. split; [|split].
    + intros k row. rewrite delete_rows_lookup. cbn [set_tombstones nostr_event]. apply and_iff_compat_l.
      unfold tombstone_deletes. destruct (ev_kind (row_event row) =? 5); [by rewrite andb_false_r|by rewrite andb_true_r].
    + intros k. cbn [delete_rows set_tables set_tombstones event_tombstone].
      destruct (event_tombstone db !! (event_id, author)) as [r0|] eqn:Hold.
      * split; [by left|]. intros [?|(id & au & r & [= -> -> ->] & ->)]; [done|by rewrite Hold].
      * rewrite lookup_insert_is_Some'. split; [|naive_solver].
        intros [<-|?]; [right; by eexists _, _, _|by left].
    + intros a x. cbn [delete_rows set_tables set_tombstones address_tombstone]. naive_solver.
  - unfold pg_i64. destruct (through <=? 2 ^ 63 - 1); [|done]. cbn [mbind result_bind]. intros [= <-].
    split; [|split].
    + intros k row. rewrite delete_rows_lookup. cbn [set_tombstones nostr_event]. split; intros [Hrow Hg]; (split; [done|]).
      all: destruct (wf_rows _ Hwf _ _ Hrow) as [(_ & _ & Hident & _) _]; rewrite Hident in *; unfold tombstone_deletes in *.
      all: destruct (replacement_address (row_event row)) as [a|] eqn:Ha; cbn [fmap option_fmap option_map] in *.
      all: rewrite ?andb_false_r in *; try (by destruct (_ =? 5)).
      * destruct (replacement_address_fields _ _ Ha) as [Hk Hp]. destruct (Z.eqb_spec (ev_kind (row_event row)) 5); [done|].
        destruct (bool_decide_reflect (Some a = Some address)) as [[= ->]|Hne]; [|apply andb_false_r].
        rewrite <- Hk, <- Hp, Z.eqb_refl, String.eqb_refl, bool_decide_eq_true_2 in Hg by done.
        cbn in Hg. by rewrite Hg.
      * destruct (replacement_address_fields _ _ Ha) as [Hk Hp].
        destruct (Z.eqb_spec (ev_kind (row_event row)) (addr_kind address)) as [Hk'|]; [|done].
        destruct (String.eqb_spec (ev_pubkey (row_event row)) (addr_pubkey address)) as [Hp'|]; [|done].
        destruct (bool_decide_reflect (Some (addr_identifier a) = Some (addr_identifier address))) as [[= Hi]|]; [|done].
        assert (a = address) as -> by (destruct a, address; cbn in *; congruence). cbn [andb].
        rewrite bool_decide_eq_true_2, andb_true_r in Hg by done. destruct (Z.eqb_spec (ev_kind (row_event row)) 5) as [H5|]; [|done].
        by destruct (addressed_kind _ _ Ha).
    + intros k. cbn [delete_rows set_tables set_tombstones event_tombstone]. naive_solver.
    + intros a x. cbn [delete_rows set_tables set_tombstones address_tombstone].
      destruct (decide (address = a)) as [->|Hne].
      * rewrite lookup_insert_eq. destruct (address_tombstone db !! a) as [[old old_r]|].
        -- split.
           ++ intros (y & r & [= <- <-] & Hx). destruct (Z.le_gt_cases x old); [left; eauto|right]. eexists _, _. split; [done|lia].
           ++ intros [(y & r & [= <- <-] & Hx)|(y & r & [= -> ->] & Hx)]; eexists _, _; (split; [done|lia]).
        -- naive_solver.
      * rewrite lookup_insert_ne by done. naive_solver.
Qed.

Lemma apply_tombstones_effect ts db db' :
  store_wf db -> try_fold apply_tombstone db ts = Ok db' ->
  (forall k row, nostr_event db' !! k = Some row
     <-> nostr_event db !! k = Some row /\ existsb (fun t => tombstone_deletes t (row_event row)) ts = false)
  /\ (forall k, is_Some (event_tombstone db' !! k)
        <-> is_Some (event_tombstone db !! k) \/ exists id au r, TombEvent id au r ∈ ts /\ k = (id, au))
  /\ (forall a x, (exists y r, address_tombstone db' !! a = Some (y, r) /\ x <= y)
        <-> (exists y r, address_tombstone db !! a = Some (y, r) /\ x <= y)
            \/ exists y r, TombAddress a y r ∈ ts /\ x <= y).
Proof.
  revert db. induction ts as [|t ts IH]; intros db Hwf; cbn [try_fold existsb].
  { intros [= <-]. setoid_rewrite elem_of_nil. split; [|split]; intros; [tauto| |]; (split; [by left|]);
      (intros [?|(? & ? & Hx)]; [done|]); destruct Hx; naive_solver. }
  rewrite bind_Ok. intros (db1 & H1 & H2).
  destruct (apply_tombstone_effect db t db1) as (E1 & E2 & E3); [apply Hwf|done|].
  apply apply_tombstone_wf in H1 as Hwf1; [|done]. destruct (IH db1 Hwf1 H2) as (F1 & F2 & F3).
  setoid_rewrite elem_of_cons. split; [|split].
  - intros k row. rewrite F1, E1, orb_false_iff. tauto.
  - intros k. rewrite F2, E2. split.
    + intros [[?|(id & au & r & -> & ->)]|(id & au & r & Hin & ->)]; [by left|right; eexists _, _, _; by split; [left|]|].
      right; eexists _, _, _. by split; [right|].
    + intros [?|(id & au & r & [<-|Hin] & ->)]; [by left; left|left; right; by eexists _, _, _|right; by eexists _, _, _].
  - intros a x. rewrite F3, E3. split.
    + intros [[?|(y & r & -> & Hx)]|(y & r & Hin & Hx)]; [by left|right; eexists _, _; by split; [left|]|].
      right; eexists _, _. by split; [right|].
    + intros [?|(y & r & [<-|Hin] & Hx)]; [by left; left|left; right; by eexists _, _|right; by eexists _, _].
Qed.

Lemma apply_deletion_effect db r db' :
  store_wf db -> apply_deletion db r = Ok db' ->
  (forall k row, nostr_event db' !! k = Some row
     <-> nostr_event db !! k = Some row /\ request_deletes r (row_event row) = false)
  /\ (forall id au, is_Some (event_tombstone db' !! (id, au))
        <-> is_Some (event_tombstone db !! (id, au)) \/ (id ∈ del_event_ids r /\ au = del_author r))
  /\ (forall a x, (exists y q, address_tombstone db' !! a = Some (y, q) /\ x <= y)
        <-> (exists y q, address_tombstone db !! a = Some (y, q) /\ x <= y)
            \/ (a ∈ del_addresses r /\ x <= del_created_at r)).
Proof.
  intros Hwf Hd. destruct (apply_tombstones_effect _ _ _ Hwf Hd) as (E1 & E2 & E3). split; [exact E1|]. split.
  - intros id au. rewrite E2. apply or_iff_compat_l. unfold tombstones. setoid_rewrite elem_of_app.
    setoid_rewrite list_elem_of_fmap. setoid_rewrite elem_of_elements. split.
    + intros (i & u & q & [(j & [= -> -> ->] & Hj)|(j & Hx & _)] & [= -> ->]); [done|done].
    + intros [Hi ->]. eexists _, _, _. split; [left; by eexists|done].
  - intros a x. rewrite E3. apply or_iff_compat_l. unfold tombstones. setoid_rewrite elem_of_app.
    setoid_rewrite list_elem_of_fmap. setoid_rewrite elem_of_elements. split.
    + intros (y & q & [(j & Hx & _)|(j & [= -> -> ->] & Hj)] & Hle); [done|done].
    + intros [Ha Hle]. eexists _, _. split; [right; by eexists|done].
Qed.

Lemma apply_deletion_total db r : del_created_at r <= 2 ^ 63 - 1 -> exists db', apply_deletion db r = Ok db'.
Proof.
  intros Hr. unfold apply_deletion.
  assert (Hall : Forall (fun t => match t with TombAddress _ y _ => y <= 2 ^ 63 - 1 | _ => True end) (tombstones r)).
  { unfold tombstones. apply Forall_app. split; apply Forall_fmap, Forall_true; [done|by intros a]. }
  revert db. induction Hall as [|t ts Ht _ IH]; intros db; cbn [try_fold]; [by eexists|].
  destruct t as [id au q|a y q]; cbn [apply_tombstone mbind result_bind]; [apply IH|].
  unfold pg_i64. replace (y <=? 2 ^ 63 - 1) with true by lia. cbn [mbind result_bind]. apply IH.
Qed.

Section converge.
Context `{SerdeJson}.

(** ** One public durable event under the locks *)

Lemma admit_locked_public db e :
  tables_wf db -> event_typed e -> private e = false -> class e <> Ephemeral ->
  let outcome := admit_locked db e (expiration e) (replacement_address e) (deletion_of e) in
  (is_Some (nostr_event db !! ev_id e) /\ outcome = Ok (db, DuplicateEvent))
  \/ (ev_kind e <> 5 /\ tombstone_match db e (replacement_address e) = true /\ outcome = Ok (db, Rejected Deleted))
  \/ (exists a id t, replacement_address e = Some a /\ replaceable_head db !! a = Some (id, t)
        /\ supersedes (t, id) (version e) /\ outcome = Ok (db, Rejected Superseded))
  \/ (exists replaced, insertable db e replaced
        /\ (forall old, replaced = Some old -> exists a t, replacement_address e = Some a
              /\ replaceable_head db !! a = Some (old, t) /\ supersedes (version e) (t, old))
        /\ outcome = insert_event db e (expiration e) (replacement_address e) false replaced (deletion_of e)).
Proof.
  intros Hwf Hty Hp Hcl. cbv zeta. unfold admit_locked. fold (private e). rewrite Hp. cbn [mbind result_bind negb andb].
  destruct (bool_decide_reflect (is_Some (nostr_event db !! ev_id e))) as [Hin|Hnin]; [by left|right].
  apply eq_None_not_Some in Hnin.
  destruct (negb (ev_kind e =? 5) && tombstone_match db e (replacement_address e)) eqn:Ht.
  { left. apply andb_true_iff in Ht as [Hk Ht]. split; [lia|done]. }
  assert (Htomb : ev_kind e <> 5 -> tombstone_match db e (replacement_address e) = false)
    by (intros Hk; by rewrite (proj2 (Z.eqb_neq _ _) Hk) in Ht).
  right. rewrite (bool_decide_eq_false_2 (class e = Ephemeral)) by done.
  destruct (replacement_address e) as [a|] eqn:Ha; cbn [mbind option_bind].
  2:{ right. exists None. split; [|split; [done|done]]. by split; rewrite ?Ha. }
  destruct (replaceable_head db !! a) as [[id t]|] eqn:Hh.
  2:{ right. exists None. split; [|split; [done|done]]. split; rewrite ?Ha; try done. by intros b _ _ [= <-]. }
  destruct (proj1 (wf_heads _ Hwf _ _ _) Hh) as (row & Hrow & _ & _ & Ht').
  destruct (wf_rows _ Hwf _ _ Hrow) as [(Hrid & [Hpos _] & _) _].
  replace (t <? 0) with false by lia. cbn [mbind result_bind].
  pose proof (compare_replacement_order_spec (t, id) (version e)) as Hcmp. cbn [fst snd version] in Hcmp.
  destruct (compare_replacement_order t id (ev_created_at e) (ev_id e)).
  - left. destruct Hcmp as [_ Hs]. exists a, id, t. done.
  - right. destruct Hcmp as [_ Hs]. exists (Some id). split; [|split; [|done]].
    + split; rewrite ?Ha; try done. intros old [= <-]. split; [done|]. by exists a, t.
    + intros old [= <-]. by exists a, t.
  - congruence.
Qed.

(** ** The invariant of a run *)

Definition stored (db : Db) (e : Event) : Prop :=
  exists row, nostr_event db !! ev_id e = Some row /\ row_event row = e.

(** The rows are undeleted events of the set, and an undeleted event that is
    not stored was beaten by another version of its coordinate. *)
Definition beaten (es : list Event) (e : Event) : Prop :=
  exists a e', replacement_address e = Some a /\ e' ∈ es /\ replacement_address e' = Some a
    /\ supersedes (version e') (version e).

Record tracks (es : list Event) (db : Db) : Prop := {
  tr_wf : store_wf db;
  tr_stored e : stored db e -> e ∈ es /\ undeleted es e;
  tr_beaten e : e ∈ es -> undeleted es e -> stored db e \/ beaten es e;
  tr_events id au : is_Some (event_tombstone db !! (id, au))
    <-> exists d r, d ∈ es /\ deletion_of d = Some r /\ id ∈ del_event_ids r /\ au = del_author r;
  tr_addresses a x : (exists y q, address_tombstone db !! a = Some (y, q) /\ x <= y)
    <-> exists d r, d ∈ es /\ deletion_of d = Some r /\ a ∈ del_addresses r /\ x <= del_created_at r;
}.

Lemma stored_row db id row : tables_wf db -> nostr_event db !! id = Some row -> stored db (row_event row) /\ ev_id (row_event row) = id.
Proof.
  intros Hwf Hrow. destruct (wf_rows _ Hwf _ _ Hrow) as [(Hid & _) _]. split; [|done].
  exists row. by rewrite Hid.
Qed.

(** The tombstones held are those of the deletions admitted. *)
Lemma tracks_match es db e :
  tracks es db -> ev_kind e <> 5 ->
  tombstone_match db e (replacement_address e) = true <-> exists d, d ∈ es /\ deletes d e.
Proof.
  intros [_ _ _ Hev Had] Hk. rewrite tombstone_match_spec, Hev. unfold deletes. setoid_rewrite request_deletes_spec. split.
  - intros [(d & r & Hd & Hr & Hi & Ha)|(a & y & q & Ha & Hat & Hle)].
    + exists d. split; [done|]. exists r. split; [done|]. split; [done|]. by left.
    + destruct (proj1 (Had a (ev_created_at e))) as (d & r & Hd & Hr & Hin & Hx); [by exists y, q|].
      exists d. split; [done|]. exists r. split; [done|]. split; [done|]. right. by exists a.
  - intros (d & Hd & r & Hr & _ & [[Hi Hu]|(a & Ha & Hle & Hra)]); [left; by exists d, r|right].
    destruct (proj2 (Had a (ev_created_at e))) as (y & q & Hat & Hy); [by exists d, r|]. by exists a, y, q.
Qed.

Lemma match_undeleted es db e :
  tracks es db -> (ev_kind e <> 5 -> tombstone_match db e (replacement_address e) = false) -> undeleted es e.
Proof.
  intros Htr Ht. rewrite undeleted_spec. intros d Hd Hde. pose proof (deletes_not_request _ _ Hde) as Hk.
  pose proof (Ht Hk) as Hf. apply not_true_iff_false in Hf. apply Hf, (tracks_match es db e Htr Hk). by exists d.
Qed.

(** A coordinate has at most one row. *)
Lemma stored_unique es db x y a :
  admissible es -> tracks es db -> stored db x -> stored db y ->
  replacement_address x = Some a -> replacement_address y = Some a -> x = y.
Proof.
  intros Hadm Htr Hx Hy Hxa Hya.
  assert (Hhead : forall z, stored db z -> replacement_address z = Some a ->
            replaceable_head db !! a = Some (ev_id z, ev_created_at z)).
  { intros z Hz Hza. pose proof (tr_stored _ _ Htr z Hz) as [Hin _]. destruct Hz as (row & Hrow & <-).
    apply (wf_heads _ (proj1 (tr_wf _ _ Htr))). exists row. split; [done|]. split; [done|]. split; [by apply Hadm|done]. }
  pose proof (Hhead x Hx Hxa). pose proof (Hhead y Hy Hya).
  apply (adm_ids _ Hadm); [by apply (tr_stored _ _ Htr)..|congruence].
Qed.

(** The last version of a coordinate. *)
Lemma last_version (es : list Event) a :
  (forall e e', e ∈ es -> e' ∈ es -> ev_id e = ev_id e' -> e = e') ->
  (exists e, e ∈ es /\ replacement_address e = Some a) ->
  exists w, w ∈ es /\ replacement_address w = Some a
    /\ forall v, v ∈ es -> replacement_address v = Some a -> v = w \/ supersedes (version w) (version v).
Proof.
  induction es as [|e es IH]; intros Hids [e0 [He0 Ha0]]; [by apply elem_of_nil in He0|].
  assert (Hids' : forall x y, x ∈ es -> y ∈ es -> ev_id x = ev_id y -> x = y)
    by (intros x y Hx Hy; apply Hids; by apply list_elem_of_further).
  destruct (decide (Exists (fun v => replacement_address v = Some a) es)) as [Hex|Hnex].
  - apply Exists_exists in Hex. destruct (IH Hids' Hex) as (w & Hw & Hwa & Hbest).
    destruct (decide (replacement_address e = Some a)) as [Hea|Hea].
    + destruct (supersedes_total (version w) (version e)) as [Heq|[Hs|Hs]].
      * exists w. split; [by apply list_elem_of_further|]. split; [done|]. intros v [->|Hv]%elem_of_cons Hva; [|by apply Hbest].
        left. apply Hids; [apply list_elem_of_here|by apply list_elem_of_further|]. by injection Heq.
      * exists w. split; [by apply list_elem_of_further|]. split; [done|].
        intros v [->|Hv]%elem_of_cons Hva; [by right|by apply Hbest].
      * exists e. split; [apply list_elem_of_here|]. split; [done|]. intros v [->|Hv]%elem_of_cons Hva; [by left|right].
        destruct (Hbest v Hv Hva) as [->|Hs']; [done|]. by eapply supersedes_trans.
    + exists w. split; [by apply list_elem_of_further|]. split; [done|].
      intros v [->|Hv]%elem_of_cons Hva; [congruence|by apply Hbest].
  - exists e0. split; [done|]. split; [done|].
    assert (Hnone : forall v, v ∈ es -> replacement_address v <> Some a)
      by (intros v Hv Hva; apply Hnex, Exists_exists; by exists v).
    intros v Hv Hva. left. apply elem_of_cons in He0 as [->|He0]; [|by destruct (Hnone _ He0)].
    apply elem_of_cons in Hv as [->|Hv]; [done|by destruct (Hnone _ Hv)].
Qed.

(** ** One step *)

Lemma tracks_ext es es' db :
  (forall e, e ∈ es <-> e ∈ es') -> tracks es db -> tracks es' db.
Proof.
  intros Heq [T1 T2 T3 T4 T5]. split; [done| | | |].
  - intros e He. rewrite <- Heq, <- (undeleted_same es es') by done. by apply T2.
  - intros e. rewrite <- Heq, <- (undeleted_same es es') by done. unfold beaten. setoid_rewrite <- Heq. apply T3.
  - intros id au. rewrite T4. by setoid_rewrite Heq.
  - intros a x. rewrite T5. by setoid_rewrite Heq.
Qed.

Lemma deletion_of_none e : ev_kind e <> 5 -> deletion_of e = None.
Proof. intros Hk. unfold deletion_of. by rewrite (proj2 (Z.eqb_neq _ _) Hk). Qed.

Lemma elem_of_snoc {A} (l : list A) x y : y ∈ l ++ [x] <-> y ∈ l \/ y = x.
Proof. by rewrite elem_of_app, list_elem_of_singleton. Qed.

Lemma undeleted_snoc es e x : undeleted (es ++ [e]) x <-> undeleted es x /\ ~ deletes e x.
Proof. unfold undeleted. by rewrite Forall_app, Forall_singleton. Qed.

Lemma beaten_snoc es e x : beaten es x -> beaten (es ++ [e]) x.
Proof. intros (a & y & Ha & Hy & Hs). exists a, y. split; [done|]. split; [|done]. apply elem_of_snoc. by left. Qed.

Lemma deletions_snoc (P : DeletionRequest -> Prop) es e :
  (exists d r, d ∈ es ++ [e] /\ deletion_of d = Some r /\ P r)
  <-> (exists d r, d ∈ es /\ deletion_of d = Some r /\ P r) \/ exists r, deletion_of e = Some r /\ P r.
Proof. setoid_rewrite elem_of_snoc. naive_solver. Qed.

(** An event that is refused leaves the tables as they were. *)
Lemma tracks_refused es db e :
  tracks es db -> ev_kind e <> 5 -> ~ undeleted es e \/ beaten es e -> tracks (es ++ [e]) db.
Proof.
  intros [T1 T2 T3 T4 T5] Hk Hout. pose proof (deletion_of_none e Hk) as Hnone.
  assert (Hnd : forall x, ~ deletes e x) by (intros x (r & Hr & _); congruence).
  split; [done| | | |].
  - intros x Hx. rewrite elem_of_snoc, undeleted_snoc. destruct (T2 x Hx). auto.
  - intros x [Hx| ->]%elem_of_snoc [Hu _]%undeleted_snoc.
    + destruct (T3 x Hx Hu); [by left|right; by apply beaten_snoc].
    + destruct Hout; [done|right; by apply beaten_snoc].
  - intros id au. rewrite T4, deletions_snoc. rewrite Hnone. naive_solver.
  - intros a x. rewrite T5, deletions_snoc. rewrite Hnone. naive_solver.
Qed.

Lemma insert_event_total db e replaced :
  insertable db e replaced -> ev_created_at e <= 2 ^ 63 - 1 ->
  exists db' out, insert_event db e (expiration e) (replacement_address e) false replaced (deletion_of e) = Ok (db', out).
Proof.
  intros Hnew Hts. unfold insert_event. cbn [set_sequence nostr_event]. rewrite (new_id _ _ _ Hnew).
  cbn [mbind result_bind]. destruct (deletion_of e) as [r|] eqn:Hr; [|by eexists _, _].
  destruct (deletion_of_Some _ _ Hr) as (_ & _ & Hc).
  match goal with |- context [apply_deletion ?d r] => destruct (apply_deletion_total d r) as [db' ->]; [lia|] end.
  by eexists _, _.
Qed.

Lemma inserted_stored db e replaced db1 x :
  inserted db e replaced db1 -> stored db1 x <-> x = e \/ (ev_id x <> ev_id e /\ Some (ev_id x) <> replaced /\ stored db x).
Proof.
  intros [_ Hrows _ _ _ _]. unfold stored. setoid_rewrite Hrows. split.
  - intros (row & [[Hid ->]|(Hid & Hr & Hrow)] & Hx); [by left|right]. split; [done|]. split; [done|]. by exists row.
  - intros [->|(Hid & Hr & row & Hrow & Hx)]; [eexists; split; [by left|done]|]. exists row. split; [by right|done].
Qed.

(** The tables after an insertion, the deletion the event asks for
    included. *)
Lemma insert_event_effect db e replaced db' out :
  store_wf db -> private e = false -> insertable db e replaced ->
  insert_event db e (expiration e) (replacement_address e) false replaced (deletion_of e) = Ok (db', out) ->
  store_wf db'
  /\ (forall x, stored db' x
        <-> (x = e \/ (ev_id x <> ev_id e /\ Some (ev_id x) <> replaced /\ stored db x)) /\ ~ deletes e x)
  /\ (forall id au, is_Some (event_tombstone db' !! (id, au))
        <-> is_Some (event_tombstone db !! (id, au))
            \/ exists r, deletion_of e = Some r /\ id ∈ del_event_ids r /\ au = del_author r)
  /\ (forall a x, (exists y q, address_tombstone db' !! a = Some (y, q) /\ x <= y)
        <-> (exists y q, address_tombstone db !! a = Some (y, q) /\ x <= y)
            \/ exists r, deletion_of e = Some r /\ a ∈ del_addresses r /\ x <= del_created_at r).
Proof.
  intros Hwf Hp Hnew Hins. rewrite <- Hp in Hins.
  apply insert_event_spec in Hins as (_ & db1 & db2 & Hi & Hd & ->); [|apply Hwf|done].
  pose proof (inserted_wf _ _ _ _ Hwf Hnew Hi) as Hwf1.
  pose proof (fun x => inserted_stored db e replaced db1 x Hi) as Hst.
  destruct (ins_tombstones _ _ _ _ Hi) as [Hte Hta].
  destruct (deletion_of e) as [r|] eqn:Hr.
  - pose proof (apply_deletion_wf _ _ _ Hwf1 Hd) as Hwf2. destruct (apply_deletion_effect _ _ _ Hwf1 Hd) as (E1 & E2 & E3).
    split; [by apply notify_commit_wf|]. split; [|split].
    + intros x. rewrite <- Hst. unfold stored. cbn [notify_commit nostr_event]. setoid_rewrite E1. split.
      * intros (row & [Hrow Hreq] & <-). split; [by exists row|]. intros (r' & Hr' & Hx). congruence.
      * intros [(row & Hrow & <-) Hn]. exists row. split; [|done]. split; [done|]. apply not_true_iff_false.
        intros Hx. apply Hn. by exists r.
    + intros id au. cbn [notify_commit event_tombstone]. rewrite E2, Hte. naive_solver.
    + intros a x. cbn [notify_commit address_tombstone]. rewrite E3, Hta. naive_solver.
  - subst db2. split; [by apply notify_commit_wf|]. split; [|split].
    + intros x. rewrite <- Hst. split; [|tauto]. intros Hx. split; [exact Hx|]. intros (r & Hr' & _). congruence.
    + intros id au. cbn [notify_commit event_tombstone]. rewrite Hte. naive_solver.
    + intros a x. cbn [notify_commit address_tombstone]. rewrite Hta. naive_solver.
Qed.

Lemma tracks_inserted es db e replaced db' out :
  tracks es db -> admissible (es ++ [e]) -> insertable db e replaced ->
  (forall old, replaced = Some old -> exists a t, replacement_address e = Some a
     /\ replaceable_head db !! a = Some (old, t) /\ supersedes (version e) (t, old)) ->
  insert_event db e (expiration e) (replacement_address e) false replaced (deletion_of e) = Ok (db', out) ->
  tracks (es ++ [e]) db'.
Proof.
  intros Htr Hadm Hnew Hrep Hins.
  assert (He : e ∈ es ++ [e]) by (apply elem_of_snoc; by right).
  destruct (insert_event_effect db e replaced db' out) as (Hwf' & Hst & Hev & Had);
    [apply Htr|by apply Hadm|done|done|].
  assert (Hself : ~ deletes e e).
  { intros Hee. pose proof (deletes_not_request _ _ Hee) as Hk. destruct Hee as (r & Hr & _).
    by rewrite (deletion_of_none e Hk) in Hr. }
  split; [done| | | |].
  - intros x [[->|(_ & _ & Hx)] Hde]%Hst; rewrite elem_of_snoc, undeleted_snoc.
    + split; [by right|]. split; [|done]. eapply match_undeleted; [done|]. apply Hnew.
    + destruct (tr_stored _ _ Htr x Hx). auto.
  - intros x Hx [Hu Hde]%undeleted_snoc. rewrite Hst.
    destruct (decide (x = e)) as [->|Hne]; [left; by split; [left|]|].
    apply elem_of_snoc in Hx as [Hx|]; [|done].
    destruct (tr_beaten _ _ Htr x Hx Hu) as [Hsx|Hb]; [|right; by apply beaten_snoc].
    assert (Hid : ev_id x <> ev_id e).
    { intros Hid. apply Hne, (adm_ids _ Hadm); [|done|done]. apply elem_of_snoc. by left. }
    destruct (decide (Some (ev_id x) = replaced)) as [Hr|Hr]; [right|left; by split; [right|]].
    destruct (Hrep _ (eq_sym Hr)) as (a & t & Ha & Hh & Hs).
    apply (wf_heads _ (proj1 (tr_wf _ _ Htr))) in Hh as (row & Hrow & Hra & _ & Ht).
    destruct Hsx as (row' & Hrow' & <-). assert (row' = row) as -> by congruence.
    exists a, e. split; [done|]. split; [done|]. split; [done|]. unfold version. by rewrite <- Ht.
  - intros id au. by rewrite Hev, (tr_events _ _ Htr), deletions_snoc.
  - intros a x. by rewrite Had, (tr_addresses _ _ Htr), deletions_snoc.
Qed.

Lemma tracks_step es db e :
  tracks es db -> admissible (es ++ [e]) ->
  exists db' out, admit_locked db e (expiration e) (replacement_address e) (deletion_of e) = Ok (db', out)
    /\ tracks (es ++ [e]) db'.
Proof.
  intros Htr Hadm. pose proof (tr_wf _ _ Htr) as [Hwf _].
  assert (He : e ∈ es ++ [e]) by (apply elem_of_snoc; by right).
  destruct (adm_typed _ Hadm e He) as [Hty Hts], (adm_public _ Hadm e He) as [Hp Hcl].
  destruct (admit_locked_public db e Hwf Hty Hp Hcl)
    as [[[row Hrow] ->]|[(Hk & Ht & ->)|[(a & id & t & Ha & Hh & Hs & ->)|(replaced & Hnew & Hrep & ->)]]].
  - eexists _, _. split; [done|]. destruct (stored_row _ _ _ Hwf Hrow) as [Hst Hid].
    apply (tr_stored _ _ Htr) in Hst as (Hin & _).
    assert (row_event row = e) as <- by (apply (adm_ids _ Hadm); [apply elem_of_snoc; by left|done|done]).
    eapply tracks_ext; [|exact Htr]. intros x. rewrite elem_of_snoc. naive_solver.
  - eexists _, _. split; [done|]. pose proof (proj1 (tracks_match es db e Htr Hk) Ht) as (d & Hd & Hde).
    apply tracks_refused; [done|done|]. left. rewrite undeleted_spec. intros Hu. by apply (Hu d).
  - eexists _, _. split; [done|]. apply (wf_heads _ Hwf) in Hh as (row & Hrow & Hra & _ & ->).
    destruct (stored_row _ _ _ Hwf Hrow) as [Hst Hid]. apply (tr_stored _ _ Htr) in Hst as (Hin & _).
    apply tracks_refused; [done|by eapply addressed_kind|]. right. exists a, (row_event row).
    split; [done|]. split; [done|]. split; [done|]. unfold version at 1. by rewrite Hid.
  - destruct (insert_event_total db e replaced Hnew Hts) as (db' & out & Hins). rewrite Hins.
    eexists _, _. split; [done|]. by eapply tracks_inserted.
Qed.

(** What is stored lies between the survivors and the undeleted events. *)
Lemma tracks_survives es db e : tracks es db -> survives es e -> stored db e.
Proof.
  intros Htr (He & Hu & Hbest). destruct (tr_beaten _ _ Htr e He Hu) as [|(a & y & Ha & Hy & Hya & Hs)]; [done|].
  destruct (Hbest a y Ha Hy Hya) as [->|Hs']; [by destruct (supersedes_irrefl (version e))|].
  destruct (supersedes_irrefl (version e)). by eapply supersedes_trans.
Qed.

Lemma tracks_settled es db e : admissible es -> tracks es db -> settled es -> stored db e <-> survives es e.
Proof.
  intros Hadm Htr Hset. split; [|by apply tracks_survives]. intros Hst. pose proof (tr_stored _ _ Htr e Hst) as [He Hu].
  destruct (replacement_address e) as [a|] eqn:Ha; [|by split; [|split; [|intros a y Hay; congruence]]].
  destruct (Hset e a He Hu Ha) as (m & Hm & Hma).
  assert (m = e) as <-; [|done]. by eapply stored_unique; [| |eapply tracks_survives| | |].
Qed.

(** ** Runs *)

Definition locked_run (db : Db) (es : list Event) : result StoreError Db :=
  try_fold (fun db e => fst <$> admit_locked db e (expiration e) (replacement_address e) (deletion_of e)) db es.

Lemma locked_run_app db es es' : locked_run db (es ++ es') = db' ← locked_run db es; locked_run db' es'.
Proof. apply try_fold_app. Qed.

Lemma locked_run_tracks es : forall db done,
  tracks done db -> admissible (done ++ es) ->
  exists db', locked_run db es = Ok db' /\ tracks (done ++ es) db'.
Proof.
  induction es as [|e es IH]; intros db done Htr Hadm.
  { exists db. rewrite app_nil_r. done. }
  change (e :: es) with ([e] ++ es) in Hadm |- *. rewrite app_assoc in Hadm |- *.
  destruct (tracks_step done db e) as (db1 & out & Hstep & Htr1); [done| |].
  { eapply admissible_sub; [|exact Hadm]. intros x Hx. apply elem_of_app. by left. }
  destruct (IH db1 (done ++ [e]) Htr1 Hadm) as (db' & Hrun & Htr').
  exists db'. split; [|done]. unfold locked_run in *. cbn [app try_fold]. rewrite Hstep. exact Hrun.
Qed.

Lemma tracks_new policy bp bk ap ak m ao : tracks [] (new_db policy bp bk ap ak m ao).
Proof.
  assert (Hnone : forall d : Event, d ∈ [] -> False) by (intros d; apply elem_of_nil).
  split; [apply new_db_wf| | | |].
  - intros e (row & Hrow & _). cbn in Hrow. by rewrite lookup_empty in Hrow.
  - intros e He. by destruct (Hnone e).
  - intros id au. cbn. rewrite lookup_empty. split; [by intros []|naive_solver].
  - intros a x. cbn. rewrite lookup_empty. naive_solver.
Qed.

(** ** Two orders *)

(** Events that a tombstone held covers are refused. *)
Lemma locked_run_covered db done es :
  tracks done db -> admissible (done ++ es) -> Forall (fun e => ev_kind e <> 5 /\ ~ undeleted done e) es ->
  locked_run db es = Ok db.
Proof.
  intros Htr Hadm Hcov. induction es as [|e es IH]; [done|]. apply Forall_cons in Hcov as [[Hk Hdel] Hcov].
  assert (He : e ∈ done ++ e :: es) by (apply elem_of_app; right; apply list_elem_of_here).
  destruct (adm_typed _ Hadm e He) as [Hty _], (adm_public _ Hadm e He) as [Hp Hcl].
  assert (Hstep : exists out, admit_locked db e (expiration e) (replacement_address e) (deletion_of e) = Ok (db, out)).
  { destruct (admit_locked_public db e (proj1 (tr_wf _ _ Htr)) Hty Hp Hcl)
      as [[_ ->]|[(_ & _ & ->)|[(a & id & t & _ & _ & _ & ->)|(replaced & Hnew & _ & _)]]]; [by eexists..|].
    destruct Hdel. eapply match_undeleted; [done|]. apply Hnew. }
  destruct Hstep as [out Hstep]. unfold locked_run in *. cbn [try_fold]. rewrite Hstep. cbn.
  apply IH; [|done]. eapply admissible_sub; [|exact Hadm]. intros x. rewrite !elem_of_app, elem_of_cons. tauto.
Qed.

(** A deletion request stores nothing but itself. *)
Lemma locked_run_requests db done es db' x :
  tracks done db -> admissible (done ++ es) -> Forall (fun e => ev_kind e = 5) es ->
  locked_run db es = Ok db' -> stored db' x -> ev_kind x <> 5 -> stored db x.
Proof.
  revert db done. induction es as [|e es IH]; intros db done Htr Hadm H5 Hrun Hx Hk; [by injection Hrun as ->|].
  apply Forall_cons in H5 as [He5 H5]. change (e :: es) with ([e] ++ es) in Hadm. rewrite app_assoc in Hadm.
  assert (Hadm1 : admissible (done ++ [e]))
    by (eapply admissible_sub; [|exact Hadm]; intros y Hy; apply elem_of_app; by left).
  destruct (tracks_step done db e Htr Hadm1) as (db1 & out & Hstep & Htr1).
  unfold locked_run in Hrun. cbn [try_fold] in Hrun. rewrite Hstep in Hrun. cbn in Hrun.
  pose proof (IH db1 (done ++ [e]) Htr1 Hadm H5 Hrun Hx Hk) as Hx1.
  assert (He : e ∈ done ++ [e]) by (apply elem_of_snoc; by right).
  destruct (adm_typed _ Hadm1 e He) as [Hty _], (adm_public _ Hadm1 e He) as [Hp Hcl].
  destruct (admit_locked_public db e (proj1 (tr_wf _ _ Htr)) Hty Hp Hcl)
    as [[_ Ho]|[(Hk5 & _)|[(a & id & t & Ha & _)|(replaced & Hnew & _ & Ho)]]].
  - rewrite Hstep in Ho. by injection Ho as -> _.
  - done.
  - by destruct (addressed_kind _ _ Ha).
  - rewrite Hstep in Ho. symmetry in Ho. apply insert_event_effect in Ho as (_ & Hst & _); [|apply Htr|done|done].
    apply Hst in Hx1 as [[->|(_ & _ & Hs)] _]; done.
Qed.

Lemma elem_of_parts (f g : Event -> bool) es x :
  x ∈ List.filter f es ++ List.filter (fun e => negb (f e) && g e) es
      ++ List.filter (fun e => negb (f e) && negb (g e)) es <-> x ∈ es.
Proof.
  rewrite !elem_of_app, !elem_of_bfilter. destruct (f x), (g x); cbn; tauto.
Qed.

Definition request (e : Event) : bool := ev_kind e =? 5.

(** The requests first, then the undeleted events, then the deleted ones: an
    undeleted version of the coordinate is stored. *)
Lemma requests_first policy bp bk ap ak m ao es e a :
  admissible es -> e ∈ es -> undeleted es e -> replacement_address e = Some a ->
  exists es' db w, (forall x, x ∈ es' <-> x ∈ es) /\ locked_run (new_db policy bp bk ap ak m ao) es' = Ok db
    /\ stored db w /\ replacement_address w = Some a.
Proof.
  intros Hadm He Hu Ha.
  set (alive := fun x => bool_decide (undeleted es x)).
  set (D := List.filter request es). set (U := List.filter (fun x => negb (request x) && alive x) es).
  set (X := List.filter (fun x => negb (request x) && negb (alive x)) es).
  assert (Hsame : forall x, x ∈ D ++ U ++ X <-> x ∈ es) by apply elem_of_parts.
  assert (Hadm' : admissible ((D ++ U) ++ X)).
  { eapply admissible_sub; [|exact Hadm]. intros x. rewrite <- app_assoc. apply Hsame. }
  assert (Hadm1 : admissible (D ++ U)).
  { eapply admissible_sub; [|exact Hadm']. intros x Hx. apply elem_of_app. by left. }
  destruct (locked_run_tracks (D ++ U) _ [] (tracks_new policy bp bk ap ak m ao) Hadm1) as (db & Hrun & Htr).
  cbn [app] in Htr. exists (D ++ U ++ X), db.
  destruct (last_version U a) as (w & Hw & Hwa & Hbest).
  { intros x y Hx Hy. apply (adm_ids _ Hadm1); apply elem_of_app; by right. }
  { exists e. split; [|done]. apply elem_of_bfilter. split; [done|]. apply addressed_kind in Ha. unfold request, alive.
    rewrite bool_decide_eq_true_2 by done. lia. }
  assert (Hdu : forall x, undeleted (D ++ U) x <-> undeleted es x).
  { intros x. rewrite !undeleted_spec. split; intros Hd d Hin.
    - intros Hdx. apply (Hd d); [|done]. apply elem_of_app. left. apply elem_of_bfilter. split; [done|].
      destruct Hdx as (r & Hr & _). unfold request. by apply deletion_of_Some in Hr as [-> _].
    - apply Hd, Hsame. rewrite !elem_of_app in *. tauto. }
  exists w. split; [done|]. split; [|split; [|done]].
  - rewrite app_assoc, locked_run_app, Hrun. cbn. apply (locked_run_covered db (D ++ U)); [done|done|].
    apply Forall_forall. intros x [_ Hx]%elem_of_bfilter. rewrite Hdu. unfold request, alive in Hx.
    apply andb_true_iff in Hx as [Hk Hx]. apply negb_true_iff, bool_decide_eq_false in Hx. split; [lia|done].
  - apply (tracks_survives (D ++ U)); [done|]. split; [apply elem_of_app; by right|]. split.
    + apply Hdu. apply elem_of_bfilter in Hw as [_ Hw]. apply andb_true_iff in Hw as [_ Hw]. by apply bool_decide_eq_true in Hw.
    + intros b y Hb Hy Hyb. assert (b = a) as -> by congruence. apply elem_of_app in Hy as [Hy|Hy]; [|by apply Hbest].
      apply elem_of_bfilter in Hy as [_ Hy]. apply addressed_kind in Hyb. unfold request in Hy. lia.
Qed.

(** The requests last: of a coordinate only its last version is left. *)
Lemma requests_last policy bp bk ap ak m ao es :
  admissible es ->
  exists es' db, (forall x, x ∈ es' <-> x ∈ es) /\ locked_run (new_db policy bp bk ap ak m ao) es' = Ok db
    /\ forall x a, stored db x -> replacement_address x = Some a -> survives es x.
Proof.
  intros Hadm. set (D := List.filter request es). set (N := List.filter (fun x => negb (request x)) es).
  assert (Hsame : forall x, x ∈ N ++ D <-> x ∈ es).
  { intros x. unfold N, D. rewrite elem_of_app, !elem_of_bfilter. destruct (request x); cbn; tauto. }
  assert (Hadm' : admissible (N ++ D)) by (eapply admissible_sub; [|exact Hadm]; intros x; apply Hsame).
  assert (HadmN : admissible N) by (eapply admissible_sub; [|exact Hadm']; intros x Hx; apply elem_of_app; by left).
  destruct (locked_run_tracks N _ [] (tracks_new policy bp bk ap ak m ao) HadmN) as (dbN & HrunN & HtrN).
  cbn [app] in HtrN. destruct (locked_run_tracks D dbN N HtrN Hadm') as (db & Hrun & Htr).
  exists (N ++ D), db. split; [done|]. split; [by rewrite locked_run_app, HrunN|]. intros x a Hx Hxa.
  assert (HN : forall y b, y ∈ es -> replacement_address y = Some b -> y ∈ N).
  { intros y b Hy Hb. apply elem_of_bfilter. split; [done|]. apply addressed_kind in Hb. unfold request. lia. }
  assert (HxN : stored dbN x).
  { eapply (locked_run_requests dbN N D); [done|done| |done|done|by eapply addressed_kind].
    apply Forall_forall. intros d [_ Hd]%elem_of_bfilter. unfold request in Hd. lia. }
  pose proof (tr_stored _ _ Htr x Hx) as [Hin Hu]. rewrite Hsame in Hin.
  destruct (last_version N a) as (w & Hw & Hwa & Hbest); [apply HadmN|exists x; by split; [eapply HN|]|].
  assert (HuN : undeleted N w).
  { rewrite undeleted_spec. intros d [_ Hd]%elem_of_bfilter (r & Hr & _). apply deletion_of_Some in Hr as [Hk _].
    unfold request in Hd. lia. }
  assert (Hsw : stored dbN w).
  { apply (tracks_survives N); [done|]. split; [done|]. split; [done|]. intros b y Hb Hy Hyb.
    assert (b = a) as -> by congruence. by apply Hbest. }
  assert (x = w) as -> by by eapply stored_unique.
  split; [done|]. split; [by apply (undeleted_same (N ++ D))|]. intros b y Hb Hy Hyb.
  assert (b = a) as -> by congruence. apply Hbest; [by eapply HN|done].
Qed.

(** C29: when the relay converges.  A set of public durable events with
    distinct ids reaches the locked part of the admission in any order, each
    any number of times, on an empty database.  (1) Every admission
    succeeds; each event that no deletion request of the set covers, and that
    no other version of its coordinate supersedes, is stored at the end; and
    nothing that a request of the set covers is.  (2) If every coordinate with
    an undeleted version has its last version undeleted, these events are
    exactly what is stored, so two relays that saw the same events hold the
    same events.  (3) Otherwise they need not: for a coordinate with an
    undeleted version whose last version is deleted, one order of the same
    set leaves a version of it stored and another order leaves none. *)
Theorem admission_converges policy bp bk ap ak m ao es (Hadm : admissible es) :
  (forall es', (forall e, e ∈ es' <-> e ∈ es) ->
     exists db, locked_run (new_db policy bp bk ap ak m ao) es' = Ok db
       /\ (forall e, survives es e -> stored db e)
       /\ (forall e, stored db e -> e ∈ es /\ undeleted es e)
       /\ (settled es -> forall e, stored db e <-> survives es e))
  /\ (forall e a, e ∈ es -> undeleted es e -> replacement_address e = Some a ->
       (forall w, survives es w -> replacement_address w <> Some a) ->
       exists es1 db1 es2 db2,
         (forall x, x ∈ es1 <-> x ∈ es) /\ locked_run (new_db policy bp bk ap ak m ao) es1 = Ok db1
         /\ (exists w, stored db1 w /\ replacement_address w = Some a)
         /\ (forall x, x ∈ es2 <-> x ∈ es) /\ locked_run (new_db policy bp bk ap ak m ao) es2 = Ok db2
         /\ forall w, stored db2 w -> replacement_address w <> Some a).
Proof.
  split.
  - intros es' Hsame. assert (Hadm' : admissible es') by (eapply admissible_sub; [|exact Hadm]; intros e; apply Hsame).
    destruct (locked_run_tracks es' _ [] (tracks_new policy bp bk ap ak m ao) Hadm') as (db & Hrun & Htr).
    apply (tracks_ext _ es db) in Htr; [|done]. exists db. split; [done|].
    split; [intros e; by apply tracks_survives|]. split; [apply Htr|]. intros Hset e. by apply tracks_settled.
  - intros e a He Hu Ha Hnone.
    destruct (requests_first policy bp bk ap ak m ao es e a) as (es1 & db1 & w & Hs1 & Hr1 & Hw & Hwa); [done..|].
    destruct (requests_last policy bp bk ap ak m ao es Hadm) as (es2 & db2 & Hs2 & Hr2 & Hlast).
    exists es1, db1, es2, db2. split; [done|]. split; [done|]. split; [by exists w|]. split; [done|]. split; [done|].
    intros x Hx Hxa. by apply (Hnone x (Hlast x a Hx Hxa)).
Qed.

End converge.

(** ** An instance *)

#[local] Existing Instance toy_json.

(** A note and its deletion; and two versions of a profile with the deletion
    of the later one by its id. *)
Definition toy_profile (n created_at : Z) : Event := mkEvent (toy_id n) (toy_id 7) created_at 0 [] "{}" "sig".
Definition toy_version1 : Event := toy_profile 3 100.
Definition toy_version2 : Event := toy_profile 4 105.
Definition toy_drop2 : Event := mkEvent (toy_id 5) (toy_id 7) 110 5 [["e"; toy_id 4]]%string "" "sig".
Definition toy_set : list Event := [toy_hex_note; toy_deletion; toy_version1; toy_version2; toy_drop2].

Ltac in_toy_set H :=
  unfold toy_set in H; rewrite !elem_of_cons, elem_of_nil in H;
  destruct H as [->|[->|[->|[->|[->|[]]]]]].

Lemma toy_admissible : admissible toy_set.
Proof.
  split.
  - intros e He. in_toy_set He; (split; [split; cbn; lia|cbn; lia]).
  - intros e He. in_toy_set He; (split; [vm_compute; reflexivity|by intros Hx; vm_compute in Hx]).
  - intros e e' He He'. in_toy_set He; in_toy_set He'; intros Hx; (reflexivity || (vm_compute in Hx; discriminate)).
Qed.

Lemma toy_undeleted : undeleted toy_set toy_version1.
Proof. refine (bool_decide_unpack _ _); vm_compute; exact I. Qed.

Lemma toy_unsettled w a : replacement_address toy_version1 = Some a -> survives toy_set w -> replacement_address w <> Some a.
Proof.
  intros Ha (Hw & Hu & Hbest) Hwa. rewrite undeleted_spec in Hu. in_toy_set Hw; try (vm_compute in Hwa; discriminate).
  - destruct (Hbest a toy_version2 Hwa) as [Hx|Hx];
      [apply list_elem_of_lookup; by exists 3%nat|rewrite <- Ha; vm_compute; reflexivity|vm_compute in Hx; discriminate|].
    unfold supersedes in Hx. cbn in Hx. lia.
  - apply (Hu toy_drop2); [apply list_elem_of_lookup; by exists 4%nat|].
    eexists. split; [reflexivity|]. vm_compute. reflexivity.
Qed.

(** Whatever the order, the note is gone; the coordinate of the profile ends
    up with a version or without one. *)
Lemma admission_converges_witness :
  (exists db, locked_run toy_db (toy_set ++ toy_set) = Ok db /\ ~ stored db toy_hex_note)
  /\ exists es1 db1 es2 db2,
       locked_run toy_db es1 = Ok db1 /\ (exists w, stored db1 w /\ replacement_address w = replacement_address toy_version1)
       /\ locked_run toy_db es2 = Ok db2
       /\ forall w, stored db2 w -> replacement_address w <> replacement_address toy_version1.
Proof.
  destruct (admission_converges (mkPolicy false 1000 10 900 0) ∅ ∅ ∅ ∅ ∅ ∅ toy_set toy_admissible) as [Hany Htwo]. split.
  - destruct (Hany (toy_set ++ toy_set)) as (db & Hrun & _ & Hst & _); [intros e; rewrite elem_of_app; tauto|].
    exists db. split; [exact Hrun|]. intros Hn. apply Hst in Hn as [_ Hu]. rewrite undeleted_spec in Hu.
    apply (Hu toy_deletion); [apply list_elem_of_lookup; by exists 1%nat|].
    eexists. split; [reflexivity|]. vm_compute. reflexivity.
  - destruct (replacement_address toy_version1) as [a|] eqn:Ha; [|vm_compute in Ha; discriminate].
    destruct (Htwo toy_version1 a) as (es1 & db1 & es2 & db2 & _ & H1 & Hw & _ & H2 & Hno);
      [apply list_elem_of_lookup; by exists 2%nat|exact toy_undeleted|exact Ha|intros w; by apply toy_unsettled|].
    exists es1, db1, es2, db2. split; [exact H1|]. split; [exact Hw|]. split; [exact H2|exact Hno].
Defined.
