(* ===== verification/Query.v ===== *)
(** * Query: reading events back

    [QUERY_FILTER_SQL] and [QUERY_FILTER_IDS_SQL] of [store/statements.rs] over
    the tables of [Store.v], [query_filter_inner], [count_filters] and
    [decode_event_row] of [store/mod.rs], and [query_history] of
    [gateway/db.rs].  Full-text search is Postgres's: matching and ranking are
    the operations of the class [FullText].  Every statement reads the
    database committed when it runs, so a history query takes one database
    per filter. *)

From S2P Require Import Prelude Text Hex Event Replacement Filter Expanded Outbound Hub Handover Store.

(** [to_tsvector('simple', content) @@ plainto_tsquery('simple', query)] and
    [ts_rank], of which only the order is used. *)
Class FullText : Type := {
  ts_match : string -> string -> bool;
  ts_rank : string -> string -> Z;
}.

(** ** Visibility *)

(** [column = ANY($10)], false where the parameter is NULL. *)
Definition any_reader (readers : option (list string)) (x : string) : bool :=
  match readers with Some l => mem x l | None => false end.

(** [SELECT tag_value FROM nostr_indexed_tag WHERE event_id = .. AND tag_name = ..]. *)
Definition tag_rows (db : Db) (id name : string) : list string :=
  omap (fun kv => if String.eqb kv.1.1.1 id && String.eqb kv.1.1.2 name then Some kv.1.2 else None)
    (map_to_list (nostr_indexed_tag db)).

(** [e.tags @> '[[.., ..]]'::jsonb]: some element contains both strings. *)
Definition tags_contain (tags : list Tag) (a b : string) : bool :=
  existsb (fun t => mem a t && mem b t) tags.

(** The condition on kinds and readers, the same in both statements. *)
Definition row_visible (db : Db) (readers : option (list string)) (row : EventRow) : bool :=
  let e := row_event row in
  let k := ev_kind e in
  negb ((39604 <=? k) && (k <=? 39613)) && negb (k =? 39620) && negb (k =? 39650)
  && (negb (mem k [1059; 24200; 30174; 30175; 30178; 30300; 30350; 30622; 44200])
      || (mem k [1059; 24200; 30622; 44200] && bool_decide (is_Some readers)
          && (len (tag_rows db (ev_id e) "p") =? 1)
          && existsb (any_reader readers) (tag_rows db (ev_id e) "p"))
      || (mem k [30300; 30350] && bool_decide (is_Some readers) && any_reader readers (ev_pubkey e))
      || ((k =? 30174) && bool_decide (is_Some readers)
          && (any_reader readers (ev_pubkey e)
              || existsb (any_reader readers) (tag_rows db (ev_id e) "p")))
      || (mem k [30175; 30178]
          && ((bool_decide (is_Some readers) && any_reader readers (ev_pubkey e))
              || tags_contain (ev_tags e) "shared" "true"))).

(** ** The statements *)

Section query.
Context `{EventCrypto, Unicode, !FullText}.

(** The generated column of [migrations/0016_mkt_swp_receipt.sql]. *)
Definition search_vector (row : EventRow) : option string :=
  let k := ev_kind (row_event row) in
  if mem k [30078; 30174; 30175; 30178; 30300; 30350; 30622; 44200] || (k =? 1059)
     || ((39604 <=? k) && (k <=? 39613)) || mem k [39620; 39640; 39650]
  then None else Some (ev_content (row_event row)).

(** The parameters a filter becomes. *)
Record Params : Type := mkParams {
  p_ids : option (list string);
  p_authors : option (list string);
  p_kinds : option (list Z);
  p_since : option Z;
  p_until : option Z;
  p_tags : gmap string (list string);
  p_search : option string;
}.

Definition row_matches (db : Db) (p : Params) (now : Z) (row : EventRow) : bool :=
  let e := row_event row in
  is_none_or (mem (ev_id e)) (p_ids p)
  && is_none_or (mem (ev_pubkey e)) (p_authors p)
  && is_none_or (mem (ev_kind e)) (p_kinds p)
  && is_none_or (fun since => since <=? ev_created_at e) (p_since p)
  && is_none_or (fun until => ev_created_at e <=? until) (p_until p)
  && is_none_or (fun t => now <? t) (row_expires_at row)
  && is_none_or (fun search => match search_vector row with
                               | Some content => ts_match content search
                               | None => false
                               end) (p_search p)
  && map_all (fun name values => existsb (fun v => mem v values) (tag_rows db (ev_id e) name)) (p_tags p).

(** [ORDER BY rank DESC NULLS LAST, created_at DESC, id ASC]. *)
Definition row_rank (search : option string) (row : EventRow) : option Z :=
  match search, search_vector row with Some q, Some content => Some (ts_rank content q) | _, _ => None end.

Definition rank_compare (a b : option Z) : comparison :=
  match a, b with
  | Some x, Some y => Z.compare y x
  | Some _, None => Lt
  | None, Some _ => Gt
  | None, None => Eq
  end.

Definition then_with (c d : comparison) : comparison := match c with Eq => d | _ => c end.

(** Newest first, then by id. *)
Definition event_compare (a b : Event) : comparison :=
  then_with (Z.compare (ev_created_at b) (ev_created_at a)) (String.compare (ev_id a) (ev_id b)).

Definition row_le (search : option string) (a b : EventRow) : Prop :=
  then_with (rank_compare (row_rank search a) (row_rank search b))
    (event_compare (row_event a) (row_event b)) <> Gt.
#[export] Instance row_le_dec search a b : Decision (row_le search a b).
Proof. unfold row_le. apply _. Defined.

Definition rows (db : Db) : list EventRow := (map_to_list (nostr_event db)).*2.

(** [QUERY_FILTER_SQL]. *)
Definition query_filter_sql (db : Db) (p : Params) (now limit through : Z) (readers : option (list string))
    : list EventRow :=
  take (Z.to_nat limit)
    (merge_sort (row_le (p_search p))
       (List.filter (fun row => row_matches db p now row && (row_seq row <=? through) && row_visible db readers row)
          (rows db))).

(** [ORDER BY e.id]. *)
Definition id_le (a b : string) : Prop := String.compare a b <> Gt.
#[export] Instance id_le_dec a b : Decision (id_le a b).
Proof. unfold id_le. apply _. Defined.

(** [QUERY_FILTER_IDS_SQL]. *)
Definition query_filter_ids_sql (db : Db) (p : Params) (now : Z) (readers : option (list string)) (limit : Z)
    : list string :=
  take (Z.to_nat limit)
    (merge_sort id_le
       ((fun row => ev_id (row_event row)) <$>
          List.filter (fun row => row_matches db p now row && row_visible db readers row) (rows db))).

(** ** The store *)

Definition pg_limit (value : Z) : result StoreError Z :=
  if value <=? 2 ^ 63 - 1 then Ok value else Err (InvalidLimit value).

Definition decode_event_row (row : EventRow) : result StoreError StoredEvent :=
  let e := row_event row in
  if ev_created_at e <? 0 then Err (CorruptRow "negative created_at") else
  if negb ((0 <=? ev_kind e) && (ev_kind e <=? U16_MAX)) then Err (CorruptRow "kind outside NIP-01 range") else
  _ ← map_err CorruptEvent (validate_structure e);
  _ ← map_err CorruptEvent (validate_crypto e);
  Ok (mkStored e (row_seq row)).

Definition pg_i64_opt (value : option Z) (field : string) : result StoreError (option Z) :=
  match value with Some v => v ← pg_i64 v field; Ok (Some v) | None => Ok None end.

(** [search_terms(search).join(" ")]. *)
Definition filter_params (f : Filter) : result StoreError Params :=
  since ← pg_i64_opt (f_since f) "since";
  until ← pg_i64_opt (f_until f) "until";
  Ok (mkParams (f_ids f) (f_authors f) (f_kinds f) since until (f_tags f)
        ((fun search => join_str 32 (search_terms search)) <$> f_search f)).

(** [cancelled] is a cancellation before or during the statement. *)
Definition query_filter_inner (db : Db) (f : Filter) (now max_results through : Z) (cancelled : bool)
    (read_pubkeys : option (list string)) : result StoreError (list StoredEvent) :=
  _ ← map_err SDomain (filter_validate f);
  now ← pg_i64 now "now";
  let requested_limit := Z.min (default max_results (f_limit f)) max_results in
  limit ← pg_limit requested_limit;
  params ← filter_params f;
  if cancelled then Err QueryCancelled else
  try_map decode_event_row (query_filter_sql db params now limit through read_pubkeys).

(** The inner loop of [count_filters]: [None] once there are too many. *)
Fixpoint count_ids (max_count : Z) (ids : gset string) (found : list string) : option (gset string) :=
  match found with
  | [] => Some ids
  | id :: found' =>
      let ids := {[id]} ∪ ids in
      if max_count <? Z.of_nat (size ids) then None else count_ids max_count ids found'
  end.

Fixpoint count_loop (max_count now scan_limit : Z) (readers : option (list string)) (ids : gset string)
    (queries : list (Filter * Db)) : result StoreError (option Z) :=
  match queries with
  | [] => Ok (Some (Z.of_nat (size ids)))
  | (f, db) :: queries' =>
      _ ← map_err SDomain (filter_validate f);
      params ← filter_params f;
      match count_ids max_count ids (query_filter_ids_sql db params now readers scan_limit) with
      | None => Ok None
      | Some ids => count_loop max_count now scan_limit readers ids queries'
      end
  end.

Definition count_filters (queries : list (Filter * Db)) (now max_count : Z) (read_pubkeys : list string)
    : result StoreError (option Z) :=
  now ← pg_i64 now "now";
  scan_limit ← pg_limit (saturating_add U64_MAX max_count 1);
  count_loop max_count now scan_limit (if bool_decide (read_pubkeys = []) then None else Some read_pubkeys)
    ∅ queries.

(** ** History *)

Definition stored_le (a b : StoredEvent) : Prop := event_compare (se_event a) (se_event b) <> Gt.
#[export] Instance stored_le_dec a b : Decision (stored_le a b).
Proof. unfold stored_le. apply _. Defined.

(** [if let Vacant(entry) = events.entry(id)]: the first row of an id is kept. *)
Definition remember (st : gmap string StoredEvent * list string) (stored : StoredEvent)
    : gmap string StoredEvent * list string :=
  let '(events, order) := st in
  match events !! ev_id (se_event stored) with
  | Some _ => (events, order)
  | None => (<[ev_id (se_event stored) := stored]> events, order ++ [ev_id (se_event stored)])
  end.

Definition query_history (latest : Db) (queries : list (Filter * Db)) (now max_results : Z) (cancelled : bool)
    (read_pubkeys : list string) : result StoreError (Z * list StoredEvent) :=
  if cancelled then Err QueryCancelled else
  let high_water := fold_left Z.max (row_seq <$> rows latest) 0 in
  let search_order := existsb (fun q => bool_decide (is_Some (f_search q.1))) queries in
  let per_filter := div_ceil max_results (Z.max (len queries) 1) in
  '(events, order) ← try_fold (fun st q =>
      found ← query_filter_inner q.2 q.1 now per_filter high_water cancelled (Some read_pubkeys);
      Ok (fold_left remember found st)) (∅, []) queries;
  let events :=
    if search_order then omap (fun id => events !! id) order
    else merge_sort stored_le (map_to_list events).*2 in
  Ok (high_water, take (Z.to_nat max_results) events).

End query.

(** An error after which the relay stops. *)
Definition is_fatal (error : StoreError) : bool :=
  match error with
  | SDomain _ | QueryCancelled | WorkQueueFull | TimestampOutOfRange _ _ | InvalidLimit _ | SSerialization _
  | EphemeralTooLarge _ | Management _ | Media _ | Coordination _ => false
  | _ => true
  end.
