(* ===== verification/QueryCorrect.v ===== *)
(** * QueryCorrect: what the condition of the SQL statements means

    Over a sound database the condition of [QUERY_FILTER_SQL] is
    [Filter::matches], with the database's full-text match in the place of its
    text search, and the visibility rule of the subscription hub with the two
    differences that [history_visible] names. *)

From S2P Require Import Prelude Text Hex Event Replacement Deletion Filter Expanded Agent Block Outbound Hub.
From S2P Require Import Handover Store StoreCorrect StoreHistory Query.

(** ** The tag index *)

Lemma elem_of_tag_rows db id name v :
  v ∈ tag_rows db id name <-> is_Some (nostr_indexed_tag db !! (id, name, v)).
Proof.
  unfold tag_rows. rewrite list_elem_of_omap. split.
  - intros ([[[i n] w] t] & Hin & Hx). cbn in Hx. apply elem_of_map_to_list in Hin.
    destruct (String.eqb_spec i id) as [->|]; [|done]. destruct (String.eqb_spec n name) as [->|]; [|done].
    cbn in Hx. simplify_eq. eauto.
  - intros [t Ht]. exists ((id, name, v), t). cbn. rewrite !String.eqb_refl. cbn.
    split; [by apply elem_of_map_to_list|done].
Qed.

Lemma NoDup_tag_rows db id name : NoDup (tag_rows db id name).
Proof.
  unfold tag_rows. pose proof (NoDup_fst_map_to_list (nostr_indexed_tag db)) as Hnd.
  induction (map_to_list (nostr_indexed_tag db)) as [|[[[i n] v] t] l IH]; cbn in *; [constructor|].
  apply NoDup_cons in Hnd as [Hni Hnd]. specialize (IH Hnd).
  destruct (String.eqb_spec i id) as [->|]; cbn; [|done]. destruct (String.eqb_spec n name) as [->|]; cbn; [|done].
  constructor; [|done]. rewrite list_elem_of_omap. intros ([[[i' n'] w] t'] & Hin & Hx). cbn in Hx.
  destruct (String.eqb_spec i' id) as [->|]; [|done]. destruct (String.eqb_spec n' name) as [->|]; [|done].
  cbn in Hx. simplify_eq. apply Hni. apply list_elem_of_fmap. by exists ((id, name, v), t').
Qed.

Lemma tag_rows_indexed db id row name v :
  tables_wf db -> nostr_event db !! id = Some row ->
  v ∈ tag_rows db id name <-> (name, v) ∈ indexed_tags (row_event row).
Proof.
  intros Hwf Hrow. rewrite elem_of_tag_rows. unfold is_Some. setoid_rewrite (wf_tags _ Hwf). split.
  - intros (t & row' & Hrow' & Hin & _). by simplify_eq.
  - intros Hin. eauto.
Qed.

(** [p] is an indexed name: the index holds exactly the values. *)
Lemma indexed_p e v : ("p"%string, v) ∈ indexed_tags e <-> v ∈ tag_values e "p".
Proof. rewrite indexed_tags_spec, tag_values_spec. naive_solver. Qed.

Lemma tag_rows_p db id row v :
  tables_wf db -> nostr_event db !! id = Some row ->
  v ∈ tag_rows db id "p" <-> v ∈ tag_values (row_event row) "p".
Proof. intros Hwf Hrow. by rewrite (tag_rows_indexed db id row), indexed_p. Qed.

(** The index holds each reader once. *)
Lemma tag_rows_readers db id row :
  tables_wf db -> nostr_event db !! id = Some row ->
  tag_rows db id "p" ≡ₚ remove_dups (tag_values (row_event row) "p").
Proof.
  intros Hwf Hrow. apply NoDup_Permutation; [apply NoDup_tag_rows|apply NoDup_remove_dups|].
  intros v. rewrite elem_of_remove_dups. by apply tag_rows_p.
Qed.

(** ** Visibility *)

(** A row that decodes: its structure and signature pass. *)
Record served `{EventCrypto} (e : Event) : Prop := {
  served_structure : validate_structure e = Ok tt;
  served_crypto : validate_crypto e = Ok tt;
}.

(** The [p] tags name one reader. *)
Definition one_reader (e : Event) : bool := len (remove_dups (tag_values e "p")) =? 1.

(** The readers of history: those of live delivery, except that a metric or a
    DM visibility list with several readers is shown to none of them, and
    that a persona or a team catalog with any tag that holds [shared] and
    [true] is shown to everyone. *)
Definition history_visible (e : Event) (readers : gset string) : bool :=
  event_visible_to_reader e readers && (negb (mem (ev_kind e) [30622; 44200]) || one_reader e)
  || mem (ev_kind e) [30175; 30178] && tags_contain (ev_tags e) "shared" "true".

Lemma any_reader_set readers x : any_reader (Some readers) x = bool_decide (x ∈ (list_to_set readers : gset string)).
Proof. unfold any_reader, mem. apply bool_decide_ext. by rewrite elem_of_list_to_set. Qed.

Lemma existsb_same {A} (f g : A -> bool) l k :
  (forall x, x ∈ l <-> x ∈ k) -> (forall x, f x = g x) -> existsb f l = existsb g k.
Proof.
  intros Hlk Hfg. apply eq_true_iff_eq. rewrite !existsb_exists. setoid_rewrite <- list_elem_of_In.
  setoid_rewrite Hlk. by setoid_rewrite Hfg.
Qed.

Lemma tags_contain_shared tags :
  existsb (fun t => bool_decide (t = ["shared"; "true"]%string)) tags = true -> tags_contain tags "shared" "true" = true.
Proof.
  unfold tags_contain. rewrite !existsb_exists. intros (t & Ht & ->%bool_decide_eq_true). by exists ["shared"; "true"]%string.
Qed.

(** The branch of each kind. *)
Ltac eval_kinds :=
  unfold mem;
  repeat match goal with |- context [bool_decide (@elem_of Z (list Z) _ ?k ?l)] =>
    let b := eval vm_compute in (bool_decide (k ∈ l)) in change (bool_decide (k ∈ l)) with b end.
Ltac at_kind Hk := rewrite Hk; eval_kinds.

Lemma row_visible_one_reader db id row readers :
  tables_wf db -> nostr_event db !! id = Some row ->
  (len (tag_rows db id "p") =? 1) && existsb (any_reader (Some readers)) (tag_rows db id "p")
  = match tag_values (row_event row) "p" with
    | recipient :: _ => bool_decide (recipient ∈ (list_to_set readers : gset string)) | [] => false end
    && one_reader (row_event row).
Proof.
  intros Hwf Hrow. pose proof (tag_rows_readers db id row Hwf Hrow) as Hp. unfold one_reader.
  assert (len (remove_dups (tag_values (row_event row) "p")) = len (tag_rows db id "p")) as ->
    by (unfold len; by rewrite Hp).
  destruct (Z.eqb_spec (len (tag_rows db id "p")) 1) as [Hl|]; [|by rewrite andb_false_r]. rewrite andb_true_r.
  pose proof (fun v => tag_rows_p db id row v Hwf Hrow) as Hin.
  destruct (tag_rows db id "p") as [|v [|w l]]; [done| |unfold len in Hl; cbn in Hl; lia].
  destruct (tag_values (row_event row) "p") as [|r l].
  { exfalso. eapply not_elem_of_nil, Hin, list_elem_of_here. }
  assert (r = v) as -> by (apply list_elem_of_singleton, Hin, list_elem_of_here).
  cbn -[bool_decide any_reader]. by rewrite orb_false_r, any_reader_set.
Qed.

(** The SQL visibility rule. *)
Lemma row_visible_history `{EventCrypto} db id row readers :
  tables_wf db -> nostr_event db !! id = Some row -> served (row_event row) ->
  row_visible db (Some readers) row = history_visible (row_event row) (list_to_set readers).
Proof.
  intros Hwf Hrow Hs. destruct (wf_rows _ Hwf _ _ Hrow) as [(Hid & Hty & _ & _ & Hcl) _].
  unfold row_visible, history_visible, event_visible_to_reader. rewrite Hid.
  pose proof (row_visible_one_reader db id row readers Hwf Hrow) as Hone.
  set (e := row_event row) in *. set (k := ev_kind e) in *.
  destruct ((39604 <=? k) && (k <=? 39613)) eqn:H1.
  { cbn [negb andb orb]. unfold mem. rewrite bool_decide_false; [done|]. rewrite !elem_of_cons, elem_of_nil. lia. }
  cbn [negb andb]. destruct (Z.eqb_spec k 39620) as [Hk|H2]; [by at_kind Hk|].
  destruct (Z.eqb_spec k 39650) as [Hk|H3]; [by at_kind Hk|]. cbn [negb andb].
  rewrite (bool_decide_true (is_Some (Some readers))) by eauto. rewrite !andb_true_r. cbn [andb].
  destruct (Z.eqb_spec k 1059) as [Hk|H4].
  { destruct (gift_wrap_single e (served_structure _ Hs) Hk) as (r & Hr & _).
    unfold one_reader in Hone. rewrite Hr in Hone |- *.
    at_kind Hk. cbn [negb andb orb Z.eqb Pos.eqb]. rewrite !orb_false_r, Hone. cbn -[bool_decide]. by rewrite !andb_true_r. }
  assert (k <> 24200) as H5.
  { intros Hk. apply Hcl. unfold class. fold e. fold k. by rewrite Hk. }
  destruct (decide (k = 30622 \/ k = 44200)) as [Hk|H6].
  { destruct Hk as [Hk|Hk]; at_kind Hk; cbn [negb andb orb Z.eqb Pos.eqb]; by rewrite !orb_false_r, Hone. }
  destruct (decide (k = 30300 \/ k = 30350)) as [Hk|H7].
  { destruct Hk as [Hk|Hk]; at_kind Hk; cbn [negb andb orb Z.eqb Pos.eqb]; by rewrite !orb_false_r, ?andb_true_r, any_reader_set. }
  destruct (Z.eqb_spec k 30174) as [Hk|H8].
  { at_kind Hk. cbn [negb andb orb Z.eqb Pos.eqb]. rewrite !orb_false_r, andb_true_r, any_reader_set. f_equal.
    apply existsb_same; [|intros; apply any_reader_set]. intros x. by apply tag_rows_p. }
  destruct (decide (k = 30175 \/ k = 30178)) as [Hk|H9].
  { pose proof (tags_contain_shared (ev_tags e)) as Hsh. revert Hsh.
    destruct Hk as [Hk|Hk]; at_kind Hk; cbn [negb andb orb Z.eqb Pos.eqb]; rewrite any_reader_set, andb_true_r;
      (destruct (existsb _ (ev_tags e)); intros Hsh; [by rewrite Hsh, !orb_true_r|by rewrite orb_false_r]). }
  unfold mem. rewrite (bool_decide_false (k ∈ [1059; _; _; _; _; _; _; _; _])), (bool_decide_false (k ∈ [30622; 44200])),
    (bool_decide_false (k ∈ [30175; 30178])) by (rewrite !elem_of_cons, elem_of_nil; tauto).
  cbn [negb andb orb]. rewrite andb_true_r, orb_false_r. by decide_if.
Qed.

(** ** Matching *)

Section matching.
Context `{EventCrypto, Unicode, !FullText}.

(** A valid filter whose times fit the database's integers. *)
Record queryable (f : Filter) : Prop := {
  qy_valid : filter_validate f = Ok tt;
  qy_since t : f_since f = Some t -> t <= 2 ^ 63 - 1;
  qy_until t : f_until f = Some t -> t <= 2 ^ 63 - 1;
}.

Definition search_query (f : Filter) : option string := (fun search => join_str 32 (search_terms search)) <$> f_search f.
Definition query_params (f : Filter) : Params :=
  mkParams (f_ids f) (f_authors f) (f_kinds f) (f_since f) (f_until f) (f_tags f) (search_query f).

(** The filter but for its text search, which the database's full-text match
    takes the place of. *)
Definition without_search (f : Filter) : Filter :=
  mkFilter (f_ids f) (f_authors f) (f_kinds f) (f_tags f) (f_since f) (f_until f) (f_limit f) None.
Definition text_matches (f : Filter) (e : Event) : bool :=
  is_none_or (fun query => match search_vector (mkRow e None None 0) with
                           | Some content => ts_match content query
                           | None => false
                           end) (search_query f).

Lemma filter_params_query f : queryable f -> filter_params f = Ok (query_params f).
Proof.
  intros [_ Hsi Hun]. unfold filter_params, query_params, search_query, pg_i64_opt, pg_i64.
  destruct (f_since f) as [s|]; [specialize (Hsi s eq_refl); decide_if|]; cbn [mbind result_bind];
    (destruct (f_until f) as [u|]; [specialize (Hun u eq_refl); decide_if|]); done.
Qed.

Lemma map_all_ext {A} (f g : string -> A -> bool) m : (forall k v, f k v = g k v) -> map_all f m = map_all g m.
Proof.
  intros Hfg. unfold map_all. induction (map_to_list m) as [|[k v] l IH]; cbn; [done|]. by rewrite Hfg, IH.
Qed.

Lemma row_matches_filter db id row f now :
  tables_wf db -> nostr_event db !! id = Some row ->
  row_matches db (query_params f) now row
  = filter_matches (without_search f) (row_event row) && text_matches f (row_event row)
    && negb (is_expired (row_event row) now).
Proof.
  intros Hwf Hrow. destruct (wf_rows _ Hwf _ _ Hrow) as [(Hid & _ & _ & Hexp & _) _].
  unfold row_matches, filter_matches, list_matches, query_params, is_expired.
  rewrite Hid, Hexp. cbn [p_ids p_authors p_kinds p_since p_until p_tags p_search is_none_or without_search
                          f_ids f_authors f_kinds f_since f_until f_tags f_search].
  fold (text_matches f (row_event row)).
  rewrite (map_all_ext (fun name values => existsb (fun v => mem v values) (tag_rows db id name))
             (fun key values => existsb (fun kv => String.eqb kv.1 key && mem kv.2 values) (indexed_tags (row_event row)))).
  - assert (is_none_or (fun t => now <? t) (expiration (row_event row))
            = negb match expiration (row_event row) with Some x => x <=? now | None => false end) as ->.
    { destruct (expiration (row_event row)); cbn; [|done]. lia. }
    change (is_none_or _ (search_query f)) with (text_matches f (row_event row)).
    generalize (is_none_or (mem id) (f_ids f)), (is_none_or (mem (ev_pubkey (row_event row))) (f_authors f)),
      (is_none_or (mem (ev_kind (row_event row))) (f_kinds f)),
      (is_none_or (fun since => since <=? ev_created_at (row_event row)) (f_since f)),
      (is_none_or (fun until => ev_created_at (row_event row) <=? until) (f_until f)),
      (match expiration (row_event row) with Some x => x <=? now | None => false end), (text_matches f (row_event row)).
    intros b1 b2 b3 b4 b5 b6 b7. rewrite !andb_true_r.
    by destruct b1, b2, b3, b4, b5, b6, b7; cbn; rewrite ?andb_true_r, ?andb_false_r.
  - intros name values. apply eq_true_iff_eq. rewrite !existsb_exists. setoid_rewrite <- list_elem_of_In.
    setoid_rewrite (tag_rows_indexed db id row name); [|done..]. split.
    + intros (v & Hin & Hm). exists (name, v). cbn [fst snd]. by rewrite String.eqb_refl.
    + intros ([n v] & Hin & Hm). cbn [fst snd] in Hm. apply andb_true_iff in Hm as [Hn Hm].
      apply String.eqb_eq in Hn as ->. eauto.
Qed.

End matching.

(** ** Order *)

Definition event_before (a b : Event) : Prop := event_compare a b = Lt.

Lemma then_with_Eq c d : then_with c d = Eq <-> c = Eq /\ d = Eq.
Proof. destruct c; cbn; naive_solver. Qed.

Lemma event_compare_Eq a b : event_compare a b = Eq <-> ev_created_at a = ev_created_at b /\ ev_id a = ev_id b.
Proof.
  unfold event_compare. rewrite then_with_Eq, Z.compare_eq_iff. split.
  - intros [Hc Hi]. by apply String.compare_eq_iff in Hi.
  - intros [Hc ->]. by rewrite String_compare_refl.
Qed.

Lemma event_compare_antisym a b : event_compare b a = CompOpp (event_compare a b).
Proof.
  unfold event_compare. rewrite (Z.compare_antisym (ev_created_at b) (ev_created_at a)), (String.compare_antisym (ev_id b) (ev_id a)).
  by destruct (ev_created_at b ?= ev_created_at a).
Qed.

Lemma event_before_iff a b :
  event_before a b <->
  ev_created_at b < ev_created_at a \/ ev_created_at a = ev_created_at b /\ String.compare (ev_id a) (ev_id b) = Lt.
Proof.
  unfold event_before, event_compare. destruct (Z.compare_spec (ev_created_at b) (ev_created_at a)); cbn; split;
    intros; try done; try lia; (naive_solver lia).
Qed.

#[export] Instance event_before_trans : Transitive event_before.
Proof.
  intros a b c. rewrite !event_before_iff. intros [?|[? ?]] [?|[? ?]]; [left; lia..|].
  right. split; [lia|]. by eapply String_compare_trans_lt.
Qed.

Lemma event_le_iff a b : event_compare a b <> Gt <-> event_before a b \/ event_compare a b = Eq.
Proof. unfold event_before. destruct (event_compare a b); naive_solver. Qed.

Lemma event_compare_Eq_l a b c : event_compare a b = Eq -> event_compare a c = event_compare b c.
Proof. rewrite event_compare_Eq. intros [Hc Hi]. unfold event_compare. by rewrite Hc, Hi. Qed.

Lemma event_compare_Eq_r a b c : event_compare b c = Eq -> event_compare a b = event_compare a c.
Proof. rewrite event_compare_Eq. intros [Hc Hi]. unfold event_compare. by rewrite Hc, Hi. Qed.

Lemma event_le_trans a b c : event_compare a b <> Gt -> event_compare b c <> Gt -> event_compare a c <> Gt.
Proof.
  rewrite !event_le_iff. intros [Hab|Hab].
  - intros [Hbc|Hbc]; left; [by etrans|]. unfold event_before in *. by rewrite <- (event_compare_Eq_r a b c).
  - unfold event_before. by rewrite (event_compare_Eq_l a b c Hab).
Qed.

Lemma event_le_total a b : event_compare a b <> Gt \/ event_compare b a <> Gt.
Proof. rewrite (event_compare_antisym a b). destruct (event_compare a b); cbn; naive_solver. Qed.

#[export] Instance stored_le_trans : Transitive stored_le.
Proof. intros a b c. apply event_le_trans. Qed.
#[export] Instance stored_le_total : Total stored_le.
Proof. intros a b. apply event_le_total. Qed.

Section row_order.
Context `{!FullText}.

Lemma rank_compare_antisym a b : rank_compare b a = CompOpp (rank_compare a b).
Proof. destruct a, b; cbn; try done. apply Z.compare_antisym. Qed.

Lemma rank_compare_Eq a b : rank_compare a b = Eq <-> a = b.
Proof. destruct a, b; cbn; rewrite ?Z.compare_eq_iff; naive_solver. Qed.

Lemma rank_compare_trans a b c : rank_compare a b = Lt -> rank_compare b c = Lt -> rank_compare a c = Lt.
Proof. destruct a, b, c; cbn; rewrite ?Z.compare_lt_iff; try done. lia. Qed.

(** By rank, then newest first, then by id. *)
Definition row_compare (search : option string) (a b : EventRow) : comparison :=
  then_with (rank_compare (row_rank search a) (row_rank search b)) (event_compare (row_event a) (row_event b)).

Lemma row_le_iff search a b :
  row_le search a b <-> rank_compare (row_rank search a) (row_rank search b) = Lt
    \/ (row_rank search a = row_rank search b /\ event_compare (row_event a) (row_event b) <> Gt).
Proof.
  unfold row_le. rewrite <- rank_compare_Eq. destruct (rank_compare _ _); cbn; naive_solver.
Qed.

#[export] Instance row_le_trans search : Transitive (row_le search).
Proof.
  intros a b c. rewrite !row_le_iff. intros [Hab|[Hab Hab']] [Hbc|[Hbc Hbc']].
  - left. by eapply rank_compare_trans.
  - left. by rewrite <- Hbc.
  - left. by rewrite Hab.
  - right. split; [congruence|]. by eapply event_le_trans.
Qed.
#[export] Instance row_le_total search : Total (row_le search).
Proof.
  intros a b. rewrite !row_le_iff, (rank_compare_antisym (row_rank search a)), (event_compare_antisym (row_event a)).
  destruct (rank_compare _ _) eqn:Hr; [|by auto|by auto]. apply rank_compare_Eq in Hr.
  destruct (event_compare _ _); cbn; naive_solver.
Qed.
End row_order.
