(* ===== verification/QueryHistory.v ===== *)
(** * QueryHistory: what a history query returns

    [query_history] of [Query.v] over sound databases: for each filter exactly
    the best of the events it selects, and from these the answer; and what an
    import of events the structure checks refuse does to it. *)

From S2P Require Import Prelude Text Hex Event Replacement Deletion Filter Expanded Agent Block Outbound Hub.
From S2P Require Import Handover Store StoreCorrect StoreHistory Query QueryCorrect.

(** ** Sorted prefixes *)

Lemma take_sorted {A} (R : relation A) n l x :
  StronglySorted R l -> x ∈ l ->
  x ∈ take n l \/ (length (take n l) = n /\ Forall (fun y => R y x) (take n l)).
Proof.
  intros Hs. revert n. induction Hs as [|y l Hs IH Hy]; intros n Hx; [by apply elem_of_nil in Hx|].
  destruct n as [|n]; [right; split; [done|constructor]|]. cbn [take length].
  apply elem_of_cons in Hx as [->|Hx]; [left; constructor|].
  destruct (IH n Hx) as [Hin|[Hl Hf]]; [left; by constructor|]. right. split; [by rewrite Hl|].
  constructor; [|done]. rewrite Forall_forall in Hy. by apply Hy.
Qed.

Lemma StronglySorted_take {A} (R : relation A) n l : StronglySorted R l -> StronglySorted R (take n l).
Proof.
  intros Hs. revert n. induction Hs as [|y l Hs IH Hy]; intros [|n]; cbn; constructor; [done|].
  apply Forall_forall. intros x Hx. rewrite Forall_forall in Hy. apply Hy. by eapply elem_of_take in Hx as (? & ? & _); eapply list_elem_of_lookup_2.
Qed.

Lemma elem_of_take_l {A} n (l : list A) x : x ∈ take n l -> x ∈ l.
Proof. intros Hx. rewrite <- (take_drop n l). apply elem_of_app. by left. Qed.

Lemma elem_of_merge_sort {A} (R : relation A) `{forall x y, Decision (R x y)} l x : x ∈ merge_sort R l <-> x ∈ l.
Proof. by rewrite merge_sort_Permutation. Qed.

(** Distinct ids make a sorted list strictly sorted. *)
Lemma sorted_strict (l : list StoredEvent) :
  StronglySorted stored_le l -> NoDup ((fun st => ev_id (se_event st)) <$> l) ->
  StronglySorted (fun a b => event_before (se_event a) (se_event b)) l.
Proof.
  intros Hs. induction Hs as [|x l Hs IH Hx]; intros Hnd; [constructor|]. apply NoDup_cons in Hnd as [Hni Hnd].
  constructor; [by apply IH|]. apply Forall_forall. intros y Hy. rewrite Forall_forall in Hx. specialize (Hx y Hy).
  apply event_le_iff in Hx as [?|He]; [done|]. exfalso. apply Hni. apply event_compare_Eq in He as [_ He].
  apply list_elem_of_fmap. eauto.
Qed.

Lemma NoDup_keys {A} (key : A -> string) (m : gmap string A) :
  (forall k a, m !! k = Some a -> key a = k) -> NoDup (key <$> (map_to_list m).*2).
Proof.
  intros Hk. rewrite <- list_fmap_compose.
  assert ((key ∘ snd) <$> map_to_list m = (map_to_list m).*1) as ->; [|apply NoDup_fst_map_to_list].
  apply list_fmap_ext. intros i [k a] Hi. cbn. apply Hk.
  apply elem_of_map_to_list. by eapply list_elem_of_lookup_2.
Qed.

(** ** First occurrences *)

Lemma remember_fold found events order events' order' :
  (forall id st, events !! id = Some st -> ev_id (se_event st) = id) ->
  fold_left remember found (events, order) = (events', order') ->
  (forall id st, events' !! id = Some st ->
     ev_id (se_event st) = id /\ (events !! id = Some st \/ st ∈ found))
  /\ (forall id st, events !! id = Some st -> events' !! id = Some st)
  /\ (forall st, st ∈ found -> is_Some (events' !! ev_id (se_event st))).
Proof.
  revert events order. induction found as [|s found IH]; intros events order Hk Hf; cbn [fold_left remember] in Hf.
  { simplify_eq. split_and!; [intros id st He; split; [by eapply Hk|by left]|done|].
    intros st Hst. by apply elem_of_nil in Hst. }
  destruct (events !! ev_id (se_event s)) as [old|] eqn:Ho.
  - destruct (IH _ _ Hk Hf) as (H1 & H2 & H3). split_and!; [|done|].
    + intros id st He. destruct (H1 id st He) as [? [?|?]]; [by auto|]. split; [done|right; by constructor].
    + intros st [->|Hst]%elem_of_cons; [|by apply H3]. exists old. by apply H2.
  - assert (forall id st, <[ev_id (se_event s):=s]> events !! id = Some st -> ev_id (se_event st) = id) as Hk'.
    { intros id st He. apply lookup_insert_Some in He as [[<- <-]|[_ He]]; [done|by eapply Hk]. }
    destruct (IH _ _ Hk' Hf) as (H1 & H2 & H3). split_and!.
    + intros id st He. destruct (H1 id st He) as [Hid [Hi|Hi]]; split; [done| |done|right; by constructor].
      apply lookup_insert_Some in Hi as [[<- <-]|[_ Hi]]; [right; constructor|by left].
    + intros id st He. apply H2. rewrite lookup_insert_ne; [done|]. intros <-. congruence.
    + intros st [->|Hst]%elem_of_cons; [|by apply H3]. exists s. apply H2. apply lookup_insert_eq.
Qed.

(** Each id once, where it comes first. *)
Fixpoint first_by_id (seen : gset string) (l : list StoredEvent) : list StoredEvent :=
  match l with
  | [] => []
  | st :: l' =>
      if bool_decide (ev_id (se_event st) ∈ seen) then first_by_id seen l'
      else st :: first_by_id ({[ev_id (se_event st)]} ∪ seen) l'
  end.

Lemma remember_order found events order events' order' :
  (forall id, id ∈ order -> is_Some (events !! id)) ->
  fold_left remember found (events, order) = (events', order') ->
  omap (fun id => events' !! id) order' = omap (fun id => events !! id) order ++ first_by_id (dom events) found.
Proof.
  revert events order. induction found as [|s found IH]; intros events order Hord Hf; cbn [fold_left remember first_by_id] in *.
  { injection Hf as <- <-. by rewrite app_nil_r. }
  destruct (events !! ev_id (se_event s)) as [old|] eqn:Ho.
  - rewrite bool_decide_eq_true_2 by (by apply elem_of_dom_2 in Ho). by apply IH.
  - rewrite bool_decide_eq_false_2 by by apply not_elem_of_dom.
    assert (Hsame : omap (fun id => <[ev_id (se_event s):=s]> events !! id) order = omap (fun id => events !! id) order).
    { clear -Hord Ho. induction order as [|id order IH]; [done|]. cbn.
      assert (ev_id (se_event s) <> id) as Hne by (intros Hx; destruct (Hord id ltac:(constructor)); congruence).
      rewrite lookup_insert_ne, IH by (done || intros x Hx; apply Hord; by constructor). done. }
    apply IH in Hf; [rewrite Hf|].
    + rewrite omap_app, Hsame, dom_insert_L. cbn. rewrite lookup_insert_eq. by rewrite <- app_assoc.
    + intros id [Hid| ->%list_elem_of_singleton]%elem_of_app; [|rewrite lookup_insert_eq; by eexists].
      rewrite lookup_insert_is_Some'. right. by apply Hord.
Qed.

Section history.
Context `{EventCrypto, Unicode, !FullText}.

Definition stored_of (row : EventRow) : StoredEvent := mkStored (row_event row) (row_seq row).

(** A sound database whose rows decode. *)
Definition serving (db : Db) : Prop :=
  store_wf db /\ forall id row, nostr_event db !! id = Some row -> served (row_event row).

(** What a filter selects: the row is in the database, numbered up to the
    mark, matches as it would live (a text search by the database's full-text
    match), is not expired and is visible to the readers. *)
Definition shown (f : Filter) (db : Db) (now through : Z) (readers : list string) (st : StoredEvent) : Prop :=
  (exists row, nostr_event db !! ev_id (se_event st) = Some row /\ st = stored_of row)
  /\ se_ingest_seq st <= through
  /\ filter_matches (without_search f) (se_event st) = true /\ text_matches f (se_event st) = true
  /\ is_expired (se_event st) now = false
  /\ history_visible (se_event st) (list_to_set readers) = true.

(** The order of a filter's answer: by the rank of its text search where it
    has one, then newest first, then by id. *)
Definition ranked_before (f : Filter) (a b : StoredEvent) : Prop :=
  row_compare (search_query f) (mkRow (se_event a) None None 0) (mkRow (se_event b) None None 0) = Lt.

Lemma ranked_before_newest f a b :
  f_search f = None -> ranked_before f a b <-> event_before (se_event a) (se_event b).
Proof. intros Hs. unfold ranked_before, search_query. by rewrite Hs. Qed.

Lemma row_le_ranked f a b :
  row_le (search_query f) a b -> ranked_before f (stored_of a) (stored_of b) \/ ev_id (row_event a) = ev_id (row_event b).
Proof.
  unfold ranked_before. change (row_compare _ _ _) with (row_compare (search_query f) a b).
  unfold row_le. fold (row_compare (search_query f) a b). destruct (row_compare (search_query f) a b) eqn:Hc; [|by left|done].
  intros _. right. unfold row_compare in Hc. apply then_with_Eq in Hc as [_ Hc]. by apply event_compare_Eq in Hc as [_ Hc].
Qed.

Lemma elem_of_rows db row : store_wf db -> row ∈ rows db <-> nostr_event db !! ev_id (row_event row) = Some row.
Proof.
  intros [Hwf _]. unfold rows. rewrite list_elem_of_fmap. split.
  - intros ([id r] & -> & Hin). apply elem_of_map_to_list in Hin. cbn.
    by destruct (wf_rows _ Hwf _ _ Hin) as [(-> & _) _].
  - intros Hl. exists (ev_id (row_event row), row). split; [done|]. by apply elem_of_map_to_list.
Qed.

Lemma row_shown db f now through readers row :
  serving db -> nostr_event db !! ev_id (row_event row) = Some row ->
  row_matches db (query_params f) now row && (row_seq row <=? through) && row_visible db (Some readers) row = true
  <-> shown f db now through readers (stored_of row).
Proof.
  intros [Hwf Hs] Hrow. rewrite (row_matches_filter db _ row f now (proj1 Hwf) Hrow).
  rewrite (row_visible_history db _ row readers (proj1 Hwf) Hrow) by (by eapply Hs).
  unfold shown. cbn [se_event se_ingest_seq stored_of]. rewrite !andb_true_iff, negb_true_iff, Z.leb_le. naive_solver.
Qed.

(** The statement's answer, as stored events. *)
Definition answer (f : Filter) (db : Db) (now limit through : Z) (readers : list string) : list StoredEvent :=
  stored_of <$> query_filter_sql db (query_params f) now limit through (Some readers).

Lemma answer_shown f db now limit through readers st :
  serving db -> st ∈ answer f db now limit through readers -> shown f db now through readers st.
Proof.
  intros Hdb Hst. apply list_elem_of_fmap in Hst as (row & -> & Hrow).
  apply elem_of_take_l, elem_of_merge_sort, elem_of_bfilter in Hrow as [Hrow Hb].
  apply row_shown; [done| |done]. by apply elem_of_rows; [apply Hdb|].
Qed.

(** An event left out is behind a full answer. *)
Lemma answer_complete f db now limit through readers st :
  serving db -> 0 <= limit -> shown f db now through readers st ->
  st ∈ answer f db now limit through readers
  \/ (len (answer f db now limit through readers) = limit
      /\ Forall (fun other => ranked_before f other st) (answer f db now limit through readers)).
Proof.
  intros Hdb Hl Hst. pose proof Hst as ((row & Hrow & ->) & _). cbn in Hrow.
  unfold answer, query_filter_sql. cbn [p_search query_params].
  set (found := List.filter _ (rows db)). set (sorted := merge_sort _ found).
  assert (row ∈ sorted) as Hin.
  { apply elem_of_merge_sort, elem_of_bfilter. split; [by apply elem_of_rows; [apply Hdb|]|by apply row_shown]. }
  destruct (decide (row ∈ take (Z.to_nat limit) sorted)) as [Ht|Hnt]; [left; apply list_elem_of_fmap; eauto|].
  destruct (take_sorted (row_le (search_query f)) (Z.to_nat limit) _ row (StronglySorted_merge_sort _ found) Hin)
    as [?|[Hn Hall]]; [done|right].
  split; [unfold len; rewrite length_fmap; unfold sorted; rewrite Hn; lia|]. apply Forall_fmap, Forall_forall. intros other Ho.
  rewrite Forall_forall in Hall. specialize (Hall other Ho).
  apply row_le_ranked in Hall as [Hb|He]; [done|]. exfalso. apply Hnt.
  assert (other = row) as <-; [|done].
  apply elem_of_take_l, elem_of_merge_sort, elem_of_bfilter in Ho as [Ho _].
  apply elem_of_rows in Ho; [|apply Hdb]. rewrite He in Ho. congruence.
Qed.

Lemma answer_sorted f db now limit through readers :
  serving db -> StronglySorted (ranked_before f) (answer f db now limit through readers).
Proof.
  intros [[Hwf _] _]. unfold answer, query_filter_sql. cbn [p_search query_params].
  set (l := List.filter _ _).
  assert (Hnd : NoDup ((fun row => ev_id (row_event row)) <$> take (Z.to_nat limit) (merge_sort (row_le (search_query f)) l))).
  { eapply sublist_NoDup; [|apply fmap_sublist, sublist_take].
    rewrite merge_sort_Permutation. eapply sublist_NoDup; [|apply fmap_sublist, bfilter_sublist].
    apply NoDup_keys. intros id row Hrow. by destruct (wf_rows _ Hwf _ _ Hrow) as [(? & _) _]. }
  pose proof (StronglySorted_take _ (Z.to_nat limit) _ (StronglySorted_merge_sort (row_le (search_query f)) l)) as Hs.
  induction Hs as [|x k _ IH Hx]; [constructor|]. apply NoDup_cons in Hnd as [Hni Hnd].
  constructor; [by apply IH|]. apply Forall_fmap, Forall_forall. intros y Hy. rewrite Forall_forall in Hx.
  destruct (row_le_ranked f x y (Hx y Hy)) as [Hb|He]; [exact Hb|]. destruct Hni. apply list_elem_of_fmap. by exists y.
Qed.

Lemma answer_length f db now limit through readers :
  0 <= limit -> len (answer f db now limit through readers) <= limit.
Proof. intros Hl. unfold answer, query_filter_sql, len. rewrite length_fmap, length_take. lia. Qed.

Lemma decode_served db id row :
  store_wf db -> nostr_event db !! id = Some row -> served (row_event row) ->
  decode_event_row row = Ok (stored_of row).
Proof.
  intros [Hwf _] Hrow [Hst Hcr]. destruct (wf_rows _ Hwf _ _ Hrow) as [(_ & [Ht Hk] & _) _].
  unfold decode_event_row, U16_MAX. rewrite Hst, Hcr. by decide_if.
Qed.

Lemma query_filter_answer f db now max_results through readers :
  serving db -> queryable f -> now <= 2 ^ 63 - 1 -> 0 <= max_results <= 2 ^ 63 - 1 ->
  (forall n, f_limit f = Some n -> 0 <= n) ->
  query_filter_inner db f now max_results through false (Some readers)
  = Ok (answer f db now (Z.min (default max_results (f_limit f)) max_results) through readers).
Proof.
  intros Hdb Hf Hnow Hmax Hlim. unfold query_filter_inner, pg_i64, pg_limit.
  rewrite (qy_valid f Hf). cbn [mbind result_bind map_err]. decide_if. cbn [mbind result_bind].
  rewrite (filter_params_query f Hf). cbn [mbind result_bind].
  unfold answer. set (l := query_filter_sql _ _ _ _ _ _).
  assert (Forall (fun row => decode_event_row row = Ok (stored_of row)) l) as Hl.
  { apply Forall_forall. intros row Hrow. apply elem_of_take_l, elem_of_merge_sort, elem_of_bfilter in Hrow as [Hrow _].
    apply elem_of_rows in Hrow; [|apply Hdb]. destruct Hdb as [Hwf Hs]. eapply decode_served; [done..|by eapply Hs]. }
  induction Hl as [|row l Hr _ IH]; [done|]. cbn. rewrite Hr. cbn. by rewrite IH.
Qed.

(** One query of a history request. *)
Record askable (q : Filter * Db) : Prop := {
  ask_serving : serving q.2;
  ask_queryable : queryable q.1;
  ask_limit n : f_limit q.1 = Some n -> 0 <= n;
}.

Definition per_filter (queries : list (Filter * Db)) (max_results : Z) : Z :=
  div_ceil max_results (Z.max (len queries) 1).
Definition quota (queries : list (Filter * Db)) (max_results : Z) (f : Filter) : Z :=
  Z.min (default (per_filter queries max_results) (f_limit f)) (per_filter queries max_results).
Definition high_water (db : Db) : Z := fold_left Z.max (row_seq <$> rows db) 0.

Lemma per_filter_bounds queries max_results :
  0 <= max_results -> 0 <= per_filter queries max_results <= max_results.
Proof.
  intros Hm. unfold per_filter. set (n := Z.max (len queries) 1).
  pose proof (div_ceil_spec max_results n ltac:(lia)). nia.
Qed.

Lemma quota_nonneg queries max_results q : 0 <= max_results -> askable q -> 0 <= quota queries max_results q.1.
Proof.
  intros Hm [_ _ Hl]. unfold quota. pose proof (per_filter_bounds queries max_results Hm).
  destruct (f_limit q.1) as [n|]; cbn; [specialize (Hl n eq_refl)|]; lia.
Qed.

(** The answers of all the queries, in their order. *)
Definition answers (latest : Db) (queries : list (Filter * Db)) (now max_results : Z) (readers : list string)
    : list StoredEvent :=
  queries ≫= fun q => answer q.1 q.2 now (quota queries max_results q.1) (high_water latest) readers.

Lemma query_fold latest all queries now max_results readers st :
  Forall askable queries -> now <= 2 ^ 63 - 1 -> 0 <= max_results <= 2 ^ 63 - 1 ->
  try_fold (fun st q =>
      found ← query_filter_inner q.2 q.1 now (per_filter all max_results) (high_water latest) false (Some readers);
      Ok (fold_left remember found st)) st queries
  = Ok (fold_left remember
          (queries ≫= fun q => answer q.1 q.2 now (quota all max_results q.1) (high_water latest) readers) st).
Proof.
  intros Hq Hnow Hmax. revert st. pose proof (per_filter_bounds all max_results ltac:(lia)).
  induction Hq as [|q queries [Hs Hp Hl] _ IH]; intros st; [done|]. cbn [try_fold].
  rewrite query_filter_answer by (done || lia). cbn [mbind result_bind]. rewrite IH.
  cbn [list_bind]. rewrite fold_left_app. done.
Qed.

(** The share of one query: the best of what its filter selects, as many as
    its quota allows, in order. *)
Record share_of (q : Filter * Db) (now through most : Z) (readers : list string) (share : list StoredEvent) : Prop := {
  sh_sorted : StronglySorted (ranked_before q.1) share;
  sh_length : len share <= most;
  sh_shown st : st ∈ share -> shown q.1 q.2 now through readers st;
  sh_full st : shown q.1 q.2 now through readers st ->
    st ∈ share \/ (len share = most /\ Forall (fun other => ranked_before q.1 other st) share);
}.

Lemma answer_share q now through most readers :
  serving q.2 -> 0 <= most -> share_of q now through most readers (answer q.1 q.2 now most through readers).
Proof.
  intros Hs Hm. split; [by apply answer_sorted|by apply answer_length|intros st; by apply answer_shown|].
  intros st. by apply answer_complete.
Qed.

Lemma answers_concat latest queries now max_results readers :
  answers latest queries now max_results readers
  = List.concat ((fun q => answer q.1 q.2 now (quota queries max_results q.1) (high_water latest) readers) <$> queries).
Proof.
  unfold answers. generalize (quota queries max_results). intros most.
  induction queries as [|q queries IH]; [done|]. cbn. by rewrite <- IH.
Qed.

Definition searching (queries : list (Filter * Db)) : bool :=
  existsb (fun q => bool_decide (is_Some (f_search q.1))) queries.

(** The newest of the events found, when no filter searches. *)
Lemma newest_first found events order max_results :
  (forall st st', st ∈ found -> st' ∈ found -> ev_id (se_event st) = ev_id (se_event st') -> se_event st = se_event st') ->
  0 <= max_results -> fold_left remember found (∅, []) = (events, order) ->
  let newest := take (Z.to_nat max_results) (merge_sort stored_le (map_to_list events).*2) in
  StronglySorted (fun a b => event_before (se_event a) (se_event b)) newest /\ len newest <= max_results
  /\ (forall st, st ∈ newest -> st ∈ found)
  /\ (forall st, st ∈ found ->
        (exists st', st' ∈ newest /\ se_event st' = se_event st)
        \/ (len newest = max_results /\ Forall (fun other => event_before (se_event other) (se_event st)) newest)).
Proof.
  intros Hids Hmax Hfold.
  destruct (remember_fold _ _ _ _ _ ltac:(intros ? ? Hl; by rewrite lookup_empty in Hl) Hfold) as (Hfrom & _ & Hall).
  set (sorted := merge_sort stored_le (map_to_list events).*2). cbn zeta.
  assert (forall st, st ∈ sorted <-> events !! ev_id (se_event st) = Some st) as Hsorted.
  { intros st. unfold sorted. rewrite elem_of_merge_sort, list_elem_of_fmap. split.
    - intros ([id st'] & -> & Hin). apply elem_of_map_to_list in Hin. cbn. by destruct (Hfrom _ _ Hin) as [-> _].
    - intros Hl. exists (ev_id (se_event st), st). split; [done|]. by apply elem_of_map_to_list. }
  assert (StronglySorted (fun a b => event_before (se_event a) (se_event b)) sorted) as Hss.
  { apply sorted_strict; [apply StronglySorted_merge_sort; apply _|]. unfold sorted. rewrite merge_sort_Permutation.
    apply NoDup_keys. intros id st Hl. by destruct (Hfrom _ _ Hl). }
  split; [by apply StronglySorted_take|]. split; [unfold len; rewrite length_take; lia|].
  assert (Hin : forall st, st ∈ sorted -> st ∈ found).
  { intros st Hst. apply Hsorted, Hfrom in Hst as [_ [Hst|Hst]]; [by rewrite lookup_empty in Hst|done]. }
  split; [intros st Hst; by apply Hin, (elem_of_take_l (Z.to_nat max_results))|]. intros st Hst.
  destruct (Hall st Hst) as [st' Hst']. pose proof (Hfrom _ _ Hst') as [Hid _].
  assert (Hs' : st' ∈ sorted) by by apply Hsorted; rewrite Hid.
  assert (Hev : se_event st' = se_event st) by (apply Hids; [by apply Hin|done|done]).
  destruct (take_sorted _ (Z.to_nat max_results) sorted st' Hss Hs') as [Ht|[Ht Hb]]; [left; by exists st'|right].
  rewrite Hev in Hb. split; [unfold len; lia|done].
Qed.

(** C8: what a history query answers.  The filters are valid, with times that
    fit the database's integers; each may read a later snapshot of the
    database, in which an id names the same event; and the rows decode.  Each
    filter's share of the answer is exactly the best of the events it selects,
    in order, no more than its quota, and an event left out of a share is
    behind a full one.  A filter selects the events stored, numbered up to the
    mark, unexpired, that match by [Filter::matches] (a text search by the
    database's full-text match instead) and are visible by the rule of live
    delivery, with the two differences of [history_visible]; best means newest
    first, and for a text search by rank before that.  When no filter
    searches, the answer is the newest of all the shares, each id once, never
    longer than asked for, and an event of a share is missing only behind a
    full answer of newer ones.  When one does, the answer is the shares one
    after another, each id once, cut to the length asked for. *)
Theorem history_exact latest queries now max_results readers
    (Hq : Forall askable queries) (Hnow : now <= 2 ^ 63 - 1) (Hmax : 0 <= max_results <= 2 ^ 63 - 1)
    (Hids : forall q q' id row row', q ∈ queries -> q' ∈ queries -> nostr_event q.2 !! id = Some row ->
              nostr_event q'.2 !! id = Some row' -> row_event row = row_event row') :
  exists shares events,
    query_history latest queries now max_results false readers = Ok (high_water latest, events)
    /\ Forall2 (fun q => share_of q now (high_water latest) (quota queries max_results q.1) readers) queries shares
    /\ if searching queries
       then events = take (Z.to_nat max_results) (first_by_id ∅ (List.concat shares))
       else StronglySorted (fun a b => event_before (se_event a) (se_event b)) events /\ len events <= max_results
            /\ (forall st, st ∈ events -> st ∈ List.concat shares)
            /\ (forall st, st ∈ List.concat shares ->
                  (exists st', st' ∈ events /\ se_event st' = se_event st)
                  \/ (len events = max_results
                      /\ Forall (fun other => event_before (se_event other) (se_event st)) events)).
Proof.
  unfold query_history. fold (per_filter queries max_results). fold (high_water latest). fold (searching queries).
  rewrite (query_fold latest queries queries) by done. cbn [mbind result_bind].
  fold (answers latest queries now max_results readers).
  destruct (fold_left remember _ _) as [events order] eqn:Hfold.
  exists ((fun q => answer q.1 q.2 now (quota queries max_results q.1) (high_water latest) readers) <$> queries).
  eexists. split; [done|]. rewrite <- answers_concat. rewrite Forall_forall in Hq. split.
  - apply Forall2_fmap_r, Forall_Forall2_diag, Forall_forall. intros q Hin.
    apply answer_share; [by apply Hq|]. apply quota_nonneg; [lia|by apply Hq].
  - destruct (searching queries).
    + apply remember_order in Hfold; [|intros id Hid; by apply elem_of_nil in Hid]. by rewrite Hfold, dom_empty_L.
    + eapply newest_first; [|lia|done]. intros st st' Hst Hst' Hid. unfold answers in Hst, Hst'.
      apply list_elem_of_bind in Hst as (q & Hst & Hin), Hst' as (q' & Hst' & Hin').
      apply answer_shown in Hst as ((row & Hr & ->) & _); [|by apply Hq].
      apply answer_shown in Hst' as ((row' & Hr' & ->) & _); [|by apply Hq].
      cbn in *. rewrite <- Hid in Hr'. by eapply (Hids q q').
Qed.

(** ** Rows that cannot be read *)

Lemma decode_event_row_fatal row err : decode_event_row row = Err err -> is_fatal err = true.
Proof.
  unfold decode_event_row. intros Hd. repeat (case_match; simplify_eq/=; try done);
    destruct (validate_structure _); simplify_eq/=; try done; destruct (validate_crypto _); by simplify_eq/=.
Qed.

Lemma try_map_decode_fatal l err : try_map decode_event_row l = Err err -> is_fatal err = true.
Proof.
  induction l as [|row l IH]; cbn; [done|].
  destruct (decode_event_row row) as [st|e] eqn:Hd; cbn; [|intros [= <-]; by eapply decode_event_row_fatal].
  destruct (try_map decode_event_row l); cbn; [done|]. intros [= <-]. by apply IH.
Qed.

(** C32: an event in the database that fails the structure checks of new
    admissions stops the relay when a query selects it: the whole query
    fails, with an error on which the database worker shuts the process
    down.  The import of historical events stores such events, since it
    checks only the NIP-01 structure and the signature. *)
Theorem unreadable_row_fatal db f now max_results through readers row error
    (Hf : queryable f) (Hnow : now <= 2 ^ 63 - 1) (Hmax : max_results <= 2 ^ 63 - 1)
    (Hrow : row ∈ query_filter_sql db (query_params f) now (Z.min (default max_results (f_limit f)) max_results)
                    through readers)
    (Hbad : validate_structure (row_event row) = Err error) :
  exists err, query_filter_inner db f now max_results through false readers = Err err /\ is_fatal err = true.
Proof.
  unfold query_filter_inner, pg_i64, pg_limit. rewrite (qy_valid f Hf). cbn [mbind result_bind map_err].
  decide_if. cbn [mbind result_bind]. rewrite (filter_params_query f Hf). cbn [mbind result_bind].
  destruct (try_map decode_event_row _) as [l|err] eqn:Hm; [exfalso|exists err; split; [done|by eapply try_map_decode_fatal]].
  apply try_map_Ok_Forall2 in Hm. apply list_elem_of_lookup in Hrow as [i Hi].
  destruct (Forall2_lookup_l _ _ _ _ _ Hm Hi) as (st & _ & Hd). unfold decode_event_row in Hd.
  rewrite Hbad in Hd. by repeat case_match.
Qed.

End history.

(** ** Private market kinds *)

(** C33: bare private market events are hidden from every reader, in history and
    live alike, whatever the index holds, with one exception: kind 39640, the
    Mint Route Contract, which neither rule names and both show to everyone. *)
Theorem private_kinds_hidden db row readers live_readers
    (Hprivate : is_mkt_private_kind (ev_kind (row_event row)) = true) :
  row_visible db readers row = (ev_kind (row_event row) =? 39640)
  /\ event_visible_to_reader (row_event row) live_readers = (ev_kind (row_event row) =? 39640).
Proof.
  unfold is_mkt_private_kind in Hprivate. apply bool_decide_eq_true in Hprivate.
  unfold row_visible, event_visible_to_reader.
  repeat (apply elem_of_cons in Hprivate as [Hk|Hprivate]; [rewrite Hk; split; reflexivity|]).
  by apply elem_of_nil in Hprivate.
Qed.

(** ** Shared personas *)

(** A persona whose author did not share it, with a tag that happens to hold
    the words [shared] and [true]. *)
Definition unshared_persona : Event :=
  mkEvent (toy_id 1) (toy_id 7) 100 AGENT_PERSONA_KIND [["d"; "helper"]; ["note"; "shared"; "true"]]%string ""
    (encode_lower_hex (replicate 64 1)).

(** C34: the two visibility rules disagree on an admissible event: a persona
    passes every publishing check, is hidden from strangers by live delivery,
    which compares the whole tag, and is shown to them by the history
    statement, whose JSON containment accepts any tag that holds both words. *)
Theorem unshared_persona_leaks :
  validate_structure unshared_persona = Ok tt
  /\ validate_block_ingest unshared_persona 100 = Ok tt
  /\ (forall readers, ev_pubkey unshared_persona ∉ readers ->
        event_visible_to_reader unshared_persona readers = false)
  /\ (forall db readers identifier expires_at seq,
        row_visible db readers (mkRow unshared_persona identifier expires_at seq) = true).
Proof.
  split; [vm_compute; reflexivity|]. split; [vm_compute; reflexivity|]. split.
  - intros readers Hr. unfold event_visible_to_reader. cbn [ev_kind unshared_persona].
    change (AGENT_PERSONA_KIND) with 30175. cbn [Z.leb Z.eqb Z.compare Pos.compare Pos.compare_cont Pos.eqb andb orb].
    rewrite bool_decide_false by done. reflexivity.
  - intros db readers identifier expires_at seq. unfold row_visible. cbn [row_event ev_kind unshared_persona ev_tags].
    change (tags_contain _ "shared" "true") with true. rewrite orb_true_r. change AGENT_PERSONA_KIND with 30175.
    eval_kinds. reflexivity.
Qed.

(** ** Instances *)

#[local] Existing Instance toy_crypto.
#[local] Existing Instance toy_unicode.
#[local] Existing Instance toy_json.
#[local] Instance toy_full_text : FullText := {| ts_match := fun _ _ => true; ts_rank := fun _ _ => 0 |}.

(** The database after one published event, asked for its author's notes. *)
Definition serving_db : Db := store_run toy_db [Admit Public None None toy_db toy_event 1700000000].
Definition author_filter : Filter := mkFilter None (Some [toy_id 7]) None ∅ None None (Some 5) None.

Lemma serving_db_rows : nostr_event serving_db = {[ ev_id toy_event := mkRow toy_event None None 1 ]}.
Proof. refine (bool_decide_unpack _ _). vm_compute. exact I. Qed.

Lemma toy_event_served : served toy_event.
Proof. split; vm_compute; reflexivity. Qed.

Lemma serving_db_serving : serving serving_db.
Proof.
  split; [apply store_run_sound; [apply new_db_wf|repeat constructor; cbn; lia]|].
  intros id row Hrow. rewrite serving_db_rows in Hrow. apply lookup_singleton_Some in Hrow as [_ <-]. exact toy_event_served.
Qed.

Lemma author_filter_queryable : queryable author_filter.
Proof. split; [vm_compute; reflexivity|discriminate..]. Qed.

Definition search_filter : Filter := mkFilter None None None ∅ None None None (Some "hello").

Lemma toy_askable : Forall askable [(author_filter, serving_db); (search_filter, serving_db)].
Proof.
  repeat apply Forall_cons_2; [split|split|apply Forall_nil_2]; cbn [fst snd]; try exact serving_db_serving.
  - exact author_filter_queryable.
  - intros n [= <-]. lia.
  - split; [vm_compute; reflexivity|discriminate..].
  - discriminate.
Qed.

Lemma history_exact_witness :
  query_history serving_db [(author_filter, serving_db)] 1700000001 10 false [] = Ok (1, [mkStored toy_event 1])
  /\ (exists shares events,
     query_history serving_db [(author_filter, serving_db)] 1700000001 10 false [] = Ok (high_water serving_db, events)
     /\ forall st, st ∈ events -> st ∈ List.concat shares)
  /\ exists shares events,
       query_history serving_db [(author_filter, serving_db); (search_filter, serving_db)] 1700000001 10 false []
       = Ok (high_water serving_db, events)
       /\ events = take 10 (first_by_id ∅ (List.concat shares)).
Proof.
  pose proof toy_askable as Hask. split; [vm_compute; reflexivity|]. split.
  - destruct (history_exact serving_db [(author_filter, serving_db)] 1700000001 10 []) as (shares & events & He & _ & Hs).
    + apply Forall_cons in Hask as [Hask _]. constructor; [exact Hask|constructor].
    + lia.
    + lia.
    + intros q q' id row row' Hq Hq' Hr Hr'. apply list_elem_of_singleton in Hq as ->, Hq' as ->. congruence.
    + exists shares, events. split; [exact He|]. apply Hs.
  - destruct (history_exact serving_db [(author_filter, serving_db); (search_filter, serving_db)] 1700000001 10 [])
      as (shares & events & He & _ & Hs).
    + exact Hask.
    + lia.
    + lia.
    + intros q q' id row row' Hq Hq' Hr Hr'.
      assert (q.2 = q'.2) as Heq by (rewrite !elem_of_cons, elem_of_nil in Hq, Hq'; naive_solver). rewrite Heq in Hr. congruence.
    + exists shares, events. split; [exact He|]. exact Hs.
Defined.

(** A relay list as older relays accept it: no scheme in the address. *)
Definition imported_list : Event :=
  mkEvent (encode_lower_hex (replicate 32 0)) (encode_lower_hex (replicate 32 7)) 1700000000 10002
    [["r"; "relay.example"]]%string "" (encode_lower_hex (replicate 64 0)).
Definition imported_db : Db :=
  match admit_historical toy_db toy_db imported_list 1700000001 with Ok (db, _) => db | Err _ => toy_db end.

(** The import stores it, and asking for its author's events stops the relay. *)
Lemma unreadable_row_fatal_witness :
  admit_historical toy_db toy_db imported_list 1700000001 = Ok (imported_db, Stored 1)
  /\ exists err, query_filter_inner imported_db author_filter 1700000001 10 (2 ^ 63 - 1) false (Some []) = Err err
               /\ is_fatal err = true.
Proof.
  split.
  { assert (match admit_historical toy_db toy_db imported_list 1700000001 with Ok (_, o) => Some o | Err _ => None end
            = Some (Stored 1)) as Ho by (vm_compute; reflexivity).
    unfold imported_db. destruct (admit_historical _ _ _ _) as [[db o]|err]; congruence. }
  apply (unreadable_row_fatal imported_db author_filter 1700000001 10 (2 ^ 63 - 1) (Some [])
           (mkRow imported_list (Some ""%string) None 1)
           (InvalidEvent "kind 10002 requires valid r relay tags and read/write markers")).
  - exact author_filter_queryable.
  - lia.
  - lia.
  - assert (query_filter_sql imported_db (query_params author_filter) 1700000001
              (Z.min (default 10 (f_limit author_filter)) 10) (2 ^ 63 - 1) (Some [])
            = [mkRow imported_list (Some ""%string) None 1]) as ->
      by (refine (bool_decide_unpack _ _); vm_compute; exact I).
    constructor.
  - vm_compute. reflexivity.
Defined.

Lemma private_kinds_hidden_witness :
  is_mkt_private_kind 39640 = true
  /\ row_visible toy_db None (mkRow (mkEvent (toy_id 1) (toy_id 7) 100 39640 [] "" "") (Some ""%string) None 1) = true.
Proof.
  split; [vm_compute; reflexivity|].
  destruct (private_kinds_hidden toy_db (mkRow (mkEvent (toy_id 1) (toy_id 7) 100 39640 [] "" "") (Some ""%string) None 1)
              None ∅) as [Hv _]; [vm_compute; reflexivity|]. exact Hv.
Defined.
