(* ===== verification/Json.v ===== *)
(** * Json: documents as [serde_json::Value]

    [Filter.Value] is the type; here are its decidable equality, induction
    over nested documents, and the objects the code builds with [json!].
    The workspace uses serde_json without [preserve_order], so an object is a
    [BTreeMap]: its members are listed in the byte order of their names, each
    name once. *)

From S2P Require Import Prelude Text Utf8 Filter.

(** ** Induction over nested documents *)

Section value_induction.
Context (P : Value -> Prop).
Hypothesis Hnull : P VNull.
Hypothesis Hbool : forall b, P (VBool b).
Hypothesis Hint : forall n, P (VInt n).
Hypothesis Hfloat : forall t, P (VFloat t).
Hypothesis Hstring : forall s, P (VString s).
Hypothesis Harray : forall l, Forall P l -> P (VArray l).
Hypothesis Hobject : forall l, Forall (fun kv => P kv.2) l -> P (VObject l).

Fixpoint Value_nested_ind (v : Value) : P v :=
  match v with
  | VNull => Hnull
  | VBool b => Hbool b
  | VInt n => Hint n
  | VFloat t => Hfloat t
  | VString s => Hstring s
  | VArray l =>
      Harray l ((fix go l : Forall P l :=
        match l with
        | [] => List.Forall_nil _
        | x :: l' => List.Forall_cons _ x l' (Value_nested_ind x) (go l')
        end) l)
  | VObject l =>
      Hobject l ((fix go l : Forall (fun kv => P kv.2) l :=
        match l with
        | [] => List.Forall_nil _
        | x :: l' => List.Forall_cons _ x l' (Value_nested_ind x.2) (go l')
        end) l)
  end.
End value_induction.

#[export] Instance Value_eq_dec : EqDecision Value.
Proof.
  unfold EqDecision, Decision.
  fix IH 1. intros [|b|n|t|s|l|l] [|b'|n'|t'|s'|l'|l']; try (right; congruence).
  - by left.
  - destruct (decide (b = b')); [left|right]; congruence.
  - destruct (decide (n = n')); [left|right]; congruence.
  - destruct (decide (t = t')); [left|right]; congruence.
  - destruct (decide (s = s')); [left|right]; congruence.
  - assert ({l = l'} + {l <> l'}) as [->|Hl]; [|by left|right; congruence].
    revert l'. induction l as [|x l IHl]; intros [|y l']; try (right; congruence); [by left|].
    destruct (IH x y) as [->|Hx]; [|right; congruence].
    destruct (IHl l') as [->|Hl]; [by left|right; congruence].
  - assert ({l = l'} + {l <> l'}) as [->|Hl]; [|by left|right; congruence].
    revert l'. induction l as [|[k x] l IHl]; intros [|[k' y] l']; try (right; congruence); [by left|].
    destruct (decide (k = k')) as [->|Hk]; [|right; congruence].
    destruct (IH x y) as [->|Hx]; [|right; congruence].
    destruct (IHl l') as [->|Hl]; [by left|right; congruence].
Defined.

(** ** Objects *)

(** [BTreeMap::insert] on the listed members. *)
Fixpoint object_insert (name : string) (v : Value) (l : list (string * Value))
    : list (string * Value) :=
  match l with
  | [] => [(name, v)]
  | (k, w) :: l' =>
      match String.compare name k with
      | Lt => (name, v) :: l
      | Eq => (k, v) :: l'
      | Gt => (k, w) :: object_insert name v l'
      end
  end.

(** [json!({...})]. *)
Definition json_object (members : list (string * Value)) : Value :=
  VObject (fold_left (fun l kv => object_insert kv.1 kv.2 l) members []).

(** [Value::get] of an object's member and [Value::as_str]. *)
Definition object_get (name : string) (l : list (string * Value)) : option Value :=
  snd <$> List.find (fun kv => String.eqb kv.1 name) l.
Definition value_get (name : string) (v : Value) : option Value :=
  match v with VObject l => object_get name l | _ => None end.
Definition value_as_str (v : Value) : option string :=
  match v with VString s => Some s | _ => None end.

Lemma object_get_insert name v l m :
  object_get m (object_insert name v l) = if decide (m = name) then Some v else object_get m l.
Proof.
  unfold object_get. induction l as [|[k w] l IH]; cbn.
  - destruct (String.eqb_spec name m); case_decide; cbn; congruence.
  - destruct (String.compare name k) eqn:Hc; cbn.
    + apply String.compare_eq_iff in Hc as <-.
      destruct (String.eqb_spec name m); case_decide; cbn; congruence.
    + destruct (String.eqb_spec name m); case_decide; cbn; try congruence.
    + destruct (String.eqb_spec k m) as [->|Hkm]; [|done]. cbn.
      case_decide; [|done]. subst.
      pose proof (String.compare_antisym name name) as Ha. by rewrite Hc in Ha.
Qed.

(** ** What occurs in a document *)

(** A member name, or a string value, at any depth. *)
Inductive names_in : Value -> string -> Prop :=
| names_here l name v : (name, v) ∈ l -> names_in (VObject l) name
| names_member l k v name : (k, v) ∈ l -> names_in v name -> names_in (VObject l) name
| names_element l v name : v ∈ l -> names_in v name -> names_in (VArray l) name.

Inductive strings_in : Value -> string -> Prop :=
| strings_here s : strings_in (VString s) s
| strings_member l k v s : (k, v) ∈ l -> strings_in v s -> strings_in (VObject l) s
| strings_element l v s : v ∈ l -> strings_in v s -> strings_in (VArray l) s.
