(* ===== verification/Custody.v ===== *)
(** * Custody: no key material in public documents

    [reject_custody_material] of [immortal-client/src/mkt_swp_client.rs]
    walks every document the provider publishes or stores, and
    [provider_public_json_safe] of [migrations/provider] is the database's
    own walk, the CHECK constraint of the tables that keep such documents.
    [custody_exact] says what the first accepts, [custody_filters_agree] how
    the two compare. *)

From S2P Require Import Prelude Text Utf8 Filter Json.

(** PostgreSQL's [lower(text)], which follows the database's locale. *)
Class PgText : Type := { pg_lower : string -> string }.

(** On ASCII text [lower] is the ASCII lower case (every locale whose case
    rules extend ASCII's, "C" and English among them). *)
Class PgTextLaws `{PgText} : Prop := {
  pg_lower_ascii s : is_ascii s = true -> pg_lower s = to_ascii_lowercase s;
}.

(** ** The provider's walk *)

Record SwapClientError : Type := mkSwapClientError { sce_code : string; sce_message : string }.

Definition PUBLIC_PROTOCOL_MEMBERS : list string :=
  ["preimagerecoveryref"; "credentialexposure"]%string.

Definition CUSTODY_FRAGMENTS : list string :=
  ["seed"; "preimage"; "privatekey"; "spendkey"; "claimkey"; "refundkey"; "macaroon"; "credential";
   "blindingkey"; "valueblinder"; "assetblinder"]%string.

Definition CUSTODY_MEMBERS : list string :=
  ["mnemonic"; "xprv"; "claimsecret"; "refundsecret"; "nwc"; "nwcstring"; "nwcconnectionstring";
   "nwcuri"; "bearertoken"; "walletrpcpayload"; "musigsecretnonce"; "privkey"; "secretkey";
   "secretnonce"; "signingnonce"]%string.

(** [name.chars().filter(is_ascii_alphanumeric).flat_map(to_lowercase)]: the
    bytes of a character past ASCII are all above 127. *)
Definition normalize_member (name : string) : string :=
  of_bytes (to_ascii_lowercase_byte <$> List.filter is_ascii_alphanumeric (as_bytes name)).

Definition forbidden_member (name : string) : bool :=
  let normalized := normalize_member name in
  let public_protocol_member := mem normalized PUBLIC_PROTOCOL_MEMBERS in
  let contains_custody_name :=
    negb public_protocol_member && existsb (str_contains normalized) CUSTODY_FRAGMENTS in
  contains_custody_name || mem normalized CUSTODY_MEMBERS.

Definition forbidden_value (s : string) : bool :=
  starts_with "nostr+walletconnect://" s || starts_with "xprv" s || starts_with "tprv" s.

Fixpoint reject_custody_material (value : Value) : result SwapClientError unit :=
  match value with
  | VObject object =>
      (fix members (l : list (string * Value)) : result SwapClientError unit :=
         match l with
         | [] => Ok tt
         | (name, child) :: l' =>
             if forbidden_member name then
               Err (mkSwapClientError "swp_secret_material_forbidden"
                      ("forbidden custody member " +:+ name))
             else _ ← reject_custody_material child; members l'
         end) object
  | VArray values =>
      (fix elements (l : list Value) : result SwapClientError unit :=
         match l with
         | [] => Ok tt
         | child :: l' => _ ← reject_custody_material child; elements l'
         end) values
  | VString string =>
      if forbidden_value string then
        Err (mkSwapClientError "swp_secret_material_forbidden" "forbidden custody value")
      else Ok tt
  | _ => Ok tt
  end.

(** ** The database's walk *)

Section database.
Context `{PgText}.

Definition SQL_FRAGMENTS : list string :=
  ["seed"; "preimage"; "privatekey"; "spendkey"; "claimkey"; "refundkey"; "macaroon";
   "credential"]%string.

(** [regexp_replace(lower(member.key), '[^a-z0-9]', '', 'g')]. *)
Definition sql_normalize (key : string) : string :=
  of_bytes (List.filter (fun b => is_ascii_lowercase b || is_ascii_digit b) (as_bytes (pg_lower key))).

Definition sql_forbidden_key (key : string) : bool :=
  let normalized := sql_normalize key in
  (negb (mem normalized PUBLIC_PROTOCOL_MEMBERS)
     && existsb (str_contains normalized) SQL_FRAGMENTS)
  || mem normalized CUSTODY_MEMBERS.

(** [normalized LIKE 'xprv%' OR ..] *)
Definition sql_forbidden_string (s : string) : bool :=
  starts_with "xprv" s || starts_with "tprv" s || starts_with "nostr+walletconnect://" s.

Fixpoint provider_public_json_safe (document : Value) : bool :=
  match document with
  | VObject l =>
      (fix members (l : list (string * Value)) : bool :=
         match l with
         | [] => true
         | (key, value) :: l' =>
             if sql_forbidden_key key then false
             else if negb (provider_public_json_safe value) then false
             else members l'
         end) l
  | VArray l =>
      (fix elements (l : list Value) : bool :=
         match l with
         | [] => true
         | value :: l' => if negb (provider_public_json_safe value) then false else elements l'
         end) l
  | VString s => if sql_forbidden_string s then false else true
  | _ => true
  end.

End database.

(** ** Both walks visit every name and every string *)

(** A walk that accepts a document iff none of its names and none of its
    strings is forbidden, one level at a time. *)
Section walks.
Context (walk : Value -> bool) (bad_name bad_string : string -> bool).
Hypothesis walk_atom : forall v,
  match v with VObject _ | VArray _ | VString _ => False | _ => True end -> walk v = true.
Hypothesis walk_string : forall s, walk (VString s) = negb (bad_string s).
Hypothesis walk_array : forall l, walk (VArray l) = forallb walk l.
Hypothesis walk_object : forall l,
  walk (VObject l) = forallb (fun kv => negb (bad_name kv.1) && walk kv.2) l.

Definition clean (v : Value) : Prop :=
  (forall name, names_in v name -> bad_name name = false)
  /\ (forall s, strings_in v s -> bad_string s = false).

Lemma clean_array l : clean (VArray l) <-> forall v, v ∈ l -> clean v.
Proof.
  unfold clean. split.
  - intros [Hn Hs] v Hv. split; intros x Hx; [apply Hn|apply Hs]; econstructor; eauto.
  - intros Hl. split; intros x Hx; inversion Hx; subst; eapply Hl; eauto.
Qed.

Lemma clean_object l :
  clean (VObject l) <-> forall k v, (k, v) ∈ l -> bad_name k = false /\ clean v.
Proof.
  unfold clean. split.
  - intros [Hn Hs] k v Hv. split; [by eapply Hn, names_here|].
    split; intros x Hx; [eapply Hn, names_member|eapply Hs, strings_member]; eauto.
  - intros Hl. split; intros x Hx; inversion Hx; subst;
      destruct (Hl _ _ ltac:(eassumption)) as (? & ? & ?); auto.
Qed.

Lemma walk_clean v : walk v = true <-> clean v.
Proof.
  induction v as [| | | |s|l IH|l IH] using Value_nested_ind;
    try (rewrite walk_atom by done; split; [intros _; split; intros ? Hx; inversion Hx|done]).
  - rewrite walk_string, negb_true_iff. split; [|by intros [_ Hs]; apply Hs; constructor].
    intros Hs. split; intros x Hx; inversion Hx; by subst.
  - rewrite walk_array, clean_array, forallb_forall. rewrite Forall_forall in IH.
    setoid_rewrite <- list_elem_of_In. split; intros Hl x Hx; apply IH; auto.
  - rewrite walk_object, clean_object, forallb_forall. rewrite Forall_forall in IH.
    setoid_rewrite <- list_elem_of_In. split.
    + intros Hl k v Hv. specialize (IH _ Hv). specialize (Hl _ Hv). cbn in *.
      apply andb_true_iff in Hl as [Hk%negb_true_iff Hw]. by rewrite <- IH.
    + intros Hl [k v] Hv. specialize (IH _ Hv). specialize (Hl _ _ Hv) as [Hk Hw]. cbn in *.
      by rewrite Hk, (proj2 IH).
Qed.
End walks.

Lemma is_ok_bind {E A B} (m : result E A) (k : A -> result E B) :
  is_ok (a ← m; k a) = match m with Ok a => is_ok (k a) | Err _ => false end.
Proof. by destruct m. Qed.

Lemma rejects_walk v :
  is_ok (reject_custody_material v) = true <-> clean forbidden_member forbidden_value v.
Proof.
  apply (walk_clean (fun v => is_ok (reject_custody_material v))).
  - by intros [].
  - intros s. cbn. by destruct (forbidden_value s).
  - intros l. cbn [reject_custody_material]. induction l as [|x l IH]; [done|].
    cbn [forallb]. rewrite <- IH, is_ok_bind. by destruct (reject_custody_material x).
  - intros l. cbn [reject_custody_material]. induction l as [|[k x] l IH]; [done|].
    cbn [forallb fst snd]. rewrite <- IH. destruct (forbidden_member k); [done|].
    rewrite is_ok_bind. by destruct (reject_custody_material x).
Qed.

Lemma reject_ok v : reject_custody_material v = Ok tt <-> is_ok (reject_custody_material v) = true.
Proof. destruct (reject_custody_material v) as [[]|]; done. Qed.

Lemma sql_walk `{PgText} v :
  provider_public_json_safe v = true <-> clean sql_forbidden_key sql_forbidden_string v.
Proof.
  apply (walk_clean provider_public_json_safe).
  - by intros [].
  - intros s. cbn. by destruct (sql_forbidden_string s).
  - intros l. cbn [provider_public_json_safe]. induction l as [|x l IH]; [done|].
    cbn [forallb]. rewrite <- IH. by destruct (provider_public_json_safe x).
  - intros l. cbn [provider_public_json_safe]. induction l as [|[k x] l IH]; [done|].
    cbn [forallb fst snd]. rewrite <- IH. destruct (sql_forbidden_key k); [done|].
    by destruct (provider_public_json_safe x).
Qed.

(** ** The two walks compared *)

Definition BLINDING_FRAGMENTS : list string := ["blindingkey"; "valueblinder"; "assetblinder"]%string.

Definition names_blinding (name : string) : bool :=
  existsb (str_contains (normalize_member name)) BLINDING_FRAGMENTS.

Definition ascii_names (v : Value) : Prop := forall name, names_in v name -> is_ascii name = true.

Section agreement.
Context `{Hpg : PgText} {Hlaws : PgTextLaws}.

Lemma lower_alnum b :
  is_byte b ->
  is_ascii_lowercase (to_ascii_lowercase_byte b) || is_ascii_digit (to_ascii_lowercase_byte b)
  = is_ascii_alphanumeric b.
Proof.
  intros Hb. apply eqb_prop.
  exact (byte_forall (fun b => Bool.eqb (is_ascii_lowercase (to_ascii_lowercase_byte b)
    || is_ascii_digit (to_ascii_lowercase_byte b)) (is_ascii_alphanumeric b)) eq_refl b Hb).
Qed.

Lemma sql_normalize_ascii name : is_ascii name = true -> sql_normalize name = normalize_member name.
Proof.
  intros Hname. unfold sql_normalize, normalize_member. f_equal.
  rewrite pg_lower_ascii, as_bytes_lowercase by done.
  pose proof (as_bytes_range name) as Hr.
  induction Hr as [|b l Hb _ IH]; [done|]. cbn. rewrite lower_alnum by done.
  destruct (is_ascii_alphanumeric b); cbn; [f_equal|]; apply IH.
Qed.

Lemma public_not_blinding n :
  mem n PUBLIC_PROTOCOL_MEMBERS = true -> existsb (str_contains n) BLINDING_FRAGMENTS = false.
Proof.
  unfold mem, PUBLIC_PROTOCOL_MEMBERS. rewrite bool_decide_eq_true, !elem_of_cons, elem_of_nil.
  by intros [->|[->|[]]].
Qed.

Lemma forbidden_split name :
  is_ascii name = true ->
  forbidden_member name = sql_forbidden_key name || names_blinding name.
Proof.
  intros Hname. unfold forbidden_member, sql_forbidden_key, names_blinding.
  rewrite sql_normalize_ascii by done.
  replace CUSTODY_FRAGMENTS with (SQL_FRAGMENTS ++ BLINDING_FRAGMENTS) by done.
  rewrite existsb_app.
  destruct (mem _ PUBLIC_PROTOCOL_MEMBERS) eqn:Hp; cbn [negb andb].
  - by rewrite (public_not_blinding _ Hp), orb_false_r.
  - by destruct (existsb _ SQL_FRAGMENTS), (existsb _ BLINDING_FRAGMENTS), (mem _ CUSTODY_MEMBERS).
Qed.

Lemma forbidden_value_same s : sql_forbidden_string s = forbidden_value s.
Proof.
  unfold sql_forbidden_string, forbidden_value.
  by destruct (starts_with "xprv" s), (starts_with "tprv" s), (starts_with "nostr+walletconnect://" s).
Qed.

Lemma agreement v :
  ascii_names v ->
  reject_custody_material v = Ok tt
  <-> provider_public_json_safe v = true /\ forall name, names_in v name -> names_blinding name = false.
Proof.
  intros Ha. rewrite reject_ok, rejects_walk, sql_walk. unfold clean.
  setoid_rewrite forbidden_value_same. split.
  - intros [Hn Hs]. repeat split; auto; intros name Hin; specialize (Hn name Hin);
      rewrite (forbidden_split _ (Ha _ Hin)) in Hn; by bool_to_prop.
  - intros [[Hn Hs] Hb]. split; [|done]. intros name Hin.
    by rewrite (forbidden_split _ (Ha _ Hin)), Hn, Hb.
Qed.
End agreement.

(** The provider accepts a document exactly when no member name, at any
    depth, is forbidden after dropping everything but ASCII letters and
    digits and lower-casing, and no string value is an extended private key
    or a wallet-connect URI. *)
Theorem custody_exact v :
  reject_custody_material v = Ok tt
  <-> (forall name, names_in v name -> forbidden_member name = false)
      /\ (forall s, strings_in v s -> forbidden_value s = false).
Proof. rewrite reject_ok. apply rejects_walk. Qed.

(** On documents with ASCII member names the provider's walk accepts
    nothing the database's CHECK refuses, and the only documents the database
    would take beyond it are those naming blinding keys. *)
Theorem custody_filters_agree `{PgTextLaws} v :
  ascii_names v ->
  reject_custody_material v = Ok tt
  <-> provider_public_json_safe v = true
      /\ forall name, names_in v name -> names_blinding name = false.
Proof. apply agreement. Qed.

(** ** An instance *)

Definition toy_pg : PgText := {| pg_lower := to_ascii_lowercase |}.
Lemma toy_pg_laws : @PgTextLaws toy_pg.
Proof. by constructor. Qed.

Definition toy_document : Value :=
  json_object [("state", VString "reserved"); ("Utxos", VArray [VInt 1])]%string.

Lemma toy_document_ascii : ascii_names toy_document.
Proof.
  intros name Hn. unfold toy_document, json_object in Hn. cbn in Hn.
  inversion Hn as [? ? ? Hin|? ? v ? Hin Hv|]; subst;
    repeat (apply elem_of_cons in Hin as [Hin|Hin]); try (by apply elem_of_nil in Hin);
    inversion Hin; subst; try done; inversion Hv as [| |? w ? Hw Hx]; subst;
    repeat (apply elem_of_cons in Hw as [Hw|Hw]); try (by apply elem_of_nil in Hw); subst; inversion Hx.
Qed.

Lemma custody_filters_agree_witness : @provider_public_json_safe toy_pg toy_document = true.
Proof.
  apply (proj1 (@custody_filters_agree toy_pg toy_pg_laws toy_document toy_document_ascii)).
  vm_compute. reflexivity.
Defined.
