(* ===== verification/ProviderDb.v ===== *)
(** * ProviderDb: the tables of the provider's durable store

    [immortal-provider/src/store.rs] keeps the provider's public state in
    PostgreSQL: effects (each external action, once), capacity buckets and
    the hard reservations against them, wallet outputs, Ark reserve units,
    exit packages, watch jobs and alerts.  Here are the rows
    ([migrations/provider]), with the CHECK, UNIQUE and REFERENCES
    constraints the statements can meet, and the checks of inputs every
    operation of [ProviderStore] begins with.

    A table is a finite map from its primary key.  Every operation of the
    store runs in one transaction, serialised by the advisory and row locks it
    takes, and a transaction that ends in an error is rolled back: an
    operation is a function from the tables to an error or to a value and the
    new tables. *)

From S2P Require Import Prelude Text Utf8 Regroup Hex Event Filter Expanded Json Custody.

Definition I32_MAX : Z := 2147483647.
Definition I64_MAX : Z := 9223372036854775807.

Definition MAX_RESERVATION_UTXOS : Z := 64.
Definition MAX_WATCH_CLAIM : Z := 64.
Definition MAX_ALERT_QUERY : Z := 128.
Definition MAX_JSON_BYTES : Z := 1024 * 1024.
Definition HEALTH_COUNT_SCAN_LIMIT : Z := 10001.

(** ** Errors *)

(** What PostgreSQL reports of a statement. *)
Inductive DbError : Type :=
| CheckViolation (constraint : string)
| UniqueViolation (constraint : string)
| ForeignKeyViolation (constraint : string)
| InvalidJson.

Inductive ProviderStoreError : Type :=
| Database (e : DbError)
| InvalidInput (message : string)
| Conflict (message : string)
| NotFound (message : string)
| MigrationDrift (message : string)
| ConnectionClosed.

Inductive StoreWriteOutcome : Type := Stored | Replay.

#[export] Instance StoreWriteOutcome_eq_dec : EqDecision StoreWriteOutcome.
Proof. solve_decision. Defined.

(** ** What the store uses of other software *)

Class ProviderEnv : Type := {
  (** [serde_json::to_vec] of a [Value] *)
  json_to_vec : Value -> result string (list Z);
  (** a [Value] written to a [jsonb] column and read back; [None] when the
      server refuses it *)
  jsonb : Value -> option Value;
}.

Definition no_nul (s : string) : bool := negb (mem 0 (as_bytes s)).
Arguments no_nul : simpl never.

(** A document without fractional numbers and without the character U+0000. *)
Fixpoint plain_json (v : Value) : bool :=
  match v with
  | VFloat _ => false
  | VString s => no_nul s
  | VArray l => forallb plain_json l
  | VObject l => forallb (fun kv => no_nul kv.1 && plain_json kv.2) l
  | _ => true
  end.

(** Documented: [jsonb] keeps such documents as they are. *)
Class ProviderEnvLaws `{ProviderEnv} : Prop := {
  jsonb_plain v : plain_json v = true -> jsonb v = Some v;
}.

(** ** Checks of the inputs *)

Definition hex_char (b : Z) : bool := is_ascii_digit b || in_range 97 102 b.

(** The pattern [^[0-9a-f]{64}$] of the constraints. *)
Definition hex_64 (value : string) : bool :=
  (str_len value =? 64) && forallb hex_char (as_bytes value).

Definition validate_hex (value label : string) : result ProviderStoreError unit :=
  if negb (str_len value =? 64)
     || existsb (fun byte => negb (is_ascii_digit byte) && negb (in_range 97 102 byte)) (as_bytes value)
  then Err (InvalidInput (label +:+ " must be 64 lowercase hexadecimal characters"))
  else Ok tt.

Definition identifier_char (byte : Z) : bool :=
  is_ascii_lowercase byte || is_ascii_digit byte || mem byte (as_bytes "._-").

Definition validate_identifier (value label : string) : result ProviderStoreError unit :=
  if (64 <? str_len value)
     || match as_bytes value with
        | [] => true
        | byte :: rest =>
            (negb (is_ascii_lowercase byte) && negb (is_ascii_digit byte))
            || existsb (fun byte => negb (is_ascii_lowercase byte) && negb (is_ascii_digit byte)
                                    && negb (mem byte (as_bytes "._-"))) rest
        end
  then Err (InvalidInput (label +:+ " is not a bounded identifier"))
  else Ok tt.

(** The patterns [^[a-z0-9][a-z0-9._-]{0,n}$] and [^[a-z][a-z0-9._-]{0,n}$]. *)
Definition sql_identifier (first : Z -> bool) (n : Z) (value : string) : bool :=
  match as_bytes value with
  | [] => false
  | byte :: rest => first byte && forallb identifier_char rest && (len rest <=? n)
  end.
Definition lower_or_digit (b : Z) : bool := is_ascii_lowercase b || is_ascii_digit b.

Definition validate_asset (value : string) : result ProviderStoreError unit :=
  if negb (starts_with "swp:1:" value) || (512 <? str_len value) || existsb is_control (chars value)
  then Err (InvalidInput "asset ID is invalid")
  else Ok tt.

Definition validate_reference (value label : string) : result ProviderStoreError unit :=
  if bool_decide (value = ""%string) || (512 <? str_len value) || existsb is_control (chars value)
  then Err (InvalidInput (label +:+ " is empty or unbounded"))
  else Ok tt.

(** [i64::try_from] and [i32::try_from] of an unsigned value, and [u64::try_from] and
    [u32::try_from] of a column. *)
Definition database_u64 (value : Z) (label : string) : result ProviderStoreError Z :=
  ok_or (InvalidInput (label +:+ " exceeds bigint")) (try_from_u I64_MAX value).
Definition optional_database_u64 (value : option Z) (label : string)
    : result ProviderStoreError (option Z) :=
  match value with None => Ok None | Some v => v ← database_u64 v label; Ok (Some v) end.
Definition database_i32 (value : Z) (message : string) : result ProviderStoreError Z :=
  ok_or (InvalidInput message) (try_from_u I32_MAX value).
Definition u64_column (value : Z) (message : string) : result ProviderStoreError Z :=
  if 0 <=? value then Ok value else Err (MigrationDrift message).
Definition positive_u64 (value : Z) (label : string) : result ProviderStoreError Z :=
  u64_column value (label +:+ " is negative or out of range").
Definition optional_u64 (value : option Z) (label : string) : result ProviderStoreError (option Z) :=
  match value with None => Ok None | Some v => v ← positive_u64 v label; Ok (Some v) end.

Definition bounded_limit (limit maximum : Z) : result ProviderStoreError Z :=
  if (limit =? 0) || (maximum <? limit)
  then Err (InvalidInput ("query limit must be 1-" +:+ to_string maximum))
  else ok_or (InvalidInput "query limit exceeds bigint") (try_from_u I64_MAX limit).

Definition replay_or_conflict (exact : bool) (subject : string)
    : result ProviderStoreError StoreWriteOutcome :=
  if exact then Ok Replay else Err (Conflict (subject +:+ " replay changed immutable bytes")).

Definition require_updated (rows : Z) (subject : string) : result ProviderStoreError unit :=
  if rows =? 1 then Ok tt else Err (NotFound subject).

Section json_checks.
Context `{ProviderEnv, EventCrypto}.

Definition bounded_json (value : Value) : result ProviderStoreError (list Z) :=
  bytes ← map_err InvalidInput (json_to_vec value);
  if MAX_JSON_BYTES <? len bytes then Err (InvalidInput "public JSON exceeds its byte bound")
  else Ok bytes.

Definition validate_public_json (value : Value) : result ProviderStoreError unit :=
  _ ← map_err (fun e => InvalidInput (sce_message e)) (reject_custody_material value);
  _ ← bounded_json value;
  Ok tt.

Definition validate_public_artifact (value : Value) : result ProviderStoreError unit :=
  validate_public_json value.

Definition digest (bytes : list Z) : string := encode_lower_hex (sha256 bytes).

Definition store_json (value : Value) : result ProviderStoreError Value :=
  ok_or (Database InvalidJson) (jsonb value).

End json_checks.

(** ** Constraints *)

Definition constraint (name : string) (holds : bool) : string * bool := (name, holds).

Definition check_row (constraints : list (string * bool)) : result ProviderStoreError unit :=
  match List.find (fun c => negb c.2) constraints with
  | Some c => Err (Database (CheckViolation c.1))
  | None => Ok tt
  end.

(** ** Rows *)

Record OutPoint : Type := mkOutPoint { op_txid : string; op_vout : Z }.
#[export] Instance OutPoint_eq_dec : EqDecision OutPoint.
Proof. solve_decision. Defined.

Record EffectRow : Type := mkEffectRow {
  ef_session_id : string;
  ef_operation : string;
  ef_request_sha256 : string;
  ef_public_request : Value;
  ef_state : string;
  ef_result_sha256 : option string;
  ef_public_result : option Value;
  ef_external_reference : option string;
  ef_created_at : Z;
  ef_updated_at : Z;
}.

Record BucketRow : Type := mkBucketRow {
  bk_asset_id : string;
  bk_total_capacity : Z;
  bk_allocated_capacity : Z;
  bk_allocation_sequence : Z;
  bk_updated_at : Z;
}.

Record ReservationRow : Type := mkReservationRow {
  rv_effect_id : string;
  rv_session_id : string;
  rv_bucket_id : string;
  rv_asset_id : string;
  rv_amount : Z;
  rv_request_sha256 : string;
  rv_allocation_sequence : Z;
  rv_expires_at : Z;
  rv_state : string;
  rv_release_cause : option string;
  rv_created_at : Z;
  rv_updated_at : Z;
}.

Record UtxoRow : Type := mkUtxoRow {
  ux_asset_id : string;
  ux_amount : Z;
  ux_script_pubkey : string;
  ux_state : string;
  ux_reservation_id : option string;
  ux_confirmations : Z;
  ux_block_hash : option string;
  ux_replacement_txid : option string;
  ux_observed_at : Z;
}.

Record ArkUnitRow : Type := mkArkUnitRow {
  ak_reserve_unit : string;
  ak_protocol_family : string;
  ak_operator_identity_sha256 : string;
  ak_vtxo_txid : string;
  ak_vout : Z;
  ak_proof_sha256 : string;
  ak_state : string;
  ak_release_cause : option string;
  ak_created_at : Z;
  ak_updated_at : Z;
}.

Record AlertRow : Type := mkAlertRow {
  al_session_id : option string;
  al_alert_class : string;
  al_detail_code : string;
  al_public_context : Value;
  al_state : string;
  al_created_at : Z;
  al_updated_at : Z;
}.

Record ExitPackageRow : Type := mkExitPackageRow {
  xp_session_id : string;
  xp_order_id : string;
  xp_leg_id : string;
  xp_path : string;
  xp_package_sha256 : string;
  xp_public_package : Value;
  xp_state : string;
  xp_created_at : Z;
  xp_updated_at : Z;
}.

Record WatchRow : Type := mkWatchRow {
  wt_session_id : string;
  wt_effect_id : option string;
  wt_job_kind : string;
  wt_request_sha256 : string;
  wt_public_payload : Value;
  wt_state : string;
  wt_due_height : option Z;
  wt_due_at : option Z;
  wt_lease_until : option Z;
  wt_attempt_count : Z;
  wt_maximum_attempts : Z;
  wt_result_sha256 : option string;
  wt_public_result : option Value;
  wt_broadcast_txid : option string;
  wt_replacement_txid : option string;
  wt_confirmations : Z;
  wt_observed_block_hash : option string;
  wt_last_chain_event : option string;
  wt_page_code : option string;
  wt_created_at : Z;
  wt_updated_at : Z;
}.

Record ProviderDb : Type := mkProviderDb {
  db_effects : gmap string EffectRow;
  db_buckets : gmap string BucketRow;
  db_reservations : gmap string ReservationRow;
  db_utxos : gmap (string * Z) UtxoRow;
  db_ark_units : gmap string ArkUnitRow;
  db_alerts : gmap string AlertRow;
  db_exit_packages : gmap string ExitPackageRow;
  db_dispositions : gmap string (string * Z);
  db_watch_jobs : gmap string WatchRow;
}.

Definition empty_db : ProviderDb := mkProviderDb ∅ ∅ ∅ ∅ ∅ ∅ ∅ ∅ ∅.

Definition set_effects (f : gmap string EffectRow -> gmap string EffectRow) (db : ProviderDb) : ProviderDb :=
  mkProviderDb (f (db_effects db)) (db_buckets db) (db_reservations db) (db_utxos db) (db_ark_units db)
    (db_alerts db) (db_exit_packages db) (db_dispositions db) (db_watch_jobs db).
Definition set_buckets (f : gmap string BucketRow -> gmap string BucketRow) (db : ProviderDb) : ProviderDb :=
  mkProviderDb (db_effects db) (f (db_buckets db)) (db_reservations db) (db_utxos db) (db_ark_units db)
    (db_alerts db) (db_exit_packages db) (db_dispositions db) (db_watch_jobs db).
Definition set_reservations (f : gmap string ReservationRow -> gmap string ReservationRow) (db : ProviderDb) : ProviderDb :=
  mkProviderDb (db_effects db) (db_buckets db) (f (db_reservations db)) (db_utxos db) (db_ark_units db)
    (db_alerts db) (db_exit_packages db) (db_dispositions db) (db_watch_jobs db).
Definition set_utxos (f : gmap (string * Z) UtxoRow -> gmap (string * Z) UtxoRow) (db : ProviderDb) : ProviderDb :=
  mkProviderDb (db_effects db) (db_buckets db) (db_reservations db) (f (db_utxos db)) (db_ark_units db)
    (db_alerts db) (db_exit_packages db) (db_dispositions db) (db_watch_jobs db).
Definition set_ark_units (f : gmap string ArkUnitRow -> gmap string ArkUnitRow) (db : ProviderDb) : ProviderDb :=
  mkProviderDb (db_effects db) (db_buckets db) (db_reservations db) (db_utxos db) (f (db_ark_units db))
    (db_alerts db) (db_exit_packages db) (db_dispositions db) (db_watch_jobs db).
Definition set_alerts (f : gmap string AlertRow -> gmap string AlertRow) (db : ProviderDb) : ProviderDb :=
  mkProviderDb (db_effects db) (db_buckets db) (db_reservations db) (db_utxos db) (db_ark_units db)
    (f (db_alerts db)) (db_exit_packages db) (db_dispositions db) (db_watch_jobs db).
Definition set_exit_packages (f : gmap string ExitPackageRow -> gmap string ExitPackageRow) (db : ProviderDb) : ProviderDb :=
  mkProviderDb (db_effects db) (db_buckets db) (db_reservations db) (db_utxos db) (db_ark_units db)
    (db_alerts db) (f (db_exit_packages db)) (db_dispositions db) (db_watch_jobs db).
Definition set_dispositions (f : gmap string (string * Z) -> gmap string (string * Z)) (db : ProviderDb) : ProviderDb :=
  mkProviderDb (db_effects db) (db_buckets db) (db_reservations db) (db_utxos db) (db_ark_units db)
    (db_alerts db) (db_exit_packages db) (f (db_dispositions db)) (db_watch_jobs db).
Definition set_watch_jobs (f : gmap string WatchRow -> gmap string WatchRow) (db : ProviderDb) : ProviderDb :=
  mkProviderDb (db_effects db) (db_buckets db) (db_reservations db) (db_utxos db) (db_ark_units db)
    (db_alerts db) (db_exit_packages db) (db_dispositions db) (f (db_watch_jobs db)).

(** ** An instance *)

Definition toy_env : ProviderEnv := {| json_to_vec := fun _ => Ok []; jsonb := Some |}.
Lemma toy_env_laws : @ProviderEnvLaws toy_env.
Proof. by constructor. Qed.

Definition toy_hex (c : Z) : string := of_bytes (replicate 64 c).
