(* ===== verification/Ledger.v ===== *)
(** * Ledger: effects, capacity and reservations of the provider

    The operations of [ProviderStore] ([immortal-provider/src/store.rs]) on
    effects, capacity buckets, wallet outputs, hard reservations and Ark
    reserve units, each with the SQL statements it issues.  An effect is
    recorded before it is attempted and completed once; a reservation takes
    an amount of a bucket and named outputs out of circulation until it is
    released. *)

From S2P Require Import Prelude Text Utf8 Regroup Hex Event Filter Expanded Json Custody ProviderDb.

(** ** Requests, records and outcomes *)

Record PublicEffectRequest : Type := mkEffectRequest {
  er_effect_id : string;
  er_session_id : string;
  er_operation : string;
  er_request_sha256 : string;
  er_public_request : Value;
  er_created_at : Z;
}.

Record StoredPublicEffect : Type := mkStoredEffect {
  se_request : PublicEffectRequest;
  se_state : string;
  se_result_sha256 : option string;
  se_public_result : option Value;
  se_external_reference : option string;
}.

Record PublicEffectResult : Type := mkEffectResult {
  es_effect_id : string;
  es_request_sha256 : string;
  es_result_sha256 : string;
  es_public_result : Value;
  es_external_reference : string;
  es_completed_at : Z;
}.

(** [UtxoObservation] and [StoredUtxo] have the same fields. *)
Record UtxoObservation : Type := mkUtxo {
  uo_outpoint : OutPoint;
  uo_asset_id : string;
  uo_amount : Z;
  uo_script_pubkey : string;
  uo_state : string;
  uo_confirmations : Z;
  uo_block_hash : option string;
  uo_replacement_txid : option string;
  uo_observed_at : Z;
}.

Record ArkReserveUnit : Type := mkArkReserveUnit {
  ar_protocol_family : string;
  ar_operator_identity_sha256 : string;
  ar_vtxo : OutPoint;
  ar_proof_sha256 : string;
}.

Definition canonical_id (a : ArkReserveUnit) : string :=
  "ark:" +:+ ar_protocol_family a +:+ ":" +:+ ar_operator_identity_sha256 a +:+ ":"
  +:+ op_txid (ar_vtxo a) +:+ ":" +:+ to_string (op_vout (ar_vtxo a)).

Record HardReservationRequest : Type := mkReservationRequest {
  hr_reservation_id : string;
  hr_effect_id : string;
  hr_session_id : string;
  hr_bucket_id : string;
  hr_asset_id : string;
  hr_amount : Z;
  hr_request_sha256 : string;
  hr_expected_allocation_sequence : Z;
  hr_expires_at : Z;
  hr_utxos : list OutPoint;
  hr_ark_reserve : option ArkReserveUnit;
  hr_created_at : Z;
}.

Record ReservationRecord : Type := mkReservationRecord {
  rr_reservation_id : string;
  rr_effect_id : string;
  rr_session_id : string;
  rr_bucket_id : string;
  rr_asset_id : string;
  rr_amount : Z;
  rr_request_sha256 : string;
  rr_allocation_sequence : Z;
  rr_expires_at : Z;
  rr_state : string;
  rr_release_cause : option string;
}.

Inductive ReservationOutcome : Type :=
| Reserved (r : ReservationRecord)
| ReservationReplay (r : ReservationRecord)
| InsufficientCapacity
| AllocationSequenceMismatch (current : Z)
| UtxoUnavailable (o : OutPoint)
| ArkReserveUnitUnavailable (unit : string).

Section ledger.
Context `{ProviderEnv, EventCrypto, PgText}.

(** ** Statements on effects *)

Definition effect_checks (id : string) (r : EffectRow) : list (string * bool) :=
  [constraint "provider_effect_id" (hex_64 id);
   constraint "provider_effect_session" (hex_64 (ef_session_id r));
   constraint "provider_effect_operation" (sql_identifier is_ascii_lowercase 63 (ef_operation r));
   constraint "provider_effect_request_digest" (hex_64 (ef_request_sha256 r));
   constraint "provider_effect_state" (mem (ef_state r) ["pending"; "applied"; "unresolved"]%string);
   constraint "provider_effect_result_pair"
(     match ef_result_sha256 r, ef_public_result r with
     | None, None => true
     | Some digest, Some _ => hex_64 digest
     | _, _ => false
     end);
   constraint "provider_effect_time"
(     (0 <=? ef_created_at r) && (ef_created_at r <=? ef_updated_at r));
   constraint "provider_effect_request_public" (provider_public_json_safe (ef_public_request r));
   constraint "provider_effect_result_public"
(     match ef_public_result r with None => true | Some v => provider_public_json_safe v end)].

(** [INSERT_EFFECT_SQL]; the number of rows inserted. *)
Definition insert_effect (db : ProviderDb)
    (effect_id session_id operation request_sha256 : string) (public_request : Value) (created_at : Z)
    : result ProviderStoreError (Z * ProviderDb) :=
  public_request ← store_json public_request;
  let row := mkEffectRow session_id operation request_sha256 public_request "pending"
               None None None created_at created_at in
  _ ← check_row (effect_checks effect_id row);
  match db_effects db !! effect_id with
  | Some _ => Ok (0, db)
  | None => Ok (1, set_effects <[effect_id := row]> db)
  end.

(** [COMPLETE_EFFECT_SQL]. *)
Definition update_complete_effect (db : ProviderDb)
    (effect_id result_sha256 : string) (public_result : Value) (external_reference : string) (now : Z)
    : result ProviderStoreError (Z * ProviderDb) :=
  public_result ← store_json public_result;
  match db_effects db !! effect_id with
  | None => Ok (0, db)
  | Some r =>
      let row := mkEffectRow (ef_session_id r) (ef_operation r) (ef_request_sha256 r)
                   (ef_public_request r) "applied" (Some result_sha256) (Some public_result)
                   (Some external_reference) (ef_created_at r) (Z.max (ef_updated_at r) now) in
      _ ← check_row (effect_checks effect_id row);
      Ok (1, set_effects <[effect_id := row]> db)
  end.

(** [MARK_EFFECT_UNRESOLVED_SQL]. *)
Definition update_effect_unresolved (db : ProviderDb) (effect_id : string) (now : Z)
    : result ProviderStoreError (Z * ProviderDb) :=
  match db_effects db !! effect_id with
  | None => Ok (0, db)
  | Some r =>
      if bool_decide (ef_state r = "pending"%string) then
        let row := mkEffectRow (ef_session_id r) (ef_operation r) (ef_request_sha256 r)
                     (ef_public_request r) "unresolved" (ef_result_sha256 r) (ef_public_result r)
                     (ef_external_reference r) (ef_created_at r) (Z.max (ef_updated_at r) now) in
        _ ← check_row (effect_checks effect_id row);
        Ok (1, set_effects <[effect_id := row]> db)
      else Ok (0, db)
  end.

(** ** Statements on alerts *)

Definition alert_checks (id : string) (r : AlertRow) : list (string * bool) :=
  [constraint "provider_alert_id" (hex_64 id);
   constraint "provider_alert_session" (match al_session_id r with None => true | Some s => hex_64 s end);
   constraint "provider_alert_class" (sql_identifier is_ascii_lowercase 63 (al_alert_class r));
   constraint "provider_alert_detail" (sql_identifier is_ascii_lowercase 127 (al_detail_code r));
   constraint "provider_alert_state" (mem (al_state r) ["active"; "acknowledged"; "resolved"]%string);
   constraint "provider_alert_time"
(     (0 <=? al_created_at r) && (al_created_at r <=? al_updated_at r));
   constraint "provider_alert_context_public" (provider_public_json_safe (al_public_context r))].

(** [INSERT_ALERT_SQL]: insert, or reopen the alert of the same id. *)
Definition insert_alert (db : ProviderDb) (alert_id : string) (session_id : option string)
    (alert_class detail_code : string) (public_context : Value) (now : Z)
    : result ProviderStoreError ProviderDb :=
  public_context ← store_json public_context;
  let row := mkAlertRow session_id alert_class detail_code public_context "active" now now in
  _ ← check_row (alert_checks alert_id row);
  match db_alerts db !! alert_id with
  | None => Ok (set_alerts <[alert_id := row]> db)
  | Some r =>
      let row := mkAlertRow (al_session_id r) (al_alert_class r) detail_code public_context "active"
                   (al_created_at r) (Z.max (al_updated_at r) now) in
      _ ← check_row (alert_checks alert_id row);
      Ok (set_alerts <[alert_id := row]> db)
  end.

(** ** Effects *)

Definition validate_effect_request (request : PublicEffectRequest) : result ProviderStoreError unit :=
  _ ← validate_hex (er_effect_id request) "effect ID";
  _ ← validate_hex (er_session_id request) "effect session";
  _ ← validate_identifier (er_operation request) "effect operation";
  _ ← validate_hex (er_request_sha256 request) "effect request digest";
  validate_public_json (er_public_request request).

Definition effect_request_matches (row : EffectRow) (request : PublicEffectRequest) : bool :=
  bool_decide (ef_session_id row = er_session_id request)
  && bool_decide (ef_operation row = er_operation request)
  && bool_decide (ef_request_sha256 row = er_request_sha256 request)
  && bool_decide (ef_public_request row = er_public_request request).

(** [query_one] of a row a statement just found to exist. *)
Definition query_one {A} (row : option A) : result ProviderStoreError A :=
  ok_or (MigrationDrift "query returned an unexpected number of rows") row.

Definition persist_effect_request (db : ProviderDb) (request : PublicEffectRequest)
    : result ProviderStoreError (StoreWriteOutcome * ProviderDb) :=
  _ ← validate_effect_request request;
  created_at ← database_u64 (er_created_at request) "effect time";
  '(inserted, db) ← insert_effect db (er_effect_id request) (er_session_id request)
                      (er_operation request) (er_request_sha256 request)
                      (er_public_request request) created_at;
  if inserted =? 1 then Ok (Stored, db)
  else
    row ← query_one (db_effects db !! er_effect_id request);
    outcome ← replay_or_conflict (effect_request_matches row request) "effect request";
    Ok (outcome, db).

Definition complete_effect (db : ProviderDb) (result : PublicEffectResult)
    : Prelude.result ProviderStoreError (StoreWriteOutcome * ProviderDb) :=
  _ ← validate_hex (es_effect_id result) "effect ID";
  _ ← validate_hex (es_request_sha256 result) "effect request digest";
  _ ← validate_hex (es_result_sha256 result) "effect result digest";
  _ ← validate_public_json (es_public_result result);
  _ ← validate_reference (es_external_reference result) "external effect reference";
  completed_at ← database_u64 (es_completed_at result) "effect completion time";
  row ← ok_or (NotFound (es_effect_id result)) (db_effects db !! es_effect_id result);
  if negb (bool_decide (ef_request_sha256 row = es_request_sha256 result)) then
    Err (Conflict "effect result request digest mismatch")
  else if bool_decide (ef_state row = "applied"%string) then
    let matches :=
      bool_decide (ef_result_sha256 row = Some (es_result_sha256 result))
      && bool_decide (ef_public_result row = Some (es_public_result result))
      && bool_decide (ef_external_reference row = Some (es_external_reference result)) in
    outcome ← replay_or_conflict matches "effect result";
    Ok (outcome, db)
  else if bool_decide (ef_state row = "unresolved"%string) then
    Err (Conflict "unresolved effect requires operator reconciliation")
  else
    '(_, db) ← update_complete_effect db (es_effect_id result) (es_result_sha256 result)
                 (es_public_result result) (es_external_reference result) completed_at;
    Ok (Stored, db).

Definition public_effect (db : ProviderDb) (effect_id : string)
    : result ProviderStoreError (option StoredPublicEffect) :=
  _ ← validate_hex effect_id "effect ID";
  match db_effects db !! effect_id with
  | None => Ok None
  | Some row =>
      created_at ← u64_column (ef_created_at row) "effect time is negative";
      Ok (Some (mkStoredEffect
        (mkEffectRequest effect_id (ef_session_id row) (ef_operation row) (ef_request_sha256 row)
           (ef_public_request row) created_at)
        (ef_state row) (ef_result_sha256 row) (ef_public_result row) (ef_external_reference row)))
  end.

(** [digest(format!("{prefix}\0{id}").as_bytes())]. *)
Definition alert_id_of (prefix id : string) : string :=
  digest (as_bytes prefix ++ 0 :: as_bytes id).

Definition mark_effect_unresolved (db : ProviderDb) (effect_id detail_code : string) (now : Z)
    : result ProviderStoreError (StoreWriteOutcome * ProviderDb) :=
  _ ← validate_hex effect_id "effect ID";
  _ ← validate_identifier detail_code "effect unresolved code";
  now ← database_u64 now "effect unresolved time";
  row ← ok_or (NotFound effect_id) (db_effects db !! effect_id);
  if bool_decide (ef_state row = "unresolved"%string) then
    alert ← ok_or (MigrationDrift "unresolved effect has no durable alert")
              (db_alerts db !! alert_id_of "provider-effect-unresolved" effect_id);
    outcome ← replay_or_conflict (bool_decide (al_detail_code alert = detail_code))
                "effect unresolved state";
    Ok (outcome, db)
  else if negb (bool_decide (ef_state row = "pending"%string)) then
    Err (Conflict "applied effect cannot become unresolved")
  else
    '(rows, db) ← update_effect_unresolved db effect_id now;
    _ ← require_updated rows effect_id;
    db ← insert_alert db (alert_id_of "provider-effect-unresolved" effect_id)
           (Some (ef_session_id row)) "effect" detail_code
           (json_object [("effect_id", VString effect_id)]%string) now;
    Ok (Stored, db).

(** ** Capacity buckets *)

Definition bucket_checks (id : string) (r : BucketRow) : list (string * bool) :=
  [constraint "provider_capacity_bucket_id" (sql_identifier lower_or_digit 63 id);
   constraint "provider_capacity_bucket_asset" (starts_with "swp:1:" (bk_asset_id r));
   constraint "provider_capacity_bucket_amount"
(     (0 <=? bk_total_capacity r) && (0 <=? bk_allocated_capacity r)
     && (bk_allocated_capacity r <=? bk_total_capacity r));
   constraint "provider_capacity_bucket_sequence" (0 <=? bk_allocation_sequence r);
   constraint "provider_capacity_bucket_time" (0 <=? bk_updated_at r)].

(** [UPSERT_BUCKET_SQL]. *)
Definition upsert_bucket (db : ProviderDb) (bucket_id asset_id : string) (total now : Z)
    : result ProviderStoreError (Z * ProviderDb) :=
  let row := mkBucketRow asset_id total 0 0 now in
  _ ← check_row (bucket_checks bucket_id row);
  match db_buckets db !! bucket_id with
  | None => Ok (1, set_buckets <[bucket_id := row]> db)
  | Some r =>
      if (bk_allocated_capacity r <=? total) && bool_decide (bk_asset_id r = asset_id) then
        let row := mkBucketRow asset_id total (bk_allocated_capacity r) (bk_allocation_sequence r)
                     (Z.max (bk_updated_at r) now) in
        _ ← check_row (bucket_checks bucket_id row);
        Ok (1, set_buckets <[bucket_id := row]> db)
      else Ok (0, db)
  end.

(** [UPDATE_BUCKET_RESERVE_SQL]. *)
Definition update_bucket_reserve (db : ProviderDb) (bucket_id : string) (amount now : Z)
    : result ProviderStoreError ProviderDb :=
  match db_buckets db !! bucket_id with
  | None => Ok db
  | Some r =>
      let row := mkBucketRow (bk_asset_id r) (bk_total_capacity r) (bk_allocated_capacity r + amount)
                   (bk_allocation_sequence r + 1) (Z.max (bk_updated_at r) now) in
      _ ← check_row (bucket_checks bucket_id row);
      Ok (set_buckets <[bucket_id := row]> db)
  end.

(** [UPDATE_BUCKET_RELEASE_SQL]. *)
Definition update_bucket_release (db : ProviderDb) (bucket_id : string) (amount now : Z)
    : result ProviderStoreError (Z * ProviderDb) :=
  match db_buckets db !! bucket_id with
  | None => Ok (0, db)
  | Some r =>
      if amount <=? bk_allocated_capacity r then
        let row := mkBucketRow (bk_asset_id r) (bk_total_capacity r) (bk_allocated_capacity r - amount)
                     (bk_allocation_sequence r) (Z.max (bk_updated_at r) now) in
        _ ← check_row (bucket_checks bucket_id row);
        Ok (1, set_buckets <[bucket_id := row]> db)
      else Ok (0, db)
  end.

Definition configure_capacity_bucket (db : ProviderDb) (bucket_id asset_id : string) (total_capacity now : Z)
    : result ProviderStoreError (unit * ProviderDb) :=
  _ ← validate_identifier bucket_id "capacity bucket";
  _ ← validate_asset asset_id;
  total_capacity ← database_u64 total_capacity "capacity";
  now ← database_u64 now "bucket update time";
  '(rows, db) ← upsert_bucket db bucket_id asset_id total_capacity now;
  if negb (rows =? 1) then
    Err (Conflict "capacity update changes the asset or drops below allocation")
  else Ok (tt, db).

Definition available_capacity (db : ProviderDb) (bucket_id : string) : result ProviderStoreError Z :=
  _ ← validate_identifier bucket_id "capacity bucket";
  row ← ok_or (NotFound bucket_id) (db_buckets db !! bucket_id);
  u64_column (bk_total_capacity row - bk_allocated_capacity row) "available capacity became negative".

(** ** Wallet outputs *)

Definition UTXO_STATES : list string :=
  ["available"; "spent"; "reorged"; "replaced"; "unresolved"]%string.

Definition lower_hex_script (script : string) : bool :=
  negb (existsb (fun byte => negb (is_ascii_hexdigit byte) || is_ascii_uppercase byte) (as_bytes script)).

Definition validate_utxo (o : UtxoObservation) : result ProviderStoreError unit :=
  _ ← validate_hex (op_txid (uo_outpoint o)) "UTXO txid";
  _ ← validate_asset (uo_asset_id o);
  if (uo_amount o =? 0) || bool_decide (uo_script_pubkey o = ""%string)
     || (20000 <? str_len (uo_script_pubkey o)) || negb (lower_hex_script (uo_script_pubkey o))
     || negb (mem (uo_state o) UTXO_STATES)
  then Err (InvalidInput "UTXO public observation is invalid")
  else
    _ ← match uo_block_hash o with None => Ok tt | Some hash => validate_hex hash "UTXO block hash" end;
    match uo_replacement_txid o with None => Ok tt | Some txid => validate_hex txid "UTXO replacement txid" end.

Definition utxo_checks (key : string * Z) (r : UtxoRow) : list (string * bool) :=
  [constraint "provider_utxo_txid" (hex_64 key.1);
   constraint "provider_utxo_vout" (0 <=? key.2);
   constraint "provider_utxo_asset" (starts_with "swp:1:" (ux_asset_id r));
   constraint "provider_utxo_amount" (0 <? ux_amount r);
   constraint "provider_utxo_script"
(     negb (bool_decide (ux_script_pubkey r = ""%string)) && forallb hex_char (as_bytes (ux_script_pubkey r))
     && (str_len (ux_script_pubkey r) <=? 20000));
   constraint "provider_utxo_state" (mem (ux_state r) ("reserved"%string :: UTXO_STATES));
   constraint "provider_utxo_reservation"
(     negb (bool_decide (ux_state r = "reserved"%string)) || bool_decide (is_Some (ux_reservation_id r)));
   constraint "provider_utxo_confirmations" (0 <=? ux_confirmations r);
   constraint "provider_utxo_block_hash" (match ux_block_hash r with None => true | Some h => hex_64 h end);
   constraint "provider_utxo_replacement" (match ux_replacement_txid r with None => true | Some t => hex_64 t end);
   constraint "provider_utxo_observed" (0 <=? ux_observed_at r)].

(** [UPSERT_UTXO_SQL]: a reserved output stays reserved while it is seen
    available, and its reservation is never changed here. *)
Definition upsert_utxo (db : ProviderDb) (key : string * Z) (new : UtxoRow)
    : result ProviderStoreError (Z * ProviderDb) :=
  _ ← check_row (utxo_checks key new);
  match db_utxos db !! key with
  | None => Ok (1, set_utxos <[key := new]> db)
  | Some r =>
      if bool_decide (ux_asset_id r = ux_asset_id new) && (ux_amount r =? ux_amount new)
         && bool_decide (ux_script_pubkey r = ux_script_pubkey new)
      then
        let state :=
          if bool_decide (ux_state r = "reserved"%string) && bool_decide (ux_state new = "available"%string)
          then ux_state r else ux_state new in
        let row := mkUtxoRow (ux_asset_id r) (ux_amount r) (ux_script_pubkey r) state
                     (ux_reservation_id r) (ux_confirmations new) (ux_block_hash new)
                     (ux_replacement_txid new) (Z.max (ux_observed_at r) (ux_observed_at new)) in
        _ ← check_row (utxo_checks key row);
        Ok (1, set_utxos <[key := row]> db)
      else Ok (0, db)
  end.

Definition observe_utxo (db : ProviderDb) (o : UtxoObservation)
    : result ProviderStoreError (unit * ProviderDb) :=
  _ ← validate_utxo o;
  vout ← database_i32 (op_vout (uo_outpoint o)) "vout exceeds i32";
  amount ← database_u64 (uo_amount o) "UTXO amount";
  confirmations ← database_i32 (uo_confirmations o) "confirmation count exceeds i32";
  observed_at ← database_u64 (uo_observed_at o) "UTXO observation time";
  '(rows, db) ← upsert_utxo db (op_txid (uo_outpoint o), vout)
                  (mkUtxoRow (uo_asset_id o) amount (uo_script_pubkey o) (uo_state o) None
                     confirmations (uo_block_hash o) (uo_replacement_txid o) observed_at);
  if negb (rows =? 1) then Err (Conflict "UTXO immutable public fields changed")
  else Ok (tt, db).

Definition stored_utxo_from_row (kr : (string * Z) * UtxoRow) : result ProviderStoreError UtxoObservation :=
  let '((txid, vout), row) := kr in
  vout ← u64_column vout "UTXO vout is outside u32";
  amount ← positive_u64 (ux_amount row) "UTXO amount";
  confirmations ← u64_column (ux_confirmations row) "UTXO confirmations are outside u32";
  observed_at ← u64_column (ux_observed_at row) "UTXO observed time is negative";
  Ok (mkUtxo (mkOutPoint txid vout) (ux_asset_id row) amount (ux_script_pubkey row) (ux_state row)
        confirmations (ux_block_hash row) (ux_replacement_txid row) observed_at).

Definition observed_key (o : UtxoObservation) : string * Z := (op_txid (uo_outpoint o), op_vout (uo_outpoint o)).

(** [ORDER BY txid, vout] and [ORDER BY amount DESC, txid, vout]; the columns
    have the collation "C", which compares bytes. *)
Definition key_le (a b : string * Z) : bool :=
  match String.compare a.1 b.1 with Lt => true | Eq => a.2 <=? b.2 | Gt => false end.
Definition by_outpoint (a b : (string * Z) * UtxoRow) : Prop := key_le a.1 b.1 = true.
Definition by_amount_desc (a b : (string * Z) * UtxoRow) : Prop :=
  (ux_amount b.2 <? ux_amount a.2) || ((ux_amount a.2 =? ux_amount b.2) && key_le a.1 b.1) = true.

#[export] Instance by_outpoint_dec : RelDecision by_outpoint.
Proof. intros a b. unfold by_outpoint. apply _. Defined.
#[export] Instance by_amount_desc_dec : RelDecision by_amount_desc.
Proof. intros a b. unfold by_amount_desc. apply _. Defined.

(** [SELECT_AVAILABLE_UTXOS_SQL] and [SELECT_RESERVED_UTXOS_SQL]. *)
Definition select_available_utxos (db : ProviderDb) (asset_id : string) (minimum : Z)
    (scripts : list string) (limit : Z) : list ((string * Z) * UtxoRow) :=
  take (Z.to_nat limit) (merge_sort by_amount_desc
    (List.filter (fun kr => bool_decide (ux_asset_id kr.2 = asset_id)
       && bool_decide (ux_state kr.2 = "available"%string) && (minimum <=? ux_confirmations kr.2)
       && mem (ux_script_pubkey kr.2) scripts) (map_to_list (db_utxos db)))).
Definition select_reserved_utxos (db : ProviderDb) (reservation_id : string) (limit : Z)
    : list ((string * Z) * UtxoRow) :=
  take (Z.to_nat limit) (merge_sort by_outpoint
    (List.filter (fun kr => bool_decide (ux_reservation_id kr.2 = Some reservation_id)
       && bool_decide (ux_state kr.2 = "reserved"%string)) (map_to_list (db_utxos db)))).

Definition available_utxos (db : ProviderDb) (asset_id : string) (script_pubkeys : list string)
    (minimum_confirmations limit : Z) : result ProviderStoreError (list UtxoObservation) :=
  _ ← validate_asset asset_id;
  if bool_decide (script_pubkeys = []) || (128 <? len script_pubkeys) || (limit =? 0)
     || (MAX_RESERVATION_UTXOS <? limit)
     || existsb (fun script => bool_decide (script = ""%string) || (20000 <? str_len script)
                               || negb (lower_hex_script script)) script_pubkeys
  then Err (InvalidInput "available UTXO query is outside bounds")
  else
    minimum ← database_i32 minimum_confirmations "confirmation count exceeds i32";
    limit ← ok_or (InvalidInput "UTXO limit exceeds i64") (try_from_u I64_MAX limit);
    try_map stored_utxo_from_row (select_available_utxos db asset_id minimum script_pubkeys limit).

Definition reserved_utxos (db : ProviderDb) (reservation_id : string)
    : result ProviderStoreError (list UtxoObservation) :=
  _ ← validate_hex reservation_id "reservation ID";
  limit ← ok_or (MigrationDrift "reservation UTXO bound exceeds i64")
            (try_from_u I64_MAX MAX_RESERVATION_UTXOS);
  try_map stored_utxo_from_row (select_reserved_utxos db reservation_id limit).

End ledger.
