(* ===== verification/Reserve.v ===== *)
(** * Reserve: hard reservations of provider capacity

    [reserve], [release_reservation] and [mark_reservation_unresolved] of
    [immortal-provider/src/store.rs], with the statements they issue on
    [provider_reservation] and [provider_ark_reserve_unit].  A reservation is
    one transaction: it checks the bucket's allocation sequence and free
    capacity and every named output, records the effect, the allocation, the
    reservation, the Ark unit and the outputs, and completes the effect. *)

From S2P Require Import Prelude Text Utf8 Regroup Hex Event Filter Expanded Json Custody ProviderDb Ledger.

(** ** Order of outpoints *)

Definition outpoint_key (o : OutPoint) : string * Z := (op_txid o, op_vout o).
Definition outpoint_le (a b : OutPoint) : Prop := key_le (outpoint_key a) (outpoint_key b) = true.
#[export] Instance outpoint_le_dec : RelDecision outpoint_le.
Proof. intros a b. unfold outpoint_le. apply _. Defined.

Definition sort_outpoints (outpoints : list OutPoint) : list OutPoint := merge_sort outpoint_le outpoints.

(** [windows(2).any(|pair| pair[0] == pair[1])]. *)
Fixpoint adjacent_equal (l : list OutPoint) : bool :=
  match l with
  | a :: (b :: _) as l' => bool_decide (a = b) || adjacent_equal l'
  | _ => false
  end.

Definition validate_reservation_request (request : HardReservationRequest)
    : result ProviderStoreError unit :=
  _ ← validate_hex (hr_reservation_id request) "reservation ID";
  _ ← validate_hex (hr_effect_id request) "reservation effect ID";
  _ ← validate_hex (hr_session_id request) "reservation session";
  _ ← validate_identifier (hr_bucket_id request) "capacity bucket";
  _ ← validate_asset (hr_asset_id request);
  _ ← validate_hex (hr_request_sha256 request) "reservation request digest";
  if (hr_amount request =? 0) || (hr_expected_allocation_sequence request =? 0)
     || (hr_expires_at request <=? hr_created_at request)
     || (MAX_RESERVATION_UTXOS <? len (hr_utxos request))
  then Err (InvalidInput "reservation amount, sequence, expiry, or UTXO bound is invalid")
  else
  let outpoints := sort_outpoints (hr_utxos request) in
  if adjacent_equal outpoints then Err (InvalidInput "reservation repeats a UTXO")
  else
  _ ← try_fold (fun _ o => validate_hex (op_txid o) "reservation UTXO txid") tt outpoints;
  match hr_ark_reserve request with
  | None => Ok tt
  | Some ark =>
      if negb (mem (ar_protocol_family ark) ["arkade"; "bark"]%string) then
        Err (InvalidInput "Ark reserve protocol family must be arkade or bark")
      else
        _ ← validate_hex (ar_operator_identity_sha256 ark) "Ark operator identity";
        _ ← validate_hex (op_txid (ar_vtxo ark)) "Ark reserve VTXO txid";
        _ ← validate_hex (ar_proof_sha256 ark) "Ark reserve proof digest";
        _ ← database_i32 (op_vout (ar_vtxo ark)) "Ark reserve VTXO vout exceeds i32";
        Ok tt
  end.

(** ** The effect of a reservation *)

Definition ark_reserve_json (ark : ArkReserveUnit) : Value :=
  json_object
    [("reserve_unit", VString (canonical_id ark));
     ("protocol_family", VString (ar_protocol_family ark));
     ("operator_identity_sha256", VString (ar_operator_identity_sha256 ark));
     ("vtxo_txid", VString (op_txid (ar_vtxo ark)));
     ("vout", VInt (op_vout (ar_vtxo ark)));
     ("proof_sha256", VString (ar_proof_sha256 ark))]%string.

Definition outpoint_json (o : OutPoint) : Value :=
  json_object [("txid", VString (op_txid o)); ("vout", VInt (op_vout o))]%string.

Definition reserve_public_request_with_sequence (request : HardReservationRequest)
    (outpoints : list OutPoint) (allocation_sequence : Z) : Value :=
  json_object
    [("reservation_id", VString (hr_reservation_id request));
     ("bucket_id", VString (hr_bucket_id request));
     ("asset_id", VString (hr_asset_id request));
     ("amount", VString (to_string (hr_amount request)));
     ("expected_allocation_sequence", VString (to_string allocation_sequence));
     ("expires_at", VInt (hr_expires_at request));
     ("ark_reserve", match hr_ark_reserve request with None => VNull | Some a => ark_reserve_json a end);
     ("utxos", VArray (outpoint_json <$> outpoints))]%string.

Definition reserve_public_request (request : HardReservationRequest) (outpoints : list OutPoint) : Value :=
  reserve_public_request_with_sequence request outpoints (hr_expected_allocation_sequence request).

Definition reserve_public_result (request : HardReservationRequest) (allocation_sequence : Z) : Value :=
  json_object
    [("reservation_id", VString (hr_reservation_id request));
     ("allocation_sequence", VString (to_string allocation_sequence));
     ("state", VString "reserved")]%string.

Definition reservation_matches (existing : ReservationRecord) (request : HardReservationRequest) : bool :=
  bool_decide (rr_effect_id existing = hr_effect_id request)
  && bool_decide (rr_session_id existing = hr_session_id request)
  && bool_decide (rr_bucket_id existing = hr_bucket_id request)
  && bool_decide (rr_asset_id existing = hr_asset_id request)
  && (rr_amount existing =? hr_amount request)
  && bool_decide (rr_request_sha256 existing = hr_request_sha256 request)
  && (rr_expires_at existing =? hr_expires_at request).

Definition reservation_from_row (id : string) (row : ReservationRow)
    : result ProviderStoreError ReservationRecord :=
  amount ← positive_u64 (rv_amount row) "reservation amount";
  allocation_sequence ← positive_u64 (rv_allocation_sequence row) "allocation sequence";
  expires_at ← positive_u64 (rv_expires_at row) "reservation expiry";
  Ok (mkReservationRecord id (rv_effect_id row) (rv_session_id row) (rv_bucket_id row)
        (rv_asset_id row) amount (rv_request_sha256 row) allocation_sequence expires_at
        (rv_state row) (rv_release_cause row)).

Definition select_reservation (db : ProviderDb) (id : string)
    : result ProviderStoreError (option ReservationRecord) :=
  match db_reservations db !! id with
  | None => Ok None
  | Some row => r ← reservation_from_row id row; Ok (Some r)
  end.

Definition reservation (db : ProviderDb) (id : string)
    : result ProviderStoreError (option ReservationRecord) :=
  _ ← validate_hex id "reservation ID";
  select_reservation db id.

(** ** Statements on reservations *)

Definition reservation_checks (id : string) (r : ReservationRow) : list (string * bool) :=
  [constraint "provider_reservation_id" (hex_64 id);
   constraint "provider_reservation_session" (hex_64 (rv_session_id r));
   constraint "provider_reservation_asset" (starts_with "swp:1:" (rv_asset_id r));
   constraint "provider_reservation_amount" (0 <? rv_amount r);
   constraint "provider_reservation_digest" (hex_64 (rv_request_sha256 r));
   constraint "provider_reservation_sequence" (0 <? rv_allocation_sequence r);
   constraint "provider_reservation_expiry" (rv_created_at r <? rv_expires_at r);
   constraint "provider_reservation_state" (mem (rv_state r) ["active"; "released"; "unresolved"]%string);
   constraint "provider_reservation_release"
     (Bool.eqb (bool_decide (rv_state r = "active"%string)) (bool_decide (rv_release_cause r = None)));
   constraint "provider_reservation_time"
     ((0 <=? rv_created_at r) && (rv_created_at r <=? rv_updated_at r))].

(** [INSERT_RESERVATION_SQL]: the id, the effect and the session are unique,
    the effect and the bucket exist. *)
Definition insert_reservation (db : ProviderDb) (id : string) (row : ReservationRow)
    : result ProviderStoreError ProviderDb :=
  _ ← check_row (reservation_checks id row);
  if bool_decide (is_Some (db_reservations db !! id)) then
    Err (Database (UniqueViolation "provider_reservation_pkey"))
  else if existsb (fun kr => String.eqb (rv_effect_id kr.2) (rv_effect_id row))
            (map_to_list (db_reservations db)) then
    Err (Database (UniqueViolation "provider_reservation_effect_id_key"))
  else if existsb (fun kr => String.eqb (rv_session_id kr.2) (rv_session_id row))
            (map_to_list (db_reservations db)) then
    Err (Database (UniqueViolation "provider_reservation_session_id_key"))
  else if negb (bool_decide (is_Some (db_effects db !! rv_effect_id row))) then
    Err (Database (ForeignKeyViolation "provider_reservation_effect_id_fkey"))
  else if negb (bool_decide (is_Some (db_buckets db !! rv_bucket_id row))) then
    Err (Database (ForeignKeyViolation "provider_reservation_bucket_id_fkey"))
  else Ok (set_reservations <[id := row]> db).

(** [RELEASE_RESERVATION_SQL] and [MARK_RESERVATION_UNRESOLVED_SQL]. *)
Definition update_reservation_state (db : ProviderDb) (id state cause : string) (now : Z)
    : result ProviderStoreError (Z * ProviderDb) :=
  match db_reservations db !! id with
  | None => Ok (0, db)
  | Some r =>
      if bool_decide (rv_state r = "active"%string) then
        let row := mkReservationRow (rv_effect_id r) (rv_session_id r) (rv_bucket_id r) (rv_asset_id r)
                     (rv_amount r) (rv_request_sha256 r) (rv_allocation_sequence r) (rv_expires_at r)
                     state (Some cause) (rv_created_at r) (Z.max (rv_updated_at r) now) in
        _ ← check_row (reservation_checks id row);
        Ok (1, set_reservations <[id := row]> db)
      else Ok (0, db)
  end.

(** [RESERVE_UTXO_SQL]. *)
Definition reserve_utxo (db : ProviderDb) (key : string * Z) (reservation_id : string) (now : Z)
    : result ProviderStoreError (Z * ProviderDb) :=
  match db_utxos db !! key with
  | None => Ok (0, db)
  | Some r =>
      if bool_decide (ux_state r = "available"%string) && bool_decide (ux_reservation_id r = None) then
        let row := mkUtxoRow (ux_asset_id r) (ux_amount r) (ux_script_pubkey r) "reserved"
                     (Some reservation_id) (ux_confirmations r) (ux_block_hash r)
                     (ux_replacement_txid r) (Z.max (ux_observed_at r) now) in
        _ ← check_row (utxo_checks key row);
        if bool_decide (is_Some (db_reservations db !! reservation_id)) then
          Ok (1, set_utxos <[key := row]> db)
        else Err (Database (ForeignKeyViolation "provider_utxo_reservation_id_fkey"))
      else Ok (0, db)
  end.

(** [RELEASE_UTXOS_SQL]. *)
Definition release_row (reservation_id : string) (now : Z) (r : UtxoRow) : UtxoRow :=
  if bool_decide (ux_reservation_id r = Some reservation_id)
     && bool_decide (ux_state r = "reserved"%string)
  then mkUtxoRow (ux_asset_id r) (ux_amount r) (ux_script_pubkey r) "available" None
         (ux_confirmations r) (ux_block_hash r) (ux_replacement_txid r) (Z.max (ux_observed_at r) now)
  else r.
Definition release_utxos (db : ProviderDb) (reservation_id : string) (now : Z) : ProviderDb :=
  set_utxos (fmap (release_row reservation_id now)) db.

(** ** Ark reserve units *)

Definition ark_blocking (r : ArkUnitRow) : bool := mem (ak_state r) ["active"; "unresolved"]%string.

(** [SELECT_BLOCKING_ARK_RESERVE_UNIT_SQL]. *)
Definition ark_unit_blocked (db : ProviderDb) (reserve_unit : string) : bool :=
  existsb (fun kr => String.eqb (ak_reserve_unit kr.2) reserve_unit && ark_blocking kr.2)
    (map_to_list (db_ark_units db)).

Definition ark_checks (r : ArkUnitRow) : list (string * bool) :=
  [constraint "provider_ark_reserve_unit_family"
     (mem (ak_protocol_family r) ["arkade"; "bark"]%string);
   constraint "provider_ark_reserve_unit_operator" (hex_64 (ak_operator_identity_sha256 r));
   constraint "provider_ark_reserve_unit_txid" (hex_64 (ak_vtxo_txid r));
   constraint "provider_ark_reserve_unit_vout" (0 <=? ak_vout r);
   constraint "provider_ark_reserve_unit_proof" (hex_64 (ak_proof_sha256 r));
   constraint "provider_ark_reserve_unit_identity"
     (String.eqb (ak_reserve_unit r)
        ("ark:" +:+ ak_protocol_family r +:+ ":" +:+ ak_operator_identity_sha256 r
         +:+ ":" +:+ ak_vtxo_txid r +:+ ":" +:+ to_string (ak_vout r)));
   constraint "provider_ark_reserve_unit_state" (mem (ak_state r) ["active"; "released"; "unresolved"]%string);
   constraint "provider_ark_reserve_unit_release"
     (Bool.eqb (bool_decide (ak_state r = "active"%string)) (bool_decide (ak_release_cause r = None)));
   constraint "provider_ark_reserve_unit_time"
     ((0 <=? ak_created_at r) && (ak_created_at r <=? ak_updated_at r))].

(** [INSERT_ARK_RESERVE_UNIT_SQL], with the unique index on the units held. *)
Definition insert_ark_unit (db : ProviderDb) (reservation_id : string) (row : ArkUnitRow)
    : result ProviderStoreError ProviderDb :=
  _ ← check_row (ark_checks row);
  if bool_decide (is_Some (db_ark_units db !! reservation_id)) then
    Err (Database (UniqueViolation "provider_ark_reserve_unit_pkey"))
  else if ark_unit_blocked db (ak_reserve_unit row) then
    Err (Database (UniqueViolation "provider_ark_reserve_unit_blocking"))
  else if negb (bool_decide (is_Some (db_reservations db !! reservation_id))) then
    Err (Database (ForeignKeyViolation "provider_ark_reserve_unit_reservation_id_fkey"))
  else Ok (set_ark_units <[reservation_id := row]> db).

(** [RELEASE_ARK_RESERVE_UNIT_SQL] and [MARK_ARK_RESERVE_UNIT_UNRESOLVED_SQL]. *)
Definition update_ark_unit_state (db : ProviderDb) (reservation_id state cause : string) (now : Z)
    : result ProviderStoreError (Z * ProviderDb) :=
  match db_ark_units db !! reservation_id with
  | None => Ok (0, db)
  | Some r =>
      if bool_decide (ak_state r = "active"%string) then
        let row := mkArkUnitRow (ak_reserve_unit r) (ak_protocol_family r)
                     (ak_operator_identity_sha256 r) (ak_vtxo_txid r) (ak_vout r) (ak_proof_sha256 r)
                     state (Some cause) (ak_created_at r) (Z.max (ak_updated_at r) now) in
        _ ← check_row (ark_checks row);
        Ok (1, set_ark_units <[reservation_id := row]> db)
      else Ok (0, db)
  end.

Definition ark_reserve_matches (db : ProviderDb) (request : HardReservationRequest)
    : result ProviderStoreError bool :=
  match hr_ark_reserve request, db_ark_units db !! hr_reservation_id request with
  | None, stored => Ok (match stored with None => true | Some _ => false end)
  | Some _, None => Ok false
  | Some requested, Some stored =>
      stored_vout ← u64_column (ak_vout stored) "Ark reserve VTXO vout is outside u32";
      Ok (String.eqb (ak_reserve_unit stored) (canonical_id requested)
          && String.eqb (ak_protocol_family stored) (ar_protocol_family requested)
          && String.eqb (ak_operator_identity_sha256 stored) (ar_operator_identity_sha256 requested)
          && String.eqb (ak_vtxo_txid stored) (op_txid (ar_vtxo requested))
          && (stored_vout =? op_vout (ar_vtxo requested))
          && String.eqb (ak_proof_sha256 stored) (ar_proof_sha256 requested))
  end.

Definition transition_ark_reserve_unit (db : ProviderDb) (reservation_id target_state cause : string) (now : Z)
    : result ProviderStoreError ProviderDb :=
  match db_ark_units db !! reservation_id with
  | None => Ok db
  | Some row =>
      if bool_decide (ak_state row = target_state) then
        if bool_decide (ak_release_cause row = Some cause) then Ok db
        else Err (Conflict "Ark reserve unit transition changed its cause")
      else if negb (bool_decide (ak_state row = "active"%string)) then
        Err (Conflict "Ark reserve unit cannot change terminal state")
      else if negb (mem target_state ["released"; "unresolved"]%string) then
        Err (MigrationDrift "unsupported Ark reserve unit transition")
      else
        '(rows, db) ← update_ark_unit_state db reservation_id target_state cause now;
        _ ← require_updated rows reservation_id;
        Ok db
  end.

Section reserve.
Context `{ProviderEnv, EventCrypto, PgText}.

Definition insert_reserve_effect (db : ProviderDb) (request : HardReservationRequest)
    (outpoints : list OutPoint) : result ProviderStoreError ProviderDb :=
  let public_request := reserve_public_request request outpoints in
  _ ← validate_public_json public_request;
  created_at ← database_u64 (hr_created_at request) "reserve effect time";
  '(rows, db) ← insert_effect db (hr_effect_id request) (hr_session_id request) "reserve"
                  (hr_request_sha256 request) public_request created_at;
  if negb (rows =? 1) then
    row ← query_one (db_effects db !! hr_effect_id request);
    let candidate := mkEffectRequest (hr_effect_id request) (hr_session_id request) "reserve"
                       (hr_request_sha256 request) public_request (hr_created_at request) in
    if negb (effect_request_matches row candidate) then
      Err (Conflict "reserve effect ID is bound to another request")
    else Ok db
  else Ok db.

Definition reserve_effect_matches (row : EffectRow) (request : HardReservationRequest)
    (outpoints : list OutPoint) (allocation_sequence : Z) : result ProviderStoreError bool :=
  let public_result := reserve_public_result request allocation_sequence in
  bytes ← bounded_json public_result;
  let result_sha256 := digest bytes in
  Ok (String.eqb (ef_session_id row) (hr_session_id request)
      && String.eqb (ef_operation row) "reserve"
      && String.eqb (ef_request_sha256 row) (hr_request_sha256 request)
      && bool_decide (ef_public_request row
           = reserve_public_request_with_sequence request outpoints allocation_sequence)
      && String.eqb (ef_state row) "applied"
      && bool_decide (ef_result_sha256 row = Some result_sha256)
      && bool_decide (ef_public_result row = Some public_result)
      && bool_decide (ef_external_reference row = Some (hr_reservation_id request))).

(** The loop over the named outputs: the first one that cannot be taken
    ([inl], an early return) or the sum of their amounts ([inr]). *)
Fixpoint select_utxos (db : ProviderDb) (asset_id : string) (outpoints : list OutPoint) (selected : Z)
    : result ProviderStoreError (OutPoint + Z) :=
  match outpoints with
  | [] => Ok (inr selected)
  | o :: rest =>
      vout ← database_i32 (op_vout o) "vout exceeds i32";
      match db_utxos db !! (op_txid o, vout) with
      | None => Ok (inl o)
      | Some row =>
          if negb (String.eqb (ux_asset_id row) asset_id)
             || negb (String.eqb (ux_state row) "available")
             || bool_decide (is_Some (ux_reservation_id row))
          then Ok (inl o)
          else
            selected ← ok_or (MigrationDrift "selected UTXO capacity overflow")
                         (checked_add I64_MAX selected (ux_amount row));
            select_utxos db asset_id rest selected
      end
  end.

(** The loop that takes them. *)
Definition take_utxo (reservation_id : string) (now : Z) (db : ProviderDb) (o : OutPoint)
    : result ProviderStoreError ProviderDb :=
  vout ← database_i32 (op_vout o) "vout exceeds i32";
  '(rows, db) ← reserve_utxo db (op_txid o, vout) reservation_id now;
  if negb (rows =? 1) then Err (Conflict "locked UTXO changed before reservation") else Ok db.

(** The Ark unit of the request, when it names one. *)
Definition hold_ark_unit (db : ProviderDb) (request : HardReservationRequest) (now : Z)
    : result ProviderStoreError ProviderDb :=
  match hr_ark_reserve request with
  | None => Ok db
  | Some ark =>
      vout ← database_i32 (op_vout (ar_vtxo ark)) "Ark VTXO vout exceeds i32";
      insert_ark_unit db (hr_reservation_id request)
        (mkArkUnitRow (canonical_id ark) (ar_protocol_family ark)
           (ar_operator_identity_sha256 ark) (op_txid (ar_vtxo ark)) vout (ar_proof_sha256 ark)
           "active" None now now)
  end.

(** The writes of [reserve], once every check has passed. *)
Definition reserve_writes (db : ProviderDb) (request : HardReservationRequest)
    (outpoints : list OutPoint) (amount next_sequence : Z)
    : result ProviderStoreError (ReservationOutcome * ProviderDb) :=
  db ← insert_reserve_effect db request outpoints;
  now ← database_u64 (hr_created_at request) "reservation time";
  db ← update_bucket_reserve db (hr_bucket_id request) amount now;
  expires_at ← database_u64 (hr_expires_at request) "reservation expiry";
  db ← insert_reservation db (hr_reservation_id request)
         (mkReservationRow (hr_effect_id request) (hr_session_id request) (hr_bucket_id request)
            (hr_asset_id request) amount (hr_request_sha256 request) next_sequence expires_at
            "active" None now now);
  db ← hold_ark_unit db request now;
  db ← try_fold (take_utxo (hr_reservation_id request) now) db outpoints;
  allocation_sequence ← u64_column next_sequence "reservation allocation sequence became negative";
  let public_result := reserve_public_result request allocation_sequence in
  _ ← validate_public_json public_result;
  bytes ← bounded_json public_result;
  '(rows, db) ← update_complete_effect db (hr_effect_id request) (digest bytes) public_result
                  (hr_reservation_id request) now;
  _ ← require_updated rows (hr_effect_id request);
  Ok (Reserved (mkReservationRecord (hr_reservation_id request) (hr_effect_id request)
        (hr_session_id request) (hr_bucket_id request) (hr_asset_id request) (hr_amount request)
        (hr_request_sha256 request) (hr_expected_allocation_sequence request)
        (hr_expires_at request) "active" None), db).

(** The replay of a reservation id already bound. *)
Definition replay_exact (db : ProviderDb) (request : HardReservationRequest)
    (outpoints : list OutPoint) (existing : ReservationRecord) : result ProviderStoreError bool :=
  if reservation_matches existing request then
    ark ← ark_reserve_matches db request;
    if (ark : bool) then
      match db_effects db !! hr_effect_id request with
      | Some row => reserve_effect_matches row request outpoints (rr_allocation_sequence existing)
      | None => Ok false
      end
    else Ok false
  else Ok false.

Definition reserve_replay (db : ProviderDb) (request : HardReservationRequest)
    (outpoints : list OutPoint) (existing : ReservationRecord)
    : result ProviderStoreError (ReservationOutcome * ProviderDb) :=
  exact ← replay_exact db request outpoints existing;
  if (exact : bool) then Ok (ReservationReplay existing, db)
  else Err (Conflict "reservation ID is bound to another request").

Definition reserve (db : ProviderDb) (request : HardReservationRequest)
    : result ProviderStoreError (ReservationOutcome * ProviderDb) :=
  _ ← validate_reservation_request request;
  let outpoints := sort_outpoints (hr_utxos request) in
  existing ← select_reservation db (hr_reservation_id request);
  match existing with
  | Some existing => reserve_replay db request outpoints existing
  | None =>
  let blocked :=
    match hr_ark_reserve request with
    | Some ark => if ark_unit_blocked db (canonical_id ark) then Some (canonical_id ark) else None
    | None => None
    end in
  match blocked with
  | Some unit => Ok (ArkReserveUnitUnavailable unit, db)
  | None =>
  bucket ← ok_or (NotFound (hr_bucket_id request)) (db_buckets db !! hr_bucket_id request);
  if negb (String.eqb (bk_asset_id bucket) (hr_asset_id request)) then
    Err (Conflict "reservation asset differs from capacity bucket")
  else
  next_sequence ← ok_or (Conflict "allocation sequence overflow")
                    (checked_add I64_MAX (bk_allocation_sequence bucket) 1);
  expected ← database_u64 (hr_expected_allocation_sequence request) "expected allocation sequence";
  if negb (expected =? next_sequence) then
    Ok (AllocationSequenceMismatch (Z.max 0 (bk_allocation_sequence bucket)), db)
  else
  amount ← database_u64 (hr_amount request) "reservation amount";
  if match checked_add I64_MAX (bk_allocated_capacity bucket) amount with
     | None => true | Some value => bk_total_capacity bucket <? value end
  then Ok (InsufficientCapacity, db)
  else
  selected ← select_utxos db (hr_asset_id request) outpoints 0;
  match selected with
  | inl o => Ok (UtxoUnavailable o, db)
  | inr selected_utxo_capacity =>
  if negb (bool_decide (outpoints = [])) && (selected_utxo_capacity <? amount) then
    Ok (InsufficientCapacity, db)
  else reserve_writes db request outpoints amount next_sequence
  end end end.

Definition release_reservation (db : ProviderDb) (reservation_id cause : string) (now : Z)
    : result ProviderStoreError (StoreWriteOutcome * ProviderDb) :=
  _ ← validate_hex reservation_id "reservation ID";
  _ ← validate_identifier cause "release cause";
  now ← database_u64 now "release time";
  found ← select_reservation db reservation_id;
  existing ← ok_or (NotFound reservation_id) found;
  if String.eqb (rr_state existing) "released" then
    outcome ← replay_or_conflict (bool_decide (rr_release_cause existing = Some cause))
                "reservation release";
    Ok (outcome, db)
  else if negb (String.eqb (rr_state existing) "active") then
    Err (Conflict "unresolved reservation cannot be silently released")
  else
  amount ← database_u64 (rr_amount existing) "reservation amount";
  '(_, db) ← update_reservation_state db reservation_id "released" cause now;
  '(rows, db) ← update_bucket_release db (rr_bucket_id existing) amount now;
  if negb (rows =? 1) then Err (Conflict "capacity allocation underflow during release")
  else
  let db := release_utxos db reservation_id now in
  db ← transition_ark_reserve_unit db reservation_id "released" cause now;
  Ok (Stored, db).

Definition mark_reservation_unresolved (db : ProviderDb) (reservation_id detail_code : string)
    (public_context : Value) (now : Z)
    : result ProviderStoreError (StoreWriteOutcome * ProviderDb) :=
  _ ← validate_hex reservation_id "reservation ID";
  _ ← validate_identifier detail_code "reservation unresolved code";
  _ ← validate_public_artifact public_context;
  now ← database_u64 now "reservation unresolved time";
  found ← select_reservation db reservation_id;
  existing ← ok_or (NotFound reservation_id) found;
  if String.eqb (rr_state existing) "unresolved" then
    alert ← ok_or (MigrationDrift "unresolved reservation has no durable alert")
              (db_alerts db !! alert_id_of "provider-reservation-unresolved" reservation_id);
    outcome ← replay_or_conflict
                (bool_decide (rr_release_cause existing = Some detail_code)
                 && String.eqb (al_detail_code alert) detail_code
                 && bool_decide (al_public_context alert = public_context))
                "reservation unresolved state";
    Ok (outcome, db)
  else if negb (String.eqb (rr_state existing) "active") then
    Err (Conflict "released reservation cannot become unresolved")
  else
  '(rows, db) ← update_reservation_state db reservation_id "unresolved" detail_code now;
  _ ← require_updated rows reservation_id;
  db ← transition_ark_reserve_unit db reservation_id "unresolved" detail_code now;
  db ← insert_alert db (alert_id_of "provider-reservation-unresolved" reservation_id)
         (Some (rr_session_id existing)) "reservation" detail_code public_context now;
  Ok (Stored, db).

End reserve.
