(* ===== verification/MapSum.v ===== *)
(** * MapSum: integer sums over finite maps

    [SELECT sum(..)] over a table: the sum of a function of the rows, and how
    it moves when one row is inserted, changed or removed. *)

From S2P Require Import Prelude.

Section msum.
Context {K : Type} `{Countable K} {V : Type}.
Implicit Types (f g : K -> V -> Z) (m : gmap K V).

Definition msum f m : Z := map_fold (fun k v acc => f k v + acc) 0 m.

Lemma msum_empty f : msum f ∅ = 0.
Proof. apply map_fold_empty. Qed.

Lemma msum_insert_new f m k v : m !! k = None -> msum f (<[k := v]> m) = f k v + msum f m.
Proof. intros Hk. unfold msum. rewrite map_fold_insert_L; [done| |done]. intros; lia. Qed.

Lemma msum_delete f m k v : m !! k = Some v -> msum f m = f k v + msum f (delete k m).
Proof. intros Hk. rewrite <- (msum_insert_new f), insert_delete_id; [done|done|apply lookup_delete_eq]. Qed.

Lemma msum_insert f m k v w : m !! k = Some w -> msum f (<[k := v]> m) = f k v - f k w + msum f m.
Proof.
  intros Hk. rewrite (msum_delete f m k w Hk), <- insert_delete_eq, msum_insert_new; [lia|].
  apply lookup_delete_eq.
Qed.

(** The row keeps its contribution. *)
Lemma msum_insert_same f m k v w :
  m !! k = Some w -> f k v = f k w -> msum f (<[k := v]> m) = msum f m.
Proof. intros Hk Hf. rewrite (msum_insert f m k v w Hk). lia. Qed.

Lemma msum_insert_zero f m k v :
  m !! k = None -> f k v = 0 -> msum f (<[k := v]> m) = msum f m.
Proof. intros Hk Hf. rewrite msum_insert_new by done. lia. Qed.

Lemma msum_ext f g m :
  (forall k v, m !! k = Some v -> f k v = g k v) -> msum f m = msum g m.
Proof.
  induction m as [|k v m Hk IH] using map_ind; intros Hfg; [done|].
  rewrite !msum_insert_new by done. rewrite IH, (Hfg k v); [done|by simplify_map_eq|].
  intros k' v' Hk'. apply Hfg. by rewrite lookup_insert_ne by congruence.
Qed.

Lemma msum_nonneg f m : (forall k v, m !! k = Some v -> 0 <= f k v) -> 0 <= msum f m.
Proof.
  induction m as [|k v m Hk IH] using map_ind; intros Hf; [by rewrite msum_empty|].
  rewrite msum_insert_new by done. pose proof (Hf k v ltac:(by simplify_map_eq)).
  assert (0 <= msum f m); [|lia]. apply IH. intros k' v' Hk'. apply (Hf k').
  by rewrite lookup_insert_ne by congruence.
Qed.

Lemma msum_zero f m : (forall k v, m !! k = Some v -> f k v = 0) -> msum f m = 0.
Proof.
  induction m as [|k v m Hk IH] using map_ind; intros Hf; [apply msum_empty|].
  rewrite msum_insert_new, (Hf k v) by (done || by simplify_map_eq). rewrite IH; [done|].
  intros k' v' Hk'. apply (Hf k'). by rewrite lookup_insert_ne by congruence.
Qed.

(** A row contributes at most the sum. *)
Lemma msum_member f m k v :
  (forall k v, m !! k = Some v -> 0 <= f k v) -> m !! k = Some v -> f k v <= msum f m.
Proof.
  intros Hf Hk. rewrite (msum_delete f m k v Hk).
  assert (0 <= msum f (delete k m)); [|lia]. apply msum_nonneg.
  intros k' v' [_ Hk']%lookup_delete_Some. by apply (Hf k').
Qed.
End msum.
