(* ===== verification/LedgerInv.v ===== *)
(** * LedgerInv: what the provider's tables satisfy

    The invariant of the ledger ([ledger_inv]) and its preservation by every
    operation of [Ledger] and [Reserve]: a bucket's allocation is the sum of
    the reservations that hold it, its sequence counts them, a reserved
    output and an Ark unit belong to one live reservation, and a reservation's
    effect is applied.  At the end, what the query for available outputs
    answers. *)

From S2P Require Import Prelude Text Utf8 Regroup Hex Event Filter Expanded Json Custody ProviderDb Ledger Reserve MapSum.

(** ** The invariant *)

Definition live (r : ReservationRow) : bool := negb (String.eqb (rv_state r) "released").

(** The amount of bucket [b] that reservations hold, and the number of
    reservations ever made on it. *)
Definition held_by (b : string) (_ : string) (r : ReservationRow) : Z :=
  if String.eqb (rv_bucket_id r) b && live r then rv_amount r else 0.
Definition made_on (b : string) (_ : string) (r : ReservationRow) : Z :=
  if String.eqb (rv_bucket_id r) b then 1 else 0.
Definition held (rs : gmap string ReservationRow) (b : string) : Z := msum (held_by b) rs.
Definition made (rs : gmap string ReservationRow) (b : string) : Z := msum (made_on b) rs.

Record bucket_ok (rs : gmap string ReservationRow) (b : string) (row : BucketRow) : Prop := mkBucketOk {
  bo_allocated : bk_allocated_capacity row = held rs b;
  bo_sequence : bk_allocation_sequence row = made rs b;
  bo_bound : bk_allocated_capacity row <= bk_total_capacity row <= I64_MAX;
}.

Record reservation_ok (buckets : gmap string BucketRow) (r : ReservationRow) : Prop := mkReservationOk {
  ro_bucket : exists row, buckets !! rv_bucket_id r = Some row /\ bk_asset_id row = rv_asset_id r
                /\ rv_allocation_sequence r <= bk_allocation_sequence row;
  ro_amount : 0 < rv_amount r <= I64_MAX;
  ro_sequence : 0 < rv_allocation_sequence r;
  ro_expires : 0 <= rv_expires_at r;
  ro_state : rv_state r ∈ ["active"; "released"; "unresolved"]%string;
  ro_cause : rv_state r = "active"%string <-> rv_release_cause r = None;
}.

Record ledger_inv (db : ProviderDb) : Prop := mkLedgerInv {
  inv_bucket b row : db_buckets db !! b = Some row -> bucket_ok (db_reservations db) b row;
  inv_reservation id r : db_reservations db !! id = Some r -> reservation_ok (db_buckets db) r;
  inv_sequence id1 id2 r1 r2 :
    db_reservations db !! id1 = Some r1 -> db_reservations db !! id2 = Some r2 ->
    rv_bucket_id r1 = rv_bucket_id r2 -> rv_allocation_sequence r1 = rv_allocation_sequence r2 ->
    id1 = id2;
  inv_utxo k u :
    db_utxos db !! k = Some u -> ux_state u = "reserved"%string ->
    exists id r, ux_reservation_id u = Some id /\ db_reservations db !! id = Some r
      /\ live r = true /\ ux_asset_id u = rv_asset_id r;
  inv_ark id u :
    db_ark_units db !! id = Some u ->
    exists r, db_reservations db !! id = Some r /\ ak_state u = rv_state r
      /\ ak_release_cause u = rv_release_cause r;
  inv_ark_unique id1 id2 u1 u2 :
    db_ark_units db !! id1 = Some u1 -> db_ark_units db !! id2 = Some u2 ->
    ark_blocking u1 = true -> ark_blocking u2 = true -> ak_reserve_unit u1 = ak_reserve_unit u2 ->
    id1 = id2;
  inv_effect id r :
    db_reservations db !! id = Some r ->
    exists e, db_effects db !! rv_effect_id r = Some e /\ ef_state e = "applied"%string
      /\ ef_external_reference e = Some id;
}.

Lemma ledger_inv_empty : ledger_inv empty_db.
Proof. by constructor. Qed.

(** ** Statements, inverted *)

(** Decompose a successful run whose steps return pairs. *)
Ltac tx_inv :=
  repeat (run_inv; match goal with
  | H : (let '(_, _) := ?p in _) = Ok _ |- _ => destruct p
  end); run_inv; unit_results; try subst.

Lemma check_row_Ok l : check_row l = Ok tt <-> Forall (fun c => c.2 = true) l.
Proof.
  unfold check_row. induction l as [|[n b] l IH]; cbn; [by split|].
  rewrite Forall_cons. destruct b; cbn; [naive_solver|]. split; [done|]. by intros [].
Qed.

Lemma check_row_elem l name b : check_row l = Ok tt -> constraint name b ∈ l -> b = true.
Proof. rewrite check_row_Ok, Forall_forall. intros Hl Hb. exact (Hl _ Hb). Qed.

Ltac check_elem := repeat (apply list_elem_of_here || apply list_elem_of_further).

Lemma database_u64_Ok v label x : database_u64 v label = Ok x <-> x = v /\ v <= I64_MAX.
Proof. unfold database_u64. rewrite ok_or_Ok. apply try_from_u_Some. Qed.

Lemma database_i32_Ok v label x : database_i32 v label = Ok x <-> x = v /\ v <= I32_MAX.
Proof. unfold database_i32. rewrite ok_or_Ok. apply try_from_u_Some. Qed.

Lemma u64_column_Ok v label x : u64_column v label = Ok x <-> x = v /\ 0 <= v.
Proof. unfold u64_column. destruct (Z.leb_spec 0 v); naive_solver lia. Qed.

(** Resolve the conversions of a successful run. *)
Ltac conversions :=
  repeat match goal with
  | Hc : database_u64 _ _ = Ok _ |- _ => apply database_u64_Ok in Hc as [-> ?]
  | Hc : database_i32 _ _ = Ok _ |- _ => apply database_i32_Ok in Hc as [-> ?]
  | Hc : u64_column _ _ = Ok _ |- _ => apply u64_column_Ok in Hc as [-> ?]
  end.

(** [db'] differs from [db] at most in effects, alerts, exit packages,
    dispositions and watch jobs, and an applied effect keeps its row. *)
Record ledger_frame (db db' : ProviderDb) : Prop := mkLedgerFrame {
  fr_buckets : db_buckets db' = db_buckets db;
  fr_reservations : db_reservations db' = db_reservations db;
  fr_utxos : db_utxos db' = db_utxos db;
  fr_ark_units : db_ark_units db' = db_ark_units db;
  fr_effects id e :
    db_effects db !! id = Some e -> ef_state e = "applied"%string -> db_effects db' !! id = Some e;
}.

Lemma ledger_frame_refl db : ledger_frame db db.
Proof. by constructor. Qed.

Lemma ledger_frame_trans db1 db2 db3 :
  ledger_frame db1 db2 -> ledger_frame db2 db3 -> ledger_frame db1 db3.
Proof. intros [] []. constructor; try congruence. eauto. Qed.

Lemma inv_frame db db' : ledger_inv db -> ledger_frame db db' -> ledger_inv db'.
Proof.
  intros [Hb Hr Hs Hu Ha Hq He] [Eb Er Eu Ea Ee]. constructor; rewrite ?Eb, ?Er, ?Eu, ?Ea; eauto.
  intros id r Hid. destruct (He id r Hid) as (e & ? & ? & ?). eauto.
Qed.

Section statements.
Context `{ProviderEnv, EventCrypto, PgText}.

Lemma insert_effect_inv db id session operation sha request created n db' :
  insert_effect db id session operation sha request created = Ok (n, db') ->
  (n = 0 /\ db' = db /\ is_Some (db_effects db !! id))
  \/ (n = 1 /\ db_effects db !! id = None /\ exists e,
        db' = set_effects <[id := e]> db /\ ef_session_id e = session /\ ef_operation e = operation
        /\ ef_request_sha256 e = sha /\ jsonb request = Some (ef_public_request e)
        /\ ef_state e = "pending"%string
        /\ ef_result_sha256 e = None /\ ef_external_reference e = None).
Proof.
  unfold insert_effect, store_json. intros Hi. tx_inv.
  destruct (db_effects db !! id) eqn:Hid; tx_inv; [left; eauto|right].
  split; [done|]. split; [done|]. by eexists.
Qed.

Lemma update_complete_effect_inv db id sha result reference now n db' :
  update_complete_effect db id sha result reference now = Ok (n, db') ->
  (n = 0 /\ db' = db /\ db_effects db !! id = None)
  \/ (n = 1 /\ exists e e', db_effects db !! id = Some e /\ db' = set_effects <[id := e']> db
        /\ ef_session_id e' = ef_session_id e /\ ef_operation e' = ef_operation e
        /\ ef_request_sha256 e' = ef_request_sha256 e /\ ef_public_request e' = ef_public_request e
        /\ ef_state e' = "applied"%string /\ ef_result_sha256 e' = Some sha
        /\ ef_public_result e' = jsonb result
        /\ ef_external_reference e' = Some reference).
Proof.
  unfold update_complete_effect, store_json. intros Hi. tx_inv.
  destruct (db_effects db !! id) as [e|] eqn:Hid; tx_inv; [right|left; eauto].
  split; [done|]. exists e. eexists. repeat split.
  cbn. by match goal with Hj : jsonb _ = Some _ |- _ => rewrite Hj end.
Qed.

Lemma effect_not_applied_frame db id e :
  (forall e0, db_effects db !! id = Some e0 -> ef_state e0 <> "applied"%string) ->
  ledger_frame db (set_effects <[id := e]> db).
Proof.
  intros Hid. constructor; try done. intros id' e' He' Happ. cbn.
  destruct (decide (id' = id)) as [->|Hne]; [by destruct (Hid _ He')|]. by rewrite lookup_insert_ne.
Qed.

Lemma insert_alert_frame db id session class detail context now db' :
  insert_alert db id session class detail context now = Ok db' -> ledger_frame db db'.
Proof.
  unfold insert_alert. intros Hi. tx_inv. destruct (db_alerts db !! id); tx_inv; by constructor.
Qed.

Lemma persist_effect_request_frame db request outcome db' :
  persist_effect_request db request = Ok (outcome, db') -> ledger_frame db db'.
Proof.
  unfold persist_effect_request. intros Hp. tx_inv.
  match goal with Hi : insert_effect _ _ _ _ _ _ _ = _ |- _ =>
    apply insert_effect_inv in Hi as [(-> & -> & _)|(-> & Hnone & e & -> & _)] end; cbn in Hp; tx_inv.
  - apply ledger_frame_refl.
  - apply effect_not_applied_frame. intros e0. by rewrite Hnone.
Qed.

Lemma complete_effect_frame db result outcome db' :
  complete_effect db result = Ok (outcome, db') -> ledger_frame db db'.
Proof.
  unfold complete_effect. intros Hc. tx_inv.
  destruct (bool_decide (ef_state _ = "applied"%string)) eqn:Happ; tx_inv; [apply ledger_frame_refl|].
  match goal with Hu : update_complete_effect _ _ _ _ _ _ = _ |- _ =>
    apply update_complete_effect_inv in Hu as [(_ & -> & _)|(_ & e & e' & He & -> & _)] end;
    [apply ledger_frame_refl|].
  apply effect_not_applied_frame. bool_to_prop. intros e0 He0. congruence.
Qed.

Lemma mark_effect_unresolved_frame db id detail now outcome db' :
  mark_effect_unresolved db id detail now = Ok (outcome, db') -> ledger_frame db db'.
Proof.
  unfold mark_effect_unresolved. intros Hm. tx_inv.
  destruct (bool_decide (ef_state _ = "unresolved"%string)); tx_inv; [apply ledger_frame_refl|].
  match goal with Ha : insert_alert _ _ _ _ _ _ _ = _ |- _ => apply insert_alert_frame in Ha end.
  eapply ledger_frame_trans; [|eassumption].
  match goal with Hu : update_effect_unresolved _ _ _ = _ |- _ =>
    unfold update_effect_unresolved in Hu; destruct (db_effects db !! id) eqn:Hid; [|by tx_inv; apply ledger_frame_refl];
    destruct (bool_decide _) eqn:Hpend in Hu; tx_inv; [|apply ledger_frame_refl] end.
  apply effect_not_applied_frame. bool_to_prop. intros e0 He0. congruence.
Qed.

(** ** Buckets and outputs *)

Lemma held_none db b : ledger_inv db -> db_buckets db !! b = None ->
  held (db_reservations db) b = 0 /\ made (db_reservations db) b = 0.
Proof.
  intros Hinv Hb. assert (forall id r, db_reservations db !! id = Some r -> String.eqb (rv_bucket_id r) b = false) as Hn.
  { intros id r Hr. apply String.eqb_neq. intros <-.
    destruct (ro_bucket _ _ (inv_reservation _ Hinv id r Hr)) as (row & Hrow & _). congruence. }
  split; apply msum_zero; intros id r Hr; unfold held_by, made_on; by rewrite (Hn id r Hr).
Qed.

(** A bucket's row may change as long as its asset, allocation and sequence
    do not. *)
Lemma inv_set_bucket db b row :
  ledger_inv db -> bucket_ok (db_reservations db) b row ->
  (forall old, db_buckets db !! b = Some old ->
     bk_asset_id row = bk_asset_id old /\ bk_allocation_sequence old <= bk_allocation_sequence row) ->
  ledger_inv (set_buckets <[b := row]> db).
Proof.
  intros [Hb Hr Hs Hu Ha Hq He] Hrow Hold. constructor; cbn; eauto.
  - intros b' row' Hb'. destruct (decide (b' = b)) as [->|Hne]; simplify_map_eq; eauto.
  - intros id r Hid. destruct (Hr id r Hid) as [(brow & Hbr & Has & Hsq) Ham Hseq Hex Hst].
    constructor; try done. destruct (decide (rv_bucket_id r = b)) as [Heq|Hne].
    + rewrite Heq in *. destruct (Hold _ Hbr) as [Hass Hle]. exists row. simplify_map_eq. split; [done|].
      split; [congruence|lia].
    + exists brow. by rewrite lookup_insert_ne by done.
Qed.

Lemma configure_capacity_bucket_inv db b asset total now u db' :
  ledger_inv db -> configure_capacity_bucket db b asset total now = Ok (u, db') -> ledger_inv db'.
Proof.
  intros Hinv. unfold configure_capacity_bucket, database_u64. intros Hc. tx_inv.
  repeat match goal with Ht : try_from_u _ _ = Some _ |- _ => apply try_from_u_Some in Ht as [-> ?] end.
  unfold upsert_bucket in *. run_inv. destruct (db_buckets db !! b) as [row|] eqn:Hb; tx_inv.
  - destruct (_ && _) eqn:Hg in *; tx_inv; [|done]. bool_to_prop. subst.
    destruct (inv_bucket _ Hinv b row Hb) as [Hal Hsq Hbd].
    apply inv_set_bucket; [done|by constructor|]. intros old Hold. simplify_eq. cbn. split; [done|lia].
  - destruct (held_none db b Hinv Hb) as [Hh Hm].
    match goal with Hk : check_row _ = Ok tt |- _ =>
      eapply (check_row_elem _ "provider_capacity_bucket_amount") in Hk; [|check_elem] end.
    cbn in *. bool_to_prop. apply inv_set_bucket; [done|constructor; cbn; lia|congruence].
Qed.

Lemma observed_not_reserved o : validate_utxo o = Ok tt -> uo_state o <> "reserved"%string.
Proof.
  unfold validate_utxo. intros Hv Heq. tx_inv. bool_to_prop. unfold mem, UTXO_STATES in *. bool_to_prop.
  rewrite Heq, !elem_of_cons, elem_of_nil in *. naive_solver.
Qed.

(** An observation writes one row, keeps its reservation and asset, and never
    makes it reserved. *)
Lemma observe_utxo_spec db o u db' :
  observe_utxo db o = Ok (u, db') ->
  exists new, db' = set_utxos <[(op_txid (uo_outpoint o), op_vout (uo_outpoint o)) := new]> db
  /\ (forall old, db_utxos db !! (op_txid (uo_outpoint o), op_vout (uo_outpoint o)) = Some old ->
        ux_reservation_id new = ux_reservation_id old /\ ux_asset_id new = ux_asset_id old
        /\ (ux_state new = "reserved"%string -> ux_state old = "reserved"%string))
  /\ (db_utxos db !! (op_txid (uo_outpoint o), op_vout (uo_outpoint o)) = None ->
        ux_state new <> "reserved"%string).
Proof.
  unfold observe_utxo, database_i32, upsert_utxo. intros Ho. tx_inv.
  repeat match goal with Hv : try_from_u _ _ = Some _ |- _ => apply try_from_u_Some in Hv as [-> _] end.
  match goal with Hv : validate_utxo _ = _ |- _ => apply observed_not_reserved in Hv as Hne end.
  match goal with Hx : match ?t with Some _ => _ | None => _ end = _ |- _ => destruct t as [row|] eqn:Hrow end; tx_inv.
  - destruct (_ && _) eqn:Hg in *; tx_inv; [|done]. bool_to_prop. eexists. split; [done|].
    split; [|congruence]. intros old Hold. simplify_eq. cbn. split; [done|]. split; [done|].
    destruct (bool_decide (ux_state old = "reserved"%string)) eqn:Hs; bool_to_prop; [done|]. by cbn.
  - eexists. split; [done|]. by split.
Qed.

Lemma observe_utxo_inv db o u db' :
  ledger_inv db -> observe_utxo db o = Ok (u, db') -> ledger_inv db'.
Proof.
  intros [Hb Hr Hs Hu Ha Hq He] (new & -> & Hsome & Hnone)%observe_utxo_spec.
  constructor; cbn; eauto. intros k v [[<- <-]|[_ Hk]]%lookup_insert_Some Hres; [|by eauto].
  destruct (db_utxos db !! _) as [old|] eqn:Hold in Hsome, Hnone; [|by destruct (Hnone eq_refl)].
  destruct (Hsome old eq_refl) as (-> & -> & Hst). eauto.
Qed.

(** ** Taking outputs *)

Definition take_row (reservation_id : string) (now : Z) (r : UtxoRow) : UtxoRow :=
  mkUtxoRow (ux_asset_id r) (ux_amount r) (ux_script_pubkey r) "reserved" (Some reservation_id)
    (ux_confirmations r) (ux_block_hash r) (ux_replacement_txid r) (Z.max (ux_observed_at r) now).

Definition free_output (u : UtxoRow) : Prop :=
  ux_state u = "available"%string /\ ux_reservation_id u = None.

Lemma take_utxo_inv rid now db o db' :
  take_utxo rid now db o = Ok db' ->
  exists u, db_utxos db !! outpoint_key o = Some u /\ free_output u
    /\ db' = set_utxos <[outpoint_key o := take_row rid now u]> db.
Proof.
  unfold take_utxo, database_i32, reserve_utxo. intros Ht. tx_inv.
  match goal with Hv : try_from_u _ _ = Some _ |- _ => apply try_from_u_Some in Hv as [-> ?] end.
  change (op_txid o, op_vout o) with (outpoint_key o) in *.
  destruct (db_utxos db !! outpoint_key o) as [u|] eqn:Hu; tx_inv; [|done].
  destruct (_ && _) eqn:Hg in *; tx_inv; [|done]. bool_to_prop. by exists u.
Qed.

Record utxos_taken (rid : string) (now : Z) (keys : list (string * Z))
    (m m' : gmap (string * Z) UtxoRow) : Prop := mkUtxosTaken {
  ut_free k : k ∈ keys -> exists u, m !! k = Some u /\ free_output u /\ m' !! k = Some (take_row rid now u);
  ut_other k : k ∉ keys -> m' !! k = m !! k;
  ut_distinct : NoDup keys;
}.

Lemma take_utxos_inv rid now ops db db' :
  try_fold (take_utxo rid now) db ops = Ok db' ->
  db' = set_utxos (fun _ => db_utxos db') db
  /\ utxos_taken rid now (outpoint_key <$> ops) (db_utxos db) (db_utxos db').
Proof.
  revert db. induction ops as [|o ops IH]; intros db Hf; cbn in Hf.
  { tx_inv. split; [by destruct db'|]. constructor; [by intros k ?%elem_of_nil|done|constructor]. }
  apply bind_Ok in Hf as (db1 & Ht & Hf). apply take_utxo_inv in Ht as (u & Hu & Hfree & ->).
  destruct (IH _ Hf) as [Hdb [Hin Hout Hnd]]. cbn in *.
  assert (outpoint_key o ∉ outpoint_key <$> ops) as Hno.
  { intros (v & Hv & [Hs _] & _)%Hin. by simplify_map_eq. }
  split; [by rewrite Hdb|]. constructor.
  - intros k [->|Hk]%elem_of_cons.
    + exists u. rewrite Hout by done. by simplify_map_eq.
    + destruct (Hin k Hk) as (v & Hv & Hfv & Hv'). exists v.
      rewrite lookup_insert_ne in Hv; [done|]. intros <-. done.
  - intros k [Hne Hk]%not_elem_of_cons. rewrite Hout by done. by rewrite lookup_insert_ne.
  - by constructor.
Qed.

Lemma select_utxos_inv db asset ops acc total :
  select_utxos db asset ops acc = Ok (inr total) ->
  exists us, Forall2 (fun o u => db_utxos db !! outpoint_key o = Some u /\ free_output u
                        /\ ux_asset_id u = asset) ops us
    /\ total = acc + foldr Z.add 0 (ux_amount <$> us).
Proof.
  revert acc. induction ops as [|o ops IH]; intros acc Hs; cbn in Hs.
  { tx_inv. exists []. split; [constructor|cbn; lia]. }
  unfold database_i32 in Hs. tx_inv.
  match goal with Hv : try_from_u _ _ = Some _ |- _ => apply try_from_u_Some in Hv as [-> ?] end.
  destruct (db_utxos db !! _) as [u|] eqn:Hu in Hs; tx_inv; [|done].
  destruct (_ || _) eqn:Hg in Hs; tx_inv; [done|].
  match goal with Hv : checked_add _ _ _ = Some _ |- _ => apply checked_add_Some in Hv as [-> ?] end.
  destruct (IH _ Hs) as (us & Hus & ->). exists (u :: us). bool_to_prop.
  repeat match goal with Hv : String.eqb _ _ = true |- _ => apply String.eqb_eq in Hv end.
  split; [|cbn; lia]. constructor; [|done]. split; [done|]. split; [split; [done|]|done].
  by destruct (ux_reservation_id u); [exfalso; eauto|].
Qed.

(** ** The writes of a reservation *)

Definition bucket_after (amount now : Z) (r : BucketRow) : BucketRow :=
  mkBucketRow (bk_asset_id r) (bk_total_capacity r) (bk_allocated_capacity r + amount)
    (bk_allocation_sequence r + 1) (Z.max (bk_updated_at r) now).

Definition record_of (request : HardReservationRequest) : ReservationRecord :=
  mkReservationRecord (hr_reservation_id request) (hr_effect_id request) (hr_session_id request)
    (hr_bucket_id request) (hr_asset_id request) (hr_amount request) (hr_request_sha256 request)
    (hr_expected_allocation_sequence request) (hr_expires_at request) "active" None.

Definition row_of (request : HardReservationRequest) (sequence : Z) : ReservationRow :=
  mkReservationRow (hr_effect_id request) (hr_session_id request) (hr_bucket_id request)
    (hr_asset_id request) (hr_amount request) (hr_request_sha256 request) sequence
    (hr_expires_at request) "active" None (hr_created_at request) (hr_created_at request).

Definition ark_row_of (ark : ArkReserveUnit) (now : Z) : ArkUnitRow :=
  mkArkUnitRow (canonical_id ark) (ar_protocol_family ark) (ar_operator_identity_sha256 ark)
    (op_txid (ar_vtxo ark)) (op_vout (ar_vtxo ark)) (ar_proof_sha256 ark) "active" None now now.

(** The row of the effect: written here, or found with the same request. *)
Record effect_applied (request : HardReservationRequest) (ops : list OutPoint) (sequence : Z)
    (e : EffectRow) : Prop := mkEffectApplied {
  ea_session : ef_session_id e = hr_session_id request;
  ea_operation : ef_operation e = "reserve"%string;
  ea_sha : ef_request_sha256 e = hr_request_sha256 request;
  ea_request : jsonb (reserve_public_request request ops) = Some (ef_public_request e)
               \/ ef_public_request e = reserve_public_request request ops;
  ea_state : ef_state e = "applied"%string;
  ea_result_sha : exists bytes, bounded_json (reserve_public_result request sequence) = Ok bytes
                    /\ ef_result_sha256 e = Some (digest bytes);
  ea_result : ef_public_result e = jsonb (reserve_public_result request sequence);
  ea_reference : ef_external_reference e = Some (hr_reservation_id request);
}.

Record reserve_written (request : HardReservationRequest) (ops : list OutPoint) (sequence : Z)
    (bucket : BucketRow) (db db' : ProviderDb) : Prop := mkReserveWritten {
  rw_buckets : db_buckets db' =
    <[hr_bucket_id request := bucket_after (hr_amount request) (hr_created_at request) bucket]> (db_buckets db);
  rw_new : db_reservations db !! hr_reservation_id request = None;
  rw_effect_unique id r : db_reservations db !! id = Some r -> rv_effect_id r <> hr_effect_id request;
  rw_session_unique id r : db_reservations db !! id = Some r -> rv_session_id r <> hr_session_id request;
  rw_reservations : db_reservations db' =
    <[hr_reservation_id request := row_of request sequence]> (db_reservations db);
  rw_row : check_row (reservation_checks (hr_reservation_id request) (row_of request sequence)) = Ok tt;
  rw_ark : match hr_ark_reserve request with
           | None => db_ark_units db' = db_ark_units db
           | Some ark =>
               ark_unit_blocked db (canonical_id ark) = false
               /\ db_ark_units db' =
                    <[hr_reservation_id request := ark_row_of ark (hr_created_at request)]> (db_ark_units db)
           end;
  rw_utxos : utxos_taken (hr_reservation_id request) (hr_created_at request) (outpoint_key <$> ops)
               (db_utxos db) (db_utxos db');
  rw_effects : exists e, db_effects db' = <[hr_effect_id request := e]> (db_effects db)
                 /\ effect_applied request ops sequence e;
  rw_alerts : db_alerts db' = db_alerts db;
}.

Lemma existsb_none {A} (f : A -> bool) l : existsb f l = false -> forall x, x ∈ l -> f x = false.
Proof.
  intros Hf x Hx. destruct (f x) eqn:Hfx; [|done].
  assert (existsb f l = true); [|congruence]. apply existsb_exists. exists x.
  by rewrite <- list_elem_of_In.
Qed.

Lemma insert_reservation_inv db id row db' :
  insert_reservation db id row = Ok db' ->
  check_row (reservation_checks id row) = Ok tt /\ db_reservations db !! id = None
  /\ (forall i r, db_reservations db !! i = Some r ->
        rv_effect_id r <> rv_effect_id row /\ rv_session_id r <> rv_session_id row)
  /\ db' = set_reservations <[id := row]> db.
Proof.
  unfold insert_reservation. intros Hi. tx_inv. bool_to_prop.
  split; [done|]. split; [by apply eq_None_not_Some|]. split; [|done].
  intros i r Hr. split; intros Heq;
    match goal with Hx : existsb ?f _ = false |- _ =>
      pose proof (existsb_none f _ Hx (i, r) (proj2 (elem_of_map_to_list _ _ _) Hr)) as Hc;
      cbn in Hc; apply String.eqb_neq in Hc; congruence end.
Qed.

Lemma insert_ark_unit_inv db id row db' :
  insert_ark_unit db id row = Ok db' ->
  ark_unit_blocked db (ak_reserve_unit row) = false /\ db' = set_ark_units <[id := row]> db.
Proof. unfold insert_ark_unit. intros Hi. by tx_inv. Qed.

Lemma effect_request_matches_true e request :
  effect_request_matches e request = true ->
  ef_session_id e = er_session_id request /\ ef_operation e = er_operation request
  /\ ef_request_sha256 e = er_request_sha256 request /\ ef_public_request e = er_public_request request.
Proof. unfold effect_request_matches. intros Hm. by bool_to_prop. Qed.

Lemma insert_reserve_effect_inv db request ops db' :
  insert_reserve_effect db request ops = Ok db' ->
  exists e, db_effects db' !! hr_effect_id request = Some e
    /\ db' = set_effects <[hr_effect_id request := e]> db
    /\ ef_session_id e = hr_session_id request /\ ef_operation e = "reserve"%string
    /\ ef_request_sha256 e = hr_request_sha256 request
    /\ (jsonb (reserve_public_request request ops) = Some (ef_public_request e)
        \/ ef_public_request e = reserve_public_request request ops).
Proof.
  unfold insert_reserve_effect. intros Hi. tx_inv.
  match goal with Hx : insert_effect _ _ _ _ _ _ _ = _ |- _ =>
    apply insert_effect_inv in Hx as [(-> & -> & e & He)|(-> & Hnone & e & -> & Hs & Ho & Hd & Hj & _)] end;
    cbn in Hi; tx_inv.
  - unfold query_one in *. run_inv. simplify_eq.
    bool_to_prop.
    match goal with Hm : effect_request_matches _ _ = true |- _ =>
      apply effect_request_matches_true in Hm as (? & ? & ? & ?) end.
    exists e. repeat split; try done; [|by right]. unfold set_effects. rewrite insert_id by done. by destruct db'.
  - exists e. cbn. rewrite lookup_insert_eq. repeat split; try done. by left.
Qed.

Lemma update_bucket_reserve_inv db b amount now row db' :
  db_buckets db !! b = Some row -> update_bucket_reserve db b amount now = Ok db' ->
  db' = set_buckets <[b := bucket_after amount now row]> db.
Proof. unfold update_bucket_reserve. intros ->. intros Hu. by tx_inv. Qed.

Lemma hold_ark_unit_inv db request now db' :
  hold_ark_unit db request now = Ok db' ->
  db' = set_ark_units (fun _ => db_ark_units db') db
  /\ match hr_ark_reserve request with
     | None => db_ark_units db' = db_ark_units db
     | Some ark =>
         ark_unit_blocked db (canonical_id ark) = false
         /\ db_ark_units db' = <[hr_reservation_id request := ark_row_of ark now]> (db_ark_units db)
     end.
Proof.
  unfold hold_ark_unit. destruct (hr_ark_reserve request) as [ark|]; intros Hh; tx_inv.
  - conversions. apply insert_ark_unit_inv in Hh as [Hb ->]. by cbn in *.
  - by destruct db'.
Qed.

Lemma reserve_writes_inv db request ops sequence out db' bucket :
  db_buckets db !! hr_bucket_id request = Some bucket ->
  reserve_writes db request ops (hr_amount request) sequence = Ok (out, db') ->
  out = Reserved (record_of request) /\ reserve_written request ops sequence bucket db db'.
Proof.
  intros Hbucket. unfold reserve_writes. intros Hw. tx_inv. conversions.
  repeat match goal with
  | Hx : insert_reserve_effect _ _ _ = Ok _ |- _ =>
      apply insert_reserve_effect_inv in Hx as (e & _ & -> & Hes & Heo & Hed & Her)
  | Hx : update_bucket_reserve _ _ _ _ = Ok _ |- _ =>
      apply (update_bucket_reserve_inv _ _ _ _ bucket) in Hx; [|done]; subst
  | Hx : insert_reservation _ _ _ = Ok _ |- _ =>
      apply insert_reservation_inv in Hx as (Hrow & Hnew & Huniq & ->)
  | Hx : hold_ark_unit _ _ _ = Ok _ |- _ => apply hold_ark_unit_inv in Hx as [Hdb1 Hark]
  | Hx : try_fold _ _ _ = Ok _ |- _ => apply take_utxos_inv in Hx as [Hdb2 Htaken]
  end.
  match goal with Hx : update_complete_effect _ _ _ _ _ _ = Ok _ |- _ =>
    apply update_complete_effect_inv in Hx as [(-> & _)|(_ & e1 & e2 & He1 & -> & Hs & Ho & Hd & Hr & Hst & Hsha & Hres & Href)] end;
    [done|].
  split; [done|]. rewrite Hdb1 in Hdb2, Htaken. rewrite Hdb2 in He1 |- *. cbn in *. simplify_map_eq.
  constructor; cbn; try done.
  - intros id r Hid. by destruct (Huniq id r Hid).
  - intros id r Hid. by destruct (Huniq id r Hid).
  - exists e2. rewrite insert_insert_eq. split; [done|]. constructor; try congruence; rewrite ?Hr; eauto.
Qed.

(** What a successful reservation found. *)
Record reserve_checked (request : HardReservationRequest) (bucket : BucketRow) (db : ProviderDb)
    : Prop := mkReserveChecked {
  rc_valid : validate_reservation_request request = Ok tt;
  rc_bucket : db_buckets db !! hr_bucket_id request = Some bucket;
  rc_asset : bk_asset_id bucket = hr_asset_id request;
  rc_sequence : hr_expected_allocation_sequence request = bk_allocation_sequence bucket + 1;
  rc_sequence_bound : hr_expected_allocation_sequence request <= I64_MAX;
  rc_fits : bk_allocated_capacity bucket + hr_amount request <= bk_total_capacity bucket;
  rc_amount : hr_amount request <= I64_MAX;
  rc_outputs : exists us,
    Forall2 (fun o u => db_utxos db !! outpoint_key o = Some u /\ free_output u
               /\ ux_asset_id u = hr_asset_id request) (sort_outpoints (hr_utxos request)) us
    /\ (hr_utxos request = [] \/ hr_amount request <= foldr Z.add 0 (ux_amount <$> us));
}.

Lemma sort_outpoints_nil l : sort_outpoints l = [] -> l = [].
Proof.
  intros Hl. pose proof (merge_sort_Permutation outpoint_le l) as Hp.
  unfold sort_outpoints in Hl. rewrite Hl in Hp. by apply Permutation_nil_l in Hp.
Qed.

Lemma reserve_inv db request out db' :
  reserve db request = Ok (out, db') ->
  (db' = db /\ forall r, out <> Reserved r)
  \/ exists bucket, reserve_checked request bucket db
       /\ out = Reserved (record_of request)
       /\ reserve_written request (sort_outpoints (hr_utxos request))
            (bk_allocation_sequence bucket + 1) bucket db db'.
Proof.
  unfold reserve. intros Hr. tx_inv.
  match type of Hr with (match ?x with Some _ => _ | None => _ end) = _ => destruct x as [existing|] end.
  { left. unfold reserve_replay in Hr. tx_inv. split; [done|]. intros r [=]. }
  match type of Hr with context [match ?x with Some _ => Ok (ArkReserveUnitUnavailable _, _) | None => _ end] =>
    destruct x as [blocked|] end; [tx_inv; by left|].
  tx_inv. conversions.
  match goal with Hc : checked_add _ _ _ = Some _ |- _ => apply checked_add_Some in Hc as [-> ?] end.
  destruct (negb (_ =? _)) eqn:Hseq in Hr; [tx_inv; by left|]. tx_inv. conversions.
  match type of Hr with context [match checked_add ?m ?a ?c with Some _ => _ | None => _ end] =>
    destruct (checked_add m a c) as [value|] eqn:Hadd end; [|tx_inv; by left].
  destruct (_ <? value) eqn:Hfit in Hr; [tx_inv; by left|]. tx_inv.
  match type of Hr with (match ?x with inl _ => _ | inr _ => _ end) = _ => destruct x as [o|total] end;
    [tx_inv; by left|].
  destruct (_ && _) eqn:Hsum in Hr; [tx_inv; by left|]. right.
  match goal with Hb : db_buckets db !! _ = Some ?x |- _ => exists x; rename x into bucket; rename Hb into Hbucket end.
  apply checked_add_Some in Hadd as [-> _]. bool_to_prop.
  match goal with Hs : select_utxos _ _ _ _ = _ |- _ => apply select_utxos_inv in Hs as (us & Hus & ->) end.
  match goal with Ha : String.eqb _ _ = true |- _ => apply String.eqb_eq in Ha end.
  split; [|by eapply reserve_writes_inv]. constructor; try done; try lia.
  exists us. split; [done|]. apply andb_false_iff in Hsum as [Hs|Hs]; bool_to_prop; [left|right; lia].
  by apply sort_outpoints_nil.
Qed.

Lemma held_insert rs id r b :
  rs !! id = None -> held (<[id := r]> rs) b = held_by b id r + held rs b.
Proof. apply msum_insert_new. Qed.

Lemma made_insert rs id r b :
  rs !! id = None -> made (<[id := r]> rs) b = made_on b id r + made rs b.
Proof. apply msum_insert_new. Qed.

Lemma ark_blocked_false db unit id u :
  ark_unit_blocked db unit = false -> db_ark_units db !! id = Some u -> ark_blocking u = true ->
  ak_reserve_unit u <> unit.
Proof.
  unfold ark_unit_blocked. intros Hb Hu Hblk Heq.
  pose proof (existsb_none _ _ Hb (id, u) (proj2 (elem_of_map_to_list _ _ _) Hu)) as Hc. cbn in Hc.
  rewrite Heq, String.eqb_refl, Hblk in Hc. done.
Qed.

Section reserve_preserves.
Context (request : HardReservationRequest) (bucket : BucketRow) (db db' : ProviderDb).
Hypothesis Hinv : ledger_inv db.
Hypothesis Hchk : reserve_checked request bucket db.
Hypothesis Hwr : reserve_written request (sort_outpoints (hr_utxos request))
                   (bk_allocation_sequence bucket + 1) bucket db db'.

Lemma reserve_row_bounds :
  0 < hr_amount request /\ 0 < bk_allocation_sequence bucket + 1 /\ 0 <= hr_expires_at request.
Proof.
  pose proof (rw_row _ _ _ _ _ _ Hwr) as Hrow.
  pose proof (check_row_elem _ "provider_reservation_amount" _ Hrow ltac:(check_elem)) as Hc1.
  pose proof (check_row_elem _ "provider_reservation_sequence" _ Hrow ltac:(check_elem)) as Hc2.
  pose proof (check_row_elem _ "provider_reservation_expiry" _ Hrow ltac:(check_elem)) as Hc3.
  pose proof (check_row_elem _ "provider_reservation_time" _ Hrow ltac:(check_elem)) as Hc4.
  cbn in *. bool_to_prop. lia.
Qed.

Lemma reserve_old_row id r :
  db_reservations db !! id = Some r -> db_reservations db' !! id = Some r.
Proof.
  intros Hid. rewrite (rw_reservations _ _ _ _ _ _ Hwr), lookup_insert_ne; [done|].
  intros <-. pose proof (rw_new _ _ _ _ _ _ Hwr). congruence.
Qed.

Lemma reserve_row_cases id r :
  db_reservations db' !! id = Some r ->
  (id = hr_reservation_id request /\ r = row_of request (bk_allocation_sequence bucket + 1))
  \/ db_reservations db !! id = Some r.
Proof.
  rewrite (rw_reservations _ _ _ _ _ _ Hwr). intros [[<- <-]|[_ Hr]]%lookup_insert_Some; auto.
Qed.

Lemma reserve_inv_bucket b row :
  db_buckets db' !! b = Some row -> bucket_ok (db_reservations db') b row.
Proof.
  pose proof (rw_new _ _ _ _ _ _ Hwr) as Hnew.
  rewrite (rw_buckets _ _ _ _ _ _ Hwr), (rw_reservations _ _ _ _ _ _ Hwr).
  intros [[<- <-]|[Hne Hb]]%lookup_insert_Some; constructor;
    rewrite ?held_insert, ?made_insert by done; unfold held_by, made_on; cbn [row_of rv_bucket_id].
  all: try (destruct (inv_bucket _ Hinv _ _ (rc_bucket _ _ _ Hchk)) as [Ha Hs Ht];
            rewrite ?String.eqb_refl; cbn; pose proof (rc_fits _ _ _ Hchk); lia).
  all: destruct (inv_bucket _ Hinv _ _ Hb) as [Ha Hs Ht]; rewrite ?(proj2 (String.eqb_neq _ _) Hne); cbn; lia.
Qed.

Lemma reserve_inv_reservation id r :
  db_reservations db' !! id = Some r -> reservation_ok (db_buckets db') r.
Proof.
  pose proof reserve_row_bounds as (Hamt & Hsq & Hexp). rewrite (rw_buckets _ _ _ _ _ _ Hwr).
  intros [[-> ->]|Hr]%reserve_row_cases.
  - constructor; cbn [row_of rv_bucket_id rv_asset_id rv_allocation_sequence rv_amount rv_expires_at rv_state rv_release_cause];
      try done.
    + eexists. rewrite lookup_insert_eq. split; [done|]. cbn. split; [apply (rc_asset _ _ _ Hchk)|done].
    + split; [done|]. apply (rc_amount _ _ _ Hchk).
    + apply list_elem_of_here.
  - destruct (inv_reservation _ Hinv _ _ Hr) as [(row & Hb & Ha & Hs) Hm Hq He Ht].
    constructor; try done. destruct (decide (rv_bucket_id r = hr_bucket_id request)) as [Heq|Hne].
    + pose proof (rc_bucket _ _ _ Hchk) as Hbk. rewrite Heq in *. simplify_eq.
      eexists. rewrite lookup_insert_eq. split; [done|]. cbn. split; [done|lia].
    + exists row. rewrite lookup_insert_ne by done. done.
Qed.

Lemma reserve_sequence_fresh id r :
  db_reservations db !! id = Some r -> rv_bucket_id r = hr_bucket_id request ->
  rv_allocation_sequence r <> bk_allocation_sequence bucket + 1.
Proof.
  intros Hr Heq. destruct (inv_reservation _ Hinv _ _ Hr) as [(row & Hb & _ & Hs) _ _ _ _].
  pose proof (rc_bucket _ _ _ Hchk). rewrite Heq in Hb. simplify_eq. lia.
Qed.

Lemma reserve_inv_utxo k u :
  db_utxos db' !! k = Some u -> ux_state u = "reserved"%string ->
  exists id r, ux_reservation_id u = Some id /\ db_reservations db' !! id = Some r
    /\ live r = true /\ ux_asset_id u = rv_asset_id r.
Proof.
  destruct (rw_utxos _ _ _ _ _ _ Hwr) as [Hin Hout _]. intros Hk Hres.
  destruct (decide (k ∈ outpoint_key <$> sort_outpoints (hr_utxos request))) as [Hmem|Hmem].
  - destruct (Hin k Hmem) as (v & Hv & _ & Hv'). simplify_eq.
    exists (hr_reservation_id request). eexists. split; [done|].
    split; [rewrite (rw_reservations _ _ _ _ _ _ Hwr); apply lookup_insert_eq|]. split; [done|].
    apply list_elem_of_fmap in Hmem as (o & -> & Ho). cbn.
    destruct (rc_outputs _ _ _ Hchk) as (us & Hus & _). apply list_elem_of_lookup in Ho as [i Hi].
    destruct (Forall2_lookup_l _ _ _ _ _ Hus Hi) as (w & _ & Hw & _ & Has). congruence.
  - rewrite Hout in Hk by done. destruct (inv_utxo _ Hinv k u Hk Hres) as (id & r & Hid & Hr & Hl & Ha).
    exists id, r. by rewrite (reserve_old_row _ _ Hr).
Qed.

Lemma ark_unit_cases id u :
  db_ark_units db' !! id = Some u ->
  (exists ark, hr_ark_reserve request = Some ark /\ id = hr_reservation_id request
     /\ u = ark_row_of ark (hr_created_at request) /\ ark_unit_blocked db (canonical_id ark) = false)
  \/ db_ark_units db !! id = Some u.
Proof.
  pose proof (rw_ark _ _ _ _ _ _ Hwr) as Hark. destruct (hr_ark_reserve request) as [ark|].
  - destruct Hark as [Hb ->]. intros [[<- <-]|[_ Hu]]%lookup_insert_Some; eauto 10.
  - rewrite Hark. auto.
Qed.

Lemma reserve_inv_ark id u :
  db_ark_units db' !! id = Some u ->
  exists r, db_reservations db' !! id = Some r /\ ak_state u = rv_state r
    /\ ak_release_cause u = rv_release_cause r.
Proof.
  intros [(ark & _ & -> & -> & _)|Hu]%ark_unit_cases.
  - eexists. rewrite (rw_reservations _ _ _ _ _ _ Hwr), lookup_insert_eq. done.
  - destruct (inv_ark _ Hinv _ _ Hu) as (r & Hr & Hs & Hc). exists r. by rewrite (reserve_old_row _ _ Hr).
Qed.

Lemma reserve_inv_ark_unique id1 id2 u1 u2 :
  db_ark_units db' !! id1 = Some u1 -> db_ark_units db' !! id2 = Some u2 ->
  ark_blocking u1 = true -> ark_blocking u2 = true -> ak_reserve_unit u1 = ak_reserve_unit u2 ->
  id1 = id2.
Proof.
  intros [(a1 & Ha1 & -> & -> & Hb1)|Hu1]%ark_unit_cases [(a2 & Ha2 & -> & -> & Hb2)|Hu2]%ark_unit_cases
    Hk1 Hk2 Heq; [done| | |by eapply (inv_ark_unique _ Hinv)].
  - by destruct (ark_blocked_false _ _ _ _ Hb1 Hu2 Hk2).
  - by destruct (ark_blocked_false _ _ _ _ Hb2 Hu1 Hk1).
Qed.

Lemma reserve_inv_effect id r :
  db_reservations db' !! id = Some r ->
  exists e, db_effects db' !! rv_effect_id r = Some e /\ ef_state e = "applied"%string
    /\ ef_external_reference e = Some id.
Proof.
  destruct (rw_effects _ _ _ _ _ _ Hwr) as (e & -> & He). intros [[-> ->]|Hr]%reserve_row_cases.
  - exists e. cbn. rewrite lookup_insert_eq. destruct He. done.
  - destruct (inv_effect _ Hinv _ _ Hr) as (e0 & He0 & ? & ?). exists e0.
    pose proof (rw_effect_unique _ _ _ _ _ _ Hwr _ _ Hr). by rewrite lookup_insert_ne by congruence.
Qed.

Lemma reserved_ledger_inv : ledger_inv db'.
Proof.
  constructor.
  - apply reserve_inv_bucket.
  - apply reserve_inv_reservation.
  - intros id1 id2 r1 r2 [[-> ->]|Hr1]%reserve_row_cases [[-> ->]|Hr2]%reserve_row_cases Hb Hs;
      [done| | |by eapply (inv_sequence _ Hinv)].
    + by destruct (reserve_sequence_fresh _ _ Hr2).
    + by destruct (reserve_sequence_fresh _ _ Hr1).
  - apply reserve_inv_utxo.
  - apply reserve_inv_ark.
  - apply reserve_inv_ark_unique.
  - apply reserve_inv_effect.
Qed.
End reserve_preserves.

Lemma reserve_ledger_inv db request out db' :
  ledger_inv db -> reserve db request = Ok (out, db') -> ledger_inv db'.
Proof.
  intros Hinv [[-> _]|(bucket & Hchk & _ & Hwr)]%reserve_inv; [done|]. by eapply reserved_ledger_inv.
Qed.

(** ** Closing a reservation *)

Definition row_closed (state cause : string) (now : Z) (r : ReservationRow) : ReservationRow :=
  mkReservationRow (rv_effect_id r) (rv_session_id r) (rv_bucket_id r) (rv_asset_id r)
    (rv_amount r) (rv_request_sha256 r) (rv_allocation_sequence r) (rv_expires_at r)
    state (Some cause) (rv_created_at r) (Z.max (rv_updated_at r) now).

Definition ark_closed (state cause : string) (now : Z) (r : ArkUnitRow) : ArkUnitRow :=
  mkArkUnitRow (ak_reserve_unit r) (ak_protocol_family r) (ak_operator_identity_sha256 r)
    (ak_vtxo_txid r) (ak_vout r) (ak_proof_sha256 r) state (Some cause) (ak_created_at r)
    (Z.max (ak_updated_at r) now).

Record reservation_closed (id state cause : string) (now : Z) (r : ReservationRow) (db db' : ProviderDb)
    : Prop := mkReservationClosed {
  cl_active : db_reservations db !! id = Some r /\ rv_state r = "active"%string;
  cl_reservations : db_reservations db' = <[id := row_closed state cause now r]> (db_reservations db);
  cl_ark : db_ark_units db' = alter (ark_closed state cause now) id (db_ark_units db);
  cl_effects : db_effects db' = db_effects db;
  cl_buckets b row : db_buckets db !! b = Some row -> exists row',
    db_buckets db' !! b = Some row' /\ bk_asset_id row' = bk_asset_id row
    /\ bk_allocation_sequence row' = bk_allocation_sequence row;
}.

Section close_preserves.
Context (id state cause : string) (now : Z) (r : ReservationRow) (db db' : ProviderDb).
Hypothesis Hstate : state = "released"%string \/ state = "unresolved"%string.
Hypothesis Hinv : ledger_inv db.
Hypothesis Hcl : reservation_closed id state cause now r db db'.

(** Every row of [db'] comes from a row of [db] with the same immutable
    columns. *)
Lemma closed_origin id' r' :
  db_reservations db' !! id' = Some r' ->
  exists r0, db_reservations db !! id' = Some r0 /\ rv_effect_id r' = rv_effect_id r0
    /\ rv_bucket_id r' = rv_bucket_id r0 /\ rv_asset_id r' = rv_asset_id r0
    /\ rv_amount r' = rv_amount r0 /\ rv_allocation_sequence r' = rv_allocation_sequence r0
    /\ rv_expires_at r' = rv_expires_at r0 /\ rv_session_id r' = rv_session_id r0
    /\ (id' = id /\ rv_state r' = state /\ rv_release_cause r' = Some cause \/ id' <> id /\ r' = r0).
Proof.
  rewrite (cl_reservations _ _ _ _ _ _ _ Hcl). destruct (cl_active _ _ _ _ _ _ _ Hcl) as [Hr _].
  intros [[<- <-]|[Hne Hr']]%lookup_insert_Some; [exists r|exists r']; repeat split; auto.
Qed.

Lemma closed_inv_reservation id' r' :
  db_reservations db' !! id' = Some r' -> reservation_ok (db_buckets db') r'.
Proof.
  intros (r0 & Hr0 & Ee & Eb & Ea & Em & Es & Ex & _ & Hc)%closed_origin.
  destruct (inv_reservation _ Hinv _ _ Hr0) as [(row & Hb & Has & Hsq) Hm Hq He Hst Hca].
  destruct (cl_buckets _ _ _ _ _ _ _ Hcl _ _ Hb) as (row' & Hb' & Has' & Hsq').
  constructor; try (by rewrite ?Em, ?Es, ?Ex).
  - exists row'. rewrite Eb, Ea, Es. split; [done|]. split; [congruence|lia].
  - destruct Hc as [(_ & -> & _)|[_ ->]]; [|done].
    destruct Hstate as [->| ->]; repeat (apply list_elem_of_here || apply list_elem_of_further).
  - destruct Hc as [(_ & -> & ->)|[_ ->]]; [|done]. by destruct Hstate as [->| ->].
Qed.

Lemma closed_inv_sequence id1 id2 r1 r2 :
  db_reservations db' !! id1 = Some r1 -> db_reservations db' !! id2 = Some r2 ->
  rv_bucket_id r1 = rv_bucket_id r2 -> rv_allocation_sequence r1 = rv_allocation_sequence r2 -> id1 = id2.
Proof.
  intros (r1' & Hr1 & _ & Eb1 & _ & _ & Es1 & _)%closed_origin (r2' & Hr2 & _ & Eb2 & _ & _ & Es2 & _)%closed_origin ? ?.
  eapply (inv_sequence _ Hinv); [exact Hr1|exact Hr2|congruence|congruence].
Qed.

Lemma closed_inv_effect id' r' :
  db_reservations db' !! id' = Some r' ->
  exists e, db_effects db' !! rv_effect_id r' = Some e /\ ef_state e = "applied"%string
    /\ ef_external_reference e = Some id'.
Proof.
  intros (r0 & Hr0 & -> & _)%closed_origin. rewrite (cl_effects _ _ _ _ _ _ _ Hcl).
  by apply (inv_effect _ Hinv).
Qed.

Lemma closed_inv_ark id' u :
  db_ark_units db' !! id' = Some u ->
  exists r', db_reservations db' !! id' = Some r' /\ ak_state u = rv_state r'
    /\ ak_release_cause u = rv_release_cause r'.
Proof.
  rewrite (cl_ark _ _ _ _ _ _ _ Hcl), (cl_reservations _ _ _ _ _ _ _ Hcl).
  intros [(-> & u0 & Hu0 & ->)|[Hne Hu]]%lookup_alter_Some.
  - eexists. rewrite lookup_insert_eq. done.
  - rewrite lookup_insert_ne by done. by apply (inv_ark _ Hinv).
Qed.

Lemma closed_inv_ark_unique id1 id2 u1 u2 :
  db_ark_units db' !! id1 = Some u1 -> db_ark_units db' !! id2 = Some u2 ->
  ark_blocking u1 = true -> ark_blocking u2 = true -> ak_reserve_unit u1 = ak_reserve_unit u2 ->
  id1 = id2.
Proof.
  assert (forall i u, db_ark_units db' !! i = Some u -> exists u0, db_ark_units db !! i = Some u0
            /\ ak_reserve_unit u0 = ak_reserve_unit u /\ (ark_blocking u = true -> ark_blocking u0 = true)) as Horig.
  { intros i u. rewrite (cl_ark _ _ _ _ _ _ _ Hcl).
    intros [(-> & u0 & Hu0 & ->)|[Hne Hu]]%lookup_alter_Some; [exists u0|by exists u].
    split; [done|]. split; [done|]. intros _.
    destruct (inv_ark _ Hinv _ _ Hu0) as (r0 & Hr0 & Hs & _).
    destruct (cl_active _ _ _ _ _ _ _ Hcl) as [Hr Hact]. unfold ark_blocking. by simplify_eq; rewrite Hs, Hact. }
  intros (v1 & Hv1 & E1 & B1)%Horig (v2 & Hv2 & E2 & B2)%Horig ? ? ?.
  eapply (inv_ark_unique _ Hinv); [exact Hv1|exact Hv2|auto|auto|congruence].
Qed.

Lemma live_after id' r' :
  id' <> id -> db_reservations db !! id' = Some r' -> db_reservations db' !! id' = Some r'.
Proof. intros Hne Hr'. by rewrite (cl_reservations _ _ _ _ _ _ _ Hcl), lookup_insert_ne. Qed.
End close_preserves.

Lemma insert_alter_eq {A} (f : A -> A) (m : gmap string A) id x :
  m !! id = Some x -> <[id := f x]> m = alter f id m.
Proof.
  intros Hx. apply map_eq. intros j. destruct (decide (j = id)) as [->|Hne].
  - by rewrite lookup_insert_eq, lookup_alter_eq, Hx.
  - by rewrite lookup_insert_ne, lookup_alter_ne by done.
Qed.

Lemma alter_absent {A} (f : A -> A) (m : gmap string A) id : m !! id = None -> alter f id m = m.
Proof. intros Hn. apply alter_id. intros x. by rewrite Hn. Qed.

(** On an active unit, or none, the transition closes it. *)
Lemma transition_ark_inv db id state cause now db' :
  state = "released"%string \/ state = "unresolved"%string ->
  (forall u, db_ark_units db !! id = Some u -> ak_state u = "active"%string) ->
  transition_ark_reserve_unit db id state cause now = Ok db' ->
  db' = set_ark_units (alter (ark_closed state cause now) id) db.
Proof.
  intros Hst Hact. unfold transition_ark_reserve_unit.
  destruct (db_ark_units db !! id) as [u|] eqn:Hu.
  - specialize (Hact u eq_refl). rewrite Hact.
    rewrite bool_decide_eq_false_2 by (by destruct Hst as [-> | ->]).
    rewrite bool_decide_eq_true_2 by done. intros Ht. cbn in Ht. tx_inv.
    unfold update_ark_unit_state in *. rewrite Hu, Hact, bool_decide_eq_true_2 in * by done. tx_inv.
    unfold set_ark_units. f_equal. by apply (insert_alter_eq (ark_closed state cause now)).
  - intros Ht. tx_inv. unfold set_ark_units. rewrite alter_absent by done. by destruct db'.
Qed.

Lemma update_reservation_state_inv db id state cause now r n db' :
  db_reservations db !! id = Some r -> rv_state r = "active"%string ->
  update_reservation_state db id state cause now = Ok (n, db') ->
  n = 1 /\ db' = set_reservations <[id := row_closed state cause now r]> db.
Proof.
  intros Hr Hact. unfold update_reservation_state. rewrite Hr, bool_decide_eq_true_2 by done.
  intros Hu. by tx_inv.
Qed.

Definition record_from (id : string) (row : ReservationRow) : ReservationRecord :=
  mkReservationRecord id (rv_effect_id row) (rv_session_id row) (rv_bucket_id row) (rv_asset_id row)
    (rv_amount row) (rv_request_sha256 row) (rv_allocation_sequence row) (rv_expires_at row)
    (rv_state row) (rv_release_cause row).

Lemma reservation_from_row_Ok id row r :
  reservation_from_row id row = Ok r ->
  r = record_from id row.
Proof. unfold reservation_from_row, positive_u64. intros Hr. tx_inv. by conversions. Qed.

Lemma select_reservation_Some db id r :
  select_reservation db id = Ok (Some r) ->
  exists row, db_reservations db !! id = Some row
    /\ r = record_from id row.
Proof.
  unfold select_reservation. destruct (db_reservations db !! id) as [row|]; intros Hr; tx_inv.
  exists row. split; [done|]. by apply reservation_from_row_Ok.
Qed.

(** What a release does: the reservation closed, its amount back in its
    bucket, its outputs free. *)
Record released (id cause : string) (now : Z) (db db' : ProviderDb) : Prop := mkReleased {
  rl_row : exists r bucket, reservation_closed id "released" cause now r db db'
    /\ db_buckets db !! rv_bucket_id r = Some bucket
    /\ rv_amount r <= bk_allocated_capacity bucket
    /\ db_buckets db' = <[rv_bucket_id r := mkBucketRow (bk_asset_id bucket) (bk_total_capacity bucket)
         (bk_allocated_capacity bucket - rv_amount r) (bk_allocation_sequence bucket)
         (Z.max (bk_updated_at bucket) now)]> (db_buckets db);
  rl_utxos : db_utxos db' = release_row id now <$> db_utxos db;
}.

Lemma release_reservation_inv db id cause now out db' :
  ledger_inv db -> release_reservation db id cause now = Ok (out, db') ->
  (db' = db /\ out = Replay) \/ (out = Stored /\ released id cause now db db').
Proof.
  intros Hinv. unfold release_reservation. intros Hr. tx_inv. conversions.
  match goal with Hs : select_reservation _ _ = Ok (Some _) |- _ =>
    apply select_reservation_Some in Hs as (row & Hrow & ->) end. cbn [record_from rr_state rr_release_cause rr_amount rr_bucket_id] in Hr.
  destruct (String.eqb_spec (rv_state row) "released") as [Hrel|Hrel].
  { left. tx_inv. unfold replay_or_conflict in *. by tx_inv. }
  right. destruct (String.eqb_spec (rv_state row) "active") as [Hact|]; [|done]. cbn [negb] in Hr. tx_inv. conversions.
  match goal with Hu : update_reservation_state _ _ _ _ _ = _ |- _ =>
    apply (update_reservation_state_inv _ _ _ _ _ row) in Hu as [_ ->]; [|done..] end.
  unfold update_bucket_release in *. cbn [db_buckets set_reservations] in *.
  destruct (db_buckets db !! rv_bucket_id row) as [bucket|] eqn:Hb; tx_inv; [|done].
  destruct (_ <=? bk_allocated_capacity _) eqn:Hle in *; tx_inv; [|done].
  match goal with Ht : transition_ark_reserve_unit _ _ _ _ _ = _ |- _ =>
    apply transition_ark_inv in Ht; [|by left|] end.
  2:{ cbn. intros u Hu. destruct (inv_ark _ Hinv _ _ Hu) as (r0 & Hr0 & Hs & _). by simplify_eq; rewrite Hs. }
  subst. split; [done|]. bool_to_prop. constructor; [|done]. exists row, bucket.
  split; [|by cbn]. constructor; cbn; try done.
  intros b brow Hbr. destruct (decide (b = rv_bucket_id row)) as [->|Hne].
  - eexists. rewrite lookup_insert_eq. simplify_eq. by cbn.
  - exists brow. by rewrite lookup_insert_ne by done.
Qed.

Lemma mark_reservation_unresolved_inv db id detail context now out db' :
  ledger_inv db -> mark_reservation_unresolved db id detail context now = Ok (out, db') ->
  db' = db \/ (exists r, reservation_closed id "unresolved" detail now r db db')
    /\ db_buckets db' = db_buckets db /\ db_utxos db' = db_utxos db.
Proof.
  intros Hinv. unfold mark_reservation_unresolved. intros Hr. tx_inv. conversions.
  match goal with Hs : select_reservation _ _ = Ok (Some _) |- _ =>
    apply select_reservation_Some in Hs as (row & Hrow & ->) end. cbn [record_from rr_state rr_release_cause rr_session_id] in Hr.
  destruct (String.eqb_spec (rv_state row) "unresolved") as [Hrel|Hrel]; [left; by tx_inv|]. right.
  destruct (String.eqb_spec (rv_state row) "active") as [Hact|]; [|done]. cbn [negb] in Hr. tx_inv.
  match goal with Hu : update_reservation_state _ _ _ _ _ = _ |- _ =>
    apply (update_reservation_state_inv _ _ _ _ _ row) in Hu as [_ ->]; [|done..] end.
  match goal with Ht : transition_ark_reserve_unit _ _ _ _ _ = _ |- _ =>
    apply transition_ark_inv in Ht; [|by right|] end.
  2:{ cbn. intros u Hu. destruct (inv_ark _ Hinv _ _ Hu) as (r0 & Hr0 & Hs & _). by simplify_eq; rewrite Hs. }
  subst. unfold insert_alert in *. tx_inv.
  match goal with Ha : match ?x with Some _ => _ | None => _ end = Ok db' |- _ => destruct x; tx_inv end;
    (split; [|done]; exists row; constructor; cbn; eauto).
Qed.

Lemma held_update rs id r r' b :
  rs !! id = Some r -> held (<[id := r']> rs) b = held_by b id r' - held_by b id r + held rs b.
Proof. apply msum_insert. Qed.

Lemma made_update rs id r r' b :
  rs !! id = Some r -> rv_bucket_id r' = rv_bucket_id r -> made (<[id := r']> rs) b = made rs b.
Proof. intros Hr Hb. apply (msum_insert_same _ _ _ _ _ Hr). unfold made_on. by rewrite Hb. Qed.

Lemma held_released cause now r b id :
  rv_state r = "active"%string ->
  held_by b id (row_closed "released" cause now r) - held_by b id r
  = if String.eqb (rv_bucket_id r) b then - rv_amount r else 0.
Proof.
  intros Hact. unfold held_by, live. cbn. rewrite Hact.
  destruct (String.eqb (rv_bucket_id r) b); cbn; lia.
Qed.

Lemma held_unresolved cause now r b id :
  rv_state r = "active"%string ->
  held_by b id (row_closed "unresolved" cause now r) - held_by b id r = 0.
Proof.
  intros Hact. unfold held_by, live. cbn. rewrite Hact.
  destruct (String.eqb (rv_bucket_id r) b); cbn; lia.
Qed.

Lemma released_ledger_inv id cause now db db' :
  ledger_inv db -> released id cause now db db' -> ledger_inv db'.
Proof.
  intros Hinv [(r & bucket & Hcl & Hb & Hle & Hbs) Hus].
  destruct (cl_active _ _ _ _ _ _ _ Hcl) as [Hr Hact].
  assert (Hst : "released"%string = "released"%string \/ "released"%string = "unresolved"%string) by by left.
  constructor; [|by eapply closed_inv_reservation|by eapply closed_inv_sequence| |by eapply closed_inv_ark
    |by eapply closed_inv_ark_unique|by eapply closed_inv_effect].
  - intros b row. rewrite Hbs, (cl_reservations _ _ _ _ _ _ _ Hcl).
    pose proof (ro_amount _ _ (inv_reservation _ Hinv _ _ Hr)) as Ham.
    pose proof (held_released cause now r b id Hact) as Hh.
    intros [[<- <-]|[Hne Hrow]]%lookup_insert_Some.
    + destruct (inv_bucket _ Hinv _ _ Hb) as [Ha Hs Ht]. rewrite String.eqb_refl in Hh.
      constructor; cbn [bk_allocated_capacity bk_allocation_sequence bk_total_capacity];
        rewrite ?(held_update _ _ _ _ _ Hr), ?(made_update _ _ _ _ _ Hr) by done; lia.
    + destruct (inv_bucket _ Hinv _ _ Hrow) as [Ha Hs Ht].
      rewrite (proj2 (String.eqb_neq _ _) Hne) in Hh.
      constructor; rewrite ?(held_update _ _ _ _ _ Hr), ?(made_update _ _ _ _ _ Hr) by done; lia.
  - intros k u. rewrite Hus, lookup_fmap. intros [u0 [Hu0 ->]]%fmap_Some Hres.
    unfold release_row in *. destruct (bool_decide _ && bool_decide _) eqn:Hg; [done|].
    destruct (inv_utxo _ Hinv _ _ Hu0 Hres) as (id' & r' & Hid & Hr' & Hl & Has).
    exists id', r'. split; [done|]. split; [|done]. eapply live_after; [exact Hcl| |done].
    intros ->. rewrite Hid, Hres, !bool_decide_eq_true_2 in Hg by done. done.
Qed.

Lemma unresolved_ledger_inv id detail now db db' r :
  ledger_inv db -> reservation_closed id "unresolved" detail now r db db' ->
  db_buckets db' = db_buckets db -> db_utxos db' = db_utxos db -> ledger_inv db'.
Proof.
  intros Hinv Hcl Hbs Hus. destruct (cl_active _ _ _ _ _ _ _ Hcl) as [Hr Hact].
  assert (Hst : "unresolved"%string = "released"%string \/ "unresolved"%string = "unresolved"%string) by by right.
  constructor; [|by eapply closed_inv_reservation|by eapply closed_inv_sequence| |by eapply closed_inv_ark
    |by eapply closed_inv_ark_unique|by eapply closed_inv_effect].
  - intros b row. rewrite Hbs, (cl_reservations _ _ _ _ _ _ _ Hcl). intros Hrow.
    destruct (inv_bucket _ Hinv _ _ Hrow) as [Ha Hs Ht].
    pose proof (held_unresolved detail now r b id Hact) as Hh.
    constructor; rewrite ?(held_update _ _ _ _ _ Hr), ?(made_update _ _ _ _ _ Hr) by done; lia.
  - intros k u. rewrite Hus. intros Hu Hres.
    destruct (inv_utxo _ Hinv _ _ Hu Hres) as (id' & r' & Hid & Hr' & Hl & Has). exists id'.
    destruct (decide (id' = id)) as [->|Hne].
    + exists (row_closed "unresolved" detail now r). simplify_eq.
      rewrite (cl_reservations _ _ _ _ _ _ _ Hcl), lookup_insert_eq. by repeat split.
    + exists r'. split; [done|]. split; [|done]. by eapply live_after.
Qed.

(** ** Histories *)

(** The operations that write the ledger. *)
Inductive LedgerOp : Type :=
| OpPersistEffect (request : PublicEffectRequest)
| OpCompleteEffect (result : PublicEffectResult)
| OpEffectUnresolved (effect_id detail_code : string) (now : Z)
| OpConfigureBucket (bucket_id asset_id : string) (total_capacity now : Z)
| OpObserveUtxo (observation : UtxoObservation)
| OpReserve (request : HardReservationRequest)
| OpRelease (reservation_id cause : string) (now : Z)
| OpReservationUnresolved (reservation_id detail_code : string) (public_context : Value) (now : Z).

(** One call: the tables afterwards, unchanged when it fails. *)
Definition committed {A} (db : ProviderDb) (r : result ProviderStoreError (A * ProviderDb)) : ProviderDb :=
  match r with Ok (_, db') => db' | Err _ => db end.

Definition ledger_step (db : ProviderDb) (op : LedgerOp) : ProviderDb :=
  match op with
  | OpPersistEffect request => committed db (persist_effect_request db request)
  | OpCompleteEffect result => committed db (complete_effect db result)
  | OpEffectUnresolved id detail now => committed db (mark_effect_unresolved db id detail now)
  | OpConfigureBucket b asset total now => committed db (configure_capacity_bucket db b asset total now)
  | OpObserveUtxo o => committed db (observe_utxo db o)
  | OpReserve request => committed db (reserve db request)
  | OpRelease id cause now => committed db (release_reservation db id cause now)
  | OpReservationUnresolved id detail context now =>
      committed db (mark_reservation_unresolved db id detail context now)
  end.

Definition ledger_run (ops : list LedgerOp) : ProviderDb := fold_left ledger_step ops empty_db.

Lemma committed_inv {A} db (r : result ProviderStoreError (A * ProviderDb)) :
  ledger_inv db -> (forall a db', r = Ok (a, db') -> ledger_inv db') -> ledger_inv (committed db r).
Proof. intros Hdb Hr. destruct r as [[a db']|e]; [by eapply Hr|done]. Qed.

Lemma ledger_step_inv db op : ledger_inv db -> ledger_inv (ledger_step db op).
Proof.
  intros Hinv. destruct op; cbn; apply committed_inv; try done; intros a db' Hop.
  - by eapply inv_frame, persist_effect_request_frame.
  - by eapply inv_frame, complete_effect_frame.
  - by eapply inv_frame, mark_effect_unresolved_frame.
  - by eapply configure_capacity_bucket_inv.
  - by eapply observe_utxo_inv.
  - by eapply reserve_ledger_inv.
  - destruct (release_reservation_inv _ _ _ _ _ _ Hinv Hop) as [[-> _]|[_ Hrel]]; [done|].
    by eapply released_ledger_inv.
  - destruct (mark_reservation_unresolved_inv _ _ _ _ _ _ _ Hinv Hop) as [->|([r Hcl] & Hb & Hu)]; [done|].
    by eapply unresolved_ledger_inv.
Qed.

Lemma ledger_run_inv ops : ledger_inv (ledger_run ops).
Proof.
  unfold ledger_run. assert (ledger_inv empty_db) as Hinv by apply ledger_inv_empty. revert Hinv.
  generalize empty_db. induction ops as [|op ops IH]; intros db Hinv; [done|]. cbn.
  apply IH. by apply ledger_step_inv.
Qed.

End statements.

(** ** The available outputs of the store *)

(** The rows the query selects, and the form in which it returns one. *)
Definition offered (asset : string) (scripts : list string) (minimum : Z) (row : UtxoRow) : Prop :=
  ux_asset_id row = asset /\ ux_state row = "available"%string /\ minimum <= ux_confirmations row
  /\ ux_script_pubkey row ∈ scripts.

#[export] Instance offered_dec asset scripts minimum row : Decision (offered asset scripts minimum row).
Proof. unfold offered. apply _. Defined.

Definition stored_as (k : string * Z) (row : UtxoRow) (o : UtxoObservation) : Prop :=
  observed_key o = k /\ uo_asset_id o = ux_asset_id row /\ uo_amount o = ux_amount row
  /\ uo_script_pubkey o = ux_script_pubkey row /\ uo_state o = ux_state row /\ uo_confirmations o = ux_confirmations row.

Lemma stored_utxo_spec k row o : stored_utxo_from_row (k, row) = Ok o -> stored_as k row o /\ 0 <= op_vout (uo_outpoint o).
Proof.
  destruct k as [txid vout]. unfold stored_utxo_from_row, positive_u64, u64_column. intros Hs. run_inv. bool_to_prop. simplify_eq. by split.
Qed.

Lemma select_spec db asset scripts minimum limit :
  let rows := select_available_utxos db asset minimum scripts limit in
  NoDup rows.*1 /\ (length rows <= Z.to_nat limit)%nat
  /\ (forall k row, (k, row) ∈ rows -> db_utxos db !! k = Some row /\ offered asset scripts minimum row)
  /\ (forall k row, db_utxos db !! k = Some row -> offered asset scripts minimum row ->
        (length rows < Z.to_nat limit)%nat -> (k, row) ∈ rows).
Proof.
  cbn zeta. unfold select_available_utxos. set (f := List.filter _ _).
  assert (forall k row, (k, row) ∈ merge_sort by_amount_desc f <-> db_utxos db !! k = Some row /\ offered asset scripts minimum row) as Hin.
  { intros k row. rewrite merge_sort_Permutation. unfold f. rewrite elem_of_bfilter, elem_of_map_to_list. cbn [fst snd].
    rewrite !andb_true_iff, !bool_decide_eq_true, Z.leb_le. unfold offered, mem. rewrite bool_decide_eq_true. tauto. }
  assert (NoDup (merge_sort by_amount_desc f)) as Hnd.
  { rewrite merge_sort_Permutation. eapply sublist_NoDup; [|apply bfilter_sublist]. apply NoDup_map_to_list. }
  split_and!.
  - apply NoDup_fmap_fst; [|by eapply sublist_NoDup; [|apply sublist_take]].
    intros k v w Hv Hw. apply elem_of_take in Hv as (i & Hv%list_elem_of_lookup_2 & _), Hw as (j & Hw%list_elem_of_lookup_2 & _).
    apply Hin in Hv as [Hv _], Hw as [Hw _]. congruence.
  - rewrite length_take. lia.
  - intros k row (i & Hr%list_elem_of_lookup_2 & _)%elem_of_take. by apply Hin.
  - intros k row Hk Ho Hlt. rewrite length_take in Hlt. rewrite take_ge by lia. by apply Hin.
Qed.

Lemma available_spec db asset scripts minimum limit l :
  0 <= limit -> available_utxos db asset scripts minimum limit = Ok l ->
  NoDup (observed_key <$> l) /\ len l <= limit
  /\ (forall o, o ∈ l -> exists row, db_utxos db !! observed_key o = Some row /\ offered asset scripts minimum row
        /\ stored_as (observed_key o) row o /\ 0 <= op_vout (uo_outpoint o))
  /\ (forall k row, db_utxos db !! k = Some row -> offered asset scripts minimum row -> len l < limit ->
        exists o, o ∈ l /\ stored_as k row o).
Proof.
  intros Hlim. unfold available_utxos, database_i32. intros Ha. apply bind_Ok in Ha as (u & _ & Ha).
  destruct (_ || _) eqn:Hb; [done|].
  apply bind_Ok in Ha as (m & [-> _]%ok_or_Ok%try_from_u_Some & Ha). apply bind_Ok in Ha as (lim & [-> _]%ok_or_Ok%try_from_u_Some & Ha).
  apply try_map_Ok_Forall2 in Ha. destruct (select_spec db asset scripts minimum limit) as (Hnd & Hlen & Hin & Hcomp).
  set (rows := select_available_utxos _ _ _ _ _) in *.
  assert (observed_key <$> l = rows.*1) as Hkeys.
  { clear -Ha. induction Ha as [|[k row] o rows l Ho _ IH]; [done|]. cbn [fmap list_fmap fst].
    destruct (stored_utxo_spec _ _ _ Ho) as [[Hk _] _]. by rewrite Hk, IH. }
  assert (length l = length rows) as Hll by (symmetry; by eapply Forall2_length).
  split; [by rewrite Hkeys|]. split; [unfold len in *; lia|]. split.
  - intros o (n & Ho)%list_elem_of_lookup. destruct (Forall2_lookup_r _ _ _ _ _ Ha Ho) as ([k row] & Hn & Hs).
    destruct (stored_utxo_spec _ _ _ Hs) as [Hst Hv]. destruct (Hin k row) as [Hk Hof]; [by eapply list_elem_of_lookup_2|].
    pose proof Hst as [-> _]. by exists row.
  - intros k row Hk Hof Hlt. assert ((k, row) ∈ rows) as (n & Hn)%list_elem_of_lookup.
    { apply Hcomp; try done. unfold len in *. lia. }
    destruct (Forall2_lookup_l _ _ _ _ _ Ha Hn) as (o & Ho & Hs). exists o. split; [by eapply list_elem_of_lookup_2|].
    by apply stored_utxo_spec in Hs as [Hs _].
Qed.
