(* ===== verification/LedgerChecks.v ===== *)
(** * LedgerChecks: rows keep satisfying their constraints

    PostgreSQL checks a row when a statement writes it, so in every state the
    store can reach the rows of buckets, reservations and Ark units satisfy
    their CHECK constraints ([db_checked]).  With the ledger's invariant this
    shows that closing a reservation never fails
    ([release_progress]). *)

From S2P Require Import Prelude Text Utf8 Regroup Hex Event Filter Expanded Json Custody ProviderDb Ledger Reserve MapSum.
From S2P Require Import LedgerInv.

Record db_checked (db : ProviderDb) : Prop := mkDbChecked {
  ck_buckets b row : db_buckets db !! b = Some row -> check_row (bucket_checks b row) = Ok tt;
  ck_reservations id r : db_reservations db !! id = Some r -> check_row (reservation_checks id r) = Ok tt;
  ck_ark id u : db_ark_units db !! id = Some u -> check_row (ark_checks u) = Ok tt;
}.

Lemma db_checked_empty : db_checked empty_db.
Proof. by constructor. Qed.

(** Two states with the same three tables. *)
Lemma db_checked_same db db' :
  db_checked db -> db_buckets db' = db_buckets db -> db_reservations db' = db_reservations db ->
  db_ark_units db' = db_ark_units db -> db_checked db'.
Proof. intros [] Hb Hr Ha. constructor; rewrite ?Hb, ?Hr, ?Ha; eauto. Qed.

Lemma db_checked_frame db db' : db_checked db -> ledger_frame db db' -> db_checked db'.
Proof. intros Hck []. by eapply db_checked_same. Qed.

Lemma checked_insert {A} (P : string -> A -> Prop) (m : gmap string A) k x :
  (forall i y, m !! i = Some y -> P i y) -> P k x -> forall i y, <[k := x]> m !! i = Some y -> P i y.
Proof. intros Hm Hx i y [[<- <-]|[_ Hy]]%lookup_insert_Some; eauto. Qed.

Create HintDb checked discriminated.

Section checked.
Context `{ProviderEnv, EventCrypto, PgText}.

Lemma set_bucket_checked db b row :
  db_checked db -> check_row (bucket_checks b row) = Ok tt -> db_checked (set_buckets <[b := row]> db).
Proof. intros [] Hrow. constructor; cbn; eauto. by apply checked_insert. Qed.

Lemma set_reservation_checked db id r :
  db_checked db -> check_row (reservation_checks id r) = Ok tt ->
  db_checked (set_reservations <[id := r]> db).
Proof. intros [] Hrow. constructor; cbn; eauto. by apply checked_insert. Qed.

Lemma set_ark_checked db id u :
  db_checked db -> check_row (ark_checks u) = Ok tt -> db_checked (set_ark_units <[id := u]> db).
Proof. intros [] Hrow. constructor; cbn; eauto. by apply (checked_insert (fun _ u => check_row (ark_checks u) = Ok tt)). Qed.

Lemma set_effects_checked db f : db_checked db -> db_checked (set_effects f db).
Proof. intros []. by constructor. Qed.
Lemma set_utxos_checked db f : db_checked db -> db_checked (set_utxos f db).
Proof. intros []. by constructor. Qed.
Lemma set_alerts_checked db f : db_checked db -> db_checked (set_alerts f db).
Proof. intros []. by constructor. Qed.

#[local] Hint Resolve set_bucket_checked set_reservation_checked set_ark_checked set_effects_checked
  set_utxos_checked set_alerts_checked : checked.

(** The statements, one by one. *)
Ltac statement :=
  intros; tx_inv;
  repeat match goal with
  | Hx : match ?t with Some _ => _ | None => _ end = Ok _ |- _ => destruct t eqn:?; tx_inv
  | Hx : (if ?t then _ else _) = Ok _ |- _ => destruct t eqn:?; tx_inv
  end; eauto with checked.

Lemma insert_effect_checked db i s o h r c n db' :
  db_checked db -> insert_effect db i s o h r c = Ok (n, db') -> db_checked db'.
Proof. unfold insert_effect. statement. Qed.
Lemma update_complete_effect_checked db i h v r t n db' :
  db_checked db -> update_complete_effect db i h v r t = Ok (n, db') -> db_checked db'.
Proof. unfold update_complete_effect. statement. Qed.
Lemma upsert_bucket_checked db b a t w n db' :
  db_checked db -> upsert_bucket db b a t w = Ok (n, db') -> db_checked db'.
Proof. unfold upsert_bucket. statement. Qed.
Lemma update_bucket_reserve_checked db b a w db' :
  db_checked db -> update_bucket_reserve db b a w = Ok db' -> db_checked db'.
Proof. unfold update_bucket_reserve. statement. Qed.
Lemma update_bucket_release_checked db b a w n db' :
  db_checked db -> update_bucket_release db b a w = Ok (n, db') -> db_checked db'.
Proof. unfold update_bucket_release. statement. Qed.
Lemma upsert_utxo_checked db k r n db' :
  db_checked db -> upsert_utxo db k r = Ok (n, db') -> db_checked db'.
Proof. unfold upsert_utxo. statement. Qed.
Lemma insert_reservation_checked db i r db' :
  db_checked db -> insert_reservation db i r = Ok db' -> db_checked db'.
Proof. unfold insert_reservation. statement. Qed.
Lemma update_reservation_state_checked db i s c w n db' :
  db_checked db -> update_reservation_state db i s c w = Ok (n, db') -> db_checked db'.
Proof. unfold update_reservation_state. statement. Qed.
Lemma hold_ark_unit_checked db q w db' :
  db_checked db -> hold_ark_unit db q w = Ok db' -> db_checked db'.
Proof. unfold hold_ark_unit, insert_ark_unit. statement. Qed.
Lemma transition_ark_checked db i s c w db' :
  db_checked db -> transition_ark_reserve_unit db i s c w = Ok db' -> db_checked db'.
Proof. unfold transition_ark_reserve_unit, update_ark_unit_state. statement. Qed.
Lemma insert_reserve_effect_checked db q o db' :
  db_checked db -> insert_reserve_effect db q o = Ok db' -> db_checked db'.
Proof. unfold insert_reserve_effect, insert_effect. statement. Qed.
Lemma take_utxos_checked i w ops db db' :
  db_checked db -> try_fold (take_utxo i w) db ops = Ok db' -> db_checked db'.
Proof. intros Hck [-> _]%take_utxos_inv. eauto with checked. Qed.
Lemma insert_alert_checked db i s c d v w db' :
  db_checked db -> insert_alert db i s c d v w = Ok db' -> db_checked db'.
Proof. intros Hck Hi%insert_alert_frame. by eapply db_checked_frame. Qed.

(** Follow the statements of a successful run. *)
Ltac follow :=
  repeat match goal with
  | Hk : db_checked _, Hx : _ = Ok _ |- _ =>
      first [ apply (insert_reserve_effect_checked _ _ _ _ Hk) in Hx
            | apply (update_complete_effect_checked _ _ _ _ _ _ _ _ Hk) in Hx
            | apply (upsert_bucket_checked _ _ _ _ _ _ _ Hk) in Hx
            | apply (update_bucket_reserve_checked _ _ _ _ _ Hk) in Hx
            | apply (update_bucket_release_checked _ _ _ _ _ _ Hk) in Hx
            | apply (upsert_utxo_checked _ _ _ _ _ Hk) in Hx
            | apply (insert_reservation_checked _ _ _ _ Hk) in Hx
            | apply (update_reservation_state_checked _ _ _ _ _ _ _ Hk) in Hx
            | apply (hold_ark_unit_checked _ _ _ _ Hk) in Hx
            | apply (transition_ark_checked _ _ _ _ _ _ Hk) in Hx
            | apply (take_utxos_checked _ _ _ _ _ Hk) in Hx
            | apply (insert_alert_checked _ _ _ _ _ _ _ _ Hk) in Hx ]
  end; try done.

Lemma reserve_writes_checked db q ops a s out db' :
  db_checked db -> reserve_writes db q ops a s = Ok (out, db') -> db_checked db'.
Proof. unfold reserve_writes. intros Hck Hw. tx_inv. follow. Qed.

Lemma reserve_checked_step db q out db' :
  db_checked db -> reserve db q = Ok (out, db') -> db_checked db'.
Proof.
  intros Hck Hr. destruct (reserve_inv _ _ _ _ Hr) as [[-> _]|(bucket & Hc & _)]; [done|].
  revert Hr. unfold reserve. intros Hr. tx_inv.
  repeat match goal with
  | Hx : match ?t with Some _ => _ | None => _ end = Ok _ |- _ => destruct t eqn:?; tx_inv
  | Hx : match ?t with inl _ => _ | inr _ => _ end = Ok _ |- _ => destruct t eqn:?; tx_inv
  | Hx : (if ?t then _ else _) = Ok _ |- _ => destruct t eqn:?; tx_inv
  end; try done; try (by eapply reserve_writes_checked).
  unfold reserve_replay in *. by tx_inv.
Qed.

Lemma release_checked db i c w out db' :
  db_checked db -> release_reservation db i c w = Ok (out, db') -> db_checked db'.
Proof.
  unfold release_reservation, release_utxos. intros Hck Hr. tx_inv.
  destruct (String.eqb _ "released"); tx_inv; [done|]. follow.
  match goal with Hk : db_checked ?d, Hx : transition_ark_reserve_unit (set_utxos ?f ?d) _ _ _ _ = _ |- _ =>
    by apply (transition_ark_checked _ _ _ _ _ _ (set_utxos_checked _ f Hk)) in Hx end.
Qed.

Lemma mark_unresolved_checked db i c v w out db' :
  db_checked db -> mark_reservation_unresolved db i c v w = Ok (out, db') -> db_checked db'.
Proof.
  unfold mark_reservation_unresolved. intros Hck Hr. tx_inv.
  destruct (String.eqb _ "unresolved"); tx_inv; [done|]. follow.
Qed.

Lemma ledger_step_checked db op : db_checked db -> db_checked (ledger_step db op).
Proof.
  intros Hck. destruct op; cbn; unfold committed;
    match goal with |- context [match ?r with Ok _ => _ | Err _ => _ end] =>
      destruct r as [[a db']|e] eqn:Hop; [|done] end.
  - by eapply db_checked_frame, persist_effect_request_frame.
  - by eapply db_checked_frame, complete_effect_frame.
  - by eapply db_checked_frame, mark_effect_unresolved_frame.
  - unfold configure_capacity_bucket in Hop. tx_inv. follow.
  - unfold observe_utxo in Hop. tx_inv. follow.
  - by eapply reserve_checked_step.
  - by eapply release_checked.
  - by eapply mark_unresolved_checked.
Qed.

Lemma ledger_run_checked ops : db_checked (ledger_run ops).
Proof.
  unfold ledger_run. pose proof db_checked_empty as Hck. revert Hck. generalize empty_db.
  induction ops as [|op ops IH]; intros db Hck; [done|]. cbn. apply IH. by apply ledger_step_checked.
Qed.
End checked.
