(* ===== verification/LedgerCorrect.v ===== *)
(** * LedgerCorrect: what the provider's ledger promises

    For every history of operations: capacity is conserved and never
    over-committed, a reserved output or Ark unit has one live holder, an
    active reservation can always be released and gives back exactly what it
    took, and a repeated request is answered from the record.  Two theorems
    show what the statements miss: an output observed away and back while
    reserved stays bound to its reservation for good, and a reservation
    completes an effect that was marked unresolved. *)

From S2P Require Import Prelude Text Utf8 Regroup Hex Event Filter Expanded Json Custody ProviderDb Ledger Reserve MapSum.
From S2P Require Import LedgerInv LedgerChecks.

(** ** Inputs *)

Lemma hex_64_validate value label : hex_64 value = true <-> validate_hex value label = Ok tt.
Proof.
  unfold hex_64, validate_hex, hex_char. destruct (str_len value =? 64); cbn [negb orb andb]; [|done].
  destruct (existsb _ (as_bytes value)) eqn:He.
  - split; [|done]. rewrite forallb_forall. apply existsb_exists in He as (b & Hb & Hx).
    intros Hall. specialize (Hall b Hb). revert Hall Hx. cbv beta. by destruct (is_ascii_digit b), (in_range 97 102 b).
  - split; [done|]. intros _. apply forallb_forall. intros b Hb%list_elem_of_In.
    pose proof (existsb_none _ _ He b Hb) as Hx. revert Hx. cbv beta. by destruct (is_ascii_digit b), (in_range 97 102 b).
Qed.

(** ** Closing an active reservation succeeds *)

Section progress.
Context `{ProviderEnv, EventCrypto, PgText}.

Lemma closed_row_checked id state cause now r :
  state = "released"%string \/ state = "unresolved"%string ->
  check_row (reservation_checks id r) = Ok tt ->
  check_row (reservation_checks id (row_closed state cause now r)) = Ok tt.
Proof.
  intros Hst. rewrite !check_row_Ok. unfold reservation_checks, constraint. rewrite !Forall_cons. cbn.
  intros (? & ? & ? & ? & ? & ? & ? & _ & _ & Ht & _).
  repeat (split; [done|]). destruct Hst as [-> | ->]; repeat (split; [done|]); (split; [|constructor]);
    apply andb_true_iff in Ht; apply andb_true_iff; lia.
Qed.

Lemma closed_ark_checked state cause now u :
  state = "released"%string \/ state = "unresolved"%string ->
  check_row (ark_checks u) = Ok tt -> check_row (ark_checks (ark_closed state cause now u)) = Ok tt.
Proof.
  intros Hst. rewrite !check_row_Ok. unfold ark_checks, constraint. rewrite !Forall_cons. cbn.
  intros (? & ? & ? & ? & ? & ? & _ & _ & Ht & _).
  repeat (split; [done|]). destruct Hst as [-> | ->]; repeat (split; [done|]); (split; [|constructor]);
    apply andb_true_iff in Ht; apply andb_true_iff; lia.
Qed.

Lemma released_bucket_checked b row amount now :
  0 < amount <= bk_allocated_capacity row -> check_row (bucket_checks b row) = Ok tt ->
  check_row (bucket_checks b (mkBucketRow (bk_asset_id row) (bk_total_capacity row)
    (bk_allocated_capacity row - amount) (bk_allocation_sequence row) (Z.max (bk_updated_at row) now))) = Ok tt.
Proof.
  intros Ha. rewrite !check_row_Ok. unfold bucket_checks, constraint. rewrite !Forall_cons. cbn.
  intros (? & ? & Ht & ? & ? & _). rewrite !andb_true_iff in Ht.
  repeat (split; [done|]). split; [rewrite !andb_true_iff; lia|]. split; [lia|]. split; [lia|constructor].
Qed.

Lemma transition_ark_progress db id state cause now :
  state = "released"%string \/ state = "unresolved"%string -> db_checked db ->
  (forall u, db_ark_units db !! id = Some u -> ak_state u = "active"%string) ->
  exists db', transition_ark_reserve_unit db id state cause now = Ok db'.
Proof.
  intros Hst Hck Hact. unfold transition_ark_reserve_unit.
  destruct (db_ark_units db !! id) as [u|] eqn:Hu; [|eauto]. specialize (Hact u eq_refl). rewrite Hact.
  rewrite bool_decide_eq_false_2 by (by destruct Hst as [-> | ->]).
  rewrite bool_decide_eq_true_2 by done. cbn [negb].
  replace (mem state _) with true by (by destruct Hst as [-> | ->]). cbn [negb].
  unfold update_ark_unit_state. rewrite Hu, Hact, bool_decide_eq_true_2 by done.
  change (mkArkUnitRow _ _ _ _ _ _ _ _ _ _) with (ark_closed state cause now u).
  rewrite closed_ark_checked; [cbn; eauto|done|]. by eapply ck_ark.
Qed.

Lemma reservation_from_row_progress db id r :
  ledger_inv db -> db_reservations db !! id = Some r ->
  select_reservation db id = Ok (Some (record_from id r)).
Proof.
  intros Hinv Hr. destruct (inv_reservation _ Hinv _ _ Hr) as [_ Ham Hsq Hex _ _].
  unfold select_reservation, reservation_from_row, positive_u64, u64_column. rewrite Hr.
  destruct (Z.leb_spec 0 (rv_amount r)); [|lia]. cbn.
  destruct (Z.leb_spec 0 (rv_allocation_sequence r)); [|lia]. cbn.
  destruct (Z.leb_spec 0 (rv_expires_at r)); [|lia]. done.
Qed.

Lemma release_progress db id r cause now :
  ledger_inv db -> db_checked db -> db_reservations db !! id = Some r -> rv_state r = "active"%string ->
  validate_identifier cause "release cause" = Ok tt -> now <= I64_MAX ->
  exists db', release_reservation db id cause now = Ok (Stored, db').
Proof.
  intros Hinv Hck Hr Hact Hcause Hnow. pose proof (ck_reservations _ Hck _ _ Hr) as Hrow.
  pose proof (check_row_elem _ "provider_reservation_id" _ Hrow ltac:(check_elem)) as Hid.
  destruct (inv_reservation _ Hinv _ _ Hr) as [(row & Hb & _ & _) Ham _ _ _ _].
  destruct (inv_bucket _ Hinv _ _ Hb) as [Hal _ _].
  assert (rv_amount r <= held (db_reservations db) (rv_bucket_id r)) as Hle.
  { transitivity (held_by (rv_bucket_id r) id r).
    - unfold held_by, live. by rewrite String.eqb_refl, Hact.
    - apply msum_member; [|done]. intros i q Hq.
      destruct (inv_reservation _ Hinv _ _ Hq) as [_ Hq' _ _ _ _]. unfold held_by. destruct (_ && _); lia. }
  unfold release_reservation. rewrite (proj1 (hex_64_validate id _) Hid), Hcause. cbn [mbind result_bind].
  rewrite (proj2 (database_u64_Ok now _ now)) by done. cbn [mbind result_bind].
  rewrite (reservation_from_row_progress _ _ _ Hinv Hr). cbn [mbind result_bind ok_or record_from rr_state rr_amount rr_bucket_id].
  rewrite Hact. cbn [String.eqb Ascii.eqb Bool.eqb negb].
  rewrite (proj2 (database_u64_Ok (rv_amount r) _ (rv_amount r))) by (split; [done|lia]). cbn [mbind result_bind].
  unfold update_reservation_state. rewrite Hr, bool_decide_eq_true_2 by done.
  change (mkReservationRow _ _ _ _ _ _ _ _ _ _ _ _) with (row_closed "released" cause now r).
  rewrite closed_row_checked by (by left || done). cbn [mbind result_bind].
  unfold update_bucket_release. cbn [db_buckets set_reservations]. rewrite Hb.
  destruct (Z.leb_spec (rv_amount r) (bk_allocated_capacity row)); [|lia].
  rewrite released_bucket_checked by (lia || by apply (ck_buckets _ Hck)). cbn [mbind result_bind Z.eqb Pos.eqb negb].
  match goal with |- context [transition_ark_reserve_unit ?d _ _ _ _] =>
    destruct (transition_ark_progress d id "released" cause now) as [db' Hdb'] end.
  - by left.
  - apply set_utxos_checked, set_bucket_checked; [apply set_reservation_checked; [done|]|].
    + by apply closed_row_checked; [left|].
    + apply released_bucket_checked; [|by apply (ck_buckets _ Hck)]. lia.
  - cbn. intros u Hu. destruct (inv_ark _ Hinv _ _ Hu) as (r0 & Hr0 & Hs & _). by simplify_eq; rewrite Hs.
  - exists db'. by rewrite Hdb'.
Qed.
End progress.

(** ** Text without U+0000 *)

Lemma no_nul_iff s : no_nul s = true <-> 0 ∉ as_bytes s.
Proof. unfold no_nul, mem. by rewrite negb_true_iff, bool_decide_eq_false. Qed.

Lemma no_nul_app s t : no_nul s = true -> no_nul t = true -> no_nul (s +:+ t) = true.
Proof. rewrite !no_nul_iff, as_bytes_app, elem_of_app. tauto. Qed.

Lemma no_nul_forallb f s : f 0 = false -> forallb f (as_bytes s) = true -> no_nul s = true.
Proof.
  rewrite no_nul_iff, forallb_forall. intros Hf Hall H0. specialize (Hall 0).
  rewrite <- list_elem_of_In in Hall. rewrite Hf in Hall. by specialize (Hall H0).
Qed.

Lemma no_nul_to_string n : 0 <= n -> no_nul (to_string n) = true.
Proof.
  intros Hn. apply (no_nul_forallb is_ascii_digit); [done|].
  rewrite as_bytes_to_string by done. by apply decimal_bytes_digits.
Qed.

Lemma no_nul_hex value label : validate_hex value label = Ok tt -> no_nul value = true.
Proof.
  rewrite <- (hex_64_validate value label). unfold hex_64. intros [_ Hf]%andb_true_iff.
  by apply (no_nul_forallb hex_char).
Qed.

Lemma no_nul_identifier value label : validate_identifier value label = Ok tt -> no_nul value = true.
Proof.
  unfold validate_identifier. intros Hv. run_inv. apply orb_false_iff in Heqb as [_ Hb].
  destruct (as_bytes value) as [|b rest] eqn:Hbytes; [done|]. apply orb_false_iff in Hb as [Hb Hrest].
  apply no_nul_iff. rewrite Hbytes. intros [<-|H0]%elem_of_cons; [done|].
  by pose proof (existsb_none _ _ Hrest 0 H0).
Qed.

(** Every ASCII byte of a UTF-8 string is one of its characters. *)
Lemma utf8_ascii_char l cs b : utf8_chars l = Some cs -> b ∈ l -> b < 128 -> b ∈ cs.
Proof.
  revert cs. induction l as [l IH] using (induction_ltof1 _ (@length Z)); intros cs Hcs Hb Hlt.
  unfold ltof in IH.
  assert (forall l' c, (length l' < length l)%nat -> b ∈ l' ->
            (x ← utf8_chars l'; Some (c :: x)) = Some cs -> b ∈ cs) as Hstep.
  { intros l' c Hl Hin Hx. apply bind_Some in Hx as (x & Hx & [= <-]).
    apply elem_of_cons. right. by apply (IH l'). }
  destruct l as [|b0 l1]; [by apply elem_of_nil in Hb|]. cbn [utf8_chars] in Hcs.
  destruct (Z.ltb_spec b0 128).
  { apply elem_of_cons in Hb as [->|Hb]; [|eapply Hstep; [|done..]; cbn; lia].
    apply bind_Some in Hcs as (x & _ & [= <-]). apply list_elem_of_here. }
  assert (b ∈ l1) as Hb1 by (apply elem_of_cons in Hb as [->|Hb]; [lia|done]).
  assert (forall c l' , b ∈ c :: l' -> is_cont c = true -> b ∈ l') as Hcont.
  { intros c l' [->|Hc]%elem_of_cons Hcc; [|done]. unfold is_cont in Hcc. lia. }
  destruct l1 as [|b1 l2]; [done|].
  destruct (in_range 194 223 b0).
  { destruct (is_cont b1) eqn:H1; [|done]. eapply (Hstep l2); [cbn; lia|by eapply Hcont|done]. }
  destruct l2 as [|b2 l3]; [done|].
  assert (second3_ok b0 b1 = true \/ second4_ok b0 b1 = true -> is_cont b1 = true) as H2.
  { unfold second3_ok, second4_ok, is_cont, in_range. repeat destruct (_ =? _); lia. }
  destruct (in_range 224 239 b0).
  { destruct (second3_ok b0 b1) eqn:H3; [|done]. destruct (is_cont b2) eqn:H4; [|done].
    eapply (Hstep l3); [cbn; lia|eauto|exact Hcs]. }
  destruct l3 as [|b3 l4]; [done|]. destruct (_ && _) eqn:H5 in Hcs; [|done]. bool_to_prop.
  eapply (Hstep l4); [cbn; lia|eauto 10|done].
Qed.

Lemma no_nul_asset value :
  is_utf8 (as_bytes value) = true -> validate_asset value = Ok tt -> no_nul value = true.
Proof.
  unfold is_utf8, validate_asset, chars. rewrite bool_decide_eq_true. intros [cs Hcs] Hv. run_inv.
  rewrite Hcs in *. apply orb_false_iff in Heqb as [_ Hc]. apply no_nul_iff. intros H0.
  by pose proof (existsb_none _ _ Hc 0 (utf8_ascii_char _ _ 0 Hcs H0 ltac:(lia))).
Qed.

(** ** A repeated request is answered from the record *)

(** The types of the request: [u64] and [u32] fields, UTF-8 text. *)
Record request_typed (q : HardReservationRequest) : Prop := mkRequestTyped {
  qt_amount : 0 <= hr_amount q;
  qt_sequence : 0 <= hr_expected_allocation_sequence q;
  qt_created : 0 <= hr_created_at q;
  qt_vouts o : o ∈ hr_utxos q -> 0 <= op_vout o;
  qt_ark ark : hr_ark_reserve q = Some ark -> 0 <= op_vout (ar_vtxo ark);
  qt_asset : is_utf8 (as_bytes (hr_asset_id q)) = true;
}.

Lemma elem_sort o l : o ∈ sort_outpoints l <-> o ∈ l.
Proof. unfold sort_outpoints. by rewrite merge_sort_Permutation. Qed.

Lemma try_fold_units {E A} (f : A -> result E unit) l u :
  try_fold (fun _ x => f x) u l = Ok tt -> forall x, x ∈ l -> f x = Ok tt.
Proof.
  revert u. induction l as [|y l IH]; intros u Hf x Hx; [by apply elem_of_nil in Hx|]. cbn in Hf.
  apply bind_Ok in Hf as ([] & Hy & Hf). apply elem_of_cons in Hx as [->|Hx]; [done|by eapply IH].
Qed.

Record request_valid (q : HardReservationRequest) : Prop := mkRequestValid {
  qv_id : no_nul (hr_reservation_id q) = true;
  qv_bucket : no_nul (hr_bucket_id q) = true;
  qv_asset : no_nul (hr_asset_id q) = true;
  qv_expires : 0 <= hr_created_at q < hr_expires_at q;
  qv_outputs o : o ∈ hr_utxos q -> no_nul (op_txid o) = true;
  qv_ark ark : hr_ark_reserve q = Some ark ->
    no_nul (ar_protocol_family ark) = true /\ no_nul (ar_operator_identity_sha256 ark) = true
    /\ no_nul (op_txid (ar_vtxo ark)) = true /\ no_nul (ar_proof_sha256 ark) = true;
}.

Lemma validate_request_valid q :
  request_typed q -> validate_reservation_request q = Ok tt -> request_valid q.
Proof.
  intros Hty. unfold validate_reservation_request. intros Hv. run_inv. unit_results. bool_to_prop.
  constructor; eauto using no_nul_hex, no_nul_identifier, no_nul_asset, qt_asset.
  - pose proof (qt_created _ Hty). lia.
  - intros o Ho. eapply no_nul_hex.
    match goal with Hf : try_fold _ _ _ = Ok tt |- _ => apply (try_fold_units (fun o => validate_hex (op_txid o) _) _ _ Hf) end.
    by apply elem_sort.
  - intros ark Hark. rewrite Hark in Hv. run_inv. unit_results. bool_to_prop.
    split; [|eauto 10 using no_nul_hex]. unfold mem in *. bool_to_prop.
    match goal with Hm : ar_protocol_family ark ∈ _ |- _ => rewrite !elem_of_cons, elem_of_nil in Hm;
      by destruct Hm as [-> |[-> |[]]] end.
Qed.

Section replay.
Context `{Henv : ProviderEnv, Hcr : EventCrypto, Hpg : PgText} {Hlaws : ProviderEnvLaws}.

Lemma canonical_id_no_nul ark :
  0 <= op_vout (ar_vtxo ark) -> no_nul (ar_protocol_family ark) = true ->
  no_nul (ar_operator_identity_sha256 ark) = true -> no_nul (op_txid (ar_vtxo ark)) = true ->
  no_nul (canonical_id ark) = true.
Proof. intros. unfold canonical_id. repeat (apply no_nul_app; [done|]). by apply no_nul_to_string. Qed.

Definition plain_member (kv : string * Value) : bool := no_nul kv.1 && plain_json kv.2.

Lemma plain_object_insert name v l :
  plain_member (name, v) = true -> forallb plain_member l = true ->
  forallb plain_member (object_insert name v l) = true.
Proof.
  intros Hv. induction l as [|[k w] l IH]; cbn [object_insert forallb]; [by rewrite Hv|].
  rewrite andb_true_iff. intros [Hk Hl].
  assert (plain_member (k, v) = true) as Hkv.
  { unfold plain_member in *. apply andb_true_iff in Hv as [_ Hv], Hk as [Hk _]. cbn in *. by rewrite Hk, Hv. }
  destruct (String.compare name k); cbn [forallb]; rewrite ?Hv, ?Hk, ?Hkv; cbn [andb]; auto.
Qed.

Lemma plain_json_object members :
  forallb plain_member members = true -> plain_json (json_object members) = true.
Proof.
  unfold json_object. cbn. change (forallb _ ?l) with (forallb plain_member l).
  assert (forall l, forallb plain_member l = true -> forallb plain_member members = true ->
    forallb plain_member (fold_left (fun l kv => object_insert kv.1 kv.2 l) members l) = true) as Hg; [|by apply Hg].
  induction members as [|[k v] members IH]; intros l Hl Hm; [done|]. cbn in Hm |- *.
  apply andb_true_iff in Hm as [Hkv Hm]. apply IH; [|done]. by apply plain_object_insert.
Qed.

Lemma reserve_request_plain q sequence :
  request_typed q -> request_valid q -> 0 <= sequence ->
  plain_json (reserve_public_request_with_sequence q (sort_outpoints (hr_utxos q)) sequence) = true.
Proof.
  intros Hty [Hi Hb Ha He Ho Hk] Hs. apply plain_json_object. cbn [forallb]; unfold plain_member; cbn [fst snd plain_json].
  rewrite Hi, Hb, Ha, !no_nul_to_string by (done || apply (qt_amount _ Hty)).
  replace (forallb plain_json _) with true; [replace (plain_json _) with true; [done|]|]; symmetry.
  - destruct (hr_ark_reserve q) as [ark|] eqn:Hark; [|done]. destruct (Hk ark eq_refl) as (Hf & Hop & Ht & Hp).
    pose proof (canonical_id_no_nul ark (qt_ark _ Hty _ Hark) Hf Hop Ht) as Hc.
    apply plain_json_object. cbn [forallb]; unfold plain_member; cbn [fst snd plain_json]. by rewrite Hf, Hop, Ht, Hp, Hc.
  - apply forallb_forall. intros v Hv%list_elem_of_In. apply list_elem_of_fmap in Hv as (o & -> & Ho').
    rewrite elem_sort in Ho'. specialize (Ho o Ho'). apply plain_json_object.
    cbn [forallb]; unfold plain_member; cbn [fst snd plain_json]. by rewrite Ho.
Qed.

Lemma reserve_result_plain q sequence :
  request_valid q -> 0 <= sequence -> plain_json (reserve_public_result q sequence) = true.
Proof.
  intros [Hi _ _ _ _ _] Hs. apply plain_json_object. cbn [forallb]; unfold plain_member; cbn [fst snd plain_json].
  by rewrite Hi, no_nul_to_string.
Qed.

Section reserved.
Context (db db' : ProviderDb) (q : HardReservationRequest) (bucket : BucketRow).
Hypothesis Hinv : ledger_inv db.
Hypothesis Hty : request_typed q.
Hypothesis Hchk : reserve_checked q bucket db.
Hypothesis Hwr : reserve_written q (sort_outpoints (hr_utxos q))
                   (bk_allocation_sequence bucket + 1) bucket db db'.

Lemma written_ark_matches : ark_reserve_matches db' q = Ok true.
Proof.
  unfold ark_reserve_matches. pose proof (rw_ark _ _ _ _ _ _ Hwr) as Ha.
  destruct (hr_ark_reserve q) as [ark|] eqn:Hark.
  - destruct Ha as [_ ->]. rewrite lookup_insert_eq. cbn [ark_row_of ak_vout].
    rewrite (proj2 (u64_column_Ok _ _ _)) by (split; [done|by apply (qt_ark _ Hty)]). cbn.
    by rewrite !String.eqb_refl, Z.eqb_refl.
  - rewrite Ha. destruct (db_ark_units db !! hr_reservation_id q) as [u|] eqn:Hu; [|done].
    destruct (inv_ark _ Hinv _ _ Hu) as (r & Hr & _). pose proof (rw_new _ _ _ _ _ _ Hwr). congruence.
Qed.

Lemma written_effect_matches :
  exists e, db_effects db' !! hr_effect_id q = Some e
    /\ reserve_effect_matches e q (sort_outpoints (hr_utxos q)) (bk_allocation_sequence bucket + 1) = Ok true.
Proof.
  destruct (rw_effects _ _ _ _ _ _ Hwr) as (e & -> & [Es Eo Eh Er Est (bytes & Hbytes & Esha) Eres Eref]).
  exists e. rewrite lookup_insert_eq. split; [done|].
  pose proof (validate_request_valid _ Hty (rc_valid _ _ _ Hchk)) as Hval.
  pose proof (rc_sequence _ _ _ Hchk) as Hseq. pose proof (qt_sequence _ Hty) as Hq0.
  rewrite <- Hseq in *. unfold reserve_effect_matches. rewrite Hbytes. cbn [mbind result_bind].
  rewrite Es, Eo, Eh, Est, Esha, Eref, !String.eqb_refl, !bool_decide_eq_true_2; [done|done| |done|].
  - rewrite Eres. apply jsonb_plain. by apply reserve_result_plain.
  - destruct Er as [Hj| ->]; [|done]. rewrite jsonb_plain in Hj; [by simplify_eq|].
    by apply reserve_request_plain.
Qed.

Lemma written_replays : reserve db' q = Ok (ReservationReplay (record_of q), db').
Proof.
  pose proof (reserved_ledger_inv _ _ _ _ Hinv Hchk Hwr) as Hinv'.
  assert (db_reservations db' !! hr_reservation_id q = Some (row_of q (bk_allocation_sequence bucket + 1))) as Hrow.
  { rewrite (rw_reservations _ _ _ _ _ _ Hwr). apply lookup_insert_eq. }
  destruct written_effect_matches as (e & He & Hm). pose proof (rc_sequence _ _ _ Hchk) as Hseq.
  unfold reserve. rewrite (rc_valid _ _ _ Hchk). cbn [mbind result_bind].
  rewrite (reservation_from_row_progress _ _ _ Hinv' Hrow). cbn [mbind result_bind].
  unfold reserve_replay, replay_exact.
  assert (record_from (hr_reservation_id q) (row_of q (bk_allocation_sequence bucket + 1)) = record_of q) as ->.
  { unfold record_of, record_from. cbn. by rewrite Hseq. }
  replace (reservation_matches (record_of q) q) with true
    by (unfold reservation_matches; cbn; by rewrite !bool_decide_eq_true_2, !Z.eqb_refl).
  rewrite written_ark_matches. cbn [mbind result_bind]. rewrite He. cbn [record_of rr_allocation_sequence].
  by rewrite Hseq, Hm.
Qed.
End reserved.
End replay.

(** ** Giving back what was taken *)

(** An output up to the time it was last observed. *)
Definition forget_time (u : UtxoRow) : UtxoRow :=
  mkUtxoRow (ux_asset_id u) (ux_amount u) (ux_script_pubkey u) (ux_state u) (ux_reservation_id u)
    (ux_confirmations u) (ux_block_hash u) (ux_replacement_txid u) 0.

(** [db'] has the capacity and the outputs of [db]. *)
Record capacity_restored (b : string) (db db' : ProviderDb) : Prop := mkRestored {
  cr_available b' : available_capacity db' b' = available_capacity db b';
  cr_sequence row : db_buckets db !! b = Some row -> exists row', db_buckets db' !! b = Some row'
    /\ bk_allocation_sequence row' = bk_allocation_sequence row + 1;
  cr_outputs k : forget_time <$> db_utxos db' !! k = forget_time <$> db_utxos db !! k;
}.

Section restore.
Context `{ProviderEnv, EventCrypto, PgText}.

Lemma release_taken db db1 q bucket cause now db2 :
  ledger_inv db -> reserve_checked q bucket db ->
  reserve_written q (sort_outpoints (hr_utxos q)) (bk_allocation_sequence bucket + 1) bucket db db1 ->
  released (hr_reservation_id q) cause now db1 db2 -> capacity_restored (hr_bucket_id q) db db2.
Proof.
  intros Hinv Hchk Hwr [(r & brow & Hcl & Hb & _ & Hbs) Hus].
  destruct (cl_active _ _ _ _ _ _ _ Hcl) as [Hr _].
  assert (r = row_of q (bk_allocation_sequence bucket + 1)) as ->.
  { rewrite (rw_reservations _ _ _ _ _ _ Hwr), lookup_insert_eq in Hr. congruence. }
  cbn [row_of rv_bucket_id rv_amount] in *. pose proof (rc_bucket _ _ _ Hchk) as Hb0.
  rewrite (rw_buckets _ _ _ _ _ _ Hwr) in Hb, Hbs. rewrite lookup_insert_eq in Hb. injection Hb as <-.
  constructor.
  - intros b'. unfold available_capacity. destruct (validate_identifier b' _); [|done]. cbn [mbind result_bind].
    rewrite Hbs. destruct (decide (b' = hr_bucket_id q)) as [->|Hne].
    + rewrite lookup_insert_eq, Hb0. cbn. f_equal. lia.
    + by rewrite !lookup_insert_ne by done.
  - intros row Hrow. rewrite Hbs, lookup_insert_eq. simplify_eq. eexists. split; [done|]. done.
  - intros k. rewrite Hus, lookup_fmap. destruct (rw_utxos _ _ _ _ _ _ Hwr) as [Hin Hout _].
    destruct (decide (k ∈ outpoint_key <$> sort_outpoints (hr_utxos q))) as [Hk|Hk].
    + destruct (Hin k Hk) as (u & Hu & [Hst Hre] & ->). rewrite Hu. cbn. f_equal.
      unfold release_row. cbn. rewrite bool_decide_eq_true_2 by done. unfold forget_time. cbn. by rewrite Hst, Hre.
    + rewrite Hout by done. destruct (db_utxos db !! k) as [u|] eqn:Hu; [|done]. cbn. f_equal.
      unfold release_row. destruct (bool_decide _ && bool_decide _) eqn:Hg; [|done]. bool_to_prop.
      destruct (inv_utxo _ Hinv _ _ Hu ltac:(done)) as (id & r0 & Hid & Hr0 & _).
      pose proof (rw_new _ _ _ _ _ _ Hwr). congruence.
Qed.

(** ** An output bound to a reservation it no longer has *)

Definition bound (u : UtxoRow) : Prop :=
  ux_state u <> "reserved"%string /\ is_Some (ux_reservation_id u).

Lemma bound_step db op k u :
  ledger_inv db -> db_utxos db !! k = Some u -> bound u ->
  exists u', db_utxos (ledger_step db op) !! k = Some u' /\ bound u'
    /\ ux_reservation_id u' = ux_reservation_id u.
Proof.
  intros Hinv Hu Hb. pose proof Hb as [Hst [id Hid]].
  assert (forall db', db_utxos db' = db_utxos db -> exists u', db_utxos db' !! k = Some u' /\ bound u'
    /\ ux_reservation_id u' = ux_reservation_id u) as Hsame by (intros db' ->; eauto).
  destruct op; cbn; unfold committed;
    match goal with |- context [match ?r with Ok _ => _ | Err _ => _ end] =>
      destruct r as [[a db']|e] eqn:Hop; [|by apply Hsame] end.
  - apply Hsame. by eapply fr_utxos, persist_effect_request_frame.
  - apply Hsame. by eapply fr_utxos, complete_effect_frame.
  - apply Hsame. by eapply fr_utxos, mark_effect_unresolved_frame.
  - apply Hsame. unfold configure_capacity_bucket, upsert_bucket in Hop. tx_inv.
    destruct (db_buckets db !! bucket_id); tx_inv; [destruct (_ && _); by tx_inv|done].
  - apply observe_utxo_spec in Hop as (new & -> & Hsome & _). cbn.
    destruct (decide (k = (op_txid (uo_outpoint observation), op_vout (uo_outpoint observation)))) as [->|Hne];
      [|rewrite lookup_insert_ne by done; eauto].
    rewrite lookup_insert_eq. destruct (Hsome u Hu) as (Hr & _ & Hs). exists new. split; [done|].
    split; [|done]. split; [by intros ?%Hs|]. rewrite Hr. eauto.
  - destruct (reserve_inv _ _ _ _ Hop) as [[-> _]|(bucket & _ & _ & Hwr)]; [by apply Hsame|].
    destruct (rw_utxos _ _ _ _ _ _ Hwr) as [Hin Hout _].
    destruct (decide (k ∈ outpoint_key <$> sort_outpoints (hr_utxos request))) as [Hk|Hk].
    + destruct (Hin k Hk) as (v & Hv & [_ Hnone] & _). congruence.
    + rewrite Hout by done. eauto.
  - destruct (release_reservation_inv _ _ _ _ _ _ Hinv Hop) as [[-> _]|[_ [_ Hus]]]; [by apply Hsame|].
    rewrite Hus, lookup_fmap, Hu. cbn. eexists. split; [done|]. unfold release_row.
    rewrite (bool_decide_eq_false_2 (ux_state u = _)), andb_false_r by done. done.
  - destruct (mark_reservation_unresolved_inv _ _ _ _ _ _ _ Hinv Hop) as [->|(_ & _ & ->)]; by apply Hsame.
Qed.
End restore.
