(* ===== verification/LedgerClaims.v ===== *)
(** * LedgerClaims: the theorems of the provider's ledger

    The statements of [LedgerCorrect], each with a history that satisfies
    its hypotheses. *)

From S2P Require Import Prelude Text Utf8 Regroup Hex Event Filter Expanded Json Custody ProviderDb Ledger Reserve MapSum.
From S2P Require Import LedgerInv LedgerChecks LedgerCorrect.

Lemma not_released_blocking u :
  check_row (ark_checks u) = Ok tt -> ak_state u <> "released"%string -> ark_blocking u = true.
Proof.
  intros Hc Hne. eapply (check_row_elem _ "provider_ark_reserve_unit_state") in Hc; [|check_elem].
  unfold ark_blocking, mem in *. bool_to_prop. apply bool_decide_eq_true.
  rewrite !elem_of_cons, elem_of_nil in *. tauto.
Qed.

Section claims.
Context `{ProviderEnv, EventCrypto, PgText}.

(** C2: after any history of operations a bucket's allocated capacity is the
    sum of the reservations on it that are active or unresolved, it is at most
    the bucket's total, and the bucket's sequence is the number of
    reservations ever made on it, which carry distinct sequence numbers
    within it. *)
Theorem capacity_conserved ops b row :
  db_buckets (ledger_run ops) !! b = Some row ->
  let rs := db_reservations (ledger_run ops) in
  bk_allocated_capacity row
    = msum (fun _ r => if String.eqb (rv_bucket_id r) b && live r then rv_amount r else 0) rs
  /\ bk_allocated_capacity row <= bk_total_capacity row <= I64_MAX
  /\ bk_allocation_sequence row = msum (fun _ r => if String.eqb (rv_bucket_id r) b then 1 else 0) rs
  /\ forall id1 id2 r1 r2, rs !! id1 = Some r1 -> rs !! id2 = Some r2 ->
       rv_bucket_id r1 = b -> rv_bucket_id r2 = b ->
       1 <= rv_allocation_sequence r1 <= bk_allocation_sequence row
       /\ (rv_allocation_sequence r1 = rv_allocation_sequence r2 -> id1 = id2).
Proof.
  intros Hb rs. pose proof (ledger_run_inv ops) as Hinv. destruct (inv_bucket _ Hinv _ _ Hb) as [Ha Hs Ht].
  split; [done|]. split; [done|]. split; [done|]. intros id1 id2 r1 r2 Hr1 Hr2 Hb1 Hb2.
  destruct (inv_reservation _ Hinv id1 r1 Hr1) as [(row' & Hb' & _ & Hle) _ Hpos _ _ _].
  assert (row' = row) as -> by congruence. split; [lia|].
  intros Hq. eapply (inv_sequence _ Hinv); eauto. congruence.
Qed.

(** C3: after any history a reserved output is held by a live reservation of
    its own asset, no later reservation can take it, and no Ark unit is held
    by two reservations. *)
Theorem holders_exclusive ops :
  let db := ledger_run ops in
  (forall k u, db_utxos db !! k = Some u -> ux_state u = "reserved"%string ->
     (exists id r, ux_reservation_id u = Some id /\ db_reservations db !! id = Some r
        /\ rv_state r <> "released"%string /\ rv_asset_id r = ux_asset_id u)
     /\ forall q r db', reserve db q = Ok (Reserved r, db') -> k ∉ outpoint_key <$> hr_utxos q)
  /\ (forall id1 id2 u1 u2, db_ark_units db !! id1 = Some u1 -> db_ark_units db !! id2 = Some u2 ->
        ak_state u1 <> "released"%string -> ak_state u2 <> "released"%string ->
        ak_reserve_unit u1 = ak_reserve_unit u2 -> id1 = id2).
Proof.
  intros db. pose proof (ledger_run_inv ops) as Hinv. pose proof (ledger_run_checked ops) as Hck. split.
  - intros k u Hk Hres. split.
    + destruct (inv_utxo _ Hinv _ _ Hk Hres) as (id & r & Hid & Hr & Hl & Ha). exists id, r.
      split; [done|]. split; [done|]. split; [|done]. unfold live in Hl. by apply negb_true_iff, String.eqb_neq in Hl.
    + intros q r db' [[_ Hno]|(bucket & Hchk & _ & _)]%reserve_inv; [by destruct (Hno r)|].
      destruct (rc_outputs _ _ _ Hchk) as (us & Hus & _). intros (o & -> & Ho)%list_elem_of_fmap.
      apply elem_sort, list_elem_of_lookup in Ho as [i Hi].
      destruct (Forall2_lookup_l _ _ _ _ _ Hus Hi) as (w & _ & Hw & [Hst _] & _). fold db in Hk. congruence.
  - intros id1 id2 u1 u2 Hu1 Hu2 Hs1 Hs2. eapply (inv_ark_unique _ Hinv); eauto;
      eapply not_released_blocking; eauto; by eapply ck_ark.
Qed.

(** In every reachable state an active reservation can be released: its
    amount becomes available in its bucket again and none of its outputs stays
    reserved. *)
Theorem active_releasable ops id r cause now :
  let db := ledger_run ops in
  db_reservations db !! id = Some r -> rv_state r = "active"%string ->
  validate_identifier cause "release cause" = Ok tt -> now <= I64_MAX ->
  exists db' row row', release_reservation db id cause now = Ok (Stored, db')
    /\ db_buckets db !! rv_bucket_id r = Some row /\ db_buckets db' !! rv_bucket_id r = Some row'
    /\ bk_total_capacity row' - bk_allocated_capacity row'
       = bk_total_capacity row - bk_allocated_capacity row + rv_amount r
    /\ forall k u, db_utxos db' !! k = Some u -> ux_reservation_id u = Some id ->
         ux_state u <> "reserved"%string.
Proof.
  intros db Hr Hact Hcause Hnow. pose proof (ledger_run_inv ops) as Hinv.
  destruct (release_progress _ _ _ _ _ Hinv (ledger_run_checked ops) Hr Hact Hcause Hnow) as [db' Hrel].
  destruct (release_reservation_inv _ _ _ _ _ _ Hinv Hrel) as [[_ ?]|[_ [(r' & row & Hcl & Hb & _ & Hbs) Hus]]]; [done|].
  destruct (cl_active _ _ _ _ _ _ _ Hcl) as [Hr' _]. fold db in Hr'. simplify_eq.
  exists db', row. eexists. split; [done|]. split; [done|]. rewrite Hbs, lookup_insert_eq.
  split; [done|]. split; [cbn; lia|]. intros k u. rewrite Hus, lookup_fmap.
  intros (u0 & Hu0 & ->)%fmap_Some. unfold release_row. destruct (_ && _) eqn:Hg; [done|].
  intros Hid Hst. rewrite Hid, Hst, !bool_decide_eq_true_2 in Hg by done. done.
Qed.

(** A reservation followed by its release gives back what it took:
    every bucket has the capacity it had, only the allocation sequence has
    advanced, and every output is as it was up to the time of observation. *)
Theorem release_restores ops q r db1 cause now :
  let db := ledger_run ops in
  reserve db q = Ok (Reserved r, db1) ->
  validate_identifier cause "release cause" = Ok tt -> now <= I64_MAX ->
  exists db2, release_reservation db1 (hr_reservation_id q) cause now = Ok (Stored, db2)
    /\ capacity_restored (hr_bucket_id q) db db2.
Proof.
  intros db Hres Hcause Hnow. pose proof (ledger_run_inv ops) as Hinv. pose proof (ledger_run_checked ops) as Hck.
  destruct (reserve_inv _ _ _ _ Hres) as [[_ Hno]|(bucket & Hchk & _ & Hwr)]; [by destruct (Hno r)|].
  pose proof (reserved_ledger_inv _ _ _ _ Hinv Hchk Hwr) as Hinv1.
  pose proof (reserve_checked_step _ _ _ _ Hck Hres) as Hck1.
  destruct (release_progress db1 (hr_reservation_id q) (row_of q (bk_allocation_sequence bucket + 1)) cause now)
    as [db2 Hrel]; try done.
  { rewrite (rw_reservations _ _ _ _ _ _ Hwr). apply lookup_insert_eq. }
  exists db2. split; [done|].
  destruct (release_reservation_inv _ _ _ _ _ _ Hinv1 Hrel) as [[_ ?]|[_ Hr2]]; [done|]. by eapply release_taken.
Qed.

(** C30: an output that was reserved, then observed in another state, keeps
    its reservation for good: no operation clears it.  Once it is seen
    available again the query for available outputs selects it, and every
    answer that its limit does not cut short lists it, while every
    reservation that names it is refused. *)
Theorem bound_output_lost ops ops' k u :
  db_utxos (ledger_run ops) !! k = Some u -> ux_state u <> "reserved"%string ->
  is_Some (ux_reservation_id u) ->
  let db := ledger_run (ops ++ ops') in
  exists u', db_utxos db !! k = Some u' /\ ux_reservation_id u' = ux_reservation_id u
    /\ (forall asset scripts minimum limit, offered asset scripts minimum u' ->
          let rows := select_available_utxos db asset minimum scripts limit in
          ((length rows < Z.to_nat limit)%nat -> (k, u') ∈ rows)
          /\ forall l, available_utxos db asset scripts minimum limit = Ok l -> len l < limit ->
               exists o, o ∈ l /\ stored_as k u' o)
    /\ forall q r db', reserve db q = Ok (Reserved r, db') -> k ∉ outpoint_key <$> hr_utxos q.
Proof.
  intros Hu Hst Hre db.
  assert (exists u', db_utxos db !! k = Some u' /\ bound u' /\ ux_reservation_id u' = ux_reservation_id u)
    as (u' & Hu' & [_ Hre'] & Heq).
  { subst db. unfold ledger_run in *. rewrite fold_left_app. fold (ledger_run ops) in *.
    pose proof (ledger_run_inv ops) as Hinv. revert Hu Hinv. generalize (ledger_run ops).
    assert (Hb : bound u) by done. clear Hst Hre. revert u Hb.
    induction ops' as [|op ops' IH]; intros u Hb db Hu Hinv; [by exists u|]. cbn.
    destruct (bound_step db op k u Hinv Hu Hb) as (u1 & Hu1 & Hb1 & <-).
    apply IH; [done|done|]. by apply ledger_step_inv. }
  exists u'. split; [done|]. split; [done|]. split.
  { intros asset scripts minimum limit Hof rows. split.
    - by apply (select_spec db asset scripts minimum limit).
    - intros l Hl Hlen. apply available_spec in Hl as (_ & _ & _ & Hall); [by apply Hall|unfold len in Hlen; lia]. }
  intros q r db' [[_ Hno]|(bucket & Hchk & _ & _)]%reserve_inv; [by destruct (Hno r)|].
  destruct (rc_outputs _ _ _ Hchk) as (us & Hus & _). intros (o & -> & Ho)%list_elem_of_fmap.
  apply elem_sort, list_elem_of_lookup in Ho as [i Hi].
  destruct (Forall2_lookup_l _ _ _ _ _ Hus Hi) as (w & _ & Hw & [_ Hnone] & _).
  destruct Hre' as [x Hx]. congruence.
Qed.

(** C31: an effect marked unresolved, which [complete_effect] refuses to
    complete, is completed by the reservation it names. *)
Theorem unresolved_effect_completed db q e r db' :
  db_effects db !! hr_effect_id q = Some e -> ef_state e = "unresolved"%string ->
  reserve db q = Ok (Reserved r, db') ->
  (forall result x, es_effect_id result = hr_effect_id q -> complete_effect db result <> Ok x)
  /\ exists e', db_effects db' !! hr_effect_id q = Some e' /\ ef_state e' = "applied"%string.
Proof.
  intros He Hst Hres. split.
  - intros result x Hid Hc. unfold complete_effect in Hc. run_inv.
    match goal with Hx : db_effects db !! es_effect_id result = Some _ |- _ => rewrite Hid, He in Hx; injection Hx as <- end.
    by rewrite Hst in Hc.
  - destruct (reserve_inv _ _ _ _ Hres) as [[_ Hno]|(bucket & _ & _ & Hwr)]; [by destruct (Hno r)|].
    destruct (rw_effects _ _ _ _ _ _ Hwr) as (e' & -> & Happ). exists e'. rewrite lookup_insert_eq.
    split; [done|]. apply Happ.
Qed.
End claims.

(** A reservation request sent again is answered from the record: the
    same reservation, and nothing written. *)
Theorem reserve_idempotent `{Henv : ProviderEnv, Hcr : EventCrypto, Hpg : PgText} {Hlaws : ProviderEnvLaws}
    ops q r db' :
  request_typed q -> reserve (ledger_run ops) q = Ok (Reserved r, db') ->
  reserve db' q = Ok (ReservationReplay r, db').
Proof.
  intros Hty Hres. pose proof (ledger_run_inv ops) as Hinv.
  destruct (reserve_inv _ _ _ _ Hres) as [[_ Hno]|(bucket & Hchk & [= ->] & Hwr)]; [by destruct (Hno r)|].
  by eapply written_replays.
Qed.

(** ** A history *)

#[local] Existing Instances toy_env toy_crypto toy_pg.

Definition toy_output : OutPoint := mkOutPoint (toy_hex 97) 0.
Definition toy_seen (state : string) (at_ : Z) : UtxoObservation :=
  mkUtxo toy_output "swp:1:btc" 600 "0014" state 1 None None at_.
Definition toy_ark : ArkReserveUnit := mkArkReserveUnit "bark" (toy_hex 98) (mkOutPoint (toy_hex 99) 1) (toy_hex 100).
Definition toy_request : HardReservationRequest :=
  mkReservationRequest (toy_hex 49) (toy_hex 50) (toy_hex 51) "ln" "swp:1:btc" 500 (toy_hex 52) 1 100
    [toy_output] (Some toy_ark) 10.
Definition toy_setup : list LedgerOp :=
  [OpConfigureBucket "ln" "swp:1:btc" 1000 1; OpObserveUtxo (toy_seen "available" 2)].
Definition toy_effect : PublicEffectRequest :=
  mkEffectRequest (toy_hex 50) (toy_hex 51) "reserve" (toy_hex 52)
    (reserve_public_request toy_request [toy_output]) 5.

Definition toy_reserved : list LedgerOp := toy_setup ++ [OpReserve toy_request].

Definition is_reserved (o : result ProviderStoreError (ReservationOutcome * ProviderDb)) : bool :=
  match o with Ok (Reserved _, _) => true | _ => false end.

Lemma is_reserved_Ok o : is_reserved o = true -> exists r db, o = Ok (Reserved r, db).
Proof. destruct o as [[[] db]|]; intros; try done. eauto. Qed.

Lemma toy_reserve_runs : is_reserved (reserve (ledger_run toy_setup) toy_request) = true.
Proof. vm_compute. reflexivity. Qed.

Lemma capacity_conserved_witness :
  exists row, db_buckets (ledger_run toy_reserved) !! "ln"%string = Some row
    /\ bk_allocated_capacity row = 500 /\ bk_allocated_capacity row <= bk_total_capacity row.
Proof.
  destruct (db_buckets (ledger_run toy_reserved) !! "ln"%string) as [row|] eqn:Hb; [|vm_compute in Hb; done].
  exists row. destruct (capacity_conserved toy_reserved _ _ Hb) as (_ & Hle & _).
  split; [done|]. split; [|lia]. vm_compute in Hb. by injection Hb as <-.
Defined.

Lemma holders_exclusive_witness :
  exists u id, db_utxos (ledger_run toy_reserved) !! outpoint_key toy_output = Some u
    /\ ux_reservation_id u = Some id /\ is_Some (db_reservations (ledger_run toy_reserved) !! id).
Proof.
  destruct (db_utxos (ledger_run toy_reserved) !! outpoint_key toy_output) as [u|] eqn:Hu; [|vm_compute in Hu; done].
  assert (ux_state u = "reserved"%string) as Hs by (vm_compute in Hu; by injection Hu as <-).
  destruct (proj1 (holders_exclusive toy_reserved) _ _ Hu Hs) as [(id & r & Hid & Hr & _) _].
  exists u, id. split; [done|]. split; [done|]. by exists r.
Defined.

Lemma active_releasable_witness :
  exists db', release_reservation (ledger_run toy_reserved) (toy_hex 49) "expired" 20 = Ok (Stored, db').
Proof.
  destruct (db_reservations (ledger_run toy_reserved) !! toy_hex 49) as [r|] eqn:Hr; [|vm_compute in Hr; done].
  destruct (active_releasable toy_reserved _ r "expired" 20 Hr) as (db' & _ & _ & Hrel & _).
  - vm_compute in Hr. by injection Hr as <-.
  - vm_compute. reflexivity.
  - vm_compute. discriminate.
  - by exists db'.
Defined.

Lemma release_restores_witness :
  exists r db1 db2, reserve (ledger_run toy_setup) toy_request = Ok (Reserved r, db1)
    /\ release_reservation db1 (toy_hex 49) "expired" 20 = Ok (Stored, db2)
    /\ available_capacity db2 "ln" = available_capacity (ledger_run toy_setup) "ln".
Proof.
  destruct (is_reserved_Ok _ toy_reserve_runs) as (r & db1 & Hres).
  destruct (release_restores toy_setup toy_request r db1 "expired" 20 Hres) as (db2 & Hrel & Hcap).
  - vm_compute. reflexivity.
  - vm_compute. discriminate.
  - exists r, db1, db2. split; [done|]. split; [done|]. apply Hcap.
Defined.

(** The output is reserved, seen spent, released, and seen available again:
    it is offered, and bound. *)
Definition toy_lost : list LedgerOp :=
  toy_reserved ++ [OpObserveUtxo (toy_seen "spent" 12); OpRelease (toy_hex 49) "expired" 20;
                   OpObserveUtxo (toy_seen "available" 30)].

Lemma toy_lost_answer :
  exists l, available_utxos (ledger_run toy_lost) "swp:1:btc" ["0014"]%string 0 2 = Ok l /\ len l < 2.
Proof.
  assert (match available_utxos (ledger_run toy_lost) "swp:1:btc" ["0014"]%string 0 2 with
          | Ok l => len l <? 2 | Err _ => false end = true) as Hl by (vm_compute; reflexivity).
  destruct (available_utxos _ _ _ _ _) as [l|]; [|done]. exists l. split; [done|]. by apply Z.ltb_lt.
Qed.

Lemma toy_lost_row :
  exists u, db_utxos (ledger_run toy_lost) !! outpoint_key toy_output = Some u
    /\ is_Some (ux_reservation_id u) /\ offered "swp:1:btc" ["0014"]%string 0 u.
Proof.
  assert (match db_utxos (ledger_run toy_lost) !! outpoint_key toy_output with
          | Some u => bool_decide (is_Some (ux_reservation_id u) /\ offered "swp:1:btc" ["0014"]%string 0 u)
          | None => false end = true) as Hu by (vm_compute; reflexivity).
  destruct (_ !! _) as [u|]; [|done]. exists u. split; [done|]. exact (bool_decide_eq_true_1 _ Hu).
Qed.

Lemma bound_output_lost_witness :
  (exists o l, available_utxos (ledger_run toy_lost) "swp:1:btc" ["0014"]%string 0 2 = Ok l
     /\ o ∈ l /\ observed_key o = outpoint_key toy_output)
  /\ rv_state <$> db_reservations (ledger_run toy_lost) !! toy_hex 49 = Some "released"%string
  /\ forall q r db', reserve (ledger_run toy_lost) q = Ok (Reserved r, db') ->
       outpoint_key toy_output ∉ outpoint_key <$> hr_utxos q.
Proof.
  destruct toy_lost_row as (u & Hu & Hre & Hof). destruct toy_lost_answer as (l & Hl & Hlen).
  destruct (bound_output_lost toy_lost [] _ u Hu) as (u' & Hu' & _ & Hlisted & Hno); [|done|].
  - destruct Hof as (_ & -> & _). discriminate.
  - rewrite app_nil_r in Hu', Hlisted, Hno. split; [|split; [vm_compute; reflexivity|exact Hno]].
    rewrite Hu in Hu'. injection Hu' as <-.
    destruct (proj2 (Hlisted _ _ _ 2 Hof) l Hl Hlen) as (o & Ho & Hkey & _).
    exists o, l. split; [exact Hl|]. split; [exact Ho|exact Hkey].
Defined.

Definition toy_unresolved : list LedgerOp :=
  toy_setup ++ [OpPersistEffect toy_effect; OpEffectUnresolved (toy_hex 50) "timeout" 8].

Lemma unresolved_effect_completed_witness :
  exists r db' e', reserve (ledger_run toy_unresolved) toy_request = Ok (Reserved r, db')
    /\ ef_state <$> db_effects (ledger_run toy_unresolved) !! toy_hex 50 = Some "unresolved"%string
    /\ db_effects db' !! toy_hex 50 = Some e' /\ ef_state e' = "applied"%string.
Proof.
  assert (is_reserved (reserve (ledger_run toy_unresolved) toy_request) = true) as Hr by (vm_compute; reflexivity).
  destruct (is_reserved_Ok _ Hr) as (r & db' & Hres).
  destruct (db_effects (ledger_run toy_unresolved) !! toy_hex 50) as [e|] eqn:He; [|vm_compute in He; done].
  assert (ef_state e = "unresolved"%string) as Hse by (vm_compute in He; by injection He as <-).
  destruct (unresolved_effect_completed _ toy_request e r db' He Hse Hres) as [_ (e' & He' & Hs)].
  exists r, db', e'. split; [exact Hres|]. split; [exact (f_equal Some Hse)|].
  split; [exact He'|exact Hs].
Defined.

Lemma reserve_idempotent_witness :
  exists r db', reserve (ledger_run toy_setup) toy_request = Ok (Reserved r, db')
    /\ reserve db' toy_request = Ok (ReservationReplay r, db').
Proof.
  destruct (is_reserved_Ok _ toy_reserve_runs) as (r & db' & Hres). exists r, db'. split; [done|].
  apply (@reserve_idempotent toy_env toy_crypto toy_pg toy_env_laws toy_setup); [|done].
  constructor; try (vm_compute; congruence).
  - intros o ->%list_elem_of_singleton. apply Z.le_refl.
  - intros ark [= <-]. apply Z.le_0_1.
Defined.
