(* ===== verification/Watch.v ===== *)
(** * Watch: exit packages, watch jobs and alerts of the provider

    The remaining operations of [ProviderStore]
    ([immortal-provider/src/store.rs]): exit packages and the states they go
    through, session dispositions, the watch jobs the watchtower leases and
    reports on, alerts and the health counts. *)

From S2P Require Import Prelude Text Utf8 Regroup Hex Event Filter Expanded Json Custody ProviderDb Ledger.

(** ** Exit packages *)

Record PublicExitPackage : Type := mkExitPackage {
  pk_package_id : string;
  pk_session_id : string;
  pk_order_id : string;
  pk_leg_id : string;
  pk_path : string;
  pk_package_sha256 : string;
  pk_public_package : Value;
  pk_created_at : Z;
}.

Definition EXIT_STATES : list string :=
  ["prepared"; "broadcast"; "confirmed"; "reorged"; "replaced"; "unresolved"]%string.

Definition EXIT_TRANSITIONS : list (string * string) :=
  [("prepared", "broadcast"); ("prepared", "unresolved");
   ("broadcast", "confirmed"); ("broadcast", "reorged"); ("broadcast", "replaced"); ("broadcast", "unresolved");
   ("confirmed", "reorged"); ("confirmed", "replaced"); ("confirmed", "unresolved");
   ("reorged", "broadcast"); ("reorged", "replaced"); ("reorged", "unresolved");
   ("replaced", "broadcast"); ("replaced", "unresolved")]%string.

Definition valid_exit_transition (current next : string) : bool := mem (current, next) EXIT_TRANSITIONS.

Section watch.
Context `{ProviderEnv, EventCrypto, PgText}.

Definition validate_exit_package (package : PublicExitPackage) : result ProviderStoreError unit :=
  _ ← validate_hex (pk_package_id package) "exit package ID";
  _ ← validate_hex (pk_session_id package) "exit package session";
  _ ← validate_hex (pk_order_id package) "exit package order";
  _ ← validate_identifier (pk_leg_id package) "exit package leg";
  if negb (mem (pk_path package) ["claim"; "refund"]%string) then
    Err (InvalidInput "exit package path must be claim or refund")
  else
  _ ← validate_hex (pk_package_sha256 package) "exit package digest";
  validate_public_json (pk_public_package package).

Definition exit_checks (id : string) (r : ExitPackageRow) : list (string * bool) :=
  [constraint "provider_exit_package_id" (hex_64 id);
   constraint "provider_exit_package_session" (hex_64 (xp_session_id r));
   constraint "provider_exit_package_order" (hex_64 (xp_order_id r));
   constraint "provider_exit_package_leg" (sql_identifier lower_or_digit 63 (xp_leg_id r));
   constraint "provider_exit_package_path" (mem (xp_path r) ["claim"; "refund"]%string);
   constraint "provider_exit_package_digest" (hex_64 (xp_package_sha256 r));
   constraint "provider_exit_package_state" (mem (xp_state r) EXIT_STATES);
   constraint "provider_exit_package_time"
     ((0 <=? xp_created_at r) && (xp_created_at r <=? xp_updated_at r));
   constraint "provider_exit_package_public" (provider_public_json_safe (xp_public_package r))].

(** [UPSERT_EXIT_PACKAGE_SQL]: the first write stays. *)
Definition upsert_exit_package (db : ProviderDb) (package : PublicExitPackage) (created_at : Z)
    : result ProviderStoreError (Z * ProviderDb) :=
  public_package ← store_json (pk_public_package package);
  let row := mkExitPackageRow (pk_session_id package) (pk_order_id package) (pk_leg_id package)
               (pk_path package) (pk_package_sha256 package) public_package "prepared"
               created_at created_at in
  _ ← check_row (exit_checks (pk_package_id package) row);
  match db_exit_packages db !! pk_package_id package with
  | Some _ => Ok (0, db)
  | None => Ok (1, set_exit_packages <[pk_package_id package := row]> db)
  end.

Definition persist_exit_package (db : ProviderDb) (package : PublicExitPackage)
    : result ProviderStoreError (StoreWriteOutcome * ProviderDb) :=
  _ ← validate_exit_package package;
  created_at ← database_u64 (pk_created_at package) "exit package time";
  '(inserted, db) ← upsert_exit_package db package created_at;
  if inserted =? 1 then Ok (Stored, db)
  else
    row ← query_one (db_exit_packages db !! pk_package_id package);
    let values_match :=
      String.eqb (xp_session_id row) (pk_session_id package)
      && String.eqb (xp_order_id row) (pk_order_id package)
      && String.eqb (xp_leg_id row) (pk_leg_id package)
      && String.eqb (xp_path row) (pk_path package)
      && String.eqb (xp_package_sha256 row) (pk_package_sha256 package)
      && bool_decide (xp_public_package row = pk_public_package package) in
    outcome ← replay_or_conflict values_match "exit package";
    Ok (outcome, db).

(** [UPDATE_EXIT_PACKAGE_STATE_SQL]. *)
Definition update_exit_package_state (db : ProviderDb) (id state : string) (now : Z)
    : result ProviderStoreError (Z * ProviderDb) :=
  match db_exit_packages db !! id with
  | None => Ok (0, db)
  | Some r =>
      let row := mkExitPackageRow (xp_session_id r) (xp_order_id r) (xp_leg_id r) (xp_path r)
                   (xp_package_sha256 r) (xp_public_package r) state (xp_created_at r)
                   (Z.max (xp_updated_at r) now) in
      _ ← check_row (exit_checks id row);
      Ok (1, set_exit_packages <[id := row]> db)
  end.

Definition set_exit_package_state (db : ProviderDb) (package_id state : string) (now : Z)
    : result ProviderStoreError (StoreWriteOutcome * ProviderDb) :=
  _ ← validate_hex package_id "exit package ID";
  if negb (mem state EXIT_STATES) then Err (InvalidInput "exit package state is invalid")
  else
  now ← database_u64 now "exit package update time";
  row ← ok_or (NotFound package_id) (db_exit_packages db !! package_id);
  if String.eqb (xp_state row) state then Ok (Replay, db)
  else if negb (valid_exit_transition (xp_state row) state) then
    Err (Conflict ("exit package transition " +:+ xp_state row +:+ " -> " +:+ state +:+ " is invalid"))
  else
  '(rows, db) ← update_exit_package_state db package_id state now;
  _ ← require_updated rows package_id;
  Ok (Stored, db).

Definition exit_package (db : ProviderDb) (package_id : string)
    : result ProviderStoreError (option (PublicExitPackage * string)) :=
  _ ← validate_hex package_id "exit package ID";
  match db_exit_packages db !! package_id with
  | None => Ok None
  | Some row =>
      created_at ← u64_column (xp_created_at row) "exit package time is negative";
      Ok (Some (mkExitPackage package_id (xp_session_id row) (xp_order_id row) (xp_leg_id row)
                  (xp_path row) (xp_package_sha256 row) (xp_public_package row) created_at,
                xp_state row))
  end.

(** ** Session dispositions *)

Definition dispose_session (db : ProviderDb) (session_id reason_code : string) (disposed_at : Z)
    : result ProviderStoreError (StoreWriteOutcome * ProviderDb) :=
  _ ← validate_hex session_id "session ID";
  _ ← validate_identifier reason_code "session disposition reason";
  if match as_bytes reason_code with [] => true | byte :: _ => negb (is_ascii_lowercase byte) end then
    Err (InvalidInput "session disposition reason must begin with a lowercase letter")
  else
  disposed_at ← database_u64 disposed_at "session disposition time";
  _ ← check_row [constraint "provider_session_disposition_session" (hex_64 session_id);
                 constraint "provider_session_disposition_reason"
                   (sql_identifier is_ascii_lowercase 63 reason_code);
                 constraint "provider_session_disposition_time" (0 <=? disposed_at)];
  match db_dispositions db !! session_id with
  | None => Ok (Stored, set_dispositions <[session_id := (reason_code, disposed_at)]> db)
  | Some (stored_reason, _) =>
      outcome ← replay_or_conflict (String.eqb stored_reason reason_code) "session disposition";
      Ok (outcome, db)
  end.

Definition session_disposition (db : ProviderDb) (session_id : string)
    : result ProviderStoreError (option string) :=
  _ ← validate_hex session_id "session ID";
  Ok (fst <$> db_dispositions db !! session_id).

End watch.
