(* ===== verification/WatchJobs.v ===== *)
(** * WatchJobs: the jobs the watchtower leases

    The watch-job and alert operations of [ProviderStore]
    ([immortal-provider/src/store.rs]).  A job is enqueued once, leased to a
    watcher a bounded number of times, and follows its transaction through
    broadcast, confirmation, reorganisation and replacement until it is
    completed, paged to the operator or marked unresolved. *)

From S2P Require Import Prelude Text Utf8 Regroup Hex Event Filter Expanded Json Custody ProviderDb Ledger.

Record WatchJobRequest : Type := mkWatchJobRequest {
  wr_job_id : string;
  wr_session_id : string;
  wr_effect_id : option string;
  wr_job_kind : string;
  wr_request_sha256 : string;
  wr_public_payload : Value;
  wr_due_height : option Z;
  wr_due_at : option Z;
  wr_maximum_attempts : Z;
  wr_created_at : Z;
}.

Record WatchJob : Type := mkWatchJob {
  wj_job_id : string;
  wj_session_id : string;
  wj_effect_id : option string;
  wj_job_kind : string;
  wj_request_sha256 : string;
  wj_public_payload : Value;
  wj_state : string;
  wj_due_height : option Z;
  wj_due_at : option Z;
  wj_attempt_count : Z;
  wj_maximum_attempts : Z;
  wj_result_sha256 : option string;
  wj_public_result : option Value;
  wj_broadcast_txid : option string;
  wj_replacement_txid : option string;
  wj_confirmations : Z;
  wj_observed_block_hash : option string;
  wj_last_chain_event : option string;
  wj_page_code : option string;
}.

Record PublicAlert : Type := mkPublicAlert {
  pa_alert_id : string;
  pa_session_id : option string;
  pa_alert_class : string;
  pa_detail_code : string;
  pa_public_context : Value;
  pa_state : string;
}.

Record ProviderStoreHealth : Type := mkHealth {
  active_reservations : Z;
  unresolved_reservations : Z;
  pending_effects : Z;
  unresolved_effects : Z;
  pending_watch_jobs : Z;
  unresolved_watch_jobs : Z;
  paged_watch_jobs : Z;
  active_alert_count : Z;
}.

(** [u16::try_from] of an [i32] column. *)
Definition u16_column (value : Z) (message : string) : result ProviderStoreError Z :=
  if (0 <=? value) && (value <=? U16_MAX) then Ok value else Err (MigrationDrift message).

Definition watch_from_row (job_id : string) (row : WatchRow) : result ProviderStoreError WatchJob :=
  due_height ← optional_u64 (wt_due_height row) "watch due height";
  due_at ← optional_u64 (wt_due_at row) "watch due time";
  attempt_count ← u16_column (wt_attempt_count row) "watch attempts out of range";
  maximum_attempts ← u16_column (wt_maximum_attempts row) "watch maximum attempts out of range";
  confirmations ← u64_column (wt_confirmations row) "watch confirmations out of range";
  Ok (mkWatchJob job_id (wt_session_id row) (wt_effect_id row) (wt_job_kind row)
        (wt_request_sha256 row) (wt_public_payload row) (wt_state row) due_height due_at
        attempt_count maximum_attempts (wt_result_sha256 row) (wt_public_result row)
        (wt_broadcast_txid row) (wt_replacement_txid row) confirmations
        (wt_observed_block_hash row) (wt_last_chain_event row) (wt_page_code row)).

Definition WATCH_STATES : list string :=
  ["pending"; "running"; "broadcast"; "confirmed"; "completed"; "unresolved"; "page"]%string.

(** The columns a statement may set; the others are written once. *)
Definition watch_update (r : WatchRow) (state : string) (lease_until : option Z) (attempt_count : Z)
    (result_sha256 : option string) (public_result : option Value)
    (broadcast_txid replacement_txid : option string) (confirmations : Z)
    (observed_block_hash last_chain_event page_code : option string) (now : Z) : WatchRow :=
  mkWatchRow (wt_session_id r) (wt_effect_id r) (wt_job_kind r) (wt_request_sha256 r)
    (wt_public_payload r) state (wt_due_height r) (wt_due_at r) lease_until attempt_count
    (wt_maximum_attempts r) result_sha256 public_result broadcast_txid replacement_txid confirmations
    observed_block_hash last_chain_event page_code (wt_created_at r) (Z.max (wt_updated_at r) now).

Section watch_jobs.
Context `{ProviderEnv, EventCrypto, PgText}.

Definition validate_watch_request (request : WatchJobRequest) : result ProviderStoreError unit :=
  _ ← validate_hex (wr_job_id request) "watch job ID";
  _ ← validate_hex (wr_session_id request) "watch session";
  _ ← match wr_effect_id request with None => Ok tt | Some id => validate_hex id "watch effect" end;
  _ ← validate_identifier (wr_job_kind request) "watch job kind";
  _ ← validate_hex (wr_request_sha256 request) "watch request digest";
  _ ← validate_public_json (wr_public_payload request);
  if bool_decide (wr_due_height request = None) && bool_decide (wr_due_at request = None) then
    Err (InvalidInput "watch job requires a height or time deadline")
  else if negb (in_range 1 100 (wr_maximum_attempts request)) then
    Err (InvalidInput "watch maximum attempts must be 1-100")
  else Ok tt.

Definition watch_checks (id : string) (r : WatchRow) : list (string * bool) :=
  [constraint "provider_watch_job_id" (hex_64 id);
   constraint "provider_watch_job_session" (hex_64 (wt_session_id r));
   constraint "provider_watch_job_effect" (match wt_effect_id r with None => true | Some e => hex_64 e end);
   constraint "provider_watch_job_kind" (sql_identifier is_ascii_lowercase 63 (wt_job_kind r));
   constraint "provider_watch_job_request" (hex_64 (wt_request_sha256 r));
   constraint "provider_watch_job_state" (mem (wt_state r) WATCH_STATES);
   constraint "provider_watch_job_due"
     (negb (bool_decide (wt_due_height r = None) && bool_decide (wt_due_at r = None)));
   constraint "provider_watch_job_attempts"
     ((0 <=? wt_attempt_count r) && in_range 1 100 (wt_maximum_attempts r));
   constraint "provider_watch_job_result_pair"
     (match wt_result_sha256 r, wt_public_result r with
      | None, None => true
      | Some digest, Some _ => hex_64 digest
      | _, _ => false
      end);
   constraint "provider_watch_job_txid" (match wt_broadcast_txid r with None => true | Some t => hex_64 t end);
   constraint "provider_watch_job_replacement"
     (match wt_replacement_txid r with None => true | Some t => hex_64 t end);
   constraint "provider_watch_job_confirmations" (0 <=? wt_confirmations r);
   constraint "provider_watch_job_block"
     (match wt_observed_block_hash r with None => true | Some h => hex_64 h end);
   constraint "provider_watch_job_time"
     ((0 <=? wt_created_at r) && (wt_created_at r <=? wt_updated_at r));
   constraint "provider_watch_job_payload_public" (provider_public_json_safe (wt_public_payload r));
   constraint "provider_watch_job_result_public"
     (match wt_public_result r with None => true | Some v => provider_public_json_safe v end)].

(** One [UPDATE .. WHERE job_id = $1 AND ..] with its condition on the state. *)
Definition update_watch (db : ProviderDb) (job_id : string) (allowed : string -> bool)
    (change : WatchRow -> WatchRow) : result ProviderStoreError (Z * ProviderDb) :=
  match db_watch_jobs db !! job_id with
  | None => Ok (0, db)
  | Some r =>
      if allowed (wt_state r) then
        _ ← check_row (watch_checks job_id (change r));
        Ok (1, set_watch_jobs <[job_id := change r]> db)
      else Ok (0, db)
  end.

(** [INSERT_WATCH_SQL]. *)
Definition insert_watch (db : ProviderDb) (request : WatchJobRequest)
    (due_height due_at : option Z) (created_at : Z) : result ProviderStoreError (Z * ProviderDb) :=
  payload ← store_json (wr_public_payload request);
  let row := mkWatchRow (wr_session_id request) (wr_effect_id request) (wr_job_kind request)
               (wr_request_sha256 request) payload "pending" due_height due_at None 0
               (wr_maximum_attempts request) None None None None 0 None None None
               created_at created_at in
  _ ← check_row (watch_checks (wr_job_id request) row);
  match db_watch_jobs db !! wr_job_id request with
  | Some _ => Ok (0, db)
  | None => Ok (1, set_watch_jobs <[wr_job_id request := row]> db)
  end.

Definition watch_request_matches (row : WatchRow) (request : WatchJobRequest)
    : result ProviderStoreError bool :=
  if String.eqb (wt_session_id row) (wr_session_id request)
     && bool_decide (wt_effect_id row = wr_effect_id request)
     && String.eqb (wt_job_kind row) (wr_job_kind request)
     && String.eqb (wt_request_sha256 row) (wr_request_sha256 request)
     && bool_decide (wt_public_payload row = wr_public_payload request)
  then
    due_height ← optional_u64 (wt_due_height row) "watch due height";
    if negb (bool_decide (due_height = wr_due_height request)) then Ok false
    else
    due_at ← optional_u64 (wt_due_at row) "watch due time";
    Ok (bool_decide (due_at = wr_due_at request)
        && (wt_maximum_attempts row =? wr_maximum_attempts request))
  else Ok false.

Definition enqueue_watch_job (db : ProviderDb) (request : WatchJobRequest)
    : result ProviderStoreError (StoreWriteOutcome * ProviderDb) :=
  _ ← validate_watch_request request;
  due_height ← optional_database_u64 (wr_due_height request) "watch due height";
  due_at ← optional_database_u64 (wr_due_at request) "watch due time";
  created_at ← database_u64 (wr_created_at request) "watch creation time";
  '(inserted, db) ← insert_watch db request due_height due_at created_at;
  if inserted =? 1 then Ok (Stored, db)
  else
    row ← query_one (db_watch_jobs db !! wr_job_id request);
    matches ← watch_request_matches row request;
    outcome ← replay_or_conflict matches "watch job";
    Ok (outcome, db).

(** ** Leases *)

(** The [WHERE] of [CLAIM_WATCH_SQL]. *)
Definition due (height now : Z) (r : WatchRow) : bool :=
  (String.eqb (wt_state r) "pending"
   || (String.eqb (wt_state r) "running"
       && match wt_lease_until r with None => false | Some lease => lease <=? now end))
  && match wt_due_height r with None => true | Some h => h <=? height end
  && match wt_due_at r with None => true | Some t => t <=? now end.

(** [ORDER BY COALESCE(due_height, max), COALESCE(due_at, max), job_id]. *)
Definition claim_before (a b : string * WatchRow) : bool :=
  let h r := default I64_MAX (wt_due_height r) in
  let t r := default I64_MAX (wt_due_at r) in
  (h a.2 <? h b.2) || ((h a.2 =? h b.2)
    && ((t a.2 <? t b.2) || ((t a.2 =? t b.2)
        && match String.compare a.1 b.1 with Gt => false | _ => true end))).
Definition claim_le (a b : string * WatchRow) : Prop := claim_before a b = true.
#[export] Instance claim_le_dec : RelDecision claim_le.
Proof. intros a b. unfold claim_le. apply _. Defined.

Definition select_due (db : ProviderDb) (height now limit : Z) : list string :=
  fst <$> take (Z.to_nat limit) (merge_sort claim_le
    (List.filter (fun kr => due height now kr.2) (map_to_list (db_watch_jobs db)))).

(** [MARK_WATCH_RUNNING_SQL]. *)
Definition run_or_page (lease_until now : Z) (r : WatchRow) : WatchRow :=
  let exhausted := wt_maximum_attempts r <=? wt_attempt_count r + 1 in
  watch_update r (if exhausted then "page" else "running") (Some lease_until) (wt_attempt_count r + 1)
    (wt_result_sha256 r) (wt_public_result r) (wt_broadcast_txid r) (wt_replacement_txid r)
    (wt_confirmations r) (wt_observed_block_hash r) (wt_last_chain_event r)
    (if exhausted then Some "attempts_exhausted"%string else wt_page_code r) now.

Definition claim_one (lease_until now : Z) (db : ProviderDb) (job_id : string)
    : result ProviderStoreError (WatchJob * ProviderDb) :=
  '(_, db) ← update_watch db job_id (fun _ => true) (run_or_page lease_until now);
  row ← query_one (db_watch_jobs db !! job_id);
  job ← watch_from_row job_id row;
  if String.eqb (wj_state job) "page" then
    db ← insert_alert db (alert_id_of "provider-watch-page" job_id) (Some (wj_session_id job))
           "watchtower" "attempts_exhausted"
           (json_object [("job_id", VString job_id); ("attempt_count", VInt (wj_attempt_count job));
                         ("maximum_attempts", VInt (wj_maximum_attempts job))]%string) now;
    Ok (job, db)
  else Ok (job, db).

Fixpoint claim_each (lease_until now : Z) (db : ProviderDb) (ids : list string)
    : result ProviderStoreError (list WatchJob * ProviderDb) :=
  match ids with
  | [] => Ok ([], db)
  | id :: ids' =>
      '(job, db) ← claim_one lease_until now db id;
      '(jobs, db) ← claim_each lease_until now db ids';
      Ok (job :: jobs, db)
  end.

Definition claim_due_watch_jobs (db : ProviderDb) (height now lease_until limit : Z)
    : result ProviderStoreError (list WatchJob * ProviderDb) :=
  height ← database_u64 height "watch height";
  now ← database_u64 now "watch time";
  lease_until ← database_u64 lease_until "watch lease";
  if lease_until <=? now then Err (InvalidInput "watch lease must be in the future")
  else
  limit ← bounded_limit limit MAX_WATCH_CLAIM;
  claim_each lease_until now db (select_due db height now limit).

(** ** What the watcher reports *)

(** [RECORD_BROADCAST_SQL]. *)
Definition update_broadcast (db : ProviderDb) (job_id result_sha256 : string) (public_result : Value)
    (txid : string) (now : Z) : result ProviderStoreError (Z * ProviderDb) :=
  public_result ← store_json public_result;
  update_watch db job_id (fun state => mem state ["pending"; "running"; "broadcast"]%string) (fun r =>
    watch_update r "broadcast" None (wt_attempt_count r) (Some result_sha256) (Some public_result)
      (Some txid) (wt_replacement_txid r) (wt_confirmations r) (wt_observed_block_hash r)
      (wt_last_chain_event r) (wt_page_code r) now).

Definition record_broadcast (db : ProviderDb) (job_id request_sha256 result_sha256 : string)
    (public_result : Value) (txid : string) (now : Z)
    : result ProviderStoreError (StoreWriteOutcome * ProviderDb) :=
  _ ← validate_hex job_id "watch job ID";
  _ ← validate_hex request_sha256 "watch request digest";
  _ ← validate_hex result_sha256 "broadcast result digest";
  _ ← validate_hex txid "broadcast transaction ID";
  _ ← validate_public_json public_result;
  now ← database_u64 now "broadcast time";
  row ← ok_or (NotFound job_id) (db_watch_jobs db !! job_id);
  if negb (String.eqb (wt_request_sha256 row) request_sha256) then
    Err (Conflict "broadcast request digest mismatch")
  else match wt_result_sha256 row with
  | Some _ =>
      if negb (bool_decide (wt_result_sha256 row = Some result_sha256)
               && bool_decide (wt_public_result row = Some public_result)
               && bool_decide (wt_broadcast_txid row = Some txid)) then
        Err (Conflict "broadcast result replay changed immutable bytes")
      else if mem (wt_state row) ["pending"; "running"]%string then
        '(rows, db) ← update_broadcast db job_id result_sha256 public_result txid now;
        _ ← require_updated rows job_id;
        Ok (Stored, db)
      else if negb (mem (wt_state row) ["broadcast"; "confirmed"]%string) then
        Err (Conflict "paged or unresolved watch job cannot broadcast")
      else Ok (Replay, db)
  | None =>
      '(rows, db) ← update_broadcast db job_id result_sha256 public_result txid now;
      _ ← require_updated rows job_id;
      Ok (Stored, db)
  end.

(** [RECORD_CONFIRMATION_SQL]. *)
Definition record_confirmation (db : ProviderDb) (job_id : string)
    (confirmations required_confirmations : Z) (block_hash : string) (now : Z)
    : result ProviderStoreError (unit * ProviderDb) :=
  _ ← validate_hex job_id "watch job ID";
  _ ← validate_hex block_hash "observed block hash";
  confirmations ← database_i32 confirmations "confirmation count exceeds i32";
  required ← database_i32 required_confirmations "required confirmations exceeds i32";
  if required =? 0 then Err (InvalidInput "required confirmations must be positive")
  else
  now ← database_u64 now "confirmation time";
  '(rows, db) ← update_watch db job_id (fun state => mem state ["pending"; "running"; "broadcast"; "confirmed"]%string) (fun r =>
    watch_update r (if required <=? confirmations then "confirmed" else "broadcast") None
      (wt_attempt_count r) (wt_result_sha256 r) (wt_public_result r) (wt_broadcast_txid r)
      (wt_replacement_txid r) confirmations (Some block_hash) (Some "confirmation"%string)
      (wt_page_code r) now);
  _ ← require_updated rows job_id;
  Ok (tt, db).

Definition watch_chain_rollback (change : string -> Z -> WatchRow -> WatchRow) (db : ProviderDb)
    (job_id value : string) (now : Z) : result ProviderStoreError (unit * ProviderDb) :=
  _ ← validate_hex job_id "watch job ID";
  _ ← validate_hex value "watch chain reference";
  now ← database_u64 now "watch rollback time";
  '(rows, db) ← update_watch db job_id (fun state => mem state ["broadcast"; "confirmed"]%string) (change value now);
  _ ← require_updated rows job_id;
  Ok (tt, db).

(** [RECORD_REORG_SQL] and [RECORD_REPLACEMENT_SQL]. *)
Definition reorg_row (new_tip : string) (now : Z) (r : WatchRow) : WatchRow :=
  watch_update r "pending" None (wt_attempt_count r) (wt_result_sha256 r) (wt_public_result r)
    (wt_broadcast_txid r) (wt_replacement_txid r) 0 (Some new_tip) (Some "reorg"%string)
    (wt_page_code r) now.
Definition replacement_row (replacement_txid : string) (now : Z) (r : WatchRow) : WatchRow :=
  watch_update r "pending" None (wt_attempt_count r) (wt_result_sha256 r) (wt_public_result r)
    (wt_broadcast_txid r) (Some replacement_txid) 0 (wt_observed_block_hash r)
    (Some "replacement"%string) (wt_page_code r) now.

Definition record_reorg (db : ProviderDb) (job_id new_tip : string) (now : Z)
    : result ProviderStoreError (unit * ProviderDb) :=
  watch_chain_rollback reorg_row db job_id new_tip now.
Definition record_replacement (db : ProviderDb) (job_id replacement_txid : string) (now : Z)
    : result ProviderStoreError (unit * ProviderDb) :=
  watch_chain_rollback replacement_row db job_id replacement_txid now.

(** The replay of a job already paged or marked unresolved. *)
Definition replay_alert (db : ProviderDb) (alert_id detail_code : string) (public_context : Value)
    (missing subject : string) : result ProviderStoreError StoreWriteOutcome :=
  alert ← ok_or (MigrationDrift missing) (db_alerts db !! alert_id);
  replay_or_conflict (String.eqb (al_detail_code alert) detail_code
                      && bool_decide (al_public_context alert = public_context)) subject.

(** [PAGE_WATCH_SQL] and [MARK_WATCH_UNRESOLVED_SQL] set the same columns. *)
Definition stop_row (state code : string) (now : Z) (r : WatchRow) : WatchRow :=
  watch_update r state None (wt_attempt_count r) (wt_result_sha256 r) (wt_public_result r)
    (wt_broadcast_txid r) (wt_replacement_txid r) (wt_confirmations r) (wt_observed_block_hash r)
    (wt_last_chain_event r) (Some code) now.

Definition page_watch_job (db : ProviderDb) (job_id page_code : string) (public_context : Value) (now : Z)
    : result ProviderStoreError (StoreWriteOutcome * ProviderDb) :=
  _ ← validate_hex job_id "watch job ID";
  _ ← validate_identifier page_code "page code";
  _ ← validate_public_artifact public_context;
  now ← database_u64 now "page time";
  job ← ok_or (NotFound job_id) (db_watch_jobs db !! job_id);
  let alert_id := alert_id_of "provider-watch-page" job_id in
  if String.eqb (wt_state job) "page" then
    if negb (bool_decide (wt_page_code job = Some page_code)) then
      Err (Conflict "watch job is already paged with another code")
    else
      outcome ← replay_alert db alert_id page_code public_context
                  "paged watch job has no durable alert" "watch page";
      Ok (outcome, db)
  else
  '(rows, db) ← update_watch db job_id (fun _ => true) (stop_row "page" page_code now);
  _ ← require_updated rows job_id;
  db ← insert_alert db alert_id (Some (wt_session_id job)) "watchtower" page_code public_context now;
  Ok (Stored, db).

Definition mark_watch_unresolved (db : ProviderDb) (job_id detail_code : string)
    (public_context : Value) (now : Z) : result ProviderStoreError (StoreWriteOutcome * ProviderDb) :=
  _ ← validate_hex job_id "watch job ID";
  _ ← validate_identifier detail_code "watch unresolved code";
  _ ← validate_public_artifact public_context;
  now ← database_u64 now "watch unresolved time";
  job ← ok_or (NotFound job_id) (db_watch_jobs db !! job_id);
  let alert_id := alert_id_of "provider-watch-unresolved" job_id in
  if String.eqb (wt_state job) "unresolved" then
    if negb (bool_decide (wt_page_code job = Some detail_code)) then
      Err (Conflict "watch job is unresolved with another code")
    else
      outcome ← replay_alert db alert_id detail_code public_context
                  "unresolved watch job has no durable alert" "watch unresolved state";
      Ok (outcome, db)
  else
  '(rows, db) ← update_watch db job_id (fun state => negb (String.eqb state "completed"))
                  (stop_row "unresolved" detail_code now);
  _ ← require_updated rows job_id;
  db ← insert_alert db alert_id (Some (wt_session_id job)) "watchtower" detail_code public_context now;
  Ok (Stored, db).

(** [COMPLETE_WATCH_SQL]. *)
Definition complete_row (code : string) (now : Z) (r : WatchRow) : WatchRow :=
  watch_update r "completed" None (wt_attempt_count r) (wt_result_sha256 r) (wt_public_result r)
    (wt_broadcast_txid r) (wt_replacement_txid r) (wt_confirmations r) (wt_observed_block_hash r)
    (Some code) (wt_page_code r) now.

Definition complete_watch_job (db : ProviderDb) (job_id completion_code : string) (now : Z)
    : result ProviderStoreError (StoreWriteOutcome * ProviderDb) :=
  _ ← validate_hex job_id "watch job ID";
  _ ← validate_identifier completion_code "watch completion code";
  now ← database_u64 now "watch completion time";
  row ← ok_or (NotFound job_id) (db_watch_jobs db !! job_id);
  if String.eqb (wt_state row) "completed" then
    outcome ← replay_or_conflict (bool_decide (wt_last_chain_event row = Some completion_code))
                "watch completion";
    Ok (outcome, db)
  else if mem (wt_state row) ["unresolved"; "page"]%string then
    Err (Conflict "unresolved or paged watch job cannot complete")
  else
  '(rows, db) ← update_watch db job_id (fun state => mem state ["pending"; "running"; "broadcast"; "confirmed"; "completed"]%string)
                  (complete_row completion_code now);
  _ ← require_updated rows job_id;
  Ok (Stored, db).

Definition watch_job (db : ProviderDb) (job_id : string) : result ProviderStoreError (option WatchJob) :=
  _ ← validate_hex job_id "watch job ID";
  match db_watch_jobs db !! job_id with
  | None => Ok None
  | Some row => job ← watch_from_row job_id row; Ok (Some job)
  end.

(** [ORDER BY updated_at, job_id]. *)
Definition stale_before {A} (updated : A -> Z) (a b : string * A) : bool :=
  (updated a.2 <? updated b.2) || ((updated a.2 =? updated b.2)
    && match String.compare a.1 b.1 with Gt => false | _ => true end).
Definition stale_le {A} (updated : A -> Z) (a b : string * A) : Prop := stale_before updated a b = true.
#[export] Instance stale_le_dec {A} (updated : A -> Z) : RelDecision (stale_le updated).
Proof. intros a b. unfold stale_le. apply _. Defined.

Definition watch_jobs_for_observation (db : ProviderDb) (limit : Z)
    : result ProviderStoreError (list WatchJob) :=
  limit ← bounded_limit limit MAX_WATCH_CLAIM;
  try_map (fun kr => watch_from_row kr.1 kr.2)
    (take (Z.to_nat limit) (merge_sort (stale_le wt_updated_at)
       (List.filter (fun kr => mem (wt_state kr.2) ["broadcast"; "confirmed"]%string)
          (map_to_list (db_watch_jobs db))))).

(** ** Alerts and health *)

Definition active_alerts (db : ProviderDb) (limit : Z) : result ProviderStoreError (list PublicAlert) :=
  limit ← bounded_limit limit MAX_ALERT_QUERY;
  Ok ((fun kr => mkPublicAlert kr.1 (al_session_id kr.2) (al_alert_class kr.2) (al_detail_code kr.2)
                   (al_public_context kr.2) (al_state kr.2))
      <$> take (Z.to_nat limit) (merge_sort (stale_le al_updated_at)
            (List.filter (fun kr => negb (String.eqb (al_state kr.2) "resolved"))
               (map_to_list (db_alerts db))))).

Definition set_alert_state (db : ProviderDb) (alert_id state : string) (now : Z)
    : result ProviderStoreError (unit * ProviderDb) :=
  _ ← validate_hex alert_id "alert ID";
  if negb (mem state ["active"; "acknowledged"; "resolved"]%string) then
    Err (InvalidInput "alert state is invalid")
  else
  now ← database_u64 now "alert update time";
  match db_alerts db !! alert_id with
  | None => Err (NotFound alert_id)
  | Some r =>
      let row := mkAlertRow (al_session_id r) (al_alert_class r) (al_detail_code r)
                   (al_public_context r) state (al_created_at r) (Z.max (al_updated_at r) now) in
      _ ← check_row (alert_checks alert_id row);
      Ok (tt, set_alerts <[alert_id := row]> db)
  end.

(** [SELECT count(.. LIMIT n)] over the rows in the given states. *)
Definition bounded_count {A} (state : A -> string) (counted : string -> bool) (m : gmap string A) : Z :=
  Z.min HEALTH_COUNT_SCAN_LIMIT
    (len (List.filter (fun kr => counted (state kr.2)) (map_to_list m))).

Definition health_counts (db : ProviderDb) : ProviderStoreHealth :=
  mkHealth
    (bounded_count rv_state (fun s => mem s ["active"]%string) (db_reservations db))
    (bounded_count rv_state (fun s => mem s ["unresolved"]%string) (db_reservations db))
    (bounded_count ef_state (fun s => mem s ["pending"]%string) (db_effects db))
    (bounded_count ef_state (fun s => mem s ["unresolved"]%string) (db_effects db))
    (bounded_count wt_state (fun s => mem s ["pending"; "running"]%string) (db_watch_jobs db))
    (bounded_count wt_state (fun s => mem s ["unresolved"]%string) (db_watch_jobs db))
    (bounded_count wt_state (fun s => mem s ["page"]%string) (db_watch_jobs db))
    (bounded_count al_state (fun s => negb (String.eqb s "resolved")) (db_alerts db)).

End watch_jobs.
