(* ===== verification/WatchCorrect.v ===== *)
(** * WatchCorrect: leases are exclusive and attempts are bounded

    A history of watch operations returns, claim by claim, the jobs handed to
    a watcher.  [attempts_bounded] counts them: a job is returned at most
    [maximum_attempts] times, and the last of these pages it, so it is handed
    out to run at most [maximum_attempts - 1] times.  [lease_exclusive] says
    that while a lease runs no other claim returns the job. *)

From S2P Require Import Prelude Text Utf8 Regroup Hex Event Filter Expanded Json Custody ProviderDb Ledger.
From S2P Require Import Reserve MapSum LedgerInv WatchJobs.

(** ** Histories *)

Inductive WatchOp : Type :=
| WEnqueue (request : WatchJobRequest)
| WClaim (height now lease_until limit : Z)
| WBroadcast (job_id request_sha256 result_sha256 : string) (public_result : Value) (txid : string) (now : Z)
| WConfirmation (job_id : string) (confirmations required : Z) (block_hash : string) (now : Z)
| WReorg (job_id new_tip : string) (now : Z)
| WReplacement (job_id replacement_txid : string) (now : Z)
| WPage (job_id page_code : string) (public_context : Value) (now : Z)
| WUnresolved (job_id detail_code : string) (public_context : Value) (now : Z)
| WComplete (job_id completion_code : string) (now : Z).

(** What a claim returned of each job: its id and its state. *)
Definition Handed : Type := string * string.
Definition handed (job : WatchJob) : Handed := (wj_job_id job, wj_state job).

Section correct.
Context `{ProviderEnv, EventCrypto, PgText}.

Definition watch_step (st : ProviderDb * list Handed) (op : WatchOp) : ProviderDb * list Handed :=
  let '(db, log) := st in
  match op with
  | WEnqueue q => (committed db (enqueue_watch_job db q), log)
  | WClaim h now lease limit =>
      match claim_due_watch_jobs db h now lease limit with
      | Ok (jobs, db') => (db', log ++ (handed <$> jobs))
      | Err _ => (db, log)
      end
  | WBroadcast j q r v t now => (committed db (record_broadcast db j q r v t now), log)
  | WConfirmation j c q b now => (committed db (record_confirmation db j c q b now), log)
  | WReorg j t now => (committed db (record_reorg db j t now), log)
  | WReplacement j t now => (committed db (record_replacement db j t now), log)
  | WPage j c v now => (committed db (page_watch_job db j c v now), log)
  | WUnresolved j c v now => (committed db (mark_watch_unresolved db j c v now), log)
  | WComplete j c now => (committed db (complete_watch_job db j c now), log)
  end.

Definition watch_run (ops : list WatchOp) : ProviderDb * list Handed := fold_left watch_step ops (empty_db, []).

(** ** Claims *)

Lemma insert_alert_jobs db id session class detail context now db' :
  insert_alert db id session class detail context now = Ok db' -> db_watch_jobs db' = db_watch_jobs db.
Proof.
  unfold insert_alert. intros Hi. tx_inv. destruct (db_alerts db !! id); by tx_inv.
Qed.

Lemma update_watch_inv db id allowed change n db' :
  update_watch db id allowed change = Ok (n, db') ->
  (n = 0 /\ db' = db /\ forall r, db_watch_jobs db !! id = Some r -> allowed (wt_state r) = false)
  \/ (n = 1 /\ exists r, db_watch_jobs db !! id = Some r /\ allowed (wt_state r) = true
        /\ check_row (watch_checks id (change r)) = Ok tt
        /\ db' = set_watch_jobs <[id := change r]> db).
Proof.
  unfold update_watch. intros Hu. destruct (db_watch_jobs db !! id) as [r|] eqn:Hr; tx_inv; [|by left].
  destruct (allowed (wt_state r)) eqn:Ha; tx_inv; [right; eauto 10|left].
  repeat split. intros r' Hr'. by simplify_eq.
Qed.

Lemma watch_from_row_inv id row job :
  watch_from_row id row = Ok job ->
  wj_job_id job = id /\ wj_state job = wt_state row /\ wj_session_id job = wt_session_id row.
Proof. unfold watch_from_row. intros Hw. by tx_inv. Qed.

Lemma claim_one_inv lease now db id job db' :
  claim_one lease now db id = Ok (job, db') ->
  exists r, db_watch_jobs db !! id = Some r
    /\ db_watch_jobs db' = <[id := run_or_page lease now r]> (db_watch_jobs db)
    /\ handed job = (id, wt_state (run_or_page lease now r)).
Proof.
  unfold claim_one. intros Hc. tx_inv. unfold query_one in *. run_inv.
  match goal with Hu : update_watch _ _ _ _ = _ |- _ =>
    apply update_watch_inv in Hu as [(_ & -> & Hnone)|(_ & r & Hr & _ & _ & ->)] end.
  { by match goal with Hr : db_watch_jobs db !! id = Some _ |- _ => specialize (Hnone _ Hr) end. }
  cbn [db_watch_jobs set_watch_jobs] in *. rewrite lookup_insert_eq in *. run_inv. subst. exists r.
  match goal with Hw : watch_from_row _ _ = _ |- _ => apply watch_from_row_inv in Hw as (Hid & Hst & _) end.
  assert (handed job = (id, wt_state (run_or_page lease now r))) as Hh.
  { unfold handed. destruct (String.eqb _ _) in Hc; tx_inv; congruence. }
  split; [done|]. split; [|done].
  destruct (String.eqb _ _) in Hc; tx_inv; [|done].
  match goal with Ha : insert_alert _ _ _ _ _ _ _ = _ |- _ => by apply insert_alert_jobs in Ha end.
Qed.

(** Every id of the loop has its row changed once; the others keep theirs. *)
Lemma claim_each_inv lease now db ids jobs db' :
  NoDup ids -> claim_each lease now db ids = Ok (jobs, db') ->
  Forall2 (fun id h => exists r, db_watch_jobs db !! id = Some r
             /\ db_watch_jobs db' !! id = Some (run_or_page lease now r)
             /\ h = (id, wt_state (run_or_page lease now r))) ids (handed <$> jobs)
  /\ forall id, id ∉ ids -> db_watch_jobs db' !! id = db_watch_jobs db !! id.
Proof.
  revert db jobs. induction ids as [|id ids IH]; intros db jobs Hnd Hc; cbn in Hc; tx_inv.
  { split; [constructor|done]. }
  apply NoDup_cons in Hnd as [Hid Hnd].
  match goal with Ho : claim_one _ _ _ _ = _, He : claim_each _ _ _ _ = _ |- _ =>
    apply claim_one_inv in Ho as (r & Hr & Hdb & Hh); apply IH in He as [Hall Hother]; [|done] end.
  split.
  - rewrite fmap_cons. constructor.
    + exists r. rewrite (Hother id Hid), Hdb, lookup_insert_eq. done.
    + apply Forall2_same_length_lookup_2; [by eapply Forall2_length|]. intros i x h Hx Hhx.
      destruct (Forall2_lookup_lr _ _ _ _ _ _ Hall Hx Hhx) as (r' & Hr' & Hn & Hh').
      assert (x <> id) by (intros ->; apply Hid; by eapply list_elem_of_lookup_2).
      exists r'. rewrite Hdb, lookup_insert_ne in Hr' by done. done.
  - intros i [Hne Hi]%not_elem_of_cons. by rewrite Hother, Hdb, lookup_insert_ne by done.
Qed.

Lemma select_due_NoDup db h now limit : NoDup (select_due db h now limit).
Proof.
  unfold select_due. apply NoDup_fmap_fst.
  - intros k v w Hv Hw. apply elem_of_take in Hv as (i & Hv & _), Hw as (j & Hw & _).
    apply list_elem_of_lookup_2 in Hv, Hw. rewrite merge_sort_Permutation, elem_of_bfilter in Hv, Hw.
    destruct Hv as [Hv _], Hw as [Hw _]. apply elem_of_map_to_list in Hv, Hw. congruence.
  - apply sublist_NoDup with (2 := sublist_take _ _). rewrite merge_sort_Permutation.
    eapply sublist_NoDup; [|apply bfilter_sublist]. apply NoDup_map_to_list.
Qed.

Lemma elem_of_select_due db h now limit id :
  id ∈ select_due db h now limit -> exists r, db_watch_jobs db !! id = Some r /\ due h now r = true.
Proof.
  unfold select_due. intros ([k r] & -> & Hi)%list_elem_of_fmap. apply elem_of_take in Hi as (i & Hi & _).
  apply list_elem_of_lookup_2 in Hi. rewrite merge_sort_Permutation, elem_of_bfilter in Hi.
  destruct Hi as [Hi Hd]. apply elem_of_map_to_list in Hi. by exists r.
Qed.

Lemma claim_inv db h now lease limit jobs db' :
  claim_due_watch_jobs db h now lease limit = Ok (jobs, db') ->
  now < lease
  /\ Forall2 (fun id hd => exists r, db_watch_jobs db !! id = Some r /\ due h now r = true
               /\ db_watch_jobs db' !! id = Some (run_or_page lease now r)
               /\ hd = (id, wt_state (run_or_page lease now r)))
       (select_due db h now limit) (handed <$> jobs)
  /\ forall id, id ∉ select_due db h now limit -> db_watch_jobs db' !! id = db_watch_jobs db !! id.
Proof.
  unfold claim_due_watch_jobs, bounded_limit. intros Hc. tx_inv. conversions.
  match goal with Ht : try_from_u _ _ = Some _ |- _ => apply try_from_u_Some in Ht as [-> _] end.
  bool_to_prop. split; [done|]. apply claim_each_inv in Hc as [Hall Hother]; [|apply select_due_NoDup].
  split; [|done]. apply Forall2_same_length_lookup_2; [by eapply Forall2_length|]. intros i id hd Hid Hhd.
  destruct (Forall2_lookup_lr _ _ _ _ _ _ Hall Hid Hhd) as (r & Hr & Hn & ->).
  destruct (elem_of_select_due db h now limit id) as (r' & Hr' & Hd); [by eapply list_elem_of_lookup_2|].
  simplify_eq. by exists r.
Qed.

(** ** Counting what was handed out *)

Definition times (j : string) (log : list Handed) : Z :=
  len (List.filter (fun h => String.eqb h.1 j) log).
Definition runs (j : string) (log : list Handed) : Z :=
  len (List.filter (fun h => String.eqb h.1 j && String.eqb h.2 "running") log).

Lemma times_app j l1 l2 : times j (l1 ++ l2) = times j l1 + times j l2.
Proof. unfold times. by rewrite List.filter_app, len_app. Qed.
Lemma runs_app j l1 l2 : runs j (l1 ++ l2) = runs j l1 + runs j l2.
Proof. unfold runs. by rewrite List.filter_app, len_app. Qed.

Lemma handed_absent (f : string -> string) j ids :
  j ∉ ids -> times j ((fun id => (id, f id)) <$> ids) = 0 /\ runs j ((fun id => (id, f id)) <$> ids) = 0.
Proof.
  intros Hj. unfold times, runs.
  rewrite !bfilter_none; [done|..]; intros h (id & -> & Hid)%list_elem_of_fmap; cbn;
    rewrite (proj2 (String.eqb_neq id j)) by (intros ->; done); done.
Qed.

Lemma handed_once (f : string -> string) j ids :
  NoDup ids -> j ∈ ids ->
  times j ((fun id => (id, f id)) <$> ids) = 1
  /\ runs j ((fun id => (id, f id)) <$> ids) = if String.eqb (f j) "running" then 1 else 0.
Proof.
  induction ids as [|i ids IH]; intros Hnd Hj; [by apply elem_of_nil in Hj|]. apply NoDup_cons in Hnd as [Hi Hnd].
  apply elem_of_cons in Hj as [->|Hj].
  - destruct (handed_absent f i ids Hi) as [Ht Hr]. unfold times, runs in *. cbn. rewrite String.eqb_refl. cbn.
    destruct (String.eqb (f i) "running"); unfold len in *; cbn [length]; rewrite ?Nat2Z.inj_succ; lia.
  - destruct (IH Hnd Hj) as [Ht Hr]. unfold times, runs in *. cbn.
    rewrite (proj2 (String.eqb_neq i j)) by (intros ->; done). done.
Qed.

Lemma Forall2_map_eq {A B} (f : A -> B) l k : Forall2 (fun x y => y = f x) l k -> k = f <$> l.
Proof. induction 1; cbn; congruence. Qed.

(** ** The invariant *)

Definition stopped (r : WatchRow) : bool := mem (wt_state r) ["page"; "unresolved"]%string.

Record job_ok (log : list Handed) (j : string) (r : WatchRow) : Prop := mkJobOk {
  jo_bounds : 0 <= wt_attempt_count r <= wt_maximum_attempts r;
  jo_maximum : 1 <= wt_maximum_attempts r <= 100;
  jo_open : stopped r = true \/ wt_attempt_count r < wt_maximum_attempts r;
  jo_handed : times j log = wt_attempt_count r;
  jo_runs : runs j log <= wt_attempt_count r /\ runs j log < wt_maximum_attempts r;
}.

Record watch_inv (db : ProviderDb) (log : list Handed) : Prop := mkWatchInv {
  wi_job j r : db_watch_jobs db !! j = Some r -> job_ok log j r;
  wi_absent j : db_watch_jobs db !! j = None -> times j log = 0 /\ runs j log = 0;
}.

(** A step that neither claims nor reopens a stopped job. *)
Definition row_kept (r r' : WatchRow) : Prop :=
  wt_attempt_count r' = wt_attempt_count r /\ wt_maximum_attempts r' = wt_maximum_attempts r
  /\ (stopped r = true -> stopped r' = true).

Definition row_new (r : WatchRow) : Prop :=
  wt_attempt_count r = 0 /\ 1 <= wt_maximum_attempts r <= 100.

Definition jobs_kept (db db' : ProviderDb) : Prop := forall j,
  match db_watch_jobs db !! j, db_watch_jobs db' !! j with
  | None, None => True
  | Some r, Some r' => row_kept r r'
  | None, Some r' => row_new r'
  | Some _, None => False
  end.

Lemma row_kept_refl r : row_kept r r.
Proof. by repeat split. Qed.

Lemma jobs_kept_refl db db' : db_watch_jobs db' = db_watch_jobs db -> jobs_kept db db'.
Proof. intros Heq j. rewrite Heq. destruct (_ !! j); [apply row_kept_refl|done]. Qed.

Lemma jobs_kept_set db j r r' :
  db_watch_jobs db !! j = Some r -> row_kept r r' -> jobs_kept db (set_watch_jobs <[j := r']> db).
Proof.
  intros Hr Hk i. cbn. destruct (decide (i = j)) as [->|Hne].
  - by rewrite Hr, lookup_insert_eq.
  - rewrite lookup_insert_ne by done. destruct (_ !! i); [apply row_kept_refl|done].
Qed.

Lemma jobs_kept_same db db1 db2 :
  jobs_kept db db1 -> db_watch_jobs db2 = db_watch_jobs db1 -> jobs_kept db db2.
Proof. intros Hk Heq j. specialize (Hk j). by rewrite Heq. Qed.

Lemma watch_inv_kept db db' log : watch_inv db log -> jobs_kept db db' -> watch_inv db' log.
Proof.
  intros [Hj Ha] Hk. split.
  - intros j r' Hr'. specialize (Hk j). rewrite Hr' in Hk. destruct (db_watch_jobs db !! j) as [r|] eqn:Hr.
    + destruct (Hj j r Hr) as [Hb Hm Ho Hh Hu]. destruct Hk as (Ea & Em & Hs).
      constructor; rewrite ?Ea, ?Em; try done. destruct Ho as [Ho|Ho]; auto.
    + destruct (Ha j Hr) as [Ht Hu]. destruct Hk as [Ea Em]. constructor; rewrite ?Ea; try lia.
  - intros j Hn. specialize (Hk j). rewrite Hn in Hk.
    destruct (db_watch_jobs db !! j) as [r|] eqn:Hr; [done|]. by apply Ha.
Qed.

Lemma update_watch_kept db id allowed change n db' :
  (forall r, allowed (wt_state r) = true -> row_kept r (change r)) ->
  update_watch db id allowed change = Ok (n, db') -> jobs_kept db db'.
Proof.
  intros Hc [(_ & -> & _)|(_ & r & Hr & Ha & _ & ->)]%update_watch_inv; [by apply jobs_kept_refl|].
  apply (jobs_kept_set _ _ r); auto.
Qed.

Lemma due_open h now r : due h now r = true -> stopped r = false.
Proof.
  unfold due, stopped, mem. intros Hd. bool_to_prop. apply bool_decide_eq_false.
  rewrite !elem_of_cons, elem_of_nil.
  match goal with Ho : _ || _ = true |- _ => apply orb_true_iff in Ho as [Ho|Ho] end; bool_to_prop;
    repeat match goal with Hx : String.eqb _ _ = true |- _ => apply String.eqb_eq in Hx; rewrite Hx end;
    intros [?|[?|?]]; congruence.
Qed.

Lemma claim_watch_inv db log h now lease limit jobs db' :
  watch_inv db log -> claim_due_watch_jobs db h now lease limit = Ok (jobs, db') ->
  watch_inv db' (log ++ (handed <$> jobs)).
Proof.
  intros [Hj Ha] (_ & Hall & Hother)%claim_inv.
  set (f id := match db_watch_jobs db' !! id with Some r => wt_state r | None => "" end%string).
  assert (handed <$> jobs = (fun id => (id, f id)) <$> select_due db h now limit) as ->.
  { apply Forall2_map_eq. eapply Forall2_impl; [exact Hall|]. intros id hd (r & _ & _ & Hr & ->).
    unfold f. by rewrite Hr. }
  pose proof (select_due_NoDup db h now limit) as Hnd.
  split.
  - intros j r' Hr'. destruct (decide (j ∈ select_due db h now limit)) as [Hin|Hin].
    + destruct (handed_once f j _ Hnd Hin) as [Ht Hu]. apply list_elem_of_lookup in Hin as [i Hi].
      destruct (Forall2_lookup_l _ _ _ _ _ Hall Hi) as (hd & _ & r & Hr & Hd & Hr'' & _).
      assert (f j = wt_state r') as Hf by (unfold f; by rewrite Hr'). rewrite Hf in Hu.
      simplify_eq. destruct (Hj j r Hr) as [Hb Hm Ho Hh Hu0].
      pose proof (due_open _ _ _ Hd) as Hop. destruct Ho as [Ho|Ho]; [congruence|].
      cbn in Hu. constructor; rewrite ?times_app, ?runs_app, ?Ht, ?Hu; cbn; try lia.
      * unfold stopped, run_or_page. cbn. destruct (Z.leb_spec (wt_maximum_attempts r) (wt_attempt_count r + 1)); [by left|right; lia].
      * unfold run_or_page. cbn.
        destruct (Z.leb_spec (wt_maximum_attempts r) (wt_attempt_count r + 1)); cbn; lia.
    + destruct (handed_absent f j _ Hin) as [Ht Hu]. rewrite (Hother j Hin) in Hr'.
      destruct (Hj j r' Hr') as [Hb Hm Ho Hh Hu0].
      constructor; rewrite ?times_app, ?runs_app, ?Ht, ?Hu; try done; lia.
  - intros j Hn. assert (j ∉ select_due db h now limit) as Hin.
    { intros Hin. apply list_elem_of_lookup in Hin as [i Hi].
      destruct (Forall2_lookup_l _ _ _ _ _ Hall Hi) as (hd & _ & r & _ & _ & Hr & _). congruence. }
    destruct (handed_absent f j _ Hin) as [Ht Hu]. rewrite (Hother j Hin) in Hn.
    rewrite times_app, runs_app, Ht, Hu. destruct (Ha j Hn). lia.
Qed.

(** ** Every operation keeps it *)

Lemma enqueue_kept db q out db' : enqueue_watch_job db q = Ok (out, db') -> jobs_kept db db'.
Proof.
  unfold enqueue_watch_job, insert_watch. intros He. tx_inv.
  destruct (db_watch_jobs db !! wr_job_id q) as [r|] eqn:Hr; tx_inv; cbn in He; tx_inv; [by apply jobs_kept_refl|].
  match goal with Hc : check_row (watch_checks _ _) = Ok tt |- _ =>
    eapply (check_row_elem _ "provider_watch_job_attempts") in Hc; [|check_elem] end.
  cbn in *. unfold in_range in *. bool_to_prop. intros j. cbn. destruct (decide (j = wr_job_id q)) as [->|Hne].
  - rewrite Hr, lookup_insert_eq. split; [done|]. cbn. lia.
  - rewrite lookup_insert_ne by done. destruct (_ !! j); [apply row_kept_refl|done].
Qed.

(** The states from which the reports act are open. *)
Lemma open_state s l :
  mem s l = true -> (forall x, x ∈ l -> x ∉ ["page"; "unresolved"]%string) ->
  mem s ["page"; "unresolved"]%string = false.
Proof. unfold mem. intros Hs Hl. bool_to_prop. apply bool_decide_eq_false. by apply Hl. Qed.

Ltac open_states := let Hx := fresh in intros ? Hx; rewrite ?elem_of_cons, ?elem_of_nil in *;
  repeat (destruct Hx as [-> | Hx]); [..|done]; intros Hy; repeat (destruct Hy as [Hy|Hy]); done.

Lemma kept_from_open r r' l :
  mem (wt_state r) l = true -> (forall x, x ∈ l -> x ∉ ["page"; "unresolved"]%string) ->
  wt_attempt_count r' = wt_attempt_count r -> wt_maximum_attempts r' = wt_maximum_attempts r ->
  row_kept r r'.
Proof.
  intros Hs Hl Ha Hm. split; [done|]. split; [done|]. unfold stopped.
  by rewrite (open_state _ _ Hs Hl).
Qed.

Lemma update_broadcast_kept db j r v t now n db' :
  update_broadcast db j r v t now = Ok (n, db') -> jobs_kept db db'.
Proof.
  unfold update_broadcast. intros Hu. run_inv. eapply update_watch_kept; [|exact Hu].
  intros row Hs. eapply kept_from_open; [exact Hs|open_states|done|done].
Qed.

Lemma record_broadcast_kept db j q r v t now out db' :
  record_broadcast db j q r v t now = Ok (out, db') -> jobs_kept db db'.
Proof.
  unfold record_broadcast. intros Hr. tx_inv. destruct (wt_result_sha256 _); tx_inv.
  - destruct (mem _ ["pending"; "running"]%string); tx_inv; [by eapply update_broadcast_kept|].
    by apply jobs_kept_refl.
  - by eapply update_broadcast_kept.
Qed.

Lemma record_confirmation_kept db j c q b now out db' :
  record_confirmation db j c q b now = Ok (out, db') -> jobs_kept db db'.
Proof.
  unfold record_confirmation. intros Hr. tx_inv. eapply update_watch_kept; [|eassumption].
  intros row Hs. eapply kept_from_open; [exact Hs|open_states|done|done].
Qed.

Lemma watch_chain_rollback_kept change db j v now out db' :
  (forall v now r, wt_attempt_count (change v now r) = wt_attempt_count r
     /\ wt_maximum_attempts (change v now r) = wt_maximum_attempts r) ->
  watch_chain_rollback change db j v now = Ok (out, db') -> jobs_kept db db'.
Proof.
  intros Hc. unfold watch_chain_rollback. intros Hr. tx_inv. eapply update_watch_kept; [|eassumption].
  intros row Hs. eapply kept_from_open; [exact Hs|open_states|apply Hc|apply Hc].
Qed.

Lemma stop_row_kept state code now r : mem state ["page"; "unresolved"]%string = true -> row_kept r (stop_row state code now r).
Proof. intros Hs. by repeat split. Qed.

Lemma page_watch_job_kept db j c v now out db' :
  page_watch_job db j c v now = Ok (out, db') -> jobs_kept db db'.
Proof.
  unfold page_watch_job. intros Hp. tx_inv. destruct (String.eqb _ "page"); tx_inv; [by apply jobs_kept_refl|].
  eapply jobs_kept_same; [|by eapply insert_alert_jobs]. eapply update_watch_kept; [|eassumption].
  intros row _. by apply stop_row_kept.
Qed.

Lemma mark_watch_unresolved_kept db j c v now out db' :
  mark_watch_unresolved db j c v now = Ok (out, db') -> jobs_kept db db'.
Proof.
  unfold mark_watch_unresolved. intros Hp. tx_inv. destruct (String.eqb _ "unresolved"); tx_inv; [by apply jobs_kept_refl|].
  eapply jobs_kept_same; [|by eapply insert_alert_jobs]. eapply update_watch_kept; [|eassumption].
  intros row _. by apply stop_row_kept.
Qed.

Lemma complete_watch_job_kept db j c now out db' :
  complete_watch_job db j c now = Ok (out, db') -> jobs_kept db db'.
Proof.
  unfold complete_watch_job. intros Hp. tx_inv. destruct (String.eqb _ "completed"); tx_inv; [by apply jobs_kept_refl|].
  eapply update_watch_kept; [|eassumption].
  intros row Hs. eapply kept_from_open; [exact Hs|open_states|done|done].
Qed.

Lemma committed_kept {A} db log (r : result ProviderStoreError (A * ProviderDb)) :
  watch_inv db log -> (forall a db', r = Ok (a, db') -> jobs_kept db db') -> watch_inv (committed db r) log.
Proof. intros Hinv Hr. destruct r as [[a db']|e]; [|done]. eapply watch_inv_kept; eauto. Qed.

Lemma watch_step_inv st op : watch_inv st.1 st.2 -> watch_inv (watch_step st op).1 (watch_step st op).2.
Proof.
  destruct st as [db log]. cbn [fst snd]. intros Hinv. destruct op; cbn [watch_step fst snd];
    try (apply committed_kept; [done|]; intros a db' Hop).
  - by eapply enqueue_kept.
  - destruct (claim_due_watch_jobs _ _ _ _ _) as [[jobs db']|e] eqn:Hc; [|done]. by eapply claim_watch_inv.
  - by eapply record_broadcast_kept.
  - by eapply record_confirmation_kept.
  - unfold record_reorg in Hop. by eapply watch_chain_rollback_kept; [|exact Hop].
  - unfold record_replacement in Hop. by eapply watch_chain_rollback_kept; [|exact Hop].
  - by eapply page_watch_job_kept.
  - by eapply mark_watch_unresolved_kept.
  - by eapply complete_watch_job_kept.
Qed.

Lemma watch_run_inv ops : watch_inv (watch_run ops).1 (watch_run ops).2.
Proof.
  unfold watch_run. assert (watch_inv (empty_db, @nil Handed).1 (empty_db, @nil Handed).2) as Hinv by (by split).
  revert Hinv. generalize (empty_db, @nil Handed). induction ops as [|op ops IH]; intros st Hinv; [done|].
  cbn. apply IH. by apply watch_step_inv.
Qed.

(** C14: in any history a watch job is returned by claims exactly
    [attempt_count] times, never more than its maximum, and it is handed out to
    run fewer times than its maximum: the claim that reaches the maximum pages
    it. *)
Theorem attempts_bounded ops j r :
  db_watch_jobs (watch_run ops).1 !! j = Some r ->
  times j (watch_run ops).2 = wt_attempt_count r
  /\ wt_attempt_count r <= wt_maximum_attempts r <= 100
  /\ runs j (watch_run ops).2 <= wt_maximum_attempts r - 1.
Proof.
  intros Hr. destruct (wi_job _ _ (watch_run_inv ops) j r Hr) as [Hb Hm _ Hh Hu]. repeat split; lia.
Qed.

(** ** Leases *)

(** A job under a lease that runs past [until], or not claimable at all. *)
Definition leased (until : Z) (r : WatchRow) : Prop :=
  wt_state r <> "pending"%string
  /\ (wt_state r = "running"%string -> exists lease, wt_lease_until r = Some lease /\ until <= lease).

Lemma leased_not_due until h now r : leased until r -> now < until -> due h now r = false.
Proof.
  intros [Hp Hr] Hlt. unfold due. rewrite (proj2 (String.eqb_neq _ _) Hp). cbn.
  destruct (String.eqb_spec (wt_state r) "running") as [Hs|]; [|done].
  destruct (Hr Hs) as (lease & -> & Hle). by replace (lease <=? now) with false by lia.
Qed.

Lemma claim_leases db h now lease limit jobs db' j :
  claim_due_watch_jobs db h now lease limit = Ok (jobs, db') -> j ∈ (wj_job_id <$> jobs) ->
  exists r, db_watch_jobs db' !! j = Some r /\ leased lease r.
Proof.
  intros (_ & Hall & _)%claim_inv Hj. apply list_elem_of_fmap in Hj as (job & -> & Hjob).
  apply (list_elem_of_fmap_2 handed) in Hjob. apply list_elem_of_lookup in Hjob as [i Hi].
  destruct (Forall2_lookup_r _ _ _ _ _ Hall Hi) as (id & _ & r & _ & _ & Hr & Hh).
  injection Hh as Hid _. rewrite Hid. eexists. split; [exact Hr|]. unfold leased, run_or_page. cbn.
  destruct (_ <=? _); split; try done. intros _. exists lease. split; [done|lia].
Qed.

(** While a lease runs, no claim by any watcher returns the job: after
    a claim, every later sequence of claims made before the lease ends leaves
    it alone. *)
Theorem lease_exclusive db h now lease limit jobs db' j claims :
  claim_due_watch_jobs db h now lease limit = Ok (jobs, db') -> j ∈ (wj_job_id <$> jobs) ->
  (forall c, c ∈ claims -> c.1.1.2 < lease) ->
  j ∉ ((fold_left watch_step ((fun c => WClaim c.1.1.1 c.1.1.2 c.1.2 c.2) <$> claims) (db', [])).2).*1.
Proof.
  intros Hc Hj Hlt. destruct (claim_leases _ _ _ _ _ _ _ _ Hc Hj) as (r & Hr & Hl). clear Hc Hj.
  assert (j ∉ (@nil Handed).*1) as Hlog by apply not_elem_of_nil. revert db' r Hr Hl Hlog.
  generalize (@nil Handed). induction claims as [|[[[h' now'] lease'] limit'] claims IH]; intros log db' r Hr Hl Hlog; [done|].
  cbn [fmap list_fmap fold_left watch_step fst snd].
  assert (forall c, c ∈ claims -> c.1.1.2 < lease) as Hlt' by (intros c Hin; apply Hlt; by apply elem_of_cons; right).
  pose proof (Hlt (h', now', lease', limit') ltac:(apply list_elem_of_here)) as Hnow. cbn in Hnow.
  destruct (claim_due_watch_jobs db' h' now' lease' limit') as [[jobs' db'']|e] eqn:Hc; [|by apply (IH Hlt' _ _ r)].
  destruct (claim_inv _ _ _ _ _ _ _ Hc) as (_ & Hall & Hother).
  assert (j ∉ select_due db' h' now' limit') as Hno.
  { intros Hin. destruct (elem_of_select_due _ _ _ _ _ Hin) as (r' & Hr' & Hd). simplify_eq.
    by rewrite (leased_not_due _ _ _ _ Hl Hnow) in Hd. }
  apply (IH Hlt' _ _ r); [by rewrite Hother|done|].
  rewrite fmap_app, elem_of_app. intros [?|Hin]; [done|].
  apply list_elem_of_fmap in Hin as (hd & -> & Hin). apply list_elem_of_lookup in Hin as [i Hi].
  destruct (Forall2_lookup_r _ _ _ _ _ Hall Hi) as (id & Hid & r' & _ & _ & _ & ->).
  apply Hno. by eapply list_elem_of_lookup_2.
Qed.
End correct.

(** ** A history *)

#[local] Existing Instances toy_env toy_crypto toy_pg.

Definition toy_watch : WatchJobRequest :=
  mkWatchJobRequest (toy_hex 49) (toy_hex 50) None "refund_broadcast" (toy_hex 51) VNull None (Some 5) 2 1.

(** Two attempts allowed: the first claim runs the job, the second pages it. *)
Lemma attempts_bounded_witness :
  let st := watch_run [WEnqueue toy_watch; WClaim 0 10 40 8; WClaim 0 50 80 8] in
  st.2 = [(toy_hex 49, "running"); (toy_hex 49, "page")]%string
  /\ exists r, db_watch_jobs st.1 !! toy_hex 49 = Some r /\ wt_maximum_attempts r = 2
       /\ runs (toy_hex 49) st.2 <= wt_maximum_attempts r - 1.
Proof.
  intros st. split; [vm_compute; reflexivity|].
  destruct (db_watch_jobs st.1 !! toy_hex 49) as [r|] eqn:Hr; [|vm_compute in Hr; done].
  exists r. destruct (attempts_bounded _ _ _ Hr) as (_ & _ & Hu).
  split; [done|]. split; [vm_compute in Hr; by injection Hr as <-|exact Hu].
Defined.

Lemma lease_exclusive_witness :
  let db := (watch_run [WEnqueue toy_watch]).1 in
  exists jobs db', claim_due_watch_jobs db 0 10 40 8 = Ok (jobs, db') /\ (wj_job_id <$> jobs) = [toy_hex 49]
    /\ toy_hex 49 ∉ ((fold_left watch_step [WClaim 0 39 90 8] (db', [])).2).*1.
Proof.
  intros db. destruct (claim_due_watch_jobs db 0 10 40 8) as [[jobs db']|e] eqn:Hc; [|vm_compute in Hc; done].
  assert (wj_job_id <$> jobs = [toy_hex 49]) as Hj by (vm_compute in Hc; by injection Hc as <- _).
  exists jobs, db'. split; [done|]. split; [done|].
  apply (lease_exclusive db 0 10 40 8 jobs db' (toy_hex 49) [(0, 39, 90, 8)]); [done| |].
  - rewrite Hj. apply list_elem_of_here.
  - intros c ->%list_elem_of_singleton. reflexivity.
Defined.
