(* ===== verification/Effects.v ===== *)
(** * Effects: state that outlives an error

    An asynchronous method of a component that owns a connection, a store and
    counters: what it did before an error stays done.  [Eff S E A] is a
    computation over the state [S] that ends in a value or an error, in either
    case with the state it left. *)

From S2P Require Import Prelude.

Definition Eff (S E A : Type) : Type := S -> result E A * S.

#[export] Instance eff_ret {S E} : MRet (Eff S E) := fun _ a s => (Ok a, s).
#[export] Instance eff_bind {S E} : MBind (Eff S E) := fun A B f m s =>
  match m s with
  | (Ok a, s') => f a s'
  | (Err e, s') => (Err e, s')
  end.

Definition eff_raise {S E A} (e : E) : Eff S E A := fun s => (Err e, s).

(** A pure fallible computation; its error becomes one of the component's. *)
Definition eff_lift {S E F A} (f : F -> E) (m : result F A) : Eff S E A := fun s => (map_err f m, s).

(** [match call().await { Ok(..) => .., Err(..) => .. }]: the outcome as a
    value. *)
Definition eff_try {S E F A} (m : Eff S F A) : Eff S E (result F A) := fun s =>
  let '(r, s') := m s in (Ok r, s').

(** [map_err(From::from)] of [?]. *)
Definition eff_err {S E F A} (f : F -> E) (m : Eff S F A) : Eff S E A := fun s =>
  let '(r, s') := m s in (map_err f r, s').

Definition eff_get {S E} : Eff S E S := fun s => (Ok s, s).
Definition eff_modify {S E} (f : S -> S) : Eff S E unit := fun s => (Ok tt, f s).

(** [for x in l { body(x)? }]. *)
Fixpoint eff_for {S E A} (l : list A) (body : A -> Eff S E unit) : Eff S E unit :=
  match l with
  | [] => mret tt
  | x :: l' => _ ← body x; eff_for l' body
  end.

(** ** Running *)

Lemma eff_bind_Ok {S E A B} (m : Eff S E A) (k : A -> Eff S E B) s a s' :
  m s = (Ok a, s') -> (m ≫= k) s = k a s'.
Proof. intros Hm. unfold mbind, eff_bind. by rewrite Hm. Qed.

Lemma eff_bind_Err {S E A B} (m : Eff S E A) (k : A -> Eff S E B) s e s' :
  m s = (Err e, s') -> (m ≫= k) s = (Err e, s').
Proof. intros Hm. unfold mbind, eff_bind. by rewrite Hm. Qed.

Lemma eff_bind_inv {S E A B} (m : Eff S E A) (k : A -> Eff S E B) s b s' :
  (m ≫= k) s = (Ok b, s') -> exists a s1, m s = (Ok a, s1) /\ k a s1 = (Ok b, s').
Proof. unfold mbind, eff_bind. destruct (m s) as [[a|e] s1]; [by eauto|done]. Qed.

(** ** Reasoning: what a computation does to the state, whatever it returns *)

(** From states in [P], the states before and after [m] are related by
    [R]. *)
Definition keeps {S E A} (P : S -> Prop) (R : S -> S -> Prop) (m : Eff S E A) : Prop :=
  forall s, P s -> R s (m s).2.

(** [R] is a preorder that [P] is stable under. *)
Class Stable {S} (P : S -> Prop) (R : S -> S -> Prop) : Prop := {
  stable_order :: PreOrder R;
  stable s s' : P s -> R s s' -> P s';
}.

Section keeps.
Context {S E : Type} (P : S -> Prop) (R : S -> S -> Prop) `{!Stable P R}.

Lemma keeps_ret {A} (a : A) : keeps (E := E) P R (mret a).
Proof. intros s _. cbn. reflexivity. Qed.

Lemma keeps_raise {A} (e : E) : keeps P R (eff_raise (A := A) e).
Proof. intros s _. cbn. reflexivity. Qed.

Lemma keeps_lift {F A} (f : F -> E) (m : result F A) : keeps P R (eff_lift f m).
Proof. intros s _. cbn. reflexivity. Qed.

Lemma keeps_get : keeps (E := E) P R eff_get.
Proof. intros s _. cbn. reflexivity. Qed.

(** The continuation may rely on what [m] returned. *)
Lemma keeps_bind_post {A B} (Q : A -> S -> Prop) (m : Eff S E A) (k : A -> Eff S E B) :
  keeps P R m -> (forall s a, P s -> (m s).1 = Ok a -> Q a (m s).2) ->
  (forall a, keeps (fun s => P s /\ Q a s) R (k a)) -> keeps P R (m ≫= k).
Proof.
  intros Hm HQ Hk s Hs. specialize (Hm s Hs). specialize (HQ s). unfold mbind, eff_bind.
  destruct (m s) as [[a|e] s']; cbn in *; [|exact Hm].
  etransitivity; [exact Hm|]. apply Hk. split; [by eapply stable|by apply HQ].
Qed.

Lemma keeps_bind {A B} (m : Eff S E A) (k : A -> Eff S E B) :
  keeps P R m -> (forall a, keeps P R (k a)) -> keeps P R (m ≫= k).
Proof.
  intros Hm Hk. apply keeps_bind_post with (Q := fun _ _ => True); [done|done|]. intros a s [Hs _]. by apply Hk.
Qed.

(** A pure computation: the continuation runs on its value. *)
Lemma keeps_lift_bind {F A B} (f : F -> E) (m : result F A) (k : A -> Eff S E B) :
  (forall a, m = Ok a -> keeps P R (k a)) -> keeps P R (eff_lift f m ≫= k).
Proof.
  intros Hk s Hs. unfold mbind, eff_bind, eff_lift. destruct m as [a|e]; cbn; [by apply Hk|reflexivity].
Qed.

Lemma keeps_try {F A} (m : Eff S F A) : keeps P R m -> keeps (E := E) P R (eff_try m).
Proof. intros Hm s Hs. specialize (Hm s Hs). unfold eff_try. by destruct (m s). Qed.

Lemma keeps_err {F A} (f : F -> E) (m : Eff S F A) : keeps P R m -> keeps P R (eff_err f m).
Proof. intros Hm s Hs. specialize (Hm s Hs). unfold eff_err. by destruct (m s). Qed.

Lemma keeps_for {A} (l : list A) (body : A -> Eff S E unit) :
  (forall x, x ∈ l -> keeps P R (body x)) -> keeps P R (eff_for l body).
Proof.
  induction l as [|x l IH]; intros Hb; cbn; [apply keeps_ret|].
  apply keeps_bind; [apply Hb, list_elem_of_here|].
  intros _. apply IH. intros y Hy. by apply Hb, list_elem_of_further.
Qed.
End keeps.
