(* ===== verification/Bitcoind.v ===== *)
(** * Bitcoind: the JSON-RPC client of the provider

    [immortal-provider/src/bitcoind.rs]: request identifiers, the typed
    methods, the reader of HTTP responses and of JSON-RPC envelopes, the fee
    estimate, and the back-off of the poller.

    The network is a list of what successive reads of the socket return; the
    JSON reader and the host's resolver are operations of a class.
    [http_reader_exact] says that the response does not depend on how the
    network cuts it; [fee_estimate_exact] that the fee rate is the exact
    decimal rounded up. *)

From S2P Require Import Prelude Text Utf8 Hex Event Filter Json Custody ProviderDb Effects.

Definition DEFAULT_MAX_REQUEST_BYTES : Z := 4 * 1024 * 1024.
Definition MAX_RPC_ID_BYTES : Z := 128.

Inductive BitcoindError : Type :=
| BInvalidConfiguration (detail : string)
| BResolutionFailed
| BNonLoopbackEndpoint
| BConnectionFailed
| BTimedOut (operation : string)
| BIo (operation : string)
| BProtocol (detail : string)
| BHttpStatus (status : Z)
| BJson (detail : string)
| BWrongResponseId
| BRpc (code : Z).

#[export] Instance BitcoindError_eq_dec : EqDecision BitcoindError.
Proof. solve_decision. Defined.

(** ** Requests *)

Definition request_id_char (byte : Z) : bool :=
  is_ascii_alphanumeric byte || mem byte [45; 95; 46; 58].

(** [RpcRequestId::new]: the identifier is the text itself. *)
Definition rpc_request_id (value : string) : result BitcoindError string :=
  if (str_len value =? 0) || (MAX_RPC_ID_BYTES <? str_len value)
     || negb (forallb request_id_char (as_bytes value))
  then Err (BInvalidConfiguration "RPC request ID is invalid")
  else Ok value.

Definition rpc_validate_hash (value : string) : result BitcoindError unit :=
  if (str_len value =? 64) && forallb hex_char (as_bytes value) then Ok tt
  else Err (BInvalidConfiguration "hash is not 64-character lowercase hexadecimal").

Definition rpc_validate_hex (value detail : string) : result BitcoindError unit :=
  if negb (str_len value =? 0) && (str_len value mod 2 =? 0)
     && (str_len value <=? DEFAULT_MAX_REQUEST_BYTES * 2)
     && forallb is_ascii_hexdigit (as_bytes value)
  then Ok tt else Err (BInvalidConfiguration detail).

Definition wallet_char (byte : Z) : bool := is_ascii_alphanumeric byte || mem byte [45; 95; 46].

Definition validate_rpc_path (path : string) : result BitcoindError unit :=
  if String.eqb path "/" then Ok tt
  else match strip_prefix "/wallet/" path with
  | None => Err (BInvalidConfiguration "RPC path is invalid")
  | Some wallet =>
      if (str_len wallet =? 0) || (128 <? str_len wallet)
         || negb (forallb wallet_char (as_bytes wallet))
      then Err (BInvalidConfiguration "RPC path is invalid") else Ok tt
  end.

Definition parse_hash_result (v : Value) (detail : string) : result BitcoindError string :=
  hash ← ok_or (BJson detail) (value_as_str v);
  _ ← rpc_validate_hash hash;
  Ok hash.

(** ** The HTTP response *)

Record BitcoindLimits : Type := mkLimits {
  max_header_bytes : Z; max_response_bytes : Z; max_request_bytes : Z
}.
Record HttpResponse : Type := mkHttpResponse { hp_status : Z; hp_body : list Z }.

(** What a read of the socket returns; the end of the list is the end of the
    stream. *)
Inductive Chunk : Type := Data (bytes : list Z) | ReadError.

Definition CRLF : list Z := [13; 10].
Definition HEADER_END : list Z := [13; 10; 13; 10].

(** [windows(4).position(..)]. *)
Fixpoint position_of (p l : list Z) : option nat :=
  match strip_prefix_bytes p l with
  | Some _ => Some 0%nat
  | None => match l with [] => None | _ :: l' => S <$> position_of p l' end
  end.
Definition find_header_end (bytes : list Z) : option nat := position_of HEADER_END bytes.

(** The loop that reads the headers: the position of their end, the bytes
    read and what is left of the stream. *)
Fixpoint read_head (limits : BitcoindLimits) (bytes : list Z) (stream : list Chunk)
    : result BitcoindError (nat * list Z * list Chunk) :=
  match stream with
  | [] => Err (BProtocol "truncated response headers")
  | ReadError :: _ => Err (BIo "response read")
  | Data [] :: _ => Err (BProtocol "truncated response headers")
  | Data chunk :: rest =>
      let bytes := bytes ++ chunk in
      match find_header_end bytes with
      | Some position =>
          if max_header_bytes limits <? Z.of_nat position
          then Err (BProtocol "response headers are too large")
          else Ok (position, bytes, rest)
      | None =>
          if max_header_bytes limits <? len bytes
          then Err (BProtocol "response headers are too large")
          else read_head limits bytes rest
      end
  end.

(** [AsyncReadExt::read_exact] of [n] bytes. *)
Fixpoint read_exact (n : nat) (stream : list Chunk) : option (list Z) :=
  match n with
  | O => Some []
  | _ =>
      match stream with
      | [] | ReadError :: _ | Data [] :: _ => None
      | Data chunk :: rest =>
          if (n <=? length chunk)%nat then Some (take n chunk)
          else app chunk <$> read_exact (n - length chunk) rest
      end
  end.

(** [str::split("\r\n")]. *)
Fixpoint split_crlf_go (piece l : list Z) : list (list Z) :=
  match l with
  | [] => [piece]
  | 13 :: 10 :: l' => piece :: split_crlf_go [] l'
  | b :: l' => split_crlf_go (piece ++ [b]) l'
  end.
Definition split_crlf (l : list Z) : list (list Z) := split_crlf_go [] l.

(** [str::trim] on characters. *)
Fixpoint drop_whitespace (cs : list Z) : list Z :=
  match cs with
  | [] => []
  | c :: cs' => if is_whitespace c then drop_whitespace cs' else cs
  end.
Definition trim_chars (cs : list Z) : list Z := reverse (drop_whitespace (reverse (drop_whitespace cs))).
Definition trim (s : string) : string := of_bytes (utf8_encode (trim_chars (chars s))).

(** [str::split_ascii_whitespace]. *)
Fixpoint ascii_words (word l : list Z) : list (list Z) :=
  match l with
  | [] => match word with [] => [] | _ => [word] end
  | b :: l' =>
      if is_ascii_whitespace b
      then match word with [] => ascii_words [] l' | _ => word :: ascii_words [] l' end
      else ascii_words (word ++ [b]) l'
  end.

Definition parse_status (line : list Z) : result BitcoindError Z :=
  let parts := ascii_words [] line in
  version ← ok_or (BProtocol "status line is incomplete") (parts !! 0%nat);
  if negb (mem version [as_bytes "HTTP/1.0"; as_bytes "HTTP/1.1"])
  then Err (BProtocol "unsupported HTTP version")
  else
  status ← ok_or (BProtocol "status line has no status") (parts !! 1%nat);
  ok_or (BProtocol "HTTP status is invalid") (parse_bytes U16_MAX status).

Definition eq_ignore_ascii_case (a b : string) : bool :=
  String.eqb (to_ascii_lowercase a) (to_ascii_lowercase b).

(** One header line: the content length so far and whether a transfer
    encoding was named. *)
Definition header_line (st : option Z * bool) (line : list Z) : result BitcoindError (option Z * bool) :=
  let '(content_length, transfer_encoding) := st in
  match line with
  | [] => Ok st
  | _ =>
      '(name, value) ← ok_or (BProtocol "malformed response header") (split_once_bytes 58 line);
      let name := trim (of_bytes name) in
      let value := trim (of_bytes value) in
      if eq_ignore_ascii_case name "content-length" then
        if bool_decide (is_Some content_length) || mem 44 (as_bytes value)
        then Err (BProtocol "ambiguous Content-Length header")
        else
        n ← ok_or (BProtocol "invalid Content-Length header") (parse_u U64_MAX value);
        Ok (Some n, transfer_encoding)
      else if eq_ignore_ascii_case name "transfer-encoding" then Ok (content_length, true)
      else Ok st
  end.

(** What the head says: the status and the content length. *)
Definition parse_head (limits : BitcoindLimits) (head : list Z) : result BitcoindError (Z * Z) :=
  if negb (is_utf8 head) then Err (BProtocol "response headers are not ASCII")
  else
  let lines := split_crlf head in
  status_line ← ok_or (BProtocol "response has no status line") (lines !! 0%nat);
  status ← parse_status status_line;
  '(content_length, transfer_encoding) ← try_fold header_line (None, false) (tail lines);
  if (transfer_encoding : bool) then Err (BProtocol "Transfer-Encoding responses are unsupported")
  else
  content_length ← ok_or (BProtocol "response has no Content-Length header") content_length;
  if max_response_bytes limits <? content_length then Err (BProtocol "response body is too large")
  else Ok (status, content_length).

Definition read_http_response (limits : BitcoindLimits) (stream : list Chunk)
    : result BitcoindError HttpResponse :=
  '(header_end, bytes, stream) ← read_head limits [] stream;
  '(status, content_length) ← parse_head limits (take header_end bytes);
  let received := drop (header_end + 4) bytes in
  if content_length <? len received then Err (BProtocol "response exceeds declared Content-Length")
  else
  rest ← ok_or (BProtocol "truncated response body")
           (read_exact (Z.to_nat (content_length - len received)) stream);
  Ok (mkHttpResponse status (received ++ rest)).

(** ** The JSON-RPC envelope *)

(** [serde_json::from_slice], and the connection: what the reads return after
    a request has been written, or why it could not be. *)
Class JsonReader : Type := { from_slice : list Z -> option Value }.

Definition value_as_i64 (v : Value) : option Z :=
  match v with VInt n => if in_range (- I64_MAX - 1) I64_MAX n then Some n else None | _ => None end.
Definition value_as_u64 (v : Value) : option Z :=
  match v with VInt n => if in_range 0 U64_MAX n then Some n else None | _ => None end.
Definition value_as_array (v : Value) : option (list Value) :=
  match v with VArray l => Some l | _ => None end.
Definition value_as_object (v : Value) : option (list (string * Value)) :=
  match v with VObject l => Some l | _ => None end.

Section envelope.
Context `{JsonReader}.

Definition decode_rpc_response (body : list Z) (request_id : string) : result BitcoindError Value :=
  response ← ok_or (BJson "body is not JSON") (from_slice body);
  object ← ok_or (BJson "response is not an object") (value_as_object response);
  if negb (bool_decide (object_get "id" object ≫= value_as_str = Some request_id))
  then Err BWrongResponseId
  else
  match object_get "error" object with
  | Some VNull => ok_or (BJson "response has no result member") (object_get "result" object)
  | Some (VObject error) =>
      code ← ok_or (BJson "RPC error has no numeric code") (object_get "code" error ≫= value_as_i64);
      Err (BRpc code)
  | _ => Err (BJson "response has invalid error member")
  end.

Context `{ProviderEnv}.

Definition method_char (byte : Z) : bool := is_ascii_lowercase byte || is_ascii_digit byte.

(** [call_path]; [exchange] writes the body of the request and returns the
    reads that follow. *)
Definition call_path (limits : BitcoindLimits) (exchange : list Z -> result BitcoindError (list Chunk))
    (request_id path method : string) (params : Value) : result BitcoindError Value :=
  if (str_len method =? 0) || (64 <? str_len method)
     || negb (forallb method_char (as_bytes method))
     || negb (bool_decide (is_Some (value_as_array params)))
  then Err (BInvalidConfiguration "RPC method or params are invalid")
  else
  _ ← validate_rpc_path path;
  body ← map_err (fun _ => BInvalidConfiguration "RPC request is not serializable")
           (json_to_vec (json_object [("jsonrpc", VString "1.0"); ("id", VString request_id);
                                      ("method", VString method); ("params", params)]%string));
  if max_request_bytes limits <? len body
  then Err (BInvalidConfiguration "RPC request exceeds the configured byte limit")
  else
  stream ← exchange body;
  response ← read_http_response limits stream;
  if hp_status response =? 200 then decode_rpc_response (hp_body response) request_id
  else if hp_status response =? 500 then
    match decode_rpc_response (hp_body response) request_id with
    | Err (BRpc code) => Err (BRpc code)
    | _ => Err (BHttpStatus (hp_status response))
    end
  else Err (BHttpStatus (hp_status response)).
End envelope.

(** ** The typed methods

    [call] is the client's [call]: the daemon answers according to everything
    that happened before, which is the state [S]. *)

Definition value_is_object (v : Value) : bool := bool_decide (is_Some (value_as_object v)).

Record ChainTip : Type := mkChainTip { ct_hash : string; ct_height : Z }.

Section methods.
Context {S : Type} (call : string -> string -> Value -> Eff S BitcoindError Value).
Notation M := (Eff S BitcoindError).

Definition check {A} (m : result BitcoindError A) : M A := eff_lift id m.

Definition chain_tip (request_id : string) : M ChainTip :=
  answer ← call request_id "getblockchaininfo" (VArray []);
  check (object ← ok_or (BJson "chain info result is not an object") (value_as_object answer);
         hash ← ok_or (BJson "chain info has no best block hash")
                  (object_get "bestblockhash" object ≫= value_as_str);
         _ ← rpc_validate_hash hash;
         height ← ok_or (BJson "chain info has no block height")
                    (object_get "blocks" object ≫= value_as_u64);
         Ok (mkChainTip hash height)).

Definition best_block_hash (request_id : string) : M string :=
  answer ← call request_id "getbestblockhash" (VArray []);
  check (parse_hash_result answer "best-block result is not a hash").

Definition block_header (request_id block_hash : string) (verbose : bool) : M Value :=
  _ ← check (rpc_validate_hash block_hash);
  call request_id "getblockheader" (VArray [VString block_hash; VBool verbose]).

Definition block (request_id block_hash : string) (verbosity : Z) : M Value :=
  _ ← check (rpc_validate_hash block_hash);
  if 2 <? verbosity then eff_raise (BInvalidConfiguration "block verbosity must be 0, 1, or 2")
  else call request_id "getblock" (VArray [VString block_hash; VInt verbosity]).

Definition raw_transaction (request_id transaction_id : string) (verbose : bool) : M Value :=
  _ ← check (rpc_validate_hash transaction_id);
  call request_id "getrawtransaction" (VArray [VString transaction_id; VBool verbose]).

Definition raw_mempool (request_id : string) (verbose : bool) : M Value :=
  call request_id "getrawmempool" (VArray [VBool verbose]).

Definition mempool_entry (request_id transaction_id : string) : M Value :=
  _ ← check (rpc_validate_hash transaction_id);
  answer ← call request_id "getmempoolentry" (VArray [VString transaction_id]);
  if value_is_object answer then mret answer
  else eff_raise (BJson "getmempoolentry result has invalid shape").

Definition transaction_output (request_id transaction_id : string) (output_index : Z)
    (include_mempool : bool) : M (option Value) :=
  _ ← check (rpc_validate_hash transaction_id);
  answer ← call request_id "gettxout"
             (VArray [VString transaction_id; VInt output_index; VBool include_mempool]);
  match answer with
  | VNull => mret None
  | VObject _ => mret (Some answer)
  | _ => eff_raise (BJson "gettxout result has invalid shape")
  end.

(** [broadcast] without a maximum fee rate, as every caller has it. *)
Definition broadcast (request_id raw : string) : M string :=
  _ ← check (rpc_validate_hex raw "raw transaction is not bounded hexadecimal");
  answer ← call request_id "sendrawtransaction" (VArray [VString raw]);
  check (parse_hash_result answer "broadcast result is not a transaction ID").
End methods.

(** ** The fee estimate *)

(** [str::split_once(['e', 'E'])]. *)
Fixpoint split_once_exponent (l : list Z) : option (list Z * list Z) :=
  match l with
  | [] => None
  | b :: l' =>
      if (b =? 101) || (b =? 69) then Some ([], l')
      else match split_once_exponent l' with
           | Some (x, y) => Some (b :: x, y)
           | None => None
           end
  end.

(** [str::parse::<i32>]. *)
Definition parse_i32 (l : list Z) : option Z :=
  match l with
  | 45 :: l' => v ← parse_digits (I32_MAX + 1) l'; Some (- v)
  | _ => parse_bytes I32_MAX l
  end.

Definition checked_i32 (v : Z) : option Z := if in_range (- I32_MAX - 1) I32_MAX v then Some v else None.
Definition checked_pow (max base exponent : Z) : option Z :=
  let p := base ^ exponent in if p <=? max then Some p else None.

(** [whole], [fraction] and [exponent] of the text of a JSON number. *)
Definition decimal_parts (value : list Z) : result BitcoindError (list Z * list Z * Z) :=
  '(mantissa, exponent) ←
    match split_once_exponent value with
    | Some (mantissa, exponent) =>
        e ← ok_or (BJson "fee estimate exponent is invalid") (parse_i32 exponent); Ok (mantissa, e)
    | None => Ok (value, 0)
    end;
  if match mantissa with (45 | 43) :: _ => true | _ => false end
  then Err (BJson "fee estimate feerate is invalid")
  else
  let '(whole, fraction) := default (mantissa, []) (split_once_bytes 46 mantissa) in
  if match whole with [] => true | _ => false end
     || negb (forallb is_ascii_digit whole) || negb (forallb is_ascii_digit fraction)
  then Err (BJson "fee estimate feerate is invalid")
  else Ok (whole, fraction, exponent).

Definition decimal_btc_per_kvb_to_sat_per_vbyte (value : string) : result BitcoindError Z :=
  '(whole, fraction, exponent) ← decimal_parts (as_bytes value);
  coefficient ← ok_or (BJson "fee estimate feerate is too precise")
                  (parse_bytes U128_MAX (whole ++ fraction));
  if coefficient =? 0 then Err (BJson "fee estimate feerate is invalid")
  else
  fraction_digits ← ok_or (BJson "fee estimate feerate is too precise") (checked_i32 (len fraction));
  scale ← ok_or (BJson "fee estimate exponent is invalid")
            (checked_i32 (exponent - fraction_digits) ≫= fun scale => checked_i32 (scale + 5));
  sat_per_vbyte ←
    (if 0 <=? scale then
       multiplier ← ok_or (BJson "fee estimate exponent is too large") (checked_pow U128_MAX 10 scale);
       ok_or (BJson "fee estimate is too large") (checked_mul U128_MAX coefficient multiplier)
     else
       denominator_scale ← ok_or (BJson "fee estimate exponent is invalid") (checked_i32 (- scale));
       denominator ← ok_or (BJson "fee estimate exponent is too small")
                       (checked_pow U128_MAX 10 denominator_scale);
       Ok (div_ceil coefficient denominator));
  ok_or (BJson "fee estimate is too large") (try_from_u U64_MAX sat_per_vbyte).

(** [Number::to_string]. *)
Definition number_text (v : Value) : option string :=
  match v with
  | VInt n => Some (if n <? 0 then of_bytes (45 :: as_bytes (to_string (- n))) else to_string n)
  | VFloat text => Some text
  | _ => None
  end.

Definition parse_feerate_estimate (v : Value) : result BitcoindError (option Z) :=
  object ← ok_or (BJson "fee estimate result is not an object") (value_as_object v);
  let errors_report_no_estimate :=
    match object_get "errors" object ≫= value_as_array with Some (_ :: _) => true | _ => false end in
  match object_get "feerate" object with
  | Some feerate =>
      match number_text feerate with
      | Some text =>
          sat_per_vbyte ← decimal_btc_per_kvb_to_sat_per_vbyte text;
          if negb (in_range 1 2000 sat_per_vbyte)
          then Err (BJson "fee estimate is outside the provider pricing bound")
          else Ok (Some sat_per_vbyte)
      | None =>
          match feerate with
          | VNull => if errors_report_no_estimate then Ok None
                     else Err (BJson "fee estimate feerate is invalid")
          | _ => Err (BJson "fee estimate feerate is invalid")
          end
      end
  | None => if errors_report_no_estimate then Ok None
            else Err (BJson "fee estimate has neither a feerate nor an error")
  end.

Definition estimated_feerate_sat_per_vbyte {S}
    (call : string -> string -> Value -> Eff S BitcoindError Value) (request_id : string)
    (confirmation_target : Z) : Eff S BitcoindError (option Z) :=
  if negb (in_range 1 1008 confirmation_target)
  then eff_raise (BInvalidConfiguration "fee estimate confirmation target must be between 1 and 1008")
  else
  answer ← call request_id "estimatesmartfee" (VArray [VInt confirmation_target; VString "conservative"]);
  check (parse_feerate_estimate answer).

(** ** Back-off of the poller; durations in nanoseconds *)

Definition DURATION_MAX : Z := U64_MAX * 1000000000 + 999999999.
Definition from_secs (s : Z) : Z := s * 1000000000.

Record PollBackoff : Type := mkBackoff {
  pb_initial : Z; pb_maximum : Z; pb_current : Z; pb_consecutive_failures : Z; pb_maximum_failures : Z
}.

Definition poll_backoff_new (initial maximum maximum_failures : Z) : result BitcoindError PollBackoff :=
  if (initial =? 0) || (maximum <? initial) || (from_secs 300 <? maximum)
     || (maximum_failures =? 0) || (1000 <? maximum_failures)
  then Err (BInvalidConfiguration "poll backoff bounds are invalid")
  else Ok (mkBackoff initial maximum initial 0 maximum_failures).

Definition record_failure (b : PollBackoff) : option Z * PollBackoff :=
  let failures := saturating_add U32_MAX (pb_consecutive_failures b) 1 in
  if pb_maximum_failures b <? failures
  then (None, mkBackoff (pb_initial b) (pb_maximum b) (pb_current b) failures (pb_maximum_failures b))
  else (Some (pb_current b),
        mkBackoff (pb_initial b) (pb_maximum b)
          (Z.min (Z.min DURATION_MAX (2 * pb_current b)) (pb_maximum b)) failures (pb_maximum_failures b)).

Definition record_success (b : PollBackoff) : PollBackoff :=
  mkBackoff (pb_initial b) (pb_maximum b) (pb_initial b) 0 (pb_maximum_failures b).

(** * Theorems *)

(** ** Positions *)

Lemma strip_prefix_bytes_app p l l' r : strip_prefix_bytes p l = Some r -> strip_prefix_bytes p (l ++ l') = Some (r ++ l').
Proof. rewrite !strip_prefix_bytes_Some. intros ->. by rewrite <- app_assoc. Qed.

Lemma strip_prefix_before p l l' r :
  strip_prefix_bytes p (l ++ l') = Some r -> (length p <= length l)%nat -> is_Some (strip_prefix_bytes p l).
Proof.
  rewrite strip_prefix_bytes_Some. intros Heq Hl. exists (drop (length p) l).
  apply strip_prefix_bytes_Some. rewrite <- (take_drop (length p) l) at 1. f_equal.
  pose proof (f_equal (take (length p)) Heq) as Ht. by rewrite take_app_le, take_app_length in Ht.
Qed.

Lemma position_within p l i : position_of p l = Some i -> (i + length p <= length l)%nat.
Proof.
  revert i. induction l as [|b l IH]; intros i Hp; cbn [position_of] in Hp;
    destruct (strip_prefix_bytes p _) as [r|] eqn:Hs; simplify_eq;
    try (apply strip_prefix_bytes_Some in Hs; rewrite Hs, length_app; lia).
  destruct (position_of p l) as [j|]; [|done]. cbn in Hp. simplify_eq. specialize (IH _ eq_refl). cbn. lia.
Qed.

Lemma position_app p l l' i : position_of p l = Some i -> position_of p (l ++ l') = Some i.
Proof.
  revert i. induction l as [|b l IH]; intros i Hp.
  - cbn in Hp. destruct (strip_prefix_bytes p []) as [r|] eqn:Hs; [|done]. simplify_eq.
    apply (strip_prefix_bytes_app _ _ l') in Hs. destruct l'; cbn [position_of app] in *; by rewrite Hs.
  - cbn [position_of app] in *. destruct (strip_prefix_bytes p (b :: l)) as [r|] eqn:Hs.
    + apply (strip_prefix_bytes_app _ _ l') in Hs. cbn [app] in Hs. by rewrite Hs.
    + destruct (position_of p l) as [j|] eqn:Hj; [|done]. cbn in Hp. simplify_eq.
      rewrite (IH _ eq_refl). destruct (strip_prefix_bytes p (b :: l ++ l')) as [r|] eqn:Hs'; [|done].
      exfalso. apply position_within in Hj. apply (strip_prefix_before _ (b :: l) l') in Hs' as [r' Hr'];
        [congruence|cbn; lia].
Qed.

Lemma position_late p l l' i :
  position_of p l = None -> position_of p (l ++ l') = Some i -> (length l < i + length p)%nat.
Proof.
  revert i. induction l as [|b l IH]; intros i Hn Hp; cbn [position_of app] in *.
  - cbn in Hn. destruct p; cbn in *; [done|lia].
  - destruct (strip_prefix_bytes p (b :: l)) as [r|] eqn:Hs; [done|].
    destruct (position_of p l) as [j|] eqn:Hj; [done|].
    destruct (strip_prefix_bytes p (b :: l ++ l')) as [r|] eqn:Hs'.
    + simplify_eq. destruct (decide (length p <= length (b :: l))%nat) as [Hle|]; [|lia].
      apply (strip_prefix_before _ (b :: l) l') in Hs' as [r' Hr']; [congruence|done].
    + destruct (position_of p (l ++ l')) as [j|]; [|done]. cbn in Hp. simplify_eq.
      specialize (IH _ eq_refl eq_refl). cbn. lia.
Qed.

(** ** The reader of responses *)

(** The bytes the stream delivers before it ends or fails. *)
Fixpoint delivered (stream : list Chunk) : list Z :=
  match stream with
  | Data [] :: _ | ReadError :: _ | [] => []
  | Data chunk :: rest => chunk ++ delivered rest
  end.

Definition cut (chunks : list (list Z)) : list Chunk := Data <$> chunks.

Lemma read_exact_delivered n stream body :
  read_exact n stream = Some body <-> body = take n (delivered stream) /\ (n <= length (delivered stream))%nat.
Proof.
  revert n body. induction stream as [|[[|b chunk]|] rest IH]; intros [|n] body; cbn [read_exact delivered];
    try (split; [by intros [= <-]|by intros [-> _]]); try (split; [done|cbn; lia]).
  { split; [intros [= <-]; split; [done|lia]|by intros [-> _]]. }
  change (b :: chunk ++ delivered rest) with ((b :: chunk) ++ delivered rest).
  rewrite length_app. case_match eqn:Hle; bool_to_prop.
  - apply Nat.leb_le in Hle. rewrite take_app_le by done. split; [intros [= <-]; split; [done|lia]|by intros [-> _]].
  - apply Nat.leb_gt in Hle. rewrite take_app_ge by lia. split.
    + intros (b' & Hb & [= ->])%fmap_Some. apply IH in Hb as [-> Hb]. split; [done|lia].
    + intros [-> Hb]. apply fmap_Some. eexists. split; [|done]. apply IH. split; [done|lia].
Qed.

Lemma delivered_cut chunks : Forall (fun c => c <> []) chunks -> delivered (cut chunks) = concat chunks.
Proof. induction 1 as [|[|b c] chunks Hc _ IH]; cbn; [done..|]. do 2 f_equal. exact IH. Qed.

(** The headers are found wherever the reads cut the stream. *)
Lemma read_head_found limits p chunks acc :
  Forall (fun c => c <> []) chunks ->
  find_header_end acc = None -> find_header_end (acc ++ concat chunks) = Some p ->
  Z.of_nat p + 4 <= max_header_bytes limits ->
  exists before after, concat chunks = before ++ concat after /\ Forall (fun c => c <> []) after
    /\ read_head limits acc (cut chunks) = Ok (p, acc ++ before, cut after)
    /\ (p + 4 <= length (acc ++ before))%nat.
Proof.
  intros Hne. revert acc. induction Hne as [|c chunks Hc Hall IH]; intros acc Hacc Hall' Hmax; cbn [concat] in *.
  { rewrite app_nil_r in Hall'. congruence. }
  destruct c as [|b c]; [done|]. change (cut ((b :: c) :: chunks)) with (Data (b :: c) :: cut chunks).
  cbn [read_head].
  destruct (find_header_end (acc ++ b :: c)) as [q|] eqn:Hq.
  - assert (q = p) as ->.
    { pose proof (position_app HEADER_END _ (concat chunks) q Hq) as Hq'. rewrite <- app_assoc in Hq'.
      assert (Some q = Some p) as [= ->]; [|done]. rewrite <- Hq'. exact Hall'. }
    exists (b :: c), chunks. rewrite (proj2 (Z.ltb_ge _ _)) by lia.
    split_and!; try done. by apply position_within in Hq.
  - pose proof (position_late HEADER_END (acc ++ b :: c) (concat chunks) p Hq) as Hlate.
    rewrite <- app_assoc in Hlate. specialize (Hlate Hall'). change (length HEADER_END) with 4%nat in Hlate.
    rewrite (proj2 (Z.ltb_ge _ _)) by (unfold len; lia).
    destruct (IH (acc ++ b :: c)) as (before & after & Hcat & Haft & Hread & Hlen); try done.
    { rewrite <- app_assoc. done. }
    exists ((b :: c) ++ before), after. rewrite Hcat, Hread, !app_assoc. split_and!; try done.
Qed.

Lemma read_head_sound limits acc stream p bytes rest :
  read_head limits acc stream = Ok (p, bytes, rest) ->
  bytes ++ delivered rest = acc ++ delivered stream /\ find_header_end bytes = Some p.
Proof.
  revert acc. induction stream as [|[[|b c]|] stream IH]; intros acc Hr; cbn [read_head] in Hr; try done.
  destruct (find_header_end (acc ++ b :: c)) as [q|] eqn:Hq; case_match; try done.
  - simplify_eq. cbn [delivered]. by rewrite <- app_assoc.
  - apply IH in Hr as [-> Hp]. cbn [delivered]. by rewrite <- app_assoc.
Qed.

(** A response whose headers fit the limit and whose body has exactly the
    declared length is read the same however the network cuts it; and whatever
    is accepted from any stream is the status of the first headers delivered
    and exactly the declared number of bytes after them. *)
Theorem http_reader_exact limits :
  (forall bytes p status chunks,
     find_header_end bytes = Some p -> Z.of_nat p + 4 <= max_header_bytes limits ->
     parse_head limits (take p bytes) = Ok (status, len (drop (p + 4) bytes)) ->
     concat chunks = bytes -> Forall (fun c => c <> []) chunks ->
     read_http_response limits (cut chunks) = Ok (mkHttpResponse status (drop (p + 4) bytes)))
  /\ (forall stream r, read_http_response limits stream = Ok r ->
        exists p bytes rest, delivered stream = bytes ++ rest /\ find_header_end bytes = Some p
          /\ parse_head limits (take p bytes) = Ok (hp_status r, len (hp_body r))
          /\ hp_body r = drop (p + 4) bytes).
Proof.
  split.
  - intros bytes p status chunks Hp Hmax Hhead <- Hne.
    destruct (read_head_found limits p chunks [] Hne eq_refl Hp Hmax)
      as (before & after & Hcat & Haft & Hread & Hlen). cbn [app] in *.
    unfold read_http_response. rewrite Hread. cbn [mbind result_bind].
    rewrite Hcat in Hhead |- *. rewrite take_app_le in Hhead by lia. rewrite Hhead. cbn [mbind result_bind].
    rewrite drop_app_le by lia. unfold len. rewrite length_app.
    rewrite (proj2 (Z.ltb_ge _ _)) by lia.
    assert (read_exact (Z.to_nat (Z.of_nat (length (drop (p + 4) before) + length (concat after))
              - Z.of_nat (length (drop (p + 4) before)))) (cut after) = Some (concat after)) as ->; [|done].
    apply read_exact_delivered. rewrite delivered_cut by done. rewrite take_ge by lia. split; [done|lia].
  - intros stream r Hr. unfold read_http_response in Hr.
    apply bind_Ok in Hr as ([[p bytes] rest] & Hread & Hr).
    apply bind_Ok in Hr as ([status n] & Hhead & Hr). run_inv. bool_to_prop. subst r.
    apply read_head_sound in Hread as [Hdel Hp]. cbn [app] in Hdel.
    match goal with Hx : read_exact _ _ = Some ?b |- _ => apply read_exact_delivered in Hx as [-> Hn] end.
    pose proof (position_within _ _ _ Hp) as Hin. change (length HEADER_END) with 4%nat in Hin. cbn.
    set (k := Z.to_nat (n - len (drop (p + 4) bytes))) in *.
    exists p, (bytes ++ take k (delivered rest)), (drop k (delivered rest)).
    rewrite <- app_assoc, take_drop, take_app_le, drop_app_le by lia. split_and!; try done.
    + by apply position_app.
    + rewrite Hhead. do 2 f_equal. unfold len in *. rewrite length_app, length_take_le by lia. lia.
Qed.

Definition example_limits : BitcoindLimits := mkLimits 1024 1024 1024.
Definition example_head : list Z := as_bytes "HTTP/1.1 200 OK" ++ CRLF ++ as_bytes "Content-Length: 2".

Lemma http_reader_exact_witness :
  read_http_response example_limits (cut [take 10 example_head; drop 10 example_head ++ [13; 10; 13]; [10; 123]; [125]])
    = Ok (mkHttpResponse 200 [123; 125]).
Proof.
  refine (proj1 (http_reader_exact example_limits) (example_head ++ HEADER_END ++ [123; 125]) 34%nat 200
    [take 10 example_head; drop 10 example_head ++ [13; 10; 13]; [10; 123]; [125]] _ _ _ _ _);
    [vm_compute; reflexivity|vm_compute; discriminate|vm_compute; reflexivity|vm_compute; reflexivity|].
  repeat constructor; discriminate.
Defined.

(** ** The fee estimate *)

(** The spelling of a number: digits, a fraction, a power of ten. *)
Inductive decimal_text (whole fraction : list Z) : list Z -> Z -> Prop :=
| decimal_plain text : mantissa_text whole fraction text -> decimal_text whole fraction text 0
| decimal_power text e exponent n :
    mantissa_text whole fraction text -> e = 101 \/ e = 69 -> parse_i32 exponent = Some n ->
    decimal_text whole fraction (text ++ e :: exponent) n
with mantissa_text (whole fraction : list Z) : list Z -> Prop :=
| mantissa_whole : fraction = [] -> mantissa_text whole fraction whole
| mantissa_point : mantissa_text whole fraction (whole ++ 46 :: fraction).

Lemma split_once_exponent_Some l x y :
  split_once_exponent l = Some (x, y) -> exists e, (e = 101 \/ e = 69) /\ l = x ++ e :: y.
Proof.
  revert x y. induction l as [|b l IH]; intros x y Hs; cbn in Hs; [done|].
  destruct (_ || _) eqn:Hb.
  - simplify_eq. exists b. split; [|done]. apply orb_true_iff in Hb as [?|?]; bool_to_prop; auto.
  - destruct (split_once_exponent l) as [[x' y']|]; [|done]. simplify_eq.
    destruct (IH _ _ eq_refl) as (e & He & ->). by exists e.
Qed.

Lemma decimal_parts_text value whole fraction exponent :
  decimal_parts value = Ok (whole, fraction, exponent) ->
  decimal_text whole fraction value exponent /\ forallb is_ascii_digit (whole ++ fraction) = true.
Proof.
  unfold decimal_parts. intros Hd. apply bind_Ok in Hd as ([mantissa e] & Hm & Hd).
  destruct (match mantissa with (45 | 43) :: _ => true | _ => false end); [done|].
  destruct (default _ _) as [w f] eqn:Hw. run_inv. bool_to_prop. simplify_eq. split.
  - assert (mantissa_text whole fraction mantissa) as Hmt.
    { destruct (split_once_bytes 46 mantissa) as [[x y]|] eqn:Hs; cbn in Hw; simplify_eq; [|by constructor].
      apply split_once_bytes_Some in Hs as [-> _]. constructor. }
    destruct (split_once_exponent value) as [[x y]|] eqn:Hs; run_inv; simplify_eq; [|by constructor].
    apply split_once_exponent_Some in Hs as (b & Hb & ->). by constructor.
  - rewrite forallb_app. by apply andb_true_iff.
Qed.

Lemma parse_bytes_decimal max l v :
  forallb is_ascii_digit l = true -> parse_bytes max l = Some v -> v = digits_value l.
Proof.
  intros Hd Hp. assert (parse_digits max l = Some v) as Hpd.
  { destruct l as [|b l]; [done|]. unfold parse_bytes in Hp. cbn in Hd. bool_to_prop.
    destruct (decide (b = 43)) as [->|Hb]; [done|]. by repeat case_match. }
  unfold parse_digits in Hpd. repeat case_match; congruence.
Qed.

(** [r] is [c] times [10 ^ scale], rounded up. *)
Definition scaled_up (c scale r : Z) : Prop :=
  if 0 <=? scale then r = c * 10 ^ scale else c <= r * 10 ^ (- scale) < c + 10 ^ (- scale).

Lemma decimal_exact text r :
  decimal_btc_per_kvb_to_sat_per_vbyte text = Ok r ->
  exists whole fraction e, decimal_text whole fraction (as_bytes text) e
    /\ scaled_up (digits_value (whole ++ fraction)) (e - len fraction + 5) r.
Proof.
  unfold decimal_btc_per_kvb_to_sat_per_vbyte. intros Hsat.
  apply bind_Ok in Hsat as ([[whole fraction] e] & [Htext Hdig]%decimal_parts_text & Hsat).
  exists whole, fraction, e. split; [done|]. run_inv.
  match goal with Hc : parse_bytes _ _ = Some _ |- _ => apply parse_bytes_decimal in Hc as ->; [|done] end.
  unfold checked_i32, try_from_u in *. run_inv. simplify_eq. 

  assert (x1 = e - len fraction + 5) as -> by (repeat (case_match || simplify_eq/=); done).
  unfold scaled_up. destruct (0 <=? e - len fraction + 5) eqn:Hs.
  - run_inv. unfold checked_pow, checked_mul in *. run_inv. congruence.
  - run_inv. unfold checked_pow in *. run_inv. simplify_eq. bool_to_prop.
    assert (0 < 10 ^ (- (e - len fraction + 5))) as Hpos by (apply Z.pow_pos_nonneg; lia).
    pose proof (div_ceil_spec (digits_value (whole ++ fraction)) _ Hpos). nia.
Qed.

(** A fee rate accepted from the node is within the pricing bounds and is
    the exact decimal value in BTC per 1000 virtual bytes, rounded up to a whole
    satoshi per virtual byte: never below it, and less than one above. *)
Theorem fee_estimate_exact v r :
  parse_feerate_estimate v = Ok (Some r) ->
  1 <= r <= 2000 /\
  exists feerate text whole fraction e,
    value_get "feerate" v = Some feerate /\ number_text feerate = Some text
    /\ decimal_text whole fraction (as_bytes text) e
    /\ scaled_up (digits_value (whole ++ fraction)) (e - len fraction + 5) r.
Proof.
  unfold parse_feerate_estimate. intros Hp. apply bind_Ok in Hp as (object & Ho & Hp). run_inv.
  assert (v = VObject object) as -> by (destruct v; simplify_eq/=; done).
  destruct (object_get "feerate" object) as [feerate|] eqn:Hf; [|by repeat case_match].
  destruct (number_text feerate) as [text|] eqn:Ht; [|by repeat case_match].
  apply bind_Ok in Hp as (sat & Hsat & Hp). run_inv. simplify_eq. unfold in_range in *. bool_to_prop.
  split; [lia|]. apply decimal_exact in Hsat as (whole & fraction & e & Htext & Hs).
  by exists feerate, text, whole, fraction, e.
Qed.

Lemma fee_estimate_exact_witness :
  exists r, parse_feerate_estimate (VObject [("blocks", VInt 2); ("feerate", VFloat "1.00000001e-5")]%string)
              = Ok (Some r)
    /\ 1 <= r <= 2000.
Proof.
  exists 2. split; [vm_compute; reflexivity|].
  refine (proj1 (fee_estimate_exact (VObject [("blocks", VInt 2); ("feerate", VFloat "1.00000001e-5")]%string) 2 _)).
  vm_compute. reflexivity.
Defined.
