(* ===== verification/Health.v ===== *)
(** * Health: readiness flags, counters and alerts of the provider

    [immortal-provider/src/health.rs]: the atomics of [ProviderHealth] as a
    record, the answers of the health endpoint, and the checks of the alert
    client. *)

From S2P Require Import Prelude Text Utf8 Hex Event Filter Json Custody ProviderDb Effects Bitcoind.

Record ProviderHealth : Type := mkProviderHealth {
  ph_ready : bool;
  ph_draining : bool;
  ph_active_sessions : Z;
  ph_chain_height : Z;
  ph_last_chain_success : Z;
  ph_consecutive_chain_failures : Z;
  ph_active_reservations : Z;
  ph_pending_effects : Z;
  ph_unresolved_effects : Z;
  ph_pending_watch_jobs : Z;
  ph_unresolved_watch_jobs : Z;
}.

(** [ProviderHealth::default()]. *)
Definition health_default : ProviderHealth := mkProviderHealth false false 0 0 0 0 0 0 0 0 0.

Definition set_ready (b : bool) (h : ProviderHealth) : ProviderHealth :=
  mkProviderHealth b (ph_draining h) (ph_active_sessions h) (ph_chain_height h)
    (ph_last_chain_success h) (ph_consecutive_chain_failures h) (ph_active_reservations h)
    (ph_pending_effects h) (ph_unresolved_effects h) (ph_pending_watch_jobs h)
    (ph_unresolved_watch_jobs h).

Definition mark_ready (h : ProviderHealth) : ProviderHealth :=
  if ph_draining h then h else set_ready true h.
Definition mark_not_ready (h : ProviderHealth) : ProviderHealth := set_ready false h.

Definition begin_drain (h : ProviderHealth) : ProviderHealth :=
  mark_not_ready (mkProviderHealth (ph_ready h) true (ph_active_sessions h) (ph_chain_height h)
    (ph_last_chain_success h) (ph_consecutive_chain_failures h) (ph_active_reservations h)
    (ph_pending_effects h) (ph_unresolved_effects h) (ph_pending_watch_jobs h)
    (ph_unresolved_watch_jobs h)).

Definition set_active_sessions (n : Z) (h : ProviderHealth) : ProviderHealth :=
  mkProviderHealth (ph_ready h) (ph_draining h) n (ph_chain_height h)
    (ph_last_chain_success h) (ph_consecutive_chain_failures h) (ph_active_reservations h)
    (ph_pending_effects h) (ph_unresolved_effects h) (ph_pending_watch_jobs h)
    (ph_unresolved_watch_jobs h).

Definition record_chain_success (height observed_at : Z) (h : ProviderHealth) : ProviderHealth :=
  mkProviderHealth (ph_ready h) (ph_draining h) (ph_active_sessions h) height observed_at 0
    (ph_active_reservations h) (ph_pending_effects h) (ph_unresolved_effects h)
    (ph_pending_watch_jobs h) (ph_unresolved_watch_jobs h).

(** [fetch_add] wraps; the value returned saturates. *)
Definition record_chain_failure (h : ProviderHealth) : Z * ProviderHealth :=
  (saturating_add U32_MAX (ph_consecutive_chain_failures h) 1,
   mkProviderHealth (ph_ready h) (ph_draining h) (ph_active_sessions h) (ph_chain_height h)
     (ph_last_chain_success h) (wrap32 (ph_consecutive_chain_failures h + 1))
     (ph_active_reservations h) (ph_pending_effects h) (ph_unresolved_effects h)
     (ph_pending_watch_jobs h) (ph_unresolved_watch_jobs h)).

Definition set_ledger_counts (reservations pending unresolved watch_pending watch_unresolved : Z)
    (h : ProviderHealth) : ProviderHealth :=
  mkProviderHealth (ph_ready h) (ph_draining h) (ph_active_sessions h) (ph_chain_height h)
    (ph_last_chain_success h) (ph_consecutive_chain_failures h) reservations pending unresolved
    watch_pending watch_unresolved.

(** ** The endpoint *)

Definition health_ok (h : ProviderHealth) : bool :=
  ph_ready h && negb (ph_draining h) && (ph_pending_effects h =? 0)
  && (ph_unresolved_effects h =? 0) && (ph_unresolved_watch_jobs h =? 0).

Definition health_status (h : ProviderHealth) : string :=
  if health_ok h then "200 OK" else "503 Service Unavailable".

Definition LF : string := of_bytes [10].
Definition health_body (h : ProviderHealth) : string :=
  if health_ok h then "ready" +:+ LF else "not ready" +:+ LF.

(** [{}] of an [i64]. *)
Definition int_text (n : Z) : string := if n <? 0 then "-" +:+ to_string (- n) else to_string n.

Definition metric_line (name : string) (n : Z) : string := "immortal_provider_" +:+ name +:+ " " +:+ int_text n +:+ LF.

Definition metrics (h : ProviderHealth) : string :=
  String.concat "" [
    metric_line "ready" (Z.b2z (ph_ready h));
    metric_line "draining" (Z.b2z (ph_draining h));
    metric_line "sessions_active" (ph_active_sessions h);
    metric_line "chain_height" (ph_chain_height h);
    metric_line "last_chain_success_seconds" (ph_last_chain_success h);
    metric_line "chain_failures_consecutive" (ph_consecutive_chain_failures h);
    metric_line "reservations_active" (ph_active_reservations h);
    metric_line "effects_pending" (ph_pending_effects h);
    metric_line "effects_unresolved" (ph_unresolved_effects h);
    metric_line "watch_jobs_pending" (ph_pending_watch_jobs h);
    metric_line "watch_jobs_unresolved" (ph_unresolved_watch_jobs h)].

(** The first line of a request: up to the first line feed, white space at
    its end removed; empty when it is not UTF-8. *)
Definition trim_end_text (s : string) : string :=
  of_bytes (utf8_encode (reverse (drop_whitespace (reverse (chars s))))).
Definition request_line (request : list Z) : string :=
  let line := match split_once_bytes 10 request with Some (line, _) => line | None => request end in
  if is_utf8 line then trim_end_text (of_bytes line) else "".

(** Status, content type and body of the answer. *)
Definition health_response (request : list Z) (h : ProviderHealth) : string * string * string :=
  let first_line := request_line request in
  if mem first_line ["GET /healthz HTTP/1.0"; "GET /healthz HTTP/1.1"]%string then
    (health_status h, "text/plain; charset=utf-8", health_body h)
  else if mem first_line ["GET /metrics HTTP/1.0"; "GET /metrics HTTP/1.1"]%string then
    ("200 OK", "text/plain; version=0.0.4; charset=utf-8", metrics h)
  else ("404 Not Found", "text/plain; charset=utf-8", "not found" +:+ LF)%string.

(** ** Alerts *)

Inductive HealthError : Type :=
| HInvalidAlertEndpoint | HBind | HAccept | HIo | HTimeout | HResponseTooLarge | HAlertStatus (status : Z).

Record ProviderAlert : Type := mkProviderAlert {
  pv_schema : string;
  pv_alert_type : string;
  pv_session_id : option string;
  pv_observed_at : Z;
  pv_detail : string;
}.

Definition provider_alert_new (alert_type : string) (session_id : option string) (observed_at : Z)
    (detail : string) : ProviderAlert :=
  mkProviderAlert "openagents.immortal.provider-alert.v1" alert_type session_id observed_at detail.

Definition parse_http_status (response : list Z) : result HealthError Z :=
  let line := match split_once_bytes 10 response with Some (line, _) => line | None => response end in
  if negb (is_utf8 line) then Err HIo
  else match ascii_words [] line with
  | version :: status :: _ =>
      if mem version [as_bytes "HTTP/1.0"; as_bytes "HTTP/1.1"]
      then ok_or HIo (parse_bytes U16_MAX status) else Err HIo
  | _ => Err HIo
  end.

Inductive IpAddr : Type := V4 (a b c d : Z) | V6 (segments : list Z).

(** [Ipv4Addr::is_loopback], [is_private], and the link-local test of the
    code; [Ipv6Addr::is_loopback] is [::1]. *)
Definition private_or_loopback (address : IpAddr) : bool :=
  match address with
  | V4 a b _ _ =>
      (a =? 127)
      || ((a =? 10) || ((a =? 172) && in_range 16 31 b) || ((a =? 192) && (b =? 168)))
      || ((a =? 169) && (b =? 254))
  | V6 segments =>
      bool_decide (segments = [0; 0; 0; 0; 0; 0; 0; 1])
      || (Z.land (nth 0 segments 0) 65024 =? 64512)
      || (Z.land (nth 0 segments 0) 65472 =? 65152)
  end.
