(* ===== verification/Watchtower.v ===== *)
(** * Watchtower: broadcasting, watching and re-broadcasting transactions

    [immortal-provider/src/watchtower.rs]: the payload of a watch job and its
    binding to the raw transaction it names, one poll of the chain, and the
    loop around it.

    The state of the tower is the store, the health flags, the calls made to
    the daemon and the alerts sent.  The daemon is an operation of a class
    that answers according to the calls made before, and the other clients of
    the store may run any operations while the tower waits for an answer. *)

From S2P Require Import Prelude Text Utf8 Regroup Hex Event Filter Expanded Json Custody.
From S2P Require Import Wire Transaction ProviderDb Ledger Reserve LedgerInv WatchJobs WatchCorrect.
From S2P Require Import Effects Bitcoind Health.

Definition WATCH_PAYLOAD_SCHEMA : string := "openagents.immortal.provider-watch.v1".
Definition MAX_RAW_TRANSACTION_BYTES : Z := 1000000.
Definition MAX_WATCH_INPUTS : Z := 4096.
Definition MAX_DUE_JOBS : Z := 32.
Definition MAX_OBSERVATION_JOBS : Z := 64.
Definition MAX_ALERTS : Z := 64.
Definition MAX_MEMPOOL_TRANSACTIONS : Z := 1000000.
Definition WATCH_LEASE_SECONDS : Z := 30.
Definition MAX_POLL_FAILURES : Z := 8.

Inductive WatchtowerError : Type :=
| InvalidPayload (message : string)
| TowerClock
| Chain (error : BitcoindError)
| TowerStore (error : ProviderStoreError)
| ChainStale
| PollExhausted.

(** ** The payload of a job *)

Record WatchedOutPoint : Type := mkWatched { wo_txid : string; wo_vout : Z }.
#[export] Instance WatchedOutPoint_eq_dec : EqDecision WatchedOutPoint.
Proof. solve_decision. Defined.

Record ClaimReleaseEvidence : Type := mkEvidence { ce_payment_hash : string; ce_settled_at : Z }.

Record BroadcastWatchPayload : Type := mkPayload {
  bp_schema : string;
  bp_raw_transaction : string;
  bp_expected_txid : string;
  bp_inputs : list WatchedOutPoint;
  bp_claim_release : option ClaimReleaseEvidence;
}.

Definition validate_hash (value : string) : result WatchtowerError unit :=
  if negb (str_len value =? 64) || negb (forallb hex_char (as_bytes value))
  then Err (InvalidPayload "hash is not 32 lowercase-hex bytes") else Ok tt.

Definition decode_bounded_hex (value : string) (maximum_bytes : Z) : result WatchtowerError (list Z) :=
  if (str_len value =? 0) || (maximum_bytes * 2 <? str_len value) || negb (str_len value mod 2 =? 0)
  then Err (InvalidPayload "raw transaction is not bounded hexadecimal")
  else decode_pairs (InvalidPayload "raw transaction is not lowercase hexadecimal") (as_bytes value).

Section payload.
Context `{ProviderEnv, EventCrypto, PgText}.

Definition watched_input (i : TransactionInput) : WatchedOutPoint :=
  mkWatched (encode_lower_hex (reverse (previous_txid i))) (previous_output i).

Definition validated (raw : string) (claim_release : option ClaimReleaseEvidence)
    : result WatchtowerError BroadcastWatchPayload :=
  bytes ← decode_bounded_hex raw MAX_RAW_TRANSACTION_BYTES;
  transaction ← map_err (fun _ => InvalidPayload "transaction is invalid") (transaction_parse bytes);
  id ← map_err (fun _ => InvalidPayload "transaction ID could not be computed") (txid transaction);
  if MAX_WATCH_INPUTS <? len (tx_inputs transaction)
  then Err (InvalidPayload "transaction input count exceeds the watch bound")
  else Ok (mkPayload WATCH_PAYLOAD_SCHEMA raw (encode_lower_hex id)
             (watched_input <$> tx_inputs transaction) claim_release).

Definition refund (raw : string) : result WatchtowerError BroadcastWatchPayload := validated raw None.
Definition cooperative_key_path (raw : string) : result WatchtowerError BroadcastWatchPayload :=
  validated raw None.
Definition released_claim (raw : string) (evidence : ClaimReleaseEvidence)
    : result WatchtowerError BroadcastWatchPayload :=
  _ ← validate_hash (ce_payment_hash evidence);
  if ce_settled_at evidence =? 0
  then Err (InvalidPayload "claim release evidence has no settlement time")
  else validated raw (Some evidence).

(** *** Its JSON form *)

Definition evidence_value (e : ClaimReleaseEvidence) : Value :=
  json_object [("payment_hash", VString (ce_payment_hash e)); ("settled_at", VInt (ce_settled_at e))]%string.
Definition outpoint_value (o : WatchedOutPoint) : Value :=
  json_object [("txid", VString (wo_txid o)); ("vout", VInt (wo_vout o))]%string.

(** [serde_json::to_value]. *)
Definition public_value (p : BroadcastWatchPayload) : Value :=
  json_object [("schema", VString (bp_schema p)); ("raw_transaction", VString (bp_raw_transaction p));
               ("expected_txid", VString (bp_expected_txid p));
               ("inputs", VArray (outpoint_value <$> bp_inputs p));
               ("claim_release", match bp_claim_release p with Some e => evidence_value e | None => VNull end)]%string.

(** [serde_json::to_vec] of a structure writes its fields in the order of
    their declaration. *)
Definition write_struct (fields : list (string * list Z)) : list Z :=
  123 :: join_bytes 44 ((fun f => 34 :: as_bytes f.1 ++ [34; 58] ++ f.2) <$> fields) ++ [125].
Definition write_array (items : list (list Z)) : list Z := 91 :: join_bytes 44 items ++ [93].

Definition outpoint_to_vec (o : WatchedOutPoint) : result string (list Z) :=
  t ← json_to_vec (VString (wo_txid o)); v ← json_to_vec (VInt (wo_vout o));
  Ok (write_struct [("txid", t); ("vout", v)]%string).
Definition evidence_to_vec (e : option ClaimReleaseEvidence) : result string (list Z) :=
  match e with
  | None => json_to_vec VNull
  | Some e =>
      h ← json_to_vec (VString (ce_payment_hash e)); t ← json_to_vec (VInt (ce_settled_at e));
      Ok (write_struct [("payment_hash", h); ("settled_at", t)]%string)
  end.
Definition payload_to_vec (p : BroadcastWatchPayload) : result string (list Z) :=
  schema ← json_to_vec (VString (bp_schema p));
  raw ← json_to_vec (VString (bp_raw_transaction p));
  id ← json_to_vec (VString (bp_expected_txid p));
  inputs ← try_map outpoint_to_vec (bp_inputs p);
  claim ← evidence_to_vec (bp_claim_release p);
  Ok (write_struct [("schema", schema); ("raw_transaction", raw); ("expected_txid", id);
                    ("inputs", write_array inputs); ("claim_release", claim)]%string).

Definition request_sha256 (p : BroadcastWatchPayload) : result WatchtowerError string :=
  bytes ← map_err (fun _ => InvalidPayload "payload is not serializable") (payload_to_vec p);
  Ok (digest bytes).

(** serde's derived reader of a structure: an object with the named members
    and no others, or an array with a value for every field. *)
Definition de_struct {A} (fields : list string) (read : (string -> option Value) -> result DeError A)
    (v : Value) : result DeError A :=
  match v with
  | VObject members =>
      if forallb (fun kv => mem kv.1 fields) members then read (fun name => object_get name members)
      else Err InvalidType
  | VArray items =>
      if (length items =? length fields)%nat
      then read (fun name => object_get name (zip fields items)) else Err InvalidType
  | _ => Err InvalidType
  end.
Definition required {A} (de : Value -> result DeError A) (v : option Value) : result DeError A :=
  match v with Some v => de v | None => Err InvalidType end.

Definition de_outpoint : Value -> result DeError WatchedOutPoint :=
  de_struct ["txid"; "vout"]%string (fun field =>
    t ← required de_string (field "txid"%string);
    v ← required (de_u U32_MAX) (field "vout"%string);
    Ok (mkWatched t v)).
Definition de_evidence : Value -> result DeError ClaimReleaseEvidence :=
  de_struct ["payment_hash"; "settled_at"]%string (fun field =>
    h ← required de_string (field "payment_hash"%string);
    t ← required (de_u U64_MAX) (field "settled_at"%string);
    Ok (mkEvidence h t)).
Definition de_payload : Value -> result DeError BroadcastWatchPayload :=
  de_struct ["schema"; "raw_transaction"; "expected_txid"; "inputs"; "claim_release"]%string (fun field =>
    schema ← required de_string (field "schema"%string);
    raw ← required de_string (field "raw_transaction"%string);
    id ← required de_string (field "expected_txid"%string);
    inputs ← required (de_vec de_outpoint) (field "inputs"%string);
    claim ← match field "claim_release"%string with
            | None => Ok None | Some v => de_option de_evidence v end;
    Ok (mkPayload schema raw id inputs claim)).

(** *** Its binding to a job *)

Definition bound_message : string := "payload schema, input count, or digest does not match".

Definition validate_for_job (p : BroadcastWatchPayload) (job : WatchJob) : result WatchtowerError unit :=
  if negb (String.eqb (bp_schema p) WATCH_PAYLOAD_SCHEMA) || bool_decide (bp_inputs p = [])
     || (MAX_WATCH_INPUTS <? len (bp_inputs p))
  then Err (InvalidPayload bound_message)
  else
  d ← request_sha256 p;
  if negb (String.eqb d (wj_request_sha256 job)) then Err (InvalidPayload bound_message)
  else
  _ ← validate_hash (bp_expected_txid p);
  _ ← try_fold (fun _ i => validate_hash (wo_txid i)) tt (bp_inputs p);
  _ ← (if mem (wj_job_kind job) ["refund_broadcast"; "cooperative_broadcast"]%string
          && bool_decide (bp_claim_release p = None) then Ok tt
       else if mem (wj_job_kind job) ["claim_broadcast"; "chain_source_claim_broadcast"]%string
          && bool_decide (is_Some (bp_claim_release p)) then Ok tt
       else if mem (wj_job_kind job) ["refund_broadcast"; "claim_broadcast";
                 "chain_source_claim_broadcast"; "cooperative_broadcast"]%string
       then Err (InvalidPayload "claim release evidence does not match the job kind")
       else Err (InvalidPayload "watch job kind is unsupported"));
  rebuilt ← validated (bp_raw_transaction p) (bp_claim_release p);
  if negb (String.eqb (bp_expected_txid rebuilt) (bp_expected_txid p))
     || negb (bool_decide (bp_inputs rebuilt = bp_inputs p))
  then Err (InvalidPayload "raw transaction does not match its public bindings")
  else Ok tt.

Definition decode_job_payload (job : WatchJob) : result WatchtowerError BroadcastWatchPayload :=
  payload ← map_err (fun _ => InvalidPayload "watch payload shape is invalid")
              (de_payload (wj_public_payload job));
  _ ← validate_for_job payload job;
  Ok payload.

Definition value_digest (v : Value) : result WatchtowerError string :=
  bytes ← map_err (fun _ => InvalidPayload "result is not serializable") (json_to_vec v);
  Ok (digest bytes).

Definition should_page_job (e : WatchtowerError) : bool :=
  match e with InvalidPayload _ => true | _ => false end.

Definition validate_mempool (v : Value) : result WatchtowerError unit :=
  transactions ← ok_or (InvalidPayload "raw mempool response is not an array") (value_as_array v);
  if MAX_MEMPOOL_TRANSACTIONS <? len transactions
  then Err (InvalidPayload "raw mempool response exceeds its transaction bound")
  else
  try_fold (fun _ t =>
    id ← ok_or (InvalidPayload "raw mempool transaction ID is not a string") (value_as_str t);
    validate_hash id) tt transactions.

Definition replacement_step (original_txid : string) (replacement : option string) (entry : Value)
    : result WatchtowerError (option string) :=
  match value_get "spendingtxid" entry ≫= value_as_str with
  | None => Ok replacement
  | Some transaction_id =>
      _ ← validate_hash transaction_id;
      if String.eqb transaction_id original_txid then Ok replacement
      else if match replacement with Some existing => negb (String.eqb existing transaction_id) | None => false end
      then Err (InvalidPayload "inputs were replaced by multiple transactions")
      else Ok (Some transaction_id)
  end.
Definition replacement_from_response (v : Value) (original_txid : string)
    : result WatchtowerError (option string) :=
  entries ← ok_or (InvalidPayload "replacement response is not an array") (value_as_array v);
  try_fold (replacement_step original_txid) None entries.

Definition chain_failure_alert (stale exhausted : bool) : option string :=
  if stale then Some "chain_poller_stale"%string
  else if exhausted then Some "chain_poller_failure"%string else None.
End payload.

(** ** The tower *)

Record RpcCall : Type := mkCall { rc_id : string; rc_method : string; rc_params : Value }.

(** The operations of the other clients of the store. *)
Inductive StoreOp : Type := OnLedger (op : LedgerOp) | OnWatch (op : WatchOp).

Class Surroundings : Type := {
  (** the daemon's answer to a call, after the calls made before *)
  node_answer : list RpcCall -> RpcCall -> result BitcoindError Value;
  (** what others do to the store before the answer arrives *)
  others : list RpcCall -> RpcCall -> list StoreOp;
  (** whether the endpoint accepts an alert, after those sent before *)
  alert_accepted : list ProviderAlert -> ProviderAlert -> bool;
}.

Record Watchtower : Type := mkWatchtower {
  alert_endpoint : bool;  (** whether one is configured *)
  poll_interval : Z;
  stale_after : Z;
  minimum_confirmations : Z;
}.

Definition watchtower_new (alert_endpoint : bool) (poll_interval stale_after minimum_confirmations : Z)
    : result WatchtowerError Watchtower :=
  if (poll_interval =? 0) || (from_secs 300 <? poll_interval) || (stale_after <=? poll_interval)
     || (from_secs 3600 <? stale_after) || (minimum_confirmations =? 0) || (144 <? minimum_confirmations)
  then Err (InvalidPayload "watch policy is outside its bounds")
  else Ok (mkWatchtower alert_endpoint poll_interval stale_after minimum_confirmations).

Record Tower : Type := mkTower {
  tw_db : ProviderDb;
  tw_health : ProviderHealth;
  tw_calls : list RpcCall;
  tw_alerts : list ProviderAlert;
}.

Definition set_db (db : ProviderDb) (t : Tower) : Tower := mkTower db (tw_health t) (tw_calls t) (tw_alerts t).
Definition on_health (f : ProviderHealth -> ProviderHealth) (t : Tower) : Tower :=
  mkTower (tw_db t) (f (tw_health t)) (tw_calls t) (tw_alerts t).

Section tower.
Context `{ProviderEnv, EventCrypto, PgText, Surroundings}.
Notation M := (Eff Tower WatchtowerError).

Definition store_step (db : ProviderDb) (op : StoreOp) : ProviderDb :=
  match op with
  | OnLedger op => ledger_step db op
  | OnWatch op => (watch_step (db, []) op).1
  end.

(** [BitcoindClient::call]. *)
Definition node_call (request_id method : string) (params : Value) : Eff Tower BitcoindError Value := fun t =>
  let c := mkCall request_id method params in
  (node_answer (tw_calls t) c,
   mkTower (fold_left store_step (others (tw_calls t) c) (tw_db t)) (tw_health t)
     (tw_calls t ++ [c]) (tw_alerts t)).

(** A transaction on the store, and a read of it. *)
Definition store {A} (f : ProviderDb -> result ProviderStoreError (A * ProviderDb)) : M A := fun t =>
  match f (tw_db t) with
  | Ok (a, db) => (Ok a, set_db db t)
  | Err e => (Err (TowerStore e), t)
  end.
Definition store_read {A} (f : ProviderDb -> result ProviderStoreError A) : M A := fun t =>
  (map_err TowerStore (f (tw_db t)), t).

Definition pure {A} (m : result WatchtowerError A) : M A := eff_lift id m.
Definition chain {A} (m : Eff Tower BitcoindError A) : M A := eff_err Chain m.

Definition request_id (prefix : string) (now attempt : Z) : M string :=
  eff_lift Chain (rpc_request_id (prefix +:+ ":" +:+ to_string now +:+ ":" +:+ to_string attempt)).

Definition job_completed (job_id : string) : M bool :=
  current ← store_read (fun db => watch_job db job_id);
  mret (match current with Some job => String.eqb (wj_state job) "completed" | None => false end).

(** The pattern [BitcoindError::Rpc { code }]. *)
Definition is_rpc (code : Z) (e : BitcoindError) : bool :=
  match e with BRpc c => c =? code | _ => false end.

(** The result to record: the one already persisted, or a new one. *)
Definition broadcast_result (job : WatchJob) (transaction_id : string) (now : Z)
    : result WatchtowerError (Value * string) :=
  match wj_public_result job, wj_result_sha256 job with
  | Some r, Some d => Ok (r, d)
  | None, None =>
      let r := json_object [("txid", VString transaction_id); ("accepted_at", VInt now)]%string in
      d ← value_digest r; Ok (r, d)
  | _, _ => Err (InvalidPayload "watch broadcast result is partially persisted")
  end.

Definition broadcast_job (job : WatchJob) (now : Z) : M unit :=
  payload ← pure (decode_job_payload job);
  id ← request_id "broadcast" now (wj_attempt_count job);
  answer ← eff_try (broadcast node_call id (bp_raw_transaction payload));
  transaction_id ←
    match answer with
    | Ok transaction_id => mret (Some transaction_id)
    | Err error =>
        if is_rpc (-27) error then
          id ← request_id "broadcast-replay" now (wj_attempt_count job);
          _ ← chain (raw_transaction node_call id (bp_expected_txid payload) false);
          mret (Some (bp_expected_txid payload))
        else
          completed ← job_completed (wj_job_id job);
          if (completed : bool) then mret None else eff_raise (Chain error)
    end;
  match transaction_id with
  | None => mret tt
  | Some transaction_id =>
      if negb (String.eqb transaction_id (bp_expected_txid payload))
      then eff_raise (InvalidPayload "bitcoind returned another transaction ID")
      else
      completed ← job_completed (wj_job_id job);
      if (completed : bool) then mret tt
      else
      '(public_result, result_sha256) ← pure (broadcast_result job transaction_id now);
      _ ← store (fun db => record_broadcast db (wj_job_id job) (wj_request_sha256 job) result_sha256
                             public_result (bp_expected_txid payload) now);
      mret tt
  end.

Fixpoint inputs_unspent_from (index : Z) (inputs : list WatchedOutPoint) (now : Z) : M bool :=
  match inputs with
  | [] => mret true
  | input :: rest =>
      id ← request_id "input-recheck" now (Z.min index U16_MAX);
      output ← chain (transaction_output node_call id (wo_txid input) (wo_vout input) true);
      match output with
      | None => mret false
      | Some _ => inputs_unspent_from (index + 1) rest now
      end
  end.
Definition inputs_are_unspent (payload : BroadcastWatchPayload) (now : Z) : M bool :=
  inputs_unspent_from 0 (bp_inputs payload) now.

Definition find_replacement (payload : BroadcastWatchPayload) (now : Z) : M (option string) :=
  id ← request_id "replacement" now 0;
  answer ← chain (node_call id "gettxspendingprevout" (VArray [VArray (outpoint_value <$> bp_inputs payload)]));
  pure (replacement_from_response answer (bp_expected_txid payload)).

(** The transaction is known to the node. *)
Definition observe_found (w : Watchtower) (job : WatchJob) (current_tip : string) (now : Z)
    (transaction : Value) : M unit :=
  object ← pure (ok_or (InvalidPayload "transaction observation is not an object") (value_as_object transaction));
  let confirmations := default 0 (object_get "confirmations" object ≫= value_as_u64) in
  if confirmations =? 0 then
    if 0 <? wj_confirmations job then store (fun db => record_reorg db (wj_job_id job) current_tip now)
    else mret tt
  else
  confirmations ← pure (ok_or (InvalidPayload "confirmation count exceeds u32")
                          (try_from_u U32_MAX confirmations));
  block_hash ← pure (ok_or (InvalidPayload "confirmed transaction has no block hash")
                       (object_get "blockhash" object ≫= value_as_str));
  _ ← pure (validate_hash block_hash);
  _ ← (if match wj_observed_block_hash job with
          | Some previous => negb (String.eqb previous block_hash) | None => false end
       then store (fun db => record_reorg db (wj_job_id job) current_tip now)
       else mret tt);
  store (fun db => record_confirmation db (wj_job_id job) confirmations (minimum_confirmations w) block_hash now).

(** The node no longer knows it. *)
Definition observe_missing (job : WatchJob) (payload : BroadcastWatchPayload) (current_tip : string)
    (first_input_unspent : bool) (now : Z) : M unit :=
  unspent ← (if first_input_unspent then inputs_are_unspent payload now else mret false);
  if (unspent : bool) then
    _ ← store (fun db => record_reorg db (wj_job_id job) current_tip now);
    broadcast_job job now
  else
  replacement ← find_replacement payload now;
  match replacement with
  | Some replacement => store (fun db => record_replacement db (wj_job_id job) replacement now)
  | None =>
      if bool_decide (is_Some (wj_observed_block_hash job))
      then store (fun db => record_reorg db (wj_job_id job) current_tip now)
      else eff_raise (InvalidPayload "broadcast transaction disappeared without a replacement")
  end.

Definition observe_job (w : Watchtower) (job : WatchJob) (current_tip : string) (now : Z) : M unit :=
  payload ← pure (decode_job_payload job);
  first_input ← pure (ok_or (InvalidPayload "watch payload has no input") (head (bp_inputs payload)));
  id ← request_id "input-status" now 0;
  output ← chain (transaction_output node_call id (wo_txid first_input) (wo_vout first_input) true);
  id ← request_id "observe" now (wj_attempt_count job);
  transaction ← eff_try (raw_transaction node_call id (bp_expected_txid payload) true);
  match transaction with
  | Ok transaction => observe_found w job current_tip now transaction
  | Err error =>
      if is_rpc (-5) error then observe_missing job payload current_tip (bool_decide (is_Some output)) now
      else eff_raise (Chain error)
  end.

Definition page_job (job : WatchJob) (page_code : string) (now : Z) : M unit :=
  let context := json_object
    [("job_id", VString (wj_job_id job));
     ("expected_txid", match wj_broadcast_txid job with Some t => VString t | None => VNull end);
     ("attempt_count", VInt (wj_attempt_count job))]%string in
  _ ← store (fun db => page_watch_job db (wj_job_id job) page_code context now);
  mret tt.

(** The body of the two loops of [poll_once]: an invalid payload pages the
    job, any other error ends the poll. *)
Definition page_or_fail (job : WatchJob) (page_code : string) (now : Z) (work : M unit) : M unit :=
  outcome ← eff_try work;
  match outcome with
  | Ok _ => mret tt
  | Err error => if should_page_job error then page_job job page_code now else eff_raise error
  end.

(** [send_alert]. *)
Definition send_alert (alert : ProviderAlert) : M bool := fun t =>
  (Ok (alert_accepted (tw_alerts t) alert),
   mkTower (tw_db t) (tw_health t) (tw_calls t) (tw_alerts t ++ [alert])).

Definition deliver_alerts (w : Watchtower) (now : Z) : M unit :=
  if negb (alert_endpoint w) then mret tt
  else
  alerts ← store_read (fun db => active_alerts db MAX_ALERTS);
  eff_for alerts (fun alert =>
    sent ← send_alert (provider_alert_new (pa_alert_class alert) (pa_session_id alert) now (pa_detail_code alert));
    if (sent : bool) then store (fun db => set_alert_state db (pa_alert_id alert) "acknowledged" now)
    else mret tt).

Definition send_system_alert (w : Watchtower) (alert_type : string) (now failures : Z) : M unit :=
  if negb (alert_endpoint w) then mret tt
  else
  _ ← send_alert (provider_alert_new alert_type None now ("consecutive_failures_" +:+ to_string failures));
  mret tt.

(** The view of the chain a poll begins with: the tip and its height. *)
Definition poll_chain (now : Z) : M (string * Z) :=
  id ← request_id "best-block" now 0;
  tip_hash ← chain (best_block_hash node_call id);
  id ← request_id "best-header" now 0;
  tip_header ← chain (block_header node_call id tip_hash true);
  tip_height ← pure (ok_or (InvalidPayload "best block header has no height")
                       (value_get "height" tip_header ≫= value_as_u64));
  id ← request_id "mempool" now 0;
  mempool ← chain (raw_mempool node_call id false);
  _ ← pure (validate_mempool mempool);
  mret (tip_hash, tip_height).

Definition all_settled (c : ProviderStoreHealth) : bool :=
  (unresolved_reservations c =? 0) && (pending_effects c =? 0) && (unresolved_effects c =? 0)
  && (unresolved_watch_jobs c =? 0) && (paged_watch_jobs c =? 0) && (active_alert_count c =? 0).

Definition poll_once (w : Watchtower) (now : Z) : M unit :=
  '(tip_hash, tip_height) ← poll_chain now;
  lease_until ← pure (ok_or TowerClock (checked_add U64_MAX now WATCH_LEASE_SECONDS));
  due ← store (fun db => claim_due_watch_jobs db tip_height now lease_until MAX_DUE_JOBS);
  _ ← eff_for due (fun job =>
        if String.eqb (wj_state job) "page" then mret tt
        else page_or_fail job "broadcast_failed" now (broadcast_job job now));
  observations ← store_read (fun db => watch_jobs_for_observation db MAX_OBSERVATION_JOBS);
  _ ← eff_for observations (fun job =>
        page_or_fail job "observation_failed" now (observe_job w job tip_hash now));
  _ ← deliver_alerts w now;
  t ← eff_get;
  let counts := health_counts (tw_db t) in
  _ ← eff_modify (on_health (set_ledger_counts (active_reservations counts) (pending_effects counts)
        (unresolved_effects counts) (pending_watch_jobs counts)
        (saturating_add U64_MAX (saturating_add U64_MAX
           (saturating_add U64_MAX (unresolved_reservations counts) (unresolved_watch_jobs counts))
           (paged_watch_jobs counts)) (active_alert_count counts))));
  _ ← eff_modify (on_health (record_chain_success (Z.min tip_height I64_MAX) now));
  eff_modify (on_health (if all_settled counts then mark_ready else mark_not_ready)).

(** ** The loop *)

(** The clock and the shutdown signal, by iteration: reading 0 is the one
    before the loop. *)
Class Schedule : Type := {
  unix_now : nat -> option Z;  (** [None] for a clock before the epoch *)
  shutdown_seen : nat -> bool;
  shutdown_in_wait : nat -> bool;
}.
Context `{Schedule}.

Record Loop : Type := mkLoop { lp_backoff : PollBackoff; lp_last_success : Z; lp_waits : list Z }.

(** One iteration: the loop goes on ([inl]) or [run] returns ([inr]). *)
Definition after_success (w : Watchtower) (i : nat) (l : Loop) (now : Z)
    : Loop + result WatchtowerError unit :=
  if shutdown_in_wait i then inr (Ok tt)
  else inl (mkLoop (record_success (lp_backoff l)) now (lp_waits l ++ [poll_interval w])).

Definition after_failure (w : Watchtower) (i : nat) (l : Loop) (now : Z) (t : Tower)
    : (Loop + result WatchtowerError unit) * Tower :=
  let '(failures, h) := record_chain_failure (mark_not_ready (tw_health t)) in
  let t := on_health (fun _ => h) t in
  let stale := stale_after w / 1000000000 <=? saturating_sub now (lp_last_success l) in
  let '(delay, backoff) := record_failure (lp_backoff l) in
  let t := match chain_failure_alert stale (bool_decide (delay = None)) with
           | Some alert_type => (send_system_alert w alert_type now failures t).2
           | None => t
           end in
  (if stale then inr (Err ChainStale)
   else match delay with
        | None => inr (Err PollExhausted)
        | Some delay =>
            if shutdown_in_wait i then inr (Ok tt)
            else inl (mkLoop backoff (lp_last_success l) (lp_waits l ++ [delay]))
        end, t).

Definition run_step (w : Watchtower) (i : nat) (l : Loop) (t : Tower)
    : (Loop + result WatchtowerError unit) * Tower :=
  if shutdown_seen i then (inr (Ok tt), t)
  else match unix_now (S i) with
  | None => (inr (Err TowerClock), t)
  | Some now =>
      match poll_once w now t with
      | (Ok _, t) => (after_success w i l now, t)
      | (Err _, t) => after_failure w i l now t
      end
  end.

(** [fuel] iterations; [None] when the loop still runs. *)
Fixpoint run_loop (fuel : nat) (w : Watchtower) (i : nat) (l : Loop) (t : Tower)
    : option (result WatchtowerError unit * list Z * Tower) :=
  match fuel with
  | O => None
  | S fuel =>
      match run_step w i l t with
      | (inr r, t) => Some (r, lp_waits l, t)
      | (inl l, t) => run_loop fuel w (S i) l t
      end
  end.

Definition run (fuel : nat) (w : Watchtower) (t : Tower)
    : option (result WatchtowerError unit * list Z * Tower) :=
  match poll_backoff_new (poll_interval w) (from_secs 300) MAX_POLL_FAILURES with
  | Err e => Some (Err (Chain e), [], t)
  | Ok backoff =>
      match unix_now 0 with
      | None => Some (Err TowerClock, [], t)
      | Some last_success => run_loop fuel w 0 (mkLoop backoff last_success []) t
      end
  end.
End tower.
