(* ===== verification/WatchtowerCorrect.v ===== *)
(** * WatchtowerCorrect: what a poll may broadcast, and how the loop ends

    [broadcasts_bound]: every transaction a poll sends to the node is the one
    its stored job is bound to.  [payload_accepted]: a payload built by the
    constructors passes the tower's checks.  [rejected_broadcast_starves] and
    [outage_ends] are about polls that fail. *)

From S2P Require Import Prelude Text Utf8 Regroup Hex Event Filter Expanded Json Custody.
From S2P Require Import Wire Transaction ProviderDb Ledger Reserve LedgerInv WatchJobs WatchCorrect.
From S2P Require Import Effects Bitcoind Health Watchtower.

Section correct.
Context `{ProviderEnv, EventCrypto, PgText}.

(** ** Requests are written once *)

(** The columns no statement changes. *)
Definition request_of (r : WatchRow) : string * string * string * Value :=
  (wt_session_id r, wt_job_kind r, wt_request_sha256 r, wt_public_payload r).

Definition requests_kept (db db' : ProviderDb) : Prop := forall j r,
  db_watch_jobs db !! j = Some r -> exists r', db_watch_jobs db' !! j = Some r' /\ request_of r' = request_of r.

#[local] Instance requests_kept_preorder : PreOrder requests_kept.
Proof.
  split; [intros db j r Hr; by exists r|].
  intros db1 db2 db3 H12 H23 j r Hr. destruct (H12 j r Hr) as (r2 & Hr2 & He2).
  destruct (H23 j r2 Hr2) as (r3 & Hr3 & He3). exists r3. split; [done|congruence].
Qed.

Lemma same_jobs_kept db db' : db_watch_jobs db' = db_watch_jobs db -> requests_kept db db'.
Proof. intros He j r Hr. exists r. by rewrite He. Qed.

Lemma insert_kept db j r r' :
  db_watch_jobs db !! j = Some r -> request_of r' = request_of r ->
  requests_kept db (set_watch_jobs <[j := r']> db).
Proof.
  intros Hr He i x Hx. cbn. destruct (decide (i = j)) as [->|Hne].
  - exists r'. rewrite lookup_insert_eq. split; [done|congruence].
  - exists x. by rewrite lookup_insert_ne.
Qed.

Lemma update_kept db id allowed change n db' :
  (forall r, request_of (change r) = request_of r) ->
  update_watch db id allowed change = Ok (n, db') -> requests_kept db db'.
Proof.
  intros Hc [(_ & -> & _)|(_ & r & Hr & _ & _ & ->)]%update_watch_inv; [reflexivity|].
  by eapply insert_kept.
Qed.

Lemma alert_kept db id session class detail context now db' :
  insert_alert db id session class detail context now = Ok db' -> requests_kept db db'.
Proof. intros Ha. apply same_jobs_kept. by eapply insert_alert_jobs. Qed.

Ltac kept_steps :=
  repeat match goal with
  | Hu : update_watch _ _ _ _ = Ok _ |- _ => apply update_kept in Hu; [|done]
  | Hu : update_broadcast _ _ _ _ _ _ = Ok _ |- _ => unfold update_broadcast in Hu; tx_inv
  | Ha : insert_alert _ _ _ _ _ _ _ = Ok _ |- _ => apply alert_kept in Ha
  end;
  repeat first [done | reflexivity | match goal with Hk : requests_kept ?a _ |- requests_kept ?a _ =>
    etransitivity; [exact Hk|clear Hk] end].

Lemma enqueue_requests db q out db' : enqueue_watch_job db q = Ok (out, db') -> requests_kept db db'.
Proof.
  unfold enqueue_watch_job, insert_watch. intros Hq. tx_inv.
  repeat (case_match; tx_inv); try reflexivity.
  all: intros j r Hr; exists r; split; [|done]; cbn; rewrite lookup_insert_ne; [done|congruence].
Qed.

Lemma record_broadcast_requests db j q r v t now out db' :
  record_broadcast db j q r v t now = Ok (out, db') -> requests_kept db db'.
Proof. unfold record_broadcast. intros Hr. tx_inv. repeat (case_match; tx_inv); kept_steps. Qed.

Lemma record_confirmation_requests db j c q b now out db' :
  record_confirmation db j c q b now = Ok (out, db') -> requests_kept db db'.
Proof. unfold record_confirmation. intros Hr. tx_inv. kept_steps. Qed.

Lemma record_reorg_requests db j v now out db' :
  record_reorg db j v now = Ok (out, db') -> requests_kept db db'.
Proof. unfold record_reorg, watch_chain_rollback. intros Hr. tx_inv. kept_steps. Qed.

Lemma record_replacement_requests db j v now out db' :
  record_replacement db j v now = Ok (out, db') -> requests_kept db db'.
Proof. unfold record_replacement, watch_chain_rollback. intros Hr. tx_inv. kept_steps. Qed.

Lemma page_watch_job_requests db j c v now out db' :
  page_watch_job db j c v now = Ok (out, db') -> requests_kept db db'.
Proof. unfold page_watch_job. intros Hr. tx_inv. case_match; tx_inv; kept_steps. Qed.

Lemma mark_watch_unresolved_requests db j c v now out db' :
  mark_watch_unresolved db j c v now = Ok (out, db') -> requests_kept db db'.
Proof. unfold mark_watch_unresolved. intros Hr. tx_inv. case_match; tx_inv; kept_steps. Qed.

Lemma complete_watch_job_requests db j c now out db' :
  complete_watch_job db j c now = Ok (out, db') -> requests_kept db db'.
Proof. unfold complete_watch_job. intros Hr. tx_inv. repeat (case_match; tx_inv); kept_steps. Qed.

Lemma claim_requests db h now lease limit jobs db' :
  claim_due_watch_jobs db h now lease limit = Ok (jobs, db') -> requests_kept db db'.
Proof.
  intros (_ & Hall & Hother)%claim_inv j r Hr.
  destruct (decide (j ∈ select_due db h now limit)) as [Hj|Hj].
  - apply list_elem_of_lookup in Hj as [i Hi]. destruct (Forall2_lookup_l _ _ _ _ _ Hall Hi) as (x & _ & r' & Hr' & _ & Hn & _).
    simplify_eq. by eexists.
  - exists r. by rewrite Hother.
Qed.

Lemma set_alert_state_requests db id state now u db' :
  set_alert_state db id state now = Ok (u, db') -> requests_kept db db'.
Proof. unfold set_alert_state. intros Hs. tx_inv. case_match; tx_inv. by apply same_jobs_kept. Qed.

(** *** The ledger does not touch the jobs *)

Lemma insert_effect_jobs db id session operation sha request created n db' :
  insert_effect db id session operation sha request created = Ok (n, db') -> db_watch_jobs db' = db_watch_jobs db.
Proof. unfold insert_effect. intros Hi. tx_inv. by case_match; tx_inv. Qed.

Lemma update_complete_effect_jobs db id sha r reference now n db' :
  update_complete_effect db id sha r reference now = Ok (n, db') -> db_watch_jobs db' = db_watch_jobs db.
Proof. unfold update_complete_effect. intros Hi. tx_inv. by repeat (case_match; tx_inv). Qed.

Lemma persist_effect_request_jobs db q out db' :
  persist_effect_request db q = Ok (out, db') -> db_watch_jobs db' = db_watch_jobs db.
Proof.
  unfold persist_effect_request. intros Hp. tx_inv.
  match goal with Hi : insert_effect _ _ _ _ _ _ _ = _ |- _ => apply insert_effect_jobs in Hi end.
  by repeat (case_match; tx_inv).
Qed.

Lemma complete_effect_jobs db r out db' :
  complete_effect db r = Ok (out, db') -> db_watch_jobs db' = db_watch_jobs db.
Proof.
  unfold complete_effect. intros Hp. tx_inv. repeat (case_match; tx_inv); try done.
  all: match goal with Hi : update_complete_effect _ _ _ _ _ _ = _ |- _ => by apply update_complete_effect_jobs in Hi end.
Qed.

Lemma mark_effect_unresolved_jobs db id detail now out db' :
  mark_effect_unresolved db id detail now = Ok (out, db') -> db_watch_jobs db' = db_watch_jobs db.
Proof.
  unfold mark_effect_unresolved, update_effect_unresolved. intros Hp. tx_inv. repeat (case_match; tx_inv); try done.
  all: match goal with Hi : insert_alert _ _ _ _ _ _ _ = _ |- _ => by apply insert_alert_jobs in Hi end.
Qed.

Lemma configure_capacity_bucket_jobs db b asset total now u db' :
  configure_capacity_bucket db b asset total now = Ok (u, db') -> db_watch_jobs db' = db_watch_jobs db.
Proof. unfold configure_capacity_bucket, upsert_bucket. intros Hp. tx_inv. by repeat (case_match; tx_inv). Qed.

Lemma observe_utxo_jobs db o u db' : observe_utxo db o = Ok (u, db') -> db_watch_jobs db' = db_watch_jobs db.
Proof. unfold observe_utxo, upsert_utxo. intros Hp. tx_inv. by repeat (case_match; tx_inv). Qed.

Lemma take_utxos_jobs rid now ops db db' :
  try_fold (take_utxo rid now) db ops = Ok db' -> db_watch_jobs db' = db_watch_jobs db.
Proof.
  revert db. induction ops as [|o ops IH]; intros db Ht; cbn in Ht; tx_inv; [done|].
  rewrite (IH _ Ht). clear IH Ht.
  match goal with Ho : take_utxo _ _ _ _ = Ok _ |- _ => unfold take_utxo, reserve_utxo in Ho end.
  tx_inv. by repeat (case_match; tx_inv).
Qed.

Lemma insert_reserve_effect_jobs db q ops db' :
  insert_reserve_effect db q ops = Ok db' -> db_watch_jobs db' = db_watch_jobs db.
Proof.
  unfold insert_reserve_effect. intros Hi. tx_inv.
  match goal with He : insert_effect _ _ _ _ _ _ _ = _ |- _ => apply insert_effect_jobs in He end.
  by case_match; tx_inv.
Qed.

Lemma update_bucket_reserve_jobs db b amount now db' :
  update_bucket_reserve db b amount now = Ok db' -> db_watch_jobs db' = db_watch_jobs db.
Proof. unfold update_bucket_reserve. intros Hi. by case_match; tx_inv. Qed.

Lemma insert_reservation_jobs db id row db' :
  insert_reservation db id row = Ok db' -> db_watch_jobs db' = db_watch_jobs db.
Proof. unfold insert_reservation. intros Hi. by tx_inv. Qed.

Lemma hold_ark_unit_jobs db q now db' :
  hold_ark_unit db q now = Ok db' -> db_watch_jobs db' = db_watch_jobs db.
Proof. unfold hold_ark_unit, insert_ark_unit. intros Hi. by case_match; tx_inv. Qed.

Lemma reserve_writes_jobs db q ops amount sequence out db' :
  reserve_writes db q ops amount sequence = Ok (out, db') -> db_watch_jobs db' = db_watch_jobs db.
Proof.
  unfold reserve_writes. intros Hw. tx_inv.
  repeat match goal with
  | Hi : insert_reserve_effect _ _ _ = _ |- _ => apply insert_reserve_effect_jobs in Hi
  | Hi : update_bucket_reserve _ _ _ _ = _ |- _ => apply update_bucket_reserve_jobs in Hi
  | Hi : insert_reservation _ _ _ = _ |- _ => apply insert_reservation_jobs in Hi
  | Hi : hold_ark_unit _ _ _ = _ |- _ => apply hold_ark_unit_jobs in Hi
  | Hi : try_fold (take_utxo _ _) _ _ = Ok _ |- _ => apply take_utxos_jobs in Hi
  | Hi : update_complete_effect _ _ _ _ _ _ = _ |- _ => apply update_complete_effect_jobs in Hi
  end.
  congruence.
Qed.

Lemma reserve_jobs db q out db' : reserve db q = Ok (out, db') -> db_watch_jobs db' = db_watch_jobs db.
Proof.
  unfold reserve, reserve_replay. intros Hr. tx_inv.
  repeat (case_match; tx_inv); try done; by eapply reserve_writes_jobs.
Qed.

Lemma transition_ark_jobs db id state cause now db' :
  transition_ark_reserve_unit db id state cause now = Ok db' -> db_watch_jobs db' = db_watch_jobs db.
Proof.
  unfold transition_ark_reserve_unit, update_ark_unit_state. intros Ht. by repeat (case_match; tx_inv).
Qed.

Lemma release_reservation_jobs db id cause now out db' :
  release_reservation db id cause now = Ok (out, db') -> db_watch_jobs db' = db_watch_jobs db.
Proof.
  unfold release_reservation, update_reservation_state, update_bucket_release. intros Hr. tx_inv.
  repeat (case_match; tx_inv); try done;
    match goal with Ht : transition_ark_reserve_unit _ _ _ _ _ = _ |- _ => apply transition_ark_jobs in Ht end; done.
Qed.

Lemma mark_reservation_unresolved_jobs db id detail context now out db' :
  mark_reservation_unresolved db id detail context now = Ok (out, db') -> db_watch_jobs db' = db_watch_jobs db.
Proof.
  unfold mark_reservation_unresolved, update_reservation_state. intros Hr. tx_inv.
  repeat (case_match; tx_inv); try done;
    match goal with Ht : transition_ark_reserve_unit _ _ _ _ _ = _ |- _ => apply transition_ark_jobs in Ht end;
    match goal with Ht : insert_alert _ _ _ _ _ _ _ = _ |- _ => apply insert_alert_jobs in Ht end; cbn in *; congruence.
Qed.

Lemma committed_requests {A} db (r : result ProviderStoreError (A * ProviderDb)) :
  (forall a db', r = Ok (a, db') -> requests_kept db db') -> requests_kept db (committed db r).
Proof. intros Hr. destruct r as [[a db']|e]; [by eapply Hr|reflexivity]. Qed.

Lemma ledger_step_requests db op : requests_kept db (ledger_step db op).
Proof.
  destruct op; cbn; apply committed_requests; intros a db' Hop; apply same_jobs_kept.
  - by eapply persist_effect_request_jobs.
  - by eapply complete_effect_jobs.
  - by eapply mark_effect_unresolved_jobs.
  - by eapply configure_capacity_bucket_jobs.
  - by eapply observe_utxo_jobs.
  - by eapply reserve_jobs.
  - by eapply release_reservation_jobs.
  - by eapply mark_reservation_unresolved_jobs.
Qed.

Lemma watch_step_requests db log op : requests_kept db (watch_step (db, log) op).1.
Proof.
  destruct op; cbn; try (apply committed_requests; intros a db' Hop).
  - by eapply enqueue_requests.
  - destruct (claim_due_watch_jobs _ _ _ _ _) as [[jobs db']|e] eqn:Hc; [by eapply claim_requests|reflexivity].
  - by eapply record_broadcast_requests.
  - by eapply record_confirmation_requests.
  - by eapply record_reorg_requests.
  - by eapply record_replacement_requests.
  - by eapply page_watch_job_requests.
  - by eapply mark_watch_unresolved_requests.
  - by eapply complete_watch_job_requests.
Qed.

Lemma store_steps_requests ops db : requests_kept db (fold_left store_step ops db).
Proof.
  revert db. induction ops as [|op ops IH]; intros db; cbn; [reflexivity|].
  etransitivity; [|apply IH]. destruct op; [apply ledger_step_requests|apply watch_step_requests].
Qed.

(** ** What a payload is bound to *)

(** [tx] is the transaction the payload's bytes spell, under the id and with
    the inputs the payload names. *)
Record describes (payload : BroadcastWatchPayload) (tx : Transaction) : Prop := mkDescribes {
  ds_bytes : exists bytes, as_bytes (bp_raw_transaction payload) = encode_hex_bytes bytes
                /\ transaction_parse bytes = Ok tx;
  ds_txid : exists id, txid tx = Ok id /\ bp_expected_txid payload = encode_lower_hex id;
  ds_inputs : bp_inputs payload = watched_input <$> tx_inputs tx;
}.

Definition CLAIM_KINDS : list string := ["claim_broadcast"; "chain_source_claim_broadcast"]%string.
Definition OTHER_KINDS : list string := ["refund_broadcast"; "cooperative_broadcast"]%string.

(** Claims carry the evidence that the preimage may be published; the other
    kinds carry none. *)
Definition release_matches (kind : string) (payload : BroadcastWatchPayload) : Prop :=
  (kind ∈ CLAIM_KINDS /\ is_Some (bp_claim_release payload))
  \/ (kind ∈ OTHER_KINDS /\ bp_claim_release payload = None).

Lemma decode_bounded_hex_Ok value max bytes :
  decode_bounded_hex value max = Ok bytes -> as_bytes value = encode_hex_bytes bytes /\ Forall is_byte bytes.
Proof.
  unfold decode_bounded_hex. intros Hd. run_inv. bool_to_prop. unfold str_len in *.
  pose proof (Z.div_mod (Z.of_nat (length (as_bytes value))) 2 ltac:(lia)) as Hdiv.
  apply (decode_pairs_Ok _ (Z.to_nat (Z.of_nat (length (as_bytes value)) / 2))) in Hd as (He & _ & Hb);
    [done|lia|apply as_bytes_range].
Qed.

Lemma validated_Ok raw claim p :
  validated raw claim = Ok p ->
  bp_raw_transaction p = raw /\ bp_claim_release p = claim /\ bp_schema p = WATCH_PAYLOAD_SCHEMA
  /\ len (bp_inputs p) <= MAX_WATCH_INPUTS /\ exists tx, describes p tx.
Proof.
  unfold validated. intros Hv. run_inv. bool_to_prop. subst p. cbn. split_and!; try done.
  { unfold len in *. by rewrite length_fmap. }
  match goal with Hp : transaction_parse ?b = Ok ?t, Hi : txid ?t = Ok ?i |- _ =>
    exists t; split; [exists b|exists i|]; split_and?; try done end.
  by eapply decode_bounded_hex_Ok.
Qed.

Lemma decode_job_payload_Ok job payload :
  decode_job_payload job = Ok payload ->
  request_sha256 payload = Ok (wj_request_sha256 job) /\ release_matches (wj_job_kind job) payload
  /\ exists tx, describes payload tx.
Proof.
  unfold decode_job_payload, validate_for_job. intros Hd. run_inv. unit_results. subst.
  match goal with Hv : validated _ _ = Ok _ |- _ => apply validated_Ok in Hv as (Hraw & Hclaim & _ & _ & tx & Htx) end.
  bool_to_prop. rewrite ?String.eqb_eq in *. split; [congruence|]. split.
  - unfold release_matches.
    match goal with Hk : (if ?a then Ok tt else if ?b then Ok tt else if ?c then _ else _) = Ok tt |- _ =>
      destruct a eqn:Hk1; [|destruct b eqn:Hk2; [|by destruct c]] end; bool_to_prop; unfold mem in *; bool_to_prop.
    + right. done.
    + left. done.
  - exists tx. destruct Htx as [[b [Hb Hp]] [i [Hi Hi']] Hin]. split; [exists b|exists i|]; split_and?; try done; congruence.
Qed.

(** ** The constructors make payloads the tower accepts *)

Lemma encode_hex_chars l : Forall is_byte l -> forallb hex_char (encode_hex_bytes l) = true.
Proof.
  induction 1 as [|b l Hb _ IH]; cbn; [done|]. rewrite IH, andb_true_r.
  pose proof (hex_nibble_digits b Hb) as (Hh & Hl & _).
  assert (forall c v, hex_nibble c = Some v -> hex_char c = true) as Hchar.
  { intros c v. unfold hex_nibble, hex_char, is_ascii_digit, in_range. repeat case_match; try done; intros _; lia. }
  by rewrite (Hchar _ _ Hh), (Hchar _ _ Hl).
Qed.

Lemma validate_hash_encoded bytes :
  length bytes = 32%nat -> Forall is_byte bytes -> validate_hash (encode_lower_hex bytes) = Ok tt.
Proof.
  intros Hlen Hb. unfold validate_hash, str_len.
  by rewrite as_bytes_encode, encode_hex_bytes_length, Hlen, encode_hex_chars.
Qed.

Lemma de_u_typed max v : in_u max v -> de_u max (VInt v) = Ok v.
Proof. intros [Hlo Hhi]. unfold de_u. by rewrite (proj2 (Z.leb_le _ _) Hlo), (proj2 (Z.leb_le _ _) Hhi). Qed.

Lemma outpoint_json o : in_u U32_MAX (wo_vout o) -> de_outpoint (outpoint_value o) = Ok o.
Proof.
  intros Hv. destruct o as [t v].
  change (outpoint_value (mkWatched t v)) with (VObject [("txid", VString t); ("vout", VInt v)]%string).
  unfold de_outpoint, de_struct. cbn -[de_u]. by rewrite de_u_typed.
Qed.

Definition evidence_typed (p : BroadcastWatchPayload) : Prop :=
  match bp_claim_release p with Some e => in_u U64_MAX (ce_settled_at e) | None => True end.

Lemma payload_json p :
  Forall (fun i => in_u U32_MAX (wo_vout i)) (bp_inputs p) -> evidence_typed p ->
  de_payload (public_value p) = Ok p.
Proof.
  intros Hin He. destruct p as [schema raw id inputs claim]. cbn [bp_inputs] in Hin.
  assert (try_map de_outpoint (outpoint_value <$> inputs) = Ok inputs) as Hi.
  { clear He. induction Hin as [|i l Hi _ IH]; [done|]. rewrite fmap_cons. cbn [try_map].
    by rewrite outpoint_json, IH. }
  set (c := match claim with Some e => evidence_value e | None => VNull end).
  change (public_value (mkPayload schema raw id inputs claim)) with
    (VObject [("claim_release", c); ("expected_txid", VString id);
              ("inputs", VArray (outpoint_value <$> inputs)); ("raw_transaction", VString raw);
              ("schema", VString schema)]%string).
  revert Hi. generalize (outpoint_value <$> inputs). intros values Hi.
  unfold de_payload, de_struct. cbn -[de_evidence de_outpoint].
  rewrite Hi. cbn -[de_evidence]. subst c.
  destruct claim as [[h t]|]; [|done].
  change (evidence_value (mkEvidence h t)) with (VObject [("payment_hash", VString h); ("settled_at", VInt t)]%string).
  unfold de_evidence, de_struct. cbn -[de_u]. by rewrite de_u_typed.
Qed.

Lemma txid_bytes `{!Sha256Digest} tx id : txid tx = Ok id -> length id = 32%nat /\ Forall is_byte id.
Proof.
  unfold txid, display_hash, double_sha256. intros Ht. run_inv. subst id.
  rewrite length_reverse, sha256_length. split; [done|]. apply Forall_reverse, sha256_bytes.
Qed.

Lemma validated_typed `{!Sha256Digest} raw claim p :
  validated raw claim = Ok p ->
  validate_hash (bp_expected_txid p) = Ok tt /\ bp_inputs p <> []
  /\ Forall (fun i => validate_hash (wo_txid i) = Ok tt /\ in_u U32_MAX (wo_vout i)) (bp_inputs p).
Proof.
  intros Hv. unfold validated in Hv. run_inv. subst p. cbn.
  match goal with Hp : transaction_parse _ = Ok _ |- _ => apply transaction_parse_Ok in Hp as (Htyped & _) end.
  2: { match goal with Hd : decode_bounded_hex _ _ = Ok _ |- _ => by apply decode_bounded_hex_Ok in Hd as [_ Hb] end. }
  destruct Htyped as (_ & [Hlen Hin] & _). split_and!.
  - match goal with Hi : txid _ = Ok _ |- _ => apply txid_bytes in Hi as [??] end. by apply validate_hash_encoded.
  - intros Hnil. apply fmap_nil_inv in Hnil. destruct Hlen as [Hlen _]. rewrite Hnil in Hlen. unfold len in Hlen. cbn in Hlen. lia.
  - apply Forall_fmap. eapply Forall_impl; [exact Hin|]. intros i ([Hl Hb] & Hv & _). cbn.
    split; [|done]. apply validate_hash_encoded; [by rewrite length_reverse|by apply Forall_reverse].
Qed.

(** A payload made by one of the constructors, stored with its own JSON
    form and digest under a kind that fits its evidence, is read back as the
    same payload by the tower, whatever the transaction. *)
Theorem payload_accepted `{!Sha256Digest} raw claim p job :
  validated raw claim = Ok p -> evidence_typed p ->
  request_sha256 p = Ok (wj_request_sha256 job) -> wj_public_payload job = public_value p ->
  release_matches (wj_job_kind job) p ->
  decode_job_payload job = Ok p.
Proof.
  intros Hv He Hq Hp Hrel. pose proof (validated_typed _ _ _ Hv) as (Hid & Hne & Hin).
  destruct (validated_Ok _ _ _ Hv) as (Hraw & Hclaim & Hschema & Hlen & _).
  unfold decode_job_payload. rewrite Hp, payload_json; [|eapply Forall_impl; [exact Hin|]; by intros i [_ ?]|done].
  cbn [map_err mbind result_bind]. unfold validate_for_job.
  rewrite Hschema, String.eqb_refl, bool_decide_eq_false_2, (proj2 (Z.ltb_ge _ _) Hlen) by done.
  cbn [negb orb]. rewrite Hq. cbn [mbind result_bind]. rewrite String.eqb_refl. cbn [negb].
  rewrite Hid. cbn [mbind result_bind].
  assert (try_fold (fun _ i => validate_hash (wo_txid i)) tt (bp_inputs p) = Ok tt) as ->.
  { clear -Hin. induction Hin as [|i l [Hi _] _ IH]; cbn; [done|]. by rewrite Hi. }
  cbn [mbind result_bind].
  rewrite Hraw, Hclaim, Hv.
  assert (release_matches (wj_job_kind job) p -> (if mem (wj_job_kind job) OTHER_KINDS && bool_decide (claim = None) then Ok tt
    else if mem (wj_job_kind job) CLAIM_KINDS && bool_decide (is_Some claim) then Ok tt
    else if mem (wj_job_kind job) ["refund_broadcast"; "claim_broadcast"; "chain_source_claim_broadcast";
              "cooperative_broadcast"]%string
    then Err (InvalidPayload "claim release evidence does not match the job kind")
    else Err (InvalidPayload "watch job kind is unsupported")) = Ok tt) as Hkind.
  { rewrite <- Hclaim. unfold mem. intros [[Hk Hs]|[Hk Hs]].
    - rewrite (bool_decide_eq_true_2 _ Hk), (bool_decide_eq_true_2 _ Hs). destruct Hs as [e ->].
      by rewrite andb_false_r.
    - by rewrite (bool_decide_eq_true_2 _ Hk), (bool_decide_eq_true_2 _ Hs). }
  fold OTHER_KINDS CLAIM_KINDS. rewrite (Hkind Hrel). cbn [mbind result_bind].
  by rewrite String.eqb_refl, bool_decide_eq_true_2.
Qed.

(** ** What the tower sends *)

(** The job of the row, as far as the tower relies on it. *)
Definition job_stored (job : WatchJob) (db : ProviderDb) : Prop := exists r,
  db_watch_jobs db !! wj_job_id job = Some r
  /\ request_of r = (wj_session_id job, wj_job_kind job, wj_request_sha256 job, wj_public_payload job).

(** The transaction sent is the one a stored job is bound to. *)
Definition sent_for_job (db : ProviderDb) (c : RpcCall) : Prop :=
  rc_method c = "sendrawtransaction"%string ->
  exists j r payload tx, db_watch_jobs db !! j = Some r
    /\ request_sha256 payload = Ok (wt_request_sha256 r) /\ de_payload (wt_public_payload r) = Ok payload
    /\ release_matches (wt_job_kind r) payload /\ describes payload tx
    /\ rc_params c = VArray [VString (bp_raw_transaction payload)].

Definition tower_step (t t' : Tower) : Prop :=
  requests_kept (tw_db t) (tw_db t')
  /\ exists calls, tw_calls t' = tw_calls t ++ calls /\ Forall (sent_for_job (tw_db t')) calls.

Lemma sent_for_job_kept db db' c : requests_kept db db' -> sent_for_job db c -> sent_for_job db' c.
Proof.
  intros Hk Hs Hm. destruct (Hs Hm) as (j & r & payload & tx & Hr & Hq & Hp & Hrel & Hd & Hc).
  destruct (Hk j r Hr) as (r' & Hr' & [= Hses Hkind Hsha Hpay]).
  exists j, r', payload, tx. rewrite Hsha, Hkind, Hpay. done.
Qed.

Lemma job_stored_kept db db' job : requests_kept db db' -> job_stored job db -> job_stored job db'.
Proof.
  intros Hk (r & Hr & He). destruct (Hk _ _ Hr) as (r' & Hr' & He'). exists r'. split; [done|congruence].
Qed.

Lemma watch_from_row_stored db id r job :
  db_watch_jobs db !! id = Some r -> watch_from_row id r = Ok job -> job_stored job db.
Proof. intros Hr Hw. unfold watch_from_row in Hw. tx_inv. by exists r. Qed.

Lemma claim_one_stored lease now db id job db' :
  claim_one lease now db id = Ok (job, db') -> job_stored job db' /\ requests_kept db db'.
Proof.
  unfold claim_one, query_one. intros Hc. tx_inv.
  match goal with Hw : watch_from_row _ ?r = Ok _, Hr : _ !! _ = Some ?r |- _ =>
    pose proof (watch_from_row_stored _ _ _ _ Hr Hw) as Hst end.
  match goal with Hu : update_watch _ _ _ _ = Ok _ |- _ => apply update_kept in Hu; [|done] end.
  destruct (String.eqb _ _); tx_inv; [|done].
  match goal with Ha : insert_alert _ _ _ _ _ _ _ = Ok _ |- _ => apply alert_kept in Ha end.
  split; [by eapply job_stored_kept|by etransitivity].
Qed.

Lemma claim_each_stored lease now db ids jobs db' :
  claim_each lease now db ids = Ok (jobs, db') ->
  Forall (fun job => job_stored job db') jobs /\ requests_kept db db'.
Proof.
  revert db jobs. induction ids as [|id ids IH]; intros db jobs Hc; cbn in Hc; tx_inv; [by split|].
  match goal with Ho : claim_one _ _ _ _ = _, He : claim_each _ _ _ _ = _ |- _ =>
    apply claim_one_stored in Ho as [Hst Hk1]; apply IH in He as [Hall Hk2] end.
  split; [|by etransitivity]. constructor; [by eapply job_stored_kept|done].
Qed.

Lemma claim_stored db h now lease limit jobs db' :
  claim_due_watch_jobs db h now lease limit = Ok (jobs, db') -> Forall (fun job => job_stored job db') jobs.
Proof. unfold claim_due_watch_jobs. intros Hc. tx_inv. by apply claim_each_stored in Hc as [Hall _]. Qed.

Lemma observation_stored db limit jobs :
  watch_jobs_for_observation db limit = Ok jobs -> Forall (fun job => job_stored job db) jobs.
Proof.
  unfold watch_jobs_for_observation. intros Hw. tx_inv. apply try_map_Ok_Forall2 in Hw. apply Forall_forall.
  intros job (i & Hi)%list_elem_of_lookup. destruct (Forall2_lookup_r _ _ _ _ _ Hw Hi) as ([id r] & Hk & Hr). cbn in Hr.
  apply list_elem_of_lookup_2, elem_of_take in Hk as (k & Hk & _). apply list_elem_of_lookup_2 in Hk.
  rewrite merge_sort_Permutation, elem_of_bfilter in Hk. destruct Hk as [Hk _].
  apply elem_of_map_to_list in Hk. by eapply watch_from_row_stored.
Qed.

#[local] Instance tower_step_preorder : PreOrder tower_step.
Proof.
  split.
  - intros t. split; [reflexivity|]. exists []. rewrite app_nil_r. done.
  - intros t1 t2 t3 [Hk12 (c12 & Hc12 & Hf12)] [Hk23 (c23 & Hc23 & Hf23)]. split; [by etransitivity|].
    exists (c12 ++ c23). rewrite Hc23, Hc12, app_assoc. split; [done|]. apply Forall_app. split; [|done].
    eapply Forall_impl; [exact Hf12|]. intros c. by apply sent_for_job_kept.
Qed.

#[local] Instance stored_stable job : Stable (fun t => job_stored job (tw_db t)) tower_step.
Proof. split; [apply _|]. intros t t' Hj [Hk _]. by eapply job_stored_kept. Qed.
#[local] Instance true_stable : Stable (fun _ : Tower => True) tower_step.
Proof. split; [apply _|done]. Qed.

Section tower.
Context `{Surroundings}.
Notation M := (Eff Tower WatchtowerError).

Lemma node_call_keeps (P : Tower -> Prop) id method params :
  method <> "sendrawtransaction"%string -> keeps P tower_step (node_call id method params).
Proof.
  intros Hm t _. cbn. split; [apply store_steps_requests|].
  exists [mkCall id method params]. split; [done|]. apply Forall_singleton. by intros ?.
Qed.

Lemma store_keeps {A} (P : Tower -> Prop) (f : ProviderDb -> result ProviderStoreError (A * ProviderDb)) :
  (forall db a db', f db = Ok (a, db') -> requests_kept db db') -> keeps P tower_step (store f).
Proof.
  intros Hf t _. unfold store. destruct (f (tw_db t)) as [[a db]|e] eqn:He; cbn; [|reflexivity].
  split; [by eapply Hf|]. exists []. cbn. rewrite app_nil_r. done.
Qed.

Lemma store_read_keeps {A} (P : Tower -> Prop) (f : ProviderDb -> result ProviderStoreError A) :
  keeps P tower_step (store_read f).
Proof. intros t _. cbn. reflexivity. Qed.

Lemma send_alert_keeps (P : Tower -> Prop) alert : keeps P tower_step (send_alert alert).
Proof. intros t _. cbn. split; [reflexivity|]. exists []. cbn. rewrite app_nil_r. done. Qed.

Lemma on_health_keeps (P : Tower -> Prop) f : keeps (E := WatchtowerError) P tower_step (eff_modify (on_health f)).
Proof. intros t _. cbn. split; [reflexivity|]. exists []. cbn. rewrite app_nil_r. done. Qed.

Ltac keep_atom :=
  match goal with
  | |- keeps _ _ (mret _) => apply keeps_ret; apply _
  | |- keeps _ _ (eff_raise _) => apply keeps_raise; apply _
  | |- keeps _ _ (eff_lift _ _) => apply keeps_lift; apply _
  | |- keeps _ _ eff_get => apply keeps_get; apply _
  | |- keeps _ _ (store_read _) => apply store_read_keeps
  | |- keeps _ _ (send_alert _) => apply send_alert_keeps
  | |- keeps _ _ (eff_modify (on_health _)) => apply on_health_keeps
  | |- keeps _ _ (node_call _ _ _) => apply node_call_keeps; discriminate
  end.
Ltac keep :=
  repeat match goal with
  | |- keeps _ _ (mbind _ _) => apply keeps_bind; [apply _| |intros ?]
  | |- keeps _ _ (eff_try _) => apply keeps_try
  | |- keeps _ _ (eff_err _ _) => apply keeps_err
  | |- keeps _ _ (chain _) => apply keeps_err
  | |- keeps _ _ (if ?b then _ else _) => destruct b
  | |- keeps _ _ (let '(_, _) := ?p in _) => destruct p
  | |- keeps _ _ (match ?x with _ => _ end) => destruct x
  | |- keeps _ _ _ => keep_atom
  end.

Lemma request_id_keeps P `{!Stable P tower_step} prefix now attempt :
  keeps P tower_step (request_id prefix now attempt).
Proof. apply keeps_lift. apply _. Qed.

Lemma raw_transaction_keeps P `{!Stable P tower_step} id t v :
  keeps P tower_step (raw_transaction node_call id t v).
Proof. unfold raw_transaction, check. keep. Qed.

Lemma transaction_output_keeps P `{!Stable P tower_step} id t n b :
  keeps P tower_step (transaction_output node_call id t n b).
Proof. unfold transaction_output, check. keep. Qed.

Lemma job_completed_keeps P `{!Stable P tower_step} j : keeps P tower_step (job_completed j).
Proof. unfold job_completed. keep. Qed.

Lemma broadcast_keeps job payload id :
  decode_job_payload job = Ok payload ->
  keeps (fun t => job_stored job (tw_db t)) tower_step (broadcast node_call id (bp_raw_transaction payload)).
Proof.
  intros Hd. unfold broadcast, check. apply keeps_bind; [apply _|keep|intros _].
  apply keeps_bind; [apply _| |intros answer; keep].
  intros t Hj. set (c := mkCall id "sendrawtransaction" (VArray [VString (bp_raw_transaction payload)])).
  assert (requests_kept (tw_db t) (fold_left store_step (others (tw_calls t) c) (tw_db t))) as Hk
    by apply store_steps_requests.
  split; [exact Hk|]. exists [c]. split; [done|]. apply Forall_singleton. intros _.
  destruct (job_stored_kept _ _ _ Hk Hj) as (r & Hr & [= Hses Hkind Hsha Hpay]).
  assert (de_payload (wj_public_payload job) = Ok payload) as Hde.
  { unfold decode_job_payload in Hd. run_inv. by subst. }
  apply decode_job_payload_Ok in Hd as (Hq & Hrel & tx & Hdesc).
  exists (wj_job_id job), r, payload, tx. rewrite Hsha, Hkind, Hpay. done.
Qed.

Ltac keep_more := repeat first
  [ progress keep
  | match goal with
    | |- keeps _ _ (request_id _ _ _) => apply request_id_keeps; apply _
    | |- keeps _ _ (raw_transaction _ _ _ _) => apply raw_transaction_keeps; apply _
    | |- keeps _ _ (transaction_output _ _ _ _ _) => apply transaction_output_keeps; apply _
    | |- keeps _ _ (job_completed _) => apply job_completed_keeps; apply _
    | |- keeps _ _ (store _) => apply store_keeps; intros ? ? ?; cbv beta;
      match goal with
      | |- record_broadcast _ _ _ _ _ _ _ = _ -> _ => apply record_broadcast_requests
      | |- record_reorg _ _ _ _ = _ -> _ => apply record_reorg_requests
      | |- record_replacement _ _ _ _ = _ -> _ => apply record_replacement_requests
      | |- record_confirmation _ _ _ _ _ _ = _ -> _ => apply record_confirmation_requests
      | |- page_watch_job _ _ _ _ _ = _ -> _ => apply page_watch_job_requests
      | |- set_alert_state _ _ _ _ = _ -> _ => apply set_alert_state_requests
      end
    end ].

Lemma broadcast_job_keeps job now :
  keeps (fun t => job_stored job (tw_db t)) tower_step (broadcast_job job now).
Proof.
  unfold broadcast_job, pure. apply keeps_lift_bind; [apply _|]. intros payload Hd.
  apply keeps_bind; [apply _|apply request_id_keeps; apply _|intros id].
  apply keeps_bind; [apply _|apply keeps_try, broadcast_keeps; done|intros answer].
  apply keeps_bind; [apply _| |intros transaction_id]; keep_more.
Qed.

Lemma inputs_unspent_keeps P `{!Stable P tower_step} i inputs now :
  keeps P tower_step (inputs_unspent_from i inputs now).
Proof. revert i. induction inputs as [|input inputs IH]; intros i; cbn; keep_more. apply IH. Qed.

Lemma find_replacement_keeps P `{!Stable P tower_step} payload now :
  keeps P tower_step (find_replacement payload now).
Proof. unfold find_replacement, pure. keep_more. Qed.

Lemma observe_job_keeps w job tip now :
  keeps (fun t => job_stored job (tw_db t)) tower_step (observe_job w job tip now).
Proof.
  unfold observe_job, observe_found, observe_missing, inputs_are_unspent, pure.
  keep_more; first [apply inputs_unspent_keeps; apply _ | apply find_replacement_keeps; apply _ | apply broadcast_job_keeps].
Qed.

Lemma page_or_fail_keeps P `{!Stable P tower_step} job code now work :
  keeps P tower_step work -> keeps P tower_step (page_or_fail job code now work).
Proof. intros Hw. unfold page_or_fail, page_job. keep_more. exact Hw. Qed.

Lemma deliver_alerts_keeps P `{!Stable P tower_step} w now : keeps P tower_step (deliver_alerts w now).
Proof.
  unfold deliver_alerts. keep_more. apply keeps_for; [apply _|]. intros alert _. keep_more.
Qed.

#[local] Instance all_stored_stable jobs :
  Stable (fun t => True /\ Forall (fun job => job_stored job (tw_db t)) jobs) tower_step.
Proof.
  split; [apply _|]. intros t t' [_ Hj] [Hk _]. split; [done|]. eapply Forall_impl; [exact Hj|].
  intros job. by apply job_stored_kept.
Qed.

Lemma keeps_weaken {S E A} (P P' : S -> Prop) R (m : Eff S E A) :
  (forall s, P' s -> P s) -> keeps P R m -> keeps P' R m.
Proof. intros Hp Hm s Hs. by apply Hm, Hp. Qed.

(** A loop over jobs read from the store. *)
Lemma jobs_loop_keeps jobs (body : WatchJob -> M unit) :
  (forall job, keeps (fun t => job_stored job (tw_db t)) tower_step (body job)) ->
  keeps (fun t => True /\ Forall (fun job => job_stored job (tw_db t)) jobs) tower_step (eff_for jobs body).
Proof.
  intros Hb. apply keeps_for; [apply _|]. intros job Hin. eapply keeps_weaken; [|apply Hb].
  intros t [_ Hall]. by apply (proj1 (Forall_forall _ _) Hall).
Qed.

Lemma poll_chain_keeps P `{!Stable P tower_step} now : keeps P tower_step (poll_chain now).
Proof. unfold poll_chain, best_block_hash, block_header, raw_mempool, check, pure. keep_more. Qed.

Lemma poll_once_keeps w now : keeps (fun _ => True) tower_step (poll_once w now).
Proof.
  unfold poll_once, pure. apply keeps_bind; [apply _|apply poll_chain_keeps; apply _|intros [tip height]].
  apply keeps_bind; [apply _|keep_more|intros lease].
  apply keeps_bind_post with (Q := fun due t => Forall (fun job => job_stored job (tw_db t)) due); [apply _|..].
  { apply store_keeps. intros db a db'. apply claim_requests. }
  { intros t due _. unfold store. destruct (claim_due_watch_jobs _ _ _ _ _) as [[jobs db]|e] eqn:Hc; cbn; [|done].
    intros [= <-]. by apply claim_stored in Hc. }
  intros due. apply keeps_bind; [apply _| |intros _].
  { apply jobs_loop_keeps. intros job. destruct (String.eqb _ _); [keep|].
    apply page_or_fail_keeps; [apply _|]. apply broadcast_job_keeps. }
  apply keeps_weaken with (P := fun _ => True); [done|].
  apply keeps_bind_post with (Q := fun jobs t => Forall (fun job => job_stored job (tw_db t)) jobs); [apply _|..].
  { apply store_read_keeps. }
  { intros t jobs _. unfold store_read. cbn. intros Hj. apply map_err_Ok in Hj. exact (observation_stored (tw_db t) MAX_OBSERVATION_JOBS jobs Hj). }
  intros jobs. apply keeps_bind; [apply _| |intros _].
  { apply jobs_loop_keeps. intros job. apply page_or_fail_keeps; [apply _|]. apply observe_job_keeps. }
  apply keeps_weaken with (P := fun _ => True); [done|].
  apply keeps_bind; [apply _|apply deliver_alerts_keeps; apply _|intros _]. keep_more.
Qed.

(** C4: whatever the node answers and whatever other clients do to the store
    meanwhile, every transaction a poll sends to the node is the one its stored
    job is bound to: the bytes are those of the job's payload, whose digest is
    the job's request digest; they parse to a transaction with exactly the id
    and the inputs the payload names; and a claim carries its release
    evidence. *)
Theorem broadcasts_bound w now t :
  exists calls, tw_calls (poll_once w now t).2 = tw_calls t ++ calls
    /\ forall c, c ∈ calls -> sent_for_job (tw_db (poll_once w now t).2) c.
Proof.
  destruct (poll_once_keeps w now t I) as [_ (calls & Hc & Hf)]. exists calls.
  split; [done|]. by apply Forall_forall.
Qed.

(** ** A rejected broadcast *)

Definition send_call (id : string) (payload : BroadcastWatchPayload) : RpcCall :=
  mkCall id "sendrawtransaction" (VArray [VString (bp_raw_transaction payload)]).

(** The tower after a call. *)
Definition after_call (c : RpcCall) (t : Tower) : Tower :=
  mkTower (fold_left store_step (others (tw_calls t) c) (tw_db t)) (tw_health t) (tw_calls t ++ [c]) (tw_alerts t).

Lemma raw_is_hex job payload :
  decode_job_payload job = Ok payload ->
  rpc_validate_hex (bp_raw_transaction payload) "raw transaction is not bounded hexadecimal" = Ok tt.
Proof.
  intros Hd. unfold decode_job_payload, validate_for_job in Hd. run_inv. subst.
  match goal with Hv : validated _ _ = Ok _ |- _ => unfold validated in Hv; run_inv end.
  match goal with Hx : decode_bounded_hex _ _ = Ok _ |- _ =>
    pose proof (decode_bounded_hex_Ok _ _ _ Hx) as [He Hb]; unfold decode_bounded_hex in Hx; run_inv end.
  bool_to_prop. unfold rpc_validate_hex.
  rewrite (proj2 (Z.eqb_neq _ _)) by done. rewrite (proj2 (Z.eqb_eq _ _)) by done.
  rewrite (proj2 (Z.leb_le _ _)) by (unfold DEFAULT_MAX_REQUEST_BYTES, MAX_RAW_TRANSACTION_BYTES in *; lia).
  rewrite He. cbn [negb andb].
  match goal with Hb : Forall is_byte ?b |- context [encode_hex_bytes ?b] =>
    pose proof (encode_hex_chars b Hb) as Hc end.
  rewrite forallb_forall in Hc.
  match goal with |- (if ?f then _ else _) = _ => assert (f = true) as ->; [|done] end.
  apply forallb_forall. intros c Hin. specialize (Hc c Hin).
  unfold hex_char, is_ascii_hexdigit, in_range, is_ascii_digit in *. lia.
Qed.

Lemma job_completed_reads j t : (job_completed j t).2 = t.
Proof. unfold job_completed, mbind, eff_bind, store_read. by destruct (map_err _ _). Qed.

Lemma rejected_broadcast job payload id e now t :
  decode_job_payload job = Ok payload ->
  rpc_request_id ("broadcast" +:+ ":" +:+ to_string now +:+ ":" +:+ to_string (wj_attempt_count job)) = Ok id ->
  node_answer (tw_calls t) (send_call id payload) = Err e -> is_rpc (-27) e = false ->
  (job_completed (wj_job_id job) (after_call (send_call id payload) t)).1 = Ok false ->
  broadcast_job job now t = (Err (Chain e), after_call (send_call id payload) t).
Proof.
  intros Hd Hid Hans He Hcomp. unfold broadcast_job.
  erewrite eff_bind_Ok; [|unfold pure, eff_lift; rewrite Hd; reflexivity].
  erewrite eff_bind_Ok; [|unfold request_id, eff_lift; rewrite Hid; reflexivity].
  assert (broadcast node_call id (bp_raw_transaction payload) t = (Err e, after_call (send_call id payload) t)) as Hb.
  { unfold broadcast. erewrite eff_bind_Ok; [|unfold check, eff_lift; rewrite (raw_is_hex _ _ Hd); reflexivity].
    erewrite eff_bind_Err; [reflexivity|]. unfold node_call. fold (send_call id payload). by rewrite Hans. }
  erewrite eff_bind_Ok; [|unfold eff_try; rewrite Hb; reflexivity].
  erewrite eff_bind_Err; [reflexivity|]. cbv beta. rewrite He.
  rewrite (eff_bind_Ok _ _ _ false (after_call (send_call id payload) t)); [done|].
  rewrite (surjective_pairing (job_completed _ _)), Hcomp. by rewrite job_completed_reads.
Qed.

(** C39: when the node rejects the first broadcast of a poll, for another
    reason than that the transaction is already confirmed, the poll ends there:
    no other transaction is sent, and yet every other job the poll had claimed
    has spent one of its attempts. *)
Theorem rejected_broadcast_starves w now t tip height t1 job rest db payload id e :
  poll_chain now t = (Ok (tip, height), t1) -> now + WATCH_LEASE_SECONDS <= U64_MAX ->
  claim_due_watch_jobs (tw_db t1) height now (now + WATCH_LEASE_SECONDS) MAX_DUE_JOBS = Ok (job :: rest, db) ->
  wj_state job <> "page"%string -> decode_job_payload job = Ok payload ->
  rpc_request_id ("broadcast" +:+ ":" +:+ to_string now +:+ ":" +:+ to_string (wj_attempt_count job)) = Ok id ->
  node_answer (tw_calls t1) (send_call id payload) = Err e -> is_rpc (-27) e = false ->
  (job_completed (wj_job_id job) (after_call (send_call id payload) (set_db db t1))).1 = Ok false ->
  exists t2, poll_once w now t = (Err (Chain e), t2)
    /\ tw_calls t2 = tw_calls t1 ++ [send_call id payload]
    /\ forall other, other ∈ rest -> exists r,
         db_watch_jobs (tw_db t1) !! wj_job_id other = Some r
         /\ db_watch_jobs db !! wj_job_id other = Some (run_or_page (now + WATCH_LEASE_SECONDS) now r).
Proof.
  intros Hpoll Hnow Hclaim Hst Hd Hid Hans He Hcomp.
  pose proof (rejected_broadcast job payload id e now (set_db db t1) Hd Hid Hans He Hcomp) as Hb.
  exists (after_call (send_call id payload) (set_db db t1)). split; [|split; [done|]].
  - unfold poll_once. erewrite eff_bind_Ok; [|exact Hpoll]. cbv beta iota.
    erewrite eff_bind_Ok; [|unfold pure, eff_lift, checked_add; rewrite (proj2 (Z.leb_le _ _) Hnow); reflexivity].
    erewrite eff_bind_Ok; [|unfold store; rewrite Hclaim; reflexivity].
    erewrite eff_bind_Err; [reflexivity|]. cbn [eff_for].
    erewrite eff_bind_Err; [reflexivity|]. rewrite (proj2 (String.eqb_neq _ _)) by done.
    unfold page_or_fail. erewrite eff_bind_Ok; [|unfold eff_try; rewrite Hb; reflexivity]. done.
  - intros other Hin. apply claim_inv in Hclaim as (_ & Hall & _).
    apply (list_elem_of_fmap_2 handed) in Hin. apply list_elem_of_lookup in Hin as [i Hi].
    destruct (Forall2_lookup_r _ _ _ (S i) _ Hall Hi) as (j & _ & r & Hr & _ & Hr' & Hh).
    injection Hh as Hj _. rewrite Hj. by exists r.
Qed.

(** ** Readiness *)

Lemma bounded_count_zero {A} (state : A -> string) counted (m : gmap string A) :
  (bounded_count state counted m =? 0) = true <-> forall id r, m !! id = Some r -> counted (state r) = false.
Proof.
  unfold bounded_count, HEALTH_COUNT_SCAN_LIMIT, len. rewrite Z.eqb_eq. split.
  - intros Hz id r Hr. destruct (counted (state r)) eqn:Hc; [|done]. exfalso.
    assert ((id, r) ∈ List.filter (fun kr => counted (state kr.2)) (map_to_list m)) as Hin.
    { rewrite elem_of_bfilter. split; [by apply elem_of_map_to_list|done]. }
    destruct (List.filter _ _); [by apply elem_of_nil in Hin|]. cbn [length] in Hz. lia.
  - intros Hall. rewrite bfilter_none; [done|]. intros [id r] Hin%elem_of_map_to_list. by eapply Hall.
Qed.

(** Nothing in the store waits for the operator or for an effect. *)
Record settled (db : ProviderDb) : Prop := mkSettled {
  st_reservations : forall id r, db_reservations db !! id = Some r -> rv_state r <> "unresolved"%string;
  st_effects : forall id r, db_effects db !! id = Some r -> ef_state r <> "pending"%string /\ ef_state r <> "unresolved"%string;
  st_jobs : forall id r, db_watch_jobs db !! id = Some r -> wt_state r <> "unresolved"%string /\ wt_state r <> "page"%string;
  st_alerts : forall id r, db_alerts db !! id = Some r -> al_state r = "resolved"%string;
}.

Lemma mem_single (x y : string) : mem x [y] = false <-> x <> y.
Proof. unfold mem. rewrite bool_decide_eq_false, list_elem_of_singleton. done. Qed.

Lemma all_settled_spec db : all_settled (health_counts db) = true <-> settled db.
Proof.
  unfold all_settled, health_counts. cbn. rewrite !andb_true_iff, !bounded_count_zero.
  setoid_rewrite mem_single. setoid_rewrite negb_false_iff. setoid_rewrite String.eqb_eq. split.
  - intros [[[[[??]?]?]?]?]. by split; eauto.
  - intros [? He Hj ?]. repeat split; eauto; intros id r Hr; [apply (He id r Hr)..|apply (Hj id r Hr)|apply (Hj id r Hr)].
Qed.

(** After a poll that succeeds, and unless the provider is draining, the
    health endpoint answers that it is ready exactly when nothing in the store
    is pending or unresolved: no effect, no reservation, no watch job and no
    alert. *)
Theorem readiness_exact w now t t' :
  poll_once w now t = (Ok tt, t') -> ph_draining (tw_health t') = false ->
  health_status (tw_health t') = "200 OK"%string <-> settled (tw_db t').
Proof.
  intros Hp Hdr. rewrite <- all_settled_spec. unfold poll_once in Hp.
  apply eff_bind_inv in Hp as ([tip height] & t1 & _ & Hp).
  apply eff_bind_inv in Hp as (lease & t2 & _ & Hp).
  apply eff_bind_inv in Hp as (due & t3 & _ & Hp).
  apply eff_bind_inv in Hp as (u1 & t4 & _ & Hp).
  apply eff_bind_inv in Hp as (obs & t5 & _ & Hp).
  apply eff_bind_inv in Hp as (u2 & t6 & _ & Hp).
  apply eff_bind_inv in Hp as (u3 & t7 & _ & Hp).
  rewrite (eff_bind_Ok eff_get _ t7 t7 t7 eq_refl) in Hp. cbv zeta in Hp.
  remember (health_counts (tw_db t7)) as c eqn:Hc in Hp.
  unfold eff_modify, on_health, mbind, eff_bind in Hp. injection Hp as <-.
  cbn [tw_db tw_health] in *. rewrite <- Hc. clear Hc. unfold health_status, health_ok.
  destruct (all_settled c) eqn:Hs; cbn in Hdr |- *; [|done].
  unfold mark_ready in *. cbn in *. destruct (ph_draining (tw_health t7)) eqn:Hd7; [cbn in Hdr; congruence|].
  cbn. rewrite Hd7. unfold all_settled in Hs. bool_to_prop. unfold saturating_add, U64_MAX.
  repeat match goal with Hz : _ c = 0 |- _ => rewrite Hz; clear Hz end. done.
Qed.

(** ** An outage *)

Section outage.
Context `{Schedule}.
Hypothesis node_down : forall calls c, exists e, node_answer calls c = Err e.

(** A poll asks for the tip, or not even that, and changes nothing itself. *)
Lemma outage_poll w now t :
  exists e t', poll_once w now t = (Err e, t') /\ tw_health t' = tw_health t
    /\ (t' = t \/ exists id, t' = after_call (mkCall id "getbestblockhash" (VArray [])) t).
Proof.
  unfold poll_once, poll_chain. destruct (request_id "best-block" now 0 t) as [[id|e] t0] eqn:Hid.
  - assert (t0 = t) as -> by (unfold request_id, eff_lift in Hid; congruence).
    destruct (node_down (tw_calls t) (mkCall id "getbestblockhash" (VArray []))) as [e He].
    exists (Chain e), (after_call (mkCall id "getbestblockhash" (VArray [])) t).
    split; [|split; [done|right; by exists id]].
    erewrite eff_bind_Err; [reflexivity|]. erewrite eff_bind_Ok; [|exact Hid].
    erewrite eff_bind_Err; [reflexivity|]. unfold chain, eff_err, best_block_hash.
    erewrite eff_bind_Err; [reflexivity|]. unfold node_call. by rewrite He.
  - assert (t0 = t) as -> by (unfold request_id, eff_lift in Hid; congruence).
    exists e, t. split; [|split; [done|by left]].
    erewrite eff_bind_Err; [reflexivity|]. erewrite eff_bind_Err; [reflexivity|]. exact Hid.
Qed.

Definition asks_tip (c : RpcCall) : Prop := rc_method c = "getbestblockhash"%string.

Definition total (waits : list Z) : Z := foldr Z.add 0 waits.

(** How the loop ends, [waits] having been slept and [calls] made since. *)
Record outage_end (t : Tower) (r : result WatchtowerError unit) (waits : list Z) (bound : Z) (t' : Tower) : Prop := {
  oe_waits : total waits <= bound;
  oe_calls : exists calls, tw_calls t' = tw_calls t ++ calls /\ Forall asks_tip calls;
  oe_ready : r = Err ChainStale \/ r = Err PollExhausted -> ph_ready (tw_health t') = false;
}.

Lemma send_system_alert_quiet w type now failures t :
  tw_calls (send_system_alert w type now failures t).2 = tw_calls t
  /\ tw_health (send_system_alert w type now failures t).2 = tw_health t.
Proof. unfold send_system_alert. by destruct (alert_endpoint w). Qed.

(** A failed poll marks the provider not ready; the loop waits for the current
    delay and doubles it, or ends. *)
Lemma after_failure_cases w i l now t :
  pb_maximum_failures (lp_backoff l) <= 1000 ->
  let out := after_failure w i l now t in
  tw_calls out.2 = tw_calls t /\ ph_ready (tw_health out.2) = false
  /\ ((exists r, out.1 = inr r) \/
      (pb_consecutive_failures (lp_backoff l) < pb_maximum_failures (lp_backoff l)
       /\ out.1 = inl (mkLoop (record_failure (lp_backoff l)).2 (lp_last_success l)
                         (lp_waits l ++ [pb_current (lp_backoff l)])))).
Proof.
  intros Hmax. unfold after_failure. destruct (record_chain_failure (mark_not_ready (tw_health t))) as [failures h] eqn:Hh.
  assert (ph_ready h = false) as Hr by (unfold record_chain_failure in Hh; by simplify_eq).
  destruct (record_failure (lp_backoff l)) as [delay backoff] eqn:Hf.
  set (stale := stale_after w / 1000000000 <=? _). cbn zeta.
  split; [|split].
  - cbn [fst snd]. destruct (chain_failure_alert _ _); [|done]. by rewrite (proj1 (send_system_alert_quiet _ _ _ _ _)).
  - destruct (chain_failure_alert _ _); [|done]. cbn [fst snd].
    by rewrite (proj2 (send_system_alert_quiet _ _ _ _ _)).
  - destruct stale; [left; by eexists|]. destruct delay as [delay|]; [|left; by eexists].
    cbn [fst]. destruct (shutdown_in_wait i); [left; by eexists|right].
    unfold record_failure in Hf. destruct (_ <? _) eqn:Hlt; [done|]. simplify_eq. bool_to_prop.
    split; [|done]. unfold saturating_add, U32_MAX in Hlt. lia.
Qed.

Lemma run_step_outage w i l t :
  pb_maximum_failures (lp_backoff l) <= 1000 ->
  let out := run_step w i l t in
  (exists calls, tw_calls out.2 = tw_calls t ++ calls /\ Forall asks_tip calls)
  /\ ((exists r, out.1 = inr r /\ (r = Err ChainStale \/ r = Err PollExhausted -> ph_ready (tw_health out.2) = false)) \/
      (pb_consecutive_failures (lp_backoff l) < pb_maximum_failures (lp_backoff l)
       /\ out.1 = inl (mkLoop (record_failure (lp_backoff l)).2 (lp_last_success l)
                         (lp_waits l ++ [pb_current (lp_backoff l)])))).
Proof.
  intros Hmax. unfold run_step. destruct (shutdown_seen i).
  { split; [exists []; by rewrite app_nil_r|]. left. exists (Ok tt). split; [done|]. by intros [|]. }
  destruct (unix_now (Datatypes.S i)) as [now|].
  2: { split; [exists []; by rewrite app_nil_r|]. left. exists (Err TowerClock). split; [done|]. by intros [|]. }
  destruct (outage_poll w now t) as (e & t' & Hp & _ & Ht'). rewrite Hp.
  destruct (after_failure_cases w i l now t' Hmax) as (Hcalls & Hready & Hout). split.
  - rewrite Hcalls. destruct Ht' as [->|[id ->]].
    + exists []. by rewrite app_nil_r.
    + exists [mkCall id "getbestblockhash" (VArray [])]. split; [done|]. by apply Forall_singleton.
  - destruct Hout as [[r Hr]|Hout]; [left; exists r|right]; done.
Qed.

(** The back-off of a failure that is not the last. *)
Lemma record_failure_next b :
  pb_consecutive_failures b < pb_maximum_failures b <= 1000 -> 0 <= pb_current b -> 0 <= pb_maximum b ->
  let b' := (record_failure b).2 in
  pb_maximum_failures b' = pb_maximum_failures b /\ pb_maximum b' = pb_maximum b
  /\ pb_consecutive_failures b' = pb_consecutive_failures b + 1 /\ 0 <= pb_current b' <= 2 * pb_current b.
Proof.
  intros Hlt Hc Hm. unfold record_failure, saturating_add, U32_MAX.
  rewrite Z.min_r by lia. rewrite (proj2 (Z.ltb_ge _ _)) by lia. cbn. unfold DURATION_MAX, U64_MAX. lia.
Qed.

Lemma run_loop_outage k : forall w i l t,
  pb_maximum_failures (lp_backoff l) = MAX_POLL_FAILURES ->
  MAX_POLL_FAILURES - Z.of_nat k <= pb_consecutive_failures (lp_backoff l) ->
  0 <= pb_current (lp_backoff l) -> 0 <= pb_maximum (lp_backoff l) ->
  exists r waits t', run_loop (Datatypes.S k) w i l t = Some (r, lp_waits l ++ waits, t')
    /\ outage_end t r waits ((2 ^ Z.of_nat k - 1) * pb_current (lp_backoff l)) t'.
Proof.
  induction k as [|k IH]; intros w i l t Hmax Hk Hcur Hpm.
  all: destruct (run_step_outage w i l t) as [(calls & Hcalls & Hask) Hout]; [rewrite Hmax; done|].
  all: remember (run_step w i l t) as step eqn:Hs; destruct step as [out t1]; cbn [fst snd] in *.
  all: destruct Hout as [(r & -> & Hready)|(Hlt & ->)].
  1, 3: exists r, [], t1; rewrite app_nil_r; split; [cbn [run_loop]; by rewrite <- Hs|];
    split; [cbn; nia|by exists calls|done].
  { rewrite Hmax in Hlt. lia. }
  destruct (record_failure_next (lp_backoff l)) as (Hmf & Hmx & Hcf & Hc0 & Hc2); [rewrite Hmax in *; done|done..|].
  destruct (IH w (Datatypes.S i) (mkLoop (record_failure (lp_backoff l)).2 (lp_last_success l)
              (lp_waits l ++ [pb_current (lp_backoff l)])) t1)
    as (r & waits & t' & Hrun & [Hw (calls' & Hc' & Hask') Hready]); cbn [lp_backoff lp_waits] in *; try lia.
  exists r, (pb_current (lp_backoff l) :: waits), t'. split.
  - remember (Datatypes.S k) as k'. cbn [run_loop]. rewrite <- Hs, Hrun. by rewrite <- app_assoc.
  - split; [|exists (calls ++ calls'); rewrite Hc', Hcalls, app_assoc; split; [done|by apply Forall_app]|done].
    cbn [total foldr]. fold (total waits). rewrite Nat2Z.inj_succ, Z.pow_succ_r by lia.
    pose proof (Z.pow_pos_nonneg 2 (Z.of_nat k) ltac:(lia) ltac:(lia)). nia.
Qed.

(** While the node does not answer, the loop ends: within nine polls [run]
    returns, having slept at most 255 poll intervals in all and asked for the
    tip only, so that no job was claimed or sent; and unless it was told to shut
    down or its clock failed, the provider is no longer ready. *)
Theorem outage_ends w t :
  0 < poll_interval w <= from_secs 300 ->
  exists r waits t', run 9 w t = Some (r, waits, t')
    /\ outage_end t r waits (255 * poll_interval w) t'.
Proof.
  intros Hp. unfold run, poll_backoff_new.
  rewrite (proj2 (Z.eqb_neq _ _)), !(proj2 (Z.ltb_ge _ _)) by (unfold from_secs, MAX_POLL_FAILURES in *; lia).
  cbn [orb]. destruct (unix_now 0) as [last|].
  - destruct (run_loop_outage 8 w 0 (mkLoop (mkBackoff (poll_interval w) (from_secs 300) (poll_interval w) 0 MAX_POLL_FAILURES)
      last []) t) as (r & waits & t' & Hrun & Hend); cbn; try (unfold from_secs, MAX_POLL_FAILURES in *; lia).
    exists r, waits, t'. done.
  - exists (Err TowerClock), [], t. split; [done|]. split; [cbn; lia|exists []; by rewrite app_nil_r|by intros [|]].
Qed.
End outage.
End tower.
End correct.

(** ** Runs *)

#[local] Existing Instances toy_env toy_crypto toy_pg.

(** Two refunds, the first of which the node rejects. *)
Definition toy_transaction (lock_time : Z) : Transaction :=
  transaction_new 2 [mkInput (replicate 32 17) 1 [] 4294967293 []] [mkOutput 50000 [0x51]] lock_time.
Definition toy_raw (lock_time : Z) : string :=
  match transaction_serialize (toy_transaction lock_time) true with
  | Ok bytes => encode_lower_hex bytes | Err _ => ""%string end.
Definition toy_payload (lock_time : Z) : BroadcastWatchPayload :=
  match refund (toy_raw lock_time) with Ok p => p | Err _ => mkPayload "" "" "" [] None end.
Definition toy_job (id lock_time : Z) : WatchJobRequest :=
  mkWatchJobRequest (toy_hex id) (toy_hex 50) None "refund_broadcast"
    (match request_sha256 (toy_payload lock_time) with Ok d => d | Err _ => ""%string end)
    (public_value (toy_payload lock_time)) None (Some id) 2 1.

Definition toy_node : Surroundings := {|
  node_answer _ c :=
    if String.eqb (rc_method c) "getbestblockhash" then Ok (VString (toy_hex 48))
    else if String.eqb (rc_method c) "getblockheader" then Ok (VObject [("height"%string, VInt 100)])
    else if String.eqb (rc_method c) "getrawmempool" then Ok (VArray [])
    else Err (BRpc (-26));
  others _ _ := [];
  alert_accepted _ _ := false;
|}.
#[local] Existing Instance toy_node.

Definition toy_tower : Tower :=
  mkTower (watch_run [WEnqueue (toy_job 97 1); WEnqueue (toy_job 98 2)]).1 health_default [] [].
Definition toy_watchtower : Watchtower := mkWatchtower false (from_secs 1) (from_secs 60) 6.

Lemma payload_accepted_witness :
  exists job, wj_job_kind job = "refund_broadcast"%string /\ decode_job_payload job = Ok (toy_payload 1).
Proof.
  destruct (request_sha256 (toy_payload 1)) as [d|e] eqn:Hq; [|vm_compute in Hq; discriminate].
  exists (mkWatchJob (toy_hex 97) (toy_hex 50) None "refund_broadcast" d (public_value (toy_payload 1))
            "running" None None 1 2 None None None None 0 None None None).
  split; [reflexivity|].
  apply (@payload_accepted toy_env toy_crypto toy_crypto_digest (toy_raw 1) None (toy_payload 1));
    [vm_compute; reflexivity|exact I|exact Hq|reflexivity|].
  right. split; [apply list_elem_of_here|vm_compute; reflexivity].
Defined.

(** The second job is never sent and is paged at the second poll. *)
Definition toy_after : Tower :=
  (poll_once toy_watchtower 1031 (poll_once toy_watchtower 1000 toy_tower).2).2.
Definition carries (raw : string) (c : RpcCall) : bool :=
  match rc_params c with VArray [VString r] => String.eqb r raw | _ => false end.

Definition toy_polled : Tower := (poll_chain 1000 toy_tower).2.
Definition toy_claim : result ProviderStoreError (list WatchJob * ProviderDb) :=
  claim_due_watch_jobs (tw_db toy_polled) 100 1000 1030 MAX_DUE_JOBS.
Definition toy_claimed : WatchJob * list WatchJob * ProviderDb :=
  match toy_claim with
  | Ok (job :: rest, db) => (job, rest, db)
  | _ => (mkWatchJob "" "" None "" "" VNull "" None None 0 0 None None None None 0 None None None, [], empty_db)
  end.

Lemma rejected_broadcast_starves_witness :
  (exists t2, poll_once toy_watchtower 1000 toy_tower = (Err (Chain (BRpc (-26))), t2))
  /\ wt_state <$> db_watch_jobs (tw_db toy_after) !! toy_hex 98 = Some "page"%string
  /\ existsb (carries (toy_raw 1)) (tw_calls toy_after) = true
  /\ existsb (carries (toy_raw 2)) (tw_calls toy_after) = false.
Proof.
  split; [|vm_compute; repeat split; reflexivity].
  assert (poll_chain 1000 toy_tower = (Ok (toy_hex 48, 100), toy_polled)) as Hpoll.
  { assert ((poll_chain 1000 toy_tower).1 = Ok (toy_hex 48, 100)) as H1 by (vm_compute; reflexivity).
    rewrite (surjective_pairing (poll_chain 1000 toy_tower)), H1. reflexivity. }
  assert (toy_claim = Ok (toy_claimed.1.1 :: toy_claimed.1.2, toy_claimed.2)) as Hclaim.
  { assert (match toy_claim with Ok (_ :: _, _) => true | _ => false end = true) as Hok by (vm_compute; reflexivity).
    revert Hok. unfold toy_claimed. by destruct toy_claim as [[[|job rest] db]|e]. }
  destruct (rejected_broadcast_starves toy_watchtower 1000 toy_tower (toy_hex 48) 100 toy_polled
    toy_claimed.1.1 toy_claimed.1.2 toy_claimed.2 (toy_payload 1) "broadcast:1000:1" (BRpc (-26)))
    as (t2 & Hp & _); [exact Hpoll|vm_compute; discriminate|exact Hclaim|..].
  - vm_compute. discriminate.
  - vm_compute. reflexivity.
  - vm_compute. reflexivity.
  - vm_compute. reflexivity.
  - vm_compute. reflexivity.
  - vm_compute. reflexivity.
  - by exists t2.
Defined.

(** The node stops answering. *)
Definition dead_node : Surroundings := {|
  node_answer _ _ := Err BConnectionFailed; others _ _ := []; alert_accepted _ _ := false |}.
Definition toy_schedule : Schedule := {|
  unix_now i := Some (1000 + Z.of_nat i); shutdown_seen _ := false; shutdown_in_wait _ := false |}.

Lemma outage_ends_witness :
  exists waits t', @run toy_env toy_crypto toy_pg dead_node toy_schedule 9 toy_watchtower toy_tower
                     = Some (Err PollExhausted, waits, t')
    /\ total waits <= 255 * from_secs 1 /\ ph_ready (tw_health t') = false.
Proof.
  destruct (@outage_ends toy_env toy_crypto toy_pg dead_node toy_schedule) with (w := toy_watchtower) (t := toy_tower)
    as (r & waits & t' & Hrun & [Hw _ Hready]).
  { intros calls c. by exists BConnectionFailed. }
  { vm_compute. split; [reflexivity|discriminate]. }
  assert (r = Err PollExhausted) as ->.
  { assert (fst <$> (fst <$> @run toy_env toy_crypto toy_pg dead_node toy_schedule 9 toy_watchtower toy_tower)
              = Some (Err PollExhausted)) as Hr by (vm_compute; reflexivity).
    rewrite Hrun in Hr. by injection Hr. }
  exists waits, t'. split; [exact Hrun|]. split; [exact Hw|]. apply Hready. by right.
Defined.

(** With nothing to do, a poll ends ready. *)
Lemma readiness_exact_witness :
  exists t', @poll_once toy_env toy_crypto toy_pg toy_node toy_watchtower 1000 (mkTower empty_db health_default [] [])
               = (Ok tt, t')
    /\ health_status (tw_health t') = "200 OK"%string /\ settled (tw_db t').
Proof.
  set (start := mkTower empty_db health_default [] []).
  destruct (@poll_once toy_env toy_crypto toy_pg toy_node toy_watchtower 1000 start) as [r t'] eqn:Hp.
  assert (r = Ok tt) as -> by (change r with (r, t').1; rewrite <- Hp; vm_compute; reflexivity).
  assert (health_status (tw_health t') = "200 OK"%string) as Hs
    by (change t' with (Ok (E := WatchtowerError) tt, t').2; rewrite <- Hp; vm_compute; reflexivity).
  exists t'. split; [done|]. split; [done|].
  apply (proj1 (@readiness_exact toy_env toy_crypto toy_pg toy_node toy_watchtower 1000 start t' Hp
    ltac:(change t' with (Ok (E := WatchtowerError) tt, t').2; rewrite <- Hp; vm_compute; reflexivity))). exact Hs.
Defined.
