(* ===== verification/Pricing.v ===== *)
(** * Pricing: what numbers go in a quote

    [immortal-provider/src/pricing.rs]: the policy and its bounds, the fee
    rate of a quote, the weights of the transactions the provider may have to
    pay for, the optional price feed, and the derivation of a quote. *)

From S2P Require Import Prelude Text Utf8 Hex Event Filter Json Custody Wire Transaction Script.

Definition MAX_AMOUNT_SAT : Z := 2100000000000000.
Definition MAX_SPREAD_BPS : Z := 1000.
Definition MAX_FEERATE_SAT_PER_VB : Z := 2000.
Definition MAX_QUOTE_EXPIRY_SECONDS : Z := 3600.
Definition MAX_LIGHTNING_ROUTING_FEE_PPM : Z := 100000.
Definition PRICE_FEED_SCHEMA : string := "openagents.immortal.provider-price-feed.v1".
Definition MAX_PRICE_FEED_AGE_SECONDS : Z := 3600.
Definition MAX_REALIZED_VOLATILITY_BPS : Z := 100000.
Definition MAX_INDEX_PRICE_USD_CENTS : Z := 10000000000.
Definition REFERENCE_REALIZED_VOLATILITY_BPS : Z := 5000.
Definition SATOSHIS_PER_BITCOIN : Z := 100000000.
Definition LIQUID_SINGLE_INPUT_FUNDING_VBYTES : Z := 1700.
Definition LIQUID_CLAIM_VBYTES : Z := 300.
Definition LIQUID_REFUND_VBYTES : Z := 300.
Definition CHAIN_OUTPUT_DUST_SAT : Z := 330.
Definition LIGHTNING_OUTPUT_FLOOR_SAT : Z := 1.
Definition MIN_VIABLE_SEARCH_STEPS : Z := 64.

Inductive SwapType : Type := Submarine | Reverse | SwapChain.
#[export] Instance SwapType_eq_dec : EqDecision SwapType.
Proof. solve_decision. Defined.

Definition provider_error (code message : string) : SwapClientError := mkSwapClientError code message.

(** ** Weights *)

Definition claim_leaf_script_template : list Z := production_claim_leaf_script (replicate 32 0) (replicate 32 0).
Definition refund_leaf_script_template : list Z := refund_leaf_script 499999999 (replicate 32 0).

Definition SCHNORR_SIG_WORST_CASE_BYTES : Z := 65.
Definition CONTROL_BLOCK_DEPTH1_BYTES : Z := 65.

Definition spend_vbytes (witness_item_lens : list Z) (output_count : Z) : Z :=
  let base := 4 + 1 + 41 + 1 + output_count * 43 + 4 in
  let witness := fold_left (fun w n => w + (1 + n)) witness_item_lens (2 + 1) in
  div_ceil (base * 4 + witness) 4.

Definition claim_spend_vbytes : Z :=
  spend_vbytes [SCHNORR_SIG_WORST_CASE_BYTES; 32; len claim_leaf_script_template; CONTROL_BLOCK_DEPTH1_BYTES] 1.
Definition refund_spend_vbytes : Z :=
  spend_vbytes [SCHNORR_SIG_WORST_CASE_BYTES; len refund_leaf_script_template; CONTROL_BLOCK_DEPTH1_BYTES] 1.
Definition lockup_vbytes : Z := spend_vbytes [SCHNORR_SIG_WORST_CASE_BYTES] 2.

Definition worst_case_redeem_vbytes (swap_type : SwapType) : Z :=
  match swap_type with
  | Submarine => claim_spend_vbytes
  | Reverse => lockup_vbytes + refund_spend_vbytes
  | SwapChain => lockup_vbytes + Z.max claim_spend_vbytes refund_spend_vbytes
  end.

Definition liquid_submarine_quote_vbytes : Z := LIQUID_CLAIM_VBYTES.
Definition liquid_reverse_quote_vbytes : Z := LIQUID_SINGLE_INPUT_FUNDING_VBYTES + LIQUID_REFUND_VBYTES.
Definition bitcoin_to_liquid_chain_quote_vbytes : Z :=
  LIQUID_SINGLE_INPUT_FUNDING_VBYTES + Z.max LIQUID_REFUND_VBYTES claim_spend_vbytes.
Definition liquid_to_bitcoin_chain_quote_vbytes : Z :=
  lockup_vbytes + Z.max LIQUID_CLAIM_VBYTES refund_spend_vbytes.

Definition funding_feerate_from_priced_vbytes (priced_vbytes miner_fee_budget_sat : Z)
    : result SwapClientError Z :=
  if priced_vbytes =? 0
  then Err (provider_error "swp_invalid_fee" "signed miner-fee weight must be positive")
  else if negb (miner_fee_budget_sat mod priced_vbytes =? 0)
  then Err (provider_error "swp_invalid_fee" "signed miner-fee budget does not encode an exact feerate")
  else
  let sat_per_vb := miner_fee_budget_sat / priced_vbytes in
  if negb (in_range 1 MAX_FEERATE_SAT_PER_VB sat_per_vb)
  then Err (provider_error "swp_invalid_fee" "signed funding feerate is outside the provider bound")
  else Ok sat_per_vb.
Definition funding_feerate_from_quote_budget (swap_type : SwapType) (miner_fee_budget_sat : Z)
    : result SwapClientError Z :=
  funding_feerate_from_priced_vbytes (worst_case_redeem_vbytes swap_type) miner_fee_budget_sat.

(** ** Configuration *)

Inductive ReservationTier : Type := TierNone | TierSoft | TierHard.
Definition tier_as_str (t : ReservationTier) : string :=
  match t with TierNone => "none" | TierSoft => "soft" | TierHard => "hard" end.

Record PricingConfig : Type := mkConfig {
  spread_bps : Z;
  fallback_feerate_sat_per_vb : option Z;
  min_swap_sat : Z;
  max_swap_sat : Z;
  quote_expiry_seconds : Z;
  reservation_tier : ReservationTier;
  lightning_routing_fee_ppm : Z;
}.

(** [PricingConfigError] is its text. *)
Definition config_validate (c : PricingConfig) : result string unit :=
  if MAX_SPREAD_BPS <? spread_bps c
  then Err "IMMORTAL_PROVIDER_SPREAD_BPS must be between 0 and 1000"%string
  else if match fallback_feerate_sat_per_vb c with
          | Some fallback => negb (in_range 1 MAX_FEERATE_SAT_PER_VB fallback) | None => false end
  then Err "IMMORTAL_PROVIDER_FALLBACK_FEERATE_SAT_PER_VB must be between 1 and 2000"%string
  else if min_swap_sat c =? 0
  then Err "IMMORTAL_PROVIDER_QUOTE_MIN_SAT must be positive"%string
  else if max_swap_sat c <? min_swap_sat c
  then Err "IMMORTAL_PROVIDER_QUOTE_MAX_SAT must be at least IMMORTAL_PROVIDER_QUOTE_MIN_SAT"%string
  else if MAX_AMOUNT_SAT <? max_swap_sat c
  then Err "IMMORTAL_PROVIDER_QUOTE_MAX_SAT must be at most 2100000000000000"%string
  else if negb (in_range 1 MAX_QUOTE_EXPIRY_SECONDS (quote_expiry_seconds c))
  then Err "IMMORTAL_PROVIDER_QUOTE_EXPIRY_SECONDS must be between 1 and 3600"%string
  else if MAX_LIGHTNING_ROUTING_FEE_PPM <? lightning_routing_fee_ppm c
  then Err "IMMORTAL_PROVIDER_LN_ROUTING_FEE_PPM must be between 0 and 100000"%string
  else Ok tt.

Definition not_integer (name : string) : string := name +:+ " is not a valid non-negative integer".
Definition parse_or (lookup : string -> option string) (name fallback : string) : result string Z :=
  ok_or (not_integer name) (parse_u U64_MAX (default fallback (lookup name))).
Definition parse_optional (lookup : string -> option string) (name : string) : result string (option Z) :=
  match lookup name with
  | None => Ok None
  | Some value => v ← ok_or (not_integer name) (parse_u U64_MAX value); Ok (Some v)
  end.

Definition config_from_lookup (lookup : string -> option string) : result string PricingConfig :=
  spread ← parse_or lookup "IMMORTAL_PROVIDER_SPREAD_BPS" "0";
  fallback ← parse_optional lookup "IMMORTAL_PROVIDER_FALLBACK_FEERATE_SAT_PER_VB";
  min_swap ← parse_or lookup "IMMORTAL_PROVIDER_QUOTE_MIN_SAT" "10000";
  max_swap ← parse_or lookup "IMMORTAL_PROVIDER_QUOTE_MAX_SAT" "1000000";
  expiry ← parse_or lookup "IMMORTAL_PROVIDER_QUOTE_EXPIRY_SECONDS" "300";
  let tier := default "hard"%string (lookup "IMMORTAL_PROVIDER_RESERVATION_TIER"%string) in
  tier ← (if String.eqb tier "none" then Ok TierNone
          else if String.eqb tier "soft" then Ok TierSoft
          else if String.eqb tier "hard" then Ok TierHard
          else Err "IMMORTAL_PROVIDER_RESERVATION_TIER must be one of none, soft, hard"%string);
  routing ← parse_or lookup "IMMORTAL_PROVIDER_LN_ROUTING_FEE_PPM" "0";
  let config := mkConfig spread fallback min_swap max_swap expiry tier routing in
  _ ← config_validate config;
  Ok config.

(** ** The fee rate *)

Inductive FeerateObservation : Type :=
| Live (sat_per_vb : Z) (source : string)
| Fallback (sat_per_vb : Z).
Definition sat_per_vb (f : FeerateObservation) : Z := match f with Live s _ | Fallback s => s end.

Definition feerate_for_quote (config : PricingConfig) (live : option (Z * string))
    : result SwapClientError FeerateObservation :=
  match live with
  | Some (rate, source) =>
      if negb (in_range 1 MAX_FEERATE_SAT_PER_VB rate)
      then Err (provider_error "swp_invalid_fee" "live feerate estimate must be between 1 and 2000 sat/vB")
      else if (str_len source =? 0) || (128 <? str_len source)
      then Err (provider_error "swp_invalid_fee" "live feerate source label must be 1 through 128 bytes")
      else Ok (Live rate source)
  | None =>
      match fallback_feerate_sat_per_vb config with
      | Some rate => Ok (Fallback rate)
      | None => Err (provider_error "swp_invalid_fee" "no live feerate estimate and IMMORTAL_PROVIDER_FALLBACK_FEERATE_SAT_PER_VB is not configured; refusing to quote")
      end
  end.

(** ** The price feed *)

Record PriceFeedSource : Type := mkSource { ps_venue : string; ps_environment : string; ps_instrument : string }.

Record PriceFeedPacket : Type := mkPacket {
  pf_schema : string;
  pf_source : PriceFeedSource;
  pf_index_price_usd_cents : string;
  pf_realized_volatility_bps : string;
  pf_realized_volatility_window_seconds : Z;
  pf_observed_at : Z;
  pf_max_age_seconds : Z;
}.

Record ValidatedPriceFeed : Type := mkFeed {
  vf_packet : PriceFeedPacket; vf_index_price_usd_cents : Z; vf_realized_volatility_bps : Z
}.

Definition machine_identifier (value : string) : bool :=
  negb (str_len value =? 0) && (str_len value <=? 64)
  && forallb (fun b => is_ascii_lowercase b || is_ascii_digit b || mem b [45; 95; 46]) (as_bytes value).

(** [PriceFeedValidationError] is its text. *)
Definition canonical_feed_quantity (value label : string) (maximum : Z) : result string Z :=
  if negb (is_canonical_decimal value) then Err (label +:+ " is not a canonical decimal string")
  else
  parsed ← ok_or (label +:+ " exceeds u64") (parse_u U64_MAX value);
  if maximum <? parsed then Err (label +:+ " exceeds its bound") else Ok parsed.

Definition validate_at (p : PriceFeedPacket) (observed_at : Z) : result string ValidatedPriceFeed :=
  if negb (String.eqb (pf_schema p) PRICE_FEED_SCHEMA) then Err "packet schema is unsupported"%string
  else if negb (machine_identifier (ps_venue (pf_source p)))
          || negb (machine_identifier (ps_environment (pf_source p)))
          || negb (machine_identifier (ps_instrument (pf_source p)))
  then Err "source identity is invalid"%string
  else
  price ← canonical_feed_quantity (pf_index_price_usd_cents p) "index price" MAX_INDEX_PRICE_USD_CENTS;
  if price =? 0 then Err "index price must be positive"%string
  else
  volatility ← canonical_feed_quantity (pf_realized_volatility_bps p) "realized volatility"
                 MAX_REALIZED_VOLATILITY_BPS;
  if (pf_realized_volatility_window_seconds p =? 0) || (604800 <? pf_realized_volatility_window_seconds p)
  then Err "realized volatility window must be between 1 and 604800 seconds"%string
  else if (pf_observed_at p =? 0) || (observed_at <? pf_observed_at p)
  then Err "observation time is invalid"%string
  else if negb (in_range 1 MAX_PRICE_FEED_AGE_SECONDS (pf_max_age_seconds p))
  then Err "maximum age must be between 1 and 3600 seconds"%string
  else
  expires_at ← ok_or "staleness timestamp overflows"%string
                 (checked_add U64_MAX (pf_observed_at p) (pf_max_age_seconds p));
  if expires_at <? observed_at then Err "packet is stale"%string
  else Ok (mkFeed p price volatility).

Definition effective_spread_bps (f : ValidatedPriceFeed) (static_spread_bps : Z) : Z :=
  let adjusted := static_spread_bps * vf_realized_volatility_bps f / REFERENCE_REALIZED_VOLATILITY_BPS in
  Z.min (default U64_MAX (try_from_u U64_MAX adjusted)) MAX_SPREAD_BPS.

Definition usd_value_cents (f : ValidatedPriceFeed) (amount_sat : Z) : result SwapClientError Z :=
  ok_or (provider_error "swp_invalid_amount" "USD quote valuation overflows")
    (try_from_u U64_MAX (amount_sat * vf_index_price_usd_cents f / SATOSHIS_PER_BITCOIN)).

(** ** Derivation *)

Record CapacityBounds : Type := mkCapacity { capacity_bucket_id : string; cb_available_capacity : string }.
Inductive QuoteSide : Type := SideInput | SideOutput.
Record QuoteRequest : Type := mkQuoteRequest {
  qr_swap_type : SwapType; qr_side : QuoteSide; qr_amount : string
}.

Record PriceFeedApplication : Type := mkApplication {
  pa_source : PriceFeedSource;
  pa_index_price_usd_cents : string;
  pa_realized_volatility_bps : string;
  pa_realized_volatility_window_seconds : Z;
  pa_observed_at : Z;
  pa_max_age_seconds : Z;
  pa_static_spread_bps : string;
  pa_effective_spread_bps : string;
  pa_input_value_usd_cents : string;
  pa_output_value_usd_cents : string;
}.

Record DerivedQuote : Type := mkQuote {
  dq_swap_type : SwapType;
  dq_side : QuoteSide;
  dq_input_amount : string;
  dq_output_amount : string;
  dq_fee_bps : string;
  dq_provider_fee : string;
  dq_miner_fee_budget : string;
  dq_lightning_routing_fee_budget : string;
  dq_maximum_total_fee : string;
  dq_min_input : string;
  dq_max_input : string;
  dq_quote_created_at : Z;
  dq_quote_expires_at : Z;
  dq_reservation : ReservationTier;
  dq_capacity_bucket_id : string;
  dq_feerate : FeerateObservation;
  dq_worst_case_vbytes : Z;
  dq_amount_equation : string;
  dq_rounding : string;
  dq_price_feed_application : option PriceFeedApplication;
  dq_price_feed_fallback : option string;
}.

Definition amount_terms (q : DerivedQuote) : Value :=
  json_object [("input_amount", VString (dq_input_amount q)); ("output_amount", VString (dq_output_amount q));
    ("fee_bps", VString (dq_fee_bps q)); ("provider_fee", VString (dq_provider_fee q));
    ("miner_fee_budget", VString (dq_miner_fee_budget q));
    ("lightning_routing_fee_budget", VString (dq_lightning_routing_fee_budget q));
    ("maximum_total_fee", VString (dq_maximum_total_fee q));
    ("amount_equation", VString (dq_amount_equation q)); ("rounding", VString (dq_rounding q))]%string.

Definition canonical_sat (value label : string) : result SwapClientError Z :=
  if negb (is_canonical_decimal value)
  then Err (provider_error "swp_invalid_amount" (label +:+ " is not a canonical satoshi decimal string"))
  else ok_or (provider_error "swp_invalid_amount" (label +:+ " exceeds u64")) (parse_u U64_MAX value).

Definition floor_scaled (amount numerator denominator : Z) : result SwapClientError Z :=
  ok_or (provider_error "swp_invalid_fee" "fee component exceeds the v1 amount range")
    (try_from_u U64_MAX (amount * numerator / denominator)).

Definition output_floor (swap_type : SwapType) : Z :=
  match swap_type with Submarine => LIGHTNING_OUTPUT_FLOOR_SAT | Reverse | SwapChain => CHAIN_OUTPUT_DUST_SAT end.
Definition routing_ppm (config : PricingConfig) (swap_type : SwapType) : Z :=
  match swap_type with Submarine => lightning_routing_fee_ppm config | Reverse | SwapChain => 0 end.

Record FeeComponents : Type := mkComponents {
  fc_provider_fee : Z; fc_miner_fee_budget : Z; fc_lightning_routing_fee_budget : Z; fc_output : option Z
}.

Definition fee_components (config : PricingConfig) (swap_type : SwapType) (miner_fee_budget input : Z)
    : result SwapClientError FeeComponents :=
  provider_fee ← floor_scaled input (spread_bps config) 10000;
  routing ← floor_scaled input (routing_ppm config swap_type) 1000000;
  let output := v ← checked_sub input provider_fee; v ← checked_sub v miner_fee_budget; checked_sub v routing in
  Ok (mkComponents provider_fee miner_fee_budget routing output).

(** *** The searches *)

(** The closure [covers] (or [viable]) of a search. *)
Definition covers (config : PricingConfig) (swap_type : SwapType) (miner_fee_budget desired input : Z)
    : result SwapClientError bool :=
  c ← fee_components config swap_type miner_fee_budget input;
  Ok (match fc_output c with Some output => desired <=? output | None => false end).

Section search.
Context (test : Z -> result SwapClientError bool) (overflow diverged : SwapClientError).

(** [while !test(candidate)? { .. }]; the bound on [steps] is reached before
    the fuel. *)
Fixpoint search_up (fuel : nat) (candidate steps : Z) : result SwapClientError (Z * Z) :=
  match fuel with
  | O => Err diverged
  | S fuel =>
      b ← test candidate;
      if (b : bool) then Ok (candidate, steps)
      else
      candidate ← ok_or overflow (checked_add U64_MAX candidate 1);
      if MIN_VIABLE_SEARCH_STEPS <? steps + 1 then Err diverged else search_up fuel candidate (steps + 1)
  end.

(** [while candidate > 1 && test(candidate - 1)? { .. }]. *)
Fixpoint search_down (fuel : nat) (candidate steps : Z) : result SwapClientError Z :=
  match fuel with
  | O => Err diverged
  | S fuel =>
      b ← (if 1 <? candidate then test (candidate - 1) else Ok false);
      if (b : bool) then
        if MIN_VIABLE_SEARCH_STEPS <? steps + 1 then Err diverged
        else search_down fuel (candidate - 1) (steps + 1)
      else Ok candidate
  end.

Definition SEARCH_FUEL : nat := 66.

Definition search (candidate : Z) : result SwapClientError Z :=
  '(candidate, steps) ← search_up SEARCH_FUEL candidate 0;
  search_down SEARCH_FUEL candidate steps.
End search.

Definition variable_ppm (config : PricingConfig) (swap_type : SwapType) : Z :=
  spread_bps config * 100 + routing_ppm config swap_type.
(** The closed form both searches start from. *)
Definition start_candidate (variable miner_fee_budget amount : Z) : Z :=
  div_ceil ((miner_fee_budget + amount) * 1000000) (1000000 - variable).

Definition min_viable_input (config : PricingConfig) (swap_type : SwapType) (miner_fee_budget : Z)
    : result SwapClientError Z :=
  let floor := output_floor swap_type in
  let variable := variable_ppm config swap_type in
  if 1000000 <=? variable
  then Err (provider_error "swp_invalid_fee" "variable fee rate consumes the entire input")
  else
  let overflow := provider_error "swp_invalid_fee" "minimum viable amount exceeds the v1 amount range" in
  candidate ← ok_or overflow (try_from_u U64_MAX (start_candidate variable miner_fee_budget floor));
  search (covers config swap_type miner_fee_budget floor) overflow
    (provider_error "swp_invalid_fee" "minimum viable amount search did not converge") candidate.

Definition input_for_output (config : PricingConfig) (swap_type : SwapType) (miner_fee_budget desired : Z)
    : result SwapClientError Z :=
  let variable := variable_ppm config swap_type in
  if 1000000 <=? variable
  then Err (provider_error "swp_invalid_fee" "variable fee rate consumes the entire input")
  else
  let overflow := provider_error "swp_invalid_amount" "requested output amount exceeds the v1 amount range" in
  candidate ← ok_or overflow (try_from_u U64_MAX (start_candidate variable miner_fee_budget desired));
  search (covers config swap_type miner_fee_budget desired) overflow
    (provider_error "swp_invalid_amount" "input search for the requested output did not converge") candidate.

(** *** The quote *)

Definition overflows : SwapClientError := provider_error "swp_invalid_fee" "miner fee component overflows".

(** The limits of a quote: [min_input] and [max_input]. *)
Definition quote_limits (config : PricingConfig) (swap_type : SwapType) (miner_fee_budget available : Z)
    : result SwapClientError (Z * Z) :=
  let max_input := Z.min (max_swap_sat config) available in
  viable ← min_viable_input config swap_type miner_fee_budget;
  let min_input := Z.max (min_swap_sat config) viable in
  if max_input <? min_input
  then Err (provider_error "swp_side_disabled" "available capacity is below the minimum quotable amount")
  else Ok (min_input, max_input).

Definition derive_quote_with_worst_case_vbytes (config : PricingConfig) (feerate : FeerateObservation)
    (capacity : CapacityBounds) (request : QuoteRequest) (created_at worst_case_vbytes : Z)
    : result SwapClientError DerivedQuote :=
  _ ← map_err (provider_error "swp_invalid_fee") (config_validate config);
  if (worst_case_vbytes =? 0) || (100000 <? worst_case_vbytes)
  then Err (provider_error "swp_invalid_fee" "quote fee weight is outside the provider bound")
  else if negb (in_range 1 MAX_FEERATE_SAT_PER_VB (sat_per_vb feerate))
  then Err (provider_error "swp_invalid_fee" "quote feerate must be between 1 and 2000 sat/vB")
  else
  amount ← canonical_sat (qr_amount request) "requested amount";
  if (amount =? 0) || (MAX_AMOUNT_SAT <? amount)
  then Err (provider_error "swp_invalid_amount"
              "requested amount must be positive and at most 2100000000000000")
  else
  available ← canonical_sat (cb_available_capacity capacity) "available capacity";
  miner_fee_budget ← ok_or overflows (checked_mul U64_MAX worst_case_vbytes (sat_per_vb feerate));
  '(min_input, max_input) ← quote_limits config (qr_swap_type request) miner_fee_budget available;
  input ← match qr_side request with
          | SideInput => Ok amount
          | SideOutput => input_for_output config (qr_swap_type request) miner_fee_budget amount
          end;
  if (input <? min_input) || (max_input <? input)
  then Err (provider_error "swp_invalid_amount" "requested amount is outside the quotable range")
  else
  components ← fee_components config (qr_swap_type request) miner_fee_budget input;
  output ← ok_or (provider_error "swp_invalid_amount"
                    "requested amount cannot cover the quoted fees and settlement floor")
             (o ← fc_output components; if output_floor (qr_swap_type request) <=? o then Some o else None);
  worst_case_cost ← ok_or overflows (checked_mul U64_MAX worst_case_vbytes (sat_per_vb feerate));
  total_fee ← ok_or (provider_error "swp_invalid_fee" "total fee overflows")
                (f ← checked_add U64_MAX (fc_provider_fee components) (fc_miner_fee_budget components);
                 checked_add U64_MAX f (fc_lightning_routing_fee_budget components));
  if (fc_miner_fee_budget components <? worst_case_cost) || (total_fee <? worst_case_cost)
  then Err (provider_error "swp_invalid_fee" "derived fee is below the worst-case redeemable path cost")
  else
  expires_at ← ok_or (provider_error "swp_quote_expired" "quote expiry timestamp overflows")
                 (checked_add U64_MAX created_at (quote_expiry_seconds config));
  Ok (mkQuote (qr_swap_type request) (qr_side request) (to_string input) (to_string output)
        (to_string (spread_bps config)) (to_string (fc_provider_fee components))
        (to_string (fc_miner_fee_budget components))
        (to_string (fc_lightning_routing_fee_budget components)) (to_string total_fee)
        (to_string min_input) (to_string max_input) created_at expires_at (reservation_tier config)
        (capacity_bucket_id capacity) feerate worst_case_vbytes "input_minus_provider_and_quoted_fees"
        "floor_output_sats" None None).

Definition derive_quote (config : PricingConfig) (feerate : FeerateObservation) (capacity : CapacityBounds)
    (request : QuoteRequest) (created_at : Z) : result SwapClientError DerivedQuote :=
  derive_quote_with_worst_case_vbytes config feerate capacity request created_at
    (worst_case_redeem_vbytes (qr_swap_type request)).

Definition with_spread (config : PricingConfig) (spread : Z) : PricingConfig :=
  mkConfig spread (fallback_feerate_sat_per_vb config) (min_swap_sat config) (max_swap_sat config)
    (quote_expiry_seconds config) (reservation_tier config) (lightning_routing_fee_ppm config).
Definition with_feed (q : DerivedQuote) (application : option PriceFeedApplication)
    (fallback : option string) : DerivedQuote :=
  mkQuote (dq_swap_type q) (dq_side q) (dq_input_amount q) (dq_output_amount q) (dq_fee_bps q)
    (dq_provider_fee q) (dq_miner_fee_budget q) (dq_lightning_routing_fee_budget q)
    (dq_maximum_total_fee q) (dq_min_input q) (dq_max_input q) (dq_quote_created_at q)
    (dq_quote_expires_at q) (dq_reservation q) (dq_capacity_bucket_id q) (dq_feerate q)
    (dq_worst_case_vbytes q) (dq_amount_equation q) (dq_rounding q) application fallback.

Definition derive_quote_with_price_feed_and_worst_case_vbytes (config : PricingConfig)
    (feerate : FeerateObservation) (capacity : CapacityBounds) (request : QuoteRequest)
    (created_at worst_case_vbytes : Z) (price_feed : option PriceFeedPacket)
    : result SwapClientError DerivedQuote :=
  let '(validated_feed, fallback) :=
    match price_feed with
    | Some packet =>
        match validate_at packet created_at with
        | Ok feed => (Some feed, None) | Err reason => (None, Some reason) end
    | None => (None, None)
    end in
  let effective_config :=
    match validated_feed with
    | Some feed => with_spread config (effective_spread_bps feed (spread_bps config))
    | None => config
    end in
  derived ← derive_quote_with_worst_case_vbytes effective_config feerate capacity request created_at worst_case_vbytes;
  application ←
    match validated_feed with
    | None => Ok (dq_price_feed_application derived)
    | Some feed =>
        input_amount ← canonical_sat (dq_input_amount derived) "derived input amount";
        output_amount ← canonical_sat (dq_output_amount derived) "derived output amount";
        input_value ← usd_value_cents feed input_amount;
        output_value ← usd_value_cents feed output_amount;
        let p := vf_packet feed in
        Ok (Some (mkApplication (pf_source p) (pf_index_price_usd_cents p) (pf_realized_volatility_bps p)
                    (pf_realized_volatility_window_seconds p) (pf_observed_at p) (pf_max_age_seconds p)
                    (to_string (spread_bps config)) (to_string (spread_bps effective_config))
                    (to_string input_value) (to_string output_value)))
    end;
  Ok (with_feed derived application fallback).

Definition derive_quote_with_price_feed (config : PricingConfig) (feerate : FeerateObservation)
    (capacity : CapacityBounds) (request : QuoteRequest) (created_at : Z) (price_feed : option PriceFeedPacket)
    : result SwapClientError DerivedQuote :=
  derive_quote_with_price_feed_and_worst_case_vbytes config feerate capacity request created_at
    (worst_case_redeem_vbytes (qr_swap_type request)) price_feed.
