(* ===== verification/PricingCorrect.v ===== *)
(** * PricingCorrect: the searches, the fees and the range of a quote

    [search_threshold]: the two bounded searches always end, and find the
    smallest input from which every larger one covers the request.
    [quote_exact]: the numbers of a quote add up.  [quotable_exactly]: an
    amount is quoted exactly when it is within the published limits.
    [budget_covers_redeem]: the miner budget pays for the transactions the
    provider may have to publish. *)

From S2P Require Import Prelude Text Utf8 Hex Event Filter Json Custody Wire Transaction Script Pricing.

(** ** Fees as a function of the input *)

Definition net (b r x : Z) : Z := x - x * b / 10000 - x * r / 1000000.

Record rates_ok (b r : Z) : Prop := mkRates { ro_spread : 0 <= b <= 1000; ro_routing : 0 <= r <= 100000 }.

Lemma floor_scaled_Ok x n d :
  0 <= x <= U64_MAX -> 0 <= n <= d -> 0 < d -> floor_scaled x n d = Ok (x * n / d).
Proof.
  intros Hx Hn Hd. unfold floor_scaled, try_from_u. rewrite (proj2 (Z.leb_le _ _)); [done|].
  apply Z.div_le_upper_bound; nia.
Qed.

(** The share a fee takes is between its rate and one less. *)
Lemma net_bounds b r x :
  rates_ok b r -> 0 <= x ->
  x * (1000000 - (b * 100 + r)) <= net b r x * 1000000 < x * (1000000 - (b * 100 + r)) + 2000000.
Proof.
  intros [Hb Hr] Hx. unfold net.
  pose proof (Z.div_mod (x * b) 10000 ltac:(lia)). pose proof (Z.mod_pos_bound (x * b) 10000 ltac:(lia)).
  pose proof (Z.div_mod (x * r) 1000000 ltac:(lia)). pose proof (Z.mod_pos_bound (x * r) 1000000 ltac:(lia)).
  nia.
Qed.

Section searches.
Context (config : PricingConfig) (swap_type : SwapType) (miner : Z).
Notation b := (spread_bps config).
Notation r := (routing_ppm config swap_type).
Context (Hrates : rates_ok b r) (Hminer : 0 <= miner <= U64_MAX).

Lemma fee_components_eq x :
  0 <= x <= U64_MAX ->
  fee_components config swap_type miner x =
    Ok (mkComponents (x * b / 10000) miner (x * r / 1000000)
          (if 0 <=? net b r x - miner then Some (net b r x - miner) else None)).
Proof.
  intros Hx. destruct Hrates as [Hb Hr]. unfold fee_components. rewrite !floor_scaled_Ok by lia. cbn [mbind result_bind].
  do 2 f_equal. unfold net, checked_sub.
  pose proof (Z.div_pos (x * b) 10000 ltac:(nia) ltac:(lia)).
  pose proof (Z.div_pos (x * r) 1000000 ltac:(nia) ltac:(lia)).
  assert (x * b / 10000 <= x) by (apply Z.div_le_upper_bound; nia).
  repeat (case_match; bool_to_prop; cbn [mbind option_bind] in *; simplify_eq); try lia; f_equal; lia.
Qed.

Lemma covers_eq d x :
  0 <= d -> 0 <= x <= U64_MAX -> covers config swap_type miner d x = Ok (miner + d <=? net b r x).
Proof.
  intros Hd Hx. unfold covers. rewrite fee_components_eq by done. cbn [mbind result_bind fc_output]. f_equal.
  destruct (0 <=? net b r x - miner) eqn:H0; bool_to_prop;
    [destruct (d <=? net b r x - miner) eqn:H1|]; bool_to_prop; symmetry;
    first [apply Z.leb_le; lia | apply Z.leb_gt; lia].
Qed.

(** The closed form is where covering begins, give or take three. *)
Lemma start_spec d :
  0 <= d -> let c := start_candidate (variable_ppm config swap_type) miner d in
  0 <= c /\ (forall x, c <= x -> miner + d <= net b r x)
  /\ (forall x, 0 <= x -> x <= c - 4 -> net b r x < miner + d).
Proof.
  intros Hd c. destruct Hrates as [Hb Hr]. unfold variable_ppm in c.
  pose proof (div_ceil_spec ((miner + d) * 1000000) (1000000 - (b * 100 + r)) ltac:(lia)) as Hc.
  fold (start_candidate (b * 100 + r) miner d) in Hc. fold c in Hc.
  assert (0 <= c) as Hc0 by nia. split; [done|]. split.
  - intros x Hx. pose proof (net_bounds b r x Hrates ltac:(lia)). nia.
  - intros x Hx0 Hx. pose proof (net_bounds b r x Hrates Hx0). nia.
Qed.

(** [m] is the smallest input from which every larger one covers. *)
Definition threshold (d m : Z) : Prop :=
  1 <= m <= U64_MAX /\ (forall x, m <= x -> miner + d <= net b r x)
  /\ (m = 1 \/ net b r (m - 1) < miner + d).

Section one.
Context (d : Z) (overflow diverged : SwapClientError).
Hypothesis Hd : 0 < miner + d.
Hypothesis Hd0 : 0 <= d.
Let c := start_candidate (variable_ppm config swap_type) miner d.
Hypothesis Hc : c <= U64_MAX.

Lemma start_positive : 1 <= c.
Proof.
  destruct (start_spec d Hd0) as (H0 & Hall & _). fold c in H0, Hall.
  destruct (decide (c = 0)) as [Hz|]; [|lia]. specialize (Hall 0 ltac:(lia)). unfold net in Hall.
  rewrite !Z.mul_0_l, !Z.div_0_l in Hall by lia. lia.
Qed.

Lemma search_down_found n candidate steps :
  1 <= candidate <= c -> (forall x, candidate <= x -> miner + d <= net b r x) ->
  candidate - (c - 4) <= Z.of_nat n -> 0 <= steps -> steps + (candidate - (c - 4)) <= MIN_VIABLE_SEARCH_STEPS ->
  exists m, search_down (covers config swap_type miner d) diverged n candidate steps = Ok m /\ threshold d m.
Proof.
  destruct (start_spec d Hd0) as (H0 & _ & Hlow). fold c in H0, Hlow.
  revert candidate steps. induction n as [|n IH]; intros candidate steps Hr Hall Hn Hs0 Hs.
  { exfalso. specialize (Hlow candidate ltac:(lia) ltac:(lia)). specialize (Hall candidate ltac:(lia)). lia. }
  cbn [search_down]. destruct (1 <? candidate) eqn:H1; bool_to_prop; cbn [mbind result_bind].
  2: { exists candidate. split; [done|]. split; [lia|]. split; [done|]. left. lia. }
  rewrite covers_eq by lia. cbn [mbind result_bind].
  destruct (miner + d <=? net b r (candidate - 1)) eqn:Hcov; bool_to_prop.
  - rewrite (proj2 (Z.ltb_ge _ _)).
    + apply IH; try lia. intros x Hx. destruct (decide (x = candidate - 1)) as [->|]; [done|apply Hall; lia].
    + destruct (decide (candidate - 1 <= c - 4)); [|unfold MIN_VIABLE_SEARCH_STEPS in *; lia].
      specialize (Hlow (candidate - 1) ltac:(lia) ltac:(lia)). lia.
  - exists candidate. split; [done|]. split; [lia|]. split; [done|]. by right.
Qed.

Lemma search_found :
  exists m, search (covers config swap_type miner d) overflow diverged c = Ok m /\ threshold d m.
Proof.
  destruct (start_spec d Hd0) as (H0 & Hall & _). fold c in H0, Hall. pose proof start_positive.
  unfold search, SEARCH_FUEL. cbn [search_up]. rewrite covers_eq by lia. cbn [mbind result_bind].
  rewrite (proj2 (Z.leb_le _ _)) by (apply Hall; lia). cbn [mbind result_bind].
  apply search_down_found; try (unfold MIN_VIABLE_SEARCH_STEPS; lia). done.
Qed.
End one.
End searches.

(** ** The claims *)

(** The values the types allow. *)
Definition config_typed (c : PricingConfig) : Prop :=
  0 <= spread_bps c /\ 0 <= lightning_routing_fee_ppm c /\ 0 <= min_swap_sat c.

Lemma config_rates config swap_type :
  config_typed config -> config_validate config = Ok tt ->
  rates_ok (spread_bps config) (routing_ppm config swap_type)
  /\ 1 <= min_swap_sat config <= max_swap_sat config /\ max_swap_sat config <= MAX_AMOUNT_SAT
  /\ 1 <= quote_expiry_seconds config <= MAX_QUOTE_EXPIRY_SECONDS.
Proof.
  intros (Hb & Hr & Hm) Hv. unfold config_validate in Hv.
  destruct (MAX_SPREAD_BPS <? _) eqn:H1; [done|].
  destruct (match fallback_feerate_sat_per_vb config with Some _ => _ | None => _ end); [done|].
  run_inv. unfold in_range in *. bool_to_prop.
  unfold MAX_SPREAD_BPS, MAX_LIGHTNING_ROUTING_FEE_PPM in *.
  split; [|lia]. split; [lia|]. unfold routing_ppm. destruct swap_type; lia.
Qed.

Lemma rates_variable config swap_type :
  rates_ok (spread_bps config) (routing_ppm config swap_type) ->
  (1000000 <=? variable_ppm config swap_type) = false.
Proof. intros [Hb Hr]. apply Z.leb_gt. unfold variable_ppm. lia. Qed.

Lemma input_for_output_found config swap_type miner d :
  rates_ok (spread_bps config) (routing_ppm config swap_type) -> 0 <= miner <= U64_MAX -> 0 <= d -> 0 < miner + d ->
  start_candidate (variable_ppm config swap_type) miner d <= U64_MAX ->
  exists m, input_for_output config swap_type miner d = Ok m /\ threshold config swap_type miner d m.
Proof.
  intros Hrates Hm Hd Hp Hc. unfold input_for_output. rewrite rates_variable by done.
  unfold try_from_u. rewrite (proj2 (Z.leb_le _ _) Hc). cbn [ok_or mbind result_bind]. by apply search_found.
Qed.

Lemma min_viable_found config swap_type miner :
  rates_ok (spread_bps config) (routing_ppm config swap_type) -> 0 <= miner <= U64_MAX ->
  start_candidate (variable_ppm config swap_type) miner (output_floor swap_type) <= U64_MAX ->
  exists m, min_viable_input config swap_type miner = Ok m
    /\ threshold config swap_type miner (output_floor swap_type) m.
Proof.
  intros Hrates Hm Hc. unfold min_viable_input. rewrite rates_variable by done.
  unfold try_from_u. rewrite (proj2 (Z.leb_le _ _) Hc). cbn [ok_or mbind result_bind].
  apply search_found; try done; destruct swap_type; unfold output_floor, LIGHTNING_OUTPUT_FLOOR_SAT, CHAIN_OUTPUT_DUST_SAT; lia.
Qed.

(** C38: under every valid policy the search for an input ends, without ever
    reporting that it did not converge, unless the amounts leave the 64-bit
    range.  What it finds is the smallest input from which every larger input
    covers the desired output.  A smaller input may cover as well, because the
    output is not monotone in the input, but none more than three satoshis
    smaller does. *)
Theorem search_threshold config swap_type miner d :
  config_typed config -> config_validate config = Ok tt -> 0 <= miner <= U64_MAX -> 0 < d ->
  match input_for_output config swap_type miner d with
  | Ok m => threshold config swap_type miner d m
            /\ forall x, 0 <= x -> miner + d <= net (spread_bps config) (routing_ppm config swap_type) x -> m - 3 <= x
  | Err e => e = provider_error "swp_invalid_amount" "requested output amount exceeds the v1 amount range"
             /\ U64_MAX < start_candidate (variable_ppm config swap_type) miner d
  end.
Proof.
  intros Ht Hv Hm Hd. destruct (config_rates config swap_type Ht Hv) as (Hrates & _).
  destruct (decide (start_candidate (variable_ppm config swap_type) miner d <= U64_MAX)) as [Hc|Hc].
  - destruct (input_for_output_found config swap_type miner d) as (m & -> & Hth); try (done || lia).
    split; [done|]. intros x Hx Hcov.
    destruct (start_spec config swap_type miner Hrates Hm d ltac:(lia)) as (_ & Hstart & Hlow).
    set (c := start_candidate _ _ _) in *. destruct Hth as (Hm1 & Hall & Hpred).
    assert (m <= c) as Hmc.
    { destruct Hpred as [->|Hp]; [pose proof (start_positive config swap_type miner Hrates Hm d ltac:(lia) ltac:(lia)); done|].
      destruct (decide (m <= c)) as [|Hgt]; [done|]. specialize (Hstart (m - 1) ltac:(lia)). lia. }
    destruct (decide (m - 3 <= x)) as [|Hlt]; [done|]. specialize (Hlow x Hx ltac:(lia)). lia.
  - unfold input_for_output. rewrite rates_variable by done. unfold try_from_u.
    rewrite (proj2 (Z.leb_gt _ _)) by lia. cbn. split; [done|lia].
Qed.

(** ** A quote, written out *)

Lemma threshold_unique config swap_type miner d m m' :
  threshold config swap_type miner d m -> threshold config swap_type miner d m' -> m = m'.
Proof.
  intros (H1 & Hall & Hp) (H1' & Hall' & Hp').
  destruct (Z.lt_trichotomy m m') as [Hlt|[->|Hlt]]; [|done|].
  - destruct Hp' as [->|Hp']; [lia|]. specialize (Hall (m' - 1) ltac:(lia)). lia.
  - destruct Hp as [->|Hp]; [lia|]. specialize (Hall' (m - 1) ltac:(lia)). lia.
Qed.

(** Amounts in the provider's range keep the closed form in 64 bits. *)
Lemma start_fits config swap_type miner d :
  rates_ok (spread_bps config) (routing_ppm config swap_type) ->
  0 <= miner <= 200000000 -> 0 <= d <= MAX_AMOUNT_SAT ->
  start_candidate (variable_ppm config swap_type) miner d <= U64_MAX.
Proof.
  intros [Hb Hr] Hm Hd. unfold start_candidate, variable_ppm, MAX_AMOUNT_SAT in *.
  pose proof (div_ceil_spec ((miner + d) * 1000000)
                (1000000 - (spread_bps config * 100 + routing_ppm config swap_type)) ltac:(lia)) as Hc.
  unfold U64_MAX. nia.
Qed.

Lemma input_for_output_iff config swap_type miner d m :
  rates_ok (spread_bps config) (routing_ppm config swap_type) ->
  0 <= miner <= 200000000 -> 1 <= d <= MAX_AMOUNT_SAT ->
  input_for_output config swap_type miner d = Ok m <-> threshold config swap_type miner d m.
Proof.
  intros Hrates Hm Hd.
  destruct (input_for_output_found config swap_type miner d) as (m' & -> & Hth);
    [done|unfold U64_MAX; lia|lia|lia|by apply start_fits; [|lia|lia]|].
  split; [by intros [= <-]|]. intros Ht. f_equal. by eapply threshold_unique.
Qed.

Lemma output_floor_range swap_type : 1 <= output_floor swap_type <= 330.
Proof. destruct swap_type; cbv; split; discriminate. Qed.

Lemma min_viable_iff config swap_type miner m :
  rates_ok (spread_bps config) (routing_ppm config swap_type) -> 0 <= miner <= 200000000 ->
  min_viable_input config swap_type miner = Ok m
  <-> threshold config swap_type miner (output_floor swap_type) m.
Proof.
  intros Hrates Hm. pose proof (output_floor_range swap_type).
  destruct (min_viable_found config swap_type miner) as (m' & -> & Hth);
    [done|unfold U64_MAX; lia|apply start_fits; unfold MAX_AMOUNT_SAT; (done || lia)|].
  split; [by intros [= <-]|]. intros Ht. f_equal. by eapply threshold_unique.
Qed.

Lemma canonical_sat_iff s label v :
  canonical_sat s label = Ok v <-> s = to_string v /\ 0 <= v <= U64_MAX.
Proof.
  rewrite <- (canonical_decimal_iff U64_MAX U64_MAX s v) by lia. unfold canonical_sat. split.
  - intros H. run_inv. bool_to_prop. split; [done|]. split; [done|].
    by eapply parse_u_range.
  - intros (-> & -> & _). done.
Qed.

(** The quote for an input between the limits [lo] and [hi]. *)
Definition quote_of (config : PricingConfig) (feerate : FeerateObservation) (capacity : CapacityBounds)
    (request : QuoteRequest) (created_at worst_case_vbytes lo hi input : Z) : DerivedQuote :=
  let miner := worst_case_vbytes * sat_per_vb feerate in
  let provider := input * spread_bps config / 10000 in
  let routing := input * routing_ppm config (qr_swap_type request) / 1000000 in
  mkQuote (qr_swap_type request) (qr_side request) (to_string input)
    (to_string (input - (provider + miner + routing))) (to_string (spread_bps config)) (to_string provider)
    (to_string miner) (to_string routing) (to_string (provider + miner + routing)) (to_string lo)
    (to_string hi) created_at (created_at + quote_expiry_seconds config) (reservation_tier config)
    (capacity_bucket_id capacity) feerate worst_case_vbytes "input_minus_provider_and_quoted_fees"
    "floor_output_sats" None None.

(** When a request is quoted, and from which limits and input. *)
Definition quotable (config : PricingConfig) (feerate : FeerateObservation) (capacity : CapacityBounds)
    (request : QuoteRequest) (created_at worst_case_vbytes lo hi input : Z) : Prop :=
  let miner := worst_case_vbytes * sat_per_vb feerate in
  exists amount available viable,
    qr_amount request = to_string amount /\ 1 <= amount <= MAX_AMOUNT_SAT
    /\ cb_available_capacity capacity = to_string available /\ 0 <= available <= U64_MAX
    /\ threshold config (qr_swap_type request) miner (output_floor (qr_swap_type request)) viable
    /\ lo = Z.max (min_swap_sat config) viable /\ hi = Z.min (max_swap_sat config) available
    /\ match qr_side request with
       | SideInput => input = amount
       | SideOutput => threshold config (qr_swap_type request) miner amount input
       end
    /\ lo <= input <= hi
    /\ created_at + quote_expiry_seconds config <= U64_MAX.

(** From the viable input on, the output exists and reaches its floor. *)
Lemma components_above config swap_type miner viable input :
  rates_ok (spread_bps config) (routing_ppm config swap_type) -> 0 <= miner <= U64_MAX ->
  threshold config swap_type miner (output_floor swap_type) viable -> viable <= input <= U64_MAX ->
  let provider := input * spread_bps config / 10000 in
  let routing := input * routing_ppm config swap_type / 1000000 in
  fee_components config swap_type miner input
    = Ok (mkComponents provider miner routing (Some (input - (provider + miner + routing))))
  /\ output_floor swap_type <= input - (provider + miner + routing) /\ 0 <= provider /\ 0 <= routing.
Proof.
  intros Hrates Hm (H1 & Hall & _) Hi provider routing. specialize (Hall input ltac:(lia)).
  pose proof (output_floor_range swap_type). destruct (Hrates) as [Hb Hr].
  rewrite fee_components_eq by (done || lia). unfold net in *. fold provider routing in Hall |- *.
  rewrite (proj2 (Z.leb_le _ _)) by lia. split; [do 3 f_equal; lia|]. split; [lia|].
  split; apply Z.div_pos; nia.
Qed.

Section quote.
Context (config : PricingConfig) (feerate : FeerateObservation) (capacity : CapacityBounds)
  (request : QuoteRequest) (created_at worst_case_vbytes : Z).
Context (Htyped : config_typed config) (Hvalid : config_validate config = Ok tt).
Notation w := worst_case_vbytes.
Notation miner := (w * sat_per_vb feerate).

Lemma quotable_derived lo hi input :
  1 <= w <= 100000 -> 1 <= sat_per_vb feerate <= MAX_FEERATE_SAT_PER_VB ->
  quotable config feerate capacity request created_at w lo hi input ->
  derive_quote_with_worst_case_vbytes config feerate capacity request created_at w
    = Ok (quote_of config feerate capacity request created_at w lo hi input).
Proof.
  intros Hw Hf (amount & available & viable & Ha & Har & Hc & Hcr & Hv & -> & -> & Hside & Hin & He).
  destruct (config_rates config (qr_swap_type request) Htyped Hvalid) as (Hrates & Hmin & Hmax & _).
  unfold MAX_FEERATE_SAT_PER_VB, MAX_AMOUNT_SAT in *. assert (0 <= miner <= 200000000) as Hm by nia.
  assert (Hm' : 0 <= miner <= U64_MAX) by (unfold U64_MAX; lia).
  assert (viable <= input <= U64_MAX) as Hi by (unfold U64_MAX; lia).
  destruct (components_above config _ miner viable input Hrates Hm' Hv Hi) as (Hfc & Hfloor & Hp0 & Hr0).
  unfold derive_quote_with_worst_case_vbytes. rewrite Hvalid. cbn [map_err mbind result_bind].
  unfold in_range, MAX_FEERATE_SAT_PER_VB, MAX_AMOUNT_SAT. decide_if.
  rewrite (proj2 (canonical_sat_iff (qr_amount request) _ amount)) by (split; [done|unfold U64_MAX; lia]). cbn [mbind result_bind]. decide_if.
  rewrite (proj2 (canonical_sat_iff (cb_available_capacity capacity) _ available)) by done. cbn [mbind result_bind].
  rewrite checked_mul_eq by lia. cbn [ok_or mbind result_bind].
  unfold quote_limits. rewrite (proj2 (min_viable_iff _ _ _ viable Hrates Hm) Hv). cbn [mbind result_bind]. decide_if.
  cbn [mbind result_bind].
  assert (match qr_side request with SideInput => Ok amount
          | SideOutput => input_for_output config (qr_swap_type request) miner amount end = Ok input) as ->.
  { destruct (qr_side request); [by subst|]. by apply input_for_output_iff. }
  cbn [mbind result_bind]. decide_if. rewrite Hfc. cbn [mbind result_bind option_bind fc_output]. decide_if.
  cbn [ok_or mbind result_bind fc_provider_fee fc_miner_fee_budget fc_lightning_routing_fee_budget].
  pose proof (output_floor_range (qr_swap_type request)).
  repeat (rewrite checked_add_eq by lia; cbn [ok_or mbind option_bind result_bind]). decide_if. done.
Qed.

Lemma derived_quotable q :
  0 <= w ->
  derive_quote_with_worst_case_vbytes config feerate capacity request created_at w = Ok q ->
  1 <= w <= 100000 /\ 1 <= sat_per_vb feerate <= MAX_FEERATE_SAT_PER_VB
  /\ exists lo hi input, quotable config feerate capacity request created_at w lo hi input.
Proof.
  intros Hw0 Hq. destruct (config_rates config (qr_swap_type request) Htyped Hvalid) as (Hrates & _).
  unfold derive_quote_with_worst_case_vbytes in Hq. rewrite Hvalid in Hq. cbn [map_err mbind result_bind] in Hq.
  destruct ((w =? 0) || (100000 <? w)) eqn:Hwb; [done|].
  destruct (negb (in_range 1 MAX_FEERATE_SAT_PER_VB (sat_per_vb feerate))) eqn:Hfb; [done|].
  unfold in_range in Hfb. bool_to_prop. split; [lia|]. split; [lia|].
  unfold MAX_FEERATE_SAT_PER_VB in *. assert (0 <= miner <= 200000000) as Hm by nia.
  apply bind_Ok in Hq as (amount & Ha & Hq). apply canonical_sat_iff in Ha as [Ha Har].
  destruct ((amount =? 0) || (MAX_AMOUNT_SAT <? amount)) eqn:Hab; [done|]. bool_to_prop.
  apply bind_Ok in Hq as (available & Hc & Hq). apply canonical_sat_iff in Hc as [Hc Hcr].
  rewrite checked_mul_eq in Hq by (unfold U64_MAX; lia). cbn [ok_or mbind result_bind] in Hq.
  apply bind_Ok in Hq as ([lo hi] & Hl & Hq). unfold quote_limits in Hl.
  apply bind_Ok in Hl as (viable & Hv & Hl). apply min_viable_iff in Hv; [|done|done].
  destruct (_ <? Z.max _ _) in Hl; [done|]. injection Hl as <- <-.
  apply bind_Ok in Hq as (input & Hi & Hq).
  destruct ((input <? _) || (_ <? input)) eqn:Hib; [done|]. bool_to_prop.
  exists (Z.max (min_swap_sat config) viable), (Z.min (max_swap_sat config) available), input.
  exists amount, available, viable. 
  refine (conj Ha (conj _ (conj Hc (conj Hcr (conj Hv (conj eq_refl (conj eq_refl (conj _ (conj _ _)))))))));
    try lia.
  - destruct (qr_side request); [by injection Hi|]. apply input_for_output_iff in Hi; (done || lia).
  - clear Hi. run_inv. match goal with H : checked_add _ created_at _ = Some _ |- _ => apply checked_add_Some in H end. lia.
Qed.
End quote.

(** C7: a quote is derived exactly when the request is quotable, and is then
    the one the equations give.  A request is quotable when its amount and the
    available capacity are canonical and the input, taken or found for the
    requested output, lies between the larger of the configured minimum and
    the viable threshold and the smaller of the configured maximum and the
    capacity.  The input then equals the output plus the three fees, the miner
    budget is the priced weight at the observed rate, and the output reaches
    its floor. *)
Theorem quote_exact config feerate capacity request created_at worst_case_vbytes q :
  config_typed config -> config_validate config = Ok tt -> 0 <= worst_case_vbytes ->
  derive_quote_with_worst_case_vbytes config feerate capacity request created_at worst_case_vbytes = Ok q
  <-> 1 <= worst_case_vbytes <= 100000 /\ 1 <= sat_per_vb feerate <= MAX_FEERATE_SAT_PER_VB
      /\ exists lo hi input,
           quotable config feerate capacity request created_at worst_case_vbytes lo hi input
           /\ q = quote_of config feerate capacity request created_at worst_case_vbytes lo hi input.
Proof.
  intros Ht Hv Hw. split.
  - intros Hq. destruct (derived_quotable _ _ _ _ _ _ Ht Hv q Hw Hq) as (Hw' & Hf & lo & hi & input & Hquot).
    split; [done|]. split; [done|]. exists lo, hi, input. split; [done|].
    rewrite (quotable_derived _ _ _ _ _ _ Ht Hv lo hi input) in Hq by done. congruence.
  - intros (Hw' & Hf & lo & hi & input & Hquot & ->). by apply quotable_derived.
Qed.

(** ** The weights *)

(** A transaction with one input spent by a witness of items no longer than
    [lens], paying [outputs] taproot outputs. *)
Record spend_shape (tx : Transaction) (lens : list Z) (outputs : Z) : Prop := mkSpend {
  sh_input : exists i, tx_inputs tx = [i] /\ length (previous_txid i) = 32%nat /\ script_sig i = []
               /\ Forall2 (fun item n => len item <= n) (witness i) lens;
  sh_outputs : len (tx_outputs tx) = outputs /\ Forall (fun o => len (script_pubkey o) = 34) (tx_outputs tx);
}.

Lemma compact_size_short v : 0 <= v < 253 -> len (write_compact_size v) = 1.
Proof. intros. rewrite write_compact_size_length. unfold compact_size_length. by decide_if. Qed.

Lemma outputs_len os :
  Forall (fun o => len (script_pubkey o) = 34) os -> len (concat (output_bytes <$> os)) = 43 * len os.
Proof.
  induction 1 as [|o os Ho _ IH]; [done|]. cbn [fmap list_fmap concat]. rewrite len_app, IH.
  unfold output_bytes, write_var_bytes. rewrite !len_app, compact_size_short by lia.
  rewrite Ho. unfold len at 1. rewrite le_bytes_length. unfold len. cbn [length]. lia.
Qed.

Lemma items_len (items : list (list Z)) lens base :
  Forall2 (fun item n => len item <= n) items lens -> Forall (fun n => n < 253) lens ->
  base + len (concat (write_var_bytes <$> items)) <= fold_left (fun w n => w + (1 + n)) lens base.
Proof.
  intros Hi. revert base. induction Hi as [|item n items lens Hn _ IH]; intros base Hl; cbn.
  - change (@len Z []) with 0. lia.
  - apply Forall_cons in Hl as [Hn' Hl]. specialize (IH (base + (1 + n)) Hl). rewrite len_app.
    unfold write_var_bytes at 1. pose proof (len_nonneg item). rewrite len_app, compact_size_short by lia. lia.
Qed.

Lemma stripped_len tx lens n :
  spend_shape tx lens n -> n < 253 -> len (transaction_bytes tx false) = 4 + 1 + 41 + 1 + n * 43 + 4.
Proof.
  intros [(i & Hi & Hp & Hs & _) (Hn & Ho)] Hb. unfold transaction_bytes. rewrite Hi. cbn [fmap list_fmap concat].
  pose proof (len_nonneg (tx_outputs tx)). unfold input_bytes, write_var_bytes. rewrite Hs, app_nil_r, !len_app.
  rewrite (outputs_len _ Ho), Hn, (compact_size_short n) by lia.
  change (len (write_compact_size (len [i]))) with 1. change (len (write_compact_size (len []))) with 1.
  unfold len. rewrite !le_bytes_length, Hp. cbn [length]. lia.
Qed.

Lemma spend_weight tx lens n v :
  spend_shape tx lens n -> Forall (fun n => n < 253) lens -> 0 < len lens < 253 -> 0 < n < 253 ->
  virtual_size tx = Ok v -> v <= spend_vbytes lens n.
Proof.
  intros Hsh Hl Hc Hn Hv. pose proof (stripped_len tx lens n Hsh ltac:(lia)) as Hstrip.
  destruct Hsh as [(i & Hi & _ & _ & Hw) _].
  assert (exists total, transaction_serialize tx true = Ok total) as [total Htot].
  { unfold virtual_size, weight in Hv. run_inv. eauto. }
  destruct (virtual_size_exact tx total Htot) as (base & w & v' & Hb & _ & Hv' & Hweq & Hbound & Htl).
  rewrite Hv in Hv'. injection Hv' as <-.
  apply transaction_serialize_Ok in Hb as (_ & -> & _). cbn [andb] in *. rewrite Hstrip in *.
  pose proof (items_len _ _ 3 Hw Hl) as Hitems. apply Forall2_length in Hw.
  assert (len (concat ((fun i => witness_bytes (witness i)) <$> tx_inputs tx))
          = 1 + len (concat (write_var_bytes <$> witness i))) as Hwl.
  { rewrite Hi. cbn [fmap list_fmap concat]. rewrite app_nil_r. unfold witness_bytes.
    rewrite len_app, compact_size_short; [done|]. unfold len in *. lia. }
  rewrite Hwl in Htl. pose proof (len_nonneg (concat (write_var_bytes <$> witness i))).
  unfold spend_vbytes. change (2 + 1) with 3.
  set (f := fold_left _ lens 3) in *. pose proof (div_ceil_spec ((4 + 1 + 41 + 1 + n * 43 + 4) * 4 + f) 4 ltac:(lia)).
  destruct (tx_has_witness tx && _); lia.
Qed.

(** The transactions a provider may have to publish: the witnesses are those
    of the script paths, with the leaf scripts the contracts use. *)
Definition one_spend (tx : Transaction) (wit : list (list Z)) (outputs : Z) : Prop :=
  (exists i, tx_inputs tx = [i] /\ length (previous_txid i) = 32%nat /\ script_sig i = [] /\ witness i = wit)
  /\ len (tx_outputs tx) = outputs /\ Forall (fun o => len (script_pubkey o) = 34) (tx_outputs tx).

Definition claims (tx : Transaction) : Prop :=
  exists sig preimage payment_hash key control,
    one_spend tx [sig; preimage; production_claim_leaf_script payment_hash key; control] 1
    /\ len sig <= SCHNORR_SIG_WORST_CASE_BYTES /\ len preimage = 32 /\ len payment_hash = 32 /\ len key = 32
    /\ len control = CONTROL_BLOCK_DEPTH1_BYTES.
Definition refunds (tx : Transaction) : Prop :=
  exists sig height key script control,
    one_spend tx [sig; script; control] 1 /\ production_refund_leaf_script height key = Some script
    /\ 0 <= height /\ len sig <= SCHNORR_SIG_WORST_CASE_BYTES /\ len key = 32
    /\ len control = CONTROL_BLOCK_DEPTH1_BYTES.
Definition locks_up (tx : Transaction) : Prop :=
  exists sig, one_spend tx [sig] 2 /\ len sig <= SCHNORR_SIG_WORST_CASE_BYTES.

Lemma one_spend_shape tx wit lens n :
  one_spend tx wit n -> Forall2 (fun item n => len item <= n) wit lens -> spend_shape tx lens n.
Proof. intros ((i & ? & ? & ? & <-) & ? & ?) Hl. split; eauto. Qed.

Lemma claims_bound tx v : claims tx -> virtual_size tx = Ok v -> v <= claim_spend_vbytes.
Proof.
  intros (sig & preimage & hash & key & control & Hs & Hsig & Hpre & Hhash & Hkey & Hcontrol) Hv.
  change (len claim_leaf_script_template) with 73 in *.
  eapply spend_weight; [eapply one_spend_shape; [exact Hs|]|repeat constructor|cbv; done|done|done].
  repeat constructor; try lia. change (len claim_leaf_script_template) with 73.
  unfold production_claim_leaf_script. rewrite !len_app, Hhash, Hkey. cbv. discriminate.
Qed.

Lemma refunds_bound tx v : refunds tx -> virtual_size tx = Ok v -> v <= refund_spend_vbytes.
Proof.
  intros (sig & height & key & script & control & Hs & Hscript & Hh & Hsig & Hkey & Hcontrol) Hv.
  eapply spend_weight; [eapply one_spend_shape; [exact Hs|]|repeat constructor|cbv; done|done|done].
  repeat constructor; try lia. change (len refund_leaf_script_template) with 41.
  unfold production_refund_leaf_script in Hscript.
  destruct ((height =? 0) || (500000000 <=? height)) eqn:Hb; [done|]. bool_to_prop. injection Hscript as <-.
  pose proof (height_number_length height ltac:(lia)).
  unfold refund_leaf_script. rewrite !len_app, Hkey. change (len [len (script_number height)]) with 1.
  change (len [0xb1; 0x75; 0x20]) with 3. change (len [0xac]) with 1. lia.
Qed.

Lemma locks_up_bound tx v : locks_up tx -> virtual_size tx = Ok v -> v <= lockup_vbytes.
Proof.
  intros (sig & Hs & Hsig) Hv.
  eapply spend_weight; [eapply one_spend_shape; [exact Hs|]|repeat constructor|cbv; done|done|done].
  repeat constructor; lia.
Qed.

(** C11: the miner budget of every quote pays, at the observed rate, for the
    transactions the provider may have to publish for it: the claim of a
    submarine swap; the lockup and the refund of a reverse swap; the lockup
    and either spend of a chain swap.  The rate at which a funding transaction
    is later built is read back from the signed budget exactly. *)
Theorem budget_covers_redeem config feerate capacity request created_at q :
  config_typed config -> derive_quote config feerate capacity request created_at = Ok q ->
  exists budget, dq_miner_fee_budget q = to_string budget
  /\ funding_feerate_from_quote_budget (qr_swap_type request) budget = Ok (sat_per_vb feerate)
  /\ (forall lockup claim refund vl vc vr,
        locks_up lockup -> claims claim -> refunds refund ->
        virtual_size lockup = Ok vl -> virtual_size claim = Ok vc -> virtual_size refund = Ok vr ->
        match qr_swap_type request with
        | Submarine => vc * sat_per_vb feerate <= budget
        | Reverse => (vl + vr) * sat_per_vb feerate <= budget
        | SwapChain => (vl + vc) * sat_per_vb feerate <= budget /\ (vl + vr) * sat_per_vb feerate <= budget
        end).
Proof.
  intros Ht Hq. assert (config_validate config = Ok tt) as Hv.
  { unfold derive_quote, derive_quote_with_worst_case_vbytes in Hq. destruct (config_validate config) as [[]|]; done. }
  set (w := worst_case_redeem_vbytes (qr_swap_type request)).
  assert (0 <= w) as Hw by (subst w; destruct (qr_swap_type request); cbv; discriminate).
  destruct (derived_quotable _ _ _ _ _ w Ht Hv q Hw Hq) as (Hw' & Hf & lo & hi & input & Hquot).
  unfold derive_quote in Hq. fold w in Hq. rewrite (quotable_derived _ _ _ _ _ _ Ht Hv lo hi input) in Hq by done.
  injection Hq as <-. exists (w * sat_per_vb feerate). split; [done|]. split.
  { unfold funding_feerate_from_quote_budget, funding_feerate_from_priced_vbytes, in_range. fold w.
    rewrite Z.mul_comm, Z.mod_mul, Z.div_mul by lia. by decide_if. }
  intros lockup claim refund vl vc vr Hl Hc Hr Hvl Hvc Hvr.
  pose proof (locks_up_bound _ _ Hl Hvl). pose proof (claims_bound _ _ Hc Hvc).
  pose proof (refunds_bound _ _ Hr Hvr). subst w.
  unfold worst_case_redeem_vbytes in *. destruct (qr_swap_type request); nia.
Qed.

Lemma effective_spread_eq feed spread :
  effective_spread_bps feed spread = Z.min (spread * vf_realized_volatility_bps feed / 5000) 1000.
Proof.
  unfold effective_spread_bps, try_from_u, REFERENCE_REALIZED_VOLATILITY_BPS, MAX_SPREAD_BPS.
  destruct (_ <=? U64_MAX) eqn:H; bool_to_prop; unfold default, from_option, id, U64_MAX in *; lia.
Qed.

Lemma usd_value_fits feed amount :
  0 <= amount <= MAX_AMOUNT_SAT -> 1 <= vf_index_price_usd_cents feed <= MAX_INDEX_PRICE_USD_CENTS ->
  usd_value_cents feed amount = Ok (amount * vf_index_price_usd_cents feed / 100000000).
Proof.
  intros Ha Hp. unfold usd_value_cents, SATOSHIS_PER_BITCOIN. rewrite try_from_u_eq; [done|].
  unfold MAX_AMOUNT_SAT, MAX_INDEX_PRICE_USD_CENTS, U64_MAX in *. apply Z.div_le_upper_bound; nia.
Qed.

Lemma with_spread_typed config feed :
  config_typed config -> 0 <= vf_realized_volatility_bps feed ->
  config_typed (with_spread config (Z.min (spread_bps config * vf_realized_volatility_bps feed / 5000) 1000)).
Proof.
  intros (Hb & Hr & Hm) Hv. repeat split; [|done|done]. cbn.
  pose proof (Z.div_pos (spread_bps config * vf_realized_volatility_bps feed) 5000 ltac:(nia) ltac:(lia)). lia.
Qed.

(** ** The price feed *)

Lemma derived_valid config feerate capacity request created_at w q :
  derive_quote_with_worst_case_vbytes config feerate capacity request created_at w = Ok q ->
  config_validate config = Ok tt.
Proof. unfold derive_quote_with_worst_case_vbytes. by destruct (config_validate config) as [[]|]. Qed.

(** The amounts of a quote are in the provider's range. *)
Lemma derived_amounts config feerate capacity request created_at w q :
  config_typed config -> 0 <= w ->
  derive_quote_with_worst_case_vbytes config feerate capacity request created_at w = Ok q ->
  exists input output, dq_input_amount q = to_string input /\ dq_output_amount q = to_string output
    /\ 0 <= output <= input /\ input <= MAX_AMOUNT_SAT
    /\ dq_price_feed_application q = None /\ dq_price_feed_fallback q = None.
Proof.
  intros Ht Hw Hq. pose proof (derived_valid _ _ _ _ _ _ _ Hq) as Hv.
  destruct (derived_quotable _ _ _ _ _ w Ht Hv q Hw Hq) as (Hw' & Hf & lo & hi & input & Hquot).
  rewrite (quotable_derived _ _ _ _ _ _ Ht Hv lo hi input) in Hq by done. injection Hq as <-.
  destruct (config_rates config (qr_swap_type request) Ht Hv) as (Hrates & Hmin & Hmax & _).
  destruct Hquot as (amount & available & viable & _ & _ & _ & _ & Hth & -> & -> & _ & Hin & _).
  unfold MAX_FEERATE_SAT_PER_VB, MAX_AMOUNT_SAT in *. assert (0 <= w * sat_per_vb feerate <= U64_MAX) by (unfold U64_MAX; nia).
  pose proof (output_floor_range (qr_swap_type request)).
  destruct (components_above config _ _ viable input Hrates ltac:(done) Hth ltac:(unfold U64_MAX; lia)) as (_ & ? & ? & ?).
  do 2 eexists. cbn [quote_of dq_input_amount dq_output_amount]. repeat split; lia.
Qed.

Lemma validated_feed_range p t f :
  validate_at p t = Ok f ->
  vf_packet f = p /\ 1 <= vf_index_price_usd_cents f <= MAX_INDEX_PRICE_USD_CENTS
  /\ 0 <= vf_realized_volatility_bps f <= MAX_REALIZED_VOLATILITY_BPS
  /\ pf_observed_at p <= t <= pf_observed_at p + pf_max_age_seconds p.
Proof.
  unfold validate_at, canonical_feed_quantity. intros H. unfold in_range in *. run_inv. bool_to_prop.
  repeat match goal with H : parse_u _ _ = Some _ |- _ => apply parse_u_range in H
  | H : checked_add _ _ _ = Some _ |- _ => apply checked_add_Some in H end.
  subst f. cbn. repeat split; try done; lia.
Qed.

Lemma with_feed_id q :
  dq_price_feed_application q = None -> dq_price_feed_fallback q = None -> with_feed q None None = q.
Proof. by destruct q; cbn; intros -> ->. Qed.

(** A price feed changes nothing but the spread, and only while it is
    valid and fresh.  Without a packet the quote is the plain one; with a
    packet that is malformed, stale or from the future it is the plain quote
    carrying the reason; with a valid one it is the plain quote under the
    spread scaled by the volatility, at most ten percent, annotated with the
    dollar values, which never fail to fit. *)
Theorem price_feed_exact config feerate capacity request created_at worst_case_vbytes price_feed :
  config_typed config -> 0 <= worst_case_vbytes ->
  let plain c := derive_quote_with_worst_case_vbytes c feerate capacity request created_at worst_case_vbytes in
  let fed := derive_quote_with_price_feed_and_worst_case_vbytes config feerate capacity request created_at
               worst_case_vbytes price_feed in
  match price_feed with
  | None => fed = plain config
  | Some packet =>
      match validate_at packet created_at with
      | Err reason => fed = (q ← plain config; Ok (with_feed q None (Some reason)))
      | Ok feed =>
          let spread := Z.min (spread_bps config * vf_realized_volatility_bps feed / 5000) 1000 in
          pf_observed_at packet <= created_at <= pf_observed_at packet + pf_max_age_seconds packet
          /\ match plain (with_spread config spread) with
             | Err e => fed = Err e
             | Ok q => exists input output,
                 dq_input_amount q = to_string input /\ dq_output_amount q = to_string output
                 /\ fed = Ok (with_feed q (Some (mkApplication (pf_source packet)
                      (pf_index_price_usd_cents packet) (pf_realized_volatility_bps packet)
                      (pf_realized_volatility_window_seconds packet) (pf_observed_at packet)
                      (pf_max_age_seconds packet) (to_string (spread_bps config)) (to_string spread)
                      (to_string (input * vf_index_price_usd_cents feed / 100000000))
                      (to_string (output * vf_index_price_usd_cents feed / 100000000)))) None)
             end
      end
  end.
Proof.
  intros Ht Hw plain fed. subst fed. unfold derive_quote_with_price_feed_and_worst_case_vbytes.
  destruct price_feed as [packet|]; [destruct (validate_at packet created_at) as [feed|reason] eqn:Hf|].
  - apply validated_feed_range in Hf as (Hp & Hprice & Hvol & Hage). cbn zeta. split; [done|].
    rewrite effective_spread_eq by done.
    set (config' := with_spread config _). fold (plain config').
    assert (config_typed config') as Ht' by (apply with_spread_typed; [done|lia]).
    destruct (plain config') as [q|e] eqn:Hq; [|done].
    destruct (derived_amounts _ _ _ _ _ _ _ Ht' Hw Hq) as (input & output & Hi & Ho & Hio & Hmax & _).
    exists input, output. split; [done|]. split; [done|]. cbn [mbind result_bind].
    unfold MAX_AMOUNT_SAT in *. rewrite Hi, Ho.
    rewrite !(proj2 (canonical_sat_iff _ _ _)) by (split; [done|unfold U64_MAX; lia]). cbn [mbind result_bind].
    rewrite !usd_value_fits by (unfold MAX_AMOUNT_SAT; (done || lia)). cbn [mbind result_bind]. by rewrite Hp.
  - cbn [mbind result_bind]. fold (plain config). destruct (plain config) as [q|e] eqn:Hq; [|done]. cbn [mbind result_bind].
    destruct (derived_amounts _ _ _ _ _ _ _ Ht Hw Hq) as (input & output & _ & _ & _ & _ & -> & _). done.
  - cbn [mbind result_bind]. fold (plain config). destruct (plain config) as [q|e] eqn:Hq; [|done]. cbn [mbind result_bind].
    destruct (derived_amounts _ _ _ _ _ _ _ Ht Hw Hq) as (input & output & _ & _ & _ & _ & Ha & Hfb).
    by rewrite Ha, with_feed_id.
Qed.

(** ** Witnesses *)

Definition steep_config : PricingConfig := mkConfig 1000 (Some 5) 1 1000000 300 TierHard 100000.
Definition plain_config : PricingConfig := mkConfig 50 None 10000 1000000 300 TierHard 1000.

Lemma steep_typed : config_typed steep_config /\ config_validate steep_config = Ok tt.
Proof. by repeat split. Qed.
Lemma plain_typed : config_typed plain_config /\ config_validate plain_config = Ok tt.
Proof. by repeat split. Qed.

(** With both rates at their bound, eleven is the threshold for an output of
    nine, although an input of nine already yields nine: ten does not. *)
Lemma search_threshold_witness :
  input_for_output steep_config Submarine 0 9 = Ok 11
  /\ threshold steep_config Submarine 0 9 11
  /\ covers steep_config Submarine 0 9 9 = Ok true /\ covers steep_config Submarine 0 9 10 = Ok false.
Proof.
  pose proof (search_threshold steep_config Submarine 0 9 (proj1 steep_typed) (proj2 steep_typed)
                ltac:(by split) ltac:(done)) as H.
  assert (input_for_output steep_config Submarine 0 9 = Ok 11) as Hi by (vm_compute; reflexivity).
  rewrite Hi in H. split; [exact Hi|]. split; [exact (proj1 H)|]. split; vm_compute; reflexivity.
Defined.

Definition example_request (side : QuoteSide) : QuoteRequest := mkQuoteRequest Reverse side (to_string 100000).
Definition example_capacity : CapacityBounds := mkCapacity "bucket" (to_string 500000).
Definition example_rate : FeerateObservation := Live 3 "bitcoind".

Lemma quote_exact_witness :
  exists q, derive_quote_with_worst_case_vbytes plain_config example_rate example_capacity
    (example_request SideOutput) 1000 250 = Ok q
  /\ exists lo hi input,
       quotable plain_config example_rate example_capacity (example_request SideOutput) 1000 250 lo hi input
       /\ q = quote_of plain_config example_rate example_capacity (example_request SideOutput) 1000 250 lo hi input.
Proof.
  eexists. split; [vm_compute; reflexivity|].
  apply (quote_exact plain_config example_rate example_capacity (example_request SideOutput) 1000 250 _
           (proj1 plain_typed) (proj2 plain_typed) ltac:(done)).
  vm_compute. reflexivity.
Defined.

Definition spending (wit : list (list Z)) (outputs : nat) : Transaction :=
  transaction_new 2 [mkInput (replicate 32 1) 0 [] 0 wit] (replicate outputs (mkOutput 1000 (replicate 34 6))) 0.
Definition example_claim_tx : Transaction :=
  spending [replicate 65 1; replicate 32 2; production_claim_leaf_script (replicate 32 3) (replicate 32 4);
            replicate 65 5] 1.
Definition example_refund_tx : Transaction :=
  spending [replicate 64 1; refund_leaf_script 800000 (replicate 32 4); replicate 65 5] 1.
Definition example_lockup_tx : Transaction := spending [replicate 64 1] 2.

Lemma spending_shape wit outputs : one_spend (spending wit outputs) wit (Z.of_nat outputs).
Proof.
  split; [by eexists|]. split; [unfold len; cbn; by rewrite length_replicate|].
  by apply Forall_replicate.
Qed.

Lemma example_spends : locks_up example_lockup_tx /\ claims example_claim_tx /\ refunds example_refund_tx.
Proof.
  split; [|split].
  - exists (replicate 64 1). split; [apply (spending_shape _ 2)|cbv; discriminate].
  - do 5 eexists. split; [apply (spending_shape _ 1)|]. repeat split; cbv; discriminate.
  - do 2 eexists. exists (replicate 32 4). do 2 eexists. split; [apply (spending_shape _ 1)|].
    split; [by instantiate (1 := 800000)|]. repeat split; cbv; discriminate.
Qed.

Lemma budget_covers_redeem_witness :
  exists q, derive_quote plain_config example_rate example_capacity (example_request SideInput) 1000 = Ok q
  /\ virtual_size example_lockup_tx = Ok 154 /\ virtual_size example_refund_tx = Ok 138
  /\ exists budget, dq_miner_fee_budget q = to_string budget /\ (154 + 138) * 3 <= budget.
Proof.
  eexists. split; [vm_compute; reflexivity|]. split; [vm_compute; reflexivity|].
  split; [vm_compute; reflexivity|].
  destruct (budget_covers_redeem plain_config example_rate example_capacity (example_request SideInput) 1000 _
              (proj1 plain_typed) ltac:(vm_compute; reflexivity)) as (budget & Hb & _ & Hall).
  exists budget. split; [exact Hb|]. destruct example_spends as (Hl & Hc & Hr).
  eapply (Hall _ _ _ 154 _ 138 Hl Hc Hr); vm_compute; reflexivity.
Defined.

Definition example_packet (volatility : Z) : PriceFeedPacket :=
  mkPacket PRICE_FEED_SCHEMA (mkSource "venue" "live" "btc-usd") (to_string 6000000) (to_string volatility) 3600 990 60.

(** Twice the reference volatility doubles the spread; a stale packet leaves
    it alone. *)
Lemma price_feed_exact_witness :
  exists feed q, validate_at (example_packet 10000) 1000 = Ok feed
  /\ derive_quote_with_worst_case_vbytes (with_spread plain_config 100) example_rate example_capacity
       (example_request SideInput) 1000 250 = Ok q
  /\ (exists a, derive_quote_with_price_feed_and_worst_case_vbytes plain_config example_rate example_capacity
                  (example_request SideInput) 1000 250 (Some (example_packet 10000)) = Ok (with_feed q (Some a) None))
  /\ validate_at (example_packet 10000) 1051 = Err "packet is stale"%string.
Proof.
  eexists _, _. split; [vm_compute; reflexivity|]. split; [vm_compute; reflexivity|].
  split; [|vm_compute; reflexivity].
  pose proof (price_feed_exact plain_config example_rate example_capacity (example_request SideInput) 1000 250
                (Some (example_packet 10000)) (proj1 plain_typed) ltac:(done)) as H.
  cbv beta iota zeta in H.
  assert (exists f, validate_at (example_packet 10000) 1000 = Ok f /\ vf_realized_volatility_bps f = 10000)
    as (f & Hf & Hv) by (eexists; split; vm_compute; reflexivity).
  rewrite Hf, Hv in H. destruct H as [_ H].
  change (Z.min (spread_bps plain_config * 10000 / 5000) 1000) with 100 in H.
  match type of H with match ?d with _ => _ end =>
    let v := eval vm_compute in d in replace d with v in H by (vm_compute; reflexivity) end.
  destruct H as (input & output & _ & _ & H). eexists. exact H.
Defined.
