(* ===== verification/RpcClient.v ===== *)
(** * RpcClient: configuration and credentials of the node client

    [immortal-provider/src/bitcoind.rs]: the credentials and their base64
    form, the endpoint, the limits, the head of a request and the freshness
    of an observation.  [authorization_read_back]: what the header says, read
    by any base64 reader, is the credential that was configured. *)

From S2P Require Import Prelude Text Utf8 Hex Event Filter Regroup Expanded Bitcoind.

(** ** Credentials *)

Record BitcoindAuth : Type := mkAuth { ba_username : string; ba_password : string }.

Definition safe_credential_part (value : string) : bool :=
  forallb (fun byte => negb (is_ascii_control byte)) (as_bytes value).

Definition bitcoind_auth_new (username password : string) : result BitcoindError BitcoindAuth :=
  if (str_len username =? 0) || (256 <? str_len username) || mem 58 (as_bytes username)
     || negb (safe_credential_part username)
  then Err (BInvalidConfiguration "RPC username is empty, too long, or contains a forbidden byte")
  else if (str_len password =? 0) || (1024 <? str_len password) || negb (safe_credential_part password)
  then Err (BInvalidConfiguration "RPC password is empty, too long, or contains a forbidden byte")
  else Ok (mkAuth username password).

Definition BASE64_ALPHABET : list Z :=
  as_bytes "ABCDEFGHIJKLMNOPQRSTUVWXYZabcdefghijklmnopqrstuvwxyz0123456789+/".
Definition alphabet (index : Z) : Z := nth (Z.to_nat index) BASE64_ALPHABET 0.

(** The sextets of a chunk of three bytes, absent bytes being zero. *)
Definition sextet1 (first : Z) : Z := Z.shiftr first 2.
Definition sextet2 (first second : Z) : Z := Z.lor (Z.shiftl (Z.land first 0x03) 4) (Z.shiftr second 4).
Definition sextet3 (second third : Z) : Z := Z.lor (Z.shiftl (Z.land second 0x0f) 2) (Z.shiftr third 6).
Definition sextet4 (third : Z) : Z := Z.land third 0x3f.

Fixpoint encode_base64_bytes (input : list Z) : list Z :=
  match input with
  | [] => []
  | [first] => [alphabet (sextet1 first); alphabet (sextet2 first 0); 61; 61]
  | [first; second] =>
      [alphabet (sextet1 first); alphabet (sextet2 first second); alphabet (sextet3 second 0); 61]
  | first :: second :: third :: rest =>
      alphabet (sextet1 first) :: alphabet (sextet2 first second) :: alphabet (sextet3 second third)
        :: alphabet (sextet4 third) :: encode_base64_bytes rest
  end.
Definition encode_base64 (input : list Z) : string := of_bytes (encode_base64_bytes input).

Definition authorization_value (auth : BitcoindAuth) : string :=
  "Basic " +:+ encode_base64 (as_bytes (ba_username auth) ++ 58 :: as_bytes (ba_password auth)).

(** ** Endpoint, limits, request *)

Record BitcoindEndpoint : Type := mkEndpoint { be_host : string; be_port : Z }.

Definition bitcoind_endpoint_new (host : string) (port : Z) : result BitcoindError BitcoindEndpoint :=
  if (str_len host =? 0) || (253 <? str_len host) || (port =? 0)
     || existsb (fun byte => is_ascii_control byte || mem byte [32; 47; 92; 64; 35]) (as_bytes host)
  then Err (BInvalidConfiguration "RPC host or port is invalid")
  else Ok (mkEndpoint host port).

(** [BitcoindLimits::validate], with the two timeouts in nanoseconds. *)
Definition limits_validate (connect_timeout io_timeout : Z) (limits : BitcoindLimits)
    : result BitcoindError BitcoindLimits :=
  if (connect_timeout =? 0) || (io_timeout =? 0)
     || negb (in_range 1024 (64 * 1024) (max_header_bytes limits))
     || negb (in_range 1024 (64 * 1024 * 1024) (max_response_bytes limits))
     || negb (in_range 1024 (16 * 1024 * 1024) (max_request_bytes limits))
  then Err (BInvalidConfiguration "RPC timeouts or byte limits are outside supported bounds")
  else Ok limits.
Definition limits_default : BitcoindLimits := mkLimits (16 * 1024) (16 * 1024 * 1024) (4 * 1024 * 1024).

Definition request_crlf : string := of_bytes CRLF.
Definition request_head (endpoint : BitcoindEndpoint) (auth : BitcoindAuth) (path : string) (body : list Z) : string :=
  let host := if mem 58 (as_bytes (be_host endpoint))
              then "[" +:+ be_host endpoint +:+ "]:" +:+ to_string (be_port endpoint)
              else be_host endpoint +:+ ":" +:+ to_string (be_port endpoint) in
  "POST " +:+ path +:+ " HTTP/1.1" +:+ request_crlf +:+ "Host: " +:+ host +:+ request_crlf
  +:+ "Authorization: " +:+ authorization_value auth +:+ request_crlf
  +:+ "Content-Type: application/json" +:+ request_crlf
  +:+ "Content-Length: " +:+ to_string (len body) +:+ request_crlf
  +:+ "Connection: close" +:+ request_crlf +:+ request_crlf.

(** ** Freshness *)

Inductive Freshness : Type := Fresh | Stale | ClockRegression.

(** [FreshnessPolicy::new]: the policy is its [max_age], in nanoseconds. *)
Definition freshness_policy_new (max_age : Z) : result BitcoindError Z :=
  if (max_age =? 0) || (from_secs 3600 <? max_age)
  then Err (BInvalidConfiguration "freshness age must be between one second and one hour")
  else Ok max_age.

Definition freshness_evaluate (max_age observed_at now : Z) : Freshness :=
  match checked_sub now observed_at with
  | None => ClockRegression
  | Some age => if age <=? max_age then Fresh else Stale
  end.

(** ** Base64 *)

Lemma alphabet_digit n : 0 <= n < 64 -> base64_digit (alphabet n) = Some n /\ alphabet n <> 61 /\ is_byte (alphabet n).
Proof.
  intros Hn. assert (n ∈ seqZ 0 64) as Hin by (apply elem_of_seqZ; lia).
  assert (Forall (fun n => base64_digit (alphabet n) = Some n /\ alphabet n <> 61 /\ is_byte (alphabet n)) (seqZ 0 64)) as Hall.
  { apply (bool_decide_unpack _). vm_compute. exact I. }
  rewrite Forall_forall in Hall. by apply Hall.
Qed.

(** The sextets that are written. *)
Fixpoint sextets (input : list Z) : list Z :=
  match input with
  | [] => []
  | [first] => [sextet1 first; sextet2 first 0]
  | [first; second] => [sextet1 first; sextet2 first second; sextet3 second 0]
  | first :: second :: third :: rest =>
      sextet1 first :: sextet2 first second :: sextet3 second third :: sextet4 third :: sextets rest
  end.

Lemma sextets_arith a b c :
  is_byte a -> is_byte b -> is_byte c ->
  sextet1 a = a / 4 /\ sextet2 a b = a mod 4 * 16 + b / 16
  /\ sextet3 b c = b mod 16 * 4 + c / 64 /\ sextet4 c = c mod 64.
Proof.
  unfold is_byte, sextet1, sextet2, sextet3, sextet4. intros Ha Hb Hc.
  change 0x03 with (2 ^ 2 - 1). change 0x0f with (2 ^ 4 - 1). change 0x3f with (2 ^ 6 - 1).
  rewrite !land_mask, !Z.shiftr_div_pow2, !lor_shiftl by
    (lia || (change (2 ^ 4) with 16; change (2 ^ 6) with 64; change (2 ^ 2) with 4;
             split; [apply Z.div_pos|apply Z.div_lt_upper_bound]; lia)).
  done.
Qed.

Lemma bytes_by_three (P : list Z -> Prop) :
  P [] -> (forall a, P [a]) -> (forall a b, P [a; b]) -> (forall a b c l, P l -> P (a :: b :: c :: l)) ->
  forall l, P l.
Proof.
  intros H0 H1 H2 H3. fix IH 1. intros [|a [|b [|c l]]]; [done..|]. apply H3, IH.
Qed.

Lemma sextets_spec input :
  Forall is_byte input ->
  digits 6 (sextets input)
  /\ exists p, 0 <= p < 6 /\ 6 * len (sextets input) = 8 * len input + p
     /\ value 6 (sextets input) = value 8 input * 2 ^ p.
Proof.
  induction input as [|a|a b|a b c l IH] using bytes_by_three; intros Hb.
  - split; [constructor|]. exists 0. done.
  - apply Forall_cons in Hb as [Ha _]. destruct (sextets_arith a 0 0 Ha ltac:(done) ltac:(done)) as (E1 & E2 & _).
    cbn [sextets]. rewrite E1, E2. unfold is_byte in *. pose proof (Z.div_mod a 4). pose proof (Z.mod_pos_bound a 4).
    split; [repeat constructor; lia|]. exists 4. split; [lia|]. split; [done|]. unfold value. cbn [fold_left]. lia.
  - apply Forall_cons in Hb as [Ha [Hb _]%Forall_cons].
    destruct (sextets_arith a b 0 Ha Hb ltac:(done)) as (E1 & E2 & E3 & _).
    cbn [sextets]. rewrite E1, E2, E3. unfold is_byte in *.
    pose proof (Z.div_mod a 4). pose proof (Z.mod_pos_bound a 4).
    pose proof (Z.div_mod b 16). pose proof (Z.mod_pos_bound b 16).
    split; [repeat constructor; lia|]. exists 2. split; [lia|]. split; [done|]. unfold value. cbn [fold_left]. lia.
  - apply Forall_cons in Hb as [Ha [Hb [Hc Hl]%Forall_cons]%Forall_cons].
    destruct (sextets_arith a b c Ha Hb Hc) as (E1 & E2 & E3 & E4). cbn [sextets]. rewrite E1, E2, E3, E4.
    destruct (IH Hl) as (Hd & p & Hp & Hlen & Hv). unfold is_byte in *.
    pose proof (Z.div_mod a 4). pose proof (Z.mod_pos_bound a 4).
    pose proof (Z.div_mod b 16). pose proof (Z.mod_pos_bound b 16).
    pose proof (Z.div_mod c 64). pose proof (Z.mod_pos_bound c 64).
    split; [repeat constructor; (done || lia)|]. exists p. split; [done|]. split; [unfold len in *; cbn [length] in *; lia|].
    change (_ :: _ :: _ :: _ :: ?t) with ([a / 4; a mod 4 * 16 + b / 16; b mod 16 * 4 + c / 64; c mod 64] ++ sextets l).
    change (a :: b :: c :: l) with ([a; b; c] ++ l). rewrite !value_app, Hv by lia.
    replace (6 * Z.of_nat (length (sextets l))) with (8 * Z.of_nat (length l) + p) by (unfold len in Hlen; lia).
    rewrite Z.pow_add_r by lia. unfold value at 1 3. cbn [fold_left].
    set (q := 2 ^ (8 * _)). set (r := 2 ^ p). set (v := value 8 l). 
    replace (((((0 * 2 ^ 6 + a / 4) * 2 ^ 6 + (a mod 4 * 16 + b / 16)) * 2 ^ 6 + (b mod 16 * 4 + c / 64)) * 2 ^ 6 + c mod 64))
      with (((0 * 2 ^ 8 + a) * 2 ^ 8 + b) * 2 ^ 8 + c) by lia. ring.
Qed.

Lemma encode_sextets input :
  Forall is_byte input ->
  exists k, encode_base64_bytes input = (alphabet <$> sextets input) ++ replicate k 61.
Proof.
  induction input as [|a|a b|a b c l IH] using bytes_by_three; intros Hb;
    [by exists 0%nat|by exists 2%nat|by exists 1%nat|].
  apply Forall_cons in Hb as [_ [_ [_ Hl]%Forall_cons]%Forall_cons].
  destruct (IH Hl) as [k Hk]. exists k. cbn. by rewrite Hk.
Qed.

Lemma trim_end_replicate c l k : Forall (fun b => b <> c) l -> trim_end c (l ++ replicate k c) = l.
Proof.
  intros Hl. induction Hl as [|b l Hb _ IH]; cbn.
  - induction k as [|k IHk]; [done|]. cbn. by rewrite IHk, Z.eqb_refl.
  - rewrite IH. destruct l; [|done]. by rewrite (proj2 (Z.eqb_neq b c)).
Qed.

(** The encoder of the provider and the decoder of the relay are inverse. *)
Theorem base64_roundtrip input : Forall is_byte input -> decode_base64 (encode_base64 input) = Ok input.
Proof.
  intros Hb. destruct (sextets_spec input Hb) as (Hd & p & Hp & Hlen & Hv). destruct (encode_sextets input Hb) as [k Hk].
  assert (Forall (fun n => base64_digit (alphabet n) = Some n /\ alphabet n <> 61 /\ is_byte (alphabet n)) (sextets input)) as Ha
    by (eapply Forall_impl; [exact Hd|]; intros; by apply alphabet_digit).
  apply decode_base64_spec. split; [done|]. unfold encode_base64. rewrite as_bytes_of_bytes.
  - rewrite Hk, trim_end_replicate.
    + rewrite (regroup_pad_unique 8 6 ltac:(lia) ltac:(lia) (sextets input) input p); [|done..].
      rewrite <- list_fmap_compose. apply list_fmap_ext. intros i x Hx.
      by apply (Forall_lookup_1 _ _ _ _ Ha) in Hx as [Hx _].
    + apply Forall_fmap. eapply Forall_impl; [exact Ha|]. by intros ? (_ & ? & _).
  - rewrite Hk. apply Forall_app. split; [|by apply Forall_replicate].
    apply Forall_fmap. eapply Forall_impl; [exact Ha|]. by intros ? (_ & _ & ?).
Qed.

(** The header carries the credential: reading the base64 text and splitting
    at the first colon gives back the configured name and password, because a
    name never contains a colon. *)
Theorem authorization_read_back username password auth :
  bitcoind_auth_new username password = Ok auth ->
  exists encoded bytes,
    authorization_value auth = "Basic " +:+ encoded /\ decode_base64 encoded = Ok bytes
    /\ split_once_bytes 58 bytes = Some (as_bytes username, as_bytes password).
Proof.
  unfold bitcoind_auth_new. intros H. run_inv. bool_to_prop. subst auth.
  eexists _, _. split; [done|]. split.
  - apply base64_roundtrip. apply Forall_app. split; [apply as_bytes_range|].
    constructor; [done|apply as_bytes_range].
  - apply split_once_bytes_Some. split; [done|]. intros Hin%mem_spec. congruence.
Qed.
