(* ===== verification/Wallet.v ===== *)
(** * Wallet: the keys of the provider

    [immortal-provider/src/wallet.rs]: reading the seed, the BIP-32 derivation
    of BIP-86 keys, Taproot addresses, the two kinds of signatures and the
    boundary of cooperative signing.

    SHA-512 and the Schnorr signer of the secp256k1 crate are the class
    [WalletCrypto]; the file system is what [stat], [open] and [read]
    returned. *)

From S2P Require Import Prelude Text Utf8 Hex Regroup Bech32 Event Wire Transaction Taproot Scalar Musig2.

Definition SEED_HEX_LENGTH : Z := 64.
Definition HMAC_SHA512_BLOCK_LENGTH : Z := 128.
Definition HARDENED_INDEX : Z := 2147483648.
Definition TAPROOT_PURPOSE : Z := 86.
Definition MAX_ACCOUNT_INDEX : Z := HARDENED_INDEX - 1.
Definition MAX_SEED_PATH_BYTES : Z := 4096.

Inductive WalletError : Type :=
| MissingSeedPath
| SeedPathEncoding
| SeedMetadata
| SeedSymlink
| SeedFileType
| SeedPermissions
| SeedRead
| SeedEncoding
| DerivationIndex
| DerivationKey
| AddressEncoding
| Randomness
| CooperativeSigning
| LiquidSigning.

#[export] Instance WalletError_eq_dec : EqDecision WalletError.
Proof. solve_decision. Defined.

(** [BitcoinNetwork] of the wallet. *)
Inductive WalletNetwork : Type := WalletMainnet | WalletTestnet | WalletSignet | WalletRegtest.

Definition coin_type (network : WalletNetwork) : Z :=
  match network with WalletMainnet => 0 | WalletTestnet | WalletSignet | WalletRegtest => 1 end.
Definition human_readable_part (network : WalletNetwork) : string :=
  match network with WalletMainnet => "bc" | WalletTestnet | WalletSignet => "tb" | WalletRegtest => "bcrt" end.

Record WalletPath : Type := mkPath { wp_account : Z; wp_change : bool; wp_address_index : Z }.

#[export] Instance WalletPath_eq_dec : EqDecision WalletPath.
Proof. solve_decision. Defined.

Definition wallet_path_new (account : Z) (change : bool) (address_index : Z) : result WalletError WalletPath :=
  if (MAX_ACCOUNT_INDEX <? account) || (MAX_ACCOUNT_INDEX <? address_index)
  then Err DerivationIndex
  else Ok (mkPath account change address_index).

Record TaprootAddress : Type := mkTaprootAddress {
  ta_path : WalletPath;
  ta_internal_key : list Z;
  ta_output_key : list Z;
  ta_script_pubkey : list Z;
  ta_address : string;
}.

Record WalletSignature : Type := mkWalletSignature { ws_public_key : list Z; ws_signature : list Z }.

Record ProviderWallet : Type := mkWallet { pw_seed : list Z; pw_network : WalletNetwork }.

(** ** The seed file *)

Definition lower_hex_value (byte : Z) : option Z :=
  if in_range 48 57 byte then Some (byte - 48)
  else if in_range 97 102 byte then Some (byte - 97 + 10)
  else None.

Fixpoint decode_pairs (l : list Z) : option (list Z) :=
  match l with
  | a :: b :: l' =>
      high ← lower_hex_value a; low ← lower_hex_value b; rest ← decode_pairs l';
      Some (Z.lor (Z.shiftl high 4) low :: rest)
  | _ => Some []
  end.
Definition decode_lower_hex_32 (encoded : list Z) : option (list Z) :=
  if negb (len encoded =? SEED_HEX_LENGTH) then None else decode_pairs encoded.

Record Metadata : Type := mkMetadata {
  md_symlink : bool; md_is_file : bool; md_mode : Z; md_len : Z; md_dev : Z; md_ino : Z
}.

(** What the calls on the path return: [symlink_metadata], then [open] with
    the metadata of the open file and its bytes. *)
Record SeedFile : Type := mkSeedFile {
  sf_metadata : option Metadata;
  sf_opened : option (option Metadata * option (list Z));
}.

Definition validate_seed_path (path : string) : result WalletError unit :=
  if (str_len path =? 0) || (MAX_SEED_PATH_BYTES <? str_len path)
     || existsb (fun byte => (byte =? 0) || is_ascii_control byte) (as_bytes path)
     || negb (starts_with "/" path)
  then Err SeedPathEncoding else Ok tt.

Definition validate_seed_permissions (metadata : Metadata) : result WalletError unit :=
  if negb (Z.land (md_mode metadata) 511 =? 384) then Err SeedPermissions else Ok tt.

Definition same_seed_file (before opened : Metadata) : bool :=
  (md_dev before =? md_dev opened) && (md_ino before =? md_ino opened).

Definition wallet_load (file : SeedFile) (network : WalletNetwork) : result WalletError ProviderWallet :=
  metadata ← ok_or SeedMetadata (sf_metadata file);
  if md_symlink metadata then Err SeedSymlink
  else if negb (md_is_file metadata) then Err SeedFileType
  else
  _ ← validate_seed_permissions metadata;
  if SEED_HEX_LENGTH + 1 <? md_len metadata then Err SeedEncoding
  else
  '(opened, bytes) ← ok_or SeedRead (sf_opened file);
  opened ← ok_or SeedMetadata opened;
  if negb (md_is_file opened) || negb (same_seed_file metadata opened) then Err SeedFileType
  else
  _ ← validate_seed_permissions opened;
  if SEED_HEX_LENGTH + 1 <? md_len opened then Err SeedEncoding
  else
  bytes ← ok_or SeedRead bytes;
  let encoded := take (Z.to_nat (SEED_HEX_LENGTH + 2)) bytes in
  let encoded := if bool_decide (last encoded = Some 10) then removelast encoded else encoded in
  if negb (len encoded =? SEED_HEX_LENGTH) then Err SeedEncoding
  else
  seed ← ok_or SeedEncoding (decode_lower_hex_32 encoded);
  Ok (mkWallet seed network).

(** ** Addresses *)

(** [convert_bits], with the accumulator masked to the bits that can be
    pending. *)
Definition convert_step (from_bits to_bits : Z) (st : Z * Z * list Z) (value : Z)
    : result WalletError (Z * Z * list Z) :=
  let '(accumulator, bit_count, output) := st in
  if negb (Z.shiftr value from_bits =? 0) then Err AddressEncoding
  else
  let maximum_accumulator := Z.shiftl 1 (from_bits + to_bits - 1) - 1 in
  let accumulator := Z.land (Z.lor (shl32 accumulator from_bits) value) maximum_accumulator in
  let bit_count := bit_count + from_bits in
  let '(bit_count, output) := drain (Z.to_nat bit_count) to_bits accumulator bit_count output in
  Ok (accumulator, bit_count, output).

Definition wallet_convert_bits (input : list Z) (from_bits to_bits : Z) (pad : bool)
    : result WalletError (list Z) :=
  let maximum_value := Z.shiftl 1 to_bits - 1 in
  '(accumulator, bit_count, output) ← try_fold (convert_step from_bits to_bits) (0, 0, []) input;
  if pad && (0 <? bit_count)
  then Ok (output ++ [Z.land (shl32 accumulator (to_bits - bit_count)) maximum_value])
  else if (from_bits <=? bit_count)
          || negb (Z.land (shl32 accumulator (to_bits - bit_count)) maximum_value =? 0)
  then Err AddressEncoding
  else Ok output.

Definition wallet_polymod (values : list Z) : Z :=
  fold_left (fun checksum value =>
    let top := Z.shiftr checksum 25 in
    mix top 0 [0x3b6a57b2; 0x26508e6d; 0x1ea119fa; 0x3d4233dd; 0x2a1462b3]
      (Z.lxor (shl32 (Z.land checksum 0x1ffffff) 5) value)) values 1.

Definition bech32m_checksum (hrp : string) (values : list Z) : list Z :=
  let expanded := ((fun byte => Z.shiftr byte 5) <$> as_bytes hrp) ++ [0]
                  ++ ((fun byte => Z.land byte 31) <$> as_bytes hrp) ++ values ++ replicate 6 0 in
  let polymod := Z.lxor (wallet_polymod expanded) 0x2bc830a3 in
  (fun position => Z.land (Z.shiftr polymod (5 * (5 - position))) 31) <$> [0; 1; 2; 3; 4; 5].

Definition encode_segwit_v1_address (hrp : string) (program : list Z) : result WalletError string :=
  words ← wallet_convert_bits program 8 5 true;
  let values := 1 :: words in
  let values := values ++ bech32m_checksum hrp values in
  characters ← try_map (fun value => ok_or AddressEncoding (CHARSET !! Z.to_nat value)) values;
  Ok (hrp +:+ "1" +:+ of_bytes characters).

(** ** Key derivation *)

(** [Sha512::digest] and [sign_schnorr_no_aux_rand] of a message under a
    secret key. *)
Class WalletCrypto : Type := {
  sha512 : list Z -> list Z;
  sign_schnorr_no_aux_rand : list Z -> Z -> list Z;
}.

Section wallet.
Context `{EventCrypto, TweakAdd, Secp256k1, WalletCrypto}.

Definition hmac_sha512 (key message : list Z) : list Z :=
  let key := if HMAC_SHA512_BLOCK_LENGTH <? len key then sha512 key else key in
  let normalized_key := key ++ replicate (Z.to_nat (HMAC_SHA512_BLOCK_LENGTH - len key)) 0 in
  let inner_pad := (fun byte => Z.lxor 0x36 byte) <$> normalized_key in
  let outer_pad := (fun byte => Z.lxor 0x5c byte) <$> normalized_key in
  sha512 (outer_pad ++ sha512 (inner_pad ++ message)).

Record ExtendedPrivateKey : Type := mkExtended { xk_secret_key : Z; xk_chain_code : list Z }.

Definition master (seed : list Z) : result WalletError ExtendedPrivateKey :=
  let digest := hmac_sha512 (as_bytes "Bitcoin seed") seed in
  secret_key ← ok_or DerivationKey (sk_from_byte_array (take 32 digest));
  Ok (mkExtended secret_key (drop 32 digest)).

Definition derive_child (key : ExtendedPrivateKey) (index : Z) : result WalletError ExtendedPrivateKey :=
  let data := (if negb (Z.land index HARDENED_INDEX =? 0)
               then 0 :: sk_secret_bytes (xk_secret_key key)
               else pk_serialize (from_secret_key (xk_secret_key key))) ++ be_bytes 4 index in
  let digest := hmac_sha512 (xk_chain_code key) data in
  tweak ← ok_or DerivationKey (scalar_from_be_bytes (take 32 digest));
  secret_key ← ok_or DerivationKey (sk_add_tweak (xk_secret_key key) tweak);
  Ok (mkExtended secret_key (drop 32 digest)).

Definition derive_bip86_key (w : ProviderWallet) (path : WalletPath) : result WalletError Z :=
  let indexes := [Z.lor TAPROOT_PURPOSE HARDENED_INDEX; Z.lor (coin_type (pw_network w)) HARDENED_INDEX;
                  Z.lor (wp_account path) HARDENED_INDEX; (if wp_change path then 1 else 0);
                  wp_address_index path] in
  key ← master (pw_seed w);
  key ← try_fold derive_child key indexes;
  Ok (xk_secret_key key).

Definition derive_even_key (w : ProviderWallet) (path : WalletPath) : result WalletError Z :=
  secret_key ← derive_bip86_key w path;
  Ok (match (x_only_public_key (from_secret_key secret_key)).2 with
      | Odd => sk_negate secret_key | Even => secret_key end).

Definition derive_address (w : ProviderWallet) (path : WalletPath) : result WalletError TaprootAddress :=
  derived_key ← derive_bip86_key w path;
  let '(internal_key, parity) := x_only_public_key (from_secret_key derived_key) in
  tweak ← ok_or DerivationKey (scalar_from_be_bytes (tagged_hash "TapTweak" internal_key));
  '(output_key, _) ← ok_or DerivationKey (add_tweak internal_key tweak);
  let script_pubkey := 0x51 :: 0x20 :: output_key in
  address ← encode_segwit_v1_address (human_readable_part (pw_network w)) output_key;
  let normalized_key := match parity with Odd => sk_negate derived_key | Even => derived_key end in
  tweaked_key ← ok_or DerivationKey (sk_add_tweak normalized_key tweak);
  if negb (bool_decide ((x_only_public_key (from_secret_key tweaked_key)).1 = output_key))
  then Err DerivationKey
  else Ok (mkTaprootAddress path internal_key output_key script_pubkey address).

(** ** Signatures *)

Definition sign_digest (secret_key : Z) (sighash : list Z) : WalletSignature :=
  mkWalletSignature (x_only_public_key (from_secret_key secret_key)).1
    (sign_schnorr_no_aux_rand sighash secret_key).

Definition sign_script_path (w : ProviderWallet) (path : WalletPath) (sighash : list Z)
    : result WalletError WalletSignature :=
  secret_key ← derive_bip86_key w path;
  Ok (sign_digest secret_key sighash).

Definition sign_key_path (w : ProviderWallet) (path : WalletPath) (sighash : list Z)
    : result WalletError WalletSignature :=
  secret_key ← derive_bip86_key w path;
  let '(internal_key, parity) := x_only_public_key (from_secret_key secret_key) in
  tweak ← ok_or DerivationKey (scalar_from_be_bytes (tagged_hash "TapTweak" internal_key));
  let normalized_key := match parity with Odd => sk_negate secret_key | Even => secret_key end in
  tweaked_key ← ok_or DerivationKey (sk_add_tweak normalized_key tweak);
  Ok (sign_digest tweaked_key sighash).

Record WalletMusig2Nonce : Type := mkWalletNonce {
  wn_path : WalletPath;
  wn_context_digest : list Z;
  wn_keys : list PublicKey;
  wn_tweaks : list Musig2Tweak;
  wn_message : list Z;
  wn_secret_nonce : Musig2SecretNonce;
}.

(** [randomness] is what [operating_system_randomness] returns. *)
Definition begin_cooperative_signing (w : ProviderWallet) (path : WalletPath) (context_digest : list Z)
    (keys : list PublicKey) (tweaks : list Musig2Tweak) (message : list Z) (randomness : option (list Z))
    : result WalletError WalletMusig2Nonce :=
  secret_key ← derive_even_key w path;
  aggregate_key ← map_err (fun _ => CooperativeSigning) (musig2_tweaked_aggregate_key keys tweaks);
  randomness ← ok_or Randomness randomness;
  secret_nonce ← map_err (fun _ => CooperativeSigning)
                   (musig2_nonce_gen secret_key aggregate_key message context_digest randomness);
  Ok (mkWalletNonce path context_digest keys tweaks message secret_nonce).

Definition sign_cooperative_partial (w : ProviderWallet) (nonce : WalletMusig2Nonce)
    (context_digest : list Z) (public_nonces : list (list Z))
    : WalletMusig2Nonce * result WalletError (list Z) :=
  if negb (bool_decide (wn_context_digest nonce = context_digest)) then (nonce, Err CooperativeSigning)
  else
  match derive_even_key w (wn_path nonce) with
  | Err e => (nonce, Err e)
  | Ok secret_key =>
      let '(secret_nonce, outcome) :=
        musig2_partial_sign (wn_secret_nonce nonce) secret_key (wn_keys nonce) public_nonces
          (wn_tweaks nonce) (wn_message nonce) in
      (mkWalletNonce (wn_path nonce) (wn_context_digest nonce) (wn_keys nonce) (wn_tweaks nonce)
         (wn_message nonce) secret_nonce, map_err (fun _ => CooperativeSigning) outcome)
  end.
End wallet.
