(* ===== verification/WalletCorrect.v ===== *)
(** * WalletCorrect: addresses and signatures of the wallet agree

    [address_spendable]: an address the wallet derives is accepted by the
    verifier's parser as the script it stands for, its key is the verifier's
    Taproot output key, and the wallet's own key-path signatures verify under
    it.  [cooperative_nonce_once]: whatever calls are made with a cooperative
    nonce, one partial signature at most is released, and only for the context
    the nonce was made for. *)

From S2P Require Import Prelude Text Utf8 Hex Regroup Bech32 Event Wire Transaction Cost Taproot Scalar CurveOrder Musig2 Musig2Correct Invoice Wallet.

(** ** Bit conversion *)

Lemma convert_step_spec input acc bits out v :
  pending 8 5 input (acc, bits, out) -> bits < 5 -> 0 <= v < 2 ^ 8 ->
  exists st, convert_step 8 5 (acc, bits, out) v = Ok st /\ pending 8 5 (input ++ [v]) st /\ st.1.2 < 5.
Proof.
  intros Hp Hbits Hv. unfold convert_step.
  rewrite Z.shiftr_div_pow2, Z.div_small by lia. cbn [negb Z.eqb].
  change (Z.shiftl 1 (8 + 5 - 1) - 1) with (2 ^ 12 - 1). rewrite land_mask by lia.
  pose proof Hp as (_ & _ & Hb & _).
  pose proof (accumulate_spec 8 5 ltac:(lia) ltac:(lia) input acc bits out v 12 Hp Hbits Hv ltac:(lia)) as Ha.
  set (acc' := _ mod 2 ^ 12) in *.
  pose proof (drain_spec 8 5 ltac:(lia) (Z.to_nat (bits + 8)) (input ++ [v]) acc' (bits + 8) out Ha ltac:(lia)) as Hd.
  destruct (drain _ _ _ _ _) as [bits' out']. destruct Hd as [Hd Hlt]. eexists. split; [done|]. by split.
Qed.

Lemma convert_fold input rest st :
  pending 8 5 input st -> st.1.2 < 5 -> Forall is_byte rest ->
  exists st', try_fold (convert_step 8 5) st rest = Ok st' /\ pending 8 5 (input ++ rest) st' /\ st'.1.2 < 5.
Proof.
  revert input st. induction rest as [|v rest IH]; intros input st Hp Hlt Hr; cbn [try_fold].
  - exists st. by rewrite app_nil_r.
  - apply Forall_cons in Hr as [Hv Hr]. destruct st as [[acc bits] out].
    destruct (convert_step_spec input acc bits out v Hp Hlt Hv) as (st1 & Hs & Hp1 & Hlt1). rewrite Hs. cbn [mbind result_bind].
    destruct (IH _ _ Hp1 Hlt1 Hr) as (st' & Hf & Hp' & Hlt'). exists st'. by rewrite <- app_assoc in Hp'.
Qed.

(** The masked loop of the wallet is the padded regrouping of bech32. *)
Lemma wallet_convert_bits_eq input :
  Forall is_byte input -> wallet_convert_bits input 8 5 true = Ok (to_words input).
Proof.
  intros Hin. unfold wallet_convert_bits.
  assert (pending 8 5 [] (0, 0, [])) as H0 by (split_and!; (done || lia || constructor)).
  destruct (convert_fold [] input (0, 0, []) H0 ltac:(done) Hin) as ([[acc bits] out] & -> & Hp & Hlt).
  cbn [mbind result_bind app fst snd] in *. destruct Hp as (Hacc & Hlen & Hb & Hd & Hv).
  change (Z.shiftl 1 5 - 1) with (2 ^ 5 - 1). rewrite !land_mask by lia.
  assert (shl32 acc (5 - bits) mod 2 ^ 5 = acc mod 2 ^ bits * 2 ^ (5 - bits)) as Hlow.
  { unfold shl32, wrap32. rewrite Z.shiftl_mul_pow2 by lia.
    rewrite <- (Znumtheory.Zmod_div_mod (2 ^ 5) (2 ^ 32)) by (lia || (exists (2 ^ 27); done)).
    replace 5 with (bits + (5 - bits)) at 2 by lia. rewrite Z.pow_add_r by lia. by rewrite Z.mul_mod_distr_r by lia. }
  rewrite Hlow. cbn [andb]. destruct (Z.ltb_spec 0 bits) as [Hpos|Hz].
  - f_equal. symmetry. apply (regroup_pad_unique 8 5 ltac:(lia) ltac:(lia) _ input (5 - bits)); try (done || lia).
    + apply Forall_app. split; [done|]. apply Forall_singleton. rewrite <- Hlow. apply Z.mod_pos_bound. lia.
    + rewrite length_app. cbn [length]. lia.
    + rewrite value_snoc, Hv. replace 5 with (bits + (5 - bits)) at 2 by lia. rewrite Z.pow_add_r by lia. ring.
  - assert (bits = 0) as -> by lia. rewrite Z.mod_1_r. cbn [negb Z.eqb Z.mul orb Z.leb Z.compare]. f_equal. symmetry.
    apply (regroup_pad_unique 8 5 ltac:(lia) ltac:(lia) _ input 0); try (done || lia).
Qed.

(** ** Addresses *)

(** The checksum of the wallet makes the whole a bech32m word. *)
Lemma bech32m_checksum_spec hrp values :
  digits 5 values ->
  digits 5 (bech32m_checksum hrp values) /\ length (bech32m_checksum hrp values) = 6%nat
  /\ polymod (expand_prefix hrp) (values ++ bech32m_checksum hrp values) = 0x2bc830a3.
Proof.
  intros Hd. pose proof (expand_prefix_digits hrp) as He.
  set (P := polymod (expand_prefix hrp) (values ++ [0; 0; 0; 0; 0; 0])).
  assert (digits 5 (bech32m_checksum hrp values) /\ length (bech32m_checksum hrp values) = 6%nat
          /\ value 5 (bech32m_checksum hrp values) = Z.lxor P 0x2bc830a3) as (Hc & Hl & Hv).
  { assert (wallet_polymod (((fun byte => Z.shiftr byte 5) <$> as_bytes hrp) ++ [0]
              ++ ((fun byte => Z.land byte 31) <$> as_bytes hrp) ++ values ++ replicate 6 0) = P) as HP.
    { unfold P, polymod, expand_prefix. by rewrite <- !app_assoc. }
    unfold bech32m_checksum. rewrite HP. apply six_digits. apply lxor_bound; [lia| |lia].
    apply polymod_bound; [lia|]. apply Forall_app. split; [done|].
    apply Forall_app. split; [done|]. repeat constructor; lia. }
  split; [done|]. split; [done|]. rewrite polymod_six by done. fold P. rewrite Hv. xor_ring.
Qed.

Definition network_of (n : WalletNetwork) : BitcoinNetwork :=
  match n with WalletMainnet => Bitcoin | WalletTestnet | WalletSignet => Testnet | WalletRegtest => Regtest end.

Lemma encode_segwit_v1_eq hrp program :
  Forall is_byte program ->
  encode_segwit_v1_address hrp program
  = Ok (hrp +:+ "1" +:+ of_bytes (charset_at <$> ((1 :: to_words program) ++ bech32m_checksum hrp (1 :: to_words program)))).
Proof.
  intros Hp. unfold encode_segwit_v1_address. rewrite wallet_convert_bits_eq by done. cbn [mbind result_bind].
  assert (digits 5 (1 :: to_words program)) as Hd by (constructor; [lia|by apply to_words_digits]).
  destruct (bech32m_checksum_spec hrp _ Hd) as (Hc & _).
  set (values := _ ++ _). assert (digits 5 values) as Hv by (by apply Forall_app).
  assert (try_map (fun value => ok_or AddressEncoding (CHARSET !! Z.to_nat value)) values = Ok (charset_at <$> values)) as ->;
    [|done].
  apply try_map_Ok_Forall2. apply Forall2_fmap_r, Forall_Forall2_diag. eapply Forall_impl; [exact Hv|].
  intros v Hr. unfold compose. cbn beta in *.
  destruct (CHARSET !! Z.to_nat v) as [c|] eqn:Hl; [by apply (nth_lookup_Some _ _ 0) in Hl; unfold charset_at; rewrite Hl|].
  apply lookup_ge_None in Hl. change (length CHARSET) with 32%nat in Hl. lia.
Qed.

Lemma to_words_32 program : bytes32 program -> length (to_words program) = 52%nat.
Proof.
  intros [Hl Hb]. destruct (regroup_pad_spec 8 5 ltac:(lia) ltac:(lia) program Hb) as (p & Hp & Hlen & _).
  unfold to_words. rewrite Hl in Hlen. lia.
Qed.

(** The parser of the verifier reads back an address of the wallet. *)
Lemma segwit_v1_parsed network program address :
  bytes32 program -> encode_segwit_v1_address (human_readable_part network) program = Ok address ->
  parse_segwit_address address
  = Ok (mkSegwit (network_of network) 1 program (0x51 :: 0x20 :: program)).
Proof.
  intros [Hl Hb]. set (hrp := human_readable_part network). rewrite encode_segwit_v1_eq by done. intros Heq%Ok_inj. subst address.
  assert (digits 5 (1 :: to_words program)) as Hd by (constructor; [lia|by apply to_words_digits]).
  destruct (bech32m_checksum_spec hrp _ Hd) as (Hc & Hcl & Hpoly).
  set (words := (1 :: to_words program) ++ bech32m_checksum hrp (1 :: to_words program)) in *.
  assert (digits 5 words) as Hw by (by apply Forall_app).
  destruct (charset_bytes_ok words Hw) as (Hup & Hno & Hascii).
  set (text := hrp +:+ "1" +:+ of_bytes (charset_at <$> words)).
  assert (as_bytes text = text_bytes (as_bytes hrp) words) as Ht.
  { unfold text, text_bytes. rewrite !as_bytes_app, as_bytes_of_bytes; [done|by apply ascii_bytes]. }
  assert (no_upper (as_bytes hrp) /\ Forall (fun b => 0 <= b < 128) (as_bytes hrp)
          /\ 2 <= len (as_bytes hrp) <= 4 /\ segwit_network hrp = Some (network_of network)) as (Hhu & Hha & Hhl & Hnet).
  { unfold hrp. destruct network; vm_compute; repeat (constructor || done). }
  assert (length words = 59%nat) as Hlen by (unfold words; rewrite length_app, Hcl; cbn [length]; by rewrite to_words_32).
  destruct (text_bytes_ok (as_bytes hrp) words Hw Hhu Hha) as (Htu & Hta & Hfind).
  unfold parse_segwit_address. unfold str_len. rewrite Ht.
  assert (len (text_bytes (as_bytes hrp) words) = len (as_bytes hrp) + 60) as Htl.
  { unfold text_bytes, len. rewrite length_app. cbn [length]. rewrite length_fmap, Hlen. lia. }
  fold (len (text_bytes (as_bytes hrp) words)). rewrite Htl. decide_if. rewrite (proj2 (is_ascii_spec text)) by (rewrite Ht; eapply Forall_impl; [exact Hta|]; cbn; intros; lia).
  cbn [negb orb].
  rewrite no_upper_existsb by done. rewrite Hfind. cbn [ok_or mbind result_bind]. unfold text_bytes.
  rewrite take_app_length, of_bytes_as_bytes, Hnet. cbn [ok_or mbind result_bind].
  change (49 :: ?l) with ([49] ++ l). rewrite app_assoc, drop_app_length' by (rewrite length_app; cbn; lia).
  rewrite (proj2 (bech32_words_Ok _ words) (conj eq_refl Hw)). cbn [mbind result_bind].
  rewrite bech32_polymod_eq, Hpoly. unfold len. rewrite Hlen. cbn [Z.of_nat Z.ltb].
  change (nth 0 words 0) with 1. cbn [Z.ltb Z.compare Z.eqb negb andb orb Pos.compare].
  change (Z.of_nat 59 <? 7) with false. change (734539939 =? 734539939) with true. cbn [negb].
  assert (take (59 - 7) (drop 1 words) = to_words program) as ->.
  { unfold words. cbn [app drop skipn]. rewrite drop_0. apply take_app_length'. by rewrite to_words_32. }
  rewrite convert_bits_strict by (lia || by apply to_words_digits).
  pose proof (from_to_words program Hb) as Hft. unfold from_words in Hft.
  destruct (regroup_strict 5 8 (to_words program)) as [x|]; [|done]. injection Hft as ->.
  cbn [ok_or mbind result_bind]. rewrite Hl. unfold len in Hhl.
  rewrite (proj2 (Z.ltb_ge (_ + 60) 8)), (proj2 (Z.ltb_ge 90 (_ + 60))) by lia. reflexivity.
Qed.

(** ** Keys and signatures *)

(** Documented behaviour of SHA-512 and of the signer: digests have 64 bytes,
    and a signature verifies under the x-only key of its secret. *)
Class WalletCryptoLaws `{EventCrypto, Secp256k1, WalletCrypto} : Prop := {
  sha512_length m : length (sha512 m) = 64%nat;
  sha512_bytes m : Forall is_byte (sha512 m);
  sign_length m k : secret k -> length (sign_schnorr_no_aux_rand m k) = 64%nat;
  sign_bytes m k : secret k -> Forall is_byte (sign_schnorr_no_aux_rand m k);
  sign_verifies m k : secret k ->
    verify_schnorr (sign_schnorr_no_aux_rand m k) m (x_only_public_key (from_secret_key k)).1 = true;
  (** what a key serializes to is read back *)
  xonly_of_key P : xonly_public_key (x_only_public_key P).1 = true;
}.

Section keys.
Context `{EventCrypto, TweakAdd, Secp256k1, WalletCrypto}.
Context `{!Sha256Digest, !ScalarBytes, !Secp256k1Laws, !TweakAddLaws, !WalletCryptoLaws}.

Lemma hmac_halves key m :
  bytes32 (take 32 (hmac_sha512 key m)) /\ bytes32 (drop 32 (hmac_sha512 key m)).
Proof.
  unfold hmac_sha512. set (d := sha512 _). 
  assert (length d = 64%nat /\ Forall is_byte d) as [Hl Hb] by (split; [apply sha512_length|apply sha512_bytes]).
  split; (split; [rewrite ?length_take, ?length_drop, Hl; done|]); [by apply Forall_take|by apply Forall_drop].
Qed.

Lemma scalar_of_bytes l t :
  bytes32 l -> scalar_from_be_bytes l = Some t -> 0 <= t < CURVE_ORDER.
Proof.
  intros Hl. rewrite scalar_from_be_bytes_eq by done. pose proof (bytes32_range l Hl).
  destruct (Z.ltb_spec (be_value l) CURVE_ORDER); [|done]. intros [= <-]. lia.
Qed.

Lemma secret_of_secret z k : secret_of z = Some k -> secret k.
Proof.
  unfold secret_of, secret. destruct (Z.eqb_spec (z mod CURVE_ORDER) 0); [done|]. intros [= <-].
  pose proof (mod_range z). lia.
Qed.

Lemma derive_child_secret key index key' :
  secret (xk_secret_key key) -> derive_child key index = Ok key' -> secret (xk_secret_key key').
Proof.
  intros Hs. unfold derive_child. intros Hr.
  apply bind_Ok in Hr as (tweak & Ht%ok_or_Ok & Hr). apply bind_Ok in Hr as (k & Hk%ok_or_Ok & [= <-]).
  apply scalar_of_bytes in Ht; [|apply hmac_halves]. rewrite sk_add_tweak_eq in Hk by done.
  by apply secret_of_secret in Hk.
Qed.

Lemma derive_bip86_secret w path k : derive_bip86_key w path = Ok k -> secret k.
Proof.
  unfold derive_bip86_key. intros Hr. apply bind_Ok in Hr as (m & Hm & Hr).
  apply bind_Ok in Hr as (key & Hf & [= <-]). unfold master in Hm.
  apply bind_Ok in Hm as (s & Hs%ok_or_Ok & [= <-]).
  rewrite sk_from_byte_array_eq in Hs by apply hmac_halves.
  assert (secret s) as Hsec.
  { destruct (_ && _) eqn:Hb; [|done]. injection Hs as <-. unfold secret. bool_to_prop. lia. }
  clear Hs. revert Hf. set (start := mkExtended s _). assert (secret (xk_secret_key start)) as Hst by done. clearbody start.
  generalize ([Z.lor TAPROOT_PURPOSE HARDENED_INDEX; Z.lor (coin_type (pw_network w)) HARDENED_INDEX;
                  Z.lor (wp_account path) HARDENED_INDEX; (if wp_change path then 1 else 0); wp_address_index path]).
  intros l. revert start Hst. induction l as [|i l IH]; intros start Hst Hf; cbn [try_fold] in Hf.
  - injection Hf as <-. done.
  - apply bind_Ok in Hf as (next & Hn & Hf). eapply IH; [|exact Hf]. by eapply derive_child_secret.
Qed.

(** The secret with the even public key of the same coordinate. *)
Definition even_secret (k : Z) : Z :=
  match (x_only_public_key (from_secret_key k)).2 with Odd => sk_negate k | Even => k end.

Lemma even_secret_spec k :
  secret k -> secret (even_secret k)
  /\ x_only_public_key (from_secret_key (even_secret k)) = ((x_only_public_key (from_secret_key k)).1, Even).
Proof.
  intros Hk. unfold even_secret. destruct (x_only_public_key (from_secret_key k)) as [x p] eqn:Hx. cbn [fst snd].
  destruct p; [by split|]. rewrite sk_negate_eq by done. split; [by apply secret_inverse|].
  rewrite <- pk_negate_eq, x_only_negate, Hx by done. done.
Qed.

(** The tweaked secret signs for the tweaked key. *)
Lemma tweaked_secret k t :
  secret k -> 0 <= t < CURVE_ORDER ->
  add_tweak (x_only_public_key (from_secret_key k)).1 t
  = (fun s => x_only_public_key (from_secret_key s)) <$> sk_add_tweak (even_secret k) t.
Proof.
  intros Hk Ht. destruct (even_secret_spec k Hk) as [He Hx].
  rewrite (add_tweak_eq (even_secret k) _ t He Hx Ht), sk_add_tweak_eq by done.
  unfold point_of, secret_of. by destruct (_ =? 0).
Qed.

(** An address and the secret of its output key. *)
Definition key_of (w : ProviderWallet) (path : WalletPath) : result WalletError (list Z * Z) :=
  k ← derive_bip86_key w path;
  let x := (x_only_public_key (from_secret_key k)).1 in
  tweak ← ok_or DerivationKey (scalar_from_be_bytes (tagged_hash "TapTweak" x));
  s ← ok_or DerivationKey (sk_add_tweak (even_secret k) tweak);
  Ok (x, s).

Lemma key_of_inv w path x s :
  key_of w path = Ok (x, s) ->
  secret s /\ bytes32 x
  /\ exists k parity, derive_bip86_key w path = Ok k /\ secret k /\ (x_only_public_key (from_secret_key k)).1 = x
       /\ taproot_output_key x None = Ok ((x_only_public_key (from_secret_key s)).1, parity).
Proof.
  unfold key_of. intros Hr. apply bind_Ok in Hr as (k & Hk & Hr).
  apply bind_Ok in Hr as (t & Ht%ok_or_Ok & Hr). apply bind_Ok in Hr as (s' & Hs%ok_or_Ok & [= <- <-]).
  pose proof (derive_bip86_secret _ _ _ Hk) as Hsec.
  pose proof (scalar_of_bytes _ _ (tagged_hash_bytes32 _ _) Ht) as Htr.
  split; [|split; [apply x_only_bytes|]].
  - destruct (even_secret_spec k Hsec) as [He _]. rewrite sk_add_tweak_eq in Hs by done. by eapply secret_of_secret.
  - exists k. pose proof (tweaked_secret k t Hsec Htr) as Hadd. rewrite Hs in Hadd. cbn [fmap option_fmap option_map] in Hadd.
    exists (x_only_public_key (from_secret_key s')).2. split; [done|]. split; [done|]. split; [done|].
    unfold taproot_output_key. cbn [default from_option]. rewrite app_nil_r, Ht. cbn [ok_or mbind result_bind].
    rewrite Hadd. cbn [ok_or]. by rewrite <- surjective_pairing.
Qed.

(** Deriving an address never fails on its own consistency check. *)
Lemma derive_address_eq w path :
  derive_address w path =
  '(x, s) ← key_of w path;
  let out := (x_only_public_key (from_secret_key s)).1 in
  address ← encode_segwit_v1_address (human_readable_part (pw_network w)) out;
  Ok (mkTaprootAddress path x out (0x51 :: 0x20 :: out) address).
Proof.
  unfold derive_address, key_of. destruct (derive_bip86_key w path) as [k|e] eqn:Hk; [|done]. cbn [mbind result_bind].
  pose proof (derive_bip86_secret _ _ _ Hk) as Hsec. unfold even_secret at 1.
  pose proof (fun t => tweaked_secret k t Hsec) as Htw. unfold even_secret in Htw.
  destruct (x_only_public_key (from_secret_key k)) as [x parity]. cbn [fst snd] in *.
  destruct (scalar_from_be_bytes _) as [t|] eqn:Ht; [|done]. cbn [ok_or mbind result_bind].
  rewrite Htw by (eapply scalar_of_bytes; [apply tagged_hash_bytes32|exact Ht]).
  destruct (sk_add_tweak (match parity with Odd => sk_negate k | Even => k end) t) as [s|] eqn:Hs; [|done].
  cbn [fmap option_fmap option_map ok_or mbind result_bind].
  destruct (x_only_public_key (from_secret_key s)) as [out q] eqn:Hout. cbn [mbind result_bind fst].
  destruct (encode_segwit_v1_address _ out) as [address|e]; [|done]. cbn [mbind result_bind ok_or].
  cbn [mbind result_bind ok_or]. by rewrite bool_decide_eq_true_2.
Qed.

Lemma sign_key_path_eq w path sighash :
  sign_key_path w path sighash = '(x, s) ← key_of w path; Ok (sign_digest s sighash).
Proof.
  unfold sign_key_path, key_of, even_secret. destruct (derive_bip86_key w path) as [k|e]; [|done]. cbn [mbind result_bind].
  destruct (x_only_public_key (from_secret_key k)) as [x parity]. cbn [fst snd].
  destruct (scalar_from_be_bytes _) as [t|]; [|done]. cbn [ok_or mbind result_bind].
  by destruct (sk_add_tweak _ t).
Qed.

Lemma derive_address_inv w path a :
  derive_address w path = Ok a ->
  exists s, key_of w path = Ok (ta_internal_key a, s) /\ secret s /\ ta_path a = path
  /\ ta_output_key a = (x_only_public_key (from_secret_key s)).1
  /\ ta_script_pubkey a = 0x51 :: 0x20 :: ta_output_key a
  /\ encode_segwit_v1_address (human_readable_part (pw_network w)) (ta_output_key a) = Ok (ta_address a).
Proof.
  rewrite derive_address_eq. intros Hr. apply bind_Ok in Hr as ([x s] & Hk & Hr).
  apply bind_Ok in Hr as (address & Ha & [= <-]). exists s. cbn.
  by destruct (key_of_inv _ _ _ _ Hk) as (Hs & _).
Qed.

(** C22: the wallet can spend every address it derives, and nobody reads the
    address otherwise: its key is the output key the verifier
    computes from the internal key without a script tree, the verifier's
    parser reads the address as exactly the script of that key on the wallet's
    network, every key-path signature the wallet makes for the path verifies
    under the output key, and every script-path signature under the internal
    key. *)
Theorem address_spendable w path a :
  derive_address w path = Ok a ->
  (exists parity, taproot_output_key (ta_internal_key a) None = Ok (ta_output_key a, parity))
  /\ parse_segwit_address (ta_address a)
     = Ok (mkSegwit (network_of (pw_network w)) 1 (ta_output_key a) (ta_script_pubkey a))
  /\ forall sighash, exists ks ss,
       sign_key_path w path sighash = Ok ks /\ ws_public_key ks = ta_output_key a
       /\ length (ws_signature ks) = 64%nat
       /\ verify_schnorr (ws_signature ks) sighash (ta_output_key a) = true
       /\ sign_script_path w path sighash = Ok ss /\ ws_public_key ss = ta_internal_key a
       /\ verify_schnorr (ws_signature ss) sighash (ta_internal_key a) = true.
Proof.
  intros (s & Hk & Hs & _ & Ho & Hscript & Haddr)%derive_address_inv.
  destruct (key_of_inv _ _ _ _ Hk) as (_ & Hx & k & parity & Hder & Hsec & Hkx & Htap). rewrite <- Ho in Htap.
  split; [by exists parity|]. split.
  - rewrite Hscript. apply segwit_v1_parsed; [|done]. rewrite Ho. apply x_only_bytes.
  - intros sighash. exists (sign_digest s sighash), (sign_digest k sighash).
    rewrite sign_key_path_eq, Hk. unfold sign_script_path. rewrite Hder. cbn [mbind result_bind sign_digest ws_public_key ws_signature].
    split; [done|]. split; [done|]. split; [by apply sign_length|]. split; [rewrite Ho; by apply sign_verifies|].
    split; [done|]. split; [done|]. rewrite <- Hkx. by apply sign_verifies.
Qed.
End keys.

(** ** Cooperative signing *)

Section cooperative.
Context `{EventCrypto, TweakAdd, Secp256k1, WalletCrypto}.

(** Calls on one nonce: the context each names and the public nonces. *)
Fixpoint cooperate (w : ProviderWallet) (nonce : WalletMusig2Nonce) (calls : list (list Z * list (list Z)))
    : WalletMusig2Nonce * list (result WalletError (list Z)) :=
  match calls with
  | [] => (nonce, [])
  | (context, nonces) :: calls =>
      let '(nonce, outcome) := sign_cooperative_partial w nonce context nonces in
      let '(nonce, outcomes) := cooperate w nonce calls in
      (nonce, outcome :: outcomes)
  end.

Lemma sign_cooperative_state w nonce context nonces :
  let '(nonce', outcome) := sign_cooperative_partial w nonce context nonces in
  wn_context_digest nonce' = wn_context_digest nonce
  /\ ((wn_secret_nonce nonce' = wn_secret_nonce nonce /\ is_ok outcome = false)
      \/ (context = wn_context_digest nonce /\ sn_consumed (wn_secret_nonce nonce) = false
          /\ sn_consumed (wn_secret_nonce nonce') = true)).
Proof.
  unfold sign_cooperative_partial. case_bool_decide as Hctx; cbn [negb]; [|by split; [|left]].
  destruct (derive_even_key w (wn_path nonce)) as [d|]; [|by split; [|left]].
  pose proof (partial_sign_state (wn_secret_nonce nonce) d (wn_keys nonce) nonces (wn_tweaks nonce) (wn_message nonce)) as Hs.
  destruct (musig2_partial_sign _ _ _ _ _ _) as [sn outcome]. cbn. split; [done|].
  destruct Hs as [[-> Ho]|[Hc ->]]; [left; by destruct outcome|by right].
Qed.

(** A cooperative nonce of the wallet releases at most one partial
    signature, whatever calls are made with it and in whatever order, and only
    to a call that names the context the nonce was made for; a nonce already
    consumed releases none. *)
Theorem cooperative_nonce_once w nonce calls :
  let outcomes := (cooperate w nonce calls).2 in
  (length (filter (fun o => is_ok o = true) outcomes)
     <= if sn_consumed (wn_secret_nonce nonce) then 0 else 1)%nat
  /\ forall i o, outcomes !! i = Some o -> is_ok o = true ->
       exists nonces, calls !! i = Some (wn_context_digest nonce, nonces).
Proof.
  revert nonce. induction calls as [|[context nonces] calls IH]; intros nonce; cbn [cooperate].
  { split; [cbn; lia|]. intros i o Hi. by destruct i. }
  pose proof (sign_cooperative_state w nonce context nonces) as Hs.
  destruct (sign_cooperative_partial w nonce context nonces) as [nonce1 outcome]. specialize (IH nonce1).
  destruct (cooperate w nonce1 calls) as [nonce2 outcomes]. cbn [snd] in *. destruct Hs as [Hctx Hs], IH as [Hle Hall].
  rewrite filter_cons. rewrite Hctx in Hall. split.
  - destruct Hs as [[Hsn Ho]|(_ & Hc & Hc')].
    + rewrite Ho, decide_False, <- Hsn by done. done.
    + rewrite Hc in *. rewrite Hc' in Hle. case_decide; cbn [length]; lia.
  - intros [|i] o Hi Ho; cbn in Hi |- *; [|by eapply Hall]. injection Hi as ->.
    destruct Hs as [[_ Ho']|(-> & _)]; [congruence|]. by exists nonces.
Qed.
End cooperative.

(** ** A wallet *)

#[local] Existing Instances toy_schnorr toy_secp toy_add_tweak.

(** A digest that tells messages apart. *)
Definition toy_digest (seed : Z) (m : list Z) : Z := fold_left (fun acc b => (acc * 257 + b + 1) mod 1000003) m seed.

(** A signer with the nonce one, in the group of the residues. *)
#[local] Instance toy_wallet : WalletCrypto := {|
  sha512 m := be_bytes 32 (toy_digest 7 m) ++ be_bytes 32 (toy_digest 11 m);
  sign_schnorr_no_aux_rand m k :=
    let p := match (toy_x (toy_point k)).2 with Even => k | Odd => CURVE_ORDER - k end in
    let x := (toy_x (toy_point k)).1 in
    be_bytes 32 1
    ++ be_bytes 32 ((1 + be_value (tagged_hash "BIP0340/challenge" (be_bytes 32 1 ++ x ++ m)) * p) mod CURVE_ORDER);
|}.

Lemma toy_wallet_laws : WalletCryptoLaws.
Proof.
  pose proof toy_schnorr_digest as Hd. pose proof toy_secp_laws as Hl. split.
  - intros m. cbn [sha512 toy_wallet]. by rewrite length_app, !be_bytes_length.
  - intros m. cbn [sha512 toy_wallet]. apply Forall_app. split; apply be_bytes_bytes.
  - intros m k _. cbn [sign_schnorr_no_aux_rand toy_wallet]. by rewrite length_app, !be_bytes_length.
  - intros m k _. cbn [sign_schnorr_no_aux_rand toy_wallet]. apply Forall_app. split; apply be_bytes_bytes.
  - intros m k Hk. destruct (even_secret_spec k Hk) as [He Hx].
    assert (secret 1) as H1 by (unfold secret; pose proof CURVE_ORDER_bounds; lia).
    apply (verify_schnorr_bip340 (even_secret k)); try done; cbn [sign_schnorr_no_aux_rand toy_wallet].
    + apply Forall_app. split; apply be_bytes_bytes.
    + rewrite take_app_length', drop_app_length' by (by rewrite be_bytes_length).
      set (s := _ mod CURVE_ORDER). assert (0 <= s < CURVE_ORDER) as Hs by apply mod_range.
      rewrite (proj2 (be_bytes_scalar s Hs)). split; [lia|]. exists 1. split; [done|]. split; [|done].
      apply toy_even_x; [done|]. pose proof CURVE_ORDER_bounds. lia.
  - intros P. apply bool_decide_eq_true. intros Hz.
    destruct (toy_key_secret P) as [HP _]. pose proof (secret_range _ (secret_inverse _ HP)) as HN.
    pose proof (secret_range _ HP) as HR. apply (f_equal be_value) in Hz. change (be_value (replicate 32 0)) with 0 in Hz.
    change (be_value (toy_x P).1 = 0) in Hz.
    destruct (toy_x_spec P) as [[He _]|[He _]]; rewrite He in Hz; change ((?a, ?b).1) with a in Hz;
      [rewrite (proj2 (be_bytes_scalar _ HR)) in Hz|rewrite (proj2 (be_bytes_scalar _ HN)) in Hz]; unfold secret in *; lia.
Qed.

Definition example_wallet : ProviderWallet := mkWallet (replicate 32 7) WalletRegtest.
Definition example_path : WalletPath := mkPath 0 false 3.

Lemma address_spendable_witness :
  exists a, derive_address example_wallet example_path = Ok a
  /\ parse_segwit_address (ta_address a) = Ok (mkSegwit Regtest 1 (ta_output_key a) (ta_script_pubkey a))
  /\ exists s, sign_key_path example_wallet example_path (replicate 32 9) = Ok s
       /\ verify_schnorr (ws_signature s) (replicate 32 9) (ta_output_key a) = true.
Proof.
  destruct (derive_address example_wallet example_path) as [a|e] eqn:Ha; [|vm_compute in Ha; discriminate].
  exists a. split; [reflexivity|].
  destruct (@address_spendable _ _ _ _ toy_schnorr_digest toy_add_tweak_scalar toy_secp_laws toy_tweak_laws
              toy_wallet_laws example_wallet example_path a Ha) as (_ & Hp & Hs).
  split; [exact Hp|]. destruct (Hs (replicate 32 9)) as (ks & ss & Hk & _ & _ & Hv & _). exists ks. by split.
Defined.
