(* ===== verification/Funding.v ===== *)
(** * Funding: the transaction that funds a swap

    [immortal-provider/src/funding.rs]: checking the request, ordering the
    inputs, planning the outputs and the fee, and signing. *)

From S2P Require Import Prelude Text Utf8 Hex Regroup Bech32 Event Wire Transaction Cost Taproot Scalar Musig2 Wallet.

Definition MAX_FUNDING_INPUTS : Z := 64.
Definition MAX_FEE_RATE_SAT_PER_VBYTE : Z := 10000.
Definition DUST_RELAY_FEE_SAT_PER_KB : Z := 3000.
Definition NON_RBF_LOCKTIME_SEQUENCE : Z := 0xfffffffe.

Inductive FundingError : Type :=
| FundingInvalid (message : string)
| FundingOverflow (message : string)
| InsufficientFunds
| FundingWallet
| FundingVerification.

Record FundingInput : Type := mkFundingInput {
  fi_txid : string; fi_vout : Z; fi_value_sat : Z; fi_path : WalletPath
}.

#[export] Instance FundingInput_eq_dec : EqDecision FundingInput.
Proof. solve_decision. Defined.

Record FundingRequest : Type := mkFundingRequest {
  fr_destination_script_pubkey : list Z;
  fr_amount_sat : Z;
  fr_fee_rate_sat_per_vbyte : Z;
  fr_change_path : WalletPath;
  fr_lock_time : Z;
}.

Record SignedFundingTransaction : Type := mkSignedFunding {
  sf_transaction : Transaction;
  sf_raw_transaction : string;
  sf_txid : string;
  sf_fee_sat : Z;
  sf_change_sat : option Z;
}.

Definition is_lower_hex_32 (value : string) : bool :=
  (str_len value =? 64) && forallb (fun byte => is_ascii_digit byte || in_range 97 102 byte) (as_bytes value).

Definition validate_request (inputs : list FundingInput) (request : FundingRequest) : result FundingError unit :=
  if is_empty inputs || (MAX_FUNDING_INPUTS <? len inputs)
  then Err (FundingInvalid "funding input count is outside bounds")
  else if (fr_amount_sat request =? 0) || (fr_fee_rate_sat_per_vbyte request =? 0)
          || (MAX_FEE_RATE_SAT_PER_VBYTE <? fr_fee_rate_sat_per_vbyte request)
          || is_empty (fr_destination_script_pubkey request)
          || (MAX_SCRIPT_BYTES <? len (fr_destination_script_pubkey request))
  then Err (FundingInvalid "funding amount, fee rate, or destination is outside bounds")
  else if existsb (fun i => (fi_value_sat i =? 0) || negb (is_lower_hex_32 (fi_txid i))) inputs
  then Err (FundingInvalid "funding input is invalid")
  else Ok tt.

(** The order of [sort_by]: the transaction id, then the output. *)
Definition input_le (l r : FundingInput) : Prop :=
  (if bool_decide (fi_txid l = fi_txid r) then fi_vout l <=? fi_vout r
   else bytes_le (as_bytes (fi_txid l)) (as_bytes (fi_txid r))) = true.
#[export] Instance input_le_dec : RelDecision input_le.
Proof. intros l r. unfold input_le. apply _. Defined.

Definition same_outpoint (l r : FundingInput) : bool :=
  bool_decide (fi_txid l = fi_txid r) && (fi_vout l =? fi_vout r).

(** [windows(2).any(..)]. *)
Fixpoint repeats (inputs : list FundingInput) : bool :=
  match inputs with
  | l :: (r :: _) as rest => same_outpoint l r || repeats rest
  | _ => false
  end.

Definition txid_wire_bytes (txid : string) : result FundingError (list Z) :=
  if negb (is_lower_hex_32 txid) then Err (FundingInvalid "funding transaction ID is invalid")
  else
  bytes ← ok_or (FundingInvalid "funding transaction ID is invalid") (decode_pairs (as_bytes txid));
  Ok (reverse bytes).

(** [for input_index in 0..n { set_input_witness(input_index, w)? }]. *)
Definition estimated_transaction (tx : Transaction) : result VerificationError Transaction :=
  try_fold (fun tx input_index => set_input_witness tx input_index [replicate 64 0]) tx
    (seq 0 (length (tx_inputs tx))).

Definition estimated_fee (tx : Transaction) (fee_rate_sat_per_vbyte : Z) : result FundingError Z :=
  estimated ← map_err (fun _ => FundingVerification) (estimated_transaction tx);
  v ← map_err (fun _ => FundingVerification) (virtual_size estimated);
  ok_or (FundingOverflow "funding fee overflow") (checked_mul U64_MAX v fee_rate_sat_per_vbyte).

Definition plan_transaction (inputs : list TransactionInput) (input_total : Z) (request : FundingRequest)
    (change_script_pubkey : list Z) : result FundingError (Transaction * option Z) :=
  let destination := mkOutput (fr_amount_sat request) (fr_destination_script_pubkey request) in
  dust ← map_err (fun _ => FundingInvalid "funding destination script is invalid")
           (is_dust destination DUST_RELAY_FEE_SAT_PER_KB);
  if (dust : bool) then Err (FundingInvalid "funding destination is dust")
  else
  change_dust ← map_err (fun _ => FundingInvalid "funding change script is invalid")
                  (dust_threshold change_script_pubkey DUST_RELAY_FEE_SAT_PER_KB);
  let with_change := transaction_new 2 inputs [destination; mkOutput change_dust change_script_pubkey]
                       (fr_lock_time request) in
  with_change_fee ← estimated_fee with_change (fr_fee_rate_sat_per_vbyte request);
  with_change_required ← ok_or (FundingOverflow "funding output amount overflow")
    (value ← checked_add U64_MAX (fr_amount_sat request) with_change_fee; checked_add U64_MAX value change_dust);
  if with_change_required <=? input_total then
    change_sat ← ok_or InsufficientFunds
      (value ← checked_sub input_total (fr_amount_sat request); checked_sub value with_change_fee);
    Ok (transaction_new 2 inputs [destination; mkOutput change_sat change_script_pubkey] (fr_lock_time request),
        Some change_sat)
  else
  let without_change := transaction_new 2 inputs [destination] (fr_lock_time request) in
  required_fee ← estimated_fee without_change (fr_fee_rate_sat_per_vbyte request);
  required ← ok_or (FundingOverflow "funding output amount overflow")
               (checked_add U64_MAX (fr_amount_sat request) required_fee);
  if input_total <? required then Err InsufficientFunds
  else Ok (without_change, None).

Section funding.
Context `{EventCrypto, TweakAdd, Secp256k1, WalletCrypto}.

Definition verify_signature (public_key signature sighash : list Z) : result FundingError unit :=
  if negb (xonly_public_key public_key) then Err FundingVerification
  else if verify_schnorr signature sighash public_key then Ok tt else Err FundingVerification.

(** The loop that collects the inputs: their total, the unsigned inputs and
    the outputs they spend. *)
Definition collect_input (wallet : ProviderWallet) (st : Z * list TransactionInput * list TransactionOutput)
    (input : FundingInput) : result FundingError (Z * list TransactionInput * list TransactionOutput) :=
  let '(input_total, transaction_inputs, prevouts) := st in
  address ← map_err (fun _ => FundingWallet) (derive_address wallet (fi_path input));
  input_total ← ok_or (FundingOverflow "funding input amount overflow")
                  (checked_add U64_MAX input_total (fi_value_sat input));
  previous ← txid_wire_bytes (fi_txid input);
  Ok (input_total,
      transaction_inputs ++ [mkInput previous (fi_vout input) [] NON_RBF_LOCKTIME_SEQUENCE []],
      prevouts ++ [mkOutput (fi_value_sat input) (ta_script_pubkey address)]).

(** The loop that signs the input at an index. *)
Definition sign_input (wallet : ProviderWallet) (prevouts : list TransactionOutput) (tx : Transaction)
    (indexed : nat * FundingInput) : result FundingError Transaction :=
  let '(input_index, input) := indexed in
  sighash ← map_err (fun _ => FundingVerification) (taproot_key_spend_sighash tx prevouts input_index);
  signature ← map_err (fun _ => FundingWallet) (sign_key_path wallet (fi_path input) sighash);
  prevout ← ok_or FundingVerification (prevouts !! input_index);
  if len (script_pubkey prevout) <? 34 then Err FundingVerification
  else
  let expected_key := take 32 (drop 2 (script_pubkey prevout)) in
  if negb (bool_decide (ws_public_key signature = expected_key)) then Err FundingVerification
  else
  _ ← verify_signature (ws_public_key signature) (ws_signature signature) sighash;
  map_err (fun _ => FundingVerification) (set_input_witness tx input_index [ws_signature signature]).

Definition build_funding_transaction (wallet : ProviderWallet) (inputs : list FundingInput)
    (request : FundingRequest) : result FundingError SignedFundingTransaction :=
  _ ← validate_request inputs request;
  let inputs := merge_sort input_le inputs in
  if repeats inputs then Err (FundingInvalid "funding inputs repeat an outpoint")
  else
  '(input_total, transaction_inputs, prevouts) ← try_fold (collect_input wallet) (0, [], []) inputs;
  change ← map_err (fun _ => FundingWallet) (derive_address wallet (fr_change_path request));
  '(tx, change_sat) ← plan_transaction transaction_inputs input_total request (ta_script_pubkey change);
  tx ← try_fold (sign_input wallet prevouts) tx (imap pair inputs);
  cost ← map_err (fun _ => FundingVerification) (transaction_cost tx prevouts);
  required_fee ← ok_or (FundingOverflow "funding fee overflow")
                   (checked_mul U64_MAX (fr_fee_rate_sat_per_vbyte request) (cost_virtual_size cost));
  if cost_fee_sat cost <? required_fee then Err FundingVerification
  else
  raw ← map_err (fun _ => FundingVerification) (transaction_serialize tx true);
  id ← map_err (fun _ => FundingVerification) (txid tx);
  Ok (mkSignedFunding tx (encode_lower_hex raw) (encode_lower_hex id) (cost_fee_sat cost) change_sat).
End funding.
