(* ===== verification/FundingCorrect.v ===== *)
(** * FundingCorrect: funding transactions pay what they promise

    [funding_signed]: a funding transaction the wallet builds spends exactly
    the inputs it was given, pays the destination exactly, returns the rest as
    change or fee, pays the fee rate, and every input carries a signature that
    verifies for the transaction as it is.  [funding_complete]: it is built
    whenever the inputs can pay for it. *)

From S2P Require Import Prelude Text Utf8 Hex Regroup Bech32 Event Wire Transaction Cost Taproot Scalar CurveOrder Musig2 Musig2Correct Invoice Wallet WalletCorrect Funding.

(** ** Sizes *)

Definition zlens (f : TransactionOutput -> list Z) (os : list TransactionOutput) : Z :=
  foldr (fun o acc => len (f o) + acc) 0 os.

(** The virtual size of [n] key-path spends into the outputs [os]. *)
Definition stripped_size (n : Z) (os : list TransactionOutput) : Z :=
  4 + 1 + 41 * n + 1 + zlens output_bytes os + 4.
Definition funding_size (n : Z) (os : list TransactionOutput) : Z :=
  div_ceil (4 * stripped_size n os + 2 + 66 * n) 4.

Lemma concat_outputs_len os : len (concat (output_bytes <$> os)) = zlens output_bytes os.
Proof. induction os as [|o os IH]; [done|]. cbn [fmap list_fmap concat zlens foldr]. by rewrite len_app, IH. Qed.

Lemma output_bytes_len o :
  0 <= len (script_pubkey o) <= MAX_SCRIPT_BYTES ->
  9 + len (script_pubkey o) <= len (output_bytes o) <= 11 + len (script_pubkey o).
Proof.
  intros Ho. unfold output_bytes, write_var_bytes. rewrite !len_app, write_compact_size_length.
  assert (len (le_bytes 8 (value_sat o)) = 8) as -> by (unfold len; by rewrite le_bytes_length).
  unfold compact_size_length, U16_MAX, MAX_SCRIPT_BYTES in *. repeat case_match; bool_to_prop; lia.
Qed.

(** An input spent by key path with a signature of 64 bytes. *)
Record key_spend (i : TransactionInput) : Prop := mkKeySpend {
  ks_txid : length (previous_txid i) = 32%nat;
  ks_script : script_sig i = [];
  ks_witness : exists s, witness i = [s] /\ length s = 64%nat;
}.

Lemma key_spends_len ins :
  Forall key_spend ins ->
  len (concat (input_bytes <$> ins)) = 41 * len ins
  /\ len (concat ((fun i => witness_bytes (witness i)) <$> ins)) = 66 * len ins.
Proof.
  induction 1 as [|i ins [Ht Hs (s & Hw & Hl)] _ [IH1 IH2]]; [done|]. cbn [fmap list_fmap concat].
  rewrite !len_app, IH1, IH2. rewrite Hw. unfold input_bytes, witness_bytes, write_var_bytes. rewrite Hs.
  split.
  - rewrite !len_app. change (len (write_compact_size (len []))) with 1. unfold len. rewrite !le_bytes_length, Ht. cbn [length]. lia.
  - cbn [fmap list_fmap concat]. unfold write_var_bytes. rewrite app_nil_r, !len_app.
    change (len (write_compact_size (len [s]))) with 1. unfold len. rewrite Hl.
    change (length (write_compact_size (Z.of_nat 64))) with 1%nat. cbn [length]. lia.
Qed.

(** What a funding transaction looks like once signed. *)
Record key_spends (tx : Transaction) : Prop := mkKeySpends {
  kt_inputs : Forall key_spend (tx_inputs tx);
  kt_count : 0 < len (tx_inputs tx) <= 64;
  kt_outputs : 0 < len (tx_outputs tx) <= 2;
  kt_scripts : Forall (fun o => len (script_pubkey o) <= MAX_SCRIPT_BYTES) (tx_outputs tx);
  kt_marked : tx_has_witness tx = any_witness (tx_inputs tx);
}.

Lemma zlens_bound os :
  Forall (fun o => len (script_pubkey o) <= MAX_SCRIPT_BYTES) os ->
  0 <= zlens output_bytes os <= 10011 * len os.
Proof.
  induction 1 as [|o os Ho _ IH]; [done|]. cbn [zlens foldr]. fold (zlens output_bytes os).
  pose proof (len_nonneg (script_pubkey o)). pose proof (output_bytes_len o ltac:(lia)).
  assert (len (o :: os) = 1 + len os) as -> by (unfold len; cbn [length]; lia). unfold MAX_SCRIPT_BYTES in *. lia.
Qed.

Lemma key_spends_size tx :
  key_spends tx ->
  transaction_serialize tx true = Ok (transaction_bytes tx true)
  /\ transaction_serialize tx false = Ok (transaction_bytes tx false)
  /\ virtual_size tx = Ok (funding_size (len (tx_inputs tx)) (tx_outputs tx)).
Proof.
  intros [Hi Hc Ho Hs Hm]. destruct (key_spends_len _ Hi) as [Hib Hwb]. pose proof (zlens_bound _ Hs) as Hz.
  assert (any_witness (tx_inputs tx) = true) as Hany.
  { destruct (tx_inputs tx) as [|i ins]; [unfold len in Hc; cbn in Hc; lia|]. apply Forall_cons in Hi as [[_ _ (s & Hw & _)] _].
    cbn. by rewrite Hw. }
  assert (len (transaction_bytes tx false) = stripped_size (len (tx_inputs tx)) (tx_outputs tx)) as Hsl.
  { unfold transaction_bytes, stripped_size. rewrite !len_app, Hib, concat_outputs_len.
    change (@len Z []) with 0. rewrite !write_compact_size_length. unfold compact_size_length. decide_if.
    unfold len. rewrite !le_bytes_length. lia. }
  assert (transaction_serialize tx true = Ok (transaction_bytes tx true)) as Hser.
  { apply transaction_serialize_Ok. cbn zeta. rewrite Hm, Hany. cbn [andb].
    split; [|split; [done|]].
    - split_and!; try (unfold MAX_INPUTS, MAX_OUTPUTS; lia); [|done|].
      + eapply Forall_impl; [exact Hi|]. intros i [_ -> _]. cbv. discriminate.
      + intros _. eapply Forall_impl; [exact Hi|]. intros i [_ _ (s & -> & Hl)]. split; [cbv; discriminate|].
        apply Forall_singleton. unfold len. rewrite Hl. cbv. discriminate.
    - rewrite transaction_bytes_len, Hsl, Hwb. unfold stripped_size, MAX_TRANSACTION_BYTES. lia. }
  split; [done|]. destruct (serialize_stripped tx _ Hser) as [Hst _]. split; [done|].
  destruct (virtual_size_exact tx _ Hser) as (base & w & v & Hb & _ & Hv & Hw & Hbound & Htl).
  rewrite Hst in Hb. injection Hb as <-. rewrite Hm, Hany in Htl. cbn [andb] in Htl.
  rewrite Hv. f_equal. unfold funding_size.
  pose proof (div_ceil_spec (4 * stripped_size (len (tx_inputs tx)) (tx_outputs tx) + 2 + 66 * len (tx_inputs tx)) 4 ltac:(lia)).
  rewrite Hsl, Hwb in *. lia.
Qed.

(** ** Witnesses *)

(** Two transactions that differ in their witnesses only. *)
Definition strip (i : TransactionInput) : TransactionInput := set_witness i [].
Record same_but_witness (tx tx' : Transaction) : Prop := mkSame {
  sm_version : tx_version tx = tx_version tx';
  sm_inputs : strip <$> tx_inputs tx = strip <$> tx_inputs tx';
  sm_outputs : tx_outputs tx = tx_outputs tx';
  sm_lock_time : tx_lock_time tx = tx_lock_time tx';
}.

#[export] Instance same_but_witness_equiv : Equivalence same_but_witness.
Proof.
  split.
  - by intros tx.
  - by intros tx tx' [].
  - intros a b c [] []. split; congruence.
Qed.

Lemma zip_strip {A} (g : TransactionInput * TransactionOutput -> A) ins ins' prevouts :
  (forall i o, g (strip i, o) = g (i, o)) -> strip <$> ins = strip <$> ins' ->
  g <$> zip ins prevouts = g <$> zip ins' prevouts.
Proof.
  intros Hg. revert ins' prevouts. induction ins as [|i ins IH]; intros [|i' ins'] prevouts Hs; try done.
  destruct prevouts as [|o prevouts]; [done|]. cbn in Hs |- *. injection Hs as Ht Hp Hsc Hsq Hrest.
  f_equal; [|by apply IH]. rewrite <- (Hg i), <- (Hg i'). unfold strip, set_witness. congruence.
Qed.

Section sighash.
Context `{EventCrypto}.

(** A key-path signature commits to no witness. *)
#[export] Instance key_sighash_proper : Proper (same_but_witness ==> eq ==> eq ==> eq) taproot_key_spend_sighash.
Proof.
  intros tx tx' [Hv Hi Ho Hl] prevouts ? <- index ? <-.
  assert (length (tx_inputs tx) = length (tx_inputs tx')) as Hlen
    by (rewrite <- (length_fmap strip), Hi; by rewrite length_fmap).
  assert (forall (f : TransactionInput -> bool), (forall i, f (strip i) = f i) ->
            existsb f (tx_inputs tx) = existsb f (tx_inputs tx')) as Hex.
  { intros f Hf. clear -Hi Hf. revert Hi. generalize (tx_inputs tx) (tx_inputs tx').
    intros l. induction l as [|i l IH]; intros [|i' l'] Hs; try done. cbn in Hs |- *.
    injection Hs as Ht Hp Hsc Hsq Hrest.
    assert (f i = f i') as -> by (rewrite <- (Hf i), <- (Hf i'); unfold strip, set_witness; congruence).
    f_equal. by apply IH. }
  unfold taproot_key_spend_sighash, taproot_key_spend_signature_message, validate_taproot_key_spend_inputs.
  assert (forall (k : TransactionInput -> result VerificationError unit),
    (_ ← validate_prevouts tx prevouts index; k (mkInput [] 0 [] 0 [])) = (_ ← validate_prevouts tx' prevouts index; k (mkInput [] 0 [] 0 []))) as Hval.
  { intros k. unfold validate_prevouts, len. rewrite Hlen, Ho.
    assert (is_empty (tx_inputs tx) = is_empty (tx_inputs tx')) as ->
      by (destruct (tx_inputs tx), (tx_inputs tx'); done).
    destruct (_ || _ || _); [done|]. destruct (_ || _); [done|].
    pose proof (f_equal (.!! index) Hi) as Hat. rewrite !list_lookup_fmap in Hat.
    destruct (tx_inputs tx !! index) as [i|], (tx_inputs tx' !! index) as [i'|]; cbn in Hat |- *; try done.
    injection Hat as _ _ Hs _. rewrite Hs. by destruct (negb _). }
  specialize (Hval (fun _ => if existsb (fun i => negb (is_empty (script_sig i))) (tx_inputs tx)
    then Err (Invalid "Taproot scriptSig must be empty") else
    _ ← validate_prevout_scripts prevouts;
    _ ← taproot_output_key_from_script_pubkey (script_pubkey (prevout_at prevouts index)); Ok tt)).
  cbn beta in Hval. rewrite Hval, Hex by done. clear Hval.
  assert (common_message tx prevouts = common_message tx' prevouts) as ->; [|done].
  unfold common_message. rewrite Ho, Hv, Hl.
  rewrite !(zip_strip _ (tx_inputs tx) (tx_inputs tx')) by done. done.
Qed.
End sighash.

(** A transaction with one signature per input. *)
Definition with_signatures (tx : Transaction) (sigs : list (list Z)) : Transaction :=
  let inputs := zip_with (fun i s => set_witness i [s]) (tx_inputs tx) sigs in
  mkTransaction (tx_version tx) inputs (tx_outputs tx) (tx_lock_time tx) (any_witness inputs).

Lemma set_next tx before i rest s :
  tx_inputs tx = before ++ i :: rest -> len s <= MAX_WITNESS_ITEM_BYTES ->
  set_input_witness tx (length before) [s]
  = let inputs := before ++ set_witness i [s] :: rest in
    Ok (mkTransaction (tx_version tx) inputs (tx_outputs tx) (tx_lock_time tx) (any_witness inputs)).
Proof.
  intros Hi Hs. unfold set_input_witness, validate_witness_items. change (MAX_WITNESS_ITEMS <? len [s]) with false.
  cbn [existsb orb]. rewrite (proj2 (Z.ltb_ge _ _) Hs), Hi. cbn [mbind result_bind].
  rewrite lookup_app_r, Nat.sub_diag by lia. cbn [lookup list_lookup ok_or mbind result_bind].
  rewrite insert_app_r_alt, Nat.sub_diag by lia. done.
Qed.

Lemma same_after_witness tx inputs marked :
  strip <$> inputs = strip <$> tx_inputs tx ->
  same_but_witness (mkTransaction (tx_version tx) inputs (tx_outputs tx) (tx_lock_time tx) marked) tx.
Proof. by split. Qed.

Lemma zip_sign_snoc before sigs i s :
  length before = length sigs ->
  zip_with (fun i s => set_witness i [s]) (before ++ [i]) (sigs ++ [s])
  = zip_with (fun i s => set_witness i [s]) before sigs ++ [set_witness i [s]].
Proof. intros Hl. by rewrite zip_with_app. Qed.

(** Setting signatures one index after the other, each computed from the
    transaction so far by a function that ignores witnesses. *)
Section sign_loop.
Context {E A : Type} (sign : Transaction -> nat -> A -> result E (list Z)) (fail : E).
Context (Hsign : forall tx tx' n a, same_but_witness tx tx' -> sign tx n a = sign tx' n a).
Context (Hlen : forall tx n a s, sign tx n a = Ok s -> len s <= MAX_WITNESS_ITEM_BYTES).

Definition sign_next (tx : Transaction) (indexed : nat * A) : result E Transaction :=
  s ← sign tx indexed.1 indexed.2;
  map_err (fun _ => fail) (set_input_witness tx indexed.1 [s]).

Lemma sign_loop_from tx0 before sigs rest as_ :
  tx_inputs tx0 = before ++ rest -> length before = length sigs -> length rest = length as_ ->
  let done_ := zip_with (fun i s => set_witness i [s]) before sigs in
  forall tx, tx_inputs tx = done_ ++ rest -> tx_version tx = tx_version tx0 -> tx_outputs tx = tx_outputs tx0 ->
    tx_lock_time tx = tx_lock_time tx0 -> tx_has_witness tx = any_witness (tx_inputs tx) ->
  try_fold sign_next tx (zip (seq (length before) (length as_)) as_)
  = (more ← try_map (fun p => sign tx0 p.1 p.2) (zip (seq (length before) (length as_)) as_);
     Ok (with_signatures tx0 (sigs ++ more))).
Proof.
  revert before sigs rest. induction as_ as [|a as_ IH]; intros before sigs rest H0 Hb Hr done_ tx Hi Hv Ho Hl Hm.
  - destruct rest; [|done]. rewrite app_nil_r in H0, Hi. cbn [length seq zip zip_with try_fold try_map].
    cbn [mbind result_bind]. unfold with_signatures. rewrite app_nil_r, H0. fold done_.
    destruct tx as [v ins os lock marked]. cbn [tx_version tx_inputs tx_outputs tx_lock_time tx_has_witness] in *.
    by rewrite Hm, Hi, Hv, Ho, Hl.
  - destruct rest as [|i rest]; [done|]. injection Hr as Hr. cbn [length seq zip zip_with try_fold try_map].
    assert (same_but_witness tx tx0) as Hsame.
    { split; try done. rewrite Hi, H0, !fmap_app. f_equal. unfold done_. clear -Hb. revert sigs Hb.
      induction before as [|x before IH]; intros [|s sigs] Hb; try done. cbn in *. f_equal. apply IH. lia. }
    unfold sign_next at 2. cbn [fst snd]. rewrite (Hsign tx tx0 _ _ Hsame).
    destruct (sign tx0 (length before) a) as [s|e] eqn:Hs; [|done]. cbn [mbind result_bind].
    assert (length done_ = length before) as Hdl by (unfold done_; rewrite length_zip_with; lia).
    rewrite <- Hdl at 1. rewrite (set_next tx done_ i rest s Hi) by (by eapply Hlen). cbn [map_err mbind result_bind].
    specialize (IH (before ++ [i]) (sigs ++ [s]) rest). rewrite !length_app, Nat.add_1_r in IH. cbn [length] in IH.
    rewrite zip_sign_snoc in IH by done. rewrite IH; try done; try lia.
    + destruct (try_map _ _) as [more|]; [|done]. cbn [mbind result_bind]. by rewrite <- app_assoc.
    + by rewrite H0, <- app_assoc.
    + cbn [tx_inputs]. by rewrite <- app_assoc.
Qed.

Lemma sign_loop tx as_ :
  length (tx_inputs tx) = length as_ -> tx_has_witness tx = any_witness (tx_inputs tx) ->
  try_fold sign_next tx (zip (seq 0 (length as_)) as_)
  = (sigs ← try_map (fun p => sign tx p.1 p.2) (zip (seq 0 (length as_)) as_); Ok (with_signatures tx sigs)).
Proof. intros Hl Hm. by apply (sign_loop_from tx [] [] (tx_inputs tx) as_). Qed.
End sign_loop.

(** ** The order of the inputs *)

Lemma bytes_le_cons a l b r : bytes_le (a :: l) (b :: r) = true <-> a < b \/ (a = b /\ bytes_le l r = true).
Proof. cbn [bytes_le]. by rewrite orb_true_iff, andb_true_iff, Z.ltb_lt, Z.eqb_eq. Qed.

#[export] Instance bytes_le_trans : Transitive (fun l r => bytes_le l r = true).
Proof.
  intros l. induction l as [|a l IH]; intros [|b m] [|c r]; try done. rewrite !bytes_le_cons.
  intros [?|[-> H1]] [?|[-> H2]]; try (left; lia). right. split; [done|]. by eapply IH.
Qed.

#[export] Instance bytes_le_connected : Total (fun l r => bytes_le l r = true).
Proof. intros l r. destruct (bytes_le l r) eqn:Hle; [by left|right]. by apply bytes_le_total. Qed.

Lemma as_bytes_eq s s' : as_bytes s = as_bytes s' -> s = s'.
Proof. intros Hs. rewrite <- (of_bytes_as_bytes s), <- (of_bytes_as_bytes s'). by f_equal. Qed.

#[export] Instance input_le_trans : Transitive input_le.
Proof.
  intros x y z. unfold input_le. destruct (bool_decide_reflect (fi_txid x = fi_txid y)) as [Hxy|Hxy],
    (bool_decide_reflect (fi_txid y = fi_txid z)) as [Hyz|Hyz],
    (bool_decide_reflect (fi_txid x = fi_txid z)) as [Hxz|Hxz]; rewrite ?Z.leb_le; try congruence; try lia.
  - intros Hle Hge. destruct Hxy. apply as_bytes_eq, bytes_le_antisym; congruence.
  - by apply (bytes_le_trans (as_bytes (fi_txid x))).
Qed.

#[export] Instance input_le_total : Total input_le.
Proof.
  intros x y. unfold input_le. destruct (decide (fi_txid x = fi_txid y)) as [He|He].
  - rewrite !bool_decide_eq_true_2, !Z.leb_le by done. lia.
  - rewrite !bool_decide_eq_false_2 by congruence. apply bytes_le_connected.
Qed.

Definition outpoint (i : FundingInput) : string * Z := (fi_txid i, fi_vout i).

Lemma same_outpoint_spec l r : same_outpoint l r = true <-> outpoint l = outpoint r.
Proof.
  unfold same_outpoint, outpoint. rewrite andb_true_iff, bool_decide_eq_true, Z.eqb_eq. split; [by intros [-> ->]|by intros [= -> ->]].
Qed.

Lemma input_le_outpoint l r : input_le l r -> input_le r l -> outpoint l = outpoint r.
Proof.
  unfold input_le, outpoint. destruct (bool_decide_reflect (fi_txid l = fi_txid r)) as [Hlr|Hlr],
    (bool_decide_reflect (fi_txid r = fi_txid l)) as [Hrl|Hrl]; rewrite ?Z.leb_le; try congruence.
  - intros. f_equal; [done|lia].
  - intros Hle Hge. destruct Hlr. by apply as_bytes_eq, bytes_le_antisym.
Qed.

(** In a sorted list equal outpoints are next to each other. *)
Lemma repeats_sorted inputs :
  StronglySorted input_le inputs -> repeats inputs = false <-> NoDup (outpoint <$> inputs).
Proof.
  induction 1 as [|l rest Hs IH Hl]; [split; [constructor|done]|]. cbn [fmap list_fmap]. rewrite NoDup_cons.
  destruct rest as [|r rest]; [split; [split; [apply not_elem_of_nil|constructor]|done]|].
  cbn [repeats]. rewrite orb_false_iff, IH. split.
  - intros [Hne Hnd]. split; [|done]. rewrite list_elem_of_fmap. intros (x & Hx & Hin).
    rewrite <- not_true_iff_false, same_outpoint_spec in Hne. apply Hne, input_le_outpoint.
    + by apply Forall_cons in Hl as [Hl _].
    + assert (input_le r x) as Hrx.
      { apply elem_of_cons in Hin as [->|Hin]; [by destruct (input_le_total r r)|].
        apply StronglySorted_inv in Hs as [_ Hr]. rewrite Forall_forall in Hr. by apply Hr. }
      assert (input_le x l) as Hxl; [|by transitivity x]. unfold outpoint in Hx. injection Hx as H1 H2.
      unfold input_le. rewrite H1, H2, bool_decide_eq_true_2 by done. apply Z.leb_refl.
  - intros [Hni Hnd]. split; [|done]. rewrite <- not_true_iff_false, same_outpoint_spec. intros He. apply Hni.
    rewrite He. left.
Qed.

Lemma inputs_sorted inputs :
  let sorted := merge_sort input_le inputs in
  sorted ≡ₚ inputs /\ StronglySorted input_le sorted
  /\ (repeats sorted = false <-> NoDup (outpoint <$> inputs)).
Proof.
  cbn zeta. pose proof (merge_sort_Permutation input_le inputs) as Hp.
  assert (StronglySorted input_le (merge_sort input_le inputs)) as Hs by (apply StronglySorted_merge_sort; apply _).
  split; [done|]. split; [done|]. rewrite (repeats_sorted _ Hs). by rewrite Hp.
Qed.

(** ** Transaction ids *)

Lemma decode_pairs_hex l : ok_or tt (Wallet.decode_pairs l) = Hex.decode_pairs tt l.
Proof.
  assert (forall n l, (length l <= n)%nat -> ok_or tt (Wallet.decode_pairs l) = Hex.decode_pairs tt l) as H;
    [|by apply (H (length l))].
  clear l. intros n. induction n as [|n IH]; intros [|a [|b l]] Hl; cbn [length] in Hl; try done; try lia.
  cbn [Wallet.decode_pairs Hex.decode_pairs]. change (lower_hex_value a) with (hex_nibble a).
  change (lower_hex_value b) with (hex_nibble b). destruct (hex_nibble a); [|done]. destruct (hex_nibble b); [|done].
  cbn [mbind option_bind ok_or result_bind]. rewrite <- IH by lia. by destruct (Wallet.decode_pairs l).
Qed.

(** The bytes on the wire are the id's, in the opposite order. *)
Lemma txid_wire_bytes_spec txid :
  is_lower_hex_32 txid = true ->
  exists bytes, txid_wire_bytes txid = Ok bytes /\ length bytes = 32%nat /\ Forall is_byte bytes
    /\ txid = encode_lower_hex (reverse bytes).
Proof.
  intros Hx. unfold txid_wire_bytes. rewrite Hx. cbn [negb]. unfold is_lower_hex_32 in Hx.
  apply andb_true_iff in Hx as [Hlen%Z.eqb_eq Hall]. unfold str_len in Hlen.
  pose proof (decode_pairs_hex (as_bytes txid)) as Hd.
  assert (exists bs, Hex.decode_pairs tt (as_bytes txid) = Ok bs) as [bs Hbs].
  { clear Hd Hlen. assert (forall n l, (length l <= n)%nat -> forallb (fun b => is_ascii_digit b || in_range 97 102 b) l = true ->
      exists bs, Hex.decode_pairs tt l = Ok bs) as H; [|by eapply H].
    intros n. induction n as [|n IH]; intros [|a [|b l]] Hl Hf; cbn [length] in Hl; try lia; try by eexists.
    cbn [forallb] in Hf. apply andb_true_iff in Hf as [Ha [Hb Hf]%andb_true_iff].
    destruct (IH l ltac:(lia) Hf) as [bs Hbs]. cbn [Hex.decode_pairs].
    assert (forall c, is_ascii_digit c || in_range 97 102 c = true -> exists v, hex_nibble c = Some v) as Hn.
    { intros c. unfold is_ascii_digit, in_range, hex_nibble. destruct (_ && _); [by eexists|]. cbn [orb]. intros ->. by eexists. }
    destruct (Hn a Ha) as [va ->], (Hn b Hb) as [vb ->]. cbn [ok_or mbind result_bind]. rewrite Hbs. by eexists. }
  rewrite Hbs in Hd. destruct (Wallet.decode_pairs (as_bytes txid)) as [bs'|]; [|done]. injection Hd as ->.
  cbn [ok_or mbind result_bind]. exists (reverse bs). split; [done|].
  destruct (decode_pairs_Ok tt 32 (as_bytes txid) bs ltac:(lia) (as_bytes_range txid) Hbs) as (He & Hl & Hb).
  rewrite length_reverse, reverse_involutive. split; [done|]. split; [by apply Forall_reverse|].
  unfold encode_lower_hex. by rewrite He, of_bytes_as_bytes.
Qed.

(** ** The plan *)

(** A transaction whose inputs wait for their signatures. *)
Record draft (tx : Transaction) : Prop := mkDraft {
  dr_inputs : Forall (fun i => length (previous_txid i) = 32%nat /\ script_sig i = [] /\ witness i = []) (tx_inputs tx);
  dr_count : 0 < len (tx_inputs tx) <= 64;
  dr_outputs : 0 < len (tx_outputs tx) <= 2;
  dr_scripts : Forall (fun o => len (script_pubkey o) <= MAX_SCRIPT_BYTES) (tx_outputs tx);
  dr_marked : tx_has_witness tx = any_witness (tx_inputs tx);
}.

Lemma signed_draft tx sigs :
  draft tx -> length sigs = length (tx_inputs tx) -> Forall (fun s => length s = 64%nat) sigs ->
  key_spends (with_signatures tx sigs) /\ len (tx_inputs (with_signatures tx sigs)) = len (tx_inputs tx).
Proof.
  intros [Hi Hc Ho Hs Hm] Hl H64.
  assert (len (tx_inputs (with_signatures tx sigs)) = len (tx_inputs tx)) as Hlen
    by (unfold len, with_signatures; cbn [tx_inputs]; rewrite length_zip_with; lia).
  split; [|done]. split; try done; [|by rewrite Hlen].
  cbn [with_signatures tx_inputs]. clear -Hi Hl H64. revert sigs Hl H64.
  induction Hi as [|i ins (Ht & Hsc & _) _ IH]; intros [|s sigs] Hl H64; try done.
  apply Forall_cons in H64 as [Hs H64]. cbn [zip_with]. constructor; [|apply IH; cbn in Hl; try done; lia].
  split; try done. by exists s.
Qed.

Lemma with_signatures_same tx sigs : length sigs = length (tx_inputs tx) -> same_but_witness (with_signatures tx sigs) tx.
Proof.
  intros Hl. split; try done. cbn [with_signatures tx_inputs]. revert sigs Hl. generalize (tx_inputs tx) as ins.
  intros ins. induction ins as [|i ins IH]; intros [|s sigs] Hl; try done. cbn in *. f_equal. apply IH. lia.
Qed.

Lemma try_fold_map_err {E E' A B} (e : E') (f : B -> A -> result E B) b l :
  map_err (fun _ => e) (try_fold f b l) = try_fold (fun b x => map_err (fun _ => e) (f b x)) b l.
Proof. revert b. induction l as [|x l IH]; intros b; [done|]. cbn. destruct (f b x); [apply IH|done]. Qed.

Lemma try_fold_fmap {E A A' B} (f : B -> A' -> result E B) (g : A -> A') b l :
  try_fold f b (g <$> l) = try_fold (fun b x => f b (g x)) b l.
Proof. revert b. induction l as [|x l IH]; intros b; [done|]. cbn. destruct (f b (g x)); [apply IH|done]. Qed.

Lemma zip_seq_fst {A} (l : list A) n : (zip (seq n (length l)) l).*1 = seq n (length l).
Proof. apply fst_zip. by rewrite length_seq. Qed.

Lemma estimated_transaction_eq {E : Type} (e : E) tx :
  draft tx ->
  map_err (fun _ => e) (estimated_transaction tx)
  = Ok (with_signatures tx (replicate (length (tx_inputs tx)) (replicate 64 0))).
Proof.
  intros Hd. unfold estimated_transaction. rewrite try_fold_map_err.
  rewrite <- (zip_seq_fst (tx_inputs tx) 0), try_fold_fmap.
  pose proof (sign_loop (fun _ _ _ => Ok (replicate 64 0)) e (fun _ _ _ _ _ => eq_refl)
                ltac:(intros ? ? ? s [= <-]; cbv; discriminate) tx (tx_inputs tx) eq_refl (dr_marked tx Hd)) as Hl.
  unfold sign_next in Hl. cbn [mbind result_bind] in Hl. rewrite Hl. clear.
  assert (forall n (l : list TransactionInput), try_map (fun p : nat * TransactionInput => Ok (E := E) (replicate 64 0)) (zip (seq n (length l)) l)
    = Ok (replicate (length l) (replicate 64 0))) as ->; [|done].
  intros n l. revert n. induction l as [|x l IH]; intros n; [done|]. cbn [length seq zip zip_with try_map].
  rewrite IH. done.
Qed.

Lemma funding_size_bound n os :
  0 < n <= 64 -> 0 < len os <= 2 -> Forall (fun o => len (script_pubkey o) <= MAX_SCRIPT_BYTES) os ->
  0 < funding_size n os <= 30000.
Proof.
  intros Hn Ho Hs. pose proof (zlens_bound _ Hs). unfold funding_size.
  pose proof (div_ceil_spec (4 * stripped_size n os + 2 + 66 * n) 4 ltac:(lia)). unfold stripped_size in *. lia.
Qed.

Lemma estimated_fee_eq tx rate :
  draft tx -> 0 <= rate <= MAX_FEE_RATE_SAT_PER_VBYTE ->
  estimated_fee tx rate = Ok (rate * funding_size (len (tx_inputs tx)) (tx_outputs tx)).
Proof.
  intros Hd Hr. unfold estimated_fee. rewrite (estimated_transaction_eq FundingVerification tx Hd).
  cbn [mbind result_bind]. destruct (signed_draft tx (replicate (length (tx_inputs tx)) (replicate 64 0)) Hd) as [Hks Hlen].
  { by rewrite length_replicate. }
  { apply Forall_replicate. done. }
  destruct (key_spends_size _ Hks) as (_ & _ & ->). rewrite Hlen. cbn [map_err mbind result_bind].
  change (tx_outputs (with_signatures tx _)) with (tx_outputs tx).
  pose proof (funding_size_bound _ _ (dr_count _ Hd) (dr_outputs _ Hd) (dr_scripts _ Hd)).
  unfold MAX_FEE_RATE_SAT_PER_VBYTE in Hr. rewrite checked_mul_eq by (unfold U64_MAX; nia). cbn [ok_or]. f_equal. lia.
Qed.

(** The script of a Taproot output, and what such an output adds. *)
Definition p2tr (script : list Z) : Prop := exists key, length key = 32%nat /\ script = 0x51 :: 0x20 :: key.

Lemma p2tr_dust script : p2tr script -> dust_threshold script DUST_RELAY_FEE_SAT_PER_KB = Ok 330.
Proof.
  intros (key & Hk & ->). unfold dust_threshold. cbn [head bool_decide].
  assert (len (0x51 :: 0x20 :: key) = 34) as Hl by (unfold len; cbn [length]; lia). rewrite Hl.
  rewrite bool_decide_eq_false_2 by done. cbn [is_witness_program].
  assert (len key = 32) as -> by (unfold len; lia). reflexivity.
Qed.

Lemma p2tr_size n os v script :
  p2tr script -> funding_size n (os ++ [mkOutput v script]) = funding_size n os + 43.
Proof.
  intros (key & Hk & ->). unfold funding_size.
  assert (stripped_size n (os ++ [mkOutput v (0x51 :: 0x20 :: key)]) = stripped_size n os + 43) as ->.
  { unfold stripped_size. rewrite <- !concat_outputs_len, fmap_app, concat_app, len_app. cbn [fmap list_fmap concat].
    rewrite app_nil_r. unfold output_bytes, write_var_bytes. cbn [value_sat script_pubkey].
    assert (len (0x51 :: 0x20 :: key) = 34) as Hl by (unfold len; cbn [length]; lia). rewrite !len_app, Hl.
    change (len (write_compact_size 34)) with 1.
    assert (len (le_bytes 8 v) = 8) as -> by (unfold len; by rewrite le_bytes_length). lia. }
  pose proof (div_ceil_spec (4 * stripped_size n os + 2 + 66 * n) 4 ltac:(lia)).
  pose proof (div_ceil_spec (4 * (stripped_size n os + 43) + 2 + 66 * n) 4 ltac:(lia)). lia.
Qed.

Definition destination (request : FundingRequest) : TransactionOutput :=
  mkOutput (fr_amount_sat request) (fr_destination_script_pubkey request).

Section plan.
Context (inputs : list TransactionInput) (request : FundingRequest) (script : list Z).
Context (Hi : Forall (fun i => length (previous_txid i) = 32%nat /\ script_sig i = [] /\ witness i = []) inputs).
Context (Hc : 0 < len inputs <= 64) (Hs : p2tr script).
Context (Hrate : 0 <= fr_fee_rate_sat_per_vbyte request <= MAX_FEE_RATE_SAT_PER_VBYTE).
Context (Hdest : len (fr_destination_script_pubkey request) <= MAX_SCRIPT_BYTES).

(** The fee of the transaction without a change output, and what the change
    output adds to it. *)
Definition base_fee : Z := fr_fee_rate_sat_per_vbyte request * funding_size (len inputs) [destination request].
Definition change_fee : Z := fr_fee_rate_sat_per_vbyte request * 43.

Lemma planned_draft os :
  os = [] \/ (exists v, os = [mkOutput v script]) ->
  let tx := transaction_new 2 inputs (destination request :: os) (fr_lock_time request) in
  draft tx
  /\ estimated_fee tx (fr_fee_rate_sat_per_vbyte request)
     = Ok (match os with [] => base_fee | _ => base_fee + change_fee end).
Proof.
  intros Hos tx. assert (len script = 34) as Hl by (destruct Hs as (key & Hk & ->); unfold len; cbn [length]; lia).
  assert (draft tx) as Hd.
  { split; try done.
    - destruct Hos as [->|[v ->]]; unfold len; cbn; lia.
    - constructor; [done|]. destruct Hos as [->|[v ->]]; repeat constructor. cbn [script_pubkey]. rewrite Hl. done. }
  split; [done|]. rewrite estimated_fee_eq by done. unfold base_fee, change_fee. cbn [tx transaction_new tx_inputs tx_outputs].
  destruct Hos as [->|[v ->]]; [done|]. change ([?a; ?b]) with ([a] ++ [b]). rewrite p2tr_size by done. f_equal. lia.
Qed.

(** The decision: change when it is worth more than dust, otherwise what
    is left over goes to the fee. *)
Lemma plan_transaction_eq total :
  is_dust (destination request) DUST_RELAY_FEE_SAT_PER_KB = Ok false ->
  let amount := fr_amount_sat request in
  let tx os := transaction_new 2 inputs (destination request :: os) (fr_lock_time request) in
  let change := total - amount - (base_fee + change_fee) in
  0 <= amount ->
  plan_transaction inputs total request script
  = if U64_MAX <? amount + (base_fee + change_fee) + 330 then Err (FundingOverflow "funding output amount overflow")
    else if 330 <=? change then Ok (tx [mkOutput change script], Some change)
    else if amount + base_fee <=? total then Ok (tx [], None) else Err InsufficientFunds.
Proof.
  intros Hdust amount tx change Ha. unfold plan_transaction. fold (destination request). rewrite Hdust.
  cbn [map_err mbind result_bind]. rewrite p2tr_dust by done. cbn [map_err mbind result_bind].
  rewrite (proj2 (planned_draft [mkOutput 330 script] ltac:(right; by eexists))). cbn [mbind result_bind].
  assert (0 <= base_fee /\ 0 <= change_fee) as [Hb Hch].
  { unfold base_fee, change_fee. pose proof (funding_size_bound (len inputs) [destination request] Hc ltac:(cbv; split; congruence)
      ltac:(by repeat constructor)). nia. }
  fold amount. unfold checked_add. destruct (Z.leb_spec (amount + (base_fee + change_fee)) U64_MAX).
  2:{ cbn [mbind option_bind ok_or result_bind]. by rewrite (proj2 (Z.ltb_lt _ _)) by lia. }
  cbn [mbind option_bind]. destruct (Z.ltb_spec U64_MAX (amount + (base_fee + change_fee) + 330)).
  { by rewrite (proj2 (Z.leb_gt _ _)) by lia. }
  rewrite (proj2 (Z.leb_le _ _)) by lia. cbn [ok_or mbind result_bind].
  destruct (Z.leb_spec (amount + (base_fee + change_fee) + 330) total).
  - rewrite (checked_sub_eq total) by lia. cbn [mbind option_bind]. rewrite checked_sub_eq by lia.
    cbn [ok_or mbind result_bind]. by rewrite (proj2 (Z.leb_le 330 change)) by lia.
  - rewrite (proj2 (Z.leb_gt 330 change)) by lia. rewrite (proj2 (planned_draft [] ltac:(by left))). cbn [mbind result_bind].
    rewrite (proj2 (Z.leb_le _ _)) by lia. cbn [ok_or mbind result_bind].
    destruct (Z.ltb_spec total (amount + base_fee)), (Z.leb_spec (amount + base_fee) total); done || lia.
Qed.
End plan.

(** ** Collecting and signing *)

Section build.
Context `{EventCrypto, TweakAdd, Secp256k1, WalletCrypto}.
Context `{!Sha256Digest, !ScalarBytes, !Secp256k1Laws, !TweakAddLaws, !WalletCryptoLaws}.

(** The unsigned input for an output the wallet holds, and that output. *)
Definition spends (i : FundingInput) (t : TransactionInput) : Prop :=
  exists id, txid_wire_bytes (fi_txid i) = Ok id /\ t = mkInput id (fi_vout i) [] NON_RBF_LOCKTIME_SEQUENCE [].
Definition held (w : ProviderWallet) (i : FundingInput) (o : TransactionOutput) : Prop :=
  exists a, derive_address w (fi_path i) = Ok a /\ o = mkOutput (fi_value_sat i) (ta_script_pubkey a).

Lemma total_value_app l1 l2 : total_value (l1 ++ l2) = total_value l1 + total_value l2.
Proof. unfold total_value. induction l1 as [|o l1 IH]; cbn [app foldr]; lia. Qed.

Lemma held_total w inputs prevouts :
  Forall2 (held w) inputs prevouts -> Forall (fun i => 0 <= fi_value_sat i) inputs ->
  Forall (fun o => 0 <= value_sat o) prevouts /\ 0 <= total_value prevouts.
Proof.
  induction 1 as [|i o inputs prevouts (a & _ & ->) _ IH]; intros Hp; [split; [constructor|done]|].
  apply Forall_cons in Hp as [Hi Hp]. destruct (IH Hp) as [Hpos Htot]. split; [by constructor|].
  cbn [total_value foldr value_sat]. fold (total_value prevouts). lia.
Qed.

Lemma collect_one w total ins outs i st :
  collect_input w (total, ins, outs) i = Ok st
  <-> exists t o, spends i t /\ held w i o /\ total + fi_value_sat i <= U64_MAX
      /\ st = (total + fi_value_sat i, ins ++ [t], outs ++ [o]).
Proof.
  unfold collect_input. split.
  - intros Hr. apply bind_Ok in Hr as (a & Ha%map_err_Ok & Hr). apply bind_Ok in Hr as (t & [-> Hmax]%ok_or_Ok%checked_add_Some & Hr).
    apply bind_Ok in Hr as (id & Hid & <-%Ok_inj). eexists _, _.
    split; [exists id; split; [exact Hid|reflexivity]|]. split; [exists a; split; [exact Ha|reflexivity]|]. by split.
  - intros (t & o & (id & Hid & ->) & (a & Ha & ->) & Hmax & ->). rewrite Ha. cbn [map_err mbind result_bind].
    rewrite checked_add_eq by done. cbn [ok_or mbind result_bind]. rewrite Hid. done.
Qed.

Lemma collect_inputs w inputs total ins outs total' ins' outs' :
  Forall (fun i => 0 <= fi_value_sat i) inputs -> total <= U64_MAX ->
  try_fold (collect_input w) (total, ins, outs) inputs = Ok (total', ins', outs')
  <-> exists ts ps, ins' = ins ++ ts /\ outs' = outs ++ ps /\ Forall2 spends inputs ts /\ Forall2 (held w) inputs ps
      /\ total' = total + total_value ps /\ total' <= U64_MAX.
Proof.
  intros Hp. revert total ins outs. induction Hp as [|i inputs Hv Hp IH]; intros total ins outs Ht; cbn [try_fold].
  - split.
    + intros [= <- <- <-]. exists [], []. rewrite !app_nil_r. split_and!; try done; try constructor. cbn. lia.
    + intros (ts & ps & -> & -> & Hts & Hps & -> & Hle). inversion Hts. inversion Hps. subst. rewrite !app_nil_r. cbn.
      by rewrite Z.add_0_r.
  - rewrite bind_Ok. setoid_rewrite collect_one. split.
    + intros (st & (t & o & Hit & Hio & Hmax & ->) & (ts & ps & -> & -> & Hts & Hps & -> & Hle)%IH); [|done].
      exists (t :: ts), (o :: ps). rewrite <- !app_assoc. split_and!; try done; try by constructor.
      destruct Hio as (a & _ & ->). cbn [total_value foldr value_sat]. fold (total_value ps). lia.
    + intros (ts & ps & -> & -> & Hts & Hps & -> & Hle).
      apply Forall2_cons_inv_l in Hts as (t & ts' & Hit & Hts & ->).
      apply Forall2_cons_inv_l in Hps as (o & ps' & Hio & Hps & ->).
      pose proof (proj2 (held_total _ _ _ Hps Hp)).
      assert (value_sat o = fi_value_sat i) as Hval by (by destruct Hio as (a & _ & ->)).
      assert (total_value (o :: ps') = fi_value_sat i + total_value ps') as Htv by (rewrite <- Hval; done).
      rewrite Htv in *.
      eexists. split; [exists t, o; split_and!; try done; lia|]. apply IH; [lia|]. exists ts', ps'.
      rewrite <- !app_assoc. split_and!; try done; lia.
Qed.

Lemma held_script w i o :
  held w i o ->
  exists x s, key_of w (fi_path i) = Ok (x, s) /\ secret s
    /\ script_pubkey o = 0x51 :: 0x20 :: (x_only_public_key (from_secret_key s)).1
    /\ p2tr (script_pubkey o).
Proof.
  intros (a & (s & Hk & Hs & _ & Ho & Hsc & _)%derive_address_inv & ->). exists (ta_internal_key a), s.
  split; [done|]. split; [done|]. cbn [script_pubkey]. rewrite Hsc, Ho. split; [done|].
  eexists. split; [|done]. apply (x_only_bytes (from_secret_key s)).
Qed.

Lemma key_sighash_ok w tx inputs prevouts n i o :
  draft tx -> length (tx_inputs tx) = length inputs -> Forall2 (held w) inputs prevouts ->
  inputs !! n = Some i -> prevouts !! n = Some o ->
  exists sighash, taproot_key_spend_sighash tx prevouts n = Ok sighash.
Proof.
  intros [Hi Hc Ho Hs Hm] Hl Hp Hn Hon. pose proof (Forall2_length _ _ _ Hp) as Hpl.
  destruct (held_script w i o) as (x & s & _ & _ & Hsc & _); [by eapply Forall2_lookup_lr|].
  assert (n < length (tx_inputs tx))%nat as Hlt by (rewrite Hl; by eapply lookup_lt_Some).
  destruct (lookup_lt_is_Some_2 _ _ Hlt) as [t Ht].
  assert (script_sig t = []) as Hts by (eapply Forall_lookup_1 in Hi as (_ & ? & _); done).
  assert (validate_prevouts tx prevouts n = Ok t) as Hv.
  { unfold validate_prevouts. rewrite (proj2 (Nat.eqb_eq _ _)) by lia.
    unfold MAX_INPUTS, MAX_OUTPUTS. rewrite !(proj2 (Z.ltb_ge _ _)) by lia.
    destruct (tx_inputs tx) eqn:Hti; [done|]. destruct (tx_outputs tx); [unfold len in Ho; cbn in Ho; lia|]. cbn [is_empty orb negb].
    rewrite Ht. cbn [ok_or mbind result_bind]. by rewrite Hts. }
  assert (prevout_at prevouts n = o) as Hat by (unfold prevout_at; by apply nth_lookup_Some).
  assert (validate_prevout_scripts prevouts = Ok tt) as Hvs.
  { unfold validate_prevout_scripts. rewrite (proj1 (not_true_iff_false _)); [done|].
    rewrite existsb_exists. intros (p & (k & Hk)%list_elem_of_In%list_elem_of_lookup & Hlong%Z.ltb_lt).
    destruct (Forall2_lookup_r _ _ _ _ _ Hp Hk) as (j & _ & (_ & _ & _ & _ & _ & (key & Hkey & Hps))%held_script).
    rewrite Hps in Hlong. unfold len in Hlong. cbn [length] in Hlong. rewrite Hkey in Hlong. by vm_compute in Hlong. }
  assert (try_map output_serialize (tx_outputs tx) = Ok (output_bytes <$> tx_outputs tx)) as Hos.
  { apply (try_map_guard _ _ _ _ _ output_serialize_Ok). by split. }
  unfold taproot_key_spend_sighash, taproot_key_spend_signature_message, validate_taproot_key_spend_inputs, common_message.
  rewrite Hv, Hvs, Hat, Hsc, Hos. cbn [mbind result_bind].
  rewrite (proj1 (not_true_iff_false (existsb _ _))).
  2:{ rewrite existsb_exists. intros (q & Hq%list_elem_of_In & Hne). rewrite Forall_forall in Hi.
      destruct (Hi q Hq) as (_ & Hsq & _). by rewrite Hsq in Hne. }
  cbn [mbind result_bind]. unfold taproot_output_key_from_script_pubkey. 
  assert (forall key, strip_prefix_bytes [0x51; 0x20] (0x51 :: 0x20 :: key) = Some key) as Hstrip by done.
  rewrite Hstrip. cbn [ok_or mbind result_bind].
  rewrite (proj1 (x_only_bytes _)), xonly_of_key. cbn [Nat.eqb negb mbind result_bind].
  rewrite try_from_u_eq by (unfold U32_MAX, len in *; lia). by eexists.
Qed.

(** The signature of one input: what the body of the loop computes before it
    stores it. *)
Definition sign_one (w : ProviderWallet) (prevouts : list TransactionOutput) (tx : Transaction) (n : nat)
    (input : FundingInput) : result FundingError (list Z) :=
  sighash ← map_err (fun _ => FundingVerification) (taproot_key_spend_sighash tx prevouts n);
  signature ← map_err (fun _ => FundingWallet) (sign_key_path w (fi_path input) sighash);
  prevout ← ok_or FundingVerification (prevouts !! n);
  if len (script_pubkey prevout) <? 34 then Err FundingVerification
  else if negb (bool_decide (ws_public_key signature = take 32 (drop 2 (script_pubkey prevout)))) then Err FundingVerification
  else _ ← verify_signature (ws_public_key signature) (ws_signature signature) sighash; Ok (ws_signature signature).

Lemma sign_input_next w prevouts tx p :
  sign_input w prevouts tx p = sign_next (sign_one w prevouts) FundingVerification tx p.
Proof.
  destruct p as [n i]. unfold sign_input, sign_next, sign_one. cbn [fst snd].
  destruct (taproot_key_spend_sighash tx prevouts n) as [h|]; [|done]. cbn [map_err mbind result_bind].
  destruct (sign_key_path w (fi_path i) h) as [sg|]; [|done]. cbn [map_err mbind result_bind].
  destruct (prevouts !! n) as [o|]; [|done]. cbn [ok_or mbind result_bind].
  destruct (len (script_pubkey o) <? 34); [done|]. destruct (negb _); [done|].
  by destruct (verify_signature _ _ _).
Qed.

Lemma sign_one_length w prevouts tx n i s : sign_one w prevouts tx n i = Ok s -> length s = 64%nat.
Proof.
  unfold sign_one. intros Hr. apply bind_Ok in Hr as (h & _ & Hr).
  apply bind_Ok in Hr as (sg & Hsg%map_err_Ok & Hr). apply bind_Ok in Hr as (o & _ & Hr).
  destruct (len (script_pubkey o) <? 34); [done|]. destruct (negb _); [done|].
  apply bind_Ok in Hr as (u & _ & <-%Ok_inj). rewrite sign_key_path_eq in Hsg.
  apply bind_Ok in Hsg as ([x k] & Hk & <-%Ok_inj). cbn [sign_digest ws_signature].
  apply sign_length. by apply key_of_inv in Hk as [Hk _].
Qed.

(** The signature of an output the wallet holds is always made and always
    verifies under the key of the output. *)
Definition signature_ok (tx : Transaction) (prevouts : list TransactionOutput) (n : nat) (sig : list Z) : Prop :=
  exists o sighash, prevouts !! n = Some o /\ taproot_key_spend_sighash tx prevouts n = Ok sighash
    /\ length sig = 64%nat /\ verify_schnorr sig sighash (drop 2 (script_pubkey o)) = true.

Lemma sign_one_ok w tx inputs prevouts n i :
  draft tx -> length (tx_inputs tx) = length inputs -> Forall2 (held w) inputs prevouts -> inputs !! n = Some i ->
  exists sig, sign_one w prevouts tx n i = Ok sig /\ signature_ok tx prevouts n sig.
Proof.
  intros Hd Hl Hp Hn. destruct (Forall2_lookup_l _ _ _ _ _ Hp Hn) as (o & Ho & Hh).
  destruct (key_sighash_ok w tx inputs prevouts n i o Hd Hl Hp Hn Ho) as [h Hsh].
  destruct (held_script w i o Hh) as (x & s & Hk & Hs & Hsc & _).
  set (key := (x_only_public_key (from_secret_key s)).1) in *.
  assert (length key = 32%nat) as Hkl by apply (x_only_bytes (from_secret_key s)).
  pose proof (sign_verifies h s Hs) as Hv. fold key in Hv.
  exists (sign_schnorr_no_aux_rand h s). split.
  - unfold sign_one. rewrite Hsh. cbn [map_err mbind result_bind]. rewrite sign_key_path_eq, Hk.
    cbn [map_err mbind result_bind sign_digest ws_public_key ws_signature]. rewrite Ho. cbn [ok_or mbind result_bind].
    rewrite Hsc. change (drop 2 (0x51 :: 0x20 :: key)) with key. rewrite (take_ge key 32) by lia.
    rewrite (proj2 (Z.ltb_ge _ _)) by (unfold len; cbn [length]; lia).
    rewrite bool_decide_eq_true_2 by done. cbn [negb]. unfold verify_signature.
    rewrite xonly_of_key. cbn [negb]. fold key. by rewrite Hv.
  - exists o, h. split; [done|]. split; [done|]. split; [by apply sign_length|]. by rewrite Hsc.
Qed.

Lemma imap_pair_zip {A} (l : list A) : imap pair l = zip (seq 0 (length l)) l.
Proof.
  apply list_eq. intros n. rewrite list_lookup_imap, lookup_zip_with. destruct (l !! n) as [x|] eqn:Hx.
  - by rewrite lookup_seq_lt by (by eapply lookup_lt_Some).
  - cbn. destruct (seq 0 (length l) !! n); done.
Qed.

Lemma sign_inputs w tx inputs prevouts :
  draft tx -> length (tx_inputs tx) = length inputs -> Forall2 (held w) inputs prevouts ->
  exists sigs, try_fold (sign_input w prevouts) tx (imap pair inputs) = Ok (with_signatures tx sigs)
    /\ length sigs = length inputs
    /\ forall n sig, sigs !! n = Some sig -> signature_ok (with_signatures tx sigs) prevouts n sig.
Proof.
  intros Hd Hl Hp. rewrite imap_pair_zip.
  assert (forall tx l, try_fold (sign_input w prevouts) tx l
            = try_fold (sign_next (sign_one w prevouts) FundingVerification) tx l) as ->.
  { clear. intros tx l. revert tx. induction l as [|p l IH]; intros tx; [done|]. cbn [try_fold].
    rewrite sign_input_next. destruct (sign_next _ _ _ _); [apply IH|done]. }
  rewrite (sign_loop (sign_one w prevouts) FundingVerification); [| | |done|by apply dr_marked].
  2:{ intros t t' n i Ht. unfold sign_one. by rewrite Ht. }
  2:{ intros t n i s Hs%sign_one_length. unfold len. rewrite Hs. cbv. discriminate. }
  assert (exists sigs, try_map (fun p => sign_one w prevouts tx p.1 p.2) (zip (seq 0 (length inputs)) inputs) = Ok sigs
    /\ Forall2 (fun p sig => signature_ok tx prevouts p.1 sig) (zip (seq 0 (length inputs)) inputs) sigs)
    as (sigs & Hsigs & Hok).
  { assert (Forall (fun p => inputs !! p.1 = Some p.2) (zip (seq 0 (length inputs)) inputs)) as Hall.
    { apply Forall_lookup. intros n [m i]. rewrite lookup_zip_Some. intros [[-> _]%lookup_seq Hi]. done. }
    revert Hall. generalize (zip (seq 0 (length inputs)) inputs) as l. intros l.
    induction 1 as [|[n i] l Hi _ (sigs & Hs & IH)]; [by exists []|].
    destruct (sign_one_ok w tx inputs prevouts n i Hd Hl Hp Hi) as (sig & Hsig & Hok).
    exists (sig :: sigs). cbn [try_map fst snd]. rewrite Hsig. cbn [mbind result_bind]. rewrite Hs. split; [done|by constructor]. }
  rewrite Hsigs. exists sigs. split; [done|].
  assert (length sigs = length inputs) as Hsl.
  { apply Forall2_length in Hok. rewrite length_zip_with, length_seq in Hok. lia. }
  split; [done|]. intros n sig Hn.
  assert (signature_ok tx prevouts n sig) as (o & h & Ho & Hsh & H64 & Hv).
  { destruct (Forall2_lookup_r _ _ _ _ _ Hok Hn) as ([m i] & Hz & Hso).
    apply lookup_zip_Some in Hz as [[-> _]%lookup_seq _]. done. }
  exists o, h. split; [done|]. split; [|done].
  rewrite <- Hsh. apply key_sighash_proper; [|done|done]. apply with_signatures_same. lia.
Qed.

(** ** The transaction *)

Lemma validate_request_Ok inputs request :
  validate_request inputs request = Ok tt ->
  0 < len inputs <= 64 /\ fr_fee_rate_sat_per_vbyte request <= MAX_FEE_RATE_SAT_PER_VBYTE
  /\ len (fr_destination_script_pubkey request) <= MAX_SCRIPT_BYTES
  /\ Forall (fun i => is_lower_hex_32 (fi_txid i) = true) inputs.
Proof.
  unfold validate_request. destruct inputs as [|i0 inputs]; [done|]. set (all := i0 :: inputs). cbn [is_empty orb].
  destruct (Z.ltb_spec MAX_FUNDING_INPUTS (len all)); [done|].
  destruct (_ || _ || _ || _ || _) eqn:Hb; [done|]. rewrite !orb_false_iff, !Z.ltb_ge in Hb.
  destruct (existsb _ _) eqn:Hx; [done|]. intros _.
  unfold MAX_FUNDING_INPUTS in *. split; [unfold all, len in *; cbn [length] in *; lia|]. split; [lia|]. split; [lia|].
  apply Forall_forall. intros i Hi. apply not_true_iff_false in Hx. rewrite existsb_exists in Hx.
  destruct (is_lower_hex_32 (fi_txid i)) eqn:Hh; [done|]. destruct Hx. exists i.
  split; [by apply list_elem_of_In|]. rewrite Hh. apply orb_true_r.
Qed.

Lemma transaction_cost_signed tx prevouts :
  key_spends tx -> length (tx_inputs tx) = length prevouts ->
  Forall (fun o => 0 <= value_sat o) prevouts -> Forall (fun o => 0 <= value_sat o) (tx_outputs tx) ->
  total_value (tx_outputs tx) <= total_value prevouts <= U64_MAX ->
  exists weight, transaction_cost tx prevouts
  = Ok (mkCost (total_value prevouts - total_value (tx_outputs tx)) weight (funding_size (len (tx_inputs tx)) (tx_outputs tx))).
Proof.
  intros Hk Hl Hp Ho Htot. unfold transaction_cost. rewrite (proj2 (Nat.eqb_eq _ _)) by done. cbn [negb].
  rewrite (proj2 (sum_values_Ok _ prevouts (total_value prevouts) Hp)) by (split; [done|lia]). cbn [mbind result_bind].
  rewrite (proj2 (sum_values_Ok _ (tx_outputs tx) (total_value (tx_outputs tx)) Ho)) by (split; [done|lia]). cbn [mbind result_bind].
  rewrite checked_sub_eq by lia. cbn [ok_or mbind result_bind]. destruct (key_spends_size tx Hk) as (_ & _ & Hv). rewrite Hv.
  unfold virtual_size in Hv. apply bind_Ok in Hv as (wt & -> & _). by exists wt.
Qed.

(** What a funding transaction is: the inputs in order, each signed for this
    very transaction, the outputs, and where the money went. *)
Record funded (request : FundingRequest) (sorted : list FundingInput) (prevouts : list TransactionOutput)
    (change_script : list Z) (s : SignedFundingTransaction) : Prop := mkFunded {
  fd_count : length (tx_inputs (sf_transaction s)) = length sorted;
  fd_signed n i : sorted !! n = Some i -> exists id sig,
    tx_inputs (sf_transaction s) !! n = Some (mkInput id (fi_vout i) [] NON_RBF_LOCKTIME_SEQUENCE [sig])
    /\ fi_txid i = encode_lower_hex (reverse id) /\ signature_ok (sf_transaction s) prevouts n sig;
  fd_outputs : tx_outputs (sf_transaction s)
    = destination request :: match sf_change_sat s with Some c => [mkOutput c change_script] | None => [] end;
  fd_lock_time : tx_version (sf_transaction s) = 2 /\ tx_lock_time (sf_transaction s) = fr_lock_time request;
  fd_conserved : total_value prevouts = fr_amount_sat request + default 0 (sf_change_sat s) + sf_fee_sat s;
  fd_rate : exists v, virtual_size (sf_transaction s) = Ok v
    /\ match sf_change_sat s with
       | Some c => 330 <= c /\ sf_fee_sat s = fr_fee_rate_sat_per_vbyte request * v
       | None => fr_fee_rate_sat_per_vbyte request * v <= sf_fee_sat s
                 < fr_fee_rate_sat_per_vbyte request * (v + 43) + 330
       end;
  fd_raw : exists raw id, transaction_serialize (sf_transaction s) true = Ok raw /\ sf_raw_transaction s = encode_lower_hex raw
    /\ txid (sf_transaction s) = Ok id /\ sf_txid s = encode_lower_hex id;
}.

Definition funding_typed (inputs : list FundingInput) (request : FundingRequest) : Prop :=
  Forall (fun i => 0 <= fi_value_sat i) inputs /\ 0 <= fr_amount_sat request /\ 0 <= fr_fee_rate_sat_per_vbyte request.

Lemma spends_draft sorted ts :
  Forall (fun i => is_lower_hex_32 (fi_txid i) = true) sorted -> Forall2 spends sorted ts ->
  Forall (fun i => length (previous_txid i) = 32%nat /\ script_sig i = [] /\ witness i = []) ts.
Proof.
  intros Hh Hs. apply Forall_lookup. intros n t Ht. destruct (Forall2_lookup_r _ _ _ _ _ Hs Ht) as (i & Hi & id & Hid & ->).
  destruct (txid_wire_bytes_spec (fi_txid i)) as (id' & Hid' & Hl & _); [by eapply Forall_lookup_1 in Hh|].
  split; [|done]. cbn [previous_txid]. congruence.
Qed.

Section sorted.
Context (w : ProviderWallet) (request : FundingRequest) (sorted : list FundingInput).
Context (ts : list TransactionInput) (ps : list TransactionOutput) (change : TaprootAddress).
Context (Hn : 0 < len sorted <= 64) (Hh : Forall (fun i => is_lower_hex_32 (fi_txid i) = true) sorted).
Context (Hts : Forall2 spends sorted ts) (Hps : Forall2 (held w) sorted ps).
Context (Hty : funding_typed sorted request) (Htot : total_value ps <= U64_MAX).

(** The rest of [build_funding_transaction], once the plan is made. *)
Definition finish (tx : Transaction) (change_sat : option Z) : result FundingError SignedFundingTransaction :=
  tx ← try_fold (sign_input w ps) tx (imap pair sorted);
  cost ← map_err (fun _ => FundingVerification) (transaction_cost tx ps);
  required_fee ← ok_or (FundingOverflow "funding fee overflow")
                   (checked_mul U64_MAX (fr_fee_rate_sat_per_vbyte request) (cost_virtual_size cost));
  if cost_fee_sat cost <? required_fee then Err FundingVerification
  else
  raw ← map_err (fun _ => FundingVerification) (transaction_serialize tx true);
  id ← map_err (fun _ => FundingVerification) (txid tx);
  Ok (mkSignedFunding tx (encode_lower_hex raw) (encode_lower_hex id) (cost_fee_sat cost) change_sat).

Lemma finish_signed os c :
  let tx := transaction_new 2 ts (destination request :: os) (fr_lock_time request) in
  let size := funding_size (len ts) (destination request :: os) in
  let fee := total_value ps - fr_amount_sat request - total_value os in
  draft tx -> Forall (fun o => 0 <= value_sat o) os ->
  fr_fee_rate_sat_per_vbyte request <= MAX_FEE_RATE_SAT_PER_VBYTE -> fr_fee_rate_sat_per_vbyte request * size <= fee ->
  exists sigs raw id, let tx := with_signatures tx sigs in
    finish (transaction_new 2 ts (destination request :: os) (fr_lock_time request)) c
    = Ok (mkSignedFunding tx (encode_lower_hex raw) (encode_lower_hex id) fee c)
    /\ length sigs = length sorted /\ (forall n sig, sigs !! n = Some sig -> signature_ok tx ps n sig)
    /\ transaction_serialize tx true = Ok raw /\ txid tx = Ok id /\ virtual_size tx = Ok size.
Proof.
  intros tx size fee Hd Ho Hmax Hfee. destruct Hty as (Hpos & Ha & Hr).
  assert (length (tx_inputs tx) = length sorted) as Hl by (by rewrite (Forall2_length _ _ _ Hts)).
  destruct (sign_inputs w tx sorted ps Hd Hl Hps) as (sigs & Hsign & Hsl & Hok).
  assert (Forall (fun s => length s = 64%nat) sigs) as H64.
  { apply Forall_lookup. intros n sig (o & h & _ & _ & ? & _)%Hok. done. }
  destruct (signed_draft tx sigs Hd ltac:(lia) H64) as [Hks Hklen]. destruct (key_spends_size _ Hks) as (Hser & Hser' & Hv).
  destruct (funding_size_bound _ _ (dr_count _ Hd) (dr_outputs _ Hd) (dr_scripts _ Hd)) as [Hs0 Hs1].
  destruct (transaction_cost_signed (with_signatures tx sigs) ps Hks) as [wt Hcost].
  { apply Forall2_length in Hps. unfold len in Hklen. lia. }
  { by apply (held_total w sorted). }
  { by constructor. }
  { change (total_value (tx_outputs (with_signatures tx sigs))) with (fr_amount_sat request + total_value os).
    unfold fee in Hfee. change (funding_size _ _) with size in Hs0. nia. }
  rewrite Hklen in Hv, Hcost. change (funding_size _ _) with size in Hv, Hcost, Hs0, Hs1.
  change (total_value (tx_outputs (with_signatures tx sigs))) with (fr_amount_sat request + total_value os) in Hcost.
  replace (total_value ps - (fr_amount_sat request + total_value os)) with fee in Hcost by (unfold fee; lia).
  unfold MAX_FEE_RATE_SAT_PER_VBYTE in Hmax.
  eexists sigs, _, _. cbn zeta. split; [|split_and!; try done; unfold txid; by rewrite Hser'].
  unfold finish. fold tx. rewrite Hsign. cbn [mbind result_bind]. rewrite Hcost. cbn [map_err mbind result_bind cost_virtual_size cost_fee_sat].
  rewrite checked_mul_eq by (unfold U64_MAX; nia). cbn [ok_or mbind result_bind]. rewrite (proj2 (Z.ltb_ge _ _)) by done.
  rewrite Hser. cbn [map_err mbind result_bind]. unfold txid. rewrite Hser'. done.
Qed.

Lemma finish_funded script c :
  let os := match c with Some c => [mkOutput c script] | None => [] end in
  let tx := transaction_new 2 ts (destination request :: os) (fr_lock_time request) in
  let size := funding_size (len ts) (destination request :: os) in
  let rate := fr_fee_rate_sat_per_vbyte request in
  let fee := total_value ps - fr_amount_sat request - default 0 c in
  draft tx -> rate <= MAX_FEE_RATE_SAT_PER_VBYTE -> rate * size <= fee ->
  match c with Some c => 330 <= c /\ fee = rate * size | None => fee < rate * (size + 43) + 330 end ->
  exists s, finish tx c = Ok s /\ sf_change_sat s = c /\ sf_fee_sat s = fee /\ funded request sorted ps script s.
Proof.
  intros os tx size rate fee Hd Hmax Hfee Hcase.
  assert (total_value os = default 0 c) as Hos by (destruct c; cbn; lia).
  destruct (finish_signed os c Hd) as (sigs & raw & id & Hfin & Hsl & Hok & Hser & Hid & Hv); [|done| |].
  { destruct c; repeat constructor. cbn [value_sat]. lia. }
  { rewrite Hos. done. }
  rewrite Hos in Hfin. fold tx fee in Hfin, Hok, Hser, Hid, Hv. eexists. split; [exact Hfin|]. split; [done|]. split; [done|].
  pose proof (Forall2_length _ _ _ Hts) as Hlt. split; cbn [sf_transaction sf_change_sat sf_fee_sat sf_raw_transaction sf_txid].
  - cbn [with_signatures tx transaction_new tx_inputs]. rewrite length_zip_with. lia.
  - intros n i Hi. destruct (Forall2_lookup_l _ _ _ _ _ Hts Hi) as (t & Ht & idn & Hidn & ->).
    destruct (lookup_lt_is_Some_2 sigs n) as [sig Hsig]; [rewrite Hsl; by eapply lookup_lt_Some|].
    exists idn, sig. split; [|split; [|by apply Hok]].
    + cbn [with_signatures tx transaction_new tx_inputs]. rewrite lookup_zip_with, Ht, Hsig. done.
    + destruct (txid_wire_bytes_spec (fi_txid i)) as (id' & Hid' & _ & _ & Henc); [by eapply Forall_lookup_1 in Hh|].
      rewrite Hidn in Hid'. by apply Ok_inj in Hid' as <-.
  - done.
  - done.
  - unfold fee. lia.
  - exists size. split; [done|]. destruct c; [done|]. split; [exact Hfee|exact Hcase].
  - by exists raw, id.
Qed.
End sorted.

Definition input_total (inputs : list FundingInput) : Z := foldr (fun i acc => fi_value_sat i + acc) 0 inputs.

#[export] Instance input_total_proper : Proper ((≡ₚ) ==> eq) input_total.
Proof. intros l l' Hl. unfold input_total. induction Hl; cbn [foldr]; lia. Qed.

Lemma held_sum w inputs prevouts : Forall2 (held w) inputs prevouts -> total_value prevouts = input_total inputs.
Proof.
  induction 1 as [|i o inputs prevouts (a & _ & ->) _ IH]; [done|]. unfold total_value, input_total in *.
  cbn [foldr value_sat]. lia.
Qed.

(** The sorted inputs, what they spend, and the change address: everything
    the transaction is made from. *)
Record ready (w : ProviderWallet) (inputs : list FundingInput) (request : FundingRequest)
    (ts : list TransactionInput) (ps : list TransactionOutput) (change : TaprootAddress) : Prop := mkReady {
  rd_valid : validate_request inputs request = Ok tt;
  rd_distinct : NoDup (outpoint <$> inputs);
  rd_inputs : Forall2 spends (merge_sort input_le inputs) ts;
  rd_prevouts : Forall2 (held w) (merge_sort input_le inputs) ps;
  rd_total : input_total inputs <= U64_MAX;
  rd_change : derive_address w (fr_change_path request) = Ok change;
}.

Lemma ready_sorted w inputs request ts ps change :
  funding_typed inputs request -> ready w inputs request ts ps change ->
  let sorted := merge_sort input_le inputs in
  funding_typed sorted request /\ 0 < len sorted <= 64 /\ len ts = len inputs /\ total_value ps = input_total inputs
  /\ Forall (fun i => is_lower_hex_32 (fi_txid i) = true) sorted /\ p2tr (ta_script_pubkey change).
Proof.
  intros [Hpos Hty] [Hval _ Hts Hps _ Hch] sorted. destruct (validate_request_Ok _ _ Hval) as (Hn & _ & _ & Hh).
  pose proof (merge_sort_Permutation input_le inputs) as Hp. fold sorted in Hp, Hts, Hps.
  assert (len sorted = len inputs) as Hl by (unfold len; by rewrite Hp).
  split; [by split; [rewrite Hp|]|]. split; [by rewrite Hl|].
  split; [unfold len in *; apply Forall2_length in Hts; lia|].
  split; [by rewrite (held_sum _ _ _ Hps), Hp|]. split; [by rewrite Hp|].
  destruct (held_script w (mkFundingInput "" 0 0 (fr_change_path request)) (mkOutput 0 (ta_script_pubkey change)))
    as (_ & _ & _ & _ & _ & Hp2); [by exists change|done].
Qed.

Lemma build_finish w inputs request ts ps change :
  funding_typed inputs request -> ready w inputs request ts ps change ->
  build_funding_transaction w inputs request
  = '(tx, change_sat) ← plan_transaction ts (input_total inputs) request (ta_script_pubkey change);
    finish w request (merge_sort input_le inputs) ps tx change_sat.
Proof.
  intros Hty Hr. destruct (ready_sorted _ _ _ _ _ _ Hty Hr) as ((Hpos & _) & _ & _ & Htot & _).
  destruct Hr as [Hval Hnd Hts Hps Hmax Hch]. unfold build_funding_transaction. rewrite Hval. cbn [mbind result_bind].
  rewrite (proj2 (proj2 (proj2 (inputs_sorted inputs))) Hnd).
  rewrite (proj2 (collect_inputs w (merge_sort input_le inputs) 0 [] [] (input_total inputs) ts ps Hpos ltac:(done))).
  2:{ exists ts, ps. rewrite Htot. split_and!; done. }
  cbn [mbind result_bind]. rewrite Hch. done.
Qed.

(** The outcome, by the money there is. *)
Lemma build_outcome w inputs request ts ps change :
  funding_typed inputs request -> ready w inputs request ts ps change ->
  is_dust (destination request) DUST_RELAY_FEE_SAT_PER_KB = Ok false ->
  let build := build_funding_transaction w inputs request in
  let sorted := merge_sort input_le inputs in
  let amount := fr_amount_sat request in
  let total := input_total inputs in
  let fee := fr_fee_rate_sat_per_vbyte request * funding_size (len inputs) [destination request] in
  let rest := total - amount - (fee + change_fee request) in
  let built c f := exists s, build = Ok s /\ sf_change_sat s = c /\ sf_fee_sat s = f
                    /\ funded request sorted ps (ta_script_pubkey change) s in
  if U64_MAX <? amount + (fee + change_fee request) + 330
  then build = Err (FundingOverflow "funding output amount overflow")
  else if 330 <=? rest then built (Some rest) (fee + change_fee request)
  else if amount + fee <=? total then built None (total - amount)
  else build = Err InsufficientFunds.
Proof.
  intros Hty Hr Hdust build sorted amount total fee rest built.
  destruct (ready_sorted _ _ _ _ _ _ Hty Hr) as (Hty' & Hn & Hlen & Htot & Hh & Hp2).
  pose proof (build_finish w inputs request ts ps change Hty Hr) as Hb. fold build total in Hb.
  destruct Hr as [Hval _ Hts Hps Hmax _]. destruct (validate_request_Ok _ _ Hval) as (Hc & Hrate & Hdest & _).
  pose proof (spends_draft _ _ Hh Hts) as Hd. destruct Hty as (_ & Ha & Hr0).
  assert (base_fee ts request = fee) as Hbase by (unfold base_fee; by rewrite Hlen).
  rewrite (plan_transaction_eq ts request _ Hd ltac:(lia) Hp2 ltac:(done) Hdest total Hdust Ha), Hbase in Hb. fold amount rest in Hb.
  pose proof (fun c => finish_funded w request sorted ts ps Hh Hts Hps Hty' ltac:(lia) (ta_script_pubkey change) c) as Hfin.
  rewrite Htot, Hlen in Hfin. fold total amount in Hfin.
  destruct (U64_MAX <? _); [done|]. destruct (Z.leb_spec 330 rest) as [Hge|Hlt].
  - destruct (planned_draft ts request _ Hd ltac:(lia) Hp2 ltac:(done) Hdest [mkOutput rest (ta_script_pubkey change)]
                ltac:(right; by eexists)) as [Hdr _].
    assert (funding_size (len inputs) [destination request; mkOutput rest (ta_script_pubkey change)]
            = funding_size (len inputs) [destination request] + 43) as Hsz by (by apply (p2tr_size _ [destination request])).
    destruct (Hfin (Some rest) Hdr Hrate) as (s & Hs & Hcs & Hfs & Hfd); [| |].
    + change (default 0 (Some rest)) with rest. rewrite Hsz. unfold rest, change_fee, fee. lia.
    + change (default 0 (Some rest)) with rest. rewrite Hsz. unfold rest, change_fee, fee in *. lia.
    + exists s. rewrite Hb. split; [exact Hs|]. split; [done|]. split; [|done]. rewrite Hfs.
      change (default 0 (Some rest)) with rest. unfold rest. lia.
  - destruct (planned_draft ts request _ Hd ltac:(lia) Hp2 ltac:(done) Hdest [] ltac:(by left)) as [Hdr _].
    destruct (Z.leb_spec (amount + fee) total) as [Hge|Hlt2]; [|done].
    destruct (Hfin None Hdr Hrate) as (s & Hs & Hcs & Hfs & Hfd); [| |].
    + change (default 0 None) with 0. unfold fee in Hge. lia.
    + change (default 0 None) with 0. unfold rest, change_fee, fee in Hlt. lia.
    + exists s. rewrite Hb. split; [exact Hs|]. split; [done|]. split; [|done]. rewrite Hfs.
      change (default 0 None) with 0. lia.
Qed.
(** A transaction that was built had everything it is made from. *)
Lemma build_ready w inputs request s :
  funding_typed inputs request -> build_funding_transaction w inputs request = Ok s ->
  exists ts ps change, ready w inputs request ts ps change
    /\ is_dust (destination request) DUST_RELAY_FEE_SAT_PER_KB = Ok false.
Proof.
  intros (Hpos & _) Hr. unfold build_funding_transaction in Hr. apply bind_Ok in Hr as ([] & Hval & Hr).
  destruct (inputs_sorted inputs) as (Hp & _ & Hnd). cbv zeta in Hr. set (sorted := merge_sort input_le inputs) in *.
  destruct (repeats sorted) eqn:Hrep; [done|].
  apply bind_Ok in Hr as ([[total ts] ps] & Hc & Hr). apply bind_Ok in Hr as (change & Hch%map_err_Ok & Hr).
  apply bind_Ok in Hr as ([tx c] & Hplan & _).
  apply collect_inputs in Hc as (ts' & ps' & -> & -> & Hts & Hps & -> & Hmax); [|by rewrite Hp|done].
  exists ts', ps', change. split.
  - split; try done; [by apply Hnd|]. rewrite <- Hp, <- (held_sum _ _ _ Hps). lia.
  - unfold plan_transaction in Hplan. apply bind_Ok in Hplan as (dust & Hd%map_err_Ok & Hplan). by destruct dust.
Qed.

(** C20: a funding transaction the wallet builds is exactly the one asked for:
    it spends every given output once, in the order of their outpoints, from
    the wallet's own addresses; it pays the destination the amount and
    returns change, at least the dust limit, to the wallet's change address
    or nothing; no satoshi is lost, and the fee is the fee rate times the
    virtual size of the transaction as signed, plus, without a change output,
    less than what the change output would have cost and been worth; every
    input carries one 64-byte signature that verifies, under the key of the
    output it spends, for the digest of this very transaction. *)
Theorem funding_signed w inputs request s :
  funding_typed inputs request -> build_funding_transaction w inputs request = Ok s ->
  exists sorted prevouts change,
    sorted ≡ₚ inputs /\ StronglySorted input_le sorted /\ NoDup (outpoint <$> sorted)
    /\ Forall2 (held w) sorted prevouts
    /\ derive_address w (fr_change_path request) = Ok change
    /\ is_dust (destination request) DUST_RELAY_FEE_SAT_PER_KB = Ok false
    /\ funded request sorted prevouts (ta_script_pubkey change) s.
Proof.
  intros Hty Hb. destruct (build_ready _ _ _ _ Hty Hb) as (ts & ps & change & Hr & Hdust).
  destruct (inputs_sorted inputs) as (Hp & Hs & _). exists (merge_sort input_le inputs), ps, change.
  split; [done|]. split; [done|]. split; [rewrite Hp; by apply (rd_distinct _ _ _ _ _ _ Hr)|].
  split; [by apply (rd_prevouts _ _ _ _ _ _ Hr)|]. split; [by apply (rd_change _ _ _ _ _ _ Hr)|]. split; [done|].
  pose proof (build_outcome w inputs request ts ps change Hty Hr Hdust) as Ho. cbn zeta in Ho. rewrite Hb in Ho.
  destruct (U64_MAX <? _); [done|]. destruct (330 <=? _); [|destruct (_ <=? _); [|done]];
    by destruct Ho as (s' & <-%Ok_inj & _ & _ & Hf).
Qed.

(** The decision: change when it is worth it, else what is left goes to
    the fee, else there is not enough. *)
Definition funding_outcome (w : ProviderWallet) (inputs : list FundingInput) (request : FundingRequest) : Prop :=
  let total := input_total inputs in
  let amount := fr_amount_sat request in
  let rate := fr_fee_rate_sat_per_vbyte request in
  let fee := rate * funding_size (len inputs) [destination request] in
  let rest := total - amount - (fee + rate * 43) in
  let built c f := exists s, build_funding_transaction w inputs request = Ok s /\ sf_change_sat s = c /\ sf_fee_sat s = f in
  if 330 <=? rest then built (Some rest) (fee + rate * 43)
  else if amount + fee <=? total then built None (total - amount)
  else build_funding_transaction w inputs request = Err InsufficientFunds.

(** All the bitcoin there is. *)
Definition MAX_MONEY : Z := 2100000000000000.

Lemma funding_decided w inputs request change :
  funding_typed inputs request -> validate_request inputs request = Ok tt -> NoDup (outpoint <$> inputs) ->
  Forall (fun i => is_ok (derive_address w (fi_path i)) = true) inputs ->
  derive_address w (fr_change_path request) = Ok change ->
  is_dust (destination request) DUST_RELAY_FEE_SAT_PER_KB = Ok false ->
  input_total inputs <= U64_MAX -> fr_amount_sat request <= MAX_MONEY ->
  funding_outcome w inputs request.
Proof.
  intros Hty Hval Hnd Hder Hch Hdust Hmax Ham. unfold funding_outcome. cbv zeta.
  set (total := input_total inputs). set (amount := fr_amount_sat request). set (rate := fr_fee_rate_sat_per_vbyte request).
  set (fee := rate * funding_size (len inputs) [destination request]). set (rest := total - amount - (fee + rate * 43)).
  destruct (validate_request_Ok _ _ Hval) as (Hn & Hrate & Hdest & Hh).
  pose proof (merge_sort_Permutation input_le inputs) as Hp. set (sorted := merge_sort input_le inputs) in *.
  assert (exists ts, Forall2 spends sorted ts) as [ts Hts].
  { rewrite <- Hp in Hh. clear -Hh. induction Hh as [|i l Hi _ [ts IH]]; [by exists []|].
    destruct (txid_wire_bytes_spec _ Hi) as (id & Hid & _). eexists (_ :: ts). constructor; [|done]. exists id. split; [done|reflexivity]. }
  assert (exists ps, Forall2 (held w) sorted ps) as [ps Hps].
  { rewrite <- Hp in Hder. clear -Hder. induction Hder as [|i l Hi _ [ps IH]]; [by exists []|].
    apply is_ok_spec in Hi as [a Ha]. eexists (_ :: ps). constructor; [|done]. exists a. split; [done|reflexivity]. }
  pose proof (build_outcome w inputs request ts ps change Hty ltac:(by split) Hdust) as Ho. cbn zeta in Ho.
  change (change_fee request) with (rate * 43) in Ho. fold rate total amount fee rest in Ho.
  destruct (Z.ltb_spec U64_MAX (amount + (fee + rate * 43) + 330)) as [Hover|_].
  { pose proof (funding_size_bound (len inputs) [destination request] Hn ltac:(cbv; split; congruence) ltac:(by repeat constructor)).
    unfold fee, rate, amount, U64_MAX, MAX_MONEY, MAX_FEE_RATE_SAT_PER_VBYTE in *. destruct Hty as (_ & _ & ?). nia. }
  destruct (330 <=? rest); [|destruct (amount + fee <=? total); [|done]];
    destruct Ho as (s & Hs & Hc & Hf & _); by exists s.
Qed.

(** C23: funding succeeds exactly when the money is there: for a valid request
    over distinct outputs of derivable addresses, the transaction is built
    with change when the change is at least the dust limit after paying for
    its own output, without change when the inputs cover the amount and the
    fee only, and refused for insufficient funds otherwise; neither the size
    estimate, the signatures nor the final verification can fail. *)
Theorem funding_complete w inputs request change :
  funding_typed inputs request -> validate_request inputs request = Ok tt -> NoDup (outpoint <$> inputs) ->
  Forall (fun i => is_ok (derive_address w (fi_path i)) = true) inputs ->
  derive_address w (fr_change_path request) = Ok change ->
  is_dust (destination request) DUST_RELAY_FEE_SAT_PER_KB = Ok false ->
  input_total inputs <= U64_MAX -> fr_amount_sat request <= MAX_MONEY ->
  funding_outcome w inputs request.
Proof. apply funding_decided. Qed.
End build.

(** ** Examples *)

Definition example_inputs : list FundingInput :=
  [mkFundingInput (encode_lower_hex (replicate 32 0xbb)) 1 40000 (mkPath 0 false 3);
   mkFundingInput (encode_lower_hex (replicate 32 0xaa)) 0 20000 (mkPath 0 true 1)].
Definition example_request : FundingRequest :=
  mkFundingRequest (0x51 :: 0x20 :: replicate 32 5) 50000 2 (mkPath 0 true 7) 800000.

#[local] Existing Instances toy_schnorr toy_secp toy_add_tweak toy_wallet.

Lemma example_typed : funding_typed example_inputs example_request.
Proof. split; [repeat constructor; done|done]. Qed.

Lemma example_built :
  exists s change, build_funding_transaction example_wallet example_inputs example_request = Ok s
  /\ derive_address example_wallet (fr_change_path example_request) = Ok change
  /\ Forall (fun i => is_ok (derive_address example_wallet (fi_path i)) = true) example_inputs.
Proof.
  assert (is_ok (build_funding_transaction example_wallet example_inputs example_request) = true) as [s Hs]%is_ok_spec
    by (vm_compute; reflexivity).
  assert (is_ok (derive_address example_wallet (fr_change_path example_request)) = true) as [change Hc]%is_ok_spec
    by (vm_compute; reflexivity).
  assert (forallb (fun i => is_ok (derive_address example_wallet (fi_path i))) example_inputs = true) as Hall
    by (vm_compute; reflexivity).
  exists s, change. split; [exact Hs|]. split; [exact Hc|]. apply Forall_forall. intros i Hi%list_elem_of_In.
  exact (proj1 (forallb_forall _ _) Hall i Hi).
Qed.

Lemma funding_signed_witness :
  exists s sorted prevouts change, build_funding_transaction example_wallet example_inputs example_request = Ok s
  /\ sorted ≡ₚ example_inputs /\ derive_address example_wallet (fr_change_path example_request) = Ok change
  /\ funded example_request sorted prevouts (ta_script_pubkey change) s.
Proof.
  destruct example_built as (s & _ & Hb & _).
  destruct (@funding_signed _ _ _ _ toy_schnorr_digest toy_add_tweak_scalar toy_secp_laws toy_tweak_laws
              toy_wallet_laws example_wallet example_inputs example_request s example_typed Hb)
    as (sorted & prevouts & change & Hp & _ & _ & _ & Hch & _ & Hf).
  exists s, sorted, prevouts, change. split; [exact Hb|]. split; [exact Hp|]. split; [exact Hch|exact Hf].
Defined.

Lemma funding_complete_witness : funding_outcome example_wallet example_inputs example_request.
Proof.
  destruct example_built as (_ & change & _ & Hch & Hder).
  apply (@funding_complete _ _ _ _ toy_schnorr_digest toy_add_tweak_scalar toy_secp_laws toy_tweak_laws
           toy_wallet_laws example_wallet example_inputs example_request change).
  - exact example_typed.
  - vm_compute. reflexivity.
  - apply (bool_decide_unpack _). vm_compute. exact I.
  - exact Hder.
  - exact Hch.
  - vm_compute. reflexivity.
  - vm_compute. discriminate.
  - vm_compute. discriminate.
Defined.
