(* ===== verification/Liquidity.v ===== *)
(** * Liquidity: which outputs the wallet can spend

    [immortal-provider/src/liquidity.rs]: deriving the scripts of the scan
    window, reading the answer of [scantxoutset], recording what was seen in
    the provider's store and choosing the inputs a funding transaction may
    use. *)

From S2P Require Import Prelude Text Utf8 Hex Bech32 Event Wire Transaction Taproot Musig2 Expanded Filter Json ProviderDb Ledger Effects Bitcoind Wallet Funding.

Definition MAX_GAP_LIMIT : Z := 64.
Definition MAX_ELIGIBLE_UTXOS : Z := 64.
Definition MAX_SCAN_UNSPENTS : Z := 512.
Definition COINBASE_MATURITY : Z := 100.
Definition MAX_BITCOIN_SATOSHIS : Z := 2100000000000000.

Inductive LiquidityError : Type :=
| LInvalidConfiguration (detail : string)
| LInvalidScan (detail : string)
| LWallet (error : WalletError)
| LBitcoind (error : BitcoindError)
| LStore (error : ProviderStoreError).

Record WalletScanPolicy : Type := mkScanPolicy {
  sp_asset_id : string;
  sp_account : Z;
  sp_first_address_index : Z;
  sp_gap_limit : Z;
  sp_minimum_confirmations : Z;
  sp_maximum_eligible_utxos : Z;
}.

(** [WalletScanPolicy::validate]. *)
Definition scan_policy_validate (p : WalletScanPolicy) : result LiquidityError unit :=
  if negb (starts_with "swp:1:" (sp_asset_id p)) || (512 <? str_len (sp_asset_id p))
     || existsb is_control (chars (sp_asset_id p))
  then Err (LInvalidConfiguration "asset ID is outside bounds")
  else if (sp_gap_limit p =? 0) || (MAX_GAP_LIMIT <? sp_gap_limit p)
  then Err (LInvalidConfiguration "BIP-86 gap limit is outside bounds")
  else if (sp_maximum_eligible_utxos p =? 0) || (MAX_ELIGIBLE_UTXOS <? sp_maximum_eligible_utxos p)
  then Err (LInvalidConfiguration "eligible UTXO limit is outside bounds")
  else if I32_MAX <? sp_minimum_confirmations p
  then Err (LInvalidConfiguration "minimum confirmation count is outside bounds")
  else
  last_index ← ok_or (LInvalidConfiguration "BIP-86 scan window overflows")
                 (checked_add U32_MAX (sp_first_address_index p) (sp_gap_limit p - 1));
  _ ← map_err LWallet (wallet_path_new (sp_account p) false last_index);
  _ ← map_err LWallet (wallet_path_new (sp_account p) true last_index);
  Ok tt.

(** [WalletScanPolicy::new]. *)
Definition scan_policy_new (asset_id : string) (account first_address_index gap_limit minimum_confirmations
    maximum_eligible_utxos : Z) : result LiquidityError WalletScanPolicy :=
  let policy := mkScanPolicy asset_id account first_address_index gap_limit minimum_confirmations
                  maximum_eligible_utxos in
  _ ← scan_policy_validate policy;
  Ok policy.

Record WalletLiquidity : Type := mkWalletLiquidity {
  wl_scan_height : Z;
  wl_best_block : string;
  wl_funding_inputs : list FundingInput;
}.

(** ** Amounts *)

(** [value.split_once(['e', 'E'])], the exponent [i32::MIN] when it does not
    parse. *)
Definition split_exponent (value : list Z) : list Z * Z :=
  match split_once_exponent value with
  | Some (mantissa, exponent) => (mantissa, default (- I32_MAX - 1) (parse_i32 exponent))
  | None => (value, 0)
  end.

Definition parse_btc_number (value : string) : result LiquidityError Z :=
  let '(mantissa, exponent) := split_exponent (as_bytes value) in
  if (exponent =? - I32_MAX - 1) || bool_decide (head mantissa = Some 45) || bool_decide (head mantissa = Some 43)
  then Err (LInvalidScan "UTXO amount is invalid")
  else
  let '(whole, fraction) := default (mantissa, []) (split_once_bytes 46 mantissa) in
  if is_empty whole || negb (forallb is_ascii_digit whole) || negb (forallb is_ascii_digit fraction)
  then Err (LInvalidScan "UTXO amount is invalid")
  else
  let exceeds := LInvalidScan "UTXO amount exceeds bounds" in
  magnitude ← ok_or exceeds (parse_bytes U128_MAX (whole ++ fraction));
  fraction_digits ← ok_or exceeds (checked_i32 (len fraction));
  satoshi_exponent ← ok_or exceeds
    (value ← checked_i32 (exponent - fraction_digits); checked_i32 (value + 8));
  satoshis ←
    (if 0 <=? satoshi_exponent then
       scale ← ok_or exceeds (checked_pow U128_MAX 10 satoshi_exponent);
       ok_or exceeds (checked_mul U128_MAX magnitude scale)
     else
       exponent ← ok_or exceeds (checked_i32 (- satoshi_exponent));
       divisor ← ok_or exceeds (checked_pow U128_MAX 10 exponent);
       if negb (magnitude mod divisor =? 0)
       then Err (LInvalidScan "UTXO amount is not an exact satoshi amount")
       else Ok (magnitude / divisor));
  if MAX_BITCOIN_SATOSHIS <? satoshis then Err (LInvalidScan "UTXO amount exceeds Bitcoin supply bounds")
  else ok_or exceeds (try_from_u U64_MAX satoshis).

Definition btc_decimal_to_satoshis (value : Value) : result LiquidityError Z :=
  match number_text value with
  | None => Err (LInvalidScan "UTXO amount is not a JSON number")
  | Some amount => parse_btc_number amount
  end.

(** ** The answer of the node *)

Definition value_as_bool (v : Value) : option bool :=
  match v with VBool b => Some b | _ => None end.
Definition value_as_u32 (v : Value) : option Z := value_as_u64 v ≫= try_from_u U32_MAX.

Definition parse_unspent (value : Value) (scan_height : Z) (script_paths : gmap string WalletPath)
    (asset_id : string) (observed_at : Z) : result LiquidityError UtxoObservation :=
  object ← ok_or (LInvalidScan "unspent entry is not an object") (value_as_object value);
  txid ← ok_or (LInvalidScan "UTXO txid is missing") (object_get "txid" object ≫= value_as_str);
  if negb (is_lower_hex_32 txid) then Err (LInvalidScan "UTXO txid is invalid")
  else
  vout ← ok_or (LInvalidScan "UTXO vout is invalid") (object_get "vout" object ≫= value_as_u32);
  script_pubkey ← ok_or (LInvalidScan "UTXO scriptPubKey is missing")
                    (object_get "scriptPubKey" object ≫= value_as_str);
  if bool_decide (script_paths !! script_pubkey = None)
  then Err (LInvalidScan "UTXO script is outside the wallet scan window")
  else
  amount ← ok_or (LInvalidScan "UTXO amount is missing") (object_get "amount" object);
  amount ← btc_decimal_to_satoshis amount;
  if amount =? 0 then Err (LInvalidScan "UTXO amount is zero")
  else
  output_height ← ok_or (LInvalidScan "UTXO height is invalid") (object_get "height" object ≫= value_as_u64);
  if scan_height <? output_height then Err (LInvalidScan "UTXO height follows the scan tip")
  else
  derived_confirmations ← ok_or (LInvalidScan "UTXO confirmation count is invalid")
    (difference ← checked_sub scan_height output_height;
     confirmations ← checked_add U64_MAX difference 1; try_from_u U32_MAX confirmations);
  confirmations ←
    match object_get "confirmations" object with
    | Some value => ok_or (LInvalidScan "UTXO confirmation count disagrees with its height")
        (v ← value_as_u32 value; if v =? derived_confirmations then Some v else None)
    | None => Ok derived_confirmations
    end;
  block_hash ←
    match object_get "blockhash" object with
    | Some (VString hash) => if is_lower_hex_32 hash then Ok (Some hash)
                             else Err (LInvalidScan "UTXO block hash is invalid")
    | Some _ => Err (LInvalidScan "UTXO block hash is invalid")
    | None => Ok None
    end;
  coinbase ←
    match object_get "coinbase" object with
    | Some (VBool value) => Ok value
    | Some _ => Err (LInvalidScan "coinbase marker is invalid")
    | None => Ok false
    end;
  let state := if (coinbase : bool) && (confirmations <? COINBASE_MATURITY) then "unresolved"%string else "available"%string in
  Ok (mkUtxo (mkOutPoint txid vout) asset_id amount script_pubkey state confirmations block_hash None observed_at).

Record ParsedScan : Type := mkParsedScan {
  ps_height : Z;
  ps_best_block : string;
  ps_observations : list UtxoObservation;
}.

Definition parse_scan (result : Value) (script_paths : gmap string WalletPath) (asset_id : string)
    (observed_at : Z) : Prelude.result LiquidityError ParsedScan :=
  object ← ok_or (LInvalidScan "result is not an object") (value_as_object result);
  if negb (bool_decide (object_get "success" object ≫= value_as_bool = Some true))
  then Err (LInvalidScan "scan did not complete")
  else
  height ← ok_or (LInvalidScan "scan height is invalid") (object_get "height" object ≫= value_as_u64);
  best_block ← ok_or (LInvalidScan "best block is missing") (object_get "bestblock" object ≫= value_as_str);
  if negb (is_lower_hex_32 best_block) then Err (LInvalidScan "best block is invalid")
  else
  unspents ← ok_or (LInvalidScan "unspents is not an array") (object_get "unspents" object ≫= value_as_array);
  if MAX_SCAN_UNSPENTS <? len unspents then Err (LInvalidScan "unspent result exceeds the scan bound")
  else
  observations ← try_map (fun unspent => parse_unspent unspent height script_paths asset_id observed_at) unspents;
  Ok (mkParsedScan height best_block observations).

(** ** The scan window *)

Section window.
Context `{EventCrypto, TweakAdd, Secp256k1, WalletCrypto}.

(** The body of the two loops. *)
Definition derive_script (wallet : ProviderWallet) (policy : WalletScanPolicy) (scripts : gmap string WalletPath)
    (at_ : bool * Z) : result LiquidityError (gmap string WalletPath) :=
  let '(change, offset) := at_ in
  address_index ← ok_or (LInvalidConfiguration "BIP-86 scan window overflows")
                    (checked_add U32_MAX (sp_first_address_index policy) offset);
  path ← map_err LWallet (wallet_path_new (sp_account policy) change address_index);
  address ← map_err LWallet (derive_address wallet path);
  let script := encode_lower_hex (ta_script_pubkey address) in
  if bool_decide (is_Some (scripts !! script)) then Err (LInvalidScan "wallet scan window repeats a script")
  else Ok (<[script := path]> scripts).

Definition scan_window (policy : WalletScanPolicy) : list (bool * Z) :=
  change ← [false; true]; pair change <$> seqZ 0 (sp_gap_limit policy).

Definition derive_script_paths (wallet : ProviderWallet) (policy : WalletScanPolicy)
    : result LiquidityError (gmap string WalletPath) :=
  try_fold (derive_script wallet policy) ∅ (scan_window policy).
End window.

(** [BTreeMap::keys]: in byte order. *)
Definition string_le (l r : string) : Prop := bytes_le (as_bytes l) (as_bytes r) = true.
#[export] Instance string_le_dec : RelDecision string_le.
Proof. intros l r. unfold string_le. apply _. Defined.
Definition script_keys (script_paths : gmap string WalletPath) : list string :=
  merge_sort string_le (map_to_list script_paths).*1.

(** ** Discovery *)

(** [current.insert(key, ())]. *)
Definition insert_current (current : gset (string * Z)) (o : UtxoObservation)
    : result LiquidityError (gset (string * Z)) :=
  if bool_decide (observed_key o ∈ current) then Err (LInvalidScan "UTXO scan repeats an outpoint")
  else Ok ({[observed_key o]} ∪ current).

(** The observation that an output the scan no longer lists is spent. *)
Definition spent_observation (observed_at : Z) (known : UtxoObservation) : UtxoObservation :=
  mkUtxo (uo_outpoint known) (uo_asset_id known) (uo_amount known) (uo_script_pubkey known) "spent"
    (uo_confirmations known) (uo_block_hash known) (uo_replacement_txid known) observed_at.

(** The loop over the available outputs. *)
Definition funding_input (script_paths : gmap string WalletPath) (current : gset (string * Z))
    (inputs : list FundingInput) (stored : UtxoObservation) : result LiquidityError (list FundingInput) :=
  if negb (bool_decide (observed_key stored ∈ current)) then Ok inputs
  else
  path ← ok_or (LInvalidScan "stored UTXO script is outside the wallet scan window")
           (script_paths !! uo_script_pubkey stored);
  Ok (inputs ++ [mkFundingInput (op_txid (uo_outpoint stored)) (op_vout (uo_outpoint stored)) (uo_amount stored) path]).

Section discover.
Context `{EventCrypto, TweakAdd, Secp256k1, WalletCrypto}.
Context {N : Type} (call : string -> string -> Value -> Eff N BitcoindError Value).
Notation M := (Eff (ProviderDb * N) LiquidityError).

(** [ScanSource for BitcoindClient]. *)
Definition scan_tx_out_set (request_id : string) (descriptors : list string) : M Value := fun s =>
  let '(r, node) := call request_id "scantxoutset"
                      (VArray [VString "start"; VArray (VString <$> descriptors)]) s.2 in
  (map_err LBitcoind r, (s.1, node)).

(** [LiquidityStore for ProviderStore]. *)
Definition store_observe (observation : UtxoObservation) : M unit := fun s =>
  match observe_utxo s.1 observation with
  | Ok (_, db) => (Ok tt, (db, s.2))
  | Err e => (Err (LStore e), s)
  end.
Definition store_available (asset_id : string) (script_pubkeys : list string) (minimum limit : Z)
    : M (list UtxoObservation) := fun s =>
  (map_err LStore (available_utxos s.1 asset_id script_pubkeys minimum limit), s).

(** [discover_with], which [discover_wallet_utxos] calls. *)
Definition discover_with (wallet : ProviderWallet) (request_id : string) (policy : WalletScanPolicy)
    (observed_at : Z) : M WalletLiquidity :=
  _ ← eff_lift id (scan_policy_validate policy);
  if I64_MAX <? observed_at then eff_raise (LInvalidConfiguration "observation time is outside bounds")
  else
  script_paths ← eff_lift id (derive_script_paths wallet policy);
  let script_pubkeys := script_keys script_paths in
  let descriptors := (fun script => "raw(" +:+ script +:+ ")") <$> script_pubkeys in
  previously_available ← store_available (sp_asset_id policy) script_pubkeys 0 (sp_maximum_eligible_utxos policy);
  result ← scan_tx_out_set request_id descriptors;
  scan ← eff_lift id (parse_scan result script_paths (sp_asset_id policy) observed_at);
  current ← eff_lift id (try_fold insert_current ∅ (ps_observations scan));
  _ ← eff_for (ps_observations scan) store_observe;
  _ ← eff_for (filter (fun known => observed_key known ∉ current) previously_available)
        (fun known => store_observe (spent_observation observed_at known));
  available ← store_available (sp_asset_id policy) script_pubkeys (sp_minimum_confirmations policy)
                (sp_maximum_eligible_utxos policy);
  funding_inputs ← eff_lift id (try_fold (funding_input script_paths current) [] available);
  mret (mkWalletLiquidity (ps_height scan) (ps_best_block scan) funding_inputs).
End discover.
