(* ===== verification/LiquidityCorrect.v ===== *)
(** * LiquidityCorrect: what a scan of the wallet establishes

    [amount_exact]: amounts are read without rounding.  [scan_recorded]: what a
    scan writes to the store, row by row.  [discovered_funds]: the inputs it
    offers are unspent outputs of the wallet's own addresses as the node
    reported them, and a funding transaction over them succeeds exactly when
    they hold enough money. *)

From S2P Require Import Prelude Text Utf8 Hex Bech32 Event Wire Transaction Cost Taproot Scalar CurveOrder Musig2 Musig2Correct Expanded Filter Json ProviderDb Ledger LedgerInv Effects Bitcoind Wallet WalletCorrect Funding FundingCorrect Liquidity.

(** ** Amounts *)

(** [s] is the decimal [c] times [10 ^ scale], exactly. *)
Definition scaled (c scale s : Z) : Prop :=
  if 0 <=? scale then s = c * 10 ^ scale else c = s * 10 ^ (- scale).

Lemma split_once_exponent_app x e y :
  forallb (fun b => is_ascii_digit b || (b =? 46)) x = true -> e = 101 \/ e = 69 ->
  split_once_exponent (x ++ e :: y) = Some (x, y).
Proof.
  intros Hx He. induction x as [|b x IH]; cbn.
  - by destruct He as [-> | ->].
  - cbn in Hx. apply andb_true_iff in Hx as [Hb Hx]. rewrite (IH Hx).
    destruct ((b =? 101) || (b =? 69)) eqn:Hbe; [|done]. unfold is_ascii_digit, in_range in Hb.
    bool_to_prop. lia.
Qed.

Lemma split_once_exponent_none x :
  forallb (fun b => is_ascii_digit b || (b =? 46)) x = true -> split_once_exponent x = None.
Proof.
  induction x as [|b x IH]; cbn; [done|]. intros [Hb Hx]%andb_true_iff. rewrite (IH Hx).
  destruct ((b =? 101) || (b =? 69)) eqn:Hbe; [|done]. unfold is_ascii_digit, in_range in Hb. bool_to_prop. lia.
Qed.

Lemma digits_no_point l : forallb is_ascii_digit l = true -> 46 ∉ l.
Proof.
  intros Hl Hin. rewrite forallb_forall in Hl. apply list_elem_of_In, Hl in Hin. done.
Qed.

Lemma split_point whole fraction text :
  forallb is_ascii_digit (whole ++ fraction) = true -> mantissa_text whole fraction text ->
  default (text, []) (split_once_bytes 46 text) = (whole, fraction)
  /\ forallb (fun b => is_ascii_digit b || (b =? 46)) text = true.
Proof.
  rewrite forallb_app, andb_true_iff. intros [Hw Hf] Ht.
  assert (forall l, forallb is_ascii_digit l = true -> forallb (fun b => is_ascii_digit b || (b =? 46)) l = true) as Hmono.
  { intros l. rewrite !forallb_forall. intros Hl b Hb. rewrite (Hl b Hb). done. }
  destruct Ht as [->|].
  - destruct (split_once_bytes 46 whole) as [[x y]|] eqn:Hs; [|by split; [|apply Hmono]].
    apply split_once_bytes_Some in Hs as [-> _]. destruct (digits_no_point _ Hw). apply elem_of_app. right. left.
  - rewrite (proj2 (split_once_bytes_Some 46 _ whole fraction)) by (split; [done|by apply digits_no_point]).
    split; [done|]. rewrite forallb_app. cbn. by rewrite !Hmono.
Qed.

Lemma parse_bytes_decimal_max l :
  l <> [] -> forallb is_ascii_digit l = true -> digits_value l <= U128_MAX -> parse_bytes U128_MAX l = Some (digits_value l).
Proof.
  intros Hne Hd Hle. assert (parse_digits U128_MAX l = Some (digits_value l)) as Hp.
  { unfold parse_digits. rewrite Hd. destruct l; [done|]. cbn [negb orb]. by rewrite (proj2 (Z.leb_le _ _) Hle). }
  destruct l as [|b l]; [done|]. unfold parse_bytes. cbn in Hd. apply andb_true_iff in Hd as [Hb _].
  destruct (decide (b = 43)) as [->|Hne']; [done|]. by repeat case_match.
Qed.

(** The spellings that fit the integers used: not a format restriction beyond
    what a number of the node can be. *)
Definition fits (whole fraction : list Z) (e : Z) : Prop :=
  whole <> [] /\ forallb is_ascii_digit (whole ++ fraction) = true /\ digits_value (whole ++ fraction) <= U128_MAX
  /\ - I32_MAX - 1 < e /\ len fraction <= I32_MAX /\ in_range (- I32_MAX - 1) I32_MAX (e - len fraction) = true
  /\ e - len fraction + 8 <= I32_MAX /\ 10 ^ Z.abs (e - len fraction + 8) <= U128_MAX.

(** The number read off the text. *)
Lemma btc_parts value whole fraction e :
  decimal_text whole fraction value e -> forallb is_ascii_digit (whole ++ fraction) = true ->
  exists mantissa, split_exponent value = (mantissa, e) /\ default (mantissa, []) (split_once_bytes 46 mantissa) = (whole, fraction)
    /\ (whole <> [] -> head mantissa <> Some 45 /\ head mantissa <> Some 43).
Proof.
  intros Ht Hd. assert (forall mantissa, mantissa_text whole fraction mantissa -> whole <> [] ->
    head mantissa <> Some 45 /\ head mantissa <> Some 43) as Hhead.
  { intros m Hm Hne. destruct whole as [|b whole]; [done|]. cbn in Hd. apply andb_true_iff in Hd as [Hb _].
    assert (head m = Some b) as -> by (by destruct Hm). unfold is_ascii_digit, in_range in Hb. bool_to_prop. split; congruence || (intros [= ->]; lia). }
  destruct Ht as [text Hm|text ch exponent n Hm Hc Hp]; destruct (split_point _ _ _ Hd Hm) as [Hsp Hall]; unfold split_exponent.
  - rewrite split_once_exponent_none by done. exists text. split_and!; try done. by apply Hhead.
  - rewrite split_once_exponent_app by done. exists text. rewrite Hp. split_and!; try done. by apply Hhead.
Qed.

Lemma btc_parts_inv value mantissa e whole fraction :
  split_exponent value = (mantissa, e) -> - I32_MAX - 1 < e ->
  default (mantissa, []) (split_once_bytes 46 mantissa) = (whole, fraction) -> decimal_text whole fraction value e.
Proof.
  unfold split_exponent. intros Hs He Hw.
  assert (mantissa_text whole fraction mantissa) as Hmt.
  { destruct (split_once_bytes 46 mantissa) as [[x y]|] eqn:Hp; cbn in Hw; simplify_eq; [|by constructor].
    apply split_once_bytes_Some in Hp as [-> _]. constructor. }
  destruct (split_once_exponent value) as [[x y]|] eqn:Hx; simplify_eq; [|by constructor].
  apply split_once_exponent_Some in Hx as (b & Hb & ->). constructor; try done.
  destruct (parse_i32 y); [done|]. cbn in He. lia.
Qed.

Lemma split_exponent_range value : - I32_MAX - 1 <= (split_exponent value).2.
Proof.
  assert (forall max l v, parse_digits max l = Some v -> 0 <= v <= max) as Hd.
  { intros max l v Hp. unfold parse_digits in Hp. destruct (_ || _) eqn:Hg; [done|]. bool_to_prop.
    destruct (Z.leb_spec (digits_value l) max); [|done]. simplify_eq. split; [by apply digits_value_nonneg|done]. }
  unfold split_exponent. destruct (split_once_exponent value) as [[m x]|]; cbn; [|unfold I32_MAX; lia].
  destruct (parse_i32 x) as [v|] eqn:Hp; cbn; [|lia]. unfold parse_i32, parse_bytes in Hp.
  repeat case_match; try (apply Hd in Hp; lia); apply bind_Some in Hp as (u & Hu%Hd & [= <-]); lia.
Qed.

Lemma pow_bound k : 10 ^ Z.abs k <= U128_MAX -> Z.abs k < 39.
Proof.
  intros Hk. apply Z.nle_gt. intros Hge. apply (Z.pow_le_mono_r 10) in Hge; [|lia].
  revert Hk Hge. generalize (10 ^ Z.abs k). intros p ? ?. assert (10 ^ 39 <= U128_MAX) as Hbad by lia. by vm_compute in Hbad.
Qed.

(** Scaling by a power of ten, as the code does it. *)
Definition scale_satoshis (c k : Z) : result LiquidityError Z :=
  let exceeds := LInvalidScan "UTXO amount exceeds bounds" in
  if 0 <=? k then
    scale ← ok_or exceeds (checked_pow U128_MAX 10 k);
    ok_or exceeds (checked_mul U128_MAX c scale)
  else
    exponent ← ok_or exceeds (checked_i32 (- k));
    divisor ← ok_or exceeds (checked_pow U128_MAX 10 exponent);
    if negb (c mod divisor =? 0) then Err (LInvalidScan "UTXO amount is not an exact satoshi amount")
    else Ok (c / divisor).

Lemma scale_exact c k s :
  s <= MAX_BITCOIN_SATOSHIS ->
  scale_satoshis c k = Ok s <-> scaled c k s /\ 10 ^ Z.abs k <= U128_MAX.
Proof.
  intros Hs. unfold scale_satoshis, scaled, checked_pow. destruct (Z.leb_spec 0 k) as [Hpos|Hneg].
  - rewrite Z.abs_eq by done. destruct (Z.leb_spec (10 ^ k) U128_MAX); [|split; [done|lia]].
    cbn [ok_or mbind result_bind]. rewrite ok_or_Ok, checked_mul_Some. unfold U128_MAX, MAX_BITCOIN_SATOSHIS in *.
    split; [lia|]. intros [-> _]. split; [done|]. lia.
  - rewrite Z.abs_neq by lia. assert (0 < 10 ^ (- k)) as Hp by (apply Z.pow_pos_nonneg; lia).
    pose proof (Z.div_mod c (10 ^ (- k)) ltac:(lia)). unfold checked_i32, in_range.
    destruct ((- I32_MAX - 1 <=? - k) && (- k <=? I32_MAX)) eqn:Hr.
    2:{ split; [done|]. intros [_ Hle]. pose proof (pow_bound k) as Hb. rewrite Z.abs_neq in Hb by lia.
        specialize (Hb Hle). unfold I32_MAX in Hr. rewrite andb_false_iff, !Z.leb_gt in Hr. lia. }
    cbn [ok_or mbind result_bind]. destruct (Z.leb_spec (10 ^ (- k)) U128_MAX); [|split; [done|lia]].
    cbn [ok_or mbind result_bind]. destruct (Z.eqb_spec (c mod 10 ^ (- k)) 0) as [Hz|Hnz]; cbn [negb].
    + split; [intros <-%Ok_inj; lia|]. intros [-> _]. f_equal. by rewrite Z.div_mul by lia.
    + split; [done|]. intros [-> _]. by rewrite Z.mod_mul in Hnz by lia.
Qed.

Lemma checked_i32_Some v u : checked_i32 v = Some u <-> u = v /\ - I32_MAX - 1 <= v <= I32_MAX.
Proof.
  unfold checked_i32, in_range. destruct (_ && _) eqn:Hr; rewrite ?andb_true_iff, ?andb_false_iff, ?Z.leb_le, ?Z.leb_gt in Hr;
    naive_solver lia.
Qed.
Lemma checked_i32_eq v : - I32_MAX - 1 <= v <= I32_MAX -> checked_i32 v = Some v.
Proof. intros. by apply checked_i32_Some. Qed.

Lemma parse_digits_max max l v : parse_bytes max l = Some v -> v <= max.
Proof. unfold parse_bytes, parse_digits. intros Hp. repeat case_match; bool_to_prop; simplify_eq; done. Qed.

(** The number a text is read as, and the texts read as a number. *)
Definition reads_as (whole fraction : list Z) (e s : Z) : Prop :=
  fits whole fraction e /\ scaled (digits_value (whole ++ fraction)) (e - len fraction + 8) s /\ s <= MAX_BITCOIN_SATOSHIS.

Lemma parse_btc_number_inv text s :
  parse_btc_number text = Ok s -> exists whole fraction e, decimal_text whole fraction (as_bytes text) e /\ reads_as whole fraction e s.
Proof.
  unfold parse_btc_number.
  pose proof (split_exponent_range (as_bytes text)) as Hrange.
  destruct (split_exponent (as_bytes text)) as [mantissa e] eqn:Hsplit. cbn [snd] in Hrange.
  destruct ((e =? - I32_MAX - 1) || _ || _) eqn:Hsign; [done|].
  destruct (default _ _) as [whole fraction] eqn:Hpoint.
  destruct (is_empty whole || _ || _) eqn:Hdig; [done|]. rewrite !orb_false_iff, !negb_false_iff in Hdig.
  destruct Hdig as [[Hne Hdw] Hdf]. rewrite !orb_false_iff, Z.eqb_neq in Hsign. destruct Hsign as [[He _] _].
  intros Hr. apply bind_Ok in Hr as (c & Hc%ok_or_Ok & Hr). apply bind_Ok in Hr as (fd & Hfd%ok_or_Ok & Hr).
  apply bind_Ok in Hr as (k & Hk%ok_or_Ok & Hr). apply bind_Ok in Hr as (sat & Hsat & Hr).
  fold (scale_satoshis c k) in Hsat. destruct (Z.ltb_spec MAX_BITCOIN_SATOSHIS sat) as [|Hmax]; [done|].
  apply ok_or_Ok, try_from_u_Some in Hr as [-> _].
  assert (forallb is_ascii_digit (whole ++ fraction) = true) as Hd by (by rewrite forallb_app, Hdw, Hdf).
  pose proof (parse_bytes_decimal _ _ _ Hd Hc) as ->. apply scale_exact in Hsat as [Hs Hp]; [|done].
  apply checked_i32_Some in Hfd as [-> Hfr]. apply bind_Some in Hk as (k1 & [-> Hk1]%checked_i32_Some & [-> Hk2]%checked_i32_Some).
  exists whole, fraction, e. split; [eapply btc_parts_inv; [done|lia|done]|]. split; [|done].
  apply parse_digits_max in Hc. unfold fits, in_range. rewrite andb_true_iff, !Z.leb_le.
  split_and!; try done; try lia. by intros ->.
Qed.

Lemma parse_btc_number_ok text whole fraction e s :
  decimal_text whole fraction (as_bytes text) e -> fits whole fraction e ->
  scaled (digits_value (whole ++ fraction)) (e - len fraction + 8) s -> s <= MAX_BITCOIN_SATOSHIS ->
  parse_btc_number text = Ok s.
Proof.
  intros Htext (Hne & Hd & Hmag & He & Hfl & Hk1 & Hk2 & Hp) Hs Hmax. unfold parse_btc_number.
  destruct (btc_parts _ _ _ _ Htext Hd) as (mantissa & -> & Hpoint & [Hm45 Hm43]%(fun H => H Hne)).
  rewrite (proj2 (Z.eqb_neq _ _)), !bool_decide_eq_false_2 by (done || lia). cbn [orb]. rewrite Hpoint.
  rewrite forallb_app, andb_true_iff in Hd. destruct Hd as [Hdw Hdf]. rewrite Hdw, Hdf.
  assert (is_empty whole = false) as -> by (by destruct whole). cbn [orb negb].
  unfold in_range in Hk1. rewrite andb_true_iff, !Z.leb_le in Hk1. pose proof (len_nonneg fraction).
  apply bind_Ok. exists (digits_value (whole ++ fraction)).
  rewrite parse_bytes_decimal_max by (done || (by rewrite forallb_app, Hdw, Hdf) || by destruct whole). split; [done|].
  apply bind_Ok. exists (len fraction). rewrite checked_i32_eq by (unfold I32_MAX in *; lia). split; [done|].
  apply bind_Ok. exists (e - len fraction + 8). split.
  { rewrite checked_i32_eq by lia. cbn [mbind option_bind]. by rewrite checked_i32_eq by lia. }
  apply bind_Ok. exists s. split; [by apply (scale_exact _ _ s Hmax)|].
  rewrite (proj2 (Z.ltb_ge _ _) Hmax). rewrite try_from_u_eq by (unfold U64_MAX, MAX_BITCOIN_SATOSHIS in *; lia). done.
Qed.

(** An amount is read without rounding and within the supply: the text of
    a JSON number, digits with an optional fraction and power of ten, is read
    as [s] satoshis exactly when the number is [s] hundred-millionths of a
    bitcoin to the digit and at most the 21 million that exist; a number with
    more precision, a sign, or anything else is refused. *)
Theorem amount_exact value s :
  btc_decimal_to_satoshis value = Ok s
  <-> exists text whole fraction e, number_text value = Some text
      /\ decimal_text whole fraction (as_bytes text) e /\ reads_as whole fraction e s.
Proof.
  unfold btc_decimal_to_satoshis. destruct (number_text value) as [text|]; [|split; [done|by intros (? & ? & ? & ? & ? & _)]].
  split.
  - intros (whole & fraction & e & Ht & Hr)%parse_btc_number_inv. by exists text, whole, fraction, e.
  - intros (t & whole & fraction & e & [= <-] & Ht & Hf & Hs & Hm). by eapply parse_btc_number_ok.
Qed.

Lemma btc_amount_bound value s : btc_decimal_to_satoshis value = Ok s -> 0 <= s <= MAX_BITCOIN_SATOSHIS.
Proof.
  unfold btc_decimal_to_satoshis. destruct (number_text value) as [text|]; [|done].
  intros (whole & fraction & e & _ & (_ & Hd & _) & Hs & Hm)%parse_btc_number_inv. split; [|done].
  apply digits_value_nonneg in Hd. unfold scaled in Hs. destruct (Z.leb_spec 0 (e - len fraction + 8)).
  - subst. apply Z.mul_nonneg_nonneg; [done|]. by apply Z.pow_nonneg.
  - assert (0 < 10 ^ (- (e - len fraction + 8))) by (apply Z.pow_pos_nonneg; lia). nia.
Qed.

(** ** What a scan writes *)

(** The row an observation leaves: a reserved output that is seen unspent
    stays reserved, and no observation touches a reservation. *)
Definition observed_row (old : option UtxoRow) (o : UtxoObservation) : UtxoRow :=
  match old with
  | None => mkUtxoRow (uo_asset_id o) (uo_amount o) (uo_script_pubkey o) (uo_state o) None
              (uo_confirmations o) (uo_block_hash o) (uo_replacement_txid o) (uo_observed_at o)
  | Some r => mkUtxoRow (ux_asset_id r) (ux_amount r) (ux_script_pubkey r)
      (if bool_decide (ux_state r = "reserved"%string) && bool_decide (uo_state o = "available"%string)
       then ux_state r else uo_state o)
      (ux_reservation_id r) (uo_confirmations o) (uo_block_hash o) (uo_replacement_txid o)
      (Z.max (ux_observed_at r) (uo_observed_at o))
  end.

(** Nothing of an output that cannot change changed. *)
Definition agrees (old : option UtxoRow) (o : UtxoObservation) : Prop :=
  match old with
  | None => True
  | Some r => ux_asset_id r = uo_asset_id o /\ ux_amount r = uo_amount o /\ ux_script_pubkey r = uo_script_pubkey o
  end.

Lemma observe_utxo_row db o u db' :
  observe_utxo db o = Ok (u, db') ->
  db' = set_utxos <[observed_key o := observed_row (db_utxos db !! observed_key o) o]> db
  /\ agrees (db_utxos db !! observed_key o) o.
Proof.
  unfold observe_utxo, database_i32, database_u64, upsert_utxo. intros Ho. tx_inv.
  repeat match goal with Hv : try_from_u _ _ = Some _ |- _ => apply try_from_u_Some in Hv as [-> _] end.
  fold (observed_key o) in *.
  match goal with Hx : match ?t with Some _ => _ | None => _ end = _ |- _ => destruct t as [row|] eqn:Hrow end; tx_inv.
  - destruct (_ && _) eqn:Hg in *; tx_inv; [|done]. bool_to_prop. cbn [observed_row agrees]. done.
  - done.
Qed.

Definition record_one (m : gmap (string * Z) UtxoRow) (o : UtxoObservation) : gmap (string * Z) UtxoRow :=
  <[observed_key o := observed_row (m !! observed_key o) o]> m.

Lemma record_other m l k : k ∉ observed_key <$> l -> foldl record_one m l !! k = m !! k.
Proof.
  revert m. induction l as [|o l IH]; intros m Hk; [done|]. cbn [foldl fmap list_fmap] in *. rewrite not_elem_of_cons in Hk. destruct Hk as [Hne Hk].
  rewrite IH by done. unfold record_one. by rewrite lookup_insert_ne.
Qed.

Lemma record_each m l o :
  NoDup (observed_key <$> l) -> o ∈ l ->
  foldl record_one m l !! observed_key o = Some (observed_row (m !! observed_key o) o).
Proof.
  revert m. induction l as [|x l IH]; intros m Hnd Ho; [by apply elem_of_nil in Ho|]. cbn [foldl fmap list_fmap] in *.
  apply NoDup_cons in Hnd as [Hx Hnd]. apply elem_of_cons in Ho as [->|Ho].
  - rewrite record_other by done. unfold record_one. by rewrite lookup_insert_eq.
  - rewrite IH by done. unfold record_one. rewrite lookup_insert_ne; [done|]. intros Heq. apply Hx. rewrite Heq.
    by apply list_elem_of_fmap_2.
Qed.

Section store.
Context {N : Type}.

Lemma store_observe_inv (o : UtxoObservation) db (node : N) u s' :
  store_observe o (db, node) = (Ok u, s') ->
  s' = (set_utxos (fun m => record_one m o) db, node) /\ agrees (db_utxos db !! observed_key o) o.
Proof.
  unfold store_observe. cbn [fst snd]. destruct (observe_utxo db o) as [[u' db']|e] eqn:Ho; [|done].
  intros [= <- <-]. apply observe_utxo_row in Ho as [-> Ha]. split; [|done]. by destruct db.
Qed.

Lemma observe_for_inv {A} (f : A -> UtxoObservation) l db (node : N) s' :
  eff_for l (fun x => store_observe (f x)) (db, node) = (Ok tt, s') ->
  s' = (set_utxos (fun m => foldl record_one m (f <$> l)) db, node)
  /\ (NoDup (observed_key <$> (f <$> l)) -> Forall (fun x => agrees (db_utxos db !! observed_key (f x)) (f x)) l).
Proof.
  revert db. induction l as [|x l IH]; intros db Hf; cbn [eff_for] in Hf.
  - injection Hf as <-. split; [by destruct db|constructor].
  - apply eff_bind_inv in Hf as (u & s1 & [-> Ha]%store_observe_inv & [-> Hrest]%IH). split; [by destruct db|].
    cbn [fmap list_fmap]. intros [Hx Hnd]%NoDup_cons. constructor; [done|].
    apply Forall_forall. intros y Hy. specialize (Hrest Hnd). rewrite Forall_forall in Hrest. specialize (Hrest y Hy).
    cbn [db_utxos set_utxos] in Hrest. unfold record_one in Hrest. rewrite lookup_insert_ne in Hrest; [done|].
    intros Heq. apply Hx. rewrite Heq, <- list_fmap_compose. by apply (list_elem_of_fmap_2 (observed_key ∘ f)).
Qed.
End store.

(** ** The outputs of a scan *)

Lemma insert_current_spec obs X current :
  try_fold insert_current X obs = Ok current ->
  NoDup (observed_key <$> obs) /\ (forall k, k ∈ observed_key <$> obs -> k ∉ X)
  /\ (forall k, k ∈ current <-> k ∈ X \/ k ∈ observed_key <$> obs).
Proof.
  revert X. induction obs as [|o obs IH]; intros X Hf; cbn [try_fold fmap list_fmap] in *.
  - apply Ok_inj in Hf as <-. split_and!; [constructor|set_solver|set_solver].
  - apply bind_Ok in Hf as (X1 & Hi & (Hnd & Hdis & Hcur)%IH). unfold insert_current in Hi.
    case_bool_decide as Hin; [done|]. apply Ok_inj in Hi as <-. split_and!; [|set_solver|set_solver].
    constructor; [|done]. intros Ho. apply Hdis in Ho. set_solver.
Qed.

Lemma as_object_Some v object : value_as_object v = Some object -> v = VObject object.
Proof. destruct v; cbn; congruence. Qed.
Lemma as_str_Some object name s : object_get name object ≫= value_as_str = Some s -> object_get name object = Some (VString s).
Proof. destruct (object_get name object) as [[]|]; cbn; congruence. Qed.
Lemma as_u64_Some object name n :
  object_get name object ≫= value_as_u64 = Some n -> object_get name object = Some (VInt n) /\ 0 <= n <= U64_MAX.
Proof.
  destruct (object_get name object) as [v|]; cbn [mbind option_bind]; [|done]. destruct v; cbn; try done.
  unfold in_range. destruct (_ && _) eqn:Hr; [|done]. intros [= ->]. bool_to_prop. split; [done|lia].
Qed.
Lemma as_u32_Some object name n :
  object_get name object ≫= value_as_u32 = Some n -> object_get name object = Some (VInt n) /\ 0 <= n <= U32_MAX.
Proof.
  intros Hg. destruct (object_get name object) as [v|] eqn:Hv; cbn [mbind option_bind] in Hg; [|done].
  unfold value_as_u32 in Hg. apply bind_Some in Hg as (m & Hm & [-> Hle]%try_from_u_Some).
  destruct (as_u64_Some object name m) as [Hn Hr]; [by rewrite Hv|]. rewrite Hv in Hn. split; [done|lia].
Qed.

(** What an entry of the answer says. *)
Lemma parse_unspent_spec v height paths asset at_ o :
  parse_unspent v height paths asset at_ = Ok o ->
  is_lower_hex_32 (op_txid (uo_outpoint o)) = true /\ uo_asset_id o = asset /\ is_Some (paths !! uo_script_pubkey o)
  /\ 0 < uo_amount o <= MAX_BITCOIN_SATOSHIS /\ uo_observed_at o = at_
  /\ uo_state o ∈ ["available"; "unresolved"]%string
  /\ 0 <= op_vout (uo_outpoint o) <= U32_MAX
  /\ exists amount h, value_get "amount" v = Some amount /\ btc_decimal_to_satoshis amount = Ok (uo_amount o)
     /\ value_get "txid" v = Some (VString (op_txid (uo_outpoint o)))
     /\ value_get "vout" v = Some (VInt (op_vout (uo_outpoint o)))
     /\ value_get "scriptPubKey" v = Some (VString (uo_script_pubkey o))
     /\ value_get "height" v = Some (VInt h) /\ uo_confirmations o = height - h + 1 /\ h <= height
     /\ (uo_state o = "available"%string <->
         ~ (value_get "coinbase" v = Some (VBool true) /\ uo_confirmations o < COINBASE_MATURITY)).
Proof.
  unfold parse_unspent. intros Hp.
  apply bind_Ok in Hp as (object & Hobj%ok_or_Ok & Hp). apply bind_Ok in Hp as (txid & Htx%ok_or_Ok & Hp).
  destruct (is_lower_hex_32 txid) eqn:Hhex; cbn [negb] in Hp; [|done].
  apply bind_Ok in Hp as (vout & Hvout%ok_or_Ok & Hp). apply bind_Ok in Hp as (script & Hscript%ok_or_Ok & Hp).
  case_bool_decide as Hpath; [done|]. apply bind_Ok in Hp as (amount & Ham%ok_or_Ok & Hp).
  apply bind_Ok in Hp as (sat & Hsat & Hp). destruct (Z.eqb_spec sat 0) as [|Hnz]; [done|].
  apply bind_Ok in Hp as (h & Hh%ok_or_Ok & Hp). destruct (Z.ltb_spec height h) as [|Hle]; [done|].
  apply bind_Ok in Hp as (derived & Hder%ok_or_Ok & Hp). apply bind_Ok in Hp as (conf & Hconf & Hp).
  apply bind_Ok in Hp as (bh & _ & Hp). apply bind_Ok in Hp as (coinbase & Hcb & <-%Ok_inj).
  cbn [uo_outpoint op_txid op_vout uo_asset_id uo_script_pubkey uo_amount uo_observed_at uo_state uo_confirmations].
  apply as_object_Some in Hobj as ->. apply as_str_Some in Htx, Hscript. apply as_u32_Some in Hvout as [Hvout Hvr].
  apply as_u64_Some in Hh as [Hh Hhr]. pose proof (btc_amount_bound _ _ Hsat).
  assert (conf = height - h + 1) as Hc.
  { apply bind_Some in Hder as (d & [-> _]%checked_sub_Some & Hder). apply bind_Some in Hder as (c & [-> _]%checked_add_Some & Hder).
    apply try_from_u_Some in Hder as [-> _]. destruct (object_get "confirmations" object) as [cv|]; [|by apply Ok_inj in Hconf].
    apply ok_or_Ok, bind_Some in Hconf as (cc & _ & Hconf). destruct (Z.eqb_spec cc (height - h + 1)); [|done]. congruence. }
  split; [done|]. split; [done|]. split; [by apply not_eq_None_Some|]. split; [lia|]. split; [done|].
  split; [destruct (coinbase && _); set_solver|]. split; [done|].
  exists amount, h. split_and!; try done. cbn [value_get].
  assert (object_get "coinbase" object = Some (VBool true) <-> coinbase = true) as ->.
  { destruct (object_get "coinbase" object) as [[]|]; try done; apply Ok_inj in Hcb as <-; naive_solver. }
  destruct coinbase, (Z.ltb_spec conf COINBASE_MATURITY); cbn [andb]; split; try done; try lia; naive_solver lia.
Qed.

Lemma parse_scan_spec answer paths asset at_ scan :
  parse_scan answer paths asset at_ = Ok scan ->
  exists unspents, value_get "unspents" answer = Some (VArray unspents) /\ value_get "success" answer = Some (VBool true)
    /\ value_get "height" answer = Some (VInt (ps_height scan))
    /\ Forall2 (fun v o => parse_unspent v (ps_height scan) paths asset at_ = Ok o) unspents (ps_observations scan).
Proof.
  unfold parse_scan. intros Hp. apply bind_Ok in Hp as (object & ->%ok_or_Ok%as_object_Some & Hp).
  case_bool_decide as Hs; cbn [negb] in Hp; [|done].
  apply bind_Ok in Hp as (height & [Hh _]%ok_or_Ok%as_u64_Some & Hp). apply bind_Ok in Hp as (best & _ & Hp).
  destruct (negb _); [done|]. apply bind_Ok in Hp as (unspents & Hu%ok_or_Ok & Hp). destruct (_ <? _); [done|].
  apply bind_Ok in Hp as (obs & Hobs%try_map_Ok_Forall2 & <-%Ok_inj). exists unspents. cbn [value_get ps_height ps_observations].
  split; [by destruct (object_get "unspents" object) as [[]|]; simplify_eq/=|].
  split; [by destruct (object_get "success" object) as [[]|]; simplify_eq/=|]. done.
Qed.

Lemma scan_observations answer paths asset at_ scan o :
  parse_scan answer paths asset at_ = Ok scan -> o ∈ ps_observations scan ->
  exists v, parse_unspent v (ps_height scan) paths asset at_ = Ok o.
Proof.
  intros (unspents & _ & _ & _ & Hf)%parse_scan_spec (n & Hn)%list_elem_of_lookup.
  destruct (Forall2_lookup_r _ _ _ _ _ Hf Hn) as (v & _ & Hv). by exists v.
Qed.

(** ** The scan window *)

Section window.
Context `{EventCrypto, TweakAdd, Secp256k1, WalletCrypto}.

Definition window_path (policy : WalletScanPolicy) (at_ : bool * Z) : WalletPath :=
  mkPath (sp_account policy) at_.1 (sp_first_address_index policy + at_.2).

(** The path's address has the script. *)
Definition pays_to (w : ProviderWallet) (path : WalletPath) (script : string) : Prop :=
  exists a, derive_address w path = Ok a /\ script = encode_lower_hex (ta_script_pubkey a).

Lemma derive_script_inv w policy m at_ m' :
  derive_script w policy m at_ = Ok m' ->
  exists script, pays_to w (window_path policy at_) script /\ m !! script = None
    /\ m' = <[script := window_path policy at_]> m.
Proof.
  destruct at_ as [change offset]. unfold derive_script. intros Hd.
  apply bind_Ok in Hd as (index & [-> _]%ok_or_Ok%checked_add_Some & Hd). apply bind_Ok in Hd as (path & Hp%map_err_Ok & Hd).
  apply bind_Ok in Hd as (a & Ha%map_err_Ok & Hd). unfold wallet_path_new in Hp. destruct (_ || _); [done|].
  apply Ok_inj in Hp as <-. case_bool_decide as Hs; [done|]. apply Ok_inj in Hd as <-.
  eexists. split; [by exists a|]. split; [by apply eq_None_not_Some|done].
Qed.

Lemma derive_scripts_inv w policy l m m' :
  try_fold (derive_script w policy) m l = Ok m' ->
  m ⊆ m' /\ (forall at_, at_ ∈ l -> exists script, pays_to w (window_path policy at_) script
                                      /\ m' !! script = Some (window_path policy at_))
  /\ (forall script path, m' !! script = Some path ->
        m !! script = Some path \/ exists at_, at_ ∈ l /\ path = window_path policy at_ /\ pays_to w path script).
Proof.
  revert m. induction l as [|at_ l IH]; intros m Hf; cbn [try_fold] in Hf.
  - apply Ok_inj in Hf as <-. split; [done|]. split; [by intros at_ Ha%elem_of_nil|by left].
  - apply bind_Ok in Hf as (m1 & (script & Hpay & Hnone & ->)%derive_script_inv & (Hsub & Hin & Hout)%IH).
    split; [etransitivity; [by apply insert_subseteq|done]|]. split.
    + intros x [->|Hx]%elem_of_cons; [|by apply Hin]. exists script. split; [done|].
      eapply lookup_weaken; [|done]. apply lookup_insert_eq.
    + intros s path [Hs|(x & Hx & ?)]%Hout; [|right; exists x; split; [by right|done]].
      apply lookup_insert_Some in Hs as [[<- <-]|[_ Hs]]; [|by left]. right. exists at_. split; [left|done].
Qed.

Lemma elem_of_script_keys (paths : gmap string WalletPath) s : s ∈ script_keys paths <-> is_Some (paths !! s).
Proof.
  unfold script_keys. rewrite merge_sort_Permutation, list_elem_of_fmap. split.
  - intros ([s' p] & -> & Hp%elem_of_map_to_list). by exists p.
  - intros [p Hp%elem_of_map_to_list]. by exists (s, p).
Qed.
End window.

(** ** Choosing the inputs *)

Lemma funding_inputs_inv paths current avail acc inputs :
  try_fold (funding_input paths current) acc avail = Ok inputs ->
  exists more, inputs = acc ++ more
  /\ Forall2 (fun o i => fi_txid i = op_txid (uo_outpoint o) /\ fi_vout i = op_vout (uo_outpoint o)
                /\ fi_value_sat i = uo_amount o /\ paths !! uo_script_pubkey o = Some (fi_path i))
       (filter (fun o => observed_key o ∈ current) avail) more.
Proof.
  revert acc. induction avail as [|o avail IH]; intros acc Hf; cbn [try_fold] in Hf.
  - apply Ok_inj in Hf as <-. exists []. by rewrite app_nil_r.
  - apply bind_Ok in Hf as (acc1 & Hi & Hf). apply IH in Hf as (more & -> & Hmore). unfold funding_input in Hi.
    rewrite filter_cons. case_bool_decide as Hin; cbn [negb] in Hi.
    + apply bind_Ok in Hi as (path & Hp%ok_or_Ok & <-%Ok_inj). rewrite decide_True by done.
      eexists (_ :: more). rewrite <- app_assoc. split; [done|]. constructor; [by split_and!|done].
    + apply Ok_inj in Hi as <-. rewrite decide_False by done. by exists more.
Qed.

(** ** Discovery *)

Section discover.
Context `{EventCrypto, TweakAdd, Secp256k1, WalletCrypto}.
Context {N : Type} (call : string -> string -> Value -> Eff N BitcoindError Value).

(** The observations a scan writes: what it saw, then what it did not see. *)
Definition written (at_ : Z) (obs prev : list UtxoObservation) : list UtxoObservation :=
  obs ++ (spent_observation at_ <$> filter (fun known => observed_key known ∉ observed_key <$> obs) prev).

(** Everything a successful discovery went through. *)
Record scanned (w : ProviderWallet) (rid : string) (policy : WalletScanPolicy) (at_ : Z) (db : ProviderDb) (node : N)
    (paths : gmap string WalletPath) (prev : list UtxoObservation) (answer : Value) (scan : ParsedScan)
    (avail : list UtxoObservation) (inputs : list FundingInput) (db' : ProviderDb) (node' : N) : Prop := mkScanned {
  sd_paths : derive_script_paths w policy = Ok paths;
  sd_prev : available_utxos db (sp_asset_id policy) (script_keys paths) 0 (sp_maximum_eligible_utxos policy) = Ok prev;
  sd_answer : call rid "scantxoutset" (VArray [VString "start";
                VArray ((fun script => VString ("raw(" +:+ script +:+ ")")) <$> script_keys paths)]) node = (Ok answer, node');
  sd_scan : parse_scan answer paths (sp_asset_id policy) at_ = Ok scan;
  sd_distinct : NoDup (observed_key <$> ps_observations scan);
  sd_db : db' = set_utxos (fun m => foldl record_one m (written at_ (ps_observations scan) prev)) db;
  sd_agrees o : o ∈ ps_observations scan -> agrees (db_utxos db !! observed_key o) o;
  sd_avail : available_utxos db' (sp_asset_id policy) (script_keys paths) (sp_minimum_confirmations policy)
               (sp_maximum_eligible_utxos policy) = Ok avail;
  sd_inputs : Forall2 (fun o i => fi_txid i = op_txid (uo_outpoint o) /\ fi_vout i = op_vout (uo_outpoint o)
                /\ fi_value_sat i = uo_amount o /\ paths !! uo_script_pubkey o = Some (fi_path i))
              (filter (fun o => observed_key o ∈ observed_key <$> ps_observations scan) avail) inputs;
}.

#[local] Arguments sd_paths {w rid policy at_ db node paths prev answer scan avail inputs db' node'} _.
#[local] Arguments sd_prev {w rid policy at_ db node paths prev answer scan avail inputs db' node'} _.
#[local] Arguments sd_answer {w rid policy at_ db node paths prev answer scan avail inputs db' node'} _.
#[local] Arguments sd_scan {w rid policy at_ db node paths prev answer scan avail inputs db' node'} _.
#[local] Arguments sd_distinct {w rid policy at_ db node paths prev answer scan avail inputs db' node'} _.
#[local] Arguments sd_db {w rid policy at_ db node paths prev answer scan avail inputs db' node'} _.
#[local] Arguments sd_agrees {w rid policy at_ db node paths prev answer scan avail inputs db' node'} _ _ _.
#[local] Arguments sd_avail {w rid policy at_ db node paths prev answer scan avail inputs db' node'} _.
#[local] Arguments sd_inputs {w rid policy at_ db node paths prev answer scan avail inputs db' node'} _.

Lemma eff_lift_Ok {S E F A} (f : F -> E) (m : result F A) (s s' : S) a :
  eff_lift f m s = (Ok a, s') -> m = Ok a /\ s' = s.
Proof. unfold eff_lift. destruct m; cbn; intros [= <- <-]; done. Qed.

Lemma discover_inv w rid policy at_ db node l db' node' :
  discover_with call w rid policy at_ (db, node) = (Ok l, (db', node')) ->
  scan_policy_validate policy = Ok tt
  /\ exists paths prev answer scan avail,
       scanned w rid policy at_ db node paths prev answer scan avail (wl_funding_inputs l) db' node'
       /\ wl_scan_height l = ps_height scan /\ wl_best_block l = ps_best_block scan.
Proof.
  unfold discover_with. intros Hd. apply eff_bind_inv in Hd as ([] & s1 & [Hval ->]%eff_lift_Ok & Hd). split; [done|].
  destruct (I64_MAX <? at_); [done|]. apply eff_bind_inv in Hd as (paths & s1 & [Hpaths ->]%eff_lift_Ok & Hd).
  apply eff_bind_inv in Hd as (prev & s1 & Hprev & Hd). unfold store_available in Hprev. injection Hprev as Hprev%map_err_Ok <-.
  apply eff_bind_inv in Hd as (answer & s1 & Hcall & Hd). unfold scan_tx_out_set in Hcall. cbn [fst snd] in Hcall.
  rewrite <- list_fmap_compose in Hcall. destruct (call _ _ _ node) as [r node1] eqn:Hnode. injection Hcall as ->%map_err_Ok <-.
  apply eff_bind_inv in Hd as (scan & s1 & [Hscan ->]%eff_lift_Ok & Hd).
  apply eff_bind_inv in Hd as (current & s1 & [Hcur ->]%eff_lift_Ok & Hd).
  apply insert_current_spec in Hcur as (Hnd & _ & Hcur).
  apply eff_bind_inv in Hd as ([] & s1 & Hobs & Hd). apply (observe_for_inv id) in Hobs as [-> Hag]. rewrite list_fmap_id in *.
  apply eff_bind_inv in Hd as ([] & s1 & Hspent & Hd). apply observe_for_inv in Hspent as [-> _].
  apply eff_bind_inv in Hd as (avail & s1 & Havail & Hd). unfold store_available in Havail. injection Havail as Havail%map_err_Ok <-.
  apply eff_bind_inv in Hd as (inputs & s1 & [Hin ->]%eff_lift_Ok & Hd). injection Hd as <- <- <-.
  apply funding_inputs_inv in Hin as (more & -> & Hin). cbn [app wl_funding_inputs wl_scan_height wl_best_block].
  assert (filter (fun known => observed_key known ∉ current) prev
          = filter (fun known => observed_key known ∉ observed_key <$> ps_observations scan) prev) as Hf1
    by (apply list_filter_iff; intros o; rewrite Hcur, elem_of_empty; tauto).
  assert (filter (fun o => observed_key o ∈ current) avail
          = filter (fun o => observed_key o ∈ observed_key <$> ps_observations scan) avail) as Hf2
    by (apply list_filter_iff; intros o; rewrite Hcur, elem_of_empty; tauto).
  rewrite Hf1, Hf2 in *.
  assert (forall m, foldl record_one (foldl record_one m (ps_observations scan)) (spent_observation at_ <$>
            filter (fun known => observed_key known ∉ observed_key <$> ps_observations scan) prev)
          = foldl record_one m (written at_ (ps_observations scan) prev)) as Hw by (intros m; unfold written; by rewrite foldl_app).
  assert (forall f g, set_utxos f (set_utxos g db) = set_utxos (fun m => f (g m)) db) as Hset by (by destruct db).
  rewrite Hset in *.
  exists paths, prev, answer, scan, avail. split; [|done]. split; try done.
  - by destruct db; unfold set_utxos; cbn; rewrite Hw.
  - intros o Ho. specialize (Hag Hnd). rewrite Forall_forall in Hag. by apply Hag.
Qed.
Section scanned.
Context (w : ProviderWallet) (rid : string) (policy : WalletScanPolicy) (at_ : Z) (db : ProviderDb) (node : N).
Context (paths : gmap string WalletPath) (prev : list UtxoObservation) (answer : Value) (scan : ParsedScan).
Context (avail : list UtxoObservation) (inputs : list FundingInput) (db' : ProviderDb) (node' : N).
Context (Hs : scanned w rid policy at_ db node paths prev answer scan avail inputs db' node').
Context (Hlim : 0 <= sp_maximum_eligible_utxos policy).

Lemma written_distinct : NoDup (observed_key <$> written at_ (ps_observations scan) prev).
Proof.
  unfold written. rewrite fmap_app, <- list_fmap_compose. apply NoDup_app. split; [by apply (sd_distinct Hs)|].
  destruct (available_spec _ _ _ _ _ _ Hlim (sd_prev Hs)) as (Hnd & _). split.
  - intros k Hk (o & -> & Ho)%list_elem_of_fmap. by apply list_elem_of_filter in Ho as [Hn _].
  - eapply sublist_NoDup; [exact Hnd|]. change (observed_key ∘ spent_observation at_) with observed_key.
    apply (fmap_sublist observed_key), sublist_filter.
Qed.

(** The row of an output the scan saw, and of one it did not see. *)
Lemma seen_row o :
  o ∈ ps_observations scan -> db_utxos db' !! observed_key o = Some (observed_row (db_utxos db !! observed_key o) o).
Proof.
  intros Ho. rewrite (sd_db Hs). apply record_each; [apply written_distinct|].
  apply elem_of_app. by left.
Qed.

Lemma missed_row known :
  known ∈ prev -> observed_key known ∉ observed_key <$> ps_observations scan ->
  db_utxos db' !! observed_key known
  = Some (observed_row (db_utxos db !! observed_key known) (spent_observation at_ known)).
Proof.
  intros Hk Hn. rewrite (sd_db Hs). change (observed_key known) with (observed_key (spent_observation at_ known)).
  apply record_each; [apply written_distinct|]. apply elem_of_app. right. apply list_elem_of_fmap_2, list_elem_of_filter. by split.
Qed.

Lemma other_row k :
  k ∉ observed_key <$> ps_observations scan -> k ∉ observed_key <$> prev -> db_utxos db' !! k = db_utxos db !! k.
Proof.
  intros Ho Hp. rewrite (sd_db Hs). apply record_other. unfold written.
  rewrite fmap_app, <- list_fmap_compose, elem_of_app. intros [Hk|Hk]; [done|]. apply Hp.
  apply list_elem_of_fmap in Hk as (o & -> & [_ Hk]%list_elem_of_filter). by apply list_elem_of_fmap_2.
Qed.

(** An input is an output of the scan. *)
Lemma input_seen i :
  i ∈ inputs -> exists o row, o ∈ ps_observations scan /\ observed_key o = outpoint i /\ uo_amount o = fi_value_sat i
    /\ paths !! uo_script_pubkey o = Some (fi_path i)
    /\ uo_state o = "available"%string /\ sp_minimum_confirmations policy <= uo_confirmations o
    /\ db_utxos db' !! outpoint i = Some row /\ ux_state row = "available"%string.
Proof.
  intros (n & Hn)%list_elem_of_lookup. destruct (Forall2_lookup_r _ _ _ _ _ (sd_inputs Hs) Hn)
    as (st & Hst & Htx & Hvo & Hval & Hpath).
  apply list_elem_of_lookup_2, list_elem_of_filter in Hst as [(o & Hko & Ho)%list_elem_of_fmap Hst].
  destruct (available_spec _ _ _ _ _ _ Hlim (sd_avail Hs)) as (_ & _ & Hall & _).
  destruct (Hall st Hst) as (row & Hrow & (Has & Hstate & Hconf & Hscr) & (_ & _ & Ham & Hsc & _) & _).
  assert (outpoint i = observed_key st) as Hk by (unfold outpoint, observed_key; congruence).
  pose proof (seen_row o Ho) as Hseen. rewrite <- Hko, Hrow in Hseen. injection Hseen as ->.
  pose proof (sd_agrees Hs o Ho) as Hag.
  exists o, (observed_row (db_utxos db !! observed_key o) o). rewrite Hk, Hko. rewrite Hko in *.
  destruct (db_utxos db !! observed_key o) as [r|]; cbn [observed_row agrees ux_amount ux_script_pubkey ux_state ux_confirmations] in *.
  - destruct Hag as (_ & Ha1 & Ha2). split_and!; try done; try congruence.
    destruct (bool_decide (ux_state r = "reserved"%string)) eqn:Hr; cbn [andb] in Hstate; [|done].
    apply bool_decide_eq_true in Hr. case_bool_decide; congruence.
  - split_and!; try done; congruence.
Qed.

Lemma inputs_distinct : NoDup (outpoint <$> inputs) /\ len inputs <= sp_maximum_eligible_utxos policy.
Proof.
  destruct (available_spec _ _ _ _ _ _ Hlim (sd_avail Hs)) as (Hnd & Hlen & _).
  pose proof (sd_inputs Hs) as Hin. set (kept := filter _ avail) in Hin.
  assert (outpoint <$> inputs = observed_key <$> kept) as ->.
  { clear -Hin. induction Hin as [|o i kept inputs (H1' & H2' & _) _ IH]; [done|]. cbn [fmap list_fmap]. rewrite IH.
    unfold outpoint, observed_key. by rewrite H1', H2'. }
  assert (kept `sublist_of` avail) as Hsub by apply sublist_filter. split.
  - eapply sublist_NoDup; [exact Hnd|]. by apply (fmap_sublist observed_key).
  - apply sublist_length in Hsub. apply Forall2_length in Hin. unfold len in *. lia.
Qed.
End scanned.

(** ** Theorems *)

(** Outputs are never forgotten, and neither their facts nor their reservation
    change; nothing becomes reserved. *)
Definition keeps_outputs (s s' : ProviderDb * N) : Prop :=
  (exists m, s'.1 = set_utxos (fun _ => m) s.1) /\
  forall k row, db_utxos s.1 !! k = Some row -> exists row', db_utxos s'.1 !! k = Some row'
    /\ ux_asset_id row' = ux_asset_id row /\ ux_amount row' = ux_amount row /\ ux_script_pubkey row' = ux_script_pubkey row
    /\ ux_reservation_id row' = ux_reservation_id row
    /\ (ux_state row' = "reserved"%string -> ux_state row = "reserved"%string).

Definition undisturbed (s s' : ProviderDb * N) : Prop := keeps_outputs s s' /\ (ledger_inv s.1 -> ledger_inv s'.1).

#[local] Instance undisturbed_stable : Stable (fun s : ProviderDb * N => ledger_inv s.1) undisturbed.
Proof.
  split; [split|].
  - intros [db node]. split; [|done]. split; [exists (db_utxos db); by destruct db|]. intros k row Hk. by exists row.
  - intros [a n] [b n1] [c n2] [[[m1 Ha] Hab] Hi1] [[[m2 Hb] Hbc] Hi2]. cbn in *. subst. split; [|by eauto].
    split; [by exists m2|]. intros k row Hk. destruct (Hab k row Hk) as (r1 & Hr1 & ? & ? & ? & ? & Hres1).
    destruct (Hbc k r1 Hr1) as (r2 & Hr2 & ? & ? & ? & ? & Hres2). exists r2. split_and!; try done; try congruence. auto.
  - intros s s' Hi [_ H']. auto.
Qed.

Lemma observe_undisturbed o : keeps (fun s => ledger_inv s.1) undisturbed (store_observe (N := N) o).
Proof.
  intros [db node] Hi. cbn [fst] in Hi. unfold store_observe. cbn [fst snd]. destruct (observe_utxo db o) as [[u db']|e] eqn:Ho; cbn [snd].
  2:{ reflexivity. }
  pose proof (observe_utxo_inv _ _ _ _ Hi Ho) as Hi'. split; [|done].
  assert (uo_state o <> "reserved"%string) as Hnr.
  { unfold observe_utxo in Ho. apply bind_Ok in Ho as ([] & Hv & _). by apply observed_not_reserved. }
  apply observe_utxo_row in Ho as [-> Hag]. split; [by eexists; destruct db|]. intros k row Hk. cbn [fst db_utxos set_utxos] in Hk |- *.
  destruct (decide (k = observed_key o)) as [->|Hne]; [|rewrite lookup_insert_ne by done; by exists row].
  rewrite lookup_insert_eq, Hk. eexists. split; [done|]. cbn [observed_row ux_asset_id ux_amount ux_script_pubkey ux_reservation_id ux_state].
  split_and!; try done. destruct (bool_decide (ux_state row = _)) eqn:Hr; [by apply bool_decide_eq_true in Hr|done].
Qed.

Lemma scan_undisturbed rid descriptors : keeps (fun s => ledger_inv s.1) undisturbed (scan_tx_out_set call rid descriptors).
Proof.
  intros [db node] Hi. unfold scan_tx_out_set. cbn [fst snd]. destruct (call _ _ _ node) as [r node1]. cbn [snd].
  split; [|done]. split; [exists (db_utxos db); by destruct db|]. intros k row Hk. by exists row.
Qed.

Lemma available_undisturbed asset scripts minimum limit :
  keeps (fun s => ledger_inv s.1) undisturbed (store_available (N := N) asset scripts minimum limit).
Proof. intros [db node] Hi. unfold store_available. cbn [snd]. reflexivity. Qed.

(** C24: a scan never disturbs the ledger, whatever the node answers and
    wherever it stops: only rows of outputs are written, none is removed, no
    amount, script, asset or reservation of an output changes, nothing
    becomes reserved, and the ledger's invariant is kept. *)
Theorem scan_undisturbing w rid policy at_ db node :
  ledger_inv db ->
  let s' := (discover_with call w rid policy at_ (db, node)).2 in
  keeps_outputs (db, node) s' /\ ledger_inv s'.1.
Proof.
  intros Hi s'. assert (keeps (fun s => ledger_inv s.1) undisturbed (discover_with call w rid policy at_)) as Hk.
  { unfold discover_with. apply (keeps_bind _ _); [by apply keeps_lift; apply _|]. intros _.
    destruct (I64_MAX <? at_); [by apply keeps_raise; apply _|].
    repeat (apply (keeps_bind _ _); [|intros ?]); try (apply keeps_lift || apply keeps_ret); try apply _;
      try apply available_undisturbed; try apply scan_undisturbed; apply (keeps_for _ _); intros o _; apply observe_undisturbed. }
  destruct (Hk (db, node) Hi) as [Hko Hinv]. split; [exact Hko|by apply Hinv].
Qed.
(** What a successful scan leaves in the store, row by row: each output
    the node reported is recorded as reported, keeping an earlier row's
    reservation and requiring the same amount, script and asset; each output
    that was available and was not reported is marked spent; no other row
    changes. *)
Theorem scan_recorded w rid policy at_ db node l db' node' :
  0 <= sp_maximum_eligible_utxos policy ->
  discover_with call w rid policy at_ (db, node) = (Ok l, (db', node')) ->
  exists paths prev answer params scan,
    derive_script_paths w policy = Ok paths
    /\ available_utxos db (sp_asset_id policy) (script_keys paths) 0 (sp_maximum_eligible_utxos policy) = Ok prev
    /\ call rid "scantxoutset" params node = (Ok answer, node')
    /\ parse_scan answer paths (sp_asset_id policy) at_ = Ok scan
    /\ (forall o, o ∈ ps_observations scan -> agrees (db_utxos db !! observed_key o) o
          /\ db_utxos db' !! observed_key o = Some (observed_row (db_utxos db !! observed_key o) o))
    /\ (forall known, known ∈ prev -> observed_key known ∉ observed_key <$> ps_observations scan ->
          exists row row', db_utxos db !! observed_key known = Some row /\ ux_state row = "available"%string
            /\ db_utxos db' !! observed_key known = Some row' /\ ux_state row' = "spent"%string)
    /\ (forall k, k ∉ observed_key <$> ps_observations scan -> k ∉ observed_key <$> prev ->
          db_utxos db' !! k = db_utxos db !! k).
Proof.
  intros Hlim (_ & paths & prev & answer & scan & avail & Hs & _)%discover_inv.
  exists paths, prev, answer. eexists. exists scan.
  split; [apply (sd_paths Hs)|]. split; [apply (sd_prev Hs)|]. split; [apply (sd_answer Hs)|]. split; [apply (sd_scan Hs)|].
  split; [|split].
  - intros o Ho. split; [by apply (sd_agrees Hs)|by eapply seen_row].
  - intros known Hk Hn. destruct (available_spec _ _ _ _ _ _ Hlim (sd_prev Hs)) as (_ & _ & Hall & _).
    destruct (Hall known Hk) as (row & Hrow & (_ & Hst & _) & _). exists row. eexists. split; [done|]. split; [done|].
    split; [by eapply missed_row|]. rewrite Hrow. cbn [observed_row ux_state spent_observation uo_state]. by rewrite andb_false_r.
  - intros k Ho Hp. by eapply other_row.
Qed.

(** What an offered input rests on: an entry of the node's answer for the
    output, and an address of the wallet it was paid to. *)
Definition reported (w : ProviderWallet) (policy : WalletScanPolicy) (height : Z) (i : FundingInput) (v : Value) : Prop :=
  value_get "txid" v = Some (VString (fi_txid i)) /\ value_get "vout" v = Some (VInt (fi_vout i))
  /\ (exists amount, value_get "amount" v = Some amount /\ btc_decimal_to_satoshis amount = Ok (fi_value_sat i))
  /\ (exists a, derive_address w (fi_path i) = Ok a
        /\ value_get "scriptPubKey" v = Some (VString (encode_lower_hex (ta_script_pubkey a))))
  /\ (exists h, value_get "height" v = Some (VInt h) /\ sp_minimum_confirmations policy <= height - h + 1
        /\ ~ (value_get "coinbase" v = Some (VBool true) /\ height - h + 1 < COINBASE_MATURITY)).

Lemma input_reported w rid policy at_ db node paths prev answer scan avail inputs db' node' i :
  scanned w rid policy at_ db node paths prev answer scan avail inputs db' node' ->
  0 <= sp_maximum_eligible_utxos policy -> i ∈ inputs ->
  is_lower_hex_32 (fi_txid i) = true /\ 0 < fi_value_sat i <= MAX_BITCOIN_SATOSHIS
  /\ exists v, reported w policy (ps_height scan) i v
     /\ exists unspents, value_get "unspents" answer = Some (VArray unspents) /\ v ∈ unspents.
Proof.
  intros Hs Hlim Hi. destruct (input_seen _ _ _ _ _ _ _ _ _ _ _ _ _ _ Hs Hlim i Hi)
    as (o & row & Ho & Hk & Ham & Hpath & Hst & Hconf & _ & _).
  destruct (parse_scan_spec _ _ _ _ _ (sd_scan Hs)) as (unspents & Hu & _ & _ & Hall).
  apply list_elem_of_lookup in Ho as (n & Hn). destruct (Forall2_lookup_r _ _ _ _ _ Hall Hn) as (v & Hv & Hp).
  destruct (parse_unspent_spec _ _ _ _ _ _ Hp) as (Hhex & _ & _ & Hpos & _ & _ & _ & amount & h & Hva & Hsat & Htx & Hvo & Hsc & Hh & Hc & _ & Hmat).
  unfold observed_key, outpoint in Hk. injection Hk as Hk1 Hk2. rewrite Hk1, Hk2, Ham in *.
  split; [done|]. split; [done|]. exists v. split; [|by exists unspents; split; [|eapply list_elem_of_lookup_2]].
  destruct (derive_scripts_inv _ _ _ _ _ (sd_paths Hs)) as (_ & _ & Hout).
  destruct (Hout _ _ Hpath) as [Hbad|(x & _ & _ & a & Ha & Hsa)]; [done|].
  split; [done|]. split; [done|]. split; [by exists amount|]. split; [exists a; split; [done|congruence]|].
  exists h. rewrite <- Hc. split; [done|]. split; [done|]. by apply Hmat.
Qed.

Lemma scan_policy_limit policy : scan_policy_validate policy = Ok tt -> sp_maximum_eligible_utxos policy <= 64.
Proof.
  unfold scan_policy_validate. destruct (_ || _ || _); [done|]. destruct (_ || _); [done|].
  destruct ((sp_maximum_eligible_utxos policy =? 0) || _) eqn:Hm; [done|]. intros _. unfold MAX_ELIGIBLE_UTXOS in Hm. bool_to_prop. lia.
Qed.

(** C21: every input a scan offers is spendable by the wallet: the node
    reported it, unspent, in this scan, with exactly this amount, at the script
    of the address the wallet derives for the input's path, confirmed as often
    as the policy asks and, for a coinbase, mature; the store holds it as
    available; no output is offered twice, and there are at most 64. *)
Theorem discovered_spendable w rid policy at_ db node l db' node' :
  0 <= sp_maximum_eligible_utxos policy ->
  discover_with call w rid policy at_ (db, node) = (Ok l, (db', node')) ->
  exists answer params unspents,
    call rid "scantxoutset" params node = (Ok answer, node') /\ value_get "unspents" answer = Some (VArray unspents)
    /\ NoDup (outpoint <$> wl_funding_inputs l) /\ len (wl_funding_inputs l) <= 64
    /\ forall i, i ∈ wl_funding_inputs l ->
         (exists v, v ∈ unspents /\ reported w policy (wl_scan_height l) i v)
         /\ exists row, db_utxos db' !! outpoint i = Some row /\ ux_state row = "available"%string.
Proof.
  intros Hlim (Hval & paths & prev & answer & scan & avail & Hs & Hh & _)%discover_inv.
  destruct (parse_scan_spec _ _ _ _ _ (sd_scan Hs)) as (unspents & Hu & _).
  exists answer. eexists. exists unspents. split; [apply (sd_answer Hs)|]. split; [done|].
  destruct (inputs_distinct _ _ _ _ _ _ _ _ _ _ _ _ _ _ Hs Hlim) as [Hnd Hlen]. split; [done|].
  split; [apply scan_policy_limit in Hval; lia|]. intros i Hi. rewrite Hh. split.
  - destruct (input_reported _ _ _ _ _ _ _ _ _ _ _ _ _ _ _ Hs Hlim Hi) as (_ & _ & v & Hv & unspents' & Hu' & Hin).
    rewrite Hu in Hu'. injection Hu' as <-. by exists v.
  - destruct (input_seen _ _ _ _ _ _ _ _ _ _ _ _ _ _ Hs Hlim i Hi) as (o & row & _ & _ & _ & _ & _ & _ & Hrow & Hst). by exists row.
Qed.
End discover.

(** ** From a scan to a funding transaction *)

Section funds.
Context `{EventCrypto, TweakAdd, Secp256k1, WalletCrypto}.
Context `{!Sha256Digest, !ScalarBytes, !Secp256k1Laws, !TweakAddLaws, !WalletCryptoLaws}.
Context {N : Type} (call : string -> string -> Value -> Eff N BitcoindError Value).

Lemma input_total_bound inputs :
  Forall (fun i => 0 < fi_value_sat i <= MAX_BITCOIN_SATOSHIS) inputs -> 0 <= input_total inputs <= MAX_BITCOIN_SATOSHIS * len inputs.
Proof.
  induction 1 as [|i inputs Hi _ IH]; [done|]. unfold input_total in *. cbn [foldr].
  assert (len (i :: inputs) = 1 + len inputs) as -> by (unfold len; cbn [length]; lia). lia.
Qed.

Lemma valid_request_accepted inputs request :
  inputs <> [] -> len inputs <= MAX_FUNDING_INPUTS -> 0 < fr_amount_sat request ->
  0 < fr_fee_rate_sat_per_vbyte request <= MAX_FEE_RATE_SAT_PER_VBYTE ->
  0 < len (fr_destination_script_pubkey request) <= MAX_SCRIPT_BYTES ->
  Forall (fun i => is_lower_hex_32 (fi_txid i) = true) inputs ->
  Forall (fun i => 0 < fi_value_sat i <= MAX_BITCOIN_SATOSHIS) inputs ->
  validate_request inputs request = Ok tt.
Proof.
  intros Hne Hlen Ha Hr Hd Hhex Hpos. unfold validate_request.
  assert (is_empty inputs = false) as -> by (by destruct inputs).
  assert (is_empty (fr_destination_script_pubkey request) = false) as ->
    by (destruct (fr_destination_script_pubkey request); [unfold len in Hd; cbn in Hd; lia|done]).
  rewrite !(proj2 (Z.ltb_ge _ _)), !(proj2 (Z.eqb_neq _ _)) by lia. cbn [orb].
  assert (existsb (fun i => (fi_value_sat i =? 0) || negb (is_lower_hex_32 (fi_txid i))) inputs = false) as ->; [|done].
  apply not_true_iff_false. rewrite existsb_exists. intros (i & Hi%list_elem_of_In & Hbad).
  rewrite Forall_forall in Hhex, Hpos. rewrite (Hhex i Hi) in Hbad. specialize (Hpos i Hi). cbn beta in Hpos. cbn [negb] in Hbad.
  rewrite orb_false_r in Hbad. bool_to_prop. lia.
Qed.

(** What a scan offers can be spent at once: for any request within the
    bounds of the code, a funding transaction over the offered inputs is built
    when they hold the amount and the fee, with change when the change is
    worth an output, and is refused only for lack of money. *)
Theorem discovered_funds w rid policy at_ db node l s' request change :
  0 <= sp_maximum_eligible_utxos policy ->
  discover_with call w rid policy at_ (db, node) = (Ok l, s') -> wl_funding_inputs l <> [] ->
  0 < fr_amount_sat request <= MAX_MONEY -> 0 < fr_fee_rate_sat_per_vbyte request <= MAX_FEE_RATE_SAT_PER_VBYTE ->
  0 < len (fr_destination_script_pubkey request) <= MAX_SCRIPT_BYTES ->
  is_dust (destination request) DUST_RELAY_FEE_SAT_PER_KB = Ok false ->
  derive_address w (fr_change_path request) = Ok change ->
  funding_outcome w (wl_funding_inputs l) request.
Proof.
  destruct s' as [db' node']. intros Hlim Hd Hne Ham Hrate Hdest Hdust Hch.
  apply discover_inv in Hd as (Hval & paths & prev & answer & scan & avail & Hs & _).
  apply scan_policy_limit in Hval. destruct (inputs_distinct _ _ _ _ _ _ _ _ _ _ _ _ _ _ _ Hs Hlim) as [Hnd Hlen].
  assert (Forall (fun i => is_lower_hex_32 (fi_txid i) = true /\ 0 < fi_value_sat i <= MAX_BITCOIN_SATOSHIS
            /\ is_ok (derive_address w (fi_path i)) = true) (wl_funding_inputs l)) as Hall.
  { apply Forall_forall. intros i Hi. destruct (input_reported _ _ _ _ _ _ _ _ _ _ _ _ _ _ _ _ Hs Hlim Hi)
      as (Hhex & Hpos & v & (_ & _ & _ & (a & Ha & _) & _) & _). rewrite Ha. split; [exact Hhex|]. split; [exact Hpos|reflexivity]. }
  apply Forall_and in Hall as [Hhex [Hpos Hder]%Forall_and]. pose proof (input_total_bound _ Hpos) as Htot.
  apply (funding_decided w _ request change); try done.
  - split; [eapply Forall_impl; [exact Hpos|]; cbn beta; lia|lia].
  - apply valid_request_accepted; try done; try lia. unfold MAX_FUNDING_INPUTS. lia.
  - unfold MAX_BITCOIN_SATOSHIS, U64_MAX in *. lia.
  - lia.
Qed.
End funds.

(** ** A scan *)

#[local] Existing Instances toy_schnorr toy_secp toy_add_tweak toy_wallet.

Definition example_policy : WalletScanPolicy := mkScanPolicy "swp:1:btc" 0 3 1 1 4.
Definition example_script : string :=
  match derive_address example_wallet example_path with Ok a => encode_lower_hex (ta_script_pubkey a) | Err _ => "" end.

(** A node that reports one output of the wallet. *)
Definition example_answer : Value :=
  VObject [("bestblock", VString (encode_lower_hex (replicate 32 0xcc))); ("height", VInt 100); ("success", VBool true);
           ("unspents", VArray [VObject
             [("amount", VFloat "0.0006"); ("height", VInt 91); ("scriptPubKey", VString example_script);
              ("txid", VString (encode_lower_hex (replicate 32 0xaa))); ("vout", VInt 1)]])]%string.
Definition example_call (rid method : string) (params : Value) : Eff unit BitcoindError Value := mret example_answer.


Lemma example_result :
  exists l db' i, discover_with example_call example_wallet "scan" example_policy 1000 (empty_db, tt) = (Ok l, (db', tt))
  /\ i ∈ wl_funding_inputs l /\ wl_funding_inputs l <> [].
Proof.
  assert (match (discover_with example_call example_wallet "scan" example_policy 1000 (empty_db, tt)).1 with
          | Ok l => negb (is_empty (wl_funding_inputs l)) | Err _ => false end = true) as Hok by (vm_compute; reflexivity).
  destruct (discover_with _ _ _ _ _ _) as [[l|e] [db' []]]; [|discriminate].
  destruct (wl_funding_inputs l) as [|i rest] eqn:Hi; [cbn in Hok; rewrite Hi in Hok; discriminate|].
  exists l, db', i. split; [reflexivity|]. rewrite Hi. split; [left|discriminate].
Qed.

Lemma scan_undisturbing_witness :
  let s' := (discover_with example_call example_wallet "scan" example_policy 1000 (empty_db, tt)).2 in
  keeps_outputs (empty_db, tt) s' /\ ledger_inv s'.1.
Proof. exact (scan_undisturbing example_call example_wallet "scan" example_policy 1000 empty_db tt ledger_inv_empty). Defined.

Lemma scan_recorded_witness :
  exists l db', discover_with example_call example_wallet "scan" example_policy 1000 (empty_db, tt) = (Ok l, (db', tt))
  /\ exists scan : ParsedScan,
    forall o, o ∈ ps_observations scan -> db_utxos db' !! observed_key o = Some (observed_row None o).
Proof.
  destruct example_result as (l & db' & _ & Hd & _). exists l, db'. split; [exact Hd|].
  destruct (scan_recorded example_call example_wallet "scan" example_policy 1000 empty_db tt l db' tt ltac:(discriminate) Hd)
    as (paths & prev & answer & params & scan & _ & _ & _ & _ & Ho & _).
  exists scan. intros o Hin. exact (proj2 (Ho o Hin)).
Defined.

Lemma discovered_spendable_witness :
  exists l db' i v row, discover_with example_call example_wallet "scan" example_policy 1000 (empty_db, tt) = (Ok l, (db', tt))
    /\ i ∈ wl_funding_inputs l /\ reported example_wallet example_policy (wl_scan_height l) i v
    /\ db_utxos db' !! outpoint i = Some row.
Proof.
  destruct example_result as (l & db' & i & Hd & Hin & _).
  destruct (discovered_spendable example_call example_wallet "scan" example_policy 1000 empty_db tt l db' tt ltac:(discriminate) Hd)
    as (answer & params & unspents & _ & _ & _ & _ & Hi).
  destruct (Hi i Hin) as ((v & _ & Hr) & row & Hrow & _).
  exists l, db', i, v, row. split; [exact Hd|]. split; [exact Hin|]. split; [exact Hr|exact Hrow].
Defined.

Lemma discovered_funds_witness :
  exists l s', discover_with example_call example_wallet "scan" example_policy 1000 (empty_db, tt) = (Ok l, s')
  /\ funding_outcome example_wallet (wl_funding_inputs l) example_request.
Proof.
  destruct example_result as (l & db' & _ & Hd & _ & Hne). exists l, (db', tt). split; [exact Hd|].
  destruct (derive_address example_wallet (fr_change_path example_request)) as [change|e] eqn:Hch;
    [|vm_compute in Hch; discriminate].
  apply (@discovered_funds _ _ _ _ toy_schnorr_digest toy_add_tweak_scalar toy_secp_laws toy_tweak_laws toy_wallet_laws
           _ example_call example_wallet "scan" example_policy 1000 empty_db tt l (db', tt) example_request change).
  - discriminate.
  - exact Hd.
  - exact Hne.
  - vm_compute. split; [reflexivity|discriminate].
  - vm_compute. split; [reflexivity|discriminate].
  - vm_compute. split; [reflexivity|discriminate].
  - vm_compute. reflexivity.
  - exact Hch.
Defined.
