(* ===== verification/Settlement.v ===== *)
(** * Settlement: spending the output of a swap

    [immortal-provider/src/settlement.rs]: the claim and refund transactions
    of a swap leaf, and the cooperative key-path spend with its two-round
    signing state. *)

From S2P Require Import Prelude Text Hex Event Wire Transaction Cost Script Taproot Scalar Musig2 Wallet.

Inductive SettlementError : Type :=
| SWallet (error : WalletError)
| SCore (error : VerificationError)
| WrongPath
| PreimageMismatch
| SigningKeyMismatch
| SignatureInvalid
| DustOutput
| WeightLimit
| CooperativeKeyMismatch
| NonceCommitmentMismatch
| CooperativeState
| CooperativeExpired.

Record SettlementTemplate : Type := mkTemplate {
  st_wallet_path : WalletPath;
  st_previous_txid_wire : list Z;
  st_previous_output : Z;
  st_prevout_value_sat : Z;
  st_prevout_script_pubkey : list Z;
  st_destination_value_sat : Z;
  st_destination_script_pubkey : list Z;
  st_transaction_version : Z;
  st_input_sequence : Z;
  st_lock_time : Z;
  st_taproot_script : list Z;
  st_taproot_control_block : list Z;
  st_maximum_fee_sat : Z;
  st_maximum_fee_rate_sat_per_vbyte : Z;
  st_maximum_weight : Z;
  st_dust_relay_fee_sat_per_kilobyte : Z;
}.

Record CooperativeSettlementTemplate : Type := mkCooperativeTemplate {
  ct_settlement : SettlementTemplate;
  ct_cooperative_wallet_path : WalletPath;
  ct_participant_keys : list (list Z);
  ct_provider_index : nat;
  ct_taproot_merkle_root : list Z;
  ct_transcript_digest : list Z;
  ct_latest_safe_height : Z;
}.

Record SignedSettlementTransaction : Type := mkSignedSettlement {
  ss_raw_transaction : list Z;
  ss_transaction_id : list Z;
  ss_witness_transaction_id : list Z;
  ss_cost : TransactionCost;
}.

Definition unsigned_transaction (t : SettlementTemplate) : Transaction :=
  transaction_new (st_transaction_version t)
    [mkInput (st_previous_txid_wire t) (st_previous_output t) [] (st_input_sequence t) []]
    [mkOutput (st_destination_value_sat t) (st_destination_script_pubkey t)]
    (st_lock_time t).

Definition settlement_prevouts (t : SettlementTemplate) : list TransactionOutput :=
  [mkOutput (st_prevout_value_sat t) (st_prevout_script_pubkey t)].

Definition ensure_destination_policy (t : SettlementTemplate) (destination : TransactionOutput)
    : result SettlementError unit :=
  dust ← map_err SCore (is_dust destination (st_dust_relay_fee_sat_per_kilobyte t));
  if (dust : bool) then Err DustOutput else Ok tt.

Definition ensure_signature_key (leaf : ParsedSwapLeaf) (signature_public_key : list Z)
    : result SettlementError unit :=
  if negb (bool_decide (leaf_signing_key leaf = signature_public_key)) then Err SigningKeyMismatch else Ok tt.

(** [transaction.outputs.first().ok_or(..)?]. *)
Definition first_output (tx : Transaction) : result SettlementError TransactionOutput :=
  ok_or (SCore (Invalid "settlement transaction has no destination")) (head (tx_outputs tx)).

Section settlement.
Context `{EventCrypto, TweakAdd, Secp256k1, WalletCrypto}.

(** [ClaimPreimage::payment_hash]. *)
Definition payment_hash (preimage : list Z) : list Z := sha256 preimage.

Definition verify_validated_signature (validated : ValidatedTaprootWitness) (expected_sighash : list Z)
    : result SettlementError unit :=
  if negb (bool_decide (vw_sighash validated = expected_sighash)) then Err SignatureInvalid
  else if negb (xonly_public_key (vw_signing_key validated)) then Err SignatureInvalid
  else if verify_schnorr (vw_signature validated) (vw_sighash validated) (vw_signing_key validated) then Ok tt
  else Err SignatureInvalid.

Definition finalize_transaction (t : SettlementTemplate) (tx : Transaction) (prevouts : list TransactionOutput)
    : result SettlementError SignedSettlementTransaction :=
  cost ← map_err SCore (validate_transaction_cost tx prevouts (st_maximum_fee_sat t)
                          (st_maximum_fee_rate_sat_per_vbyte t));
  if st_maximum_weight t <? cost_weight cost then Err WeightLimit
  else
  raw ← map_err SCore (transaction_serialize tx true);
  id ← map_err SCore (txid tx);
  wid ← map_err SCore (wtxid tx);
  Ok (mkSignedSettlement raw id wid cost).

Definition ensure_wallet_key (w : ProviderWallet) (t : SettlementTemplate) (leaf : ParsedSwapLeaf)
    : result SettlementError unit :=
  address ← map_err SWallet (derive_address w (st_wallet_path t));
  if negb (bool_decide (leaf_signing_key leaf = ta_internal_key address)) then Err SigningKeyMismatch else Ok tt.

(** [SettlementBridge::claim]. *)
Definition claim (w : ProviderWallet) (t : SettlementTemplate) (preimage : list Z)
    : result SettlementError SignedSettlementTransaction :=
  leaf ← map_err SCore (parse_swap_leaf_script (st_taproot_script t));
  match leaf_condition leaf with
  | Hashlock expected_payment_hash =>
      if negb (bool_decide (payment_hash preimage = expected_payment_hash)) then Err PreimageMismatch
      else
      _ ← ensure_wallet_key w t leaf;
      let tx := unsigned_transaction t in
      let prevouts := settlement_prevouts t in
      destination ← first_output tx;
      _ ← ensure_destination_policy t destination;
      sighash ← map_err SCore (taproot_script_spend_sighash tx prevouts 0 (st_taproot_script t)
                                 (st_taproot_control_block t));
      wallet_signature ← map_err SWallet (sign_script_path w (st_wallet_path t) sighash);
      _ ← ensure_signature_key leaf (ws_public_key wallet_signature);
      items ← map_err SCore (assemble_taproot_claim_witness (ws_signature wallet_signature) preimage
                               (st_taproot_script t) (st_taproot_control_block t));
      tx ← map_err SCore (set_input_witness tx 0 items);
      validated ← map_err SCore (validate_taproot_claim_witness tx prevouts 0 (st_taproot_script t)
                                   (st_taproot_control_block t));
      _ ← verify_validated_signature validated sighash;
      finalize_transaction t tx prevouts
  | _ => Err WrongPath
  end.

(** [SettlementBridge::refund]. *)
Definition refund (w : ProviderWallet) (t : SettlementTemplate)
    : result SettlementError SignedSettlementTransaction :=
  leaf ← map_err SCore (parse_swap_leaf_script (st_taproot_script t));
  match leaf_condition leaf with
  | Hashlock _ => Err WrongPath
  | Cltv _ | Csv _ =>
      _ ← ensure_wallet_key w t leaf;
      let tx := unsigned_transaction t in
      let prevouts := settlement_prevouts t in
      destination ← first_output tx;
      _ ← ensure_destination_policy t destination;
      sighash ← map_err SCore (taproot_script_spend_sighash tx prevouts 0 (st_taproot_script t)
                                 (st_taproot_control_block t));
      wallet_signature ← map_err SWallet (sign_script_path w (st_wallet_path t) sighash);
      _ ← ensure_signature_key leaf (ws_public_key wallet_signature);
      items ← map_err SCore (assemble_taproot_refund_witness (ws_signature wallet_signature)
                               (st_taproot_script t) (st_taproot_control_block t));
      tx ← map_err SCore (set_input_witness tx 0 items);
      validated ← map_err SCore (validate_taproot_refund_witness tx prevouts 0 (st_taproot_script t)
                                   (st_taproot_control_block t));
      _ ← verify_validated_signature validated sighash;
      finalize_transaction t tx prevouts
  end.

(** ** Cooperative settlement *)

Record CooperativeSigningRound : Type := mkRound {
  cr_template : CooperativeSettlementTemplate;
  cr_transaction : Transaction;
  cr_prevouts : list TransactionOutput;
  cr_keys : list PublicKey;
  cr_tweaks : list Musig2Tweak;
  cr_aggregate_key : list Z;
  cr_signature_hash : list Z;
  cr_nonce : option WalletMusig2Nonce;
  cr_nonce_commitment : list Z;
  cr_counterparty_nonce_commitment : option (list Z);
  cr_partial_released : bool;
  cr_terminal : bool;
}.

Definition set_nonce (nonce : option WalletMusig2Nonce) (released terminal : bool) (r : CooperativeSigningRound)
    : CooperativeSigningRound :=
  mkRound (cr_template r) (cr_transaction r) (cr_prevouts r) (cr_keys r) (cr_tweaks r) (cr_aggregate_key r)
    (cr_signature_hash r) nonce (cr_nonce_commitment r) (cr_counterparty_nonce_commitment r) released terminal.
Definition set_commitment (c : option (list Z)) (r : CooperativeSigningRound) : CooperativeSigningRound :=
  mkRound (cr_template r) (cr_transaction r) (cr_prevouts r) (cr_keys r) (cr_tweaks r) (cr_aggregate_key r)
    (cr_signature_hash r) (cr_nonce r) (cr_nonce_commitment r) c (cr_partial_released r) (cr_terminal r).

(** [abort]. *)
Definition round_abort (r : CooperativeSigningRound) : CooperativeSigningRound :=
  set_nonce None (cr_partial_released r) true r.

(** [ensure_active]: an expired round is aborted. *)
Definition ensure_active (r : CooperativeSigningRound) (current_height : Z)
    : CooperativeSigningRound * result SettlementError unit :=
  if cr_terminal r then (r, Err CooperativeState)
  else if ct_latest_safe_height (cr_template r) <? current_height then (round_abort r, Err CooperativeExpired)
  else (r, Ok tt).

(** [WalletMusig2Nonce::public_nonce]. *)
Definition public_nonce (n : WalletMusig2Nonce) : list Z := sn_public_nonce (wn_secret_nonce n).

Definition register_counterparty_nonce_commitment (r : CooperativeSigningRound) (commitment : list Z)
    (current_height : Z) : CooperativeSigningRound * result SettlementError unit :=
  match ensure_active r current_height with
  | (r, Err e) => (r, Err e)
  | (r, Ok _) =>
      match cr_counterparty_nonce_commitment r with
      | Some existing => if bool_decide (existing = commitment) then (r, Ok tt) else (r, Err NonceCommitmentMismatch)
      | None => (set_commitment (Some commitment) r, Ok tt)
      end
  end.

Definition reveal_public_nonce (r : CooperativeSigningRound) (current_height : Z)
    : CooperativeSigningRound * result SettlementError (list Z) :=
  match ensure_active r current_height with
  | (r, Err e) => (r, Err e)
  | (r, Ok _) =>
      match cr_counterparty_nonce_commitment r with
      | None => (r, Err CooperativeState)
      | Some _ => (r, ok_or CooperativeState (public_nonce <$> cr_nonce r))
      end
  end.

(** [SettlementBridge::begin_cooperative]; [randomness] is what the operating
    system gives. *)
Definition begin_cooperative (w : ProviderWallet) (t : CooperativeSettlementTemplate) (current_height : Z)
    (randomness : option (list Z)) : result SettlementError CooperativeSigningRound :=
  let s := ct_settlement t in
  if (ct_latest_safe_height t =? 0) || (ct_latest_safe_height t <? current_height) then Err CooperativeExpired
  else if (length (ct_participant_keys t) <=? ct_provider_index t)%nat then Err CooperativeKeyMismatch
  else
  keys ← try_map (fun key => ok_or CooperativeKeyMismatch (pk_from_slice key)) (ct_participant_keys t);
  if bool_decide (keys !! 0%nat = keys !! 1%nat) then Err CooperativeKeyMismatch
  else
  address ← map_err SWallet (derive_address w (ct_cooperative_wallet_path t));
  let wallet_key := ta_internal_key address in
  if negb (bool_decide ((fun k => (x_only_public_key k).1) <$> keys !! ct_provider_index t = Some wallet_key))
     || negb (bool_decide (ct_participant_keys t !! ct_provider_index t ≫= head = Some 0x02))
  then Err CooperativeKeyMismatch
  else
  tweak ← map_err SCore (musig2_taproot_tweak keys (ct_taproot_merkle_root t));
  let tweaks := [tweak] in
  aggregate_key ← map_err SCore (musig2_tweaked_aggregate_key keys tweaks);
  if negb (bool_decide (st_prevout_script_pubkey s = [0x51; 0x20] ++ aggregate_key)) then Err CooperativeKeyMismatch
  else
  unilateral_leaf ← map_err SCore (parse_swap_leaf_script (st_taproot_script s));
  _ ← ensure_wallet_key w s unilateral_leaf;
  _ ← map_err SCore (verify_control_block aggregate_key (st_taproot_script s) (st_taproot_control_block s));
  let tx := unsigned_transaction s in
  let prevouts := settlement_prevouts s in
  destination ← first_output tx;
  _ ← ensure_destination_policy s destination;
  _ ← map_err SCore (validate_transaction_cost tx prevouts (st_maximum_fee_sat s) (st_maximum_fee_rate_sat_per_vbyte s));
  signature_hash ← map_err SCore (taproot_key_spend_sighash tx prevouts 0);
  nonce ← map_err SWallet (begin_cooperative_signing w (ct_cooperative_wallet_path t) (ct_transcript_digest t)
                             keys tweaks signature_hash randomness);
  Ok (mkRound t tx prevouts keys tweaks aggregate_key signature_hash (Some nonce)
        (sha256 (public_nonce nonce)) None false false).

(** [SettlementBridge::sign_cooperative_partial]. *)
Definition bridge_sign_partial (w : ProviderWallet) (r : CooperativeSigningRound) (current_height : Z)
    (public_nonces : list (list Z)) : CooperativeSigningRound * result SettlementError (list Z) :=
  match ensure_active r current_height with
  | (r, Err e) => (r, Err e)
  | (r, Ok _) =>
      if cr_partial_released r then (r, Err CooperativeState)
      else
      let provider_index := ct_provider_index (cr_template r) in
      let counterparty_index := (1 - provider_index)%nat in
      match cr_counterparty_nonce_commitment r with
      | None => (r, Err CooperativeState)
      | Some counterparty_commitment =>
          match cr_nonce r with
          | None => (r, Err CooperativeState)
          | Some nonce =>
              if negb (bool_decide (nth provider_index public_nonces [] = public_nonce nonce))
                 || negb (bool_decide (sha256 (nth counterparty_index public_nonces []) = counterparty_commitment))
              then (r, Err NonceCommitmentMismatch)
              else
              match sign_cooperative_partial w nonce (ct_transcript_digest (cr_template r)) public_nonces with
              | (_, Ok partial) => (set_nonce None true (cr_terminal r) r, Ok partial)
              | (nonce', Err error) => (round_abort (set_nonce (Some nonce') false (cr_terminal r) r), Err (SWallet error))
              end
          end
      end
  end.

(** [SettlementBridge::finalize_cooperative], which consumes the round. *)
Definition finalize_cooperative (r : CooperativeSigningRound) (current_height : Z)
    (public_nonces partial_signatures : list (list Z)) : result SettlementError SignedSettlementTransaction :=
  match ensure_active r current_height with
  | (_, Err e) => Err e
  | (r, Ok _) =>
      if negb (cr_partial_released r) then Err CooperativeState
      else
      signature ← map_err SCore (musig2_aggregate_partial_signatures (cr_keys r) public_nonces (cr_tweaks r)
                                   (cr_signature_hash r) partial_signatures);
      _ ← map_err SCore (verify_musig2_signature (cr_aggregate_key r) (cr_signature_hash r) signature);
      tx ← map_err SCore (set_input_witness (cr_transaction r) 0 [signature]);
      finalize_transaction (ct_settlement (cr_template r)) tx (cr_prevouts r)
  end.

End settlement.
