(* ===== verification/SettlementCorrect.v ===== *)
(** * SettlementCorrect: what settlement transactions achieve

    [settlement_spends]: a claim or refund the bridge returns spends the swap's
    output under the Tapscript rules, pays the destination and respects the
    fee and weight limits.  [settlement_complete]: it is returned whenever the
    leaf is the wallet's and the limits allow it.  [cooperative_ordered]: in a
    cooperative round nothing secret leaves out of turn.
    [cooperative_settles]: the key-path spend two parties finish is signed for
    the output, and [cooperative_complete] that they can finish it. *)

From S2P Require Import Prelude Text Hex Event Wire Transaction Cost Script Taproot Tapscript Scalar CurveOrder Musig2 Musig2Correct Wallet WalletCorrect Funding FundingCorrect Settlement.

(** The transaction of a template with a witness. *)
Definition signed_with (t : SettlementTemplate) (items : list (list Z)) : Transaction :=
  let inputs := [mkInput (st_previous_txid_wire t) (st_previous_output t) [] (st_input_sequence t) items] in
  mkTransaction (st_transaction_version t) inputs
    [mkOutput (st_destination_value_sat t) (st_destination_script_pubkey t)] (st_lock_time t) (any_witness inputs).

Lemma set_witness_signed t items :
  set_input_witness (unsigned_transaction t) 0 items = (_ ← validate_witness_items items; Ok (signed_with t items)).
Proof. unfold set_input_witness. by destruct (validate_witness_items items). Qed.

Lemma signed_same t items : same_but_witness (signed_with t items) (unsigned_transaction t).
Proof. done. Qed.

(** A script-path signature commits to no witness. *)
Lemma script_sighash_witness `{EventCrypto, TweakAdd} t items prevouts script cb :
  taproot_script_spend_sighash (signed_with t items) prevouts 0 script cb
  = taproot_script_spend_sighash (unsigned_transaction t) prevouts 0 script cb.
Proof.
  destruct prevouts as [|o [|o' prevouts]]; reflexivity.
Qed.

Section settlement.
Context `{EventCrypto, TweakAdd, Secp256k1, WalletCrypto}.

(** The values fit their types. *)
Definition template_typed (t : SettlementTemplate) : Prop :=
  0 <= st_prevout_value_sat t /\ 0 <= st_destination_value_sat t /\ st_transaction_version t < 2 ^ 31
  /\ Forall is_byte (st_taproot_script t).

(** What a settlement transaction is: the template's spend with a witness, its
    money accounted for and its size within the limits. *)
Record settled (t : SettlementTemplate) (items : list (list Z)) (s : SignedSettlementTransaction) : Prop := mkSettled {
  sd_raw : transaction_serialize (signed_with t items) true = Ok (ss_raw_transaction s);
  sd_id : txid (signed_with t items) = Ok (ss_transaction_id s);
  sd_wid : wtxid (signed_with t items) = Ok (ss_witness_transaction_id s);
  sd_fee : st_prevout_value_sat t = st_destination_value_sat t + cost_fee_sat (ss_cost s)
    /\ 0 <= cost_fee_sat (ss_cost s) <= st_maximum_fee_sat t;
  sd_size : virtual_size (signed_with t items) = Ok (cost_virtual_size (ss_cost s))
    /\ cost_fee_sat (ss_cost s) <= st_maximum_fee_rate_sat_per_vbyte t * cost_virtual_size (ss_cost s)
    /\ weight (signed_with t items) = Ok (cost_weight (ss_cost s)) /\ cost_weight (ss_cost s) <= st_maximum_weight t;
}.

Lemma finalize_settled t items s :
  template_typed t -> finalize_transaction t (signed_with t items) (settlement_prevouts t) = Ok s -> settled t items s.
Proof.
  intros (Hp & Hd & _) Hf. unfold finalize_transaction in Hf. apply bind_Ok in Hf as (cost & Hc%map_err_Ok & Hf).
  destruct (Z.ltb_spec (st_maximum_weight t) (cost_weight cost)) as [|Hw]; [done|].
  apply bind_Ok in Hf as (raw & Hraw%map_err_Ok & Hf). apply bind_Ok in Hf as (id & Hid%map_err_Ok & Hf).
  apply bind_Ok in Hf as (wid & Hwid%map_err_Ok & <-%Ok_inj).
  apply transaction_cost_conserves in Hc as (_ & Hcons & Hfee & Hv & Hwt & Hr);
    [|by apply Forall_singleton|by apply Forall_singleton].
  cbn in Hcons. split; try done. cbn [ss_cost]. split; [lia|done].
Qed.

Lemma finalize_ok t items cost :
  validate_transaction_cost (signed_with t items) (settlement_prevouts t) (st_maximum_fee_sat t)
    (st_maximum_fee_rate_sat_per_vbyte t) = Ok cost -> cost_weight cost <= st_maximum_weight t ->
  exists s, finalize_transaction t (signed_with t items) (settlement_prevouts t) = Ok s.
Proof.
  intros Hc Hw. unfold finalize_transaction. rewrite Hc. cbn [map_err mbind result_bind].
  rewrite (proj2 (Z.ltb_ge _ _) Hw). unfold validate_transaction_cost in Hc. apply bind_Ok in Hc as (cost' & Hc & _).
  unfold transaction_cost in Hc. destruct (negb _); [done|]. apply bind_Ok in Hc as (iv & _ & Hc). apply bind_Ok in Hc as (ov & _ & Hc).
  apply bind_Ok in Hc as (fee & _ & Hc). apply bind_Ok in Hc as (wt & Hwt & _). unfold weight in Hwt.
  apply bind_Ok in Hwt as (stripped & Hst & Hwt). apply bind_Ok in Hwt as (total & Htot & _).
  unfold txid, wtxid. rewrite Hst, Htot. cbn [map_err mbind result_bind]. by eexists.
Qed.

Context `{!Sha256Digest, !ScalarBytes, !Secp256k1Laws, !TweakAddLaws, !WalletCryptoLaws}.

(** The wallet's key of a path, and its signatures. *)
Lemma script_path_signs w path a sighash :
  derive_address w path = Ok a ->
  exists sig, sign_script_path w path sighash = Ok (mkWalletSignature (ta_internal_key a) sig)
    /\ length sig = 64%nat /\ verify_schnorr sig sighash (ta_internal_key a) = true
    /\ xonly_public_key (ta_internal_key a) = true.
Proof.
  intros (s & Hk & _)%derive_address_inv. apply key_of_inv in Hk as (_ & _ & k & parity & Hder & Hsec & Hx & _).
  unfold sign_script_path. rewrite Hder. cbn [mbind result_bind]. unfold sign_digest. rewrite Hx.
  eexists. split; [done|]. split; [by apply sign_length|]. rewrite <- Hx. split; [by apply sign_verifies|apply xonly_of_key].
Qed.

Lemma ensure_wallet_key_Ok w t leaf :
  ensure_wallet_key w t leaf = Ok tt <-> exists a, derive_address w (st_wallet_path t) = Ok a /\ leaf_signing_key leaf = ta_internal_key a.
Proof.
  unfold ensure_wallet_key. rewrite bind_Ok. split.
  - intros (a & Ha%map_err_Ok & Hk). exists a. case_bool_decide; done.
  - intros (a & Ha & Hk). exists a. rewrite Ha. split; [done|]. by rewrite bool_decide_eq_true_2.
Qed.

Lemma destination_policy_Ok t o : ensure_destination_policy t o = Ok tt <-> is_dust o (st_dust_relay_fee_sat_per_kilobyte t) = Ok false.
Proof.
  unfold ensure_destination_policy. destruct (is_dust o _) as [[]|]; cbn; split; try done; congruence.
Qed.


(** ** Claims and refunds *)

Lemma validated_signature v sighash :
  verify_validated_signature v sighash = Ok tt ->
  vw_sighash v = sighash /\ verify_schnorr (vw_signature v) sighash (vw_signing_key v) = true.
Proof.
  unfold verify_validated_signature. case_bool_decide as Hs; cbn [negb]; [|done]. destruct (negb _); [done|].
  rewrite Hs. by destruct (verify_schnorr _ _ _).
Qed.

(** A leaf's spend under BIP-342: the script is the one committed in the
    output, and it accepts the witness with the signatures of this
    transaction's digest. *)
Definition leaf_spent (t : SettlementTemplate) (items stack : list (list Z)) : Prop :=
  exists sighash instrs q input,
    taproot_script_spend_sighash (signed_with t items) (settlement_prevouts t) 0 (st_taproot_script t)
      (st_taproot_control_block t) = Ok sighash
    /\ tx_inputs (signed_with t items) = [input]
    /\ st_prevout_script_pubkey t = [0x51; 0x20] ++ q
    /\ verify_control_block q (st_taproot_script t) (st_taproot_control_block t) = Ok tt
    /\ parse_swap_script (st_taproot_script t) = Ok instrs
    /\ accepts (context_of (signed_with t items) input (fun sig key => verify_schnorr sig sighash key)) instrs stack = true.

Lemma claim_spends w t preimage s :
  template_typed t -> claim w t preimage = Ok s ->
  exists sig, let items := [sig; preimage; st_taproot_script t; st_taproot_control_block t] in
    settled t items s /\ leaf_spent t items [preimage; sig].
Proof.
  intros Hty Hc. unfold claim in Hc. apply bind_Ok in Hc as (leaf & Hleaf%map_err_Ok & Hc).
  destruct (leaf_condition leaf) as [h| |] eqn:Hcond; try done. case_bool_decide as Hh; cbn [negb] in Hc; [|done].
  apply bind_Ok in Hc as ([] & Hkey & Hc). cbv zeta in Hc. apply bind_Ok in Hc as (o & _ & Hc). apply bind_Ok in Hc as ([] & _ & Hc).
  apply bind_Ok in Hc as (sighash & Hsh%map_err_Ok & Hc). apply bind_Ok in Hc as (ws & _ & Hc). apply bind_Ok in Hc as ([] & _ & Hc).
  apply bind_Ok in Hc as (items & Hitems%map_err_Ok & Hc). apply bind_Ok in Hc as (tx & Htx%map_err_Ok & Hc).
  apply bind_Ok in Hc as (v & Hval%map_err_Ok & Hc). apply bind_Ok in Hc as ([] & [Hvs Hver]%validated_signature & Hfin).
  rewrite set_witness_signed in Htx. apply bind_Ok in Htx as (u & _ & <-%Ok_inj).
  unfold assemble_taproot_claim_witness in Hitems. apply bind_Ok in Hitems as (leaf' & _ & Hitems).
  destruct (leaf_condition leaf') as [h'| |]; try done. destruct (negb _); [done|]. apply bind_Ok in Hitems as ([] & _ & <-%Ok_inj).
  apply finalize_settled in Hfin; [|done]. destruct Hty as (_ & _ & _ & Hbytes).
  apply (claim_witness_spends _ _ _ _ _ _ Hbytes) in Hval as (input & pre & instrs & q & Hin & Hw & Hinstrs & Hq & Hcb & Hacc).
  injection Hin as <-. cbn [witness] in Hw. injection Hw as Hsig Hpre. exists (ws_signature ws). cbv zeta. split; [done|].
  exists sighash, instrs, q. eexists. rewrite script_sighash_witness. split; [exact Hsh|]. split; [reflexivity|].
  split; [exact Hq|]. split; [exact Hcb|]. split; [exact Hinstrs|]. rewrite Hsig, Hpre. apply Hacc. exact Hver.
Qed.

Lemma refund_spends w t s :
  template_typed t -> refund w t = Ok s ->
  exists sig, let items := [sig; st_taproot_script t; st_taproot_control_block t] in
    settled t items s /\ leaf_spent t items [sig].
Proof.
  intros Hty Hc. unfold refund in Hc. apply bind_Ok in Hc as (leaf & Hleaf%map_err_Ok & Hc).
  assert (exists sighash ws items tx v,
    taproot_script_spend_sighash (unsigned_transaction t) (settlement_prevouts t) 0 (st_taproot_script t) (st_taproot_control_block t) = Ok sighash
    /\ assemble_taproot_refund_witness (ws_signature ws) (st_taproot_script t) (st_taproot_control_block t) = Ok items
    /\ set_input_witness (unsigned_transaction t) 0 items = Ok tx
    /\ validate_taproot_refund_witness tx (settlement_prevouts t) 0 (st_taproot_script t) (st_taproot_control_block t) = Ok v
    /\ verify_validated_signature v sighash = Ok tt /\ finalize_transaction t tx (settlement_prevouts t) = Ok s)
    as (sighash & ws & items & tx & v & Hsh & Hitems & Htx & Hval & [Hvs Hver]%validated_signature & Hfin).
  { destruct (leaf_condition leaf) as [| |]; try done;
    (apply bind_Ok in Hc as ([] & _ & Hc); cbv zeta in Hc; apply bind_Ok in Hc as (o & _ & Hc); apply bind_Ok in Hc as ([] & _ & Hc);
     apply bind_Ok in Hc as (sighash & Hsh%map_err_Ok & Hc); apply bind_Ok in Hc as (ws & _ & Hc); apply bind_Ok in Hc as ([] & _ & Hc);
     apply bind_Ok in Hc as (items & Hitems%map_err_Ok & Hc); apply bind_Ok in Hc as (tx & Htx%map_err_Ok & Hc);
     apply bind_Ok in Hc as (v & Hval%map_err_Ok & Hc); apply bind_Ok in Hc as ([] & Hvv & Hfin); by exists sighash, ws, items, tx, v). }
  rewrite set_witness_signed in Htx. apply bind_Ok in Htx as (u & _ & <-%Ok_inj).
  assert (items = [ws_signature ws; st_taproot_script t; st_taproot_control_block t]) as ->.
  { unfold assemble_taproot_refund_witness in Hitems. apply bind_Ok in Hitems as (leaf' & _ & Hitems).
    destruct (leaf_condition leaf'); try done; by apply bind_Ok in Hitems as ([] & _ & <-%Ok_inj). }
  apply finalize_settled in Hfin; [|done]. destruct Hty as (_ & _ & Hver2 & Hbytes).
  apply refund_witness_spends in Hval as (input & instrs & q & Hin & Hw & Hinstrs & Hq & Hcb & Hacc); [|done|done].
  injection Hin as <-. cbn [witness] in Hw. injection Hw as Hsig. exists (ws_signature ws). cbv zeta. split; [done|].
  exists sighash, instrs, q. eexists. rewrite script_sighash_witness. split; [exact Hsh|]. split; [reflexivity|].
  split; [exact Hq|]. split; [exact Hcb|]. split; [exact Hinstrs|]. rewrite Hsig. apply Hacc. exact Hver.
Qed.

(** C17: a claim or a refund the bridge returns settles the swap: it is the
    template's transaction, it pays the destination all but a fee within the
    limits, its witness is the signature, the preimage for a claim, the script
    and the control block, the control block proves the script against the
    output's key, and the script accepts the witness under the Tapscript rules
    with signatures checked for the digest of that transaction. *)
Theorem settlement_spends w t s :
  template_typed t ->
  (forall preimage, claim w t preimage = Ok s ->
     exists sig, let items := [sig; preimage; st_taproot_script t; st_taproot_control_block t] in
       settled t items s /\ leaf_spent t items [preimage; sig])
  /\ (refund w t = Ok s ->
     exists sig, let items := [sig; st_taproot_script t; st_taproot_control_block t] in
       settled t items s /\ leaf_spent t items [sig]).
Proof. intros Hty. split; [intros preimage; by apply claim_spends|by apply refund_spends]. Qed.

(** ** When a settlement is returned *)

(** The money and the size of the transaction with a witness are within the
    template's limits. *)
Definition affordable (t : SettlementTemplate) (items : list (list Z)) : Prop :=
  exists cost, validate_transaction_cost (signed_with t items) (settlement_prevouts t) (st_maximum_fee_sat t)
                 (st_maximum_fee_rate_sat_per_vbyte t) = Ok cost /\ cost_weight cost <= st_maximum_weight t.

Lemma witness_shape items items' :
  length <$> items = length <$> items' ->
  len items = len items' /\ len (witness_bytes items) = len (witness_bytes items')
  /\ (witness_limits items -> witness_limits items').
Proof.
  intros Hl. assert (Forall2 (fun x y => length x = length y) items items') as Hf.
  { revert items' Hl. induction items as [|x items IH]; intros [|y items'] Hl; try done.
    injection Hl as Hxy Hl. constructor; [done|by apply IH]. }
  assert (len items = len items') as Hn by (unfold len; f_equal; by eapply Forall2_length).
  split; [done|]. unfold witness_bytes, witness_limits. rewrite Hn, !len_app. split.
  - apply (f_equal (Z.add _)). clear Hn Hl. induction Hf as [|x y l l' Hxy _ IH]; [done|]. rewrite !fmap_cons. cbn [concat].
    unfold write_var_bytes at 1 3. rewrite !len_app, IH. unfold len. by rewrite Hxy.
  - intros [Hc HF]. split; [done|]. clear Hn Hl Hc. induction Hf as [|x y l l' Hxy _ IH]; [done|].
    apply Forall_cons in HF as [Hx HF]. constructor; [unfold len in *; by rewrite <- Hxy|by apply IH].
Qed.

Lemma signed_size t items items' b :
  length <$> items = length <$> items' -> transaction_serialize (signed_with t items) true = Ok b ->
  exists b', transaction_serialize (signed_with t items') true = Ok b' /\ len b' = len b.
Proof.
  intros Hl (Hlim & -> & Hmax)%transaction_serialize_Ok. pose proof (witness_shape _ _ Hl) as (Hn & Hb & Hw).
  set (inc := true && _ && _) in *. exists (transaction_bytes (signed_with t items') inc).
  assert (len (transaction_bytes (signed_with t items') inc) = len (transaction_bytes (signed_with t items) inc)) as Heq.
  { assert (len (concat ((fun i => witness_bytes (witness i)) <$> tx_inputs (signed_with t items')))
            = len (concat ((fun i => witness_bytes (witness i)) <$> tx_inputs (signed_with t items)))) as Hcat.
    { cbn [fmap list_fmap tx_inputs signed_with concat witness]. by rewrite !app_nil_r. }
    unfold transaction_bytes. rewrite !len_app. destruct inc; [rewrite Hcat|]; reflexivity. }
  split; [|done]. apply transaction_serialize_Ok.
  assert (true && tx_has_witness (signed_with t items') && any_witness (tx_inputs (signed_with t items')) = inc) as ->.
  { subst inc. by destruct items, items'. }
  split; [|split; [done|lia]]. destruct Hlim as (? & ? & ? & ? & Hwl). split; [done|]. split; [done|].
  split; [by apply Forall_singleton|]. split; [done|]. intros Hi. apply Forall_singleton, Hw. exact (Forall_inv (Hwl Hi)).
Qed.

(** The cost of a settlement depends only on the sizes of its witness items. *)
Lemma affordable_shape t items items' :
  length <$> items = length <$> items' -> affordable t items -> affordable t items'.
Proof.
  intros Hl (cost & Hc & Hw). exists cost. split; [|done]. rewrite <- Hc. symmetry.
  assert (weight (signed_with t items') = weight (signed_with t items)) as Hwt.
  { unfold validate_transaction_cost, transaction_cost in Hc. apply bind_Ok in Hc as (cost' & Hc & _).
    destruct (negb _); [done|]. apply bind_Ok in Hc as (iv & _ & Hc). apply bind_Ok in Hc as (ov & _ & Hc).
    apply bind_Ok in Hc as (fee & _ & Hc). apply bind_Ok in Hc as (wt & Hwt & _). unfold weight in *.
    apply bind_Ok in Hwt as (stripped & Hst & Hwt). apply bind_Ok in Hwt as (total & Htot & _).
    destruct (signed_size _ _ _ _ Hl Htot) as (b' & Hb' & Hlen).
    change (transaction_serialize (signed_with t items') false) with (transaction_serialize (signed_with t items) false).
    rewrite Hst, Htot, Hb'. cbn [mbind result_bind]. by rewrite Hlen. }
  unfold validate_transaction_cost, transaction_cost, virtual_size. by rewrite Hwt.
Qed.

Lemma affordable_witness t items : affordable t items -> items <> [] -> validate_witness_items items = Ok tt.
Proof.
  intros (cost & Hc & _) Hne. unfold validate_transaction_cost, transaction_cost in Hc. apply bind_Ok in Hc as (cost' & Hc & _).
  destruct (negb _); [done|]. apply bind_Ok in Hc as (iv & _ & Hc). apply bind_Ok in Hc as (ov & _ & Hc).
  apply bind_Ok in Hc as (fee & _ & Hc). apply bind_Ok in Hc as (wt & Hwt & _). unfold weight in Hwt.
  apply bind_Ok in Hwt as (stripped & _ & Hwt). apply bind_Ok in Hwt as (total & Htot & _).
  apply transaction_serialize_Ok in Htot as ((_ & _ & _ & _ & Hl) & _). destruct items as [|item items]; [done|].
  destruct (Forall_inv (Hl eq_refl)) as [Hn HF]. cbn [witness] in *. unfold validate_witness_items.
  rewrite (proj2 (Z.ltb_ge _ _) Hn). destruct (existsb _ _) eqn:He; [|done]. exfalso.
  apply existsb_exists in He as (x & Hin & Hx%Z.ltb_lt). rewrite Forall_forall in HF. apply list_elem_of_In, HF in Hin. lia.
Qed.

(** The swap's output is a Taproot output that commits to the leaf. *)
Definition committed (t : SettlementTemplate) : Prop :=
  exists q, st_prevout_script_pubkey t = [0x51; 0x20] ++ q /\ length q = 32%nat /\ xonly_public_key q = true
    /\ leaf_version_of (st_taproot_control_block t) = Some TAPROOT_LEAF_VERSION
    /\ verify_control_block q (st_taproot_script t) (st_taproot_control_block t) = Ok tt.

Lemma affordable_destination t items : affordable t items -> len (st_destination_script_pubkey t) <= MAX_SCRIPT_BYTES.
Proof.
  intros (cost & Hc & _). unfold validate_transaction_cost, transaction_cost in Hc. apply bind_Ok in Hc as (cost' & Hc & _).
  destruct (negb _); [done|]. apply bind_Ok in Hc as (iv & _ & Hc). apply bind_Ok in Hc as (ov & _ & Hc).
  apply bind_Ok in Hc as (fee & _ & Hc). apply bind_Ok in Hc as (wt & Hwt & _). unfold weight in Hwt.
  apply bind_Ok in Hwt as (stripped & Hst & _). apply transaction_serialize_Ok in Hst as ((_ & _ & _ & Ho & _) & _).
  exact (Forall_inv Ho).
Qed.

Lemma committed_shape t : committed t -> validate_control_block_shape (st_taproot_control_block t) = Ok tt.
Proof.
  intros (q & _ & _ & _ & Hv & Hcb). unfold validate_control_block_shape. rewrite (bool_decide_eq_true_2 _ Hv).
  unfold verify_control_block in Hcb. by destruct (control_block_length_ok _).
Qed.

Lemma committed_sighash t leaf :
  committed t -> parse_swap_leaf_script (st_taproot_script t) = Ok leaf ->
  len (st_destination_script_pubkey t) <= MAX_SCRIPT_BYTES ->
  exists sighash, taproot_script_spend_sighash (unsigned_transaction t) (settlement_prevouts t) 0 (st_taproot_script t)
                    (st_taproot_control_block t) = Ok sighash.
Proof.
  intros (q & Hq & Hlen & Hx & Hv & Hcb) Hleaf Hd.
  unfold taproot_script_spend_sighash, taproot_script_spend_signature_message, validate_taproot_spend_inputs.
  change (validate_prevouts (unsigned_transaction t) (settlement_prevouts t) 0)
    with (Ok (E := VerificationError) (mkInput (st_previous_txid_wire t) (st_previous_output t) [] (st_input_sequence t) [])).
  cbn [mbind result_bind]. change (existsb _ (tx_inputs (unsigned_transaction t))) with false. cbn iota.
  assert (validate_prevout_scripts (settlement_prevouts t) = Ok tt) as ->.
  { unfold validate_prevout_scripts, settlement_prevouts. cbn [existsb script_pubkey]. rewrite Hq.
    assert (len ([0x51; 0x20] ++ q) = 34) as -> by (rewrite len_app; unfold len; rewrite Hlen; done). done. }
  assert (taproot_output_key_from_script_pubkey (script_pubkey (prevout_at (settlement_prevouts t) 0)) = Ok q) as ->.
  { change (script_pubkey _) with (st_prevout_script_pubkey t). rewrite Hq. unfold taproot_output_key_from_script_pubkey.
    change (strip_prefix_bytes [0x51; 0x20] ([0x51; 0x20] ++ q)) with (Some q). cbn [ok_or mbind result_bind].
    by rewrite Hlen, Hx. }
  cbn [mbind result_bind]. rewrite (bool_decide_eq_true_2 _ Hv), Hleaf. cbn [negb mbind result_bind]. rewrite Hcb. cbn [mbind result_bind].
  change (ok_or _ (try_from_u U32_MAX _)) with (Ok (E := VerificationError) 0). cbn [mbind result_bind].
  assert (exists common, common_message (unsigned_transaction t) (settlement_prevouts t) = Ok common) as (common & ->).
  { unfold common_message. change (tx_outputs (unsigned_transaction t)) with [mkOutput (st_destination_value_sat t) (st_destination_script_pubkey t)].
    cbn [try_map]. rewrite (proj2 (output_serialize_Ok (mkOutput (st_destination_value_sat t) (st_destination_script_pubkey t)) _) (conj Hd eq_refl)). cbn [mbind result_bind]. by eexists. }
  cbn [mbind result_bind].
  assert (exists leafhash, tapleaf_hash TAPROOT_LEAF_VERSION (st_taproot_script t) = Ok leafhash) as (leafhash & ->); [|by eexists].
  unfold verify_control_block in Hcb. destruct (negb (control_block_length_ok _)); [done|]. cbv zeta in Hcb.
  assert (Z.land (nth 0 (st_taproot_control_block t) 0) 0xfe = TAPROOT_LEAF_VERSION) as Heq.
  { unfold leaf_version_of in Hv. destruct (st_taproot_control_block t); [done|]. by injection Hv. }
  rewrite Heq in Hcb. change (TAPROOT_LEAF_VERSION =? 0x50) with false in Hcb. destruct (negb _); [done|].
  apply bind_Ok in Hcb as (root & Hroot & _). by exists root.
Qed.

Definition blank : list Z := replicate 64 0.

(** What both settlements need: the leaf is the wallet's, the output commits
    to it, the destination is not dust. *)
Definition settleable (w : ProviderWallet) (t : SettlementTemplate) (leaf : ParsedSwapLeaf) : Prop :=
  parse_swap_leaf_script (st_taproot_script t) = Ok leaf
  /\ (exists a, derive_address w (st_wallet_path t) = Ok a /\ leaf_signing_key leaf = ta_internal_key a)
  /\ committed t
  /\ is_dust (mkOutput (st_destination_value_sat t) (st_destination_script_pubkey t)) (st_dust_relay_fee_sat_per_kilobyte t) = Ok false.

(** The steps both take up to the witness. *)
Lemma settleable_signs w t leaf items :
  settleable w t leaf -> affordable t items ->
  exists sighash sig,
    ensure_wallet_key w t leaf = Ok tt
    /\ ensure_destination_policy t (mkOutput (st_destination_value_sat t) (st_destination_script_pubkey t)) = Ok tt
    /\ taproot_script_spend_sighash (unsigned_transaction t) (settlement_prevouts t) 0 (st_taproot_script t)
         (st_taproot_control_block t) = Ok sighash
    /\ sign_script_path w (st_wallet_path t) sighash = Ok (mkWalletSignature (leaf_signing_key leaf) sig)
    /\ length sig = 64%nat /\ verify_validated_signature (mkValidated sig (leaf_signing_key leaf) sighash) sighash = Ok tt.
Proof.
  intros (Hleaf & (a & Ha & Hk) & Hcom & Hdust) Haff.
  destruct (committed_sighash _ _ Hcom Hleaf (affordable_destination _ _ Haff)) as (sighash & Hsh).
  destruct (script_path_signs w (st_wallet_path t) a sighash Ha) as (sig & Hsig & Hlen & Hver & Hx).
  exists sighash, sig. rewrite ensure_wallet_key_Ok, destination_policy_Ok. split; [by exists a|]. split; [done|].
  split; [done|]. rewrite Hk. split; [done|]. split; [done|]. unfold verify_validated_signature.
  cbn [vw_sighash vw_signature vw_signing_key]. by rewrite bool_decide_eq_true_2, Hx, Hver by done.
Qed.

Lemma affordable_finalizes t items : affordable t items -> exists s, finalize_transaction t (signed_with t items) (settlement_prevouts t) = Ok s.
Proof. intros (cost & Hc & Hw). by eapply finalize_ok. Qed.

Lemma claim_complete w t leaf h preimage :
  settleable w t leaf -> leaf_condition leaf = Hashlock h -> length preimage = 32%nat -> sha256 preimage = h ->
  affordable t [blank; preimage; st_taproot_script t; st_taproot_control_block t] -> exists s, claim w t preimage = Ok s.
Proof.
  intros Hset Hcond Hlen Hh Haff. destruct (settleable_signs _ _ _ _ Hset Haff) as (sighash & sig & Hw & Hd & Hsh & Hsign & Hl & Hver).
  apply (affordable_shape _ _ [sig; preimage; st_taproot_script t; st_taproot_control_block t]) in Haff; [|cbn; by rewrite Hl].
  destruct (affordable_finalizes _ _ Haff) as (s & Hs). exists s. destruct Hset as (Hleaf & _ & Hcom & _).
  assert (verify_preimage preimage h = true) as Hp.
  { unfold verify_preimage. rewrite Hh. apply constant_time_equal_spec; rewrite <- ?Hh; auto using sha256_bytes. }
  unfold claim. rewrite Hleaf. cbn [map_err mbind result_bind]. rewrite Hcond. unfold payment_hash.
  rewrite bool_decide_eq_true_2 by done. cbn [negb]. rewrite Hw. cbn [mbind result_bind].
  change (first_output (unsigned_transaction t))
    with (Ok (E := SettlementError) (mkOutput (st_destination_value_sat t) (st_destination_script_pubkey t))).
  cbn [mbind result_bind]. rewrite Hd. cbn [mbind result_bind]. rewrite Hsh. cbn [map_err mbind result_bind]. rewrite Hsign.
  cbn [map_err mbind result_bind ws_public_key ws_signature]. unfold ensure_signature_key. rewrite bool_decide_eq_true_2 by done.
  cbn [negb mbind result_bind]. unfold assemble_taproot_claim_witness. rewrite Hleaf. cbn [mbind result_bind]. rewrite Hcond, Hp.
  cbn [negb]. rewrite (committed_shape _ Hcom). cbn [map_err mbind result_bind]. rewrite set_witness_signed, (affordable_witness _ _ Haff) by done.
  cbn [map_err mbind result_bind]. unfold validate_taproot_claim_witness, exact_default_signature.
  cbn [tx_inputs signed_with lookup list_lookup ok_or mbind result_bind witness]. rewrite Hl. cbn [Nat.eqb mbind result_bind].
  rewrite Hlen, !bool_decide_eq_true_2 by done. cbn [negb orb Nat.eqb]. rewrite Hleaf. cbn [mbind result_bind]. rewrite Hcond, Hp. cbn [negb].
  rewrite script_sighash_witness, Hsh. cbn [map_err mbind result_bind]. rewrite Hver. exact Hs.
Qed.

(** The lock of a refund leaf is met by the template. *)
Definition lock_met (t : SettlementTemplate) (leaf : ParsedSwapLeaf) : Prop :=
  match leaf_condition leaf with
  | Hashlock _ => False
  | Cltv required => st_input_sequence t <> U32_MAX /\ check_cltv (BlockHeight required) (st_lock_time t) = true
  | Csv required => 2 <= st_transaction_version t /\ check_csv required (st_input_sequence t) = true
  end.

Lemma refund_validated t leaf sighash sig :
  parse_swap_leaf_script (st_taproot_script t) = Ok leaf -> lock_met t leaf -> length sig = 64%nat ->
  taproot_script_spend_sighash (unsigned_transaction t) (settlement_prevouts t) 0 (st_taproot_script t)
    (st_taproot_control_block t) = Ok sighash ->
  validate_taproot_refund_witness (signed_with t [sig; st_taproot_script t; st_taproot_control_block t]) (settlement_prevouts t) 0
    (st_taproot_script t) (st_taproot_control_block t) = Ok (mkValidated sig (leaf_signing_key leaf) sighash).
Proof.
  intros Hleaf Hlock Hl Hsh. unfold validate_taproot_refund_witness, exact_default_signature.
  cbn [tx_inputs signed_with lookup list_lookup ok_or mbind result_bind witness]. rewrite Hl. cbn [Nat.eqb mbind result_bind].
  rewrite !bool_decide_eq_true_2 by done. cbn [negb orb]. rewrite Hleaf. cbn [mbind result_bind].
  unfold lock_met in Hlock. rewrite script_sighash_witness, Hsh. cbn [tx_lock_time tx_version signed_with sequence].
  destruct (leaf_condition leaf) as [|required|required]; [done|..].
  - destruct Hlock as [Hs ->]. by rewrite (proj2 (Z.eqb_neq _ _) Hs).
  - destruct Hlock as [Hs ->]. by rewrite (proj2 (Z.ltb_ge _ _) Hs).
Qed.

Lemma refund_complete w t leaf :
  settleable w t leaf -> lock_met t leaf -> affordable t [blank; st_taproot_script t; st_taproot_control_block t] ->
  exists s, refund w t = Ok s.
Proof.
  intros Hset Hlock Haff. destruct (settleable_signs _ _ _ _ Hset Haff) as (sighash & sig & Hw & Hd & Hsh & Hsign & Hl & Hver).
  apply (affordable_shape _ _ [sig; st_taproot_script t; st_taproot_control_block t]) in Haff; [|cbn; by rewrite Hl].
  destruct (affordable_finalizes _ _ Haff) as (s & Hs). exists s. destruct Hset as (Hleaf & _ & Hcom & _).
  pose proof (refund_validated _ _ _ _ Hleaf Hlock Hl Hsh) as Hval. unfold lock_met in Hlock.
  assert (assemble_taproot_refund_witness sig (st_taproot_script t) (st_taproot_control_block t)
          = Ok [sig; st_taproot_script t; st_taproot_control_block t]) as Hasm.
  { unfold assemble_taproot_refund_witness. rewrite Hleaf. cbn [mbind result_bind]. rewrite (committed_shape _ Hcom).
    by destruct (leaf_condition leaf). }
  unfold refund. rewrite Hleaf. cbn [map_err mbind result_bind].
  destruct (leaf_condition leaf); [done|..];
    (rewrite Hw; cbn [mbind result_bind];
     change (first_output (unsigned_transaction t))
       with (Ok (E := SettlementError) (mkOutput (st_destination_value_sat t) (st_destination_script_pubkey t)));
     cbn [mbind result_bind]; rewrite Hd; cbn [mbind result_bind]; rewrite Hsh; cbn [map_err mbind result_bind]; rewrite Hsign;
     cbn [map_err mbind result_bind ws_public_key ws_signature]; unfold ensure_signature_key; rewrite bool_decide_eq_true_2 by done;
     cbn [negb mbind result_bind]; rewrite Hasm; cbn [map_err mbind result_bind];
     rewrite set_witness_signed, (affordable_witness _ _ Haff) by done; cbn [map_err mbind result_bind];
     rewrite Hval; cbn [map_err mbind result_bind]; rewrite Hver; exact Hs).
Qed.

(** C25: the bridge settles every swap it can: when the output commits to a
    leaf with the wallet's key, the destination is not dust and the money and
    size of the transaction are within the limits, which depend only on the
    length of a signature, the claim is returned for the 32-byte preimage of
    the hashlock, and the refund when the template meets the leaf's lock. *)
Theorem settlement_complete w t leaf :
  settleable w t leaf ->
  (forall h preimage, leaf_condition leaf = Hashlock h -> length preimage = 32%nat -> sha256 preimage = h ->
     affordable t [blank; preimage; st_taproot_script t; st_taproot_control_block t] -> exists s, claim w t preimage = Ok s)
  /\ (lock_met t leaf -> affordable t [blank; st_taproot_script t; st_taproot_control_block t] -> exists s, refund w t = Ok s).
Proof. intros Hset. split; [intros; by eapply claim_complete|by apply refund_complete]. Qed.

(** ** The cooperative round *)

Inductive RoundOp : Type :=
| Register (commitment : list Z) (height : Z)
| Reveal (height : Z)
| SignPartial (public_nonces : list (list Z)) (height : Z)
| Abort.

Inductive RoundResult : Type :=
| Registered
| Revealed (nonce : list Z)
| Released (partial : list Z)
| Aborted
| Refused (error : SettlementError).

Definition outcome {A} (f : A -> RoundResult) (res : CooperativeSigningRound * result SettlementError A)
    : CooperativeSigningRound * RoundResult :=
  (res.1, match res.2 with Ok x => f x | Err e => Refused e end).

(** One call on the round, and a sequence of calls with what each returned. *)
Definition round_step (w : ProviderWallet) (r : CooperativeSigningRound) (op : RoundOp)
    : CooperativeSigningRound * RoundResult :=
  match op with
  | Register c h => outcome (fun _ => Registered) (register_counterparty_nonce_commitment r c h)
  | Reveal h => outcome Revealed (reveal_public_nonce r h)
  | SignPartial nonces h => outcome Released (bridge_sign_partial w r h nonces)
  | Abort => (round_abort r, Aborted)
  end.

Fixpoint round_run (w : ProviderWallet) (r : CooperativeSigningRound) (ops : list RoundOp)
    : CooperativeSigningRound * list (RoundOp * RoundResult) :=
  match ops with
  | [] => (r, [])
  | op :: ops =>
      let '(r, res) := round_step w r op in
      let '(r, trace) := round_run w r ops in (r, (op, res) :: trace)
  end.

Definition op_height (op : RoundOp) : option Z :=
  match op with Register _ h | Reveal h | SignPartial _ h => Some h | Abort => None end.

(** No call was an abort, came after the safe height, or failed in the wallet. *)
Definition round_open (safe : Z) (trace : list (RoundOp * RoundResult)) : Prop :=
  forall op res, (op, res) ∈ trace -> (exists h, op_height op = Some h /\ h <= safe) /\ forall e, res <> Refused (SWallet e).
Definition unreleased (trace : list (RoundOp * RoundResult)) : Prop := forall op s, (op, Released s) ∉ trace.

(** What may leave the round after the calls of [before]: an open round keeps
    one commitment, shows its own nonce only once the counterparty is
    committed, and signs once, for its nonce and the committed one. *)
Definition in_turn (t : CooperativeSettlementTemplate) (nonce : list Z) (before : list (RoundOp * RoundResult))
    (call : RoundOp * RoundResult) : Prop :=
  let safe := ct_latest_safe_height t in
  match call with
  | (Register c h, Registered) =>
      h <= safe /\ round_open safe before
      /\ forall c' h', (Register c' h', Registered) ∈ before -> c' = c
  | (Reveal h, Revealed n) =>
      h <= safe /\ round_open safe before /\ unreleased before /\ n = nonce
      /\ exists c h', (Register c h', Registered) ∈ before
  | (SignPartial nonces h, Released s) =>
      h <= safe /\ round_open safe before /\ unreleased before
      /\ nth (ct_provider_index t) nonces [] = nonce
      /\ exists h', (Register (sha256 (nth (1 - ct_provider_index t) nonces [])) h', Registered) ∈ before
  | (Abort, Aborted) | (_, Refused _) => True
  | _ => False
  end.

Record round_inv (t : CooperativeSettlementTemplate) (nonce : list Z) (trace : list (RoundOp * RoundResult))
    (r : CooperativeSigningRound) : Prop := mkRoundInv {
  ri_template : cr_template r = t;
  ri_open : cr_terminal r = false -> round_open (ct_latest_safe_height t) trace;
  ri_committed c : cr_counterparty_nonce_commitment r = Some c -> exists h, (Register c h, Registered) ∈ trace;
  ri_registered c h : (Register c h, Registered) ∈ trace -> cr_counterparty_nonce_commitment r = Some c;
  ri_nonce n : cr_nonce r = Some n -> public_nonce n = nonce /\ unreleased trace;
  ri_released : cr_partial_released r = true -> exists op s, (op, Released s) ∈ trace;
}.

Lemma unreleased_snoc trace call : unreleased trace -> (forall s, call.2 <> Released s) -> unreleased (trace ++ [call]).
Proof. intros Hu Hs op s [?|<-%list_elem_of_singleton]%elem_of_app; [by eapply Hu|by eapply Hs]. Qed.

Lemma released_snoc (trace : list (RoundOp * RoundResult)) call : (exists op s, (op, Released s) ∈ trace) -> exists op s, ((op, Released s) : RoundOp * RoundResult) ∈ trace ++ [call].
Proof. intros (op & s & Hin). exists op, s. apply elem_of_app. by left. Qed.

Lemma open_snoc safe trace op res h :
  round_open safe trace -> op_height op = Some h -> h <= safe -> (forall e, res <> Refused (SWallet e)) -> round_open safe (trace ++ [(op, res)]).
Proof.
  intros Ho Hh Hs Hr op' res' [?|[= -> ->]%list_elem_of_singleton]%elem_of_app; [by apply Ho|]. split; [by exists h|done].
Qed.

(** A call that changes nothing but perhaps ends the round. *)
Lemma round_inv_keep t nonce trace r call r' :
  round_inv t nonce trace r -> (r' = r \/ r' = round_abort r) ->
  (cr_terminal r' = false -> round_open (ct_latest_safe_height t) trace -> round_open (ct_latest_safe_height t) (trace ++ [call])) ->
  call.2 <> Registered -> (forall s, call.2 <> Released s) -> round_inv t nonce (trace ++ [call]) r'.
Proof.
  intros [Ht Ho Hc Hr Hn Hrls] Hr' Hop Hreg Hrel.
  assert (cr_counterparty_nonce_commitment r' = cr_counterparty_nonce_commitment r) as Hcc by (by destruct Hr' as [-> | ->]).
  split.
  - by destruct Hr' as [-> | ->].
  - intros Hterm. apply Hop; [done|]. destruct Hr' as [-> | ->]; [by apply Ho|done].
  - intros c. rewrite Hcc. intros (h & Hh)%Hc. exists h. apply elem_of_app. by left.
  - intros c h [Hin|Hin%list_elem_of_singleton]%elem_of_app; [rewrite Hcc; by eapply Hr|]. by subst call.
  - intros n Hn'. destruct Hr' as [-> | ->]; [|done]. destruct (Hn n Hn'). split; [done|by apply unreleased_snoc].
  - intros Hp. apply released_snoc, Hrls. by destruct Hr' as [-> | ->].
Qed.

Lemma ensure_active_cases r h :
  (ensure_active r h = (r, Ok tt) /\ cr_terminal r = false /\ h <= ct_latest_safe_height (cr_template r))
  \/ (exists r' e, ensure_active r h = (r', Err e) /\ (forall x, e <> SWallet x) /\ cr_terminal r' = true /\ (r' = r \/ r' = round_abort r)).
Proof.
  unfold ensure_active. destruct (cr_terminal r) eqn:Ht; [right; exists r, CooperativeState; auto|].
  destruct (Z.ltb_spec (ct_latest_safe_height (cr_template r)) h); [right|by left].
  exists (round_abort r), CooperativeExpired. auto.
Qed.

(** A refused call that leaves the round as it is or ends it. *)
Lemma refused_step t nonce trace r r' op e :
  round_inv t nonce trace r -> (r' = r \/ r' = round_abort r) ->
  (cr_terminal r' = false -> (forall x, e <> SWallet x) /\ exists h, op_height op = Some h /\ h <= ct_latest_safe_height t) ->
  in_turn t nonce trace (op, Refused e) /\ round_inv t nonce (trace ++ [(op, Refused e)]) r'.
Proof.
  intros Hinv Hr He. split; [by destruct op|]. eapply round_inv_keep; [done..| |done|done].
  intros Hterm Ho. destruct (He Hterm) as (Hx & h & Hh & Hs). eapply open_snoc; [done..|]. intros x [= ->]. by eapply Hx.
Qed.

Lemma register_step t nonce trace r c h r' res :
  round_inv t nonce trace r -> outcome (fun _ => Registered) (register_counterparty_nonce_commitment r c h) = (r', res) ->
  in_turn t nonce trace (Register c h, res) /\ round_inv t nonce (trace ++ [(Register c h, res)]) r'.
Proof.
  intros Hinv. unfold register_counterparty_nonce_commitment, outcome. pose proof (ri_template _ _ _ _ Hinv) as Ht.
  destruct (ensure_active_cases r h) as [(-> & Hterm & Hh)|(r1 & e & -> & Hx & Hterm & Hr1)]; cbn [fst snd].
  2:{ intros [= <- <-]. apply refused_step with (r := r); [done..|congruence]. }
  rewrite Ht in Hh. pose proof Hinv as [_ Ho Hc Hreg Hn Hrls]. specialize (Ho Hterm).
  destruct (cr_counterparty_nonce_commitment r) as [existing|] eqn:Hcc; [case_bool_decide as He|]; cbn [fst snd]; intros [= <- <-].
  - subst existing. split; [split; [done|]; split; [done|]; intros c' h' Hin%Hreg; congruence|].
    split; [done|by intros; eapply open_snoc| | | |intros Hp; apply released_snoc; by apply Hrls].
    + intros c'. rewrite Hcc. intros (h' & Hin)%Hc. exists h'. apply elem_of_app. by left.
    + intros c' h' [Hin|[= -> ->]%list_elem_of_singleton]%elem_of_app; [|done]. rewrite Hcc. by eapply Hreg.
    + intros n Hn'. destruct (Hn n Hn'). split; [done|by apply unreleased_snoc].
  - apply refused_step with (r := r); [done|by left|]. intros _. split; [done|by exists h].
  - assert (forall c' h', (Register c' h', Registered) ∉ trace) as Hnone by (intros c' h' Hin%Hreg; done).
    split; [split; [done|]; split; [done|]; intros c' h' Hin; by apply Hnone in Hin|].
    split; [done|by intros; eapply open_snoc| | | |intros Hp; apply released_snoc; by apply Hrls].
    + intros c' [= <-]. exists h. apply elem_of_app. right. by apply list_elem_of_singleton.
    + intros c' h' [Hin|[= -> ->]%list_elem_of_singleton]%elem_of_app; [by apply Hnone in Hin|done].
    + intros n Hn'. destruct (Hn n Hn'). split; [done|by apply unreleased_snoc].
Qed.

Lemma reveal_step t nonce trace r h r' res :
  round_inv t nonce trace r -> outcome Revealed (reveal_public_nonce r h) = (r', res) ->
  in_turn t nonce trace (Reveal h, res) /\ round_inv t nonce (trace ++ [(Reveal h, res)]) r'.
Proof.
  intros Hinv. unfold reveal_public_nonce, outcome. pose proof (ri_template _ _ _ _ Hinv) as Ht.
  destruct (ensure_active_cases r h) as [(-> & Hterm & Hh)|(r1 & e & -> & Hx & Hterm & Hr1)]; cbn [fst snd].
  2:{ intros [= <- <-]. apply refused_step with (r := r); [done..|congruence]. }
  rewrite Ht in Hh. pose proof Hinv as [_ Ho Hc Hreg Hn Hrls]. specialize (Ho Hterm).
  destruct (cr_counterparty_nonce_commitment r) as [c|] eqn:Hcc; [destruct (cr_nonce r) as [n|] eqn:Hnon|]; cbn [fst snd fmap option_fmap option_map ok_or];
    intros [= <- <-].
  - destruct (Hn n eq_refl) as [Heq Hu]. destruct (Hc c eq_refl) as (h' & Hin).
    split; [do 4 (split; [done|]); by exists c, h'|]. eapply round_inv_keep; [done|by left| |done|done]. intros _ _. by eapply open_snoc.
  - apply refused_step with (r := r); [done|by left|]. intros _. split; [done|by exists h].
  - apply refused_step with (r := r); [done|by left|]. intros _. split; [done|by exists h].
Qed.

Lemma sign_step w t nonce trace r nonces h r' res :
  round_inv t nonce trace r -> outcome Released (bridge_sign_partial w r h nonces) = (r', res) ->
  in_turn t nonce trace (SignPartial nonces h, res) /\ round_inv t nonce (trace ++ [(SignPartial nonces h, res)]) r'.
Proof.
  intros Hinv. unfold bridge_sign_partial, outcome. pose proof (ri_template _ _ _ _ Hinv) as Ht.
  destruct (ensure_active_cases r h) as [(-> & Hterm & Hh)|(r1 & e & -> & Hx & Hterm & Hr1)]; cbn [fst snd].
  2:{ intros [= <- <-]. apply refused_step with (r := r); [done..|congruence]. }
  rewrite Ht in *. pose proof Hinv as [_ Ho Hc Hreg Hn Hrls]. specialize (Ho Hterm). cbv zeta.
  assert (forall e, (forall x, e <> SWallet x) -> in_turn t nonce trace (SignPartial nonces h, Refused e)
            /\ round_inv t nonce (trace ++ [(SignPartial nonces h, Refused e)]) r) as Hrefuse.
  { intros e He. apply refused_step with (r := r); [done|by left|]. intros _. split; [done|by exists h]. }
  destruct (cr_partial_released r) eqn:Hrel; [intros [= <- <-]; by apply Hrefuse|].
  destruct (cr_counterparty_nonce_commitment r) as [c|] eqn:Hcc; [|intros [= <- <-]; by apply Hrefuse].
  destruct (cr_nonce r) as [n|] eqn:Hnon; [|intros [= <- <-]; by apply Hrefuse].
  case_bool_decide as Hown; [|intros [= <- <-]; by apply Hrefuse].
  case_bool_decide as Hother; [|intros [= <- <-]; by apply Hrefuse]. cbn [negb orb].
  destruct (Hn n eq_refl) as [Heq Hu]. destruct (sign_cooperative_partial _ _ _ _) as [n' [partial|e]]; intros [= <- <-].
  - destruct (Hc c eq_refl) as (h' & Hin). split; [do 3 (split; [done|]); split; [congruence|exists h'; by rewrite Hother]|].
    split; [done|by intros; eapply open_snoc| | |done|].
    + intros c'. cbn. rewrite Hcc. intros (h'' & Hin')%Hc. exists h''. apply elem_of_app. by left.
    + intros c' h'' [Hin'|?%list_elem_of_singleton]%elem_of_app; [|done]. cbn. rewrite Hcc. by eapply Hreg.
    + intros _. exists (SignPartial nonces h), partial. apply elem_of_app. right. by apply list_elem_of_singleton.
  - apply refused_step with (r := r); [done| |done]. right. unfold round_abort, set_nonce. cbn. by rewrite Hrel.
Qed.

Lemma round_step_in_turn w t nonce trace r op r' res :
  round_inv t nonce trace r -> round_step w r op = (r', res) ->
  in_turn t nonce trace (op, res) /\ round_inv t nonce (trace ++ [(op, res)]) r'.
Proof.
  intros Hinv. destruct op as [c h|h|nonces h|]; cbn [round_step]; [by apply register_step|by apply reveal_step|by apply sign_step|].
  intros [= <- <-]. split; [done|]. eapply round_inv_keep; [done|by right|done..].
Qed.

Lemma round_run_in_turn w t nonce ops trace r :
  round_inv t nonce trace r ->
  let '(r', later) := round_run w r ops in
  round_inv t nonce (trace ++ later) r'
  /\ forall before call after, later = before ++ call :: after -> in_turn t nonce (trace ++ before) call.
Proof.
  revert trace r. induction ops as [|op ops IH]; intros trace r Hinv; cbn [round_run].
  { rewrite app_nil_r. split; [done|]. intros [] ? ? [=]. }
  destruct (round_step w r op) as [r1 res] eqn:Hs. destruct (round_step_in_turn _ _ _ _ _ _ _ _ Hinv Hs) as [Hturn Hinv1].
  specialize (IH _ _ Hinv1). destruct (round_run w r1 ops) as [r' later]. rewrite <- app_assoc in IH. destruct IH as [Hinv' Hall].
  split; [done|]. intros [|b before] call after [= <- Heq]; [by rewrite app_nil_r|].
  specialize (Hall before call after Heq). by rewrite <- app_assoc in Hall.
Qed.

Lemma begin_cooperative_inv w t h0 randomness r :
  begin_cooperative w t h0 randomness = Ok r ->
  exists n, cr_nonce_commitment r = sha256 (public_nonce n) /\ round_inv t (public_nonce n) [] r.
Proof.
  intros Hb. unfold begin_cooperative in Hb. cbv zeta in Hb. destruct (_ || _); [done|]. destruct (_ <=? _)%nat; [done|].
  apply bind_Ok in Hb as (keys & _ & Hb). case_bool_decide; [done|]. apply bind_Ok in Hb as (a & _ & Hb).
  destruct (_ || _); [done|]. do 2 (apply bind_Ok in Hb as (? & _ & Hb)). destruct (negb _); [done|].
  do 8 (apply bind_Ok in Hb as (? & _ & Hb)). apply Ok_inj in Hb as <-. eexists. split; [done|]. split; try done.
  - intros _ op res Hin. by apply elem_of_nil in Hin.
  - intros c h Hin. by apply elem_of_nil in Hin.
  - intros n [= <-]. split; [done|]. intros op s Hin. by apply elem_of_nil in Hin.
Qed.

(** C18: nothing leaves a cooperative round out of turn.  Whatever calls are
    made on a round, in any order and at any heights, up to the safe height
    and until an abort or a wallet failure: only one counterparty commitment
    is ever accepted; the own nonce, the one whose hash was committed when the
    round began, is shown only after it; and a partial signature is released
    at most once, for the own nonce and one with the committed hash, after
    which the nonce is not shown again.  Every other call is refused. *)
Theorem cooperative_ordered w t h0 randomness r ops :
  begin_cooperative w t h0 randomness = Ok r ->
  exists nonce, cr_nonce_commitment r = sha256 nonce
    /\ forall before call after, (round_run w r ops).2 = before ++ call :: after -> in_turn t nonce before call.
Proof.
  intros (n & Hc & Hinv)%begin_cooperative_inv. exists (public_nonce n). split; [done|].
  pose proof (round_run_in_turn w _ _ ops _ _ Hinv) as Hrun. destruct (round_run w r ops) as [r' trace]. by destruct Hrun.
Qed.

(** *** What is signed *)

(** What a round signs, which no call changes. *)
Definition round_subject (r : CooperativeSigningRound) :=
  (cr_template r, cr_transaction r, cr_prevouts r, cr_keys r, cr_tweaks r, cr_aggregate_key r, cr_signature_hash r).

Lemma ensure_active_subject r h : round_subject (ensure_active r h).1 = round_subject r.
Proof. unfold ensure_active. destruct (cr_terminal r); [done|]. by destruct (_ <? _). Qed.

Lemma round_step_subject w r op : round_subject (round_step w r op).1 = round_subject r.
Proof.
  destruct op as [c h|h|nonces h|]; cbn [round_step]; [..|done]; unfold outcome; cbn [fst];
    [unfold register_counterparty_nonce_commitment|unfold reveal_public_nonce|unfold bridge_sign_partial];
    pose proof (ensure_active_subject r h) as Hs; destruct (ensure_active r h) as [r1 [|]]; cbn [fst] in *; try done.
  - destruct (cr_counterparty_nonce_commitment r1); [|done]. by case_bool_decide.
  - by destruct (cr_counterparty_nonce_commitment r1).
  - destruct (cr_partial_released r1); [done|]. cbv zeta. destruct (cr_counterparty_nonce_commitment r1); [|done].
    destruct (cr_nonce r1); [|done]. destruct (_ || _); [done|]. by destruct (sign_cooperative_partial _ _ _ _) as [? []].
Qed.

Lemma round_run_subject w r ops : round_subject (round_run w r ops).1 = round_subject r.
Proof.
  revert r. induction ops as [|op ops IH]; intros r; cbn [round_run]; [done|]. pose proof (round_step_subject w r op) as Hs.
  destruct (round_step w r op) as [r1 res]. specialize (IH r1). destruct (round_run w r1 ops). cbn [fst] in *. congruence.
Qed.

(** What a round begins with. *)
Record begun (w : ProviderWallet) (t : CooperativeSettlementTemplate) (h0 : Z) (r : CooperativeSigningRound) : Prop := mkBegun {
  bg_transaction : cr_template r = t /\ cr_transaction r = unsigned_transaction (ct_settlement t)
    /\ cr_prevouts r = settlement_prevouts (ct_settlement t) /\ h0 <= ct_latest_safe_height t;
  bg_index : (ct_provider_index t < length (ct_participant_keys t))%nat;
  bg_keys : try_map (fun key => ok_or CooperativeKeyMismatch (pk_from_slice key)) (ct_participant_keys t) = Ok (cr_keys r)
    /\ cr_keys r !! 0%nat <> cr_keys r !! 1%nat;
  bg_own : exists a key, derive_address w (ct_cooperative_wallet_path t) = Ok a /\ cr_keys r !! ct_provider_index t = Some key
    /\ (x_only_public_key key).1 = ta_internal_key a /\ ct_participant_keys t !! ct_provider_index t ≫= head = Some 0x02;
  bg_tweak : exists tweak, musig2_taproot_tweak (cr_keys r) (ct_taproot_merkle_root t) = Ok tweak /\ cr_tweaks r = [tweak]
    /\ musig2_tweaked_aggregate_key (cr_keys r) [tweak] = Ok (cr_aggregate_key r);
  bg_output : st_prevout_script_pubkey (ct_settlement t) = [0x51; 0x20] ++ cr_aggregate_key r;
  bg_sighash : taproot_key_spend_sighash (unsigned_transaction (ct_settlement t)) (settlement_prevouts (ct_settlement t)) 0
    = Ok (cr_signature_hash r);
  bg_nonce : exists n d agg randomness, cr_nonce r = Some n /\ derive_even_key w (ct_cooperative_wallet_path t) = Ok d
    /\ n = mkWalletNonce (ct_cooperative_wallet_path t) (ct_transcript_digest t) (cr_keys r) (cr_tweaks r) (cr_signature_hash r)
             (wn_secret_nonce n)
    /\ musig2_nonce_gen d agg (cr_signature_hash r) (ct_transcript_digest t) randomness = Ok (wn_secret_nonce n);
  bg_fresh : cr_counterparty_nonce_commitment r = None /\ cr_partial_released r = false /\ cr_terminal r = false;
}.

Lemma begin_cooperative_begun w t h0 randomness r : begin_cooperative w t h0 randomness = Ok r -> begun w t h0 r.
Proof.
  intros Hb. unfold begin_cooperative in Hb. cbv zeta in Hb. destruct (_ || _) eqn:Hh; [done|].
  apply orb_false_iff in Hh as [_ Hh%Z.ltb_ge]. destruct (Nat.leb_spec (length (ct_participant_keys t)) (ct_provider_index t)) as [|Hidx]; [done|].
  apply bind_Ok in Hb as (keys & Hkeys & Hb). case_bool_decide as Hne; [done|]. apply bind_Ok in Hb as (a & Ha%map_err_Ok & Hb).
  case_bool_decide as Hown; [|done]. case_bool_decide as H02; [|done]. cbn [negb orb] in Hb.
  apply bind_Ok in Hb as (tweak & Htw%map_err_Ok & Hb). apply bind_Ok in Hb as (agg_key & Hagg%map_err_Ok & Hb).
  case_bool_decide as Hscript; [|done]. cbn [negb] in Hb. apply bind_Ok in Hb as (leaf & _ & Hb). do 2 (apply bind_Ok in Hb as (? & _ & Hb)).
  apply bind_Ok in Hb as (o & _ & Hb). apply bind_Ok in Hb as (? & _ & Hb). apply bind_Ok in Hb as (cost & _ & Hb).
  apply bind_Ok in Hb as (sighash & Hsh%map_err_Ok & Hb). apply bind_Ok in Hb as (nonce & Hn%map_err_Ok & <-%Ok_inj).
  unfold begin_cooperative_signing in Hn. apply bind_Ok in Hn as (d & Hd & Hn). apply bind_Ok in Hn as (agg' & _ & Hn).
  apply bind_Ok in Hn as (rnd & _ & Hn). apply bind_Ok in Hn as (sn & Hsn%map_err_Ok & <-%Ok_inj).
  apply fmap_Some in Hown as (key & Hkey & Hx). split; try done.
  - by exists a, key.
  - by exists tweak.
  - by exists (mkWalletNonce (ct_cooperative_wallet_path t) (ct_transcript_digest t) keys [tweak] sighash sn), d, agg', rnd.
Qed.

Lemma finalize_steps r h nonces partials s :
  finalize_cooperative r h nonces partials = Ok s ->
  h <= ct_latest_safe_height (cr_template r) /\ cr_partial_released r = true
  /\ exists signature,
       musig2_aggregate_partial_signatures (cr_keys r) nonces (cr_tweaks r) (cr_signature_hash r) partials = Ok signature
       /\ verify_schnorr signature (cr_signature_hash r) (cr_aggregate_key r) = true
       /\ (tx ← map_err SCore (set_input_witness (cr_transaction r) 0 [signature]);
           finalize_transaction (ct_settlement (cr_template r)) tx (cr_prevouts r)) = Ok s.
Proof.
  unfold finalize_cooperative. destruct (ensure_active_cases r h) as [(-> & _ & Hh)|(r1 & e & -> & _)]; [|done].
  destruct (cr_partial_released r); [|done]. cbn [negb]. intros Hf. apply bind_Ok in Hf as (signature & Hsig%map_err_Ok & Hf).
  apply bind_Ok in Hf as ([] & Hver%map_err_Ok & Hf). split; [done|]. split; [done|]. exists signature. split; [done|].
  unfold verify_musig2_signature in Hver. by destruct (verify_schnorr _ _ _).
Qed.

(** C26: a cooperative settlement is one both parties made and the network
    accepts.  Whatever calls the round went through, a transaction is returned
    only up to the safe height and after the own partial signature was
    released; it is the template's transaction within its limits, and its
    witness is one signature that verifies under the key in the swap's output
    for the key-path digest of that very transaction. *)
Theorem cooperative_settles w t h0 randomness r ops h nonces partials s :
  template_typed (ct_settlement t) -> begin_cooperative w t h0 randomness = Ok r ->
  let '(r', trace) := round_run w r ops in
  finalize_cooperative r' h nonces partials = Ok s ->
  h <= ct_latest_safe_height t /\ (exists op partial, (op, Released partial) ∈ trace)
  /\ exists key signature sighash,
       st_prevout_script_pubkey (ct_settlement t) = [0x51; 0x20] ++ key
       /\ taproot_key_spend_sighash (signed_with (ct_settlement t) [signature]) (settlement_prevouts (ct_settlement t)) 0 = Ok sighash
       /\ verify_schnorr signature sighash key = true
       /\ settled (ct_settlement t) [signature] s.
Proof.
  intros Hty Hb. pose proof (begin_cooperative_begun _ _ _ _ _ Hb) as [(Ht & Htx & Hpv & _) _ _ _ _ Hout Hsh _ _].
  apply begin_cooperative_inv in Hb as (n & _ & Hinv). pose proof (round_run_in_turn w _ _ ops _ _ Hinv) as Hrun.
  pose proof (round_run_subject w r ops) as Hsub. destruct (round_run w r ops) as [r' trace]. destruct Hrun as [Hinv' _].
  unfold round_subject in Hsub. cbn [fst] in Hsub. injection Hsub as Ht' Htx' Hpv' Hk' Htw' Hag' Hs'. intros Hf.
  apply finalize_steps in Hf as (Hh & Hrel & signature & _ & Hver & Hf). rewrite Ht', Ht in *. split; [done|].
  split; [by apply (ri_released _ _ _ _ Hinv')|]. exists (cr_aggregate_key r), signature, (cr_signature_hash r). split; [done|].
  rewrite Htx', Htx, Hpv', Hpv, set_witness_signed in Hf. apply bind_Ok in Hf as (tx & Hw%map_err_Ok & Hf).
  apply bind_Ok in Hw as (u & _ & <-%Ok_inj). split; [|split; [by rewrite <- Hs', <- Hag'|by apply finalize_settled]].
  rewrite <- Hsh. apply key_sighash_proper; [apply signed_same|done|done].
Qed.

(** *** Two honest parties finish *)

(** Documented behaviour: a compressed key starts with its parity, and the
    coordinate and the parity determine the key. *)
Class CompressedKeys : Prop := {
  serialize_parity P : head (pk_serialize P) = Some (match (x_only_public_key P).2 with Even => 0x02 | Odd => 0x03 end);
  x_only_inj P Q : x_only_public_key P = x_only_public_key Q -> P = Q;
}.

(** The two signers' values in the order of the keys. *)
Definition in_slots {A} (index : nat) (own other : A) : list A :=
  match index with O => [own; other] | S _ => [other; own] end.

Lemma in_slots_length {A} index (own other : A) : length (in_slots index own other) = 2%nat.
Proof. by destruct index. Qed.

Lemma in_slots_own {A} index (own other d : A) :
  (index < 2)%nat -> in_slots index own other !! index = Some own /\ nth index (in_slots index own other) d = own
  /\ in_slots index own other !! (1 - index)%nat = Some other /\ nth (1 - index) (in_slots index own other) d = other.
Proof. intros Hi. destruct index as [|[|]]; [done|done|lia]. Qed.

Lemma aggregate_length keys nonces tweaks message partials s signature :
  Forall tweak_wf tweaks -> Forall scalar partials -> musig2_session_values keys nonces tweaks message = Ok s ->
  musig2_aggregate_partial_signatures keys nonces tweaks message partials = Ok signature -> length signature = 64%nat.
Proof.
  intros Htw Hps Hs Ha. destruct (session_values_open _ _ _ _ _ Htw Hs) as (ds & rs & an & Hopen).
  destruct (tweak_term_ok _ _ _ _ _ _ _ _ Hopen) as (t & Ht & Hts & _). cbv zeta in Hts.
  destruct (add_partials_spec partials (replicate 32 0) Hps scalar_zero) as (sum & Hsum & Hss & _).
  destruct (scalar_add_mod_spec _ _ Hss Hts) as [[[Hfl _] _] _].
  unfold musig2_aggregate_partial_signatures in Ha. apply bind_Ok in Ha as ([] & _ & Ha). destruct (negb _); [done|].
  apply bind_Ok in Ha as (u & _ & Ha). rewrite Hs in Ha. cbn [mbind result_bind] in Ha. rewrite Hsum in Ha. cbn [mbind result_bind] in Ha.
  rewrite Ht in Ha. cbn [mbind result_bind] in Ha. cbv zeta in Ha. apply bind_Ok in Ha as ([] & _ & <-%Ok_inj).
  rewrite length_app, Hfl. by destruct (x_only_bytes (ss_final_nonce s)) as [-> _].
Qed.

Section honest.
Context `{!CompressedKeys}.
Context (w : ProviderWallet) (t : CooperativeSettlementTemplate) (h0 : Z) (r : CooperativeSigningRound).
Context (Hbegun : begun w t h0 r) (ks : list PublicKey) (Hks : ct_participant_keys t = pk_serialize <$> ks) (Htwo : length ks = 2%nat).

Lemma begun_keys : cr_keys r = ks.
Proof.
  destruct (bg_keys _ _ _ _ Hbegun) as [Hk _]. rewrite Hks in Hk.
  assert (try_map (fun key => ok_or CooperativeKeyMismatch (pk_from_slice key)) (pk_serialize <$> ks) = Ok ks) as Hk'.
  { clear Hk Hks Htwo. induction ks as [|k l IH]; [done|]. cbn [fmap list_fmap try_map]. rewrite pk_from_slice_serialize.
    cbn [ok_or mbind result_bind]. fold (fmap (M := list) pk_serialize l). by rewrite IH. }
  congruence.
Qed.

Lemma begun_index : (ct_provider_index t < 2)%nat.
Proof. pose proof (bg_index _ _ _ _ Hbegun) as Hi. by rewrite Hks, length_fmap, Htwo in Hi. Qed.

Lemma begun_nodup : NoDup ks.
Proof.
  destruct (bg_keys _ _ _ _ Hbegun) as [_ Hne]. rewrite begun_keys in Hne. destruct ks as [|k0 [|k1 [|]]]; try done.
  cbn in Hne. apply NoDup_cons_2; [|apply NoDup_singleton]. intros ?%list_elem_of_singleton. congruence.
Qed.

(** The provider's key is the even key of its path. *)
Lemma begun_own d : derive_even_key w (ct_cooperative_wallet_path t) = Ok d ->
  secret d /\ ks !! ct_provider_index t = Some (from_secret_key d).
Proof.
  intros Hd. destruct (bg_own _ _ _ _ Hbegun) as (a & key & Ha & Hkey & Hx & H02). rewrite begun_keys in Hkey.
  rewrite Hks, list_lookup_fmap, Hkey in H02. cbn in H02. rewrite serialize_parity in H02.
  assert ((x_only_public_key key).2 = Even) as Heven by (by destruct ((x_only_public_key key).2)).
  apply derive_address_inv in Ha as (s & Hk & _). apply key_of_inv in Hk as (_ & _ & k & parity & Hder & Hsec & Hkx & _).
  unfold derive_even_key in Hd. rewrite Hder in Hd. cbn [mbind result_bind] in Hd. apply Ok_inj in Hd.
  assert (secret d /\ x_only_public_key (from_secret_key d) = (ta_internal_key a, Even)) as [Hds Hdx].
  { destruct (x_only_public_key (from_secret_key k)) as [x par] eqn:Hxk. cbn [fst snd] in *. destruct par; subst d.
    - split; [done|]. by rewrite Hxk, Hkx.
    - rewrite sk_negate_eq by done. split; [unfold secret in *; lia|]. by rewrite <- pk_negate_eq, x_only_negate, Hxk, <- Hkx by done. }
  split; [done|]. rewrite Hkey. f_equal. apply x_only_inj. rewrite Hdx. by destruct (x_only_public_key key); cbn in *; subst.
Qed.

Lemma begun_tweaks : Forall tweak_wf (cr_tweaks r).
Proof.
  destruct (bg_tweak _ _ _ _ Hbegun) as (tweak & Htw & -> & _). apply Forall_singleton. unfold musig2_taproot_tweak in Htw.
  apply bind_Ok in Htw as (k & _ & Htw). apply bind_Ok in Htw as (u & _ & <-%Ok_inj). apply tagged_hash_bytes32.
Qed.

Context (n : WalletMusig2Nonce) (Hn : cr_nonce r = Some n).
Context (d : Z) (sn : Musig2SecretNonce) (agg_key extra other_randomness : list Z).
Context (Hd : secret d) (Hother : ks !! (1 - ct_provider_index t)%nat = Some (from_secret_key d)).
Context (Hgen : musig2_nonce_gen d agg_key (cr_signature_hash r) extra other_randomness = Ok sn).
Notation nonces := (in_slots (ct_provider_index t) (public_nonce n) (sn_public_nonce sn)).
Context (ses : Musig2SessionValues) (Hses : musig2_session_values ks nonces (cr_tweaks r) (cr_signature_hash r) = Ok ses).

Definition nonce_fields (x : WalletMusig2Nonce) := (wn_path x, wn_context_digest x, wn_keys x, wn_tweaks x, wn_message x).

(** Both sign, and both partial signatures are accepted. *)
Lemma honest_shares :
  exists n' own other,
    sign_cooperative_partial w n (ct_transcript_digest t) nonces = (n', Ok own)
    /\ musig2_partial_sign sn d ks nonces (cr_tweaks r) (cr_signature_hash r) = (spent sn, Ok other)
    /\ Forall scalar (in_slots (ct_provider_index t) own other)
    /\ forall i partial, in_slots (ct_provider_index t) own other !! i = Some partial ->
         verify_musig2_partial_signature_with_tweaks ks nonces (cr_tweaks r) i (cr_signature_hash r) partial = Ok tt.
Proof.
  destruct (session_values_open _ _ _ _ _ begun_tweaks Hses) as (ds & rs & an & Hopen).
  destruct (bg_nonce _ _ _ _ Hbegun) as (n1 & d1 & agg1 & rnd1 & Hn1 & Hd1 & Hneq & Hgen1). rewrite Hn in Hn1. injection Hn1 as <-.
  destruct (begun_own d1 Hd1) as [Hsec1 Hkey1]. pose proof begun_index as Hi.
  destruct (in_slots_own (ct_provider_index t) (public_nonce n) (sn_public_nonce sn) [] Hi) as (Hl1 & _ & Hl2 & _).
  apply nonce_gen_honest in Hgen1 as [r1 Hr1]. pose proof Hgen as [r2 Hr2]%nonce_gen_honest.
  destruct (honest_sign _ _ _ _ _ _ _ _ (ct_provider_index t) d1 (wn_secret_nonce n) r1 Hopen) as (own & Hsign1 & Hs1 & Hv1);
    [by apply position_nodup; [apply begun_nodup|]|done..|].
  destruct (honest_sign _ _ _ _ _ _ _ _ (1 - ct_provider_index t)%nat d sn r2 Hopen) as (other & Hsign2 & Hs2 & Hv2);
    [by apply position_nodup; [apply begun_nodup|]|done..|].
  unfold sign_cooperative_partial. pose proof Hneq as [= Hp1 Hp2 Hp3 Hp4 Hp5]%(f_equal nonce_fields). rewrite Hp1, Hp2, Hp3, Hp4, Hp5.
  rewrite bool_decide_eq_true_2 by done. cbn [negb]. rewrite Hd1, begun_keys, Hsign1.
  eexists _, own, other. split; [done|]. split; [done|]. split.
  - destruct (ct_provider_index t); (apply Forall_cons; split; [done|]); by apply Forall_singleton.
  - intros i partial Hp. destruct (ct_provider_index t) as [|[|]]; [..|lia]; destruct i as [|[|]]; try done; by injection Hp as <-.
Qed.

Lemma active_ok r1 h : cr_terminal r1 = false -> h <= ct_latest_safe_height (cr_template r1) -> ensure_active r1 h = (r1, Ok tt).
Proof. intros Ht Hh. unfold ensure_active. by rewrite Ht, (proj2 (Z.ltb_ge _ _) Hh). Qed.

(** The calls of the honest order succeed. *)
Lemma honest_calls h1 h2 h3 n' own :
  h1 <= ct_latest_safe_height t -> h2 <= ct_latest_safe_height t -> h3 <= ct_latest_safe_height t ->
  sign_cooperative_partial w n (ct_transcript_digest t) nonces = (n', Ok own) ->
  round_run w r [Register (sha256 (sn_public_nonce sn)) h1; Reveal h2; SignPartial nonces h3]
  = (set_nonce None true false (set_commitment (Some (sha256 (sn_public_nonce sn))) r),
     [(Register (sha256 (sn_public_nonce sn)) h1, Registered); (Reveal h2, Revealed (public_nonce n));
      (SignPartial nonces h3, Released own)]).
Proof.
  intros Hh1 Hh2 Hh3 Hsign. destruct (bg_transaction _ _ _ _ Hbegun) as (Ht & _). destruct (bg_fresh _ _ _ _ Hbegun) as (Hc & Hrel & Hterm).
  destruct (in_slots_own (ct_provider_index t) (public_nonce n) (sn_public_nonce sn) [] begun_index) as (_ & Hown & _ & Hoth).
  set (r1 := set_commitment (Some (sha256 (sn_public_nonce sn))) r).
  assert (round_step w r (Register (sha256 (sn_public_nonce sn)) h1) = (r1, Registered)) as Hs1.
  { unfold round_step, outcome, register_counterparty_nonce_commitment. rewrite active_ok by (rewrite ?Ht; done). by rewrite Hc. }
  assert (forall h, h <= ct_latest_safe_height t -> ensure_active r1 h = (r1, Ok tt)) as Hact by (intros; apply active_ok; [done|by rewrite <- Ht in *]).
  assert (round_step w r1 (Reveal h2) = (r1, Revealed (public_nonce n))) as Hs2.
  { unfold round_step, outcome, reveal_public_nonce. rewrite Hact by done. cbn. by rewrite Hn. }
  assert (round_step w r1 (SignPartial nonces h3) = (set_nonce None true false r1, Released own)) as Hs3.
  { unfold round_step, outcome, bridge_sign_partial. rewrite Hact by done. cbn [cr_partial_released cr_template cr_counterparty_nonce_commitment cr_nonce cr_terminal r1 set_commitment].
    rewrite Hrel, Hn, Ht, Hown, Hoth, !bool_decide_eq_true_2 by done. cbn [negb orb]. rewrite Hsign. by rewrite Hterm. }
  cbn [round_run]. by rewrite Hs1, Hs2, Hs3.
Qed.

(** And the aggregated signature makes the transaction. *)
Lemma honest_finalize h own other :
  h <= ct_latest_safe_height t -> combined_nonce nonces ses <> Ok Infinity -> affordable (ct_settlement t) [blank] ->
  Forall scalar (in_slots (ct_provider_index t) own other) ->
  (forall i partial, in_slots (ct_provider_index t) own other !! i = Some partial ->
     verify_musig2_partial_signature_with_tweaks ks nonces (cr_tweaks r) i (cr_signature_hash r) partial = Ok tt) ->
  exists s, finalize_cooperative (set_nonce None true false (set_commitment (Some (sha256 (sn_public_nonce sn))) r)) h nonces
              (in_slots (ct_provider_index t) own other) = Ok s.
Proof.
  intros Hh Hfin Haff Hsc Hver. destruct (bg_transaction _ _ _ _ Hbegun) as (Ht & Htx & Hpv & _).
  destruct (session_values_open _ _ _ _ _ begun_tweaks Hses) as (ds & rs & an & Hopen).
  rewrite (combined_nonce_eq _ _ _ _ _ _ _ _ Hopen) in Hfin.
  destruct (aggregate_shares _ _ _ _ _ _ _ _ Hopen (in_slots (ct_provider_index t) own other)) as (signature & Ha & Hv);
    [by rewrite in_slots_length, Htwo|eapply Forall_impl; [exact Hsc|by intros x []]|done|congruence|].
  pose proof (aggregate_length _ _ _ _ _ _ _ begun_tweaks Hsc Hses Ha) as Hlen.
  assert (cr_aggregate_key r = session_key ses) as Hkey.
  { destruct (bg_tweak _ _ _ _ Hbegun) as (tweak & _ & Htw & Hag). rewrite begun_keys, <- Htw in Hag.
    pose proof (session_key_tweaked _ _ _ _ _ _ _ _ Hopen). congruence. }
  apply (affordable_shape _ _ [signature]) in Haff; [|cbn; by rewrite Hlen].
  destruct (affordable_finalizes _ _ Haff) as (s & Hs). exists s. unfold finalize_cooperative.
  rewrite active_ok by (cbn; rewrite ?Ht; done).
  cbn [cr_partial_released set_nonce set_commitment negb cr_keys cr_tweaks cr_signature_hash cr_aggregate_key cr_transaction cr_prevouts cr_template].
  rewrite begun_keys, Ha. cbn [map_err mbind result_bind]. rewrite Hkey. unfold session_key. rewrite Hv. cbn [map_err mbind result_bind].
  rewrite Htx, Hpv, Ht, set_witness_signed, (affordable_witness _ _ Haff) by done. exact Hs.
Qed.
End honest.

(** C19: two honest parties finish a cooperative settlement.  When the round
    has begun with the serialized keys of two signers, the other signer holds
    the key of its slot and made its nonce with [musig2_nonce_gen], the
    session is well-formed with a finite combined nonce and the transaction
    with a 64-byte signature is within the limits, then up to the safe height
    the registration, the nonce and the partial signature are all given, the
    other signer's call succeeds, and the round ends in a transaction. *)
Theorem cooperative_complete `{!CompressedKeys} w t h0 randomness r n ks d sn agg_key extra other_randomness ses h1 h2 h3 h4 :
  let index := ct_provider_index t in
  let safe := ct_latest_safe_height t in
  let nonces := in_slots index (public_nonce n) (sn_public_nonce sn) in
  begin_cooperative w t h0 randomness = Ok r -> cr_nonce r = Some n ->
  ct_participant_keys t = pk_serialize <$> ks -> length ks = 2%nat ->
  secret d -> ks !! (1 - index)%nat = Some (from_secret_key d) ->
  musig2_nonce_gen d agg_key (cr_signature_hash r) extra other_randomness = Ok sn ->
  musig2_session_values ks nonces (cr_tweaks r) (cr_signature_hash r) = Ok ses -> combined_nonce nonces ses <> Ok Infinity ->
  affordable (ct_settlement t) [blank] -> h1 <= safe -> h2 <= safe -> h3 <= safe -> h4 <= safe ->
  exists r' own other s,
    round_run w r [Register (sha256 (sn_public_nonce sn)) h1; Reveal h2; SignPartial nonces h3]
    = (r', [(Register (sha256 (sn_public_nonce sn)) h1, Registered); (Reveal h2, Revealed (public_nonce n));
            (SignPartial nonces h3, Released own)])
    /\ musig2_partial_sign sn d ks nonces (cr_tweaks r) (cr_signature_hash r) = (spent sn, Ok other)
    /\ finalize_cooperative r' h4 nonces (in_slots index own other) = Ok s.
Proof.
  intros index safe nonces Hb Hn Hks Htwo Hd Hother Hgen Hses Hfin Haff Hh1 Hh2 Hh3 Hh4.
  apply begin_cooperative_begun in Hb.
  destruct (honest_shares w t h0 r Hb ks Hks Htwo n Hn d sn agg_key extra other_randomness Hd Hother Hgen ses Hses)
    as (n' & own & other & Hsign & Hsign2 & Hsc & Hver).
  destruct (honest_finalize w t h0 r Hb ks Hks Htwo n sn ses Hses h4 own other) as (s & Hs); try done.
  exists (set_nonce None true false (set_commitment (Some (sha256 (sn_public_nonce sn))) r)), own, other, s.
  split; [by eapply honest_calls|done].
Qed.
End settlement.

(** ** A swap of the example wallet *)

#[local] Existing Instances toy_schnorr toy_secp toy_add_tweak toy_wallet.

Lemma toy_compressed_keys : CompressedKeys.
Proof.
  split; [done|]. intros P Q Hx. cbn [x_only_public_key toy_secp] in Hx.
  destruct (toy_key_secret P) as [HP HP'], (toy_key_secret Q) as [HQ HQ'].
  assert (forall a b, 0 <= a < CURVE_ORDER -> 0 <= b < CURVE_ORDER -> be_bytes 32 a = be_bytes 32 b -> a = b) as Hinj.
  { intros a b Ha Hb Heq. rewrite <- (proj2 (be_bytes_scalar a Ha)), <- (proj2 (be_bytes_scalar b Hb)). by rewrite Heq. }
  assert (`P = `Q) as Heq; [|by rewrite <- HP', Heq].
  destruct (toy_x_spec P) as [[HxP _]|[HxP _]], (toy_x_spec Q) as [[HxQ _]|[HxQ _]]; rewrite HxP, HxQ in Hx; try congruence;
    apply (f_equal fst) in Hx; cbn [fst] in Hx; apply Hinj in Hx; unfold secret in *; lia.
Qed.

Definition swap_key : list Z := Eval vm_compute in
  match derive_address example_wallet example_path with Ok a => ta_internal_key a | Err _ => [] end.
Definition swap_preimage : list Z := replicate 32 7.
Definition swap_claim_script : list Z := Eval vm_compute in production_claim_leaf_script (sha256 swap_preimage) swap_key.
Definition swap_refund_script : list Z := Eval vm_compute in default [] (production_refund_leaf_script 800000 swap_key).

(** The output of an internal key and one leaf, and the leaf's control block. *)
Definition leaf_output (internal_key script : list Z) : list Z * list Z :=
  match (root ← tapleaf_hash TAPROOT_LEAF_VERSION script; taproot_output_key internal_key (Some root)) with
  | Ok (q, parity) => (q, (TAPROOT_LEAF_VERSION + match parity with Even => 0 | Odd => 1 end) :: internal_key)
  | Err _ => ([], [])
  end.

Definition swap_template (output : list Z * list Z) (script : list Z) (lock_time : Z) : SettlementTemplate :=
  mkTemplate example_path (replicate 32 3) 0 60000 ([0x51; 0x20] ++ output.1) 59000 (0x51 :: 0x20 :: replicate 32 5)
    2 0xfffffffe lock_time script output.2 2000 20 1000 3000.

Definition claim_output : list Z * list Z := Eval vm_compute in leaf_output (be_bytes 32 12) swap_claim_script.
Definition refund_output : list Z * list Z := Eval vm_compute in leaf_output (be_bytes 32 12) swap_refund_script.
Definition claim_template : SettlementTemplate := swap_template claim_output swap_claim_script 0.
Definition refund_template : SettlementTemplate := swap_template refund_output swap_refund_script 800000.

Lemma claim_template_typed : template_typed claim_template.
Proof. do 3 (split; [done|]). repeat constructor; done. Qed.

Lemma swap_settled :
  (exists s, claim example_wallet claim_template swap_preimage = Ok s) /\ (exists s, refund example_wallet refund_template = Ok s).
Proof. split; apply is_ok_spec; vm_compute; reflexivity. Qed.

Lemma settlement_spends_witness :
  exists s sig, claim example_wallet claim_template swap_preimage = Ok s
  /\ let items := [sig; swap_preimage; swap_claim_script; st_taproot_control_block claim_template] in
     settled claim_template items s /\ leaf_spent claim_template items [swap_preimage; sig].
Proof.
  destruct swap_settled as [[s Hs] _]. exists s.
  destruct (proj1 (@settlement_spends _ _ _ _ toy_schnorr_digest example_wallet claim_template s claim_template_typed) swap_preimage Hs)
    as (sig & Hsig). exists sig. split; [exact Hs|exact Hsig].
Defined.

Lemma refund_settleable : exists leaf, settleable example_wallet refund_template leaf /\ lock_met refund_template leaf
  /\ affordable refund_template [blank; st_taproot_script refund_template; st_taproot_control_block refund_template].
Proof.
  destruct (parse_swap_leaf_script (st_taproot_script refund_template)) as [leaf|] eqn:Hl; [|vm_compute in Hl; discriminate].
  exists leaf. vm_compute in Hl. injection Hl as <-. split; [split; [vm_compute; reflexivity|]; split; [|split]|split].
  - assert (is_ok (derive_address example_wallet example_path) = true) as [a Ha]%is_ok_spec by (vm_compute; reflexivity).
    exists a. split; [exact Ha|]. vm_compute in Ha. injection Ha as <-. vm_compute. reflexivity.
  - exists (refund_output.1). split; [reflexivity|]. split; [reflexivity|]. split; [vm_compute; reflexivity|].
    split; [reflexivity|]. vm_compute. reflexivity.
  - vm_compute. reflexivity.
  - split; [discriminate|vm_compute; reflexivity].
  - eexists. split; [vm_compute; reflexivity|vm_compute; discriminate].
Qed.

Lemma settlement_complete_witness : exists s, refund example_wallet refund_template = Ok s.
Proof.
  destruct refund_settleable as (leaf & Hs & Hl & Ha).
  exact (proj2 (@settlement_complete _ _ _ _ toy_schnorr_digest toy_add_tweak_scalar toy_secp_laws toy_tweak_laws toy_wallet_laws
                  example_wallet refund_template leaf Hs) Hl Ha).
Defined.

(** A cooperative settlement of the example wallet and a signer with key 5. *)
Definition coop_secret : Z := Eval vm_compute in
  match derive_even_key example_wallet example_path with Ok d => d | Err _ => 0 end.
Definition coop_keys : list PublicKey := from_secret_key <$> [coop_secret; 5].
Definition coop_key_bytes : list (list Z) := Eval vm_compute in pk_serialize <$> coop_keys.
Definition coop_output : list Z * list Z := Eval vm_compute in
  match musig2_aggregate_key coop_keys with Ok key => leaf_output key swap_claim_script | Err _ => ([], []) end.
Definition coop_root : list Z := Eval vm_compute in
  match tapleaf_hash TAPROOT_LEAF_VERSION swap_claim_script with Ok root => root | Err _ => [] end.
Definition coop_template : CooperativeSettlementTemplate :=
  mkCooperativeTemplate (swap_template coop_output swap_claim_script 0) example_path coop_key_bytes 0 coop_root (replicate 32 4) 900000.
#[local] Notation coop_begin := (begin_cooperative example_wallet coop_template 899000 (Some (replicate 32 1))).
Definition coop_nonces (n : WalletMusig2Nonce) (sn : Musig2SecretNonce) : list (list Z) :=
  in_slots 0 (public_nonce n) (sn_public_nonce sn).
Definition coop_ops (n : WalletMusig2Nonce) (sn : Musig2SecretNonce) : list RoundOp :=
  [Register (sha256 (sn_public_nonce sn)) 899001; Reveal 899002; SignPartial (coop_nonces n sn) 899003].

(** The session of a begun round is well-formed, and its honest calls end in a
    transaction. *)
Definition coop_session (r : CooperativeSigningRound) (n : WalletMusig2Nonce) (sn : Musig2SecretNonce) (ses : Musig2SessionValues) : Prop :=
  cr_nonce r = Some n /\ musig2_nonce_gen 5 [] (cr_signature_hash r) [] (replicate 32 2) = Ok sn
  /\ musig2_session_values coop_keys (coop_nonces n sn) (cr_tweaks r) (cr_signature_hash r) = Ok ses
  /\ combined_nonce (coop_nonces n sn) ses <> Ok Infinity
  /\ exists h partials s, finalize_cooperative (round_run example_wallet r (coop_ops n sn)).1 h (coop_nonces n sn) partials = Ok s.

Definition coop_check (m : result SettlementError CooperativeSigningRound) : bool :=
  match m with
  | Err _ => false
  | Ok r =>
      match cr_nonce r, musig2_nonce_gen 5 [] (cr_signature_hash r) [] (replicate 32 2) with
      | Some n, Ok sn =>
          match musig2_session_values coop_keys (coop_nonces n sn) (cr_tweaks r) (cr_signature_hash r),
                round_run example_wallet r (coop_ops n sn),
                (musig2_partial_sign sn 5 coop_keys (coop_nonces n sn) (cr_tweaks r) (cr_signature_hash r)).2 with
          | Ok ses, (r', [_; _; (_, Released own)]), Ok other =>
              match combined_nonce (coop_nonces n sn) ses with Ok Infinity => false | _ => true end
              && is_ok (finalize_cooperative r' 899004 (coop_nonces n sn) [own; other])
          | _, _, _ => false
          end
      | _, _ => false
      end
  end.

Lemma coop_check_spec m : coop_check m = true -> exists r n sn ses, m = Ok r /\ coop_session r n sn ses.
Proof.
  unfold coop_check, coop_session. destruct m as [r|]; [|done]. destruct (cr_nonce r) as [n|] eqn:Hn; [|done].
  destruct (musig2_nonce_gen _ _ _ _ _) as [sn|] eqn:Hsn; [|done]. destruct (musig2_session_values _ _ _ _) as [ses|] eqn:Hses; [|done].
  destruct (round_run _ _ _) as [r' trace] eqn:Hrun. destruct trace as [|? [|? [|[? []] []]]]; try done.
  destruct (musig2_partial_sign _ _ _ _ _ _).2 as [other|]; [|done]. intros [Hc Hf]%andb_true_iff.
  exists r, n, sn, ses. split; [done|]. split; [done|]. split; [done|]. split; [done|]. split; [intros Heq; by rewrite Heq in Hc|].
  apply is_ok_spec in Hf as [s Hs]. rewrite Hrun. by eexists _, _, s.
Qed.

Lemma coop_begun : exists r n sn ses, coop_begin = Ok r /\ coop_session r n sn ses.
Proof. apply coop_check_spec. vm_compute. reflexivity. Qed.

Lemma coop_typed : template_typed (ct_settlement coop_template).
Proof. do 3 (split; [done|]). repeat constructor; done. Qed.

Lemma cooperative_ordered_witness :
  exists r n sn nonce, coop_begin = Ok r /\ cr_nonce_commitment r = sha256 nonce
  /\ forall before call after,
       (round_run example_wallet r (Reveal 899000 :: coop_ops n sn)).2 = before ++ call :: after -> in_turn coop_template nonce before call.
Proof.
  destruct coop_begun as (r & n & sn & ses & Hb & _).
  destruct (@cooperative_ordered _ _ _ _ example_wallet coop_template 899000 (Some (replicate 32 1)) r (Reveal 899000 :: coop_ops n sn) Hb)
    as (nonce & Hc & Hall).
  exists r, n, sn, nonce. exact (conj Hb (conj Hc Hall)).
Defined.

Lemma cooperative_settles_witness :
  exists key signature sighash s, st_prevout_script_pubkey (ct_settlement coop_template) = [0x51; 0x20] ++ key
  /\ verify_schnorr signature sighash key = true /\ settled (ct_settlement coop_template) [signature] s.
Proof.
  destruct coop_begun as (r & n & sn & ses & Hb & _ & _ & _ & _ & h & partials & s & Hf).
  pose proof (@cooperative_settles _ _ _ _ example_wallet coop_template 899000 (Some (replicate 32 1)) r (coop_ops n sn) h
                (coop_nonces n sn) partials s coop_typed Hb) as Hset.
  destruct (round_run example_wallet r (coop_ops n sn)) as [r' trace].
  destruct (Hset Hf) as (_ & _ & key & signature & sighash & Hk & _ & Hv & Hs).
  exists key, signature, sighash, s. exact (conj Hk (conj Hv Hs)).
Defined.

Lemma cooperative_complete_witness :
  exists r own other n sn s,
    (round_run example_wallet r (coop_ops n sn)).2 !! 2%nat = Some (SignPartial (coop_nonces n sn) 899003, Released own)
    /\ finalize_cooperative (round_run example_wallet r (coop_ops n sn)).1 899004 (coop_nonces n sn) [own; other] = Ok s.
Proof.
  destruct coop_begun as (r & n & sn & ses & Hb & Hn & Hsn & Hses & Hfin & _).
  destruct (@cooperative_complete _ _ _ _ toy_schnorr_digest toy_add_tweak_scalar toy_secp_laws toy_tweak_laws toy_wallet_laws
              toy_compressed_keys example_wallet coop_template 899000 (Some (replicate 32 1)) r n coop_keys 5 sn [] [] (replicate 32 2) ses
              899001 899002 899003 899004) as (r' & own & other & s & Hrun & _ & Hf).
  - exact Hb.
  - exact Hn.
  - vm_compute. reflexivity.
  - reflexivity.
  - split; reflexivity.
  - reflexivity.
  - exact Hsn.
  - exact Hses.
  - exact Hfin.
  - eexists. split; [vm_compute; reflexivity|vm_compute; discriminate].
  - vm_compute. discriminate.
  - vm_compute. discriminate.
  - vm_compute. discriminate.
  - vm_compute. discriminate.
  - exists r, own, other, n, sn, s. change (round_run example_wallet r (coop_ops n sn)) with
      (round_run example_wallet r [Register (sha256 (sn_public_nonce sn)) 899001; Reveal 899002; SignPartial (coop_nonces n sn) 899003]).
    unfold coop_nonces. unfold coop_template in Hrun. cbn [ct_provider_index] in Hrun. rewrite Hrun. split; [reflexivity|exact Hf].
Defined.
