(* ===== verification/Ark.v ===== *)
(** * Ark: verification of the Ark legs of a swap

    [immortal-core/src/ark.rs]: identifiers of operators, assets and
    outpoints, canonical JSON and the digests over it, the policy of an
    operator, and the verification of a signed graph of virtual transaction
    outputs.  Points of the curve are the classes of [Event], [Taproot] and
    [Musig2]; the escaping of a JSON string is the class [JsonText].

    [usize] has 64 bits.  The recursive walks [visit] and [depth_go] and the loop [connect_loop] take
    fuel; [None] is its end, and [ArkCorrect] shows that it is not reached. *)

From S2P Require Import Prelude Text Utf8 Hex Event Filter Json Wire Transaction Script Taproot Scalar Musig2.

Definition MAX_ARK_INPUT_VTXOS : Z := 32.
Definition MAX_ARK_GRAPH_TRANSACTIONS : Z := 64.
Definition MAX_ARK_PARENT_EDGES : Z := 32.
Definition MAX_ARK_GRAPH_BYTES : Z := 262144.

Inductive ArkError : Type :=
| OperatorMismatch (detail : string)
| GraphInvalid (detail : string)
| VtxoInvalid (detail : string)
| ExitUnsafe (detail : string)
| InvalidPair (detail : string)
| SecretMaterialForbidden (detail : string).

(** [ArkError::code]. *)
Definition ark_error_code (e : ArkError) : string :=
  match e with
  | OperatorMismatch _ => "swp_ark_operator_mismatch"
  | GraphInvalid _ => "swp_ark_graph_invalid"
  | VtxoInvalid _ => "swp_ark_vtxo_invalid"
  | ExitUnsafe _ => "swp_ark_exit_unsafe"
  | InvalidPair _ => "swp_invalid_pair"
  | SecretMaterialForbidden _ => "swp_secret_material_forbidden"
  end.

(** ** Texts *)

Definition lower_hex_byte (b : Z) : bool := is_ascii_digit b || ((97 <=? b) && (b <=? 102)).

Definition is_lower_hex (value : string) (length : Z) : bool :=
  (str_len value =? length) && forallb lower_hex_byte (as_bytes value).

(** [decode_lower_hex] and [parse_lower_hex_32]; [hex_nibble] and
    [encode_hex] are those of [Hex]. *)
Definition decode_hex (value : string) : result unit (list Z) :=
  if negb (str_len value mod 2 =? 0) || negb (forallb lower_hex_byte (as_bytes value)) then Err tt
  else decode_pairs tt (as_bytes value).
Definition parse_lower_hex_32 (value : string) : result unit (list Z) :=
  bytes ← decode_hex value; if (length bytes =? 32)%nat then Ok bytes else Err tt.

Definition is_protocol_version (value : string) : bool :=
  match as_bytes value with
  | [] => false
  | first :: bytes =>
      (str_len value <=? 32) && is_ascii_alphanumeric first
      && forallb (fun b => is_ascii_alphanumeric b || (b =? 46) || (b =? 95) || (b =? 45)) bytes
  end.

(** The test both number readers make on their text. *)
Definition decimal_shape (value : string) : bool :=
  negb (String.eqb value "") && negb ((1 <? str_len value) && starts_with "0" value)
  && forallb is_ascii_digit (as_bytes value).

Definition parse_decimal (value : string) (allow_zero : bool) : result unit Z :=
  if negb (decimal_shape value) then Err tt
  else
  v ← ok_or tt (parse_u U64_MAX value);
  if negb allow_zero && (v =? 0) then Err tt else Ok v.

(** [str::split_once] with a text. *)
Fixpoint split_once_text_bytes (sep l : list Z) : option (list Z * list Z) :=
  match strip_prefix_bytes sep l with
  | Some rest => Some ([], rest)
  | None =>
      match l with
      | [] => None
      | b :: l' => '(x, y) ← split_once_text_bytes sep l'; Some (b :: x, y)
      end
  end.
Definition split_once_text (sep s : string) : option (string * string) :=
  '(x, y) ← split_once_text_bytes (as_bytes sep) (as_bytes s); Some (of_bytes x, of_bytes y).

(** ** Identifiers *)

Inductive ArkProtocolFamily : Type := Arkade | Bark.

#[export] Instance ArkProtocolFamily_eq_dec : EqDecision ArkProtocolFamily.
Proof. solve_decision. Defined.

(** [ArkProtocolFamily::as_str], which is also its serialization. *)
Definition family_as_str (f : ArkProtocolFamily) : string := match f with Arkade => "arkade" | Bark => "bark" end.

(** An [ArkNetworkId] is its text. *)
Definition network_id_parse (value : string) : result ArkError string :=
  reference ← ok_or (OperatorMismatch "network identifier prefix") (strip_prefix "bip122:" value);
  if negb (is_lower_hex reference 32) then Err (OperatorMismatch "network identifier shape") else Ok value.

Record ArkAssetId : Type := mkAssetId {
  aa_network_id : string;
  aa_protocol_family : ArkProtocolFamily;
  aa_operator_identity_sha256 : string;
}.

(** [ArkAssetId::parse]. *)
Definition asset_id_parse (value : string) : result ArkError ArkAssetId :=
  value ← ok_or (VtxoInvalid "asset identifier prefix") (strip_prefix "swp:1:" value);
  '(network_id, rail) ← ok_or (VtxoInvalid "asset identifier rail") (split_once_text ":btc:ark:" value);
  '(family, identity) ← ok_or (VtxoInvalid "asset identifier family") (split_once 58 rail);
  if str_contains identity ":" || negb (is_lower_hex identity 64) then Err (VtxoInvalid "asset operator identity")
  else
  protocol_family ← (if String.eqb family "arkade" then Ok Arkade
                     else if String.eqb family "bark" then Ok Bark
                     else Err (VtxoInvalid "asset protocol family"));
  network_id ← network_id_parse network_id;
  Ok (mkAssetId network_id protocol_family identity).

Record ArkOutpoint : Type := mkOutpoint { ao_transaction_id : list Z; ao_output_index : Z }.

#[export] Instance ArkOutpoint_eq_dec : EqDecision ArkOutpoint.
Proof. solve_decision. Defined.
#[export] Instance ArkOutpoint_countable : Countable ArkOutpoint.
Proof. apply (inj_countable' (fun o => (ao_transaction_id o, ao_output_index o)) (fun p => mkOutpoint p.1 p.2)). by intros []. Defined.

(** [ArkOutpoint::parse]. *)
Definition outpoint_parse (value : string) : result ArkError ArkOutpoint :=
  '(transaction_id, output_index) ← ok_or (GraphInvalid "outpoint shape") (split_once 58 value);
  if negb (decimal_shape output_index) then Err (GraphInvalid "outpoint output index")
  else
  index ← ok_or (GraphInvalid "outpoint output index") (parse_u U32_MAX output_index);
  id ← map_err (fun _ => GraphInvalid "outpoint transaction ID") (parse_lower_hex_32 transaction_id);
  Ok (mkOutpoint id index).

(** [ArkOutpoint::canonical] and [from_input]. *)
Definition outpoint_canonical (o : ArkOutpoint) : string :=
  encode_lower_hex (ao_transaction_id o) +:+ ":" +:+ to_string (ao_output_index o).
Definition outpoint_from_input (transaction_id_consensus : list Z) (output_index : Z) : ArkOutpoint :=
  mkOutpoint (rev transaction_id_consensus) output_index.

(** The derived order: the transaction id byte by byte, then the index. *)
Definition outpoint_lt (l r : ArkOutpoint) : bool :=
  (bytes_le (ao_transaction_id l) (ao_transaction_id r) && negb (bool_decide (ao_transaction_id l = ao_transaction_id r)))
  || (bool_decide (ao_transaction_id l = ao_transaction_id r) && (ao_output_index l <? ao_output_index r)).

(** ** Canonical JSON *)

(** [serde_json::to_string] of a string. *)
Class JsonText : Type := { json_string : string -> string }.

(** [str::encode_utf16]. *)
Definition encode_utf16 (s : string) : list Z :=
  flat_map (fun c => if c <? 0x10000 then [c]
                     else [0xd800 + Z.shiftr (c - 0x10000) 10; 0xdc00 + Z.land (c - 0x10000) 0x3ff]) (chars s).

(** [Number::to_string] of an integer. *)
Definition json_number_text (n : Z) : string := if n <? 0 then "-" +:+ to_string (- n) else to_string n.

Fixpoint with_commas (parts : list (list Z)) : list Z :=
  match parts with
  | [] => []
  | [part] => part
  | part :: parts => part ++ as_bytes "," ++ with_commas parts
  end.

Definition member_le {A} (l r : string * A) : Prop := bytes_le (encode_utf16 l.1) (encode_utf16 r.1) = true.
#[export] Instance member_le_dec {A} : RelDecision (@member_le A).
Proof. intros l r. unfold Decision, member_le. apply bool_eq_dec. Defined.

Section ark.
Context `{EventCrypto, TweakAdd, Secp256k1, JsonText}.

(** [write_canonical_json]: what is appended to the output. *)
Fixpoint write_canonical_json (value : Value) : result ArkError (list Z) :=
  match value with
  | VNull => Ok (as_bytes "null")
  | VBool true => Ok (as_bytes "true")
  | VBool false => Ok (as_bytes "false")
  | VString s => Ok (as_bytes (json_string s))
  | VInt n => Ok (as_bytes (json_number_text n))
  | VFloat _ => Err (GraphInvalid "non-integer canonical JSON number")
  | VArray values =>
      parts ← try_map id (write_canonical_json <$> values);
      Ok (as_bytes "[" ++ with_commas parts ++ as_bytes "]")
  | VObject values =>
      let members := merge_sort member_le ((fun member => (member.1, write_canonical_json member.2)) <$> values) in
      parts ← try_map (fun member : string * result ArkError (list Z) =>
                         text ← member.2; Ok (as_bytes (json_string member.1) ++ as_bytes ":" ++ text)) members;
      Ok (as_bytes "{" ++ with_commas parts ++ as_bytes "}")
  end.

(** [canonical_sha256]; [serde_json::to_value] of the argument is its
    [Value]. *)
Definition canonical_sha256 (value : Value) : result ArkError (list Z) :=
  bytes ← write_canonical_json value; Ok (sha256 bytes).

(** ** Keys *)

(** An [XOnlyPublicKey] is its 32 bytes. *)
Definition parse_public_key (value : string) : result ArkError (list Z) :=
  bytes ← map_err (fun _ => OperatorMismatch "public key hex") (decode_hex value);
  if (length bytes =? 32)%nat
  then if xonly_public_key bytes then Ok bytes else Err (OperatorMismatch "x-only public key")
  else if (length bytes =? 33)%nat && (bool_decide (head bytes = Some 2) || bool_decide (head bytes = Some 3))
  then match pk_from_slice bytes with
       | Some key => Ok (x_only_public_key key).1
       | None => Err (OperatorMismatch "compressed public key")
       end
  else Err (OperatorMismatch "public key shape").

Definition p2tr_output_key (script_pubkey : list Z) : result ArkError (list Z) :=
  key ← ok_or (VtxoInvalid "P2TR scriptPubKey")
          (key ← strip_prefix_bytes [0x51; 0x20] script_pubkey; if (length key =? 32)%nat then Some key else None);
  if xonly_public_key key then Ok key else Err (VtxoInvalid "P2TR output key").

(** ** Operators *)

Record ArkOperatorKeys : Type := mkOperatorKeys {
  signer_pubkey : option string;
  forfeit_pubkey : option string;
  server_pubkey : option string;
}.

Record ArkOperatorDescriptor : Type := mkDescriptor {
  ad_network_id : string;
  ad_protocol_family : ArkProtocolFamily;
  ad_protocol_version : string;
  ad_operator_keys : ArkOperatorKeys;
  ad_operator_policy_sha256 : string;
}.

Definition option_value (o : option string) : Value := match o with Some s => VString s | None => VNull end.

Definition descriptor_value (d : ArkOperatorDescriptor) : Value :=
  let keys := ad_operator_keys d in
  json_object [("network_id", VString (ad_network_id d));
    ("protocol_family", VString (family_as_str (ad_protocol_family d)));
    ("protocol_version", VString (ad_protocol_version d));
    ("operator_keys", json_object [("signer_pubkey", option_value (signer_pubkey keys));
       ("forfeit_pubkey", option_value (forfeit_pubkey keys)); ("server_pubkey", option_value (server_pubkey keys))]);
    ("operator_policy_sha256", VString (ad_operator_policy_sha256 d))]%string.

(** [ArkOperatorDescriptor::validate]. *)
Definition descriptor_validate (d : ArkOperatorDescriptor) : result ArkError unit :=
  let keys := ad_operator_keys d in
  if negb (is_protocol_version (ad_protocol_version d)) then Err (OperatorMismatch "protocol version")
  else if negb (is_lower_hex (ad_operator_policy_sha256 d) 64) then Err (OperatorMismatch "operator policy digest")
  else
  _ ← try_map parse_public_key (omap id [signer_pubkey keys; forfeit_pubkey keys; server_pubkey keys]);
  let family_keys_match :=
    match ad_protocol_family d, signer_pubkey keys, forfeit_pubkey keys, server_pubkey keys with
    | Arkade, Some _, Some _, None => true
    | Bark, None, None, Some _ => true
    | _, _, _, _ => false
    end in
  if negb family_keys_match then Err (OperatorMismatch "family key set") else Ok tt.

Definition identity_hex (d : ArkOperatorDescriptor) : result ArkError string :=
  _ ← descriptor_validate d;
  digest ← canonical_sha256 (descriptor_value d);
  Ok (encode_lower_hex digest).

Record ArkOperatorPolicy : Type := mkOperatorPolicy {
  pol_network_id : string;
  pol_protocol_family : ArkProtocolFamily;
  pol_protocol_version : string;
  minimum_vtxo_amount : string;
  maximum_vtxo_amount : string;
  maximum_input_vtxos : Z;
  maximum_graph_transactions : Z;
  maximum_parent_edges : Z;
  maximum_graph_bytes : Z;
  maximum_transaction_weight : Z;
  pol_expiry_domain : string;
  minimum_expiry_delta : string;
  pol_unilateral_exit_domain : string;
  pol_unilateral_exit_delay : string;
  checkpoint_script_sha256 : string;
  fee_rule_sha256 : string;
}.

Definition policy_value (p : ArkOperatorPolicy) : Value :=
  json_object [("network_id", VString (pol_network_id p));
    ("protocol_family", VString (family_as_str (pol_protocol_family p)));
    ("protocol_version", VString (pol_protocol_version p));
    ("minimum_vtxo_amount", VString (minimum_vtxo_amount p)); ("maximum_vtxo_amount", VString (maximum_vtxo_amount p));
    ("maximum_input_vtxos", VInt (maximum_input_vtxos p));
    ("maximum_graph_transactions", VInt (maximum_graph_transactions p));
    ("maximum_parent_edges", VInt (maximum_parent_edges p)); ("maximum_graph_bytes", VInt (maximum_graph_bytes p));
    ("maximum_transaction_weight", VInt (maximum_transaction_weight p));
    ("expiry_domain", VString (pol_expiry_domain p)); ("minimum_expiry_delta", VString (minimum_expiry_delta p));
    ("unilateral_exit_domain", VString (pol_unilateral_exit_domain p));
    ("unilateral_exit_delay", VString (pol_unilateral_exit_delay p));
    ("checkpoint_script_sha256", VString (checkpoint_script_sha256 p)); ("fee_rule_sha256", VString (fee_rule_sha256 p))]%string.

Definition is_one_of (value : string) (names : list string) : bool := existsb (String.eqb value) names.

(** [ArkOperatorPolicy::validate]. *)
Definition policy_validate (p : ArkOperatorPolicy) : result ArkError unit :=
  network ← network_id_parse (pol_network_id p);
  if negb (String.eqb network (pol_network_id p)) || negb (is_protocol_version (pol_protocol_version p))
     || negb (is_one_of (pol_expiry_domain p) ["block_height"; "unix_time"]%string)
     || negb (is_one_of (pol_unilateral_exit_domain p) ["blocks"; "seconds"]%string)
     || negb (is_lower_hex (checkpoint_script_sha256 p) 64) || negb (is_lower_hex (fee_rule_sha256 p) 64)
  then Err (OperatorMismatch "operator policy grammar")
  else
  minimum ← map_err (fun _ => OperatorMismatch "minimum VTXO amount") (parse_decimal (minimum_vtxo_amount p) false);
  maximum ← map_err (fun _ => OperatorMismatch "maximum VTXO amount") (parse_decimal (maximum_vtxo_amount p) false);
  _ ← map_err (fun _ => OperatorMismatch "minimum expiry delta") (parse_decimal (minimum_expiry_delta p) false);
  _ ← map_err (fun _ => OperatorMismatch "unilateral exit delay") (parse_decimal (pol_unilateral_exit_delay p) false);
  if (maximum <? minimum)
     || (maximum_input_vtxos p =? 0) || (MAX_ARK_INPUT_VTXOS <? maximum_input_vtxos p)
     || (maximum_graph_transactions p =? 0) || (MAX_ARK_GRAPH_TRANSACTIONS <? maximum_graph_transactions p)
     || (maximum_parent_edges p =? 0) || (MAX_ARK_PARENT_EDGES <? maximum_parent_edges p)
     || (maximum_graph_bytes p =? 0) || (MAX_ARK_GRAPH_BYTES <? maximum_graph_bytes p)
     || (maximum_transaction_weight p =? 0)
  then Err (OperatorMismatch "operator policy bounds") else Ok tt.

Definition digest_hex (p : ArkOperatorPolicy) : result ArkError string :=
  _ ← policy_validate p;
  digest ← canonical_sha256 (policy_value p);
  Ok (encode_lower_hex digest).

Definition verify_operator_binding (d : ArkOperatorDescriptor) (p : ArkOperatorPolicy) (expected_identity_sha256 : string)
    : result ArkError unit :=
  let mismatch := Err (OperatorMismatch "descriptor or policy binding") in
  _ ← descriptor_validate d;
  _ ← policy_validate p;
  if negb (String.eqb (pol_network_id p) (ad_network_id d))
     || negb (bool_decide (pol_protocol_family p = ad_protocol_family d))
     || negb (String.eqb (pol_protocol_version p) (ad_protocol_version d)) then mismatch
  else
  digest ← digest_hex p;
  if negb (String.eqb digest (ad_operator_policy_sha256 d)) then mismatch
  else
  identity ← identity_hex d;
  if negb (String.eqb identity expected_identity_sha256) then mismatch else Ok tt.

(** ** Pairs *)

Definition verify_chain_peer (peer : string) (ark : ArkAssetId) : result ArkError unit :=
  let expected := "swp:1:" +:+ aa_network_id ark +:+ ":btc:chain" in
  let lightning := "swp:1:" +:+ aa_network_id ark +:+ ":btc:lightning" in
  if negb (String.eqb peer expected) && negb (String.eqb peer lightning)
  then Err (InvalidPair "Ark pair network or rail") else Ok tt.

Definition verify_ark_pair (input_asset_id output_asset_id : string) : result ArkError unit :=
  match asset_id_parse input_asset_id, asset_id_parse output_asset_id with
  | Ok _, Ok _ => Err (InvalidPair "Ark-to-Ark is unsupported in v1")
  | Ok ark, Err _ => verify_chain_peer output_asset_id ark
  | Err _, Ok ark => verify_chain_peer input_asset_id ark
  | Err _, Err _ => Ok tt
  end.

(** ** Graphs *)

Record ArkObservedOutput : Type := mkObserved { ob_outpoint : ArkOutpoint; ob_output : TransactionOutput }.

Record ArkGraphMaterial : Type := mkMaterial {
  gm_signed_transactions : list string;
  gm_observed_outputs : list ArkObservedOutput;
}.

Record ArkVtxoTerms : Type := mkTerms {
  vt_asset_id : string;
  vt_input_vtxo_ids : list ArkOutpoint;
  vt_output_vtxo_id : ArkOutpoint;
  vt_amount_sat : Z;
  vt_owner_pubkey : string;
  vt_payment_hash : list Z;
  vt_claim_script : list Z;
  vt_claim_control_block : list Z;
  vt_refund_script : list Z;
  vt_refund_control_block : list Z;
  vt_claim_path_sha256 : list Z;
  vt_refund_path_sha256 : list Z;
  vt_expiry_domain : string;
  vt_expiry_value : Z;
  vt_unilateral_exit_domain : string;
  vt_unilateral_exit_delay : Z;
  vt_anchor_outpoint : ArkOutpoint;
}.

Record ArkVerificationView : Type := mkView { av_block_height : Z; av_unix_time : Z }.

Record VerifiedArkGraph : Type := mkVerified {
  vg_signed_vtxo_graph_sha256 : list Z;
  vg_transaction_ids : list (list Z);
  vg_selected_output : TransactionOutput;
  vg_selected_script_pubkey : list Z;
  vg_parent_edges : Z;
}.

(** A [BTreeSet<usize>] and its iteration. *)
Definition ascending (s : gset nat) : list nat := merge_sort Nat.le (elements s).

(** *** Cycles *)

(** The loop over the parents; [f] is the recursive call. *)
Fixpoint visit_all (f : nat -> gset nat -> gset nat -> option (result ArkError (gset nat * gset nat)))
    (parents : list nat) (visiting visited : gset nat) : option (result ArkError (gset nat * gset nat)) :=
  match parents with
  | [] => Some (Ok (visiting, visited))
  | parent :: parents =>
      match f parent visiting visited with
      | Some (Ok (visiting, visited)) => visit_all f parents visiting visited
      | stop => stop
      end
  end.

Fixpoint visit (fuel : nat) (dependencies : list (gset nat)) (index : nat) (visiting visited : gset nat)
    : option (result ArkError (gset nat * gset nat)) :=
  match fuel with
  | O => None
  | S fuel =>
      if decide (index ∈ visited) then Some (Ok (visiting, visited))
      else if decide (index ∈ visiting) then Some (Err (GraphInvalid "graph cycle"))
      else
      match dependencies !! index with
      | None => Some (Err (GraphInvalid "dependency index"))
      | Some parents =>
          match visit_all (visit fuel dependencies) (ascending parents) ({[index]} ∪ visiting) visited with
          | Some (Ok (visiting, visited)) => Some (Ok (visiting ∖ {[index]}, {[index]} ∪ visited))
          | stop => stop
          end
      end
  end.

Definition reject_graph_cycles (dependencies : list (gset nat)) : option (result ArkError unit) :=
  match visit_all (visit (S (length dependencies)) dependencies) (seq 0 (length dependencies)) ∅ ∅ with
  | None => None
  | Some (Err e) => Some (Err e)
  | Some (Ok _) => Some (Ok tt)
  end.

(** *** Depth *)

(** The fold over the parents. *)
Fixpoint depth_all (f : nat -> gmap nat Z -> option (result ArkError (Z * gmap nat Z))) (parents : list nat)
    (maximum : Z) (memo : gmap nat Z) : option (result ArkError (Z * gmap nat Z)) :=
  match parents with
  | [] => Some (Ok (maximum, memo))
  | parent :: parents =>
      match f parent memo with
      | Some (Ok (value, memo)) => depth_all f parents (Z.max maximum value) memo
      | stop => stop
      end
  end.

(** The inner [depth]. *)
Fixpoint depth_go (fuel : nat) (dependencies : list (gset nat)) (index : nat) (memo : gmap nat Z)
    : option (result ArkError (Z * gmap nat Z)) :=
  match fuel with
  | O => None
  | S fuel =>
      match memo !! index with
      | Some depth => Some (Ok (depth, memo))
      | None =>
          match dependencies !! index with
          | None => Some (Err (GraphInvalid "dependency depth index"))
          | Some parents =>
              if decide (parents = ∅) then Some (Ok (1, <[index := 1]> memo))
              else
              match depth_all (depth_go fuel dependencies) (ascending parents) 0 memo with
              | Some (Ok (maximum, memo)) =>
                  match checked_add U64_MAX maximum 1 with
                  | None => Some (Err (GraphInvalid "dependency depth"))
                  | Some depth => Some (Ok (depth, <[index := depth]> memo))
                  end
              | stop => stop
              end
          end
      end
  end.

Definition maximum_parent_depth (index : nat) (dependencies : list (gset nat)) : option (result ArkError Z) :=
  match depth_go (S (length dependencies)) dependencies index ∅ with
  | None => None
  | Some (Err e) => Some (Err e)
  | Some (Ok (depth, _)) => Some (Ok depth)
  end.

(** *** Connection *)

(** The loop of [graph_is_connected]; the head of [pending] is its last
    element. *)
Fixpoint connect_loop (fuel : nat) (dependencies children : list (gset nat)) (pending : list nat) (connected : gset nat)
    : option (result ArkError (gset nat)) :=
  match fuel with
  | O => None
  | S fuel =>
      match pending with
      | [] => Some (Ok connected)
      | index :: pending =>
          if decide (index ∈ connected) then connect_loop fuel dependencies children pending connected
          else
          match dependencies !! index with
          | None => Some (Err (GraphInvalid "dependency connection index"))
          | Some parents =>
              match children !! index with
              | None => Some (Err (GraphInvalid "child connection index"))
              | Some descendants =>
                  connect_loop fuel dependencies children (rev (ascending descendants) ++ rev (ascending parents) ++ pending)
                    ({[index]} ∪ connected)
              end
          end
      end
  end.

(** One turn for the first element and one for each edge, either way. *)
Definition connect_fuel (dependencies children : list (gset nat)) : nat :=
  S (S (list_sum (size <$> dependencies) + list_sum (size <$> children))).

Definition graph_is_connected (selected : nat) (dependencies children : list (gset nat)) : option (result ArkError bool) :=
  match connect_loop (connect_fuel dependencies children) dependencies children [selected] ∅ with
  | None => None
  | Some (Err e) => Some (Err e)
  | Some (Ok connected) =>
      Some (Ok ((size connected =? length dependencies)%nat && (length dependencies =? length children)%nat))
  end.

(** *** Shape *)

Definition verify_family_topology (family : ArkProtocolFamily) (dependencies children : list (gset nat))
    : result ArkError unit :=
  if bool_decide (family = Bark)
     && (existsb (fun parents => (1 <? size parents)%nat) dependencies || existsb (fun c => (1 <? size c)%nat) children)
  then Err (GraphInvalid "Bark transaction-chain topology") else Ok tt.

Fixpoint strictly_ordered (l : list ArkOutpoint) : bool :=
  match l with
  | a :: ((b :: _) as l') => outpoint_lt a b && strictly_ordered l'
  | _ => true
  end.

Definition verify_graph_bounds (policy : ArkOperatorPolicy) (material : ArkGraphMaterial) (terms : ArkVtxoTerms)
    : result ArkError unit :=
  let inputs := vt_input_vtxo_ids terms in
  if is_empty inputs || (maximum_input_vtxos policy <? len inputs) || (MAX_ARK_INPUT_VTXOS <? len inputs)
     || is_empty (gm_signed_transactions material)
     || (maximum_graph_transactions policy <? len (gm_signed_transactions material))
     || (MAX_ARK_GRAPH_TRANSACTIONS <? len (gm_signed_transactions material))
  then Err (GraphInvalid "graph object count")
  else if negb (size (list_to_set inputs : gset ArkOutpoint) =? length inputs)%nat || negb (strictly_ordered inputs)
  then Err (GraphInvalid "input VTXO ordering") else Ok tt.

Definition observe_output (observed : gmap ArkOutpoint TransactionOutput) (output : ArkObservedOutput)
    : result ArkError (gmap ArkOutpoint TransactionOutput) :=
  match observed !! ob_outpoint output with
  | Some _ => Err (GraphInvalid "duplicate observed output")
  | None => Ok (<[ob_outpoint output := ob_output output]> observed)
  end.
Definition observed_output_map (outputs : list ArkObservedOutput) : result ArkError (gmap ArkOutpoint TransactionOutput) :=
  try_fold observe_output ∅ outputs.

(** *** Signatures *)

Definition verify_input_signature (tx : Transaction) (prevouts : list TransactionOutput) (indexed : nat * TransactionInput)
    : result ArkError unit :=
  let '(input_index, input) := indexed in
  '(signature, signing_key, sighash) ←
    match witness input with
    | [signature] =>
        if negb (length signature =? 64)%nat then Err (GraphInvalid "signed witness shape")
        else
        output ← ok_or (GraphInvalid "signature prevout") (prevouts !! input_index);
        signing_key ← p2tr_output_key (script_pubkey output);
        sighash ← map_err (fun _ => GraphInvalid "key-spend sighash") (taproot_key_spend_sighash tx prevouts input_index);
        Ok (signature, signing_key, sighash)
    | [signature; script; control_block] =>
        if negb (length signature =? 64)%nat then Err (GraphInvalid "signed witness shape")
        else
        validated ← map_err (fun _ => GraphInvalid "script-spend witness")
                      (validate_taproot_refund_witness tx prevouts input_index script control_block);
        Ok (signature, vw_signing_key validated, vw_sighash validated)
    | _ => Err (GraphInvalid "signed witness shape")
    end;
  if verify_schnorr signature sighash signing_key then Ok tt else Err (GraphInvalid "Schnorr signature").

Definition verify_transaction_signatures (tx : Transaction) (prevouts : list TransactionOutput) : result ArkError unit :=
  if negb (length (tx_inputs tx) =? length prevouts)%nat then Err (GraphInvalid "transaction prevout count")
  else _ ← try_map (verify_input_signature tx prevouts) (imap pair (tx_inputs tx)); Ok tt.

Definition verify_fully_signed_ark_transaction (tx : Transaction) (prevouts : list TransactionOutput) : result ArkError unit :=
  map_err (fun _ => ExitUnsafe "exit transaction signature") (verify_transaction_signatures tx prevouts).

Definition reject_ark_transaction_secrets (tx : Transaction) : result ArkError unit :=
  if existsb (fun element => (length element =? 32)%nat) (concat (witness <$> tx_inputs tx))
  then Err (SecretMaterialForbidden "exit transaction contains a condition secret") else Ok tt.

(** *** The selected output *)

Definition verify_vtxo_terms (policy : ArkOperatorPolicy) (terms : ArkVtxoTerms) (view : ArkVerificationView)
    (output : TransactionOutput) : result ArkError unit :=
  minimum ← map_err (fun _ => OperatorMismatch "minimum VTXO amount") (parse_decimal (minimum_vtxo_amount policy) false);
  maximum ← map_err (fun _ => OperatorMismatch "maximum VTXO amount") (parse_decimal (maximum_vtxo_amount policy) false);
  if (vt_amount_sat terms <? minimum) || (maximum <? vt_amount_sat terms)
     || negb (value_sat output =? vt_amount_sat terms) then Err (VtxoInvalid "VTXO amount")
  else if negb (bool_decide (vt_claim_path_sha256 terms = sha256 (vt_claim_script terms)))
     || negb (bool_decide (vt_refund_path_sha256 terms = sha256 (vt_refund_script terms)))
  then Err (VtxoInvalid "VTXO path digest")
  else
  owner ← parse_public_key (vt_owner_pubkey terms);
  claim ← map_err (fun _ => VtxoInvalid "claim tapscript") (parse_swap_leaf_script (vt_claim_script terms));
  refund ← map_err (fun _ => VtxoInvalid "refund tapscript") (parse_swap_leaf_script (vt_refund_script terms));
  if negb (bool_decide (leaf_signing_key claim = owner)) || negb (bool_decide (leaf_signing_key refund = owner))
     || negb (match leaf_condition claim with Hashlock h => bool_decide (h = vt_payment_hash terms) | _ => false end)
  then Err (VtxoInvalid "VTXO owner or payment hash")
  else
  let delay_matches :=
    match leaf_condition refund with
    | Csv value => String.eqb (vt_unilateral_exit_domain terms) "blocks" && (value =? vt_unilateral_exit_delay terms)
    | Cltv value => String.eqb (vt_unilateral_exit_domain terms) "seconds" && (value =? vt_expiry_value terms)
    | Hashlock _ => false
    end in
  let mismatch := Err (VtxoInvalid "VTXO expiry or exit delay") in
  if negb delay_matches || negb (String.eqb (vt_expiry_domain terms) (pol_expiry_domain policy))
     || negb (String.eqb (vt_unilateral_exit_domain terms) (pol_unilateral_exit_domain policy)) then mismatch
  else
  delay ← map_err (fun _ => OperatorMismatch "unilateral exit delay") (parse_decimal (pol_unilateral_exit_delay policy) false);
  if negb (vt_unilateral_exit_delay terms =? delay) then mismatch
  else
  delta ← map_err (fun _ => OperatorMismatch "minimum expiry delta") (parse_decimal (minimum_expiry_delta policy) false);
  current ← (if String.eqb (vt_expiry_domain terms) "block_height" then Ok (av_block_height view)
             else if String.eqb (vt_expiry_domain terms) "unix_time" then Ok (av_unix_time view)
             else Err (VtxoInvalid "VTXO expiry domain"));
  if (vt_expiry_value terms <=? current) || (saturating_sub (vt_expiry_value terms) current <? delta)
  then Err (VtxoInvalid "VTXO expiry")
  else
  output_key ← p2tr_output_key (script_pubkey output);
  _ ← map_err (fun _ => VtxoInvalid "claim path commitment")
        (verify_control_block output_key (vt_claim_script terms) (vt_claim_control_block terms));
  _ ← map_err (fun _ => VtxoInvalid "refund path commitment")
        (verify_control_block output_key (vt_refund_script terms) (vt_refund_control_block terms));
  Ok tt.

Definition domain_value (domain : string) (value : Z) : Value :=
  json_object [("domain", VString domain); ("value", VString (to_string value))]%string.

Definition ark_vtxo_commitment_sha256 (terms : ArkVtxoTerms) : result ArkError (list Z) :=
  canonical_sha256 (json_object
    [("asset_id", VString (vt_asset_id terms)); ("output_vtxo_id", VString (outpoint_canonical (vt_output_vtxo_id terms)));
     ("amount", VString (to_string (vt_amount_sat terms))); ("owner_pubkey", VString (vt_owner_pubkey terms));
     ("payment_hash", VString (encode_lower_hex (vt_payment_hash terms)));
     ("claim_path_sha256", VString (encode_lower_hex (vt_claim_path_sha256 terms)));
     ("refund_path_sha256", VString (encode_lower_hex (vt_refund_path_sha256 terms)));
     ("expiry", domain_value (vt_expiry_domain terms) (vt_expiry_value terms));
     ("unilateral_exit_delay", domain_value (vt_unilateral_exit_domain terms) (vt_unilateral_exit_delay terms));
     ("anchor_outpoint", VString (outpoint_canonical (vt_anchor_outpoint terms)))]%string).

(** *** [verify_ark_graph] *)

(** What the first loop collects: the decoded bytes, the transactions, their
    ids and the index of each id. *)
Record DecodedGraph : Type := mkDecoded {
  dg_decoded_bytes : Z;
  dg_transactions : list Transaction;
  dg_transaction_ids : list (list Z);
  dg_transaction_by_id : gmap (list Z) nat;
}.

Definition decode_transaction (policy : ArkOperatorPolicy) (g : DecodedGraph) (raw_hex : string)
    : result ArkError DecodedGraph :=
  raw ← map_err (fun _ => GraphInvalid "transaction hex") (decode_hex raw_hex);
  decoded_bytes ← ok_or (GraphInvalid "decoded graph byte length") (checked_add U64_MAX (dg_decoded_bytes g) (len raw));
  tx ← map_err (fun _ => GraphInvalid "transaction encoding") (transaction_parse raw);
  w ← map_err (fun _ => GraphInvalid "transaction weight") (weight tx);
  if maximum_transaction_weight policy <? w then Err (GraphInvalid "transaction weight")
  else
  id ← map_err (fun _ => GraphInvalid "transaction ID") (txid tx);
  match dg_transaction_by_id g !! id with
  | Some _ => Err (GraphInvalid "duplicate transaction ID")
  | None => Ok (mkDecoded decoded_bytes (dg_transactions g ++ [tx]) (dg_transaction_ids g ++ [id])
                  (<[id := length (dg_transactions g)]> (dg_transaction_by_id g)))
  end.

(** What the second loop collects. *)
Record LinkedGraph : Type := mkLinked {
  lg_spent : gset ArkOutpoint;
  lg_spent_roots : gset ArkOutpoint;
  lg_dependencies : list (gset nat);
  lg_children : list (gset nat);
}.

Definition link_input (g : DecodedGraph) (observed : gmap ArkOutpoint TransactionOutput) (transaction_index : nat)
    (st : LinkedGraph * list TransactionOutput) (input : TransactionInput)
    : result ArkError (LinkedGraph * list TransactionOutput) :=
  let '(l, prevouts) := st in
  let outpoint := outpoint_from_input (previous_txid input) (previous_output input) in
  if decide (outpoint ∈ lg_spent l) then Err (GraphInvalid "duplicate graph spend")
  else
  let spent := {[outpoint]} ∪ lg_spent l in
  match dg_transaction_by_id g !! ao_transaction_id outpoint with
  | Some parent_index =>
      parent ← ok_or (GraphInvalid "parent transaction") (dg_transactions g !! parent_index);
      output ← ok_or (GraphInvalid "parent output index") (tx_outputs parent !! Z.to_nat (ao_output_index outpoint));
      Ok (mkLinked spent (lg_spent_roots l)
            (alter (fun s => {[parent_index]} ∪ s) transaction_index (lg_dependencies l))
            (alter (fun s => {[transaction_index]} ∪ s) parent_index (lg_children l)),
          prevouts ++ [output])
  | None =>
      output ← ok_or (GraphInvalid "unobserved graph root") (observed !! outpoint);
      Ok (mkLinked spent ({[outpoint]} ∪ lg_spent_roots l) (lg_dependencies l) (lg_children l), prevouts ++ [output])
  end.

Definition link_transaction (g : DecodedGraph) (observed : gmap ArkOutpoint TransactionOutput) (l : LinkedGraph)
    (indexed : nat * Transaction) : result ArkError LinkedGraph :=
  let '(transaction_index, tx) := indexed in
  '(l, prevouts) ← try_fold (link_input g observed transaction_index) (l, []) (tx_inputs tx);
  _ ← map_err (fun _ => GraphInvalid "transaction signature") (verify_transaction_signatures tx prevouts);
  Ok l.

Definition allowed_roots (terms : ArkVtxoTerms) : gset ArkOutpoint :=
  list_to_set (vt_input_vtxo_ids terms ++ [vt_anchor_outpoint terms]).

(** Up to the walks. *)
Definition build_graph (descriptor : ArkOperatorDescriptor) (policy : ArkOperatorPolicy) (material : ArkGraphMaterial)
    (terms : ArkVtxoTerms) (expected_graph_sha256 : list Z) : result ArkError (DecodedGraph * LinkedGraph) :=
  asset ← asset_id_parse (vt_asset_id terms);
  _ ← verify_operator_binding descriptor policy (aa_operator_identity_sha256 asset);
  if negb (String.eqb (aa_network_id asset) (ad_network_id descriptor))
     || negb (bool_decide (aa_protocol_family asset = ad_protocol_family descriptor))
  then Err (OperatorMismatch "asset operator binding")
  else
  _ ← verify_graph_bounds policy material terms;
  g ← try_fold (decode_transaction policy) (mkDecoded 0 [] [] ∅) (gm_signed_transactions material);
  if (maximum_graph_bytes policy <? dg_decoded_bytes g) || (MAX_ARK_GRAPH_BYTES <? dg_decoded_bytes g)
  then Err (GraphInvalid "decoded graph byte length")
  else
  graph_digest ← canonical_sha256 (VArray (VString <$> gm_signed_transactions material));
  if negb (bool_decide (graph_digest = expected_graph_sha256)) then Err (GraphInvalid "signed graph digest")
  else
  observed ← observed_output_map (gm_observed_outputs material);
  if negb (bool_decide (dom observed = allowed_roots terms)) then Err (GraphInvalid "observed root set")
  else
  let n := length (dg_transactions g) in
  l ← try_fold (link_transaction g observed) (mkLinked ∅ ∅ (replicate n ∅) (replicate n ∅)) (imap pair (dg_transactions g));
  if negb (bool_decide (lg_spent_roots l = allowed_roots terms)) then Err (GraphInvalid "unconsumed observed graph root")
  else Ok (g, l).

(** The walks over the graph and the selected output. *)
Definition select_output (descriptor : ArkOperatorDescriptor) (policy : ArkOperatorPolicy) (terms : ArkVtxoTerms)
    (view : ArkVerificationView) (graph_digest : list Z) (g : DecodedGraph) (l : LinkedGraph)
    : option (result ArkError VerifiedArkGraph) :=
  match reject_graph_cycles (lg_dependencies l) with
  | None => None
  | Some (Err e) => Some (Err e)
  | Some (Ok _) =>
  match verify_family_topology (ad_protocol_family descriptor) (lg_dependencies l) (lg_children l) with
  | Err e => Some (Err e)
  | Ok _ =>
  match dg_transaction_by_id g !! ao_transaction_id (vt_output_vtxo_id terms) with
  | None => Some (Err (VtxoInvalid "selected transaction is absent"))
  | Some index =>
  match dg_transactions g !! index with
  | None => Some (Err (VtxoInvalid "selected transaction"))
  | Some tx =>
  match graph_is_connected index (lg_dependencies l) (lg_children l) with
  | None => None
  | Some (Err e) => Some (Err e)
  | Some (Ok false) => Some (Err (GraphInvalid "disconnected transaction"))
  | Some (Ok true) =>
  if decide (vt_output_vtxo_id terms ∈ lg_spent l) then Some (Err (VtxoInvalid "selected VTXO is already spent"))
  else
  match tx_outputs tx !! Z.to_nat (ao_output_index (vt_output_vtxo_id terms)) with
  | None => Some (Err (VtxoInvalid "selected output index"))
  | Some output =>
  match maximum_parent_depth index (lg_dependencies l) with
  | None => None
  | Some (Err e) => Some (Err e)
  | Some (Ok parent_edges) =>
  if (parent_edges =? 0) || (maximum_parent_edges policy <? parent_edges) || (MAX_ARK_PARENT_EDGES <? parent_edges)
  then Some (Err (GraphInvalid "selected parent edge bound"))
  else
  Some (_ ← verify_vtxo_terms policy terms view output;
        Ok (mkVerified graph_digest (dg_transaction_ids g) output (script_pubkey output) parent_edges))
  end end end end end end end.

Definition verify_ark_graph (descriptor : ArkOperatorDescriptor) (policy : ArkOperatorPolicy) (material : ArkGraphMaterial)
    (terms : ArkVtxoTerms) (view : ArkVerificationView) (expected_graph_sha256 : list Z)
    : option (result ArkError VerifiedArkGraph) :=
  match build_graph descriptor policy material terms expected_graph_sha256 with
  | Err e => Some (Err e)
  | Ok (g, l) => select_output descriptor policy terms view expected_graph_sha256 g l
  end.

End ark.
