(* ===== verification/ArkGraph.v ===== *)
(** * ArkGraph: the walks over a graph of transactions

    [reject_graph_cycles], [maximum_parent_depth] and [graph_is_connected] of
    [ark.rs] end, and compute what their names say: [cycles_exact],
    [depth_exact] and [connected_exact]. *)

From S2P Require Import Prelude Text Event Wire Transaction Script Taproot Scalar Musig2 Ark.

Lemma elem_of_ascending p s : p ∈ ascending s <-> p ∈ s.
Proof. unfold ascending. by rewrite merge_sort_Permutation, elem_of_elements. Qed.

Lemma ascending_length s : length (ascending s) = size s.
Proof. unfold ascending. by rewrite merge_sort_Permutation. Qed.

(** The edges stay in the graph. *)
Definition edges_in_range (deps : list (gset nat)) : Prop :=
  forall i s p, deps !! i = Some s -> p ∈ s -> (p < length deps)%nat.

(** [i] spends an output of [p]. *)
Definition depends (deps : list (gset nat)) (i p : nat) : Prop := exists s, deps !! i = Some s /\ p ∈ s.

(** Each transaction comes after those it spends from. *)
Inductive topo (deps : list (gset nat)) : list nat -> Prop :=
| topo_nil : topo deps []
| topo_snoc order i s :
    topo deps order -> deps !! i = Some s -> i ∉ order -> (forall p, p ∈ s -> p ∈ order) -> topo deps (order ++ [i]).

Lemma topo_NoDup deps order : topo deps order -> NoDup order.
Proof.
  induction 1 as [|order i s _ IH _ Hi _]; [constructor|]. apply NoDup_app. split; [done|]. split; [|apply NoDup_singleton].
  intros x Hx Hxi%list_elem_of_singleton. by subst.
Qed.

Lemma topo_closed deps order i p : topo deps order -> i ∈ order -> depends deps i p -> p ∈ order.
Proof.
  induction 1 as [|order j s _ IH Hj _ Hs]; intros Hi (s' & Hs' & Hp); [by apply elem_of_nil in Hi|].
  apply elem_of_app. apply elem_of_app in Hi as [Hi|Hi%list_elem_of_singleton]; left; [|subst i; rewrite Hj in Hs'; injection Hs' as <-; by apply Hs].
  apply IH; [done|by exists s'].
Qed.

Lemma topo_reaches deps order i p : topo deps order -> i ∈ order -> tc (depends deps) i p -> p ∈ order.
Proof. intros Ht Hi Htc. induction Htc as [i p Hd|i j p Hd _ IH]; [by eapply topo_closed|]. by eapply IH, topo_closed. Qed.

Lemma topo_acyclic deps order i : topo deps order -> i ∈ order -> ~ tc (depends deps) i i.
Proof.
  intros Ht. induction Ht as [|order j s Ht IH Hj Hnj Hs]; intros Hi Htc; [by apply elem_of_nil in Hi|].
  destruct (decide (i ∈ order)) as [Hin|Hout]; [by apply IH|].
  apply elem_of_app in Hi as [?|Hi%list_elem_of_singleton]; [done|]. subst i.
  assert (forall p, depends deps j p -> p ∈ order) as Hdep.
  { intros p (s' & Hs' & Hp). rewrite Hj in Hs'. injection Hs' as <-. by apply Hs. }
  inversion Htc as [? ? Hd|? p ? Hd Hrest]; subst; [by apply Hnj, Hdep|]. apply Hnj. eapply topo_reaches; [done| |done]. by apply Hdep.
Qed.

(** ** Cycles *)

Section visits.
Context (deps : list (gset nat)).

(** A walk restores the set of nodes it is inside of. *)
Lemma visit_visiting fuel index visiting visited visiting' visited' :
  visit fuel deps index visiting visited = Some (Ok (visiting', visited')) -> visiting' = visiting.
Proof.
  revert index visiting visited visiting' visited'. induction fuel as [|fuel IH]; intros index visiting visited visiting' visited'; [done|].
  cbn [visit]. case_decide; [by intros [= <- <-]|]. case_decide as Hni; [done|]. destruct (deps !! index) as [parents|]; [|done].
  assert (forall l a b a' b', visit_all (visit fuel deps) l a b = Some (Ok (a', b')) -> a' = a) as Hall.
  { induction l as [|x l IHl]; intros a b a' b'; cbn [visit_all]; [by intros [= <- _]|].
    destruct (visit fuel deps x a b) as [[[a1 b1]|]|] eqn:Hv; try done. apply IH in Hv as ->. apply IHl. }
  destruct (visit_all _ _ _ _) as [[[a b]|]|] eqn:Hv; try done. intros [= <- <-]. apply Hall in Hv as ->. set_solver.
Qed.

(** Enough fuel: one more than the nodes the walk is not inside of. *)
Lemma visit_total fuel index visiting visited :
  (size (set_seq 0 (length deps) ∖ visiting : gset nat) < fuel)%nat -> is_Some (visit fuel deps index visiting visited).
Proof.
  revert index visiting visited. induction fuel as [|fuel IH]; intros index visiting visited Hf; [lia|]. cbn [visit].
  case_decide; [done|]. case_decide as Hni; [done|]. destruct (deps !! index) as [parents|] eqn:Hp; [|done].
  assert (size (set_seq 0 (length deps) ∖ ({[index]} ∪ visiting) : gset nat) < fuel)%nat as Hf'.
  { apply lookup_lt_Some in Hp. eapply Nat.lt_le_trans; [|apply Nat.lt_succ_r, Hf]. apply subset_size. split; [set_solver|].
    intros Hsub. assert (index ∈ (set_seq 0 (length deps) ∖ visiting : gset nat)) as Hin%Hsub; [|set_solver].
    apply elem_of_difference. split; [apply elem_of_set_seq; lia|done]. }
  assert (forall l b, is_Some (visit_all (visit fuel deps) l ({[index]} ∪ visiting) b)) as Hall.
  { induction l as [|x l IHl]; intros b; cbn [visit_all]; [done|]. destruct (IH x _ b Hf') as [res Hres].
    rewrite Hres. destruct res as [[a1 b1]|]; [|done]. apply visit_visiting in Hres as ->. apply IHl. }
  destruct (Hall (ascending parents) visited) as [res Hres]. rewrite Hres. by destruct res as [[]|].
Qed.

(** What a walk reaches extends the order. *)
Definition walked (order : list nat) (visiting : gset nat) (visited' : gset nat) (P : nat -> Prop) : Prop :=
  exists more, topo deps (order ++ more) /\ visited' = list_to_set (order ++ more) /\ visiting ## visited'
    /\ forall p, P p -> p ∈ order ++ more.

Lemma visit_sound fuel index visiting visiting' visited' order :
  visit fuel deps index visiting (list_to_set order) = Some (Ok (visiting', visited')) ->
  topo deps order -> visiting ## list_to_set order -> walked order visiting visited' (fun p => p = index).
Proof.
  revert index visiting visiting' visited' order. induction fuel as [|fuel IH]; intros index visiting visiting' visited' order; [done|].
  cbn [visit]. case_decide as Hin.
  { intros [= <- <-] Ht Hdis. exists []. rewrite app_nil_r. split_and!; [done..|]. intros p ->. by apply elem_of_list_to_set in Hin. }
  case_decide as Hni; [done|]. destruct (deps !! index) as [parents|] eqn:Hp; [|done].
  assert (forall l a a' b' order, visit_all (visit fuel deps) l a (list_to_set order) = Some (Ok (a', b')) ->
            topo deps order -> a ## list_to_set order -> walked order a b' (fun p => p ∈ l)) as Hall.
  { induction l as [|x l IHl]; intros a a' b' order'; cbn [visit_all].
    - intros [= <- <-] Ht Hdis. exists []. rewrite app_nil_r. split_and!; [done..|]. intros p Hx. by apply elem_of_nil in Hx.
    - destruct (visit fuel deps x a _) as [[[a1 b1]|]|] eqn:Hv; try done. intros Hrest Ht Hdis.
      pose proof (visit_visiting _ _ _ _ _ _ Hv) as ->. apply IH in Hv as (m1 & Ht1 & -> & Hdis1 & Hx); [|done..].
      apply IHl in Hrest as (m2 & Ht2 & -> & Hdis2 & Hl); [|done..]. rewrite <- app_assoc in *. exists (m1 ++ m2). split_and!; [done..|].
      intros p [Hpx|Hp']%elem_of_cons; [subst p|by apply Hl]. specialize (Hx x eq_refl). set_solver. }
  destruct (visit_all _ _ _ _) as [[[a b]|]|] eqn:Hv; try done. intros [= <- <-] Ht Hdis.
  apply Hall in Hv as (more & Ht' & -> & Hdis' & Hpar); [|done|set_solver].
  exists (more ++ [index]). rewrite app_assoc, list_to_set_app_L. cbn. split_and!; [|set_solver..].
  eapply topo_snoc; [done|done| |]; [set_solver|]. intros p Hp'. by apply Hpar, elem_of_ascending.
Qed.

(** A refused walk has found a cycle. *)
Lemma visit_refused fuel index visiting visited e :
  edges_in_range deps -> (index < length deps)%nat -> (forall v, v ∈ visiting -> tc (depends deps) v index) ->
  visit fuel deps index visiting visited = Some (Err e) -> e = GraphInvalid "graph cycle" /\ exists i, tc (depends deps) i i.
Proof.
  intros Hrange. revert index visiting visited. induction fuel as [|fuel IH]; intros index visiting visited Hi Hv; [done|]. cbn [visit].
  case_decide; [done|]. case_decide as Hni; [intros [= <-]; split; [done|exists index; by apply Hv]|].
  destruct (deps !! index) as [parents|] eqn:Hp; [|by apply lookup_ge_None in Hp; lia].
  assert (forall l b, (forall p, p ∈ l -> p ∈ parents) -> visit_all (visit fuel deps) l ({[index]} ∪ visiting) b = Some (Err e) ->
            e = GraphInvalid "graph cycle" /\ exists i, tc (depends deps) i i) as Hall.
  { induction l as [|x l IHl]; intros b Hsub; cbn [visit_all]; [done|]. assert (x ∈ parents) as Hx by (apply Hsub; left).
    assert (depends deps index x) as Hdep by (by exists parents).
    destruct (visit fuel deps x _ b) as [[[a1 b1]|e']|] eqn:Hvis; try done.
    - apply visit_visiting in Hvis as ->. apply IHl. intros p Hp'. apply Hsub. by right.
    - intros [= ->]. eapply IH; [by eapply Hrange| |exact Hvis]. intros v [Hin%elem_of_singleton|Hin]%elem_of_union; [subst v; by apply tc_once|].
      eapply tc_r; [by apply Hv|done]. }
  destruct (visit_all _ _ _ _) as [[[a b]|e']|] eqn:Hres; try done. intros [= ->]. eapply Hall; [|exact Hres]. intros p. apply elem_of_ascending.
Qed.
End visits.

Lemma visit_all_order deps fuel l order visiting' visited' :
  visit_all (visit fuel deps) l ∅ (list_to_set order) = Some (Ok (visiting', visited')) -> topo deps order ->
  exists more, topo deps (order ++ more) /\ forall p, p ∈ l -> p ∈ order ++ more.
Proof.
  revert order. induction l as [|x l IH]; intros order; cbn [visit_all].
  { intros _ Ht. exists []. rewrite app_nil_r. split; [done|]. intros p Hp. by apply elem_of_nil in Hp. }
  destruct (visit fuel deps x ∅ _) as [[[a b]|]|] eqn:Hv; try done. pose proof (visit_visiting _ _ _ _ _ _ _ Hv) as ->.
  intros Hrest Ht. apply visit_sound in Hv as (m1 & Ht1 & -> & _ & Hx); [|done|set_solver].
  apply IH in Hrest as (m2 & Ht2 & Hl); [|done]. rewrite <- app_assoc in *. exists (m1 ++ m2). split; [done|].
  intros p [Hp|Hp]%elem_of_cons; [|by apply Hl]. subst p. specialize (Hx x eq_refl). set_solver.
Qed.

Lemma visit_all_decides deps l visited :
  edges_in_range deps -> (forall p, p ∈ l -> (p < length deps)%nat) ->
  (exists st, visit_all (visit (S (length deps)) deps) l ∅ visited = Some (Ok st))
  \/ visit_all (visit (S (length deps)) deps) l ∅ visited = Some (Err (GraphInvalid "graph cycle")) /\ exists i, tc (depends deps) i i.
Proof.
  intros Hrange. revert visited. induction l as [|x l IH]; intros visited Hl; cbn [visit_all]; [left; by eexists|].
  destruct (visit_total deps (S (length deps)) x ∅ visited) as [res Hres].
  { rewrite difference_empty_L, size_set_seq. lia. }
  rewrite Hres. destruct res as [[a b]|e].
  - pose proof (visit_visiting _ _ _ _ _ _ _ Hres) as ->. apply IH. intros p Hp. apply Hl. by right.
  - right. apply visit_refused in Hres as [-> Hc]; [done|done|apply Hl; left|set_solver].
Qed.

(** An order of all the transactions in which each comes after those it
    spends from. *)
Definition ordered (deps : list (gset nat)) (order : list nat) : Prop :=
  topo deps order /\ order ≡ₚ seq 0 (length deps).

Lemma topo_range deps order i : topo deps order -> i ∈ order -> (i < length deps)%nat.
Proof.
  induction 1 as [|order j s _ IH Hj _ _]; intros Hi; [by apply elem_of_nil in Hi|].
  apply elem_of_app in Hi as [Hi|Hi%list_elem_of_singleton]; [by apply IH|]. subst. by eapply lookup_lt_Some.
Qed.

(** The search for cycles ends; it passes exactly when the transactions can be
    put in order, that is when none depends on itself, and otherwise names a
    cycle. *)
Theorem cycles_exact deps :
  edges_in_range deps ->
  (reject_graph_cycles deps = Some (Ok tt) /\ (exists order, ordered deps order) /\ forall i, ~ tc (depends deps) i i)
  \/ (reject_graph_cycles deps = Some (Err (GraphInvalid "graph cycle")) /\ exists i, tc (depends deps) i i).
Proof.
  intros Hrange. unfold reject_graph_cycles.
  destruct (visit_all_decides deps (seq 0 (length deps)) ∅ Hrange) as [[[a b] Hv]|[Hv Hc]].
  { intros p Hp%elem_of_seq. lia. }
  2:{ right. by rewrite Hv. }
  left. rewrite Hv. split; [done|]. apply (visit_all_order _ _ _ []) in Hv as (order & Ht & Hall); [|constructor]. cbn [app] in *.
  split.
  - exists order. split; [done|]. apply NoDup_Permutation; [by eapply topo_NoDup|apply NoDup_seq|]. intros i. split; [|by apply Hall].
    intros Hi. apply elem_of_seq. pose proof (topo_range _ _ _ Ht Hi). lia.
  - intros i Htc. assert (depends deps i i \/ exists j, depends deps i j) as Hd by (inversion Htc; eauto).
    eapply topo_acyclic; [done| |done]. apply Hall, elem_of_seq.
    destruct Hd as [(s & Hs%lookup_lt_Some & _)|(j & s & Hs%lookup_lt_Some & _)]; lia.
Qed.

(** ** Depth *)

(** A chain of [n] transactions that ends in [i], each spending from the one
    before. *)
Inductive dependency_chain (deps : list (gset nat)) : nat -> nat -> Prop :=
| chain_root i s : deps !! i = Some s -> dependency_chain deps i 1
| chain_step i p n : depends deps i p -> dependency_chain deps p n -> dependency_chain deps i (S n).

(** [d] is the length of the longest. *)
Definition longest_chain (deps : list (gset nat)) (i : nat) (d : Z) : Prop :=
  exists n, d = Z.of_nat n /\ dependency_chain deps i n /\ forall m, dependency_chain deps i m -> (m <= n)%nat.

Lemma chain_bound deps order i n : topo deps order -> i ∈ order -> dependency_chain deps i n -> (n <= length order)%nat.
Proof.
  intros Ht. revert i n. induction Ht as [|order j s Ht IH Hj Hnj Hs]; intros i n Hi Hc; [by apply elem_of_nil in Hi|].
  rewrite length_app. cbn. destruct (decide (i ∈ order)) as [Hin|Hout]; [specialize (IH _ _ Hin Hc); lia|].
  apply elem_of_app in Hi as [?|Hi%list_elem_of_singleton]; [done|]. subst j.
  inversion Hc as [|? p m (s' & Hs' & Hp) Hc']; subst; [lia|]. rewrite Hj in Hs'. injection Hs' as <-. specialize (IH p m (Hs p Hp) Hc'). lia.
Qed.

Definition memo_ok (deps : list (gset nat)) (memo : gmap nat Z) : Prop := forall i d, memo !! i = Some d -> longest_chain deps i d.

(** The fold over the parents gives their greatest depth. *)
Lemma depth_all_spec deps (f : nat -> gmap nat Z -> option (result ArkError (Z * gmap nat Z))) l maximum memo :
  (forall p memo, p ∈ l -> memo_ok deps memo -> exists d memo', f p memo = Some (Ok (d, memo')) /\ longest_chain deps p d /\ memo_ok deps memo') ->
  memo_ok deps memo ->
  exists d memo', depth_all f l maximum memo = Some (Ok (d, memo')) /\ memo_ok deps memo'
    /\ (d = maximum \/ exists p, p ∈ l /\ longest_chain deps p d) /\ maximum <= d
    /\ forall p dp, p ∈ l -> longest_chain deps p dp -> dp <= d.
Proof.
  revert maximum memo. induction l as [|x l IH]; intros maximum memo Hf Hm; cbn [depth_all].
  { exists maximum, memo. split_and!; [done|done|by left|lia|]. intros p dp Hp. by apply elem_of_nil in Hp. }
  destruct (Hf x memo ltac:(left) Hm) as (v & memo1 & Hv & Hlv & Hm1). rewrite Hv.
  destruct (IH (Z.max maximum v) memo1) as (d & memo2 & Hd & Hm2 & Hcase & Hge & Hall); [intros p m Hp; apply Hf; by right|done|].
  exists d, memo2. split_and!; [done|done| |lia|].
  - destruct Hcase as [->|(p & Hp & Hlp)]; [|right; exists p; split; [by right|done]].
    destruct (Z.max_spec maximum v) as [[_ ->]|[_ ->]]; [right; exists x; split; [left|done]|by left].
  - intros p dp [Hpx|Hp]%elem_of_cons Hlp; [subst p|by eapply Hall].
    destruct Hlv as (n & -> & Hc & Hmax), Hlp as (n' & -> & Hc' & _). specialize (Hmax n' Hc'). lia.
Qed.

Lemma longest_root deps i : deps !! i = Some ∅ -> longest_chain deps i 1.
Proof.
  intros Hi. exists 1%nat. split_and!; [done|by eapply chain_root|]. intros m Hc.
  inversion Hc as [|? p n (s & Hs & Hp) _]; subst; [done|]. rewrite Hi in Hs. injection Hs as <-. set_solver.
Qed.

Lemma longest_step deps i s d :
  deps !! i = Some s -> s <> ∅ -> (exists p, p ∈ s /\ longest_chain deps p d) ->
  (forall p, p ∈ s -> exists dp, longest_chain deps p dp /\ dp <= d) -> longest_chain deps i (d + 1).
Proof.
  intros Hi Hne (p & Hp & n & -> & Hc & _) Hall. exists (S n). split_and!; [lia|eapply chain_step; [|done]; by exists s|].
  intros m Hm. inversion Hm as [|? q k (s' & Hs' & Hq) Hck]; subst; [lia|]. rewrite Hi in Hs'. injection Hs' as <-.
  destruct (Hall q Hq) as (dq & (nq & -> & _ & Hmax) & Hle). specialize (Hmax k Hck). lia.
Qed.

Lemma depth_go_spec deps order :
  topo deps order -> Z.of_nat (length order) < U64_MAX ->
  forall fuel i memo, (length order < fuel)%nat -> i ∈ order -> memo_ok deps memo ->
  exists d memo', depth_go fuel deps i memo = Some (Ok (d, memo')) /\ longest_chain deps i d /\ memo_ok deps memo'.
Proof.
  intros Ht. induction Ht as [|order j s Ht IH Hj Hnj Hs]; intros Hlen fuel i memo Hf Hi Hm; [by apply elem_of_nil in Hi|].
  rewrite length_app in *. cbn [length] in *. destruct (decide (i ∈ order)) as [Hin|Hout]; [apply IH; try done; lia|].
  apply elem_of_app in Hi as [?|Hi%list_elem_of_singleton]; [done|]. subst i. destruct fuel as [|fuel]; [lia|]. cbn [depth_go].
  destruct (memo !! j) as [d|] eqn:Hmj; [exists d, memo; split_and!; [done|by apply Hm|done]|]. rewrite Hj.
  assert (forall d m, longest_chain deps j d -> memo_ok deps m -> memo_ok deps (<[j:=d]> m)) as Hins.
  { intros d m Hd Hok k v. destruct (decide (j = k)) as [<-|Hne]; [rewrite lookup_insert_eq; by intros [= <-]|].
    rewrite lookup_insert_ne by done. apply Hok. }
  destruct (decide (s = ∅)) as [->|Hne].
  { exists 1, (<[j:=1]> memo). pose proof (longest_root _ _ Hj). split_and!; [done|done|by apply Hins]. }
  destruct (depth_all_spec deps (depth_go fuel deps) (ascending s) 0 memo) as (d & memo1 & Hd & Hm1 & Hcase & Hge & Hall); [|done|].
  { intros p m Hp Hok. apply IH; [lia|lia| |done]. by apply Hs, elem_of_ascending. }
  rewrite Hd.
  assert (forall p, p ∈ s -> exists dp, longest_chain deps p dp) as Hlp.
  { intros p Hp. destruct (IH ltac:(lia) fuel p memo ltac:(lia) (Hs p Hp) Hm) as (dp & ? & _ & ? & _). by exists dp. }
  assert (exists p, p ∈ s /\ longest_chain deps p d) as (p & Hp & Hpd).
  { destruct Hcase as [->|(p & Hp%elem_of_ascending & Hpd)]; [|by exists p]. exfalso. destruct (set_choose_L s Hne) as [p Hp].
    destruct (Hlp p Hp) as (dp & Hdp). specialize (Hall p dp (proj2 (elem_of_ascending _ _) Hp) Hdp).
    destruct Hdp as (n & -> & Hc & _). destruct Hc; lia. }
  assert (longest_chain deps j (d + 1)) as Hj1.
  { eapply longest_step; [done|done|by exists p|]. intros q Hq. destruct (Hlp q Hq) as (dq & Hdq). exists dq. split; [done|].
    eapply Hall; [by apply elem_of_ascending|done]. }
  assert (d <= Z.of_nat (length order)) as Hbound.
  { destruct Hpd as (n & -> & Hc & _). pose proof (chain_bound _ _ _ _ Ht (Hs p Hp) Hc). lia. }
  rewrite checked_add_eq by lia. exists (d + 1), (<[j:=d + 1]> memo1). split_and!; [done|done|by apply Hins].
Qed.

(** In a graph with an order the depth is found, and it is the length of the
    longest chain. *)
Theorem depth_exact deps order i :
  ordered deps order -> Z.of_nat (length deps) < U64_MAX -> (i < length deps)%nat ->
  exists d, maximum_parent_depth i deps = Some (Ok d) /\ longest_chain deps i d.
Proof.
  intros [Ht Hp] Hlen Hi. assert (length order = length deps) as Hlo by (rewrite Hp; apply length_seq).
  destruct (depth_go_spec deps order Ht ltac:(lia) (S (length deps)) i ∅) as (d & memo & Hd & Hl & _).
  - lia.
  - rewrite Hp. apply elem_of_seq. lia.
  - intros j v Hv. by rewrite lookup_empty in Hv.
  - exists d. unfold maximum_parent_depth. by rewrite Hd.
Qed.

(** ** Connection *)

(** One spends from the other. *)
Definition linked (deps children : list (gset nat)) (i j : nat) : Prop := depends deps i j \/ depends children i j.

(** The edges of the nodes not yet reached. *)
Definition unreached (connected : gset nat) (edges : list (gset nat)) : nat :=
  list_sum (imap (fun i s => if decide (i ∈ connected) then 0 else size s)%nat edges).

Lemma unreached_all edges : unreached ∅ edges = list_sum (size <$> edges).
Proof.
  unfold unreached. f_equal. apply list_eq. intros i. rewrite list_lookup_imap, list_lookup_fmap.
  destruct (edges !! i); [|done]. cbn. by rewrite decide_False by set_solver.
Qed.

Lemma list_sum_imap_change (f g : nat -> gset nat -> nat) edges index s k :
  edges !! index = Some s -> (forall i x, i <> index -> f i x = g i x) -> (f index s = g index s + k)%nat ->
  list_sum (imap f edges) = (list_sum (imap g edges) + k)%nat.
Proof.
  revert f g index. induction edges as [|x edges IH]; intros f g index Hi Hne Hk; [done|]. cbn [imap list_sum foldr].
  destruct index as [|index]; cbn in Hi.
  - injection Hi as ->. change (foldr Nat.add 0%nat) with list_sum. rewrite Hk.
    rewrite (imap_ext (f ∘ S) (g ∘ S)) by (intros; cbn; apply Hne; lia). lia.
  - change (foldr Nat.add 0%nat) with list_sum. rewrite (Hne 0%nat x) by lia.
    rewrite (IH (f ∘ S) (g ∘ S) index); [lia|done|intros i y Hi'; cbn; apply Hne; lia|done].
Qed.

Lemma unreached_step connected edges index s :
  edges !! index = Some s -> index ∉ connected -> unreached connected edges = (unreached ({[index]} ∪ connected) edges + size s)%nat.
Proof.
  intros Hi Hn. unfold unreached. eapply list_sum_imap_change; [done| |].
  - intros i x Hne. destruct (decide (i ∈ connected)); [by rewrite decide_True by set_solver|by rewrite decide_False by set_solver].
  - rewrite decide_False by done. by rewrite decide_True by set_solver.
Qed.

Section connection.
Context (deps children : list (gset nat)) (Hlen : length children = length deps).
Context (Hd : edges_in_range deps) (Hc : edges_in_range children).

Lemma linked_range i j : linked deps children i j -> (j < length deps)%nat.
Proof. intros [(s & Hs & Hj)|(s & Hs & Hj)]; [by eapply Hd|]. rewrite <- Hlen. by eapply Hc. Qed.

(** The loop ends with a set that holds what was pending and is closed under
    the links. *)
Lemma connect_spec fuel pending connected :
  (length pending + unreached connected deps + unreached connected children < fuel)%nat ->
  (forall i, i ∈ pending -> (i < length deps)%nat) ->
  (forall i j, i ∈ connected -> linked deps children i j -> j ∈ connected \/ j ∈ pending) ->
  exists final, connect_loop fuel deps children pending connected = Some (Ok final)
    /\ connected ⊆ final /\ (forall i, i ∈ pending -> i ∈ final)
    /\ (forall i j, i ∈ final -> linked deps children i j -> j ∈ final)
    /\ forall i, i ∈ final -> i ∈ connected \/ exists p, p ∈ pending /\ rtc (linked deps children) p i.
Proof.
  revert pending connected. induction fuel as [|fuel IH]; intros pending connected Hf Hrange Hclosed; [lia|]. cbn [connect_loop].
  destruct pending as [|index pending].
  { exists connected. split_and!; [done|done|by intros i Hi%elem_of_nil| |by left]. intros i j Hi Hl.
    destruct (Hclosed i j Hi Hl) as [?|?%elem_of_nil]; done. }
  destruct (decide (index ∈ connected)) as [Hin|Hout].
  { destruct (IH pending connected) as (final & -> & Hsub & Hpend & Hcl & Hfrom).
    - cbn in Hf. lia.
    - intros i Hi. apply Hrange. by right.
    - intros i j Hi Hl. destruct (Hclosed i j Hi Hl) as [?|[->|?]%elem_of_cons]; auto.
    - exists final. split_and!; [done|done| |done|].
      + intros i [Hi|Hi]%elem_of_cons; [subst i; by apply Hsub|by apply Hpend].
      + intros i Hi. destruct (Hfrom i Hi) as [?|(p & Hp & Hr)]; [by left|right; exists p; split; [by right|done]]. }
  assert (index < length deps)%nat as Hidx by (apply Hrange; left).
  destruct (lookup_lt_is_Some_2 deps index Hidx) as [parents Hpar], (lookup_lt_is_Some_2 children index ltac:(lia)) as [descendants Hdes].
  rewrite Hpar, Hdes.
  assert (forall j, j ∈ rev (ascending descendants) ++ rev (ascending parents) ++ pending <-> linked deps children index j \/ j ∈ pending) as Hmem.
  { intros j. rewrite <- (Permutation_rev (ascending descendants)), <- (Permutation_rev (ascending parents)), !elem_of_app, !elem_of_ascending. unfold linked, depends. rewrite Hpar, Hdes. split.
    - intros [?|[?|?]]; [left; right; by eexists|left; left; by eexists|by right].
    - intros [[(s & [= <-] & ?)|(s & [= <-] & ?)]|?]; auto. }
  destruct (IH (rev (ascending descendants) ++ rev (ascending parents) ++ pending) ({[index]} ∪ connected))
    as (final & -> & Hsub & Hpend & Hcl & Hfrom).
  - rewrite !length_app, !length_rev, !ascending_length. pose proof (unreached_step _ _ _ _ Hpar Hout). pose proof (unreached_step _ _ _ _ Hdes Hout).
    cbn [length] in Hf. lia.
  - intros i [Hl|Hi]%Hmem; [by eapply linked_range|apply Hrange; by right].
  - intros i j [->%elem_of_singleton|Hi]%elem_of_union Hl; [right; apply Hmem; by left|].
    destruct (Hclosed i j Hi Hl) as [?|[->|?]%elem_of_cons]; [left; set_solver|left; set_solver|right; apply Hmem; by right].
  - exists final. split_and!; [done|set_solver| |done|].
    + intros i [Hi|Hi]%elem_of_cons; [subst i; apply Hsub; set_solver|apply Hpend, Hmem; by right].
    + intros i Hi. destruct (Hfrom i Hi) as [[->%elem_of_singleton|?]%elem_of_union|(p & [Hl|Hp]%Hmem & Hr)].
      * right. exists index. split; [left|done].
      * by left.
      * right. exists index. split; [left|]. by eapply rtc_l.
      * right. exists p. split; [by right|done].
Qed.

(** The walk from the selected transaction ends, and finds the graph connected
    exactly when every transaction is linked to it. *)
Theorem connected_exact selected :
  (selected < length deps)%nat ->
  exists b, graph_is_connected selected deps children = Some (Ok b)
    /\ (b = true <-> forall i, (i < length deps)%nat -> rtc (linked deps children) selected i).
Proof.
  intros Hsel. unfold graph_is_connected. destruct (connect_spec (connect_fuel deps children) [selected] ∅)
    as (final & -> & _ & Hpend & Hcl & Hfrom).
  - rewrite !unreached_all. unfold connect_fuel. cbn. lia.
  - intros i Hi%list_elem_of_singleton. by subst.
  - set_solver.
  - assert (selected ∈ final) as Hin by (apply Hpend; left).
    assert (forall i, i ∈ final <-> rtc (linked deps children) selected i) as Hfin.
    { intros i. split.
      - intros Hi. destruct (Hfrom i Hi) as [?|(p & Hp%list_elem_of_singleton & Hr)]; [set_solver|by subst].
      - intros Hr. clear Hfrom Hpend Hsel. revert Hin. induction Hr as [|a b c Hab _ IH]; [done|]. intros Ha. by eapply IH, Hcl. }
    assert (final ⊆ set_seq 0 (length deps)) as Hsub.
    { intros i Hi%Hfin. apply elem_of_set_seq. apply rtc_inv_r in Hi as [<-|(j & _ & Hl)]; [lia|]. pose proof (linked_range _ _ Hl). lia. }
    exists ((size final =? length deps)%nat && (length deps =? length children)%nat). split; [done|].
    rewrite Hlen, Nat.eqb_refl, andb_true_r, Nat.eqb_eq. split.
    + intros Hs i Hi. apply Hfin. assert (final = set_seq 0 (length deps)) as ->; [|apply elem_of_set_seq; lia].
      apply set_subseteq_size_eq; [done|]. rewrite size_set_seq. lia.
    + intros Hall. assert (final = set_seq 0 (length deps)) as ->; [|apply size_set_seq].
      apply set_eq. intros i. split; [apply Hsub|]. intros Hi%elem_of_set_seq. apply Hfin, Hall. lia.
Qed.
End connection.
