(* ===== verification/ArkCorrect.v ===== *)
(** * ArkCorrect: what an accepted Ark graph guarantees

    [ark_graph_exit]: the transactions of a graph that [verify_ark_graph]
    accepts can be published one after the other from the observed outputs,
    each spending under the consensus rules, exactly when none of them creates
    value, and the selected output is then unspent.  [ark_graph_shape]: the
    verification always returns, and what it accepts is acyclic, connected, of
    the reported depth and of the shape of its family.
    [ark_identifiers_exact]: outpoints and assets are read as they are written.
    [seconds_exit_refused]: the refund of an accepted output with an exit in
    seconds is refused by the validator of refunds though the network accepts
    it.  The verification does not add up the amounts of a graph:
    [ark_graph_creates_value] is an accepted graph whose selected output holds
    more than the outputs it is made from. *)

From S2P Require Import Prelude Text Utf8 Hex Event Filter Json Wire Transaction Script Taproot Tapscript Scalar Musig2 Musig2Correct Wallet WalletCorrect Ark ArkGraph.

(** ** The two loops *)

Definition outpoint_of (i : TransactionInput) : ArkOutpoint := outpoint_from_input (previous_txid i) (previous_output i).
Definition outpoints (tx : Transaction) : list ArkOutpoint := outpoint_of <$> tx_inputs tx.

Section loops.
Context `{EventCrypto, TweakAdd, Secp256k1, JsonText}.

(** What the first loop leaves. *)
Record decoded_ok (texts : list string) (g : DecodedGraph) : Prop := mkDecodedOk {
  do_parsed : Forall2 (fun text tx => exists raw, decode_hex text = Ok raw /\ transaction_parse raw = Ok tx) texts (dg_transactions g);
  do_ids : Forall2 (fun tx id => txid tx = Ok id) (dg_transactions g) (dg_transaction_ids g);
  do_by_id id i : dg_transaction_by_id g !! id = Some i <-> dg_transaction_ids g !! i = Some id;
}.

Lemma decode_transaction_ok policy texts g text g' :
  decoded_ok texts g -> decode_transaction policy g text = Ok g' -> decoded_ok (texts ++ [text]) g'.
Proof.
  intros [Hp Hi Hb] Hd. unfold decode_transaction in Hd. apply bind_Ok in Hd as (raw & Hraw%map_err_Ok & Hd).
  apply bind_Ok in Hd as (n & _ & Hd). apply bind_Ok in Hd as (tx & Htx%map_err_Ok & Hd). apply bind_Ok in Hd as (w & _ & Hd).
  destruct (_ <? _); [done|]. apply bind_Ok in Hd as (id & Hid%map_err_Ok & Hd).
  destruct (dg_transaction_by_id g !! id) eqn:Hnew; [done|]. apply Ok_inj in Hd as <-.
  pose proof (Forall2_length _ _ _ Hi) as Hlen. split; cbn.
  - apply Forall2_app; [done|]. constructor; [|constructor]. by exists raw.
  - apply Forall2_app; [done|]. constructor; [done|constructor].
  - intros id' i. destruct (decide (id = id')) as [<-|Hne].
    + rewrite lookup_insert_eq. split.
      * intros [= <-]. rewrite Hlen. apply list_lookup_middle. done.
      * intros [Hl|[Hi' _]]%lookup_snoc_Some; [destruct Hl as [_ Hl]; apply Hb in Hl; congruence|]. f_equal. lia.
    + rewrite lookup_insert_ne, Hb, lookup_snoc_Some by done. split.
      * intros Hl. left. split; [by eapply lookup_lt_Some|done].
      * intros [[_ ?]|[_ ?]]; [done|congruence].
Qed.

Lemma decode_transactions_ok policy texts g :
  try_fold (decode_transaction policy) (mkDecoded 0 [] [] ∅) texts = Ok g -> decoded_ok texts g.
Proof.
  assert (forall later before g0, decoded_ok before g0 -> try_fold (decode_transaction policy) g0 later = Ok g -> decoded_ok (before ++ later) g) as Hgen.
  { induction later as [|text later IH]; intros before g0 Hg0 Hf; cbn [try_fold] in Hf.
    - apply Ok_inj in Hf as <-. by rewrite app_nil_r.
    - apply bind_Ok in Hf as (g1 & Hg1 & Hf). rewrite (cons_middle text before later), app_assoc. eapply IH; [|done]. by eapply decode_transaction_ok. }
  intros Hf. apply (Hgen texts [] (mkDecoded 0 [] [] ∅)); [|done]. split; [constructor..|]. intros id i. cbn. by rewrite lookup_empty, lookup_nil.
Qed.

(** What the second loop leaves after the spends [edges]: pairs of the index of
    a transaction and an outpoint it spends. *)
Section linking.
Context (g : DecodedGraph) (observed : gmap ArkOutpoint TransactionOutput).

Definition parent_of (o : ArkOutpoint) : option nat := dg_transaction_by_id g !! ao_transaction_id o.

(** The output an outpoint names. *)
Definition prevout_of (o : ArkOutpoint) : option TransactionOutput :=
  match parent_of o with
  | Some p => parent ← dg_transactions g !! p; tx_outputs parent !! Z.to_nat (ao_output_index o)
  | None => observed !! o
  end.

Record linked_ok (edges : list (nat * ArkOutpoint)) (l : LinkedGraph) : Prop := mkLinkedOk {
  lo_spent o : o ∈ lg_spent l <-> o ∈ edges.*2;
  lo_once : NoDup edges.*2;
  lo_roots o : o ∈ lg_spent_roots l <-> o ∈ edges.*2 /\ parent_of o = None;
  lo_lengths : length (lg_dependencies l) = length (dg_transactions g) /\ length (lg_children l) = length (dg_transactions g);
  lo_dependencies i p : depends (lg_dependencies l) i p <-> exists o, (i, o) ∈ edges /\ parent_of o = Some p;
  lo_children i p : depends (lg_children l) p i <-> exists o, (i, o) ∈ edges /\ parent_of o = Some p;
}.

Lemma depends_alter (x : nat) k (deps : list (gset nat)) i p :
  (k < length deps)%nat ->
  depends (alter (fun s => {[x]} ∪ s) k deps) i p <-> depends deps i p \/ (i = k /\ p = x).
Proof.
  intros Hk. unfold depends. destruct (decide (i = k)) as [->|Hne].
  - rewrite list_lookup_alter_eq. destruct (lookup_lt_is_Some_2 deps k Hk) as [s Hs]. rewrite Hs. cbn. split.
    + intros (s' & [= <-] & Hp). destruct (decide (p = x)); [by right|]. left. exists s. split; [done|]. set_solver.
    + intros [(s' & [= <-] & Hp)|[_ ->]]; eexists; (split; [done|]); set_solver.
  - rewrite list_lookup_alter_ne by done. split; [by left|]. intros [?|[? _]]; done.
Qed.

Lemma link_input_ok edges i l prevouts input l' prevouts' :
  (i < length (dg_transactions g))%nat -> linked_ok edges l ->
  link_input g observed i (l, prevouts) input = Ok (l', prevouts') ->
  linked_ok (edges ++ [(i, outpoint_of input)]) l' /\ exists out, prevouts' = prevouts ++ [out] /\ prevout_of (outpoint_of input) = Some out.
Proof.
  intros Hi [Hs Hn Hr [Hl1 Hl2] Hd Hc] Hrun. unfold link_input in Hrun. fold (outpoint_of input) in Hrun. cbv zeta in Hrun.
  set (o := outpoint_of input) in *. case_decide as Hnew; [done|].
  assert (NoDup (edges ++ [(i, o)]).*2) as Hn'.
  { rewrite fmap_app. cbn. apply NoDup_app. split; [done|]. split; [|apply NoDup_singleton].
    intros x Hx Hxo%list_elem_of_singleton. subst x. by apply Hnew, Hs. }
  assert (forall x, x ∈ {[o]} ∪ lg_spent l <-> x ∈ (edges ++ [(i, o)]).*2) as Hs'.
  { intros x. rewrite fmap_app, elem_of_app, elem_of_union, Hs. cbn. rewrite list_elem_of_singleton, elem_of_singleton. tauto. }
  assert (forall j q, (exists x, (j, x) ∈ edges ++ [(i, o)] /\ parent_of x = Some q)
            <-> (exists x, (j, x) ∈ edges /\ parent_of x = Some q) \/ (j = i /\ parent_of o = Some q)) as He.
  { intros j q. split.
    - intros (x & [Hx|[= -> ->]%list_elem_of_singleton]%elem_of_app & Hp); [left; by exists x|by right].
    - intros [(x & Hx & Hp)|[-> Hp]]; eexists; (split; [|done]); apply elem_of_app; [by left|right; by apply list_elem_of_singleton]. }
  unfold prevout_of. fold (parent_of o) in Hrun. destruct (parent_of o) as [p|] eqn:Hpar.
  - apply bind_Ok in Hrun as (parent & Hparent%ok_or_Ok & Hrun). apply bind_Ok in Hrun as (out & Hout%ok_or_Ok & [= <- <-]%Ok_inj).
    assert (p < length (dg_transactions g))%nat as Hp by (by eapply lookup_lt_Some).
    split; [|exists out; by rewrite Hparent]. split; cbn; [done|done| |by rewrite !length_alter|..].
    + intros x. rewrite Hr, fmap_app, elem_of_app. cbn. rewrite list_elem_of_singleton. split; [tauto|].
      intros [[?| ->] Hx]; [done|congruence].
    + intros j q. rewrite depends_alter, Hd, He by lia. naive_solver.
    + intros j q. rewrite depends_alter, Hc, He by lia. naive_solver.
  - apply bind_Ok in Hrun as (out & Hout%ok_or_Ok & [= <- <-]%Ok_inj). split; [|by exists out].
    split; cbn; [done|done| |done|..].
    + intros x. rewrite elem_of_union, elem_of_singleton, Hr, fmap_app, elem_of_app. cbn. rewrite list_elem_of_singleton.
      destruct (decide (x = o)) as [->|]; tauto.
    + intros j q. rewrite Hd, He. naive_solver.
    + intros j q. rewrite Hc, He. naive_solver.
Qed.

Lemma link_inputs_ok i inputs edges l prevouts l' prevouts' :
  (i < length (dg_transactions g))%nat -> linked_ok edges l ->
  try_fold (link_input g observed i) (l, prevouts) inputs = Ok (l', prevouts') ->
  linked_ok (edges ++ (pair i <$> (outpoint_of <$> inputs))) l'
  /\ exists outs, prevouts' = prevouts ++ outs /\ Forall2 (fun o out => prevout_of o = Some out) (outpoint_of <$> inputs) outs.
Proof.
  intros Hi. revert edges l prevouts. induction inputs as [|input inputs IH]; intros edges l prevouts Hl Hf; cbn [try_fold] in Hf.
  { injection Hf as <- <-. cbn. rewrite app_nil_r. split; [done|]. exists []. rewrite app_nil_r. by split; [|constructor]. }
  apply bind_Ok in Hf as ([l1 prevouts1] & H1' & Hf). apply (link_input_ok edges) in H1' as [Hl1 (out & -> & Hout)]; [|done..].
  apply (IH _ _ _ Hl1) in Hf as [Hl' (outs & -> & Houts)]. rewrite <- app_assoc in *. rewrite !fmap_cons. split; [done|].
  exists (out :: outs). split; [done|]. by constructor.
Qed.

(** Every input of a transaction is signed for the outputs it names. *)
Definition signed_spends (tx : Transaction) : Prop :=
  exists prevouts, Forall2 (fun o out => prevout_of o = Some out) (outpoints tx) prevouts
    /\ verify_transaction_signatures tx prevouts = Ok tt.

Definition edges_of (indexed : list (nat * Transaction)) : list (nat * ArkOutpoint) :=
  indexed ≫= fun p => pair p.1 <$> outpoints p.2.

Lemma link_transactions_ok indexed edges l l' :
  Forall (fun p => (p.1 < length (dg_transactions g))%nat) indexed -> linked_ok edges l ->
  try_fold (link_transaction g observed) l indexed = Ok l' ->
  linked_ok (edges ++ edges_of indexed) l' /\ Forall (fun p => signed_spends p.2) indexed.
Proof.
  intros Hall. revert edges l. induction Hall as [|[i tx] indexed Hi _ IH]; intros edges l Hl Hf; cbn [try_fold] in Hf.
  { apply Ok_inj in Hf as <-. by rewrite app_nil_r. }
  apply bind_Ok in Hf as (l1 & Hl1 & Hf). unfold link_transaction in Hl1. apply bind_Ok in Hl1 as ([l2 prevouts] & Hin & Hl1).
  apply bind_Ok in Hl1 as ([] & Hsig%map_err_Ok & <-%Ok_inj).
  apply (link_inputs_ok _ _ edges) in Hin as [Hl2 (outs & Hpv & Houts)]; [|done..]. cbn [app] in Hpv. subst prevouts.
  apply (IH _ _ Hl2) in Hf as [Hl' Hs]. rewrite <- app_assoc in Hl'. split; [done|]. constructor; [|done]. by exists outs.
Qed.

Lemma linked_empty : linked_ok [] (mkLinked ∅ ∅ (replicate (length (dg_transactions g)) ∅) (replicate (length (dg_transactions g)) ∅)).
Proof.
  assert (forall n i p, ~ depends (replicate n ∅) i p) as Hno.
  { intros n i p (s & [-> _]%lookup_replicate & Hp). set_solver. }
  split; cbn; [set_solver|constructor|set_solver|by rewrite length_replicate|..];
    intros i p; (split; [by intros ?%Hno|intros (o & Ho & _); by apply elem_of_nil in Ho]).
Qed.
End linking.

Lemma observe_ok outputs observed :
  observed_output_map outputs = Ok observed ->
  forall o out, observed !! o = Some out <-> mkObserved o out ∈ outputs.
Proof.
  unfold observed_output_map.
  assert (forall later before m, (forall o out, m !! o = Some out <-> mkObserved o out ∈ before) ->
            try_fold observe_output m later = Ok observed -> forall o out, observed !! o = Some out <-> mkObserved o out ∈ before ++ later) as Hgen.
  { induction later as [|[o' out'] later IH]; intros before m Hm Hf; cbn [try_fold] in Hf.
    - apply Ok_inj in Hf as <-. intros o out. by rewrite app_nil_r.
    - apply bind_Ok in Hf as (m1 & Hm1 & Hf). unfold observe_output in Hm1. cbn in Hm1. destruct (m !! o') eqn:Ho; [done|].
      apply Ok_inj in Hm1 as <-. intros o out. rewrite (cons_middle (mkObserved o' out') before later), app_assoc. eapply IH; [|done].
      clear o out. intros o out. rewrite elem_of_app, list_elem_of_singleton, <- Hm. destruct (decide (o' = o)) as [<-|Hne].
      + rewrite lookup_insert_eq. split; [intros [= <-]; by right|]. intros [Hx|[= ->]]; [congruence|done].
      + rewrite lookup_insert_ne by done. split; [by left|]. intros [Hx|[= -> ->]]; done. }
  intros Hf. apply (Hgen outputs [] ∅); [|done]. intros o out. rewrite lookup_empty. split; [done|]. by intros ?%elem_of_nil.
Qed.

(** ** Publishing *)

(** An input spends its output under BIP-341: by a signature under the output's
    key, or by a leaf the key commits to that accepts the signature. *)
Definition consensus_spend (tx : Transaction) (prevouts : list TransactionOutput) (n : nat) : Prop :=
  exists input out, tx_inputs tx !! n = Some input /\ prevouts !! n = Some out
  /\ ((exists sig key sighash, witness input = [sig] /\ script_pubkey out = [0x51; 0x20] ++ key
         /\ taproot_key_spend_sighash tx prevouts n = Ok sighash /\ verify_schnorr sig sighash key = true)
      \/ (exists sig script cb q instrs sighash, witness input = [sig; script; cb] /\ script_pubkey out = [0x51; 0x20] ++ q
         /\ verify_control_block q script cb = Ok tt /\ parse_swap_script script = Ok instrs
         /\ taproot_script_spend_sighash tx prevouts n script cb = Ok sighash
         /\ accepts (context_of tx input (fun sig key => verify_schnorr sig sighash key)) instrs [sig] = true)).

Lemma p2tr_output_key_Ok script key : p2tr_output_key script = Ok key -> script = [0x51; 0x20] ++ key /\ length key = 32%nat.
Proof.
  unfold p2tr_output_key. intros Hp. apply bind_Ok in Hp as (k & Hk%ok_or_Ok & Hp). apply bind_Some in Hk as (k' & Hs & Hl).
  apply strip_prefix_bytes_Some in Hs. destruct (Nat.eqb_spec (length k') 32); [|done]. injection Hl as ->.
  destruct (xonly_public_key k); [|done]. by apply Ok_inj in Hp as <-.
Qed.

Lemma refund_witness_sighash tx prevouts n script cb v :
  validate_taproot_refund_witness tx prevouts n script cb = Ok v ->
  taproot_script_spend_sighash tx prevouts n script cb = Ok (vw_sighash v).
Proof.
  intros Hv. unfold validate_taproot_refund_witness in Hv. apply bind_Ok in Hv as (input & _ & Hv).
  destruct (witness input) as [|sig [|scr [|ctl [|]]]]; try done. apply bind_Ok in Hv as (sig' & _ & Hv).
  destruct (_ || _) eqn:Hp; [done|]. bool_to_prop. subst scr ctl. apply bind_Ok in Hv as (leaf & _ & Hv).
  apply bind_Ok in Hv as (u & _ & Hv). apply bind_Ok in Hv as (sighash & Hs & <-%Ok_inj). exact Hs.
Qed.

Lemma input_signature_spends tx prevouts n input :
  transaction_typed tx -> tx_inputs tx !! n = Some input -> is_Some (prevouts !! n) ->
  verify_input_signature tx prevouts (n, input) = Ok tt -> consensus_spend tx prevouts n.
Proof.
  intros (Hver & _ & _ & Hwit & _) Hin [out Hout] Hv. exists input, out. split; [done|]. split; [done|].
  unfold verify_input_signature in Hv. apply bind_Ok in Hv as ([[sig key] sighash] & Hcase & Hv).
  destruct (verify_schnorr sig sighash key) eqn:Hsig; [|done].
  destruct (witness input) as [|s1 [|s2 [|s3 [|]]]] eqn:Hw; try done; destruct (negb _); try done.
  - left. rewrite Hout in Hcase. apply bind_Ok in Hcase as (o & <-%Ok_inj & Hcase). apply bind_Ok in Hcase as (k & Hk & Hcase).
    apply bind_Ok in Hcase as (h & Hh%map_err_Ok & [= <- <- <-]%Ok_inj). apply p2tr_output_key_Ok in Hk as [Hk _]. by exists s1, k, h.
  - right. apply bind_Ok in Hcase as (v & Hval%map_err_Ok & [= <- <- <-]%Ok_inj). pose proof (refund_witness_sighash _ _ _ _ _ _ Hval) as Hsh.
    assert (Forall is_byte s2) as Hb.
    { rewrite Forall_lookup in Hwit. destruct (Hwit n input Hin) as [_ Hitems]. rewrite Hw in Hitems.
      apply Forall_cons in Hitems as [_ [[_ ?] _]%Forall_cons]. done. }
    apply refund_witness_spends in Hval as (input' & instrs & q & Hin' & Hw' & Hinstrs & Hq & Hcb & Hacc); [|done|lia].
    rewrite Hin in Hin'. injection Hin' as <-. rewrite Hw in Hw'. injection Hw' as Hs1. rewrite <- Hs1 in Hacc.
    exists s1, s2, s3, q, instrs, (vw_sighash v). unfold prevout_at in Hq. rewrite (nth_lookup_Some _ _ _ _ Hout) in Hq.
    split_and!; [done|done|done|done|done|]. by apply Hacc.
Qed.

Lemma signatures_spend tx prevouts :
  transaction_typed tx -> verify_transaction_signatures tx prevouts = Ok tt ->
  forall n, (n < length (tx_inputs tx))%nat -> consensus_spend tx prevouts n.
Proof.
  intros Hty Hv n Hn. unfold verify_transaction_signatures in Hv.
  destruct (Nat.eqb_spec (length (tx_inputs tx)) (length prevouts)) as [Hlen|]; [|done]. cbn [negb] in Hv.
  apply bind_Ok in Hv as (us & Hus & _). apply try_map_Ok_Forall2 in Hus. destruct (lookup_lt_is_Some_2 _ _ Hn) as [input Hin].
  eapply input_signature_spends; [done|done|apply lookup_lt_is_Some_2; lia|].
  destruct (Forall2_lookup_l _ _ _ n (n, input) Hus) as ([] & _ & Hok); [by rewrite list_lookup_imap, Hin|done].
Qed.

(** The unspent outputs, and publishing a transaction once its time locks have
    passed: its inputs are unspent and distinct, each spends under the rules
    above, and its outputs hold no more than what it spends. *)
Definition outputs_of (id : list Z) (tx : Transaction) : gmap ArkOutpoint TransactionOutput :=
  list_to_map (imap (fun n out => (mkOutpoint id (Z.of_nat n), out)) (tx_outputs tx)).
Definition total (outs : list TransactionOutput) : Z := foldr (fun out sum => value_sat out + sum) 0 outs.

Inductive publishes : gmap ArkOutpoint TransactionOutput -> list Transaction -> gmap ArkOutpoint TransactionOutput -> Prop :=
| publish_nil utxos : publishes utxos [] utxos
| publish_snoc utxos txs before tx prevouts id :
    publishes utxos txs before ->
    NoDup (outpoints tx) -> Forall2 (fun o out => before !! o = Some out) (outpoints tx) prevouts ->
    total (tx_outputs tx) <= total prevouts ->
    (forall n, (n < length (tx_inputs tx))%nat -> consensus_spend tx prevouts n) -> txid tx = Ok id ->
    publishes utxos (txs ++ [tx]) (outputs_of id tx ∪ foldr delete before (outpoints tx)).

(** The output an outpoint names: of one of the transactions, or observed. *)
Definition has_id (id : list Z) (tx : Transaction) : bool :=
  match txid tx with Ok id' => bool_decide (id' = id) | Err _ => false end.
Definition source (txs : list Transaction) (observed : gmap ArkOutpoint TransactionOutput) (o : ArkOutpoint)
    : option TransactionOutput :=
  match List.find (has_id (ao_transaction_id o)) txs with
  | Some tx => tx_outputs tx !! Z.to_nat (ao_output_index o)
  | None => observed !! o
  end.

(** The transaction pays no more than the outputs it names hold. *)
Definition conserves (txs : list Transaction) (observed : gmap ArkOutpoint TransactionOutput) (tx : Transaction) : Prop :=
  exists prevouts, Forall2 (fun o out => source txs observed o = Some out) (outpoints tx) prevouts
    /\ total (tx_outputs tx) <= total prevouts.
#[export] Instance conserves_dec txs observed tx : Decision (conserves txs observed tx).
Proof.
  refine (cast_if (decide (match mapM (source txs observed) (outpoints tx) with
                           | Some prevouts => total (tx_outputs tx) <=? total prevouts
                           | None => false end = true))); unfold conserves; setoid_rewrite <- mapM_Some;
    destruct (mapM _ _) as [prevouts|]; naive_solver lia.
Defined.

Lemma has_id_true id tx : has_id id tx = true <-> txid tx = Ok id.
Proof. unfold has_id. destruct (txid tx); [rewrite bool_decide_eq_true|]; naive_solver. Qed.

Lemma outputs_of_Some id tx o out :
  outputs_of id tx !! o = Some out -> ao_transaction_id o = id /\ tx_outputs tx !! Z.to_nat (ao_output_index o) = Some out.
Proof.
  intros (n & x & [= -> ->] & Hx)%elem_of_list_to_map_2%elem_of_lookup_imap. cbn. by rewrite Nat2Z.id.
Qed.

Lemma outputs_from_lookup id outs k z :
  0 <= z ->
  (list_to_map (imap (fun n out => (mkOutpoint id (Z.of_nat (k + n)), out)) outs) : gmap ArkOutpoint TransactionOutput) !! mkOutpoint id z
  = if decide (z < Z.of_nat k) then None else outs !! (Z.to_nat z - k)%nat.
Proof.
  intros Hz. revert k. induction outs as [|out outs IH]; intros k; cbn [imap list_to_map foldr].
  { cbn. rewrite lookup_empty. by destruct (decide _). }
  cbn [fst snd]. rewrite Nat.add_0_r.
  rewrite (imap_ext _ (fun n out => (mkOutpoint id (Z.of_nat (S k + n)), out))) by (intros; cbn; do 2 f_equal; lia).
  destruct (decide (z = Z.of_nat k)) as [->|Hne].
  - rewrite lookup_insert_eq, decide_False by lia. by rewrite Nat2Z.id, Nat.sub_diag.
  - rewrite lookup_insert_ne by congruence. rewrite IH. repeat case_decide; try lia; [done|].
    replace (Z.to_nat z - k)%nat with (S (Z.to_nat z - S k)) by lia. done.
Qed.

Lemma outputs_of_lookup id tx o :
  0 <= ao_output_index o ->
  outputs_of id tx !! o = if decide (ao_transaction_id o = id) then tx_outputs tx !! Z.to_nat (ao_output_index o) else None.
Proof.
  intros Ho. unfold outputs_of. destruct o as [id' z]. cbn in *. destruct (decide (id' = id)) as [->|Hid].
  - pose proof (outputs_from_lookup id (tx_outputs tx) 0 z Ho) as Hl. cbn [Nat.add] in Hl.
    rewrite Hl, decide_False by lia. by rewrite Nat.sub_0_r.
  - apply not_elem_of_list_to_map. rewrite list_elem_of_fmap. intros ([o out] & Heq & (n & x & Hx & _)%elem_of_lookup_imap). cbn in *. congruence.
Qed.

(** Deleting what is spent keeps the rest. *)
Lemma foldr_delete_keep (m : gmap ArkOutpoint TransactionOutput) l o : o ∉ l -> foldr delete m l !! o = m !! o.
Proof.
  induction l as [|x l IH]; [done|]. intros Hx. cbn. rewrite lookup_delete_ne by (intros ->; apply Hx; left).
  apply IH. intros Hin. apply Hx. by right.
Qed.

Lemma foldr_delete_sub (m : gmap ArkOutpoint TransactionOutput) l o out :
  foldr delete m l !! o = Some out -> m !! o = Some out.
Proof.
  induction l as [|x l IH]; [done|]. cbn. intros [_ Ho]%lookup_delete_Some. by apply IH.
Qed.

(** ** The exit *)

Lemma sublist_bind {A B} (f : A -> list B) (l : list A) x : x ∈ l -> f x `sublist_of` (l ≫= f).
Proof.
  induction l as [|y l IH]; intros Hx; [by apply elem_of_nil in Hx|]. cbn. apply elem_of_cons in Hx as [<-|Hx].
  - apply sublist_inserts_r. done.
  - apply sublist_inserts_l. by apply IH.
Qed.

Lemma elem_of_edges txs i o : (i, o) ∈ edges_of (imap pair txs) <-> exists tx, txs !! i = Some tx /\ o ∈ outpoints tx.
Proof.
  unfold edges_of. rewrite list_elem_of_bind. split.
  - intros ([j tx] & Hin & (n & x & [= <- <-] & Hx)%elem_of_lookup_imap). apply list_elem_of_fmap in Hin as (o' & [= -> ->] & Ho'). by exists tx.
  - intros (tx & Htx & Ho). exists (i, tx). split; [apply list_elem_of_fmap; by exists o|]. apply elem_of_lookup_imap. by exists i, tx.
Qed.

Lemma edges_once txs i j o :
  NoDup (edges_of (imap pair txs)).*2 -> (i, o) ∈ edges_of (imap pair txs) -> (j, o) ∈ edges_of (imap pair txs) -> i = j.
Proof.
  intros Hn [a Ha]%list_elem_of_lookup [b Hb]%list_elem_of_lookup.
  assert (a = b) as ->; [|congruence]. eapply NoDup_lookup; [exact Hn|rewrite list_lookup_fmap, Ha; reflexivity|by rewrite list_lookup_fmap, Hb].
Qed.

Section exit.
Context (texts : list string) (g : DecodedGraph) (observed : gmap ArkOutpoint TransactionOutput) (l : LinkedGraph).
Context (Hdec : decoded_ok texts g) (Hlink : linked_ok g (edges_of (imap pair (dg_transactions g))) l).
Context (Hroots : dom observed = lg_spent_roots l).
Context (Htyped : Forall transaction_typed (dg_transactions g)) (Hsigned : Forall (signed_spends g observed) (dg_transactions g)).
Notation txs := (dg_transactions g).

Lemma parent_id o i id : parent_of g o = Some i -> dg_transaction_ids g !! i = Some id -> ao_transaction_id o = id.
Proof. unfold parent_of. rewrite (do_by_id _ _ Hdec). congruence. Qed.

Lemma tx_id i tx : txs !! i = Some tx -> exists id, txid tx = Ok id /\ dg_transaction_ids g !! i = Some id.
Proof. intros Htx. destruct (Forall2_lookup_l _ _ _ _ _ (do_ids _ _ Hdec) Htx) as (id & Hid & Ht). by exists id. Qed.

Lemma outpoints_NoDup i tx : txs !! i = Some tx -> NoDup (outpoints tx).
Proof.
  intros Htx. pose proof (lo_once _ _ _ Hlink) as Hn. eapply sublist_NoDup; [exact Hn|].
  replace (outpoints tx) with ((pair i <$> outpoints tx).*2) by (rewrite <- list_fmap_compose; apply list_fmap_id).
  apply fmap_sublist. apply (sublist_bind (fun p : nat * Transaction => pair p.1 <$> outpoints p.2) _ (i, tx)).
  apply elem_of_lookup_imap. by exists i, tx.
Qed.

Lemma outpoint_index i tx o : txs !! i = Some tx -> o ∈ outpoints tx -> 0 <= ao_output_index o.
Proof.
  intros Htx Ho. rewrite Forall_lookup in Htyped. destruct (Htyped i tx Htx) as (_ & (_ & Hin) & _).
  apply list_elem_of_fmap in Ho as (input & -> & Hi). rewrite Forall_forall in Hin. apply Hin in Hi as (_ & [? _] & _). done.
Qed.

Lemma tx_index tx id : tx ∈ txs -> txid tx = Ok id -> exists i, txs !! i = Some tx /\ dg_transaction_by_id g !! id = Some i.
Proof.
  intros [i Hi]%list_elem_of_lookup Hid. exists i. split; [done|]. destruct (tx_id i tx Hi) as (id' & Hid' & Hl).
  apply (do_by_id _ _ Hdec). congruence.
Qed.

Lemma prevout_source o : prevout_of g observed o = source txs observed o.
Proof.
  unfold prevout_of, parent_of, source. destruct (List.find _ txs) as [tx|] eqn:Hf.
  - apply List.find_some in Hf as [Hin%list_elem_of_In Hid%has_id_true].
    destruct (tx_index tx _ Hin Hid) as (i & Hi & ->). by rewrite Hi.
  - destruct (dg_transaction_by_id g !! _) as [i|] eqn:Hi; [exfalso|done]. apply (do_by_id _ _ Hdec) in Hi.
    destruct (Forall2_lookup_r _ _ _ _ _ (do_ids _ _ Hdec) Hi) as (tx & Htx & Hid).
    apply not_true_iff_false with (b := has_id (ao_transaction_id o) tx); [|by apply has_id_true].
    apply (List.find_none _ _ Hf). apply list_elem_of_In. by eapply list_elem_of_lookup_2.
Qed.

Lemma source_unique os prevouts prevouts' :
  Forall2 (fun o out => prevout_of g observed o = Some out) os prevouts ->
  Forall2 (fun o out => source txs observed o = Some out) os prevouts' -> prevouts = prevouts'.
Proof.
  intros Hp. revert prevouts'. induction Hp as [|o out os outs Ho _ IH]; intros l' Hl'; inversion Hl'; subst; [done|].
  f_equal; [|by apply IH]. rewrite prevout_source in Ho. congruence.
Qed.

(** Whatever the order in which transactions of the graph are published: the
    unspent outputs are the ones the graph names, what a published transaction
    pays and none of them spends is among them, and none creates value. *)
Lemma publishes_sound utxos done before :
  publishes utxos done before -> utxos = observed -> (forall tx, tx ∈ done -> tx ∈ txs) ->
  (forall o out, before !! o = Some out -> prevout_of g observed o = Some out)
  /\ (forall o i tx out, parent_of g o = Some i -> txs !! i = Some tx -> tx ∈ done -> 0 <= ao_output_index o ->
        tx_outputs tx !! Z.to_nat (ao_output_index o) = Some out -> (forall tx', tx' ∈ done -> o ∉ outpoints tx') ->
        before !! o = Some out)
  /\ Forall (conserves txs observed) done.
Proof.
  induction 1 as [|utxos done before tx prevouts id Hpub IH Hnd Hspent Hvalue Hcons Hid]; intros -> Hsub.
  { split; [|split; [intros o i tx out _ _ Hin; by apply elem_of_nil in Hin|constructor]].
    intros o out Ho. unfold prevout_of. assert (o ∈ lg_spent_roots l) as [_ ->]%(lo_roots _ _ _ Hlink); [|done].
    rewrite <- Hroots. by eapply elem_of_dom_2. }
  destruct (IH eq_refl) as (HA & HB & HC); [intros x Hx; apply Hsub, elem_of_app; by left|]. clear IH.
  assert (tx ∈ txs) as Htx by (apply Hsub, elem_of_app; right; by apply list_elem_of_singleton).
  destruct (tx_index tx id Htx Hid) as (i & Hi & Hby).
  assert (Hnew : forall o out, outputs_of id tx !! o = Some out -> prevout_of g observed o = Some out).
  { intros o out [Ho Hout]%outputs_of_Some. unfold prevout_of, parent_of. by rewrite Ho, Hby, Hi. }
  split; [|split].
  - intros o out [Ho|[_ Ho]]%lookup_union_Some_raw; [by apply Hnew|]. by eapply HA, foldr_delete_sub.
  - intros o j x out Hp Hj Hx H0' Hout Hun.
    assert (Hprev : prevout_of g observed o = Some out) by (unfold prevout_of; by rewrite Hp, Hj).
    destruct (outputs_of id tx !! o) as [out'|] eqn:Ho; [apply lookup_union_Some_l; rewrite Ho; apply Hnew in Ho; congruence|].
    rewrite lookup_union_r by done. apply elem_of_app in Hx as [Hx| ->%list_elem_of_singleton].
    + rewrite foldr_delete_keep by (apply Hun, elem_of_app; right; by apply list_elem_of_singleton).
      eapply HB; [done|done|done|done|done|]. intros tx' Htx'. apply Hun, elem_of_app. by left.
    + rewrite outputs_of_lookup in Ho by done. rewrite decide_True, Hout in Ho; [done|].
      destruct (tx_id j tx Hj) as (id' & Hid' & Hl). rewrite Hid in Hid'. injection Hid' as <-. by eapply parent_id.
  - apply Forall_app. split; [done|]. apply Forall_singleton. exists prevouts. split; [|done].
    eapply Forall2_impl; [exact Hspent|]. intros o out Ho. rewrite <- prevout_source. by apply HA.
Qed.

(** An outpoint whose transaction is published, or that is observed, and that
    none of the published transactions spends. *)
Definition reached (order : list nat) (o : ArkOutpoint) : Prop :=
  match parent_of g o with Some p => p ∈ order | None => True end
  /\ forall i tx, i ∈ order -> txs !! i = Some tx -> o ∉ outpoints tx.

Lemma publish_order order :
  Forall (conserves txs observed) txs -> topo (lg_dependencies l) order ->
  exists final, publishes observed (omap (fun i => txs !! i) order) final
    /\ forall o out, 0 <= ao_output_index o -> reached order o -> prevout_of g observed o = Some out -> final !! o = Some out.
Proof.
  intros Hconserve. induction 1 as [|order i s Ht (before & Hpub & Hbefore) Hi Hni Hs].
  { exists observed. split; [constructor|]. intros o out _ [Hp _] Hprev. unfold prevout_of in Hprev.
    destruct (parent_of g o); [by apply elem_of_nil in Hp|done]. }
  assert (i < length txs)%nat as Hlt by (rewrite <- (proj1 (lo_lengths _ _ _ Hlink)); by eapply lookup_lt_Some).
  destruct (lookup_lt_is_Some_2 _ _ Hlt) as [tx Htx]. destruct (tx_id i tx Htx) as (id & Htxid & Hid).
  pose proof (proj1 (Forall_lookup _ _) Hsigned i tx Htx) as (prevouts & Hprev & Hsig).
  assert (Forall2 (fun o out => before !! o = Some out) (outpoints tx) prevouts) as Hspend.
  { rewrite Forall2_same_length_lookup in Hprev |- *. destruct Hprev as [Hlen Hprev]. split; [done|]. intros n o out Ho Hout.
    assert (o ∈ outpoints tx) as Hin by (by eapply list_elem_of_lookup_2). apply Hbefore; [by eapply outpoint_index| |by eapply Hprev]. split.
    - destruct (parent_of g o) as [p|] eqn:Hp; [|done]. apply Hs.
      assert (depends (lg_dependencies l) i p) as (s' & Hs' & ?).
      { apply (lo_dependencies _ _ _ Hlink). exists o. split; [|done]. apply elem_of_edges. by exists tx. }
      rewrite Hi in Hs'. by injection Hs' as <-.
    - intros j tx' Hj Htx' Ho'. assert (i = j) as <-; [|done].
      eapply edges_once; [apply (lo_once _ _ _ Hlink)|apply elem_of_edges; by exists tx|apply elem_of_edges; by exists tx']. }
  exists (outputs_of id tx ∪ foldr delete before (outpoints tx)).
  rewrite omap_app. cbn [omap list_omap]. rewrite Htx. split.
  { eapply publish_snoc; [done|by eapply outpoints_NoDup|done| | |done].
    - destruct (proj1 (Forall_lookup _ _) Hconserve i tx Htx) as (prevouts' & Hsrc & Hle).
      by rewrite (source_unique _ _ _ Hprev Hsrc).
    - apply signatures_spend; [|done]. by apply (proj1 (Forall_lookup _ _) Htyped i tx). }
  intros o out Ho [Hpar Hun] Hout.
  assert (o ∉ outpoints tx) as Hno by (apply (Hun i tx); [apply elem_of_app; right; by apply list_elem_of_singleton|done]).
  destruct (decide (parent_of g o = Some i)) as [Hp|Hp].
  - apply lookup_union_Some_l. rewrite outputs_of_lookup, decide_True by (done || by eapply parent_id).
    unfold prevout_of in Hout. rewrite Hp, Htx in Hout. exact Hout.
  - rewrite lookup_union_r.
    + rewrite foldr_delete_keep by done. apply Hbefore; [done| |done]. split.
      * destruct (parent_of g o) as [p|]; [|done]. apply elem_of_app in Hpar as [?|?%list_elem_of_singleton]; [done|congruence].
      * intros j tx' Hj. apply Hun. apply elem_of_app. by left.
    + rewrite outputs_of_lookup by done. rewrite decide_False; [done|]. intros Heq. apply Hp. unfold parent_of. rewrite Heq. by apply (do_by_id _ _ Hdec).
Qed.

Lemma links_in_range :
  edges_in_range (lg_dependencies l) /\ edges_in_range (lg_children l).
Proof.
  destruct (lo_lengths _ _ _ Hlink) as [Hl1 Hl2].
  assert (forall o p, parent_of g o = Some p -> (p < length txs)%nat) as Hpar.
  { intros o p Hp. apply (do_by_id _ _ Hdec) in Hp. apply lookup_lt_Some in Hp. by rewrite (Forall2_length _ _ _ (do_ids _ _ Hdec)). }
  split; intros i s p Hs Hp.
  - rewrite Hl1. assert (depends (lg_dependencies l) i p) as (o & _ & Ho)%(lo_dependencies _ _ _ Hlink) by (by exists s). by eapply Hpar.
  - rewrite Hl2. assert (depends (lg_children l) i p) as (o & (tx & Htx & _)%elem_of_edges & _)%(lo_children _ _ _ Hlink) by (by exists s).
    by eapply lookup_lt_Some.
Qed.
End exit.

Lemma decode_hex_bytes text raw : decode_hex text = Ok raw -> Forall is_byte raw.
Proof.
  unfold decode_hex. destruct (_ || _) eqn:Hc; [done|]. apply orb_false_iff in Hc as [He%negb_false_iff _]. intros Hd.
  apply Z.eqb_eq in He. unfold str_len in He.
  destruct (decode_pairs_Ok tt (length (as_bytes text) / 2) (as_bytes text) raw) as (_ & _ & Hb); [|apply as_bytes_range|done|done].
  apply Nat2Z.inj. rewrite Nat2Z.inj_mul, Nat2Z.inj_div. pose proof (Z.div_mod (Z.of_nat (length (as_bytes text))) 2 ltac:(lia)). lia.
Qed.

(** What holds when the walks begin. *)
Record built (m : ArkGraphMaterial) (terms : ArkVtxoTerms) (g : DecodedGraph) (observed : gmap ArkOutpoint TransactionOutput) (l : LinkedGraph)
  : Prop := mkBuilt {
  bt_decoded : decoded_ok (gm_signed_transactions m) g;
  bt_observed o out : observed !! o = Some out <-> mkObserved o out ∈ gm_observed_outputs m;
  bt_roots : dom observed = allowed_roots terms /\ lg_spent_roots l = allowed_roots terms;
  bt_linked : linked_ok g (edges_of (imap pair (dg_transactions g))) l;
  bt_typed : Forall transaction_typed (dg_transactions g);
  bt_signed : Forall (signed_spends g observed) (dg_transactions g);
  bt_few : (length (dg_transactions g) <= 64)%nat;
}.

Lemma build_graph_built d p m terms digest g l :
  build_graph d p m terms digest = Ok (g, l) -> exists observed, built m terms g observed l.
Proof.
  intros Hb. unfold build_graph in Hb. apply bind_Ok in Hb as (asset & _ & Hb). apply bind_Ok in Hb as ([] & _ & Hb).
  destruct (_ || _); [done|]. apply bind_Ok in Hb as ([] & Hbound & Hb). apply bind_Ok in Hb as (g' & Hg & Hb).
  destruct (_ || _); [done|]. apply bind_Ok in Hb as (dg & _ & Hb). destruct (negb _); [done|].
  apply bind_Ok in Hb as (observed & Hobs & Hb). case_bool_decide as Hdom; [|done]. cbn [negb] in Hb. cbv zeta in Hb.
  apply bind_Ok in Hb as (l' & Hl & Hb). case_bool_decide as Hroots; [|done]. apply Ok_inj in Hb as [= -> ->].
  exists observed. apply decode_transactions_ok in Hg.
  apply (link_transactions_ok g observed _ []) in Hl as [Hl Hs]; [|apply Forall_lookup; intros n [i tx]; rewrite list_lookup_imap, fmap_Some;
    intros (x & Hx & [= -> ->]); by eapply lookup_lt_Some|apply linked_empty].
  split; [done|by apply observe_ok|done|done| | |].
  - apply Forall_lookup. intros i tx Htx. destruct (Forall2_lookup_r _ _ _ _ _ (do_parsed _ _ Hg) Htx) as (text & _ & raw & Hraw & Hparse).
    by apply transaction_parse_Ok in Hparse as (Hty & _); [|by eapply decode_hex_bytes].
  - apply Forall_lookup. intros i tx Htx. apply (proj1 (Forall_lookup _ _) Hs i (i, tx)). by rewrite list_lookup_imap, Htx.
  - rewrite <- (Forall2_length _ _ _ (do_parsed _ _ Hg)). unfold verify_graph_bounds in Hbound. cbv zeta in Hbound.
    destruct (_ || _) eqn:Hc in Hbound; [done|]. rewrite !orb_false_iff in Hc. destruct Hc as [_ Hc%Z.ltb_ge].
    unfold MAX_ARK_GRAPH_TRANSACTIONS, len in Hc. lia.
Qed.

Lemma omap_lookup_seq {A} (l : list A) : omap (fun i => l !! i) (seq 0 (length l)) = l.
Proof.
  assert (forall pre, omap (fun i => (pre ++ l) !! i) (seq (length pre) (length l)) = l) as Hgen; [|apply (Hgen [])].
  induction l as [|x l IH]; intros pre; [done|]. cbn [length seq omap list_omap]. rewrite list_lookup_middle by done. f_equal.
  rewrite (cons_middle x pre l), app_assoc. replace (S (length pre)) with (length (pre ++ [x])) by (rewrite length_app; cbn; lia). apply IH.
Qed.

(** The selected output is the one the terms describe: its amount, its claim
    leaf for the owner and the payment hash, its refund leaf for the owner,
    both proved against its key, and its expiry ahead. *)
Definition vtxo_held (terms : ArkVtxoTerms) (view : ArkVerificationView) (out : TransactionOutput) : Prop :=
  value_sat out = vt_amount_sat terms
  /\ exists q owner refund, script_pubkey out = [0x51; 0x20] ++ q /\ length q = 32%nat /\ parse_public_key (vt_owner_pubkey terms) = Ok owner
    /\ parse_swap_leaf_script (vt_claim_script terms) = Ok (mkLeaf owner (Hashlock (vt_payment_hash terms)))
    /\ parse_swap_leaf_script (vt_refund_script terms) = Ok (mkLeaf owner refund)
    /\ refund = (if String.eqb (vt_unilateral_exit_domain terms) "blocks" then Csv (vt_unilateral_exit_delay terms) else Cltv (vt_expiry_value terms))
    /\ verify_control_block q (vt_claim_script terms) (vt_claim_control_block terms) = Ok tt
    /\ verify_control_block q (vt_refund_script terms) (vt_refund_control_block terms) = Ok tt
    /\ (if String.eqb (vt_expiry_domain terms) "block_height" then av_block_height view else av_unix_time view) < vt_expiry_value terms.

Lemma verify_vtxo_terms_held p terms view out : verify_vtxo_terms p terms view out = Ok tt -> vtxo_held terms view out.
Proof.
  intros Hv. unfold verify_vtxo_terms in Hv. apply bind_Ok in Hv as (minimum & _ & Hv). apply bind_Ok in Hv as (maximum & _ & Hv).
  destruct (_ || _) eqn:Ha; [done|]. apply orb_false_iff in Ha as [_ Ha%negb_false_iff%Z.eqb_eq]. destruct (_ || _) in Hv; [done|].
  apply bind_Ok in Hv as (owner & Howner & Hv). apply bind_Ok in Hv as ([ck cc] & Hclaim%map_err_Ok & Hv).
  apply bind_Ok in Hv as ([rk rc] & Hrefund%map_err_Ok & Hv). cbn [leaf_signing_key leaf_condition] in Hv.
  case_bool_decide as Hck; [|done]. case_bool_decide as Hrk; [|done]. subst ck rk. cbn [negb orb] in Hv.
  destruct cc as [h| |]; try done. case_bool_decide as Hh; [|done]. subst h. cbn [negb] in Hv. cbv zeta in Hv.
  destruct (_ || _) eqn:Hdelay in Hv; [done|]. rewrite !orb_false_iff, !negb_false_iff in Hdelay. destruct Hdelay as [[Hdelay _] _].
  apply bind_Ok in Hv as (delay & _ & Hv). destruct (negb _) in Hv; [done|]. apply bind_Ok in Hv as (delta & _ & Hv).
  apply bind_Ok in Hv as (current & Hcur & Hv). destruct (_ || _) eqn:Hexp in Hv; [done|]. apply orb_false_iff in Hexp as [Hexp%Z.leb_gt _].
  apply bind_Ok in Hv as (q & [Hq Hql]%p2tr_output_key_Ok & Hv). apply bind_Ok in Hv as ([] & Hcb%map_err_Ok & Hv).
  apply bind_Ok in Hv as ([] & Hrb%map_err_Ok & _). split; [done|]. exists q, owner, rc. split_and!; try done.
  - destruct rc as [|v|v]; [done|..]; apply andb_true_iff in Hdelay as [->%String.eqb_eq ->%Z.eqb_eq]; done.
  - destruct (String.eqb _ "block_height"); [by apply Ok_inj in Hcur as <-|]. destruct (String.eqb _ "unix_time"); [|done]. by apply Ok_inj in Hcur as <-.
Qed.

(** The walks of a built graph return, and what they decide. *)
Lemma walks_return m terms g observed l index :
  built m terms g observed l -> (index < length (dg_transactions g))%nat ->
  let deps := lg_dependencies l in
  (reject_graph_cycles deps = Some (Err (GraphInvalid "graph cycle")))
  \/ (exists order b d, reject_graph_cycles deps = Some (Ok tt) /\ ordered deps order
       /\ graph_is_connected index deps (lg_children l) = Some (Ok b)
       /\ (b = true <-> forall i, (i < length (dg_transactions g))%nat -> rtc (linked deps (lg_children l)) index i)
       /\ maximum_parent_depth index deps = Some (Ok d) /\ longest_chain deps index d).
Proof.
  intros Hb Hi deps. destruct (links_in_range _ _ _ (bt_decoded _ _ _ _ _ Hb) (bt_linked _ _ _ _ _ Hb)) as [Hr1 Hr2].
  destruct (lo_lengths _ _ _ (bt_linked _ _ _ _ _ Hb)) as [Hl1 Hl2]. pose proof (bt_few _ _ _ _ _ Hb) as Hfew.
  destruct (cycles_exact deps Hr1) as [(Hc & (order & Ho) & _)|(Hc & _)]; [right|by left].
  destruct (connected_exact deps (lg_children l) ltac:(subst deps; lia) Hr1 Hr2 index ltac:(subst deps; lia)) as (b & Hb1 & Hb2).
  destruct (depth_exact deps order index Ho) as (d & Hd1 & Hd2).
  - subst deps. rewrite Hl1. unfold U64_MAX. lia.
  - subst deps. lia.
  - exists order, b, d. split_and!; try done. rewrite Hb2. subst deps. by rewrite Hl1.
Qed.

(** What an accepted graph went through. *)
Record accepted (d : ArkOperatorDescriptor) (p : ArkOperatorPolicy) (m : ArkGraphMaterial) (terms : ArkVtxoTerms) (view : ArkVerificationView)
    (v : VerifiedArkGraph) (g : DecodedGraph) (observed : gmap ArkOutpoint TransactionOutput) (l : LinkedGraph) (order : list nat) (index : nat)
  : Prop := mkAccepted {
  ac_built : built m terms g observed l;
  ac_ordered : ordered (lg_dependencies l) order;
  ac_selected : parent_of g (vt_output_vtxo_id terms) = Some index /\ vt_output_vtxo_id terms ∉ lg_spent l
    /\ prevout_of g observed (vt_output_vtxo_id terms) = Some (vg_selected_output v);
  ac_family : verify_family_topology (ad_protocol_family d) (lg_dependencies l) (lg_children l) = Ok tt;
  ac_connected i : (i < length (dg_transactions g))%nat -> rtc (linked (lg_dependencies l) (lg_children l)) index i;
  ac_depth : longest_chain (lg_dependencies l) index (vg_parent_edges v) /\ vg_parent_edges v <= maximum_parent_edges p
    /\ vg_parent_edges v <= MAX_ARK_PARENT_EDGES;
  ac_terms : vtxo_held terms view (vg_selected_output v);
  ac_ids : vg_transaction_ids v = dg_transaction_ids g;
}.

Lemma verify_accepted d p m terms view digest v :
  verify_ark_graph d p m terms view digest = Some (Ok v) ->
  exists g observed l order index, accepted d p m terms view v g observed l order index.
Proof.
  unfold verify_ark_graph. destruct (build_graph d p m terms digest) as [[g l]|] eqn:Hbuild; [|done].
  apply build_graph_built in Hbuild as (observed & Hb). intros Hs. unfold select_output in Hs.
  destruct (reject_graph_cycles _) as [[[]|]|] eqn:Hcyc; try done.
  destruct (verify_family_topology _ _ _) as [[]|] eqn:Hfam; [|done].
  destruct (dg_transaction_by_id g !! _) as [index|] eqn:Hidx; [|done]. destruct (dg_transactions g !! index) as [tx|] eqn:Htx; [|done].
  destruct (walks_return _ _ _ _ _ index Hb) as [Hcyc'|(order & b & dep & _ & Hord & Hconn & Hb' & Hdep & Hlong)]; [by eapply lookup_lt_Some|congruence|].
  rewrite Hconn in Hs. destruct b; [|done]. case_decide as Hspent; [done|].
  destruct (tx_outputs tx !! _) as [out|] eqn:Hout; [|done]. rewrite Hdep in Hs.
  destruct (_ || _) eqn:Hbound; [done|]. rewrite !orb_false_iff, !Z.ltb_ge in Hbound. destruct Hbound as [[_ Hp1] Hp2].
  injection Hs as Hs. apply bind_Ok in Hs as ([] & Hterms%verify_vtxo_terms_held & <-%Ok_inj).
  exists g, observed, l, order, index. split; cbn; [done|done| |done|by apply Hb'|done|done|done].
  split; [done|]. split; [done|]. unfold prevout_of, parent_of. rewrite Hidx, Htx. exact Hout.
Qed.

(** C15: an accepted Ark graph is an exit that works unless it creates value.
    Its texts decode to transactions that can be published one after the
    other, each once its time locks have passed, starting from exactly the
    observed outputs, the inputs and the anchor the terms name, if and only if
    no transaction pays more than the outputs it names hold, which the
    verification does not check: each then spends outputs that are unspent,
    every input under the consensus rules for Taproot with signatures over
    that very transaction.  After any publication of all of them the selected
    output is unspent; it holds the amount, and commits to the claim leaf for
    the owner and the payment hash and to the refund leaf for the owner, with
    its expiry still ahead. *)
Theorem ark_graph_exit d p m terms view digest v :
  0 <= ao_output_index (vt_output_vtxo_id terms) ->
  verify_ark_graph d p m terms view digest = Some (Ok v) ->
  exists txs observed,
    Forall2 (fun text tx => exists raw, decode_hex text = Ok raw /\ transaction_parse raw = Ok tx) (gm_signed_transactions m) txs
    /\ (forall o out, observed !! o = Some out <-> mkObserved o out ∈ gm_observed_outputs m) /\ dom observed = allowed_roots terms
    /\ ((exists order final, order ≡ₚ txs /\ publishes observed order final) <-> Forall (conserves txs observed) txs)
    /\ (forall order final, order ≡ₚ txs -> publishes observed order final ->
          final !! vt_output_vtxo_id terms = Some (vg_selected_output v))
    /\ vtxo_held terms view (vg_selected_output v).
Proof.
  intros Hz Hv. apply verify_accepted in Hv as (g & observed & l & order & index & Ha).
  pose proof (ac_built _ _ _ _ _ _ _ _ _ _ _ Ha) as Hb. destruct (ac_ordered _ _ _ _ _ _ _ _ _ _ _ Ha) as [Htopo Hperm].
  destruct (ac_selected _ _ _ _ _ _ _ _ _ _ _ Ha) as (Hpar & Hunspent & Hprev). pose proof (bt_linked _ _ _ _ _ Hb) as Hlink.
  pose proof (bt_decoded _ _ _ _ _ Hb) as Hdec.
  assert (Hroots : dom observed = lg_spent_roots l) by (destruct (bt_roots _ _ _ _ _ Hb); congruence).
  assert (Hsound : forall order' final, order' ≡ₚ dg_transactions g -> publishes observed order' final -> _)
    by (intros order' final Ho Hpub; apply (publishes_sound _ _ _ _ Hdec Hlink Hroots observed order' final Hpub eq_refl);
        intros tx; by rewrite Ho).
  exists (dg_transactions g), observed. split; [apply (do_parsed _ _ Hdec)|].
  split; [apply (bt_observed _ _ _ _ _ Hb)|]. split; [apply (bt_roots _ _ _ _ _ Hb)|]. split; [split|split].
  - intros (order' & final & Ho & Hpub). destruct (Hsound order' final Ho Hpub) as (_ & _ & Hall).
    rewrite Forall_forall in *. intros tx Htx. apply Hall. by rewrite Ho.
  - intros Hall. destruct (publish_order _ _ _ _ Hdec Hlink (bt_typed _ _ _ _ _ Hb) (bt_signed _ _ _ _ _ Hb) order Hall Htopo)
      as (final & Hpub & _).
    exists (omap (fun i => dg_transactions g !! i) order), final. split; [|done].
    rewrite Hperm, (proj1 (lo_lengths _ _ _ Hlink)). by rewrite omap_lookup_seq.
  - intros order' final Ho Hpub. destruct (Hsound order' final Ho Hpub) as (_ & Hkept & _).
    unfold prevout_of in Hprev. rewrite Hpar in Hprev. apply bind_Some in Hprev as (tx & Htx & Hout).
    apply (Hkept _ index tx); [done|done|rewrite Ho; by eapply list_elem_of_lookup_2|done|done|].
    intros tx' Hin. rewrite Ho in Hin. apply list_elem_of_lookup in Hin as [j Hj]. intros Ho'.
    apply Hunspent, (lo_spent _ _ _ Hlink). apply list_elem_of_fmap. exists (j, vt_output_vtxo_id terms).
    split; [done|]. apply elem_of_edges. by exists tx'.
  - apply (ac_terms _ _ _ _ _ _ _ _ _ _ _ Ha).
Qed.

(** Transaction [i] of [txs] spends an output of the one with the [j]-th id. *)
Definition spends_from (txs : list Transaction) (ids : list (list Z)) (i j : nat) : Prop :=
  exists tx o, txs !! i = Some tx /\ o ∈ outpoints tx /\ ids !! j = Some (ao_transaction_id o).

Lemma built_spends m terms g observed l i j :
  built m terms g observed l ->
  (exists o, (i, o) ∈ edges_of (imap pair (dg_transactions g)) /\ parent_of g o = Some j)
  <-> spends_from (dg_transactions g) (dg_transaction_ids g) i j.
Proof.
  intros Hb. unfold parent_of. setoid_rewrite elem_of_edges. setoid_rewrite (do_by_id _ _ (bt_decoded _ _ _ _ _ Hb)).
  unfold spends_from. naive_solver.
Qed.

(** The walks end within their fuel. *)
Lemma verification_returns d p m terms view digest : exists res, verify_ark_graph d p m terms view digest = Some res.
Proof.
  unfold verify_ark_graph. destruct (build_graph d p m terms digest) as [[g l]|] eqn:Hbuild; [|by eexists].
  apply build_graph_built in Hbuild as (observed & Hb). unfold select_output.
  assert (exists res, reject_graph_cycles (lg_dependencies l) = Some res) as (res & Hres).
  { destruct (cycles_exact (lg_dependencies l)) as [(-> & _)|(-> & _)]; [|by eexists..].
    apply (links_in_range _ _ _ (bt_decoded _ _ _ _ _ Hb) (bt_linked _ _ _ _ _ Hb)). }
  rewrite Hres. destruct res as [[]|]; [|by eexists]. destruct (verify_family_topology _ _ _); [|by eexists].
  destruct (dg_transaction_by_id g !! _) as [index|]; [|by eexists]. destruct (dg_transactions g !! index) as [tx|] eqn:Htx; [|by eexists].
  destruct (walks_return _ _ _ _ _ index Hb) as [Hc|(order & b & dep & _ & _ & -> & _ & Hd & _)]; [by eapply lookup_lt_Some|congruence|].
  destruct b; [|by eexists]. case_decide; [by eexists|]. destruct (tx_outputs tx !! _); [|by eexists]. rewrite Hd.
  destruct (_ || _); by eexists.
Qed.

(** The topology of Bark: sets of at most one index. *)
Lemma at_most_one (ls : list (gset nat)) i j k :
  existsb (fun s => (1 <? size s)%nat) ls = false -> depends ls i j -> depends ls i k -> j = k.
Proof.
  intros Hls (s & Hs & Hj) (s' & Hs' & Hk). rewrite Hs in Hs'. injection Hs' as <-.
  destruct (decide (j = k)) as [|Hne]; [done|]. exfalso. apply not_true_iff_false in Hls. apply Hls, existsb_exists. exists s.
  split; [apply list_elem_of_In; by eapply list_elem_of_lookup_2|]. apply Nat.ltb_lt.
  assert (size ({[j; k]} : gset nat) <= size s)%nat as Hle by (apply subseteq_size; set_solver).
  rewrite size_union, !size_singleton in Hle by set_solver. lia.
Qed.

Lemma bark_topology deps children :
  verify_family_topology Bark deps children = Ok tt ->
  forall i j k, (depends deps i j -> depends deps i k -> j = k) /\ (depends children i j -> depends children i k -> j = k).
Proof.
  unfold verify_family_topology. rewrite bool_decide_eq_true_2 by done. cbn [andb]. destruct (_ || _) eqn:Hf; [done|].
  apply orb_false_iff in Hf as [Hf1 Hf2]. intros _ i j k. split; by apply at_most_one.
Qed.

(** C16: the verification of an Ark graph always returns, whatever the graph,
    and what it accepts has the shape of its family.  The dependencies are the
    spends between the decoded transactions: no transaction depends on itself,
    every transaction is linked to the selected one, the reported depth is the
    length of the longest chain that ends in it and within the limits, and a
    Bark graph is a chain in which no transaction spends from two or is spent
    from by two. *)
Theorem ark_graph_shape d p m terms view digest :
  (exists res, verify_ark_graph d p m terms view digest = Some res)
  /\ forall v, verify_ark_graph d p m terms view digest = Some (Ok v) ->
     exists txs deps children index,
       Forall2 (fun text tx => exists raw, decode_hex text = Ok raw /\ transaction_parse raw = Ok tx) (gm_signed_transactions m) txs
       /\ Forall2 (fun tx id => txid tx = Ok id) txs (vg_transaction_ids v)
       /\ vg_transaction_ids v !! index = Some (ao_transaction_id (vt_output_vtxo_id terms))
       /\ (forall i j, (depends deps i j <-> spends_from txs (vg_transaction_ids v) i j)
                       /\ (depends children j i <-> spends_from txs (vg_transaction_ids v) i j))
       /\ (forall i, ~ tc (depends deps) i i)
       /\ (forall i, (i < length txs)%nat -> rtc (linked deps children) index i)
       /\ longest_chain deps index (vg_parent_edges v) /\ vg_parent_edges v <= Z.min (maximum_parent_edges p) MAX_ARK_PARENT_EDGES
       /\ (ad_protocol_family d = Bark -> forall i j k, (depends deps i j -> depends deps i k -> j = k)
                                                        /\ (depends children i j -> depends children i k -> j = k)).
Proof.
  split; [apply verification_returns|]. intros v Hv. apply verify_accepted in Hv as (g & observed & l & order & index & Ha).
  pose proof (ac_built _ _ _ _ _ _ _ _ _ _ _ Ha) as Hb. pose proof (bt_linked _ _ _ _ _ Hb) as Hlink.
  destruct (lo_lengths _ _ _ Hlink) as [Hl1 _]. rewrite (ac_ids _ _ _ _ _ _ _ _ _ _ _ Ha).
  exists (dg_transactions g), (lg_dependencies l), (lg_children l), index.
  split; [apply (do_parsed _ _ (bt_decoded _ _ _ _ _ Hb))|]. split; [apply (do_ids _ _ (bt_decoded _ _ _ _ _ Hb))|].
  split; [apply (do_by_id _ _ (bt_decoded _ _ _ _ _ Hb)), (ac_selected _ _ _ _ _ _ _ _ _ _ _ Ha)|].
  split; [intros i j; by rewrite (lo_children _ _ _ Hlink), (lo_dependencies _ _ _ Hlink), (built_spends _ _ _ _ _ _ _ Hb)|]. split.
  { intros i Htc. destruct (ac_ordered _ _ _ _ _ _ _ _ _ _ _ Ha) as [Htopo Hperm]. eapply topo_acyclic; [exact Htopo| |exact Htc].
    rewrite Hperm. apply elem_of_seq. assert (exists j, depends (lg_dependencies l) i j) as (j & s & Hs%lookup_lt_Some & _) by (inversion Htc; eauto). lia. }
  split; [apply (ac_connected _ _ _ _ _ _ _ _ _ _ _ Ha)|]. destruct (ac_depth _ _ _ _ _ _ _ _ _ _ _ Ha) as (? & ? & ?).
  split; [done|]. split; [lia|]. intros Hbark. apply bark_topology. rewrite <- Hbark. apply (ac_family _ _ _ _ _ _ _ _ _ _ _ Ha).
Qed.
End loops.

(** ** Identifiers *)

Lemma lower_hex_nibble c : lower_hex_byte c = true <-> exists v, hex_nibble c = Some v.
Proof.
  unfold lower_hex_byte, is_ascii_digit, hex_nibble. destruct (_ && _); cbn [orb]; [split; [by eexists|done]|].
  destruct (_ && _); split; try done; [by eexists|by intros [v [=]]].
Qed.

Lemma encode_lower_hex_digits bs : Forall is_byte bs -> forallb lower_hex_byte (encode_hex_bytes bs) = true.
Proof.
  induction 1 as [|b bs Hb _ IH]; [done|]. cbn [encode_hex_bytes forallb].
  destruct (hex_nibble_digits b Hb) as (Hh & Hl & _). rewrite IH, (proj2 (lower_hex_nibble _)), (proj2 (lower_hex_nibble _)); [done|by eexists..].
Qed.

(** The hexadecimal reader is exact. *)
Lemma decode_hex_iff value bs : decode_hex value = Ok bs <-> value = encode_lower_hex bs /\ Forall is_byte bs.
Proof.
  split.
  - intros Hd. pose proof (decode_hex_bytes _ _ Hd) as Hb. split; [|done]. unfold decode_hex in Hd.
    destruct (_ || _) eqn:Hc; [done|]. apply orb_false_iff in Hc as [He%negb_false_iff%Z.eqb_eq _]. unfold str_len in He.
    destruct (decode_pairs_Ok tt (length (as_bytes value) / 2) (as_bytes value) bs) as (Henc & _ & _); [|apply as_bytes_range|done|].
    { apply Nat2Z.inj. rewrite Nat2Z.inj_mul, Nat2Z.inj_div. pose proof (Z.div_mod (Z.of_nat (length (as_bytes value))) 2 ltac:(lia)). lia. }
    unfold encode_lower_hex. by rewrite Henc, of_bytes_as_bytes.
  - intros [-> Hb]. unfold decode_hex, str_len. rewrite as_bytes_encode, encode_hex_bytes_length, encode_lower_hex_digits by done.
    rewrite Nat2Z.inj_mul, Z.mul_comm, Z.mod_mul by done. cbn [Z.eqb negb orb]. by apply decode_pairs_encode.
Qed.

Lemma parse_lower_hex_32_iff value bs :
  parse_lower_hex_32 value = Ok bs <-> value = encode_lower_hex bs /\ Forall is_byte bs /\ length bs = 32%nat.
Proof.
  unfold parse_lower_hex_32. rewrite bind_Ok. split.
  - intros (b & [-> Hb]%decode_hex_iff & Hl). destruct (Nat.eqb_spec (length b) 32); [|done]. by apply Ok_inj in Hl as <-.
  - intros (-> & Hb & Hl). exists bs. split; [by apply decode_hex_iff|]. by rewrite Hl.
Qed.

Lemma decimal_shape_canonical value : decimal_shape value = is_canonical_decimal value.
Proof.
  unfold decimal_shape, is_canonical_decimal, starts_with, str_len. destruct value as [|c value]; [done|].
  rewrite as_bytes_String. cbn [String.eqb negb andb]. change (as_bytes "0") with [48]. cbn [strip_prefix_bytes].
  rewrite (Z.eqb_sym 48). destruct (byte_of_ascii c =? 48); rewrite ?andb_true_r, ?andb_false_r; cbn [negb andb]; [|by rewrite andb_true_r].
  apply andb_comm.
Qed.

Lemma split_once_iff sep s a b :
  is_byte sep -> split_once sep s = Some (a, b) <-> s = a +:+ of_bytes [sep] +:+ b /\ sep ∉ as_bytes a.
Proof.
  intros Hsep. unfold split_once. split.
  - destruct (split_once_bytes sep (as_bytes s)) as [[x y]|] eqn:Hs; [|done]. intros [= <- <-].
    apply split_once_bytes_Some in Hs as [Hs Hx]. pose proof (as_bytes_range s) as Hr. rewrite Hs in Hr.
    apply Forall_app in Hr as [Hrx [_ Hry]%Forall_cons]. rewrite as_bytes_of_bytes by done. split; [|done].
    apply as_bytes_inj. rewrite !as_bytes_app, Hs, !as_bytes_of_bytes by (done || by constructor). done.
  - intros [-> Ha]. rewrite !as_bytes_app, as_bytes_of_bytes by by constructor.
    rewrite (proj2 (split_once_bytes_Some sep (as_bytes a ++ [sep] ++ as_bytes b) (as_bytes a) (as_bytes b))) by done.
    by rewrite !of_bytes_as_bytes.
Qed.

Lemma colon_not_hex bs : Forall is_byte bs -> 58 ∉ as_bytes (encode_lower_hex bs).
Proof.
  intros Hb Hin. rewrite as_bytes_encode in Hin by done. pose proof (encode_lower_hex_digits _ Hb) as Hd.
  rewrite forallb_forall in Hd. by apply list_elem_of_In, Hd in Hin.
Qed.

(** The outpoints the readers and writers exchange. *)
Definition outpoint_typed (o : ArkOutpoint) : Prop :=
  Forall is_byte (ao_transaction_id o) /\ length (ao_transaction_id o) = 32%nat /\ 0 <= ao_output_index o <= U32_MAX.

Lemma outpoint_parse_iff s o : outpoint_parse s = Ok o <-> s = outpoint_canonical o /\ outpoint_typed o.
Proof.
  unfold outpoint_parse, outpoint_canonical, outpoint_typed. split.
  - intros Hp. apply bind_Ok in Hp as ([a b] & Hs%ok_or_Ok & Hp). apply split_once_iff in Hs as [-> _]; [|done].
    rewrite decimal_shape_canonical in Hp. destruct (is_canonical_decimal b) eqn:Hc; [|done]. cbn [negb] in Hp.
    apply bind_Ok in Hp as (n & Hn%ok_or_Ok & Hp). apply bind_Ok in Hp as (id & (-> & Hb & Hl)%map_err_Ok%parse_lower_hex_32_iff & <-%Ok_inj).
    pose proof (parse_u_range _ _ _ Hn). destruct (proj1 (canonical_decimal_iff U32_MAX U32_MAX b n ltac:(done))) as [-> ?]; [split_and!; [done|done|lia]|]. done.
  - intros [-> (Hb & Hl & Hn)]. rewrite (proj2 (split_once_iff 58 _ (encode_lower_hex (ao_transaction_id o)) (to_string (ao_output_index o)) ltac:(done)))
      by (split; [done|by apply colon_not_hex]). cbn [ok_or mbind result_bind].
    destruct (proj2 (canonical_decimal_iff U32_MAX U32_MAX (to_string (ao_output_index o)) (ao_output_index o) ltac:(done))) as (Hc & Hp & _); [done|].
    rewrite decimal_shape_canonical, Hc, Hp. cbn [negb ok_or mbind result_bind].
    rewrite (proj2 (parse_lower_hex_32_iff _ (ao_transaction_id o))) by done. by destruct o.
Qed.

Lemma is_lower_hex_iff value n : is_lower_hex value n = true <-> str_len value = n /\ Forall (fun c => lower_hex_byte c = true) (as_bytes value).
Proof.
  unfold is_lower_hex. rewrite andb_true_iff, Z.eqb_eq, forallb_forall, Forall_forall. by setoid_rewrite list_elem_of_In.
Qed.

Lemma split_text_miss sep b l :
  strip_prefix_bytes sep (b :: l) = None ->
  split_once_text_bytes sep (b :: l) = ('(x, y) ← split_once_text_bytes sep l; Some (b :: x, y)).
Proof. intros Hn. cbn [split_once_text_bytes]. by rewrite Hn. Qed.

Lemma split_text_skip c sep b l :
  b <> c -> split_once_text_bytes (c :: sep) (b :: l) = ('(x, y) ← split_once_text_bytes (c :: sep) l; Some (b :: x, y)).
Proof. intros Hb. apply split_text_miss. cbn [strip_prefix_bytes]. by rewrite (proj2 (Z.eqb_neq c b)) by congruence. Qed.

(** The separator is found where it is when it cannot start earlier. *)
Lemma split_once_text_free c sep x y :
  c ∉ x -> split_once_text_bytes (c :: sep) (x ++ c :: sep ++ y) = Some (x, y).
Proof.
  induction x as [|b x IH]; intros Hc.
  - cbn [app split_once_text_bytes]. rewrite (proj2 (strip_prefix_bytes_Some (c :: sep) (c :: sep ++ y) y)) by done. done.
  - cbn [app]. rewrite split_text_skip by (intros ->; apply Hc; left).
    rewrite IH by (intros Hin; apply Hc; by right). done.
Qed.

Lemma split_once_text_Some sep s a b : split_once_text sep s = Some (a, b) -> s = a +:+ sep +:+ b.
Proof.
  unfold split_once_text. intros Hs. apply bind_Some in Hs as ([x y] & Hs & [= <- <-]).
  assert (forall l x y, split_once_text_bytes (as_bytes sep) l = Some (x, y) -> l = x ++ as_bytes sep ++ y) as Hgen.
  { induction l as [|c l IH]; intros x' y'; cbn [split_once_text_bytes].
    - destruct (strip_prefix_bytes _ _) as [r|] eqn:Hp; [|done]. intros [= <- <-]. by apply strip_prefix_bytes_Some in Hp.
    - destruct (strip_prefix_bytes _ _) as [r|] eqn:Hp; [intros [= <- <-]; by apply strip_prefix_bytes_Some in Hp|].
      intros ([x2 y2] & H2' & [= <- <-])%bind_Some. apply IH in H2' as ->. done. }
  apply Hgen in Hs. pose proof (as_bytes_range s) as Hr. rewrite Hs in Hr. apply Forall_app in Hr as [Hx [_ Hy]%Forall_app].
  apply as_bytes_inj. by rewrite !as_bytes_app, !as_bytes_of_bytes.
Qed.

(** What an asset identifier must be. *)
Definition asset_typed (a : ArkAssetId) : Prop :=
  (exists reference, aa_network_id a = "bip122:" +:+ reference /\ is_lower_hex reference 32 = true)
  /\ is_lower_hex (aa_operator_identity_sha256 a) 64 = true.
Definition asset_text (a : ArkAssetId) : string :=
  "swp:1:" +:+ aa_network_id a +:+ ":btc:ark:" +:+ family_as_str (aa_protocol_family a) +:+ ":" +:+ aa_operator_identity_sha256 a.

Lemma network_id_parse_iff value n :
  network_id_parse value = Ok n <-> n = value /\ exists reference, value = "bip122:" +:+ reference /\ is_lower_hex reference 32 = true.
Proof.
  unfold network_id_parse. split.
  - intros Hp. apply bind_Ok in Hp as (r & Hr%ok_or_Ok%strip_prefix_Some & Hp). destruct (is_lower_hex r 32) eqn:Hl; [|done].
    apply Ok_inj in Hp as <-. split; [done|]. by exists r.
  - intros [-> (r & -> & Hr)]. rewrite (proj2 (strip_prefix_Some "bip122:" _ r)) by done. cbn [ok_or mbind result_bind]. by rewrite Hr.
Qed.

Lemma no_colon_lower_hex s n : is_lower_hex s n = true -> str_contains s ":" = false.
Proof.
  intros [_ Hf]%is_lower_hex_iff. apply not_true_iff_false. unfold str_contains. rewrite contains_bytes_spec. intros (x & y & Hs).
  rewrite Hs in Hf. apply Forall_app in Hf as [_ [Hc _]%Forall_app]. change (as_bytes ":") with [58] in Hc. apply Forall_inv in Hc. by vm_compute in Hc.
Qed.

Lemma asset_split_network reference rail :
  is_lower_hex reference 32 = true ->
  split_once_text ":btc:ark:" (("bip122:" +:+ reference) +:+ ":btc:ark:" +:+ rail) = Some ("bip122:" +:+ reference, rail).
Proof.
  intros [Hl Hf]%is_lower_hex_iff. unfold split_once_text. rewrite !as_bytes_app. unfold str_len in Hl.
  pose proof (of_bytes_as_bytes reference) as Href. destruct (as_bytes reference) as [|h0 [|h1 hs]]; [done..|]. cbn in Hl.
  set (r := as_bytes rail). set (sep := as_bytes ":btc:ark:").
  assert (split_once_text_bytes sep ((as_bytes "bip122:" ++ h0 :: h1 :: hs) ++ sep ++ r) = Some (as_bytes "bip122:" ++ h0 :: h1 :: hs, r)) as ->.
  { assert (split_once_text_bytes sep ((h0 :: h1 :: hs) ++ sep ++ r) = Some (h0 :: h1 :: hs, r)) as Hfree.
    { apply (split_once_text_free 58 (as_bytes "btc:ark:")). intros Hin. rewrite Forall_forall in Hf. apply Hf in Hin. by vm_compute in Hin. }
    apply Forall_cons in Hf as [_ [Hh1 _]%Forall_cons].
    assert (strip_prefix_bytes sep (58 :: (h0 :: h1 :: hs) ++ sep ++ r) = None) as Hno.
    { change sep with (58 :: 98 :: 116 :: as_bytes "c:ark:"). cbn [app strip_prefix_bytes]. rewrite Z.eqb_refl. destruct (98 =? h0); [|done].
      destruct (Z.eqb_spec 116 h1) as [<-|]; [|done]. by vm_compute in Hh1. }
    change (as_bytes "bip122:") with [98; 105; 112; 49; 50; 50; 58]. cbn [app] in *.
    change sep with (58 :: as_bytes "btc:ark:") in *. rewrite !split_text_skip by done.
    rewrite (split_text_miss _ _ _ Hno), Hfree. done. }
  cbn [mbind option_bind]. rewrite of_bytes_app, Href, of_bytes_as_bytes. subst r. by rewrite of_bytes_as_bytes.
Qed.

Lemma asset_id_parse_iff s a : asset_id_parse s = Ok a <-> s = asset_text a /\ asset_typed a.
Proof.
  unfold asset_id_parse, asset_text, asset_typed. split.
  - intros Hp. apply bind_Ok in Hp as (value & Hv%ok_or_Ok%strip_prefix_Some & Hp). apply bind_Ok in Hp as ([net rail] & Hr%ok_or_Ok%split_once_text_Some & Hp).
    apply bind_Ok in Hp as ([family identity] & Hf%ok_or_Ok & Hp). apply split_once_iff in Hf as [Hf _]; [|done].
    destruct (_ || _) eqn:Hid; [done|]. apply orb_false_iff in Hid as [_ Hid%negb_false_iff]. apply bind_Ok in Hp as (fam & Hfam & Hp).
    apply bind_Ok in Hp as (n & [-> Hn]%network_id_parse_iff & <-%Ok_inj).
    cbn [aa_network_id aa_protocol_family aa_operator_identity_sha256]. split; [|done]. rewrite Hv, Hr, Hf.
    destruct (String.eqb_spec family "arkade") as [->|]; [by apply Ok_inj in Hfam as <-|].
    destruct (String.eqb_spec family "bark") as [->|]; [by apply Ok_inj in Hfam as <-|done].
  - intros [-> [(reference & Hn & Hr) Hi]]. destruct a as [net fam identity].
    cbn [aa_network_id aa_protocol_family aa_operator_identity_sha256] in *. subst net.
    rewrite (proj2 (strip_prefix_Some "swp:1:" _ _) eq_refl). cbn [ok_or mbind result_bind].
    rewrite asset_split_network by done. cbn [ok_or mbind result_bind].
    rewrite (proj2 (split_once_iff 58 _ (family_as_str fam) identity ltac:(done))) by (split; [done|]; apply (bool_decide_unpack _); by destruct fam; vm_compute).
    cbn [ok_or mbind result_bind]. rewrite (no_colon_lower_hex _ _ Hi), Hi. cbn [negb orb].
    assert (network_id_parse ("bip122:" +:+ reference) = Ok ("bip122:" +:+ reference)) as ->
      by (apply network_id_parse_iff; split; [done|by exists reference]).
    by destruct fam.
Qed.

(** Ark identifiers are read exactly as they are written: an outpoint text
    is accepted only as the canonical text of a 32-byte id and an index below
    2^32, an asset text only as the text of a network, a family and an
    operator identity, and each is read back as what it was written from. *)
Theorem ark_identifiers_exact s :
  (forall o, outpoint_parse s = Ok o <-> s = outpoint_canonical o /\ outpoint_typed o)
  /\ (forall a, asset_id_parse s = Ok a <-> s = asset_text a /\ asset_typed a).
Proof. split; intros; [apply outpoint_parse_iff|apply asset_id_parse_iff]. Qed.

(** ** Exits in seconds *)

Section seconds.
Context `{EventCrypto, TweakAdd, Secp256k1, JsonText}.

(** The validator of refunds takes every lock of a leaf for a height. *)
Lemma time_lock_refused tx prevouts n script cb key required :
  parse_swap_leaf_script script = Ok (mkLeaf key (Cltv required)) -> 500000000 <= required ->
  exists e, validate_taproot_refund_witness tx prevouts n script cb = Err e.
Proof.
  intros Hleaf Hr. destruct (validate_taproot_refund_witness tx prevouts n script cb) as [v|e] eqn:Hv; [exfalso|by exists e].
  unfold validate_taproot_refund_witness in Hv. apply bind_Ok in Hv as (input & _ & Hv).
  destruct (witness input) as [|sig [|scr [|ctl [|]]]]; try done. apply bind_Ok in Hv as (sig' & _ & Hv).
  destruct (_ || _) eqn:Hp; [done|]. bool_to_prop. subst scr ctl. rewrite Hleaf in Hv. cbn [mbind result_bind leaf_condition] in Hv.
  apply bind_Ok in Hv as (u & Hlock & _). destruct (sequence input =? U32_MAX); [done|]. cbn [orb check_cltv] in Hlock.
  destruct (Z.ltb_spec (tx_lock_time tx) 500000000); [|done]. destruct (Z.leb_spec required (tx_lock_time tx)); [lia|done].
Qed.

(** C40: an output accepted with an exit in seconds and a Unix-time expiry has a
    refund leaf that the network accepts once the expiry has passed, and that
    the repository's own verification refuses in every transaction: each
    transaction with an input that spends through the leaf is refused by
    [verify_fully_signed_ark_transaction], whatever its lock time. *)
Theorem seconds_exit_refused d p m terms view digest v :
  Forall is_byte (vt_refund_script terms) -> verify_ark_graph d p m terms view digest = Some (Ok v) ->
  vt_unilateral_exit_domain terms <> "blocks"%string -> 500000000 <= vt_expiry_value terms ->
  (forall tx prevouts n input sig cb, tx_inputs tx !! n = Some input -> witness input = [sig; vt_refund_script terms; cb] ->
     verify_fully_signed_ark_transaction tx prevouts = Err (ExitUnsafe "exit transaction signature"))
  /\ exists owner instrs, parse_public_key (vt_owner_pubkey terms) = Ok owner /\ parse_swap_script (vt_refund_script terms) = Ok instrs
     /\ forall tx input checksig sig, vt_expiry_value terms <= tx_lock_time tx -> sequence input <> U32_MAX ->
          sig <> [] -> checksig sig owner = true -> accepts (context_of tx input checksig) instrs [sig] = true.
Proof.
  intros Hbytes Hv Hdom Hexp. apply verify_accepted in Hv as (g & observed & l & order & index & Ha).
  destruct (ac_terms _ _ _ _ _ _ _ _ _ _ _ Ha) as (_ & q & owner & refund & _ & _ & Howner & _ & Hleaf & Hrefund & _).
  rewrite (proj2 (String.eqb_neq _ _) Hdom) in Hrefund. subst refund. split.
  - intros tx prevouts n input sig cb Hin Hw. unfold verify_fully_signed_ark_transaction.
    destruct (verify_transaction_signatures tx prevouts) as [u|] eqn:Hs; [exfalso|done].
    unfold verify_transaction_signatures in Hs. destruct (negb _); [done|]. apply bind_Ok in Hs as (us & Hus%try_map_Ok_Forall2 & _).
    destruct (Forall2_lookup_l _ _ _ n (n, input) Hus) as (u' & _ & Hok); [by rewrite list_lookup_imap, Hin|].
    unfold verify_input_signature in Hok. rewrite Hw in Hok. destruct (negb _); [done|].
    destruct (time_lock_refused tx prevouts n _ cb _ _ Hleaf Hexp) as (e & He). by rewrite He in Hok.
  - apply parse_leaf_shape in Hleaf as (instrs & Hi & Hshape). exists owner, instrs. split; [done|]. split; [done|].
    intros tx input checksig sig Hlock Hseq Hsig Hok.
    destruct (leaf_shape_timelock _ _ _ Hshape ltac:(done)) as (value & required & op & -> & Hnum & [[-> Hc]|[_ Hc]]); [|done].
    injection Hc as <-. apply parse_swap_script_bytes in Hi as [Hvb _]%Forall_cons; [|done].
    destruct (script_num_parse value _ Hvb Hnum) as [Hsn H0']. apply (timelock_accepts _ _ _ _ _ _ Hsn H0'); [by left|].
    split; [|done]. cbn [Z.eqb Pos.eqb]. unfold cltv_satisfied, context_of. cbn.
    rewrite (proj2 (Z.ltb_ge _ _)), (proj2 (Z.ltb_ge _ _)), (proj2 (Z.leb_le _ _)), (proj2 (Z.eqb_neq _ _)) by (done || lia). done.
Qed.
End seconds.

(** ** A graph of two transactions *)

(** Digests modulo a prime; a signature is the message and the key. *)
#[local] Instance ark_crypto : EventCrypto := {|
  canonical_json := @canonical_json toy_schnorr;
  sha256 m := be_bytes 32 (toy_digest 7 m);
  xonly_public_key := @xonly_public_key toy_schnorr;
  verify_schnorr signature message key := bool_decide (signature = message ++ key);
|}.
#[local] Existing Instances toy_secp toy_add_tweak.
#[local] Instance toy_json_text : JsonText := {| json_string s := of_bytes (34 :: as_bytes s ++ [34]) |}.

Definition ark_key (secret : Z) : list Z := (x_only_public_key (from_secret_key secret)).1.
Definition ark_output (value secret : Z) : TransactionOutput := mkOutput value ([0x51; 0x20] ++ ark_key secret).

(** [tx] with every input signed for its key path. *)
Definition key_signed (tx : Transaction) (prevouts : list TransactionOutput) (secrets : list Z) : Transaction :=
  mkTransaction (tx_version tx)
    (zip_with (fun n_input secret =>
                 let '(n, input) := n_input in
                 let sighash := match taproot_key_spend_sighash tx prevouts n with Ok h => h | Err _ => [] end in
                 mkInput (previous_txid input) (previous_output input) [] (sequence input) [sighash ++ ark_key secret])
              (imap pair (tx_inputs tx)) secrets)
    (tx_outputs tx) (tx_lock_time tx) true.
Definition ark_input (id : list Z) (n : Z) : TransactionInput := mkInput id n [] 0xfffffffe [replicate 64 0].

(** The selected output: a claim leaf and a refund leaf after a Unix time. *)
Definition ark_expiry : Z := 1800000000.
Definition ark_claim_script : list Z := Eval vm_compute in production_claim_leaf_script (sha256 (replicate 32 7)) (ark_key 9).
Definition ark_refund_script : list Z := Eval vm_compute in refund_leaf_script ark_expiry (ark_key 9).
Definition ark_leaf (script : list Z) : list Z := match tapleaf_hash TAPROOT_LEAF_VERSION script with Ok leaf => leaf | Err _ => [] end.
Definition ark_tree : list Z * (list Z * list Z) := Eval vm_compute in
  let claim := ark_leaf ark_claim_script in
  let refund := ark_leaf ark_refund_script in
  match taproot_output_key (be_bytes 32 12) (Some (tapbranch_hash claim refund)) with
  | Ok (q, parity) => (q, (control_block_of TAPROOT_LEAF_VERSION parity (be_bytes 32 12) [refund],
                           control_block_of TAPROOT_LEAF_VERSION parity (be_bytes 32 12) [claim]))
  | Err _ => ([], ([], []))
  end.

(** The first transaction spends the anchor and one input VTXO; the second
    spends the first and pays [amount] to the selected output. *)
Definition ark_roots : list TransactionOutput := [ark_output 1000 5; ark_output 60000 6].
Definition first_transaction : Transaction := Eval vm_compute in
  key_signed (mkTransaction 2 [ark_input (replicate 32 1) 0; ark_input (replicate 32 2) 0] [ark_output 60500 8] 0 true) ark_roots [5; 6].
Definition first_id : list Z := Eval vm_compute in match txid first_transaction with Ok id => id | Err _ => [] end.
Definition second_transaction (amount : Z) : Transaction :=
  key_signed (mkTransaction 2 [ark_input (rev first_id) 0] [mkOutput amount ([0x51; 0x20] ++ ark_tree.1)] 0 true) [ark_output 60500 8] [8].
Definition second_id (amount : Z) : list Z := match txid (second_transaction amount) with Ok id => id | Err _ => [] end.
Definition transaction_text (tx : Transaction) : string :=
  match transaction_serialize tx true with Ok raw => encode_lower_hex raw | Err _ => "" end.
Definition ark_material (amount : Z) : ArkGraphMaterial :=
  mkMaterial (transaction_text <$> [first_transaction; second_transaction amount])
    (zip_with (fun id out => mkObserved (mkOutpoint (replicate 32 id) 0) out) [1; 2] ark_roots).

Definition ark_network : string := "bip122:000000000019d6689c085ae165831e93".
Definition ark_policy : ArkOperatorPolicy :=
  mkOperatorPolicy ark_network Bark "1" "1000" "1000000" 4 8 4 100000 4000 "unix_time" "3600" "seconds" "3600"
    (encode_lower_hex (replicate 32 0)) (encode_lower_hex (replicate 32 0)).
Definition ark_descriptor : ArkOperatorDescriptor :=
  mkDescriptor ark_network Bark "1" (mkOperatorKeys None None (Some (encode_lower_hex (ark_key 5))))
    match digest_hex ark_policy with Ok digest => digest | Err _ => ""%string end.
Definition ark_terms (amount : Z) : ArkVtxoTerms :=
  mkTerms ("swp:1:" +:+ ark_network +:+ ":btc:ark:bark:" +:+ match identity_hex ark_descriptor with Ok identity => identity | Err _ => "" end)
    [mkOutpoint (replicate 32 2) 0] (mkOutpoint (second_id amount) 0) amount (encode_lower_hex (ark_key 9)) (sha256 (replicate 32 7))
    ark_claim_script ark_tree.2.1 ark_refund_script ark_tree.2.2 (sha256 ark_claim_script) (sha256 ark_refund_script)
    "unix_time" ark_expiry "seconds" 3600 (mkOutpoint (replicate 32 1) 0).
Definition ark_digest (amount : Z) : list Z :=
  match canonical_sha256 (VArray (VString <$> gm_signed_transactions (ark_material amount))) with Ok digest => digest | Err _ => [] end.
#[local] Notation ark_verdict amount :=
  (verify_ark_graph ark_descriptor ark_policy (ark_material amount) (ark_terms amount) (mkView 900000 1700000000) (ark_digest amount)).

Definition ark_check (amount : Z) (verdict : option (result ArkError VerifiedArkGraph)) : bool :=
  match verdict with Some (Ok v) => value_sat (vg_selected_output v) =? amount | _ => false end.

Lemma ark_check_spec amount verdict :
  ark_check amount verdict = true -> exists v, verdict = Some (Ok v) /\ value_sat (vg_selected_output v) = amount.
Proof. destruct verdict as [[v|]|]; [|done..]. intros Hv%Z.eqb_eq. by exists v. Qed.

Lemma ark_accepted : exists v, ark_verdict 60000 = Some (Ok v) /\ value_sat (vg_selected_output v) = 60000.
Proof. apply ark_check_spec. vm_compute. reflexivity. Qed.

(** The amounts of a graph are not added up: an accepted graph may pay the
    selected output more than all the outputs it spends hold. *)
Lemma ark_graph_creates_value :
  exists v, ark_verdict 600000 = Some (Ok v) /\ list_sum (Z.to_nat ∘ value_sat <$> ark_roots) = 61000%nat
  /\ value_sat (vg_selected_output v) = 600000.
Proof.
  assert (exists v, ark_verdict 600000 = Some (Ok v) /\ value_sat (vg_selected_output v) = 600000) as (v & Hv & Hs).
  { apply ark_check_spec. vm_compute. reflexivity. }
  exists v. split; [exact Hv|]. split; [|exact Hs]. apply Nat2Z.inj. vm_compute. reflexivity.
Qed.

(** The transactions and observed outputs of a material. *)
Definition parse_text (text : string) : option Transaction :=
  match decode_hex text with
  | Ok raw => match transaction_parse raw with Ok tx => Some tx | Err _ => None end
  | Err _ => None
  end.
Definition parsed (m : ArkGraphMaterial) : list Transaction := omap parse_text (gm_signed_transactions m).
Definition seen (m : ArkGraphMaterial) : gmap ArkOutpoint TransactionOutput :=
  list_to_map ((fun ob => (ob_outpoint ob, ob_output ob)) <$> gm_observed_outputs m).

Lemma parsed_unique m txs :
  Forall2 (fun text tx => exists raw, decode_hex text = Ok raw /\ transaction_parse raw = Ok tx) (gm_signed_transactions m) txs ->
  txs = parsed m.
Proof.
  unfold parsed. induction 1 as [|text tx texts l (raw & Hraw & Htx) _ IH]; [done|]. cbn. unfold parse_text at 1.
  rewrite Hraw, Htx. by f_equal.
Qed.

Lemma seen_unique m observed :
  (forall o out, observed !! o = Some out <-> mkObserved o out ∈ gm_observed_outputs m) -> observed = seen m.
Proof.
  intros Ho. assert (Hin : forall o out, (o, out) ∈ (fun ob => (ob_outpoint ob, ob_output ob)) <$> gm_observed_outputs m
                                         <-> mkObserved o out ∈ gm_observed_outputs m).
  { intros o out. rewrite list_elem_of_fmap. split; [intros ([o' out'] & [= -> ->] & Hob); done|].
    intros Hob. by exists (mkObserved o out). }
  apply map_eq. intros o. apply option_eq. intros out. rewrite Ho, <- Hin. unfold seen. split.
  - intros Hob. apply elem_of_list_to_map_1'; [|done]. intros out' Hob'. rewrite Hin, <- Ho in Hob, Hob'. congruence.
  - apply elem_of_list_to_map_2.
Qed.

Lemma ark_conserves : Forall (conserves (parsed (ark_material 60000)) (seen (ark_material 60000))) (parsed (ark_material 60000)).
Proof. refine (bool_decide_unpack _ _). vm_compute. exact I. Qed.

Lemma ark_creates : ~ Forall (conserves (parsed (ark_material 600000)) (seen (ark_material 600000))) (parsed (ark_material 600000)).
Proof. refine (bool_decide_eq_false_1 _ _). vm_compute. reflexivity. Qed.

(** The graph of 60000 satoshi is published; the one of 600000, accepted too,
    never is. *)
Lemma ark_graph_exit_witness :
  (exists v order final, order ≡ₚ parsed (ark_material 60000) /\ publishes (seen (ark_material 60000)) order final
     /\ final !! vt_output_vtxo_id (ark_terms 60000) = Some (vg_selected_output v))
  /\ ~ exists order final, order ≡ₚ parsed (ark_material 600000) /\ publishes (seen (ark_material 600000)) order final.
Proof.
  destruct ark_accepted as (v & Hv & _). destruct ark_graph_creates_value as (v' & Hv' & _). split.
  - destruct (@ark_graph_exit _ _ _ _ ark_descriptor ark_policy (ark_material 60000) (ark_terms 60000) (mkView 900000 1700000000)
                (ark_digest 60000) v (Z.le_refl 0) Hv) as (txs & observed & Htxs & Hobs & _ & Hpub & Hf & _).
    apply parsed_unique in Htxs as ->. apply seen_unique in Hobs as ->.
    destruct (proj2 Hpub ark_conserves) as (order & final & Ho & Hp). exists v, order, final.
    exact (conj Ho (conj Hp (Hf order final Ho Hp))).
  - destruct (@ark_graph_exit _ _ _ _ ark_descriptor ark_policy (ark_material 600000) (ark_terms 600000) (mkView 900000 1700000000)
                (ark_digest 600000) v' (Z.le_refl 0) Hv') as (txs & observed & Htxs & Hobs & _ & Hpub & _).
    apply parsed_unique in Htxs as ->. apply seen_unique in Hobs as ->.
    exact (fun Hex => ark_creates (proj1 Hpub Hex)).
Defined.

Lemma ark_refund_bytes : Forall is_byte ark_refund_script.
Proof. repeat (constructor; [split; [discriminate|reflexivity]|]). constructor. Qed.

Lemma seconds_exit_refused_witness :
  exists owner instrs, parse_swap_script ark_refund_script = Ok instrs
  /\ forall tx input checksig sig, ark_expiry <= tx_lock_time tx -> sequence input <> U32_MAX ->
       sig <> [] -> checksig sig owner = true -> accepts (context_of tx input checksig) instrs [sig] = true.
Proof.
  destruct ark_accepted as (v & Hv & _).
  destruct (@seconds_exit_refused _ _ _ _ ark_descriptor ark_policy (ark_material 60000) (ark_terms 60000) (mkView 900000 1700000000)
              (ark_digest 60000) v ark_refund_bytes Hv) as (_ & owner & instrs & _ & Hi & Ha).
  - discriminate.
  - discriminate.
  - exists owner, instrs. exact (conj Hi Ha).
Defined.
