(* ===== verification/Liquid.v ===== *)
(** * Liquid: Elements transactions and the Liquid legs of a swap

    [immortal-core/src/liquid.rs]: identifiers of networks and assets, the
    parser of Elements transactions, the check of a swap output, Elements
    Taproot commitments and the signature hash, and
    [ProviderWallet::sign_liquid_script_path] of [immortal-provider], which
    signs it.  An [XOnlyPublicKey] is its 32 bytes.

    A [Reader] of the code is a slice and a position; here it is the bytes not
    yet read.  Slices hold at most [EL_MAX_TRANSACTION_BYTES], so the position
    does not overflow.  The writers of compact sizes and of length-prefixed
    bytes are those of [Wire]: the integer conversions in the copies of
    [liquid.rs] cannot fail on lengths. *)

From S2P Require Import Prelude Text Utf8 Hex Regroup Event Wire Transaction Taproot Scalar Musig2 Wallet Ark.

Definition EL_MAX_TRANSACTION_BYTES : Z := 4000000.
Definition EL_MAX_INPUTS : Z := 4096.
Definition EL_MAX_OUTPUTS : Z := 4096.
Definition EL_MAX_SCRIPT_BYTES : Z := 10000.
Definition MAX_PROOF_BYTES : Z := 80000.
Definition EL_MAX_WITNESS_ITEMS : Z := 1024.
Definition EL_MAX_WITNESS_ITEM_BYTES : Z := 80000.
Definition ELEMENTS_TAPROOT_LEAF_VERSION : Z := 0xc4.

Inductive LiquidError : Type :=
| LBounds (detail : string)
| LEncoding (detail : string)
| InvalidNetwork
| InvalidAssetId
| NetworkMismatch
| OutputInvalid (detail : string)
| UnblindFailed
| UnblindMismatch (detail : string)
| TaprootMismatch
| Sighash (detail : string)
| LSignature.

(** [LiquidError::code]. *)
Definition liquid_error_code (e : LiquidError) : string :=
  match e with
  | InvalidAssetId => "swp_invalid_asset_id"
  | InvalidNetwork | NetworkMismatch => "swp_liquid_network_mismatch"
  | UnblindFailed => "swp_liquid_unblind_failed"
  | UnblindMismatch _ => "swp_liquid_unblind_mismatch"
  | LBounds _ | LEncoding _ | OutputInvalid _ | TaprootMismatch | Sighash _ | LSignature => "swp_liquid_output_invalid"
  end.

(** ** Identifiers *)

(** [is_lower_hex] and [hex_nibble] are those of [Ark] and [Hex]. *)
Definition el_parse_lower_hex_32 (value : string) : result unit (list Z) :=
  if negb (is_lower_hex value 64) then Err tt else Hex.decode_pairs tt (as_bytes value).

(** A [LiquidNetworkId] is its text. *)
Definition liquid_network_parse (value : string) : result LiquidError string :=
  match strip_prefix "bip122:" value with
  | None => Err InvalidNetwork
  | Some reference => if negb (is_lower_hex reference 32) then Err InvalidNetwork else Ok value
  end.

Definition from_genesis_hash (genesis_hash : string) : result LiquidError string :=
  if negb (is_lower_hex genesis_hash 64) then Err InvalidNetwork
  else liquid_network_parse ("bip122:" +:+ of_bytes (take 32 (as_bytes genesis_hash))).

(** A [LiquidAssetId] is its 32 bytes in display order. *)
Definition liquid_asset_parse (value : string) : result LiquidError (list Z) :=
  map_err (fun _ => InvalidAssetId) (el_parse_lower_hex_32 value).

Definition mkt_asset_id (asset : list Z) (network : string) : string :=
  "swp:1:" +:+ network +:+ ":elements:" +:+ encode_lower_hex asset +:+ ":liquid".

(** [str::strip_suffix]. *)
Definition strip_suffix_text (suffix s : string) : option string :=
  (fun l => of_bytes (rev l)) <$> strip_prefix_bytes (rev (as_bytes suffix)) (rev (as_bytes s)).

Definition parse_mkt (value : string) : result LiquidError (string * list Z) :=
  rest ← ok_or InvalidAssetId (strip_prefix "swp:1:" value);
  '(network_reference, rest) ← ok_or InvalidAssetId (split_once_text ":elements:" rest);
  asset ← ok_or InvalidAssetId (strip_suffix_text ":liquid" rest);
  network ← liquid_network_parse network_reference;
  asset ← liquid_asset_parse asset;
  Ok (network, asset).

Definition verify_liquid_network (expected_network : string) (expected_pegged_asset : list Z) (genesis_hash pegged_asset : string)
    : result LiquidError unit :=
  observed_network ← from_genesis_hash genesis_hash;
  observed_asset ← liquid_asset_parse pegged_asset;
  if negb (String.eqb observed_network expected_network) || negb (bool_decide (observed_asset = expected_pegged_asset))
  then Err NetworkMismatch else Ok tt.

(** [LiquidGenesisHash::parse_display]: the bytes in consensus order. *)
Definition genesis_parse_display (value : string) : result LiquidError (list Z) :=
  bytes ← map_err (fun _ => InvalidNetwork) (el_parse_lower_hex_32 value); Ok (rev bytes).

(** ** Transactions *)

Inductive ConfidentialAsset : Type := AExplicit (asset : list Z) | ACommitment (commitment : list Z).
Inductive ConfidentialValue : Type := VExplicit (value : Z) | VCommitment (commitment : list Z).
Inductive ConfidentialNonce : Type := NNull | NExplicit (nonce : list Z) | NEphemeralKey (nonce : list Z).

Record LiquidTransactionOutput : Type := mkLiquidOutput {
  lto_asset : ConfidentialAsset;
  lto_value : ConfidentialValue;
  lto_nonce : ConfidentialNonce;
  lto_script_pubkey : list Z;
  lto_surjection_proof_sha256 : option (list Z);
  lto_range_proof_sha256 : option (list Z);
  lto_surjection_proof : list Z;
  lto_range_proof : list Z;
}.

Record LiquidAssetIssuance : Type := mkIssuance {
  asset_blinding_nonce : list Z;
  asset_entropy : list Z;
  asset_amount : option ConfidentialValue;
  token_amount : option ConfidentialValue;
}.

Record LiquidTransactionInput : Type := mkLiquidInput {
  lti_previous_txid : list Z;
  lti_previous_output : Z;
  lti_sequence : Z;
  lti_script_sig : list Z;
  lti_has_issuance : bool;
  lti_is_pegin : bool;
  lti_issuance : option LiquidAssetIssuance;
  lti_issuance_amount_range_proof : list Z;
  lti_inflation_keys_range_proof : list Z;
  lti_script_witness : list (list Z);
  lti_pegin_witness : list (list Z);
}.

Record LiquidPrevout : Type := mkLiquidPrevout {
  lp_asset : ConfidentialAsset;
  lp_value : ConfidentialValue;
  lp_script_pubkey : list Z;
}.

Record LiquidTransaction : Type := mkLiquidTransaction {
  ltx_version : Z;
  ltx_inputs : list LiquidTransactionInput;
  ltx_outputs : list LiquidTransactionOutput;
  ltx_lock_time : Z;
  ltx_transaction_id : list Z;
  ltx_raw_sha256 : list Z;
  ltx_has_witness : bool;
}.

#[export] Instance ConfidentialAsset_eq_dec : EqDecision ConfidentialAsset.
Proof. solve_decision. Defined.
#[export] Instance ConfidentialValue_eq_dec : EqDecision ConfidentialValue.
Proof. solve_decision. Defined.
#[export] Instance LiquidAssetIssuance_eq_dec : EqDecision LiquidAssetIssuance.
Proof. solve_decision. Defined.
#[export] Instance LiquidTransactionInput_eq_dec : EqDecision LiquidTransactionInput.
Proof. solve_decision. Defined.

(** *** The reader *)

Definition LReader (A : Type) : Type := list Z -> result LiquidError (A * list Z).

#[export] Instance lreader_ret : MRet LReader := fun A a bytes => Ok (a, bytes).
#[export] Instance lreader_bind : MBind LReader :=
  fun A B f r bytes => match r bytes with Ok (a, rest) => f a rest | Err e => Err e end.
Definition lreader_error {A} (e : LiquidError) : LReader A := fun _ => Err e.

Definition el_read_u8 : LReader Z := fun bytes =>
  match bytes with
  | [] => Err (LEncoding "truncated byte")
  | b :: rest => Ok (b, rest)
  end.

Definition el_read_exact (length : Z) : LReader (list Z) := fun bytes =>
  if length <=? len bytes then Ok (take (Z.to_nat length) bytes, drop (Z.to_nat length) bytes)
  else Err (LEncoding "truncated field").

Definition el_read_u32_le : LReader Z := bytes ← el_read_exact 4; mret (le_value bytes).
Definition el_read_i32_le : LReader Z := bytes ← el_read_exact 4; mret (u32_to_i32 (le_value bytes)).

Definition el_read_compact_size (maximum : Z) (field : string) : LReader Z :=
  first ← el_read_u8;
  value ←
    (if first <=? 0xfc then mret first
     else if first =? 0xfd then
       bytes ← el_read_exact 2;
       if le_value bytes <? 0xfd then lreader_error (LEncoding "non-canonical compact size") else mret (le_value bytes)
     else if first =? 0xfe then
       value ← el_read_u32_le;
       if value <=? U16_MAX then lreader_error (LEncoding "non-canonical compact size") else mret value
     else
       bytes ← el_read_exact 8;
       if le_value bytes <=? U32_MAX then lreader_error (LEncoding "non-canonical compact size") else mret (le_value bytes));
  if maximum <? value then lreader_error (LBounds field) else mret value.

Definition el_read_var_bytes (maximum : Z) (field : string) : LReader (list Z) :=
  length ← el_read_compact_size maximum field;
  el_read_exact length.

(** [for _ in 0..count { items.push(read()?) }]. *)
Fixpoint el_read_n {A} (count : nat) (r : LReader A) : LReader (list A) :=
  match count with
  | O => mret []
  | S count' => x ← r; xs ← el_read_n count' r; mret (x :: xs)
  end.

(** [for item in &mut items { update(item)? }]. *)
Fixpoint el_update {A} (r : A -> LReader A) (items : list A) : LReader (list A) :=
  match items with
  | [] => mret []
  | item :: items' => item ← r item; items ← el_update r items'; mret (item :: items)
  end.

Definition el_read_witness_stack : LReader (list (list Z)) :=
  count ← el_read_compact_size EL_MAX_WITNESS_ITEMS "witness item count";
  el_read_n (Z.to_nat count) (el_read_var_bytes EL_MAX_WITNESS_ITEM_BYTES "witness item").

Section liquid.
Context `{EventCrypto, TweakAdd, Secp256k1}.

Definition read_asset : LReader ConfidentialAsset :=
  header ← el_read_u8;
  bytes ← el_read_exact 32;
  if header =? 0x01 then mret (AExplicit (rev bytes))
  else if (header =? 0x0a) || (header =? 0x0b) then
    match pk_from_slice (header - 8 :: bytes) with
    | None => lreader_error (LEncoding "asset commitment point")
    | Some _ => mret (ACommitment (header :: bytes))
    end
  else lreader_error (LEncoding "asset prefix").

Definition read_optional_confidential_value : LReader (option ConfidentialValue) :=
  header ← el_read_u8;
  if header =? 0x00 then mret None
  else if header =? 0x01 then bytes ← el_read_exact 8; mret (Some (VExplicit (be_value bytes)))
  else if (header =? 0x08) || (header =? 0x09) then
    bytes ← el_read_exact 32;
    match pk_from_slice (header - 6 :: bytes) with
    | None => lreader_error (LEncoding "value commitment point")
    | Some _ => mret (Some (VCommitment (header :: bytes)))
    end
  else lreader_error (LEncoding "amount prefix").

Definition read_value : LReader ConfidentialValue :=
  value ← read_optional_confidential_value;
  match value with
  | None => lreader_error (LEncoding "null output amount")
  | Some value => mret value
  end.

Definition read_nonce : LReader ConfidentialNonce :=
  header ← el_read_u8;
  if header =? 0x00 then mret NNull
  else if header =? 0x01 then bytes ← el_read_exact 32; mret (NExplicit (header :: bytes))
  else if (header =? 0x02) || (header =? 0x03) then bytes ← el_read_exact 32; mret (NEphemeralKey (header :: bytes))
  else lreader_error (LEncoding "nonce prefix").

(** *** [parse_liquid_transaction] *)

Definition read_issuance : LReader LiquidAssetIssuance :=
  asset_blinding_nonce ← el_read_exact 32;
  asset_entropy ← el_read_exact 32;
  asset_amount ← read_optional_confidential_value;
  token_amount ← read_optional_confidential_value;
  mret (mkIssuance asset_blinding_nonce asset_entropy asset_amount token_amount).

(** The body of the loop over the inputs. *)
Definition read_liquid_input : LReader LiquidTransactionInput :=
  previous_txid ← el_read_exact 32;
  output_index ← el_read_u32_le;
  script_sig ← el_read_var_bytes EL_MAX_SCRIPT_BYTES "scriptSig";
  sequence ← el_read_u32_le;
  let has_issuance := negb (Z.land output_index (Z.shiftl 1 31) =? 0) in
  let is_pegin := negb (Z.land output_index (Z.shiftl 1 30) =? 0) in
  issuance ← (if has_issuance then issuance ← read_issuance; mret (Some issuance) else mret None);
  mret (mkLiquidInput (rev previous_txid) (Z.land output_index 0x3fffffff) sequence script_sig has_issuance is_pegin issuance
          [] [] [] []).

Definition read_liquid_output : LReader LiquidTransactionOutput :=
  asset ← read_asset;
  value ← read_value;
  nonce ← read_nonce;
  script_pubkey ← el_read_var_bytes EL_MAX_SCRIPT_BYTES "scriptPubKey";
  mret (mkLiquidOutput asset value nonce script_pubkey None None [] []).

(** The bodies of the loops over the witnesses. *)
Definition read_input_witness (i : LiquidTransactionInput) : LReader LiquidTransactionInput :=
  issuance_amount_range_proof ← el_read_var_bytes MAX_PROOF_BYTES "issuance amount range proof";
  inflation_keys_range_proof ← el_read_var_bytes MAX_PROOF_BYTES "inflation keys range proof";
  script_witness ← el_read_witness_stack;
  pegin_witness ← el_read_witness_stack;
  mret (mkLiquidInput (lti_previous_txid i) (lti_previous_output i) (lti_sequence i) (lti_script_sig i) (lti_has_issuance i)
          (lti_is_pegin i) (lti_issuance i) issuance_amount_range_proof inflation_keys_range_proof script_witness pegin_witness).

Definition proof_digest (proof : list Z) : option (list Z) := if is_empty proof then None else Some (sha256 proof).

Definition read_output_witness (o : LiquidTransactionOutput) : LReader LiquidTransactionOutput :=
  surjection_proof ← el_read_var_bytes MAX_PROOF_BYTES "surjection proof";
  range_proof ← el_read_var_bytes MAX_PROOF_BYTES "range proof";
  mret (mkLiquidOutput (lto_asset o) (lto_value o) (lto_nonce o) (lto_script_pubkey o)
          (proof_digest surjection_proof) (proof_digest range_proof) surjection_proof range_proof).

(** Up to the lock time. *)
Definition read_stripped : LReader (Z * bool * list LiquidTransactionInput * list LiquidTransactionOutput * Z) :=
  version ← el_read_i32_le;
  flags ← el_read_u8;
  if 1 <? flags then lreader_error (LEncoding "transaction witness flag") else
  let has_witness := flags =? 1 in
  input_count ← el_read_compact_size EL_MAX_INPUTS "input count";
  if input_count =? 0 then lreader_error (LEncoding "transaction has no inputs") else
  inputs ← el_read_n (Z.to_nat input_count) read_liquid_input;
  output_count ← el_read_compact_size EL_MAX_OUTPUTS "output count";
  if output_count =? 0 then lreader_error (LEncoding "transaction has no outputs") else
  outputs ← el_read_n (Z.to_nat output_count) read_liquid_output;
  lock_time ← el_read_u32_le;
  mret (version, has_witness, inputs, outputs, lock_time).

(** [bytes.get(from..to)]. *)
Definition byte_range (from to : nat) (bytes : list Z) : option (list Z) :=
  if (from <=? to)%nat && (to <=? length bytes)%nat then Some (take (to - from) (drop from bytes)) else None.

Definition elements_transaction_id (raw : list Z) (stripped_end : nat) : result LiquidError (list Z) :=
  version ← ok_or (LEncoding "transaction version") (byte_range 0 4 raw);
  body ← ok_or (LEncoding "stripped transaction range") (byte_range 5 stripped_end raw);
  Ok (rev (sha256 (sha256 (version ++ [0] ++ body)))).

Definition parse_liquid_transaction (raw : list Z) : result LiquidError LiquidTransaction :=
  if is_empty raw || (EL_MAX_TRANSACTION_BYTES <? len raw) then Err (LBounds "transaction byte length")
  else
  '(version, has_witness, inputs, outputs, lock_time, rest) ← read_stripped raw;
  let stripped_end := (length raw - length rest)%nat in
  '(inputs, outputs, rest) ←
    (if has_witness : bool then
       '(inputs, rest) ← el_update read_input_witness inputs rest;
       '(outputs, rest) ← el_update read_output_witness outputs rest;
       Ok (inputs, outputs, rest)
     else Ok (inputs, outputs, rest));
  if negb (is_empty rest) then Err (LEncoding "trailing transaction bytes")
  else
  transaction_id ← elements_transaction_id raw stripped_end;
  Ok (mkLiquidTransaction version inputs outputs lock_time transaction_id (sha256 raw) has_witness).

(** ** The output of a swap *)

Inductive LiquidVerificationAuthority : Type := ExplicitOutput | LocalElementsdUnblind.

Record VerifiedLiquidOutput : Type := mkVerifiedLiquid {
  vl_asset : list Z;
  vl_amount_sat : Z;
  vl_script_pubkey : list Z;
  vl_transaction_sha256 : list Z;
  vl_output_index : nat;
  vl_authority : LiquidVerificationAuthority;
}.

Definition is_asset_commitment (asset : ConfidentialAsset) : bool := match asset with ACommitment _ => true | AExplicit _ => false end.
Definition is_value_commitment (value : ConfidentialValue) : bool := match value with VCommitment _ => true | VExplicit _ => false end.

(** The branch of a confidential output; a [LocalElementsdUnblind] is the
    transaction it holds. *)
Definition reveal_output (transaction unblinded : LiquidTransaction) (output_index : nat) (output : LiquidTransactionOutput)
    : result LiquidError (list Z * Z * LiquidVerificationAuthority) :=
  if negb (ltx_version unblinded =? ltx_version transaction)
     || negb (bool_decide (ltx_inputs unblinded = ltx_inputs transaction))
     || negb (length (ltx_outputs unblinded) =? length (ltx_outputs transaction))%nat
     || negb (ltx_lock_time unblinded =? ltx_lock_time transaction)
  then Err (UnblindMismatch "transaction envelope")
  else
  revealed ← ok_or (UnblindMismatch "output index") (ltx_outputs unblinded !! output_index);
  if negb (bool_decide (lto_script_pubkey revealed = lto_script_pubkey output)) then Err (UnblindMismatch "scriptPubKey")
  else
  match lto_asset revealed with
  | ACommitment _ => Err (UnblindMismatch "asset remains confidential")
  | AExplicit asset =>
      match lto_value revealed with
      | VCommitment _ => Err (UnblindMismatch "amount remains confidential")
      | VExplicit amount_sat => Ok (asset, amount_sat, LocalElementsdUnblind)
      end
  end.

Definition verify_liquid_swap_output (transaction : LiquidTransaction) (unblind : option LiquidTransaction) (output_index : nat)
    (expected_asset : list Z) (expected_amount_sat : Z) (expected_script_pubkey : list Z)
    : result LiquidError VerifiedLiquidOutput :=
  if (expected_amount_sat =? 0) || is_empty expected_script_pubkey then Err (OutputInvalid "zero amount or empty script")
  else
  output ← ok_or (OutputInvalid "output index") (ltx_outputs transaction !! output_index);
  if negb (bool_decide (lto_script_pubkey output = expected_script_pubkey)) then Err (OutputInvalid "scriptPubKey mismatch")
  else
  let confidential_asset := is_asset_commitment (lto_asset output) in
  let confidential_value := is_value_commitment (lto_value output) in
  if confidential_asset && negb (bool_decide (is_Some (lto_surjection_proof_sha256 output)))
  then Err (OutputInvalid "missing surjection proof")
  else if confidential_value && negb (bool_decide (is_Some (lto_range_proof_sha256 output)))
  then Err (OutputInvalid "missing range proof")
  else
  '(asset, amount_sat, authority) ←
    (if confidential_asset || confidential_value
     then unblinded ← ok_or UnblindFailed unblind; reveal_output transaction unblinded output_index output
     else
     match lto_asset output with
     | ACommitment _ => Err (OutputInvalid "asset shape")
     | AExplicit asset =>
         match lto_value output with
         | VCommitment _ => Err (OutputInvalid "amount shape")
         | VExplicit amount_sat => Ok (asset, amount_sat, ExplicitOutput)
         end
     end);
  if negb (bool_decide (asset = expected_asset)) then Err (UnblindMismatch "asset")
  else if negb (amount_sat =? expected_amount_sat) then Err (UnblindMismatch "amount")
  else Ok (mkVerifiedLiquid asset amount_sat (lto_script_pubkey output) (ltx_raw_sha256 transaction) output_index authority).

(** ** Taproot *)

Definition liquid_tapleaf_hash (script : list Z) : result LiquidError (list Z) :=
  if EL_MAX_SCRIPT_BYTES <? len script then Err (LBounds "Taproot leaf script byte length")
  else Ok (tagged_hash "TapLeaf/elements" ([ELEMENTS_TAPROOT_LEAF_VERSION] ++ write_compact_size (len script) ++ script)).

Definition liquid_tapbranch_hash (left right : list Z) : list Z :=
  let '(first, second) := if bytes_le left right then (left, right) else (right, left) in
  tagged_hash "TapBranch/elements" (first ++ second).

Definition liquid_taproot_output_key (internal_key : list Z) (merkle_root : option (list Z)) : result LiquidError (list Z * Parity) :=
  let message := internal_key ++ default [] merkle_root in
  tweak ← ok_or (OutputInvalid "Taproot tweak exceeds curve order") (scalar_from_be_bytes (tagged_hash "TapTweak/elements" message));
  ok_or (OutputInvalid "Taproot output key tweak") (add_tweak internal_key tweak).

Definition liquid_taproot_script_pubkey (internal_key : list Z) (merkle_root : option (list Z)) : result LiquidError (list Z) :=
  '(output_key, _) ← liquid_taproot_output_key internal_key merkle_root;
  Ok ([0x51; 0x20] ++ output_key).

Definition verify_liquid_taproot_script_pubkey (script_pubkey internal_key : list Z) (merkle_root : option (list Z))
    : result LiquidError unit :=
  expected ← liquid_taproot_script_pubkey internal_key merkle_root;
  if negb (bool_decide (script_pubkey = expected)) then Err TaprootMismatch else Ok tt.

Definition verify_liquid_control_block (output_key script control_block : list Z) : result LiquidError unit :=
  if negb (control_block_length_ok control_block) then Err (Sighash "control block length")
  else
  let byte0 := nth 0 control_block 0 in
  if negb (Z.land byte0 0xfe =? ELEMENTS_TAPROOT_LEAF_VERSION) then Err (Sighash "unsupported Elements leaf version")
  else
  let internal_key := take 32 (drop 1 control_block) in
  if negb (xonly_public_key internal_key) then Err (Sighash "control block internal key")
  else
  root ← liquid_tapleaf_hash script;
  let siblings := drop 33 control_block in
  let root := fold_left liquid_tapbranch_hash (chunks32 (length siblings) siblings) root in
  '(candidate, parity) ← liquid_taproot_output_key internal_key (Some root);
  let expected_parity := if Z.land byte0 1 =? 0 then Even else Odd in
  if negb (bool_decide (candidate = output_key)) || negb (bool_decide (parity = expected_parity))
  then Err TaprootMismatch else Ok tt.

(** ** The signature hash *)

Definition validate_sighash_inputs (transaction : LiquidTransaction) (prevouts : list LiquidPrevout) (input_index : nat)
    (annex : option (list Z)) : result LiquidError unit :=
  let inputs := ltx_inputs transaction in
  if is_empty inputs || (EL_MAX_INPUTS <? len inputs) || negb (length inputs =? length prevouts)%nat
  then Err (Sighash "prevout count")
  else if is_empty (ltx_outputs transaction) || (EL_MAX_OUTPUTS <? len (ltx_outputs transaction))
  then Err (Sighash "output count")
  else
  _ ← ok_or (Sighash "input index") (inputs !! input_index);
  if existsb (fun input => negb (is_empty (lti_script_sig input))) inputs then Err (Sighash "Taproot scriptSig must be empty")
  else if existsb (fun input => negb (Bool.eqb (lti_has_issuance input) (bool_decide (is_Some (lti_issuance input))))) inputs
  then Err (Sighash "issuance flag and payload differ")
  else if existsb (fun prevout => EL_MAX_SCRIPT_BYTES <? len (lp_script_pubkey prevout)) prevouts
  then Err (LBounds "prevout scriptPubKey byte length")
  else
  match annex with
  | None => Ok tt
  | Some annex =>
      if negb (bool_decide (head annex = Some 0x50)) || (EL_MAX_WITNESS_ITEM_BYTES <? len annex)
      then Err (Sighash "annex encoding") else Ok tt
  end.

Definition el_output_key_from_script_pubkey (script_pubkey : list Z) : result LiquidError (list Z) :=
  bytes ← ok_or (Sighash "prevout is not a v1 Taproot output") (strip_prefix_bytes [0x51; 0x20] script_pubkey);
  if negb (length bytes =? 32)%nat then Err (Sighash "Taproot output key length")
  else if xonly_public_key bytes then Ok bytes else Err (Sighash "Taproot output key").

(** [to_be_bytes] of an [u64] is [be_bytes 8]. *)
Definition encode_asset (asset : ConfidentialAsset) : list Z :=
  match asset with
  | AExplicit asset => 1 :: rev asset
  | ACommitment commitment => commitment
  end.
Definition encode_value (value : option ConfidentialValue) : list Z :=
  match value with
  | None => [0]
  | Some (VExplicit value) => 1 :: be_bytes 8 value
  | Some (VCommitment commitment) => commitment
  end.
Definition encode_nonce (nonce : ConfidentialNonce) : list Z :=
  match nonce with
  | NNull => [0]
  | NExplicit nonce | NEphemeralKey nonce => nonce
  end.

(** What each [hash_] function hashes. *)
Definition input_flags (inputs : list LiquidTransactionInput) : list Z :=
  (fun input => Z.lor (Z.shiftl (Z.b2z (lti_has_issuance input)) 7) (Z.shiftl (Z.b2z (lti_is_pegin input)) 6)) <$> inputs.
Definition hash_input_flags (inputs : list LiquidTransactionInput) : list Z := sha256 (input_flags inputs).

Definition outpoint_bytes (input : LiquidTransactionInput) : list Z :=
  rev (lti_previous_txid input) ++ le_bytes 4 (lti_previous_output input).
Definition hash_prevouts (inputs : list LiquidTransactionInput) : list Z := sha256 (concat (outpoint_bytes <$> inputs)).

Definition asset_value_bytes (prevout : LiquidPrevout) : list Z :=
  encode_asset (lp_asset prevout) ++ encode_value (Some (lp_value prevout)).
Definition hash_prevout_asset_values (prevouts : list LiquidPrevout) : list Z := sha256 (concat (asset_value_bytes <$> prevouts)).

Definition prevout_script_bytes (prevout : LiquidPrevout) : list Z := write_var_bytes (lp_script_pubkey prevout).
Definition hash_prevout_scripts (prevouts : list LiquidPrevout) : list Z := sha256 (concat (prevout_script_bytes <$> prevouts)).

Definition sequence_bytes (input : LiquidTransactionInput) : list Z := le_bytes 4 (lti_sequence input).
Definition hash_sequences (inputs : list LiquidTransactionInput) : list Z := sha256 (concat (sequence_bytes <$> inputs)).

Definition issuance_bytes (input : LiquidTransactionInput) : list Z :=
  match lti_issuance input with
  | Some issuance =>
      asset_blinding_nonce issuance ++ asset_entropy issuance
      ++ encode_value (asset_amount issuance) ++ encode_value (token_amount issuance)
  | None => [0]
  end.
Definition hash_issuances (inputs : list LiquidTransactionInput) : list Z := sha256 (concat (issuance_bytes <$> inputs)).

Definition issuance_proof_bytes (input : LiquidTransactionInput) : list Z :=
  write_var_bytes (lti_issuance_amount_range_proof input) ++ write_var_bytes (lti_inflation_keys_range_proof input).
Definition hash_issuance_proofs (inputs : list LiquidTransactionInput) : result LiquidError (list Z) :=
  bytes ← try_map (fun input =>
            if (MAX_PROOF_BYTES <? len (lti_issuance_amount_range_proof input))
               || (MAX_PROOF_BYTES <? len (lti_inflation_keys_range_proof input))
            then Err (LBounds "issuance proof byte length") else Ok (issuance_proof_bytes input)) inputs;
  Ok (sha256 (concat bytes)).

Definition liquid_output_bytes (output : LiquidTransactionOutput) : list Z :=
  encode_asset (lto_asset output) ++ encode_value (Some (lto_value output)) ++ encode_nonce (lto_nonce output)
  ++ write_var_bytes (lto_script_pubkey output).
Definition hash_outputs (outputs : list LiquidTransactionOutput) : result LiquidError (list Z) :=
  bytes ← try_map (fun output =>
            if EL_MAX_SCRIPT_BYTES <? len (lto_script_pubkey output)
            then Err (LBounds "output scriptPubKey byte length") else Ok (liquid_output_bytes output)) outputs;
  Ok (sha256 (concat bytes)).

Definition output_witness_bytes (output : LiquidTransactionOutput) : list Z :=
  write_var_bytes (lto_surjection_proof output) ++ write_var_bytes (lto_range_proof output).
Definition hash_output_witnesses (outputs : list LiquidTransactionOutput) : result LiquidError (list Z) :=
  bytes ← try_map (fun output =>
            if (MAX_PROOF_BYTES <? len (lto_surjection_proof output)) || (MAX_PROOF_BYTES <? len (lto_range_proof output))
            then Err (LBounds "output proof byte length") else Ok (output_witness_bytes output)) outputs;
  Ok (sha256 (concat bytes)).

(** The message of [liquid_taproot_sighash_with_leaf_hash]; the genesis hash is
    in consensus order. *)
Definition liquid_sighash_message (transaction : LiquidTransaction) (prevouts : list LiquidPrevout) (input_index : nat)
    (genesis_hash leaf_hash : list Z) (annex : option (list Z)) : result LiquidError (list Z) :=
  let inputs := ltx_inputs transaction in
  issuance_proofs ← hash_issuance_proofs inputs;
  outputs ← hash_outputs (ltx_outputs transaction);
  output_witnesses ← hash_output_witnesses (ltx_outputs transaction);
  index ← ok_or (LBounds "Taproot input index") (try_from_u U32_MAX (Z.of_nat input_index));
  Ok (genesis_hash ++ genesis_hash ++ [0] ++ le_bytes 4 (i32_to_u32 (ltx_version transaction)) ++ le_bytes 4 (ltx_lock_time transaction)
      ++ hash_input_flags inputs ++ hash_prevouts inputs ++ hash_prevout_asset_values prevouts ++ hash_prevout_scripts prevouts
      ++ hash_sequences inputs ++ hash_issuances inputs ++ issuance_proofs ++ outputs ++ output_witnesses
      ++ [match annex with Some _ => 3 | None => 2 end] ++ le_bytes 4 index
      ++ match annex with Some annex => sha256 (write_var_bytes annex) | None => [] end
      ++ leaf_hash ++ [0] ++ le_bytes 4 U32_MAX).

Definition liquid_taproot_sighash_with_leaf_hash (transaction : LiquidTransaction) (prevouts : list LiquidPrevout) (input_index : nat)
    (genesis_hash leaf_hash : list Z) (annex : option (list Z)) : result LiquidError (list Z) :=
  _ ← validate_sighash_inputs transaction prevouts input_index annex;
  message ← liquid_sighash_message transaction prevouts input_index genesis_hash leaf_hash annex;
  Ok (tagged_hash "TapSighash/elements" message).

Definition liquid_taproot_script_spend_sighash (transaction : LiquidTransaction) (prevouts : list LiquidPrevout) (input_index : nat)
    (genesis_hash script control_block : list Z) (annex : option (list Z)) : result LiquidError (list Z) :=
  _ ← validate_sighash_inputs transaction prevouts input_index annex;
  prevout ← ok_or (Sighash "input index") (prevouts !! input_index);
  output_key ← el_output_key_from_script_pubkey (lp_script_pubkey prevout);
  _ ← verify_liquid_control_block output_key script control_block;
  leaf_hash ← liquid_tapleaf_hash script;
  liquid_taproot_sighash_with_leaf_hash transaction prevouts input_index genesis_hash leaf_hash annex.

Definition verify_liquid_taproot_sighash_signature (sighash signature signer : list Z) : result LiquidError unit :=
  if verify_schnorr signature sighash signer then Ok tt else Err LSignature.

(** *** The provider's signature *)

Definition sign_liquid_taproot_sighash `{!WalletCrypto} (sighash : list Z) (keypair : Z) : list Z :=
  sign_schnorr_no_aux_rand sighash keypair.

Definition sign_liquid_script_path `{!WalletCrypto} (w : ProviderWallet) (path : WalletPath) (transaction : LiquidTransaction)
    (prevouts : list LiquidPrevout) (input_index : nat) (genesis_hash script control_block : list Z)
    : result WalletError WalletSignature :=
  secret_key ← derive_bip86_key w path;
  let public_key := (x_only_public_key (from_secret_key secret_key)).1 in
  sighash ← map_err (fun _ => LiquidSigning)
              (liquid_taproot_script_spend_sighash transaction prevouts input_index genesis_hash script control_block None);
  let signature := sign_liquid_taproot_sighash sighash secret_key in
  _ ← map_err (fun _ => LiquidSigning) (verify_liquid_taproot_sighash_signature sighash signature public_key);
  Ok (mkWalletSignature public_key signature).
End liquid.
