(* ===== verification/LiquidCorrect.v ===== *)
(** * LiquidCorrect: what the Liquid checks promise

    [liquid_parse_exact]: [parse_liquid_transaction] accepts exactly the
    Elements serializations of well-formed transactions within the limits, one
    per transaction, with the id of the transaction without witnesses.
    [liquid_sighash_binds]: the signature hash commits to the network, the
    outpoints, the spent and the new outputs and the leaf.
    [liquid_signature_exact]: the provider's signature is for the spend it
    was asked for, and is given whenever the output commits to the leaf.
    [liquid_asset_exact]: which asset texts are accepted. *)

From S2P Require Import Prelude Text Utf8 Hex Regroup Event Wire Transaction Taproot Scalar Musig2 Musig2Correct Wallet WalletCorrect Ark ArkCorrect Liquid.

(** ** Codecs over the reader of [liquid.rs] *)

Class LCodec {A} (domain : A -> Prop) (write : A -> list Z) (read : LReader A) : Prop := {
  lcodec_read x rest : domain x -> read (write x ++ rest) = Ok (x, rest);
  lcodec_canonical bytes x rest :
    Forall is_byte bytes -> read bytes = Ok (x, rest) -> domain x /\ bytes = write x ++ rest;
}.

Lemma lreader_bind_Ok {A B} (r : LReader A) (f : A -> LReader B) bytes b rest :
  (r ≫= f) bytes = Ok (b, rest) <-> exists a mid, r bytes = Ok (a, mid) /\ f a mid = Ok (b, rest).
Proof. unfold mbind, lreader_bind. destruct (r bytes) as [[a mid]|]; naive_solver. Qed.

Lemma lreader_bind_eq {A B} (r : LReader A) (f : A -> LReader B) bytes a rest :
  r bytes = Ok (a, rest) -> (r ≫= f) bytes = f a rest.
Proof. unfold mbind, lreader_bind. by intros ->. Qed.

Lemma el_read_exact_Ok n bytes l rest :
  0 <= n -> el_read_exact n bytes = Ok (l, rest) <-> bytes = l ++ rest /\ len l = n.
Proof.
  intros Hn. unfold el_read_exact, len. destruct (Z.leb_spec n (Z.of_nat (length bytes))).
  - split.
    + intros [= <- <-]. rewrite take_drop, length_take. split; [done|lia].
    + intros [-> Hl]. replace (Z.to_nat n) with (length l) by lia. by rewrite take_app_length, drop_app_length.
  - split; [done|]. intros [-> Hl]. rewrite length_app in *. lia.
Qed.

Definition bytes_of (n : Z) (l : list Z) : Prop := len l = n /\ Forall is_byte l.

#[export] Instance exact_codec n : 0 <= n -> LCodec (bytes_of n) (fun l => l) (el_read_exact n).
Proof.
  intros Hn. split.
  - intros l rest [Hl _]. by apply el_read_exact_Ok.
  - intros bytes l rest Hb Hr. apply el_read_exact_Ok in Hr as [-> Hl]; [|done]. apply Forall_app in Hb as [Hb _]. done.
Qed.

(** Integers: the codecs of [Wire] on [n] bytes, read by [el_read_exact]. *)
Lemma el_le_codec {A} (P : A -> Prop) (write : A -> list Z) (f : list Z -> A) n :
  Codec P write (bytes ← read_array n; mret (f bytes)) ->
  LCodec P write (bytes ← el_read_exact (Z.of_nat n); mret (f bytes)).
Proof.
  intros HC. assert (forall bytes l rest, el_read_exact (Z.of_nat n) bytes = Ok (l, rest) <-> read_array n bytes = Ok (l, rest)) as Heq.
  { intros bytes l rest. rewrite el_read_exact_Ok, read_array_Ok by lia. unfold len. split; intros []; split; (done || lia). }
  split.
  - intros x rest Hx. pose proof (codec_read x rest Hx) as Hr. apply reader_bind_Ok in Hr as (l & mid & Hl & Hm).
    apply Heq in Hl. rewrite (lreader_bind_eq _ _ _ _ _ Hl). unfold mret, reader_ret, lreader_ret in *. injection Hm as <- <-. done.
  - intros bytes x rest Hb (l & mid & Hl & Hm)%lreader_bind_Ok. apply Heq in Hl. unfold mret, lreader_ret in Hm. injection Hm as <- <-.
    apply codec_canonical; [done|]. by rewrite (reader_bind_eq _ _ _ _ _ Hl).
Qed.

#[export] Instance el_u32_codec : LCodec (in_u U32_MAX) (le_bytes 4) el_read_u32_le.
Proof. apply (el_le_codec _ _ le_value 4), u32_codec. Qed.
#[export] Instance el_i32_codec : LCodec (fun v => - 2 ^ 31 <= v < 2 ^ 31) (fun v => le_bytes 4 (i32_to_u32 v)) el_read_i32_le.
Proof. apply (el_le_codec _ _ (fun bytes => u32_to_i32 (le_value bytes)) 4), i32_codec. Qed.
#[export] Instance el_u16_codec : LCodec (in_u U16_MAX) (le_bytes 2) (bytes ← el_read_exact 2; mret (le_value bytes)).
Proof. apply (el_le_codec _ _ le_value 2), u16_codec. Qed.
#[export] Instance el_u64_codec : LCodec (in_u U64_MAX) (le_bytes 8) (bytes ← el_read_exact 8; mret (le_value bytes)).
Proof. apply (el_le_codec _ _ le_value 8), u64_codec. Qed.

(** The two readers of a compact size agree, up to their errors. *)
Lemma el_read_exact_array n bytes l rest : el_read_exact (Z.of_nat n) bytes = Ok (l, rest) <-> read_array n bytes = Ok (l, rest).
Proof. rewrite el_read_exact_Ok, read_array_Ok by lia. unfold len. split; intros []; split; (done || lia). Qed.

Lemma lreader_map {A B C} (r : LReader A) (f : A -> B) (g : B -> LReader C) bytes :
  ((a ← r; mret (f a)) ≫= g) bytes = (a ← r; g (f a)) bytes.
Proof. unfold mbind, lreader_bind, mret, lreader_ret. by destruct (r bytes) as [[]|]. Qed.

Lemma el_branch n (c : Z -> bool) e e' bytes w rest :
  (value ← (bytes ← el_read_exact (Z.of_nat n); mret (le_value bytes)); if c value then lreader_error e else mret value) bytes = Ok (w, rest)
  <-> (value ← (bytes ← read_array n; mret (le_value bytes)); if c value then reader_error e' else mret value) bytes = Ok (w, rest).
Proof.
  rewrite lreader_bind_Ok, reader_bind_Ok. setoid_rewrite lreader_bind_Ok. setoid_rewrite reader_bind_Ok.
  setoid_rewrite el_read_exact_array. unfold mret, reader_ret, lreader_ret, reader_error, lreader_error.
  split; intros (x & mid & (l & mid' & Hl & Hm) & Hc); exists x, mid; (split; [exists l, mid'; split; [done|]|]); destruct (c x); naive_solver.
Qed.

Lemma el_compact_size_Ok maximum field bytes v rest :
  el_read_compact_size maximum field bytes = Ok (v, rest) <-> read_compact_size maximum bytes = Ok (v, rest).
Proof.
  unfold el_read_compact_size, read_compact_size. rewrite lreader_bind_Ok, reader_bind_Ok.
  assert (forall a mid, el_read_u8 bytes = Ok (a, mid) <-> read_u8 bytes = Ok (a, mid)) as H8
    by (intros a mid; destruct bytes; cbn; naive_solver).
  setoid_rewrite H8. f_equiv; intros first. f_equiv; intros mid. f_equiv. rewrite lreader_bind_Ok, reader_bind_Ok.
  f_equiv; intros w. f_equiv; intros mid'. f_equiv; [|unfold mret, reader_ret, lreader_ret; destruct (maximum <? w); naive_solver].
  destruct (first <=? 0xfc); [unfold mret, reader_ret, lreader_ret; naive_solver|]. destruct (first =? 0xfd); [|destruct (first =? 0xfe)].
  - rewrite <- (el_branch 2 (fun v => v <? 0xfd) (LEncoding "non-canonical compact size")), ?lreader_map. done.
  - rewrite <- (el_branch 4 (fun v => v <=? U16_MAX) (LEncoding "non-canonical compact size")). done.
  - rewrite <- (el_branch 8 (fun v => v <=? U32_MAX) (LEncoding "non-canonical compact size")), ?lreader_map. done.
Qed.

#[export] Instance el_compact_size_codec maximum field :
  maximum <= U64_MAX -> LCodec (in_u maximum) write_compact_size (el_read_compact_size maximum field).
Proof.
  intros Hmax. pose proof (compact_size_codec maximum Hmax) as Hcs. split.
  - intros v rest Hv. apply el_compact_size_Ok. by apply codec_read.
  - intros bytes v rest Hb Hr. apply el_compact_size_Ok in Hr. by apply codec_canonical.
Qed.

Definition short_bytes (maximum : Z) (l : list Z) : Prop := len l <= maximum /\ Forall is_byte l.

#[export] Instance el_var_bytes_codec maximum field :
  maximum <= U64_MAX -> LCodec (short_bytes maximum) write_var_bytes (el_read_var_bytes maximum field).
Proof.
  intros Hmax. pose proof (el_compact_size_codec maximum field Hmax) as Hcs. split.
  - intros l rest [Hl Hb]. unfold write_var_bytes, el_read_var_bytes. rewrite <- app_assoc.
    erewrite lreader_bind_eq; [|apply lcodec_read; unfold in_u, len in *; lia]. apply el_read_exact_Ok; [unfold len; lia|done].
  - intros bytes l rest Hb (n & mid & Hn & Hs)%lreader_bind_Ok. apply lcodec_canonical in Hn as [[Hn0 Hnm] ->]; [|done].
    apply Forall_app in Hb as [_ Hb]. apply el_read_exact_Ok in Hs as [-> <-]; [|done].
    apply Forall_app in Hb as [Hb _]. split; [done|]. unfold write_var_bytes. by rewrite app_assoc.
Qed.

Lemma el_read_n_codec {A} (P : A -> Prop) (write : A -> list Z) (read : LReader A) n :
  LCodec P write read -> LCodec (fun xs => length xs = n /\ Forall P xs) (fun xs => concat (write <$> xs)) (el_read_n n read).
Proof.
  intros HC. split.
  - intros xs rest [Hlen Hxs]. revert n Hlen. induction Hxs as [|x xs Hx _ IH]; intros n Hlen; cbn in Hlen; subst n; [done|].
    cbn [fmap list_fmap concat el_read_n]. rewrite <- app_assoc. erewrite lreader_bind_eq; [|by apply lcodec_read].
    by erewrite lreader_bind_eq; [|by apply IH].
  - induction n as [|n IH]; intros bytes xs rest Hb; cbn [el_read_n].
    { intros [= <- <-]. by split; [split; [|constructor]|]. }
    intros (x & mid & Hx & (xs' & mid' & Hxs & He)%lreader_bind_Ok)%lreader_bind_Ok.
    injection He as <- <-. apply lcodec_canonical in Hx as [Hx ->]; [|done].
    apply Forall_app in Hb as [_ Hb]. apply IH in Hxs as [[Hl Hxs] ->]; [|done].
    cbn. split; [split; [by rewrite Hl|by constructor]|]. by rewrite app_assoc.
Qed.

(** Apply the codec of the next field to a reader on written bytes, and
    recover the written field from a successful read. *)
Ltac lread_field :=
  erewrite lreader_bind_eq; [|apply lcodec_read; try done; unfold in_u, bytes_of, len in *; lia].
Ltac lunread_field H :=
  let x := fresh "x" in let mid := fresh "mid" in let Hx := fresh "Hx" in
  apply lreader_bind_Ok in H as (x & mid & Hx & H);
  match goal with Hb : Forall is_byte _ |- _ =>
    apply lcodec_canonical in Hx as [Hx ->]; [|exact Hb]; apply Forall_app in Hb as [_ Hb] end.

#[export] Instance exact8_codec : LCodec (bytes_of 8) (fun l => l) (el_read_exact 8).
Proof. by apply exact_codec. Qed.
#[export] Instance exact32_codec : LCodec (bytes_of 32) (fun l => l) (el_read_exact 32).
Proof. by apply exact_codec. Qed.
#[export] Instance byte_codec : LCodec is_byte (fun b => [b]) el_read_u8.
Proof.
  split; [done|]. intros [|b bytes] x rest Hb Hr; [done|]. injection Hr as <- <-. apply Forall_cons in Hb as [Hb _]. done.
Qed.
#[export] Instance script_lcodec field :
  LCodec (short_bytes EL_MAX_SCRIPT_BYTES) write_var_bytes (el_read_var_bytes EL_MAX_SCRIPT_BYTES field).
Proof. by apply el_var_bytes_codec. Qed.
#[export] Instance proof_lcodec field : LCodec (short_bytes MAX_PROOF_BYTES) write_var_bytes (el_read_var_bytes MAX_PROOF_BYTES field).
Proof. by apply el_var_bytes_codec. Qed.
#[export] Instance item_lcodec field :
  LCodec (short_bytes EL_MAX_WITNESS_ITEM_BYTES) write_var_bytes (el_read_var_bytes EL_MAX_WITNESS_ITEM_BYTES field).
Proof. by apply el_var_bytes_codec. Qed.

Definition stack_typed (w : list (list Z)) : Prop :=
  len w <= EL_MAX_WITNESS_ITEMS /\ Forall (short_bytes EL_MAX_WITNESS_ITEM_BYTES) w.
Definition stack_bytes (w : list (list Z)) : list Z := write_compact_size (len w) ++ concat (write_var_bytes <$> w).

#[export] Instance stack_codec : LCodec stack_typed stack_bytes el_read_witness_stack.
Proof.
  pose proof (el_compact_size_codec EL_MAX_WITNESS_ITEMS "witness item count" ltac:(done)) as Hcs.
  unfold stack_bytes, el_read_witness_stack. split.
  - intros w rest (Hl & Hi). rewrite <- app_assoc. lread_field.
    apply (lcodec_read (LCodec := el_read_n_codec _ _ _ _ (item_lcodec _))). unfold len. split; [lia|done].
  - intros bytes w rest Hb H. lunread_field H. unfold in_u in Hx.
    apply (lcodec_canonical (LCodec := el_read_n_codec _ _ _ _ (item_lcodec _))) in H as [[Hl Hi] ->]; [|done].
    assert (len w = x) as <- by (unfold len; lia). split; [by split; [lia|]|]. by rewrite app_assoc.
Qed.

Section codecs.
Context `{EventCrypto, TweakAdd, Secp256k1}.

(** The header and the 32 bytes of a commitment, with the shift that makes
    them a compressed point. *)
Definition commitment_typed (even shift : Z) (commitment : list Z) : Prop :=
  exists header bytes, commitment = header :: bytes /\ (header = even \/ header = even + 1) /\ bytes_of 32 bytes
  /\ is_Some (pk_from_slice (header - shift :: bytes)).

Definition confidential_asset_typed (asset : ConfidentialAsset) : Prop :=
  match asset with
  | AExplicit asset => bytes_of 32 asset
  | ACommitment commitment => commitment_typed 0x0a 8 commitment
  end.
Definition value_typed (value : ConfidentialValue) : Prop :=
  match value with
  | VExplicit value => in_u U64_MAX value
  | VCommitment commitment => commitment_typed 0x08 6 commitment
  end.
Definition nonce_typed (nonce : ConfidentialNonce) : Prop :=
  match nonce with
  | NNull => True
  | NExplicit nonce => exists bytes, nonce = 1 :: bytes /\ bytes_of 32 bytes
  | NEphemeralKey nonce => exists header bytes, nonce = header :: bytes /\ (header = 2 \/ header = 3) /\ bytes_of 32 bytes
  end.
Definition optional_typed (value : option ConfidentialValue) : Prop := match value with Some value => value_typed value | None => True end.

Lemma bytes_of_rev n l : bytes_of n l -> bytes_of n (rev l).
Proof. intros [Hl Hb]. split; [unfold len in *; by rewrite length_rev|]. by apply Forall_rev. Qed.

Lemma be_bytes_of_value l : bytes_of 8 l -> be_bytes 8 (be_value l) = l /\ in_u U64_MAX (be_value l).
Proof.
  intros [Hl Hb]. unfold len in Hl. pose proof (be_value_range l Hb) as Hr. replace (length l) with 8%nat in Hr by lia.
  split; [|unfold in_u, U64_MAX; cbn in Hr; lia].
  apply (value_inj 8); [lia|apply be_bytes_bytes|done|rewrite be_bytes_length; lia|].
  change (be_value (be_bytes 8 (be_value l)) = be_value l). rewrite be_bytes_value. by apply Z.mod_small.
Qed.

Lemma read_header {A} (f : Z -> LReader A) h l : (header ← el_read_u8; f header) (h :: l) = f h l.
Proof. done. Qed.
Lemma read_exact_app {A} (f : list Z -> LReader A) n l rest :
  0 <= n -> bytes_of n l -> (bytes ← el_read_exact n; f bytes) (l ++ rest) = f l rest.
Proof. intros Hn [Hl _]. apply lreader_bind_eq. by apply el_read_exact_Ok. Qed.

(** A commitment is read back when its header is one of the two of its kind. *)
Lemma commitment_read (even shift : Z) bytes header k :
  bytes_of 32 bytes -> pk_from_slice (header - shift :: bytes) = Some k -> header = even \/ header = even + 1 ->
  commitment_typed even shift (header :: bytes).
Proof. intros Hb Hk Hh. exists header, bytes. do 3 (split; [done|]). by exists k. Qed.

#[export] Instance asset_codec : LCodec confidential_asset_typed encode_asset read_asset.
Proof.
  split.
  - intros [asset|c] rest Ht; cbn [encode_asset confidential_asset_typed] in *; unfold read_asset.
    + cbn [app]. rewrite read_header, read_exact_app by (done || by apply bytes_of_rev). cbn. by rewrite rev_involutive.
    + destruct Ht as (header & bytes & -> & Hh & Hb & [k Hk]). cbn [app]. rewrite read_header, read_exact_app by done.
      rewrite Hk. destruct Hh as [-> | ->]; done.
  - intros bytes asset rest Hb Hr. unfold read_asset in Hr. lunread_field Hr. lunread_field Hr.
    destruct (Z.eqb_spec x 1) as [->|]; [injection Hr as <- <-; cbn; split; [by apply bytes_of_rev|by rewrite rev_involutive]|].
    destruct (_ || _) eqn:Hh; [|done]. destruct (pk_from_slice _) as [k|] eqn:Hk; [|done]. injection Hr as <- <-.
    split; [|done]. apply (commitment_read _ _ _ _ k); [done..|]. apply orb_true_iff in Hh as [?%Z.eqb_eq|?%Z.eqb_eq]; lia.
Qed.

#[export] Instance optional_value_codec : LCodec optional_typed encode_value read_optional_confidential_value.
Proof.
  split.
  - intros [[v|c]|] rest Ht; cbn [encode_value optional_typed value_typed] in *; unfold read_optional_confidential_value; cbn [app];
      [..|done].
    + rewrite read_header. cbn [Z.eqb Pos.eqb]. rewrite read_exact_app; [|done|split; [unfold len; by rewrite be_bytes_length|apply be_bytes_bytes]].
      unfold mret, lreader_ret. rewrite be_bytes_value, Z.mod_small; [done|]. unfold in_u, U64_MAX in Ht. cbn. lia.
    + destruct Ht as (header & bytes & -> & Hh & Hb & [k Hk]). cbn [app]. rewrite read_header.
      replace (header =? 0) with false by lia. replace (header =? 1) with false by lia.
      replace ((header =? 8) || (header =? 9)) with true by lia. rewrite read_exact_app by done. by rewrite Hk.
  - intros bytes value rest Hb Hr. unfold read_optional_confidential_value in Hr. lunread_field Hr.
    destruct (Z.eqb_spec x 0) as [->|]; [by injection Hr as <- <-|].
    destruct (Z.eqb_spec x 1) as [->|].
    { lunread_field Hr. injection Hr as <- <-. destruct (be_bytes_of_value _ Hx0) as [Hv Hu]. cbn [encode_value]. by rewrite Hv. }
    destruct (_ || _) eqn:Hh; [|done]. lunread_field Hr. destruct (pk_from_slice _) as [k|] eqn:Hk; [|done]. injection Hr as <- <-.
    split; [|done]. apply (commitment_read _ _ _ _ k); [done..|]. apply orb_true_iff in Hh as [?%Z.eqb_eq|?%Z.eqb_eq]; lia.
Qed.

#[export] Instance value_codec : LCodec value_typed (fun value => encode_value (Some value)) read_value.
Proof.
  split.
  - intros v rest Hv. unfold read_value. by erewrite lreader_bind_eq; [|apply lcodec_read].
  - intros bytes v rest Hb Hr. unfold read_value in Hr. lunread_field Hr. destruct x as [v'|]; [|done]. by injection Hr as <- <-.
Qed.

#[export] Instance nonce_codec : LCodec nonce_typed encode_nonce read_nonce.
Proof.
  split.
  - intros [|n|n] rest Ht; cbn [encode_nonce nonce_typed] in *; unfold read_nonce; [done|..].
    + destruct Ht as (bytes & -> & Hb). cbn [app]. rewrite read_header. cbn [Z.eqb Pos.eqb]. by rewrite read_exact_app.
    + destruct Ht as (header & bytes & -> & Hh & Hb). cbn [app]. rewrite read_header.
      replace (header =? 0) with false by lia. replace (header =? 1) with false by lia.
      replace ((header =? 2) || (header =? 3)) with true by lia. by rewrite read_exact_app.
  - intros bytes nonce rest Hb Hr. unfold read_nonce in Hr. lunread_field Hr.
    destruct (Z.eqb_spec x 0) as [->|]; [by injection Hr as <- <-|].
    destruct (Z.eqb_spec x 1) as [->|]; [lunread_field Hr; injection Hr as <- <-; split; [by exists x|done]|].
    destruct (_ || _) eqn:Hh; [|done]. lunread_field Hr. injection Hr as <- <-. split; [|done]. exists x, x0.
    split; [done|]. split; [|done]. apply orb_true_iff in Hh as [?%Z.eqb_eq|?%Z.eqb_eq]; lia.
Qed.

(** ** Inputs and outputs *)

Definition issuance_typed (i : LiquidAssetIssuance) : Prop :=
  bytes_of 32 (asset_blinding_nonce i) /\ bytes_of 32 (asset_entropy i) /\ optional_typed (asset_amount i) /\ optional_typed (token_amount i).
Definition issuance_payload (i : LiquidAssetIssuance) : list Z :=
  asset_blinding_nonce i ++ asset_entropy i ++ encode_value (asset_amount i) ++ encode_value (token_amount i).

#[export] Instance issuance_codec : LCodec issuance_typed issuance_payload read_issuance.
Proof.
  split.
  - intros i rest (Hn & He & Ha & Ht). unfold issuance_payload, read_issuance. rewrite <- !app_assoc.
    rewrite read_exact_app, read_exact_app by done. lread_field. lread_field. by destruct i.
  - intros bytes i rest Hb Hr. unfold read_issuance in Hr. do 4 lunread_field Hr. injection Hr as <- <-.
    split; [done|]. unfold issuance_payload. cbn. by rewrite <- !app_assoc.
Qed.

(** The flags share the word of the output index. *)
Definition index_word (i : LiquidTransactionInput) : Z :=
  lti_previous_output i + (if lti_has_issuance i then 2 ^ 31 else 0) + (if lti_is_pegin i then 2 ^ 30 else 0).

Lemma land_pow2 w n : 0 <= n -> 0 <= w -> negb (Z.land w (Z.shiftl 1 n) =? 0) = negb ((w / 2 ^ n) mod 2 =? 0).
Proof.
  intros Hn Hw. rewrite Z.shiftl_1_l. f_equal. apply Bool.eq_iff_eq_true. rewrite !Z.eqb_eq.
  assert (Z.land w (2 ^ n) = if Z.testbit w n then 2 ^ n else 0) as ->.
  { apply Z.bits_inj'. intros k Hk. rewrite Z.land_spec, Z.pow2_bits_eqb by done. destruct (Z.eqb_spec n k) as [->|Hne].
    - rewrite andb_true_r. destruct (Z.testbit w k); [by rewrite Z.pow2_bits_true|by rewrite Z.bits_0].
    - rewrite andb_false_r. destruct (Z.testbit w n); [by rewrite Z.pow2_bits_false by lia|by rewrite Z.bits_0]. }
  pose proof (Z.pow_pos_nonneg 2 n). pose proof (Z.mod_pos_bound (w / 2 ^ n) 2).
  destruct (Z.testbit w n) eqn:Hb; [apply Z.testbit_true in Hb; [|done]|apply Z.testbit_false in Hb; [|done]]; lia.
Qed.

Lemma split_word w :
  in_u U32_MAX w ->
  let prev := Z.land w 0x3fffffff in
  let issuance := negb (Z.land w (Z.shiftl 1 31) =? 0) in
  let pegin := negb (Z.land w (Z.shiftl 1 30) =? 0) in
  0 <= prev < 2 ^ 30 /\ w = prev + (if issuance then 2 ^ 31 else 0) + (if pegin then 2 ^ 30 else 0).
Proof.
  intros [H0' Hmax]. cbv zeta. rewrite !land_pow2 by lia. change 0x3fffffff with (Z.ones 30). rewrite Z.land_ones by lia.
  unfold U32_MAX in Hmax. split; [by apply Z.mod_pos_bound|].
  destruct (Z.eqb_spec ((w / 2 ^ 31) mod 2) 0), (Z.eqb_spec ((w / 2 ^ 30) mod 2) 0); cbn [negb]; Z.to_euclidean_division_equations; lia.
Qed.

Lemma join_word prev (issuance pegin : bool) :
  0 <= prev < 2 ^ 30 ->
  let w := prev + (if issuance then 2 ^ 31 else 0) + (if pegin then 2 ^ 30 else 0) in
  in_u U32_MAX w /\ Z.land w 0x3fffffff = prev /\ negb (Z.land w (Z.shiftl 1 31) =? 0) = issuance
  /\ negb (Z.land w (Z.shiftl 1 30) =? 0) = pegin.
Proof.
  intros Hp. cbv zeta. assert (in_u U32_MAX (prev + (if issuance then 2 ^ 31 else 0) + (if pegin then 2 ^ 30 else 0))) as Hw.
  { unfold in_u, U32_MAX. destruct issuance, pegin; lia. }
  split; [done|]. destruct Hw as [Hw _]. rewrite !land_pow2 by lia. change 0x3fffffff with (Z.ones 30). rewrite Z.land_ones by lia.
  clear Hw. destruct issuance, pegin; (split; [|split]); try apply negb_true_iff; try apply negb_false_iff;
    rewrite ?Z.eqb_eq, ?Z.eqb_neq; Z.to_euclidean_division_equations; lia.
Qed.

Definition issuance_agrees (i : LiquidTransactionInput) : Prop :=
  match lti_issuance i with
  | Some issuance => lti_has_issuance i = true /\ issuance_typed issuance
  | None => lti_has_issuance i = false
  end.

Definition liquid_input_typed (i : LiquidTransactionInput) : Prop :=
  bytes_of 32 (lti_previous_txid i) /\ 0 <= lti_previous_output i < 2 ^ 30 /\ short_bytes EL_MAX_SCRIPT_BYTES (lti_script_sig i)
  /\ in_u U32_MAX (lti_sequence i) /\ issuance_agrees i.

Definition liquid_input_bytes (i : LiquidTransactionInput) : list Z :=
  rev (lti_previous_txid i) ++ le_bytes 4 (index_word i) ++ write_var_bytes (lti_script_sig i) ++ le_bytes 4 (lti_sequence i)
  ++ from_option issuance_payload [] (lti_issuance i).

(** An input or output without what the witness part adds to it. *)
Definition bare_input (i : LiquidTransactionInput) : LiquidTransactionInput :=
  mkLiquidInput (lti_previous_txid i) (lti_previous_output i) (lti_sequence i) (lti_script_sig i) (lti_has_issuance i)
    (lti_is_pegin i) (lti_issuance i) [] [] [] [].
Definition bare_output (o : LiquidTransactionOutput) : LiquidTransactionOutput :=
  mkLiquidOutput (lto_asset o) (lto_value o) (lto_nonce o) (lto_script_pubkey o) None None [] [].

Ltac cbn_input := cbn [lti_previous_txid lti_previous_output lti_sequence lti_script_sig lti_has_issuance lti_is_pegin lti_issuance
  lti_issuance_amount_range_proof lti_inflation_keys_range_proof lti_script_witness lti_pegin_witness from_option].

#[export] Instance liquid_input_codec : LCodec (fun i => liquid_input_typed i /\ bare_input i = i) liquid_input_bytes read_liquid_input.
Proof.
  split.
  - intros i rest [(Ht & Hp & Hs & Hq & Hi) Hbare]. unfold liquid_input_bytes, read_liquid_input. rewrite <- !app_assoc.
    rewrite read_exact_app by (done || by apply bytes_of_rev).
    destruct (join_word _ (lti_has_issuance i) (lti_is_pegin i) Hp) as (Hw & Hprev & Hhas & Hpeg). unfold index_word.
    erewrite lreader_bind_eq; [|by apply lcodec_read]. lread_field. lread_field. rewrite Hprev, Hhas, Hpeg, rev_involutive.
    unfold issuance_agrees in Hi. destruct i as [txid prev seq sig has peg [issuance|] p1 p2 w1 w2]; cbn in *; injection Hbare as <- <- <- <-.
    + destruct Hi as [-> Hi]. by erewrite lreader_bind_eq; [|by erewrite lreader_bind_eq; [|by apply lcodec_read]].
    + by subst has.
  - intros bytes i rest Hb Hr. unfold read_liquid_input in Hr. do 4 lunread_field Hr.
    destruct (split_word x0 Hx0) as [Hp Hw]. apply lreader_bind_Ok in Hr as (iss & mid' & Hiss & Hr).
    unfold mret, lreader_ret in Hr. apply Ok_inj in Hr. injection Hr as <- <-.
    unfold liquid_input_typed, liquid_input_bytes, index_word, issuance_agrees, bare_input. cbn_input. rewrite rev_involutive, <- Hw.
    destruct (negb (Z.land x0 (Z.shiftl 1 31) =? 0)).
    + lunread_field Hiss. injection Hiss as <- <-. cbn_input. split; [|by rewrite <- !app_assoc]. split; [|done].
      split; [by apply bytes_of_rev|done].
    + injection Hiss as <- <-. cbn_input. split; [|by rewrite app_nil_r, <- !app_assoc]. split; [|done]. split; [by apply bytes_of_rev|done].
Qed.

Definition liquid_output_typed (o : LiquidTransactionOutput) : Prop :=
  confidential_asset_typed (lto_asset o) /\ value_typed (lto_value o) /\ nonce_typed (lto_nonce o)
  /\ short_bytes EL_MAX_SCRIPT_BYTES (lto_script_pubkey o).

#[export] Instance liquid_output_codec :
  LCodec (fun o => liquid_output_typed o /\ bare_output o = o) liquid_output_bytes read_liquid_output.
Proof.
  split.
  - intros o rest [(Ha & Hv & Hn & Hs) Hbare]. unfold liquid_output_bytes, read_liquid_output. rewrite <- !app_assoc.
    lread_field. erewrite lreader_bind_eq; [|by apply (lcodec_read (LCodec := value_codec))]. lread_field. lread_field.
    destruct o. cbn in *. by injection Hbare as <- <- <- <-.
  - intros bytes o rest Hb Hr. unfold read_liquid_output in Hr. do 4 lunread_field Hr. injection Hr as <- <-.
    split; [done|]. unfold liquid_output_bytes. cbn. by rewrite <- !app_assoc.
Qed.

(** ** Witnesses *)

Definition input_witness_typed (i : LiquidTransactionInput) : Prop :=
  short_bytes MAX_PROOF_BYTES (lti_issuance_amount_range_proof i) /\ short_bytes MAX_PROOF_BYTES (lti_inflation_keys_range_proof i)
  /\ stack_typed (lti_script_witness i) /\ stack_typed (lti_pegin_witness i).
Definition input_witness_bytes (i : LiquidTransactionInput) : list Z :=
  issuance_proof_bytes i ++ stack_bytes (lti_script_witness i) ++ stack_bytes (lti_pegin_witness i).

Definition output_witness_typed (o : LiquidTransactionOutput) : Prop :=
  short_bytes MAX_PROOF_BYTES (lto_surjection_proof o) /\ short_bytes MAX_PROOF_BYTES (lto_range_proof o)
  /\ lto_surjection_proof_sha256 o = proof_digest (lto_surjection_proof o) /\ lto_range_proof_sha256 o = proof_digest (lto_range_proof o).

(** A reader that fills in the witness part of an item. *)
Class Fills {A} (P : A -> Prop) (bare : A -> A) (write : A -> list Z) (r : A -> LReader A) : Prop := {
  fills_read x rest : P x -> r (bare x) (write x ++ rest) = Ok (x, rest);
  fills_canonical x bytes y rest :
    Forall is_byte bytes -> r x bytes = Ok (y, rest) -> P y /\ bare y = bare x /\ bytes = write y ++ rest;
}.

#[export] Instance input_witness_fills : Fills input_witness_typed bare_input input_witness_bytes read_input_witness.
Proof.
  split.
  - intros i rest (Hp & Hk & Hs & Hg). unfold input_witness_bytes, issuance_proof_bytes, read_input_witness. rewrite <- !app_assoc.
    lread_field. lread_field. lread_field. lread_field. by destruct i.
  - intros i bytes j rest Hb Hr. unfold read_input_witness in Hr. do 4 lunread_field Hr. injection Hr as <- <-.
    split; [done|]. split; [done|]. unfold input_witness_bytes, issuance_proof_bytes. cbn. by rewrite <- !app_assoc.
Qed.

#[export] Instance output_witness_fills : Fills output_witness_typed bare_output output_witness_bytes read_output_witness.
Proof.
  split.
  - intros o rest (Hp & Hk & Hs & Hg). unfold output_witness_bytes, read_output_witness. rewrite <- !app_assoc.
    lread_field. lread_field. destruct o. cbn in *. by subst.
  - intros i bytes j rest Hb Hr. unfold read_output_witness in Hr. do 2 lunread_field Hr. injection Hr as <- <-.
    split; [done|]. split; [done|]. unfold output_witness_bytes. cbn. by rewrite <- !app_assoc.
Qed.

Lemma el_update_read `{Fills A P bare write r} xs rest :
  Forall P xs -> el_update r (bare <$> xs) (concat (write <$> xs) ++ rest) = Ok (xs, rest).
Proof.
  induction 1 as [|x xs Hx _ IH]; [done|]. cbn [fmap list_fmap concat el_update]. rewrite <- app_assoc.
  erewrite lreader_bind_eq; [|by apply fills_read]. by erewrite lreader_bind_eq; [|exact IH].
Qed.

Lemma el_update_canonical `{Fills A P bare write r} xs bytes ys rest :
  Forall is_byte bytes -> el_update r xs bytes = Ok (ys, rest) ->
  Forall P ys /\ bare <$> ys = bare <$> xs /\ bytes = concat (write <$> ys) ++ rest.
Proof.
  revert bytes ys. induction xs as [|x xs IH]; intros bytes ys Hb Hr; cbn [el_update] in Hr.
  { by injection Hr as <- <-. }
  apply lreader_bind_Ok in Hr as (y & mid & Hy & Hr). apply lreader_bind_Ok in Hr as (tl & mid' & Htl & Hr). injection Hr as <- <-.
  apply fills_canonical in Hy as (Hp & Hbare & ->); [|done]. apply Forall_app in Hb as [_ Hb].
  apply IH in Htl as (Hps & Hbs & ->); [|done]. split; [by constructor|]. cbn. rewrite app_assoc. split; [by f_equal|done].
Qed.

(** ** Transactions *)

Definition body_bytes (inputs : list LiquidTransactionInput) (outputs : list LiquidTransactionOutput) (lock_time : Z) : list Z :=
  write_compact_size (len inputs) ++ concat (liquid_input_bytes <$> inputs)
  ++ write_compact_size (len outputs) ++ concat (liquid_output_bytes <$> outputs) ++ le_bytes 4 lock_time.

Definition stripped_typed (s : Z * bool * list LiquidTransactionInput * list LiquidTransactionOutput * Z) : Prop :=
  let '(version, _, inputs, outputs, lock_time) := s in
  - 2 ^ 31 <= version < 2 ^ 31 /\ 0 < len inputs <= EL_MAX_INPUTS /\ 0 < len outputs <= EL_MAX_OUTPUTS
  /\ Forall (fun i => liquid_input_typed i /\ bare_input i = i) inputs
  /\ Forall (fun o => liquid_output_typed o /\ bare_output o = o) outputs /\ in_u U32_MAX lock_time.
Definition stripped_bytes (s : Z * bool * list LiquidTransactionInput * list LiquidTransactionOutput * Z) : list Z :=
  let '(version, has_witness, inputs, outputs, lock_time) := s in
  le_bytes 4 (i32_to_u32 version) ++ [Z.b2z has_witness] ++ body_bytes inputs outputs lock_time.

#[export] Instance stripped_codec : LCodec stripped_typed stripped_bytes read_stripped.
Proof.
  pose proof (el_compact_size_codec EL_MAX_INPUTS "input count" ltac:(done)) as Hci.
  pose proof (el_compact_size_codec EL_MAX_OUTPUTS "output count" ltac:(done)) as Hco. split.
  - intros [[[[version w] inputs] outputs] lock_time] rest (Hv & Hi & Ho & Hti & Hto & Hl).
    unfold stripped_bytes, body_bytes, read_stripped. rewrite <- !app_assoc.
    erewrite lreader_bind_eq; [|by apply (lcodec_read (LCodec := el_i32_codec))]. cbn [app]. rewrite read_header.
    replace (1 <? Z.b2z w) with false by (by destruct w). replace (Z.b2z w =? 1) with w by (by destruct w).
    erewrite lreader_bind_eq; [|apply lcodec_read; unfold in_u; lia]. rewrite (proj2 (Z.eqb_neq _ 0)) by lia.
    erewrite lreader_bind_eq; [|apply (lcodec_read (LCodec := el_read_n_codec _ _ _ _ liquid_input_codec)); unfold len; split; [lia|done]].
    erewrite lreader_bind_eq; [|apply lcodec_read; unfold in_u; lia]. rewrite (proj2 (Z.eqb_neq _ 0)) by lia.
    erewrite lreader_bind_eq; [|apply (lcodec_read (LCodec := el_read_n_codec _ _ _ _ liquid_output_codec)); unfold len; split; [lia|done]].
    by erewrite lreader_bind_eq; [|by apply lcodec_read].
  - intros bytes s rest Hb Hr. unfold read_stripped in Hr. lunread_field Hr. lunread_field Hr.
    destruct (Z.ltb_spec 1 x0); [done|]. lunread_field Hr. destruct (Z.eqb_spec x1 0); [done|].
    apply lreader_bind_Ok in Hr as (inputs & m1 & Hins & Hr).
    apply (lcodec_canonical (LCodec := el_read_n_codec _ _ _ _ liquid_input_codec)) in Hins as [[Hni Hti] ->]; [|done].
    apply Forall_app in Hb as [_ Hb]. lunread_field Hr. destruct (Z.eqb_spec x2 0); [done|].
    apply lreader_bind_Ok in Hr as (outputs & m2 & Houts & Hr).
    apply (lcodec_canonical (LCodec := el_read_n_codec _ _ _ _ liquid_output_codec)) in Houts as [[Hno Hto] ->]; [|done].
    apply Forall_app in Hb as [_ Hb]. lunread_field Hr. injection Hr as <- <-. unfold in_u, is_byte in *.
    assert (len inputs = x1) as <- by (unfold len; lia). assert (len outputs = x2) as <- by (unfold len; lia).
    split; [split; [done|]; do 4 (split; [lia || done|]); done|]. unfold stripped_bytes, body_bytes. rewrite <- !app_assoc.
    by replace (Z.b2z (x0 =? 1)) with x0 by (destruct (Z.eqb_spec x0 1); cbn; lia).
Qed.

Definition witness_part (tx : LiquidTransaction) : list Z :=
  if ltx_has_witness tx
  then concat (input_witness_bytes <$> ltx_inputs tx) ++ concat (output_witness_bytes <$> ltx_outputs tx) else [].

(** The Elements serialization. *)
Definition liquid_bytes (tx : LiquidTransaction) : list Z :=
  le_bytes 4 (i32_to_u32 (ltx_version tx)) ++ [Z.b2z (ltx_has_witness tx)]
  ++ body_bytes (ltx_inputs tx) (ltx_outputs tx) (ltx_lock_time tx) ++ witness_part tx.

(** What is hashed for the id: no flag and no witness. *)
Definition id_bytes (tx : LiquidTransaction) : list Z :=
  le_bytes 4 (i32_to_u32 (ltx_version tx)) ++ [0] ++ body_bytes (ltx_inputs tx) (ltx_outputs tx) (ltx_lock_time tx).

(** The values the code's types and limits allow. *)
Definition liquid_typed (tx : LiquidTransaction) : Prop :=
  - 2 ^ 31 <= ltx_version tx < 2 ^ 31 /\ 0 < len (ltx_inputs tx) <= EL_MAX_INPUTS /\ 0 < len (ltx_outputs tx) <= EL_MAX_OUTPUTS
  /\ Forall liquid_input_typed (ltx_inputs tx) /\ Forall liquid_output_typed (ltx_outputs tx) /\ in_u U32_MAX (ltx_lock_time tx)
  /\ if ltx_has_witness tx
     then Forall input_witness_typed (ltx_inputs tx) /\ Forall output_witness_typed (ltx_outputs tx)
     else bare_input <$> ltx_inputs tx = ltx_inputs tx /\ bare_output <$> ltx_outputs tx = ltx_outputs tx.

Lemma bare_body inputs outputs lock_time :
  body_bytes (bare_input <$> inputs) (bare_output <$> outputs) lock_time = body_bytes inputs outputs lock_time.
Proof. unfold body_bytes, len. rewrite !length_fmap, <- !list_fmap_compose. done. Qed.

Lemma elements_id version (w : bool) body rest :
  elements_transaction_id (le_bytes 4 version ++ [Z.b2z w] ++ body ++ rest)
    (length (le_bytes 4 version ++ [Z.b2z w] ++ body ++ rest) - length rest)
  = Ok (rev (sha256 (sha256 (le_bytes 4 version ++ [0] ++ body)))).
Proof.
  unfold elements_transaction_id, byte_range. rewrite !length_app, le_bytes_length. cbn [length].
  replace (4 + (1 + (length body + length rest)) - length rest)%nat with (5 + length body)%nat by lia.
  rewrite !(proj2 (Nat.leb_le _ _)) by lia. cbn [andb ok_or mbind result_bind]. rewrite drop_0.
  replace (4 - 0)%nat with (length (le_bytes 4 version)) by (rewrite le_bytes_length; lia). rewrite take_app_length.
  rewrite (drop_app_ge (le_bytes 4 version)) by (rewrite le_bytes_length; lia). rewrite le_bytes_length.
  replace (5 + length body - 5)%nat with (length body) by lia. cbn [Nat.sub app drop]. by rewrite drop_0, take_app_length.
Qed.

(** Reading the witness part of a written transaction. *)
Lemma witness_part_read tx :
  liquid_typed tx ->
  (if ltx_has_witness tx then
     '(inputs, rest) ← el_update read_input_witness (bare_input <$> ltx_inputs tx) (witness_part tx);
     '(outputs, rest) ← el_update read_output_witness (bare_output <$> ltx_outputs tx) rest;
     Ok (inputs, outputs, rest)
   else Ok (bare_input <$> ltx_inputs tx, bare_output <$> ltx_outputs tx, witness_part tx))
  = Ok (ltx_inputs tx, ltx_outputs tx, []).
Proof.
  intros (_ & _ & _ & _ & _ & _ & Hw). unfold witness_part. destruct (ltx_has_witness tx); destruct Hw as [Hi Ho].
  - rewrite el_update_read by done. cbn [mbind result_bind].
    by rewrite <- (app_nil_r (concat _)), el_update_read.
  - by rewrite Hi, Ho.
Qed.

Lemma bare_typed inputs :
  Forall liquid_input_typed inputs -> Forall (fun i => liquid_input_typed i /\ bare_input i = i) (bare_input <$> inputs).
Proof. intros Hi. apply Forall_fmap. by eapply Forall_impl; [exact Hi|]. Qed.
Lemma bare_outputs_typed outputs :
  Forall liquid_output_typed outputs -> Forall (fun o => liquid_output_typed o /\ bare_output o = o) (bare_output <$> outputs).
Proof. intros Hi. apply Forall_fmap. by eapply Forall_impl; [exact Hi|]. Qed.

Lemma parse_written tx :
  liquid_typed tx -> len (liquid_bytes tx) <= EL_MAX_TRANSACTION_BYTES ->
  parse_liquid_transaction (liquid_bytes tx)
  = Ok (mkLiquidTransaction (ltx_version tx) (ltx_inputs tx) (ltx_outputs tx) (ltx_lock_time tx)
          (rev (sha256 (sha256 (id_bytes tx)))) (sha256 (liquid_bytes tx)) (ltx_has_witness tx)).
Proof.
  intros Ht Hlen. pose proof Ht as (Hv & Hi & Ho & Hti & Hto & Hl & _). unfold parse_liquid_transaction.
  rewrite (proj2 (count_guard (liquid_bytes tx) EL_MAX_TRANSACTION_BYTES)).
  2:{ split; [|done]. unfold liquid_bytes, len. rewrite length_app, le_bytes_length. lia. }
  pose proof (lcodec_read (LCodec := stripped_codec)
    (ltx_version tx, ltx_has_witness tx, bare_input <$> ltx_inputs tx, bare_output <$> ltx_outputs tx, ltx_lock_time tx) (witness_part tx)) as Hr.
  unfold stripped_bytes in Hr. rewrite bare_body, <- !app_assoc in Hr. change (le_bytes 4 _ ++ _) with (liquid_bytes tx) in Hr.
  rewrite Hr. 2:{ unfold stripped_typed, len. rewrite !length_fmap.
    do 3 (split; [done|]). split; [by apply bare_typed|]. split; [by apply bare_outputs_typed|done]. }
  cbn [mbind result_bind]. rewrite witness_part_read by done. cbn [is_empty negb].
  pose proof (elements_id (i32_to_u32 (ltx_version tx)) (ltx_has_witness tx) (body_bytes (ltx_inputs tx) (ltx_outputs tx) (ltx_lock_time tx))
             (witness_part tx)) as Hid. change (le_bytes 4 _ ++ [Z.b2z _] ++ _) with (liquid_bytes tx) in Hid. by rewrite Hid.
Qed.

Lemma parse_canonical raw tx :
  Forall is_byte raw -> parse_liquid_transaction raw = Ok tx -> liquid_typed tx /\ raw = liquid_bytes tx /\ len raw <= EL_MAX_TRANSACTION_BYTES.
Proof.
  intros Hb Hp. unfold parse_liquid_transaction in Hp. destruct (is_empty raw || _) eqn:Hc; [done|]. apply count_guard in Hc as [_ Hlen].
  apply bind_Ok in Hp as ([[[[[version w] inputs] outputs] lock_time] rest] & Hs & Hp).
  apply lcodec_canonical in Hs as [(Hv & Hi & Ho & Hti & Hto & Hl) ->]; [|done]. cbv zeta in Hp.
  apply Forall_app in Hb as [_ Hb]. apply bind_Ok in Hp as ([[inputs' outputs'] rest'] & Hw & Hp).
  destruct rest' as [|]; [|done]. cbn [is_empty negb] in Hp. apply bind_Ok in Hp as (id & _ & Hp). apply Ok_inj in Hp. subst tx.
  unfold liquid_typed, liquid_bytes, witness_part.
  cbn [ltx_version ltx_inputs ltx_outputs ltx_lock_time ltx_has_witness].
  assert (bare_input <$> inputs = inputs) as Hbi.
  { clear -Hti. induction Hti as [|i l [_ Hi] _ IH]; [done|]. cbn. by rewrite Hi, IH. }
  assert (bare_output <$> outputs = outputs) as Hbo.
  { clear -Hto. induction Hto as [|i l [_ Hi] _ IH]; [done|]. cbn. by rewrite Hi, IH. }
  assert (bare_input <$> inputs' = inputs /\ bare_output <$> outputs' = outputs /\
    rest = (if w then concat (input_witness_bytes <$> inputs') ++ concat (output_witness_bytes <$> outputs') else []) /\
    if w then Forall input_witness_typed inputs' /\ Forall output_witness_typed outputs'
    else bare_input <$> inputs' = inputs' /\ bare_output <$> outputs' = outputs') as (Hi' & Ho' & -> & Hw').
  { destruct w; [|by injection Hw as <- <- <-]. apply bind_Ok in Hw as ([i1 r1] & Hu1 & Hw). apply bind_Ok in Hw as ([o1 r2] & Hu2 & Hw).
    injection Hw as <- <- ->. apply el_update_canonical in Hu1 as (? & ? & ->); [|done]. apply Forall_app in Hb as [_ Hb].
    apply el_update_canonical in Hu2 as (? & ? & ->); [|done]. rewrite app_nil_r. split; [congruence|]. split; [congruence|done]. }
  subst inputs outputs. unfold stripped_bytes in *. rewrite bare_body in *. rewrite <- !app_assoc in *.
  unfold len in Hi, Ho. rewrite length_fmap in Hi. rewrite length_fmap in Ho. rewrite Forall_fmap in Hti. rewrite Forall_fmap in Hto.
  split; [|done]. do 3 (split; [done|]). split; [by eapply Forall_impl; [exact Hti|intros ? [? _]]|].
  split; [by eapply Forall_impl; [exact Hto|intros ? [? _]]|done].
Qed.

(** The parser accepts exactly the Elements serializations of well-formed
    transactions within the limits: every field is in its range, every
    commitment is a point, the flags agree with the issuances, and without the
    witness flag there is no witness.  So a transaction has one text, and the
    id it is given is the hash of that text without flag and witnesses. *)
Theorem liquid_parse_exact raw tx :
  Forall is_byte raw ->
  parse_liquid_transaction raw = Ok tx
  <-> liquid_typed tx /\ raw = liquid_bytes tx /\ len raw <= EL_MAX_TRANSACTION_BYTES
      /\ ltx_transaction_id tx = rev (sha256 (sha256 (id_bytes tx))) /\ ltx_raw_sha256 tx = sha256 raw.
Proof.
  intros Hb. split.
  - intros Hp. pose proof (parse_canonical raw tx Hb Hp) as (Ht & -> & Hlen). split; [done|]. split; [done|]. split; [done|].
    rewrite parse_written in Hp by done. apply Ok_inj in Hp. rewrite <- Hp at 1 3. done.
  - intros (Ht & -> & Hlen & Hid & Hraw). rewrite parse_written, <- Hid, <- Hraw by done. by destruct tx.
Qed.

(** ** What the signature hash commits to *)

Record LiquidSpend : Type := mkSpend {
  sp_transaction : LiquidTransaction;
  sp_prevouts : list LiquidPrevout;
  sp_index : nat;
  sp_genesis : list Z;
  sp_leaf : list Z;
  sp_annex : option (list Z);
}.

Definition spend_sighash (s : LiquidSpend) : result LiquidError (list Z) :=
  liquid_taproot_sighash_with_leaf_hash (sp_transaction s) (sp_prevouts s) (sp_index s) (sp_genesis s) (sp_leaf s) (sp_annex s).

(** The byte strings that are hashed on the way, in order. *)
Definition hashed (s : LiquidSpend) : list (list Z) :=
  let inputs := ltx_inputs (sp_transaction s) in
  let outputs := ltx_outputs (sp_transaction s) in
  [input_flags inputs; concat (outpoint_bytes <$> inputs); concat (asset_value_bytes <$> sp_prevouts s);
   concat (prevout_script_bytes <$> sp_prevouts s); concat (sequence_bytes <$> inputs); concat (issuance_bytes <$> inputs);
   concat (issuance_proof_bytes <$> inputs); concat (liquid_output_bytes <$> outputs); concat (output_witness_bytes <$> outputs);
   from_option write_var_bytes [] (sp_annex s);
   sha256 (as_bytes "TapSighash/elements") ++ sha256 (as_bytes "TapSighash/elements")
   ++ match liquid_sighash_message (sp_transaction s) (sp_prevouts s) (sp_index s) (sp_genesis s) (sp_leaf s) (sp_annex s) with
      | Ok message => message | Err _ => [] end].

(** Two spends for which SHA-256 gives one digest for two different strings at
    the same place. *)
Definition collides (s s' : LiquidSpend) : Prop :=
  exists k x y, hashed s !! k = Some x /\ hashed s' !! k = Some y /\ x <> y /\ sha256 x = sha256 y.

Definition prevout_typed (p : LiquidPrevout) : Prop :=
  confidential_asset_typed (lp_asset p) /\ value_typed (lp_value p) /\ short_bytes EL_MAX_SCRIPT_BYTES (lp_script_pubkey p).

Definition spend_typed (s : LiquidSpend) : Prop :=
  liquid_typed (sp_transaction s) /\ Forall prevout_typed (sp_prevouts s) /\ bytes_of 32 (sp_genesis s) /\ bytes_of 32 (sp_leaf s)
  /\ from_option (Forall is_byte) True (sp_annex s).

(** An input without its script witnesses, an output without the digests. *)
Definition committed_input (i : LiquidTransactionInput) : LiquidTransactionInput :=
  mkLiquidInput (lti_previous_txid i) (lti_previous_output i) (lti_sequence i) (lti_script_sig i) (lti_has_issuance i)
    (lti_is_pegin i) (lti_issuance i) (lti_issuance_amount_range_proof i) (lti_inflation_keys_range_proof i) [] [].
Definition committed_output (o : LiquidTransactionOutput) : LiquidTransactionOutput :=
  mkLiquidOutput (lto_asset o) (lto_value o) (lto_nonce o) (lto_script_pubkey o) None None (lto_surjection_proof o) (lto_range_proof o).

Definition same_commitment (s s' : LiquidSpend) : Prop :=
  sp_genesis s = sp_genesis s' /\ sp_index s = sp_index s' /\ sp_leaf s = sp_leaf s' /\ sp_annex s = sp_annex s'
  /\ ltx_version (sp_transaction s) = ltx_version (sp_transaction s') /\ ltx_lock_time (sp_transaction s) = ltx_lock_time (sp_transaction s')
  /\ sp_prevouts s = sp_prevouts s'
  /\ committed_input <$> ltx_inputs (sp_transaction s) = committed_input <$> ltx_inputs (sp_transaction s')
  /\ committed_output <$> ltx_outputs (sp_transaction s) = committed_output <$> ltx_outputs (sp_transaction s').

(** *** Encodings that end where they end *)

Lemma lcodec_inj `{LCodec A P write read} x y r r' : P x -> P y -> write x ++ r = write y ++ r' -> x = y /\ r = r'.
Proof.
  intros Hx Hy He. pose proof (lcodec_read x r Hx) as Hr. rewrite He, (lcodec_read y r' Hy) in Hr. apply Ok_inj in Hr. by injection Hr.
Qed.

(** [write] determines [f] and where it ends. *)
Definition splits {A B} (P : A -> Prop) (write : A -> list Z) (f : A -> B) : Prop :=
  (forall x, P x -> write x <> []) /\ forall x y r r', P x -> P y -> write x ++ r = write y ++ r' -> f x = f y /\ r = r'.

Lemma splits_concat {A B} (P : A -> Prop) write (f : A -> B) xs ys :
  splits P write f -> Forall P xs -> Forall P ys -> concat (write <$> xs) = concat (write <$> ys) -> f <$> xs = f <$> ys.
Proof.
  intros [Hne Hs] Hxs. revert ys. induction Hxs as [|x xs Hx _ IH]; intros ys Hys He.
  - destruct Hys as [|y ys Hy Hys]; [done|]. cbn in He. symmetry in He. apply app_eq_nil in He as [He _]. by destruct (Hne y).
  - destruct Hys as [|y ys Hy Hys]; [cbn in He; apply app_eq_nil in He as [He _]; by destruct (Hne x)|].
    cbn in *. apply Hs in He as [Hf He]; [|done..]. rewrite Hf. f_equal. by apply IH.
Qed.

Lemma write_compact_size_nonempty v r : write_compact_size v ++ r <> [].
Proof. unfold write_compact_size. by repeat case_match. Qed.
Lemma write_var_bytes_nonempty l r : write_var_bytes l ++ r <> [].
Proof. unfold write_var_bytes. rewrite <- app_assoc. apply write_compact_size_nonempty. Qed.

Lemma le4_inj v w r r' : in_u U32_MAX v -> in_u U32_MAX w -> le_bytes 4 v ++ r = le_bytes 4 w ++ r' -> v = w /\ r = r'.
Proof. apply (lcodec_inj (H2 := el_u32_codec)). Qed.

Lemma flags_inj inputs inputs' :
  input_flags inputs = input_flags inputs' ->
  (fun i => (lti_has_issuance i, lti_is_pegin i)) <$> inputs = (fun i => (lti_has_issuance i, lti_is_pegin i)) <$> inputs'.
Proof.
  revert inputs'. induction inputs as [|i inputs IH]; intros [|j inputs'] He; try done. unfold input_flags in He. rewrite !fmap_cons in *.
  injection He as Hf He. rewrite (IH inputs') by exact He. f_equal.
  destruct (lti_has_issuance i), (lti_is_pegin i), (lti_has_issuance j), (lti_is_pegin j); done.
Qed.

Lemma index_in_u32 i : liquid_input_typed i -> in_u U32_MAX (lti_previous_output i).
Proof. intros (_ & Hp & _). unfold in_u, U32_MAX. lia. Qed.

Lemma outpoint_splits : splits liquid_input_typed outpoint_bytes (fun i => (lti_previous_txid i, lti_previous_output i)).
Proof.
  unfold outpoint_bytes. split.
  - intros i [[Hl _] _] He. apply app_eq_nil in He as [He _]. apply (f_equal length) in He. rewrite length_rev in He. unfold len in Hl. cbn in He. lia.
  - intros i j r r' Hi Hj He. pose proof Hi as [Hti _]. pose proof Hj as [Htj _]. rewrite <- !app_assoc in He.
    apply (lcodec_inj (H2 := exact32_codec)) in He as [Ht He]; [|by apply bytes_of_rev..].
    apply le4_inj in He as [Hp He]; [|by apply index_in_u32..]. split; [|done]. f_equal; [|done]. by rewrite <- (rev_involutive (lti_previous_txid i)), Ht, rev_involutive.
Qed.

Lemma sequence_splits : splits liquid_input_typed sequence_bytes lti_sequence.
Proof.
  unfold sequence_bytes. split; [by intros i _ He|]. intros i j r r' (_ & _ & _ & Hi & _) (_ & _ & _ & Hj & _) He.
  by apply le4_inj in He.
Qed.

Lemma asset_nonempty a r : confidential_asset_typed a -> encode_asset a ++ r <> [].
Proof. destruct a as [a|c]; [done|]. by intros (h & b & -> & _). Qed.

Lemma asset_value_splits : splits prevout_typed asset_value_bytes (fun p => (lp_asset p, lp_value p)).
Proof.
  unfold asset_value_bytes. split; [intros p (Ha & _); by apply asset_nonempty|].
  intros p q r r' (Ha & Hv & _) (Ha' & Hv' & _) He. rewrite <- !app_assoc in He. apply (lcodec_inj (H2 := asset_codec)) in He as [-> He]; [|done..].
  apply (lcodec_inj (H2 := value_codec)) in He as [-> He]; done.
Qed.

Lemma prevout_script_splits : splits prevout_typed prevout_script_bytes lp_script_pubkey.
Proof.
  unfold prevout_script_bytes. split; [intros p _; rewrite <- (app_nil_r (write_var_bytes _)); apply write_var_bytes_nonempty|].
  intros p q r r' (_ & _ & Hs) (_ & _ & Hs') He. by apply (lcodec_inj (H2 := script_lcodec "")) in He.
Qed.

Lemma issuance_proof_splits :
  splits (fun i => short_bytes MAX_PROOF_BYTES (lti_issuance_amount_range_proof i) /\ short_bytes MAX_PROOF_BYTES (lti_inflation_keys_range_proof i))
    issuance_proof_bytes (fun i => (lti_issuance_amount_range_proof i, lti_inflation_keys_range_proof i)).
Proof.
  unfold issuance_proof_bytes. split; [intros i _; apply write_var_bytes_nonempty|]. intros i j r r' [Hp Hk] [Hp' Hk'] He.
  rewrite <- !app_assoc in He. apply (lcodec_inj (H2 := proof_lcodec "")) in He as [-> He]; [|done..].
  apply (lcodec_inj (H2 := proof_lcodec "")) in He as [-> He]; done.
Qed.

Lemma liquid_output_splits :
  splits liquid_output_typed liquid_output_bytes (fun o => (lto_asset o, lto_value o, lto_nonce o, lto_script_pubkey o)).
Proof.
  unfold liquid_output_bytes. split; [intros o (Ha & _); by apply asset_nonempty|].
  intros p q r r' (Ha & Hv & Hn & Hs) (Ha' & Hv' & Hn' & Hs') He. rewrite <- !app_assoc in He.
  apply (lcodec_inj (H2 := asset_codec)) in He as [-> He]; [|done..]. apply (lcodec_inj (H2 := value_codec)) in He as [-> He]; [|done..].
  apply (lcodec_inj (H2 := nonce_codec)) in He as [-> He]; [|done..]. apply (lcodec_inj (H2 := script_lcodec "")) in He as [-> He]; done.
Qed.

Lemma output_proof_splits :
  splits (fun o => short_bytes MAX_PROOF_BYTES (lto_surjection_proof o) /\ short_bytes MAX_PROOF_BYTES (lto_range_proof o))
    output_witness_bytes (fun o => (lto_surjection_proof o, lto_range_proof o)).
Proof.
  unfold output_witness_bytes. split; [intros o _; apply write_var_bytes_nonempty|]. intros i j r r' [Hp Hk] [Hp' Hk'] He.
  rewrite <- !app_assoc in He. apply (lcodec_inj (H2 := proof_lcodec "")) in He as [-> He]; [|done..].
  apply (lcodec_inj (H2 := proof_lcodec "")) in He as [-> He]; done.
Qed.

(** The marker of a missing issuance could start an issuance: the flags, which
    are hashed as well, tell them apart. *)
Lemma issuances_inj inputs inputs' :
  Forall liquid_input_typed inputs -> Forall liquid_input_typed inputs' ->
  lti_has_issuance <$> inputs = lti_has_issuance <$> inputs' ->
  concat (issuance_bytes <$> inputs) = concat (issuance_bytes <$> inputs') -> lti_issuance <$> inputs = lti_issuance <$> inputs'.
Proof.
  intros Hi. revert inputs'. induction Hi as [|i inputs (_ & _ & _ & _ & Hi) _ IH]; intros [|j inputs'] Hj Hf He; try done.
  apply Forall_cons in Hj as [(_ & _ & _ & _ & Hj) Hjs]. rewrite !fmap_cons in *. injection Hf as Hf Hfs. cbn [concat] in He.
  unfold issuance_bytes at 1 3 in He. unfold issuance_agrees in Hi, Hj.
  destruct (lti_issuance i) as [a|] eqn:Hai, (lti_issuance j) as [b|] eqn:Hbj; [|destruct Hi; congruence|destruct Hj; congruence|].
  - destruct Hi as [_ Hi], Hj as [_ Hj]. apply (lcodec_inj (H2 := issuance_codec)) in He as [-> He]; [|done..]. f_equal. by apply IH.
  - injection He as He. f_equal. by apply IH.
Qed.

Lemma proofs_short tx :
  liquid_typed tx ->
  Forall (fun i => short_bytes MAX_PROOF_BYTES (lti_issuance_amount_range_proof i) /\ short_bytes MAX_PROOF_BYTES (lti_inflation_keys_range_proof i)) (ltx_inputs tx)
  /\ Forall (fun o => short_bytes MAX_PROOF_BYTES (lto_surjection_proof o) /\ short_bytes MAX_PROOF_BYTES (lto_range_proof o)) (ltx_outputs tx).
Proof.
  intros (_ & _ & _ & _ & _ & _ & Hw). assert (short_bytes MAX_PROOF_BYTES []) as He by (split; [done|constructor]).
  destruct (ltx_has_witness tx); destruct Hw as [Hi Ho].
  - split; (eapply Forall_impl; [eassumption|]); [by intros i (? & ? & _)|by intros o (? & ? & _)].
  - rewrite <- Hi, <- Ho. split; apply Forall_fmap, Forall_true; by intros.
Qed.

Lemma fmap_eq_Forall2 {A B} (f : A -> B) xs ys : f <$> xs = f <$> ys <-> Forall2 (fun x y => f x = f y) xs ys.
Proof.
  revert ys. induction xs as [|x xs IH]; intros [|y ys]; rewrite ?fmap_cons; cbn; split; intros He; try done; try by inversion He.
  - injection He as He Hes. constructor; [done|by apply IH].
  - apply Forall2_cons in He as [He Hes]. f_equal; [done|by apply IH].
Qed.

(** The parts of the inputs, outputs and prevouts make them. *)
Lemma inputs_same (xs ys : list LiquidTransactionInput) :
  Forall (fun i => lti_script_sig i = []) xs -> Forall (fun i => lti_script_sig i = []) ys ->
  (fun i => (lti_has_issuance i, lti_is_pegin i)) <$> xs = (fun i => (lti_has_issuance i, lti_is_pegin i)) <$> ys ->
  (fun i => (lti_previous_txid i, lti_previous_output i)) <$> xs = (fun i => (lti_previous_txid i, lti_previous_output i)) <$> ys ->
  lti_sequence <$> xs = lti_sequence <$> ys -> lti_issuance <$> xs = lti_issuance <$> ys ->
  (fun i => (lti_issuance_amount_range_proof i, lti_inflation_keys_range_proof i)) <$> xs
  = (fun i => (lti_issuance_amount_range_proof i, lti_inflation_keys_range_proof i)) <$> ys ->
  committed_input <$> xs = committed_input <$> ys.
Proof.
  intros Hx. revert ys. induction Hx as [|x xs Hx _ IH]; intros [|y ys] Hy H1' H2' H3' H4' H5'; try done.
  apply Forall_cons in Hy as [Hy Hys]. rewrite !fmap_cons in *. injection H1' as ? ? ?. injection H2' as ? ? ?. injection H3' as ? ?.
  injection H4' as ? ?. injection H5' as ? ? ?. f_equal; [|by apply IH]. unfold committed_input. congruence.
Qed.

Lemma outputs_same (xs ys : list LiquidTransactionOutput) :
  (fun o => (lto_asset o, lto_value o, lto_nonce o, lto_script_pubkey o)) <$> xs
  = (fun o => (lto_asset o, lto_value o, lto_nonce o, lto_script_pubkey o)) <$> ys ->
  (fun o => (lto_surjection_proof o, lto_range_proof o)) <$> xs = (fun o => (lto_surjection_proof o, lto_range_proof o)) <$> ys ->
  committed_output <$> xs = committed_output <$> ys.
Proof.
  revert ys. induction xs as [|x xs IH]; intros [|y ys] H1' H2'; try done. rewrite !fmap_cons in *.
  injection H1' as ? ? ? ? ?. injection H2' as ? ? ?. f_equal; [|by apply IH]. unfold committed_output. congruence.
Qed.

Lemma prevouts_same (xs ys : list LiquidPrevout) :
  (fun p => (lp_asset p, lp_value p)) <$> xs = (fun p => (lp_asset p, lp_value p)) <$> ys -> lp_script_pubkey <$> xs = lp_script_pubkey <$> ys ->
  xs = ys.
Proof.
  revert ys. induction xs as [|[a v s] xs IH]; intros [|[a' v' s'] ys] H1' H2'; try done. rewrite !fmap_cons in *.
  injection H1' as ? ? ?. injection H2' as ? ?. cbn in *. subst. f_equal. by apply IH.
Qed.

(** What an accepted sighash computation has checked and hashed. *)
Lemma sighash_Ok s h :
  spend_sighash s = Ok h ->
  Forall (fun i => lti_script_sig i = []) (ltx_inputs (sp_transaction s)) /\ in_u U32_MAX (Z.of_nat (sp_index s))
  /\ from_option (fun annex => len annex <= U64_MAX) True (sp_annex s)
  /\ exists message, liquid_sighash_message (sp_transaction s) (sp_prevouts s) (sp_index s) (sp_genesis s) (sp_leaf s) (sp_annex s) = Ok message
     /\ h = tagged_hash "TapSighash/elements" message.
Proof.
  unfold spend_sighash, liquid_taproot_sighash_with_leaf_hash. intros Hs. apply bind_Ok in Hs as (u & Hv & Hs).
  apply bind_Ok in Hs as (message & Hm & Hs). apply Ok_inj in Hs as <-. split; [|split; [|split; [|by exists message]]].
  - unfold validate_sighash_inputs in Hv. destruct (_ || _); [done|]. destruct (_ || _); [done|]. apply bind_Ok in Hv as (i & _ & Hv).
    destruct (existsb _ (ltx_inputs _)) eqn:He; [done|]. apply Forall_forall. intros i' Hi'.
    destruct (lti_script_sig i') eqn:Hsig; [done|]. apply not_true_iff_false in He. destruct He. apply existsb_exists.
    exists i'. split; [by apply list_elem_of_In|]. by rewrite Hsig.
  - unfold liquid_sighash_message in Hm. do 3 (apply bind_Ok in Hm as (? & _ & Hm)). apply bind_Ok in Hm as (n & Hn%ok_or_Ok & _).
    unfold try_from_u in Hn. destruct (Z.leb_spec (Z.of_nat (sp_index s)) U32_MAX); [|done]. unfold in_u. lia.
  - unfold validate_sighash_inputs in Hv. destruct (_ || _); [done|]. destruct (_ || _); [done|]. apply bind_Ok in Hv as (i & _ & Hv).
    do 3 (destruct (existsb _ _); [done|]). destruct (sp_annex s) as [annex|]; [|done]. destruct (_ || _) eqn:Ha; [done|].
    apply orb_false_iff in Ha as [_ Ha%Z.ltb_ge]. cbn. unfold EL_MAX_WITNESS_ITEM_BYTES, U64_MAX in *. lia.
Qed.

Lemma try_map_guarded {A} (c : A -> bool) (e : LiquidError) (w : A -> list Z) l bs :
  try_map (fun x => if c x then Err e else Ok (w x)) l = Ok bs -> bs = w <$> l.
Proof.
  rewrite try_map_Ok_Forall2. induction 1 as [|x b l bs Hx _ IH]; [done|]. destruct (c x); [done|]. apply Ok_inj in Hx as <-. by rewrite IH.
Qed.

(** The message, with what is hashed. *)
Lemma sighash_message_eq s message :
  liquid_sighash_message (sp_transaction s) (sp_prevouts s) (sp_index s) (sp_genesis s) (sp_leaf s) (sp_annex s) = Ok message ->
  message = sp_genesis s ++ sp_genesis s ++ [0] ++ le_bytes 4 (i32_to_u32 (ltx_version (sp_transaction s)))
    ++ le_bytes 4 (ltx_lock_time (sp_transaction s)) ++ concat (sha256 <$> take 9 (hashed s))
    ++ [match sp_annex s with Some _ => 3 | None => 2 end] ++ le_bytes 4 (Z.of_nat (sp_index s))
    ++ match sp_annex s with Some annex => sha256 (write_var_bytes annex) | None => [] end
    ++ sp_leaf s ++ [0] ++ le_bytes 4 U32_MAX.
Proof.
  unfold liquid_sighash_message. intros Hm. apply bind_Ok in Hm as (p & Hp & Hm). apply bind_Ok in Hm as (o & Ho & Hm).
  apply bind_Ok in Hm as (w & Hw & Hm). apply bind_Ok in Hm as (n & Hn%ok_or_Ok & Hm). apply Ok_inj in Hm as <-.
  assert (n = Z.of_nat (sp_index s)) as -> by (unfold try_from_u in Hn; destruct (_ <=? _); [by injection Hn|done]).
  unfold hash_issuance_proofs in Hp. apply bind_Ok in Hp as (? & ->%try_map_guarded & Hp). apply Ok_inj in Hp as <-.
  unfold hash_outputs in Ho. apply bind_Ok in Ho as (? & ->%try_map_guarded & Ho). apply Ok_inj in Ho as <-.
  unfold hash_output_witnesses in Hw. apply bind_Ok in Hw as (? & ->%try_map_guarded & Hw). apply Ok_inj in Hw as <-.
  cbv [hashed]. cbn [take fmap list_fmap concat]. rewrite app_nil_r, <- !app_assoc. done.
Qed.

Lemma agree_or_collide s s' k x y :
  hashed s !! k = Some x -> hashed s' !! k = Some y -> sha256 x = sha256 y -> collides s s' \/ x = y.
Proof. intros Hx Hy He. destruct (decide (x = y)) as [->|Hne]; [by right|]. left. by exists k, x, y. Qed.

Context `{!Sha256Digest}.

Lemma digests_agree s s' r r' :
  concat (sha256 <$> take 9 (hashed s)) ++ r = concat (sha256 <$> take 9 (hashed s')) ++ r' ->
  r = r' /\ (collides s s' \/ take 9 (hashed s) = take 9 (hashed s')).
Proof.
  assert (forall xs ys : list (list Z), length xs = length ys -> concat (sha256 <$> xs) ++ r = concat (sha256 <$> ys) ++ r' ->
    r = r' /\ Forall2 (fun x y => sha256 x = sha256 y) xs ys) as Hgen.
  { induction xs as [|x xs IH]; intros [|y ys] Hl He; try done. cbn in He. rewrite <- !app_assoc in He.
    apply app_inj_1 in He as [Hxy He]; [|by rewrite !sha256_length]. apply IH in He as [-> Hf]; [|by injection Hl]. by split; [|constructor]. }
  intros He. apply Hgen in He as [-> Hf]; [|done]. split; [done|].
  destruct (decide (take 9 (hashed s) = take 9 (hashed s'))) as [|Hne]; [by right|]. left.
  assert (exists k x y, take 9 (hashed s) !! k = Some x /\ take 9 (hashed s') !! k = Some y /\ x <> y /\ sha256 x = sha256 y) as (k & x & y & Hx & Hy & Hd).
  { clear -Hf Hne. induction Hf as [|x y xs ys Hxy _ IH]; [done|]. destruct (decide (x = y)) as [->|Hd].
    - destruct IH as (k & a & b & ? & ? & ?); [congruence|]. by exists (S k), a, b.
    - by exists 0%nat, x, y. }
  apply lookup_take_Some in Hx as [Hx _]. apply lookup_take_Some in Hy as [Hy _]. by exists k, x, y.
Qed.

Lemma annexes_agree s s' r r' :
  from_option (Forall is_byte) True (sp_annex s) -> from_option (Forall is_byte) True (sp_annex s') ->
  from_option (fun annex => len annex <= U64_MAX) True (sp_annex s) -> from_option (fun annex => len annex <= U64_MAX) True (sp_annex s') ->
  (match sp_annex s with Some _ => 3 | None => 2 end : Z) = match sp_annex s' with Some _ => 3 | None => 2 end ->
  match sp_annex s with Some annex => sha256 (write_var_bytes annex) | None => [] end ++ r
  = match sp_annex s' with Some annex => sha256 (write_var_bytes annex) | None => [] end ++ r' ->
  r = r' /\ (collides s s' \/ sp_annex s = sp_annex s').
Proof.
  intros Hb Hb' Hl Hl' Ht He. destruct (sp_annex s) as [a|] eqn:Ha, (sp_annex s') as [a'|] eqn:Ha'; try done; [|by split; [|right]].
  apply app_inj_1 in He as [He ->]; [|by rewrite !sha256_length]. split; [done|].
  apply (agree_or_collide s s' 9) in He as [|He]; [by left| |unfold hashed; by rewrite Ha|unfold hashed; by rewrite Ha']. right. f_equal.
  rewrite <- (app_nil_r (write_var_bytes a)), <- (app_nil_r (write_var_bytes a')) in He.
  by apply (lcodec_inj (H2 := el_var_bytes_codec U64_MAX "" ltac:(done))) in He as [-> _].
Qed.

(** The header of the message and everything it holds in the clear. *)
Lemma messages_agree s s' m m' :
  spend_typed s -> spend_typed s' -> in_u U32_MAX (Z.of_nat (sp_index s)) -> in_u U32_MAX (Z.of_nat (sp_index s')) ->
  from_option (fun annex => len annex <= U64_MAX) True (sp_annex s) -> from_option (fun annex => len annex <= U64_MAX) True (sp_annex s') ->
  liquid_sighash_message (sp_transaction s) (sp_prevouts s) (sp_index s) (sp_genesis s) (sp_leaf s) (sp_annex s) = Ok m ->
  liquid_sighash_message (sp_transaction s') (sp_prevouts s') (sp_index s') (sp_genesis s') (sp_leaf s') (sp_annex s') = Ok m' -> m = m' ->
  (sp_genesis s = sp_genesis s' /\ sp_index s = sp_index s' /\ sp_leaf s = sp_leaf s'
   /\ ltx_version (sp_transaction s) = ltx_version (sp_transaction s') /\ ltx_lock_time (sp_transaction s) = ltx_lock_time (sp_transaction s'))
  /\ (collides s s' \/ sp_annex s = sp_annex s' /\ take 9 (hashed s) = take 9 (hashed s')).
Proof.
  intros (Ht & _ & Hg & Hleaf & Hannex) (Ht' & _ & Hg' & Hleaf' & Hannex') Hi Hi' Hl Hl' Hm Hm' He.
  rewrite (sighash_message_eq _ _ Hm), (sighash_message_eq _ _ Hm') in He. clear Hm Hm'.
  destruct Ht as (Hv & _ & _ & _ & _ & Hlock & _), Ht' as (Hv' & _ & _ & _ & _ & Hlock' & _).
  apply (lcodec_inj (H2 := exact32_codec)) in He as [Heg He]; [|done..]. apply (lcodec_inj (H2 := exact32_codec)) in He as [_ He]; [|done..].
  apply app_inj_1 in He as [_ He]; [|done]. apply (lcodec_inj (H2 := el_i32_codec)) in He as [Hev He]; [|done..].
  apply le4_inj in He as [Hel He]; [|done..]. apply digests_agree in He as [He Hd]. apply app_inj_1 in He as [Het He]; [|done]. injection Het as Het.
  apply le4_inj in He as [Hei He]; [|done..]. apply annexes_agree in He as [He Ha]; [|done..].
  apply (lcodec_inj (H2 := exact32_codec)) in He as [Hef _]; [|done..].
  split; [split; [done|]; split; [lia|done]|]. destruct Hd as [|Hd]; [by left|]. destruct Ha as [|Ha]; [by left|]. by right.
Qed.

(** What is hashed determines what is spent and paid. *)
Lemma hashed_determines s s' :
  spend_typed s -> spend_typed s' -> Forall (fun i => lti_script_sig i = []) (ltx_inputs (sp_transaction s)) ->
  Forall (fun i => lti_script_sig i = []) (ltx_inputs (sp_transaction s')) -> take 9 (hashed s) = take 9 (hashed s') ->
  sp_prevouts s = sp_prevouts s' /\ committed_input <$> ltx_inputs (sp_transaction s) = committed_input <$> ltx_inputs (sp_transaction s')
  /\ committed_output <$> ltx_outputs (sp_transaction s) = committed_output <$> ltx_outputs (sp_transaction s').
Proof.
  intros (Ht & Hp & _) (Ht' & Hp' & _) Hsig Hsig' He. destruct (proofs_short _ Ht) as [Hpi Hpo], (proofs_short _ Ht') as [Hpi' Hpo'].
  destruct Ht as (_ & _ & _ & Hi & Ho & _), Ht' as (_ & _ & _ & Hi' & Ho' & _).
  cbv [hashed] in He. cbn [take] in He. injection He as Hf Hop Hav Hsc Hsq Hiss Hip Hout Hwit. apply flags_inj in Hf.
  split; [|split].
  - apply prevouts_same; [by eapply splits_concat; [apply asset_value_splits|..]|by eapply splits_concat; [apply prevout_script_splits|..]].
  - apply inputs_same; [done|done|done|by eapply splits_concat; [apply outpoint_splits|..]|by eapply splits_concat; [apply sequence_splits|..]| |].
    + apply issuances_inj; [done..| |done]. apply (f_equal (fmap fst)) in Hf. by rewrite <- !list_fmap_compose in Hf.
    + eapply splits_concat; [apply issuance_proof_splits|done..].
  - apply outputs_same; [by eapply splits_concat; [apply liquid_output_splits|..]|by eapply splits_concat; [apply output_proof_splits|..]].
Qed.

(** The signature hash of a Liquid script spend commits to the spend: two
    well-formed spends with the same hash agree on the network, the version
    and lock time, every outpoint, sequence, peg-in and issuance with its
    proofs, every spent output and every new output with its proofs, the
    input, the annex and the leaf, unless two different strings that were
    hashed at the same place have the same SHA-256 digest. *)
Theorem liquid_sighash_binds s s' h :
  spend_typed s -> spend_typed s' -> spend_sighash s = Ok h -> spend_sighash s' = Ok h ->
  collides s s' \/ same_commitment s s'.
Proof.
  intros Ht Ht' Hs Hs'. apply sighash_Ok in Hs as (Hsig & Hidx & Hal & m & Hm & ->). apply sighash_Ok in Hs' as (Hsig' & Hidx' & Hal' & m' & Hm' & He).
  unfold tagged_hash in He. apply (agree_or_collide s s' 10) in He as [|He]; [by left| |unfold hashed; by rewrite Hm|unfold hashed; by rewrite Hm'].
  do 2 (apply app_inj_1 in He as [_ He]; [|done]).
  destruct (messages_agree s s' m m') as ((Hg & Hi & Hl & Hv & Hk) & [|[Ha Hh]]); [done..|by left|]. right.
  destruct (hashed_determines s s') as (Hp & Hin & Hout); [done..|]. done.
Qed.
End codecs.

(** ** Commitments *)

Section commitments.
Context `{EventCrypto, TweakAdd, Secp256k1}.

(** [cb] is the path from the leaf of [script] to the output key [q]. *)
Definition liquid_committed (q script cb leaf : list Z) : Prop :=
  exists parity internal siblings,
    cb = control_block_of ELEMENTS_TAPROOT_LEAF_VERSION parity internal siblings
    /\ length internal = 32%nat /\ xonly_public_key internal = true
    /\ Forall (fun s => length s = 32%nat) siblings /\ (length siblings <= 128)%nat
    /\ liquid_tapleaf_hash script = Ok leaf
    /\ liquid_taproot_output_key internal (Some (fold_left liquid_tapbranch_hash siblings leaf)) = Ok (q, parity).

Lemma liquid_control_block_complete q script cb leaf :
  liquid_committed q script cb leaf -> verify_liquid_control_block q script cb = Ok tt.
Proof.
  intros (parity & internal & siblings & -> & Hi & Hx & Hs & Hn & Hleaf & Hout). unfold verify_liquid_control_block, control_block_length_ok.
  rewrite control_block_length by done. unfold len.
  replace (33 + 32 * Z.of_nat (length siblings) - 33) with (Z.of_nat (length siblings) * 32) by lia.
  rewrite Z_mod_mult. decide_if. cbn [negb orb nth control_block_of].
  destruct (control_byte_join ELEMENTS_TAPROOT_LEAF_VERSION parity) as [Hv Hp]; [done|done|]. rewrite Hv, Hp, Z.eqb_refl.
  unfold control_block_of. cbn [skipn negb]. rewrite drop_0, take_app_length' by done. rewrite Hx. cbn [negb]. rewrite Hleaf.
  cbn [mbind result_bind skipn]. rewrite drop_app_length' by done. rewrite chunks32_concat by done.
  rewrite Hout. cbn. by rewrite !bool_decide_eq_true_2.
Qed.

Lemma liquid_control_block_sound q script cb :
  Forall is_byte cb -> verify_liquid_control_block q script cb = Ok tt -> exists leaf, liquid_committed q script cb leaf.
Proof.
  intros Hb Hv. unfold verify_liquid_control_block in Hv. destruct (control_block_length_ok cb) eqn:Hc; [|done]. cbn [negb] in Hv.
  unfold control_block_length_ok in Hc. destruct cb as [|b cb]; [done|]. apply Forall_cons in Hb as [Hb _].
  cbn [nth skipn] in Hv. rewrite drop_0 in Hv. destruct (control_byte_split b Hb) as [Hsplit _].
  destruct (Z.eqb_spec (Z.land b 0xfe) ELEMENTS_TAPROOT_LEAF_VERSION) as [Hver|]; [|done]. cbn [negb] in Hv. rewrite Hver in Hsplit.
  destruct (xonly_public_key (take 32 cb)) eqn:Hx; [|done]. cbn [negb] in Hv. apply bind_Ok in Hv as (leaf & Hleaf & Hv).
  apply bind_Ok in Hv as ([candidate par] & Hout & Hv). case_bool_decide as Hq; [|done]. case_bool_decide as Hp; [|done]. clear Hv. bool_to_prop. subst candidate par.
  unfold len in *. cbn [length] in *.
  match goal with Hm : (Z.of_nat (S (length cb)) - 33) mod 32 = 0 |- _ =>
    apply Z.div_exact in Hm; [|lia]; set (n := (Z.of_nat (S (length cb)) - 33) / 32) in Hm end.
  destruct (chunks32_split (length (drop 32 cb)) (drop 32 cb) (Z.to_nat n)) as (Hs & Hcat & Hl); [rewrite length_drop; lia|lia|].
  exists leaf, (if Z.land b 1 =? 0 then Even else Odd), (take 32 cb), (chunks32 (length (drop 32 cb)) (drop 32 cb)).
  split; [unfold control_block_of; by rewrite Hcat, take_drop, <- Hsplit|]. split; [rewrite length_take; lia|].
  split; [done|]. split; [done|]. split; [lia|]. done.
Qed.

Lemma script_spend_sighash_Ok tx prevouts n genesis script cb annex h :
  Forall is_byte cb ->
  liquid_taproot_script_spend_sighash tx prevouts n genesis script cb annex = Ok h
  <-> exists prevout q leaf, prevouts !! n = Some prevout /\ lp_script_pubkey prevout = [0x51; 0x20] ++ q /\ length q = 32%nat
      /\ xonly_public_key q = true /\ liquid_committed q script cb leaf /\ spend_sighash (mkSpend tx prevouts n genesis leaf annex) = Ok h.
Proof.
  intros Hb. unfold liquid_taproot_script_spend_sighash. split.
  - intros Hs. apply bind_Ok in Hs as ([] & _ & Hs). apply bind_Ok in Hs as (prevout & Hp%ok_or_Ok & Hs). apply bind_Ok in Hs as (q & Hq & Hs).
    apply bind_Ok in Hs as ([] & Hcb & Hs). apply bind_Ok in Hs as (leaf & Hleaf & Hs).
    apply liquid_control_block_sound in Hcb as (leaf' & Hc); [|done].
    assert (leaf' = leaf) as -> by (destruct Hc as (? & ? & ? & _ & _ & _ & _ & _ & Hl & _); congruence).
    unfold el_output_key_from_script_pubkey in Hq. apply bind_Ok in Hq as (bytes & Hbytes%ok_or_Ok & Hq).
    apply strip_prefix_bytes_Some in Hbytes. destruct (Nat.eqb_spec (length bytes) 32); [|done]. cbn [negb] in Hq.
    destruct (xonly_public_key bytes) eqn:Hx; [|done]. apply Ok_inj in Hq as <-. by exists prevout, bytes, leaf.
  - intros (prevout & q & leaf & Hp & Hscript & Hl & Hx & Hc & Hs). unfold spend_sighash in Hs. cbn in Hs.
    assert (validate_sighash_inputs tx prevouts n annex = Ok tt) as ->.
    { unfold liquid_taproot_sighash_with_leaf_hash in Hs. by apply bind_Ok in Hs as ([] & Hv & _). }
    rewrite Hp. cbn [ok_or mbind result_bind]. unfold el_output_key_from_script_pubkey. rewrite Hscript.
    rewrite (proj2 (strip_prefix_bytes_Some [0x51; 0x20] ([0x51; 0x20] ++ q) q)) by done. cbn [ok_or mbind result_bind]. rewrite Hl, Hx. cbn [Nat.eqb negb mbind result_bind].
    rewrite (liquid_control_block_complete _ _ _ _ Hc). destruct Hc as (? & ? & ? & _ & _ & _ & _ & _ & -> & _). exact Hs.
Qed.
End commitments.

(** ** The provider's signature *)

Section signatures.
Context `{EventCrypto, TweakAdd, Secp256k1, WalletCrypto}.
Context `{!ScalarBytes, !Secp256k1Laws, !WalletCryptoLaws}.

(** [sig] is the signature of the path's key over the hash [h] of the spend, of
    an output that commits to [script]. *)
Definition liquid_signed (w : ProviderWallet) (path : WalletPath) (tx : LiquidTransaction) (prevouts : list LiquidPrevout) (n : nat)
    (genesis script cb h : list Z) (sig : WalletSignature) : Prop :=
  exists key prevout q leaf,
    derive_bip86_key w path = Ok key /\ prevouts !! n = Some prevout /\ lp_script_pubkey prevout = [0x51; 0x20] ++ q
    /\ length q = 32%nat /\ xonly_public_key q = true /\ liquid_committed q script cb leaf
    /\ spend_sighash (mkSpend tx prevouts n genesis leaf None) = Ok h
    /\ sig = mkWalletSignature (x_only_public_key (from_secret_key key)).1 (sign_schnorr_no_aux_rand h key).

(** The provider signs a Liquid script spend exactly when it can derive the
    key of the path, the spent output is a Taproot output that commits to the
    script through the control block, and the spend is well-formed; the
    signature is then the one of that key over the hash of that very spend and
    leaf, and it verifies. *)
Theorem liquid_signature_exact w path tx prevouts n genesis script cb sig :
  Forall is_byte cb ->
  (sign_liquid_script_path w path tx prevouts n genesis script cb = Ok sig
   <-> exists h, liquid_signed w path tx prevouts n genesis script cb h sig)
  /\ forall h, liquid_signed w path tx prevouts n genesis script cb h sig ->
       verify_schnorr (ws_signature sig) h (ws_public_key sig) = true.
Proof.
  intros Hb. unfold sign_liquid_script_path, sign_liquid_taproot_sighash, verify_liquid_taproot_sighash_signature. split; [split|].
  - intros Hs. apply bind_Ok in Hs as (key & Hk & Hs). cbv zeta in Hs. apply bind_Ok in Hs as (h & Hh%map_err_Ok & Hs).
    apply bind_Ok in Hs as (u & Hv%map_err_Ok & Hs). apply Ok_inj in Hs as <-.
    apply script_spend_sighash_Ok in Hh as (prevout & q & leaf & ? & ? & ? & ? & ? & ?); [|done]. by exists h, key, prevout, q, leaf.
  - intros (h & key & prevout & q & leaf & Hk & Hp & Hq & Hl & Hx & Hc & Hs & ->). rewrite Hk. cbn [mbind result_bind].
    rewrite (proj2 (script_spend_sighash_Ok tx prevouts n genesis script cb None h Hb)) by (by exists prevout, q, leaf).
    cbn [map_err mbind result_bind]. by rewrite sign_verifies by (by eapply derive_bip86_secret).
  - intros h (key & prevout & q & leaf & Hk & _ & _ & _ & _ & _ & _ & ->). cbn. apply sign_verifies. by eapply derive_bip86_secret.
Qed.
End signatures.

(** ** Identifiers *)

Lemma el_hex_32_iff value bs : el_parse_lower_hex_32 value = Ok bs <-> value = encode_lower_hex bs /\ bytes_of 32 bs.
Proof.
  unfold el_parse_lower_hex_32. split.
  - intros Hp. destruct (is_lower_hex value 64) eqn:Hh; [|done]. apply is_lower_hex_iff in Hh as [Hl Hf].
    assert (decode_hex value = Ok bs) as Hd.
    { unfold decode_hex. rewrite Hl. cbn [Z.modulo Z.div_eucl]. rewrite (proj2 (forallb_forall _ _)); [exact Hp|].
      intros c Hc. rewrite Forall_forall in Hf. by apply Hf, list_elem_of_In. }
    apply decode_hex_iff in Hd as [-> Hb]. unfold str_len in Hl. rewrite as_bytes_encode, encode_hex_bytes_length in Hl by done.
    split; [done|]. split; [unfold len; lia|done].
  - intros [-> [Hl Hb]]. unfold len in Hl. pose proof (proj2 (decode_hex_iff _ bs) (conj eq_refl Hb)) as Hd.
    assert (is_lower_hex (encode_lower_hex bs) 64 = true) as ->.
    { apply is_lower_hex_iff. rewrite as_bytes_encode by done. unfold str_len. rewrite as_bytes_encode, encode_hex_bytes_length by done. split; [lia|].
      pose proof (encode_lower_hex_digits bs Hb) as Hf. rewrite forallb_forall in Hf. apply Forall_forall. intros c Hc. by apply Hf, list_elem_of_In. }
    cbn [negb]. unfold decode_hex in Hd. by destruct (_ || _).
Qed.

Lemma liquid_network_iff value n :
  liquid_network_parse value = Ok n <-> n = value /\ exists reference, value = "bip122:" +:+ reference /\ is_lower_hex reference 32 = true.
Proof.
  unfold liquid_network_parse. split.
  - destruct (strip_prefix "bip122:" value) as [r|] eqn:Hr; [|done]. apply strip_prefix_Some in Hr. destruct (is_lower_hex r 32) eqn:Hl; [|done].
    intros <-%Ok_inj. split; [done|]. by exists r.
  - intros [-> (r & -> & Hr)]. rewrite (proj2 (strip_prefix_Some "bip122:" _ r)) by done. by rewrite Hr.
Qed.

Lemma strip_suffix_iff suffix s r : strip_suffix_text suffix s = Some r <-> s = r +:+ suffix.
Proof.
  unfold strip_suffix_text. rewrite fmap_Some. split.
  - intros (l & Hl & ->). apply strip_prefix_bytes_Some in Hl. apply (f_equal (@rev Z)) in Hl. rewrite rev_involutive, rev_app_distr, rev_involutive in Hl.
    pose proof (as_bytes_range s) as Hb. rewrite Hl in Hb. apply Forall_app in Hb as [Hb _].
    apply as_bytes_inj. by rewrite as_bytes_app, as_bytes_of_bytes.
  - intros ->. exists (rev (as_bytes r)). rewrite rev_involutive, of_bytes_as_bytes. split; [|done].
    apply strip_prefix_bytes_Some. by rewrite as_bytes_app, rev_app_distr.
Qed.

Lemma split_elements reference rest :
  is_lower_hex reference 32 = true ->
  split_once_text ":elements:" (("bip122:" +:+ reference) +:+ ":elements:" +:+ rest) = Some ("bip122:" +:+ reference, rest).
Proof.
  intros [Hl Hf]%is_lower_hex_iff. unfold split_once_text. rewrite !as_bytes_app. unfold str_len in Hl.
  pose proof (of_bytes_as_bytes reference) as Href. destruct (as_bytes reference) as [|h0 [|h1 hs]]; [done..|]. cbn in Hl.
  set (r := as_bytes rest). set (sep := as_bytes ":elements:").
  assert (split_once_text_bytes sep ((as_bytes "bip122:" ++ h0 :: h1 :: hs) ++ sep ++ r) = Some (as_bytes "bip122:" ++ h0 :: h1 :: hs, r)) as ->.
  { assert (split_once_text_bytes sep ((h0 :: h1 :: hs) ++ sep ++ r) = Some (h0 :: h1 :: hs, r)) as Hfree.
    { apply (split_once_text_free 58 (as_bytes "elements:")). intros Hin. rewrite Forall_forall in Hf. apply Hf in Hin. by vm_compute in Hin. }
    apply Forall_cons in Hf as [_ [Hh1 _]%Forall_cons].
    assert (strip_prefix_bytes sep (58 :: (h0 :: h1 :: hs) ++ sep ++ r) = None) as Hno.
    { change sep with (58 :: 101 :: 108 :: as_bytes "ements:"). cbn [app strip_prefix_bytes]. rewrite Z.eqb_refl. destruct (101 =? h0); [|done].
      destruct (Z.eqb_spec 108 h1) as [<-|]; [|done]. by vm_compute in Hh1. }
    change (as_bytes "bip122:") with [98; 105; 112; 49; 50; 50; 58]. cbn [app] in *.
    change sep with (58 :: as_bytes "elements:") in *. rewrite !split_text_skip by done.
    rewrite (split_text_miss _ _ _ Hno), Hfree. done. }
  cbn [mbind option_bind]. rewrite of_bytes_app, Href, of_bytes_as_bytes. subst r. by rewrite of_bytes_as_bytes.
Qed.

(** An asset text is accepted only as the text of a network and a 32-byte
    asset, and is read back as what it was written from. *)
Theorem liquid_asset_exact s network asset :
  parse_mkt s = Ok (network, asset)
  <-> s = mkt_asset_id asset network /\ bytes_of 32 asset
      /\ exists reference, network = "bip122:" +:+ reference /\ is_lower_hex reference 32 = true.
Proof.
  unfold parse_mkt, mkt_asset_id, liquid_asset_parse. split.
  - intros Hp. apply bind_Ok in Hp as (v & Hv%ok_or_Ok%strip_prefix_Some & Hp). apply bind_Ok in Hp as ([net rest] & Hr%ok_or_Ok%split_once_text_Some & Hp).
    apply bind_Ok in Hp as (text & Ht%ok_or_Ok%strip_suffix_iff & Hp). apply bind_Ok in Hp as (n & [-> Hn]%liquid_network_iff & Hp).
    apply bind_Ok in Hp as (a & [Ha Hb]%map_err_Ok%el_hex_32_iff & Hp). apply Ok_inj in Hp. injection Hp as -> ->. by rewrite Hv, Hr, Ht, Ha.
  - intros (-> & Hb & reference & -> & Hr). rewrite (proj2 (strip_prefix_Some "swp:1:" _ _) eq_refl). cbn [ok_or mbind result_bind].
    rewrite split_elements by done. cbn [ok_or mbind result_bind]. rewrite (proj2 (strip_suffix_iff _ _ _) eq_refl). cbn [ok_or mbind result_bind].
    rewrite (proj2 (liquid_network_iff _ ("bip122:" +:+ reference))) by (split; [done|by exists reference]). cbn [mbind result_bind].
    by rewrite (proj2 (el_hex_32_iff _ asset)).
Qed.

(** ** A confidential spend *)

#[local] Existing Instances toy_schnorr toy_secp toy_add_tweak toy_wallet.

Definition liquid_key : list Z := Eval vm_compute in
  match derive_bip86_key example_wallet example_path with Ok key => (x_only_public_key (from_secret_key key)).1 | Err _ => [] end.
Definition liquid_script : list Z := 0x20 :: liquid_key ++ [0xac].
Definition liquid_tree : list Z * list Z := Eval vm_compute in
  match (leaf ← liquid_tapleaf_hash liquid_script; liquid_taproot_output_key (be_bytes 32 12) (Some leaf)) with
  | Ok (q, parity) => (q, control_block_of ELEMENTS_TAPROOT_LEAF_VERSION parity (be_bytes 32 12) [])
  | Err _ => ([], [])
  end.

(** A point as the commitment of an asset or a value. *)
Definition commitment (shift secret : Z) : list Z :=
  match pk_serialize (from_secret_key secret) with header :: bytes => header + shift :: bytes | [] => [] end.

Definition liquid_example (witness : list (list Z)) : LiquidTransaction :=
  let proof := replicate 4 7 in
  let tx := mkLiquidTransaction 2
    [mkLiquidInput (replicate 32 1) 3 0xfffffffd [] false true None [] [] witness []]
    [mkLiquidOutput (ACommitment (commitment 8 5)) (VCommitment (commitment 6 7)) (NEphemeralKey (pk_serialize (from_secret_key 9)))
       ([0x51; 0x20] ++ be_bytes 32 12) (proof_digest proof) (proof_digest proof) proof proof;
     mkLiquidOutput (AExplicit (replicate 32 4)) (VExplicit 500) NNull [] None None [] []] 0 [] [] true in
  mkLiquidTransaction (ltx_version tx) (ltx_inputs tx) (ltx_outputs tx) (ltx_lock_time tx)
    (rev (sha256 (sha256 (id_bytes tx)))) (sha256 (liquid_bytes tx)) true.
Definition unsigned_raw : list Z := Eval vm_compute in liquid_bytes (liquid_example []).
Definition signed_raw : list Z := Eval vm_compute in liquid_bytes (liquid_example [replicate 64 1; liquid_script; liquid_tree.2]).
Definition parsed (raw : list Z) : LiquidTransaction := match parse_liquid_transaction raw with Ok tx => tx | Err _ => liquid_example [] end.
Definition unsigned_tx : LiquidTransaction := Eval vm_compute in parsed unsigned_raw.
Definition signed_tx : LiquidTransaction := Eval vm_compute in parsed signed_raw.
Definition liquid_prevouts : list LiquidPrevout := Eval vm_compute in
  [mkLiquidPrevout (ACommitment (commitment 8 5)) (VExplicit 1000) ([0x51; 0x20] ++ liquid_tree.1)].

Lemma liquid_parsed : parse_liquid_transaction unsigned_raw = Ok unsigned_tx /\ parse_liquid_transaction signed_raw = Ok signed_tx.
Proof. split; vm_compute; reflexivity. Qed.
Lemma unsigned_bytes : Forall is_byte unsigned_raw.
Proof. apply bytes_check. vm_compute. reflexivity. Qed.
Lemma signed_bytes : Forall is_byte signed_raw.
Proof. apply bytes_check. vm_compute. reflexivity. Qed.

Lemma liquid_parse_exact_witness : liquid_typed signed_tx /\ signed_raw = liquid_bytes signed_tx.
Proof.
  destruct (proj1 (@liquid_parse_exact _ _ signed_raw signed_tx signed_bytes) (proj2 liquid_parsed)) as (Ht & Hr & _).
  exact (conj Ht Hr).
Defined.

Definition liquid_leaf : list Z := Eval vm_compute in match liquid_tapleaf_hash liquid_script with Ok leaf => leaf | Err _ => [] end.
Definition liquid_spend (tx : LiquidTransaction) : LiquidSpend := mkSpend tx liquid_prevouts 0 (replicate 32 6) liquid_leaf None.

Lemma is_Some_check {A} (o : option A) : match o with Some _ => true | None => false end = true -> is_Some o.
Proof. by destruct o. Qed.

Lemma liquid_prevouts_typed : Forall prevout_typed liquid_prevouts.
Proof.
  apply Forall_singleton. split; [|split; [done|split; [done|apply bytes_check; done]]].
  eexists _, _. split; [reflexivity|]. split; [by left|]. split; [split; [done|by apply bytes_check]|]. apply is_Some_check. vm_compute. reflexivity.
Qed.

Lemma liquid_spend_typed raw tx : Forall is_byte raw -> parse_liquid_transaction raw = Ok tx -> spend_typed (liquid_spend tx).
Proof.
  intros Hb Hp. split; [by eapply parse_canonical|]. split; [apply liquid_prevouts_typed|].
  split; [split; [done|by apply bytes_check]|]. split; [split; [done|by apply bytes_check]|done].
Qed.

Lemma liquid_hashes : exists h, spend_sighash (liquid_spend unsigned_tx) = Ok h /\ spend_sighash (liquid_spend signed_tx) = Ok h.
Proof. eexists. split; vm_compute; reflexivity. Qed.

(** Signing an input does not change the hash. *)
Lemma liquid_sighash_binds_witness :
  collides (liquid_spend unsigned_tx) (liquid_spend signed_tx) \/ same_commitment (liquid_spend unsigned_tx) (liquid_spend signed_tx).
Proof.
  destruct liquid_hashes as (h & Hu & Hs).
  exact (@liquid_sighash_binds _ _ toy_schnorr_digest _ _ h (liquid_spend_typed _ _ unsigned_bytes (proj1 liquid_parsed))
           (liquid_spend_typed _ _ signed_bytes (proj2 liquid_parsed)) Hu Hs).
Defined.

#[local] Notation liquid_signing :=
  (sign_liquid_script_path example_wallet example_path unsigned_tx liquid_prevouts 0 (replicate 32 6) liquid_script liquid_tree.2).
Lemma liquid_signature : exists sig, liquid_signing = Ok sig.
Proof. apply is_ok_spec. vm_compute. reflexivity. Qed.
Lemma liquid_control_bytes : Forall is_byte liquid_tree.2.
Proof. by apply bytes_check. Qed.

Lemma liquid_signature_exact_witness :
  exists sig h, liquid_signing = Ok sig /\ verify_schnorr (ws_signature sig) h (ws_public_key sig) = true.
Proof.
  destruct liquid_signature as (sig & Hs).
  destruct (@liquid_signature_exact _ _ _ _ toy_add_tweak_scalar toy_secp_laws toy_wallet_laws
              example_wallet example_path unsigned_tx liquid_prevouts 0 (replicate 32 6) liquid_script liquid_tree.2 sig liquid_control_bytes)
    as [Hiff Hver].
  destruct (proj1 Hiff Hs) as (h & Hh). exists sig, h. exact (conj Hs (Hver h Hh)).
Defined.
